(* ===== verification/_CoqProject ===== *)
-Q . S2P
Prelude.v
Text.v
BlueMath.v
Domain.v
AdaptiveCurve.v
Accrual.v
Adapters.v
IdleLocks.v
Caps.v
Episodes.v
Models.v
Storage.v
Config.v
Projection.v
Simulator.v
SimulatorProofs.v
Provider.v
ProviderProofs.v
Candidates.v
Objective.v
Calldata.v
Firewall.v
FirewallExample.v
Capital.v
CapOrder.v
Maintenance.v
Rate.v
TopK.v
TopKProofs.v
TopKSolve.v
TopKSolveProofs.v
Builders.v
Revision.v
Planning.v
PlanTopK.v
PlanService.v
ProtocolLock.v
Actor.v
StorageProofs.v
StorageLedger.v
StorageExample.v
Signer.v
Pending.v
SigningProofs.v
PlanPriority.v
PlanningExample.v
Logs.v
Conformance.v
ConformanceProofs.v
Reconciliation.v
FinalPreflight.v
FinalPreflightProofs.v
SigningExample.v
Heads.v
HeadsProofs.v
ConformanceExample.v
RawConfig.v
ConfigValidation.v
ConfigProofs.v
ConfigOrder.v
ConfigExample.v
Topology.v
TopologyProofs.v
Capability.v
Journal.v
JournalProofs.v
Recovery.v
Controller.v
ApiStore.v
Identity.v
Snapshot.v
EventSources.v
IdleReplay.v
StateService.v
StateServiceProofs.v
Coordinator.v
LiveSources.v
Execution.v
ExecutionProofs.v
RuntimeExample.v
