(* ===== verification/Prelude.v ===== *)
(** * Morpho Vault V2 reallocator: a verification development

    The program is a bot that owns the allocator role of Morpho Vault V2
    vaults.  It follows the chain, keeps an exact snapshot of every vault,
    plans reallocations, signs and submits at most one transaction at a time
    and reconciles what happened.  This library models its Rust sources
    (under [src/src/]) as executable definitions and proves the properties
    that make them correct.

    ** The parts and how they interact

    - Chain.  [chain/provider.rs] talks to RPC endpoints, [chain/heads.rs]
      and [chain/reorg.rs] follow the head and rewind, [chain/receipts.rs] and
      [chain/provider_consensus.rs] attribute receipts, [chain/logs.rs]
      decodes protocol events into invalidations.
    - Configuration.  [config.rs] and [config/top_k.rs] validate the written
      configuration into the records every part reads.
    - State.  [state/topology.rs] replays which adapters, markets and pending
      calls a vault has, [state/capability.rs] decides what may be done with
      it, [state/idle_locks.rs] and [state/attribution.rs] keep the ledger
      of held-back idle assets, [state/caps.rs] the caps,
      [state/projection.rs] projects a snapshot to a head with the arithmetic
      of [morpho/].
    - Planner.  [planner/simulator.rs] simulates action sequences;
      [planner/liquidity.rs], [planner/capital.rs], [planner/rate.rs] and
      [planner/top_k_apy.rs] search for them; [planner/episodes.rs] is the
      state machine of a rate signal.
    - Planning service.  [runtime/planning_revision.rs] collects what is
      dirty, [runtime/planning_service.rs] runs the solvers in their priority,
      passes their plans through the firewall and makes them durable.
    - Runtime.  [runtime/state_service.rs] applies the chain's updates: it
      replays topologies and, with [runtime/idle_ledger_service.rs], idle
      ledgers, refreshes exact snapshots, publishes them to the cache of
      [api/routes.rs] and moves the vault states of [runtime/controller.rs];
      [runtime/identity.rs] checks deployed code and [runtime/readiness.rs]
      reports.  [runtime/planning_coordinator.rs] plans what it publishes.
      [runtime/execution_service.rs] is the one worker that signs: it recovers
      the durable nonce lanes, revalidates open reconciliations and starts at
      most one fresh transaction per signer, from the exact states that
      [runtime/current_state_source.rs] and [runtime/preflight_source.rs] read.
    - Transactions.  [transaction/firewall.rs], [encoder.rs], [decoder.rs] and
      [fees.rs] admit plans and envelopes, [signer.rs], [remote_signer.rs],
      [local_signer.rs] and [lifecycle.rs] sign what is durable,
      [final_preflight.rs] composes everything up to the submission,
      [pending.rs] replaces or cancels.
    - Reconciliation.  [reconciliation/] compares the receipt of a transaction
      with its plan and closes it on a rebuilt snapshot.
    - Storage.  [storage/actor.rs] is the single writer of the durable state;
      every part above reads and writes it by commands.

    ** Which file models which part

    - [Prelude]: the result monad, checked and saturating machine arithmetic,
      ordered maps and sets, folds that may fail, the tactics and hints.
      [Text]: strings and hexadecimal integers.
    - [BlueMath], [AdaptiveCurve], [Accrual], [Adapters]: [morpho/].
      [Domain]: [domain.rs].  [Config]: the validated records of [config.rs].
    - [IdleLocks], [Caps], [Projection]: [state/].  [Simulator],
      [SimulatorProofs]: [planner/simulator.rs].  [Episodes]:
      [planner/episodes.rs].  [Candidates], [Objective], [Capital],
      [CapOrder], [Maintenance], [Rate], [Builders]: the other planner files.
      [TopK], [TopKSolve] with [TopKProofs], [TopKSolveProofs]:
      [planner/top_k_apy.rs].
    - [Revision], [Planning], [PlanTopK], [PlanService], [PlanPriority]: [runtime/planning_revision.rs] and
      [runtime/planning_service.rs].
    - [Models], [Storage], [Actor] with [StorageProofs] and
      [StorageLedger]: [storage/].  [Journal] with [JournalProofs]: the manifest, journal and checkpoint files of
      [storage/actor.rs] on a file system that may fail; [Recovery]: what a
      restart finds after a crash.
    - [Calldata], [Firewall], [Signer], [Pending], [SigningProofs], [FinalPreflight], [FinalPreflightProofs]:
      [transaction/].
    - [ProtocolLock]: [protocol_lock.rs] and [contracts/].
    - [Provider], [ProviderProofs], [Logs], [Heads], [HeadsProofs]: [chain/].
    - [Conformance], [ConformanceProofs], [Reconciliation]:
      [reconciliation/].
    - The files that end in [Example] hold concrete vaults and runs on which
      the theorems are applied.
    - [RawConfig], [ConfigValidation] with [ConfigProofs] and [ConfigOrder]:
      the written configuration of [config.rs] and [config/top_k.rs] and its
      validation.
    - [Topology] with [TopologyProofs]: [state/topology.rs] and
      [state/pending_admin.rs].  [Capability]:
      [state/capability.rs].  [Snapshot]: the binding of a snapshot in
      [state/snapshot.rs].
    - [Controller]: [runtime/controller.rs] and [runtime/readiness.rs].
      [ApiStore]: the cache of [api/routes.rs].  [Identity]:
      [runtime/identity.rs].  [EventSources], [StateService] with
      [StateServiceProofs]: [runtime/state_service.rs].  [IdleReplay]:
      [runtime/idle_ledger_service.rs].  [Coordinator]:
      [runtime/planning_coordinator.rs].  [LiveSources]: the two live sources.
      [Execution] with [ExecutionProofs]: [runtime/execution_service.rs] and
      the dispositions of [runtime/failure.rs].  [RuntimeExample] runs them on
      one vault.

    ** Conventions

    A [u64], [u128] or [U256] is a [Z] with its width written out where an
    operation checks, saturates or wraps; an address or hash is its number; a
    [BTreeMap] is a [gmap] read in key order ([btree_entries]), a [Vec] a
    list.  [Result] is [result]; an [async] function is a computation on an
    explicit world: the durable state, what left the process and the state of
    the outside.  Calls joined by [try_join!] and buffered streams run in
    their order.  Every file-system call of the storage actor may work, fail or
    be the one at which the process stops; an interrupted append leaves any
    prefix of its line.  Logging, metrics and progress callbacks are left out.
    The execution worker shares its world with the other tasks: whenever it
    awaits storage or a provider, they may run any commands of the storage
    actor, publish to the cache and move vault states ([ExecutionEnvironment]).
    Its world also keeps a record of the fresh executions it started with what
    it saw, of what it submitted and of the alerts it raised, without their
    texts and times; no step of the model reads it back.

    Code outside the repository is a class or an argument, never a made-up
    definition: Keccak-256, the ABI coders [sol!] generates, JSON writers, the
    EIP-2718 coder, the signers' keys and service, the RPC exchange, clocks.
    The laws stated of them ([VaultAbiLaws], [EventAbiLaws], [ChainLaws], ...)
    are their documented behaviour, and every theorem that uses one is applied
    to a concrete instance.

    ** What the theorems show

    - Arithmetic: the interest model never fails on a storable market and
      keeps its target rate in the band; the bisection finds exact maxima
      below any bound but the largest 256-bit number, where it always fails;
      conversions round against the caller.
    - Configuration: what validates has its roles, ranges and references.
    - Topology: the index is well formed through any replay, never forgets,
      and refines the membership the chain's events define; capabilities are
      enabled exactly when nothing speaks against them.
    - Simulation: a successful run conserves loan tokens, protects locked idle
      and respects every cap; the idle ledger is exact through any transaction
      and applies every attributable one.
    - Planning: every movement a solver returns simulates, meets its service,
      loss and value bounds and stays within budgets and headroom; complete
      searches are optimal; top-K targets are exact partitions and selections
      change only as confirmed; refreshes make only allowed calls in the
      allowed order, and the durable episodes agree with them.
    - Firewall and signing: an admitted plan encodes to one canonical calldata
      and a signable envelope; nothing is signed or submitted that is not
      durable, checked and of the released plan; replacements keep the nonce
      lane.
    - Storage: the transaction lifecycle follows its graph, a signer has one
      unresolved lane, reservations and episodes balance as long as episodes
      are stored from what is durable, rewinds decide every row exactly; the
      journal stays readable through every commit, and what was acknowledged
      is what a restart after a shutdown or a crash finds, unless one of the
      stated reasons keeps it from starting.
    - Chain: providers send only what their roles allow; the durable chain
      stays linked, except where a service that keeps only the latest state
      skipped history, and is announced only once durable, whatever is
      answered.
    - Runtime: a transaction may only start from a vault whose published exact
      state allows it, and no longer once a relevant block is applied; the
      cache never mixes snapshots; replayed idle ledgers are exact; a verified vault runs the
      locked code; a planning pass accounts for every published revision and
      is stopped only by the storage or the registry.
    - Execution: the live source meets the interface the preflight is proved
      against, so a fresh transaction is signed only on exact, verified state; a
      tick starts one only for a signer without a lane; recovery sends nothing
      that is not for the lane's own nonce; a failure that quarantines signers
      pauses every configured vault unless the registry refuses one; under a
      128-bit ceiling the fees of a lane always leave room for its next attempt.
    - Reconciliation: a conforming receipt shows exactly the planned effects,
      and a transaction is closed only on an exact rebuilt snapshot.

    Interfaces are classes with laws: [PlanBuilder] with [PlanBuilderLaws],
    [RoutineSigner] with [RoutineSignerLaws]; their clients are proved against
    the laws and the implementations discharge them.

    ** Bounds and fuel

    Recursion is structural wherever the source loops over data.  Elsewhere
    fuel is a bound the source implies: [monotone_loop] runs 256 halvings of a
    256-bit interval ([monotone_maximum_correct] shows it ends with the
    maximum below the largest bound); [cap_order] and [chunks_fuel] use the length of the list they
    consume; [log_ranges] the number of blocks left, since each range takes at
    least one; the hexadecimal writer 15 digits beyond the first of a 64-bit
    number; retries count down from their constant.

    ** Not modelled

    Processes and threads ([main.rs], [cli.rs], the command channel and thread
    of the storage actor, [runtime/supervisor.rs], [runtime/shutdown.rs],
    [runtime/process_guard.rs]), HTTP serving and the delivery of alerts
    ([api/], [telemetry/]): their content is I/O around the operations above.
    The [ConfiguredSimulationProvider] of [execution_service.rs] has no
    definition of its own: its one branch is taken in [FinalPreflight].
    The requests of [state/snapshot.rs] with the decoding of their results and
    the multicall batching are RPC reads.  Parsing the JSON or YAML text of
    the configuration is library code. *)

From stdpp Require Import base gmap list sorting numbers option.
From Stdlib Require Import ZArith Lia.

#[global] Open Scope Z_scope.

(** ** Fallible computations

    Rust's [Result<T, E>].  [?] is the monadic bind of stdpp's notation
    [x ← c; k]; [.ok_or(e)] is [ok_or]; [.map_err(f)] is [map_err]. *)

Inductive result (E A : Type) : Type :=
| Ok (a : A)
| Err (e : E).
Arguments Ok {E A} a.
Arguments Err {E A} e.
#[global] Instance result_eq_dec {E A} `{!EqDecision E, !EqDecision A} : EqDecision (result E A).
Proof. solve_decision. Defined.

#[global] Instance result_ret {E} : MRet (result E) := fun A a => Ok a.
#[global] Instance result_bind {E} : MBind (result E) := fun A B f c =>
  match c with Ok a => f a | Err e => Err e end.
#[global] Instance result_fmap {E} : FMap (result E) := fun A B f c =>
  match c with Ok a => Ok (f a) | Err e => Err e end.

Definition ok_or {E A} (o : option A) (e : E) : result E A :=
  match o with Some a => Ok a | None => Err e end.

Definition map_err {E F A} (f : E -> F) (c : result E A) : result F A :=
  match c with Ok a => Ok a | Err e => Err (f e) end.

Definition is_ok {E A} (c : result E A) : bool :=
  match c with Ok _ => true | Err _ => false end.

Definition to_option {E A} (c : result E A) : option A :=
  match c with Ok a => Some a | Err _ => None end.

(** [iter().try_fold(init, f)]. *)
Fixpoint try_fold {E A B} (f : A -> B -> result E A) (a : A) (l : list B) : result E A :=
  match l with
  | [] => Ok a
  | b :: l' => a' ← f a b; try_fold f a' l'
  end.

(** [iter().map(f).collect::<Result<Vec<_>, _>>()]. *)
Fixpoint try_map {E A B} (f : A -> result E B) (l : list A) : result E (list B) :=
  match l with
  | [] => Ok []
  | a :: l' => b ← f a; bs ← try_map f l'; Ok (b :: bs)
  end.

(** The same over [Option], as [collect::<Option<Vec<_>>>()]. *)
Fixpoint opt_map {A B} (f : A -> option B) (l : list A) : option (list B) :=
  match l with
  | [] => Some []
  | a :: l' => b ← f a; bs ← opt_map f l'; Some (b :: bs)
  end.

(** [iter().try_fold(init, f)] over [Option]. *)
Fixpoint opt_fold {A B} (f : A -> B -> option A) (a : A) (l : list B) : option A :=
  match l with
  | [] => Some a
  | b :: l' => a' ← f a b; opt_fold f a' l'
  end.

Lemma bind_Ok {E A B} (c : result E A) (f : A -> result E B) (b : B) :
  c ≫= f = Ok b <-> exists a, c = Ok a /\ f a = Ok b.
Proof. destruct c; cbn; naive_solver. Qed.

Lemma ok_or_Ok {E A} (o : option A) (e : E) (a : A) : ok_or o e = Ok a <-> o = Some a.
Proof. destruct o; cbn; naive_solver. Qed.

Lemma map_err_Ok {E F A} (f : E -> F) (c : result E A) (a : A) :
  map_err f c = Ok a <-> c = Ok a.
Proof. destruct c; cbn; naive_solver. Qed.

Lemma is_ok_true {E A} (c : result E A) : is_ok c = true <-> exists a, c = Ok a.
Proof. destruct c; cbn; naive_solver. Qed.

Lemma to_option_Some {E A} (c : result E A) (a : A) : to_option c = Some a <-> c = Ok a.
Proof. destruct c; cbn; naive_solver. Qed.

(** A property kept by each step of a fold is kept by the fold. *)
Lemma try_fold_inv {E A B} (P : A -> Prop) (f : A -> B -> result E A) a l a' :
  (forall x b x', b ∈ l -> P x -> f x b = Ok x' -> P x') ->
  P a -> try_fold f a l = Ok a' -> P a'.
Proof.
  revert a. induction l as [|b l IH]; intros a Hstep Ha; cbn; [naive_solver|].
  intros (a1 & Hf & Hr)%bind_Ok.
  eapply IH; [| |exact Hr]; [intros; eapply Hstep; eauto; by right|].
  eapply Hstep; eauto; by left.
Qed.

(** A collected [map] relates the two lists pointwise. *)
Lemma try_map_Forall2 {E A B} (f : A -> result E B) l k :
  try_map f l = Ok k -> Forall2 (fun a b => f a = Ok b) l k.
Proof.
  revert k. induction l as [|a l IH]; intros k; cbn [try_map].
  - intros [= <-]. constructor.
  - intros (b & Hb & (bs & Hbs & [= <-])%bind_Ok)%bind_Ok. constructor; [done|]. by apply IH.
Qed.

(** ** Machine integers

    A [w]-bit unsigned value is a [Z] in [0 .. max]; a checked operation is
    [None] exactly when the exact result leaves the domain. *)

Definition U32_MAX : Z := 2 ^ 32 - 1.
Definition U64_MAX : Z := 2 ^ 64 - 1.
Definition U128_MAX : Z := 2 ^ 128 - 1.
Definition U256_MAX : Z := 2 ^ 256 - 1.
Definition I256_MAX : Z := 2 ^ 255 - 1.
Definition I256_MIN : Z := - 2 ^ 255.

Definition in_u (max x : Z) : Prop := 0 <= x <= max.
Abbreviation u32 := (in_u U32_MAX).
Abbreviation u64 := (in_u U64_MAX).
Abbreviation u128 := (in_u U128_MAX).
Abbreviation u256 := (in_u U256_MAX).
Definition i256 (x : Z) : Prop := I256_MIN <= x <= I256_MAX.

Definition checked_add (max a b : Z) : option Z :=
  if a + b <=? max then Some (a + b) else None.
Definition checked_sub (a b : Z) : option Z :=
  if b <=? a then Some (a - b) else None.
Definition checked_mul (max a b : Z) : option Z :=
  if a * b <=? max then Some (a * b) else None.
Definition checked_div (a b : Z) : option Z :=
  if b =? 0 then None else Some (a / b).
Definition saturating_sub (a b : Z) : Z := if b <=? a then a - b else 0.
Definition saturating_add (max a b : Z) : Z := if a + b <=? max then a + b else max.

(** [u64::try_from(x)] and the like. *)
Definition try_from_u (max x : Z) : option Z := if x <=? max then Some x else None.

(** Signed 256-bit arithmetic; division rounds toward zero. *)
Definition i256_fit (x : Z) : option Z :=
  if (I256_MIN <=? x) && (x <=? I256_MAX) then Some x else None.
Definition i256_add (a b : Z) : option Z := i256_fit (a + b).
Definition i256_sub (a b : Z) : option Z := i256_fit (a - b).
Definition i256_mul (a b : Z) : option Z := i256_fit (a * b).
Definition i256_div (a b : Z) : option Z :=
  if b =? 0 then None else i256_fit (Z.quot a b).
Definition i256_neg (a : Z) : option Z := i256_fit (- a).
(** [I256::try_from(u256)] and [U256::try_from(i256)]. *)
Definition i256_of_u256 (x : Z) : option Z := if x <=? I256_MAX then Some x else None.
Definition u256_of_i256 (x : Z) : option Z := if 0 <=? x then Some x else None.

#[global] Arguments checked_add : simpl never.
#[global] Arguments checked_sub : simpl never.
#[global] Arguments checked_mul : simpl never.
#[global] Arguments checked_div : simpl never.
#[global] Arguments saturating_add : simpl never.
#[global] Arguments saturating_sub : simpl never.
#[global] Arguments try_from_u : simpl never.
#[global] Arguments i256_fit : simpl never.
#[global] Arguments i256_add : simpl never.
#[global] Arguments i256_sub : simpl never.
#[global] Arguments i256_mul : simpl never.
#[global] Arguments i256_div : simpl never.
#[global] Arguments i256_neg : simpl never.
#[global] Arguments i256_of_u256 : simpl never.
#[global] Arguments u256_of_i256 : simpl never.

(** *** Inversion of the checked operations *)

Lemma checked_add_Some max a b c :
  checked_add max a b = Some c <-> c = a + b /\ a + b <= max.
Proof. unfold checked_add. case_match; naive_solver lia. Qed.

Lemma checked_sub_Some a b c : checked_sub a b = Some c <-> c = a - b /\ b <= a.
Proof. unfold checked_sub. case_match; naive_solver lia. Qed.

Lemma checked_mul_Some max a b c :
  checked_mul max a b = Some c <-> c = a * b /\ a * b <= max.
Proof. unfold checked_mul. case_match; naive_solver lia. Qed.

Lemma checked_div_Some a b c : checked_div a b = Some c <-> c = a / b /\ b <> 0.
Proof. unfold checked_div. case_match; naive_solver lia. Qed.

Lemma i256_fit_Some a c : i256_fit a = Some c <-> c = a /\ i256 a.
Proof. unfold i256_fit, i256. case_match; naive_solver lia. Qed.

Lemma i256_of_u256_Some x y : i256_of_u256 x = Some y <-> y = x /\ x <= I256_MAX.
Proof. unfold i256_of_u256. case_match; naive_solver lia. Qed.

Lemma u256_of_i256_Some x y : u256_of_i256 x = Some y <-> y = x /\ 0 <= x.
Proof. unfold u256_of_i256. case_match; naive_solver lia. Qed.

Lemma try_from_u_Some max x y : try_from_u max x = Some y <-> y = x /\ x <= max.
Proof. unfold try_from_u. case_match; naive_solver lia. Qed.

Lemma saturating_sub_spec a b : saturating_sub a b = Z.max 0 (a - b).
Proof. unfold saturating_sub. case_match; lia. Qed.

Lemma saturating_add_spec max a b : saturating_add max a b = Z.min (a + b) max.
Proof. unfold saturating_add. case_match; lia. Qed.

Lemma U256_MAX_pos : 0 < U256_MAX.
Proof. reflexivity. Qed.

Lemma u_nonneg max x : in_u max x -> 0 <= x.
Proof. by intros []. Qed.

Lemma in_u_sub max a b : in_u max a -> 0 <= b <= a -> in_u max (a - b).
Proof. unfold in_u. lia. Qed.

Lemma in_u_add max a b : in_u max a -> 0 <= b -> a + b <= max -> in_u max (a + b).
Proof. unfold in_u. lia. Qed.

Lemma in_u_min max a b : in_u max a -> in_u max b -> in_u max (Z.min a b).
Proof. unfold in_u. lia. Qed.

Lemma in_u_div max a b : in_u max a -> 0 < b -> in_u max (a / b).
Proof.
  unfold in_u. intros [Ha Hm] Hb. split; [by apply Z.div_pos|].
  etrans; [|exact Hm]. apply Z.div_le_upper_bound; nia.
Qed.

(** Floor division compared across different denominators. *)
Lemma div_cross_le a b c d : 0 < b -> 0 < d -> a * d <= c * b -> a / b <= c / d.
Proof.
  intros Hb Hd H. apply Z.div_le_lower_bound; [done|].
  pose proof (Z.mul_div_le a b Hb). nia.
Qed.

(** The same for one holding [h] priced at two share prices. *)
Lemma scaled_div_le h a b c d :
  0 <= h -> 0 < b -> 0 < d -> a * d <= c * b -> h * a / b <= h * c / d.
Proof.
  intros Hh Hb Hd H. apply div_cross_le; [done..|].
  rewrite <-!Z.mul_assoc. by apply Z.mul_le_mono_nonneg_l.
Qed.

Create HintDb checked.
Create Rewrite HintDb checked.
#[export] Hint Resolve u_nonneg in_u_sub in_u_add in_u_min in_u_div : checked.
#[export] Hint Rewrite saturating_sub_spec saturating_add_spec : checked.

(** ** Automation

    [inv_ok] turns hypotheses of the form [program = Ok v] (or [Some v]) into
    the equations and bounds of every intermediate step. *)

Ltac inv_ok_step :=
  match goal with
  | H : Ok _ = Ok _ |- _ => injection H as H
  | H : Err _ = Ok _ |- _ => discriminate H
  | H : Ok _ = Err _ |- _ => discriminate H
  | H : Some _ = Some _ |- _ => injection H as H
  | H : None = Some _ |- _ => discriminate H
  | H : Some _ = None |- _ => discriminate H
  | H : mret _ = Ok _ |- _ => unfold mret, result_ret in H
  | H : mbind _ _ = Ok _ |- _ => apply bind_Ok in H as (? & ? & H)
  | H : mbind _ _ = Some _ |- _ => apply bind_Some in H as (? & ? & H)
  | H : ok_or _ _ = Ok _ |- _ => apply ok_or_Ok in H
  | H : map_err _ _ = Ok _ |- _ => apply map_err_Ok in H
  | H : to_option _ = Some _ |- _ => apply to_option_Some in H
  | H : checked_add _ _ _ = Some _ |- _ => apply checked_add_Some in H as (? & ?)
  | H : checked_sub _ _ = Some _ |- _ => apply checked_sub_Some in H as (? & ?)
  | H : checked_mul _ _ _ = Some _ |- _ => apply checked_mul_Some in H as (? & ?)
  | H : checked_div _ _ = Some _ |- _ => apply checked_div_Some in H as (? & ?)
  | H : i256_add _ _ = Some _ |- _ => apply i256_fit_Some in H as (? & ?)
  | H : i256_sub _ _ = Some _ |- _ => apply i256_fit_Some in H as (? & ?)
  | H : i256_mul _ _ = Some _ |- _ => apply i256_fit_Some in H as (? & ?)
  | H : i256_neg _ = Some _ |- _ => apply i256_fit_Some in H as (? & ?)
  | H : i256_of_u256 _ = Some _ |- _ => apply i256_of_u256_Some in H as (? & ?)
  | H : u256_of_i256 _ = Some _ |- _ => apply u256_of_i256_Some in H as (? & ?)
  | H : try_from_u _ _ = Some _ |- _ => apply try_from_u_Some in H as (? & ?)
  | H : (if ?b then _ else _) = Ok _ |- _ => destruct b eqn:?
  | H : (if ?b then _ else _) = Some _ |- _ => destruct b eqn:?
  | H : (let '(_, _) := ?p in _) = Ok _ |- _ => destruct p eqn:?
  end.

Ltac inv_ok := repeat (inv_ok_step; cbn beta iota in * ); subst.

(** [step_ok H as x Hx] inverts the first bind of [H] only. *)
Tactic Notation "step_ok" hyp(H) "as" simple_intropattern(x) simple_intropattern(Hx) :=
  apply bind_Ok in H as (x & Hx & H); cbn beta iota in H.

(** [bool_hyps] splits boolean conjunctions and disjunctions of guards. *)
Ltac bool_hyps :=
  repeat match goal with
  | H : (_ && _)%bool = true |- _ => apply andb_true_iff in H as [? ?]
  | H : (_ || _)%bool = false |- _ => apply orb_false_iff in H as [? ?]
  | H : negb _ = true |- _ => apply negb_true_iff in H
  | H : negb _ = false |- _ => apply negb_false_iff in H
  end.

(** [bool_spec E] turns a guard into the propositions it tests. *)
Ltac bool_spec E :=
  repeat first
    [ rewrite orb_true_iff in E | rewrite orb_false_iff in E
    | rewrite andb_true_iff in E | rewrite andb_false_iff in E
    | rewrite negb_true_iff in E | rewrite negb_false_iff in E
    | rewrite Z.eqb_eq in E | rewrite Z.eqb_neq in E
    | rewrite Z.ltb_lt in E | rewrite Z.ltb_ge in E
    | rewrite Z.leb_le in E | rewrite Z.leb_gt in E
    | rewrite bool_decide_eq_true in E | rewrite bool_decide_eq_false in E ].

(** ** Bytes *)

(** [to_be_bytes]: the [n] big-endian bytes of a value. *)
Fixpoint be_bytes (n : nat) (x : Z) : list Z :=
  match n with
  | O => []
  | S n => be_bytes n (x / 256) ++ [x mod 256]
  end.
#[global] Arguments be_bytes : simpl never.

(** The value of big-endian bytes. *)
Definition of_be_bytes (l : list Z) : Z := foldl (fun acc b => 256 * acc + b) 0 l.

Lemma length_be_bytes n x : length (be_bytes n x) = n.
Proof.
  revert x. induction n as [|n IH]; intros x; [done|].
  change (be_bytes (S n) x) with (be_bytes n (x / 256) ++ [x mod 256]).
  rewrite length_app, IH. cbn. lia.
Qed.

Lemma be_bytes_bytes n x : Forall (fun b => 0 <= b < 256) (be_bytes n x).
Proof.
  revert x. induction n as [|n IH]; intros x; [by constructor|].
  change (be_bytes (S n) x) with (be_bytes n (x / 256) ++ [x mod 256]).
  apply Forall_app. split; [apply IH|]. constructor; [|done]. apply Z.mod_pos_bound. lia.
Qed.

Lemma of_be_bytes_be_bytes n x : 0 <= x < 256 ^ Z.of_nat n -> of_be_bytes (be_bytes n x) = x.
Proof.
  revert x. induction n as [|n IH]; intros x Hx; [change (256 ^ Z.of_nat 0) with 1 in Hx;
    change (0 = x); lia|].
  change (be_bytes (S n) x) with (be_bytes n (x / 256) ++ [x mod 256]).
  unfold of_be_bytes in *. rewrite foldl_app, IH.
  - cbn. pose proof (Z.div_mod x 256). lia.
  - rewrite Nat2Z.inj_succ, Z.pow_succ_r in Hx by lia.
    split; [apply Z.div_pos; lia|apply Z.div_lt_upper_bound; lia].
Qed.

(** ** Ordered maps

    A [BTreeMap] is a [gmap]; where the code iterates it, entries come in
    increasing key order. *)

Section BTree.
Context {A : Type}.

Definition key_le (x y : Z * A) : Prop := x.1 <= y.1.
#[global] Instance key_le_dec : RelDecision key_le := fun x y => Z_le_dec x.1 y.1.
#[global] Instance key_le_total : Total key_le.
Proof. intros x y. unfold key_le. lia. Qed.
#[global] Instance key_le_trans : Transitive key_le.
Proof. intros x y z. unfold key_le. lia. Qed.

Definition btree_entries (m : gmap Z A) : list (Z * A) := merge_sort key_le (map_to_list m).
Definition btree_keys (m : gmap Z A) : list Z := (btree_entries m).*1.
Definition btree_values (m : gmap Z A) : list A := (btree_entries m).*2.

Lemma btree_entries_perm m : btree_entries m ≡ₚ map_to_list m.
Proof. apply merge_sort_Permutation. Qed.

Lemma elem_of_btree_entries m k a : (k, a) ∈ btree_entries m <-> m !! k = Some a.
Proof. by rewrite btree_entries_perm, elem_of_map_to_list. Qed.

Lemma NoDup_btree_keys m : NoDup (btree_keys m).
Proof. unfold btree_keys. rewrite btree_entries_perm. apply NoDup_fst_map_to_list. Qed.

Lemma btree_entries_sorted m : Sorted key_le (btree_entries m).
Proof. apply (Sorted_merge_sort key_le). Qed.

Lemma elem_of_btree_keys m k : k ∈ btree_keys m <-> is_Some (m !! k).
Proof.
  unfold btree_keys. rewrite list_elem_of_fmap. split.
  - intros ([k' a] & -> & H%elem_of_btree_entries). by eexists.
  - intros [a H]. exists (k, a). by rewrite elem_of_btree_entries.
Qed.

End BTree.

(** A [BTreeSet] is iterated in increasing order. *)
Definition set_elements (s : gset Z) : list Z := merge_sort Z.le (elements s).

Lemma set_elements_perm s : set_elements s ≡ₚ elements s.
Proof. apply merge_sort_Permutation. Qed.

Lemma elem_of_set_elements s x : x ∈ set_elements s <-> x ∈ s.
Proof. by rewrite set_elements_perm, elem_of_elements. Qed.

(** *** Tuple keys

    The derived order on tuples, as the lists of their components; [Reverse]
    is a negated component. *)
Fixpoint lex_le (a b : list Z) : bool :=
  match a, b with
  | x :: a, y :: b => (x <? y) || (x =? y) && lex_le a b
  | [], _ => true
  | _, [] => false
  end.

Fixpoint lex_lt (a b : list Z) : bool :=
  match a, b with
  | x :: a, y :: b => (x <? y) || (x =? y) && lex_lt a b
  | [], _ :: _ => true
  | _, [] => false
  end.

Lemma lex_lt_irrefl a : lex_lt a a = false.
Proof. induction a as [|x a IH]; [done|]. cbn. by rewrite Z.ltb_irrefl, Z.eqb_refl, IH. Qed.

Lemma lex_lt_trans a b c : lex_lt a b = true -> lex_lt b c = true -> lex_lt a c = true.
Proof.
  revert b c. induction a as [|x a IH]; intros [|y b] [|z c]; cbn; try done.
  rewrite !orb_true_iff, !andb_true_iff, !Z.ltb_lt, !Z.eqb_eq.
  intros [?|[-> Hab]] [?|[-> Hbc]]; [left; lia..|]. right. eauto.
Qed.

(** Keys of one width are equal when neither precedes the other. *)
Lemma lex_lt_total a b :
  length a = length b -> lex_lt a b = false -> lex_lt b a = false -> a = b.
Proof.
  revert b. induction a as [|x a IH]; intros [|y b] Hl; cbn in Hl |- *; try done.
  rewrite !orb_false_iff, !andb_false_iff, !Z.ltb_ge, !Z.eqb_neq.
  intros [? [?|Hab]] [? [?|Hba]]; try lia. f_equal; [lia|]. apply IH; [lia|done..].
Qed.

Lemma lex_le_lt a b : lex_le a b = negb (lex_lt b a).
Proof.
  revert b. induction a as [|x a IH]; intros [|y b]; try done. cbn. rewrite IH.
  destruct (Z.ltb_spec x y), (Z.ltb_spec y x), (Z.eqb_spec x y), (Z.eqb_spec y x); try lia; done.
Qed.

Definition sort_by_key {A} (key : A -> list Z) (l : list A) : list A :=
  merge_sort (fun x y => Is_true (lex_le (key x) (key y))) l.

Lemma sort_by_key_perm {A} (key : A -> list Z) l : sort_by_key key l ≡ₚ l.
Proof. apply merge_sort_Permutation. Qed.

(** [iter().min_by_key(key)]: the first element of minimal key. *)
Fixpoint min_by_key {A} (key : A -> list Z) (l : list A) : option A :=
  match l with
  | [] => None
  | x :: l =>
      match min_by_key key l with
      | None => Some x
      | Some y => if lex_lt (key y) (key x) then Some y else Some x
      end
  end.

Lemma min_by_key_None {A} (key : A -> list Z) l : min_by_key key l = None <-> l = [].
Proof. destruct l; cbn; [done|]. split; [|done]. by repeat case_match. Qed.

Lemma lex_lt_not_trans a b c :
  lex_lt b a = false -> lex_lt c b = false -> lex_lt c a = false.
Proof.
  revert b c. induction a as [|x a IH]; intros [|y b] [|z c]; cbn; try done.
  rewrite !orb_false_iff, !andb_false_iff, !Z.ltb_ge, !Z.eqb_neq.
  intros [? [?|Hab]] [? [?|Hbc]]; (split; [lia|]); [left; lia..|].
  destruct (decide (z = x)); [|by left]. right. eauto.
Qed.

(** The selected element belongs to the list, no other one precedes it, and
    those before it in the list are strictly worse. *)
Lemma min_by_key_Some {A} (key : A -> list Z) l x :
  min_by_key key l = Some x ->
  exists l1 l2, l = l1 ++ x :: l2 /\
    Forall (fun y => lex_lt (key x) (key y) = true) l1 /\
    Forall (fun y => lex_lt (key y) (key x) = false) l.
Proof.
  revert x. induction l as [|y l IH]; intros x; cbn; [done|].
  destruct (min_by_key key l) as [z|] eqn:Ez.
  - destruct (IH z eq_refl) as (l1 & l2 & -> & H1 & H2).
    destruct (lex_lt (key z) (key y)) eqn:Ey; intros [= <-].
    + exists (y :: l1), l2. split; [done|]. split; [by constructor|].
      constructor; [|done]. destruct (lex_lt (key y) (key z)) eqn:E; [|done].
      by rewrite <-(lex_lt_irrefl (key z)), <-(lex_lt_trans _ _ _ Ey E).
    + exists [], (l1 ++ z :: l2). split; [done|]. split; [done|].
      constructor; [apply lex_lt_irrefl|]. rewrite !Forall_forall in *.
      intros w Hw. eapply lex_lt_not_trans; [exact Ey|by apply H2].
  - apply min_by_key_None in Ez as ->. intros [= <-]. exists [], [].
    split; [done|]. split; [done|]. constructor; [apply lex_lt_irrefl|done].
Qed.

(** ** Concatenation *)

Lemma elem_of_concat_map {A B} (f : A -> list B) l y :
  y ∈ concat (f <$> l) <-> exists x, x ∈ l /\ y ∈ f x.
Proof.
  rewrite list_elem_of_In, List.in_concat. split.
  - intros (k & Hk & Hy). apply list_elem_of_In, list_elem_of_fmap in Hk as (x & -> & Hx).
    exists x. split; [done|by apply list_elem_of_In].
  - intros (x & Hx & Hy). exists (f x). split; [|by apply list_elem_of_In].
    apply list_elem_of_In.
    by apply list_elem_of_fmap_2.
Qed.

(** ** Sums *)

Definition list_sum (l : list Z) : Z := foldr Z.add 0 l.

Lemma list_sum_cons x l : list_sum (x :: l) = x + list_sum l.
Proof. done. Qed.

Lemma list_sum_app l k : list_sum (l ++ k) = list_sum l + list_sum k.
Proof. unfold list_sum. induction l; cbn in *; lia. Qed.

Lemma list_sum_perm l k : l ≡ₚ k -> list_sum l = list_sum k.
Proof. unfold list_sum. induction 1; cbn in *; lia. Qed.

Lemma list_sum_nonneg l : Forall (fun x => 0 <= x) l -> 0 <= list_sum l.
Proof. unfold list_sum. induction 1; cbn in *; lia. Qed.

(** Checked accumulation of a list succeeds with the exact sum or fails. *)
Lemma checked_sum_Ok {E} (e : E) max a l t :
  try_fold (fun acc x => ok_or (checked_add max acc x) e) a l = Ok t ->
  t = a + list_sum l.
Proof.
  revert a. induction l as [|x l IH]; intros a H; cbn in H; inv_ok; [cbn; lia|].
  apply IH in H. rewrite list_sum_cons. lia.
Qed.

(** With nonnegative summands whose sum fits, no partial sum overflows. *)
Lemma checked_sum_total {E} (e : E) max a l :
  Forall (fun x => 0 <= x) l -> a + list_sum l <= max ->
  try_fold (fun acc x => ok_or (checked_add max acc x) e) a l = Ok (a + list_sum l).
Proof.
  intros Hl. revert a. induction Hl as [|x l Hx Hl IH]; intros a Ha.
  - cbn. f_equal. lia.
  - pose proof (list_sum_nonneg l Hl). rewrite list_sum_cons in *. cbn [try_fold].
    rewrite (proj2 (checked_add_Some max a x (a + x))) by lia.
    cbn [ok_or mbind result_bind]. rewrite IH by lia. f_equal. lia.
Qed.

(** The same for a projection of the elements. *)
Lemma checked_sum_by_Ok {E B} (e : E) max (g : B -> Z) a l t :
  try_fold (fun acc b => ok_or (checked_add max acc (g b)) e) a l = Ok t ->
  t = a + list_sum (g <$> l).
Proof.
  revert a. induction l as [|x l IH]; intros a H; cbn in H; inv_ok; [cbn; lia|].
  apply IH in H. rewrite fmap_cons, list_sum_cons. lia.
Qed.

Lemma checked_sum_by_total {E B} (e : E) max (g : B -> Z) a l :
  Forall (fun b => 0 <= g b) l -> a + list_sum (g <$> l) <= max ->
  try_fold (fun acc b => ok_or (checked_add max acc (g b)) e) a l = Ok (a + list_sum (g <$> l)).
Proof.
  intros Hl. revert a. induction Hl as [|x l Hx Hl IH]; intros a Ha.
  - cbn. f_equal. lia.
  - assert (0 <= list_sum (g <$> l)) by (apply list_sum_nonneg, Forall_fmap; done).
    rewrite fmap_cons, list_sum_cons in *. cbn [try_fold].
    rewrite (proj2 (checked_add_Some max a (g x) (a + g x))) by lia.
    cbn [ok_or mbind result_bind]. rewrite IH by lia. f_equal. lia.
Qed.

(** The total of a quantity over a map. *)
Definition map_sum_by {A} (g : A -> Z) (m : gmap Z A) : Z :=
  map_fold (fun _ a acc => g a + acc) 0 m.
#[global] Arguments map_sum_by : simpl never.

Lemma map_sum_by_insert_new {A} (g : A -> Z) m k a :
  m !! k = None -> map_sum_by g (<[k := a]> m) = g a + map_sum_by g m.
Proof.
  intros Hk. unfold map_sum_by. rewrite map_fold_insert_L; [done| |done]. intros. lia.
Qed.

Lemma map_sum_by_update {A} (g : A -> Z) m k a b :
  m !! k = Some a -> map_sum_by g (<[k := b]> m) = map_sum_by g m - g a + g b.
Proof.
  intros Hk.
  rewrite <-(insert_delete_eq m k b), map_sum_by_insert_new by apply lookup_delete_eq.
  rewrite <-(insert_delete_id m k a Hk) at 2.
  rewrite map_sum_by_insert_new by apply lookup_delete_eq. lia.
Qed.

(** ** Collecting and summing options *)

Lemma saturating_sub_nonneg a b : 0 <= saturating_sub a b.
Proof. rewrite saturating_sub_spec. lia. Qed.

Lemma opt_map_Forall {A B} (f : A -> option B) (P : B -> Prop) l ys :
  opt_map f l = Some ys -> (forall x y, x ∈ l -> f x = Some y -> P y) ->
  Forall P ys /\ length ys = length l.
Proof.
  revert ys. induction l as [|a l IH]; intros ys H HP; cbn in H; inv_ok; [done|].
  match goal with H : opt_map f l = Some ?z |- _ => destruct (IH z H) as [? ?] end.
  - intros ? ? ? ?. eapply HP; [by right|done].
  - split; [|cbn; lia]. constructor; [|done]. eapply HP; [by left|done].
Qed.

Lemma opt_sum_Some {A} (f : A -> Z) l t z :
  opt_fold (fun total x => checked_add U256_MAX total (f x)) z l = Some t ->
  z <= U256_MAX -> Forall (fun x => 0 <= f x) l -> z <= t <= U256_MAX.
Proof.
  revert z. induction l as [|x l IH]; intros z H Hz Hf; cbn in H; inv_ok; [lia|].
  apply Forall_cons_1 in Hf as [? ?].
  match goal with H : opt_fold _ _ _ = Some _ |- _ => apply IH in H; [lia|lia|done] end.
Qed.

Lemma Forall_filter {A} (P : A -> Prop) f l : Forall P l -> Forall P (List.filter f l).
Proof. induction 1; cbn; [constructor|]. case_match; [by constructor|done]. Qed.

Lemma zip_cons {A B} (a : A) l (b : B) k : zip (a :: l) (b :: k) = (a, b) :: zip l k.
Proof. done. Qed.

(** Keys that appear once name one element. *)
Lemma NoDup_fmap_elem {A B} (f : A -> B) l x y :
  NoDup (f <$> l) -> x ∈ l -> y ∈ l -> f x = f y -> x = y.
Proof.
  intros Hnd (i & Hi)%list_elem_of_lookup (j & Hj)%list_elem_of_lookup He.
  assert (i = j) as ->; [|congruence]. eapply (NoDup_lookup (f <$> l)); [done|..];
    rewrite list_lookup_fmap; [by rewrite Hi|by rewrite Hj, He].
Qed.

Lemma Forall2_zip_elem {A B} (R : A -> B -> Prop) l k x y :
  Forall2 R k l -> (y, x) ∈ zip l k -> R x y.
Proof.
  induction 1 as [|a b k l Hr _ IH]; intros Hin; [by apply elem_of_nil in Hin|].
  rewrite zip_cons in Hin. by apply elem_of_cons in Hin as [[= -> ->]|?]; [|apply IH].
Qed.

Lemma opt_map_elem {A B} (f : A -> option B) l ys y :
  opt_map f l = Some ys -> y ∈ ys -> exists x, x ∈ l /\ f x = Some y.
Proof.
  revert ys. induction l as [|a l IH]; intros ys H; cbn in H; inv_ok;
    [by intros Hy%elem_of_nil|].
  intros [-> |Hy]%elem_of_cons; [exists a; split; [by left|done]|].
  edestruct IH as (z & ? & ?); [done|done|]. exists z. split; [by right|done].
Qed.

Lemma elem_of_concat_options {A} (l : list (option A)) x :
  x ∈ concat (option_list <$> l) <-> Some x ∈ l.
Proof.
  rewrite elem_of_concat_map. split.
  - intros ([y|] & Hy & Hx); [|by apply elem_of_nil in Hx].
    by apply list_elem_of_singleton in Hx as ->.
  - intros Hx. exists (Some x). split; [done|by left].
Qed.
