(* ===== verification/Text.v ===== *)
(** * Text

    The operations of [str] the sources use, on the bytes of a string: ASCII
    case, white space, prefixes, substrings and the hexadecimal integers of
    EVM quantities, with the round trip of the lower-case writer and the
    checked parser. *)
From Stdlib Require Import ZArith Lia String Ascii.
From stdpp Require Import base strings list.
From S2P Require Import Prelude.
Open Scope Z_scope.

Definition is_ascii_hexdigit (c : ascii) : bool :=
  let n := N_of_ascii c in
  ((48 <=? n) && (n <=? 57) || (65 <=? n) && (n <=? 70) || (97 <=? n) && (n <=? 102))%N.

Definition to_ascii_lowercase (c : ascii) : ascii :=
  let n := N_of_ascii c in if ((65 <=? n) && (n <=? 90))%N then ascii_of_N (n + 32) else c.

Fixpoint eq_ignore_ascii_case (a b : string) : bool :=
  match a, b with
  | EmptyString, EmptyString => true
  | String x a, String y b =>
      bool_decide (to_ascii_lowercase x = to_ascii_lowercase y) && eq_ignore_ascii_case a b
  | _, _ => false
  end.

(** The UTF-8 encodings of the characters with the White_Space property. *)
Definition white_space : list (list N) :=
  ((fun n => [n]) <$> [9; 10; 11; 12; 13; 32]%N) ++
  [[194; 133]; [194; 160]; [225; 154; 128]]%N ++
  ((fun n => [226; 128; n]%N) <$>
     [128; 129; 130; 131; 132; 133; 134; 135; 136; 137; 138; 168; 169; 175]%N) ++
  [[226; 129; 159]; [227; 128; 128]]%N.

Fixpoint strip_bytes (p l : list N) : option (list N) :=
  match p, l with
  | [], _ => Some l
  | x :: p, y :: l => if (x =? y)%N then strip_bytes p l else None
  | _, [] => None
  end.

(** One leading white-space character removed. *)
Definition strip_space (encodings : list (list N)) (l : list N) : option (list N) :=
  head (omap (fun p => strip_bytes p l) encodings).

Fixpoint trim_front (fuel : nat) (encodings : list (list N)) (l : list N) : list N :=
  match fuel with
  | O => l
  | S fuel => match strip_space encodings l with
              | Some l => trim_front fuel encodings l
              | None => l
              end
  end.

(** [str::trim]; each round removes at least a byte. *)
Definition trim (s : string) : string :=
  let bytes := N_of_ascii <$> list_ascii_of_string s in
  let front := trim_front (List.length bytes) white_space bytes in
  let back := trim_front (List.length front) (reverse <$> white_space) (reverse front) in
  string_of_list_ascii (ascii_of_N <$> reverse back).

(** [str::starts_with], [str::len] and [str::is_empty]. *)
Definition starts_with (s p : string) : bool := String.prefix p s.
Definition is_empty (s : string) : bool := match s with EmptyString => true | _ => false end.

(** [strip_prefix("0x")] *)
Definition strip_0x (s : string) : option string :=
  match s with
  | String "0"%char (String "x"%char rest) => Some rest
  | _ => None
  end.

Definition hex_digit (c : ascii) : option Z :=
  let n := Z.of_N (N_of_ascii c) in
  if (48 <=? n) && (n <=? 57) then Some (n - 48)
  else if (65 <=? n) && (n <=? 70) then Some (n - 55)
  else if (97 <=? n) && (n <=? 102) then Some (n - 87)
  else None.

(** The value of a run of digits, [None] on a bad digit or past [max]. *)
Definition radix_value (max : Z) (digits : list ascii) : option Z :=
  opt_fold (fun value c =>
    digit ← hex_digit c;
    shifted ← checked_mul max value 16;
    checked_add max shifted digit) 0 digits.

(** [u64::from_str_radix(_, 16)]: a leading plus is allowed, no digits are
    not. *)
Definition u64_from_hex (s : string) : option Z :=
  let digits := match list_ascii_of_string s with
                | "+"%char :: rest => rest
                | digits => digits
                end in
  match digits with [] => None | _ => radix_value U64_MAX digits end.


Definition lowercase (s : string) : string :=
  string_of_list_ascii (to_ascii_lowercase <$> list_ascii_of_string s).

(** [str::contains] *)
Fixpoint contains (s p : string) : bool :=
  starts_with s p || match s with EmptyString => false | String _ s => contains s p end.

Definition hex_char (d : Z) : ascii :=
  ascii_of_N (Z.to_N (if d <? 10 then 48 + d else 87 + d)).

(** The lower-case hexadecimal digits of a nonnegative integer, most
    significant first; [S fuel] digits are written at most. *)
Fixpoint hex_digits (fuel : nat) (v : Z) (acc : list ascii) : list ascii :=
  match fuel with
  | O => hex_char (v mod 16) :: acc
  | S fuel => if v <? 16 then hex_char v :: acc
              else hex_digits fuel (v / 16) (hex_char (v mod 16) :: acc)
  end.

(** The format [x] of a [u64]. *)
Definition hex_of_u64 (v : Z) : string := string_of_list_ascii (hex_digits 15 v []).

(** ** The parser reads the writer *)

Lemma hex_digit_char d : 0 <= d < 16 -> hex_digit (hex_char d) = Some d.
Proof.
  intros H.
  assert (d = 0 \/ d = 1 \/ d = 2 \/ d = 3 \/ d = 4 \/ d = 5 \/ d = 6 \/ d = 7 \/ d = 8 \/ d = 9 \/
          d = 10 \/ d = 11 \/ d = 12 \/ d = 13 \/ d = 14 \/ d = 15) as E by lia.
  by repeat destruct E as [->|E]; [..|subst].
Qed.

Definition radix_step (max value : Z) (c : ascii) : option Z :=
  digit ← hex_digit c;
  shifted ← checked_mul max value 16;
  checked_add max shifted digit.

Lemma radix_step_char max v d :
  0 <= v -> 0 <= d < 16 -> v * 16 + d <= max -> radix_step max v (hex_char d) = Some (v * 16 + d).
Proof.
  intros Hv Hd Hm. unfold radix_step. rewrite hex_digit_char by done. cbn.
  unfold checked_mul, checked_add.
  repeat (rewrite (proj2 (Z.leb_le _ _)) by lia; cbn). done.
Qed.

Lemma radix_value_digits max fuel v acc :
  0 <= v < 16 ^ Z.of_nat (S fuel) -> v <= max ->
  opt_fold (radix_step max) 0 (hex_digits fuel v acc) = opt_fold (radix_step max) v acc.
Proof.
  revert v acc. induction fuel as [|fuel IH]; intros v acc Hv Hm; cbn [hex_digits].
  - cbn [opt_fold]. change (16 ^ Z.of_nat 1) with 16 in Hv. rewrite Z.mod_small by lia.
    by rewrite radix_step_char by lia.
  - destruct (Z.ltb_spec v 16) as [Hs|Hs].
    + cbn [opt_fold]. by rewrite radix_step_char by lia.
    + pose proof (Z.div_mod v 16 ltac:(lia)) as Hdm. pose proof (Z.mod_pos_bound v 16 ltac:(lia)).
      rewrite IH.
      * cbn [opt_fold]. rewrite radix_step_char by lia. cbn. f_equal. lia.
      * rewrite Nat2Z.inj_succ, Z.pow_succ_r in Hv by lia. split; [apply Z.div_pos; lia|].
        apply Z.div_lt_upper_bound; lia.
      * lia.
Qed.

Lemma hex_digits_head fuel v acc :
  0 <= v -> exists d rest, hex_digits fuel v acc = hex_char d :: rest /\ 0 <= d < 16.
Proof.
  revert v acc. induction fuel as [|fuel IH]; intros v acc Hv; cbn [hex_digits].
  - exists (v mod 16), acc. split; [done|]. apply Z.mod_pos_bound. lia.
  - destruct (Z.ltb_spec v 16); [by exists v, acc|]. apply IH, Z.div_pos; lia.
Qed.

Lemma u64_from_hex_of_u64 v : 0 <= v <= U64_MAX -> u64_from_hex (hex_of_u64 v) = Some v.
Proof.
  intros Hv. unfold u64_from_hex, hex_of_u64. rewrite list_ascii_of_string_of_list_ascii.
  destruct (hex_digits_head 15 v [] ltac:(lia)) as (d & rest & E & Hd).
  assert (hex_char d <> "+"%char) as Hp.
  { intros E'. apply (f_equal hex_digit) in E'. by rewrite hex_digit_char in E'. }
  rewrite E.
  replace (match hex_char d :: rest with "+"%char :: r => r | ds => ds end)
    with (hex_char d :: rest).
  2:{ destruct (hex_char d) as [[] [] [] [] [] [] [] []]; done. }
  cbv iota. rewrite <- E. unfold radix_value. fold (radix_step U64_MAX).
  change (opt_fold (radix_step U64_MAX) 0 (hex_digits 15 v []) = Some v).
  rewrite radix_value_digits; [done| |lia]. change (16 ^ Z.of_nat 16) with (U64_MAX + 1). lia.
Qed.
