(* ===== verification/BlueMath.v ===== *)
(** * Morpho Blue share and accrual arithmetic

    Models [src/src/morpho/blue_math.rs] and the error types of
    [src/src/domain.rs] and [src/src/morpho/mod.rs].  Every value is a [U256],
    so an operation fails exactly where Solidity would revert.  The lemmas give
    the exact rounding of each conversion and show that both sides of a supply
    or a withdrawal round against the caller. *)

From stdpp Require Import base list.
From Stdlib Require Import ZArith Lia.
From S2P Require Import Prelude.

(** ** Errors *)

Inductive ArithmeticError : Type :=
| Overflow
| Underflow
| DivisionByZero.

Inductive MathError : Type :=
| Arithmetic (e : ArithmeticError)
| TimestampRegression
| Invariant
| SignedConversion
| SharePriceAboveOne
| InsufficientShares
| InsufficientLiquidity.

#[global] Instance ArithmeticError_eq_dec : EqDecision ArithmeticError.
Proof. solve_decision. Defined.
#[global] Instance MathError_eq_dec : EqDecision MathError.
Proof. solve_decision. Defined.

(** The [#[from]] conversion applied by [?]. *)
Definition arith {A} (c : result ArithmeticError A) : result MathError A :=
  map_err Arithmetic c.

(** ** Operations *)

Definition WAD : Z := 1000000000000000000.
Definition VIRTUAL_SHARES : Z := 1000000.
Definition VIRTUAL_ASSETS : Z := 1.

Definition mul_div_down (x y denominator : Z) : result ArithmeticError Z :=
  if denominator =? 0 then Err DivisionByZero
  else ok_or (product ← checked_mul U256_MAX x y; checked_div product denominator) Overflow.

Definition mul_div_up (x y denominator : Z) : result ArithmeticError Z :=
  if denominator =? 0 then Err DivisionByZero
  else
    product ← ok_or (checked_mul U256_MAX x y) Overflow;
    less_one ← ok_or (checked_sub denominator 1) Underflow;
    padded ← ok_or (checked_add U256_MAX product less_one) Overflow;
    ok_or (checked_div padded denominator) Overflow.

Definition w_mul_down (x y : Z) : result ArithmeticError Z := mul_div_down x y WAD.
Definition w_div_down (x y : Z) : result ArithmeticError Z := mul_div_down x WAD y.
Definition w_div_up (x y : Z) : result ArithmeticError Z := mul_div_up x WAD y.

Definition w_taylor_compounded (x n : Z) : result ArithmeticError Z :=
  first ← ok_or (checked_mul U256_MAX x n) Overflow;
  two_wad ← ok_or (checked_mul U256_MAX WAD 2) Overflow;
  second ← mul_div_down first first two_wad;
  three_wad ← ok_or (checked_mul U256_MAX WAD 3) Overflow;
  third ← mul_div_down second first three_wad;
  ok_or (value ← checked_add U256_MAX first second; checked_add U256_MAX value third) Overflow.

Definition with_virtuals (total_assets total_shares : Z) : result ArithmeticError (Z * Z) :=
  assets ← ok_or (checked_add U256_MAX total_assets VIRTUAL_ASSETS) Overflow;
  shares ← ok_or (checked_add U256_MAX total_shares VIRTUAL_SHARES) Overflow;
  Ok (assets, shares).

Definition to_supply_shares_down (assets total_assets total_shares : Z)
    : result ArithmeticError Z :=
  '(assets_denominator, shares_numerator) ← with_virtuals total_assets total_shares;
  mul_div_down assets shares_numerator assets_denominator.

Definition to_supply_shares_up (assets total_assets total_shares : Z)
    : result ArithmeticError Z :=
  '(assets_denominator, shares_numerator) ← with_virtuals total_assets total_shares;
  mul_div_up assets shares_numerator assets_denominator.

Definition to_supply_assets_down (shares total_assets total_shares : Z)
    : result ArithmeticError Z :=
  '(assets_numerator, shares_denominator) ← with_virtuals total_assets total_shares;
  mul_div_down shares assets_numerator shares_denominator.

Definition to_supply_assets_up (shares total_assets total_shares : Z)
    : result ArithmeticError Z :=
  '(assets_numerator, shares_denominator) ← with_virtuals total_assets total_shares;
  mul_div_up shares assets_numerator shares_denominator.

(** ** Exact rounding *)

Lemma arith_Ok {A} (c : result ArithmeticError A) a : arith c = Ok a <-> c = Ok a.
Proof. apply map_err_Ok. Qed.

Lemma mul_div_down_Ok x y d q :
  mul_div_down x y d = Ok q <-> d <> 0 /\ x * y <= U256_MAX /\ q = x * y / d.
Proof.
  unfold mul_div_down. split.
  - intros H. inv_ok. lia.
  - intros (Hd & Hm & ->). rewrite (proj2 (Z.eqb_neq d 0)) by lia.
    apply ok_or_Ok, bind_Some. exists (x * y).
    by rewrite checked_mul_Some, checked_div_Some.
Qed.

Lemma mul_div_up_Ok x y d q :
  mul_div_up x y d = Ok q <->
  1 <= d /\ x * y + (d - 1) <= U256_MAX /\ x * y <= U256_MAX /\ q = (x * y + (d - 1)) / d.
Proof.
  unfold mul_div_up. split.
  - intros H. inv_ok. lia.
  - intros (Hd & Hm & Hm' & ->). rewrite (proj2 (Z.eqb_neq d 0)) by lia.
    unfold checked_mul, checked_sub, checked_add, checked_div.
    rewrite (proj2 (Z.leb_le (x * y) _)) by done. cbn.
    rewrite (proj2 (Z.leb_le 1 d)) by lia. cbn.
    rewrite (proj2 (Z.leb_le (x * y + (d - 1)) _)) by done. cbn.
    by rewrite (proj2 (Z.eqb_neq d 0)) by lia.
Qed.

Lemma with_virtuals_Ok a s p :
  with_virtuals a s = Ok p <->
  p = (a + VIRTUAL_ASSETS, s + VIRTUAL_SHARES) /\
  a + VIRTUAL_ASSETS <= U256_MAX /\ s + VIRTUAL_SHARES <= U256_MAX.
Proof.
  unfold with_virtuals. split.
  - intros H. inv_ok. done.
  - intros (-> & Ha & Hs). unfold checked_add.
    by rewrite (proj2 (Z.leb_le _ _) Ha), (proj2 (Z.leb_le _ _) Hs).
Qed.

(** Inversion lemmas for the arithmetic above, used by [inv_math]. *)
Ltac inv_math_step :=
  match goal with
  | H : arith _ = Ok _ |- _ => apply arith_Ok in H
  | H : mul_div_down _ _ _ = Ok _ |- _ => apply mul_div_down_Ok in H as (? & ? & ?)
  | H : w_mul_down _ _ = Ok _ |- _ => apply mul_div_down_Ok in H as (? & ? & ?)
  | H : w_div_down _ _ = Ok _ |- _ => apply mul_div_down_Ok in H as (? & ? & ?)
  | H : mul_div_up _ _ _ = Ok _ |- _ =>
      apply mul_div_up_Ok in H as (? & ? & ? & ?)
  | H : with_virtuals _ _ = Ok _ |- _ => apply with_virtuals_Ok in H as (? & ? & ?)
  | H : to_supply_shares_down _ _ _ = Ok _ |- _ => unfold to_supply_shares_down in H
  | H : to_supply_shares_up _ _ _ = Ok _ |- _ => unfold to_supply_shares_up in H
  | H : to_supply_assets_down _ _ _ = Ok _ |- _ => unfold to_supply_assets_down in H
  | H : to_supply_assets_up _ _ _ = Ok _ |- _ => unfold to_supply_assets_up in H
  end.

Ltac inv_math :=
  repeat ((inv_ok_step || inv_math_step); cbn beta iota in * ); simplify_eq.

Lemma ceil_div_bounds n d : 0 < d -> 0 <= n ->
  ((n + (d - 1)) / d - 1) * d < n <= (n + (d - 1)) / d * d.
Proof.
  intros Hd Hn.
  pose proof (Z.mul_div_le (n + (d - 1)) d Hd).
  pose proof (Z.mul_succ_div_gt (n + (d - 1)) d Hd). lia.
Qed.

Lemma floor_div_bounds n d : 0 < d -> n / d * d <= n < (n / d + 1) * d.
Proof.
  intros Hd. pose proof (Z.mul_div_le n d Hd). pose proof (Z.mul_succ_div_gt n d Hd). lia.
Qed.

(** ** Rounding direction *)

(** Both roundings bracket the exact quotient; they differ by at most one unit
    and agree exactly when the division is exact. *)
Theorem mul_div_rounding x y d qd qu :
  u256 x -> u256 y -> u256 d ->
  mul_div_down x y d = Ok qd -> mul_div_up x y d = Ok qu ->
  qd * d <= x * y <= qu * d /\ qd <= qu <= qd + 1 /\ (qu = qd <-> (d | x * y)).
Proof.
  intros Hx Hy Hd Hdn Hup. unfold in_u in *. inv_math.
  pose proof (floor_div_bounds (x * y) d ltac:(lia)).
  pose proof (ceil_div_bounds (x * y) d ltac:(lia) ltac:(nia)).
  set (lo := x * y / d) in *. set (hi := (x * y + (d - 1)) / d) in *. clearbody lo hi.
  assert (lo <= hi) by (apply (Z.mul_le_mono_pos_r _ _ d); lia).
  assert (hi - 1 < lo + 1) by (apply (Z.mul_lt_mono_pos_r d); lia).
  split; [lia|]. split; [lia|]. split.
  - intros ->. exists lo. lia.
  - intros [k Hk]. rewrite Hk in *.
    assert (lo <= k) by (apply (Z.mul_le_mono_pos_r _ _ d); lia).
    assert (k < lo + 1) by (apply (Z.mul_lt_mono_pos_r d); lia).
    assert (hi - 1 < k) by (apply (Z.mul_lt_mono_pos_r d); lia).
    assert (k <= hi) by (apply (Z.mul_le_mono_pos_r _ _ d); lia). lia.
Qed.

Lemma mul_div_rounding_witness :
  mul_div_down 7 3 2 = Ok 10 /\ mul_div_up 7 3 2 = Ok 11 /\
  (10 * 2 <= 7 * 3 <= 11 * 2 /\ 10 <= 11 <= 10 + 1 /\ (11 = 10 <-> (2 | 7 * 3))).
Proof.
  split; [reflexivity|]. split; [reflexivity|].
  apply (mul_div_rounding 7 3 2 10 11); unfold in_u, U256_MAX; try lia; reflexivity.
Defined.

(** A supply of [x] assets mints shares worth at most [x] assets afterwards, and
    no other holder's shares lose value. *)
Theorem supply_rounds_against_supplier A S x s h v v' w :
  0 <= A -> 0 <= S -> 0 <= x -> 0 <= h ->
  to_supply_shares_down x A S = Ok s ->
  to_supply_assets_down h A S = Ok v ->
  to_supply_assets_down h (A + x) (S + s) = Ok v' ->
  to_supply_assets_down s (A + x) (S + s) = Ok w ->
  v <= v' /\ w <= x.
Proof.
  intros HA HS Hx Hh Hs Hv Hv' Hw. inv_math. unfold VIRTUAL_ASSETS, VIRTUAL_SHARES in *.
  pose proof (floor_div_bounds (x * (S + 1000000)) (A + 1) ltac:(lia)) as Hs.
  assert (0 <= x * (S + 1000000) / (A + 1)).
  { apply Z.div_pos; [apply Z.mul_nonneg_nonneg; lia|lia]. }
  set (s := x * (S + 1000000) / (A + 1)) in *. split.
  - apply scaled_div_le; lia.
  - apply Z.div_le_upper_bound; lia.
Qed.

Lemma supply_rounds_against_supplier_witness :
  to_supply_shares_down 5 10 20 = Ok 454554 /\ (9 <= 9 /\ 4 <= 5).
Proof.
  split; [reflexivity|].
  apply (supply_rounds_against_supplier 10 20 5 454554 900000 9 9 4);
    solve [lia | vm_compute; reflexivity].
Defined.

(** A withdrawal of [x] assets burns shares worth at least [x] assets before the
    withdrawal, and no remaining holder's shares lose value. *)
Theorem withdrawal_rounds_against_withdrawer A S x b h v v' :
  0 <= A -> 0 <= S -> 0 <= x <= A -> b <= S -> 0 <= h ->
  to_supply_shares_up x A S = Ok b ->
  to_supply_assets_down h A S = Ok v ->
  to_supply_assets_down h (A - x) (S - b) = Ok v' ->
  v <= v' /\ x * (S + VIRTUAL_SHARES) <= b * (A + VIRTUAL_ASSETS).
Proof.
  intros HA HS Hx Hb Hh Hs Hv Hv'. inv_math. unfold VIRTUAL_ASSETS, VIRTUAL_SHARES in *.
  pose proof (ceil_div_bounds (x * (S + 1000000)) (A + 1) ltac:(lia) ltac:(nia)).
  set (burned := (x * (S + 1000000) + (A + 1 - 1)) / (A + 1)) in *.
  split; [|lia]. apply scaled_div_le; lia.
Qed.

Lemma withdrawal_rounds_against_withdrawer_witness :
  to_supply_shares_up 5 10 20000000 = Ok 9545455 /\
  (0 <= 0 /\ 5 * (20000000 + VIRTUAL_SHARES) <= 9545455 * (10 + VIRTUAL_ASSETS)).
Proof.
  split; [reflexivity|].
  apply (withdrawal_rounds_against_withdrawer 10 20000000 5 9545455 7 0 0);
    solve [lia | vm_compute; reflexivity].
Defined.

(** The compounding polynomial is monotone in the rate and never below simple
    interest. *)
Lemma w_taylor_Ok x n v :
  w_taylor_compounded x n = Ok v ->
  v = x * n + x * n * (x * n) / (WAD * 2) + x * n * (x * n) / (WAD * 2) * (x * n) / (WAD * 3)
  /\ v <= U256_MAX.
Proof. unfold w_taylor_compounded. intros H. inv_math. split; [done|lia]. Qed.

Theorem w_taylor_monotone x y n vx vy :
  0 <= x <= y -> 0 <= n ->
  w_taylor_compounded x n = Ok vx -> w_taylor_compounded y n = Ok vy ->
  x * n <= vx <= vy.
Proof.
  intros Hxy Hn [Hx _]%w_taylor_Ok [Hy _]%w_taylor_Ok.
  assert (0 <= x * n <= y * n) as Hf by nia.
  set (f := x * n) in *. set (g := y * n) in *. clearbody f g.
  assert (0 <= f * f / (WAD * 2) <= g * g / (WAD * 2)) as Hs.
  { split; [apply Z.div_pos; [nia|done]|apply Z.div_le_mono; [done|nia]]. }
  set (f2 := f * f / (WAD * 2)) in *. set (g2 := g * g / (WAD * 2)) in *. clearbody f2 g2.
  assert (0 <= f2 * f / (WAD * 3) <= g2 * g / (WAD * 3)).
  { split; [apply Z.div_pos; [nia|done]|apply Z.div_le_mono; [done|nia]]. }
  lia.
Qed.

Lemma w_taylor_monotone_witness :
  w_taylor_compounded 1000000000 31536000 = Ok 32038486841419776 /\
  1000000000 * 31536000 <= 32038486841419776 <= 65102856139358208.
Proof.
  split; [vm_compute; reflexivity|].
  apply (w_taylor_monotone 1000000000 2000000000 31536000);
    solve [lia | vm_compute; reflexivity].
Defined.
