(* ===== verification/Domain.v ===== *)
(** * Domain data

    Models [src/src/domain.rs]: identifiers, snapshots, plans and the canonical
    adapter data.  A [B256] or [Address] newtype is its numeric value, a [U256]
    or [u64] is a [Z] with its width stated by the operations that use it, a
    [BTreeMap] is a [gmap], a [BTreeSet] a [gset], a [Vec] a list.  Field names
    carry a short record prefix because projections are global.

    Keccak-256 and Solidity's ABI coder are library code: they are the classes
    [Keccak] and [AbiParams], whose laws are what the code relies on. *)

From stdpp Require Import base gmap list countable sorting.
From Stdlib Require Import ZArith Lia.
From S2P Require Import Prelude.
From S2P Require Import BlueMath.

Abbreviation Address := Z (only parsing).
Abbreviation B256 := Z (only parsing).
Abbreviation Bytes := (list Z) (only parsing).
Abbreviation VaultAddress := Z (only parsing).
Abbreviation AdapterAddress := Z (only parsing).
Abbreviation MarketId := Z (only parsing).
Abbreviation PositionKey := Z (only parsing).
Abbreviation RateGroupId := Z (only parsing).
Abbreviation CapId := Z (only parsing).
Abbreviation PlanId := Z (only parsing).
Abbreviation TransactionId := Z (only parsing).
Abbreviation EpisodeId := Z (only parsing).

(** ** Asset and share quantities *)

Definition Assets_checked_add (a b : Z) : result ArithmeticError Z :=
  ok_or (checked_add U256_MAX a b) Overflow.
Definition Assets_checked_sub (a b : Z) : result ArithmeticError Z :=
  ok_or (checked_sub a b) Underflow.
Definition Shares_checked_add (a b : Z) : result ArithmeticError Z :=
  ok_or (checked_add U256_MAX a b) Overflow.
Definition Shares_checked_sub (a b : Z) : result ArithmeticError Z :=
  ok_or (checked_sub a b) Underflow.

(** ** Blocks and contexts *)

Record BlockRef : Type := mkBlockRef {
  blk_number : Z;
  blk_hash : B256;
  blk_parent_hash : B256;
  blk_timestamp : Z;
  blk_gas_limit : Z;
}.
#[global] Instance BlockRef_eq_dec : EqDecision BlockRef.
Proof. solve_decision. Defined.

Inductive BlockHashBinding : Type :=
| Proven
| Unproven.
#[global] Instance BlockHashBinding_eq_dec : EqDecision BlockHashBinding.
Proof. solve_decision. Defined.

Record StateContext : Type := mkStateContext {
  ctx_chain_id : Z;
  ctx_block : BlockRef;
  ctx_evm_timestamp : Z;
  ctx_block_hash_binding : BlockHashBinding;
  ctx_static_config_revision : B256;
  ctx_dynamic_topology_revision : B256;
}.
#[global] Instance StateContext_eq_dec : EqDecision StateContext.
Proof. solve_decision. Defined.

(** ** Market parameters and derived identifiers *)

Record MarketParams : Type := mkMarketParams {
  mp_loan_token : Address;
  mp_collateral_token : Address;
  mp_oracle : Address;
  mp_irm : Address;
  mp_lltv : Z;
}.
#[global] Instance MarketParams_eq_dec : EqDecision MarketParams.
Proof. solve_decision. Defined.

(** Keccak-256 on byte strings. *)
Class Keccak : Type := keccak256 : Bytes -> B256.

(** The generated ABI coder of [MarketParamsSol] and the byte view of an
    address. *)
Class AbiParams : Type := {
  abi_encode : MarketParams -> Bytes;
  abi_decode : Bytes -> option MarketParams;
  address_bytes : Address -> Bytes;
}.

(** What the code relies on: decoding inverts encoding. *)
Class AbiParamsLaws `{AbiParams} : Prop :=
  abi_decode_encode : forall p, abi_decode (abi_encode p) = Some p.

Inductive AdapterDataError : Type :=
| Decode
| NonCanonical
| MarketIdMismatch
| LoanTokenMismatch
| IrmMismatch.
#[global] Instance AdapterDataError_eq_dec : EqDecision AdapterDataError.
Proof. solve_decision. Defined.

(** ASCII bytes of [morpho-vault-v1-liquidity-adapter]. *)
Definition liquidity_key_domain : Bytes :=
  [109;111;114;112;104;111;45;118;97;117;108;116;45;118;49;45;108;105;113;117;
   105;100;105;116;121;45;97;100;97;112;116;101;114].

Section Identifiers.
Context `{Keccak} `{AbiParams}.

Definition derive_market_id (params : MarketParams) : MarketId :=
  keccak256 (abi_encode params).

Definition derive_position_key (adapter : AdapterAddress) (params : MarketParams)
    : PositionKey :=
  keccak256 (address_bytes adapter ++ abi_encode params).

Definition derive_liquidity_position_key (adapter : AdapterAddress) : PositionKey :=
  keccak256 (liquidity_key_domain ++ address_bytes adapter).

Definition encode_adapter_data (params : MarketParams) : Bytes := abi_encode params.

Definition decode_adapter_data (data : Bytes) (configured_market_id : MarketId)
    (vault_asset adaptive_curve_irm : Address) : result AdapterDataError MarketParams :=
  decoded ← ok_or (abi_decode data) Decode;
  if negb (bool_decide (abi_encode decoded = data)) then Err NonCanonical
  else if negb (derive_market_id decoded =? configured_market_id) then Err MarketIdMismatch
  else if negb (mp_loan_token decoded =? vault_asset) then Err LoanTokenMismatch
  else if negb (mp_irm decoded =? adaptive_curve_irm) then Err IrmMismatch
  else Ok decoded.

End Identifiers.

(** ** Market modes and reward policies *)

Inductive MarketMode : Type :=
| Active
| Fixed
| SourceOnly
| Disabled
| SyncRequired.
#[global] Instance MarketMode_eq_dec : EqDecision MarketMode.
Proof. solve_decision. Defined.

Inductive RewardPolicy : Type :=
| NoMaterialRewards (checked_at_block valid_until_timestamp : Z) (evidence_hash : B256)
| IgnoreRewardsByCuratorMandate (policy_revision : B256)
| FixedUntilModeled
| Modeled (model_revision : B256) (valid_until_timestamp : Z).
#[global] Instance RewardPolicy_eq_dec : EqDecision RewardPolicy.
Proof. solve_decision. Defined.

(** ** Vault, adapter, position and market state *)

Record ParentVaultState : Type := mkParentVaultState {
  pv_vault : Address;
  pv_asset : Address;
  pv_idle_assets : Z;
  pv_stored_total_assets : Z;
  pv_last_update : Z;
  pv_max_rate : Z;
  pv_total_supply : Z;
  pv_virtual_shares : Z;
  pv_performance_fee : Z;
  pv_performance_fee_recipient : Address;
  pv_performance_fee_recipient_allowed : bool;
  pv_management_fee : Z;
  pv_management_fee_recipient : Address;
  pv_management_fee_recipient_allowed : bool;
  pv_receive_shares_gate : Address;
  pv_send_shares_gate : Address;
  pv_receive_assets_gate : Address;
  pv_send_assets_gate : Address;
  pv_adapter_registry : Address;
  pv_liquidity_adapter : Address;
  pv_liquidity_data : Bytes;
  pv_force_deallocate_penalties : gmap AdapterAddress Z;
  pv_approved_allocators : gset Address;
  pv_approved_sentinels : gset Address;
  pv_dead_address : Address;
  pv_dead_share_balance : Z;
  pv_required_dead_shares : Z;
}.

Inductive CapKind : Type :=
| Absolute
| Relative.
#[global] Instance CapKind_eq_dec : EqDecision CapKind.
Proof. solve_decision. Defined.

Inductive GateKind : Type :=
| ReceiveShares
| SendShares
| ReceiveAssets
| SendAssets.
#[global] Instance GateKind_eq_dec : EqDecision GateKind.
Proof. solve_decision. Defined.

Inductive FeeKind : Type :=
| Performance
| Management.
#[global] Instance FeeKind_eq_dec : EqDecision FeeKind.
Proof. solve_decision. Defined.

Inductive AdminEffect : Type :=
| CapChange (cap_kind : CapKind) (increase : bool) (id_data : Bytes) (new_value : Z)
| AdapterMembership (adapter : Address) (enabled : bool)
| AllocatorMembership (account : Address) (enabled : bool)
| SentinelMembership (account : Address) (enabled : bool)
| GateChange (gate_kind : GateKind) (gate : Address)
| AdapterRegistryChange (registry : Address)
| LiquidityAdapterChange (adapter : Address) (data : Bytes)
| MaxRateChange (max_rate : Z)
| FeeChange (fee_kind : FeeKind) (new_fee : Z)
| FeeRecipientChange (fee_kind : FeeKind) (recipient : Address)
| ForceDeallocationPenaltyChange (adapter : Address) (penalty : Z)
| AdapterBurnShares (market_id : MarketId)
| AdapterSkimRecipientChange (recipient : Address)
| TimelockChange (selector : Z) (duration : Z) (increase : bool)
| Abdicate (selector : Z)
| CuratorChange (curator : Address)
| Unknown.
#[global] Instance AdminEffect_eq_dec : EqDecision AdminEffect.
Proof. solve_decision. Defined.

Record PendingAdminOperation : Type := mkPendingAdminOperation {
  pa_target : Address;
  pa_selector : Z;
  pa_calldata_hash : B256;
  pa_calldata : Bytes;
  pa_executable_at : Z;
  pa_effect : AdminEffect;
  pa_submitted_block : Z;
  pa_submitted_transaction : B256;
}.
#[global] Instance PendingAdminOperation_eq_dec : EqDecision PendingAdminOperation.
Proof. solve_decision. Defined.

Record DirectAdapterState : Type := mkDirectAdapterState {
  da_adapter : AdapterAddress;
  da_parent_vault : Address;
  da_asset : Address;
  da_morpho : Address;
  da_adaptive_curve_irm : Address;
  da_adapter_id : CapId;
  da_current_market_ids : list MarketId;
  da_historical_market_ids : gset MarketId;
  da_runtime_code_hash : B256;
  da_real_assets : Z;
  da_skim_recipient : Address;
  da_pending_operations : list PendingAdminOperation;
}.

Record VaultV1LiquidityAdapterState : Type := mkVaultV1LiquidityAdapterState {
  la_adapter : AdapterAddress;
  la_parent_vault : Address;
  la_morpho_vault_v1 : Address;
  la_adapter_id : CapId;
  la_runtime_code_hash : B256;
  la_morpho_vault_v1_runtime_code_hash : B256;
  la_real_assets : Z;
  la_recorded_allocation : Z;
  la_share_balance : Z;
  la_vault_total_assets : Z;
  la_vault_total_supply : Z;
  la_decimals_offset : Z;
  la_max_deposit : Z;
  la_max_withdraw : Z;
  la_idle_market_id : MarketId;
  la_idle_market_total_supply_assets : Z;
  la_idle_market_total_supply_shares : Z;
  la_idle_market_supply_shares : Z;
  la_skim_recipient : Address;
}.

Record CapRef : Type := mkCapRef {
  cr_vault : VaultAddress;
  cr_id : CapId;
}.
#[global] Instance CapRef_eq_dec : EqDecision CapRef.
Proof. solve_decision. Defined.
#[global] Instance CapRef_countable : Countable CapRef.
Proof.
  refine (inj_countable' (fun r => (cr_vault r, cr_id r)) (fun p => mkCapRef p.1 p.2) _).
  by intros [].
Defined.

(** The derived ordering of [CapRef]: vault, then identifier. *)
Definition capref_le {A} (x y : CapRef * A) : Prop :=
  cr_vault x.1 < cr_vault y.1 \/ (cr_vault x.1 = cr_vault y.1 /\ cr_id x.1 <= cr_id y.1).
#[global] Instance capref_le_dec {A} : RelDecision (@capref_le A).
Proof. intros x y. unfold capref_le. solve_decision. Defined.
Definition capref_entries {A} (m : gmap CapRef A) : list (CapRef * A) :=
  merge_sort capref_le (map_to_list m).

Record DirectMarketPositionState : Type := mkDirectMarketPositionState {
  dp_position_key : PositionKey;
  dp_adapter : AdapterAddress;
  dp_market_params : MarketParams;
  dp_market_id : MarketId;
  dp_internal_supply_shares : Z;
  dp_actual_morpho_supply_shares : Z;
  dp_ignored_donation_shares : Z;
  dp_market_dead_supply_shares : Z;
  dp_expected_assets : Z;
  dp_parent_recorded_market_allocation : Z;
  dp_affected_caps : CapRef * CapRef * CapRef;
  dp_mode : MarketMode;
  dp_reward_policy : RewardPolicy;
}.

(** The three affected caps in the source's array order. *)
Definition affected_caps_list (p : DirectMarketPositionState) : list CapRef :=
  let '(a, b, c) := dp_affected_caps p in [a; b; c].

Record StoredMarketState : Type := mkStoredMarketState {
  sm_market_id : MarketId;
  sm_params : MarketParams;
  sm_total_supply_assets : Z;
  sm_total_supply_shares : Z;
  sm_total_borrow_assets : Z;
  sm_total_borrow_shares : Z;
  sm_last_update : Z;
  sm_fee : Z;
  sm_irm : Address;
  sm_stored_rate_at_target : Z;
  sm_morpho_loan_token_balance : Z;
}.

Record CapState : Type := mkCapState {
  cs_reference : CapRef;
  cs_id_data_hash : B256;
  cs_absolute_cap : Z;
  cs_relative_cap : Z;
  cs_recorded_allocation : Z;
}.
#[global] Instance CapState_eq_dec : EqDecision CapState.
Proof. solve_decision. Defined.

Record VaultCapabilities : Type := mkVaultCapabilities {
  vc_can_observe : bool;
  vc_can_project : bool;
  vc_can_allocate : bool;
  vc_can_deallocate_supported_position : bool;
  vc_can_model_user_deposit : bool;
  vc_can_model_user_withdrawal : bool;
  vc_lock_ledger_verified : bool;
  vc_seed_requirements_verified : bool;
  vc_reward_policy_ready : bool;
  vc_rate_episode_state_verified : bool;
}.

Record IdleLockSnapshot : Type := mkIdleLockSnapshot {
  il_lock_id : B256;
  il_remaining_assets : Z;
  il_created_block : Z;
  il_release_timestamp : option Z;
}.

Record IdleLockLedgerSnapshot : Type := mkIdleLockLedgerSnapshot {
  ils_locks : list IdleLockSnapshot;
  ils_unattributed_idle_assets : Z;
  ils_verified : bool;
}.

Record ExactVaultSnapshot : Type := mkExactVaultSnapshot {
  ev_context : StateContext;
  ev_parent : ParentVaultState;
  ev_adapters : gmap AdapterAddress DirectAdapterState;
  ev_enabled_adapters : gset AdapterAddress;
  ev_liquidity_adapter : option VaultV1LiquidityAdapterState;
  ev_positions : gmap PositionKey DirectMarketPositionState;
  ev_markets : gmap MarketId StoredMarketState;
  ev_caps : gmap CapRef CapState;
  ev_pending_admin : list PendingAdminOperation;
  ev_capabilities : VaultCapabilities;
  ev_idle_locks : IdleLockLedgerSnapshot;
  ev_snapshot_hash : B256;
}.

(** ** Projections *)

Record ProjectedMarketState : Type := mkProjectedMarketState {
  pm_market_id : MarketId;
  pm_timestamp : Z;
  pm_total_supply_assets : Z;
  pm_total_supply_shares : Z;
  pm_total_borrow_assets : Z;
  pm_total_borrow_shares : Z;
  pm_average_accrual_borrow_rate : Z;
  pm_ending_rate_at_target : Z;
  pm_spot_borrow_rate : Z;
  pm_spot_supply_rate : Z;
  pm_utilization : Z;
  pm_accounting_liquidity : Z;
}.
#[global] Instance ProjectedMarketState_eq_dec : EqDecision ProjectedMarketState.
Proof. solve_decision. Defined.

Record FeeShareProjection : Type := mkFeeShareProjection {
  fs_performance_fee_shares : Z;
  fs_management_fee_shares : Z;
}.

Record ProjectedVaultState : Type := mkProjectedVaultState {
  pj_timestamp : Z;
  pj_parent_total_assets : Z;
  pj_projected_total_supply : Z;
  pj_fee_shares : FeeShareProjection;
  pj_position_expected_assets : gmap PositionKey Z;
  pj_cap_catch_up : gmap CapRef Z;
  pj_max_executable_deposit_assets : Z;
  pj_atomic_exit_coverage_assets : Z;
}.

(** ** Plans *)

Inductive PlanReason : Type :=
| LiquidityMaintenance
| CapitalDeployment
| RateRebalance
| TopKApyRebalance
| PositionSyncRequired.
#[global] Instance PlanReason_eq_dec : EqDecision PlanReason.
Proof. solve_decision. Defined.

Inductive V2Action : Type :=
| Deallocate (position : PositionKey) (adapter : AdapterAddress) (data : Bytes)
    (requested_assets : Z)
| Allocate (position : PositionKey) (adapter : AdapterAddress) (data : Bytes)
    (requested_assets : Z).
#[global] Instance V2Action_eq_dec : EqDecision V2Action.
Proof. solve_decision. Defined.

(** The fields of an action, and whether it allocates. *)
Definition action_position (action : V2Action) : PositionKey :=
  match action with Deallocate p _ _ _ | Allocate p _ _ _ => p end.
Definition action_adapter (action : V2Action) : AdapterAddress :=
  match action with Deallocate _ a _ _ | Allocate _ a _ _ => a end.
Definition action_data (action : V2Action) : Bytes :=
  match action with Deallocate _ _ d _ | Allocate _ _ d _ => d end.
Definition action_assets (action : V2Action) : Z :=
  match action with Deallocate _ _ _ r | Allocate _ _ _ r => r end.
Definition is_allocation (action : V2Action) : bool :=
  match action with Allocate _ _ _ _ => true | Deallocate _ _ _ _ => false end.

Inductive RateObjectiveBranch : Type :=
| Portfolio
| Controllable.
#[global] Instance RateObjectiveBranch_eq_dec : EqDecision RateObjectiveBranch.
Proof. solve_decision. Defined.

Definition stable_code (b : RateObjectiveBranch) : Z :=
  match b with Portfolio => 0 | Controllable => 1 end.

Record SolverCertificate : Type := mkSolverCertificate {
  sc_candidate_lattice_hash : B256;
  sc_nodes_evaluated : Z;
  sc_node_limit : Z;
  sc_search_complete_for_lattice : bool;
  sc_rate_episode_id : option B256;
  sc_objective_branch : option RateObjectiveBranch;
  sc_target_reachable : bool;
  sc_target_reached : bool;
}.
#[global] Instance SolverCertificate_eq_dec : EqDecision SolverCertificate.
Proof. solve_decision. Defined.

Record PlanProjection : Type := mkPlanProjection {
  pp_movement_assets : Z;
  pp_before_spread : Z;
  pp_after_spread : Z;
  pp_immediate_loss_assets : Z;
  pp_terminal_value_delta_assets : Z;
  pp_expected_gain_assets : Z;
}.
#[global] Instance PlanProjection_eq_dec : EqDecision PlanProjection.
Proof. solve_decision. Defined.

Record V2Plan : Type := mkV2Plan {
  pl_plan_id : PlanId;
  pl_reason : PlanReason;
  pl_vault : VaultAddress;
  pl_snapshot : StateContext;
  pl_config_revision : B256;
  pl_topology_revision : B256;
  pl_read_set_revision : Z;
  pl_latest_relevant_event_block : Z;
  pl_planner_generation : Z;
  pl_actions : list V2Action;
  pl_projection : PlanProjection;
  pl_solver_certificate : SolverCertificate;
  pl_episode_id : option EpisodeId;
  pl_plan_hash : B256;
}.
#[global] Instance V2Plan_eq_dec : EqDecision V2Plan.
Proof. solve_decision. Defined.

(** ** Canonical adapter data *)

Section Codec.
Context `{Keccak} `{AbiParams}.

Lemma decode_adapter_data_Ok data mid asset irm p :
  decode_adapter_data data mid asset irm = Ok p <->
  abi_decode data = Some p /\ abi_encode p = data /\ derive_market_id p = mid /\
  mp_loan_token p = asset /\ mp_irm p = irm.
Proof.
  unfold decode_adapter_data. split.
  - intros Hd. inv_ok. bool_hyps.
    repeat match goal with H : (_ =? _) = true |- _ => apply Z.eqb_eq in H end.
    match goal with H : bool_decide _ = true |- _ => apply bool_decide_eq_true in H end.
    done.
  - intros (-> & <- & <- & <- & <-). cbn.
    rewrite bool_decide_eq_true_2 by done. cbn. by rewrite !Z.eqb_refl.
Qed.

(** Accepted adapter data is exactly the canonical encoding of the returned
    parameters, and the canonical encoding of parameters with the configured
    market, asset and rate model is always accepted. *)
Theorem adapter_data_canonical `{!AbiParamsLaws} data mid asset irm p :
  decode_adapter_data data mid asset irm = Ok p <->
  data = encode_adapter_data p /\ derive_market_id p = mid /\
  mp_loan_token p = asset /\ mp_irm p = irm.
Proof.
  rewrite decode_adapter_data_Ok. unfold encode_adapter_data. split; [naive_solver|].
  intros (-> & ?). by rewrite abi_decode_encode.
Qed.

End Codec.

(** A coder with one word per field, used by the examples. *)
Definition word_abi : AbiParams := {|
  abi_encode p := [mp_loan_token p; mp_collateral_token p; mp_oracle p; mp_irm p; mp_lltv p];
  abi_decode b := match b with [a; c; o; i; l] => Some (mkMarketParams a c o i l) | _ => None end;
  address_bytes a := [a];
|}.

(** A polynomial stand-in for the hash, used by the examples. *)
Definition sum_keccak : Keccak := fun b => fold_left (fun h x => 257 * h + x) b 7.

Lemma word_abi_laws : @AbiParamsLaws word_abi.
Proof. by intros []. Qed.

Lemma adapter_data_canonical_witness :
  let p := mkMarketParams 1 2 3 4 5 in
  @decode_adapter_data sum_keccak word_abi [1; 2; 3; 4; 5]
    (@derive_market_id sum_keccak word_abi p) 1 4 = Ok p.
Proof.
  intros p.
  apply (@adapter_data_canonical sum_keccak word_abi word_abi_laws). repeat split.
Defined.
