(* ===== verification/AdaptiveCurve.v ===== *)
(** * The adaptive-curve interest rate model

    Models [src/src/morpho/adaptive_curve.rs]: signed 256-bit fixed-point
    arithmetic rounding toward zero, the range-reduced exponential, the
    piecewise-linear curve and the target-rate adaptation.  The theorems show
    that on every market Morpho can store the computation never fails and its
    target rates stay inside the pinned band. *)

From stdpp Require Import base list.
From Stdlib Require Import ZArith Lia.
From S2P Require Import Prelude.
From S2P Require Import BlueMath.
From S2P Require Import Domain.

Definition TARGET_UTILIZATION : Z := 900000000000000000.
Definition INITIAL_RATE_AT_TARGET : Z := 1268391679.
Definition MIN_RATE_AT_TARGET : Z := 31709791.
Definition MAX_RATE_AT_TARGET : Z := 63419583967.
Definition CURVE_STEEPNESS : Z := 4000000000000000000.
Definition ADJUSTMENT_SPEED : Z := 1585489599188.
Definition LN_2 : Z := 693147180559945309.
Definition LN_WEI_ABS : Z := 41446531673892822312.
Definition WEXP_UPPER : Z := 93859467695000404319.
Definition WEXP_UPPER_VALUE : Z :=
  57716089161558943949701069502944508345128422502756744429568.

Record AdaptiveCurveProjection : Type := mkAdaptiveCurveProjection {
  ac_average_rate : Z;
  ac_ending_rate_at_target : Z;
}.

Record AdaptiveCurveState : Type := mkAdaptiveCurveState {
  as_stored_rate_at_target : Z;
}.

(** ** Operations *)

Definition positive (value : Z) : result MathError Z :=
  ok_or (i256_of_u256 value) SignedConversion.
Definition unsigned (value : Z) : result MathError Z :=
  ok_or (u256_of_i256 value) SignedConversion.
Definition checked_neg (value : Z) : result MathError Z := ok_or (i256_neg value) Invariant.

Definition w_mul_to_zero (x y : Z) : result MathError Z :=
  ok_or (product ← i256_mul x y; i256_div product WAD) Invariant.
Definition w_div_to_zero (x y : Z) : result MathError Z :=
  ok_or (product ← i256_mul x WAD; i256_div product y) Invariant.

(** [checked_shl] and [checked_shr] of a nonnegative [I256]: a shift of the
    width or more is refused; a left shift that leaves the signed range is
    refused too, which [w_exp] never reaches ([exp_r_shift_fits]). *)
Definition i256_shl (x shift : Z) : option Z :=
  if shift <? 256 then i256_fit (Z.shiftl x shift) else None.
Definition i256_shr (x shift : Z) : option Z :=
  if shift <? 256 then i256_fit (Z.shiftr x shift) else None.

Definition w_exp (x : Z) : result MathError Z :=
  ln_wei_abs ← positive LN_WEI_ABS;
  ln_wei ← checked_neg ln_wei_abs;
  if x <? ln_wei then Ok 0
  else
    upper ← positive WEXP_UPPER;
    if upper <=? x then positive WEXP_UPPER_VALUE
    else
      let ln_two := LN_2 in
      half ← ok_or (i256_div ln_two 2) Invariant;
      adjustment ← (if x <? 0 then checked_neg half else Ok half);
      q ← ok_or (value ← i256_add x adjustment; i256_div value ln_two) Invariant;
      product ← ok_or (i256_mul q ln_two) Invariant;
      r ← ok_or (i256_sub x product) Invariant;
      square_term ← ok_or
        (square ← i256_mul r r; scaled ← i256_div square WAD; i256_div scaled 2) Invariant;
      exp_r ← ok_or (value ← i256_add WAD r; i256_add value square_term) Invariant;
      shift ← ok_or (try_from_u U64_MAX (Z.abs q)) Invariant;
      if q <? 0 then ok_or (i256_shr exp_r shift) Invariant
      else ok_or (i256_shl exp_r shift) Invariant.

Definition normalized_error (utilization : Z) : result MathError Z :=
  if WAD <? utilization then Err Invariant
  else
    utilization ← positive utilization;
    target ← positive TARGET_UTILIZATION;
    denominator ← (if target <? utilization then ok_or (i256_sub WAD target) Invariant
                   else Ok target);
    difference ← ok_or (i256_sub utilization target) Invariant;
    w_div_to_zero difference denominator.

Definition curve (rate_at_target error : Z) : result MathError Z :=
  let steepness := CURVE_STEEPNESS in
  coefficient ←
    (if error <? 0 then
       inverse ← w_div_to_zero WAD steepness;
       ok_or (i256_sub WAD inverse) Invariant
     else ok_or (i256_sub steepness WAD) Invariant);
  weighted ← w_mul_to_zero coefficient error;
  factor ← ok_or (i256_add weighted WAD) Invariant;
  w_mul_to_zero factor rate_at_target.

(** [Ord::clamp] panics when its bounds are reversed; they are constants here. *)
Definition clamp (x lo hi : Z) : Z :=
  if x <? lo then lo else if hi <? x then hi else x.

Definition new_rate (start linear_adaptation : Z) : result MathError Z :=
  growth ← w_exp linear_adaptation;
  candidate ← w_mul_to_zero start growth;
  lo ← positive MIN_RATE_AT_TARGET;
  hi ← positive MAX_RATE_AT_TARGET;
  Ok (clamp candidate lo hi).

(** The average and ending target rates, from the stored one. *)
Definition adapted_targets (start error elapsed_seconds : Z) : result MathError (Z * Z) :=
  if start =? 0 then
    initial ← positive INITIAL_RATE_AT_TARGET;
    Ok (initial, initial)
  else
    speed ← w_mul_to_zero ADJUSTMENT_SPEED error;
    elapsed ← positive elapsed_seconds;
    linear ← ok_or (i256_mul speed elapsed) Invariant;
    if linear =? 0 then Ok (start, start)
    else
      ending ← new_rate start linear;
      half_linear ← ok_or (i256_div linear 2) Invariant;
      midpoint ← new_rate start half_linear;
      average ← ok_or
        (value ← i256_add start ending;
         twice_midpoint ← i256_mul midpoint 2;
         total ← i256_add value twice_midpoint;
         i256_div total 4) Invariant;
      Ok (average, ending).

Definition adaptive_curve_borrow_rate (market : StoredMarketState)
    (stored_rate_at_target elapsed_seconds : Z) : result MathError AdaptiveCurveProjection :=
  utilization ←
    (if sm_total_supply_assets market =? 0 then Ok 0
     else arith (w_div_down (sm_total_borrow_assets market) (sm_total_supply_assets market)));
  error ← normalized_error utilization;
  start ← positive stored_rate_at_target;
  '(average_target, ending_target) ← adapted_targets start error elapsed_seconds;
  average_curve ← curve average_target error;
  average_rate ← unsigned average_curve;
  ending_rate ← unsigned ending_target;
  Ok (mkAdaptiveCurveProjection average_rate ending_rate).

Definition adaptive_curve_spot_rate (utilization rate_at_target : Z) : result MathError Z :=
  rate ← positive rate_at_target;
  error ← normalized_error utilization;
  value ← curve rate error;
  unsigned value.

(** ** Totality of the signed steps *)

Lemma i256_fit_in x : i256 x -> i256_fit x = Some x.
Proof. intros H. by apply i256_fit_Some. Qed.

Lemma positive_in x : 0 <= x <= I256_MAX -> positive x = Ok x.
Proof. intros H. apply ok_or_Ok, i256_of_u256_Some. lia. Qed.

Lemma quot_abs_le a b : b <> 0 -> Z.abs (Z.quot a b) <= Z.abs a.
Proof.
  intros Hb. rewrite <-Z.quot_abs by done.
  apply Z.quot_le_upper_bound; nia.
Qed.

Lemma i256_div_in a b : i256 a -> 0 < b -> i256_div a b = Some (Z.quot a b).
Proof.
  intros Ha Hb. unfold i256_div. rewrite (proj2 (Z.eqb_neq b 0)) by lia.
  apply i256_fit_in. unfold i256 in *. pose proof (quot_abs_le a b ltac:(lia)).
  destruct (Z.lt_ge_cases a 0).
  - pose proof (Z.quot_le_mono a 0 b ltac:(lia) ltac:(lia)). rewrite Z.quot_0_l in * by lia.
    unfold I256_MAX in *. lia.
  - pose proof (Z.quot_pos a b ltac:(lia) ltac:(lia)). unfold I256_MIN in *. lia.
Qed.

Lemma w_mul_to_zero_in x y : i256 (x * y) -> w_mul_to_zero x y = Ok (Z.quot (x * y) WAD).
Proof.
  intros H. unfold w_mul_to_zero, i256_mul. rewrite i256_fit_in by done. cbn.
  by rewrite i256_div_in.
Qed.

Lemma w_div_to_zero_in x y :
  0 < y -> i256 (x * WAD) -> w_div_to_zero x y = Ok (Z.quot (x * WAD) y).
Proof.
  intros Hy H. unfold w_div_to_zero, i256_mul. rewrite i256_fit_in by done. cbn.
  by rewrite i256_div_in.
Qed.

(** [run] computes binds whose first step is a value. *)
Ltac i256_side := unfold i256, I256_MIN, I256_MAX, U64_MAX in *; lia.
Ltac run := cbn [mbind result_bind option_bind ok_or].

(** Rounding [x / ln 2] to the nearest integer leaves a remainder of at most
    half of [ln 2]. *)
Lemma range_reduction x :
  let half := Z.quot LN_2 2 in
  let adjustment := if x <? 0 then - half else half in
  let q := Z.quot (x + adjustment) LN_2 in
  Z.abs (x - q * LN_2) <= half + 1 /\ Z.abs q * LN_2 <= Z.abs x + half.
Proof.
  intros half adjustment q. unfold q, adjustment. clear q adjustment.
  replace half with 346573590279972654 by reflexivity. clear half.
  change LN_2 with 693147180559945309.
  destruct (Z.ltb_spec x 0) as [Hx|Hx].
  - replace (x + Z.opp 346573590279972654) with (- (346573590279972654 - x)) by lia.
    rewrite Z.quot_opp_l, Z.quot_div_nonneg by lia.
    pose proof (floor_div_bounds (346573590279972654 - x) 693147180559945309 ltac:(lia)).
    pose proof (Z.div_pos (346573590279972654 - x) 693147180559945309 ltac:(lia) ltac:(lia)).
    lia.
  - rewrite Z.quot_div_nonneg by lia.
    pose proof (floor_div_bounds (x + 346573590279972654) 693147180559945309 ltac:(lia)).
    pose proof (Z.div_pos (x + 346573590279972654) 693147180559945309 ltac:(lia) ltac:(lia)).
    lia.
Qed.

Lemma quot_bounds a b m : 0 < b -> 0 <= a <= m * b -> 0 <= Z.quot a b <= m.
Proof.
  intros Hb Ha. rewrite Z.quot_div_nonneg by lia. split; [apply Z.div_pos; lia|].
  apply Z.div_le_upper_bound; lia.
Qed.

Lemma square_term_bounds r :
  Z.abs r <= WAD -> 0 <= Z.quot (Z.quot (r * r) WAD) 2 <= WAD.
Proof.
  intros Hr.
  assert (0 <= Z.quot (r * r) WAD <= WAD) by (apply quot_bounds; [done|unfold WAD in *; nia]).
  apply quot_bounds; lia.
Qed.

(** Shifts reached by the exponential never leave the signed range. *)
Lemma exp_r_shift_fits e s :
  0 <= e <= 3 * WAD -> 0 <= s <= 136 ->
  i256_shl e s = Some (Z.shiftl e s) /\ 0 <= Z.shiftl e s <= 2 ^ 200 /\
  i256_shr e s = Some (Z.shiftr e s) /\ 0 <= Z.shiftr e s <= 2 ^ 200.
Proof.
  intros He Hs. unfold i256_shl, i256_shr. rewrite (proj2 (Z.ltb_lt s 256)) by lia.
  rewrite Z.shiftl_mul_pow2, Z.shiftr_div_pow2 by lia.
  assert (0 < 2 ^ s <= 2 ^ 136) as Hp.
  { split; [apply Z.pow_pos_nonneg; lia|apply Z.pow_le_mono_r; lia]. }
  assert (0 <= e / 2 ^ s <= e).
  { split; [apply Z.div_pos; lia|apply Z.div_le_upper_bound; nia]. }
  assert (0 <= e * 2 ^ s <= 3 * WAD * 2 ^ 136).
  { split; [apply Z.mul_nonneg_nonneg; lia|apply Z.mul_le_mono_nonneg; lia]. }
  unfold WAD in *. rewrite !i256_fit_in; [|i256_side..]. repeat split; lia.
Qed.

(** The exponential is total, nonnegative and far below the signed range. *)
Lemma w_exp_total x : i256 x -> exists v, w_exp x = Ok v /\ 0 <= v <= 2 ^ 200.
Proof.
  intros Hx. unfold w_exp, checked_neg, i256_neg.
  rewrite (positive_in LN_WEI_ABS) by done. run.
  rewrite i256_fit_in by (unfold LN_WEI_ABS; i256_side). run.
  destruct (Z.ltb_spec x (- LN_WEI_ABS)); [eexists; split; [done|lia]|].
  rewrite (positive_in WEXP_UPPER) by done. run.
  destruct (Z.leb_spec WEXP_UPPER x).
  { exists WEXP_UPPER_VALUE. by rewrite positive_in. }
  unfold i256_add, i256_sub, i256_mul. rewrite (i256_div_in LN_2 2) by done.
  run.
  assert ((if x <? 0 then ok_or (i256_fit (- Z.quot LN_2 2)) Invariant else Ok (Z.quot LN_2 2))
          = @Ok MathError Z (if x <? 0 then - Z.quot LN_2 2 else Z.quot LN_2 2)) as ->.
  { by destruct (x <? 0). }
  run.
  pose proof (range_reduction x) as [Hr Hq]. cbv zeta in Hr, Hq.
  assert (- 346573590279972654 <= (if x <? 0 then - Z.quot LN_2 2 else Z.quot LN_2 2)
          <= 346573590279972654) as Hadj.
  { destruct (x <? 0); split; done. }
  set (adj := if x <? 0 then _ else _) in *. clearbody adj.
  change (Z.quot LN_2 2) with 346573590279972654 in *.
  unfold LN_WEI_ABS, WEXP_UPPER in *. set (q := Z.quot (x + adj) LN_2) in *.
  rewrite (i256_fit_in (x + adj)) by i256_side. run.
  rewrite (i256_div_in (x + adj) LN_2) by (done || i256_side). fold q. run.
  change LN_2 with 693147180559945309 in *. clearbody q.
  assert (Z.abs q <= 136) by lia.
  rewrite (i256_fit_in (q * 693147180559945309)) by i256_side. run.
  set (r := x - q * 693147180559945309) in *. clearbody r.
  rewrite (i256_fit_in r) by i256_side. run.
  rewrite (i256_fit_in (r * r)) by (unfold i256, I256_MIN, I256_MAX; nia). run.
  rewrite (i256_div_in (r * r) WAD) by (done || unfold i256, I256_MIN, I256_MAX; nia). run.
  pose proof (square_term_bounds r ltac:(unfold WAD; lia)) as Hsq.
  assert (0 <= Z.quot (r * r) WAD <= WAD).
  { apply quot_bounds; [done|unfold WAD in *; nia]. }
  rewrite (i256_div_in (Z.quot (r * r) WAD) 2) by (done || unfold WAD in *; i256_side).
  run. set (sq := Z.quot (Z.quot (r * r) WAD) 2) in *. clearbody sq.
  rewrite (i256_fit_in (WAD + r)) by (unfold WAD in *; i256_side). run.
  rewrite (i256_fit_in (WAD + r + sq)) by (unfold WAD in *; i256_side). run.
  unfold try_from_u. rewrite (proj2 (Z.leb_le (Z.abs q) U64_MAX)) by (unfold U64_MAX; lia).
  run.
  pose proof (exp_r_shift_fits (WAD + r + sq) (Z.abs q) ltac:(unfold WAD in *; lia) ltac:(lia))
    as (-> & ? & -> & ?).
  destruct (q <? 0); eexists; split; done.
Qed.

(** ** The curve *)

Definition curve_factor (error : Z) : Z :=
  Z.quot ((if error <? 0 then 750000000000000000 else 3000000000000000000) * error) WAD + WAD.

Lemma quot_mono a b c : 0 < c -> a <= b -> Z.quot a c <= Z.quot b c.
Proof. intros. by apply Z.quot_le_mono. Qed.

Lemma quot_mul_exact a b : b <> 0 -> Z.quot (a * b) b = a.
Proof. apply Z.quot_mul. Qed.

Lemma normalized_error_in u : 0 <= u <= WAD ->
  exists e, normalized_error u = Ok e /\ - WAD <= e <= WAD /\
    e = (if TARGET_UTILIZATION <? u
         then Z.quot ((u - TARGET_UTILIZATION) * WAD) (WAD - TARGET_UTILIZATION)
         else Z.quot ((u - TARGET_UTILIZATION) * WAD) TARGET_UTILIZATION).
Proof.
  intros Hu. unfold normalized_error. rewrite (proj2 (Z.ltb_ge WAD u)) by lia.
  unfold WAD, TARGET_UTILIZATION, i256_sub in *.
  rewrite (positive_in u) by i256_side. run.
  rewrite (positive_in 900000000000000000) by i256_side. run.
  destruct (Z.ltb_spec 900000000000000000 u).
  - rewrite i256_fit_in by i256_side. run. rewrite i256_fit_in by i256_side. run.
    rewrite w_div_to_zero_in by (lia || unfold WAD; i256_side).
    eexists; split; [done|split; [|done]]. unfold WAD.
    match goal with |- _ <= Z.quot ?a ?b <= _ => pose proof (quot_bounds a b 1000000000000000000) end.
    lia.
  - run. rewrite i256_fit_in by i256_side. run.
    rewrite w_div_to_zero_in by (lia || unfold WAD; i256_side).
    eexists; split; [done|split; [|done]]. unfold WAD.
    replace ((u - 900000000000000000) * 1000000000000000000)
      with (- ((900000000000000000 - u) * 1000000000000000000)) by lia.
    rewrite Z.quot_opp_l by lia.
    match goal with |- _ <= - Z.quot ?a ?b <= _ => pose proof (quot_bounds a b 1000000000000000000) end.
    lia.
Qed.

Lemma curve_factor_bounds e : - WAD <= e <= WAD -> WAD / 4 <= curve_factor e <= 4 * WAD.
Proof.
  intros He. unfold curve_factor.
  assert (Z.quot (-750000000000000000 * WAD) WAD = -750000000000000000) as H1 by done.
  assert (Z.quot (3000000000000000000 * WAD) WAD = 3000000000000000000) as H2 by done.
  change (WAD / 4) with 250000000000000000.
  destruct (Z.ltb_spec e 0).
  - pose proof (quot_mono (-750000000000000000 * WAD) (750000000000000000 * e) WAD eq_refl ltac:(lia)).
    pose proof (quot_mono (750000000000000000 * e) 0 WAD eq_refl ltac:(lia)).
    change (Z.quot 0 WAD) with 0 in *. unfold WAD in *. lia.
  - pose proof (quot_mono (3000000000000000000 * e) (3000000000000000000 * WAD) WAD eq_refl ltac:(lia)).
    pose proof (quot_mono 0 (3000000000000000000 * e) WAD eq_refl ltac:(lia)).
    change (Z.quot 0 WAD) with 0 in *. unfold WAD in *. lia.
Qed.

Lemma curve_factor_mono e e' : e <= e' -> curve_factor e <= curve_factor e'.
Proof.
  intros He. unfold curve_factor. apply Z.add_le_mono_r, quot_mono; [done|].
  destruct (Z.ltb_spec e 0), (Z.ltb_spec e' 0); lia.
Qed.

(** The curve on a bounded rate and error never fails. *)
Lemma curve_in rate e :
  0 <= rate <= 2 ^ 128 -> - WAD <= e <= WAD ->
  curve rate e = Ok (curve_factor e * rate / WAD).
Proof.
  intros Hr He. pose proof (curve_factor_bounds e He) as Hf. unfold curve.
  set (coefficient := if e <? 0 then 750000000000000000 else 3000000000000000000).
  assert ((if e <? 0 then inverse ← w_div_to_zero WAD CURVE_STEEPNESS;
             ok_or (i256_sub WAD inverse) Invariant
           else ok_or (i256_sub CURVE_STEEPNESS WAD) Invariant)
          = @Ok MathError Z coefficient) as ->.
  { unfold coefficient. by destruct (e <? 0). }
  assert (0 <= coefficient <= 3000000000000000000) by (unfold coefficient; case_match; lia).
  run. rewrite w_mul_to_zero_in by (unfold i256, I256_MIN, I256_MAX, WAD in *; nia). run.
  assert (Z.quot (coefficient * e) WAD + WAD = curve_factor e) as Hc by done.
  unfold i256_add. rewrite Hc. clear Hc.
  change (WAD / 4) with 250000000000000000 in Hf.
  rewrite i256_fit_in by (unfold WAD in *; i256_side). run.
  rewrite w_mul_to_zero_in.
  - f_equal. apply Z.quot_div_nonneg; [|done]. unfold WAD in *. nia.
  - unfold i256, I256_MIN, I256_MAX, WAD in *. nia.
Qed.

Lemma curve_value_bounds rate e :
  0 <= rate -> - WAD <= e <= WAD -> rate / 4 <= curve_factor e * rate / WAD <= 4 * rate.
Proof.
  intros Hr He. pose proof (curve_factor_bounds e He) as Hf.
  change (WAD / 4) with 250000000000000000 in Hf. unfold WAD in *. split.
  - apply div_cross_le; nia.
  - apply Z.div_le_upper_bound; nia.
Qed.

Lemma spot_rate_in u rate :
  0 <= u <= WAD -> 0 <= rate <= 2 ^ 128 ->
  exists e, normalized_error u = Ok e /\ - WAD <= e <= WAD /\
    adaptive_curve_spot_rate u rate = Ok (curve_factor e * rate / WAD).
Proof.
  intros Hu Hr. destruct (normalized_error_in u Hu) as (e & He & Hb & _).
  exists e. split; [done|]. split; [done|]. unfold adaptive_curve_spot_rate.
  rewrite positive_in by i256_side. run. rewrite He. run. rewrite curve_in by done. run.
  apply ok_or_Ok, u256_of_i256_Some. split; [done|].
  pose proof (curve_value_bounds rate e (proj1 Hr) Hb).
  pose proof (Z.div_pos rate 4 ltac:(lia) ltac:(lia)). lia.
Qed.

Lemma normalized_error_mono u u' e e' :
  0 <= u <= u' -> u' <= WAD ->
  normalized_error u = Ok e -> normalized_error u' = Ok e' -> e <= e'.
Proof.
  intros Hu Hw He He'.
  destruct (normalized_error_in u ltac:(lia)) as (e0 & H0 & _ & ->).
  destruct (normalized_error_in u' ltac:(lia)) as (e1 & H1 & _ & ->).
  rewrite H0 in He. rewrite H1 in He'. inv_ok. unfold TARGET_UTILIZATION, WAD in *.
  destruct (Z.ltb_spec 900000000000000000 u), (Z.ltb_spec 900000000000000000 u');
    try lia; try (apply quot_mono; lia).
  transitivity 0.
  - apply (quot_mono _ 0 900000000000000000); lia.
  - apply Z.quot_pos; lia.
Qed.

(** ** Adaptation *)

Definition rate_wf (rate : Z) : Prop := MIN_RATE_AT_TARGET <= rate <= MAX_RATE_AT_TARGET.

(** The market states Morpho can store: 128-bit totals, debts covered by supply. *)
Definition market_totals_wf (m : StoredMarketState) : Prop :=
  0 <= sm_total_borrow_assets m <= sm_total_supply_assets m /\
  sm_total_supply_assets m <= U128_MAX.

Lemma clamp_bounds x lo hi : lo <= hi -> lo <= clamp x lo hi <= hi.
Proof. intros. unfold clamp. repeat case_match; lia. Qed.

Lemma new_rate_total start linear :
  0 <= start <= MAX_RATE_AT_TARGET -> i256 linear ->
  exists v, new_rate start linear = Ok v /\ rate_wf v.
Proof.
  intros Hs Hl. unfold new_rate. destruct (w_exp_total linear Hl) as (g & -> & Hg). run.
  rewrite w_mul_to_zero_in; [|unfold i256, I256_MIN, I256_MAX, MAX_RATE_AT_TARGET in *; nia].
  run. rewrite !positive_in by done. run. eexists; split; [done|]. by apply clamp_bounds.
Qed.

Lemma average_total start ending midpoint :
  rate_wf start -> rate_wf ending -> rate_wf midpoint ->
  exists v,
    (value ← i256_add start ending; twice_midpoint ← i256_mul midpoint 2;
     total ← i256_add value twice_midpoint; i256_div total 4) = Some v /\ rate_wf v.
Proof.
  unfold rate_wf, MIN_RATE_AT_TARGET, MAX_RATE_AT_TARGET, i256_add, i256_mul.
  intros Hs He Hm.
  rewrite i256_fit_in by i256_side. run. rewrite i256_fit_in by i256_side. run.
  rewrite i256_fit_in by i256_side. run. rewrite i256_div_in by (lia || i256_side).
  eexists; split; [done|].
  pose proof (quot_mono (31709791 * 4) (start + ending + midpoint * 2) 4 eq_refl ltac:(lia)) as H1.
  pose proof (quot_mono (start + ending + midpoint * 2) (63419583967 * 4) 4 eq_refl ltac:(lia)) as H2.
  rewrite quot_mul_exact in H1, H2 by lia. lia.
Qed.

Lemma adaptation_speed_bounds e : - WAD <= e <= WAD ->
  exists s, w_mul_to_zero ADJUSTMENT_SPEED e = Ok s /\ Z.abs s <= ADJUSTMENT_SPEED * WAD.
Proof.
  intros He. unfold ADJUSTMENT_SPEED, WAD in *.
  rewrite w_mul_to_zero_in by i256_side. eexists; split; [done|].
  pose proof (quot_abs_le (1585489599188 * e) WAD ltac:(done)). lia.
Qed.

Lemma stored_utilization m : market_totals_wf m ->
  exists u, (if sm_total_supply_assets m =? 0 then Ok 0
             else arith (w_div_down (sm_total_borrow_assets m) (sm_total_supply_assets m)))
            = Ok u /\ 0 <= u <= WAD.
Proof.
  intros [Hb Hs]. destruct (Z.eqb_spec (sm_total_supply_assets m) 0).
  - exists 0. unfold WAD. split; [done|lia].
  - eexists. split.
    + apply arith_Ok, mul_div_down_Ok. split; [done|]. split; [|done].
      unfold WAD, U256_MAX, U128_MAX in *. lia.
    + unfold WAD. split; [apply Z.div_pos; lia|apply Z.div_le_upper_bound; lia].
Qed.

(** The target rates after adaptation, before the curve is applied. *)
Lemma adapted_targets_total start elapsed e :
  start = 0 \/ rate_wf start -> u64 elapsed -> - WAD <= e <= WAD ->
  exists a d, adapted_targets start e elapsed = Ok (a, d) /\ rate_wf a /\ rate_wf d.
Proof.
  intros Hs Hel He. unfold adapted_targets. destruct (Z.eqb_spec start 0) as [->|Hs0].
  { by exists INITIAL_RATE_AT_TARGET, INITIAL_RATE_AT_TARGET. }
  destruct Hs as [|Hs]; [done|].
  destruct (adaptation_speed_bounds e He) as (s & -> & Hsp). run.
  unfold in_u, U64_MAX in Hel. unfold ADJUSTMENT_SPEED, WAD in Hsp.
  rewrite positive_in by i256_side. run.
  assert (i256 (s * elapsed)) as Hl by (unfold i256, I256_MIN, I256_MAX; nia).
  rewrite (i256_fit_in (s * elapsed) Hl : i256_mul s elapsed = Some _). run.
  destruct (s * elapsed =? 0); [by exists start, start|].
  assert (0 <= start <= MAX_RATE_AT_TARGET).
  { unfold rate_wf, MIN_RATE_AT_TARGET in Hs. lia. }
  destruct (new_rate_total start (s * elapsed)) as (d & -> & Hd); [done..|]. run.
  rewrite i256_div_in by done. run.
  destruct (new_rate_total start (Z.quot (s * elapsed) 2)) as (mid & -> & Hm); [done|..].
  { pose proof (i256_div_in (s * elapsed) 2 Hl eq_refl) as H2. unfold i256_div in H2.
    cbn in H2. by apply i256_fit_Some in H2 as []. }
  run. destruct (average_total start d mid) as (a & -> & Ha); [done..|]. run. by exists a, d.
Qed.

(** C39: On every market Morpho can store, for a target rate that is unset or in
    the pinned band and any 64-bit elapsed time, the model returns rates (no
    checked step can fail).  The ending target rate is in the pinned band; the
    average borrow rate is what the curve makes of a target rate in the band,
    so it lies between a quarter of this target and four times it. *)
Theorem adaptive_curve_total m stored elapsed :
  market_totals_wf m -> stored = 0 \/ rate_wf stored -> u64 elapsed ->
  exists p target, adaptive_curve_borrow_rate m stored elapsed = Ok p /\
    rate_wf (ac_ending_rate_at_target p) /\ rate_wf target /\
    target / 4 <= ac_average_rate p <= 4 * target /\
    MIN_RATE_AT_TARGET / 4 <= ac_average_rate p <= 4 * MAX_RATE_AT_TARGET.
Proof.
  intros Hm Hst Hel. unfold adaptive_curve_borrow_rate.
  destruct (stored_utilization m Hm) as (u & -> & Hu). run.
  destruct (normalized_error_in u Hu) as (e & -> & He & _). run.
  destruct (adapted_targets_total stored elapsed e Hst Hel He) as (a & d & Hr & Ha & Hd).
  rewrite positive_in.
  2: { unfold rate_wf, MIN_RATE_AT_TARGET, MAX_RATE_AT_TARGET, I256_MAX in *. lia. }
  run. rewrite Hr. run. unfold rate_wf, MIN_RATE_AT_TARGET, MAX_RATE_AT_TARGET in *.
  rewrite curve_in by (done || lia). run.
  pose proof (curve_value_bounds a e ltac:(lia) He).
  pose proof (Z.div_le_mono 31709791 a 4 eq_refl ltac:(lia)).
  change (31709791 / 4) with 7927447 in *.
  eexists _, a. unfold unsigned, u256_of_i256.
  rewrite !(proj2 (Z.leb_le 0 _)) by lia. run. split; [done|]. cbn. lia.
Qed.

Lemma adaptive_curve_total_witness :
  let m := mkStoredMarketState 1 (mkMarketParams 1 2 3 4 5) 1000 1000 950 900 10 0 4 0 5000 in
  exists p target, adaptive_curve_borrow_rate m INITIAL_RATE_AT_TARGET 3600 = Ok p /\
    rate_wf (ac_ending_rate_at_target p) /\ rate_wf target /\
    target / 4 <= ac_average_rate p <= 4 * target /\
    MIN_RATE_AT_TARGET / 4 <= ac_average_rate p <= 4 * MAX_RATE_AT_TARGET.
Proof.
  intros m. apply (adaptive_curve_total m INITIAL_RATE_AT_TARGET 3600).
  - unfold market_totals_wf, U128_MAX. cbn. lia.
  - right. unfold rate_wf, MIN_RATE_AT_TARGET, MAX_RATE_AT_TARGET, INITIAL_RATE_AT_TARGET. lia.
  - unfold in_u, U64_MAX. lia.
Defined.

(** The spot rate is defined on every utilization up to 100 percent,
    increases with utilization, equals the target rate at the target
    utilization, and stays between a quarter and four times the target rate. *)
Theorem spot_rate_shape u u' rate :
  0 <= u <= u' -> u' <= WAD -> 0 <= rate <= 2 ^ 128 ->
  exists v v',
    adaptive_curve_spot_rate u rate = Ok v /\ adaptive_curve_spot_rate u' rate = Ok v' /\
    v <= v' /\ rate / 4 <= v /\ v' <= 4 * rate /\
    adaptive_curve_spot_rate TARGET_UTILIZATION rate = Ok rate.
Proof.
  intros Hu Hw Hr.
  destruct (spot_rate_in u rate) as (e & He & Hb & ->); [lia|done|].
  destruct (spot_rate_in u' rate) as (e' & He' & Hb' & ->); [lia|done|].
  destruct (spot_rate_in TARGET_UTILIZATION rate) as (t & Ht & _ & ->);
    [unfold TARGET_UTILIZATION, WAD; lia|done|].
  assert (normalized_error TARGET_UTILIZATION = Ok 0) as Ht0 by reflexivity.
  rewrite Ht in Ht0. injection Ht0 as ->.
  do 2 eexists. do 2 (split; [done|]).
  pose proof (curve_value_bounds rate e (proj1 Hr) Hb).
  pose proof (curve_value_bounds rate e' (proj1 Hr) Hb').
  pose proof (curve_factor_mono e e' (normalized_error_mono u u' e e' Hu Hw He He')).
  split; [apply Z.div_le_mono; [done|nia]|]. split; [lia|]. split; [lia|].
  f_equal. change (curve_factor 0) with WAD. rewrite Z.mul_comm. by apply Z.div_mul.
Qed.

Lemma spot_rate_shape_witness :
  exists v v',
    adaptive_curve_spot_rate 0 1000000000 = Ok v /\
    adaptive_curve_spot_rate WAD 1000000000 = Ok v' /\
    v <= v' /\ 1000000000 / 4 <= v /\ v' <= 4 * 1000000000 /\
    adaptive_curve_spot_rate TARGET_UTILIZATION 1000000000 = Ok 1000000000.
Proof. apply (spot_rate_shape 0 WAD 1000000000); unfold WAD; lia. Defined.
