(* ===== verification/Accrual.v ===== *)
(** * Interest accrual of markets and of the parent vault

    Models [src/src/morpho/fees.rs] (Morpho Blue market accrual) and
    [src/src/morpho/vault_v2.rs] (Vault V2 [accrueInterestView]). *)

From stdpp Require Import base gmap list.
From Stdlib Require Import ZArith Lia.
From S2P Require Import Prelude.
From S2P Require Import BlueMath.
From S2P Require Import Domain.
From S2P Require Import AdaptiveCurve.

(** ** Market accrual *)

Record MarketAccrualResult : Type := mkMarketAccrualResult {
  ma_market : ProjectedMarketState;
  ma_interest_assets : Z;
  ma_fee_shares : Z;
}.

Definition require_uint128 (value : Z) : result MathError Z :=
  if U128_MAX <? value then Err Invariant else Ok value.

Definition accrue_market (stored : StoredMarketState) (timestamp : Z)
    (irm : AdaptiveCurveState) : result MathError MarketAccrualResult :=
  if timestamp <? sm_last_update stored then Err TimestampRegression
  else if (sm_total_supply_assets stored <? sm_total_borrow_assets stored)
          || (WAD <? sm_fee stored) then Err Invariant
  else
    elapsed ← ok_or (checked_sub timestamp (sm_last_update stored)) TimestampRegression;
    '(average_rate, ending_rate_at_target) ←
      (if elapsed =? 0 then Ok (0, as_stored_rate_at_target irm)
       else
         projection ←
           adaptive_curve_borrow_rate stored (as_stored_rate_at_target irm) elapsed;
         Ok (ac_average_rate projection, ac_ending_rate_at_target projection));
    compounded ← arith (w_taylor_compounded average_rate elapsed);
    interest ← arith (w_mul_down (sm_total_borrow_assets stored) compounded);
    borrow_sum ← ok_or (checked_add U256_MAX (sm_total_borrow_assets stored) interest)
                   (Arithmetic Overflow);
    total_borrow_assets ← require_uint128 borrow_sum;
    supply_sum ← ok_or (checked_add U256_MAX (sm_total_supply_assets stored) interest)
                   (Arithmetic Overflow);
    total_supply_assets ← require_uint128 supply_sum;
    fee_shares ←
      (if sm_fee stored =? 0 then Ok 0
       else
         fee_assets ← arith (w_mul_down interest (sm_fee stored));
         net_assets ← ok_or (checked_sub total_supply_assets fee_assets) (Arithmetic Underflow);
         arith (to_supply_shares_down fee_assets net_assets (sm_total_supply_shares stored)));
    shares_sum ← ok_or (checked_add U256_MAX (sm_total_supply_shares stored) fee_shares)
                   (Arithmetic Overflow);
    total_supply_shares ← require_uint128 shares_sum;
    utilization ←
      (if total_supply_assets =? 0 then Ok 0
       else arith (w_div_down total_borrow_assets total_supply_assets));
    spot_borrow_rate ← adaptive_curve_spot_rate utilization ending_rate_at_target;
    gross_rate ← arith (w_mul_down spot_borrow_rate utilization);
    net_fraction ← ok_or (checked_sub WAD (sm_fee stored)) (Arithmetic Underflow);
    spot_supply_rate ← arith (w_mul_down gross_rate net_fraction);
    accounting_liquidity ← ok_or (checked_sub total_supply_assets total_borrow_assets) Invariant;
    Ok (mkMarketAccrualResult
      (mkProjectedMarketState (sm_market_id stored) timestamp total_supply_assets
         total_supply_shares total_borrow_assets (sm_total_borrow_shares stored)
         average_rate ending_rate_at_target spot_borrow_rate spot_supply_rate utilization
         accounting_liquidity)
      interest fee_shares).

(** ** Parent accrual *)

Record ParentAccrualResult : Type := mkParentAccrualResult {
  pr_total_assets : Z;
  pr_projected_total_supply : Z;
  pr_performance_fee_shares : Z;
  pr_management_fee_shares : Z;
}.

Definition accrue_parent_view (parent : ParentVaultState)
    (adapter_real_assets : gmap AdapterAddress Z) (timestamp : Z)
    : result MathError ParentAccrualResult :=
  if timestamp <? pv_last_update parent then Err TimestampRegression
  else
    real_assets ← try_fold
      (fun total assets => ok_or (checked_add U256_MAX total assets) (Arithmetic Overflow))
      (pv_idle_assets parent) (btree_values adapter_real_assets);
    elapsed ← ok_or (checked_sub timestamp (pv_last_update parent)) TimestampRegression;
    elapsed_assets ← ok_or (checked_mul U256_MAX (pv_stored_total_assets parent) elapsed)
                       (Arithmetic Overflow);
    maximum_growth ← arith (mul_div_down elapsed_assets (pv_max_rate parent) WAD);
    maximum_total_assets ←
      ok_or (checked_add U256_MAX (pv_stored_total_assets parent) maximum_growth)
        (Arithmetic Overflow);
    let new_total_assets := Z.min real_assets maximum_total_assets in
    let interest := saturating_sub new_total_assets (pv_stored_total_assets parent) in
    performance_fee_assets ←
      (if negb (interest =? 0) && negb (pv_performance_fee parent =? 0)
          && pv_performance_fee_recipient_allowed parent
       then arith (mul_div_down interest (pv_performance_fee parent) WAD)
       else Ok 0);
    management_fee_assets ←
      (if negb (elapsed =? 0) && negb (pv_management_fee parent =? 0)
          && pv_management_fee_recipient_allowed parent
       then
         time_weighted_assets ← ok_or (checked_mul U256_MAX new_total_assets elapsed)
                                  (Arithmetic Overflow);
         arith (mul_div_down time_weighted_assets (pv_management_fee parent) WAD)
       else Ok 0);
    assets_without_fees ← ok_or
      (value ← checked_sub new_total_assets performance_fee_assets;
       checked_sub value management_fee_assets) Invariant;
    denominator ← ok_or (checked_add U256_MAX assets_without_fees 1) (Arithmetic Overflow);
    shares_with_virtual ←
      ok_or (checked_add U256_MAX (pv_total_supply parent) (pv_virtual_shares parent))
        (Arithmetic Overflow);
    performance_fee_shares ←
      arith (mul_div_down performance_fee_assets shares_with_virtual denominator);
    management_fee_shares ←
      arith (mul_div_down management_fee_assets shares_with_virtual denominator);
    projected_total_supply ← ok_or
      (value ← checked_add U256_MAX (pv_total_supply parent) performance_fee_shares;
       checked_add U256_MAX value management_fee_shares) (Arithmetic Overflow);
    Ok (mkParentAccrualResult new_total_assets projected_total_supply
          performance_fee_shares management_fee_shares).

(** ** Properties of market accrual *)

(** Everything the code needs of a stored market. *)
Definition stored_market_wf (m : StoredMarketState) : Prop :=
  0 <= sm_total_borrow_assets m /\ 0 <= sm_total_supply_assets m /\
  0 <= sm_total_supply_shares m /\ 0 <= sm_fee m.

Definition irm_wf (irm : AdaptiveCurveState) : Prop :=
  0 <= as_stored_rate_at_target irm.

Lemma unsigned_nonneg v w : unsigned v = Ok w -> 0 <= w.
Proof. unfold unsigned. intros H. inv_ok. lia. Qed.

Lemma borrow_rate_nonneg m r e p :
  adaptive_curve_borrow_rate m r e = Ok p ->
  0 <= ac_average_rate p /\ 0 <= ac_ending_rate_at_target p.
Proof.
  unfold adaptive_curve_borrow_rate. intros H.
  repeat (inv_ok_step; cbn beta iota in * ).
  all: subst; cbn; split; eapply unsigned_nonneg; eassumption.
Qed.

Lemma require_uint128_Ok v w : require_uint128 v = Ok w <-> w = v /\ v <= U128_MAX.
Proof. unfold require_uint128. case_match; naive_solver lia. Qed.

Lemma w_taylor_nonneg x n v :
  0 <= x -> 0 <= n -> w_taylor_compounded x n = Ok v -> 0 <= v.
Proof.
  intros Hx Hn [-> _]%w_taylor_Ok.
  assert (0 <= x * n) by nia. set (f := x * n) in *. clearbody f.
  assert (0 <= f * f / (WAD * 2)) by (apply Z.div_pos; [nia|done]).
  assert (0 <= f * f / (WAD * 2) * f / (WAD * 3)) by (apply Z.div_pos; [nia|done]). lia.
Qed.

(** The relation between a stored market and its accrual. *)
Definition accrual_spec (s : StoredMarketState) (t : Z) (r : MarketAccrualResult) : Prop :=
  let p := ma_market r in
  let i := ma_interest_assets r in
  0 <= i /\
  pm_total_borrow_assets p = sm_total_borrow_assets s + i /\
  pm_total_supply_assets p = sm_total_supply_assets s + i /\
  pm_total_supply_shares p = sm_total_supply_shares s + ma_fee_shares r /\
  pm_total_supply_assets p <= U128_MAX /\ pm_total_supply_shares p <= U128_MAX /\
  pm_total_borrow_assets p <= pm_total_supply_assets p /\
  pm_accounting_liquidity p = sm_total_supply_assets s - sm_total_borrow_assets s /\
  0 <= pm_utilization p <= WAD /\ pm_timestamp p = t /\ sm_last_update s <= t /\
  adaptive_curve_spot_rate (pm_utilization p) (pm_ending_rate_at_target p)
    = Ok (pm_spot_borrow_rate p).

Lemma fee_assets_bounds i f : 0 <= i -> 0 <= f <= WAD -> 0 <= i * f / WAD <= i.
Proof.
  intros Hi Hf. split; [apply Z.div_pos; [nia|done]|].
  apply Z.div_le_upper_bound; [done|]. nia.
Qed.

(** Exact fee shares minted by an accrual. *)
Definition fee_shares_of (s : StoredMarketState) (i : Z) : Z :=
  if sm_fee s =? 0 then 0
  else let fee := i * sm_fee s / WAD in
       fee * (sm_total_supply_shares s + VIRTUAL_SHARES)
       / (sm_total_supply_assets s + i - fee + VIRTUAL_ASSETS).

Lemma fee_shares_nonneg s i :
  stored_market_wf s -> sm_fee s <= WAD -> 0 <= i -> 0 <= fee_shares_of s i.
Proof.
  intros (Hb & Hs & Hsh & Hf) Hw Hi. unfold fee_shares_of, VIRTUAL_ASSETS, VIRTUAL_SHARES.
  pose proof (fee_assets_bounds i (sm_fee s) Hi (conj Hf Hw)) as Hfa.
  case_match; [done|]. apply Z.div_pos; [apply Z.mul_nonneg_nonneg|]; lia.
Qed.

(** Inversion of a successful accrual, shared by the theorems below. *)
Lemma accrue_market_Ok s t irm r :
  stored_market_wf s -> irm_wf irm -> accrue_market s t irm = Ok r ->
  accrual_spec s t r /\ ma_fee_shares r = fee_shares_of s (ma_interest_assets r) /\
  sm_fee s <= WAD /\
  (t = sm_last_update s -> ma_interest_assets r = 0).
Proof.
  intros (Hb & Hs & Hsh & Hf) Hirm H. unfold accrue_market in H.
  destruct (Z.ltb_spec t (sm_last_update s)) as [|Ht]; [done|].
  destruct (_ || _) eqn:Hg; [done|]. apply orb_false_iff in Hg as [Hg1 Hg2].
  apply Z.ltb_ge in Hg1, Hg2.
  step_ok H as elapsed He. apply ok_or_Ok, checked_sub_Some in He as [-> _].
  step_ok H as [avg ending] Hr.
  assert (0 <= avg /\ (t = sm_last_update s -> avg = 0)) as [Havg Havg0].
  { destruct (Z.eqb_spec (t - sm_last_update s) 0).
    - injection Hr as <- <-. split; [lia|done].
    - step_ok Hr as p Hp. injection Hr as <- <-.
      apply borrow_rate_nonneg in Hp as []. split; [done|lia]. }
  clear Hr. step_ok H as comp Hcomp%arith_Ok.
  assert (0 <= comp) as Hc by (eapply w_taylor_nonneg; [| |exact Hcomp]; lia).
  assert (t = sm_last_update s -> comp = 0) as Hc0.
  { intros Heq. rewrite (Havg0 Heq) in Hcomp. apply w_taylor_Ok in Hcomp as [-> _].
    by rewrite Z.mul_0_l. }
  clear Hcomp. step_ok H as i (_ & _ & Hi)%arith_Ok%mul_div_down_Ok.
  assert (0 <= i) as Hi0 by (rewrite Hi; apply Z.div_pos; [nia|done]).
  assert (t = sm_last_update s -> i = 0) as Hi1.
  { intros Heq. rewrite Hi, (Hc0 Heq), Z.mul_0_r. done. }
  clear Hi Hc0 Hc. step_ok H as b1 (-> & _)%ok_or_Ok%checked_add_Some.
  step_ok H as b2 (-> & _)%require_uint128_Ok.
  step_ok H as s1 (-> & _)%ok_or_Ok%checked_add_Some.
  step_ok H as s2 (-> & Hs2)%require_uint128_Ok.
  step_ok H as fs Hfs.
  assert (fs = fee_shares_of s i) as ->.
  { unfold fee_shares_of. destruct (sm_fee s =? 0); [by injection Hfs|].
    clear H. by inv_math. }
  clear Hfs.
  step_ok H as h1 (-> & _)%ok_or_Ok%checked_add_Some.
  step_ok H as h2 (-> & Hh2)%require_uint128_Ok.
  step_ok H as u Hu.
  assert (0 <= u <= WAD) as Hu1.
  { destruct (Z.eqb_spec (sm_total_supply_assets s + i) 0).
    - injection Hu as <-. done.
    - clear H. inv_math. split; [apply Z.div_pos; [unfold WAD; lia|lia]|].
      apply Z.div_le_upper_bound; [lia|]. unfold WAD. nia. }
  clear Hu. step_ok H as sb Hsb. step_ok H as gr _. step_ok H as nf _. step_ok H as ss _.
  step_ok H as liq (-> & _)%ok_or_Ok%checked_sub_Some. injection H as <-.
  unfold accrual_spec. cbn. repeat split; try done; lia.
Qed.

(** A successful accrual adds the same interest to debts and supply, mints
    exactly the fee shares, keeps debts covered by supply within 128 bits,
    leaves the withdrawable liquidity unchanged, keeps utilization at most 100
    percent, and adds nothing when no time has passed. *)
Theorem accrue_market_preserves s t irm r :
  stored_market_wf s -> irm_wf irm -> accrue_market s t irm = Ok r ->
  accrual_spec s t r /\
  (t = sm_last_update s -> ma_interest_assets r = 0 /\ ma_fee_shares r = 0).
Proof.
  intros Hs Hi H. destruct (accrue_market_Ok s t irm r Hs Hi H) as (Hspec & Hfee & _ & H0).
  split; [done|]. intros Ht. rewrite Hfee, (H0 Ht). unfold fee_shares_of.
  split; [done|]. by case_match.
Qed.

Definition example_market : StoredMarketState :=
  mkStoredMarketState 7 (mkMarketParams 1 2 3 4 5) 1000000000 1000000000000000
    900000000 900000000000000 100 100000000000000000 4 1268391679 100000000.

Lemma accrue_market_preserves_witness :
  exists r, accrue_market example_market 86500 (mkAdaptiveCurveState 1268391679) = Ok r /\
    accrual_spec example_market 86500 r.
Proof.
  eexists. split; [vm_compute; reflexivity|].
  eapply (accrue_market_preserves example_market 86500 (mkAdaptiveCurveState 1268391679));
    [repeat split; cbn; lia|unfold irm_wf; cbn; lia|vm_compute; reflexivity].
Defined.

(** Accrual never lowers the asset value of supply shares: minting the fee
    shares does not dilute existing suppliers below their value before it. *)
Theorem accrue_market_no_dilution s t irm r h v v' :
  stored_market_wf s -> irm_wf irm -> 0 <= h ->
  accrue_market s t irm = Ok r ->
  to_supply_assets_down h (sm_total_supply_assets s) (sm_total_supply_shares s) = Ok v ->
  to_supply_assets_down h (pm_total_supply_assets (ma_market r))
    (pm_total_supply_shares (ma_market r)) = Ok v' ->
  v <= v'.
Proof.
  intros Hs Hi Hh H Hv Hv'.
  destruct (accrue_market_Ok s t irm r Hs Hi H) as (Hspec & Hfee & Hw & _).
  destruct Hspec as (Hi0 & _ & HA & HS & _). destruct Hs as (_ & Hs & Hsh & Hf).
  rewrite HA, HS, Hfee in Hv'. clear HA HS Hfee H. inv_math.
  set (i := ma_interest_assets r) in *. clearbody i.
  pose proof (fee_assets_bounds i (sm_fee s) Hi0 (conj Hf Hw)) as Hfa.
  unfold fee_shares_of, VIRTUAL_ASSETS, VIRTUAL_SHARES in *.
  set (A := sm_total_supply_assets s) in *. set (S := sm_total_supply_shares s) in *.
  set (fa := i * sm_fee s / WAD) in *. clearbody A S fa.
  destruct (sm_fee s =? 0).
  - apply scaled_div_le; nia.
  - assert (0 < A + i - fa + 1) as Hd by lia.
    pose proof (floor_div_bounds (fa * (S + 1000000)) (A + i - fa + 1) Hd) as Hq.
    pose proof (Z.div_pos (fa * (S + 1000000)) (A + i - fa + 1) ltac:(nia) Hd) as Hq0.
    set (q := fa * (S + 1000000) / (A + i - fa + 1)) in *. clearbody q.
    assert (q * (A + 1) <= q * (A + i - fa + 1)) by (apply Z.mul_le_mono_nonneg_l; lia).
    assert (fa * (S + 1000000) <= i * (S + 1000000)) by (apply Z.mul_le_mono_nonneg_r; lia).
    apply scaled_div_le; lia.
Qed.

Lemma accrue_market_no_dilution_witness :
  exists r v v', accrue_market example_market 86500 (mkAdaptiveCurveState 1268391679) = Ok r /\
    to_supply_assets_down 1000000000 1000000000 1000000000000000 = Ok v /\
    to_supply_assets_down 1000000000 (pm_total_supply_assets (ma_market r))
      (pm_total_supply_shares (ma_market r)) = Ok v' /\ v <= v'.
Proof.
  do 3 eexists. do 3 (split; [vm_compute; reflexivity|]).
  eapply (accrue_market_no_dilution example_market 86500 (mkAdaptiveCurveState 1268391679)
            _ 1000000000);
    [repeat split; cbn; lia|unfold irm_wf; cbn; lia|lia|vm_compute; reflexivity..].
Defined.

(** ** Properties of parent accrual *)

Definition parent_wf (p : ParentVaultState) : Prop :=
  0 <= pv_idle_assets p /\ 0 <= pv_stored_total_assets p /\ 0 <= pv_max_rate p /\
  0 <= pv_total_supply p /\ 0 <= pv_virtual_shares p /\
  0 <= pv_performance_fee p /\ 0 <= pv_management_fee p.

(** Growth the rate limiter allows until [t]. *)
Definition max_total_assets (p : ParentVaultState) (t : Z) : Z :=
  pv_stored_total_assets p
  + pv_stored_total_assets p * (t - pv_last_update p) * pv_max_rate p / WAD.

Definition real_assets_of (p : ParentVaultState) (m : gmap AdapterAddress Z) : Z :=
  pv_idle_assets p + list_sum (btree_values m).

(** What a successful parent accrual computed, with the fee assets named. *)
Record parent_spec (p : ParentVaultState) (m : gmap AdapterAddress Z) (t : Z)
    (r : ParentAccrualResult) (pf mf : Z) : Prop := {
  ps_time : pv_last_update p <= t;
  ps_total : pr_total_assets r = Z.min (real_assets_of p m) (max_total_assets p t);
  ps_performance : pf = 0 \/
    pf = Z.max 0 (pr_total_assets r - pv_stored_total_assets p) * pv_performance_fee p / WAD;
  ps_management : mf = 0 \/
    mf = pr_total_assets r * (t - pv_last_update p) * pv_management_fee p / WAD;
  ps_covered : pf + mf <= pr_total_assets r;
  ps_performance_shares : pr_performance_fee_shares r =
    pf * (pv_total_supply p + pv_virtual_shares p) / (pr_total_assets r - pf - mf + 1);
  ps_management_shares : pr_management_fee_shares r =
    mf * (pv_total_supply p + pv_virtual_shares p) / (pr_total_assets r - pf - mf + 1);
  ps_supply : pr_projected_total_supply r =
    pv_total_supply p + pr_performance_fee_shares r + pr_management_fee_shares r;
}.

Lemma accrue_parent_Ok p m t r :
  accrue_parent_view p m t = Ok r -> exists pf mf, parent_spec p m t r pf mf.
Proof.
  unfold accrue_parent_view. intros H.
  destruct (Z.ltb_spec t (pv_last_update p)) as [|Ht]; [done|].
  step_ok H as real Hreal%checked_sum_Ok.
  step_ok H as el (-> & _)%ok_or_Ok%checked_sub_Some.
  step_ok H as ea (-> & _)%ok_or_Ok%checked_mul_Some.
  step_ok H as growth (_ & _ & ->)%arith_Ok%mul_div_down_Ok.
  step_ok H as maximum (-> & _)%ok_or_Ok%checked_add_Some.
  fold (max_total_assets p t) in H. cbv zeta in H. rewrite saturating_sub_spec in H.
  step_ok H as pf Hpf. step_ok H as mf Hmf.
  step_ok H as net Hnet. apply ok_or_Ok, bind_Some in Hnet as (net1 & Hn1 & Hn2).
  apply checked_sub_Some in Hn1 as [-> Hc1], Hn2 as [-> Hc2].
  step_ok H as den (-> & _)%ok_or_Ok%checked_add_Some.
  step_ok H as sv (-> & _)%ok_or_Ok%checked_add_Some.
  step_ok H as pshares (_ & _ & Hps)%arith_Ok%mul_div_down_Ok.
  step_ok H as mshares (_ & _ & Hms)%arith_Ok%mul_div_down_Ok.
  step_ok H as supply Hsupply. apply ok_or_Ok, bind_Some in Hsupply as (s1 & Hs1 & Hs2).
  apply checked_add_Some in Hs1 as [-> _], Hs2 as [-> _].
  injection H as <-. exists pf, mf. subst real.
  split; cbn; unfold real_assets_of; try done; try lia.
  - destruct (_ && _ && _) in Hpf; [right|left; congruence].
    by apply arith_Ok, mul_div_down_Ok in Hpf as (_ & _ & ->).
  - destruct (_ && _ && _) in Hmf; [right|left; congruence].
    step_ok Hmf as weighted (-> & _)%ok_or_Ok%checked_mul_Some.
    by apply arith_Ok, mul_div_down_Ok in Hmf as (_ & _ & ->).
Qed.

(** The projected total never exceeds the rate-limited growth nor the assets
    really held (so losses are realised at once), fee shares are the whole
    growth of the share supply, and their value never exceeds the fees they
    pay: performance fee on the gain plus management fee on the total. *)
Theorem parent_accrual_bounds p m t r :
  parent_wf p -> Forall (fun x => 0 <= x) (btree_values m) ->
  accrue_parent_view p m t = Ok r ->
  0 <= pr_total_assets r /\
  pr_total_assets r = Z.min (real_assets_of p m) (max_total_assets p t) /\
  pr_projected_total_supply r =
    pv_total_supply p + pr_performance_fee_shares r + pr_management_fee_shares r /\
  (pr_performance_fee_shares r + pr_management_fee_shares r) * (pr_total_assets r + 1) <=
       (Z.max 0 (pr_total_assets r - pv_stored_total_assets p) * pv_performance_fee p / WAD
        + pr_total_assets r * (t - pv_last_update p) * pv_management_fee p / WAD)
       * (pr_projected_total_supply r + pv_virtual_shares p).
Proof.
  intros (Hidle & Hstored & Hmr & Hts & Hvs & Hpfee & Hmfee) Hm H.
  apply accrue_parent_Ok in H as (pf & mf & [Ht Htot Hpf Hmf Hcov Hps Hms Hsup]).
  assert (0 <= pr_total_assets r) as Htot0.
  { rewrite Htot. apply Z.min_glb.
    - unfold real_assets_of. pose proof (list_sum_nonneg _ Hm). lia.
    - unfold max_total_assets. apply Z.add_nonneg_nonneg; [done|].
      apply Z.div_pos; [|done]. repeat apply Z.mul_nonneg_nonneg; lia. }
  set (pfmax := Z.max 0 (pr_total_assets r - pv_stored_total_assets p) * pv_performance_fee p / WAD) in *.
  set (mfmax := pr_total_assets r * (t - pv_last_update p) * pv_management_fee p / WAD) in *.
  assert (0 <= pfmax) by (apply Z.div_pos; [apply Z.mul_nonneg_nonneg; lia|done]).
  assert (0 <= mfmax) by (apply Z.div_pos; [repeat apply Z.mul_nonneg_nonneg; lia|done]).
  clearbody pfmax mfmax. assert (0 <= pf <= pfmax /\ 0 <= mf <= mfmax) as [Hpf' Hmf'] by lia.
  split; [done|]. split; [done|]. split; [lia|]. rewrite Hsup.
  set (T := pr_total_assets r) in *. set (sh := pv_total_supply p + pv_virtual_shares p) in *.
  pose proof (floor_div_bounds (pf * sh) (T - pf - mf + 1) ltac:(lia)) as [Hp1 _].
  pose proof (floor_div_bounds (mf * sh) (T - pf - mf + 1) ltac:(lia)) as [Hp2 _].
  rewrite <-Hps in Hp1. rewrite <-Hms in Hp2.
  assert (0 <= pr_performance_fee_shares r) as Hq1.
  { rewrite Hps. apply Z.div_pos; [apply Z.mul_nonneg_nonneg|]; lia. }
  assert (0 <= pr_management_fee_shares r) as Hq2.
  { rewrite Hms. apply Z.div_pos; [apply Z.mul_nonneg_nonneg|]; lia. }
  set (q1 := pr_performance_fee_shares r) in *. set (q2 := pr_management_fee_shares r) in *.
  transitivity ((pf + mf) * (sh + q1 + q2)); [lia|].
  replace (pv_total_supply p + q1 + q2 + pv_virtual_shares p) with (sh + q1 + q2) by lia.
  apply Z.mul_le_mono_nonneg_r; lia.
Qed.

Definition example_parent : ParentVaultState :=
  mkParentVaultState 1 2 500 1000 100 1000000000000000 1000 1 100000000000000000 9 true
    1000000000 9 true 0 0 0 0 0 0 [] ∅ ∅ ∅ 0 0 0.

Lemma parent_accrual_bounds_witness :
  exists r, accrue_parent_view example_parent {[ 5 := 700 ]} 200 = Ok r /\
    pr_total_assets r = Z.min (real_assets_of example_parent {[ 5 := 700 ]})
                          (max_total_assets example_parent 200).
Proof.
  eexists. split; [vm_compute; reflexivity|].
  eapply (parent_accrual_bounds example_parent {[ 5 := 700 ]} 200);
    [repeat split; cbn; lia|vm_compute; repeat constructor; discriminate|vm_compute; reflexivity].
Defined.
