(* ===== verification/Adapters.v ===== *)
(** * Adapters: direct Morpho markets and the Vault V1 liquidity adapter

    Models [src/src/morpho/market_adapter.rs], [src/src/morpho/vault_v1_adapter.rs]
    and [src/src/morpho/rewards.rs].  Both adapters convert between assets and
    shares at a pool price; [Pool] proves once what a deposit or a withdrawal
    does to the value of a holding, and both adapters use it. *)

From stdpp Require Import base gmap list.
From Stdlib Require Import ZArith Lia.
From S2P Require Import Prelude.
From S2P Require Import BlueMath.
From S2P Require Import Domain.
From S2P Require Import AdaptiveCurve.
From S2P Require Import Accrual.

(** ** Value of a holding across a pool deposit or withdrawal

    A pool has [P] assets and [Q] shares, virtual ones included. *)
Module Pool.

Definition minted (x P Q : Z) : Z := x * Q / P.
Definition burned (x P Q : Z) : Z := (x * Q + (P - 1)) / P.
Definition value (h P Q : Z) : Z := h * P / Q.

Lemma minted_bounds x P Q : 0 < P -> minted x P Q * P <= x * Q < (minted x P Q + 1) * P.
Proof. intros. by apply floor_div_bounds. Qed.

Lemma burned_bounds x P Q :
  0 < P -> 0 <= x * Q -> (burned x P Q - 1) * P < x * Q <= burned x P Q * P.
Proof. intros. by apply ceil_div_bounds. Qed.

Lemma burned_nonneg x P Q : 0 < P -> 0 <= x -> 0 <= Q -> 0 <= burned x P Q.
Proof.
  intros. apply Z.div_pos; [|done].
  assert (0 <= x * Q) by (apply Z.mul_nonneg_nonneg; lia). lia.
Qed.

Lemma minted_nonneg x P Q : 0 < P -> 0 <= x -> 0 <= Q -> 0 <= minted x P Q.
Proof. intros. apply Z.div_pos; [apply Z.mul_nonneg_nonneg|]; lia. Qed.

Lemma value_shift h P Q n : 0 < Q -> (h * P + n * Q) / Q = value h P Q + n.
Proof. intros. unfold value. rewrite Z.div_add by lia. done. Qed.

(** A deposit never increases the depositor's value by more than it costs. *)
Lemma deposit_no_free_value h x P Q :
  0 < P -> 0 <= Q -> 0 <= x -> 0 <= h <= Q -> 0 < Q ->
  value (h + minted x P Q) (P + x) (Q + minted x P Q) <= value h P Q + x.
Proof.
  intros HP HQ0 Hx Hh HQ. pose proof (minted_bounds x P Q HP) as Hs.
  pose proof (minted_nonneg x P Q ltac:(lia) ltac:(lia) ltac:(lia)).
  set (s := minted x P Q) in *. clearbody s.
  rewrite <-value_shift by done. apply div_cross_le; [lia|done|].
  assert (0 <= (Q - h) * (x * Q - s * P)) by (apply Z.mul_nonneg_nonneg; lia). lia.
Qed.

(** When the pool price is at most one, a deposit loses at most one unit. *)
Lemma deposit_loss_bounded h x P Q :
  0 < P <= Q -> 0 <= x -> 0 <= h ->
  value h P Q + x - 1 <= value (h + minted x P Q) (P + x) (Q + minted x P Q).
Proof.
  intros HP Hx Hh. pose proof (minted_bounds x P Q (proj1 HP)) as Hs.
  pose proof (minted_nonneg x P Q ltac:(lia) ltac:(lia) ltac:(lia)).
  set (s := minted x P Q) in *. clearbody s.
  transitivity (value (h + s) P Q); [|apply scaled_div_le; lia].
  apply Z.div_le_lower_bound; [lia|].
  pose proof (floor_div_bounds (h * P) Q ltac:(lia)) as Hv. fold (value h P Q) in Hv. lia.
Qed.

(** A withdrawal takes at least its assets from the holder's value. *)
Lemma withdrawal_no_free_value h x P Q :
  0 < P -> x < P -> 0 <= x -> 0 <= h <= Q -> burned x P Q <= h -> burned x P Q < Q ->
  value (h - burned x P Q) (P - x) (Q - burned x P Q) <= value h P Q - x.
Proof.
  intros HP HxP Hx Hh Hbh HbQ.
  pose proof (burned_bounds x P Q HP ltac:(apply Z.mul_nonneg_nonneg; lia)) as Hb.
  pose proof (burned_nonneg x P Q ltac:(lia) ltac:(lia) ltac:(lia)).
  set (b := burned x P Q) in *. clearbody b.
  replace (value h P Q - x) with (value h P Q + - x) by lia.
  rewrite <-value_shift by lia. apply div_cross_le; [lia|lia|].
  assert (0 <= (Q - h) * (b * P - x * Q)) by (apply Z.mul_nonneg_nonneg; lia). lia.
Qed.

(** When the pool price is at most one, it takes at most one unit more. *)
Lemma withdrawal_loss_bounded h x P Q :
  0 < P <= Q -> x < P -> 0 <= x -> burned x P Q <= h -> burned x P Q < Q ->
  value h P Q - x - 1 <= value (h - burned x P Q) (P - x) (Q - burned x P Q).
Proof.
  intros HP HxP Hx Hbh HbQ.
  pose proof (burned_bounds x P Q ltac:(lia) ltac:(apply Z.mul_nonneg_nonneg; lia)) as Hb.
  pose proof (burned_nonneg x P Q ltac:(lia) ltac:(lia) ltac:(lia)).
  set (b := burned x P Q) in *. clearbody b.
  transitivity (value (h - b) P Q); [|apply scaled_div_le; lia].
  apply Z.div_le_lower_bound; [lia|].
  pose proof (floor_div_bounds (h * P) Q ltac:(lia)) as Hv. fold (value h P Q) in Hv. lia.
Qed.

End Pool.

(** ** Direct market adapter *)
Module Market.

Record AdapterTransitionResult : Type := mkAdapterTransitionResult {
  at_market : ProjectedMarketState;
  at_internal_supply_shares : Z;
  at_changed_shares : Z;
  at_expected_assets : Z;
  at_allocation_change : Z;
  at_affected_caps : CapRef * CapRef * CapRef;
}.

Definition expected_adapter_assets (internal_supply_shares : Z)
    (projected_market : ProjectedMarketState) : result MathError Z :=
  arith (to_supply_assets_down internal_supply_shares
           (pm_total_supply_assets projected_market) (pm_total_supply_shares projected_market)).

Definition signed_difference (after before : Z) : result MathError Z :=
  after ← ok_or (i256_of_u256 after) SignedConversion;
  before ← ok_or (i256_of_u256 before) SignedConversion;
  ok_or (i256_sub after before) Invariant.

(** The market with new supply totals, before its rates are refreshed. *)
Definition with_supply (m : ProjectedMarketState) (assets shares : Z) : ProjectedMarketState :=
  mkProjectedMarketState (pm_market_id m) (pm_timestamp m) assets shares
    (pm_total_borrow_assets m) (pm_total_borrow_shares m) (pm_average_accrual_borrow_rate m)
    (pm_ending_rate_at_target m) (pm_spot_borrow_rate m) (pm_spot_supply_rate m)
    (pm_utilization m) (pm_accounting_liquidity m).

Definition refresh_rates (market : ProjectedMarketState) (fee : Z)
    : result MathError ProjectedMarketState :=
  if (pm_total_supply_assets market <? pm_total_borrow_assets market) || (WAD <? fee)
  then Err Invariant
  else
    utilization ←
      (if pm_total_supply_assets market =? 0 then Ok 0
       else arith (w_div_down (pm_total_borrow_assets market) (pm_total_supply_assets market)));
    spot_borrow_rate ←
      adaptive_curve_spot_rate utilization (pm_ending_rate_at_target market);
    gross_rate ← arith (w_mul_down spot_borrow_rate utilization);
    net_fraction ← ok_or (checked_sub WAD fee) (Arithmetic Underflow);
    spot_supply_rate ← arith (w_mul_down gross_rate net_fraction);
    accounting_liquidity ←
      ok_or (checked_sub (pm_total_supply_assets market) (pm_total_borrow_assets market)) Invariant;
    Ok (mkProjectedMarketState (pm_market_id market) (pm_timestamp market)
          (pm_total_supply_assets market) (pm_total_supply_shares market)
          (pm_total_borrow_assets market) (pm_total_borrow_shares market)
          (pm_average_accrual_borrow_rate market) (pm_ending_rate_at_target market)
          spot_borrow_rate spot_supply_rate utilization accounting_liquidity).

Definition allocate (accrued_market : ProjectedMarketState)
    (internal_supply_shares requested_assets parent_recorded_allocation market_fee : Z)
    (affected_caps : CapRef * CapRef * CapRef) : result MathError AdapterTransitionResult :=
  minted_shares ← arith (to_supply_shares_down requested_assets
    (pm_total_supply_assets accrued_market) (pm_total_supply_shares accrued_market));
  if negb (requested_assets =? 0) && (minted_shares <? requested_assets)
  then Err SharePriceAboveOne
  else
    total_supply_assets ←
      ok_or (checked_add U256_MAX (pm_total_supply_assets accrued_market) requested_assets)
        (Arithmetic Overflow);
    total_supply_shares ←
      ok_or (checked_add U256_MAX (pm_total_supply_shares accrued_market) minted_shares)
        (Arithmetic Overflow);
    internal_supply_shares ←
      ok_or (checked_add U256_MAX internal_supply_shares minted_shares) (Arithmetic Overflow);
    market ← refresh_rates (with_supply accrued_market total_supply_assets total_supply_shares)
               market_fee;
    expected_assets ← expected_adapter_assets internal_supply_shares market;
    allocation_change ← signed_difference expected_assets parent_recorded_allocation;
    Ok (mkAdapterTransitionResult market internal_supply_shares minted_shares expected_assets
          allocation_change affected_caps).

Definition deallocate (accrued_market : ProjectedMarketState)
    (internal_supply_shares requested_assets parent_recorded_allocation
     morpho_token_balance market_fee : Z)
    (affected_caps : CapRef * CapRef * CapRef) : result MathError AdapterTransitionResult :=
  if (pm_accounting_liquidity accrued_market <? requested_assets)
     || (morpho_token_balance <? requested_assets)
  then Err InsufficientLiquidity
  else
    burned_shares ← arith (to_supply_shares_up requested_assets
      (pm_total_supply_assets accrued_market) (pm_total_supply_shares accrued_market));
    if internal_supply_shares <? burned_shares then Err InsufficientShares
    else
      total_supply_assets ←
        ok_or (checked_sub (pm_total_supply_assets accrued_market) requested_assets)
          (Arithmetic Underflow);
      total_supply_shares ←
        ok_or (checked_sub (pm_total_supply_shares accrued_market) burned_shares)
          (Arithmetic Underflow);
      internal_supply_shares ←
        ok_or (checked_sub internal_supply_shares burned_shares) (Arithmetic Underflow);
      market ← refresh_rates (with_supply accrued_market total_supply_assets total_supply_shares)
                 market_fee;
      expected_assets ← expected_adapter_assets internal_supply_shares market;
      allocation_change ← signed_difference expected_assets parent_recorded_allocation;
      Ok (mkAdapterTransitionResult market internal_supply_shares burned_shares expected_assets
            allocation_change affected_caps).

(** A projected market whose derived fields agree with its totals. *)
Definition consistent (m : ProjectedMarketState) : Prop :=
  0 <= pm_total_borrow_assets m <= pm_total_supply_assets m /\
  0 <= pm_total_supply_shares m /\
  pm_accounting_liquidity m = pm_total_supply_assets m - pm_total_borrow_assets m /\
  0 <= pm_utilization m <= WAD /\
  adaptive_curve_spot_rate (pm_utilization m) (pm_ending_rate_at_target m)
    = Ok (pm_spot_borrow_rate m).

Lemma refresh_rates_Ok m fee m' :
  0 <= pm_total_borrow_assets m -> 0 <= pm_total_supply_shares m ->
  refresh_rates m fee = Ok m' ->
  consistent m' /\ pm_total_supply_assets m' = pm_total_supply_assets m /\
  pm_total_supply_shares m' = pm_total_supply_shares m /\
  pm_total_borrow_assets m' = pm_total_borrow_assets m /\
  pm_ending_rate_at_target m' = pm_ending_rate_at_target m /\
  pm_market_id m' = pm_market_id m.
Proof.
  intros Hb Hsh H. unfold refresh_rates in H.
  destruct (_ || _) eqn:Hg; [done|]. apply orb_false_iff in Hg as [Hg1%Z.ltb_ge _].
  step_ok H as u Hu. step_ok H as sb Hsb. step_ok H as gr _. step_ok H as nf _.
  step_ok H as ss _. step_ok H as liq (-> & _)%ok_or_Ok%checked_sub_Some. injection H as <-.
  assert (0 <= u <= WAD) as Hu1.
  { destruct (Z.eqb_spec (pm_total_supply_assets m) 0).
    - injection Hu as <-. done.
    - apply arith_Ok, mul_div_down_Ok in Hu as (_ & _ & ->).
      split; [apply Z.div_pos; unfold WAD; lia|]. apply Z.div_le_upper_bound; unfold WAD; lia. }
  unfold consistent. cbn. repeat split; done || lia.
Qed.

(** Accrual produces consistent markets. *)
Lemma accrue_market_consistent s t irm r :
  stored_market_wf s -> irm_wf irm -> accrue_market s t irm = Ok r -> consistent (ma_market r).
Proof.
  intros Hs Hi H. pose proof (accrue_market_Ok s t irm r Hs Hi H) as (Hspec & Hfee & Hw & _).
  destruct Hspec as (Hi0 & HB & HA & HS & _ & _ & Hle & Hl & Hu & _ & _ & Hsp).
  pose proof (fee_shares_nonneg s _ Hs Hw Hi0) as Hf. destruct Hs as (? & ? & ? & ?).
  unfold consistent. repeat split; done || lia.
Qed.

Lemma signed_difference_Ok a b c : signed_difference a b = Ok c -> c = a - b.
Proof. unfold signed_difference. intros H. by inv_ok. Qed.

(** Virtual totals of a market. *)
Definition pool_assets (m : ProjectedMarketState) : Z :=
  pm_total_supply_assets m + VIRTUAL_ASSETS.
Definition pool_shares (m : ProjectedMarketState) : Z :=
  pm_total_supply_shares m + VIRTUAL_SHARES.

Lemma expected_adapter_assets_Ok h m v :
  expected_adapter_assets h m = Ok v -> v = Pool.value h (pool_assets m) (pool_shares m).
Proof. unfold expected_adapter_assets. intros H. by inv_math. Qed.

(** Inversion of a successful allocation. *)
Lemma allocate_Ok m h x rec fee caps r :
  consistent m -> 0 <= x -> allocate m h x rec fee caps = Ok r ->
  let s := Pool.minted x (pool_assets m) (pool_shares m) in
  consistent (at_market r) /\
  pm_total_supply_assets (at_market r) = pm_total_supply_assets m + x /\
  pm_total_supply_shares (at_market r) = pm_total_supply_shares m + s /\
  pm_total_borrow_assets (at_market r) = pm_total_borrow_assets m /\
  at_changed_shares r = s /\ at_internal_supply_shares r = h + s /\ (x = 0 \/ x <= s) /\
  at_expected_assets r = Pool.value (h + s) (pool_assets m + x) (pool_shares m + s) /\
  at_allocation_change r = at_expected_assets r - rec /\ at_affected_caps r = caps.
Proof.
  intros (Hb & Hs & _) Hx H s. unfold allocate in H.
  step_ok H as minted Hm%arith_Ok.
  assert (minted = s) as -> by (clear H; inv_math; done).
  assert (0 <= s) as Hs0.
  { apply Pool.minted_nonneg; unfold pool_assets, pool_shares, VIRTUAL_ASSETS, VIRTUAL_SHARES; lia. }
  destruct (negb (x =? 0) && _) eqn:Hp; [done|].
  step_ok H as ta (-> & _)%ok_or_Ok%checked_add_Some.
  step_ok H as ts (-> & _)%ok_or_Ok%checked_add_Some.
  step_ok H as ints (-> & _)%ok_or_Ok%checked_add_Some.
  step_ok H as m' Hr. apply refresh_rates_Ok in Hr as (Hc & HA & HS & HB & _); [|cbn; lia..].
  cbn in HA, HS, HB. step_ok H as ea Hea%expected_adapter_assets_Ok.
  step_ok H as ac Hac%signed_difference_Ok. injection H as <-. cbn.
  do 6 (split; [done|]). split; [|split; [|done]].
  - apply andb_false_iff in Hp as [Hp|Hp]; [left|right]; lia.
  - subst ea. unfold pool_assets, pool_shares. rewrite HA, HS. f_equal; lia.
Qed.

(** Inversion of a successful deallocation. *)
Lemma deallocate_Ok m h x rec bal fee caps r :
  consistent m -> 0 <= x -> deallocate m h x rec bal fee caps = Ok r ->
  let b := Pool.burned x (pool_assets m) (pool_shares m) in
  consistent (at_market r) /\
  pm_total_supply_assets (at_market r) = pm_total_supply_assets m - x /\
  pm_total_supply_shares (at_market r) = pm_total_supply_shares m - b /\
  pm_total_borrow_assets (at_market r) = pm_total_borrow_assets m /\
  at_changed_shares r = b /\ at_internal_supply_shares r = h - b /\
  x <= pm_accounting_liquidity m /\ x <= bal /\ b <= h /\ b <= pm_total_supply_shares m /\
  at_expected_assets r = Pool.value (h - b) (pool_assets m - x) (pool_shares m - b) /\
  at_allocation_change r = at_expected_assets r - rec /\ at_affected_caps r = caps.
Proof.
  intros (Hb & Hs & Hl & _) Hx H b. unfold deallocate in H.
  destruct (_ || _) eqn:Hg; [done|]. apply orb_false_iff in Hg as [Hg1%Z.ltb_ge Hg2%Z.ltb_ge].
  step_ok H as burned Hm%arith_Ok.
  assert (burned = b) as -> by (clear H; inv_math; done). clear Hm.
  destruct (Z.ltb_spec h b) as [|Hbh]; [done|].
  step_ok H as ta (-> & _)%ok_or_Ok%checked_sub_Some.
  step_ok H as ts (-> & Hbs)%ok_or_Ok%checked_sub_Some.
  step_ok H as ints (-> & _)%ok_or_Ok%checked_sub_Some.
  step_ok H as m' Hr. apply refresh_rates_Ok in Hr as (Hc & HA & HS & HB & _); [|cbn; lia..].
  cbn in HA, HS, HB. step_ok H as ea Hea%expected_adapter_assets_Ok.
  step_ok H as ac Hac%signed_difference_Ok. injection H as <-. cbn.
  do 6 (split; [done|]). do 4 (split; [lia|]). split; [|done].
  subst ea. unfold pool_assets, pool_shares. rewrite HA, HS. f_equal; lia.
Qed.

(** Supplying through the direct adapter keeps the market consistent and
    moves exactly the requested assets into it; the adapter's position then
    gains at most the requested assets and loses at most one unit of them. *)
Theorem allocate_value m h x rec fee caps r v :
  consistent m -> 0 < x -> 0 <= h <= pm_total_supply_shares m ->
  expected_adapter_assets h m = Ok v -> allocate m h x rec fee caps = Ok r ->
  consistent (at_market r) /\
  pm_accounting_liquidity (at_market r) = pm_accounting_liquidity m + x /\
  x <= at_changed_shares r /\
  v + x - 1 <= at_expected_assets r <= v + x /\
  at_allocation_change r = at_expected_assets r - rec.
Proof.
  intros Hc Hx Hh Hv%expected_adapter_assets_Ok Ha.
  apply allocate_Ok in Ha as (Hc' & HA & _ & HB & Hch & _ & Hmin & He & Hac & _); [|done|lia].
  destruct Hc as (Hb & Hs & Hl & _). pose proof Hc' as (_ & _ & Hl' & _).
  split; [done|]. split; [lia|]. split; [lia|]. split; [|done]. rewrite He, Hv.
  destruct Hmin as [|Hmin]; [lia|].
  assert (0 < pool_assets m) as HP by (unfold pool_assets, VIRTUAL_ASSETS; lia).
  assert (0 <= h <= pool_shares m) as HhQ by (unfold pool_shares, VIRTUAL_SHARES; lia).
  assert (0 < pool_shares m) as HQ by (unfold pool_shares, VIRTUAL_SHARES; lia).
  split; [|apply Pool.deposit_no_free_value; lia].
  apply Pool.deposit_loss_bounded; [split; [done|]|lia|lia].
  pose proof (Pool.minted_bounds x (pool_assets m) (pool_shares m) HP) as [Hm _].
  apply (Z.mul_le_mono_pos_l _ _ x Hx).
  etrans; [|exact Hm]. apply Z.mul_le_mono_nonneg_r; lia.
Qed.

(** Withdrawing through the direct adapter never exceeds the market's
    liquidity or the token balance, keeps debts covered by supply, and costs
    the adapter at least the withdrawn assets, and at most one unit more when
    the share price is at most one. *)
Theorem deallocate_value m h x rec bal fee caps r v :
  consistent m -> 0 <= x -> h <= pm_total_supply_shares m ->
  expected_adapter_assets h m = Ok v -> deallocate m h x rec bal fee caps = Ok r ->
  consistent (at_market r) /\ x <= bal /\
  pm_accounting_liquidity (at_market r) = pm_accounting_liquidity m - x /\
  at_expected_assets r <= v - x /\
  (pool_assets m <= pool_shares m -> v - x - 1 <= at_expected_assets r) /\
  at_allocation_change r = at_expected_assets r - rec.
Proof.
  intros Hc Hx Hh Hv%expected_adapter_assets_Ok Ha.
  apply deallocate_Ok in Ha
    as (Hc' & HA & _ & HB & _ & _ & Hliq & Hbal & Hbh & Hbs & He & Hac & _); [|done..].
  destruct Hc as (Hb & Hs & Hl & _). pose proof Hc' as (_ & _ & Hl' & _).
  split; [done|]. split; [done|]. split; [lia|]. rewrite He, Hv.
  assert (0 < pool_assets m) as HP by (unfold pool_assets, VIRTUAL_ASSETS; lia).
  assert (x < pool_assets m) as HxP by (unfold pool_assets, VIRTUAL_ASSETS; lia).
  pose proof (Pool.burned_nonneg x (pool_assets m) (pool_shares m) HP Hx
    ltac:(unfold pool_shares, VIRTUAL_SHARES; lia)) as Hb0.
  assert (0 <= h <= pool_shares m) as HhQ by (unfold pool_shares, VIRTUAL_SHARES; lia).
  set (b := Pool.burned x (pool_assets m) (pool_shares m)) in *.
  assert (b < pool_shares m) as HbQ by (unfold pool_shares, VIRTUAL_SHARES; lia).
  split; [apply Pool.withdrawal_no_free_value; lia|]. split; [|lia].
  intros HPQ. apply Pool.withdrawal_loss_bounded; lia.
Qed.

Definition example : ProjectedMarketState :=
  mkProjectedMarketState 7 100 1000 1000000000 900 900000000 0 1000000000
    1000000000 900000000 900000000000000000 100.
Definition example_caps : CapRef * CapRef * CapRef :=
  (mkCapRef 1 1, mkCapRef 1 2, mkCapRef 1 3).

Lemma example_consistent : consistent example.
Proof. unfold consistent, WAD. cbn. repeat split; try lia. Qed.

Lemma allocate_value_witness :
  exists r v, expected_adapter_assets 500000000 example = Ok v /\
    allocate example 500000000 50 400 0 example_caps = Ok r /\
    v + 50 - 1 <= at_expected_assets r <= v + 50.
Proof.
  do 2 eexists. do 2 (split; [vm_compute; reflexivity|]).
  eapply (allocate_value example 500000000 50 400 0 example_caps);
    [apply example_consistent|lia|cbn; lia|vm_compute; reflexivity..].
Defined.

Lemma deallocate_value_witness :
  exists r v, expected_adapter_assets 500000000 example = Ok v /\
    deallocate example 500000000 50 400 1000 0 example_caps = Ok r /\
    at_expected_assets r <= v - 50.
Proof.
  do 2 eexists. do 2 (split; [vm_compute; reflexivity|]).
  eapply (deallocate_value example 500000000 50 400 1000 0 example_caps);
    [apply example_consistent|lia|cbn; lia|vm_compute; reflexivity..].
Defined.

End Market.

(** ** Vault V1 liquidity adapter *)
Module VaultV1.

Record VaultV1AdapterTransition : Type := mkVaultV1AdapterTransition {
  vt_vault_total_assets : Z;
  vt_vault_total_supply : Z;
  vt_share_balance : Z;
  vt_real_assets : Z;
  vt_allocation_change : Z;
  vt_changed_morpho_shares : Z;
  vt_idle_market_total_supply_assets : Z;
  vt_idle_market_total_supply_shares : Z;
  vt_idle_market_supply_shares : Z;
}.

Fixpoint virtual_shares_loop (n : nat) (value : Z) : result MathError Z :=
  match n with
  | O => Ok value
  | S n => value ← ok_or (checked_mul U256_MAX value 10) Invariant; virtual_shares_loop n value
  end.
Definition virtual_shares (offset : Z) : result MathError Z :=
  virtual_shares_loop (Z.to_nat offset) 1.

Definition conversion_totals (total_assets total_supply offset : Z) : result MathError (Z * Z) :=
  assets ← ok_or (checked_add U256_MAX total_assets 1) Invariant;
  virtual ← virtual_shares offset;
  shares ← ok_or (checked_add U256_MAX total_supply virtual) Invariant;
  Ok (assets, shares).

Definition preview_deposit (assets total_assets total_supply offset : Z) : result MathError Z :=
  '(asset_total, share_total) ← conversion_totals total_assets total_supply offset;
  arith (mul_div_down assets share_total asset_total).

Definition preview_withdraw (assets total_assets total_supply offset : Z) : result MathError Z :=
  '(asset_total, share_total) ← conversion_totals total_assets total_supply offset;
  arith (mul_div_up assets share_total asset_total).

Definition preview_redeem (shares total_assets total_supply offset : Z) : result MathError Z :=
  '(asset_total, share_total) ← conversion_totals total_assets total_supply offset;
  arith (mul_div_down shares asset_total share_total).

Definition allocation_change (after before : Z) : result MathError Z :=
  after ← ok_or (i256_of_u256 after) SignedConversion;
  before ← ok_or (i256_of_u256 before) SignedConversion;
  ok_or (i256_sub after before) SignedConversion.

Definition allocate (state : VaultV1LiquidityAdapterState) (assets : Z)
    : result MathError VaultV1AdapterTransition :=
  if (assets =? 0) || (la_max_deposit state <? assets) then Err Invariant
  else
    minted ← preview_deposit assets (la_vault_total_assets state) (la_vault_total_supply state)
               (la_decimals_offset state);
    if minted =? 0 then Err Invariant
    else
      changed_morpho_shares ← arith (to_supply_shares_down assets
        (la_idle_market_total_supply_assets state) (la_idle_market_total_supply_shares state));
      if changed_morpho_shares =? 0 then Err Invariant
      else
        vault_total_assets ←
          ok_or (checked_add U256_MAX (la_vault_total_assets state) assets) Invariant;
        vault_total_supply ←
          ok_or (checked_add U256_MAX (la_vault_total_supply state) minted) Invariant;
        share_balance ←
          ok_or (checked_add U256_MAX (la_share_balance state) minted) Invariant;
        real_assets ← preview_redeem share_balance vault_total_assets vault_total_supply
                        (la_decimals_offset state);
        change ← allocation_change real_assets (la_recorded_allocation state);
        idle_assets ← ok_or (checked_add U256_MAX (la_idle_market_total_supply_assets state)
                               assets) Invariant;
        idle_shares ← ok_or (checked_add U256_MAX (la_idle_market_total_supply_shares state)
                               changed_morpho_shares) Invariant;
        position_shares ← ok_or (checked_add U256_MAX (la_idle_market_supply_shares state)
                                   changed_morpho_shares) Invariant;
        Ok (mkVaultV1AdapterTransition vault_total_assets vault_total_supply share_balance
              real_assets change changed_morpho_shares idle_assets idle_shares position_shares).

Definition deallocate (state : VaultV1LiquidityAdapterState) (assets : Z)
    : result MathError VaultV1AdapterTransition :=
  if (assets =? 0) || (la_max_withdraw state <? assets)
     || (la_vault_total_assets state <? assets)
  then Err InsufficientLiquidity
  else
    burned ← preview_withdraw assets (la_vault_total_assets state)
               (la_vault_total_supply state) (la_decimals_offset state);
    if (la_share_balance state <? burned) || (la_vault_total_supply state <? burned)
    then Err InsufficientShares
    else
      changed_morpho_shares ← arith (to_supply_shares_up assets
        (la_idle_market_total_supply_assets state) (la_idle_market_total_supply_shares state));
      if (la_idle_market_supply_shares state <? changed_morpho_shares)
         || (la_idle_market_total_supply_shares state <? changed_morpho_shares)
      then Err InsufficientShares
      else
        vault_total_assets ← ok_or (checked_sub (la_vault_total_assets state) assets) Invariant;
        vault_total_supply ← ok_or (checked_sub (la_vault_total_supply state) burned) Invariant;
        share_balance ← ok_or (checked_sub (la_share_balance state) burned) Invariant;
        real_assets ← preview_redeem share_balance vault_total_assets vault_total_supply
                        (la_decimals_offset state);
        change ← allocation_change real_assets (la_recorded_allocation state);
        idle_assets ←
          ok_or (checked_sub (la_idle_market_total_supply_assets state) assets) Invariant;
        idle_shares ← ok_or (checked_sub (la_idle_market_total_supply_shares state)
                               changed_morpho_shares) Invariant;
        position_shares ← ok_or (checked_sub (la_idle_market_supply_shares state)
                                   changed_morpho_shares) Invariant;
        Ok (mkVaultV1AdapterTransition vault_total_assets vault_total_supply share_balance
              real_assets change changed_morpho_shares idle_assets idle_shares position_shares).

(** *** Lemmas *)

Lemma virtual_shares_loop_Ok n v w :
  virtual_shares_loop n v = Ok w -> w = v * 10 ^ Z.of_nat n.
Proof.
  revert v. induction n as [|n IH]; intros v H; cbn in H.
  - injection H as <-. cbn. lia.
  - step_ok H as v' (-> & _)%ok_or_Ok%checked_mul_Some. apply IH in H as ->.
    rewrite Nat2Z.inj_succ, Z.pow_succ_r by lia. lia.
Qed.

Lemma virtual_shares_Ok o w : 0 <= o -> virtual_shares o = Ok w -> w = 10 ^ o.
Proof.
  intros Ho H%virtual_shares_loop_Ok. rewrite Z2Nat.id in H by done. lia.
Qed.

Definition pool_assets (s : VaultV1LiquidityAdapterState) : Z := la_vault_total_assets s + 1.
Definition pool_shares (s : VaultV1LiquidityAdapterState) : Z :=
  la_vault_total_supply s + 10 ^ la_decimals_offset s.

Lemma conversion_totals_Ok a s o p :
  0 <= o -> conversion_totals a s o = Ok p -> p = (a + 1, s + 10 ^ o).
Proof.
  intros Ho H. unfold conversion_totals in H.
  step_ok H as assets (-> & _)%ok_or_Ok%checked_add_Some.
  step_ok H as v Hv. apply virtual_shares_Ok in Hv as ->; [|done].
  step_ok H as shares (-> & _)%ok_or_Ok%checked_add_Some. by injection H as <-.
Qed.

(** Holdings of the adapter are part of the wrapped vault's supply. *)
Definition state_wf (s : VaultV1LiquidityAdapterState) : Prop :=
  0 <= la_vault_total_assets s /\ 0 <= la_share_balance s <= la_vault_total_supply s /\
  0 <= la_decimals_offset s /\ 0 <= la_idle_market_total_supply_assets s /\
  0 <= la_idle_market_supply_shares s <= la_idle_market_total_supply_shares s.

Ltac inv_preview H Ho :=
  unfold preview_deposit, preview_withdraw, preview_redeem in H;
  let p := fresh "p" in let Hp := fresh "Hp" in
  apply bind_Ok in H as (p & Hp & H); apply conversion_totals_Ok in Hp; [|exact Ho];
  subst p; cbn beta iota in H; apply arith_Ok in H.

Lemma pool_shares_pos s : state_wf s -> la_share_balance s < pool_shares s.
Proof.
  intros (_ & Hs & Ho & _). unfold pool_shares.
  pose proof (Z.pow_pos_nonneg 10 (la_decimals_offset s) ltac:(lia) Ho). lia.
Qed.

Lemma allocation_change_Ok a b c : allocation_change a b = Ok c -> c = a - b.
Proof. unfold allocation_change. intros H. by inv_ok. Qed.

(** A deposit through the liquidity adapter moves exactly the assets into
    the wrapped vault and into its idle market, mints the same shares to the
    adapter and to the supply, keeps the holdings well formed, and its redeem
    value grows by at most the deposited assets. *)
Theorem vault_v1_allocate_value s x r v :
  state_wf s -> 0 <= x ->
  preview_redeem (la_share_balance s) (la_vault_total_assets s) (la_vault_total_supply s)
    (la_decimals_offset s) = Ok v ->
  allocate s x = Ok r ->
  0 < x <= la_max_deposit s /\
  vt_vault_total_assets r = la_vault_total_assets s + x /\
  vt_idle_market_total_supply_assets r = la_idle_market_total_supply_assets s + x /\
  vt_vault_total_supply r - la_vault_total_supply s = vt_share_balance r - la_share_balance s /\
  0 < vt_share_balance r - la_share_balance s /\
  0 <= vt_idle_market_supply_shares r <= vt_idle_market_total_supply_shares r /\
  vt_real_assets r <= v + x /\
  vt_allocation_change r = vt_real_assets r - la_recorded_allocation s.
Proof.
  intros Hwf Hx Hv H. pose proof (pool_shares_pos s Hwf) as HQ.
  destruct Hwf as (Ha & Hsb & Ho & Hia & His). unfold allocate in H.
  destruct (_ || _) eqn:Hg; [done|]. apply orb_false_iff in Hg as [Hg1%Z.eqb_neq Hg2%Z.ltb_ge].
  step_ok H as minted Hm. inv_preview Hm Ho. apply mul_div_down_Ok in Hm as (_ & _ & Hm).
  fold (pool_assets s) in Hm. fold (pool_shares s) in Hm.
  fold (Pool.minted x (pool_assets s) (pool_shares s)) in Hm.
  inv_preview Hv Ho. apply mul_div_down_Ok in Hv as (_ & _ & Hv).
  fold (pool_assets s) in Hv. fold (pool_shares s) in Hv.
  fold (Pool.value (la_share_balance s) (pool_assets s) (pool_shares s)) in Hv.
  destruct (Z.eqb_spec minted 0) as [|Hm0]; [done|].
  step_ok H as cm Hcm%arith_Ok. destruct (Z.eqb_spec cm 0) as [|Hcm0]; [done|].
  assert (0 <= cm) as Hcm1.
  { unfold to_supply_shares_down in Hcm. step_ok Hcm as tot (-> & _)%with_virtuals_Ok.
    apply mul_div_down_Ok in Hcm as (_ & _ & ->). unfold VIRTUAL_ASSETS, VIRTUAL_SHARES.
    apply Z.div_pos; [apply Z.mul_nonneg_nonneg|]; lia. }
  step_ok H as ta (-> & _)%ok_or_Ok%checked_add_Some.
  step_ok H as ts (-> & _)%ok_or_Ok%checked_add_Some.
  step_ok H as sb (-> & _)%ok_or_Ok%checked_add_Some.
  step_ok H as ra Hra. inv_preview Hra Ho. apply mul_div_down_Ok in Hra as (_ & _ & Hra).
  step_ok H as ch Hch%allocation_change_Ok.
  step_ok H as i1 (-> & _)%ok_or_Ok%checked_add_Some.
  step_ok H as i2 (-> & _)%ok_or_Ok%checked_add_Some.
  step_ok H as i3 (-> & _)%ok_or_Ok%checked_add_Some. injection H as <-. cbn.
  assert (0 < pool_assets s) by (unfold pool_assets; lia).
  pose proof (Pool.minted_nonneg x (pool_assets s) (pool_shares s)
                ltac:(lia) ltac:(lia) ltac:(lia)).
  do 6 (split; [lia|]). split; [|done]. rewrite Hra, Hv.
  replace (la_vault_total_assets s + x + 1) with (pool_assets s + x)
    by (unfold pool_assets; lia).
  replace (la_vault_total_supply s + minted + 10 ^ la_decimals_offset s)
    with (pool_shares s + minted) by (unfold pool_shares; lia).
  subst minted. apply Pool.deposit_no_free_value; lia.
Qed.

Definition example : VaultV1LiquidityAdapterState :=
  mkVaultV1LiquidityAdapterState 5 1 6 9 0 0 500 400 500000 1000 1000000 3 10000 400 8
    1000 1000000000 900000000 0.

Lemma example_wf : state_wf example.
Proof. unfold state_wf. cbn. lia. Qed.

Lemma vault_v1_allocate_value_witness :
  exists r v, preview_redeem 500000 1000 1000000 3 = Ok v /\ allocate example 50 = Ok r /\
    vt_real_assets r <= v + 50.
Proof.
  do 2 eexists. do 2 (split; [vm_compute; reflexivity|]).
  eapply (vault_v1_allocate_value example 50);
    [apply example_wf|lia|vm_compute; reflexivity..].
Defined.

(** A withdrawal through the liquidity adapter is covered by the wrapped
    vault, by the adapter's shares and by the idle market position, removes
    exactly the assets, and lowers the redeem value by at least them. *)
Theorem vault_v1_deallocate_value s x r v :
  state_wf s -> 0 <= x ->
  preview_redeem (la_share_balance s) (la_vault_total_assets s) (la_vault_total_supply s)
    (la_decimals_offset s) = Ok v ->
  deallocate s x = Ok r ->
  0 < x <= la_max_withdraw s /\
  vt_vault_total_assets r = la_vault_total_assets s - x /\ 0 <= vt_vault_total_assets r /\
  vt_idle_market_total_supply_assets r = la_idle_market_total_supply_assets s - x /\
  vt_vault_total_supply r - la_vault_total_supply s = vt_share_balance r - la_share_balance s /\
  0 <= vt_share_balance r <= vt_vault_total_supply r /\
  0 <= vt_idle_market_supply_shares r <= vt_idle_market_total_supply_shares r /\
  vt_real_assets r <= v - x /\
  vt_allocation_change r = vt_real_assets r - la_recorded_allocation s.
Proof.
  intros Hwf Hx Hv H. pose proof (pool_shares_pos s Hwf) as HQ.
  destruct Hwf as (Ha & Hsb & Ho & Hia & His). unfold deallocate in H.
  destruct (_ || _ || _) eqn:Hg; [done|].
  apply orb_false_iff in Hg as [[Hg1%Z.eqb_neq Hg2%Z.ltb_ge]%orb_false_iff Hg3%Z.ltb_ge].
  step_ok H as burned Hm. inv_preview Hm Ho. apply mul_div_up_Ok in Hm as (_ & _ & _ & Hm).
  fold (pool_assets s) in Hm. fold (pool_shares s) in Hm.
  fold (Pool.burned x (pool_assets s) (pool_shares s)) in Hm.
  inv_preview Hv Ho. apply mul_div_down_Ok in Hv as (_ & _ & Hv).
  fold (pool_assets s) in Hv. fold (pool_shares s) in Hv.
  fold (Pool.value (la_share_balance s) (pool_assets s) (pool_shares s)) in Hv.
  destruct (_ || _) eqn:Hb1; [done|]. apply orb_false_iff in Hb1 as [Hb1%Z.ltb_ge Hb2%Z.ltb_ge].
  step_ok H as cm _. destruct (_ || _) eqn:Hc1; [done|].
  apply orb_false_iff in Hc1 as [Hc1%Z.ltb_ge Hc2%Z.ltb_ge].
  step_ok H as ta (-> & _)%ok_or_Ok%checked_sub_Some.
  step_ok H as ts (-> & _)%ok_or_Ok%checked_sub_Some.
  step_ok H as sb (-> & _)%ok_or_Ok%checked_sub_Some.
  step_ok H as ra Hra. inv_preview Hra Ho. apply mul_div_down_Ok in Hra as (_ & _ & Hra).
  step_ok H as ch Hch%allocation_change_Ok.
  step_ok H as i1 (-> & _)%ok_or_Ok%checked_sub_Some.
  step_ok H as i2 (-> & _)%ok_or_Ok%checked_sub_Some.
  step_ok H as i3 (-> & _)%ok_or_Ok%checked_sub_Some. injection H as <-. cbn.
  assert (0 < pool_assets s) by (unfold pool_assets; lia).
  do 7 (split; [lia|]). split; [|done]. rewrite Hra, Hv.
  replace (la_vault_total_assets s - x + 1) with (pool_assets s - x)
    by (unfold pool_assets; lia).
  replace (la_vault_total_supply s - burned + 10 ^ la_decimals_offset s)
    with (pool_shares s - burned) by (unfold pool_shares; lia).
  subst burned. apply Pool.withdrawal_no_free_value; try lia. unfold pool_assets. lia.
Qed.

Lemma vault_v1_deallocate_value_witness :
  exists r v, preview_redeem 500000 1000 1000000 3 = Ok v /\ deallocate example 50 = Ok r /\
    vt_real_assets r <= v - 50.
Proof.
  do 2 eexists. do 2 (split; [vm_compute; reflexivity|]).
  eapply (vault_v1_deallocate_value example 50);
    [apply example_wf|lia|vm_compute; reflexivity..].
Defined.

End VaultV1.

(** ** Reward policies *)

Inductive RewardContribution : Type := ExplicitlyZero.

Inductive RewardError : Type :=
| Expired
| UnsupportedModel
| RewardFixed
| InvalidIdentity.

Definition release_one_reward_contribution (policy : RewardPolicy) (required_through : Z)
    : result RewardError RewardContribution :=
  match policy with
  | NoMaterialRewards _ valid_until_timestamp evidence_hash =>
      if evidence_hash =? 0 then Err InvalidIdentity
      else if valid_until_timestamp <? required_through then Err Expired
      else Ok ExplicitlyZero
  | IgnoreRewardsByCuratorMandate policy_revision =>
      if policy_revision =? 0 then Err InvalidIdentity else Ok ExplicitlyZero
  | Modeled _ _ => Err UnsupportedModel
  | FixedUntilModeled => Err RewardFixed
  end.
