(* ===== verification/IdleLocks.v ===== *)
(** * Idle-flow attribution and the idle-lock ledger

    Models [src/src/state/attribution.rs] and [src/src/state/idle_locks.rs].  The
    ledger holds back idle assets that routine plans must not touch.  A failing
    [apply_transaction] leaves the fields it has already written, so the model
    returns the ledger beside the result. *)

From stdpp Require Import base gmap list.
From Stdlib Require Import ZArith Lia.
From S2P Require Import Prelude.
From S2P Require Import BlueMath.
From S2P Require Import Domain.

(** ** Attribution *)

Inductive FlowOrigin : Type :=
| BotRebalance
| VaultUserDeposit
| VaultUserWithdrawal
| VaultUserForceDeallocate
| ApprovedExternalAllocator
| UnknownExternalAllocator
| SentinelDeallocation
| CuratorAdministration
| OwnerAdministration
| MorphoExternalUser
| DirectDonation
| LiquidationOrBadDebt
| UnknownOrigin.
#[global] Instance FlowOrigin_eq_dec : EqDecision FlowOrigin.
Proof. solve_decision. Defined.

Record OrderedAssetFlow : Type := mkOrderedAssetFlow {
  af_log_index : Z;
  af_assets : Z;
}.

Record OrderedTransactionFlow : Type := mkOrderedTransactionFlow {
  tf_block_number : Z;
  tf_transaction_index : Z;
  tf_transaction_hash : B256;
  tf_sender : Address;
  tf_origin : FlowOrigin;
  tf_inflows : list OrderedAssetFlow;
  tf_outflows : list OrderedAssetFlow;
  tf_preauthorized_redeploy : bool;
}.

Record TransactionIdleEffect : Type := mkTransactionIdleEffect {
  ie_pre_idle : Z;
  ie_post_idle : Z;
  ie_inflow_assets : Z;
  ie_outflow_assets : Z;
  ie_net_created_assets : Z;
  ie_net_consumed_assets : Z;
}.

Inductive AttributionError : Type :=
| FlowNonCanonicalOrder
| FlowOverflow
| ExactBalanceMismatch.

Fixpoint sum_ordered_loop (previous : option Z) (total : Z) (flows : list OrderedAssetFlow)
    : result AttributionError Z :=
  match flows with
  | [] => Ok total
  | flow :: flows =>
      if (match previous with Some index => af_log_index flow <=? index | None => false end)
      then Err FlowNonCanonicalOrder
      else
        total ← ok_or (checked_add U256_MAX total (af_assets flow)) FlowOverflow;
        sum_ordered_loop (Some (af_log_index flow)) total flows
  end.
Definition sum_ordered (flows : list OrderedAssetFlow) : result AttributionError Z :=
  sum_ordered_loop None 0 flows.

Definition attribute_idle_effect (transaction : OrderedTransactionFlow)
    (pre_idle exact_post_idle : Z) : result AttributionError TransactionIdleEffect :=
  inflow_assets ← sum_ordered (tf_inflows transaction);
  outflow_assets ← sum_ordered (tf_outflows transaction);
  computed_post ← ok_or
    (value ← checked_add U256_MAX pre_idle inflow_assets; checked_sub value outflow_assets)
    FlowOverflow;
  if negb (computed_post =? exact_post_idle) then Err ExactBalanceMismatch
  else Ok (mkTransactionIdleEffect pre_idle exact_post_idle inflow_assets outflow_assets
             (saturating_sub exact_post_idle pre_idle) (saturating_sub pre_idle exact_post_idle)).

(** ** The ledger *)

Inductive IdleLockKind : Type :=
| ForceExit
| ExternalEmergencyDeallocation
| OperatorEmergency
| UnattributedSafetyHold.
#[global] Instance IdleLockKind_eq_dec : EqDecision IdleLockKind.
Proof. solve_decision. Defined.

Definition lock_kind_code (k : IdleLockKind) : Z :=
  match k with
  | ForceExit => 0
  | ExternalEmergencyDeallocation => 1
  | OperatorEmergency => 2
  | UnattributedSafetyHold => 3
  end.

Inductive IdleLockReleaseState : Type :=
| LockActive
| OperatorCleared
| PreauthorizedRedeploy
| Consumed.
#[global] Instance IdleLockReleaseState_eq_dec : EqDecision IdleLockReleaseState.
Proof. solve_decision. Defined.

Record IdleLock : Type := mkIdleLock {
  lk_lock_id : B256;
  lk_vault : VaultAddress;
  lk_kind : IdleLockKind;
  lk_origin_transaction : B256;
  lk_origin_address : Address;
  lk_created_assets : Z;
  lk_remaining_assets : Z;
  lk_created_block : Z;
  lk_release_state : IdleLockReleaseState;
}.

Record IdleLockLedger : Type := mkIdleLockLedger {
  ll_vault : VaultAddress;
  ll_exact_idle_assets : Z;
  ll_locks : list IdleLock;
  ll_cursor : option (Z * Z);
  ll_verified : bool;
}.

Inductive IdleLockError : Type :=
| LockNonCanonicalOrder
| Attribution (e : AttributionError)
| LockInvariant
| UnknownLock.

Definition lock_active (lock : IdleLock) : bool :=
  bool_decide (lk_release_state lock = LockActive).

Definition set_lock (lock : IdleLock) (remaining : Z) (state : IdleLockReleaseState) : IdleLock :=
  mkIdleLock (lk_lock_id lock) (lk_vault lock) (lk_kind lock) (lk_origin_transaction lock)
    (lk_origin_address lock) (lk_created_assets lock) remaining (lk_created_block lock) state.

Definition ll_set_locks (l : IdleLockLedger) (locks : list IdleLock) : IdleLockLedger :=
  mkIdleLockLedger (ll_vault l) (ll_exact_idle_assets l) locks (ll_cursor l) (ll_verified l).
Definition ll_unverify (l : IdleLockLedger) : IdleLockLedger :=
  mkIdleLockLedger (ll_vault l) (ll_exact_idle_assets l) (ll_locks l) (ll_cursor l) false.

Definition IdleLockLedger_new (vault : VaultAddress) (exact_idle_assets : Z) : IdleLockLedger :=
  mkIdleLockLedger vault exact_idle_assets [] None true.

Definition total_locked (l : IdleLockLedger) : result IdleLockError Z :=
  try_fold (fun total lock => ok_or (checked_add U256_MAX total (lk_remaining_assets lock))
                                LockInvariant)
    0 (filter (fun lock => lock_active lock) (ll_locks l)).

Definition routine_available_idle (l : IdleLockLedger) : result IdleLockError Z :=
  if negb (ll_verified l) then Err LockInvariant
  else
    locked ← total_locked l;
    ok_or (checked_sub (ll_exact_idle_assets l) locked) LockInvariant.

Section Ledger.
Context `{Keccak}.

Definition create_lock (l : IdleLockLedger) (kind : IdleLockKind)
    (transaction : OrderedTransactionFlow) (assets : Z) : IdleLockLedger :=
  let material :=
    be_bytes 32 (tf_transaction_hash transaction) ++ be_bytes 20 (tf_sender transaction)
    ++ be_bytes 8 (tf_block_number transaction) ++ be_bytes 8 (tf_transaction_index transaction)
    ++ [lock_kind_code kind] in
  ll_set_locks l (ll_locks l ++
    [mkIdleLock (keccak256 material) (ll_vault l) kind (tf_transaction_hash transaction)
       (tf_sender transaction) assets assets (tf_block_number transaction) LockActive]).

(** The loop of [consume_kind]: the locks after it, what is left to consume, and
    whether a checked subtraction failed. *)
Fixpoint consume_kind (kind : IdleLockKind) (remaining : Z) (locks : list IdleLock)
    : list IdleLock * Z * result IdleLockError unit :=
  match locks with
  | [] => ([], remaining, Ok tt)
  | lock :: locks' =>
      if negb (bool_decide (lk_kind lock = kind) && lock_active lock) then
        let '(ls, rest, r) := consume_kind kind remaining locks' in (lock :: ls, rest, r)
      else
        let consumed := Z.min (lk_remaining_assets lock) remaining in
        match checked_sub (lk_remaining_assets lock) consumed with
        | None => (locks, remaining, Err LockInvariant)
        | Some held =>
            let lock1 := set_lock lock held (lk_release_state lock) in
            match checked_sub remaining consumed with
            | None => (lock1 :: locks', remaining, Err LockInvariant)
            | Some rest =>
                let lock2 := if held =? 0 then set_lock lock held Consumed else lock1 in
                if rest =? 0 then (lock2 :: locks', rest, Ok tt)
                else
                  let '(ls, rest', r) := consume_kind kind rest locks' in (lock2 :: ls, rest', r)
            end
        end
  end.

(** [for kind in [...] { self.consume_kind(kind, &mut from_locks)? }]. *)
Fixpoint consume_kinds (kinds : list IdleLockKind) (remaining : Z) (locks : list IdleLock)
    : list IdleLock * Z * result IdleLockError unit :=
  match kinds with
  | [] => (locks, remaining, Ok tt)
  | kind :: kinds =>
      let '(ls, rest, r) := consume_kind kind remaining locks in
      match r with
      | Err e => (ls, rest, Err e)
      | Ok _ => consume_kinds kinds rest ls
      end
  end.

Definition consumption_order : list IdleLockKind :=
  [ForceExit; ExternalEmergencyDeallocation; OperatorEmergency; UnattributedSafetyHold].

(** The lock kind a net inflow creates. *)
Definition created_kind (transaction : OrderedTransactionFlow) : option IdleLockKind :=
  match tf_origin transaction with
  | VaultUserForceDeallocate => Some ForceExit
  | SentinelDeallocation => Some ExternalEmergencyDeallocation
  | ApprovedExternalAllocator =>
      if tf_preauthorized_redeploy transaction then None
      else Some ExternalEmergencyDeallocation
  | UnknownOrigin | UnknownExternalAllocator | DirectDonation => Some UnattributedSafetyHold
  | _ => None
  end.

(** Lexicographic [cursor >= location]. *)
Definition location_le (a b : Z * Z) : bool :=
  (a.1 <? b.1) || ((a.1 =? b.1) && (a.2 <=? b.2)).

(** The consumption step of [apply_transaction]. *)
Definition consume_step (l : IdleLockLedger) (transaction : OrderedTransactionFlow)
    (net_consumed : Z) : IdleLockLedger * result IdleLockError unit :=
  if net_consumed =? 0 then (l, Ok tt)
  else
    match routine_available_idle l with
    | Err e => (l, Err e)
    | Ok unlocked =>
        let from_locks := saturating_sub net_consumed unlocked in
        if bool_decide (tf_origin transaction = BotRebalance) && negb (from_locks =? 0)
        then (ll_unverify l, Err LockInvariant)
        else
          let '(locks, rest, r) := consume_kinds consumption_order from_locks (ll_locks l) in
          let l1 := ll_set_locks l locks in
          match r with
          | Err e => (l1, Err e)
          | Ok _ => if rest =? 0 then (l1, Ok tt) else (ll_unverify l1, Err LockInvariant)
          end
    end.

Definition apply_transaction (l : IdleLockLedger) (transaction : OrderedTransactionFlow)
    (exact_post_idle : Z) : IdleLockLedger * result IdleLockError unit :=
  let location := (tf_block_number transaction, tf_transaction_index transaction) in
  if (match ll_cursor l with Some cursor => location_le location cursor | None => false end)
  then (ll_unverify l, Err LockNonCanonicalOrder)
  else
    match attribute_idle_effect transaction (ll_exact_idle_assets l) exact_post_idle with
    | Err e => (l, Err (Attribution e))
    | Ok effect =>
        let '(l1, r) := consume_step l transaction (ie_net_consumed_assets effect) in
        match r with
        | Err e => (l1, Err e)
        | Ok _ =>
            let l2 :=
              if ie_net_created_assets effect =? 0 then l1
              else match created_kind transaction with
                   | Some kind => create_lock l1 kind transaction (ie_net_created_assets effect)
                   | None => l1
                   end in
            let l3 := mkIdleLockLedger (ll_vault l2) exact_post_idle (ll_locks l2)
                        (Some location) (ll_verified l2) in
            match total_locked l3 with
            | Err e => (l3, Err e)
            | Ok locked =>
                if ll_exact_idle_assets l3 <? locked then (ll_unverify l3, Err LockInvariant)
                else (l3, Ok tt)
            end
        end
    end.

End Ledger.

(** Marks the first active lock with the identifier. *)
Fixpoint release_first (lock_id : B256) (state : IdleLockReleaseState) (locks : list IdleLock)
    : option (list IdleLock) :=
  match locks with
  | [] => None
  | lock :: locks' =>
      if (lk_lock_id lock =? lock_id) && lock_active lock
      then Some (set_lock lock 0 state :: locks')
      else cons lock <$> release_first lock_id state locks'
  end.

Definition release (l : IdleLockLedger) (lock_id : B256) (state : IdleLockReleaseState)
    : result IdleLockError IdleLockLedger :=
  if bool_decide (state = LockActive) then Err UnknownLock
  else
    locks ← ok_or (release_first lock_id state (ll_locks l)) UnknownLock;
    Ok (ll_set_locks l locks).

Definition snapshot (l : IdleLockLedger) : result IdleLockError IdleLockLedgerSnapshot :=
  locked ← total_locked l;
  unattributed ← try_fold
    (fun total lock => ok_or (checked_add U256_MAX total (lk_remaining_assets lock)) LockInvariant)
    0 (filter (fun lock => bool_decide (lk_kind lock = UnattributedSafetyHold)
                           && lock_active lock) (ll_locks l));
  Ok (mkIdleLockLedgerSnapshot
        ((fun lock => mkIdleLockSnapshot (lk_lock_id lock) (lk_remaining_assets lock)
                        (lk_created_block lock) None)
         <$> filter (fun lock => lock_active lock) (ll_locks l))
        unattributed
        (ll_verified l && (locked <=? ll_exact_idle_assets l))).

(** ** Invariant *)

Definition active_locks (locks : list IdleLock) : list IdleLock :=
  filter (fun lock => lock_active lock) locks.

(** Assets held by the active locks. *)
Definition locked (locks : list IdleLock) : Z :=
  list_sum (lk_remaining_assets <$> active_locks locks).

#[global] Arguments locked : simpl never.

Definition lock_wf (lock : IdleLock) : Prop :=
  0 <= lk_remaining_assets lock /\ (lock_active lock = true -> 0 < lk_remaining_assets lock).

Definition ledger_wf (l : IdleLockLedger) : Prop :=
  Forall lock_wf (ll_locks l) /\ u256 (ll_exact_idle_assets l) /\
  locked (ll_locks l) <= ll_exact_idle_assets l.

Lemma locked_cons lock locks :
  locked (lock :: locks) =
  (if lock_active lock then lk_remaining_assets lock else 0) + locked locks.
Proof.
  unfold locked, active_locks. rewrite filter_cons. destruct (lock_active lock); cbn.
  - by rewrite decide_True.
  - by rewrite decide_False by (intros []).
Qed.

Lemma locked_app ks ls : locked (ks ++ ls) = locked ks + locked ls.
Proof. unfold locked, active_locks. by rewrite filter_app, fmap_app, list_sum_app. Qed.

Lemma locked_nonneg locks : Forall lock_wf locks -> 0 <= locked locks.
Proof.
  induction 1 as [|lock locks [Hl _] _ IH]; [done|]. rewrite locked_cons. case_match; lia.
Qed.

Lemma total_locked_Ok l t : total_locked l = Ok t -> t = locked (ll_locks l).
Proof.
  unfold total_locked. intros Ht%(checked_sum_by_Ok _ _ lk_remaining_assets). unfold locked, active_locks. lia.
Qed.

Lemma total_locked_wf l : ledger_wf l -> total_locked l = Ok (locked (ll_locks l)).
Proof.
  intros (Hl & Hi & Hle). unfold total_locked, in_u in *.
  rewrite (checked_sum_by_total _ _ lk_remaining_assets).
  - done.
  - apply Forall_forall. intros lock [_ Hin]%list_elem_of_filter.
    by apply (proj1 (Forall_forall _ _) Hl lock) in Hin as [? _].
  - unfold locked, active_locks in Hle. lia.
Qed.

Lemma routine_available_wf l :
  ledger_wf l -> ll_verified l = true ->
  routine_available_idle l = Ok (ll_exact_idle_assets l - locked (ll_locks l)).
Proof.
  intros Hwf Hv. unfold routine_available_idle. rewrite Hv, total_locked_wf by done. cbn.
  apply ok_or_Ok, checked_sub_Some. destruct Hwf as (_ & _ & Hle). lia.
Qed.

(** ** Consumption *)

(** [lock'] is [lock] after some of its assets were consumed. *)
Definition drained (lock lock' : IdleLock) : Prop :=
  lk_kind lock' = lk_kind lock /\ lk_lock_id lock' = lk_lock_id lock /\
  lk_remaining_assets lock' <= lk_remaining_assets lock /\
  (lock_active lock' = true -> lock_active lock = true).

Lemma drained_refl lock : drained lock lock.
Proof. unfold drained. naive_solver lia. Qed.

Lemma drained_trans a b c : drained a b -> drained b c -> drained a c.
Proof. unfold drained. intros (->&->&?&?) (->&->&?&?). naive_solver lia. Qed.

Record consume_spec (kind : IdleLockKind) (remaining : Z) (locks ls : list IdleLock)
    (rest : Z) : Prop := {
  co_wf : Forall lock_wf ls;
  co_rest : 0 <= rest <= remaining;
  co_locked : locked ls = locked locks - (remaining - rest);
  co_drained : Forall2 drained locks ls;
  co_others : Forall2 (fun a b => lk_kind a <> kind -> b = a) locks ls;
  co_exhausted : rest = 0 \/ Forall (fun b => lk_kind b = kind -> lock_active b = false) ls;
  co_zero : remaining = 0 -> ls = locks;
}.

Lemma Forall2_refl {A} (R : A -> A -> Prop) (l : list A) : (forall x, R x x) -> Forall2 R l l.
Proof. intros HR. induction l; constructor; auto. Qed.

Lemma lock_active_set lock r st : lock_active (set_lock lock r st) = bool_decide (st = LockActive).
Proof. done. Qed.

Lemma consume_kind_spec kind locks : forall remaining,
  0 <= remaining -> Forall lock_wf locks ->
  exists ls rest, consume_kind kind remaining locks = (ls, rest, Ok tt) /\
    consume_spec kind remaining locks ls rest.
Proof.
  induction locks as [|lock locks IH]; intros rem Hrem Hwf; cbn.
  { exists [], rem. split; [done|]. split; try done; try lia; by right. }
  apply Forall_cons in Hwf as [[Hl0 Hl1] Hwf].
  destruct (bool_decide (lk_kind lock = kind) && lock_active lock) eqn:Hsel; cbn [negb].
  - apply andb_true_iff in Hsel as [Hk%bool_decide_eq_true Ha].
    specialize (Hl1 Ha). unfold checked_sub.
    rewrite !(proj2 (Z.leb_le _ _)) by lia.
    set (taken := Z.min (lk_remaining_assets lock) rem).
    assert (Hst : lk_release_state lock = LockActive) by (by apply bool_decide_eq_true in Ha).
    set (lock2 := if lk_remaining_assets lock - taken =? 0
                  then set_lock lock (lk_remaining_assets lock - taken) Consumed
                  else set_lock lock (lk_remaining_assets lock - taken) (lk_release_state lock)).
    assert (lock_wf lock2 /\ drained lock lock2 /\
            (if lock_active lock2 then lk_remaining_assets lock2 else 0)
              = lk_remaining_assets lock - taken /\
            (rem <> taken -> lock_active lock2 = false) /\ (rem = 0 -> lock2 = lock))
      as (Hw2 & Hd2 & Hv2 & Hx2 & Hz2).
    { unfold lock2, drained, lock_wf, taken. destruct (Z.eqb_spec (lk_remaining_assets lock - Z.min (lk_remaining_assets lock) rem) 0).
      - rewrite !lock_active_set. cbn. repeat split; try done; lia.
      - rewrite !lock_active_set, Hst. cbn. repeat split; try done; try lia.
        intros ->. destruct lock; cbn in *. unfold set_lock. cbn. f_equal; [lia|done]. }
    clearbody lock2.
    destruct (Z.eqb_spec (rem - taken) 0) as [Hz|Hz].
    + exists (lock2 :: locks), (rem - taken). split; [done|]. split.
      * by constructor.
      * lia.
      * rewrite !locked_cons, Ha, Hv2. lia.
      * constructor; [done|apply Forall2_refl, drained_refl].
      * constructor; [done|by apply Forall2_refl].
      * by left.
      * intros Hr0. by rewrite Hz2.
    + destruct (IH (rem - taken)) as (ls & rest & -> & Hs); [lia|done|]. destruct Hs.
      exists (lock2 :: ls), rest. split; [done|]. split.
      * by constructor.
      * lia.
      * rewrite !locked_cons, Ha, Hv2. lia.
      * by constructor.
      * by constructor.
      * destruct co_exhausted0 as [|He]; [by left|right]. constructor; [|done].
        intros _. apply Hx2. lia.
      * intros ->. exfalso. lia.
  - destruct (IH rem Hrem Hwf) as (ls & rest & -> & Hs). destruct Hs.
    exists (lock :: ls), rest. split; [done|]. split; try done.
    + by constructor.
    + rewrite !locked_cons. lia.
    + constructor; [apply drained_refl|done].
    + by constructor.
    + destruct co_exhausted0 as [|He]; [by left|right]. constructor; [|done].
      intros Hk. rewrite bool_decide_eq_true_2 in Hsel by done. done.
    + intros Hr. by rewrite co_zero0.
Qed.

(** Some lock of kind [k] lost assets or state between the two lists. *)
Definition touched (k : IdleLockKind) (locks ls : list IdleLock) : Prop :=
  exists i a b, locks !! i = Some a /\ ls !! i = Some b /\ lk_kind a = k /\ b <> a.

Definition none_active (k : IdleLockKind) (ls : list IdleLock) : Prop :=
  Forall (fun b => lk_kind b = k -> lock_active b = false) ls.

Record consume_all_spec (kinds : list IdleLockKind) (remaining : Z)
    (locks ls : list IdleLock) (rest : Z) : Prop := {
  ca_wf : Forall lock_wf ls;
  ca_rest : 0 <= rest <= remaining;
  ca_locked : locked ls = locked locks - (remaining - rest);
  ca_drained : Forall2 drained locks ls;
  ca_exhausted : rest = 0 \/ Forall (fun k => none_active k ls) kinds;
  ca_zero : remaining = 0 -> ls = locks;
  ca_priority : forall pre k post, kinds = pre ++ k :: post -> touched k locks ls ->
    Forall (fun k' => none_active k' ls) pre;
}.

Lemma drained_list_trans ls1 ls2 ls3 :
  Forall2 drained ls1 ls2 -> Forall2 drained ls2 ls3 -> Forall2 drained ls1 ls3.
Proof.
  intros H1. revert ls3. induction H1; intros ls3 H3; inversion H3; subst; constructor; eauto.
  by eapply drained_trans.
Qed.

Lemma none_active_drained k ls ls' :
  none_active k ls -> Forall2 drained ls ls' -> none_active k ls'.
Proof.
  intros Hn Hd. induction Hd as [|a b ls ls' (Hk & _ & _ & Hact) Hd IH]; [constructor|].
  apply Forall_cons in Hn as [Ha Hn]. constructor; [|by apply IH].
  intros Hkb. destruct (lock_active b) eqn:Hb; [|done].
  rewrite Ha in Hact by congruence. by specialize (Hact eq_refl).
Qed.

Lemma touched_tail k0 k locks ls1 ls :
  k <> k0 -> Forall2 (fun a b => lk_kind a <> k0 -> b = a) locks ls1 ->
  touched k locks ls -> touched k ls1 ls.
Proof.
  intros Hk Ho (i & a & b & Ha & Hb & Hka & Hne).
  destruct (Forall2_lookup_l _ _ _ _ _ Ho Ha) as (a1 & Ha1 & Heq).
  rewrite Heq in Ha1 by congruence. by exists i, a, b.
Qed.

Lemma touched_irrefl k ls : ~ touched k ls ls.
Proof. intros (i & a & b & Ha & Hb & _ & Hne). congruence. Qed.

Lemma consume_kinds_spec kinds : NoDup kinds -> forall remaining locks,
  0 <= remaining -> Forall lock_wf locks ->
  exists ls rest, consume_kinds kinds remaining locks = (ls, rest, Ok tt) /\
    consume_all_spec kinds remaining locks ls rest.
Proof.
  induction 1 as [|k0 kinds Hk0 Hnd IH]; intros rem locks Hrem Hwf; cbn.
  { exists locks, rem. split; [done|]. split; try done; try lia.
    - apply Forall2_refl, drained_refl.
    - by right.
    - intros [|] ? ? ?; done. }
  destruct (consume_kind_spec k0 locks rem Hrem Hwf) as (ls1 & rest1 & -> & Hs1).
  destruct Hs1. destruct (IH rest1 ls1) as (ls & rest & -> & Hs); [lia|done|]. destruct Hs.
  assert (rest1 = 0 \/ none_active k0 ls) as Hk0n.
  { destruct co_exhausted0 as [|He]; [by left|right]. by eapply none_active_drained. }
  exists ls, rest. split; [done|]. split; try done; try lia.
  - by eapply drained_list_trans.
  - destruct ca_exhausted0 as [|He]; [by left|]. destruct Hk0n; [left; lia|right].
    by constructor.
  - intros Hr. rewrite ca_zero0 by lia. by apply co_zero0.
  - intros [|k1 pre] k post Heq Ht; [constructor|]. injection Heq as <- Heq.
    assert (k <> k0) as Hne.
    { intros ->. apply Hk0. rewrite Heq. set_solver. }
    pose proof (touched_tail _ _ _ _ _ Hne co_others0 Ht) as Ht1.
    destruct (Z.eq_dec rest1 0) as [Hz|Hz].
    + rewrite ca_zero0 in Ht1 by done. by apply touched_irrefl in Ht1.
    + constructor; [naive_solver|by eapply ca_priority0].
Qed.

Lemma consumption_order_nodup : NoDup consumption_order.
Proof. apply (bool_decide_unpack _). vm_compute. done. Qed.

(** ** Replaying transactions *)

(** What a successfully applied transaction did to the ledger. *)
Record applied_spec (l l' : IdleLockLedger) (t : OrderedTransactionFlow) (post : Z) : Prop := {
  ap_wf : ledger_wf l';
  ap_idle : ll_exact_idle_assets l' = post;
  ap_verified : ll_verified l' = ll_verified l;
  ap_cursor : ll_cursor l' = Some (tf_block_number t, tf_transaction_index t) /\
    (forall c, ll_cursor l = Some c ->
       location_le (tf_block_number t, tf_transaction_index t) c = false);
  ap_locked : locked (ll_locks l') =
    locked (ll_locks l)
    - Z.max 0 (ll_exact_idle_assets l - post
               - (ll_exact_idle_assets l - locked (ll_locks l)))
    + (if created_kind t then Z.max 0 (post - ll_exact_idle_assets l) else 0);
  ap_priority : forall pre k post' ls, consumption_order = pre ++ k :: post' ->
    ls = take (length (ll_locks l)) (ll_locks l') ->
    touched k (ll_locks l) ls -> Forall (fun k' => none_active k' ls) pre;
  ap_bot : tf_origin t = BotRebalance -> ll_locks l' = ll_locks l;
}.

Lemma attribute_Ok t pre post e :
  attribute_idle_effect t pre post = Ok e ->
  ie_net_created_assets e = Z.max 0 (post - pre) /\
  ie_net_consumed_assets e = Z.max 0 (pre - post).
Proof.
  unfold attribute_idle_effect. intros H.
  step_ok H as i Hi. step_ok H as o Ho. step_ok H as c Hc.
  case_match; [done|]. injection H as <-. cbn. by rewrite !saturating_sub_spec.
Qed.

(** What a successful consumption step did. *)
Lemma consume_step_Ok l t n l1 :
  ledger_wf l -> 0 <= n -> consume_step l t n = (l1, Ok tt) ->
  exists from, l1 = ll_set_locks l (ll_locks l1) /\
    Forall lock_wf (ll_locks l1) /\
    locked (ll_locks l1) = locked (ll_locks l) - from /\
    from = Z.max 0 (n - (ll_exact_idle_assets l - locked (ll_locks l))) /\
    Forall2 drained (ll_locks l) (ll_locks l1) /\
    (tf_origin t = BotRebalance -> ll_locks l1 = ll_locks l) /\
    (forall pre k post, consumption_order = pre ++ k :: post ->
       touched k (ll_locks l) (ll_locks l1) ->
       Forall (fun k' => none_active k' (ll_locks l1)) pre).
Proof.
  intros Hwf Hn H. pose proof Hwf as (Hl & Hi & Hle). unfold consume_step in H.
  destruct (Z.eqb_spec n 0) as [->|Hn0].
  { injection H as <-. exists 0. pose proof (locked_nonneg _ Hl). split; [by destruct l|].
    split; [done|]. do 2 (split; [lia|]). split; [apply Forall2_refl, drained_refl|].
    split; [done|]. intros pre k post _ Ht. by apply touched_irrefl in Ht. }
  destruct (ll_verified l) eqn:Hv; [|unfold routine_available_idle in H; by rewrite Hv in H].
  rewrite routine_available_wf in H by done.
  rewrite saturating_sub_spec in H.
  set (from := Z.max 0 (n - (ll_exact_idle_assets l - locked (ll_locks l)))) in *.
  destruct (bool_decide _ && _) eqn:Hbot; [done|].
  destruct (consume_kinds_spec consumption_order consumption_order_nodup from (ll_locks l))
    as (ls & rest & Hc & Hs); [lia|done|].
  rewrite Hc in H. destruct (Z.eqb_spec rest 0) as [Hr0|]; [|done]. injection H as <-. cbn.
  destruct Hs. exists from. split; [done|]. split; [done|]. split; [lia|].
  split; [done|]. split; [done|]. split; [|done]. intros Hb.
  rewrite bool_decide_eq_true_2 in Hbot by done. cbn in Hbot.
  apply negb_false_iff, Z.eqb_eq in Hbot. by apply ca_zero0.
Qed.

Section Replay.
Context `{Keccak}.

(** The ledger once the effect of the transaction is written. *)
Definition settled (l1 : IdleLockLedger) (t : OrderedTransactionFlow) (created post : Z)
    : IdleLockLedger :=
  let l2 := if created =? 0 then l1
            else match created_kind t with
                 | Some kind => create_lock l1 kind t created
                 | None => l1
                 end in
  mkIdleLockLedger (ll_vault l2) post (ll_locks l2)
    (Some (tf_block_number t, tf_transaction_index t)) (ll_verified l2).

Lemma settled_spec l1 t created post :
  0 <= created -> Forall lock_wf (ll_locks l1) ->
  let l3 := settled l1 t created post in
  Forall lock_wf (ll_locks l3) /\ ll_exact_idle_assets l3 = post /\
  ll_verified l3 = ll_verified l1 /\
  locked (ll_locks l3) = locked (ll_locks l1) + (if created_kind t then created else 0) /\
  take (length (ll_locks l1)) (ll_locks l3) = ll_locks l1 /\
  (created_kind t = None -> ll_locks l3 = ll_locks l1).
Proof.
  intros Hc Hl. unfold settled. destruct (Z.eqb_spec created 0) as [->|Hc0].
  { cbn. rewrite take_ge by done. repeat split; try done. destruct (created_kind t); lia. }
  destruct (created_kind t) as [kind|]; cbn.
  - rewrite locked_app, take_app_length.
    split; [|split; [done|split; [done|split; [|done]]]].
    + apply Forall_app; split; [done|]. repeat constructor; cbn; lia.
    + rewrite locked_cons. unfold lock_active. cbn [lk_release_state lk_remaining_assets].
      rewrite bool_decide_eq_true_2 by done. change (locked []) with 0. lia.
  - rewrite take_ge by done. repeat split; try done. lia.
Qed.

Lemma bot_creates_nothing t : tf_origin t = BotRebalance -> created_kind t = None.
Proof. unfold created_kind. by intros ->. Qed.

Definition after_cursor (l : IdleLockLedger) (t : OrderedTransactionFlow) : Prop :=
  forall c, ll_cursor l = Some c ->
    location_le (tf_block_number t, tf_transaction_index t) c = false.

Lemma apply_transaction_unfold l t post l' r :
  apply_transaction l t post = (l', r) ->
  (~ after_cursor l t /\ l' = ll_unverify l /\ r = Err LockNonCanonicalOrder) \/
  (after_cursor l t /\
   ((exists e, attribute_idle_effect t (ll_exact_idle_assets l) post = Err e /\
       l' = l /\ r = Err (Attribution e)) \/
    (exists effect l1 r1,
       attribute_idle_effect t (ll_exact_idle_assets l) post = Ok effect /\
       consume_step l t (Z.max 0 (ll_exact_idle_assets l - post)) = (l1, r1) /\
       match r1 with
       | Err e => l' = l1 /\ r = Err e
       | Ok _ =>
           let l3 := settled l1 t (Z.max 0 (post - ll_exact_idle_assets l)) post in
           match total_locked l3 with
           | Err e => l' = l3 /\ r = Err e
           | Ok v => if post <? v then l' = ll_unverify l3 /\ r = Err LockInvariant
                     else l' = l3 /\ r = Ok tt
           end
       end))).
Proof.
  intros Ha. unfold apply_transaction in Ha.
  destruct (match ll_cursor l with Some _ => _ | None => _ end) eqn:Hcur.
  { left. split; [|by injection Ha as <- <-]. intros Hac.
    destruct (ll_cursor l) as [c|] eqn:Hl; [|done]. by rewrite (Hac c Hl) in Hcur. }
  right. split.
  { intros c Hc. by rewrite Hc in Hcur. }
  destruct (attribute_idle_effect _ _ _) as [effect|e] eqn:Hat.
  2: { left. exists e. by injection Ha as <- <-. }
  right. pose proof (attribute_Ok _ _ _ _ Hat) as [Hcr Hco]. rewrite Hco in Ha.
  destruct (consume_step _ _ _) as [l1 r1] eqn:Hst. exists effect, l1, r1.
  split; [done|]. split; [done|]. rewrite Hcr in Ha.
  destruct r1; [|by injection Ha as <- <-]. fold (settled l1 t (Z.max 0 (post - ll_exact_idle_assets l)) post) in Ha.
  cbv zeta. destruct (total_locked (settled _ _ _ _)) as [v|e]; [|by injection Ha as <- <-].
  replace (ll_exact_idle_assets (settled l1 t (Z.max 0 (post - ll_exact_idle_assets l)) post))
    with post in Ha by done.
  destruct (post <? v); by injection Ha as <- <-.
Qed.

(** A successfully replayed transaction keeps the ledger invariant (locked
    assets never exceed the exact idle balance), advances the cursor, records
    the exact balance, lowers the locked total by exactly what the unlocked
    balance could not cover and raises it by exactly the assets it must hold;
    locks are consumed in kind order, and a routine rebalance changes no lock. *)
Theorem apply_transaction_sound l t post l' :
  ledger_wf l -> u256 post -> apply_transaction l t post = (l', Ok tt) ->
  applied_spec l l' t post.
Proof.
  intros Hwf Hpost Ha.
  apply apply_transaction_unfold in Ha as [(_ & _ & Hr)|(Hac & [(e & _ & _ & Hr)|Ha])]; [done..|].
  destruct Ha as (effect & l1 & [[]|e] & Hat & Hst & Ha); [|by destruct Ha].
  pose proof Hwf as (Hl & Hi & Hle).
  apply consume_step_Ok in Hst as (from & Hl1 & Hw1 & Hlk1 & Hfrom & Hdr & Hbot & Hpri); [|done|lia].
  destruct (settled_spec l1 t (Z.max 0 (post - ll_exact_idle_assets l)) post ltac:(lia) Hw1)
    as (Hw3 & Hi3 & Hv3 & Hlk3 & Htk3 & Hnone3).
  cbv zeta in Ha. set (l3 := settled _ _ _ _) in *.
  destruct (total_locked l3) as [v|e] eqn:Htl; [|by destruct Ha].
  apply total_locked_Ok in Htl. destruct (Z.ltb_spec post v) as [|Hv]; [by destruct Ha|].
  destruct Ha as [-> _].
  assert (length (ll_locks l) = length (ll_locks l1)) as Hlen by (by eapply Forall2_length).
  split.
  - split; [done|]. rewrite Hi3. split; [done|]. lia.
  - done.
  - rewrite Hv3, Hl1. done.
  - split; [|exact Hac]. unfold l3, settled. done.
  - rewrite Hlk3, Hlk1, Hfrom. destruct (created_kind t); lia.
  - intros pre k post' ls Hord -> Ht. rewrite Hlen, Htk3 in *. by eapply Hpri.
  - intros Hb. rewrite Hnone3 by (by apply bot_creates_nothing). by apply Hbot.
Qed.

(** No transaction, accepted or rejected, ever makes an unverified ledger
    verified again; and a routine rebalance that would consume more than the
    unlocked balance is rejected with every lock kept and the ledger unverified. *)
Theorem apply_transaction_fails_closed l t post l' r :
  ledger_wf l -> u256 post -> apply_transaction l t post = (l', r) ->
  (ll_verified l' = true -> ll_verified l = true) /\
  (tf_origin t = BotRebalance -> ll_verified l = true -> after_cursor l t ->
   post < locked (ll_locks l) ->
   (exists effect, attribute_idle_effect t (ll_exact_idle_assets l) post = Ok effect) ->
   r = Err LockInvariant /\ ll_locks l' = ll_locks l /\ ll_verified l' = false).
Proof.
  intros Hwf Hpost Ha. pose proof Hwf as (Hl & Hi & Hle).
  assert (forall n l1 r1, consume_step l t n = (l1, r1) -> ll_verified l1 = true ->
    ll_verified l = true) as Hst.
  { intros n l1 r1. unfold consume_step, ll_unverify, ll_set_locks.
    repeat case_match; intros Heq; simplify_eq; cbn; done. }
  apply apply_transaction_unfold in Ha
    as [(Hno & -> & ->)|(Hac & [(e & He & -> & ->)|(effect & l1 & r1 & Hat & Hs & Ha)])].
  - split; [done|]. by intros _ _ Hac.
  - split; [done|]. intros _ _ _ _ [effect Hef]. congruence.
  - split.
    + intros Hv. apply (Hst _ _ _ Hs). destruct r1 as [[]|e]; [|by destruct Ha as [-> _]].
      cbv zeta in Ha.
      assert (ll_verified (settled l1 t (Z.max 0 (post - ll_exact_idle_assets l)) post)
              = ll_verified l1) as Hv1.
      { unfold settled. destruct (_ =? 0); [done|]. by destruct (created_kind t). }
      destruct (total_locked _); [|destruct Ha as [-> _]; congruence].
      case_match; destruct Ha as [-> _]; [done|congruence].
    + intros Hb Hv _ Hlow _. unfold consume_step in Hs.
      rewrite routine_available_wf, saturating_sub_spec in Hs by done.
      unfold in_u in Hpost.
      rewrite (proj2 (Z.eqb_neq _ 0)) in Hs by lia.
      rewrite bool_decide_eq_true_2 in Hs by done.
      rewrite (proj2 (Z.eqb_neq _ 0)) in Hs by lia. cbn in Hs.
      injection Hs as <- <-. by destruct Ha as [-> ->].
Qed.

Lemma locked_none_active ls :
  Forall (fun k => none_active k ls) consumption_order -> locked ls = 0.
Proof.
  intros Hk. induction ls as [|b ls IH]; [done|]. rewrite locked_cons.
  assert (forall k, k ∈ consumption_order) as Hall by (intros []; set_solver).
  assert (lock_active b = false) as ->.
  { pose proof (proj1 (Forall_forall _ _) Hk (lk_kind b) (Hall _)) as Hn.
    by apply Forall_cons in Hn as [Hn _]; apply Hn. }
  apply IH. eapply Forall_impl; [exact Hk|]. intros k Hn. by apply Forall_cons in Hn as [_ ?].
Qed.

(** Replay never gets stuck: on a verified ledger, a transaction after the
    cursor whose flows reproduce the exact post balance is applied, unless it
    is a routine rebalance that digs into locked assets. *)
Theorem apply_transaction_complete l t post effect :
  ledger_wf l -> u256 post -> ll_verified l = true -> after_cursor l t ->
  attribute_idle_effect t (ll_exact_idle_assets l) post = Ok effect ->
  tf_origin t <> BotRebalance \/ locked (ll_locks l) <= post ->
  exists l', apply_transaction l t post = (l', Ok tt) /\ ledger_wf l'.
Proof.
  intros Hwf Hpost Hv Hac Hat Hok. pose proof Hwf as (Hl & Hi & Hle).
  destruct (apply_transaction l t post) as [l' r] eqn:Ha.
  apply apply_transaction_unfold in Ha
    as [(Hno & _)|(_ & [(e & He & _)|(effect' & l1 & r1 & _ & Hs & Ha)])]; [done|congruence|].
  unfold in_u in Hpost, Hi. pose proof (locked_nonneg _ Hl) as Hl0.
  assert (r1 = Ok tt) as ->.
  { unfold consume_step in Hs. destruct (_ =? 0); [by injection Hs|].
    rewrite routine_available_wf, saturating_sub_spec in Hs by done.
    set (from := Z.max 0 _) in *.
    destruct (bool_decide _ && _) eqn:Hbot.
    { apply andb_true_iff in Hbot as [Hb%bool_decide_eq_true Hz%negb_true_iff%Z.eqb_neq].
      destruct Hok; [done|]. lia. }
    destruct (consume_kinds_spec consumption_order consumption_order_nodup from (ll_locks l))
      as (ls & rest & Hc & []); [lia|done|]. rewrite Hc in Hs.
    destruct (Z.eqb_spec rest 0) as [|Hr]; [by injection Hs|].
    destruct ca_exhausted0 as [|He%locked_none_active]; [done|]. lia. }
  apply consume_step_Ok in Hs as (from & Hl1 & Hw1 & Hlk1 & Hfrom & _); [|done|lia].
  destruct (settled_spec l1 t (Z.max 0 (post - ll_exact_idle_assets l)) post ltac:(lia) Hw1)
    as (Hw3 & Hi3 & _ & Hlk3 & _).
  cbv zeta in Ha. set (l3 := settled _ _ _ _) in *.
  assert (ledger_wf l3) as Hwf3.
  { split; [done|]. rewrite Hi3. split; [done|]. rewrite Hlk3. destruct (created_kind t); lia. }
  rewrite total_locked_wf in Ha by done.
  destruct (Z.ltb_spec post (locked (ll_locks l3))) as [Hlt|].
  { destruct Hwf3 as (_ & _ & Hle3). lia. }
  destruct Ha as [-> ->]. by exists l3.
Qed.

End Replay.

(** ** Release and snapshot *)

Lemma release_first_spec id st ls ls' :
  st <> LockActive -> Forall lock_wf ls -> release_first id st ls = Some ls' ->
  exists lock, lock ∈ ls /\ lk_lock_id lock = id /\ lock_active lock = true /\
    Forall lock_wf ls' /\ locked ls' = locked ls - lk_remaining_assets lock /\
    0 < lk_remaining_assets lock.
Proof.
  intros Hst Hwf. revert ls'. induction Hwf as [|lock ls [Hl0 Hl1] Hwf IH]; intros ls' H; [done|].
  cbn in H. destruct ((lk_lock_id lock =? id) && lock_active lock) eqn:Hsel.
  - apply andb_true_iff in Hsel as [Hid%Z.eqb_eq Ha]. injection H as <-.
    assert (lock_active (set_lock lock 0 st) = false) as Hn by (by apply bool_decide_eq_false).
    exists lock. split; [by left|]. do 2 (split; [done|]). split; [|split].
    + constructor; [|done]. split; [done|]. by rewrite Hn.
    + rewrite !locked_cons, Hn, Ha. lia.
    + by apply Hl1.
  - destruct (release_first id st ls) as [ls1|] eqn:Hr; [|done]. injection H as <-.
    destruct (IH ls1 eq_refl) as (lk & Hin & ? & ? & ? & Heq & ?).
    exists lk. split; [by right|]. do 2 (split; [done|]). split; [by constructor|].
    split; [|done]. rewrite !locked_cons. lia.
Qed.

(** Releasing a lock frees exactly the assets that lock still held: the
    unlocked idle available to routine plans grows by them, the balance and the
    verification status do not change, and the invariant is kept. *)
Theorem release_frees_exactly l id st l' :
  ledger_wf l -> ll_verified l = true -> release l id st = Ok l' ->
  ledger_wf l' /\ ll_verified l' = true /\
  ll_exact_idle_assets l' = ll_exact_idle_assets l /\
  exists lock v v', lock ∈ ll_locks l /\ lk_lock_id lock = id /\ lock_active lock = true /\
    routine_available_idle l = Ok v /\ routine_available_idle l' = Ok v' /\
    v' = v + lk_remaining_assets lock /\ 0 < lk_remaining_assets lock.
Proof.
  intros Hwf Hv H. pose proof Hwf as (Hl & Hi & Hle). unfold release in H.
  destruct (bool_decide (st = LockActive)) eqn:Hst; [done|]. apply bool_decide_eq_false in Hst.
  step_ok H as ls Hls%ok_or_Ok. injection H as <-.
  destruct (release_first_spec id st _ _ Hst Hl Hls) as (lock & Hin & Hid & Ha & Hw & Hlk & Hp).
  assert (ledger_wf (ll_set_locks l ls)) as Hwf'.
  { split; [done|]. split; [done|]. cbn. lia. }
  split; [done|]. split; [done|]. split; [done|].
  exists lock, (ll_exact_idle_assets l - locked (ll_locks l)),
    (ll_exact_idle_assets l - locked ls).
  do 3 (split; [done|]). split; [by apply routine_available_wf|].
  split; [by apply (routine_available_wf (ll_set_locks l ls))|]. split; [lia|done].
Qed.

(** ** Witnesses *)

Definition example_lock (id : Z) (k : IdleLockKind) (amount : Z) : IdleLock :=
  mkIdleLock id 1 k 77 88 amount amount 5 LockActive.
Definition example_ledger : IdleLockLedger :=
  mkIdleLockLedger 1 1000
    [example_lock 1 UnattributedSafetyHold 100; example_lock 2 ForceExit 40] (Some (5, 0)) true.
Definition example_withdrawal : OrderedTransactionFlow :=
  mkOrderedTransactionFlow 6 3 99 12 VaultUserWithdrawal [] [mkOrderedAssetFlow 4 910] false.

Lemma example_ledger_wf : ledger_wf example_ledger.
Proof.
  unfold ledger_wf, in_u, U256_MAX. split; [|vm_compute; split; [split|]; discriminate].
  repeat constructor; cbn; lia.
Qed.

Lemma apply_transaction_sound_witness :
  applied_spec example_ledger
    (@apply_transaction sum_keccak example_ledger example_withdrawal 90).1 example_withdrawal 90.
Proof.
  apply (@apply_transaction_sound sum_keccak example_ledger example_withdrawal 90);
    [apply example_ledger_wf|unfold in_u, U256_MAX; lia|vm_compute; reflexivity].
Defined.

Lemma apply_transaction_fails_closed_witness :
  let t := mkOrderedTransactionFlow 6 3 99 12 BotRebalance [] [mkOrderedAssetFlow 4 910] false in
  let '(l', r) := @apply_transaction sum_keccak example_ledger t 90 in
  r = Err LockInvariant /\ ll_locks l' = ll_locks example_ledger /\ ll_verified l' = false.
Proof.
  intros t. destruct (@apply_transaction sum_keccak example_ledger t 90) as [l' r] eqn:Ha.
  destruct (@apply_transaction_fails_closed sum_keccak example_ledger t 90 l' r)
    as [_ Hbot]; [apply example_ledger_wf|unfold in_u, U256_MAX; lia|exact Ha|].
  apply Hbot; [reflexivity|reflexivity| |vm_compute; reflexivity|].
  - intros c Hc. injection Hc as <-. reflexivity.
  - eexists. vm_compute. reflexivity.
Defined.

Lemma apply_transaction_complete_witness :
  exists l', @apply_transaction sum_keccak example_ledger example_withdrawal 90 = (l', Ok tt) /\
    ledger_wf l'.
Proof.
  eapply (@apply_transaction_complete sum_keccak example_ledger example_withdrawal 90);
    [apply example_ledger_wf|unfold in_u, U256_MAX; lia|reflexivity
    | |vm_compute; reflexivity|left; discriminate].
  intros c Hc. injection Hc as <-. reflexivity.
Defined.

Lemma release_frees_exactly_witness :
  exists l', release example_ledger 2 OperatorCleared = Ok l' /\ ledger_wf l'.
Proof.
  eexists. split; [vm_compute; reflexivity|].
  eapply (release_frees_exactly example_ledger 2 OperatorCleared);
    [apply example_ledger_wf|reflexivity|vm_compute; reflexivity].
Defined.
