(* ===== verification/Caps.v ===== *)
(** * Cap admission, the shared token ledger and bounded maximisation

    Models [src/src/state/caps.rs] (cap identifiers and allocation admission),
    the [SharedTokenLiquidity] ledger of [src/src/planner/liquidity.rs] and the
    binary search [monotone_maximum] of [src/src/planner/simulator.rs]. *)

From stdpp Require Import base gmap list.
From Stdlib Require Import ZArith Lia.
From S2P Require Import Prelude.
From S2P Require Import BlueMath.
From S2P Require Import Domain.

(** ** Caps *)

Record DirectPositionCapData : Type := mkDirectPositionCapData {
  cd_adapter : Bytes;
  cd_collateral : Bytes;
  cd_market : Bytes;
}.

Inductive CapError : Type :=
| ZeroAbsoluteCap
| AbsoluteCapExceeded
| InvalidRelativeCap
| RelativeCapExceeded
| CapArithmetic.
#[global] Instance CapError_eq_dec : EqDecision CapError.
Proof. solve_decision. Defined.

(** Solidity [abi.encode] of the three cap identifier tuples. *)
Class AbiCaps : Type := {
  abi_encode_this : Address -> Bytes;
  abi_encode_collateral : Address -> Bytes;
  abi_encode_market : Address -> MarketParams -> Bytes;
}.

Section CapIds.
Context `{Keccak} `{AbiCaps}.

Definition cap_data_ids (d : DirectPositionCapData) : CapId * CapId * CapId :=
  (keccak256 (cd_adapter d), keccak256 (cd_collateral d), keccak256 (cd_market d)).

Definition direct_position_cap_data (adapter : AdapterAddress) (params : MarketParams)
    : DirectPositionCapData :=
  mkDirectPositionCapData (abi_encode_this adapter)
    (abi_encode_collateral (mp_collateral_token params)) (abi_encode_market adapter params).

Definition adapter_cap_data (adapter : Address) : Bytes := abi_encode_this adapter.
Definition adapter_cap_id (adapter : Address) : CapId := keccak256 (abi_encode_this adapter).
End CapIds.

Definition validate_allocation_cap (cap : CapState) (first_total_assets new_allocation : Z)
    : result CapError unit :=
  if cs_absolute_cap cap =? 0 then Err ZeroAbsoluteCap
  else if cs_absolute_cap cap <? new_allocation then Err AbsoluteCapExceeded
  else
    let wad := WAD in
    if wad <? cs_relative_cap cap then Err InvalidRelativeCap
    else if cs_relative_cap cap <? wad then
      maximum ← ok_or
        (product ← checked_mul U256_MAX first_total_assets (cs_relative_cap cap);
         checked_div product wad) CapArithmetic;
      if maximum <? new_allocation then Err RelativeCapExceeded else Ok tt
    else Ok tt.

(** The admission rule of Vault V2's [allocateInternal]. *)
Definition cap_admits (cap : CapState) (total allocation : Z) : Prop :=
  cs_absolute_cap cap <> 0 /\ allocation <= cs_absolute_cap cap /\
  cs_relative_cap cap <= WAD /\
  (cs_relative_cap cap < WAD ->
     total * cs_relative_cap cap <= U256_MAX /\
     allocation <= total * cs_relative_cap cap / WAD).

Lemma validate_allocation_cap_Ok cap total allocation :
  validate_allocation_cap cap total allocation = Ok tt <-> cap_admits cap total allocation.
Proof.
  unfold validate_allocation_cap, cap_admits. split.
  - intros H. inv_ok; rewrite ?Z.eqb_neq, ?Z.ltb_lt, ?Z.ltb_ge in *; repeat split; lia.
  - intros (H0 & Ha & Hw & Hr).
    rewrite (proj2 (Z.eqb_neq _ 0)) by done. rewrite (proj2 (Z.ltb_ge _ allocation)) by done.
    cbv zeta. rewrite (proj2 (Z.ltb_ge WAD _)) by done.
    destruct (Z.ltb_spec (cs_relative_cap cap) WAD) as [Hlt|]; [|done].
    destruct (Hr Hlt) as [Hm Hle]. rewrite (proj2 (checked_mul_Some _ _ _ _)) by done. cbn.
    rewrite (proj2 (checked_div_Some _ WAD _)) by done. cbn.
    by rewrite (proj2 (Z.ltb_ge _ allocation)).
Qed.

(** Allocation admission accepts exactly the allocations within a nonzero
    absolute cap and, below a 100 percent relative cap, within that fraction
    of the first total assets rounded down; a lower allocation of an admitted
    cap is admitted too. *)
Theorem allocation_cap_admission cap total allocation lower :
  lower <= allocation ->
  (validate_allocation_cap cap total allocation = Ok tt <-> cap_admits cap total allocation) /\
  (validate_allocation_cap cap total allocation = Ok tt ->
   validate_allocation_cap cap total lower = Ok tt).
Proof.
  intros Hl. split; [apply validate_allocation_cap_Ok|].
  rewrite !validate_allocation_cap_Ok. unfold cap_admits.
  intros (H0 & Ha & Hw & Hr). repeat split; try done; try lia; naive_solver lia.
Qed.

Lemma allocation_cap_admission_witness :
  validate_allocation_cap (mkCapState (mkCapRef 1 2) 3 1000 500000000000000000 10) 1000 500
    = Ok tt <->
  cap_admits (mkCapState (mkCapRef 1 2) 3 1000 500000000000000000 10) 1000 500.
Proof. apply (allocation_cap_admission _ 1000 500 400). lia. Defined.

(** ** The shared loan-token ledger *)

Inductive LiquidityError : Type :=
| InconsistentBalance
| MissingToken
| Exhausted.
#[global] Instance LiquidityError_eq_dec : EqDecision LiquidityError.
Proof. solve_decision. Defined.

Record SharedTokenLiquidity : Type := mkSharedTokenLiquidity {
  sl_remaining : gmap Address Z;
}.

Definition liquidity_default : SharedTokenLiquidity := mkSharedTokenLiquidity ∅.

Definition register (l : SharedTokenLiquidity) (token : Address) (exact_balance : Z)
    : result LiquidityError SharedTokenLiquidity :=
  match sl_remaining l !! token with
  | Some existing =>
      if negb (existing =? exact_balance) then Err InconsistentBalance else Ok l
  | None => Ok (mkSharedTokenLiquidity (<[token := exact_balance]> (sl_remaining l)))
  end.

Definition consume (l : SharedTokenLiquidity) (token : Address) (assets : Z)
    : result LiquidityError (SharedTokenLiquidity * Z) :=
  remaining ← ok_or (sl_remaining l !! token) MissingToken;
  rest ← ok_or (checked_sub remaining assets) Exhausted;
  Ok (mkSharedTokenLiquidity (<[token := rest]> (sl_remaining l)), rest).

Definition credit (l : SharedTokenLiquidity) (token : Address) (assets : Z)
    : result LiquidityError (SharedTokenLiquidity * Z) :=
  remaining ← ok_or (sl_remaining l !! token) MissingToken;
  rest ← ok_or (checked_add U256_MAX remaining assets) Exhausted;
  Ok (mkSharedTokenLiquidity (<[token := rest]> (sl_remaining l)), rest).

Definition liquidity_remaining (l : SharedTokenLiquidity) (token : Address)
    : result LiquidityError Z :=
  ok_or (sl_remaining l !! token) MissingToken.

Definition source_constraints_hold (accounting_liquidity shared_token_liquidity utilization
    minimum_accounting_liquidity minimum_token_liquidity maximum_utilization : Z) : bool :=
  (minimum_accounting_liquidity <=? accounting_liquidity)
  && (minimum_token_liquidity <=? shared_token_liquidity)
  && (utilization <=? maximum_utilization).

(** Total of the ledger over all tokens. *)
Definition map_sum (m : gmap Z Z) : Z := map_sum_by (fun v => v) m.

Lemma map_sum_update m k v w : m !! k = Some v -> map_sum (<[k := w]> m) = map_sum m - v + w.
Proof. apply map_sum_by_update. Qed.

Lemma consume_Ok l token x l' r :
  consume l token x = Ok (l', r) ->
  exists v, sl_remaining l !! token = Some v /\ x <= v /\ r = v - x /\
    l' = mkSharedTokenLiquidity (<[token := v - x]> (sl_remaining l)) /\
    map_sum (sl_remaining l') = map_sum (sl_remaining l) - x.
Proof.
  unfold consume. intros H. step_ok H as v Hv%ok_or_Ok.
  step_ok H as rest (-> & Hle)%ok_or_Ok%checked_sub_Some. injection H as <- <-.
  exists v. do 4 (split; [done|]). cbn. rewrite (map_sum_update _ _ _ _ Hv). lia.
Qed.

Lemma credit_Ok l token x l' r :
  credit l token x = Ok (l', r) ->
  exists v, sl_remaining l !! token = Some v /\ v + x <= U256_MAX /\ r = v + x /\
    l' = mkSharedTokenLiquidity (<[token := v + x]> (sl_remaining l)) /\
    map_sum (sl_remaining l') = map_sum (sl_remaining l) + x.
Proof.
  unfold credit. intros H. step_ok H as v Hv%ok_or_Ok.
  step_ok H as rest (-> & Hle)%ok_or_Ok%checked_add_Some. injection H as <- <-.
  exists v. do 4 (split; [done|]). cbn. rewrite (map_sum_update _ _ _ _ Hv). lia.
Qed.

(** ** Bounded maximisation

    The loop [while low < high] halves the distance, so 257 rounds exhaust any
    256-bit interval ([monotone_maximum_correct] proves that the fuel is never
    what stops it). *)

Section Maximum.
Context {E : Type}.
Variable arithmetic : E.
Variable predicate : Z -> result E bool.

Definition search_midpoint (low high : Z) : result E Z :=
  distance ← ok_or
    (distance ← checked_sub high low; checked_add U256_MAX distance 1) arithmetic;
  half ← ok_or (checked_div distance 2) arithmetic;
  ok_or (checked_add U256_MAX low half) arithmetic.

Fixpoint monotone_loop (fuel : nat) (low high : Z) : result E Z :=
  if low <? high then
    match fuel with
    | O => Err arithmetic
    | S fuel =>
        midpoint ← search_midpoint low high;
        accepted ← predicate midpoint;
        if accepted : bool then monotone_loop fuel midpoint high
        else
          high' ← ok_or (checked_sub midpoint 1) arithmetic;
          monotone_loop fuel low high'
    end
  else Ok low.

Definition monotone_maximum (upper : Z) : result E Z := monotone_loop 257 0 upper.

Lemma search_midpoint_in low high :
  0 <= low < high -> high < U256_MAX ->
  search_midpoint low high = Ok (low + (high - low + 1) / 2).
Proof.
  intros Hl Hh. unfold search_midpoint.
  rewrite (proj2 (checked_sub_Some high low (high - low))) by lia. cbn.
  rewrite (proj2 (checked_add_Some U256_MAX (high - low) 1 _)) by (split; [done|lia]). cbn.
  rewrite (proj2 (checked_div_Some _ 2 _)) by done. cbn.
  apply ok_or_Ok, checked_add_Some. split; [done|].
  pose proof (floor_div_bounds (high - low + 1) 2 eq_refl). lia.
Qed.

Lemma monotone_loop_bounds fuel low high v :
  0 <= low <= high -> monotone_loop fuel low high = Ok v ->
  low <= v <= high /\ (v = low \/ predicate v = Ok true).
Proof.
  revert low high. induction fuel as [|fuel IH]; intros low high Hl H; cbn in H;
    (destruct (Z.ltb_spec low high) as [Hlt|]; [|injection H as <-; naive_solver lia]); [done|].
  step_ok H as mid Hm. assert (low < mid <= high) as Hmid.
  { clear H IH. unfold search_midpoint in Hm. inv_ok.
    pose proof (floor_div_bounds (high - low + 1) 2 eq_refl). lia. }
  step_ok H as b Hb. destruct b.
  - apply IH in H as [Hv Hvp]; [|lia]. split; [lia|]. right. by destruct Hvp as [->|].
  - step_ok H as h' (-> & _)%ok_or_Ok%checked_sub_Some.
    apply IH in H as [Hv Hvp]; [|lia]. split; [lia|done].
Qed.

(** Whatever the predicate answers, an error of the loop is one of the
    predicate, and a result is feasible with an infeasible successor. *)
Lemma monotone_loop_exact fuel low high :
  0 <= low <= high -> high < U256_MAX -> high - low < 2 ^ Z.of_nat fuel ->
  match monotone_loop fuel low high with
  | Ok v => low <= v <= high /\
      (v = low \/ predicate v = Ok true) /\ (v = high \/ predicate (v + 1) = Ok false)
  | Err e => exists x, low < x <= high /\ predicate x = Err e
  end.
Proof.
  revert low high. induction fuel as [|fuel IH]; intros low high Hl Hh Hf; cbn.
  { rewrite (proj2 (Z.ltb_ge low high)) by (cbn in Hf; lia). naive_solver lia. }
  destruct (Z.ltb_spec low high) as [Hlt|]; [|naive_solver lia].
  rewrite search_midpoint_in by lia. cbn.
  pose proof (floor_div_bounds (high - low + 1) 2 eq_refl) as Hm.
  set (mid := low + (high - low + 1) / 2) in *. assert (low < mid <= high) by lia.
  rewrite Nat2Z.inj_succ, Z.pow_succ_r in Hf by lia.
  destruct (predicate mid) as [[]|e] eqn:Hpm; cbn; [| |exists mid; split; [lia|done]].
  - specialize (IH mid high). destruct (monotone_loop fuel mid high) as [v|e].
    + destruct IH as (Hv & [->|Hvl] & Hvh); [lia..| |]; (split; [lia|]); auto.
    + destruct IH as (x & Hx & He); [lia..|]. exists x. split; [lia|done].
  - rewrite (proj2 (checked_sub_Some mid 1 (mid - 1))) by lia. cbn.
    specialize (IH low (mid - 1)). destruct (monotone_loop fuel low (mid - 1)) as [v|e].
    + destruct IH as (Hv & Hvl & [->|Hvh]); [lia..| |]; (split; [lia|]); [|by auto].
      split; [done|]. right. by replace (mid - 1 + 1) with mid by lia.
    + destruct IH as (x & Hx & He); [lia..|]. exists x. split; [lia|done].
Qed.

(** C40: The bounded maximisation always terminates, whatever the predicate
    answers.  For an upper bound below the largest 256-bit number it fails only
    with an error of the predicate at an amount of the interval; its result is
    at most the bound, feasible unless zero, and its successor is infeasible
    unless the bound is reached, so for a downward-closed predicate it is the
    exact maximum.  At the largest 256-bit number itself the midpoint overflows:
    the search fails at once, without asking the predicate. *)
Theorem monotone_maximum_correct upper :
  0 <= upper <= U256_MAX ->
  match monotone_maximum upper with
  | Ok v => upper < U256_MAX /\ 0 <= v <= upper /\
      (v = 0 \/ predicate v = Ok true) /\ (v = upper \/ predicate (v + 1) = Ok false) /\
      ((forall x y, 0 < x <= y -> y <= upper -> predicate y = Ok true -> predicate x = Ok true) ->
       forall x, 0 < x <= upper -> predicate x = Ok true <-> x <= v)
  | Err e => upper = U256_MAX /\ e = arithmetic \/
      upper < U256_MAX /\ exists x, 0 < x <= upper /\ predicate x = Err e
  end.
Proof.
  intros Hu. destruct (decide (upper = U256_MAX)) as [->|Hne]; [by left|].
  pose proof (monotone_loop_exact 257 0 upper ltac:(lia) ltac:(lia)) as H.
  unfold monotone_maximum. destruct (monotone_loop 257 0 upper) as [v|e].
  - destruct H as (Hv & Hl & Hh); [unfold U256_MAX in *; cbn; lia|].
    split; [lia|]. do 3 (split; [done|]). intros Hmono x Hx. split.
    + intros Hpx. destruct (Z.le_gt_cases x v) as [|Hgt]; [done|]. exfalso.
      destruct Hh as [->|Hf]; [lia|]. by rewrite (Hmono (v + 1) x) in Hf by lia || done.
    + intros Hxv. destruct Hl as [->|Hpv]; [lia|]. by apply (Hmono x v); lia || done.
  - right. split; [lia|]. apply H. unfold U256_MAX in *; cbn; lia.
Qed.

End Maximum.

Lemma monotone_maximum_correct_witness :
  (exists v, monotone_maximum CapArithmetic (fun x => Ok (x * x <=? 200)) 1000 = Ok v /\
     (v = 1000 \/ Ok ((v + 1) * (v + 1) <=? 200) = @Ok CapError bool false)) /\
  monotone_maximum CapArithmetic (fun x => Ok (x * x <=? 200)) U256_MAX = Err CapArithmetic.
Proof.
  pose proof (monotone_maximum_correct CapArithmetic (fun x => Ok (x * x <=? 200)) 1000) as H1.
  split; [|reflexivity].
  destruct (monotone_maximum _ _ 1000) as [v|e].
  - exists v. split; [reflexivity|]. apply H1. unfold U256_MAX. lia.
  - destruct H1 as [[? _]|(_ & x & _ & ?)]; [unfold U256_MAX; lia|done|done].
Defined.
