(* ===== verification/Episodes.v ===== *)
(** * Rate-signal episodes

    The persistent episode state machine of [planner/episodes.rs]: a frozen
    source/destination direction, a confirmation span, and a cumulative
    movement budget that is reserved, confirmed, released and reopened. *)
From Stdlib Require Import ZArith Lia List Bool.
From stdpp Require Import base list gmap sets sorting.
From S2P Require Import Prelude.
From S2P Require Import Domain.
Open Scope Z_scope.

Inductive RateEpisodeState : Type := Detecting | Immediate | Persistent | Complete.
#[global] Instance RateEpisodeState_eq_dec : EqDecision RateEpisodeState.
Proof. solve_decision. Defined.

Inductive RateEpisodeStopReason : Type :=
  | TargetReached
  | ConfigOrTopologyChanged
  | StopDirectionChanged
  | ExpiredStalled
  | StopNonConsecutiveObservation
  | HigherPriorityPlan.
#[global] Instance RateEpisodeStopReason_eq_dec : EqDecision RateEpisodeStopReason.
Proof. solve_decision. Defined.

Record IndependentRateEvent : Type := mkIndependentRateEvent {
  ie_transaction_hash : B256;
  ie_block : BlockRef;
}.
#[global] Instance IndependentRateEvent_eq_dec : EqDecision IndependentRateEvent.
Proof. solve_decision. Defined.

Record RateSignalEpisode : Type := mkRateSignalEpisode {
  re_episode_id : EpisodeId;
  re_vault : VaultAddress;
  re_rate_group : RateGroupId;
  re_state : RateEpisodeState;
  re_stop_reason : option RateEpisodeStopReason;
  re_objective_branch : RateObjectiveBranch;
  re_detection_block : BlockRef;
  re_confirmation_block : option BlockRef;
  re_last_observation_block : option BlockRef;
  re_consecutive_observations : Z;
  re_config_revision : B256;
  re_topology_revision : B256;
  re_evaluation_markets : gset MarketId;
  re_controllable_markets : gset MarketId;
  re_source_markets : gset MarketId;
  re_destination_markets : gset MarketId;
  re_direction_hash : B256;
  re_baseline_desired_movement : Z;
  re_immediate_budget : Z;
  re_confirmed_movement : Z;
  re_pending_movement : Z;
  re_independent_events : list IndependentRateEvent;
  re_started_at : Z;
  re_expires_at : Z;
}.
#[global] Instance RateSignalEpisode_eq_dec : EqDecision RateSignalEpisode.
Proof. solve_decision. Defined.

Inductive EpisodeError : Type :=
  | InvalidDirection
  | InvalidBudget
  | BudgetExceeded
  | DirectionChanged
  | EpisodeComplete
  | NonConsecutiveObservation
  | ObservationOverflow.
#[global] Instance EpisodeError_eq_dec : EqDecision EpisodeError.
Proof. solve_decision. Defined.

(** ** Field updates

    Everything but the lifecycle, the observations, the movements and the
    events is frozen when the episode starts. *)
Definition with_mutable (e : RateSignalEpisode) (state : RateEpisodeState)
    (stop : option RateEpisodeStopReason) (confirmation last : option BlockRef)
    (observations baseline immediate confirmed pending : Z)
    (events : list IndependentRateEvent) : RateSignalEpisode :=
  mkRateSignalEpisode (re_episode_id e) (re_vault e) (re_rate_group e) state stop
    (re_objective_branch e) (re_detection_block e) confirmation last observations
    (re_config_revision e) (re_topology_revision e) (re_evaluation_markets e)
    (re_controllable_markets e) (re_source_markets e) (re_destination_markets e)
    (re_direction_hash e) baseline immediate confirmed pending events
    (re_started_at e) (re_expires_at e).

Definition with_lifecycle (e : RateSignalEpisode) (state : RateEpisodeState)
    (stop : option RateEpisodeStopReason) : RateSignalEpisode :=
  with_mutable e state stop (re_confirmation_block e) (re_last_observation_block e)
    (re_consecutive_observations e) (re_baseline_desired_movement e) (re_immediate_budget e)
    (re_confirmed_movement e) (re_pending_movement e) (re_independent_events e).

Definition with_movements (e : RateSignalEpisode) (confirmed pending : Z) : RateSignalEpisode :=
  with_mutable e (re_state e) (re_stop_reason e) (re_confirmation_block e)
    (re_last_observation_block e) (re_consecutive_observations e)
    (re_baseline_desired_movement e) (re_immediate_budget e) confirmed pending
    (re_independent_events e).

Definition with_observation (e : RateSignalEpisode) (last : option BlockRef) (observations : Z)
    : RateSignalEpisode :=
  with_mutable e (re_state e) (re_stop_reason e) (re_confirmation_block e) last observations
    (re_baseline_desired_movement e) (re_immediate_budget e) (re_confirmed_movement e)
    (re_pending_movement e) (re_independent_events e).

Definition with_events (e : RateSignalEpisode) (events : list IndependentRateEvent)
    : RateSignalEpisode :=
  with_mutable e (re_state e) (re_stop_reason e) (re_confirmation_block e)
    (re_last_observation_block e) (re_consecutive_observations e)
    (re_baseline_desired_movement e) (re_immediate_budget e) (re_confirmed_movement e)
    (re_pending_movement e) events.

(** ** Operations

    An operation on [&mut self] returns the episode it leaves behind together
    with its result: some failures happen after a field was written. *)

(** What a caller that drops the episode on failure sees. *)
Definition committed {S E A} (run : S * result E A) : result E S :=
  match run with (s, Ok _) => Ok s | (_, Err e) => Err e end.

Section Start.
Context `{Keccak}.

Definition direction_bytes (objective_branch : RateObjectiveBranch)
    (config_revision topology_revision : B256)
    (source_markets destination_markets : gset MarketId) : Bytes :=
  concat ((fun market => 0 :: be_bytes 32 market) <$> set_elements source_markets) ++
  concat ((fun market => 1 :: be_bytes 32 market) <$> set_elements destination_markets) ++
  stable_code objective_branch :: be_bytes 32 config_revision ++ be_bytes 32 topology_revision.

Definition start (vault : VaultAddress) (rate_group : RateGroupId)
    (objective_branch : RateObjectiveBranch) (detection_block : BlockRef)
    (config_revision topology_revision : B256)
    (evaluation_markets controllable_markets source_markets destination_markets : gset MarketId)
    (started_at expires_at : Z) : result EpisodeError RateSignalEpisode :=
  if bool_decide (source_markets = ∅) || bool_decide (destination_markets = ∅)
     || negb (bool_decide (source_markets ## destination_markets)) || (expires_at <=? started_at)
  then Err InvalidDirection
  else
    let direction := direction_bytes objective_branch config_revision topology_revision
                       source_markets destination_markets in
    let direction_hash := keccak256 direction in
    let identity := direction ++ be_bytes 20 vault ++ be_bytes 32 rate_group
                    ++ be_bytes 8 (blk_number detection_block) in
    Ok (mkRateSignalEpisode (keccak256 identity) vault rate_group Detecting None
          objective_branch detection_block None (Some detection_block) 1 config_revision
          topology_revision evaluation_markets controllable_markets source_markets
          destination_markets direction_hash 0 0 0 0 [] started_at expires_at).

End Start.

Definition confirm_short (e : RateSignalEpisode) (block : BlockRef) (baseline : Z)
    : RateSignalEpisode * result EpisodeError unit :=
  if bool_decide (re_state e = Complete) then (e, Err EpisodeComplete)
  else if negb (bool_decide (re_state e = Detecting)) || (baseline =? 0)
  then (e, Err InvalidBudget)
  else (with_mutable e Immediate (re_stop_reason e) (Some block) (Some block)
          (re_consecutive_observations e) baseline baseline (re_confirmed_movement e)
          (re_pending_movement e) (re_independent_events e), Ok tt).

Definition confirm_true (run : RateSignalEpisode * result EpisodeError unit)
    : RateSignalEpisode * result EpisodeError bool :=
  match run with (e, Ok _) => (e, Ok true) | (e, Err x) => (e, Err x) end.

Definition observe_short_confirmation (e : RateSignalEpisode) (block : BlockRef)
    (required_opportunities baseline : Z) : RateSignalEpisode * result EpisodeError bool :=
  if bool_decide (re_state e = Complete) then (e, Err EpisodeComplete)
  else if negb (bool_decide (re_state e = Detecting)) then (e, Ok true)
  else
    let required_span := Z.max required_opportunities 1 in
    if required_span <=? re_consecutive_observations e
    then confirm_true (confirm_short e block baseline)
    else
      let previous := default (re_detection_block e) (re_last_observation_block e) in
      if bool_decide (block = previous) then (e, Ok false)
      else if (blk_number block <=? blk_number previous)
           || (blk_timestamp block <? blk_timestamp previous)
           || (blk_number block =? saturating_add U64_MAX (blk_number previous) 1)
              && negb (blk_parent_hash block =? blk_hash previous)
      then (e, Err NonConsecutiveObservation)
      else
        let e := with_observation e (Some block) (re_consecutive_observations e) in
        match distance ← checked_sub (blk_number block) (blk_number (re_detection_block e));
              checked_add U64_MAX distance 1 with
        | None => (e, Err ObservationOverflow)
        | Some observations =>
            let e := with_observation e (Some block) observations in
            if required_span <=? observations
            then confirm_true (confirm_short e block baseline)
            else (e, Ok false)
        end.

Definition unspent (e : RateSignalEpisode) (maximum : Z) : result EpisodeError Z :=
  ok_or (value ← checked_sub maximum (re_confirmed_movement e);
         checked_sub value (re_pending_movement e)) BudgetExceeded.

Definition available_budget (e : RateSignalEpisode) : result EpisodeError Z :=
  unspent e (match re_state e with
             | Detecting | Complete => 0
             | Immediate => re_immediate_budget e
             | Persistent => re_baseline_desired_movement e
             end).

Definition remaining_budget (e : RateSignalEpisode) : result EpisodeError Z :=
  unspent e (re_baseline_desired_movement e).

Definition reserve_pending (e : RateSignalEpisode) (movement : Z)
    : RateSignalEpisode * result EpisodeError unit :=
  match available_budget e with
  | Err x => (e, Err x)
  | Ok available =>
      if available <? movement then (e, Err BudgetExceeded)
      else match checked_add U256_MAX (re_pending_movement e) movement with
           | None => (e, Err BudgetExceeded)
           | Some pending => (with_movements e (re_confirmed_movement e) pending, Ok tt)
           end
  end.

Definition release_pending (e : RateSignalEpisode) (movement : Z)
    : RateSignalEpisode * result EpisodeError unit :=
  match checked_sub (re_pending_movement e) movement with
  | None => (e, Err BudgetExceeded)
  | Some pending => (with_movements e (re_confirmed_movement e) pending, Ok tt)
  end.

Definition confirm_pending (e : RateSignalEpisode) (movement : Z)
    : RateSignalEpisode * result EpisodeError unit :=
  match checked_sub (re_pending_movement e) movement with
  | None => (e, Err BudgetExceeded)
  | Some pending =>
      match checked_add U256_MAX (re_confirmed_movement e) movement with
      | None => (with_movements e (re_confirmed_movement e) pending, Err BudgetExceeded)
      | Some confirmed => (with_movements e confirmed pending, Ok tt)
      end
  end.

Definition reopen_confirmed (e : RateSignalEpisode) (movement budget_before : Z)
    : RateSignalEpisode * result EpisodeError unit :=
  match checked_sub (re_confirmed_movement e) movement with
  | None => (e, Err BudgetExceeded)
  | Some confirmed =>
      match checked_add U256_MAX (re_pending_movement e) movement with
      | None => (with_movements e confirmed (re_pending_movement e), Err BudgetExceeded)
      | Some pending =>
          let moved := with_movements e confirmed pending in
          match checked_sub (re_immediate_budget e) confirmed with
          | None => (moved, Err BudgetExceeded)
          | Some immediate_available_before =>
              (with_lifecycle moved (if budget_before <=? immediate_available_before
                                     then Immediate else Persistent) None, Ok tt)
          end
      end
  end.

Definition unlock_persistent (e : RateSignalEpisode)
    : RateSignalEpisode * result EpisodeError unit :=
  if bool_decide (re_state e = Complete) then (e, Err EpisodeComplete)
  else (with_lifecycle e Persistent (re_stop_reason e), Ok tt).

Definition moves_backwards (event last : IndependentRateEvent) : bool :=
  (blk_number (ie_block event) <? blk_number (ie_block last))
  || (blk_number (ie_block event) =? blk_number (ie_block last))
     && negb (blk_hash (ie_block event) =? blk_hash (ie_block last))
  || (blk_timestamp (ie_block event) <? blk_timestamp (ie_block last)).

Definition record_independent_event (e : RateSignalEpisode) (event : IndependentRateEvent)
    : RateSignalEpisode * result EpisodeError bool :=
  if bool_decide (re_state e = Complete) then (e, Err EpisodeComplete)
  else match re_confirmation_block e with
       | None => (e, Err NonConsecutiveObservation)
       | Some confirmation =>
           if blk_number (ie_block event) <=? blk_number confirmation
           then (e, Err NonConsecutiveObservation)
           else if existsb (fun recorded => ie_transaction_hash recorded
                                            =? ie_transaction_hash event)
                     (re_independent_events e)
           then (e, Ok false)
           else if match last (re_independent_events e) with
                   | Some previous => moves_backwards event previous
                   | None => false
                   end
           then (e, Err NonConsecutiveObservation)
           else (with_events e (re_independent_events e ++ [event]), Ok true)
       end.

Definition independent_confirmation_ready (e : RateSignalEpisode)
    (minimum_events minimum_span_seconds : Z) : bool :=
  match head (re_independent_events e), last (re_independent_events e) with
  | Some first, Some last =>
      match try_from_u U32_MAX (Z.of_nat (length (re_independent_events e))) with
      | Some count => minimum_events <=? count
      | None => false
      end
      && (minimum_span_seconds
          <=? saturating_sub (blk_timestamp (ie_block last)) (blk_timestamp (ie_block first)))
  | _, _ => false
  end.

Definition retained_event (ancestor : BlockRef) (event : IndependentRateEvent) : bool :=
  (blk_number (ie_block event) <? blk_number ancestor)
  || (blk_number (ie_block event) =? blk_number ancestor)
     && (blk_hash (ie_block event) =? blk_hash ancestor).

Definition rewind_independent_events (e : RateSignalEpisode) (ancestor : BlockRef)
    : RateSignalEpisode :=
  with_events e (filter (retained_event ancestor) (re_independent_events e)).

Definition validate_direction (e : RateSignalEpisode) (branch : RateObjectiveBranch)
    (sources destinations : gset MarketId) : result EpisodeError unit :=
  if negb (bool_decide (branch = re_objective_branch e))
     || negb (bool_decide (sources ⊆ re_source_markets e))
     || negb (bool_decide (destinations ⊆ re_destination_markets e))
     || negb (bool_decide (sources ## destinations))
  then Err DirectionChanged
  else Ok tt.

Definition complete (e : RateSignalEpisode) (reason : RateEpisodeStopReason)
    : RateSignalEpisode :=
  with_lifecycle e Complete (Some reason).

(** ** Episode invariant *)

(** Later events never move backwards from earlier ones. *)
Definition event_le (a b : IndependentRateEvent) : Prop :=
  blk_number (ie_block a) <= blk_number (ie_block b) /\
  blk_timestamp (ie_block a) <= blk_timestamp (ie_block b) /\
  (blk_number (ie_block a) = blk_number (ie_block b) ->
   blk_hash (ie_block a) = blk_hash (ie_block b)).

Record episode_wf (e : RateSignalEpisode) : Prop := {
  ew_direction : re_source_markets e ≠ ∅ /\ re_destination_markets e ≠ ∅ /\
    re_source_markets e ## re_destination_markets e /\ re_started_at e < re_expires_at e;
  ew_budget : re_immediate_budget e = re_baseline_desired_movement e /\
    0 <= re_confirmed_movement e /\ 0 <= re_pending_movement e /\
    re_confirmed_movement e + re_pending_movement e <= re_baseline_desired_movement e <= U256_MAX;
  ew_detecting : re_state e = Detecting ->
    re_baseline_desired_movement e = 0 /\ re_confirmation_block e = None;
  ew_stop : re_state e = Complete <-> is_Some (re_stop_reason e);
  ew_hashes : NoDup (ie_transaction_hash <$> re_independent_events e);
  ew_order : StronglySorted event_le (re_independent_events e);
  ew_after : match re_confirmation_block e with
             | None => re_independent_events e = []
             | Some c => Forall (fun v => blk_number c < blk_number (ie_block v))
                           (re_independent_events e)
             end;
}.

(** Every way the program changes an episode after it has started; a failed
    call is included with the episode it leaves behind. *)
Inductive episode_step (e : RateSignalEpisode) : RateSignalEpisode -> Prop :=
  | step_confirm_short block baseline : u256 baseline ->
      episode_step e (fst (confirm_short e block baseline))
  | step_observe block required baseline : u256 baseline ->
      episode_step e (fst (observe_short_confirmation e block required baseline))
  | step_reserve movement : u256 movement ->
      episode_step e (fst (reserve_pending e movement))
  | step_release movement : u256 movement ->
      episode_step e (fst (release_pending e movement))
  | step_confirm movement : u256 movement ->
      episode_step e (fst (confirm_pending e movement))
  | step_reopen movement budget : u256 movement ->
      episode_step e (fst (reopen_confirmed e movement budget))
  | step_unlock : episode_step e (fst (unlock_persistent e))
  | step_event event : episode_step e (fst (record_independent_event e event))
  | step_rewind ancestor : episode_step e (rewind_independent_events e ancestor)
  | step_complete reason : episode_step e (complete e reason).

(** The changes that follow the signal and move no assets: the ones a planner or
    an observer makes on the episode it has loaded. *)
Inductive signal_step (e : RateSignalEpisode) : RateSignalEpisode -> Prop :=
  | signal_observe block required baseline : u256 baseline ->
      signal_step e (fst (observe_short_confirmation e block required baseline))
  | signal_unlock : signal_step e (fst (unlock_persistent e))
  | signal_event event : signal_step e (fst (record_independent_event e event))
  | signal_complete reason : signal_step e (complete e reason).

Lemma signal_step_step e e' : signal_step e e' -> episode_step e e'.
Proof. destruct 1; by constructor. Qed.

Lemma signal_step_movement e e' : signal_step e e' ->
  re_episode_id e' = re_episode_id e /\ re_pending_movement e' = re_pending_movement e.
Proof.
  destruct 1 as [block required baseline _| |event|reason]; [|unfold unlock_persistent; by case_match
    |unfold record_independent_event; by repeat case_match|done].
  assert (forall e, re_episode_id (confirm_true (confirm_short e block baseline)).1 = re_episode_id e /\
    re_pending_movement (confirm_true (confirm_short e block baseline)).1 = re_pending_movement e) as Hc.
  { intros e0. unfold confirm_short. by repeat case_match. }
  unfold observe_short_confirmation. repeat (case_match; try done);
    match goal with |- context [confirm_short ?e0] => apply (Hc e0) end.
Qed.

Lemma signal_steps_movement e e' : rtc signal_step e e' ->
  re_episode_id e' = re_episode_id e /\ re_pending_movement e' = re_pending_movement e.
Proof.
  induction 1 as [|x y z Hs _ [-> ->]]; [done|]. by apply signal_step_movement.
Qed.

(** An episode as [start] returns it, which nothing has moved. *)
Definition just_started `{Keccak} (e : RateSignalEpisode) : Prop :=
  exists vault group branch block config topology eval control src dst t0 t1,
    start vault group branch block config topology eval control src dst t0 t1 = Ok e.

Lemma just_started_movement `{Keccak} e : just_started e -> re_pending_movement e = 0.
Proof.
  intros (v & g & b & bl & c & t & ev & co & s & d & t0 & t1 & Hst). unfold start in Hst.
  destruct (_ || _); [done|]. cbv zeta in Hst. by injection Hst as <-.
Qed.

(** An episode the program can hold: started, then stepped any number of times. *)
Inductive episode_reachable `{Keccak} : RateSignalEpisode -> Prop :=
  | reachable_start vault group branch block config topology eval control src dst t0 t1 e :
      start vault group branch block config topology eval control src dst t0 t1 = Ok e ->
      episode_reachable e
  | reachable_step e e' :
      episode_reachable e -> episode_step e e' -> episode_reachable e'.

Lemma with_movements_wf e confirmed pending :
  episode_wf e -> 0 <= confirmed -> 0 <= pending ->
  confirmed + pending <= re_confirmed_movement e + re_pending_movement e \/
  confirmed + pending <= re_baseline_desired_movement e ->
  episode_wf (with_movements e confirmed pending).
Proof.
  intros [Hd (Hi & Hc & Hp & Hle) Hdet Hs Hh Ho Ha] Hc' Hp' Hor. constructor; try done. cbn. lia.
Qed.

Lemma with_lifecycle_wf e state stop :
  episode_wf e -> state <> Detecting -> (state = Complete <-> is_Some stop) ->
  episode_wf (with_lifecycle e state stop).
Proof. intros [Hd Hb Hdet Hs Hh Ho Ha] Hn Hi. by constructor. Qed.

Lemma with_observation_wf e last observations :
  episode_wf e -> episode_wf (with_observation e last observations).
Proof. intros [Hd Hb Hdet Hs Hh Ho Ha]. by constructor. Qed.

Lemma confirm_short_wf e block baseline :
  u256 baseline -> episode_wf e -> episode_wf (fst (confirm_short e block baseline)).
Proof.
  intros Hu Hwf. unfold confirm_short. case_match eqn:E1; [done|].
  case_match eqn:E2; [done|]. apply orb_false_iff in E2 as [E2 E3%Z.eqb_neq].
  apply negb_false_iff, bool_decide_eq_true in E2.
  destruct Hwf as [Hd (Hi & Hc & Hp & Hle) Hdet Hs Hh Ho Ha].
  destruct (Hdet E2) as [Hb Hn]. rewrite Hn in Ha. unfold u256, in_u in Hu.
  constructor; cbn; try done.
  - lia.
  - rewrite <-Hs, E2. done.
  - by rewrite Ha.
Qed.

Lemma fst_confirm_true run : fst (confirm_true run) = fst run.
Proof. by destruct run as [e []]. Qed.

Lemma observe_short_confirmation_wf e block required baseline :
  u256 baseline -> episode_wf e ->
  episode_wf (fst (observe_short_confirmation e block required baseline)).
Proof.
  intros Hu Hwf. unfold observe_short_confirmation.
  cbv zeta. repeat case_match; rewrite ?fst_confirm_true; try done;
    try apply confirm_short_wf; try done; cbn; by repeat apply with_observation_wf.
Qed.

Lemma available_budget_Ok e available :
  episode_wf e -> available_budget e = Ok available ->
  available <= re_baseline_desired_movement e - re_confirmed_movement e - re_pending_movement e.
Proof.
  intros [_ (Hi & Hc & Hp & Hle) _ _ _ _ _] H. unfold available_budget, unspent in H.
  apply ok_or_Ok in H. destruct (checked_sub _ _) as [v|] eqn:Hv; [|done]. cbn in H.
  apply checked_sub_Some in Hv as [-> _], H as [-> _].
  destruct (re_state e); lia.
Qed.

Lemma movement_ops_wf e movement budget :
  u256 movement -> episode_wf e ->
  episode_wf (fst (reserve_pending e movement)) /\
  episode_wf (fst (release_pending e movement)) /\
  episode_wf (fst (confirm_pending e movement)) /\
  episode_wf (fst (reopen_confirmed e movement budget)).
Proof.
  intros [Hm _] Hwf. pose proof Hwf as [_ (Hi & Hc & Hp & Hle) _ _ _ _ _].
  split; [|split; [|split]].
  - unfold reserve_pending. destruct (available_budget e) as [a|] eqn:Ha; [|done].
    apply available_budget_Ok in Ha; [|done]. case_match eqn:Hlt; [done|].
    apply Z.ltb_ge in Hlt. case_match eqn:Hadd; [|done]. apply checked_add_Some in Hadd as [-> _].
    apply with_movements_wf; try done; lia.
  - unfold release_pending. case_match eqn:Hs; [|done]. apply checked_sub_Some in Hs as [-> ?].
    apply with_movements_wf; try done; lia.
  - unfold confirm_pending. case_match eqn:Hs; [|done]. apply checked_sub_Some in Hs as [-> ?].
    case_match eqn:Hadd; [apply checked_add_Some in Hadd as [-> _]|];
      apply with_movements_wf; try done; lia.
  - unfold reopen_confirmed. case_match eqn:Hs; [|done]. apply checked_sub_Some in Hs as [-> ?].
    case_match eqn:Hadd; [apply checked_add_Some in Hadd as [-> _]|];
      [|apply with_movements_wf; try done; lia].
    case_match eqn:Hsub; [|apply with_movements_wf; try done; lia].
    apply with_lifecycle_wf; [apply with_movements_wf; try done; lia|by case_match|].
    split; [by case_match|]. by intros [? ?].
Qed.

Lemma unlock_persistent_wf e : episode_wf e -> episode_wf (fst (unlock_persistent e)).
Proof.
  intros Hwf. unfold unlock_persistent. case_match eqn:Hc; [done|].
  apply bool_decide_eq_false in Hc. apply with_lifecycle_wf; try done.
  destruct Hwf. by rewrite <-ew_stop0.
Qed.

Lemma complete_wf e reason : episode_wf e -> episode_wf (complete e reason).
Proof. intros. by apply with_lifecycle_wf. Qed.

Lemma rewind_independent_events_wf e ancestor :
  episode_wf e -> episode_wf (rewind_independent_events e ancestor).
Proof.
  intros [Hd Hb Hdet Hs Hh Ho Ha]. constructor; try done; cbn.
  - eapply sublist_NoDup; [exact Hh|]. apply fmap_sublist, sublist_filter.
  - clear -Ho. induction Ho as [|v l _ IH Hv]; cbn; [constructor|].
    case_match; [|done]. constructor; [done|].
    apply Forall_forall. intros x [_ Hx]%list_elem_of_filter. exact (proj1 (Forall_forall _ _) Hv x Hx).
  - case_match; [|by rewrite Ha].
    apply Forall_forall. intros x [_ Hx]%list_elem_of_filter.
    exact (proj1 (Forall_forall _ _) Ha x Hx).
Qed.

Lemma event_le_snoc l v :
  StronglySorted event_le l ->
  match last l with Some p => moves_backwards v p = false | None => True end ->
  StronglySorted event_le (l ++ [v]).
Proof.
  intros Hs Hl. apply StronglySorted_app. split; [|split; [done|repeat constructor]].
  intros x y Hx ->%list_elem_of_singleton.
  destruct (last l) as [p|] eqn:Hp; [|apply last_None in Hp as ->; by apply elem_of_nil in Hx].
  apply last_Some in Hp as [l' ->]. unfold moves_backwards in Hl.
  apply orb_false_iff in Hl as [[H1%Z.ltb_ge H2]%orb_false_iff H3%Z.ltb_ge].
  assert (event_le p v) as Hpv.
  { split; [done|split; [done|]]. intros Heq. rewrite Heq, Z.eqb_refl in H2. cbn in H2.
    apply negb_false_iff, Z.eqb_eq in H2. done. }
  apply elem_of_app in Hx as [Hx|Hx%list_elem_of_singleton]; [|by subst].
  apply StronglySorted_app in Hs as (Hxp & _ & _).
  specialize (Hxp x p Hx ltac:(by apply list_elem_of_singleton)).
  destruct Hxp as (A1 & A2 & A3), Hpv as (B1 & B2 & B3).
  split; [lia|split; [lia|]]. intros Heq. rewrite A3 by lia. apply B3. lia.
Qed.

Lemma record_independent_event_wf e event :
  episode_wf e -> episode_wf (fst (record_independent_event e event)).
Proof.
  intros Hwf. unfold record_independent_event. case_match; [done|].
  destruct (re_confirmation_block e) as [c|] eqn:Hc; [|done].
  case_match eqn:Hn; [done|]. case_match eqn:Hex; [done|]. case_match eqn:Hb; [done|].
  apply Z.leb_gt in Hn. destruct Hwf as [Hd Hbu Hdet Hs Hh Ho Ha].
  rewrite Hc in Ha. constructor; cbn; try done; rewrite ?fmap_app; cbn.
  - apply NoDup_app. split; [done|]. split; [|apply NoDup_singleton].
    intros h Hin ->%list_elem_of_singleton. apply list_elem_of_fmap in Hin as (v & Hv & Hin).
    assert (existsb (fun recorded => ie_transaction_hash recorded =? ie_transaction_hash event)
              (re_independent_events e) = true) as Hin'; [|congruence].
    apply existsb_exists. exists v. rewrite <-Hv, Z.eqb_refl.
    by split; [apply list_elem_of_In|].
  - apply event_le_snoc; [done|]. by case_match.
  - rewrite Hc. apply Forall_app. by repeat constructor.
Qed.

Lemma episode_step_wf e e' : episode_wf e -> episode_step e e' -> episode_wf e'.
Proof.
  intros Hwf Hstep. destruct Hstep;
    eauto using confirm_short_wf, observe_short_confirmation_wf, unlock_persistent_wf,
      record_independent_event_wf, rewind_independent_events_wf, complete_wf.
  - by apply (movement_ops_wf e movement 0).
  - by apply (movement_ops_wf e movement 0).
  - by apply (movement_ops_wf e movement 0).
  - by apply movement_ops_wf.
Qed.

Section Reachable.
Context `{HK : Keccak}.

Lemma start_wf vault group branch block config topology eval control src dst t0 t1 e :
  start vault group branch block config topology eval control src dst t0 t1 = Ok e ->
  episode_wf e.
Proof.
  unfold start. case_match eqn:Hg; [done|]. intros [= <-].
  apply orb_false_iff in Hg as [[[H1 H2]%orb_false_iff H3]%orb_false_iff H4%Z.leb_gt].
  apply bool_decide_eq_false in H1, H2. apply negb_false_iff, bool_decide_eq_true in H3.
  constructor; cbn; try done; try by constructor.
Qed.

(** C10: Whatever the program does to an episode after starting it, in any
    order and including calls that fail half-way, the movement it has pending
    and confirmed never exceeds the frozen baseline, the direction stays
    nonempty and disjoint, budgets are zero while detecting, an episode is
    complete exactly when it has a stop reason, and its independent events are
    distinct, ordered and later than the confirmation. *)
Theorem episode_reachable_invariant e : episode_reachable e -> episode_wf e.
Proof. induction 1; eauto using start_wf, episode_step_wf. Qed.

End Reachable.

(** ** Budget accounting *)

Lemma available_budget_wf e :
  episode_wf e -> re_state e = Immediate \/ re_state e = Persistent ->
  available_budget e
  = Ok (re_baseline_desired_movement e - re_confirmed_movement e - re_pending_movement e).
Proof.
  intros [_ (Hi & Hc & Hp & Hle) _ _ _ _ _] Hs. unfold available_budget, unspent.
  destruct Hs as [-> | ->]; rewrite ?Hi;
    rewrite (proj2 (checked_sub_Some _ _ _)) by (split; [reflexivity|lia]); cbn;
    rewrite (proj2 (checked_sub_Some _ _ _)) by (split; [reflexivity|lia]); done.
Qed.

(** On an armed episode a reservation succeeds exactly when it fits the
    unlocked budget. Releasing it restores the episode exactly; confirming it
    moves the amount from pending to confirmed without changing the available
    budget; and reopening a confirmed movement makes it pending again. *)
Theorem movement_round_trips e movement :
  episode_wf e -> re_state e = Immediate \/ re_state e = Persistent -> 0 <= movement ->
  (is_ok (snd (reserve_pending e movement)) = true <->
     movement <= re_baseline_desired_movement e - re_confirmed_movement e
                 - re_pending_movement e) /\
  (forall reserved, reserve_pending e movement = (reserved, Ok tt) ->
     release_pending reserved movement = (e, Ok tt) /\
     exists confirmed, confirm_pending reserved movement = (confirmed, Ok tt) /\
       available_budget confirmed = available_budget reserved /\
       re_confirmed_movement confirmed = re_confirmed_movement e + movement /\
       re_pending_movement confirmed = re_pending_movement e /\
       forall budget, budget <= re_immediate_budget e - re_confirmed_movement e ->
         reopen_confirmed confirmed movement budget
         = (with_lifecycle reserved Immediate None, Ok tt)).
Proof.
  intros Hwf Hs Hm. pose proof (available_budget_wf e Hwf Hs) as Hav.
  pose proof Hwf as [_ (Hi & Hc & Hp & Hle) _ _ _ _ _].
  unfold reserve_pending. rewrite Hav. split.
  - case_match eqn:Hlt; cbn.
    + apply Z.ltb_lt in Hlt. split; [done|lia].
    + apply Z.ltb_ge in Hlt.
      rewrite (proj2 (checked_add_Some _ _ _ _)) by (split; [reflexivity|lia]). done.
  - intros reserved. case_match eqn:Hlt; [done|]. apply Z.ltb_ge in Hlt.
    rewrite (proj2 (checked_add_Some _ _ _ _)) by (split; [reflexivity|lia]). intros [= <-].
    split.
    { unfold release_pending. cbn.
      rewrite (proj2 (checked_sub_Some _ _ (re_pending_movement e))) by lia. by destruct e. }
    unfold confirm_pending. cbn.
    rewrite (proj2 (checked_sub_Some _ _ (re_pending_movement e))) by lia.
    rewrite (proj2 (checked_add_Some _ _ _ _)) by (split; [reflexivity|lia]).
    eexists. split; [reflexivity|]. split; [|split; [done|split; [done|]]].
    + rewrite !available_budget_wf; try done; [f_equal; cbn; lia| |];
        apply with_movements_wf; try done; try apply with_movements_wf; try done; cbn; lia.
    + intros budget Hb. unfold reopen_confirmed. cbn.
      rewrite (proj2 (checked_sub_Some _ _ (re_confirmed_movement e))) by lia.
      rewrite (proj2 (checked_add_Some _ _ _ _)) by (split; [reflexivity|lia]).
      rewrite (proj2 (checked_sub_Some _ _ _)) by (split; [reflexivity|lia]).
      by rewrite (proj2 (Z.leb_le _ _) Hb).
Qed.

(** ** Short confirmation *)

Lemma confirm_short_detecting e block baseline :
  re_state e = Detecting ->
  confirm_short e block baseline
  = if baseline =? 0 then (e, Err InvalidBudget)
    else (with_mutable e Immediate (re_stop_reason e) (Some block) (Some block)
            (re_consecutive_observations e) baseline baseline (re_confirmed_movement e)
            (re_pending_movement e) (re_independent_events e), Ok tt).
Proof. intros Hs. unfold confirm_short. by rewrite Hs. Qed.

(** Observing a detecting episode arms it only with a nonzero baseline, at
    a block that spans the required number of canonical blocks since detection
    and (unless the span had been covered before) is later than the previous
    observation; the whole baseline becomes the immediate budget. Every other
    outcome, errors included, leaves the episode detecting with its budget. *)
Theorem short_confirmation_sound e block required baseline e' r :
  re_state e = Detecting ->
  observe_short_confirmation e block required baseline = (e', r) ->
  if bool_decide (r = Ok true)
  then re_state e' = Immediate /\ re_confirmation_block e' = Some block /\
       baseline <> 0 /\ re_immediate_budget e' = baseline /\
       re_baseline_desired_movement e' = baseline /\
       Z.max required 1 <= re_consecutive_observations e' /\
       (re_consecutive_observations e < Z.max required 1 ->
        re_consecutive_observations e'
          = blk_number block - blk_number (re_detection_block e) + 1 /\
        blk_number (default (re_detection_block e) (re_last_observation_block e))
          < blk_number block)
  else re_state e' = Detecting /\ re_confirmation_block e' = re_confirmation_block e /\
       re_immediate_budget e' = re_immediate_budget e /\
       re_baseline_desired_movement e' = re_baseline_desired_movement e.
Proof.
  intros Hs. unfold observe_short_confirmation. rewrite Hs.
  rewrite (bool_decide_eq_false_2 (Detecting = Complete)) by done.
  rewrite (bool_decide_eq_true_2 (Detecting = Detecting)) by done. cbn.
  rewrite confirm_short_detecting by done.
  destruct (Z.max required 1 <=? _) eqn:Hspan.
  { apply Z.leb_le in Hspan. destruct (baseline =? 0) eqn:Hb; cbn; intros [= <- <-]; cbn; [done|].
    apply Z.eqb_neq in Hb. repeat split; try done; lia. }
  apply Z.leb_gt in Hspan.
  case_match; [by intros [= <- <-]|]. case_match eqn:Hmono; [by intros [= <- <-]|].
  apply orb_false_iff in Hmono as [[Hm%Z.leb_gt _]%orb_false_iff _].
  destruct (checked_sub _ _) as [d|] eqn:Hd; cbn; [|by intros [= <- <-]].
  apply checked_sub_Some in Hd as [-> _].
  destruct (checked_add _ _ _) as [o|] eqn:Ho; [|by intros [= <- <-]].
  apply checked_add_Some in Ho as [-> _].
  destruct (Z.max required 1 <=? _) eqn:Hspan'; [|by intros [= <- <-]].
  apply Z.leb_le in Hspan'. rewrite confirm_short_detecting by done.
  destruct (baseline =? 0) eqn:Hb; cbn; intros [= <- <-]; cbn; [done|].
  apply Z.eqb_neq in Hb. repeat split; done || lia.
Qed.

Module EpisodeExample.

Definition block_at (number : Z) : BlockRef := mkBlockRef number number (number - 1) (12 * number) 0.

Definition initial : RateSignalEpisode :=
  mkRateSignalEpisode 1 2 3 Detecting None Portfolio (block_at 10) None (Some (block_at 10)) 1
    0 0 {[ 5 ]} {[ 5 ]} {[ 5 ]} {[ 6 ]} 0 0 0 0 0 [] 100 200.

Definition started : RateSignalEpisode :=
  match @start sum_keccak 2 3 Portfolio (block_at 10) 0 0 {[ 5 ]} {[ 5 ]} {[ 5 ]} {[ 6 ]} 100 200
  with Ok e => e | Err _ => initial end.

Definition armed : RateSignalEpisode :=
  fst (observe_short_confirmation started (block_at 12) 3 1000).

Lemma started_reachable : @episode_reachable sum_keccak started.
Proof.
  apply (@reachable_start sum_keccak 2 3 Portfolio (block_at 10) 0 0 {[ 5 ]} {[ 5 ]} {[ 5 ]}
           {[ 6 ]} 100 200). vm_compute. reflexivity.
Defined.

Lemma armed_reachable : @episode_reachable sum_keccak armed.
Proof.
  apply (@reachable_step sum_keccak started); [exact started_reachable|].
  apply step_observe. split; vm_compute; congruence.
Defined.

Lemma armed_wf : episode_wf armed.
Proof.
  apply (episode_step_wf started); [|apply step_observe; split; vm_compute; congruence].
  apply (@start_wf sum_keccak 2 3 Portfolio (block_at 10) 0 0 {[ 5 ]} {[ 5 ]} {[ 5 ]} {[ 6 ]}
           100 200). vm_compute. reflexivity.
Qed.

Lemma episode_reachable_invariant_witness :
  re_state armed = Immediate /\ re_baseline_desired_movement armed = 1000 /\ episode_wf armed.
Proof.
  split; [vm_compute; reflexivity|]. split; [vm_compute; reflexivity|].
  apply (@episode_reachable_invariant sum_keccak). exact armed_reachable.
Defined.

Lemma movement_round_trips_witness :
  release_pending (fst (reserve_pending armed 400)) 400 = (armed, Ok tt).
Proof.
  destruct (movement_round_trips armed 400 armed_wf) as [_ Hr];
    [left; vm_compute; reflexivity|lia|].
  apply (Hr (fst (reserve_pending armed 400))). vm_compute. reflexivity.
Defined.

Lemma short_confirmation_sound_witness :
  re_state armed = Immediate /\ re_immediate_budget armed = 1000 /\
  re_consecutive_observations armed = 3.
Proof.
  pose proof (short_confirmation_sound started (block_at 12) 3 1000 armed (Ok true)
    ltac:(vm_compute; reflexivity) ltac:(vm_compute; reflexivity)) as Hs.
  destruct Hs as (H1 & _ & _ & H2 & _ & _ & H3). split; [exact H1|]. split; [exact H2|].
  apply H3. vm_compute. reflexivity.
Defined.

End EpisodeExample.
