(* ===== verification/Models.v ===== *)
(** * Durable records

    The records of [storage/models.rs] with the transaction lifecycle graph,
    and the data (not the replay) of [state/topology.rs] and of the top-K
    strategy memory that the durable state stores. *)
From Stdlib Require Import ZArith Lia List Bool String.
From stdpp Require Import base list gmap sets.
From S2P Require Import Prelude.
From S2P Require Import Domain.
From S2P Require Import Episodes.
Open Scope Z_scope.

(** ** Topology and strategy memory *)

Record AdapterTopology : Type := mkAdapterTopology {
  at_first_seen_block : Z;
  at_removed_at_block : option Z;
  at_currently_enabled : bool;
  at_current_market_ids : list MarketId;
  at_historical_market_ids : gset MarketId;
  at_sync_required_market_ids : gset MarketId;
  at_observed_external_donation_shares : gmap MarketId Z;
}.

Record CapIdDataEntry : Type := mkCapIdDataEntry {
  ce_id_data : Bytes;
  ce_first_seen_block : Z;
  ce_last_seen_block : Z;
}.

Record ConfiguredPositionTopology : Type := mkConfiguredPositionTopology {
  cp_adapter : AdapterAddress;
  cp_market_id : MarketId;
}.

Record TopologyIndex : Type := mkTopologyIndex {
  ti_vault : VaultAddress;
  ti_adapters : gmap AdapterAddress AdapterTopology;
  ti_cap_id_data : gmap CapId CapIdDataEntry;
  ti_pending_operations : gmap B256 PendingAdminOperation;
  ti_configured_positions : gmap PositionKey ConfiguredPositionTopology;
  ti_receive_shares_gate : Address;
  ti_send_shares_gate : Address;
  ti_receive_assets_gate : Address;
  ti_send_assets_gate : Address;
  ti_performance_fee_recipient : Address;
  ti_management_fee_recipient : Address;
}.

Record TopKApyMemory : Type := mkTopKApyMemory {
  tk_last_observed_block : Z;
  tk_last_observed_timestamp : Z;
  tk_generation : Z;
  tk_selected_markets : list MarketId;
  tk_smoothed_rate_by_market : gmap MarketId Z;
  tk_pending_selected_markets : list MarketId;
  tk_pending_selection_since_timestamp : option Z;
  tk_last_reconciled_rebalance_timestamp : Z;
}.

(** ** Canonical chain records *)

Record CanonicalBlockRecord : Type := mkCanonicalBlockRecord {
  cb_chain_id : Z;
  cb_block : BlockRef;
}.

Record CanonicalLogRecord : Type := mkCanonicalLogRecord {
  cl_chain_id : Z;
  cl_block_number : Z;
  cl_block_hash : B256;
  cl_transaction_hash : B256;
  cl_transaction_index : Z;
  cl_log_index : Z;
  cl_address : Address;
  cl_topics : option B256 * option B256 * option B256 * option B256;
  cl_data : Bytes;
}.
#[global] Instance CanonicalLogRecord_eq_dec : EqDecision CanonicalLogRecord.
Proof. solve_decision. Defined.

Record CanonicalReceiptRecord : Type := mkCanonicalReceiptRecord {
  cr_chain_id : Z;
  cr_transaction_hash : B256;
  cr_block_number : Z;
  cr_block_hash : B256;
  cr_transaction_index : Z;
  cr_status : option Z;
  cr_gas_used : Z;
  cr_logs : list CanonicalLogRecord;
}.
#[global] Instance CanonicalReceiptRecord_eq_dec : EqDecision CanonicalReceiptRecord.
Proof. solve_decision. Defined.

(** ** Expected actions and evidence *)

Inductive ExpectedActionKind : Type := ExpectAllocate | ExpectDeallocate.
#[global] Instance ExpectedActionKind_eq_dec : EqDecision ExpectedActionKind.
Proof. solve_decision. Defined.

Inductive ExpectedAdapterKind : Type := DirectMarket | ExpectedMorphoVaultV1Idle.
#[global] Instance ExpectedAdapterKind_eq_dec : EqDecision ExpectedAdapterKind.
Proof. solve_decision. Defined.

Record ExpectedActionRecord : Type := mkExpectedActionRecord {
  ea_kind : ExpectedActionKind;
  ea_adapter_kind : ExpectedAdapterKind;
  ea_position : PositionKey;
  ea_adapter : AdapterAddress;
  ea_intermediary : option Address;
  ea_market : MarketId;
  ea_requested_assets : Z;
  ea_changed_shares : Z;
  ea_expected_assets_after : Z;
  ea_returned_cap_ids : list B256;
  ea_allocation_change : Z;
  ea_positive_loss_assets : Z;
}.
#[global] Instance ExpectedActionRecord_eq_dec : EqDecision ExpectedActionRecord.
Proof. solve_decision. Defined.

Record ConformanceRecord : Type := mkConformanceRecord {
  cf_transaction_id : TransactionId;
  cf_transaction_hash : B256;
  cf_block_number : Z;
  cf_block_hash : B256;
  cf_action_count : Z;
  cf_movement_assets : Z;
  cf_positive_loss_assets : Z;
  cf_report_hash : B256;
  cf_validated_at : Z;
}.

Record ReconciliationRecord : Type := mkReconciliationRecord {
  rc_transaction_id : TransactionId;
  rc_snapshot_hash : B256;
  rc_block : BlockRef;
  rc_current_rate_spread : Z;
  rc_service_constraints_met : bool;
  rc_next_plan_needed : bool;
  rc_pending_deployment_resolved : bool;
  rc_report_hash : B256;
  rc_reconciled_at : Z;
}.

Record FinalPreflightRecord : Type := mkFinalPreflightRecord {
  fp_preflight_id : B256;
  fp_plan_id : PlanId;
  fp_head : BlockRef;
  fp_simulation_before_hash : B256;
  fp_simulation_after_hash : B256;
  fp_event_cursor_number : Z;
  fp_calldata_hash : B256;
  fp_gas_estimate : Z;
  fp_signed_gas_limit : Z;
  fp_expected_actions : list ExpectedActionRecord;
  fp_completed_monotonic_nanos : Z;
  fp_created_at : Z;
}.
#[global] Instance FinalPreflightRecord_eq_dec : EqDecision FinalPreflightRecord.
Proof. solve_decision. Defined.

(** ** Transaction lifecycle *)

Inductive TransactionState : Type :=
  | NonceReserved
  | AbortedBeforeSigning
  | Signed
  | Submitted
  | Replaced
  | CancellationSubmitted
  | Included
  | Confirmed
  | Reverted
  | Orphaned
  | ConformanceValidated
  | Reconciled
  | Failed
  | ForeignNonceConsumed
  | Cancelled
  | ReplacementSigned
  | CancellationSigned
  | ReconciliationPending.
#[global] Instance TransactionState_eq_dec : EqDecision TransactionState.
Proof. solve_decision. Defined.

Definition is_unresolved (s : TransactionState) : bool :=
  match s with
  | NonceReserved | Signed | Submitted | Replaced | ReplacementSigned | CancellationSigned
  | CancellationSubmitted | Included | Confirmed | Orphaned | ConformanceValidated
  | ForeignNonceConsumed => true
  | _ => false
  end.

Definition requires_reconciliation (s : TransactionState) : bool :=
  match s with ConformanceValidated | ReconciliationPending => true | _ => false end.

Definition is_active_lifecycle (s : TransactionState) : bool :=
  is_unresolved s || match s with ReconciliationPending => true | _ => false end.

Definition permits (s next : TransactionState) : bool :=
  match s with
  | NonceReserved =>
      match next with AbortedBeforeSigning | Signed | Failed => true | _ => false end
  | Signed =>
      match next with
      | Submitted | CancellationSigned | CancellationSubmitted | ForeignNonceConsumed
      | Failed => true
      | _ => false
      end
  | Submitted =>
      match next with
      | ReplacementSigned | CancellationSigned | Replaced | CancellationSubmitted | Included
      | Reverted | ForeignNonceConsumed | Failed => true
      | _ => false
      end
  | Replaced =>
      match next with
      | ReplacementSigned | CancellationSigned | Replaced | CancellationSubmitted | Included
      | Reverted | Orphaned | ForeignNonceConsumed | Failed => true
      | _ => false
      end
  | CancellationSubmitted =>
      match next with
      | Included | Reverted | ForeignNonceConsumed | Failed | Cancelled => true
      | _ => false
      end
  | ReplacementSigned => match next with Replaced | Failed => true | _ => false end
  | CancellationSigned => match next with CancellationSubmitted | Failed => true | _ => false end
  | Included =>
      match next with Confirmed | Reverted | Orphaned | Failed => true | _ => false end
  | Confirmed => match next with ConformanceValidated | Failed => true | _ => false end
  | Orphaned =>
      match next with
      | Submitted | CancellationSigned | CancellationSubmitted | Included | Reverted
      | ForeignNonceConsumed | Failed => true
      | _ => false
      end
  | ConformanceValidated => match next with Reconciled | Failed => true | _ => false end
  | ReconciliationPending => match next with Reconciled | Failed => true | _ => false end
  | AbortedBeforeSigning | Reverted | Reconciled | Failed | Cancelled
  | ForeignNonceConsumed => false
  end.

Record NonceReservation : Type := mkNonceReservation {
  nr_transaction_id : TransactionId;
  nr_plan_id : option PlanId;
  nr_vault : VaultAddress;
  nr_signer : Address;
  nr_nonce : Z;
  nr_calldata : Bytes;
  nr_calldata_hash : B256;
  nr_max_fee_per_gas : Z;
  nr_max_priority_fee_per_gas : Z;
  nr_gas_limit : Z;
  nr_movement_assets : Z;
  nr_created_block : Z;
  nr_created_at : Z;
}.

Inductive RateMovementReservationState : Type :=
  | MovementPending
  | MovementReleased
  | MovementConfirmed.
#[global] Instance RateMovementReservationState_eq_dec : EqDecision RateMovementReservationState.
Proof. solve_decision. Defined.

Record RateMovementReservationRecord : Type := mkRateMovementReservationRecord {
  rm_reservation_id : B256;
  rm_transaction_id : TransactionId;
  rm_plan_id : PlanId;
  rm_episode_id : EpisodeId;
  rm_movement_assets : Z;
  rm_budget_before : Z;
  rm_budget_after : Z;
  rm_state : RateMovementReservationState;
}.

Record SignedTransactionRecord : Type := mkSignedTransactionRecord {
  st_transaction_id : TransactionId;
  st_transaction_hash : B256;
  st_raw_signed_transaction : Bytes;
  st_updated_at : Z;
}.

Inductive TransactionAttemptKind : Type := Initial | Replacement | Cancellation.
#[global] Instance TransactionAttemptKind_eq_dec : EqDecision TransactionAttemptKind.
Proof. solve_decision. Defined.

Record SignedAttemptRecord : Type := mkSignedAttemptRecord {
  sa_transaction_id : TransactionId;
  sa_kind : TransactionAttemptKind;
  sa_transaction_hash : B256;
  sa_raw_signed_transaction : Bytes;
  sa_max_fee_per_gas : Z;
  sa_max_priority_fee_per_gas : Z;
  sa_signed_at : Z;
  sa_signed_block : Z;
  sa_broadcast_at : option Z;
  sa_last_broadcast_block : option Z;
}.

Record TransactionTransition : Type := mkTransactionTransition {
  tt_transaction_id : TransactionId;
  tt_expected_state : TransactionState;
  tt_next_state : TransactionState;
  tt_transaction_hash : option B256;
  tt_submitted_at : option Z;
  tt_included_block : option Z;
  tt_included_block_hash : option B256;
  tt_updated_at : Z;
}.

(** ** Recovery views *)

Record PendingConformance : Type := mkPendingConformance {
  pc_reservation : NonceReservation;
  pc_known_transaction_hashes : list B256;
  pc_included_block : Z;
  pc_included_block_hash : B256;
  pc_inclusion_head : BlockRef;
  pc_snapshot : ExactVaultSnapshot;
  pc_plan : V2Plan;
  pc_expected_actions : list ExpectedActionRecord;
}.

Record PendingReconciliationContext : Type := mkPendingReconciliationContext {
  px_plan_reason : PlanReason;
  px_rate_movement : option RateMovementReservationRecord;
  px_rate_episode : option RateSignalEpisode;
}.

Record UnresolvedTransaction : Type := mkUnresolvedTransaction {
  un_transaction_id : TransactionId;
  un_vault : VaultAddress;
  un_signer : Address;
  un_nonce : Z;
  un_state : TransactionState;
  un_transaction_hash : option B256;
  un_included_block : option Z;
  un_included_block_hash : option B256;
  un_raw_signed_transaction : option Bytes;
  un_calldata : Bytes;
  un_calldata_hash : B256;
  un_known_transaction_hashes : list B256;
  un_current_max_fee_per_gas : Z;
  un_current_max_priority_fee_per_gas : Z;
  un_original_max_fee_per_gas : Z;
  un_original_max_priority_fee_per_gas : Z;
  un_gas_limit : Z;
  un_plan : option V2Plan;
  un_created_block : Z;
  un_last_attempt_block : Z;
  un_last_broadcast_block : option Z;
  un_last_attempt_kind : TransactionAttemptKind;
}.

Record PendingReconciliationTransaction : Type := mkPendingReconciliationTransaction {
  pr_transaction_id : TransactionId;
  pr_vault : VaultAddress;
  pr_signer : Address;
  pr_nonce : Z;
  pr_state : TransactionState;
  pr_transaction_hash : option B256;
  pr_included_block : Z;
  pr_included_block_hash : B256;
}.

Record RewindResult : Type := mkRewindResult {
  rw_blocks_orphaned : Z;
  rw_logs_orphaned : Z;
  rw_transactions_orphaned : Z;
}.

(** ** Storage errors *)

Inductive StorageError : Type :=
  | Io
  | Json
  | FormatVersion (actual expected : Z)
  | DatabaseLocked
  | ActorStopped
  | CommandTimeout
  | InputTooLarge (kind : string) (actual maximum : Z)
  | ActorPanicked
  | Invariant (message : string)
  | NumericRange (field : string)
  | UnresolvedLane (signer : Address)
  | MultipleUnresolved (signer : Address)
  | InvalidTransition (from to : TransactionState)
  | StaleTransition.

(** ** The lifecycle graph *)

Inductive lifecycle_path : TransactionState -> TransactionState -> Prop :=
  | path_refl s : lifecycle_path s s
  | path_step s t u : permits s t = true -> lifecycle_path t u -> lifecycle_path s u.
