(* ===== verification/Storage.v ===== *)
(** * Durable state

    The single-writer state of [storage/actor.rs] and its mutations. A command
    runs its mutation on a clone of the state which [commit] installs only on
    success, so a mutation is a function to [result StorageError]: a failing
    one leaves the durable state as it was. *)
From Stdlib Require Import ZArith Lia List Bool String.
From stdpp Require Import base list gmap sets sorting.
From S2P Require Import Prelude.
From S2P Require Import Domain.
From S2P Require Import Episodes.
From S2P Require Import Models.
Open Scope Z_scope.

Record TimedSnapshot : Type := mkTimedSnapshot {
  ts_snapshot : ExactVaultSnapshot;
  ts_created_at : Z;
}.

Record TimedPlan : Type := mkTimedPlan {
  tp_plan : V2Plan;
  tp_created_at : Z;
}.

Record TopologyRevision : Type := mkTopologyRevision {
  tr_topology : TopologyIndex;
  tr_block : BlockRef;
}.

Record TimedEpisode : Type := mkTimedEpisode {
  te_episode : RateSignalEpisode;
  te_updated_at : Z;
}.

Record TimedTopKApyMemory : Type := mkTimedTopKApyMemory {
  tm_vault : VaultAddress;
  tm_memory : TopKApyMemory;
  tm_updated_at : Z;
}.

Record TransactionRow : Type := mkTransactionRow {
  tx_reservation : NonceReservation;
  tx_state : TransactionState;
  tx_transaction_hash : option B256;
  tx_raw_signed_transaction : option Bytes;
  tx_submitted_at : option Z;
  tx_included_block : option Z;
  tx_included_block_hash : option B256;
  tx_updated_at : Z;
}.

Record JsonState : Type := mkJsonState {
  js_format_version : Z;
  js_revision : Z;
  js_canonical_blocks : list CanonicalBlockRecord;
  js_canonical_logs : list CanonicalLogRecord;
  js_canonical_receipts : list CanonicalReceiptRecord;
  js_chain_cursors : gmap Z BlockRef;
  js_exact_snapshots : list TimedSnapshot;
  js_plans : list TimedPlan;
  js_final_preflights : list FinalPreflightRecord;
  js_transactions : list TransactionRow;
  js_rate_movement_reservations : list RateMovementReservationRecord;
  js_transaction_attempts : list SignedAttemptRecord;
  js_conformance_records : list ConformanceRecord;
  js_reconciliation_records : list ReconciliationRecord;
  js_topology_history : list TopologyRevision;
  js_rate_episodes : list TimedEpisode;
  js_top_k_apy_memory : list TimedTopKApyMemory;
}.

Definition JSON_FORMAT_VERSION : Z := 4.
Definition MAX_PENDING_RECONCILIATIONS_PER_LOAD : Z := 1024.

Definition JsonState_default : JsonState :=
  mkJsonState JSON_FORMAT_VERSION 0 [] [] [] ∅ [] [] [] [] [] [] [] [] [] [] [].

(** ** Field updates *)

Definition with_chain (s : JsonState) blocks logs receipts cursors : JsonState :=
  mkJsonState (js_format_version s) (js_revision s) blocks logs receipts cursors
    (js_exact_snapshots s) (js_plans s) (js_final_preflights s) (js_transactions s)
    (js_rate_movement_reservations s) (js_transaction_attempts s) (js_conformance_records s)
    (js_reconciliation_records s) (js_topology_history s) (js_rate_episodes s)
    (js_top_k_apy_memory s).

Definition with_lanes (s : JsonState) transactions movements attempts episodes : JsonState :=
  mkJsonState (js_format_version s) (js_revision s) (js_canonical_blocks s)
    (js_canonical_logs s) (js_canonical_receipts s) (js_chain_cursors s)
    (js_exact_snapshots s) (js_plans s) (js_final_preflights s) transactions movements attempts
    (js_conformance_records s) (js_reconciliation_records s) (js_topology_history s) episodes
    (js_top_k_apy_memory s).

Definition with_evidence (s : JsonState) snapshots plans preflights conformance reconciliation
    topology memory : JsonState :=
  mkJsonState (js_format_version s) (js_revision s) (js_canonical_blocks s)
    (js_canonical_logs s) (js_canonical_receipts s) (js_chain_cursors s) snapshots plans
    preflights (js_transactions s) (js_rate_movement_reservations s)
    (js_transaction_attempts s) conformance reconciliation topology (js_rate_episodes s) memory.

Definition with_transactions (s : JsonState) transactions : JsonState :=
  with_lanes s transactions (js_rate_movement_reservations s) (js_transaction_attempts s)
    (js_rate_episodes s).
Definition with_movement_records (s : JsonState) movements : JsonState :=
  with_lanes s (js_transactions s) movements (js_transaction_attempts s) (js_rate_episodes s).
Definition with_attempts (s : JsonState) attempts : JsonState :=
  with_lanes s (js_transactions s) (js_rate_movement_reservations s) attempts
    (js_rate_episodes s).
Definition with_episodes (s : JsonState) episodes : JsonState :=
  with_lanes s (js_transactions s) (js_rate_movement_reservations s)
    (js_transaction_attempts s) episodes.
Definition with_snapshots (s : JsonState) snapshots : JsonState :=
  with_evidence s snapshots (js_plans s) (js_final_preflights s) (js_conformance_records s)
    (js_reconciliation_records s) (js_topology_history s) (js_top_k_apy_memory s).
Definition with_plans (s : JsonState) plans : JsonState :=
  with_evidence s (js_exact_snapshots s) plans (js_final_preflights s)
    (js_conformance_records s) (js_reconciliation_records s) (js_topology_history s)
    (js_top_k_apy_memory s).
Definition with_preflights (s : JsonState) preflights : JsonState :=
  with_evidence s (js_exact_snapshots s) (js_plans s) preflights (js_conformance_records s)
    (js_reconciliation_records s) (js_topology_history s) (js_top_k_apy_memory s).
Definition with_conformance (s : JsonState) conformance : JsonState :=
  with_evidence s (js_exact_snapshots s) (js_plans s) (js_final_preflights s) conformance
    (js_reconciliation_records s) (js_topology_history s) (js_top_k_apy_memory s).
Definition with_reconciliation (s : JsonState) reconciliation : JsonState :=
  with_evidence s (js_exact_snapshots s) (js_plans s) (js_final_preflights s)
    (js_conformance_records s) reconciliation (js_topology_history s) (js_top_k_apy_memory s).

(** [iter_mut().find(p)] followed by a write through the found reference. *)
Fixpoint update_first {A} (p : A -> bool) (f : A -> A) (l : list A) : list A :=
  match l with
  | [] => []
  | x :: l => if p x then f x :: l else x :: update_first p f l
  end.

(** [windows(2).any(|pair| !(first < second))]. *)
Fixpoint strictly_increasing {A} (key : A -> Z) (l : list A) : bool :=
  match l with
  | x :: (y :: _) as rest => (key x <? key y) && strictly_increasing key rest
  | _ => true
  end.

Definition require {E} (b : bool) (e : E) : result E unit := if b then Ok tt else Err e.

Definition has_id (id : TransactionId) (row : TransactionRow) : bool :=
  nr_transaction_id (tx_reservation row) =? id.
Definition has_episode (id : EpisodeId) (entry : TimedEpisode) : bool :=
  re_episode_id (te_episode entry) =? id.
Definition has_plan (id : PlanId) (entry : TimedPlan) : bool := pl_plan_id (tp_plan entry) =? id.

Definition row_with_state (row : TransactionRow) (state : TransactionState) (hash : option B256)
    (raw : option Bytes) (updated_at : Z) : TransactionRow :=
  mkTransactionRow (tx_reservation row) state hash raw (tx_submitted_at row)
    (tx_included_block row) (tx_included_block_hash row) updated_at.

(** ** Canonical blocks and receipts *)

Definition canonical_at (s : JsonState) (chain_id number : Z) (hash : B256) : bool :=
  existsb (fun record => (cb_chain_id record =? chain_id)
                         && (blk_number (cb_block record) =? number)
                         && (blk_hash (cb_block record) =? hash)) (js_canonical_blocks s).

Definition log_of_receipt (receipt : CanonicalReceiptRecord) (log : CanonicalLogRecord) : bool :=
  (cl_chain_id log =? cr_chain_id receipt) && (cl_block_number log =? cr_block_number receipt)
  && (cl_block_hash log =? cr_block_hash receipt)
  && (cl_transaction_hash log =? cr_transaction_hash receipt)
  && (cl_transaction_index log =? cr_transaction_index receipt).

Definition apply_block (s : JsonState) (block : CanonicalBlockRecord)
    (logs : list CanonicalLogRecord) (receipts : list CanonicalReceiptRecord)
    : result StorageError JsonState :=
  let chain := cb_chain_id block in
  let number := blk_number (cb_block block) in
  let hash := blk_hash (cb_block block) in
  _ ← require (forallb (fun log => (cl_chain_id log =? chain) && (cl_block_number log =? number)
                                   && (cl_block_hash log =? hash)) logs)
        (Invariant "canonical log does not belong to block");
  _ ← require (forallb (fun receipt => (cr_chain_id receipt =? chain)
                                       && (cr_block_number receipt =? number)
                                       && (cr_block_hash receipt =? hash)
                                       && forallb (log_of_receipt receipt) (cr_logs receipt))
                 receipts)
        (Invariant "canonical receipt does not belong to block");
  _ ← require (strictly_increasing cr_transaction_index receipts)
        (Invariant "canonical receipts are not strictly ordered");
  Ok (with_chain s
        (List.filter (fun b => negb (cb_chain_id b =? chain)
                               || negb (blk_number (cb_block b) =? number))
           (js_canonical_blocks s) ++ [block])
        (List.filter (fun l => negb (cl_chain_id l =? chain) || negb (cl_block_number l =? number))
           (js_canonical_logs s) ++ logs)
        (List.filter (fun r => negb (cr_chain_id r =? chain) || negb (cr_block_number r =? number))
           (js_canonical_receipts s) ++ receipts)
        (<[ chain := cb_block block ]> (js_chain_cursors s))).

Definition persist_canonical_receipt (s : JsonState) (receipt : CanonicalReceiptRecord)
    : result StorageError JsonState :=
  _ ← require (canonical_at s (cr_chain_id receipt) (cr_block_number receipt)
                 (cr_block_hash receipt)
               && forallb (log_of_receipt receipt) (cr_logs receipt)
               && strictly_increasing cl_log_index (cr_logs receipt))
        (Invariant "direct receipt is not bound to a canonical block");
  match find (fun existing => cr_transaction_hash existing =? cr_transaction_hash receipt)
          (js_canonical_receipts s) with
  | Some existing =>
      if bool_decide (existing = receipt) then Ok s
      else Err (Invariant "canonical receipt identity changed")
  | None =>
      _ ← require (negb (existsb (fun existing =>
                     (cr_chain_id existing =? cr_chain_id receipt)
                     && (cr_block_number existing =? cr_block_number receipt)
                     && (cr_transaction_index existing =? cr_transaction_index receipt))
                     (js_canonical_receipts s)))
            (Invariant "canonical receipt transaction index is duplicated");
      Ok (with_chain s (js_canonical_blocks s) (js_canonical_logs s)
            (js_canonical_receipts s ++ [receipt]) (js_chain_cursors s))
  end.

(** ** Plans, preflights and snapshots *)

Definition persist_snapshot (s : JsonState) (snapshot : ExactVaultSnapshot) (created_at : Z)
    : JsonState :=
  if forallb (fun entry => negb (ev_snapshot_hash (ts_snapshot entry)
                                 =? ev_snapshot_hash snapshot)) (js_exact_snapshots s)
  then with_snapshots s (js_exact_snapshots s ++ [mkTimedSnapshot snapshot created_at])
  else s.

Definition persist_plan (s : JsonState) (plan : V2Plan) (created_at : Z)
    : result StorageError JsonState :=
  _ ← require (existsb (fun entry =>
        let snapshot := ts_snapshot entry in
        let context := ev_context snapshot in
        let block := ctx_block (pl_snapshot plan) in
        (pv_vault (ev_parent snapshot) =? pl_vault plan)
        && (blk_number (ctx_block context) =? blk_number block)
        && (blk_hash (ctx_block context) =? blk_hash block)
        && (ctx_static_config_revision context =? pl_config_revision plan)
        && (ctx_dynamic_topology_revision context =? pl_topology_revision plan))
        (js_exact_snapshots s))
        (Invariant "plan references a snapshot that is not durable");
  match find (has_plan (pl_plan_id plan)) (js_plans s) with
  | Some existing =>
      if bool_decide (tp_plan existing = plan) then Ok s
      else Err (Invariant "conflicting plan identity")
  | None => Ok (with_plans s (js_plans s ++ [mkTimedPlan plan created_at]))
  end.

Definition persist_final_preflight (s : JsonState) (record : FinalPreflightRecord)
    : result StorageError JsonState :=
  _ ← require (existsb (has_plan (fp_plan_id record)) (js_plans s))
        (Invariant "preflight references unknown plan");
  match find (fun entry => fp_preflight_id entry =? fp_preflight_id record)
          (js_final_preflights s) with
  | Some existing =>
      if bool_decide (existing = record) then Ok s
      else Err (Invariant "conflicting preflight identity")
  | None => Ok (with_preflights s (js_final_preflights s ++ [record]))
  end.

Definition persist_episode (s : JsonState) (episode : RateSignalEpisode) (updated_at : Z)
    : result StorageError JsonState :=
  if negb (bool_decide (re_state episode = Complete))
     && existsb (fun entry =>
          (re_vault (te_episode entry) =? re_vault episode)
          && (re_rate_group (te_episode entry) =? re_rate_group episode)
          && negb (bool_decide (re_state (te_episode entry) = Complete))
          && negb (re_episode_id (te_episode entry) =? re_episode_id episode))
          (js_rate_episodes s)
  then Err (Invariant "multiple active rate episodes")
  else
    let timed := mkTimedEpisode episode updated_at in
    Ok (with_episodes s
          (if existsb (has_episode (re_episode_id episode)) (js_rate_episodes s)
           then update_first (has_episode (re_episode_id episode)) (fun _ => timed)
                  (js_rate_episodes s)
           else js_rate_episodes s ++ [timed])).

(** ** Nonce lanes and signed attempts *)

Definition owns_lane (signer : Address) (row : TransactionRow) : bool :=
  (nr_signer (tx_reservation row) =? signer) && is_unresolved (tx_state row).

Section Lanes.
Context `{HK : Keccak}.

Definition reserve_nonce (s : JsonState) (reservation : NonceReservation)
    : result StorageError JsonState :=
  _ ← require (nr_calldata_hash reservation =? keccak256 (nr_calldata reservation))
        (Invariant "nonce reservation calldata hash mismatch");
  _ ← require (negb (existsb (owns_lane (nr_signer reservation)) (js_transactions s)))
        (UnresolvedLane (nr_signer reservation));
  _ ← require (negb (existsb (has_id (nr_transaction_id reservation)) (js_transactions s)))
        (Invariant "duplicate transaction identity");
  Ok (with_transactions s
        (js_transactions s ++
         [mkTransactionRow reservation NonceReserved None None None None None
            (nr_created_at reservation)])).

Definition reserve_rate_movement_and_nonce (s : JsonState) (reservation : NonceReservation)
    (episode_id : EpisodeId) (movement_assets : Z)
    : result StorageError (JsonState * RateMovementReservationRecord) :=
  plan_id ← ok_or (nr_plan_id reservation) (Invariant "rate reservation has no plan");
  plan ← ok_or (find (has_plan plan_id) (js_plans s))
           (Invariant "rate reservation plan is not durable");
  _ ← require (bool_decide (pl_episode_id (tp_plan plan) = Some episode_id)
               && (pp_movement_assets (pl_projection (tp_plan plan)) =? movement_assets)
               && negb (movement_assets =? 0))
        (Invariant "rate reservation differs from durable plan");
  _ ← require (negb (existsb (fun existing =>
          (rm_transaction_id existing =? nr_transaction_id reservation)
          || (rm_plan_id existing =? plan_id)
          || bool_decide (rm_state existing = MovementPending)
             && (rm_episode_id existing =? episode_id)) (js_rate_movement_reservations s)))
        (Invariant "rate movement is already reserved");
  entry ← ok_or (find (has_episode episode_id) (js_rate_episodes s))
            (Invariant "rate episode is not durable");
  budget_before ← map_err (fun _ => Invariant "rate episode budget is invalid")
                    (available_budget (te_episode entry));
  episode ← map_err (fun _ => Invariant "rate episode budget is insufficient")
              (committed (reserve_pending (te_episode entry) movement_assets));
  budget_after ← map_err (fun _ => Invariant "rate episode budget is invalid")
                   (available_budget episode);
  let record := mkRateMovementReservationRecord
    (keccak256 (be_bytes 32 (nr_transaction_id reservation) ++ be_bytes 32 plan_id
                ++ be_bytes 32 episode_id))
    (nr_transaction_id reservation) plan_id episode_id movement_assets budget_before
    budget_after MovementPending in
  let s := with_episodes s (update_first (has_episode episode_id)
             (fun entry => mkTimedEpisode episode (te_updated_at entry)) (js_rate_episodes s)) in
  s ← reserve_nonce s reservation;
  Ok (with_movement_records s (js_rate_movement_reservations s ++ [record]), record).

Definition persist_signed (s : JsonState) (signed : SignedTransactionRecord)
    : result StorageError JsonState :=
  let id := st_transaction_id signed in
  _ ← require (negb (bool_decide (st_raw_signed_transaction signed = [])))
        (Invariant "signed transaction bytes are empty");
  _ ← require (keccak256 (st_raw_signed_transaction signed) =? st_transaction_hash signed)
        (Invariant "signed transaction hash mismatch");
  row ← ok_or (find (has_id id) (js_transactions s)) StaleTransition;
  _ ← require (bool_decide (tx_state row = NonceReserved)) StaleTransition;
  let reservation := tx_reservation row in
  Ok (with_lanes s
        (update_first (has_id id) (fun row =>
           row_with_state row Signed (Some (st_transaction_hash signed))
             (Some (st_raw_signed_transaction signed)) (st_updated_at signed)) (js_transactions s))
        (js_rate_movement_reservations s)
        (js_transaction_attempts s ++
         [mkSignedAttemptRecord id Initial (st_transaction_hash signed)
            (st_raw_signed_transaction signed) (nr_max_fee_per_gas reservation)
            (nr_max_priority_fee_per_gas reservation) (st_updated_at signed)
            (nr_created_block reservation) None None])
        (js_rate_episodes s)).

Definition signed_state (kind : TransactionAttemptKind) (state : TransactionState)
    : option TransactionState :=
  match kind, state with
  | Replacement, (Submitted | Replaced) => Some ReplacementSigned
  | Cancellation, (Signed | Submitted | Replaced | Orphaned) => Some CancellationSigned
  | _, _ => None
  end.

Definition persist_signed_attempt (s : JsonState) (attempt : SignedAttemptRecord)
    : result StorageError JsonState :=
  let id := sa_transaction_id attempt in
  _ ← require (negb (bool_decide (sa_kind attempt = Initial)))
        (Invariant "additional signed attempt cannot be initial");
  _ ← require (negb (bool_decide (sa_raw_signed_transaction attempt = []))
               && (keccak256 (sa_raw_signed_transaction attempt) =? sa_transaction_hash attempt)
               && bool_decide (sa_broadcast_at attempt = None))
        (Invariant "invalid signed attempt");
  _ ← require (negb (existsb (fun existing =>
                  sa_transaction_hash existing =? sa_transaction_hash attempt)
                  (js_transaction_attempts s)))
        (Invariant "duplicate signed attempt");
  row ← ok_or (find (has_id id) (js_transactions s)) StaleTransition;
  state ← ok_or (signed_state (sa_kind attempt) (tx_state row)) StaleTransition;
  Ok (with_lanes s
        (update_first (has_id id) (fun row =>
           row_with_state row state (Some (sa_transaction_hash attempt))
             (Some (sa_raw_signed_transaction attempt)) (sa_signed_at attempt))
           (js_transactions s))
        (js_rate_movement_reservations s)
        (js_transaction_attempts s ++ [attempt]) (js_rate_episodes s)).

End Lanes.

Definition is_attempt (id : TransactionId) (hash : B256) (attempt : SignedAttemptRecord) : bool :=
  (sa_transaction_id attempt =? id) && (sa_transaction_hash attempt =? hash).

Definition attempt_broadcast (attempt : SignedAttemptRecord) (at_ : Z) (block : option Z)
    : SignedAttemptRecord :=
  mkSignedAttemptRecord (sa_transaction_id attempt) (sa_kind attempt)
    (sa_transaction_hash attempt) (sa_raw_signed_transaction attempt)
    (sa_max_fee_per_gas attempt) (sa_max_priority_fee_per_gas attempt) (sa_signed_at attempt)
    (sa_signed_block attempt) (Some at_) block.

Definition record_attempt_broadcast (s : JsonState) (id : TransactionId) (hash : B256)
    (broadcast_at broadcast_block : Z) : result StorageError JsonState :=
  attempt ← ok_or (find (is_attempt id hash) (js_transaction_attempts s)) StaleTransition;
  _ ← require (negb ((broadcast_block <? sa_signed_block attempt)
                     || match sa_last_broadcast_block attempt with
                        | Some previous => broadcast_block <? previous
                        | None => false
                        end)) StaleTransition;
  Ok (with_attempts s (update_first (is_attempt id hash)
        (fun attempt => attempt_broadcast attempt broadcast_at (Some broadcast_block))
        (js_transaction_attempts s))).

(** ** Lifecycle transitions *)

Definition owned_pending (id : TransactionId) (r : RateMovementReservationRecord) : bool :=
  (rm_transaction_id r =? id) && bool_decide (rm_state r = MovementPending).

Definition owned_movement (id : TransactionId) (r : RateMovementReservationRecord) : bool :=
  rm_transaction_id r =? id.

Definition movement_with_state (r : RateMovementReservationRecord)
    (state : RateMovementReservationState) : RateMovementReservationRecord :=
  mkRateMovementReservationRecord (rm_reservation_id r) (rm_transaction_id r) (rm_plan_id r)
    (rm_episode_id r) (rm_movement_assets r) (rm_budget_before r) (rm_budget_after r) state.

Definition replace_episode (id : EpisodeId) (episode : RateSignalEpisode)
    (episodes : list TimedEpisode) : list TimedEpisode :=
  update_first (has_episode id) (fun entry => mkTimedEpisode episode (te_updated_at entry)) episodes.

Definition release_rate_movement (s : JsonState) (id : TransactionId)
    : result StorageError JsonState :=
  match List.filter (owned_pending id) (js_rate_movement_reservations s) with
  | [] => Ok s
  | [reservation] =>
      let episode_id := rm_episode_id reservation in
      entry ← ok_or (find (has_episode episode_id) (js_rate_episodes s))
                (Invariant "reserved rate episode disappeared");
      episode ← map_err (fun _ => Invariant "pending rate movement cannot be released")
                  (committed (release_pending (te_episode entry) (rm_movement_assets reservation)));
      Ok (with_lanes s (js_transactions s)
            (update_first (owned_pending id) (fun r => movement_with_state r MovementReleased)
               (js_rate_movement_reservations s))
            (js_transaction_attempts s)
            (replace_episode episode_id episode (js_rate_episodes s)))
  | _ => Err (Invariant "transaction owns multiple pending rate movements")
  end.

Definition broadcasts (state : TransactionState) : bool :=
  match state with Submitted | Replaced | CancellationSubmitted => true | _ => false end.

Definition releases_movement (state : TransactionState) : bool :=
  match state with AbortedBeforeSigning | Reverted | Cancelled | Failed => true | _ => false end.

Definition option_or {A} (a b : option A) : option A :=
  match a with Some _ => a | None => b end.

Definition transitioned (t : TransactionTransition) (row : TransactionRow) : TransactionRow :=
  mkTransactionRow (tx_reservation row) (tt_next_state t)
    (option_or (tt_transaction_hash t) (tx_transaction_hash row))
    (tx_raw_signed_transaction row)
    (option_or (tt_submitted_at t) (tx_submitted_at row))
    (option_or (tt_included_block t) (tx_included_block row))
    (option_or (tt_included_block_hash t) (tx_included_block_hash row))
    (tt_updated_at t).

Definition mark_broadcast (s : JsonState) (t : TransactionTransition)
    : result StorageError JsonState :=
  if broadcasts (tt_next_state t) then
    hash ← ok_or (tt_transaction_hash t)
             (Invariant "broadcast transition has no transaction hash");
    submitted_at ← ok_or (tt_submitted_at t)
                     (Invariant "broadcast transition has no submission timestamp");
    _ ← ok_or (find (is_attempt (tt_transaction_id t) hash) (js_transaction_attempts s))
          (Invariant "broadcast transition has no durable signed attempt");
    Ok (with_attempts s (update_first (is_attempt (tt_transaction_id t) hash)
          (fun attempt => attempt_broadcast attempt submitted_at (sa_last_broadcast_block attempt))
          (js_transaction_attempts s)))
  else Ok s.

Definition transition_transaction (s : JsonState) (t : TransactionTransition)
    : result StorageError JsonState :=
  let id := tt_transaction_id t in
  _ ← require (match tt_next_state t with ConformanceValidated | Reconciled => false
               | _ => true end)
        (Invariant "terminal validation state requires an atomic evidence record");
  _ ← require (permits (tt_expected_state t) (tt_next_state t))
        (InvalidTransition (tt_expected_state t) (tt_next_state t));
  row ← ok_or (find (has_id id) (js_transactions s)) StaleTransition;
  _ ← require (bool_decide (tx_state row = tt_expected_state t)) StaleTransition;
  s ← mark_broadcast s t;
  let s := with_transactions s (update_first (has_id id) (transitioned t) (js_transactions s)) in
  if releases_movement (tt_next_state t) then release_rate_movement s id else Ok s.

(** ** Conformance, reconciliation and post-state failure *)

Definition persist_conformance (s : JsonState) (record : ConformanceRecord)
    : result StorageError JsonState :=
  let id := cf_transaction_id record in
  _ ← require (negb ((cf_report_hash record =? 0)
                     || existsb (fun existing => cf_transaction_id existing =? id)
                          (js_conformance_records s)))
        (Invariant "invalid or duplicate conformance record");
  _ ← require (existsb (is_attempt id (cf_transaction_hash record)) (js_transaction_attempts s))
        (Invariant "conformance hash is not a durable signed attempt");
  row ← ok_or (find (has_id id) (js_transactions s)) StaleTransition;
  _ ← require (bool_decide (tx_state row = Confirmed)
               && bool_decide (tx_included_block row = Some (cf_block_number record))
               && bool_decide (tx_included_block_hash row = Some (cf_block_hash record)))
        StaleTransition;
  let s := with_transactions s (update_first (has_id id) (fun row =>
             row_with_state row ConformanceValidated (Some (cf_transaction_hash record))
               (tx_raw_signed_transaction row) (cf_validated_at record)) (js_transactions s)) in
  Ok (with_conformance s (js_conformance_records s ++ [record])).

(** The movement a conformed but failed transaction keeps: it executed. *)
Definition confirm_failed_movement (s : JsonState) (id : TransactionId)
    (expected_state : TransactionState) (plan : V2Plan) (conformance : ConformanceRecord)
    (reservation : RateMovementReservationRecord) : result StorageError JsonState :=
  let episode_id := rm_episode_id reservation in
  let movement := rm_movement_assets reservation in
  _ ← require (bool_decide (pl_episode_id plan = Some episode_id)
               && (pp_movement_assets (pl_projection plan) =? movement)
               && (cf_movement_assets conformance =? movement))
        (Invariant "conformed rate movement does not match its plan or receipt");
  entry ← ok_or (find (has_episode episode_id) (js_rate_episodes s))
            (Invariant "reserved rate episode disappeared");
  match expected_state with
  | ConformanceValidated =>
      _ ← require (bool_decide (rm_state reservation = MovementPending))
            (Invariant "new conformance failure has no pending rate movement");
      episode ← map_err (fun _ => Invariant "conformed rate movement cannot be confirmed")
                  (committed (confirm_pending (te_episode entry) movement));
      Ok (with_lanes s (js_transactions s)
            (update_first (owned_movement id) (fun r => movement_with_state r MovementConfirmed)
               (js_rate_movement_reservations s))
            (js_transaction_attempts s)
            (replace_episode episode_id episode (js_rate_episodes s)))
  | ReconciliationPending =>
      _ ← require (bool_decide (rm_state reservation = MovementConfirmed)
                   && (movement <=? re_confirmed_movement (te_episode entry)))
            (Invariant "revalidation failure lost its confirmed rate movement");
      Ok s
  | _ => Err (InvalidTransition expected_state Failed)
  end.

Definition finalize_conformed_post_state_failure (s : JsonState) (id : TransactionId)
    (expected_state : TransactionState) (updated_at : Z) : result StorageError JsonState :=
  _ ← require (requires_reconciliation expected_state && permits expected_state Failed)
        (InvalidTransition expected_state Failed);
  row ← ok_or (find (has_id id) (js_transactions s)) StaleTransition;
  _ ← require (bool_decide (tx_state row = expected_state)) StaleTransition;
  plan_id ← ok_or (nr_plan_id (tx_reservation row))
              (Invariant "conformed transaction has no plan");
  included_block ← ok_or (tx_included_block row)
                     (Invariant "conformed transaction has no inclusion block");
  included_block_hash ← ok_or (tx_included_block_hash row)
                          (Invariant "conformed transaction has no inclusion hash");
  transaction_hash ← ok_or (tx_transaction_hash row)
                       (Invariant "conformed transaction has no included attempt hash");
  timed ← ok_or (find (has_plan plan_id) (js_plans s))
            (Invariant "conformed transaction has no durable plan");
  let plan := tp_plan timed in
  _ ← require (canonical_at s (ctx_chain_id (pl_snapshot plan)) included_block
                 included_block_hash) StaleTransition;
  conformance ←
    (match List.filter (fun record => cf_transaction_id record =? id)
             (js_conformance_records s) with
     | [conformance] => Ok conformance
     | _ => Err (Invariant "post-state failure requires one conformance record")
     end);
  _ ← require ((cf_transaction_hash conformance =? transaction_hash)
               && (cf_block_number conformance =? included_block)
               && (cf_block_hash conformance =? included_block_hash))
        (Invariant "post-state failure conformance identity mismatch");
  let movements := List.filter (owned_movement id) (js_rate_movement_reservations s) in
  _ ← require (Z.of_nat (length movements) <=? 1)
        (Invariant "transaction owns multiple rate movements");
  _ ← require (Bool.eqb (bool_decide (pl_reason plan = RateRebalance))
                 (negb (bool_decide (length movements = 0%nat))))
        (Invariant "conformed plan and rate movement disagree");
  s ← (match movements with
       | reservation :: _ =>
           confirm_failed_movement s id expected_state plan conformance reservation
       | [] => Ok s
       end);
  Ok (with_transactions s (update_first (has_id id) (fun row =>
        row_with_state row Failed (tx_transaction_hash row) (tx_raw_signed_transaction row)
          updated_at) (js_transactions s))).

Definition expected_movement_state (state : TransactionState)
    : option RateMovementReservationState :=
  match state with
  | ConformanceValidated => Some MovementPending
  | ReconciliationPending => Some MovementConfirmed
  | _ => None
  end.

(** The episode a reconciliation must present for the movement it confirms. *)
Definition reconciled_episode (s : JsonState) (lifecycle_state : TransactionState)
    (expected_movement : RateMovementReservationState)
    (reservation : RateMovementReservationRecord) (confirmed : RateSignalEpisode)
    : result StorageError unit :=
  _ ← require (re_episode_id confirmed =? rm_episode_id reservation)
        (Invariant "reconciliation confirms the wrong rate episode");
  _ ← require (bool_decide (rm_state reservation = expected_movement))
        (Invariant "reconciliation lifecycle and rate movement state disagree");
  entry ← ok_or (find (has_episode (rm_episode_id reservation)) (js_rate_episodes s))
            (Invariant "reserved rate episode disappeared");
  expected ← (if bool_decide (lifecycle_state = ConformanceValidated)
              then map_err (fun _ => Invariant "rate movement cannot be confirmed")
                     (committed (confirm_pending (te_episode entry)
                        (rm_movement_assets reservation)))
              else Ok (te_episode entry));
  require (bool_decide (expected = confirmed))
    (Invariant "confirmed rate episode does not match reserved movement").

Definition persist_reconciliation (s : JsonState) (record : ReconciliationRecord)
    (snapshot : ExactVaultSnapshot) (confirmed_episode : option RateSignalEpisode)
    : result StorageError JsonState :=
  let id := rc_transaction_id record in
  _ ← require (negb ((rc_report_hash record =? 0)
                     || negb (ev_snapshot_hash snapshot =? rc_snapshot_hash record)
                     || negb (bool_decide (ctx_block (ev_context snapshot) = rc_block record))
                     || existsb (fun existing => rc_transaction_id existing =? id)
                          (js_reconciliation_records s)
                     || negb (existsb (fun existing => cf_transaction_id existing =? id)
                                (js_conformance_records s))))
        (Invariant "invalid or duplicate reconciliation record");
  _ ← require (existsb (fun canonical =>
                  (cb_chain_id canonical =? ctx_chain_id (ev_context snapshot))
                  && bool_decide (cb_block canonical = rc_block record)) (js_canonical_blocks s))
        StaleTransition;
  row ← ok_or (find (has_id id) (js_transactions s)) StaleTransition;
  let lifecycle_state := tx_state row in
  expected_movement ← ok_or (expected_movement_state lifecycle_state) StaleTransition;
  _ ← require (match tx_included_block row with
               | Some included => included <=? blk_number (rc_block record)
               | None => false
               end) StaleTransition;
  let movements := List.filter (owned_movement id) (js_rate_movement_reservations s) in
  _ ← require (Z.of_nat (length movements) <=? 1)
        (Invariant "transaction owns multiple rate movements");
  _ ← (match movements, confirmed_episode with
       | reservation :: _, Some confirmed =>
           reconciled_episode s lifecycle_state expected_movement reservation confirmed
       | [], None => Ok tt
       | _, _ => Err (Invariant "reconciliation rate movement evidence is incomplete")
       end);
  let s := with_transactions s (update_first (has_id id) (fun row =>
             row_with_state row Reconciled (tx_transaction_hash row)
               (tx_raw_signed_transaction row) (rc_reconciled_at record)) (js_transactions s)) in
  let s := persist_snapshot s snapshot (rc_reconciled_at record) in
  s ← (match confirmed_episode with
       | Some episode => persist_episode s episode (rc_reconciled_at record)
       | None => Ok s
       end);
  let s := if bool_decide (lifecycle_state = ConformanceValidated)
           then with_movement_records s (update_first (owned_movement id)
                  (fun r => movement_with_state r MovementConfirmed)
                  (js_rate_movement_reservations s))
           else s in
  Ok (with_reconciliation s (js_reconciliation_records s ++ [record])).

(** ** Canonical rewind *)

Definition is_rewindable (state : TransactionState) : bool :=
  match state with
  | Included | Confirmed | Reverted | Cancelled | ForeignNonceConsumed | ConformanceValidated
  | ReconciliationPending | Reconciled | Failed => true
  | _ => false
  end.

Definition id_set (l : list Z) : gset Z := list_to_set l.
Definition mem (x : Z) (s : gset Z) : bool := bool_decide (x ∈ s).

(** Transactions whose canonical inclusion lies above the ancestor. *)
Definition orphaned_inclusions (s : JsonState) (chain_id : Z) (ancestor : BlockRef) : gset Z :=
  let above := fun number => blk_number ancestor <? number in
  let orphaned_receipt_hashes := id_set (cr_transaction_hash <$>
    List.filter (fun receipt => (cr_chain_id receipt =? chain_id)
                                && above (cr_block_number receipt)) (js_canonical_receipts s)) in
  let receipt_orphaned := id_set (sa_transaction_id <$>
    List.filter (fun attempt => mem (sa_transaction_hash attempt) orphaned_receipt_hashes)
      (js_transaction_attempts s)) in
  id_set ((fun row => nr_transaction_id (tx_reservation row)) <$>
    List.filter (fun row =>
      (match tx_included_block row with Some number => above number | None => false end
       || mem (nr_transaction_id (tx_reservation row)) receipt_orphaned)
      && is_rewindable (tx_state row)) (js_transactions s)).

(** Evidence at or below the ancestor. *)
Definition retain_ancestors (s : JsonState) (chain_id : Z) (ancestor : BlockRef) : JsonState :=
  let below := fun number => number <=? blk_number ancestor in
  let s := with_chain s
    (List.filter (fun b => negb (cb_chain_id b =? chain_id) || below (blk_number (cb_block b)))
       (js_canonical_blocks s))
    (List.filter (fun l => negb (cl_chain_id l =? chain_id) || below (cl_block_number l))
       (js_canonical_logs s))
    (List.filter (fun r => negb (cr_chain_id r =? chain_id) || below (cr_block_number r))
       (js_canonical_receipts s))
    (js_chain_cursors s) in
  with_evidence s
    (List.filter (fun e => negb (ctx_chain_id (ev_context (ts_snapshot e)) =? chain_id)
                           || below (blk_number (ctx_block (ev_context (ts_snapshot e)))))
       (js_exact_snapshots s))
    (js_plans s) (js_final_preflights s)
    (List.filter (fun c => below (cf_block_number c)) (js_conformance_records s))
    (List.filter (fun r => below (blk_number (rc_block r))) (js_reconciliation_records s))
    (List.filter (fun e => below (blk_number (tr_block e))) (js_topology_history s))
    (js_top_k_apy_memory s).

(** The row's inclusion block is still canonical and conformance-proven. *)
Definition canonical_inclusion (s : JsonState) (chain_id : Z) (id : TransactionId)
    (row : TransactionRow) : bool :=
  match tx_included_block row, tx_included_block_hash row with
  | Some number, Some hash =>
      canonical_at s chain_id number hash
      && existsb (fun c => (cf_transaction_id c =? id) && (cf_block_number c =? number)
                           && (cf_block_hash c =? hash)) (js_conformance_records s)
  | _, _ => false
  end.

(** One reconciled transaction whose reconciliation snapshot is orphaned: it
    is either revalidated or, without inclusion evidence, orphaned as well. *)
Definition classify_reconciliation (s : JsonState) (chain_id : Z)
    (sets : gset Z * gset Z) (id : TransactionId)
    : result StorageError (gset Z * gset Z) :=
  let '(orphaned, revalidated) := sets in
  if mem id orphaned then Ok (orphaned, revalidated)
  else
    row ← ok_or (find (has_id id) (js_transactions s))
            (Invariant "orphaned reconciliation lost its transaction");
    _ ← require (bool_decide (tx_state row = Reconciled))
          (Invariant "reconciliation record belongs to a non-reconciled transaction");
    Ok (if canonical_inclusion s chain_id id row then (orphaned, {[ id ]} ∪ revalidated)
        else ({[ id ]} ∪ orphaned, revalidated)).

(** Confirmed movements of orphaned transactions become pending again. *)
Fixpoint reopen_movements (orphaned : gset Z) (movements : list RateMovementReservationRecord)
    (episodes : list TimedEpisode)
    : result StorageError (list RateMovementReservationRecord * list TimedEpisode) :=
  match movements with
  | [] => Ok ([], episodes)
  | r :: movements =>
      '(r, episodes) ←
        (if bool_decide (rm_state r = MovementConfirmed) && mem (rm_transaction_id r) orphaned
         then
           entry ← ok_or (find (has_episode (rm_episode_id r)) episodes)
                     (Invariant "confirmed rate movement lost its episode during rewind");
           episode ← map_err (fun _ => Invariant "confirmed rate movement cannot be rewound")
                       (committed (reopen_confirmed (te_episode entry) (rm_movement_assets r)
                          (rm_budget_before r)));
           Ok (movement_with_state r MovementPending,
               replace_episode (rm_episode_id r) episode episodes)
         else Ok (r, episodes));
      '(movements, episodes) ← reopen_movements orphaned movements episodes;
      Ok (r :: movements, episodes)
  end.

Definition episode_above (ancestor : BlockRef) (e : RateSignalEpisode) : bool :=
  (blk_number ancestor <? blk_number (re_detection_block e))
  || match re_confirmation_block e with
     | Some block => blk_number ancestor <? blk_number block
     | None => false
     end.

Definition rewind_episode (ancestor : BlockRef) (entry : TimedEpisode) : TimedEpisode :=
  let e := rewind_independent_events (te_episode entry) ancestor in
  mkTimedEpisode (if episode_above ancestor e then complete e StopNonConsecutiveObservation else e)
    (te_updated_at entry).

Definition rewind_episodes (ancestor : BlockRef)
    (movements : list RateMovementReservationRecord) (episodes : list TimedEpisode)
    : list TimedEpisode :=
  let pending := id_set (rm_episode_id <$>
    List.filter (fun r => bool_decide (rm_state r = MovementPending)) movements) in
  List.filter (fun entry => mem (re_episode_id (te_episode entry)) pending
                            || negb (episode_above ancestor (te_episode entry)))
    (rewind_episode ancestor <$> episodes).

Definition rewind_row (orphaned revalidated : gset Z) (ancestor : BlockRef)
    (row : TransactionRow) : TransactionRow :=
  let id := nr_transaction_id (tx_reservation row) in
  let row := if mem id revalidated
             then row_with_state row ReconciliationPending (tx_transaction_hash row)
                    (tx_raw_signed_transaction row) (blk_timestamp ancestor)
             else row in
  if mem id orphaned && is_rewindable (tx_state row)
  then mkTransactionRow (tx_reservation row) Orphaned (tx_transaction_hash row)
         (tx_raw_signed_transaction row) (tx_submitted_at row) None None (tx_updated_at row)
  else row.

Definition rewind (s : JsonState) (chain_id : Z) (ancestor : BlockRef)
    : result StorageError (JsonState * RewindResult) :=
  let orphaned_reconciliations := id_set (rc_transaction_id <$>
    List.filter (fun r => blk_number ancestor <? blk_number (rc_block r))
      (js_reconciliation_records s)) in
  let inclusions := orphaned_inclusions s chain_id ancestor in
  let kept := retain_ancestors s chain_id ancestor in
  '(orphaned, revalidated) ← try_fold (classify_reconciliation kept chain_id)
      (inclusions, ∅) (set_elements orphaned_reconciliations);
  '(movements, episodes) ← reopen_movements orphaned (js_rate_movement_reservations kept)
      (js_rate_episodes kept);
  let rows := rewind_row orphaned revalidated ancestor <$> js_transactions kept in
  let final := with_lanes kept rows movements (js_transaction_attempts kept)
    (rewind_episodes ancestor movements episodes) in
  let final := with_evidence final (js_exact_snapshots final) (js_plans final)
    (js_final_preflights final) (js_conformance_records final) (js_reconciliation_records final)
    (js_topology_history final)
    (List.filter (fun m => tk_last_observed_block (tm_memory m) <=? blk_number ancestor)
       (js_top_k_apy_memory final)) in
  let final := with_chain final (js_canonical_blocks final) (js_canonical_logs final)
    (js_canonical_receipts final) (<[ chain_id := ancestor ]> (js_chain_cursors final)) in
  let count := fun (A : Type) (l : list A) => Z.of_nat (length l) in
  Ok (final, mkRewindResult
        (saturating_sub (count _ (js_canonical_blocks s)) (count _ (js_canonical_blocks final)))
        (saturating_sub (count _ (js_canonical_logs s)) (count _ (js_canonical_logs final)))
        (count _ (List.filter (fun row =>
           let id := nr_transaction_id (tx_reservation row) in
           mem id orphaned && (mem id revalidated || is_rewindable (tx_state row)))
           (js_transactions kept)))).

(** ** Recovery views *)

Definition latest_attempt (s : JsonState) (id : TransactionId) : option SignedAttemptRecord :=
  find (fun attempt => sa_transaction_id attempt =? id) (rev (js_transaction_attempts s)).

Definition known_hashes (s : JsonState) (id : TransactionId) : list B256 :=
  sa_transaction_hash <$>
    List.filter (fun attempt => sa_transaction_id attempt =? id) (js_transaction_attempts s).

Definition unresolved_view (s : JsonState) (signer : Address) (row : TransactionRow)
    : UnresolvedTransaction :=
  let r := tx_reservation row in
  let attempt := latest_attempt s (nr_transaction_id r) in
  let of_attempt {A} (d : A) (f : SignedAttemptRecord -> A) := from_option f d attempt in
  mkUnresolvedTransaction (nr_transaction_id r) (nr_vault r) signer (nr_nonce r) (tx_state row)
    (tx_transaction_hash row) (tx_included_block row) (tx_included_block_hash row)
    (tx_raw_signed_transaction row) (nr_calldata r) (nr_calldata_hash r)
    (known_hashes s (nr_transaction_id r))
    (of_attempt (nr_max_fee_per_gas r) sa_max_fee_per_gas)
    (of_attempt (nr_max_priority_fee_per_gas r) sa_max_priority_fee_per_gas)
    (nr_max_fee_per_gas r) (nr_max_priority_fee_per_gas r) (nr_gas_limit r)
    (plan_id ← nr_plan_id r; tp_plan <$> find (has_plan plan_id) (js_plans s))
    (nr_created_block r) (of_attempt (nr_created_block r) sa_signed_block)
    (attempt ≫= sa_last_broadcast_block) (of_attempt Initial sa_kind).

Definition load_unresolved (s : JsonState) (signer : Address)
    : result StorageError (option UnresolvedTransaction) :=
  match List.filter (owns_lane signer) (js_transactions s) with
  | [] => Ok None
  | [row] => Ok (Some (unresolved_view s signer row))
  | _ => Err (MultipleUnresolved signer)
  end.

Definition load_all_unresolved (s : JsonState)
    : result StorageError (list UnresolvedTransaction) :=
  let signers := id_set ((fun row => nr_signer (tx_reservation row)) <$>
    List.filter (fun row => is_unresolved (tx_state row)) (js_transactions s)) in
  try_map (fun signer =>
    found ← load_unresolved s signer;
    ok_or found (Invariant "unresolved signer index disappeared")) (set_elements signers).

Definition load_pending_conformance (s : JsonState) (id : TransactionId)
    : result StorageError (option PendingConformance) :=
  match find (has_id id) (js_transactions s) with
  | None => Ok None
  | Some row =>
      if negb (bool_decide (tx_state row = Confirmed)) then Ok None
      else
        plan_id ← ok_or (nr_plan_id (tx_reservation row))
                    (Invariant "routine transaction has no plan");
        preflight ← ok_or (find (fun p => fp_plan_id p =? plan_id) (js_final_preflights s))
                      (Invariant "confirmed transaction has no final preflight");
        plan ← ok_or (tp_plan <$> find (has_plan plan_id) (js_plans s))
                 (Invariant "confirmed transaction has no durable plan");
        snapshot ← ok_or (ts_snapshot <$> find (fun entry =>
                       (pv_vault (ev_parent (ts_snapshot entry)) =? pl_vault plan)
                       && bool_decide (ev_context (ts_snapshot entry) = pl_snapshot plan))
                       (js_exact_snapshots s))
                     (Invariant "confirmed transaction has no exact preflight snapshot");
        included_block ← ok_or (tx_included_block row)
                           (Invariant "confirmed transaction has no included block");
        included_block_hash ← ok_or (tx_included_block_hash row)
                                (Invariant "confirmed transaction has no included block hash");
        inclusion_head ← ok_or (cb_block <$> find (fun record =>
                       (cb_chain_id record =? ctx_chain_id (pl_snapshot plan))
                       && (blk_number (cb_block record) =? included_block)
                       && (blk_hash (cb_block record) =? included_block_hash))
                       (js_canonical_blocks s))
                     (Invariant "confirmed transaction inclusion block is not canonical");
        Ok (Some (mkPendingConformance (tx_reservation row) (known_hashes s id) included_block
                    included_block_hash inclusion_head snapshot plan
                    (fp_expected_actions preflight)))
  end.

Definition load_pending_reconciliation_context (s : JsonState) (id : TransactionId)
    : result StorageError (option PendingReconciliationContext) :=
  match find (has_id id) (js_transactions s) with
  | None => Ok None
  | Some row =>
      match expected_movement_state (tx_state row) with
      | None => Ok None
      | Some expected =>
          plan_id ← ok_or (nr_plan_id (tx_reservation row))
                      (Invariant "routine transaction has no plan");
          plan ← ok_or (tp_plan <$> find (has_plan plan_id) (js_plans s))
                   (Invariant "conformance-validated transaction has no durable plan");
          movement ←
            (match List.filter (fun r => owned_movement id r && bool_decide (rm_state r = expected))
                     (js_rate_movement_reservations s) with
             | [] => Ok None
             | [r] => Ok (Some r)
             | _ => Err (Invariant "transaction owns multiple pending rate movements")
             end);
          episode ←
            (match movement with
             | None => Ok None
             | Some r =>
                 entry ← ok_or (find (has_episode (rm_episode_id r)) (js_rate_episodes s))
                           (Invariant "reserved rate episode disappeared");
                 Ok (Some (te_episode entry))
             end);
          _ ← require (Bool.eqb (bool_decide (pl_reason plan = RateRebalance))
                         (bool_decide (is_Some movement)))
                (Invariant "reconciliation plan and rate movement disagree");
          Ok (Some (mkPendingReconciliationContext (pl_reason plan) movement episode))
      end
  end.

(** Rolling execution limits. *)
Definition consumes_rolling_budget (state : TransactionState) : bool :=
  match state with
  | NonceReserved | AbortedBeforeSigning | Cancelled | Reverted => false
  | _ => true
  end.

Definition movement_since (s : JsonState) (vault : VaultAddress) (since_timestamp : Z)
    : result StorageError Z :=
  try_fold (fun total row =>
      ok_or (checked_add U256_MAX total (nr_movement_assets (tx_reservation row)))
        (Invariant "rolling movement sum overflow")) 0
    (List.filter (fun row => (nr_vault (tx_reservation row) =? vault)
                             && (since_timestamp <=? nr_created_at (tx_reservation row))
                             && consumes_rolling_budget (tx_state row)) (js_transactions s)).

Definition count_transactions_since (s : JsonState) (signer : Address) (since_timestamp : Z) : Z :=
  Z.of_nat (length (List.filter (fun row =>
    (nr_signer (tx_reservation row) =? signer)
    && (since_timestamp <=? nr_created_at (tx_reservation row))
    && existsb (fun attempt =>
         (sa_transaction_id attempt =? nr_transaction_id (tx_reservation row))
         && bool_decide (sa_kind attempt = Initial)) (js_transaction_attempts s))
    (js_transactions s))).

Definition receipt_cost (s : JsonState) (chain_id since_timestamp spend : Z)
    (receipt : CanonicalReceiptRecord) : result StorageError Z :=
  match List.filter (fun attempt => sa_transaction_hash attempt =? cr_transaction_hash receipt)
          (js_transaction_attempts s) with
  | [] => Ok spend
  | [attempt] =>
      let accounting_timestamp :=
        match find (fun record => (cb_chain_id record =? chain_id)
                                  && (blk_number (cb_block record) =? cr_block_number receipt)
                                  && (blk_hash (cb_block record) =? cr_block_hash receipt))
                (js_canonical_blocks s) with
        | Some record => blk_timestamp (cb_block record)
        | None =>
            from_option tx_updated_at (sa_signed_at attempt)
              (find (fun row => has_id (sa_transaction_id attempt) row
                  && bool_decide (tx_included_block row = Some (cr_block_number receipt))
                  && bool_decide (tx_included_block_hash row = Some (cr_block_hash receipt)))
                 (js_transactions s))
        end in
      if accounting_timestamp <? since_timestamp then Ok spend
      else
        cost ← ok_or (checked_mul U256_MAX (cr_gas_used receipt) (sa_max_fee_per_gas attempt))
                 (Invariant "confirmed gas cost overflow");
        ok_or (checked_add U256_MAX spend cost) (Invariant "confirmed gas spend overflow")
  | _ => Err (Invariant "canonical transaction hash maps to multiple attempts")
  end.

Definition confirmed_gas_spend_since (s : JsonState) (chain_id since_timestamp : Z)
    : result StorageError Z :=
  try_fold (receipt_cost s chain_id since_timestamp) 0
    (List.filter (fun receipt => cr_chain_id receipt =? chain_id) (js_canonical_receipts s)).

(** The newest verified snapshot of the newest block in the range, or the
    newest unverified one of that block. *)
Definition load_latest_exact_snapshot_in_range (s : JsonState) (vault : VaultAddress)
    (minimum_block maximum_block : Z) : option ExactVaultSnapshot :=
  let number e := blk_number (ctx_block (ev_context (ts_snapshot e))) in
  let of_vault e := pv_vault (ev_parent (ts_snapshot e)) =? vault in
  let candidates := List.filter (fun e => of_vault e && (minimum_block <=? number e)
                                          && (number e <=? maximum_block))
                      (js_exact_snapshots s) in
  match candidates with
  | [] => None
  | first :: rest =>
      let latest_number := foldr (fun e => Z.max (number e)) (number first) rest in
      let at_latest := List.filter (fun e => of_vault e && (number e =? latest_number))
                         (rev (js_exact_snapshots s)) in
      ts_snapshot <$>
        match find (fun e => ils_verified (ev_idle_locks (ts_snapshot e))) at_latest with
        | Some e => Some e
        | None => head at_latest
        end
  end.

Definition pending_key_le (a b : TransactionRow) : bool :=
  let key row := let r := tx_reservation row in
    (nr_signer r, nr_nonce r, nr_transaction_id r) in
  let '(s1, n1, t1) := key a in
  let '(s2, n2, t2) := key b in
  (s1 <? s2) || (s1 =? s2) && ((n1 <? n2) || (n1 =? n2) && (t1 <=? t2)).

Definition load_pending_reconciliations (s : JsonState)
    : result StorageError (list PendingReconciliationTransaction) :=
  let rows := merge_sort (fun a b => Is_true (pending_key_le a b))
    (List.filter (fun row => bool_decide (tx_state row = ReconciliationPending))
       (js_transactions s)) in
  _ ← require (Z.of_nat (length rows) <=? MAX_PENDING_RECONCILIATIONS_PER_LOAD)
        (Invariant "pending reconciliation set exceeds bounded executor capacity");
  try_map (fun row =>
    let r := tx_reservation row in
    included_block ← ok_or (tx_included_block row)
      (Invariant "reconciliation-pending transaction lost its inclusion block");
    included_block_hash ← ok_or (tx_included_block_hash row)
      (Invariant "reconciliation-pending transaction lost its inclusion hash");
    _ ← require (existsb (fun record => (cf_transaction_id record =? nr_transaction_id r)
                            && (cf_block_number record =? included_block)
                            && (cf_block_hash record =? included_block_hash))
                   (js_conformance_records s))
          (Invariant "reconciliation-pending transaction lost conformance evidence");
    Ok (mkPendingReconciliationTransaction (nr_transaction_id r) (nr_vault r) (nr_signer r)
          (nr_nonce r) (tx_state row) (tx_transaction_hash row) included_block
          included_block_hash)) rows.
