(* ===== verification/Config.v ===== *)
(** * Validated configuration

    The validated records of [src/src/config.rs] that the process reads, vault
    by vault and process-wide; [ConfigValidation] produces them. *)
From Stdlib Require Import ZArith Lia List Bool String.
From stdpp Require Import base gmap list strings.
From S2P Require Import Prelude.
From S2P Require Import BlueMath.
From S2P Require Import Domain.
Open Scope Z_scope.

(** ** Validated configuration

    Models the validated vault configuration records of [src/src/config.rs] that
    the planners and the simulator read; [ConfigValidation] produces them. *)

Definition SECONDS_PER_YEAR : Z := 31536000.

Inductive VaultStrategy : Type :=
| SpreadEqualization
| TopKApyDiversified.
#[global] Instance VaultStrategy_eq_dec : EqDecision VaultStrategy.
Proof. solve_decision. Defined.

Inductive AdapterKind : Type := MorphoMarketV1AdapterV2.

Inductive LiquidityAdapterKind : Type := MorphoVaultV1Idle.

Record ValidatedExecutionConfig : Type := mkValidatedExecutionConfig {
  ex_expected_inclusion_opportunities : Z;
  ex_maximum_inclusion_opportunities : Z;
  ex_maximum_rate_rebalance_pending_opportunities : Z;
  ex_maximum_capital_deployment_pending_opportunities : Z;
  ex_maximum_liquidity_maintenance_pending_opportunities : Z;
  ex_identical_rebroadcast_after_opportunities : Z;
  ex_replacement_after_opportunities : Z;
  ex_cancel_when_opportunities_remaining : Z;
  ex_receipt_confirmation_evm_blocks : Z;
  ex_maximum_actions : Z;
  ex_maximum_signed_transaction_gas : Z;
  ex_gas_headroom_bps : Z;
  ex_maximum_fee_per_gas_wei : Z;
  ex_maximum_daily_gas_spend_wei : Z;
}.

Record SolverConfigCanonical : Type := mkSolverConfigCanonical {
  so_maximum_nodes : Z;
  so_maximum_amount_candidates_per_position : Z;
  so_maximum_source_sets : Z;
  so_maximum_destination_sets : Z;
  so_allow_incomplete_rate_solver : bool;
}.

Record ValidatedRateGroupConfig : Type := mkValidatedRateGroupConfig {
  rg_name : string;
  rg_id : RateGroupId;
  rg_minimum_assets : Z;
  rg_target_assets : Z;
  rg_maximum_assets : Z;
  rg_allow_cross_group_movement : bool;
}.

Record ValidatedAdapterConfig : Type := mkValidatedAdapterConfig {
  vad_address : AdapterAddress;
  vad_kind : AdapterKind;
  vad_expected_code_hash : B256;
  vad_maximum_markets : Z;
}.

Record ValidatedLiquidityAdapterConfig : Type := mkValidatedLiquidityAdapterConfig {
  lac_position_key : PositionKey;
  lac_address : AdapterAddress;
  lac_kind : LiquidityAdapterKind;
  lac_expected_code_hash : B256;
  lac_morpho_vault_v1 : Address;
  lac_expected_morpho_vault_v1_code_hash : B256;
  lac_maximum_action_assets : Z;
}.

Record ValidatedPositionConfig : Type := mkValidatedPositionConfig {
  pc_position_key : PositionKey;
  pc_adapter : AdapterAddress;
  pc_market_params : MarketParams;
  pc_market_id : MarketId;
  pc_mode : MarketMode;
  pc_rate_group : RateGroupId;
  pc_minimum_position_assets : Z;
  pc_maximum_position_assets : Z;
  pc_minimum_source_liquidity_assets : Z;
  pc_maximum_source_utilization_wad : Z;
  pc_minimum_relevance_entry_assets : Z;
  pc_minimum_relevance_exit_assets : Z;
  pc_minimum_rate_relevant_market_supply_assets : Z;
  pc_minimum_rate_relevant_market_borrow_assets : Z;
  pc_minimum_destination_market_supply_assets : Z;
  pc_minimum_destination_market_supply_shares : Z;
  pc_maximum_action_assets : Z;
  pc_allow_active_complete_exit : bool;
  pc_complete_exit_dust_threshold_assets : Z;
  pc_reward_policy : RewardPolicy;
}.

Record ValidatedVaultConfig : Type := mkValidatedVaultConfig {
  vv_name : string;
  vv_address : VaultAddress;
  vv_asset : Address;
  vv_asset_decimals : Z;
  vv_expected_vault_code_hash : B256;
  vv_deployment_block : Z;
  vv_signer_address : Address;
  vv_strategy : VaultStrategy;
  vv_strict_zero_routine_idle : bool;
  vv_minimum_action_assets : Z;
  vv_maximum_rounding_dust_assets : Z;
  vv_maximum_immediate_rebalance_loss_assets : Z;
  vv_maximum_terminal_value_sacrifice_assets : Z;
  vv_minimum_active_positions_after_economic_exit : Z;
  vv_maximum_movement_per_hour_assets : Z;
  vv_maximum_movement_per_day_assets : Z;
  vv_minimum_independent_event_assets : Z;
  vv_minimum_atomic_exit_coverage_assets : Z;
  vv_minimum_liquidity_adapter_assets : Z;
  vv_minimum_deposit_headroom_assets : Z;
  vv_deposit_headroom_search_upper_bound_assets : Z;
  vv_minimum_source_token_liquidity_assets : Z;
  vv_lock_operator_clearance_required : bool;
  vv_unattributed_idle_fail_closed : bool;
  vv_require_supported_nonzero_liquidity_adapter : bool;
  vv_require_zero_gates : bool;
  vv_required_vault_dead_address : Address;
  vv_minimum_market_dead_supply_shares : Z;
  vv_approved_allocators : list Address;
  vv_approved_sentinels : list Address;
  vv_rate_group : ValidatedRateGroupConfig;
  vv_adapters : list ValidatedAdapterConfig;
  vv_liquidity_adapter : option ValidatedLiquidityAdapterConfig;
  vv_positions : list ValidatedPositionConfig;
}.

(** ** Validated application configuration

    The process-wide records of [config.rs] around the vault records of
    [Config], with the accessors of the strategy policy in the domain of the
    selected objective. *)

Inductive RuntimeMode : Type := ModeObserve | ModeShadow | ModeExecute.
#[global] Instance RuntimeMode_eq_dec : EqDecision RuntimeMode.
Proof. solve_decision. Defined.

Inductive BlockOpportunityPolicy : Type :=
  | EveryCanonicalBlock
  | HyperEvmFastBlocks (gas_limit : Z).

Inductive RpcRole : Type :=
  | RoleHead | RoleLogs | RoleRead | RoleSimulate | RoleSubmit | RoleCheckpoint | RoleReceipt.

#[global] Instance RpcRole_eq_dec : EqDecision RpcRole.
Proof. solve_decision. Defined.

Inductive SnapshotMode : Type := PinnedBlock | AtomicLatest.

Inductive StrategyObjective : Type := SpotBorrowRateSpread | UtilizationSpread.
#[global] Instance StrategyObjective_eq_dec : EqDecision StrategyObjective.
Proof. solve_decision. Defined.

Inductive SigningConfig : Type :=
  | RemoteSigner (endpoint_env : string)
  | LocalDevelopment (private_key_env : string) (execute_chain_id : option Z).

Record TelegramConfig : Type := mkTelegramConfig {
  tg_enabled : bool;
  tg_bot_token_env : string;
  tg_chat_id : string;
  tg_message_thread_id : option Z;
}.

Record PagerDutyConfig : Type := mkPagerDutyConfig {
  pd_enabled : bool;
  pd_integration_key_env : string;
}.

Record ValidatedAlertConfig : Type := mkValidatedAlertConfig {
  va_telegram : TelegramConfig;
  va_pagerduty : PagerDutyConfig;
}.

Record ValidatedNodeConfig : Type := mkValidatedNodeConfig {
  vn_instance_id : string;
  vn_mode : RuntimeMode;
  vn_data_dir : string;
  vn_full_reconciliation_interval_millis : Z;
  vn_topology_reconciliation_interval_millis : Z;
}.

Record ValidatedRpcConfig : Type := mkValidatedRpcConfig {
  vr_name : string;
  vr_url_env : string;
  vr_websocket_url_env : option string;
  vr_roles : list RpcRole;
  vr_production_grade : bool;
  vr_supports_websocket : bool;
  vr_supports_historical_state : bool;
}.

Record ValidatedChainConfig : Type := mkValidatedChainConfig {
  vc_name : string;
  vc_chain_id : Z;
  vc_morpho_blue : Address;
  vc_multicall3 : Address;
  vc_expected_multicall3_code_hash : B256;
  vc_event_start_block : Z;
  vc_maximum_log_range : Z;
  vc_reorg_rescan_blocks : Z;
  vc_block_opportunity_policy : BlockOpportunityPolicy;
  vc_rpc : list ValidatedRpcConfig;
}.

Record ValidatedSnapshotConfig : Type := mkValidatedSnapshotConfig {
  vs_mode : SnapshotMode;
  vs_strict_signing_context : bool;
  vs_maximum_background_snapshot_age_blocks : Z;
  vs_maximum_signing_snapshot_age_blocks : Z;
  vs_maximum_snapshot_retries : Z;
  vs_maximum_evm_timestamp_lag_seconds : Z;
  vs_maximum_snapshot_to_sign_latency_millis : Z;
  vs_maximum_sign_to_broadcast_latency_millis : Z;
}.

Record ValidatedTopKApyConfig : Type := mkValidatedTopKApyConfig {
  vt_enter_apy_wad : Z;
  vt_exit_apy_wad : Z;
  vt_replacement_apy_wad : Z;
  vt_fourth_market_max_gap_apy_wad : Z;
  vt_top_market_boost_threshold_apy_wad : Z;
  vt_top_market_boost_weight_bps : Z;
  vt_upside_ema_alpha_bps : Z;
  vt_probe_allocation_bps : Z;
  vt_membership_confirmation_seconds : Z;
  vt_tick_interval_seconds : Z;
  vt_three_market_weights_bps : list Z;
  vt_four_market_weights_bps : list Z;
  vt_entry_score_wad : Z;
  vt_target_score_wad : Z;
  vt_minimum_improvement_score_wad : Z;
  vt_enforce_gas_economic_gate : bool;
  vt_minimum_net_gain_assets : Z;
  vt_gas_cost_multiplier : Z;
  vt_native_token_price_ceiling_asset_wad : Z;
  vt_maximum_diversification_cost_apy_wad : Z;
}.

Record ValidatedStrategyConfig : Type := mkValidatedStrategyConfig {
  sg_objective : StrategyObjective;
  sg_entry_spread_rate_per_second : Z;
  sg_target_spread_rate_per_second : Z;
  sg_target_tolerance_rate_per_second : Z;
  sg_utilization_entry_spread_wad : Z;
  sg_utilization_target_spread_wad : Z;
  sg_utilization_target_tolerance_wad : Z;
  sg_utilization_minimum_improvement_wad : Z;
  sg_utilization_portfolio_spread_tolerance_wad : Z;
  sg_minimum_portfolio_improvement_rate_per_second : Z;
  sg_minimum_controllable_improvement_rate_per_second : Z;
  sg_portfolio_spread_tolerance_rate_per_second : Z;
  sg_confirmation_opportunities : Z;
  sg_immediate_tranche_bps : Z;
  sg_persistent_confirmation_duration_millis : Z;
  sg_minimum_independent_rate_events : Z;
  sg_minimum_independent_event_span_millis : Z;
  sg_minimum_independent_event_rate_impact : Z;
  sg_minimum_independent_event_utilization_impact_wad : Z;
  sg_maximum_rate_episode_duration_millis : Z;
  sg_extreme_spread_bypass_enabled : bool;
  sg_benefit_horizon_seconds : Z;
  sg_maximum_daily_transactions : Z;
  sg_top_k_apy : ValidatedTopKApyConfig;
}.

Definition entry_spread (c : ValidatedStrategyConfig) : Z :=
  match sg_objective c with
  | SpotBorrowRateSpread => sg_entry_spread_rate_per_second c
  | UtilizationSpread => sg_utilization_entry_spread_wad c
  end.

Definition target_spread (c : ValidatedStrategyConfig) : Z :=
  match sg_objective c with
  | SpotBorrowRateSpread => sg_target_spread_rate_per_second c
  | UtilizationSpread => sg_utilization_target_spread_wad c
  end.

Definition target_tolerance (c : ValidatedStrategyConfig) : Z :=
  match sg_objective c with
  | SpotBorrowRateSpread => sg_target_tolerance_rate_per_second c
  | UtilizationSpread => sg_utilization_target_tolerance_wad c
  end.

Definition minimum_improvement (c : ValidatedStrategyConfig) (portfolio : bool) : Z :=
  match sg_objective c with
  | SpotBorrowRateSpread =>
      if portfolio then sg_minimum_portfolio_improvement_rate_per_second c
      else sg_minimum_controllable_improvement_rate_per_second c
  | UtilizationSpread => sg_utilization_minimum_improvement_wad c
  end.

Definition portfolio_spread_tolerance (c : ValidatedStrategyConfig) : Z :=
  match sg_objective c with
  | SpotBorrowRateSpread => sg_portfolio_spread_tolerance_rate_per_second c
  | UtilizationSpread => sg_utilization_portfolio_spread_tolerance_wad c
  end.

Definition minimum_independent_event_impact (c : ValidatedStrategyConfig) : Z :=
  match sg_objective c with
  | SpotBorrowRateSpread => sg_minimum_independent_event_rate_impact c
  | UtilizationSpread => sg_minimum_independent_event_utilization_impact_wad c
  end.

Definition convergence_spread (c : ValidatedStrategyConfig) : Z :=
  default U256_MAX (checked_add U256_MAX (target_spread c) (target_tolerance c)).

Record ValidatedAppConfig : Type := mkValidatedAppConfig {
  ac_schema_version : Z;
  ac_node : ValidatedNodeConfig;
  ac_chain : ValidatedChainConfig;
  ac_snapshot : ValidatedSnapshotConfig;
  ac_execution : ValidatedExecutionConfig;
  ac_solver : SolverConfigCanonical;
  ac_strategy : ValidatedStrategyConfig;
  ac_signing : SigningConfig;
  ac_alerts : ValidatedAlertConfig;
  ac_vaults : list ValidatedVaultConfig;
}.

Record ValidatedConfig : Type := mkValidatedConfig {
  vg_app : ValidatedAppConfig;
  vg_revision : B256;
}.
