(* ===== verification/Projection.v ===== *)
(** * Per-head projection of an exact snapshot

    Models [src/src/state/projection.rs]: the projection of a snapshot to a
    canonical head (accrued markets, expected position values, cap catch-up,
    parent accrual, service values) and the reasons to replace it. *)

From stdpp Require Import base gmap list.
From Stdlib Require Import ZArith Lia.
From S2P Require Import Prelude.
From S2P Require Import BlueMath.
From S2P Require Import Domain.
From S2P Require Import AdaptiveCurve.
From S2P Require Import Accrual.
From S2P Require Import Adapters.
From S2P Require Import Config.
From S2P Require Import Caps.

Record ProjectedVaultView : Type := mkProjectedVaultView {
  pw_base_snapshot_hash : B256;
  pw_head : BlockRef;
  pw_markets : gmap MarketId ProjectedMarketState;
  pw_adapter_real_assets : gmap AdapterAddress Z;
  pw_vault : ProjectedVaultState;
  pw_deposit_headroom_satisfied : bool;
  pw_atomic_exit_coverage_satisfied : bool;
  pw_source_constraints_satisfied : bool;
}.

Inductive RefreshReason : Type :=
| SnapshotAge
| RelevantEvent
| ConfigurationRevision
| TopologyRevision
| OrphanedBase
| DepositHeadroom
| AtomicExitCoverage
| SourceConstraint
| LiquidityAdapterFloor
| PositionRelevance
| RewardHorizon
| PendingAdministrationHorizon
| CapBoundary.
#[global] Instance RefreshReason_eq_dec : EqDecision RefreshReason.
Proof. solve_decision. Defined.

Record ProjectionFreshness : Type := mkProjectionFreshness {
  pf_config_revision : B256;
  pf_topology_revision : B256;
  pf_base_is_canonical : bool;
  pf_relevant_event_after_base : bool;
  pf_maximum_age_blocks : Z;
  pf_safety_horizon_timestamp : Z;
}.

Inductive ProjectionError : Type :=
| IncompatibleHead
| IncompleteSnapshot
| ProjectionMath (e : MathError)
| ProjectionArithmetic.
#[global] Instance ProjectionError_eq_dec : EqDecision ProjectionError.
Proof. solve_decision. Defined.

Definition pmath {A} (c : result MathError A) : result ProjectionError A :=
  map_err ProjectionMath c.

Definition position_signed_difference (after before : Z) : result ProjectionError Z :=
  ok_or
    (after ← i256_of_u256 after; before ← i256_of_u256 before; i256_sub after before)
    ProjectionArithmetic.

Definition add_signed_allocation (allocation delta : Z) : result ProjectionError Z :=
  allocation ← ok_or (i256_of_u256 allocation) ProjectionArithmetic;
  value ← ok_or (i256_add allocation delta) ProjectionArithmetic;
  ok_or (u256_of_i256 value) ProjectionArithmetic.

(** ** Refresh reasons *)

(** Reasons in the ordering of the [BTreeSet] that collects them. *)
Definition all_refresh_reasons : list RefreshReason :=
  [SnapshotAge; RelevantEvent; ConfigurationRevision; TopologyRevision; OrphanedBase;
   DepositHeadroom; AtomicExitCoverage; SourceConstraint; LiquidityAdapterFloor;
   PositionRelevance; RewardHorizon; PendingAdministrationHorizon; CapBoundary].

Definition when {A} (b : bool) (a : A) : list A := if b then [a] else [].

Definition reward_expires (policy : RewardPolicy) (horizon : Z) : bool :=
  match policy with
  | NoMaterialRewards _ valid_until_timestamp _ => valid_until_timestamp <=? horizon
  | Modeled _ valid_until_timestamp => valid_until_timestamp <=? horizon
  | FixedUntilModeled | IgnoreRewardsByCuratorMandate _ => false
  end.

Definition position_reasons (snapshot : ExactVaultSnapshot) (projection : ProjectedVaultView)
    (freshness : ProjectionFreshness) (configured : ValidatedPositionConfig)
    : result ProjectionError (list RefreshReason) :=
  position ← ok_or (ev_positions snapshot !! pc_position_key configured) IncompleteSnapshot;
  projected ← ok_or (pj_position_expected_assets (pw_vault projection)
                       !! pc_position_key configured) IncompleteSnapshot;
  Ok (when (((dp_expected_assets position <? pc_minimum_relevance_entry_assets configured)
             && (pc_minimum_relevance_entry_assets configured <=? projected))
            || ((pc_minimum_relevance_exit_assets configured <=? dp_expected_assets position)
                && (projected <? pc_minimum_relevance_exit_assets configured)))
        PositionRelevance
      ++ when (reward_expires (dp_reward_policy position)
                 (pf_safety_horizon_timestamp freshness)) RewardHorizon).

Definition cap_reasons (snapshot : ExactVaultSnapshot) (projection : ProjectedVaultView)
    (entry : CapRef * Z) : result ProjectionError (list RefreshReason) :=
  cap ← ok_or (ev_caps snapshot !! entry.1) IncompleteSnapshot;
  allocation ← add_signed_allocation (cs_recorded_allocation cap) entry.2;
  if cs_absolute_cap cap <=? allocation then Ok [CapBoundary]
  else if cs_relative_cap cap <? WAD then
    relative ← pmath (arith (mul_div_down (pj_parent_total_assets (pw_vault projection))
                               (cs_relative_cap cap) WAD));
    Ok (when (relative <=? allocation) CapBoundary)
  else Ok [].

Definition liquidity_floor_reason (snapshot : ExactVaultSnapshot)
    (projection : ProjectedVaultView) (config : ValidatedVaultConfig) : bool :=
  (match List.find (fun position =>
             dp_adapter position =? pv_liquidity_adapter (ev_parent snapshot))
           (btree_values (ev_positions snapshot)) with
   | Some position =>
       match pj_position_expected_assets (pw_vault projection) !! dp_position_key position with
       | None => true
       | Some assets => assets <? vv_minimum_liquidity_adapter_assets config
       end
   | None => false
   end)
  || match ev_liquidity_adapter snapshot with
     | Some adapter => la_real_assets adapter <? vv_minimum_liquidity_adapter_assets config
     | None => false
     end.

Definition refresh_reasons (snapshot : ExactVaultSnapshot) (projection : ProjectedVaultView)
    (config : ValidatedVaultConfig) (freshness : ProjectionFreshness)
    : result ProjectionError (list RefreshReason) :=
  let direct :=
    when (pf_maximum_age_blocks freshness <?
          saturating_sub (blk_number (pw_head projection))
            (blk_number (ctx_block (ev_context snapshot)))) SnapshotAge
    ++ when (pf_relevant_event_after_base freshness) RelevantEvent
    ++ when (negb (pf_config_revision freshness
                   =? ctx_static_config_revision (ev_context snapshot))) ConfigurationRevision
    ++ when (negb (pf_topology_revision freshness
                   =? ctx_dynamic_topology_revision (ev_context snapshot))) TopologyRevision
    ++ when (negb (pf_base_is_canonical freshness)) OrphanedBase
    ++ when (negb (pw_deposit_headroom_satisfied projection)) DepositHeadroom
    ++ when (negb (pw_atomic_exit_coverage_satisfied projection)) AtomicExitCoverage
    ++ when (negb (pw_source_constraints_satisfied projection)) SourceConstraint
    ++ when (liquidity_floor_reason snapshot projection config) LiquidityAdapterFloor in
  positions ← try_map (position_reasons snapshot projection freshness) (vv_positions config);
  let pending :=
    when (existsb (fun operation =>
            pa_executable_at operation <=? pf_safety_horizon_timestamp freshness)
          (ev_pending_admin snapshot)) PendingAdministrationHorizon in
  caps ← try_map (cap_reasons snapshot projection)
           (capref_entries (pj_cap_catch_up (pw_vault projection)));
  let reasons := direct ++ concat positions ++ pending ++ concat caps in
  Ok (filter (fun reason => reason ∈ reasons) all_refresh_reasons).

(** ** Service values *)

Section Encoding.
Context `{AbiParams}.

Definition is_liquidity_position (snapshot : ExactVaultSnapshot)
    (position : DirectMarketPositionState) : bool :=
  (dp_adapter position =? pv_liquidity_adapter (ev_parent snapshot))
  && bool_decide (encode_adapter_data (dp_market_params position)
                  = pv_liquidity_data (ev_parent snapshot)).

(** [checked_add(assets).is_none_or(|value| value > u128::MAX)]. *)
Definition exceeds_u128 (parent_total_assets assets : Z) : bool :=
  match checked_add U256_MAX parent_total_assets assets with
  | None => true
  | Some value => U128_MAX <? value
  end.

(** Every affected cap admits its updated allocation. *)
Fixpoint caps_admit (snapshot : ExactVaultSnapshot) (parent_total_assets assets change : Z)
    (references : list CapRef) : result ProjectionError bool :=
  match references with
  | [] => Ok true
  | reference :: references =>
      cap ← ok_or (ev_caps snapshot !! reference) IncompleteSnapshot;
      new_allocation ← add_signed_allocation (cs_recorded_allocation cap) change;
      total ← ok_or (checked_add U256_MAX parent_total_assets assets) ProjectionArithmetic;
      if is_ok (validate_allocation_cap cap total new_allocation)
      then caps_admit snapshot parent_total_assets assets change references
      else Ok false
  end.

Definition liquidity_deposit_executable (cap : CapState)
    (liquidity : VaultV1LiquidityAdapterState) (parent_total_assets assets : Z)
    : result ProjectionError bool :=
  if exceeds_u128 parent_total_assets assets then Ok false
  else match VaultV1.allocate liquidity assets with
       | Err _ => Ok false
       | Ok transition =>
           allocation ← add_signed_allocation (la_recorded_allocation liquidity)
                          (VaultV1.vt_allocation_change transition);
           total ← ok_or (checked_add U256_MAX parent_total_assets assets) ProjectionArithmetic;
           Ok (is_ok (validate_allocation_cap cap total allocation))
       end.

Definition direct_deposit_executable (snapshot : ExactVaultSnapshot)
    (position : DirectMarketPositionState) (market : ProjectedMarketState)
    (parent_total_assets assets : Z) : result ProjectionError bool :=
  if exceeds_u128 parent_total_assets assets then Ok false
  else
    stored ← ok_or (ev_markets snapshot !! dp_market_id position) IncompleteSnapshot;
    match Market.allocate market (dp_internal_supply_shares position) assets
            (dp_parent_recorded_market_allocation position) (sm_fee stored)
            (dp_affected_caps position) with
    | Err _ => Ok false
    | Ok transition =>
        caps_admit snapshot parent_total_assets assets (Market.at_allocation_change transition)
          (affected_caps_list position)
    end.

Definition maximum_deposit (snapshot : ExactVaultSnapshot) (config : ValidatedVaultConfig)
    (markets : gmap MarketId ProjectedMarketState) (parent_total_assets : Z)
    : result ProjectionError Z :=
  let upper := vv_deposit_headroom_search_upper_bound_assets config in
  if upper =? 0 then Ok 0
  else if negb (pv_receive_shares_gate (ev_parent snapshot) =? 0)
          || negb (pv_send_assets_gate (ev_parent snapshot) =? 0) then Ok 0
  else if pv_liquidity_adapter (ev_parent snapshot) =? 0 then
    match checked_add U256_MAX parent_total_assets upper with
    | Some value => if value <=? U128_MAX then Ok upper
                    else Ok (saturating_sub U128_MAX parent_total_assets)
    | None => Ok (saturating_sub U128_MAX parent_total_assets)
    end
  else match ev_liquidity_adapter snapshot with
       | Some liquidity =>
           cap ← ok_or (ev_caps snapshot
                          !! mkCapRef (vv_address config) (la_adapter_id liquidity))
                   IncompleteSnapshot;
           monotone_maximum ProjectionArithmetic
             (liquidity_deposit_executable cap liquidity parent_total_assets)
             (Z.min upper (la_max_deposit liquidity))
       | None =>
           position ← ok_or (List.find (is_liquidity_position snapshot)
                               (btree_values (ev_positions snapshot))) IncompleteSnapshot;
           market ← ok_or (markets !! dp_market_id position) IncompleteSnapshot;
           monotone_maximum ProjectionArithmetic
             (direct_deposit_executable snapshot position market parent_total_assets) upper
       end.

Definition maximum_liquidity_deallocation (snapshot : ExactVaultSnapshot)
    (markets : gmap MarketId ProjectedMarketState) : result ProjectionError Z :=
  if pv_liquidity_adapter (ev_parent snapshot) =? 0 then Ok 0
  else match ev_liquidity_adapter snapshot with
       | Some liquidity => Ok (Z.min (la_max_withdraw liquidity) (la_real_assets liquidity))
       | None =>
           position ← ok_or (List.find (is_liquidity_position snapshot)
                               (btree_values (ev_positions snapshot))) IncompleteSnapshot;
           market ← ok_or (markets !! dp_market_id position) IncompleteSnapshot;
           stored ← ok_or (ev_markets snapshot !! dp_market_id position) IncompleteSnapshot;
           expected ← pmath (Market.expected_adapter_assets
                               (dp_internal_supply_shares position) market);
           let upper := Z.min (Z.min expected (pm_accounting_liquidity market))
                          (sm_morpho_loan_token_balance stored) in
           monotone_maximum ProjectionArithmetic
             (fun midpoint =>
                Ok (is_ok (Market.deallocate market (dp_internal_supply_shares position) midpoint
                             (dp_parent_recorded_market_allocation position)
                             (sm_morpho_loan_token_balance stored) (sm_fee stored)
                             (dp_affected_caps position))))
             upper
       end.

(** ** The projection *)

Definition project_markets (snapshot : ExactVaultSnapshot) (timestamp : Z)
    : result ProjectionError (gmap MarketId ProjectedMarketState) :=
  try_fold
    (fun markets entry =>
       accrued ← pmath (accrue_market entry.2 timestamp
                          (mkAdaptiveCurveState (sm_stored_rate_at_target entry.2)));
       Ok (<[entry.1 := ma_market accrued]> markets))
    ∅ (btree_entries (ev_markets snapshot)).

(** Adds a signed catch-up to one cap. *)
Definition add_catch_up (catch_up : gmap CapRef Z) (delta : Z) (reference : CapRef)
    : result ProjectionError (gmap CapRef Z) :=
  updated ← ok_or (i256_add (default 0 (catch_up !! reference)) delta) ProjectionArithmetic;
  Ok (<[reference := updated]> catch_up).

Record PositionProjection : Type := mkPositionProjection {
  pq_expected : gmap PositionKey Z;
  pq_real : gmap AdapterAddress Z;
  pq_catch_up : gmap CapRef Z;
}.

Definition project_position (snapshot : ExactVaultSnapshot)
    (markets : gmap MarketId ProjectedMarketState) (acc : PositionProjection)
    (entry : PositionKey * DirectMarketPositionState)
    : result ProjectionError PositionProjection :=
  let position := entry.2 in
  market ← ok_or (markets !! dp_market_id position) IncompleteSnapshot;
  expected ← pmath (Market.expected_adapter_assets (dp_internal_supply_shares position) market);
  adapter ← ok_or (ev_adapters snapshot !! dp_adapter position) IncompleteSnapshot;
  real ← (if bool_decide (dp_market_id position ∈ da_current_market_ids adapter) then
            total ← ok_or (checked_add U256_MAX (default 0 (pq_real acc !! dp_adapter position))
                             expected) ProjectionArithmetic;
            Ok (<[dp_adapter position := total]> (pq_real acc))
          else Ok (pq_real acc));
  delta ← position_signed_difference expected (dp_parent_recorded_market_allocation position);
  catch_up ← try_fold (fun catch_up reference => add_catch_up catch_up delta reference)
               (pq_catch_up acc) (affected_caps_list position);
  Ok (mkPositionProjection (<[entry.1 := expected]> (pq_expected acc)) real catch_up).

Definition source_constraint_satisfied (snapshot : ExactVaultSnapshot)
    (config : ValidatedVaultConfig) (markets : gmap MarketId ProjectedMarketState)
    (configured : ValidatedPositionConfig) : bool :=
  let source_eligible :=
    match ev_positions snapshot !! pc_position_key configured with
    | Some position =>
        negb (dp_internal_supply_shares position =? 0)
        && match pc_mode configured with Active | SourceOnly => true | _ => false end
    | None => false
    end in
  negb source_eligible
  || match ev_markets snapshot !! pc_market_id configured, markets !! pc_market_id configured with
     | Some stored, Some projected =>
         (pc_minimum_source_liquidity_assets configured <=? pm_accounting_liquidity projected)
         && (vv_minimum_source_token_liquidity_assets config
             <=? sm_morpho_loan_token_balance stored)
         && (pm_utilization projected <=? pc_maximum_source_utilization_wad configured)
     | _, _ => false
     end.

Definition project_snapshot_to_head (snapshot : ExactVaultSnapshot) (head : BlockRef)
    (config : ValidatedVaultConfig) : result ProjectionError ProjectedVaultView :=
  let context := ev_context snapshot in
  header_evm_lag ← ok_or
    (checked_sub (blk_timestamp (ctx_block context)) (ctx_evm_timestamp context)) IncompatibleHead;
  head_evm_timestamp ← ok_or (checked_sub (blk_timestamp head) header_evm_lag) IncompatibleHead;
  if (blk_number head <? blk_number (ctx_block context))
     || (head_evm_timestamp <? ctx_evm_timestamp context)
     || negb (vv_address config =? pv_vault (ev_parent snapshot))
  then Err IncompatibleHead
  else
    markets ← project_markets snapshot head_evm_timestamp;
    projected ← try_fold (project_position snapshot markets) (mkPositionProjection ∅ ∅ ∅)
                  (btree_entries (ev_positions snapshot));
    let real := (pq_real projected : gmap AdapterAddress Z) ∪
                ((fun _ => 0) <$> ev_adapters snapshot) in
    '(real, catch_up) ←
      (match ev_liquidity_adapter snapshot with
       | Some liquidity =>
           delta ← position_signed_difference (la_real_assets liquidity)
                     (la_recorded_allocation liquidity);
           Ok (<[la_adapter liquidity := la_real_assets liquidity]> real,
               <[mkCapRef (vv_address config) (la_adapter_id liquidity) := delta]>
                 (pq_catch_up projected))
       | None => Ok (real, pq_catch_up projected)
       end);
    parent ← pmath (accrue_parent_view (ev_parent snapshot) real (blk_timestamp head));
    max_executable_deposit_assets ←
      maximum_deposit snapshot config markets (pr_total_assets parent);
    deallocation ← maximum_liquidity_deallocation snapshot markets;
    atomic_exit_coverage_assets ←
      ok_or (checked_add U256_MAX (pv_idle_assets (ev_parent snapshot)) deallocation)
        ProjectionArithmetic;
    let source_constraints_satisfied :=
      forallb (source_constraint_satisfied snapshot config markets) (vv_positions config) in
    let vault := mkProjectedVaultState (blk_timestamp head) (pr_total_assets parent)
                   (pr_projected_total_supply parent)
                   (mkFeeShareProjection (pr_performance_fee_shares parent)
                      (pr_management_fee_shares parent))
                   (pq_expected projected) catch_up max_executable_deposit_assets
                   atomic_exit_coverage_assets in
    Ok (mkProjectedVaultView (ev_snapshot_hash snapshot) head markets real vault
          (vv_minimum_deposit_headroom_assets config <=? max_executable_deposit_assets)
          (vv_minimum_atomic_exit_coverage_assets config <=? atomic_exit_coverage_assets)
          source_constraints_satisfied).

End Encoding.

(** ** Soundness of the projection *)

(** A fold that inserts one computed entry per map entry computes a map over the
    same keys. *)
Lemma try_fold_insert {E A B} (f : Z -> A -> result E B) (m : gmap Z A) (m' : gmap Z B) :
  try_fold (fun acc e => b ← f e.1 e.2; Ok (<[e.1 := b]> acc)) ∅ (btree_entries m) = Ok m' ->
  forall k a, m !! k = Some a -> exists b, f k a = Ok b /\ m' !! k = Some b.
Proof.
  intros Hf k a Hk%elem_of_btree_entries.
  pose proof (NoDup_btree_keys m) as Hnd. unfold btree_keys in Hnd.
  revert Hf Hk Hnd. generalize (∅ : gmap Z B) as acc.
  induction (btree_entries m) as [|[k0 a0] l IH]; intros acc Hf Hk Hnd; [by apply not_elem_of_nil in Hk|].
  cbn in Hf. apply bind_Ok in Hf as (acc' & Hacc & Hf).
  apply bind_Ok in Hacc as (b0 & Hb0 & Hacc). injection Hacc as <-.
  rewrite fmap_cons in Hnd. apply NoDup_cons in Hnd as [Hk0 Hnd].
  apply elem_of_cons in Hk as [Heq|Hk]; [|by eapply IH].
  injection Heq as -> ->. exists b0. split; [done|].
  clear IH. revert Hf. generalize (eq_refl (Some b0)).
  assert ((<[k0 := b0]> acc) !! k0 = Some b0) as Hl by apply lookup_insert_eq.
  revert Hl. generalize (<[k0 := b0]> acc) as acc1. clear Hnd.
  revert Hk0. induction l as [|[k1 a1] l IH]; intros Hk0 acc1 Hl _ Hf; cbn in Hf.
  { by injection Hf as <-. }
  apply bind_Ok in Hf as (acc' & Hacc & Hf). apply bind_Ok in Hacc as (b1 & _ & Hacc).
  injection Hacc as <-. rewrite fmap_cons in Hk0. apply not_elem_of_cons in Hk0 as [Hne Hk0].
  eapply (IH Hk0); [|done|exact Hf]. by rewrite lookup_insert_ne by done.
Qed.

(** The positions fold: what it keeps and what it adds. *)
Lemma project_position_Ok snapshot markets acc e acc' :
  project_position snapshot markets acc e = Ok acc' ->
  exists market v, markets !! dp_market_id e.2 = Some market /\
    Market.expected_adapter_assets (dp_internal_supply_shares e.2) market = Ok v /\
    pq_expected acc' = <[e.1 := v]> (pq_expected acc).
Proof.
  unfold project_position. intros H. step_ok H as market Hm%ok_or_Ok.
  step_ok H as v Hv%map_err_Ok. step_ok H as ad _. step_ok H as real _. step_ok H as delta _.
  step_ok H as cu _. injection H as <-. eauto.
Qed.

Lemma project_positions_lookup snapshot markets l : forall acc acc',
  NoDup l.*1 -> try_fold (project_position snapshot markets) acc l = Ok acc' ->
  forall k p, (k, p) ∈ l -> exists market v, markets !! dp_market_id p = Some market /\
    Market.expected_adapter_assets (dp_internal_supply_shares p) market = Ok v /\
    pq_expected acc' !! k = Some v.
Proof.
  assert (forall l acc acc' k, k ∉ l.*1 ->
    try_fold (project_position snapshot markets) acc l = Ok acc' ->
    pq_expected acc' !! k = pq_expected acc !! k) as Hkeep.
  { clear l. intros l. induction l as [|e l IH]; intros acc acc' k Hk H; cbn in H.
    - by injection H as <-.
    - step_ok H as acc1 H1. rewrite fmap_cons in Hk. apply not_elem_of_cons in Hk as [Hne Hk].
      rewrite (IH _ _ _ Hk H). apply project_position_Ok in H1 as (? & ? & _ & _ & ->).
      by rewrite lookup_insert_ne by done. }
  induction l as [|e l IH]; intros acc acc' Hnd H k p Hin; [by apply not_elem_of_nil in Hin|].
  cbn in H. step_ok H as acc1 H1. rewrite fmap_cons in Hnd. apply NoDup_cons in Hnd as [Hne Hnd].
  apply elem_of_cons in Hin as [<-|Hin]; [|by eapply IH].
  apply project_position_Ok in H1 as (market & v & Hm & Hv & Hq). exists market, v.
  split; [done|]. split; [done|]. rewrite (Hkeep l acc1 acc' k Hne H), Hq. apply lookup_insert_eq.
Qed.

(** Stored markets a snapshot can hold. *)
Definition snapshot_markets_wf (snapshot : ExactVaultSnapshot) : Prop :=
  forall id m, ev_markets snapshot !! id = Some m ->
    stored_market_wf m /\ 0 <= sm_stored_rate_at_target m.

(** The EVM time of a head, which trails its header by the snapshot's lag. *)
Definition evm_time_at (snapshot : ExactVaultSnapshot) (head : BlockRef) : Z :=
  let context := ev_context snapshot in
  blk_timestamp head - (blk_timestamp (ctx_block context) - ctx_evm_timestamp context).

Section Sound.
Context `{HA : AbiParams}.

(** A successful projection is compatible with its snapshot (not older in
    block or EVM time), contains every market of the snapshot accrued exactly
    and in a consistent state, values every position at its accrued market,
    and reports the service values exactly as their thresholds say. *)
Theorem projection_sound snapshot head config view :
  snapshot_markets_wf snapshot ->
  project_snapshot_to_head snapshot head config = Ok view ->
  blk_number (ctx_block (ev_context snapshot)) <= blk_number head /\
  vv_address config = pv_vault (ev_parent snapshot) /\
  ctx_evm_timestamp (ev_context snapshot) <= evm_time_at snapshot head /\
  (forall id m, ev_markets snapshot !! id = Some m -> exists r,
     accrue_market m (evm_time_at snapshot head)
       (mkAdaptiveCurveState (sm_stored_rate_at_target m)) = Ok r /\
     pw_markets view !! id = Some (ma_market r) /\ Market.consistent (ma_market r)) /\
  (forall k p, ev_positions snapshot !! k = Some p -> exists market v,
     pw_markets view !! dp_market_id p = Some market /\
     Market.expected_adapter_assets (dp_internal_supply_shares p) market = Ok v /\
     pj_position_expected_assets (pw_vault view) !! k = Some v) /\
  (pw_deposit_headroom_satisfied view = true <->
     vv_minimum_deposit_headroom_assets config
     <= pj_max_executable_deposit_assets (pw_vault view)) /\
  (pw_atomic_exit_coverage_satisfied view = true <->
     vv_minimum_atomic_exit_coverage_assets config
     <= pj_atomic_exit_coverage_assets (pw_vault view)).
Proof.
  intros Hwf H. unfold project_snapshot_to_head in H. cbv zeta in H.
  step_ok H as lag Hlag. step_ok H as t Ht.
  destruct (_ || _ || _) eqn:Hg; [done|].
  apply orb_false_iff in Hg as [[Hg1%Z.ltb_ge Hg2%Z.ltb_ge]%orb_false_iff Hg3].
  apply negb_false_iff, Z.eqb_eq in Hg3.
  assert (t = evm_time_at snapshot head) as Et.
  { apply ok_or_Ok, checked_sub_Some in Hlag as [-> _].
    by apply ok_or_Ok, checked_sub_Some in Ht as [-> _]. }
  step_ok H as markets Hm. step_ok H as pq Hpq. step_ok H as [real cu] Hrc.
  step_ok H as par Hpar. step_ok H as dep Hdep. step_ok H as dea Hdea. step_ok H as cov Hcov.
  injection H as <-. cbn. split; [done|]. split; [done|]. split; [by rewrite <-Et|].
  split; [|split; [|split; apply Z.leb_le]].
  - intros id m Hid. destruct (Hwf id m Hid) as [Hw Hr].
    unfold project_markets in Hm.
    assert (exists r, accrue_market m t (mkAdaptiveCurveState (sm_stored_rate_at_target m)) = Ok r
      /\ markets !! id = Some (ma_market r)) as (r & Hacc & Hlk).
    { destruct (try_fold_insert
        (fun (_ : Z) m => accrued ← pmath (accrue_market m t
           (mkAdaptiveCurveState (sm_stored_rate_at_target m))); Ok (ma_market accrued))
        (ev_markets snapshot) markets) with (k := id) (a := m) as (b & Hb & Hlk); [|done|].
      - rewrite <-Hm. clear. generalize (∅ : gmap Z ProjectedMarketState).
        induction (btree_entries (ev_markets snapshot)) as [|e l IH]; intros acc; [done|].
        cbn. destruct (pmath _); cbn; [apply IH|done].
      - apply bind_Ok in Hb as (r & Hr1%map_err_Ok & Hb). injection Hb as <-. eauto. }
    exists r. rewrite <-Et. split; [done|]. split; [done|].
    eapply Market.accrue_market_consistent; [exact Hw| |exact Hacc]; exact Hr.
  - intros k p Hk%elem_of_btree_entries.
    eapply project_positions_lookup; [apply NoDup_btree_keys|exact Hpq|done].
Qed.

End Sound.
