(* ===== verification/Simulator.v ===== *)
(** * Exact sequential action simulation

    Models [src/src/planner/simulator.rs].  The source threads one mutable
    [SimulationState] through the actions; here each step returns the next
    state, and a failing step discards it, as [simulate_actions] does. *)

From stdpp Require Import base gmap list.
From Stdlib Require Import ZArith Lia.
From S2P Require Import Prelude.
From S2P Require Import BlueMath.
From S2P Require Import Domain.
From S2P Require Import AdaptiveCurve.
From S2P Require Import Accrual.
From S2P Require Import Adapters.
From S2P Require Import Config.
From S2P Require Import Caps.
From S2P Require Import Projection.

Record ActionProjection : Type := mkActionProjection {
  act_position : PositionKey;
  act_requested_assets : Z;
  act_changed_shares : Z;
  act_expected_assets_after : Z;
  act_allocation_change : Z;
  act_positive_loss_assets : Z;
}.

Record PositionSimulation : Type := mkPositionSimulation {
  ps_adapter : AdapterAddress;
  ps_market : MarketId;
  ps_current : bool;
  ps_internal_shares : Z;
  ps_expected_assets : Z;
  ps_recorded_market_allocation : Z;
  ps_affected_caps : CapRef * CapRef * CapRef;
  ps_mode : MarketMode;
}.

Record SimulationState : Type := mkSimulationState {
  ss_projection_timestamp : Z;
  ss_markets : gmap MarketId ProjectedMarketState;
  ss_positions : gmap PositionKey PositionSimulation;
  ss_initial_position_assets : gmap PositionKey Z;
  ss_liquidity_adapter : option VaultV1LiquidityAdapterState;
  ss_cap_ledger : gmap CapRef Z;
  ss_vault_idle : Z;
  ss_locked_idle : Z;
  ss_first_total_assets : option Z;
  ss_shared_liquidity : SharedTokenLiquidity;
  ss_actions : list ActionProjection;
  ss_immediate_loss_assets : Z;
}.

Inductive SimulationError : Type :=
| InvalidAction
| IncompleteState
| PositionMode
| InsufficientIdle
| InvalidDeallocationCap
| AllocationCap
| SimulationMath (e : MathError)
| Liquidity (e : LiquidityError)
| SimulationArithmetic
| ServiceConstraint.
#[global] Instance SimulationError_eq_dec : EqDecision SimulationError.
Proof. solve_decision. Defined.

Definition smath {A} (c : result MathError A) : result SimulationError A :=
  map_err SimulationMath c.
Definition sliq {A} (c : result LiquidityError A) : result SimulationError A :=
  map_err Liquidity c.

Definition apply_delta (value delta : Z) : result SimulationError Z :=
  value ← ok_or (i256_of_u256 value) SimulationArithmetic;
  sum ← ok_or (i256_add value delta) SimulationArithmetic;
  ok_or (u256_of_i256 sum) InvalidDeallocationCap.

Definition cap_refs (caps : CapRef * CapRef * CapRef) : list CapRef :=
  let '(a, b, c) := caps in [a; b; c].

(** ** Terminal values *)

Definition terminal_market (st : SimulationState) (snapshot : ExactVaultSnapshot)
    (projection : ProjectedVaultView) (horizon_timestamp : Z)
    (terminal_markets : gmap MarketId ProjectedMarketState)
    (entry : MarketId * ProjectedMarketState)
    : result SimulationError (gmap MarketId ProjectedMarketState) :=
  let '(id, market) := entry in
  source ← ok_or (ev_markets snapshot !! id) IncompleteState;
  balance ← sliq (liquidity_remaining (ss_shared_liquidity st) (mp_loan_token (sm_params source)));
  let stored := mkStoredMarketState id (sm_params source) (pm_total_supply_assets market)
                  (pm_total_supply_shares market) (pm_total_borrow_assets market)
                  (pm_total_borrow_shares market) (blk_timestamp (pw_head projection))
                  (sm_fee source) (sm_irm source) (pm_ending_rate_at_target market) balance in
  accrued ← smath (accrue_market stored horizon_timestamp
                     (mkAdaptiveCurveState (sm_stored_rate_at_target stored)));
  Ok (<[id := ma_market accrued]> terminal_markets).

Definition terminal_position (terminal_markets : gmap MarketId ProjectedMarketState)
    (totals : gmap AdapterAddress Z) (position : PositionSimulation)
    : result SimulationError (gmap AdapterAddress Z) :=
  if ps_current position then
    market ← ok_or (terminal_markets !! ps_market position) IncompleteState;
    assets ← smath (Market.expected_adapter_assets (ps_internal_shares position) market);
    total ← ok_or (checked_add U256_MAX (default 0 (totals !! ps_adapter position)) assets)
              SimulationArithmetic;
    Ok (<[ps_adapter position := total]> totals)
  else Ok totals.

Definition terminal_adapter_assets (st : SimulationState) (snapshot : ExactVaultSnapshot)
    (projection : ProjectedVaultView) (horizon_timestamp : Z)
    : result SimulationError (gmap AdapterAddress Z) :=
  if horizon_timestamp <? blk_timestamp (pw_head projection) then Err SimulationArithmetic
  else
    terminal_markets ← try_fold (terminal_market st snapshot projection horizon_timestamp) ∅
                         (btree_entries (ss_markets st));
    totals ← try_fold (terminal_position terminal_markets) ∅ (btree_values (ss_positions st));
    Ok (match ss_liquidity_adapter st with
        | Some liquidity => <[la_adapter liquidity := la_real_assets liquidity]> totals
        | None => totals
        end).

Definition terminal_real_assets (st : SimulationState) (snapshot : ExactVaultSnapshot)
    (projection : ProjectedVaultView) (horizon_timestamp : Z) : result SimulationError Z :=
  totals ← terminal_adapter_assets st snapshot projection horizon_timestamp;
  try_fold (fun total assets => ok_or (checked_add U256_MAX total assets) SimulationArithmetic)
    (ss_vault_idle st) (btree_values totals).

(** The parent with the simulated idle balance. *)
Definition with_idle (parent : ParentVaultState) (idle : Z) : ParentVaultState :=
  mkParentVaultState (pv_vault parent) (pv_asset parent) idle (pv_stored_total_assets parent)
    (pv_last_update parent) (pv_max_rate parent) (pv_total_supply parent)
    (pv_virtual_shares parent) (pv_performance_fee parent) (pv_performance_fee_recipient parent)
    (pv_performance_fee_recipient_allowed parent) (pv_management_fee parent)
    (pv_management_fee_recipient parent) (pv_management_fee_recipient_allowed parent)
    (pv_receive_shares_gate parent) (pv_send_shares_gate parent)
    (pv_receive_assets_gate parent) (pv_send_assets_gate parent) (pv_adapter_registry parent)
    (pv_liquidity_adapter parent) (pv_liquidity_data parent)
    (pv_force_deallocate_penalties parent) (pv_approved_allocators parent)
    (pv_approved_sentinels parent) (pv_dead_address parent) (pv_dead_share_balance parent)
    (pv_required_dead_shares parent).

(** The parent with the totals of a terminal projection. *)
Definition with_totals (parent : ParentVaultState) (stored total_supply last_update : Z)
    : ParentVaultState :=
  mkParentVaultState (pv_vault parent) (pv_asset parent) (pv_idle_assets parent) stored
    last_update (pv_max_rate parent) total_supply
    (pv_virtual_shares parent) (pv_performance_fee parent) (pv_performance_fee_recipient parent)
    (pv_performance_fee_recipient_allowed parent) (pv_management_fee parent)
    (pv_management_fee_recipient parent) (pv_management_fee_recipient_allowed parent)
    (pv_receive_shares_gate parent) (pv_send_shares_gate parent)
    (pv_receive_assets_gate parent) (pv_send_assets_gate parent) (pv_adapter_registry parent)
    (pv_liquidity_adapter parent) (pv_liquidity_data parent)
    (pv_force_deallocate_penalties parent) (pv_approved_allocators parent)
    (pv_approved_sentinels parent) (pv_dead_address parent) (pv_dead_share_balance parent)
    (pv_required_dead_shares parent).

(** [shares * (assets + 1) / (supply + virtual)], the value of the old shares. *)
Definition share_value (shares total_assets total_supply virtual_shares : Z)
    : result SimulationError Z :=
  numerator_assets ← ok_or (checked_add U256_MAX total_assets 1) SimulationArithmetic;
  denominator_shares ← ok_or (checked_add U256_MAX total_supply virtual_shares)
                         SimulationArithmetic;
  smath (arith (mul_div_down shares numerator_assets denominator_shares)).

Definition terminal_existing_shareholder_assets (st : SimulationState)
    (snapshot : ExactVaultSnapshot) (projection : ProjectedVaultView) (horizon_timestamp : Z)
    : result SimulationError Z :=
  totals ← terminal_adapter_assets st snapshot projection horizon_timestamp;
  let parent :=
    with_totals (with_idle (ev_parent snapshot) (ss_vault_idle st))
      (default (pj_parent_total_assets (pw_vault projection)) (ss_first_total_assets st))
      (pj_projected_total_supply (pw_vault projection))
      (blk_timestamp (pw_head projection)) in
  terminal ← smath (accrue_parent_view parent totals horizon_timestamp);
  share_value (pv_total_supply (ev_parent snapshot)) (pr_total_assets terminal)
    (pr_projected_total_supply terminal) (pv_virtual_shares parent).

(** ** Construction *)

Definition simulate_position (snapshot : ExactVaultSnapshot) (projection : ProjectedVaultView)
    (positions : gmap PositionKey PositionSimulation)
    (entry : PositionKey * DirectMarketPositionState)
    : result SimulationError (gmap PositionKey PositionSimulation) :=
  let '(key, position) := entry in
  adapter ← ok_or (ev_adapters snapshot !! dp_adapter position) IncompleteState;
  expected ← ok_or (pj_position_expected_assets (pw_vault projection) !! key) IncompleteState;
  Ok (<[key := mkPositionSimulation (dp_adapter position) (dp_market_id position)
                 (bool_decide (dp_market_id position ∈ da_current_market_ids adapter))
                 (dp_internal_supply_shares position) expected
                 (dp_parent_recorded_market_allocation position) (dp_affected_caps position)
                 (dp_mode position)]> positions).

Definition from_projection (snapshot : ExactVaultSnapshot) (projection : ProjectedVaultView)
    : result SimulationError SimulationState :=
  positions ← try_fold (simulate_position snapshot projection) ∅
                (btree_entries (ev_positions snapshot));
  locked_idle ← try_fold
    (fun total lock => ok_or (checked_add U256_MAX total (il_remaining_assets lock))
                         SimulationArithmetic)
    0 (ils_locks (ev_idle_locks snapshot));
  if negb (ils_verified (ev_idle_locks snapshot))
     || (pv_idle_assets (ev_parent snapshot) <? locked_idle)
  then Err InsufficientIdle
  else
    shared_liquidity ← try_fold
      (fun ledger market => sliq (register ledger (mp_loan_token (sm_params market))
                                    (sm_morpho_loan_token_balance market)))
      liquidity_default (btree_values (ev_markets snapshot));
    Ok (mkSimulationState (blk_timestamp (pw_head projection)) (pw_markets projection)
          positions (pj_position_expected_assets (pw_vault projection))
          (ev_liquidity_adapter snapshot) (cs_recorded_allocation <$> ev_caps snapshot)
          (pv_idle_assets (ev_parent snapshot)) locked_idle None shared_liquidity [] 0).

Definition unreserved_idle (st : SimulationState) : result SimulationError Z :=
  ok_or (checked_sub (ss_vault_idle st) (ss_locked_idle st)) InsufficientIdle.

(** Direct real assets per adapter, in position order. *)
Definition adapter_real_assets_step (snapshot : ExactVaultSnapshot)
    (totals : gmap AdapterAddress Z) (entry : PositionKey * PositionSimulation)
    : result SimulationError (gmap AdapterAddress Z) :=
  let '(key, position) := entry in
  totals ← (if ps_current position then
              total ← ok_or (checked_add U256_MAX (default 0 (totals !! ps_adapter position))
                               (ps_expected_assets position)) SimulationArithmetic;
              Ok (<[ps_adapter position := total]> totals)
            else Ok totals);
  if bool_decide (is_Some (ev_positions snapshot !! key)) then Ok totals
  else Err IncompleteState.

Definition adapter_real_assets (st : SimulationState) (snapshot : ExactVaultSnapshot)
    : result SimulationError (gmap AdapterAddress Z) :=
  totals ← try_fold (adapter_real_assets_step snapshot) ∅ (btree_entries (ss_positions st));
  Ok (match ss_liquidity_adapter st with
      | Some liquidity => <[la_adapter liquidity := la_real_assets liquidity]> totals
      | None => totals
      end).

Definition parent_total_assets (st : SimulationState) (snapshot : ExactVaultSnapshot)
    : result SimulationError Z :=
  totals ← adapter_real_assets st snapshot;
  accrued ← smath (accrue_parent_view (with_idle (ev_parent snapshot) (ss_vault_idle st)) totals
                     (ss_projection_timestamp st));
  Ok (pr_total_assets accrued).

(** ** Service constraints *)

Section Encoding.
Context `{Keccak} `{AbiParams}.

Definition position_expected_assets (st : SimulationState) (position : PositionKey) : option Z :=
  match ss_positions st !! position with
  | Some p => Some (ps_expected_assets p)
  | None =>
      adapter ← ss_liquidity_adapter st;
      if derive_liquidity_position_key (la_adapter adapter) =? position
      then Some (la_real_assets adapter) else None
  end.

Definition is_liquidity_config (snapshot : ExactVaultSnapshot)
    (configured : ValidatedPositionConfig) : bool :=
  (pc_adapter configured =? pv_liquidity_adapter (ev_parent snapshot))
  && bool_decide (encode_adapter_data (pc_market_params configured)
                  = pv_liquidity_data (ev_parent snapshot)).

(** Caps of a simulated deposit, read from the simulated ledger. *)
Fixpoint ledger_caps_admit (st : SimulationState) (snapshot : ExactVaultSnapshot)
    (total change : Z) (references : list CapRef) : result SimulationError bool :=
  match references with
  | [] => Ok true
  | reference :: references =>
      recorded ← ok_or (ss_cap_ledger st !! reference) IncompleteState;
      cap ← ok_or (ev_caps snapshot !! reference) IncompleteState;
      allocation ← apply_delta recorded change;
      if is_ok (validate_allocation_cap cap total allocation)
      then ledger_caps_admit st snapshot total change references
      else Ok false
  end.

Definition liquidity_deposit_feasible (liquidity : VaultV1LiquidityAdapterState)
    (cap : CapState) (recorded total_assets assets : Z) : result SimulationError bool :=
  match checked_add U256_MAX total_assets assets with
  | None => Ok false
  | Some total =>
      if U128_MAX <? total then Ok false
      else match VaultV1.allocate liquidity assets with
           | Err _ => Ok false
           | Ok transition =>
               allocation ← apply_delta recorded (VaultV1.vt_allocation_change transition);
               Ok (is_ok (validate_allocation_cap cap total allocation))
           end
  end.

Definition direct_deposit_feasible (st : SimulationState) (snapshot : ExactVaultSnapshot)
    (position : PositionSimulation) (market : ProjectedMarketState) (stored : StoredMarketState)
    (total_assets assets : Z) : result SimulationError bool :=
  match checked_add U256_MAX total_assets assets with
  | None => Ok false
  | Some total =>
      if U128_MAX <? total then Ok false
      else match Market.allocate market (ps_internal_shares position) assets
                   (ps_recorded_market_allocation position) (sm_fee stored)
                   (ps_affected_caps position) with
           | Err _ => Ok false
           | Ok transition =>
               ledger_caps_admit st snapshot total (Market.at_allocation_change transition)
                 (cap_refs (ps_affected_caps position))
           end
  end.

Definition maximum_executable_deposit (st : SimulationState) (snapshot : ExactVaultSnapshot)
    (config : ValidatedVaultConfig) (total_assets : Z) : result SimulationError Z :=
  let upper := vv_deposit_headroom_search_upper_bound_assets config in
  if (upper =? 0) || negb (pv_receive_shares_gate (ev_parent snapshot) =? 0)
     || negb (pv_send_assets_gate (ev_parent snapshot) =? 0)
  then Ok 0
  else if pv_liquidity_adapter (ev_parent snapshot) =? 0 then
    Ok (Z.min upper (saturating_sub U128_MAX total_assets))
  else match ss_liquidity_adapter st with
       | Some liquidity =>
           let reference := mkCapRef (vv_address config) (la_adapter_id liquidity) in
           recorded ← ok_or (ss_cap_ledger st !! reference) IncompleteState;
           cap ← ok_or (ev_caps snapshot !! reference) IncompleteState;
           monotone_maximum SimulationArithmetic
             (liquidity_deposit_feasible liquidity cap recorded total_assets)
             (Z.min upper (la_max_deposit liquidity))
       | None =>
           configured ← ok_or (List.find (is_liquidity_config snapshot) (vv_positions config))
                          IncompleteState;
           position ← ok_or (ss_positions st !! pc_position_key configured) IncompleteState;
           stored ← ok_or (ev_markets snapshot !! ps_market position) IncompleteState;
           market ← ok_or (ss_markets st !! ps_market position) IncompleteState;
           monotone_maximum SimulationArithmetic
             (direct_deposit_feasible st snapshot position market stored total_assets) upper
       end.

Definition atomic_exit_coverage (st : SimulationState) (snapshot : ExactVaultSnapshot)
    (config : ValidatedVaultConfig) : result SimulationError Z :=
  executable ←
    (match ss_liquidity_adapter st with
     | Some liquidity => Ok (Z.min (la_max_withdraw liquidity) (la_real_assets liquidity))
     | None =>
         if pv_liquidity_adapter (ev_parent snapshot) =? 0 then Ok 0
         else
           configured ← ok_or (List.find (is_liquidity_config snapshot) (vv_positions config))
                          IncompleteState;
           position ← ok_or (ss_positions st !! pc_position_key configured) IncompleteState;
           market ← ok_or (ss_markets st !! ps_market position) IncompleteState;
           stored ← ok_or (ev_markets snapshot !! ps_market position) IncompleteState;
           shared ← sliq (liquidity_remaining (ss_shared_liquidity st)
                            (mp_loan_token (sm_params stored)));
           let upper := Z.min (Z.min (ps_expected_assets position)
                                 (pm_accounting_liquidity market)) shared in
           monotone_maximum SimulationArithmetic
             (fun assets =>
                shared ← sliq (liquidity_remaining (ss_shared_liquidity st)
                                 (mp_loan_token (sm_params stored)));
                Ok (is_ok (Market.deallocate market (ps_internal_shares position) assets
                             (ps_recorded_market_allocation position) shared (sm_fee stored)
                             (ps_affected_caps position))))
             upper
     end);
  ok_or (checked_add U256_MAX (ss_vault_idle st) executable) SimulationArithmetic.

(** Whether leaving a position entirely is allowed by policy, dust or economics. *)
Definition exit_permitted (st : SimulationState) (snapshot : ExactVaultSnapshot)
    (config : ValidatedVaultConfig) (retained_active_positions : Z)
    (configured : ValidatedPositionConfig) (position : PositionSimulation) : bool :=
  let policy_exit :=
    match pc_mode configured with SourceOnly | Disabled => true | _ => false end in
  let dust_exit :=
    negb (is_liquidity_config snapshot configured)
    && match ss_initial_position_assets st !! pc_position_key configured with
       | Some assets => assets <=? pc_complete_exit_dust_threshold_assets configured
       | None => false
       end in
  let economic_exit :=
    bool_decide (pc_mode configured = Active) && pc_allow_active_complete_exit configured
    && (vv_minimum_active_positions_after_economic_exit config <=? retained_active_positions) in
  (ps_expected_assets position =? 0) && (ps_recorded_market_allocation position =? 0)
  && (policy_exit || dust_exit || economic_exit).

(** The checks on one configured position, with the running asset totals. *)
Definition check_position (st : SimulationState) (snapshot : ExactVaultSnapshot)
    (config : ValidatedVaultConfig) (retained : Z) (acc : Z * Z)
    (configured : ValidatedPositionConfig) : result SimulationError (Z * Z) :=
  let '(liquidity_adapter_assets, group_assets) := acc in
  position ← ok_or (ss_positions st !! pc_position_key configured) IncompleteState;
  group_assets ← ok_or (checked_add U256_MAX group_assets (ps_expected_assets position))
                   SimulationArithmetic;
  previous ← ok_or (ev_positions snapshot !! pc_position_key configured) IncompleteState;
  if negb (dp_internal_supply_shares previous =? 0) && (ps_internal_shares position =? 0)
     && negb (exit_permitted st snapshot config retained configured position)
  then Err ServiceConstraint
  else if (negb (ps_expected_assets position =? 0)
           && (ps_expected_assets position <? pc_minimum_position_assets configured))
          || (pc_maximum_position_assets configured <? ps_expected_assets position)
  then Err ServiceConstraint
  else
    market ← ok_or (ss_markets st !! pc_market_id configured) IncompleteState;
    stored ← ok_or (ev_markets snapshot !! pc_market_id configured) IncompleteState;
    shared ← sliq (liquidity_remaining (ss_shared_liquidity st) (mp_loan_token (sm_params stored)));
    let source_eligible :=
      negb (ps_internal_shares position =? 0)
      && match pc_mode configured with Active | SourceOnly => true | _ => false end in
    if source_eligible
       && ((pm_accounting_liquidity market <? pc_minimum_source_liquidity_assets configured)
           || (pc_maximum_source_utilization_wad configured <? pm_utilization market)
           || (shared <? vv_minimum_source_token_liquidity_assets config))
    then Err ServiceConstraint
    else if pc_adapter configured =? pv_liquidity_adapter (ev_parent snapshot) then
      total ← ok_or (checked_add U256_MAX liquidity_adapter_assets (ps_expected_assets position))
                SimulationArithmetic;
      Ok (total, group_assets)
    else Ok (liquidity_adapter_assets, group_assets).

Definition retained_active_positions (st : SimulationState) (config : ValidatedVaultConfig) : Z :=
  Z.of_nat (length (List.filter
    (fun configured =>
       bool_decide (pc_mode configured = Active)
       && match ss_positions st !! pc_position_key configured with
          | Some position => negb (ps_internal_shares position =? 0)
          | None => false
          end) (vv_positions config))).

Definition validate_service_constraints (st : SimulationState) (snapshot : ExactVaultSnapshot)
    (config : ValidatedVaultConfig) : result SimulationError unit :=
  let initial := match ss_liquidity_adapter st with
                 | Some adapter => la_real_assets adapter | None => 0 end in
  '(liquidity_adapter_assets, group_assets) ←
    try_fold (check_position st snapshot config (retained_active_positions st config))
      (initial, 0) (vv_positions config);
  if (group_assets <? rg_minimum_assets (vv_rate_group config))
     || (rg_maximum_assets (vv_rate_group config) <? group_assets)
  then Err ServiceConstraint
  else if liquidity_adapter_assets <? vv_minimum_liquidity_adapter_assets config
  then Err ServiceConstraint
  else
    total_assets ← parent_total_assets st snapshot;
    deposit ← maximum_executable_deposit st snapshot config total_assets;
    if deposit <? vv_minimum_deposit_headroom_assets config then Err ServiceConstraint
    else
      coverage ← atomic_exit_coverage st snapshot config;
      if coverage <? vv_minimum_atomic_exit_coverage_assets config then Err ServiceConstraint
      else Ok tt.

(** ** Values without a plan *)

Definition no_plan_head (projection : ProjectedVaultView) (horizon_timestamp : Z) : BlockRef :=
  mkBlockRef (blk_number (pw_head projection)) (blk_hash (pw_head projection))
    (blk_parent_hash (pw_head projection)) horizon_timestamp (blk_gas_limit (pw_head projection)).

Definition no_plan_terminal_existing_shareholder_assets (snapshot : ExactVaultSnapshot)
    (config : ValidatedVaultConfig) (projection : ProjectedVaultView) (horizon_timestamp : Z)
    : result SimulationError Z :=
  terminal ← map_err (fun _ => IncompleteState)
    (project_snapshot_to_head snapshot (no_plan_head projection horizon_timestamp) config);
  share_value (pv_total_supply (ev_parent snapshot)) (pj_parent_total_assets (pw_vault terminal))
    (pj_projected_total_supply (pw_vault terminal)) (pv_virtual_shares (ev_parent snapshot)).

Definition no_plan_position (snapshot : ExactVaultSnapshot) (terminal : ProjectedVaultView)
    (total : Z) (entry : PositionKey * DirectMarketPositionState) : result SimulationError Z :=
  let '(position_key, position) := entry in
  adapter ← ok_or (ev_adapters snapshot !! dp_adapter position) IncompleteState;
  if negb (bool_decide (dp_market_id position ∈ da_current_market_ids adapter)) then Ok total
  else
    assets ← ok_or (pj_position_expected_assets (pw_vault terminal) !! position_key)
               IncompleteState;
    ok_or (checked_add U256_MAX total assets) SimulationArithmetic.

Definition no_plan_terminal_real_assets (snapshot : ExactVaultSnapshot)
    (config : ValidatedVaultConfig) (projection : ProjectedVaultView) (horizon_timestamp : Z)
    : result SimulationError Z :=
  terminal ← map_err (fun _ => IncompleteState)
    (project_snapshot_to_head snapshot (no_plan_head projection horizon_timestamp) config);
  direct_assets ← try_fold (no_plan_position snapshot terminal) 0
                    (btree_entries (ev_positions snapshot));
  ok_or
    (total ← checked_add U256_MAX direct_assets (pv_idle_assets (ev_parent snapshot));
     match ev_liquidity_adapter snapshot with
     | None => Some total
     | Some adapter => checked_add U256_MAX total (la_real_assets adapter)
     end) SimulationArithmetic.

(** ** Actions *)

(** The liquidity adapter after one of its transitions. *)
Definition liquidity_after (current : VaultV1LiquidityAdapterState)
    (transition : VaultV1.VaultV1AdapterTransition) (recorded max_deposit max_withdraw : Z)
    : VaultV1LiquidityAdapterState :=
  mkVaultV1LiquidityAdapterState (la_adapter current) (la_parent_vault current)
    (la_morpho_vault_v1 current) (la_adapter_id current) (la_runtime_code_hash current)
    (la_morpho_vault_v1_runtime_code_hash current) (VaultV1.vt_real_assets transition) recorded
    (VaultV1.vt_share_balance transition) (VaultV1.vt_vault_total_assets transition)
    (VaultV1.vt_vault_total_supply transition) (la_decimals_offset current) max_deposit
    max_withdraw (la_idle_market_id current)
    (VaultV1.vt_idle_market_total_supply_assets transition)
    (VaultV1.vt_idle_market_total_supply_shares transition)
    (VaultV1.vt_idle_market_supply_shares transition) (la_skim_recipient current).

(** The position after a direct transition. *)
Definition position_after (position : PositionSimulation)
    (transition : Market.AdapterTransitionResult) : PositionSimulation :=
  mkPositionSimulation (ps_adapter position) (ps_market position)
    (negb (Market.at_internal_supply_shares transition =? 0))
    (Market.at_internal_supply_shares transition) (Market.at_expected_assets transition)
    (Market.at_expected_assets transition) (ps_affected_caps position) (ps_mode position).

Definition cap_deallocated (change : Z) (ledger : gmap CapRef Z) (reference : CapRef)
    : result SimulationError (gmap CapRef Z) :=
  old ← ok_or (ledger !! reference) IncompleteState;
  if old =? 0 then Err InvalidDeallocationCap
  else
    updated ← apply_delta old change;
    Ok (<[reference := updated]> ledger).

Definition cap_allocated (snapshot : ExactVaultSnapshot) (first_total_assets change : Z)
    (ledger : gmap CapRef Z) (reference : CapRef) : result SimulationError (gmap CapRef Z) :=
  old ← ok_or (ledger !! reference) IncompleteState;
  updated ← apply_delta old change;
  cap ← ok_or (ev_caps snapshot !! reference) IncompleteState;
  _ ← map_err (fun _ => AllocationCap) (validate_allocation_cap cap first_total_assets updated);
  Ok (<[reference := updated]> ledger).

Definition simulate_liquidity_deallocation (st : SimulationState) (config : ValidatedVaultConfig)
    (configured : ValidatedLiquidityAdapterConfig) (key : PositionKey) (adapter : AdapterAddress)
    (data : Bytes) (requested : Z) : result SimulationError SimulationState :=
  if negb (lac_address configured =? adapter) || negb (bool_decide (data = []))
     || (lac_maximum_action_assets configured <? requested)
  then Err InvalidAction
  else
    current ← ok_or (ss_liquidity_adapter st) IncompleteState;
    if negb (la_adapter current =? adapter) then Err IncompleteState
    else
      transition ← smath (VaultV1.deallocate current requested);
      let reference := mkCapRef (vv_address config) (la_adapter_id current) in
      old ← ok_or (ss_cap_ledger st !! reference) IncompleteState;
      updated ← apply_delta old (VaultV1.vt_allocation_change transition);
      '(shared_liquidity, _) ← sliq (consume (ss_shared_liquidity st) (vv_asset config) requested);
      vault_idle ← ok_or (checked_add U256_MAX (ss_vault_idle st) requested) SimulationArithmetic;
      recovered ← ok_or (checked_add U256_MAX (VaultV1.vt_real_assets transition) requested)
                    SimulationArithmetic;
      let local_loss := saturating_sub (la_real_assets current) recovered in
      immediate_loss ← ok_or (checked_add U256_MAX (ss_immediate_loss_assets st) local_loss)
                         SimulationArithmetic;
      Ok (mkSimulationState (ss_projection_timestamp st) (ss_markets st) (ss_positions st)
            (ss_initial_position_assets st)
            (Some (liquidity_after current transition updated (la_max_deposit current)
                     (saturating_sub (la_max_withdraw current) requested)))
            (<[reference := updated]> (ss_cap_ledger st)) vault_idle (ss_locked_idle st)
            (ss_first_total_assets st) shared_liquidity
            (ss_actions st ++
               [mkActionProjection key requested (VaultV1.vt_changed_morpho_shares transition)
                  (VaultV1.vt_real_assets transition) (VaultV1.vt_allocation_change transition)
                  local_loss])
            immediate_loss).

Definition simulate_direct_deallocation (st : SimulationState) (snapshot : ExactVaultSnapshot)
    (config : ValidatedVaultConfig) (key : PositionKey) (adapter : AdapterAddress)
    (data : Bytes) (requested : Z) : result SimulationError SimulationState :=
  configured ← ok_or (List.find (fun position => pc_position_key position =? key)
                        (vv_positions config)) IncompleteState;
  if negb (pc_adapter configured =? adapter)
     || negb (bool_decide (data = encode_adapter_data (pc_market_params configured)))
  then Err InvalidAction
  else
    position ← ok_or (ss_positions st !! key) IncompleteState;
    if negb (match ps_mode position with Active | SourceOnly | Disabled => true | _ => false end)
    then Err PositionMode
    else if negb (bool_decide (is_Some (ev_adapters snapshot !! adapter))) then Err IncompleteState
    else
      market ← ok_or (ss_markets st !! ps_market position) IncompleteState;
      stored ← ok_or (ev_markets snapshot !! ps_market position) IncompleteState;
      let token := mp_loan_token (sm_params stored) in
      token_balance ← sliq (liquidity_remaining (ss_shared_liquidity st) token);
      transition ← smath (Market.deallocate market (ps_internal_shares position) requested
                            (ps_recorded_market_allocation position) token_balance
                            (sm_fee stored) (ps_affected_caps position));
      cap_ledger ← try_fold (cap_deallocated (Market.at_allocation_change transition))
                     (ss_cap_ledger st) (cap_refs (ps_affected_caps position));
      '(shared_liquidity, _) ← sliq (consume (ss_shared_liquidity st) token requested);
      vault_idle ← ok_or (checked_add U256_MAX (ss_vault_idle st) requested) SimulationArithmetic;
      recovered ← ok_or (checked_add U256_MAX (Market.at_expected_assets transition) requested)
                    SimulationArithmetic;
      let local_loss := saturating_sub (ps_expected_assets position) recovered in
      immediate_loss ← ok_or (checked_add U256_MAX (ss_immediate_loss_assets st) local_loss)
                         SimulationArithmetic;
      Ok (mkSimulationState (ss_projection_timestamp st)
            (<[ps_market position := Market.at_market transition]> (ss_markets st))
            (<[key := position_after position transition]> (ss_positions st))
            (ss_initial_position_assets st) (ss_liquidity_adapter st) cap_ledger vault_idle
            (ss_locked_idle st) (ss_first_total_assets st) shared_liquidity
            (ss_actions st ++
               [mkActionProjection key requested (Market.at_changed_shares transition)
                  (Market.at_expected_assets transition)
                  (Market.at_allocation_change transition) local_loss])
            immediate_loss).

(** The liquidity adapter's configuration when the action names its position. *)
Definition liquidity_target (config : ValidatedVaultConfig) (key : PositionKey)
    : option ValidatedLiquidityAdapterConfig :=
  configured ← vv_liquidity_adapter config;
  if lac_position_key configured =? key then Some configured else None.

Definition simulate_deallocation (st : SimulationState) (snapshot : ExactVaultSnapshot)
    (config : ValidatedVaultConfig) (action : V2Action) : result SimulationError SimulationState :=
  match action with
  | Deallocate key adapter data requested =>
      if requested =? 0 then Err InvalidAction
      else match liquidity_target config key with
           | Some configured =>
               simulate_liquidity_deallocation st config configured key adapter data requested
           | None => simulate_direct_deallocation st snapshot config key adapter data requested
           end
  | Allocate _ _ _ _ => Err InvalidAction
  end.

(** [firstTotalAssets], established once before the first allocation. *)
Definition establish_first_total (st : SimulationState) (snapshot : ExactVaultSnapshot)
    (projection : ProjectedVaultView) : result SimulationError Z :=
  match ss_first_total_assets st with
  | Some total => Ok total
  | None =>
      totals ← adapter_real_assets st snapshot;
      accrued ← smath (accrue_parent_view (with_idle (ev_parent snapshot) (ss_vault_idle st))
                         totals (blk_timestamp (pw_head projection)));
      Ok (pr_total_assets accrued)
  end.

Definition simulate_liquidity_allocation (st : SimulationState) (snapshot : ExactVaultSnapshot)
    (config : ValidatedVaultConfig) (projection : ProjectedVaultView)
    (configured : ValidatedLiquidityAdapterConfig) (key : PositionKey) (adapter : AdapterAddress)
    (data : Bytes) (requested : Z) : result SimulationError SimulationState :=
  if negb (lac_address configured =? adapter) || negb (bool_decide (data = []))
     || (lac_maximum_action_assets configured <? requested)
  then Err InvalidAction
  else
    first_total_assets ← establish_first_total st snapshot projection;
    current ← ok_or (ss_liquidity_adapter st) IncompleteState;
    if negb (la_adapter current =? adapter) then Err IncompleteState
    else
      transition ← smath (VaultV1.allocate current requested);
      let reference := mkCapRef (vv_address config) (la_adapter_id current) in
      old ← ok_or (ss_cap_ledger st !! reference) IncompleteState;
      updated ← apply_delta old (VaultV1.vt_allocation_change transition);
      cap ← ok_or (ev_caps snapshot !! reference) IncompleteState;
      _ ← map_err (fun _ => AllocationCap)
            (validate_allocation_cap cap first_total_assets updated);
      vault_idle ← ok_or (checked_sub (ss_vault_idle st) requested) InsufficientIdle;
      '(shared_liquidity, _) ← sliq (credit (ss_shared_liquidity st) (vv_asset config) requested);
      invested ← ok_or (checked_add U256_MAX (la_real_assets current) requested)
                   SimulationArithmetic;
      let local_loss := saturating_sub invested (VaultV1.vt_real_assets transition) in
      max_withdraw ← ok_or (checked_add U256_MAX (la_max_withdraw current) requested)
                       SimulationArithmetic;
      immediate_loss ← ok_or (checked_add U256_MAX (ss_immediate_loss_assets st) local_loss)
                         SimulationArithmetic;
      Ok (mkSimulationState (ss_projection_timestamp st) (ss_markets st) (ss_positions st)
            (ss_initial_position_assets st)
            (Some (liquidity_after current transition updated
                     (saturating_sub (la_max_deposit current) requested) max_withdraw))
            (<[reference := updated]> (ss_cap_ledger st)) vault_idle (ss_locked_idle st)
            (Some first_total_assets) shared_liquidity
            (ss_actions st ++
               [mkActionProjection key requested (VaultV1.vt_changed_morpho_shares transition)
                  (VaultV1.vt_real_assets transition) (VaultV1.vt_allocation_change transition)
                  local_loss])
            immediate_loss).

Definition simulate_direct_allocation (st : SimulationState) (snapshot : ExactVaultSnapshot)
    (config : ValidatedVaultConfig) (projection : ProjectedVaultView)
    (key : PositionKey) (adapter : AdapterAddress)
    (data : Bytes) (requested : Z) : result SimulationError SimulationState :=
  configured ← ok_or (List.find (fun position => pc_position_key position =? key)
                        (vv_positions config)) IncompleteState;
  if negb (pc_adapter configured =? adapter)
     || negb (bool_decide (data = encode_adapter_data (pc_market_params configured)))
  then Err InvalidAction
  else
    position ← ok_or (ss_positions st !! key) IncompleteState;
    if negb (bool_decide (ps_mode position = Active)) then Err PositionMode
    else if negb (bool_decide (is_Some (ev_adapters snapshot !! adapter))) then Err IncompleteState
    else
      first_total_assets ← establish_first_total st snapshot projection;
      market ← ok_or (ss_markets st !! ps_market position) IncompleteState;
      stored ← ok_or (ev_markets snapshot !! ps_market position) IncompleteState;
      transition ← smath (Market.allocate market (ps_internal_shares position) requested
                            (ps_recorded_market_allocation position) (sm_fee stored)
                            (ps_affected_caps position));
      cap_ledger ← try_fold (cap_allocated snapshot first_total_assets
                               (Market.at_allocation_change transition))
                     (ss_cap_ledger st) (cap_refs (ps_affected_caps position));
      vault_idle ← ok_or (checked_sub (ss_vault_idle st) requested) InsufficientIdle;
      '(shared_liquidity, _) ← sliq (credit (ss_shared_liquidity st)
                                       (mp_loan_token (sm_params stored)) requested);
      invested ← ok_or (checked_add U256_MAX (ps_expected_assets position) requested)
                   SimulationArithmetic;
      let local_loss := saturating_sub invested (Market.at_expected_assets transition) in
      immediate_loss ← ok_or (checked_add U256_MAX (ss_immediate_loss_assets st) local_loss)
                         SimulationArithmetic;
      Ok (mkSimulationState (ss_projection_timestamp st)
            (<[ps_market position := Market.at_market transition]> (ss_markets st))
            (<[key := position_after position transition]> (ss_positions st))
            (ss_initial_position_assets st) (ss_liquidity_adapter st) cap_ledger vault_idle
            (ss_locked_idle st) (Some first_total_assets) shared_liquidity
            (ss_actions st ++
               [mkActionProjection key requested (Market.at_changed_shares transition)
                  (Market.at_expected_assets transition)
                  (Market.at_allocation_change transition) local_loss])
            immediate_loss).

Definition simulate_allocation (st : SimulationState) (snapshot : ExactVaultSnapshot)
    (config : ValidatedVaultConfig) (projection : ProjectedVaultView) (action : V2Action)
    : result SimulationError SimulationState :=
  match action with
  | Allocate key adapter data requested =>
      if requested =? 0 then Err InvalidAction
      else
        idle ← unreserved_idle st;
        if idle <? requested then Err InsufficientIdle
        else match liquidity_target config key with
             | Some configured =>
                 simulate_liquidity_allocation st snapshot config projection configured key
                   adapter data requested
             | None =>
                 simulate_direct_allocation st snapshot config projection key adapter data
                   requested
             end
  | Deallocate _ _ _ _ => Err InvalidAction
  end.

(** The loop of [simulate_actions]: the phase flag, the touched positions and the
    state. *)
Fixpoint simulate_loop (snapshot : ExactVaultSnapshot) (projection : ProjectedVaultView)
    (config : ValidatedVaultConfig) (allocation_phase : bool) (touched : gset PositionKey)
    (st : SimulationState) (actions : list V2Action) : result SimulationError SimulationState :=
  match actions with
  | [] => Ok st
  | action :: actions =>
      if negb (is_allocation action) && allocation_phase then Err InvalidAction
      else
        let allocation_phase := allocation_phase || is_allocation action in
        if bool_decide (action_position action ∈ touched) then Err InvalidAction
        else
          st' ← (if is_allocation action
                 then simulate_allocation st snapshot config projection action
                 else simulate_deallocation st snapshot config action);
          simulate_loop snapshot projection config allocation_phase
            ({[action_position action]} ∪ touched) st' actions
  end.

Definition simulate_actions (snapshot : ExactVaultSnapshot) (projection : ProjectedVaultView)
    (config : ValidatedVaultConfig) (actions : list V2Action)
    : result SimulationError SimulationState :=
  st ← from_projection snapshot projection;
  simulate_loop snapshot projection config false ∅ st actions.

End Encoding.
