(* ===== verification/SimulatorProofs.v ===== *)
(** * Correctness of the action simulation

    What a successful run of [simulate_actions] guarantees: the action grammar,
    idle conservation, protection of locked idle, conservation of loan tokens
    between Morpho and the vault, complete accounting of losses, and cap
    admission in the final state for everything that was allocated. *)

From stdpp Require Import base gmap list strings.
From Stdlib Require Import ZArith Lia.
From S2P Require Import Prelude.
From S2P Require Import BlueMath.
From S2P Require Import Domain.
From S2P Require Import AdaptiveCurve.
From S2P Require Import Accrual.
From S2P Require Import Adapters.
From S2P Require Import Config.
From S2P Require Import Caps.
From S2P Require Import Projection.
From S2P Require Import Simulator.

(** Value tracked by the simulation: idle, direct positions, liquidity adapter. *)
Definition vault_value (st : SimulationState) : Z :=
  ss_vault_idle st + map_sum_by ps_expected_assets (ss_positions st)
  + match ss_liquidity_adapter st with Some la => la_real_assets la | None => 0 end.

(** Static facts the state keeps about the snapshot. *)
Definition frame (snapshot : ExactVaultSnapshot) (st : SimulationState) : Prop :=
  (forall k ps, ss_positions st !! k = Some ps ->
     exists p, ev_positions snapshot !! k = Some p /\
       cap_refs (ps_affected_caps ps) = affected_caps_list p) /\
  la_adapter_id <$> ss_liquidity_adapter st = la_adapter_id <$> ev_liquidity_adapter snapshot.

(** The caps an action is charged to. *)
Definition action_caps (snapshot : ExactVaultSnapshot) (config : ValidatedVaultConfig)
    (action : V2Action) : list CapRef :=
  match liquidity_target config (action_position action) with
  | Some _ => match ev_liquidity_adapter snapshot with
              | Some la => [mkCapRef (vv_address config) (la_adapter_id la)]
              | None => []
              end
  | None => match ev_positions snapshot !! action_position action with
            | Some p => affected_caps_list p
            | None => []
            end
  end.

(** The recorded allocation of a cap is admitted for the given first total. *)
Definition admitted (snapshot : ExactVaultSnapshot) (ledger : gmap CapRef Z) (total : Z)
    (reference : CapRef) : Prop :=
  exists v cap, ledger !! reference = Some v /\ ev_caps snapshot !! reference = Some cap /\
    cap_admits cap total v.

Definition signed_assets (action : V2Action) : Z :=
  if is_allocation action then - action_assets action else action_assets action.

Record step_spec (snapshot : ExactVaultSnapshot) (config : ValidatedVaultConfig)
    (st st' : SimulationState) (action : V2Action) : Prop := {
  st_nonzero : action_assets action <> 0;
  st_idle : ss_vault_idle st' = ss_vault_idle st + signed_assets action;
  st_locked : ss_locked_idle st' = ss_locked_idle st;
  st_covered : is_allocation action = true ->
    action_assets action <= ss_vault_idle st - ss_locked_idle st;
  st_tokens : map_sum (sl_remaining (ss_shared_liquidity st')) + ss_vault_idle st'
    = map_sum (sl_remaining (ss_shared_liquidity st)) + ss_vault_idle st;
  st_log : exists a, ss_actions st' = ss_actions st ++ [a] /\
    act_position a = action_position action /\ act_requested_assets a = action_assets action /\
    0 <= act_positive_loss_assets a /\
    ss_immediate_loss_assets st' = ss_immediate_loss_assets st + act_positive_loss_assets a /\
    vault_value st <= vault_value st' + act_positive_loss_assets a;
  st_first : forall t, ss_first_total_assets st = Some t -> ss_first_total_assets st' = Some t;
  st_caps : is_allocation action = true -> exists total,
    ss_first_total_assets st' = Some total /\
    Forall (admitted snapshot (ss_cap_ledger st') total) (action_caps snapshot config action);
  st_caps_frame : forall r, r ∉ action_caps snapshot config action ->
    ss_cap_ledger st' !! r = ss_cap_ledger st !! r;
  st_frame : frame snapshot st';
}.

(** ** Cap ledger folds *)

Lemma cap_deallocated_frame change refs ledger ledger' r :
  try_fold (cap_deallocated change) ledger refs = Ok ledger' -> r ∉ refs ->
  ledger' !! r = ledger !! r.
Proof.
  revert ledger. induction refs as [|r0 refs IH]; intros ledger H Hr; cbn in H.
  { by injection H as <-. }
  step_ok H as l1 H1. apply not_elem_of_cons in Hr as [Hne Hr]. rewrite (IH _ H Hr).
  unfold cap_deallocated in H1. step_ok H1 as old _. destruct (old =? 0); [done|].
  step_ok H1 as upd _. injection H1 as <-. by rewrite lookup_insert_ne.
Qed.

Lemma cap_allocated_Ok snapshot total change ledger r ledger' :
  cap_allocated snapshot total change ledger r = Ok ledger' ->
  exists v cap, ledger' = <[r := v]> ledger /\ ev_caps snapshot !! r = Some cap /\
    cap_admits cap total v.
Proof.
  unfold cap_allocated. intros H. step_ok H as old _. step_ok H as v _.
  step_ok H as cap Hc%ok_or_Ok. step_ok H as u Hu. destruct u.
  apply map_err_Ok, validate_allocation_cap_Ok in Hu. injection H as <-. eauto.
Qed.

Lemma cap_allocated_fold snapshot total change refs ledger ledger' :
  try_fold (cap_allocated snapshot total change) ledger refs = Ok ledger' ->
  Forall (admitted snapshot ledger' total) refs /\
  (forall r, r ∉ refs -> ledger' !! r = ledger !! r) /\
  (forall r, admitted snapshot ledger total r -> admitted snapshot ledger' total r).
Proof.
  revert ledger. induction refs as [|r0 refs IH]; intros ledger H; cbn in H.
  { injection H as <-. split; [constructor|]. by split. }
  step_ok H as l1 H1. apply cap_allocated_Ok in H1 as (v & cap & -> & Hcap & Had).
  apply IH in H as (Hall & Hfr & Hkeep).
  assert (admitted snapshot (<[r0 := v]> ledger) total r0) as Hr0.
  { exists v, cap. by rewrite lookup_insert_eq. }
  split; [constructor; [by apply Hkeep|done]|]. split.
  - intros r [Hne Hr]%not_elem_of_cons. rewrite Hfr by done. by apply lookup_insert_ne.
  - intros r (w & cap' & Hw & Hc' & Ha'). apply Hkeep.
    destruct (decide (r = r0)) as [->|Hne]; [done|]. exists w, cap'. by rewrite lookup_insert_ne.
Qed.

(** ** Each operation meets the step specification *)

Section Steps.
Context `{HK : Keccak} `{HA : AbiParams}.
Variables (snapshot : ExactVaultSnapshot) (config : ValidatedVaultConfig)
  (projection : ProjectedVaultView).

Lemma establish_first_keep st t total :
  establish_first_total st snapshot projection = Ok t ->
  ss_first_total_assets st = Some total -> t = total.
Proof. unfold establish_first_total. intros Ht Hs. rewrite Hs in Ht. by injection Ht as <-. Qed.

Lemma frame_insert st k p tr markets ledger idle locked first shared log loss init ts liq :
  frame snapshot st -> ss_positions st !! k = Some p ->
  la_adapter_id <$> liq = la_adapter_id <$> ss_liquidity_adapter st ->
  frame snapshot
    (mkSimulationState ts markets (<[k := position_after p tr]> (ss_positions st)) init liq
       ledger idle locked first shared log loss).
Proof.
  intros [Hp Hl] Hk Hliq. split; cbn; [|by rewrite Hliq].
  intros k' ps Hps. destruct (decide (k' = k)) as [->|Hne].
  - rewrite lookup_insert_eq in Hps. injection Hps as <-.
    destruct (Hp k p Hk) as (q & Hq & Hc). by exists q.
  - rewrite lookup_insert_ne in Hps by done. by apply Hp.
Qed.

Lemma liquidity_caps st la key :
  frame snapshot st -> ss_liquidity_adapter st = Some la ->
  is_Some (liquidity_target config key) ->
  match liquidity_target config key with
  | Some _ => match ev_liquidity_adapter snapshot with
              | Some la => [mkCapRef (vv_address config) (la_adapter_id la)]
              | None => []
              end
  | None => match ev_positions snapshot !! key with
            | Some p => affected_caps_list p
            | None => []
            end
  end = [mkCapRef (vv_address config) (la_adapter_id la)].
Proof.
  intros [_ Hl] Hla [c ->]. rewrite Hla in Hl.
  destruct (ev_liquidity_adapter snapshot); simplify_eq/=. by rewrite Hl.
Qed.

Lemma liquidity_deallocation_spec st st' configured key adapter data requested :
  frame snapshot st -> liquidity_target config key = Some configured -> requested <> 0 ->
  simulate_liquidity_deallocation st config configured key adapter data requested = Ok st' ->
  step_spec snapshot config st st' (Deallocate key adapter data requested).
Proof.
  intros Hf Ht Hr H. unfold simulate_liquidity_deallocation in H.
  destruct (_ || _ || _); [done|]. step_ok H as cur Hcur%ok_or_Ok.
  destruct (negb _); [done|]. step_ok H as tr Htr. step_ok H as old Hold. step_ok H as upd Hupd.
  step_ok H as [sh rest] Hsh%map_err_Ok.
  apply consume_Ok in Hsh as (v & _ & _ & _ & _ & Hsum).
  step_ok H as idle (-> & _)%ok_or_Ok%checked_add_Some.
  step_ok H as rec (-> & _)%ok_or_Ok%checked_add_Some.
  step_ok H as loss (-> & _)%ok_or_Ok%checked_add_Some. injection H as <-.
  rewrite !saturating_sub_spec.
  split; cbn; unfold signed_assets; cbn; try done; try lia.
  - eexists. split; [done|]. cbn. do 2 (split; [done|]). split; [lia|]. split; [done|].
    unfold vault_value. cbn. rewrite Hcur. lia.
  - intros r. unfold action_caps. cbn [action_position].
    rewrite (liquidity_caps st cur key) by (done || by rewrite Ht).
    intros Hn%not_elem_of_cons. by rewrite lookup_insert_ne by naive_solver.
  - destruct Hf as [Hp Hl]. split; cbn; [done|]. rewrite <-Hl, Hcur. done.
Qed.

Lemma direct_deallocation_spec st st' key adapter data requested :
  frame snapshot st -> liquidity_target config key = None -> requested <> 0 ->
  simulate_direct_deallocation st snapshot config key adapter data requested = Ok st' ->
  step_spec snapshot config st st' (Deallocate key adapter data requested).
Proof.
  intros Hf Ht Hr H. unfold simulate_direct_deallocation in H.
  step_ok H as conf Hconf. destruct (_ || _); [done|]. step_ok H as pos Hpos%ok_or_Ok.
  destruct (negb _); [done|]. destruct (negb _); [done|].
  step_ok H as mk Hmk. step_ok H as sto Hsto. cbv zeta in H. step_ok H as bal Hbal.
  step_ok H as tr Htr. step_ok H as led Hled. step_ok H as [sh rest] Hsh%map_err_Ok.
  apply consume_Ok in Hsh as (v & _ & _ & _ & _ & Hsum).
  step_ok H as idle (-> & _)%ok_or_Ok%checked_add_Some.
  step_ok H as rec (-> & _)%ok_or_Ok%checked_add_Some.
  step_ok H as loss (-> & _)%ok_or_Ok%checked_add_Some. injection H as <-.
  rewrite !saturating_sub_spec.
  split; cbn; unfold signed_assets; cbn; try done; try lia.
  - eexists. split; [done|]. cbn. do 2 (split; [done|]). split; [lia|]. split; [done|].
    unfold vault_value. cbn. rewrite (map_sum_by_update _ _ _ _ _ Hpos). cbn. lia.
  - intros r. unfold action_caps. cbn [action_position]. rewrite Ht.
    destruct (proj1 Hf key pos Hpos) as (p & -> & <-). intros Hn.
    by eapply cap_deallocated_frame.
  - by apply frame_insert.
Qed.

Lemma liquidity_allocation_spec st st' configured key adapter data requested :
  frame snapshot st -> liquidity_target config key = Some configured -> requested <> 0 ->
  requested <= ss_vault_idle st - ss_locked_idle st ->
  simulate_liquidity_allocation st snapshot config projection configured key adapter data
    requested = Ok st' ->
  step_spec snapshot config st st' (Allocate key adapter data requested).
Proof.
  intros Hf Ht Hr Hi H. unfold simulate_liquidity_allocation in H.
  destruct (_ || _ || _); [done|]. step_ok H as total Htot. step_ok H as cur Hcur%ok_or_Ok.
  destruct (negb _); [done|]. step_ok H as tr Htr. step_ok H as old Hold. step_ok H as upd Hupd.
  step_ok H as cap Hcap%ok_or_Ok. step_ok H as u Hu%map_err_Ok. destruct u.
  apply validate_allocation_cap_Ok in Hu.
  step_ok H as idle (-> & _)%ok_or_Ok%checked_sub_Some.
  step_ok H as [sh rest] Hsh%map_err_Ok. apply credit_Ok in Hsh as (v & _ & _ & _ & _ & Hsum).
  step_ok H as inv (-> & _)%ok_or_Ok%checked_add_Some.
  step_ok H as mw (-> & _)%ok_or_Ok%checked_add_Some.
  step_ok H as loss (-> & _)%ok_or_Ok%checked_add_Some. injection H as <-.
  rewrite !saturating_sub_spec.
  assert (action_caps snapshot config (Allocate key adapter data requested)
          = [mkCapRef (vv_address config) (la_adapter_id cur)]) as Hac.
  { unfold action_caps. cbn [action_position].
    by rewrite (liquidity_caps st cur key) by (done || by rewrite Ht). }
  split; cbn; unfold signed_assets; cbn; try done; try lia.
  - eexists. split; [done|]. cbn. do 2 (split; [done|]). split; [lia|]. split; [done|].
    unfold vault_value. cbn. rewrite Hcur. lia.
  - intros t Hs. f_equal. by eapply establish_first_keep.
  - intros _. exists total. split; [done|]. rewrite Hac. apply Forall_singleton.
    exists upd, cap. by rewrite lookup_insert_eq.
  - rewrite Hac. intros r Hn%not_elem_of_cons. by rewrite lookup_insert_ne by naive_solver.
  - destruct Hf as [Hp Hl]. split; cbn; [done|]. rewrite <-Hl, Hcur. done.
Qed.

Lemma direct_allocation_spec st st' key adapter data requested :
  frame snapshot st -> liquidity_target config key = None -> requested <> 0 ->
  requested <= ss_vault_idle st - ss_locked_idle st ->
  simulate_direct_allocation st snapshot config projection key adapter data requested = Ok st' ->
  step_spec snapshot config st st' (Allocate key adapter data requested).
Proof.
  intros Hf Ht Hr Hi H. unfold simulate_direct_allocation in H.
  step_ok H as conf Hconf. destruct (_ || _); [done|]. step_ok H as pos Hpos%ok_or_Ok.
  destruct (negb _); [done|]. destruct (negb _); [done|].
  step_ok H as total Htot. step_ok H as mk Hmk. step_ok H as sto Hsto.
  step_ok H as tr Htr. step_ok H as led Hled.
  apply cap_allocated_fold in Hled as (Hall & Hfr & _).
  step_ok H as idle (-> & _)%ok_or_Ok%checked_sub_Some.
  step_ok H as [sh rest] Hsh%map_err_Ok. apply credit_Ok in Hsh as (v & _ & _ & _ & _ & Hsum).
  step_ok H as inv (-> & _)%ok_or_Ok%checked_add_Some.
  step_ok H as loss (-> & _)%ok_or_Ok%checked_add_Some. injection H as <-.
  rewrite !saturating_sub_spec.
  assert (action_caps snapshot config (Allocate key adapter data requested)
          = cap_refs (ps_affected_caps pos)) as Hac.
  { unfold action_caps. cbn [action_position]. rewrite Ht.
    by destruct (proj1 Hf key pos Hpos) as (p & -> & <-). }
  split; cbn; unfold signed_assets; cbn; try done; try lia.
  - eexists. split; [done|]. cbn. do 2 (split; [done|]). split; [lia|]. split; [done|].
    unfold vault_value. cbn. rewrite (map_sum_by_update _ _ _ _ _ Hpos). cbn. lia.
  - intros t Hs. f_equal. by eapply establish_first_keep.
  - intros _. exists total. split; [done|]. by rewrite Hac.
  - by rewrite Hac.
  - by apply frame_insert.
Qed.

Lemma simulate_deallocation_spec st st' action :
  frame snapshot st -> simulate_deallocation st snapshot config action = Ok st' ->
  is_allocation action = false /\ step_spec snapshot config st st' action.
Proof.
  intros Hf H. destruct action as [key ad data req|]; [|done]. cbn in H. split; [done|].
  destruct (Z.eqb_spec req 0); [done|].
  destruct (liquidity_target config key) eqn:Ht;
    [by eapply liquidity_deallocation_spec|by eapply direct_deallocation_spec].
Qed.

Lemma simulate_allocation_spec st st' action :
  frame snapshot st -> simulate_allocation st snapshot config projection action = Ok st' ->
  is_allocation action = true /\ step_spec snapshot config st st' action.
Proof.
  intros Hf H. destruct action as [|key ad data req]; [done|]. cbn in H. split; [done|].
  destruct (Z.eqb_spec req 0); [done|].
  step_ok H as idle (-> & Hle)%ok_or_Ok%checked_sub_Some.
  destruct (Z.ltb_spec (ss_vault_idle st - ss_locked_idle st) req); [done|].
  destruct (liquidity_target config key) eqn:Ht;
    [by eapply liquidity_allocation_spec|by eapply direct_allocation_spec].
Qed.

(** ** The whole run *)

Record run_spec (phase : bool) (st st' : SimulationState) (actions : list V2Action) : Prop := {
  rs_idle : ss_vault_idle st' = ss_vault_idle st + list_sum (signed_assets <$> actions);
  rs_locked : ss_locked_idle st' = ss_locked_idle st;
  rs_protected : Forall (fun a => 0 <= action_assets a) actions ->
    ss_locked_idle st <= ss_vault_idle st -> ss_locked_idle st' <= ss_vault_idle st';
  rs_tokens : map_sum (sl_remaining (ss_shared_liquidity st')) + ss_vault_idle st'
    = map_sum (sl_remaining (ss_shared_liquidity st)) + ss_vault_idle st;
  rs_log : exists log, ss_actions st' = ss_actions st ++ log /\
    act_position <$> log = action_position <$> actions /\
    act_requested_assets <$> log = action_assets <$> actions /\
    ss_immediate_loss_assets st' =
      ss_immediate_loss_assets st + list_sum (act_positive_loss_assets <$> log) /\
    vault_value st <= vault_value st' + list_sum (act_positive_loss_assets <$> log);
  rs_nonzero : Forall (fun a => action_assets a <> 0) actions;
  rs_phases : exists deallocations allocations, actions = deallocations ++ allocations /\
    Forall (fun a => is_allocation a = false) deallocations /\
    Forall (fun a => is_allocation a = true) allocations /\
    (phase = true -> deallocations = []);
  rs_first : forall t, ss_first_total_assets st = Some t -> ss_first_total_assets st' = Some t;
  rs_keep : phase = true -> forall total r, ss_first_total_assets st = Some total ->
    admitted snapshot (ss_cap_ledger st) total r ->
    admitted snapshot (ss_cap_ledger st') total r;
  rs_caps : forall a, a ∈ actions -> is_allocation a = true -> exists total,
    ss_first_total_assets st' = Some total /\
    Forall (admitted snapshot (ss_cap_ledger st') total) (action_caps snapshot config a);
}.

Lemma step_keeps_admitted st st' action total r :
  is_allocation action = true -> step_spec snapshot config st st' action ->
  ss_first_total_assets st = Some total -> admitted snapshot (ss_cap_ledger st) total r ->
  admitted snapshot (ss_cap_ledger st') total r.
Proof.
  intros Ha Hs Hft Had. pose proof (st_first _ _ _ _ _ Hs _ Hft) as Hft'.
  destruct (decide (r ∈ action_caps snapshot config action)) as [Hin|Hnin].
  - destruct (st_caps _ _ _ _ _ Hs Ha) as (t & Ht & Hall). rewrite Hft' in Ht.
    injection Ht as <-. by eapply Forall_forall in Hall.
  - destruct Had as (v & cap & Hv & Hrest). exists v, cap.
    by rewrite (st_caps_frame _ _ _ _ _ Hs r Hnin).
Qed.

Lemma run_spec_nil phase st : run_spec phase st st [].
Proof.
  split; cbn; try done; try lia.
  - exists []. rewrite app_nil_r. cbn. repeat split; lia.
  - by exists [], [].
  - by intros a ?%not_elem_of_nil.
Qed.

Lemma run_spec_cons phase st st1 st' action actions :
  (is_allocation action = false -> phase = false) ->
  step_spec snapshot config st st1 action ->
  run_spec (phase || is_allocation action) st1 st' actions ->
  run_spec phase st st' (action :: actions).
Proof.
  intros Hph Hs Hr. pose proof Hs as Hs0. destruct Hs, Hr. split.
  - rewrite fmap_cons, list_sum_cons. lia.
  - congruence.
  - intros [Ha Has]%Forall_cons Hl. apply rs_protected0; [done|].
    unfold signed_assets in *. destruct (is_allocation action); [specialize (st_covered0 eq_refl)|]; lia.
  - lia.
  - destruct st_log0 as (a & Ha & Hp & Hq & Hl0 & Hl & Hv).
    destruct rs_log0 as (log & Hlog & Hps & Hqs & Hls & Hvs).
    exists (a :: log). rewrite !fmap_cons, list_sum_cons, Hlog, Ha, <-app_assoc.
    split; [done|]. rewrite Hp, Hq, Hps, Hqs. repeat split; lia.
  - by constructor.
  - destruct rs_phases0 as (ds & als & -> & Hd & Hal & Hnil).
    destruct (is_allocation action) eqn:Hact.
    + assert (ds = []) as -> by (apply Hnil; by destruct phase).
      exists [], (action :: als). split; [done|]. split; [constructor|].
      split; [by constructor|done].
    + exists (action :: ds), als. split; [done|]. split; [by constructor|]. split; [done|].
      intros Hp. by rewrite Hph in Hp.
  - intros t Ht. by apply rs_first0, st_first0.
  - intros -> total r Hft Had.
    destruct (is_allocation action) eqn:Hact; [|by specialize (Hph eq_refl)].
    apply rs_keep0; [done|by apply st_first0|]. by eapply step_keeps_admitted.
  - intros a [->|Ha]%elem_of_cons Hact; [|by apply rs_caps0].
    destruct (st_caps0 Hact) as (total & Hft & Hall). rewrite Hact, orb_true_r in rs_keep0.
    exists total. split; [by apply rs_first0|]. eapply Forall_impl; [exact Hall|].
    intros r Hr. by apply rs_keep0.
Qed.

Lemma simulate_loop_spec phase touched st st' actions :
  frame snapshot st ->
  simulate_loop snapshot projection config phase touched st actions = Ok st' ->
  run_spec phase st st' actions /\
  NoDup (action_position <$> actions) /\
  Forall (fun a => action_position a ∉ touched) actions.
Proof.
  revert phase touched st. induction actions as [|action actions IH];
    intros phase touched st Hf H; cbn in H.
  { injection H as <-. split; [apply run_spec_nil|]. split; constructor. }
  destruct (negb (is_allocation action) && phase) eqn:Hph; [done|].
  destruct (bool_decide _) eqn:Ht; [done|]. apply bool_decide_eq_false in Ht.
  step_ok H as st1 H1.
  assert (step_spec snapshot config st st1 action) as Hs.
  { destruct (is_allocation action);
      [by apply simulate_allocation_spec in H1 as []|by apply simulate_deallocation_spec in H1 as []]. }
  apply IH in H as (Hr & Hnd & Hto); [|apply (st_frame _ _ _ _ _ Hs)].
  split; [|split].
  - eapply run_spec_cons; [|exact Hs|exact Hr]. intros Ha. by rewrite Ha in Hph.
  - rewrite fmap_cons. constructor; [|done]. intros (b & Hb & Hin)%list_elem_of_fmap.
    eapply Forall_forall in Hto; [|exact Hin]. set_solver.
  - constructor; [done|]. eapply Forall_impl; [exact Hto|]. set_solver.
Qed.

(** ** The initial state *)

Lemma from_projection_positions ps :
  try_fold (simulate_position snapshot projection) ∅ (btree_entries (ev_positions snapshot))
    = Ok ps ->
  forall k q, ps !! k = Some q ->
    exists p, ev_positions snapshot !! k = Some p /\
      cap_refs (ps_affected_caps q) = affected_caps_list p /\
      pj_position_expected_assets (pw_vault projection) !! k = Some (ps_expected_assets q) /\
      ps_mode q = dp_mode p.
Proof.
  intros Hf. eapply (try_fold_inv (fun m : gmap Z PositionSimulation =>
    forall k q, m !! k = Some q -> exists p, ev_positions snapshot !! k = Some p /\
      cap_refs (ps_affected_caps q) = affected_caps_list p /\
      pj_position_expected_assets (pw_vault projection) !! k = Some (ps_expected_assets q) /\
      ps_mode q = dp_mode p));
    [| |exact Hf].
  - intros m [k p] m' Hin%elem_of_btree_entries IH Hstep. unfold simulate_position in Hstep.
    step_ok Hstep as ad _. step_ok Hstep as ex Hex%ok_or_Ok. injection Hstep as <-.
    intros k' q Hq. destruct (decide (k' = k)) as [->|Hne].
    + rewrite lookup_insert_eq in Hq. injection Hq as <-. by exists p.
    + rewrite lookup_insert_ne in Hq by done. by apply IH.
  - intros k q Hq. by rewrite lookup_empty in Hq.
Qed.

Definition locked_assets : Z := list_sum (il_remaining_assets <$> ils_locks (ev_idle_locks snapshot)).

Lemma from_projection_Ok st :
  from_projection snapshot projection = Ok st ->
  frame snapshot st /\ ss_vault_idle st = pv_idle_assets (ev_parent snapshot) /\
  ss_locked_idle st = locked_assets /\ ss_locked_idle st <= ss_vault_idle st /\
  ils_verified (ev_idle_locks snapshot) = true /\
  ss_actions st = [] /\ ss_immediate_loss_assets st = 0 /\ ss_first_total_assets st = None.
Proof.
  unfold from_projection. intros H. step_ok H as ps Hps. step_ok H as lk Hlk.
  apply (checked_sum_by_Ok _ _ il_remaining_assets) in Hlk.
  destruct (_ || _) eqn:Hg; [done|].
  apply orb_false_iff in Hg as [Hv%negb_false_iff Hl%Z.ltb_ge].
  step_ok H as sh Hsh. injection H as <-. cbn. unfold locked_assets.
  split; [|repeat split; done || lia]. split; [|done]. cbn.
  intros k q Hq. destruct (from_projection_positions _ Hps k q Hq) as (p & ? & ? & _). eauto.
Qed.

Lemma simulate_actions_run actions st' :
  simulate_actions snapshot projection config actions = Ok st' ->
  exists st, from_projection snapshot projection = Ok st /\ run_spec false st st' actions /\
    NoDup (action_position <$> actions).
Proof.
  unfold simulate_actions. intros H. step_ok H as st Hst.
  pose proof (from_projection_Ok st Hst) as (Hf & _).
  apply simulate_loop_spec in H as (Hr & Hnd & _); [|done]. eauto.
Qed.

(** The configured target a simulated action was checked against. *)
Definition simulated_target (action : V2Action) : Prop :=
  (exists l, liquidity_target config (action_position action) = Some l /\
     lac_address l = action_adapter action /\ action_data action = [] /\
     action_assets action <= lac_maximum_action_assets l) \/
  (liquidity_target config (action_position action) = None /\
   exists c p, List.find (fun c => pc_position_key c =? action_position action)
       (vv_positions config) = Some c /\
     pc_adapter c = action_adapter action /\
     action_data action = encode_adapter_data (pc_market_params c) /\
     ev_positions snapshot !! action_position action = Some p /\
     if is_allocation action then dp_mode p = Active
     else dp_mode p = Active \/ dp_mode p = SourceOnly \/ dp_mode p = Disabled).

Definition modes_kept (st : SimulationState) : Prop :=
  forall k ps, ss_positions st !! k = Some ps ->
    exists p, ev_positions snapshot !! k = Some p /\ ps_mode ps = dp_mode p.

Lemma modes_insert st st' k p tr :
  modes_kept st -> ss_positions st !! k = Some p ->
  ss_positions st' = <[k := position_after p tr]> (ss_positions st) -> modes_kept st'.
Proof.
  intros Hm Hp Hs k' ps. rewrite Hs. intros [[-> <-]|[Hne Hk]]%lookup_insert_Some; [|by apply Hm].
  by apply Hm in Hp.
Qed.

Lemma simulate_deallocation_target st st' action :
  modes_kept st -> simulate_deallocation st snapshot config action = Ok st' ->
  simulated_target action /\ modes_kept st'.
Proof.
  intros Hm H. unfold simulated_target. destruct action as [key ad data req|]; [|done].
  cbn [simulate_deallocation action_position action_adapter action_data action_assets
    is_allocation] in *.
  destruct (req =? 0); [done|]. destruct (liquidity_target config key) as [l|] eqn:Ht.
  - unfold simulate_liquidity_deallocation in H.
    destruct (_ || _ || _) eqn:E; [done|]. bool_spec E. destruct E as [[<- ->] Hle].
    split; [left; by exists l|]. inv_ok. exact Hm.
  - unfold simulate_direct_deallocation in H. step_ok H as c Hc%ok_or_Ok.
    destruct (_ || _) eqn:E; [done|]. bool_spec E. destruct E as [<- ->].
    step_ok H as ps Hps%ok_or_Ok. destruct (negb _) eqn:Emode; [done|].
    apply negb_false_iff in Emode. destruct (negb _); [done|].
    destruct (Hm _ _ Hps) as (p & Hp & Hmode). split.
    + right. split; [done|]. exists c, p. split_and!; try done.
      rewrite <-Hmode. destruct (ps_mode ps); auto; done.
    + inv_ok. by eapply modes_insert.
Qed.

Lemma simulate_allocation_target st st' action :
  modes_kept st -> simulate_allocation st snapshot config projection action = Ok st' ->
  simulated_target action /\ modes_kept st'.
Proof.
  intros Hm H. unfold simulated_target. destruct action as [|key ad data req]; [done|].
  cbn [simulate_allocation action_position action_adapter action_data action_assets
    is_allocation] in *.
  destruct (req =? 0); [done|]. step_ok H as idle Hidle. destruct (idle <? req); [done|].
  destruct (liquidity_target config key) as [l|] eqn:Ht.
  - unfold simulate_liquidity_allocation in H.
    destruct (_ || _ || _) eqn:E; [done|]. bool_spec E. destruct E as [[<- ->] Hle].
    split; [left; by exists l|]. inv_ok. exact Hm.
  - unfold simulate_direct_allocation in H. step_ok H as c Hc%ok_or_Ok.
    destruct (_ || _) eqn:E; [done|]. bool_spec E. destruct E as [<- ->].
    step_ok H as ps Hps%ok_or_Ok. destruct (negb _) eqn:Emode; [done|]. bool_spec Emode.
    destruct (negb _); [done|].
    destruct (Hm _ _ Hps) as (p & Hp & Hmode). split.
    + right. split; [done|]. exists c, p. split_and!; try done. by rewrite <-Hmode.
    + inv_ok. by eapply modes_insert.
Qed.

Lemma simulated_targets actions st' :
  simulate_actions snapshot projection config actions = Ok st' ->
  Forall simulated_target actions.
Proof.
  unfold simulate_actions. intros H. step_ok H as st Hst.
  assert (modes_kept st) as Hm.
  { unfold from_projection in Hst. step_ok Hst as ps Hps. step_ok Hst as li Hli.
    destruct (_ || _); [done|]. step_ok Hst as sh Hsh. injection Hst as <-.
    intros k q Hq. cbn in Hq. destruct (from_projection_positions _ Hps k q Hq)
      as (p & ? & _ & _ & ?). eauto. }
  clear Hst. revert st Hm H. generalize (∅ : gset PositionKey), false.
  induction actions as [|a actions IH]; intros touched phase st Hm H; cbn in H; [constructor|].
  destruct (_ && _); [done|]. destruct (bool_decide _); [done|]. step_ok H as st1 H1.
  assert (simulated_target a /\ modes_kept st1) as [Ha Hm1].
  { destruct (is_allocation a);
      [by eapply simulate_allocation_target|by eapply simulate_deallocation_target]. }
  constructor; [done|]. by eapply IH.
Qed.

(** A simulated plan is a list of nonzero deallocations followed by nonzero
    allocations, each position at most once, and the recorded effects name
    exactly these positions and amounts in order. *)
Theorem simulate_actions_grammar actions st' :
  simulate_actions snapshot projection config actions = Ok st' ->
  (exists deallocations allocations, actions = deallocations ++ allocations /\
     Forall (fun a => is_allocation a = false) deallocations /\
     Forall (fun a => is_allocation a = true) allocations) /\
  NoDup (action_position <$> actions) /\
  Forall (fun a => action_assets a <> 0) actions /\
  act_position <$> ss_actions st' = action_position <$> actions /\
  act_requested_assets <$> ss_actions st' = action_assets <$> actions.
Proof.
  intros (st & Hst & Hr & Hnd)%simulate_actions_run.
  apply from_projection_Ok in Hst as (_ & _ & _ & _ & _ & Hac & _).
  destruct Hr. destruct rs_phases0 as (ds & als & -> & Hd & Hal & _).
  split; [by exists ds, als|]. split; [done|]. split; [done|].
  destruct rs_log0 as (log & -> & Hp & Hq & _). by rewrite Hac.
Qed.

(** C19: Idle is conserved: the simulated idle balance is the snapshot's plus
    what was deallocated minus what was allocated; the locked idle is the sum
    of the verified locks and is never consumed; and tokens leaving Morpho are
    exactly the tokens arriving in the vault. *)
Theorem simulate_actions_conserves_idle actions st' :
  Forall (fun a => 0 <= action_assets a) actions ->
  simulate_actions snapshot projection config actions = Ok st' ->
  ss_vault_idle st' = pv_idle_assets (ev_parent snapshot) + list_sum (signed_assets <$> actions) /\
  ss_locked_idle st' = locked_assets /\ ils_verified (ev_idle_locks snapshot) = true /\
  ss_locked_idle st' <= ss_vault_idle st' /\
  exists st, from_projection snapshot projection = Ok st /\
    map_sum (sl_remaining (ss_shared_liquidity st')) + ss_vault_idle st'
    = map_sum (sl_remaining (ss_shared_liquidity st)) + ss_vault_idle st.
Proof.
  intros Hpos (st & Hst & Hr & _)%simulate_actions_run.
  pose proof (from_projection_Ok st Hst) as (_ & Hi & Hl & Hle & Hv & _).
  destruct Hr. split; [lia|]. split; [congruence|]. split; [done|].
  split; [by apply rs_protected0|]. by exists st.
Qed.

(** Losses are accounted for completely: whatever value the simulated vault
    (idle, direct positions and liquidity adapter) lost is covered by the
    reported immediate loss, which is the sum of the per-action losses. *)
Theorem simulate_actions_accounts_losses actions st' :
  simulate_actions snapshot projection config actions = Ok st' ->
  exists st, from_projection snapshot projection = Ok st /\
    ss_immediate_loss_assets st' = list_sum (act_positive_loss_assets <$> ss_actions st') /\
    vault_value st <= vault_value st' + ss_immediate_loss_assets st'.
Proof.
  intros (st & Hst & Hr & _)%simulate_actions_run. exists st. split; [done|].
  pose proof (from_projection_Ok st Hst) as (_ & _ & _ & _ & _ & Ha & Hl & _).
  destruct (rs_log _ _ _ _ Hr) as (log & -> & _ & _ & Hls & Hv). rewrite Ha, app_nil_l. lia.
Qed.

(** Every cap charged by any allocation of the plan is admitted in the final
    state: its final recorded allocation is within the absolute cap and within
    the relative cap of the first total assets, even when later allocations
    were charged to the same cap. *)
Theorem simulate_actions_respects_caps actions st' a :
  simulate_actions snapshot projection config actions = Ok st' ->
  a ∈ actions -> is_allocation a = true ->
  exists total, ss_first_total_assets st' = Some total /\
    Forall (fun r => exists v cap, ss_cap_ledger st' !! r = Some v /\
              ev_caps snapshot !! r = Some cap /\ cap_admits cap total v)
      (action_caps snapshot config a).
Proof.
  intros (st & _ & Hr & _)%simulate_actions_run Ha Hal.
  by apply (rs_caps _ _ _ _ Hr).
Qed.

End Steps.

(** ** A concrete vault

    Two direct positions of one adapter in two markets with a shared loan token. *)
Module Example.

Definition params (collateral : Z) : MarketParams := mkMarketParams 1 collateral 3 4 5.
Definition stored (id collateral : Z) : StoredMarketState :=
  mkStoredMarketState id (params collateral) 1000000000 1000000000000000 800000000
    800000000000000 100 0 4 1268391679 1000000000.
Definition caps (market : Z) : CapRef * CapRef * CapRef :=
  (mkCapRef 1 41, mkCapRef 1 (50 + market), mkCapRef 1 (60 + market)).
Definition position (key market collateral : Z) : DirectMarketPositionState :=
  mkDirectMarketPositionState key 31 (params collateral) market 100000000000000
    100000000000000 0 0 100000000 100000000 (caps market) Active FixedUntilModeled.
Definition cap (id : Z) : CapRef * CapState :=
  (mkCapRef 1 id, mkCapState (mkCapRef 1 id) 0 1000000000000 WAD 200000000).
Definition parent : ParentVaultState :=
  mkParentVaultState 1 1 500 200000500 100 1000000000 200000500 1 0 0 false 0 0 false
    0 0 0 0 0 0 [] ∅ ∅ ∅ 0 0 0.
Definition block : BlockRef := mkBlockRef 10 7 6 100 0.
Definition snapshot : ExactVaultSnapshot :=
  mkExactVaultSnapshot (mkStateContext 1 block 100 Proven 0 0) parent
    {[ 31 := mkDirectAdapterState 31 1 1 0 4 41 [11; 12] ∅ 0 200000000 0 [] ]} {[ 31 ]} None
    (list_to_map [(21, position 21 11 2); (22, position 22 12 9)])
    (list_to_map [(11, stored 11 2); (12, stored 12 9)])
    (list_to_map [cap 41; cap 61; cap 62; cap 71; cap 72]) []
    (mkVaultCapabilities true true true true true true true true true true)
    (mkIdleLockLedgerSnapshot [mkIdleLockSnapshot 1 200 5 None] 0 true) 99.
Definition configured (key market collateral : Z) : ValidatedPositionConfig :=
  mkValidatedPositionConfig key 31 (params collateral) market Active 0 0 1000000000000 0 WAD 0 0
    0 0 0 0 1000000000000 true 0 FixedUntilModeled.
Definition config : ValidatedVaultConfig :=
  mkValidatedVaultConfig "example"%string 1 1 6 0 0 0 SpreadEqualization false 1 0 10 0 0 0 0 0 0 0 0
    1000 0 false false false false 0 0 [] []
    (mkValidatedRateGroupConfig "group"%string 0 0 0 1000000000000 false) [] None
    [configured 21 11 2; configured 22 12 9].
Definition actions : list V2Action :=
  [Deallocate 21 31 [1; 2; 3; 4; 5] 5000; Allocate 22 31 [1; 9; 3; 4; 5] 5300].

Definition projected : result ProjectionError ProjectedVaultView :=
  @project_snapshot_to_head word_abi snapshot block config.
Definition view : ProjectedVaultView :=
  match projected with
  | Ok v => v
  | Err _ => mkProjectedVaultView 0 block ∅ ∅
               (mkProjectedVaultState 0 0 0 (mkFeeShareProjection 0 0) ∅ ∅ 0 0) false false false
  end.

Definition simulated : result SimulationError SimulationState :=
  @simulate_actions word_abi snapshot view config actions.

(** The state the run ends in. *)
Definition final : SimulationState :=
  match simulated with
  | Ok st => st
  | Err _ => mkSimulationState 0 ∅ ∅ ∅ None ∅ 0 0 None liquidity_default [] 0
  end.

Lemma simulated_final : @simulate_actions word_abi snapshot view config actions = Ok final.
Proof. vm_compute. reflexivity. Qed.

Lemma markets_wf : snapshot_markets_wf snapshot.
Proof.
  intros id m Hm%elem_of_list_to_map_2. unfold stored_market_wf.
  repeat (apply elem_of_cons in Hm as [Hm|Hm]; [injection Hm as -> ->; cbn; lia|]).
  by apply not_elem_of_nil in Hm.
Qed.

Lemma projection_sound_witness :
  exists r, accrue_market (stored 11 2) 100 (mkAdaptiveCurveState 1268391679) = Ok r /\
    pw_markets view !! 11 = Some (ma_market r) /\ Market.consistent (ma_market r).
Proof.
  destruct (@projection_sound word_abi snapshot block config view) as (_ & _ & _ & Hm & _);
    [exact markets_wf|vm_compute; reflexivity|].
  destruct (Hm 11 (stored 11 2)) as (r & Hr); [reflexivity|].
  exists r. exact Hr.
Defined.

Lemma simulate_actions_grammar_witness :
  NoDup (action_position <$> actions) /\
  act_requested_assets <$> ss_actions final = action_assets <$> actions.
Proof.
  destruct (@simulate_actions_grammar word_abi snapshot config view actions final
              simulated_final) as (_ & Hnd & _ & _ & Hr). split; [exact Hnd|exact Hr].
Defined.

Lemma simulate_actions_conserves_idle_witness :
  ss_vault_idle final = 200 /\ ss_locked_idle final <= ss_vault_idle final.
Proof.
  destruct (@simulate_actions_conserves_idle word_abi snapshot config view actions final)
    as (Hi & _ & _ & Hl & _);
    [repeat constructor; cbn; lia|exact simulated_final|split; [exact Hi|exact Hl]].
Defined.

Lemma simulate_actions_accounts_losses_witness :
  exists st, from_projection snapshot view = Ok st /\
    vault_value st <= vault_value final + ss_immediate_loss_assets final.
Proof.
  destruct (@simulate_actions_accounts_losses word_abi snapshot config view actions final
              simulated_final) as (st & Hst & _ & Hv). exists st. split; [exact Hst|exact Hv].
Defined.

Lemma simulate_actions_respects_caps_witness :
  exists total, ss_first_total_assets final = Some total.
Proof.
  destruct (@simulate_actions_respects_caps word_abi snapshot config view actions final
              (Allocate 22 31 [1; 9; 3; 4; 5] 5300)) as (total & Ht & _);
    [exact simulated_final|by right; left|reflexivity|exists total; exact Ht].
Defined.

End Example.
