(* ===== verification/Provider.v ===== *)
(** * RPC provider

    [chain/provider.rs]: the role-scoped JSON-RPC client, with its request
    identities, its error categories, its quantities and every typed operation
    as the exact requests it sends. The HTTP exchange and the JSON decoders
    are parameters: a request is answered as a function of the request, whose
    identity is fresh for every call. *)
From Stdlib Require Import ZArith Lia String Ascii.
From stdpp Require Import base gmap sets strings list.
From S2P Require Import Prelude.
From S2P Require Import Text.
From S2P Require Import Domain.
From S2P Require Import Config.
Open Scope Z_scope.

(** ** Data *)

Inductive ProviderRole : Type :=
  | ProviderHead | ProviderLogs | ProviderRead | ProviderSimulate | ProviderSubmit
  | ProviderReceipt | ProviderCheckpoint.
#[global] Instance ProviderRole_eq_dec : EqDecision ProviderRole.
Proof. solve_decision. Defined.

(** [ProviderRole::from] *)
Definition provider_role (value : RpcRole) : ProviderRole :=
  match value with
  | RoleHead => ProviderHead
  | RoleLogs => ProviderLogs
  | RoleRead => ProviderRead
  | RoleSimulate => ProviderSimulate
  | RoleSubmit => ProviderSubmit
  | RoleReceipt => ProviderReceipt
  | RoleCheckpoint => ProviderCheckpoint
  end.

Record RpcLog : Type := mkRpcLog {
  lg_address : Address;
  lg_topics : list B256;
  lg_data : Bytes;
  lg_block_number : option string;
  lg_block_hash : option B256;
  lg_transaction_hash : option B256;
  lg_transaction_index : option string;
  lg_log_index : option string;
  lg_removed : bool;
}.

Record RpcReceipt : Type := mkRpcReceipt {
  rr_transaction_hash : B256;
  rr_block_hash : B256;
  rr_block_number : string;
  rr_transaction_index : string;
  rr_status : option string;
  rr_gas_used : string;
  rr_logs : list RpcLog;
}.

#[global] Instance RpcLog_eq_dec : EqDecision RpcLog.
Proof. solve_decision. Defined.
#[global] Instance RpcReceipt_eq_dec : EqDecision RpcReceipt.
Proof. solve_decision. Defined.

Record RpcTransaction : Type := mkRpcTransaction {
  rx_hash : B256;
  rx_from : Address;
  rx_to : option Address;
  rx_value : Z;
  rx_input : Bytes;
  rx_nonce : string;
  rx_block_hash : option B256;
  rx_block_number : option string;
  rx_transaction_index : option string;
}.

Record RpcBlockWithTransactions : Type := mkRpcBlockWithTransactions {
  rb_hash : B256;
  rb_number : string;
  rb_transactions : list RpcTransaction;
}.

Inductive RpcErrorCategory : Type :=
  | AlreadyKnown
  | NonceTooLow
  | ReplacementUnderpriced
  | InsufficientFunds
  | InvalidSenderOrEncoding
  | RateLimited
  | ServerUnavailable
  | TransportUnavailable
  | UnknownCategory.
#[global] Instance RpcErrorCategory_eq_dec : EqDecision RpcErrorCategory.
Proof. solve_decision. Defined.

(** [RpcErrorCategory::is_transient_outage] *)
Definition category_is_transient_outage (category : RpcErrorCategory) : bool :=
  match category with
  | RateLimited | ServerUnavailable | TransportUnavailable => true
  | _ => false
  end.

Inductive ProviderError : Type :=
  | MissingRole (provider : string) (role : ProviderRole)
  | EndpointError
  | TransportError (method : string)
  | HttpStatus (method : string) (status : Z)
  | ClientInitialization
  | MalformedResponse (method : string)
  | MethodUnsupported (method : string)
  | RpcFailure (method : string) (code : Z) (category : RpcErrorCategory)
  | MissingBlock
  | QuantityError (field : string)
  | ProviderChainMismatch (expected observed : Z)
  | SignerUsesBigBlocks.

Definition rpc_category (error : ProviderError) : RpcErrorCategory :=
  match error with
  | RpcFailure _ _ category => category
  | TransportError _ => TransportUnavailable
  | HttpStatus _ status =>
      if status =? 429 then RateLimited
      else if (500 <=? status) && (status <=? 599) then ServerUnavailable
      else UnknownCategory
  | _ => UnknownCategory
  end.

Definition is_transient_outage (error : ProviderError) : bool :=
  category_is_transient_outage (rpc_category error).

(** ** Quantities *)

Definition parse_quantity (field quantity : string) : result ProviderError Z :=
  digits ← ok_or (strip_0x quantity) (QuantityError field);
  if is_empty digits then Err (QuantityError field)
  else ok_or (u64_from_hex digits) (QuantityError field).

(** [U256::from_str_radix] in base 16. *)
Class U256Parse : Type := u256_from_hex : string -> option Z.

Definition parse_u256_quantity `{U256Parse} (field quantity : string) : result ProviderError Z :=
  digits ← ok_or (digits ← strip_0x quantity; if is_empty digits then None else Some digits)
    (QuantityError field);
  ok_or (u256_from_hex digits) (QuantityError field).

Definition format_quantity (value : Z) : string := "0x" +:+ hex_of_u64 value.

Record RpcHeader : Type := mkRpcHeader {
  rh_number : string;
  rh_hash : B256;
  rh_parent_hash : B256;
  rh_timestamp : string;
  rh_gas_limit : string;
}.

Definition into_block_ref (h : RpcHeader) : result ProviderError BlockRef :=
  number ← parse_quantity "block.number" (rh_number h);
  timestamp ← parse_quantity "block.timestamp" (rh_timestamp h);
  gas_limit ← parse_quantity "block.gas_limit" (rh_gas_limit h);
  Ok (mkBlockRef number (rh_hash h) (rh_parent_hash h) timestamp gas_limit).

Record CapabilityProbe : Type := mkCapabilityProbe {
  cb_read_target : Address;
  cb_read_calldata : Bytes;
  cb_signer : Address;
  cb_known_transaction_hash : B256;
}.

Record ProviderCapabilities : Type := mkProviderCapabilities {
  pb_chain_id : Z;
  pb_latest_head : BlockRef;
  pb_block_receipts : bool;
  pb_logs : bool;
  pb_call : bool;
  pb_estimate_gas : bool;
  pb_code : bool;
  pb_storage : bool;
  pb_transaction_count : bool;
  pb_fee_quote : bool;
  pb_transaction_lookup : bool;
  pb_receipt_lookup : bool;
  pb_signer_uses_big_blocks : option bool;
}.

Record RpcFeeQuote : Type := mkRpcFeeQuote {
  fq_gas_price : Z;
  fq_max_priority_fee_per_gas : Z;
}.

(** ** Error messages *)

Definition mentions (message : string) (phrases : list string) : bool :=
  existsb (contains message) phrases.

Definition classify_rpc_error (method : string) (code : Z) (message : string) : RpcErrorCategory :=
  let normalized := lowercase message in
  if (code =? 429) || (code =? -32005)
     || mentions normalized ["rate limit"; "too many requests"; "request limit"]
  then RateLimited
  else if mentions normalized ["service unavailable"; "server unavailable";
            "temporarily unavailable"; "upstream unavailable"; "gateway timeout"]
  then ServerUnavailable
  else if mentions normalized ["transport unavailable"; "connection timeout"; "request timeout"]
  then TransportUnavailable
  else if negb (bool_decide (method = "eth_sendRawTransaction")) then UnknownCategory
  else if mentions normalized ["already known"; "known transaction"; "already imported"]
  then AlreadyKnown
  else if mentions normalized ["nonce too low"; "nonce has already been used"; "old nonce"]
  then NonceTooLow
  else if mentions normalized ["replacement transaction underpriced";
            "replacement underpriced"; "transaction underpriced"]
  then ReplacementUnderpriced
  else if mentions normalized ["insufficient funds"; "funds for gas"] then InsufficientFunds
  else if mentions normalized ["invalid sender"; "invalid signature";
            "invalid transaction encoding"; "rlp"]
  then InvalidSenderOrEncoding
  else UnknownCategory.

(** ** Requests *)

(** A parameter of a request, with the typed leaves the source serializes. *)
Inductive Value : Type :=
  | VAddress (a : Address)
  | VHash (h : B256)
  | VBytes (b : Bytes)
  | VString (s : string)
  | VBool (b : bool)
  | VNull
  | VArray (l : list Value)
  | VObject (fields : list (string * Value)).

Record RpcRequest : Type := mkRpcRequest {
  rq_id : Z;
  rq_method : string;
  rq_params : list Value;
}.

Record RpcError : Type := mkRpcError {
  re_code : Z;
  re_message : string;
}.

Record RpcResponse (raw : Type) : Type := mkRpcResponse {
  rs_jsonrpc : string;
  rs_id : Z;
  rs_result : raw;
  rs_error : option RpcError;
}.
Arguments mkRpcResponse {raw}.
Arguments rs_jsonrpc {raw}.
Arguments rs_id {raw}.
Arguments rs_result {raw}.
Arguments rs_error {raw}.

(** The answer of the endpoint: no response, or a status with the body when it
    is a well-formed envelope. *)
Inductive HttpReply (raw : Type) : Type :=
  | NoReply
  | Reply (status : Z) (body : option (RpcResponse raw)).
Arguments NoReply {raw}.
Arguments Reply {raw}.

(** The HTTP client and the typed JSON decoders of the results. *)
Class RpcTransport : Type := {
  raw : Type;
  post : RpcRequest -> HttpReply raw;
  as_string : raw -> option string;
  as_bool : raw -> option bool;
  as_bytes : raw -> option Bytes;
  as_b256 : raw -> option B256;
  as_header : raw -> option (option RpcHeader);
  as_block : raw -> option (option RpcBlockWithTransactions);
  as_logs : raw -> option (list RpcLog);
  as_receipts : raw -> option (list RpcReceipt);
  as_receipt : raw -> option (option RpcReceipt);
  as_transaction : raw -> option (option RpcTransaction);
  as_value : raw -> option (option raw);
}.

Inductive BlockReceiptsCapability : Type :=
  | CapabilityUnknown | CapabilitySupported | CapabilityUnsupported.
#[global] Instance BlockReceiptsCapability_eq_dec : EqDecision BlockReceiptsCapability.
Proof. solve_decision. Defined.

(** The provider, with the requests it has sent. *)
Record HttpProvider : Type := mkHttpProvider {
  hp_name : string;
  hp_roles : list ProviderRole;
  hp_next_id : Z;
  hp_block_receipts_capability : BlockReceiptsCapability;
  hp_sent : list RpcRequest;
}.

Definition rpc (A : Type) : Type := HttpProvider -> result ProviderError A * HttpProvider.

#[global] Instance rpc_ret : MRet rpc := fun A a p => (Ok a, p).
#[global] Instance rpc_bind : MBind rpc := fun A B f c p =>
  match c p with
  | (Ok a, p') => f a p'
  | (Err e, p') => (Err e, p')
  end.
Definition rpc_lift {A} (c : result ProviderError A) : rpc A := fun p => (c, p).
Definition rpc_err {A} (e : ProviderError) : rpc A := fun p => (Err e, p).
Definition rpc_try {A} (c : rpc A) : rpc (result ProviderError A) := fun p =>
  let '(r, p') := c p in (Ok r, p').

Definition require_role (role : ProviderRole) : rpc unit := fun p =>
  (if bool_decide (role ∈ hp_roles p) then Ok tt else Err (MissingRole (hp_name p) role), p).

Definition require_any_role (roles : list ProviderRole) : rpc unit := fun p =>
  (if existsb (fun role => bool_decide (role ∈ hp_roles p)) roles then Ok tt
   else Err (MissingRole (hp_name p) (default ProviderRead (head roles))), p).

Definition set_capability (capability : BlockReceiptsCapability) : rpc unit := fun p =>
  (Ok tt, mkHttpProvider (hp_name p) (hp_roles p) (hp_next_id p) capability (hp_sent p)).

Definition block_receipts_capability : rpc BlockReceiptsCapability := fun p =>
  (Ok (hp_block_receipts_capability p), p).

Section Client.
Context `{HT : RpcTransport} `{HU : U256Parse}.

(** The request leaves with the next identity, which wraps around. *)
Definition send (method : string) (params : list Value) : rpc (RpcRequest * HttpReply raw) :=
  fun p =>
  let request := mkRpcRequest (hp_next_id p) method params in
  (Ok (request, post request),
   mkHttpProvider (hp_name p) (hp_roles p) ((hp_next_id p + 1) mod (U64_MAX + 1))
     (hp_block_receipts_capability p) (hp_sent p ++ [request])).

Definition read_reply {R} (decode : raw -> option R) (method : string) (id : Z)
    (reply : HttpReply raw) : result ProviderError R :=
  match reply with
  | NoReply => Err (TransportError method)
  | Reply status body =>
      if negb ((200 <=? status) && (status <=? 299)) then Err (HttpStatus method status)
      else
        envelope ← ok_or body (MalformedResponse method);
        if negb (bool_decide (rs_jsonrpc envelope = "2.0")) || negb (rs_id envelope =? id)
        then Err (MalformedResponse method)
        else match rs_error envelope with
             | Some error =>
                 if re_code error =? -32601 then Err (MethodUnsupported method)
                 else Err (RpcFailure method (re_code error)
                             (classify_rpc_error method (re_code error) (re_message error)))
             | None => ok_or (decode (rs_result envelope)) (MalformedResponse method)
             end
  end.

Definition request_unscoped {R} (decode : raw -> option R) (method : string)
    (params : list Value) : rpc R :=
  exchange ← send method params;
  rpc_lift (read_reply decode method (rq_id (fst exchange)) (snd exchange)).

Definition request {R} (decode : raw -> option R) (role : ProviderRole) (method : string)
    (params : list Value) : rpc R :=
  _ ← require_role role;
  request_unscoped decode method params.

Definition latest : Value := VString "latest".

(** The EIP-1898 reference to a canonical block. *)
Definition canonical_block (block : BlockRef) : Value :=
  VObject [("blockHash"%string, VHash (blk_hash block));
           ("requireCanonical"%string, VBool true)].

Definition read_object (target : Address) (data : Bytes) : Value :=
  VObject [("to"%string, VAddress target); ("data"%string, VBytes data)].

Definition estimate_object (from target : Address) (data : Bytes) : Value :=
  VObject [("from"%string, VAddress from); ("to"%string, VAddress target);
           ("data"%string, VBytes data)].

Definition call_object (from target : Address) (data : Bytes) : Value :=
  VObject [("from"%string, VAddress from); ("to"%string, VAddress target);
           ("value"%string, VString "0x0"); ("data"%string, VBytes data)].

Definition required_header (header : option RpcHeader) : result ProviderError BlockRef :=
  header ← ok_or header MissingBlock; into_block_ref header.

Definition quantity_request (role : ProviderRole) (method : string) (params : list Value)
    : rpc Z :=
  quantity ← request as_string role method params;
  rpc_lift (parse_quantity method quantity).

Definition read_call (target : Address) (data : Bytes) : rpc Bytes :=
  request as_bytes ProviderRead "eth_call" [read_object target data; latest].

Definition read_call_at (target : Address) (data : Bytes) (block : BlockRef) : rpc Bytes :=
  request as_bytes ProviderRead "eth_call" [read_object target data; canonical_block block].

Definition estimate_gas (from target : Address) (data : Bytes) : rpc Z :=
  quantity_request ProviderSimulate "eth_estimateGas" [estimate_object from target data; latest].

Definition code_at (target : Address) : rpc Bytes :=
  request as_bytes ProviderRead "eth_getCode" [VAddress target; latest].

Definition code_at_block (target : Address) (block : BlockRef) : rpc Bytes :=
  request as_bytes ProviderRead "eth_getCode" [VAddress target; canonical_block block].

Definition storage_at (target : Address) (slot : B256) : rpc B256 :=
  request as_b256 ProviderRead "eth_getStorageAt" [VAddress target; VHash slot; latest].

Definition transaction_count (signer : Address) : rpc Z :=
  quantity_request ProviderRead "eth_getTransactionCount" [VAddress signer; latest].

Definition using_big_blocks (signer : Address) : rpc bool :=
  request as_bool ProviderRead "eth_usingBigBlocks" [VAddress signer].

Definition send_raw_transaction (signed : Bytes) : rpc B256 :=
  request as_b256 ProviderSubmit "eth_sendRawTransaction" [VBytes signed].

(** [ChainDataProvider] *)
Definition chain_id : rpc Z :=
  _ ← require_any_role [ProviderHead; ProviderRead; ProviderCheckpoint];
  quantity ← request_unscoped as_string "eth_chainId" [];
  rpc_lift (parse_quantity "eth_chainId" quantity).

Definition latest_header : rpc BlockRef :=
  _ ← require_any_role [ProviderHead; ProviderCheckpoint];
  header ← request_unscoped as_header "eth_getBlockByNumber" [latest; VBool false];
  rpc_lift (required_header header).

Definition header_by_number (number : Z) : rpc BlockRef :=
  _ ← require_any_role [ProviderHead; ProviderCheckpoint];
  header ← request_unscoped as_header "eth_getBlockByNumber"
    [VString (format_quantity number); VBool false];
  rpc_lift (required_header header).

Definition mark_unsupported : rpc (list RpcReceipt) :=
  _ ← set_capability CapabilityUnsupported;
  rpc_err (MethodUnsupported "eth_getBlockReceipts").

Definition block_receipts (number : Z) : rpc (list RpcReceipt) :=
  _ ← require_any_role [ProviderReceipt; ProviderCheckpoint];
  capability ← block_receipts_capability;
  if bool_decide (capability = CapabilityUnsupported)
  then rpc_err (MethodUnsupported "eth_getBlockReceipts")
  else
    answer ← rpc_try (request_unscoped as_receipts "eth_getBlockReceipts"
                        [VString (format_quantity number)]);
    match answer with
    | Ok receipts => _ ← set_capability CapabilitySupported; mret receipts
    | Err (HttpStatus method status) =>
        if (403 <=? status) && (status <=? 405) then mark_unsupported
        else rpc_err (HttpStatus method status)
    | Err (MethodUnsupported _) => mark_unsupported
    | Err error => rpc_err error
    end.

Definition topic_filter (topic : option (list B256)) : Value :=
  match topic with
  | Some hashes => VArray (VHash <$> hashes)
  | None => VNull
  end.

Definition logs_with_topics (from to : Z) (addresses : list Address)
    (topics : list (option (list B256))) : rpc (list RpcLog) :=
  request as_logs ProviderLogs "eth_getLogs"
    [VObject ([("fromBlock"%string, VString (format_quantity from));
               ("toBlock"%string, VString (format_quantity to))]
              ++ (if bool_decide (addresses = []) then []
                  else [("address"%string, VArray (VAddress <$> addresses))])
              ++ (if bool_decide (topics = []) then []
                  else [("topics"%string, VArray (topic_filter <$> topics))]))].

Definition logs (from to : Z) (addresses : list Address) : rpc (list RpcLog) :=
  logs_with_topics from to addresses [].

Definition receipt_by_hash (hash : B256) : rpc (option RpcReceipt) :=
  _ ← require_any_role [ProviderReceipt; ProviderCheckpoint];
  request_unscoped as_receipt "eth_getTransactionReceipt" [VHash hash].

(** [TransactionLookupProvider] *)
Definition transaction_by_hash (hash : B256) : rpc (option RpcTransaction) :=
  _ ← require_any_role [ProviderReceipt; ProviderCheckpoint];
  request_unscoped as_transaction "eth_getTransactionByHash" [VHash hash].

Definition sent_with_nonce (signer : Address) (nonce : Z) (transaction : RpcTransaction) : bool :=
  (rx_from transaction =? signer)
  && match parse_quantity "transaction.nonce" (rx_nonce transaction) with
     | Ok observed_nonce => observed_nonce =? nonce
     | Err _ => false
     end.

Definition unique_transaction (signer : Address) (nonce : Z) (block : BlockRef)
    (observed : option RpcBlockWithTransactions) : result ProviderError (option RpcTransaction) :=
  observed ← ok_or observed MissingBlock;
  if negb (rb_hash observed =? blk_hash block) then Err MissingBlock
  else
    number ← parse_quantity "block.number" (rb_number observed);
    if negb (number =? blk_number block) then Err MissingBlock
    else match List.filter (sent_with_nonce signer nonce) (rb_transactions observed) with
         | [] => Ok None
         | [found] => Ok (Some found)
         | _ => Err (MalformedResponse "eth_getBlockByNumber")
         end.

Definition transaction_by_sender_nonce_in_block (signer : Address) (nonce : Z) (block : BlockRef)
    : rpc (option RpcTransaction) :=
  _ ← require_any_role [ProviderReceipt; ProviderCheckpoint];
  observed ← request_unscoped as_block "eth_getBlockByNumber"
    [VString (format_quantity (blk_number block)); VBool true];
  rpc_lift (unique_transaction signer nonce block observed).

(** [TransactionSimulationProvider] *)
Definition call_at (from target : Address) (data : Bytes) (block : BlockRef) : rpc Bytes :=
  request as_bytes ProviderSimulate "eth_call"
    [call_object from target data; canonical_block block].

Definition estimate_gas_at (from target : Address) (data : Bytes) (block : BlockRef) : rpc Z :=
  quantity_request ProviderSimulate "eth_estimateGas"
    [call_object from target data; VString (format_quantity (blk_number block))].

(** [AccountNonceProvider], [AccountFundingProvider] and [FeeQuoteProvider] *)
Definition account_nonce_at (signer : Address) (block : BlockRef) : rpc Z :=
  quantity_request ProviderRead "eth_getTransactionCount" [VAddress signer; canonical_block block].

Definition account_balance_at (signer : Address) (block : BlockRef) : rpc Z :=
  quantity ← request as_string ProviderRead "eth_getBalance"
    [VAddress signer; canonical_block block];
  rpc_lift (parse_u256_quantity "eth_getBalance" quantity).

Definition fee_quote : rpc RpcFeeQuote :=
  gas_price ← request as_string ProviderRead "eth_gasPrice" [];
  max_priority_fee_per_gas ← request as_string ProviderRead "eth_maxPriorityFeePerGas" [];
  rpc_lift (gas_price ← parse_u256_quantity "eth_gasPrice" gas_price;
            priority ← parse_u256_quantity "eth_maxPriorityFeePerGas" max_priority_fee_per_gas;
            Ok (mkRpcFeeQuote gas_price priority)).

(** ** The startup probe *)

Definition probe_receipts (number : Z) : rpc bool :=
  answer ← rpc_try (request_unscoped as_receipts "eth_getBlockReceipts"
                      [VString (format_quantity number)]);
  match answer with
  | Ok _ => mret true
  | Err (MethodUnsupported _) => mret false
  | Err error => rpc_err error
  end.

Definition requires_hyper_evm_signer_lane_check (policy : BlockOpportunityPolicy) : bool :=
  match policy with HyperEvmFastBlocks _ => true | EveryCanonicalBlock => false end.

Definition probe_capabilities (expected_chain_id : Z) (probe : CapabilityProbe)
    (block_policy : BlockOpportunityPolicy) : rpc ProviderCapabilities :=
  chain_id_quantity ← request_unscoped as_string "eth_chainId" [];
  chain_id ← rpc_lift (parse_quantity "eth_chainId" chain_id_quantity);
  if negb (chain_id =? expected_chain_id)
  then rpc_err (ProviderChainMismatch expected_chain_id chain_id)
  else
    latest_header ← request_unscoped as_header "eth_getBlockByNumber" [latest; VBool false];
    latest_head ← rpc_lift (required_header latest_header);
    block_receipts ← probe_receipts (blk_number latest_head);
    let number := VString (format_quantity (blk_number latest_head)) in
    _ ← request_unscoped as_logs "eth_getLogs"
          [VObject [("fromBlock"%string, number); ("toBlock"%string, number)]];
    _ ← request_unscoped as_bytes "eth_call"
          [read_object (cb_read_target probe) (cb_read_calldata probe); latest];
    _ ← request_unscoped as_string "eth_estimateGas"
          [estimate_object (cb_signer probe) (cb_read_target probe) (cb_read_calldata probe);
           latest];
    _ ← request_unscoped as_bytes "eth_getCode" [VAddress (cb_read_target probe); latest];
    _ ← request_unscoped as_b256 "eth_getStorageAt"
          [VAddress (cb_read_target probe); VHash 0; latest];
    _ ← request_unscoped as_string "eth_getTransactionCount"
          [VAddress (cb_signer probe); latest];
    _ ← request_unscoped as_string "eth_gasPrice" [];
    _ ← request_unscoped as_string "eth_maxPriorityFeePerGas" [];
    _ ← request_unscoped as_value "eth_getTransactionByHash"
          [VHash (cb_known_transaction_hash probe)];
    _ ← request_unscoped as_receipt "eth_getTransactionReceipt"
          [VHash (cb_known_transaction_hash probe)];
    signer_uses_big_blocks ←
      (if requires_hyper_evm_signer_lane_check block_policy
       then answer ← request_unscoped as_bool "eth_usingBigBlocks" [VAddress (cb_signer probe)];
            mret (Some answer)
       else mret None);
    if bool_decide (signer_uses_big_blocks = Some true) then rpc_err SignerUsesBigBlocks
    else mret (mkProviderCapabilities chain_id latest_head block_receipts true true true true true
                 true true true true signer_uses_big_blocks).

End Client.
