(* ===== verification/ProviderProofs.v ===== *)
(** * What a provider sends

    Every operation of the provider as a call, the requests a series of calls
    sends, and the proof that they stay within the roles of the provider: only
    the submission of signed bytes ever sends a transaction. *)
From Stdlib Require Import ZArith Lia String Ascii.
From stdpp Require Import base gmap sets strings list.
From S2P Require Import Prelude.
From S2P Require Import Text.
From S2P Require Import Domain.
From S2P Require Import Config.
From S2P Require Import Provider.
Open Scope Z_scope.

(** ** Quantities *)

Lemma quantity_round_trip field value :
  0 <= value <= U64_MAX -> parse_quantity field (format_quantity value) = Ok value.
Proof.
  intros Hv. unfold parse_quantity, format_quantity.
  pose proof (u64_from_hex_of_u64 value Hv) as E.
  change (strip_0x ("0x" +:+ hex_of_u64 value)) with (Some (hex_of_u64 value)).
  cbn [ok_or mbind result_bind].
  destruct (is_empty (hex_of_u64 value)) eqn:Ev; [|by rewrite E].
  destruct (hex_of_u64 value); done.
Qed.

(** Only a submission can be classified by the state of the transaction pool. *)
Lemma classify_read_error method code message :
  method <> "eth_sendRawTransaction"%string ->
  classify_rpc_error method code message = UnknownCategory \/
  category_is_transient_outage (classify_rpc_error method code message) = true.
Proof.
  intros Hm. unfold classify_rpc_error.
  rewrite (bool_decide_eq_false_2 _ Hm). cbn [negb].
  repeat (case_match; [by right|]). by left.
Qed.

(** ** Calls *)

Inductive ProviderCall : Type :=
  | ReadCall (target : Address) (data : Bytes)
  | ReadCallAt (target : Address) (data : Bytes) (block : BlockRef)
  | EstimateGas (from target : Address) (data : Bytes)
  | CodeAt (target : Address)
  | CodeAtBlock (target : Address) (block : BlockRef)
  | StorageAt (target : Address) (slot : B256)
  | TransactionCount (signer : Address)
  | UsingBigBlocks (signer : Address)
  | SubmitSignedBytes (signed : Bytes)
  | ChainId
  | LatestHeader
  | HeaderByNumber (number : Z)
  | BlockReceipts (number : Z)
  | LogsWithTopics (from to : Z) (addresses : list Address) (topics : list (option (list B256)))
  | ReceiptByHash (hash : B256)
  | TransactionByHash (hash : B256)
  | TransactionBySenderNonce (signer : Address) (nonce : Z) (block : BlockRef)
  | CallAt (from target : Address) (data : Bytes) (block : BlockRef)
  | EstimateGasAt (from target : Address) (data : Bytes) (block : BlockRef)
  | AccountNonceAt (signer : Address) (block : BlockRef)
  | AccountBalanceAt (signer : Address) (block : BlockRef)
  | FeeQuote
  | ProbeCapabilities (expected_chain_id : Z) (probe : CapabilityProbe)
      (policy : BlockOpportunityPolicy).

(** The roles one of which the provider must have; the startup probe checks the
    endpoint whatever its roles. *)
Definition call_roles (call : ProviderCall) : option (list ProviderRole) :=
  match call with
  | ReadCall _ _ | ReadCallAt _ _ _ | CodeAt _ | CodeAtBlock _ _ | StorageAt _ _
  | TransactionCount _ | UsingBigBlocks _ | AccountNonceAt _ _ | AccountBalanceAt _ _
  | FeeQuote => Some [ProviderRead]
  | EstimateGas _ _ _ | CallAt _ _ _ _ | EstimateGasAt _ _ _ _ => Some [ProviderSimulate]
  | SubmitSignedBytes _ => Some [ProviderSubmit]
  | ChainId => Some [ProviderHead; ProviderRead; ProviderCheckpoint]
  | LatestHeader | HeaderByNumber _ => Some [ProviderHead; ProviderCheckpoint]
  | LogsWithTopics _ _ _ _ => Some [ProviderLogs]
  | BlockReceipts _ | ReceiptByHash _ | TransactionByHash _ | TransactionBySenderNonce _ _ _ =>
      Some [ProviderReceipt; ProviderCheckpoint]
  | ProbeCapabilities _ _ _ => None
  end.

Definition call_methods (call : ProviderCall) : list string :=
  match call with
  | ReadCall _ _ | ReadCallAt _ _ _ | CallAt _ _ _ _ => ["eth_call"]
  | EstimateGas _ _ _ | EstimateGasAt _ _ _ _ => ["eth_estimateGas"]
  | CodeAt _ | CodeAtBlock _ _ => ["eth_getCode"]
  | StorageAt _ _ => ["eth_getStorageAt"]
  | TransactionCount _ | AccountNonceAt _ _ => ["eth_getTransactionCount"]
  | UsingBigBlocks _ => ["eth_usingBigBlocks"]
  | SubmitSignedBytes _ => ["eth_sendRawTransaction"]
  | ChainId => ["eth_chainId"]
  | LatestHeader | HeaderByNumber _ | TransactionBySenderNonce _ _ _ => ["eth_getBlockByNumber"]
  | BlockReceipts _ => ["eth_getBlockReceipts"]
  | LogsWithTopics _ _ _ _ => ["eth_getLogs"]
  | ReceiptByHash _ => ["eth_getTransactionReceipt"]
  | TransactionByHash _ => ["eth_getTransactionByHash"]
  | AccountBalanceAt _ _ => ["eth_getBalance"]
  | FeeQuote => ["eth_gasPrice"; "eth_maxPriorityFeePerGas"]
  | ProbeCapabilities _ _ _ =>
      ["eth_chainId"; "eth_getBlockByNumber"; "eth_getBlockReceipts"; "eth_getLogs"; "eth_call";
       "eth_estimateGas"; "eth_getCode"; "eth_getStorageAt"; "eth_getTransactionCount";
       "eth_gasPrice"; "eth_maxPriorityFeePerGas"; "eth_getTransactionByHash";
       "eth_getTransactionReceipt"; "eth_usingBigBlocks"]
  end%string.

Definition authorized (roles : list ProviderRole) (call : ProviderCall) : bool :=
  match call_roles call with
  | Some accepted => existsb (fun role => bool_decide (role ∈ roles)) accepted
  | None => true
  end.

Definition signed_bytes (call : ProviderCall) : option Bytes :=
  match call with SubmitSignedBytes signed => Some signed | _ => None end.

(** The parameters of the submissions among some requests. *)
Definition submissions (requests : list RpcRequest) : list (list Value) :=
  rq_params <$> List.filter (fun q => bool_decide (rq_method q = "eth_sendRawTransaction"%string))
                  requests.

Section Calls.
Context `{HT : RpcTransport} `{HU : U256Parse}.

Definition perform (call : ProviderCall) (p : HttpProvider) : HttpProvider :=
  match call with
  | ReadCall target data => snd (read_call target data p)
  | ReadCallAt target data block => snd (read_call_at target data block p)
  | EstimateGas from target data => snd (estimate_gas from target data p)
  | CodeAt target => snd (code_at target p)
  | CodeAtBlock target block => snd (code_at_block target block p)
  | StorageAt target slot => snd (storage_at target slot p)
  | TransactionCount signer => snd (transaction_count signer p)
  | UsingBigBlocks signer => snd (using_big_blocks signer p)
  | SubmitSignedBytes signed => snd (send_raw_transaction signed p)
  | ChainId => snd (chain_id p)
  | LatestHeader => snd (latest_header p)
  | HeaderByNumber number => snd (header_by_number number p)
  | BlockReceipts number => snd (block_receipts number p)
  | LogsWithTopics from to addresses topics => snd (logs_with_topics from to addresses topics p)
  | ReceiptByHash hash => snd (receipt_by_hash hash p)
  | TransactionByHash hash => snd (transaction_by_hash hash p)
  | TransactionBySenderNonce signer nonce block =>
      snd (transaction_by_sender_nonce_in_block signer nonce block p)
  | CallAt from target data block => snd (call_at from target data block p)
  | EstimateGasAt from target data block => snd (estimate_gas_at from target data block p)
  | AccountNonceAt signer block => snd (account_nonce_at signer block p)
  | AccountBalanceAt signer block => snd (account_balance_at signer block p)
  | FeeQuote => snd (fee_quote p)
  | ProbeCapabilities expected probe policy => snd (probe_capabilities expected probe policy p)
  end.

(** ** Effects *)

(** The provider after sending [l]: same identity, requests numbered in order
    from the next identity. *)
Fixpoint numbered (id : Z) (l : list RpcRequest) : Prop :=
  match l with
  | [] => True
  | q :: l => rq_id q = id /\ numbered ((id + 1) mod (U64_MAX + 1)) l
  end.

Fixpoint advanced (id : Z) (l : list RpcRequest) : Z :=
  match l with [] => id | _ :: l => advanced ((id + 1) mod (U64_MAX + 1)) l end.

Definition after (p : HttpProvider) (l : list RpcRequest) (p' : HttpProvider) : Prop :=
  hp_name p' = hp_name p /\ hp_roles p' = hp_roles p /\ hp_sent p' = hp_sent p ++ l /\
  numbered (hp_next_id p) l /\ hp_next_id p' = advanced (hp_next_id p) l.

Lemma numbered_app id l k : numbered id (l ++ k) <-> numbered id l /\ numbered (advanced id l) k.
Proof.
  revert id. induction l as [|q l IH]; intros id; cbn; [naive_solver|]. rewrite IH. naive_solver.
Qed.

Lemma advanced_app id l k : advanced id (l ++ k) = advanced (advanced id l) k.
Proof. revert id. induction l as [|q l IH]; intros id; cbn; [done|apply IH]. Qed.

Lemma after_refl p : after p [] p.
Proof. unfold after. rewrite app_nil_r. done. Qed.

Lemma after_trans p l p1 k p2 : after p l p1 -> after p1 k p2 -> after p (l ++ k) p2.
Proof.
  intros (N1 & R1 & S1 & O1 & I1) (N2 & R2 & S2 & O2 & I2). unfold after.
  rewrite numbered_app, advanced_app, app_assoc. rewrite <- I1, <- S1. split_and!; congruence.
Qed.

(** [emits M c]: whatever happens, [c] only sends requests of the methods
    [M]. *)
Definition emits {A} (methods : list string) (c : rpc A) : Prop :=
  forall p, exists l, after p l (snd (c p)) /\ Forall (fun q => rq_method q ∈ methods) l.

Lemma emits_silent {A} methods (r : HttpProvider -> result ProviderError A) :
  emits methods (fun p => (r p, p)).
Proof. intros p. exists []. split; [apply after_refl|constructor]. Qed.

Lemma emits_lift {A} methods (c : result ProviderError A) : emits methods (rpc_lift c).
Proof. exact (emits_silent methods (fun _ => c)). Qed.
Lemma emits_err {A} methods e : emits methods (rpc_err (A := A) e).
Proof. exact (emits_silent methods (fun _ => Err e)). Qed.
Lemma emits_ret {A} methods (a : A) : emits methods (mret a).
Proof. exact (emits_silent methods (fun _ => Ok a)). Qed.
Lemma emits_require_any methods roles : emits methods (require_any_role roles).
Proof. exact (emits_silent methods (fun p => fst (require_any_role roles p))). Qed.
Lemma emits_require methods role : emits methods (require_role role).
Proof. exact (emits_silent methods (fun p => fst (require_role role p))). Qed.
Lemma emits_capability methods : emits methods block_receipts_capability.
Proof. exact (emits_silent methods (fun p => fst (block_receipts_capability p))). Qed.

Lemma emits_bind {A B} methods (c : rpc A) (f : A -> rpc B) :
  emits methods c -> (forall a, emits methods (f a)) -> emits methods (c ≫= f).
Proof.
  intros Hc Hf p. unfold mbind, rpc_bind. destruct (Hc p) as (l & Hl & Ml).
  destruct (c p) as [[a|e] p1]; cbn in *; [|by exists l].
  destruct (Hf a p1) as (k & Hk & Mk). exists (l ++ k).
  split; [by eapply after_trans|by apply Forall_app].
Qed.

Lemma emits_try {A} methods (c : rpc A) : emits methods c -> emits methods (rpc_try c).
Proof. intros Hc p. unfold rpc_try. destruct (Hc p) as (l & Hl). destruct (c p). by exists l. Qed.

Lemma emits_set_capability methods capability : emits methods (set_capability capability).
Proof.
  intros p. exists []. split; [|constructor]. unfold after. cbn. by rewrite app_nil_r.
Qed.

Lemma emits_request_unscoped {R} methods (decode : raw -> option R) method params :
  method ∈ methods -> emits methods (request_unscoped decode method params).
Proof.
  intros Hm. apply emits_bind; [|intros; apply emits_lift].
  intros p. exists [mkRpcRequest (hp_next_id p) method params].
  split; [|by constructor]. unfold after. cbn. done.
Qed.

Lemma emits_request {R} methods (decode : raw -> option R) role method params :
  method ∈ methods -> emits methods (request decode role method params).
Proof.
  intros Hm. apply emits_bind; [apply emits_require|]. intros _. by apply emits_request_unscoped.
Qed.

End Calls.

(** The rules of [emits], applied by the shape of the computation. *)
Create HintDb emits.
#[export] Hint Resolve emits_lift emits_err emits_ret emits_require_any emits_require
  emits_capability emits_set_capability : emits.

Ltac list_member := repeat first [ apply list_elem_of_here | apply list_elem_of_further ].
Ltac emits_step :=
  lazymatch goal with
  | |- emits _ (request_unscoped _ _ _) => apply emits_request_unscoped; list_member
  | |- emits _ (request _ _ _ _) => apply emits_request; list_member
  | |- emits _ (rpc_try _) => apply emits_try
  | |- emits _ (_ ≫= _) => apply emits_bind; [|intros ?]
  | |- emits _ (match _ with _ => _ end) => case_match
  | |- emits _ _ => solve [auto 1 with emits]
  end.
Ltac emits_solve := repeat emits_step.

Section Scoped.
Context `{HT : RpcTransport} `{HU : U256Parse}.

Lemma perform_methods call p :
  exists l, after p l (perform call p) /\ Forall (fun q => rq_method q ∈ call_methods call) l.
Proof.
  assert (forall A (c : rpc A), emits (call_methods call) c -> snd (c p) = perform call p ->
    exists l, after p l (perform call p) /\ Forall (fun q => rq_method q ∈ call_methods call) l)
    as use by (intros A c Hc <-; apply Hc).
  destruct call; (eapply use; [|reflexivity]); cbn [call_methods];
    unfold read_call, read_call_at, estimate_gas, code_at, code_at_block, storage_at,
      transaction_count, using_big_blocks, send_raw_transaction, chain_id, latest_header,
      header_by_number, block_receipts, mark_unsupported, block_receipts_capability,
      logs_with_topics, receipt_by_hash, transaction_by_hash, transaction_by_sender_nonce_in_block,
      call_at, estimate_gas_at, account_nonce_at, account_balance_at, fee_quote,
      probe_capabilities, probe_receipts, quantity_request; cbv zeta;
    emits_solve.
Qed.

(** Without a role of the call, nothing is sent. *)
Lemma perform_unauthorized call p :
  authorized (hp_roles p) call = false -> perform call p = p.
Proof.
  unfold authorized. destruct call; cbn -[elem_of]; rewrite ?orb_false_r; intros Hr; try done;
    unfold perform, read_call, read_call_at, estimate_gas, code_at, code_at_block, storage_at,
      transaction_count, using_big_blocks, send_raw_transaction, chain_id, latest_header,
      header_by_number, block_receipts, logs_with_topics, receipt_by_hash, transaction_by_hash,
      transaction_by_sender_nonce_in_block, call_at, estimate_gas_at, account_nonce_at,
      account_balance_at, fee_quote, quantity_request, request, require_role, require_any_role,
      mbind, rpc_bind; cbn -[elem_of]; rewrite ?orb_false_r; by rewrite Hr.
Qed.

Lemma submissions_app l k : submissions (l ++ k) = submissions l ++ submissions k.
Proof. unfold submissions. by rewrite List.filter_app, fmap_app. Qed.

Lemma submissions_other l (methods : list string) :
  Forall (fun q => rq_method q ∈ methods) l -> "eth_sendRawTransaction"%string ∉ methods ->
  submissions l = [].
Proof.
  unfold submissions. intros Hl Hm. induction Hl as [|q l Hq Hl IH]; [done|]. cbn.
  rewrite bool_decide_eq_false_2; [done|]. congruence.
Qed.

(** The requests of one call. *)
Lemma perform_spec call p :
  exists l, after p l (perform call p) /\
    Forall (fun q => rq_method q ∈ call_methods call /\ authorized (hp_roles p) call = true) l /\
    submissions l =
      (if bool_decide (ProviderSubmit ∈ hp_roles p)
       then (fun signed => [VBytes signed]) <$> option_list (signed_bytes call) else []).
Proof.
  destruct (authorized (hp_roles p) call) eqn:Ha.
  - destruct (signed_bytes call) as [signed|] eqn:Hs.
    + destruct call; try done. injection Hs as ->. unfold authorized in Ha. cbn -[elem_of] in Ha.
      rewrite orb_false_r in Ha.
      exists [mkRpcRequest (hp_next_id p) "eth_sendRawTransaction" [VBytes signed]].
      unfold perform, send_raw_transaction, request, require_role, mbind, rpc_bind.
      cbn -[elem_of]. rewrite Ha. split; [done|]. split; [|done].
      constructor; [|constructor]. split; [apply list_elem_of_here|done].
    + destruct (perform_methods call p) as (l & Hl & Hm). exists l. split; [done|].
      split; [by eapply Forall_impl; [exact Hm|]|].
      cbn. rewrite (submissions_other _ _ Hm); [by case_match|].
      destruct call; try done; cbn [call_methods]; rewrite !elem_of_cons, elem_of_nil; naive_solver.
  - exists []. rewrite (perform_unauthorized _ _ Ha).
    split; [apply after_refl|]. split; [constructor|].
    case_bool_decide as Hr; [|done]. destruct call; try done.
    unfold authorized in Ha. cbn -[elem_of] in Ha. by rewrite (bool_decide_eq_true_2 _ Hr) in Ha.
Qed.

(** Whatever the endpoint answers, a series of operations only sends
    requests of the methods of operations the roles of the provider allow,
    numbered in order, and its submissions are exactly the signed bytes handed
    to it, in order, when it has the submission role and none when it has
    not. *)
Theorem provider_calls_scoped calls p :
  exists sent,
    hp_sent (fold_left (fun p call => perform call p) calls p) = hp_sent p ++ sent /\
    numbered (hp_next_id p) sent /\
    Forall (fun q => exists call, call ∈ calls /\ rq_method q ∈ call_methods call /\
                     authorized (hp_roles p) call = true) sent /\
    submissions sent =
      (if bool_decide (ProviderSubmit ∈ hp_roles p)
       then (fun signed => [VBytes signed]) <$> omap signed_bytes calls else []).
Proof.
  enough (exists sent, after p sent (fold_left (fun p call => perform call p) calls p) /\
    Forall (fun q => exists call, call ∈ calls /\ rq_method q ∈ call_methods call /\
                     authorized (hp_roles p) call = true) sent /\
    submissions sent =
      (if bool_decide (ProviderSubmit ∈ hp_roles p)
       then (fun signed => [VBytes signed]) <$> omap signed_bytes calls else []))
    as (sent & (_ & _ & Hs & Hn & _) & Hf & Hb) by (by exists sent).
  revert p. induction calls as [|call calls IH]; intros p.
  - exists []. split; [apply after_refl|]. split; [constructor|]. by case_match.
  - cbn [fold_left]. destruct (perform_spec call p) as (l & Hl & Hm & Hb).
    destruct (IH (perform call p)) as (k & Hk & Hkm & Hkb).
    assert (hp_roles (perform call p) = hp_roles p) as Hr by apply Hl. rewrite Hr in *.
    exists (l ++ k). split; [by eapply after_trans|]. split.
    + apply Forall_app. split.
      * eapply Forall_impl; [exact Hm|]. intros q [? ?]. exists call.
        split; [apply list_elem_of_here|done].
      * eapply Forall_impl; [exact Hkm|]. intros q (c & ? & ? & ?). exists c.
        split; [by apply list_elem_of_further|done].
    + rewrite submissions_app, Hb, Hkb. case_match; [|done].
      cbn. by destruct (signed_bytes call).
Qed.

End Scoped.
