(* ===== verification/Candidates.v ===== *)
(** * Candidate amounts and distributions

    Models [src/src/planner/candidates.rs]: the bounded lattice of candidate
    amounts and the enumeration of exact distributions of a total over
    endpoints.  A [BTreeSet] of amounts is a [gset Z], one of vectors a
    [gset (list Z)] iterated in the derived order; a [usize] bound is a [Z]. *)
From Stdlib Require Import ZArith Lia List Bool.
From stdpp Require Import base list gmap sets sorting.
From S2P Require Import Prelude.
From S2P Require Import Domain.
Open Scope Z_scope.

Record CandidateLattice : Type := mkCandidateLattice {
  cl_amounts : list Z;
  cl_hash : B256;
}.

Definition USIZE_MAX : Z := U64_MAX.

(** The values [neighbors] inserts. *)
Definition neighbors (value maximum : Z) (output : gset Z) : gset Z :=
  let output := if value <=? maximum then {[value]} ∪ output else output in
  let output :=
    if negb (value =? 0)
    then match checked_sub value 1 with Some neighbor => {[neighbor]} ∪ output | None => output end
    else output in
  if value <? maximum
  then match checked_add U256_MAX value 1 with
       | Some neighbor => {[neighbor]} ∪ output
       | None => output
       end
  else output.

(** The binary fractions of [maximum], [count] of them from [divisor]. *)
Fixpoint fractions (count : nat) (divisor maximum : Z) : list Z :=
  match count with
  | O => []
  | S count =>
      option_list (checked_div maximum divisor)
      ++ fractions count (default divisor (checked_mul U256_MAX divisor 2)) maximum
  end.

(** The deduplicating truncation loop. *)
Fixpoint select_amounts (limit maximum : Z) (seen : gset Z) (selected priority : list Z)
    : list Z :=
  match priority with
  | [] => selected
  | amount :: priority =>
      if (amount <=? maximum) && bool_decide (amount ∉ seen) then
        let selected := selected ++ [amount] in
        if Z.of_nat (length selected) =? Z.max limit 1 then selected
        else select_amounts limit maximum ({[amount]} ∪ seen) selected priority
      else select_amounts limit maximum seen selected priority
  end.

Definition amount_priority (minimum_action maximum : Z) (prioritized_boundaries : list Z)
    : list Z :=
  [0; Z.min minimum_action maximum; maximum]
  ++ ((fun boundary => Z.min boundary maximum) <$> prioritized_boundaries)
  ++ concat ((fun boundary => set_elements (neighbors (Z.min boundary maximum) maximum ∅))
             <$> [0; minimum_action; maximum] ++ prioritized_boundaries)
  ++ fractions 16 2 maximum.

Section Lattice.
Context `{HK : Keccak}.

Definition lattice_hash (amounts : list Z) : B256 :=
  keccak256 (concat ((fun amount => be_bytes 32 amount) <$> amounts)).

(** The whole range fits the limit. *)
Definition small_range (maximum limit : Z) : bool :=
  (maximum <=? USIZE_MAX)
  && match checked_add USIZE_MAX maximum 1 with
     | Some count => count <=? Z.max limit 1
     | None => false
     end.

Definition build_candidate_lattice (minimum_action maximum : Z) (prioritized_boundaries : list Z)
    (limit : Z) : CandidateLattice :=
  let amounts :=
    if small_range maximum limit then seqZ 0 (maximum + 1)
    else merge_sort Z.le (select_amounts limit maximum ∅ []
                            (amount_priority minimum_action maximum prioritized_boundaries)) in
  mkCandidateLattice amounts (lattice_hash amounts).

End Lattice.

(** ** Distributions *)

(** A partial distribution and its subtotal. *)
Definition partial : Type := list Z * Z.

(** The innermost loop body: one more amount at [index]. *)
Definition push_amount (limit total : Z) (index : nat) (selected : list Z) (subtotal : Z)
    (next : list partial) (amount : Z) : option (list partial) :=
  match checked_add U256_MAX subtotal amount with
  | None => Some next
  | Some updated =>
      if total <? updated then Some next
      else if limit <=? Z.of_nat (length next) then None
      else
        _ ← selected !! index;
        Some (next ++ [(<[index := amount]> selected, updated)])
  end.

Definition extend_partials (limit total : Z) (index : nat) (amounts : list Z)
    (partials : list partial) : option (list partial) :=
  opt_fold (fun next '(selected, subtotal) =>
    opt_fold (push_amount limit total index selected subtotal) next amounts) [] partials.

(** One pass over the lattices, skipping the sink. *)
Fixpoint fill_endpoints (limit total : Z) (sink index : nat) (lattices : list (list Z))
    (partials : list partial) : option (list partial) :=
  match lattices with
  | [] => Some partials
  | amounts :: lattices =>
      partials ← (if (index =? sink)%nat then Some partials
                  else extend_partials limit total index amounts partials);
      fill_endpoints limit total sink (S index) lattices partials
  end.

(** The completion of a partial distribution by the residual in the sink. *)
Definition complete_partial (maximums : list Z) (limit total minimum_action : Z) (sink : nat)
    (unique : gset (list Z)) (p : partial) : option (gset (list Z)) :=
  let '(selected, subtotal) := p in
  let residual := saturating_sub total subtotal in
  sink_maximum ← maximums !! sink;
  if (sink_maximum <? residual) || (negb (residual =? 0) && (residual <? minimum_action))
     || existsb (fun amount => negb (amount =? 0) && (amount <? minimum_action)) selected
  then Some unique
  else
    _ ← selected !! sink;
    let unique := {[<[sink := residual]> selected]} ∪ unique in
    if limit <? Z.of_nat (size unique) then None else Some unique.

Definition bounded_distributions (maximums : list Z) (lattices : list (list Z))
    (total minimum_action limit : Z) : option (list (list Z)) :=
  let limit := Z.max limit 1 in
  unique ← opt_fold (fun unique sink =>
      partials ← fill_endpoints limit total sink 0 lattices
                   [(replicate (length maximums) 0, 0)];
      opt_fold (complete_partial maximums limit total minimum_action sink) unique partials)
    ∅ (seq 0 (length maximums));
  Some (sort_by_key (fun d => d) (elements unique)).

Example small_lattice :
  cl_amounts (@build_candidate_lattice sum_keccak 10 100 [40] 8) = [0; 1; 9; 10; 11; 40; 99; 100]
  /\ cl_amounts (@build_candidate_lattice sum_keccak 2 3 [] 8) = [0; 1; 2; 3].
Proof. split; vm_compute; reflexivity. Qed.

Example two_endpoints :
  bounded_distributions [50; 100] [[0; 20; 50]; [0; 100]] 100 10 16
  = Some [[0; 100]; [20; 80]; [50; 50]].
Proof. vm_compute. reflexivity. Qed.

(** ** The lattice *)

Lemma select_amounts_spec limit maximum seen selected priority :
  NoDup selected -> (forall x, x ∈ seen <-> x ∈ selected) ->
  Z.of_nat (length selected) < Z.max limit 1 ->
  let r := select_amounts limit maximum seen selected priority in
  NoDup r /\ Z.of_nat (length r) <= Z.max limit 1 /\
  (forall x, x ∈ r -> x ∈ selected \/ (x ∈ priority /\ x <= maximum)) /\
  (forall x, x ∈ selected -> x ∈ r) /\
  (forall x, x ∈ take (Z.to_nat (Z.max limit 1) - length selected) priority -> x <= maximum ->
     x ∈ r).
Proof.
  revert seen selected. induction priority as [|a priority IH]; intros seen selected Hnd Hs Hl.
  { cbn [select_amounts]. rewrite take_nil. split_and!; try done; [lia|auto|].
    by intros x Hx%elem_of_nil. }
  cbn [select_amounts]. destruct (_ && _) eqn:E; bool_spec E.
  - destruct E as [Ha Hns]. rewrite Hs in Hns.
    assert (NoDup (selected ++ [a])) as Hnd'.
    { apply NoDup_app. split; [done|]. split; [|apply NoDup_singleton].
      by intros x Hx ->%list_elem_of_singleton. }
    assert (length (selected ++ [a]) = S (length selected)) as Hlen
      by (rewrite length_app; cbn; lia).
    destruct (_ =? _) eqn:Eq; bool_spec Eq.
    + cbv zeta. split_and!; [done|lia| | |].
      * intros x [Hx|Hx]%elem_of_app; [by left|]. apply list_elem_of_singleton in Hx as ->.
        right. split; [by left|done].
      * intros x Hx. apply elem_of_app. by left.
      * intros x Hx Hxm. replace (Z.to_nat (Z.max limit 1) - length selected)%nat with 1%nat in Hx
          by lia. cbn in Hx. rewrite take_0 in Hx. apply elem_of_app. by right.
    + destruct (IH ({[a]} ∪ seen) (selected ++ [a])) as (H1 & H2 & H3 & H4 & H5);
        [done|intros x; rewrite elem_of_union, elem_of_app, elem_of_singleton,
           list_elem_of_singleton, Hs; tauto|lia|].
      cbv zeta in *. split_and!; try done.
      * intros x Hx%H3. rewrite elem_of_app, list_elem_of_singleton in Hx.
        rewrite elem_of_cons. destruct Hx as [[?| ->]|[? ?]]; auto.
      * intros x Hx. apply H4, elem_of_app. by left.
      * intros x Hx Hxm. rewrite Hlen in H5.
        destruct (Z.to_nat (Z.max limit 1) - length selected)%nat as [|n] eqn:En; [lia|].
        cbn in Hx. apply elem_of_cons in Hx as [->|Hx].
        -- apply H4, elem_of_app. right. by left.
        -- apply H5; [|done].
           by replace (Z.to_nat (Z.max limit 1) - S (length selected))%nat with n by lia.
  - destruct (IH seen selected) as (H1 & H2 & H3 & H4 & H5); [done..|].
    cbv zeta in *. split_and!; try done.
    + intros x Hx%H3. rewrite elem_of_cons. tauto.
    + intros x Hx Hxm. destruct (Z.to_nat (Z.max limit 1) - length selected)%nat as [|n] eqn:En;
        [lia|]. cbn in Hx. apply elem_of_cons in Hx as [->|Hx].
      * destruct E as [?|Hin]; [lia|]. apply H4, Hs. by apply dec_stable.
      * apply H5; [|done]. rewrite elem_of_take in Hx |- *. destruct Hx as (i & Hi & ?).
        exists i. split; [done|lia].
Qed.

Lemma fractions_bounds count divisor maximum x :
  0 <= maximum -> 0 < divisor -> x ∈ fractions count divisor maximum -> 0 <= x <= maximum.
Proof.
  intros Hm. revert divisor. induction count as [|count IH]; intros divisor Hd; cbn;
    [by intros Hx%elem_of_nil|].
  intros [Hx|Hx]%elem_of_app.
  - destruct (checked_div maximum divisor) as [q|] eqn:Eq; [|by apply elem_of_nil in Hx].
    apply checked_div_Some in Eq as [-> _]. apply list_elem_of_singleton in Hx as ->.
    split; [apply Z.div_pos; lia|]. apply Z.div_le_upper_bound; nia.
  - apply IH in Hx; [done|]. destruct (checked_mul _ _ _) as [d|] eqn:Ed; cbn; [|done].
    apply checked_mul_Some in Ed as [-> _]. lia.
Qed.

Lemma neighbors_nonneg value maximum output x :
  0 <= value -> (forall y, y ∈ output -> 0 <= y) -> x ∈ neighbors value maximum output -> 0 <= x.
Proof.
  intros Hv Ho. unfold neighbors.
  destruct (value <=? maximum), (value =? 0) eqn:E0, (value <? maximum); bool_spec E0;
    destruct (checked_sub value 1) as [v|] eqn:E1, (checked_add U256_MAX value 1) as [w|] eqn:E2;
    cbn; try (apply checked_sub_Some in E1 as [-> ?]); try (apply checked_add_Some in E2 as [-> ?]);
    rewrite ?elem_of_union, ?elem_of_singleton; intros Hx; naive_solver lia.
Qed.

(** What a lattice of candidate amounts offers the solvers. *)
Record lattice_ok (minimum_action maximum : Z) (boundaries : list Z) (limit : Z)
    (amounts : list Z) : Prop := {
  lo_sorted : Sorted Z.le amounts;
  lo_nodup : NoDup amounts;
  lo_bounds : Forall (fun a => 0 <= a <= maximum) amounts;
  lo_length : Z.of_nat (length amounts) <= Z.max limit 1;
  lo_zero : 0 ∈ amounts;
  lo_extremes : 3 <= limit -> Z.min minimum_action maximum ∈ amounts /\ maximum ∈ amounts;
  lo_boundaries : 3 + Z.of_nat (length boundaries) <= limit ->
    forall b, b ∈ boundaries -> Z.min b maximum ∈ amounts;
  lo_complete : maximum + 1 <= limit -> forall a, 0 <= a <= maximum -> a ∈ amounts;
}.

Lemma seqZ_sorted k m : Sorted Z.le (seqZ m (Z.of_nat k)).
Proof.
  revert m. induction k as [|k IH]; intros m; [rewrite seqZ_nil by lia; constructor|].
  rewrite seqZ_cons by lia. replace (Z.pred (Z.of_nat (S k))) with (Z.of_nat k) by lia.
  constructor; [apply IH|]. destruct k; [rewrite seqZ_nil by lia; constructor|].
  rewrite seqZ_cons by lia. constructor. lia.
Qed.

Lemma range_lattice_ok minimum_action maximum boundaries limit :
  0 <= minimum_action -> 0 <= maximum -> Forall (fun b => 0 <= b) boundaries ->
  small_range maximum limit = true ->
  lattice_ok minimum_action maximum boundaries limit (seqZ 0 (maximum + 1)).
Proof.
  intros Hmin Hm Hb Es. unfold small_range in Es. bool_spec Es. destruct Es as [Hu Hc].
  destruct (checked_add _ _ _) as [c|] eqn:Ec; [|done]. apply checked_add_Some in Ec as [-> ?].
  apply Z.leb_le in Hc.
  assert (forall a, a ∈ seqZ 0 (maximum + 1) <-> 0 <= a <= maximum) as Hin
    by (intros; rewrite elem_of_seqZ; lia).
  rewrite Forall_forall in Hb. split.
  - replace (maximum + 1) with (Z.of_nat (Z.to_nat (maximum + 1))) by lia. apply seqZ_sorted.
  - apply NoDup_seqZ.
  - apply Forall_forall. intros x. by rewrite Hin.
  - rewrite length_seqZ. lia.
  - apply Hin. lia.
  - intros _. rewrite !Hin. lia.
  - intros _ b Hbin. apply Hin. specialize (Hb b Hbin). lia.
  - intros _ a Ha. by apply Hin.
Qed.

Lemma amount_priority_nonneg minimum_action maximum boundaries x :
  0 <= minimum_action -> 0 <= maximum -> Forall (fun b => 0 <= b) boundaries ->
  x ∈ amount_priority minimum_action maximum boundaries -> 0 <= x.
Proof.
  intros Hmin Hm Hb Hx. unfold amount_priority in Hx. rewrite Forall_forall in Hb.
  rewrite !elem_of_app in Hx. destruct Hx as [Hx|[Hx|[Hx|Hx]]].
  - rewrite !elem_of_cons, elem_of_nil in Hx. lia.
  - apply list_elem_of_fmap in Hx as (b & -> & Hb'). specialize (Hb b Hb'). lia.
  - apply list_elem_of_In, in_concat in Hx as (l & Hl & Hx). apply list_elem_of_In in Hl, Hx.
    apply list_elem_of_fmap in Hl as (b & -> & Hb'). apply elem_of_set_elements in Hx.
    eapply (neighbors_nonneg (Z.min b maximum) maximum ∅); [|set_solver|exact Hx].
    apply elem_of_app in Hb' as [Hb'|Hb'%Hb]; [|lia].
    rewrite !elem_of_cons, elem_of_nil in Hb'. lia.
  - apply fractions_bounds in Hx; lia.
Qed.

Lemma selected_lattice_ok minimum_action maximum boundaries limit :
  0 <= minimum_action -> 0 <= maximum -> Forall (fun b => 0 <= b) boundaries ->
  limit <= USIZE_MAX -> small_range maximum limit = false ->
  lattice_ok minimum_action maximum boundaries limit
    (merge_sort Z.le (select_amounts limit maximum ∅ []
       (amount_priority minimum_action maximum boundaries))).
Proof.
  intros Hmin Hm Hb Hlim Es.
  destruct (select_amounts_spec limit maximum ∅ []
    (amount_priority minimum_action maximum boundaries)) as (H1 & H2 & H3 & _ & H5);
    [constructor|set_solver|cbn; lia|]. cbv zeta in *.
  set (r := select_amounts _ _ _ _ _) in *. cbn [length] in H5. rewrite Nat.sub_0_r in H5.
  assert (forall n x, (n <= Z.to_nat (Z.max limit 1))%nat ->
    x ∈ take n (amount_priority minimum_action maximum boundaries) -> x <= maximum -> x ∈ r)
    as Hpre.
  { intros n x Hn Hx. apply H5. rewrite elem_of_take in Hx |- *. destruct Hx as (i & Hi & ?).
    exists i. split; [done|lia]. }
  assert (take 3 (amount_priority minimum_action maximum boundaries)
    = [0; Z.min minimum_action maximum; maximum]) as Hpre3 by done.
  pose proof (merge_sort_Permutation Z.le r) as Hp. split.
  - apply Sorted_merge_sort. apply _.
  - by rewrite Hp.
  - rewrite Hp. apply Forall_forall. intros x Hx.
    apply H3 in Hx as [Hx|[Hx ?]]; [by apply elem_of_nil in Hx|].
    split; [|done]. by apply (amount_priority_nonneg minimum_action maximum boundaries).
  - by rewrite Hp.
  - rewrite Hp. apply (Hpre 1%nat); [lia|by left|done].
  - intros Hl. rewrite Hp. split.
    + apply (Hpre 3%nat); [lia|rewrite Hpre3, !elem_of_cons; auto|lia].
    + apply (Hpre 3%nat); [lia|rewrite Hpre3, !elem_of_cons; auto|lia].
  - intros Hl b Hbin. rewrite Hp.
    apply (Hpre (3 + length boundaries)%nat); [lia| |lia].
    apply list_elem_of_lookup in Hbin as [i Hi]. pose proof (lookup_lt_Some _ _ _ Hi).
    apply elem_of_take. exists (3 + i)%nat. split; [|lia].
    unfold amount_priority. rewrite lookup_app_r by (cbn; lia).
    replace (3 + i - _)%nat with i by (cbn; lia).
    rewrite lookup_app_l by (rewrite length_fmap; lia). by rewrite list_lookup_fmap, Hi.
  - intros Hl. exfalso. unfold small_range in Es. bool_spec Es.
    destruct Es as [Hu|Hc]; [lia|].
    assert (USIZE_MAX = 18446744073709551615) as HU by done.
    rewrite (proj2 (checked_add_Some USIZE_MAX maximum 1 (maximum + 1))) in Hc by lia.
    apply Z.leb_gt in Hc. lia.
Qed.

Lemma build_lattice_ok `{Keccak} minimum_action maximum boundaries limit :
  0 <= minimum_action -> 0 <= maximum -> Forall (fun b => 0 <= b) boundaries ->
  limit <= USIZE_MAX ->
  let lattice := build_candidate_lattice minimum_action maximum boundaries limit in
  lattice_ok minimum_action maximum boundaries limit (cl_amounts lattice) /\
  cl_hash lattice = lattice_hash (cl_amounts lattice).
Proof.
  intros Hmin Hm Hb Hlim lattice. split; [|done]. unfold lattice, build_candidate_lattice.
  cbn [cl_amounts]. destruct (small_range maximum limit) eqn:Es.
  - by apply range_lattice_ok.
  - by apply selected_lattice_ok.
Qed.

Lemma lattice_bounds `{Keccak} minimum_action maximum boundaries limit :
  0 <= minimum_action -> 0 <= maximum -> Forall (fun b => 0 <= b) boundaries ->
  limit <= USIZE_MAX ->
  Forall (fun a => 0 <= a <= maximum)
    (cl_amounts (build_candidate_lattice minimum_action maximum boundaries limit)).
Proof. intros H1 H2 H3 H4. destruct (build_lattice_ok _ _ _ _ H1 H2 H3 H4) as [H5 _]. apply H5. Qed.
#[global] Arguments build_candidate_lattice : simpl never.

(** The candidate lattice is a sorted set of amounts within the maximum, no
    larger than the configured limit, that always contains zero; with room for
    three amounts it contains the minimum action and the maximum, with room for
    the boundaries every clamped boundary, and with room for the whole range
    every amount; its hash commits to these amounts. *)
Theorem lattice_sound `{Keccak} minimum_action maximum boundaries limit :
  0 <= minimum_action -> 0 <= maximum -> Forall (fun b => 0 <= b) boundaries ->
  limit <= USIZE_MAX ->
  let lattice := build_candidate_lattice minimum_action maximum boundaries limit in
  lattice_ok minimum_action maximum boundaries limit (cl_amounts lattice) /\
  cl_hash lattice = lattice_hash (cl_amounts lattice).
Proof. apply build_lattice_ok. Qed.

(** ** The enumeration *)

Lemma push_amounts_spec limit total index selected subtotal amounts next out :
  total <= U256_MAX -> (index < length selected)%nat ->
  opt_fold (push_amount limit total index selected subtotal) next amounts = Some out ->
  forall p, p ∈ out <-> p ∈ next \/
    exists a, a ∈ amounts /\ subtotal + a <= total /\ p = (<[index := a]> selected, subtotal + a).
Proof.
  intros Ht Hi. revert next. induction amounts as [|a amounts IH]; intros next H p; cbn in H.
  { injection H as <-. split; [by left|]. intros [?|(a & Ha & _)]; [done|by apply elem_of_nil in Ha]. }
  apply bind_Some in H as (next' & Hp & H). specialize (IH _ H p). rewrite IH. clear IH H.
  assert (p ∈ next' <-> p ∈ next \/
    (subtotal + a <= total /\ p = (<[index := a]> selected, subtotal + a))) as Hn.
  { unfold push_amount in Hp. destruct (checked_add _ _ _) as [u|] eqn:Eu.
    - apply checked_add_Some in Eu as [-> _]. destruct (total <? _) eqn:Et; bool_spec Et.
      + injection Hp as <-. split; [by left|]. intros [?|[? _]]; [done|lia].
      + destruct (limit <=? _); [done|]. apply bind_Some in Hp as (y & _ & Hp).
        injection Hp as <-. rewrite elem_of_app, list_elem_of_singleton. naive_solver.
    - injection Hp as <-. split; [by left|]. intros [?|[? _]]; [done|].
      by rewrite (proj2 (checked_add_Some U256_MAX subtotal a _)) in Eu by (split; [done|lia]). }
  rewrite Hn. split.
  - intros [[?|[? ->]]|(b & Hb & ? & ->)]; [by left| |]; right.
    + exists a. split; [by left|done].
    + exists b. split; [by right|done].
  - intros [?|(b & [->|Hb]%elem_of_cons & ? & ->)]; [auto|auto|]. right. by exists b.
Qed.

Lemma extend_partials_spec limit total index amounts partials out :
  total <= U256_MAX -> (forall v s, (v, s) ∈ partials -> (index < length v)%nat) ->
  extend_partials limit total index amounts partials = Some out ->
  forall p, p ∈ out <-> exists v s a, (v, s) ∈ partials /\ a ∈ amounts /\ s + a <= total /\
    p = (<[index := a]> v, s + a).
Proof.
  intros Ht. unfold extend_partials.
  assert (forall next, (forall v s, (v, s) ∈ partials -> (index < length v)%nat) ->
    opt_fold (fun next '(selected, subtotal) =>
      opt_fold (push_amount limit total index selected subtotal) next amounts) next partials
      = Some out ->
    forall p, p ∈ out <-> p ∈ next \/ exists v s a, (v, s) ∈ partials /\ a ∈ amounts /\
      s + a <= total /\ p = (<[index := a]> v, s + a)) as Hg.
  { induction partials as [|[v s] partials IH]; intros next Hlen H p; cbn in H.
    - injection H as <-. split; [by left|]. intros [?|(? & ? & ? & Hin & _)]; [done|].
      by apply elem_of_nil in Hin.
    - apply bind_Some in H as (next' & Hp & H).
      rewrite (IH next') by (done || (intros; apply (Hlen v0 s0); by right)).
      rewrite (push_amounts_spec _ _ _ _ _ _ _ _ Ht (Hlen v s ltac:(by left)) Hp p). split.
      + intros [[?|(a & ? & ? & ->)]|(w & t & a & ? & ? & ? & ->)]; [by left| |]; right.
        * exists v, s, a. split; [by left|done].
        * exists w, t, a. split; [by right|done].
      + intros [?|(w & t & a & [[= -> ->]|?]%elem_of_cons & ? & ? & ->)]; [auto|left; right|right].
        * by exists a.
        * by exists w, t, a. }
  intros Hlen H p. rewrite (Hg [] Hlen H p). split; [intros [Hn|?]; [by apply elem_of_nil in Hn|done]|].
  auto.
Qed.

(** A choice of one lattice amount per endpoint but the sink. *)
Fixpoint choice (sink index : nat) (lattices : list (list Z)) (post : list Z) : Prop :=
  match lattices, post with
  | [], [] => True
  | amounts :: lattices, x :: post =>
      (if (index =? sink)%nat then x = 0 else x ∈ amounts) /\ choice sink (S index) lattices post
  | _, _ => False
  end.

Definition lattices_nonneg (lattices : list (list Z)) : Prop :=
  Forall (Forall (fun a => 0 <= a)) lattices.

Lemma choice_nonneg sink index lattices post :
  lattices_nonneg lattices -> choice sink index lattices post -> Forall (fun x => 0 <= x) post.
Proof.
  revert index post. induction lattices as [|l ls IH]; intros index [|x post] Hn; cbn; try done.
  apply Forall_cons in Hn as [Hl Hn]. intros [Hx Hc]. constructor; [|by eapply IH].
  destruct (index =? sink)%nat; [lia|]. rewrite Forall_forall in Hl. by apply Hl.
Qed.

Lemma insert_middle (pre : list Z) x y zs : <[length pre := x]> (pre ++ y :: zs) = (pre ++ [x]) ++ zs.
Proof. rewrite insert_app_r_alt by lia. rewrite Nat.sub_diag. cbn. by rewrite <-app_assoc. Qed.

Lemma fill_endpoints_spec limit total sink index lattices partials out :
  total <= U256_MAX -> lattices_nonneg lattices ->
  (forall v s, (v, s) ∈ partials -> s <= total /\
     exists pre, length pre = index /\ v = pre ++ replicate (length lattices) 0) ->
  fill_endpoints limit total sink index lattices partials = Some out ->
  forall v s, (v, s) ∈ out <->
    exists pre s0 post, (pre ++ replicate (length lattices) 0, s0) ∈ partials /\
      length pre = index /\ choice sink index lattices post /\
      v = pre ++ post /\ s = s0 + list_sum post /\ s <= total.
Proof.
  intros Ht. revert index partials. induction lattices as [|amounts ls IH];
    intros index partials Hnn Hpre H v s; cbn [fill_endpoints] in H.
  - injection H as <-. split.
    + intros Hin. destruct (Hpre v s Hin) as (Hs & pre & Hl & ->).
      exists pre, s, []. cbn in *. rewrite app_nil_r in *.
      change (list_sum []) with 0. split_and!; try done; lia.
    + intros (pre & s0 & [|] & Hin & _ & Hc & -> & -> & _); [|done].
      change (list_sum []) with 0. cbn in *. by rewrite Z.add_0_r.
  - apply bind_Some in H as (ps' & Hps & H). apply Forall_cons in Hnn as [Ham Hnn].
    cbn [length replicate] in *.
    assert (forall w t, (w, t) ∈ ps' <-> exists pre s0 x, (pre ++ 0 :: replicate (length ls) 0, s0)
        ∈ partials /\ length pre = index /\ (if (index =? sink)%nat then x = 0 else x ∈ amounts) /\
        w = (pre ++ [x]) ++ replicate (length ls) 0 /\ t = s0 + x /\ t <= total) as Hps'.
    { intros w t. destruct (index =? sink)%nat eqn:Ei.
      - injection Hps as <-. split.
        + intros Hin. destruct (Hpre w t Hin) as (Hs & pre & Hl & ->).
          exists pre, t, 0. rewrite <-app_assoc. split_and!; try done; lia.
        + intros (pre & s0 & x & Hin & _ & -> & -> & -> & _). rewrite <-app_assoc, Z.add_0_r. done.
      - assert (forall w t, (w, t) ∈ partials -> (index < length w)%nat) as Hlen.
        { intros w' t' Hin. destruct (Hpre w' t' Hin) as (_ & pre & <- & ->).
          rewrite length_app, length_cons. lia. }
        rewrite (extend_partials_spec _ _ _ _ _ _ Ht Hlen Hps). split.
        + intros (w' & t' & a & Hin & Ha & Hle & [= -> ->]).
          destruct (Hpre w' t' Hin) as (Hs & pre & Hl & ->).
          exists pre, t', a. rewrite <-Hl, insert_middle. done.
        + intros (pre & s0 & x & Hin & Hl & Hx & -> & -> & Hle).
          exists (pre ++ 0 :: replicate (length ls) 0), s0, x. split_and!; [done..|].
          by rewrite <-Hl, insert_middle. }
    assert (forall w t, (w, t) ∈ ps' -> t <= total /\
      exists pre, length pre = S index /\ w = pre ++ replicate (length ls) 0) as Hpre'.
    { intros w t (pre & s0 & x & _ & <- & _ & -> & -> & Hle)%Hps'. split; [done|].
      exists (pre ++ [x]). rewrite length_app, length_cons. split; [cbn; lia|done]. }
    rewrite (IH (S index) ps' Hnn Hpre' H). split.
    + intros (pre' & s1 & post & Hin & Hl' & Hc & -> & -> & Hle).
      apply Hps' in Hin as (pre & s0 & x & Hin & Hl & Hx & Hw & -> & Hle1).
      apply app_inj_2 in Hw as [-> _]; [|done].
      exists pre, s0, (x :: post). rewrite list_sum_cons, <-app_assoc. split_and!; try done; lia.
    + intros (pre & s0 & [|x post] & Hin & Hl & Hc & -> & -> & Hle); [done|].
      destruct Hc as [Hx Hc]. rewrite list_sum_cons in *.
      pose proof (list_sum_nonneg _ (choice_nonneg _ _ _ _ Hnn Hc)).
      exists (pre ++ [x]), (s0 + x), post. rewrite length_app. cbn [length].
      split_and!; [|lia|done|by rewrite <-app_assoc|lia|lia].
      apply Hps'. exists pre, s0, x. rewrite <-app_assoc. split_and!; try done; lia.
Qed.

(** *** Completion by the residual *)

(** The guards a completed partial passes. *)
Definition completable (maximums : list Z) (total minimum_action : Z) (sink : nat)
    (selected : list Z) (subtotal : Z) : Prop :=
  exists maximum, maximums !! sink = Some maximum /\ total - subtotal <= maximum /\
    (total - subtotal = 0 \/ minimum_action <= total - subtotal) /\
    Forall (fun x => x = 0 \/ minimum_action <= x) selected.

Lemma complete_partial_spec maximums limit total minimum_action sink unique selected subtotal out :
  subtotal <= total ->
  complete_partial maximums limit total minimum_action sink unique (selected, subtotal) = Some out ->
  (forall d, d ∈ out <-> d ∈ unique \/
     (completable maximums total minimum_action sink selected subtotal /\
      d = <[sink := total - subtotal]> selected)) /\
  (Z.of_nat (size unique) <= limit -> Z.of_nat (size out) <= limit).
Proof.
  intros Hle H. unfold complete_partial in H. rewrite saturating_sub_spec in H.
  rewrite Z.max_r in H by lia. apply bind_Some in H as (m & Hm & H). unfold completable.
  assert (existsb (fun amount => negb (amount =? 0) && (amount <? minimum_action)) selected = false
    <-> Forall (fun x => x = 0 \/ minimum_action <= x) selected) as Hall.
  { rewrite Forall_forall, <-not_true_iff_false, existsb_exists. split.
    - intros Hn x Hx%list_elem_of_In. destruct (decide (x = 0)); [by left|]. right.
      destruct (decide (minimum_action <= x)); [done|]. destruct Hn. exists x. split; [done|].
      rewrite andb_true_iff, negb_true_iff, Z.eqb_neq, Z.ltb_lt. lia.
    - intros Hf (x & Hx%list_elem_of_In%Hf & Hb). bool_spec Hb. lia. }
  destruct (_ || _) eqn:E.
  - injection H as <-. split; [|done]. intros d. split; [by left|].
    intros [?|[(m' & Hm' & H1 & H2 & H3) _]]; [done|]. rewrite Hm in Hm'. injection Hm' as <-.
    rewrite <-Hall in H3. rewrite H3 in E. bool_spec E. lia.
  - bool_spec E. destruct E as [[E1 E2] E3]. apply Hall in E3.
    apply bind_Some in H as (y & Hy & H).
    destruct (limit <? _) eqn:El; [done|]. injection H as <-. apply Z.ltb_ge in El.
    split; [|done]. intros d. rewrite elem_of_union, elem_of_singleton. split.
    + intros [->|?]; [right|by left]. split; [|done]. by exists m.
    + intros [?|[_ ->]]; auto.
Qed.

Lemma complete_partials_spec maximums limit total minimum_action sink partials unique out :
  (forall v s, (v, s) ∈ partials -> s <= total) ->
  opt_fold (complete_partial maximums limit total minimum_action sink) unique partials = Some out ->
  (forall d, d ∈ out <-> d ∈ unique \/ exists v s, (v, s) ∈ partials /\
     completable maximums total minimum_action sink v s /\ d = <[sink := total - s]> v) /\
  (Z.of_nat (size unique) <= limit -> Z.of_nat (size out) <= limit).
Proof.
  revert unique. induction partials as [|[v s] partials IH]; intros unique Hle H; cbn in H.
  - injection H as <-. split; [|done]. intros d. split; [by left|].
    intros [?|(? & ? & Hin & _)]; [done|by apply elem_of_nil in Hin].
  - apply bind_Some in H as (u & Hu & H).
    apply complete_partial_spec in Hu as [Hu Hsz]; [|apply (Hle v); by left].
    apply IH in H as [H Hsz']; [|intros w t Hin; apply (Hle w); by right].
    split; [|auto]. intros d. rewrite H, Hu. split.
    + intros [[?|[? ->]]|(w & t & ? & ? & ->)]; [by left| |]; right.
      * exists v, s. split; [by left|done].
      * exists w, t. split; [by right|done].
    + intros [?|(w & t & [[= -> ->]|?]%elem_of_cons & ? & ->)]; [auto|auto|].
      right. by exists w, t.
Qed.

(** The vectors the enumeration offers: one endpoint takes the residual of the
    total, every other one an amount of its lattice, and no nonzero amount is
    below the minimum action. *)
Definition distribution (maximums : list Z) (lattices : list (list Z)) (total minimum_action : Z)
    (d : list Z) : Prop :=
  length d = length maximums /\ list_sum d = total /\
  Forall (fun x => x = 0 \/ minimum_action <= x) d /\
  exists sink residual maximum, d !! sink = Some residual /\ maximums !! sink = Some maximum /\
    0 <= residual <= maximum /\
    forall i x, i <> sink -> d !! i = Some x -> exists amounts, lattices !! i = Some amounts /\
      x ∈ amounts.

Lemma choice_spec sink index lattices post :
  choice sink index lattices post <->
  length post = length lattices /\
  forall i x, post !! i = Some x ->
    if (index + i =? sink)%nat then x = 0
    else exists amounts, lattices !! i = Some amounts /\ x ∈ amounts.
Proof.
  revert index post. induction lattices as [|l ls IH]; intros index [|y post]; cbn [choice].
  - split; [|auto]. intros _. split; [done|]. by intros i x.
  - split; [done|]. by intros [? _].
  - split; [done|]. by intros [? _].
  - rewrite IH. cbn [length]. split.
    + intros (Hy & Hl & Hp). split; [lia|]. intros [|i] x Hx; cbn in Hx.
      * injection Hx as <-. rewrite Nat.add_0_r. destruct (index =? sink)%nat; [done|].
        by exists l.
      * specialize (Hp i x Hx). by replace (index + S i)%nat with (S index + i)%nat by lia.
    + intros (Hl & Hp). split; [|split; [lia|]].
      * specialize (Hp 0%nat y eq_refl). rewrite Nat.add_0_r in Hp.
        destruct (index =? sink)%nat; [done|]. destruct Hp as (a & [= <-] & ?). done.
      * intros i x Hx. specialize (Hp (S i) x Hx).
        by replace (S index + i)%nat with (index + S i)%nat by lia.
Qed.

Lemma list_sum_insert (l : list Z) i x y :
  l !! i = Some x -> list_sum (<[i := y]> l) = list_sum l - x + y.
Proof.
  revert i. induction l as [|z l IH]; intros [|i] Hi; cbn in Hi; try done.
  - injection Hi as ->. change (<[0%nat := y]> (x :: l)) with (y :: l). rewrite !list_sum_cons. lia.
  - change (<[S i := y]> (z :: l)) with (z :: <[i := y]> l). rewrite !list_sum_cons, IH by done. lia.
Qed.

(** One sink: the completable choices are the distributions with this sink. *)
Lemma sink_distributions maximums lattices total minimum_action d :
  length lattices = length maximums -> lattices_nonneg lattices -> 0 <= total ->
  0 < minimum_action ->
  (exists sink post, (sink < length maximums)%nat /\ choice sink 0 lattices post /\
     list_sum post <= total /\
     completable maximums total minimum_action sink post (list_sum post) /\
     d = <[sink := total - list_sum post]> post) <->
  distribution maximums lattices total minimum_action d.
Proof.
  intros Hlen Hnn Ht Hmin. split.
  - intros (sink & post & Hs & Hc & Hsum & (m & Hm & H1 & H2 & H3) & ->).
    pose proof Hc as [Hl Hp]%choice_spec.
    assert (exists z, post !! sink = Some z) as [z Hz] by (apply lookup_lt_is_Some; lia).
    pose proof (Hp sink z Hz) as Hz0. cbn in Hz0. rewrite Nat.eqb_refl in Hz0. subst z.
    split; [rewrite length_insert; lia|]. split; [rewrite (list_sum_insert _ _ _ _ Hz); lia|].
    split; [apply Forall_insert; [done|lia]|].
    exists sink, (total - list_sum post), m. split; [apply list_lookup_insert_eq; lia|].
    split; [done|]. split; [lia|]. intros i x Hi Hx.
    rewrite list_lookup_insert_ne in Hx by done. specialize (Hp i x Hx). cbn in Hp.
    by rewrite (proj2 (Nat.eqb_neq i sink)) in Hp.
  - intros (Hl & Hsum & Hf & sink & r & m & Hr & Hm & Hrm & Hp).
    exists sink, (<[sink := 0]> d). pose proof (lookup_lt_Some _ _ _ Hm).
    rewrite (list_sum_insert _ _ _ _ Hr), Hsum.
    assert (choice sink 0 lattices (<[sink:=0]> d)) as Hc.
    { apply choice_spec. split; [rewrite length_insert; lia|]. intros i x Hx. cbn.
      destruct (Nat.eqb_spec i sink) as [->|Hne].
      - rewrite list_lookup_insert_eq in Hx by lia. by injection Hx as <-.
      - rewrite list_lookup_insert_ne in Hx by done. by apply Hp. }
    split; [done|]. split; [done|]. split; [lia|]. split.
    + exists m. rewrite Forall_lookup in Hf. split_and!; [done|lia|specialize (Hf _ _ Hr); lia|].
      apply Forall_insert; [|by left]. by apply Forall_lookup.
    + replace (total - (total - r + 0)) with r by lia.
      by rewrite list_insert_insert_eq, list_insert_id.
Qed.

Lemma bounded_distributions_spec maximums lattices total minimum_action limit ds :
  length lattices = length maximums -> lattices_nonneg lattices -> u256 total ->
  0 < minimum_action ->
  bounded_distributions maximums lattices total minimum_action limit = Some ds ->
  NoDup ds /\ Z.of_nat (length ds) <= Z.max limit 1 /\
  forall d, d ∈ ds <-> distribution maximums lattices total minimum_action d.
Proof.
  intros Hlen Hnn [Ht HT] Hmin H. unfold bounded_distributions in H.
  apply bind_Some in H as (out & H & Hds). injection Hds as <-.
  assert (forall sinks unique, (forall k, k ∈ sinks -> (k < length maximums)%nat) ->
    opt_fold (fun unique sink =>
      partials ← fill_endpoints (Z.max limit 1) total sink 0 lattices
                   [(replicate (length maximums) 0, 0)];
      opt_fold (complete_partial maximums (Z.max limit 1) total minimum_action sink) unique partials)
      unique sinks = Some out ->
    (forall d, d ∈ out <-> d ∈ unique \/ exists sink post, sink ∈ sinks /\
       choice sink 0 lattices post /\ list_sum post <= total /\
       completable maximums total minimum_action sink post (list_sum post) /\
       d = <[sink := total - list_sum post]> post) /\
    (Z.of_nat (size unique) <= Z.max limit 1 -> Z.of_nat (size out) <= Z.max limit 1)) as Hg.
  { clear H. induction sinks as [|k sinks IH]; intros unique Hk H; cbn [opt_fold] in H.
    - injection H as <-. split; [|done]. intros d. split; [by left|].
      intros [?|(? & ? & Hin & _)]; [done|by apply elem_of_nil in Hin].
    - apply bind_Some in H as (u & Hu & H). apply bind_Some in Hu as (ps & Hps & Hu).
      apply IH in H as [H Hsz]; [|intros j Hj; apply Hk; by right].
      assert (forall v s, (v, s) ∈ ps <-> choice k 0 lattices v /\ s = list_sum v /\ s <= total)
        as Hin.
      { assert (forall v s, (v, s) ∈ [(replicate (length maximums) 0, 0)] -> s <= total /\
          exists pre, length pre = 0%nat /\ v = pre ++ replicate (length lattices) 0) as Hpre.
        { intros w t [= -> ->]%list_elem_of_singleton. split; [done|]. exists []. by rewrite Hlen. }
        intros v s. rewrite (fill_endpoints_spec _ _ _ _ _ _ _ HT Hnn Hpre Hps). split.
        - intros (pre & s0 & post & Hi & Hl0 & Hc & -> & -> & Hle).
          destruct pre; [|done]. apply list_elem_of_singleton in Hi as [= _ ->]. cbn in *. auto.
        - intros (Hc & -> & Hle). exists [], 0, v. rewrite Hlen. split_and!; try done.
          by left. }
      apply complete_partials_spec in Hu as [Hu Hsz']; [|intros v s (_ & _ & ?)%Hin; done].
      split; [|auto]. intros d. rewrite H, Hu. split.
      + intros [[?|(v & s & (Hc & -> & Hle)%Hin & Hcp & ->)]|(j & post & Hj & ?)]; [by left| |]; right.
        * exists k, v. split; [by left|done].
        * exists j, post. split; [by right|done].
      + intros [?|(j & post & [->|Hj]%elem_of_cons & Hc & Hle & Hcp & ->)]; [auto| |].
        * left; right. exists post, (list_sum post). rewrite Hin. done.
        * right. by exists j, post. }
  apply Hg in H as [H Hsz]; [|intros k Hk; apply elem_of_seq in Hk; lia].
  split; [rewrite sort_by_key_perm; apply NoDup_elements|]. split.
  { rewrite sort_by_key_perm. change (Z.of_nat (size out) <= Z.max limit 1).
    apply Hsz. rewrite size_empty. lia. }
  intros d. rewrite sort_by_key_perm, elem_of_elements, H, <-sink_distributions by done. split.
  - intros [Hd|(k & post & Hk & ?)]; [set_solver|]. exists k, post.
    apply elem_of_seq in Hk. split; [lia|done].
  - intros (k & post & Hk & ?). right. exists k, post. split; [apply elem_of_seq; lia|done].
Qed.

(** When the bounded enumeration succeeds it is exact: it lists, without
    repetition and within the limit, precisely the vectors that conserve the
    total, give one endpoint the residual within its maximum and every other
    one an amount of its lattice, and use no nonzero amount below the minimum
    action. *)
Theorem distributions_exact maximums lattices total minimum_action limit ds :
  length lattices = length maximums -> lattices_nonneg lattices -> u256 total ->
  0 < minimum_action ->
  bounded_distributions maximums lattices total minimum_action limit = Some ds ->
  NoDup ds /\ Z.of_nat (length ds) <= Z.max limit 1 /\
  forall d, d ∈ ds <-> distribution maximums lattices total minimum_action d.
Proof. apply bounded_distributions_spec. Qed.

Lemma lattices_nonneg_build `{Keccak} {A} minimum_action limit (maximum : A -> Z)
    (boundaries : A -> list Z) l :
  0 <= minimum_action -> limit <= USIZE_MAX -> Forall (fun x => 0 <= maximum x) l ->
  Forall (fun x => Forall (fun b => 0 <= b) (boundaries x)) l ->
  lattices_nonneg (cl_amounts <$> ((fun x =>
    build_candidate_lattice minimum_action (maximum x) (boundaries x) limit) <$> l)).
Proof.
  intros Hmin Hlim Hm Hb. unfold lattices_nonneg. rewrite !Forall_fmap.
  rewrite Forall_forall in Hm, Hb |- *. intros x Hx.
  eapply Forall_impl; [apply (lattice_bounds minimum_action (maximum x) (boundaries x) limit)|];
    [done|by apply Hm|by apply Hb|done|by intros a [? _]].
Qed.

(** A distribution is a vector of the right length and sum, without negative
    amounts. *)
Lemma distribution_nonneg maximums lattices total minimum_action d :
  0 <= minimum_action -> distribution maximums lattices total minimum_action d ->
  length d = length maximums /\ list_sum d = total /\ Forall (fun x => 0 <= x) d.
Proof.
  intros Hmin (Hl & Hs & Hf & _). split; [done|]. split; [done|].
  eapply Forall_impl; [exact Hf|]. intros x Hx. cbn in Hx. lia.
Qed.

(** With amounts within the maximum of their endpoint, so is a distribution. *)
Lemma distribution_bounded maximums lattices total minimum_action d :
  (forall i m amounts a, maximums !! i = Some m -> lattices !! i = Some amounts -> a ∈ amounts ->
     a <= m) ->
  distribution maximums lattices total minimum_action d ->
  Forall2 (fun x m => x <= m) d maximums.
Proof.
  intros Hb (Hl & _ & _ & sink & r & m & Hr & Hm & Hrm & Hp).
  apply Forall2_same_length_lookup_2; [done|]. intros i x y Hx Hy.
  destruct (decide (i = sink)) as [->|Hne]; [simplify_eq; lia|].
  destruct (Hp i x Hne Hx) as (amounts & Ha & Hin). by eapply Hb.
Qed.

Lemma distribution_within `{Keccak} {A} minimum_action limit (maximum : A -> Z)
    (boundaries : A -> list Z) l total d :
  0 <= minimum_action -> limit <= USIZE_MAX -> Forall (fun x => 0 <= maximum x) l ->
  Forall (fun x => Forall (fun b => 0 <= b) (boundaries x)) l ->
  distribution (maximum <$> l) (cl_amounts <$> ((fun x =>
    build_candidate_lattice minimum_action (maximum x) (boundaries x) limit) <$> l)) total
    minimum_action d ->
  Forall2 (fun n x => 0 <= n <= maximum x) d l.
Proof.
  intros Hmin Hlim Hm Hb Hd.
  pose proof (distribution_nonneg _ _ _ _ _ Hmin Hd) as (_ & _ & Hnn).
  assert (Forall2 (fun n m => n <= m) d (maximum <$> l)) as Hle;
    [|apply (Forall2_fmap_r maximum (fun n m => 0 <= n <= m)); clear -Hnn Hle;
      induction Hle; [constructor|]; apply Forall_cons in Hnn as [? ?]; constructor; auto].
  eapply distribution_bounded; [|exact Hd].
  intros i m amounts a Hi Ha Hin. rewrite !list_lookup_fmap in Ha. rewrite list_lookup_fmap in Hi.
  apply fmap_Some in Hi as (x & Ex & ->). rewrite Ex in Ha.
  apply fmap_Some in Ha as (lat & Hlat & ->). apply fmap_Some in Hlat as (x' & [= <-] & ->).
  rewrite Forall_lookup in Hm. rewrite Forall_lookup in Hb.
  pose proof (lattice_bounds minimum_action (maximum x) (boundaries x) limit Hmin (Hm _ _ Ex)
    (Hb _ _ Ex) Hlim) as Hl. rewrite Forall_forall in Hl. specialize (Hl a Hin). lia.
Qed.

Lemma lattice_sound_witness :
  lattice_ok 10 100 [40] 8 [0; 1; 9; 10; 11; 40; 99; 100].
Proof.
  destruct (@lattice_sound sum_keccak 10 100 [40] 8) as [H _];
    [lia|lia|by repeat constructor|done|].
  vm_compute in H. exact H.
Defined.

Lemma distributions_exact_witness :
  [20; 80] ∈ [[0; 100]; [20; 80]; [50; 50]] /\
  distribution [50; 100] [[0; 20; 50]; [0; 100]] 100 10 [20; 80].
Proof.
  destruct (distributions_exact [50; 100] [[0; 20; 50]; [0; 100]] 100 10 16
              [[0; 100]; [20; 80]; [50; 50]]) as (_ & _ & H);
    [reflexivity|repeat constructor; lia|done|lia|vm_compute; reflexivity|].
  assert ([20; 80] ∈ [[0; 100]; [20; 80]; [50; 50]]) as Hin by (right; by left).
  split; [exact Hin|by apply H].
Defined.
