(* ===== verification/Objective.v ===== *)
(** * Objectives, search certificates and scheduling

    Models [src/src/planner/objective.rs], [src/src/planner/certificate.rs] and
    [src/src/planner/scheduler.rs]: the lexicographic ranking of feasible plans,
    the spread of a set of rates, the bounded-search evidence, and the choice
    of the next plan. *)
From Stdlib Require Import ZArith Lia List Bool.
From stdpp Require Import base list gmap sets.
From S2P Require Import Prelude.
From S2P Require Import Domain.
From S2P Require Import Config.
Open Scope Z_scope.

Definition strategy_market_mode_included (mode : MarketMode) : bool :=
  match mode with Disabled | SyncRequired => false | _ => true end.

Record ObjectiveMetrics : Type := mkObjectiveMetrics {
  om_final_unreserved_idle : Z;
  om_deployed_assets : Z;
  om_applicable_spread : Z;
  om_secondary_spread : Z;
  om_terminal_value_delta : Z;
  om_movement_assets : Z;
  om_action_count : Z;
}.
#[global] Instance ObjectiveMetrics_eq_dec : EqDecision ObjectiveMetrics.
Proof. solve_decision. Defined.

(** A tuple comparison is [lex_lt] on the components, [Reverse] a negation. *)
Definition capital_key (m : ObjectiveMetrics) : list Z :=
  [om_final_unreserved_idle m; - om_deployed_assets m; om_applicable_spread m;
   - om_terminal_value_delta m; om_movement_assets m; om_action_count m].
Definition reached_key (m : ObjectiveMetrics) : list Z :=
  [om_movement_assets m; om_applicable_spread m; om_secondary_spread m;
   - om_terminal_value_delta m; om_action_count m].
Definition unreached_key (m : ObjectiveMetrics) : list Z :=
  [om_applicable_spread m; om_secondary_spread m; - om_terminal_value_delta m;
   om_action_count m; om_movement_assets m].
Definition liquidity_key (m : ObjectiveMetrics) : list Z :=
  [om_final_unreserved_idle m; om_applicable_spread m; om_movement_assets m; om_action_count m].

Definition ranks_before (reason : PlanReason) (candidate current : ObjectiveMetrics)
    (target_spread : Z) (target_reachable : bool) : bool :=
  match reason with
  | CapitalDeployment => lex_lt (capital_key candidate) (capital_key current)
  | RateRebalance | TopKApyRebalance =>
      let candidate_reaches := om_applicable_spread candidate <=? target_spread in
      let current_reaches := om_applicable_spread current <=? target_spread in
      if target_reachable && negb (Bool.eqb candidate_reaches current_reaches)
      then candidate_reaches
      else if target_reachable && candidate_reaches
      then lex_lt (reached_key candidate) (reached_key current)
      else lex_lt (unreached_key candidate) (unreached_key current)
  | LiquidityMaintenance => lex_lt (liquidity_key candidate) (liquidity_key current)
  | PositionSyncRequired => false
  end.

(** ** Spreads *)

Definition rate_spread (rates : list Z) : Z :=
  let bounds := fold_left (fun acc rate =>
    let '(minimum, maximum) := acc in
    (Some match minimum with None => rate | Some value => Z.min value rate end,
     Some match maximum with None => rate | Some value => Z.max value rate end))
    rates (None, None) in
  match bounds with
  | (Some minimum, Some maximum) => default 0 (checked_sub maximum minimum)
  | _ => 0
  end.

Definition complete_spread (value : ProjectedMarketState -> Z) (markets : gset MarketId)
    (states : gmap MarketId ProjectedMarketState) : option Z :=
  rates ← opt_map (fun market => value <$> states !! market) (set_elements markets);
  if bool_decide (rates = []) then None else Some (rate_spread rates).

Definition complete_rate_spread (markets : gset MarketId)
    (states : gmap MarketId ProjectedMarketState) : option Z :=
  complete_spread pm_spot_borrow_rate markets states.

Definition strategy_value (state : ProjectedMarketState) (objective : StrategyObjective) : Z :=
  match objective with
  | SpotBorrowRateSpread => pm_spot_borrow_rate state
  | UtilizationSpread => pm_utilization state
  end.

Definition complete_strategy_spread (markets : gset MarketId)
    (states : gmap MarketId ProjectedMarketState) (objective : StrategyObjective) : option Z :=
  complete_spread (fun state => strategy_value state objective) markets states.

(** ** Search certificates *)

Inductive RejectionReason : Type :=
| RejectSimulation
| RejectImmediateLoss
| RejectSpreadWorsening
| RejectEpisode
| RejectService.
#[global] Instance RejectionReason_eq_dec : EqDecision RejectionReason.
Proof. solve_decision. Defined.
#[global] Instance RejectionReason_countable : Countable RejectionReason.
Proof.
  refine (inj_countable
    (fun r => match r with RejectSimulation => 0 | RejectImmediateLoss => 1
              | RejectSpreadWorsening => 2 | RejectEpisode => 3 | RejectService => 4 end)
    (fun z => if z =? 0 then Some RejectSimulation else if z =? 1 then Some RejectImmediateLoss
              else if z =? 2 then Some RejectSpreadWorsening
              else if z =? 3 then Some RejectEpisode else Some RejectService) _).
  by intros [].
Defined.

Record SearchCertificate : Type := mkSearchCertificate {
  se_candidate_lattice_hash : B256;
  se_nodes_evaluated : Z;
  se_node_limit : Z;
  se_search_complete : bool;
  se_rejection_counts : gmap RejectionReason Z;
}.

(** The returned flag of [reject] is unused by its callers. *)
Definition reject (c : SearchCertificate) (reason : RejectionReason) : SearchCertificate :=
  let count := default 0 (se_rejection_counts c !! reason) in
  match checked_add U64_MAX count 1 with
  | Some updated =>
      mkSearchCertificate (se_candidate_lattice_hash c) (se_nodes_evaluated c) (se_node_limit c)
        (se_search_complete c) (<[reason := updated]> (se_rejection_counts c))
  | None =>
      mkSearchCertificate (se_candidate_lattice_hash c) (se_nodes_evaluated c) (se_node_limit c)
        false (<[reason := count]> (se_rejection_counts c))
  end.

Definition executable_rate_search (c : SearchCertificate) : bool :=
  se_search_complete c && (se_nodes_evaluated c <=? se_node_limit c).

(** ** Scheduling *)

Record ResourceReservations : Type := mkResourceReservations {
  rr_vaults : gset VaultAddress;
  rr_signer_lanes : gset Address;
  rr_markets : gset MarketId;
  rr_loan_tokens : gset Address;
  rr_caps : gset CapRef;
  rr_idle_lock_vaults : gset VaultAddress;
}.

(** [!a.is_disjoint(&b)] *)
Definition overlaps {K} `{Countable K} (a b : gset K) : bool := negb (bool_decide (a ## b)).

Definition conflicts (a b : ResourceReservations) : bool :=
  overlaps (rr_vaults a) (rr_vaults b)
  || overlaps (rr_signer_lanes a) (rr_signer_lanes b)
  || overlaps (rr_markets a) (rr_markets b)
  || overlaps (rr_loan_tokens a) (rr_loan_tokens b)
  || overlaps (rr_caps a) (rr_caps b)
  || overlaps (rr_idle_lock_vaults a) (rr_idle_lock_vaults b).

Record SchedulablePlan : Type := mkSchedulablePlan {
  sp_reason : PlanReason;
  sp_vault : VaultAddress;
  sp_service_deficit_assets : Z;
  sp_unreserved_idle_assets : Z;
  sp_spread_above_entry : Z;
  sp_eligible_since_block : Z;
  sp_resources : ResourceReservations;
}.

Definition priority (reason : PlanReason) : Z :=
  match reason with
  | LiquidityMaintenance => 0
  | CapitalDeployment => 1
  | RateRebalance | TopKApyRebalance => 2
  | PositionSyncRequired => 3
  end.

Definition schedule_key (plan : SchedulablePlan) : list Z :=
  [priority (sp_reason plan); - sp_service_deficit_assets plan; - sp_unreserved_idle_assets plan;
   - sp_spread_above_entry plan; sp_eligible_since_block plan; sp_vault plan].

Definition schedulable (already_reserved : ResourceReservations) (plan : SchedulablePlan) : bool :=
  negb (bool_decide (sp_reason plan = PositionSyncRequired))
  && negb (conflicts (sp_resources plan) already_reserved).

Definition select_next (plans : list SchedulablePlan) (already_reserved : ResourceReservations)
    : option SchedulablePlan :=
  min_by_key schedule_key (List.filter (schedulable already_reserved) plans).

(** ** The ranking is a strict order *)

(** The key whose lexicographic order is the ranking. *)
Definition rank_key (reason : PlanReason) (target_spread : Z) (target_reachable : bool)
    (m : ObjectiveMetrics) : list Z :=
  match reason with
  | CapitalDeployment => capital_key m
  | RateRebalance | TopKApyRebalance =>
      if target_reachable && (om_applicable_spread m <=? target_spread)
      then 0 :: reached_key m else 1 :: unreached_key m
  | LiquidityMaintenance => liquidity_key m
  | PositionSyncRequired => []
  end.

Lemma lex_lt_cons_same x a b : lex_lt (x :: a) (x :: b) = lex_lt a b.
Proof. cbn [lex_lt]. by rewrite Z.ltb_irrefl, Z.eqb_refl. Qed.

Lemma ranks_before_key reason candidate current target reachable :
  ranks_before reason candidate current target reachable =
  lex_lt (rank_key reason target reachable candidate) (rank_key reason target reachable current).
Proof.
  unfold ranks_before, rank_key. destruct reason; try reflexivity;
    destruct reachable, (om_applicable_spread candidate <=? target),
      (om_applicable_spread current <=? target); cbn [andb Bool.eqb negb];
    rewrite ?lex_lt_cons_same; reflexivity.
Qed.

#[global] Arguments ranks_before : simpl never.

Lemma ranks_before_irrefl reason a target reachable :
  ranks_before reason a a target reachable = false.
Proof. rewrite ranks_before_key. apply lex_lt_irrefl. Qed.

Lemma ranks_before_asym reason a b target reachable :
  ranks_before reason a b target reachable = true ->
  ranks_before reason b a target reachable = false.
Proof.
  rewrite !ranks_before_key. intros H. destruct (lex_lt (rank_key _ _ _ b) _) eqn:E; [|done].
  pose proof (lex_lt_trans _ _ _ H E) as Hc. by rewrite lex_lt_irrefl in Hc.
Qed.

Lemma ranks_before_not_trans reason a b c target reachable :
  ranks_before reason b a target reachable = false ->
  ranks_before reason c b target reachable = false ->
  ranks_before reason c a target reachable = false.
Proof. rewrite !ranks_before_key. apply lex_lt_not_trans. Qed.

(** For every plan class the ranking of candidates is a strict order, so a
    search that keeps the first candidate no other one ranks before has a
    well-defined best; candidates it cannot separate have the same key, and
    when the target is reachable a candidate that reaches it ranks before every
    one that does not. *)
Theorem ranks_before_strict_order reason target reachable :
  (forall a, ranks_before reason a a target reachable = false) /\
  (forall a b c, ranks_before reason a b target reachable = true ->
     ranks_before reason b c target reachable = true ->
     ranks_before reason a c target reachable = true) /\
  (forall a b, reason <> PositionSyncRequired ->
     ranks_before reason a b target reachable = false ->
     ranks_before reason b a target reachable = false ->
     om_applicable_spread a = om_applicable_spread b /\
     om_movement_assets a = om_movement_assets b /\ om_action_count a = om_action_count b) /\
  (forall a b, reason = RateRebalance \/ reason = TopKApyRebalance -> reachable = true ->
     om_applicable_spread a <= target < om_applicable_spread b ->
     ranks_before reason a b target reachable = true).
Proof.
  repeat setoid_rewrite ranks_before_key. split; [|split; [|split]].
  - intros a. apply lex_lt_irrefl.
  - intros a b c. apply lex_lt_trans.
  - intros a b Hr Hab Hba.
    assert (rank_key reason target reachable a = rank_key reason target reachable b) as He.
    { apply lex_lt_total; [|done|done]. unfold rank_key. by destruct reason; repeat case_match. }
    destruct reason; try done; cbn in He; repeat case_match; simplify_eq; lia.
  - intros a b Hr -> [Ha%Z.leb_le Hb%Z.leb_gt].
    assert (rank_key reason target true a = 0 :: reached_key a /\
      rank_key reason target true b = 1 :: unreached_key b) as [-> ->]; [|done].
    destruct Hr as [-> | ->]; cbn [rank_key andb]; by rewrite Ha, Hb.
Qed.

(** ** The scheduler's choice *)

Lemma overlaps_spec {K} `{Countable K} (a b : gset K) :
  overlaps a b = true <-> exists k, k ∈ a /\ k ∈ b.
Proof.
  unfold overlaps. rewrite negb_true_iff, bool_decide_eq_false. split; [|set_solver].
  intros Hn. destruct (set_choose_or_empty (a ∩ b)) as [[k Hk]|He]; [exists k; set_solver|].
  destruct Hn. set_solver.
Qed.

Lemma overlaps_sym {K} `{Countable K} (a b : gset K) : overlaps a b = overlaps b a.
Proof. apply eq_true_iff_eq. rewrite !overlaps_spec. firstorder. Qed.

Lemma conflicts_sym a b : conflicts a b = conflicts b a.
Proof.
  unfold conflicts.
  by rewrite (overlaps_sym (rr_vaults a)), (overlaps_sym (rr_signer_lanes a)),
    (overlaps_sym (rr_markets a)), (overlaps_sym (rr_loan_tokens a)), (overlaps_sym (rr_caps a)),
    (overlaps_sym (rr_idle_lock_vaults a)).
Qed.

Lemma schedule_key_class a b :
  lex_lt (schedule_key b) (schedule_key a) = false ->
  priority (sp_reason a) <= priority (sp_reason b) /\
  (priority (sp_reason a) = priority (sp_reason b) ->
   sp_service_deficit_assets b <= sp_service_deficit_assets a).
Proof.
  cbn [schedule_key lex_lt]. rewrite orb_false_iff, andb_false_iff, Z.ltb_ge, Z.eqb_neq.
  intros [? [?|[? _]%orb_false_iff]]; split; try lia.
Qed.

(** Two reservations that share nothing. *)
Definition resources_disjoint (a b : ResourceReservations) : Prop :=
  rr_vaults a ## rr_vaults b /\ rr_signer_lanes a ## rr_signer_lanes b /\
  rr_markets a ## rr_markets b /\ rr_loan_tokens a ## rr_loan_tokens b /\
  rr_caps a ## rr_caps b /\ rr_idle_lock_vaults a ## rr_idle_lock_vaults b.

Lemma conflicts_false a b : conflicts a b = false <-> resources_disjoint a b.
Proof.
  unfold conflicts, overlaps, resources_disjoint.
  rewrite !orb_false_iff, !negb_false_iff, !bool_decide_eq_true. tauto.
Qed.

Lemma filter_split {A} (f : A -> bool) l x l1 l2 :
  List.filter f l = l1 ++ x :: l2 ->
  exists k1 k2, l = k1 ++ x :: k2 /\ List.filter f k1 = l1.
Proof.
  revert l1. induction l as [|y l IH]; intros l1; cbn.
  - by destruct l1.
  - destruct (f y) eqn:Ey.
    + destruct l1 as [|z l1]; cbn; intros [= <- Hl]; [by exists [], l|].
      destruct (IH l1 Hl) as (k1 & k2 & -> & <-). exists (y :: k1), k2. cbn. by rewrite Ey.
    + intros Hl. destruct (IH l1 Hl) as (k1 & k2 & -> & <-). exists (y :: k1), k2.
      cbn. by rewrite Ey.
Qed.

(** The scheduler returns a plan exactly when some plan is executable and
    free of reserved resources. The plan it returns is one of those: it shares
    no vault, signer lane, market, loan token, cap or lock ledger with the
    reservations, no other such plan has a more urgent class, none of its class
    has a larger service deficit, and those listed before it come strictly
    later in the normative order, so ties go to the first. *)
Theorem select_next_exact plans reserved :
  (select_next plans reserved = None <->
     Forall (fun p => schedulable reserved p = false) plans) /\
  (forall plan, select_next plans reserved = Some plan ->
     sp_reason plan <> PositionSyncRequired /\ resources_disjoint (sp_resources plan) reserved /\
     (exists before after, plans = before ++ plan :: after /\
        Forall (fun p => schedulable reserved p = true ->
          lex_lt (schedule_key plan) (schedule_key p) = true) before) /\
     (forall p, p ∈ plans -> schedulable reserved p = true ->
        lex_lt (schedule_key p) (schedule_key plan) = false /\
        priority (sp_reason plan) <= priority (sp_reason p) /\
        (priority (sp_reason plan) = priority (sp_reason p) ->
         sp_service_deficit_assets p <= sp_service_deficit_assets plan))).
Proof.
  unfold select_next. split.
  - rewrite min_by_key_None. induction plans as [|p plans IH]; cbn; [done|].
    rewrite Forall_cons. destruct (schedulable reserved p); [by split; [|intros [? _]]|].
    rewrite IH. tauto.
  - intros plan (l1 & l2 & Hs & H1 & Hmin)%min_by_key_Some.
    assert (In plan (List.filter (schedulable reserved) plans)) as Hin
      by (rewrite Hs; apply in_or_app; right; by left).
    apply filter_In in Hin as [_ Hel]. unfold schedulable in Hel. bool_spec Hel.
    destruct Hel as [Hr Hc%conflicts_false].
    split; [done|]. split; [done|]. split.
    + destruct (filter_split _ _ _ _ _ Hs) as (k1 & k2 & -> & <-). exists k1, k2.
      split; [done|]. rewrite Forall_forall in *. intros p Hp Hsp. apply H1.
      apply list_elem_of_In, filter_In. by rewrite <-list_elem_of_In.
    + intros p Hp Hsp. rewrite Forall_forall in Hmin.
      specialize (Hmin p). rewrite list_elem_of_In, filter_In, <-list_elem_of_In in Hmin.
      specialize (Hmin (conj Hp Hsp)). split; [done|]. by apply schedule_key_class.
Qed.

(** ** Spreads *)

Lemma rate_spread_fold rates a b :
  a <= b -> exists lo hi,
  fold_left (fun acc rate =>
    let '(minimum, maximum) := acc in
    (Some match minimum with None => rate | Some value => Z.min value rate end,
     Some match maximum with None => rate | Some value => Z.max value rate end))
    rates (Some a, Some b) = (Some lo, Some hi) /\
  lo <= a /\ b <= hi /\ Forall (fun r => lo <= r <= hi) rates /\
  (lo = a \/ lo ∈ rates) /\ (hi = b \/ hi ∈ rates).
Proof.
  revert a b. induction rates as [|r rates IH]; intros a b Hab; cbn.
  - exists a, b. repeat split; try lia; eauto.
  - destruct (IH (Z.min a r) (Z.max b r)) as (lo & hi & -> & Hl & Hh & Hf & Hlo & Hhi); [lia|].
    exists lo, hi. split; [done|]. split; [lia|]. split; [lia|]. split.
    { constructor; [lia|done]. }
    split.
    + destruct Hlo as [-> | ?]; [|right; by constructor].
      destruct (Z.min_spec a r) as [[_ ->]|[_ ->]]; [by left|right; by constructor].
    + destruct Hhi as [-> | ?]; [|right; by constructor].
      destruct (Z.max_spec b r) as [[_ ->]|[_ ->]]; [right; by constructor|by left].
Qed.

(** The spread of a non-empty set of rates is attained by two of them and
    bounds the distance of every pair. *)
Lemma rate_spread_exact rates :
  rates <> [] ->
  (forall x y, x ∈ rates -> y ∈ rates -> x - y <= rate_spread rates) /\
  (exists x y, x ∈ rates /\ y ∈ rates /\ rate_spread rates = x - y).
Proof.
  destruct rates as [|r rates]; [done|]. intros _. unfold rate_spread. cbn [fold_left].
  destruct (rate_spread_fold rates r r) as (lo & hi & -> & Hl & Hh & Hf & Hlo & Hhi); [lia|].
  unfold checked_sub. rewrite (proj2 (Z.leb_le lo hi)) by lia. cbn.
  assert (Forall (fun x => lo <= x <= hi) (r :: rates)) as Hall by (constructor; [lia|done]).
  rewrite Forall_forall in Hall. split.
  - intros x y Hx%Hall Hy%Hall. lia.
  - exists hi, lo. split; [|split; [|done]].
    + destruct Hhi as [-> | ?]; by constructor.
    + destruct Hlo as [-> | ?]; by constructor.
Qed.
