(* ===== verification/Calldata.v ===== *)
(** * Calldata and fees of a transaction

    The gas and fee policy of [transaction/fees.rs], and the encoder and the
    independent decoder of the calls the process may sign. *)
From Stdlib Require Import ZArith Lia List Bool.
From stdpp Require Import base list gmap strings.
From S2P Require Import Prelude.
From S2P Require Import BlueMath.
From S2P Require Import Domain.
From S2P Require Import Config.
Open Scope Z_scope.

(** ** Gas and fee policy

    Models [src/src/transaction/fees.rs]: the signed gas limit with its
    headroom, the initial EIP-1559 fee pair and the replacement rule. *)

(** ** Fee policy *)

Inductive FeeError : Type := FeeArithmetic | FeeBound | FeeReplacement.
#[global] Instance FeeError_eq_dec : EqDecision FeeError.
Proof. solve_decision. Defined.

Definition signed_gas_limit (estimate headroom_bps maximum : Z) : result FeeError Z :=
  multiplier ← ok_or (checked_add U64_MAX 10000 headroom_bps) FeeArithmetic;
  value ← map_err (fun _ => FeeArithmetic) (mul_div_up estimate multiplier 10000);
  value ← ok_or (try_from_u U64_MAX value) FeeBound;
  if (value =? 0) || (maximum <? value) then Err FeeBound else Ok value.

Definition initial_fee_quote (quoted_gas_price quoted_priority_fee configured_maximum : Z)
    : result FeeError (Z * Z) :=
  if (quoted_gas_price =? 0) || (configured_maximum <=? 1)
     || (configured_maximum <=? quoted_gas_price)
  then Err FeeBound
  else
    maximum_initial ← ok_or (checked_sub configured_maximum 1) FeeArithmetic;
    doubled ← ok_or (checked_mul U256_MAX quoted_gas_price 2) FeeArithmetic;
    let maximum_fee := Z.min doubled maximum_initial in
    let priority_fee := Z.min quoted_priority_fee maximum_fee in
    maximum_fee ← ok_or (try_from_u U128_MAX maximum_fee) FeeBound;
    priority_fee ← ok_or (try_from_u U128_MAX priority_fee) FeeBound;
    Ok (maximum_fee, priority_fee).

Definition validate_replacement_fees (old_maximum old_priority new_maximum new_priority
    configured_maximum : Z) : result FeeError unit :=
  if (new_maximum <=? old_maximum) || (new_priority <=? old_priority)
     || (new_maximum <? new_priority)
  then Err FeeReplacement
  else if configured_maximum <? new_maximum then Err FeeBound
  else Ok tt.

Lemma U256_wide : 158456325028528675187087910672 <= U256_MAX.
Proof. done. Qed.

(** A signed gas limit covers the estimate with its headroom, rounded up,
    and stays within the configured bound; it fails exactly when that value is
    zero or exceeds the bound (or the arithmetic overflows). *)
Theorem signed_gas_limit_spec estimate headroom_bps maximum limit :
  u64 estimate -> 0 <= headroom_bps <= U32_MAX -> maximum <= U64_MAX ->
  signed_gas_limit estimate headroom_bps maximum = Ok limit <->
  10000 * (limit - 1) < estimate * (10000 + headroom_bps) <= 10000 * limit /\
  0 < limit <= maximum.
Proof.
  intros [He0 He] [Hh0 Hh] Hm. unfold signed_gas_limit.
  change U64_MAX with 18446744073709551615 in He, Hm.
  change U32_MAX with 4294967295 in Hh.
  rewrite (proj2 (checked_add_Some U64_MAX 10000 headroom_bps (10000 + headroom_bps)))
    by (change U64_MAX with 18446744073709551615; lia).
  cbn [ok_or mbind result_bind]. set (w := estimate * (10000 + headroom_bps)).
  assert (0 <= w <= 158456325028528675187087900672) as Hw.
  { unfold w. split; [nia|].
    transitivity (18446744073709551615 * (10000 + 4294967295)); [|lia].
    apply Z.mul_le_mono_nonneg; lia. }
  assert (mul_div_up estimate (10000 + headroom_bps) 10000 = Ok ((w + 9999) / 10000)) as ->.
  { apply mul_div_up_Ok. fold w. pose proof U256_wide. split_and!; [lia..|done]. }
  cbn [map_err mbind result_bind].
  pose proof (Z.div_mod (w + 9999) 10000) as Hd.
  pose proof (Z.mod_pos_bound (w + 9999) 10000) as Hmod. 
  set (q := (w + 9999) / 10000) in *. clearbody q w.
  assert (forall l, 10000 * (l - 1) < w <= 10000 * l <-> l = q) as Hq by (intros; lia).
  rewrite Hq. clear Hq. unfold try_from_u. destruct (q <=? U64_MAX) eqn:E1; cbn.
  - apply Z.leb_le in E1. destruct ((q =? 0) || (maximum <? q)) eqn:E2.
    + split; [done|]. intros [-> ?]. rewrite orb_true_iff, Z.eqb_eq, Z.ltb_lt in E2. lia.
    + rewrite orb_false_iff, Z.eqb_neq, Z.ltb_ge in E2.
      split; [intros [= <-]; lia|]. by intros [-> _].
  - apply Z.leb_gt in E1. change U64_MAX with 18446744073709551615 in E1. split; [done|]. intros [-> ?]. lia.
Qed.

(** An initial quote is at least the quoted gas price, at most twice it and
    strictly below the configured ceiling, with the priority fee under the
    maximum fee; so a fee bump by one wei each is a valid replacement under
    the same ceiling. *)
Theorem initial_quote_leaves_room quoted priority ceiling maximum_fee priority_fee :
  0 <= quoted -> 0 <= priority ->
  initial_fee_quote quoted priority ceiling = Ok (maximum_fee, priority_fee) ->
  quoted <= maximum_fee <= 2 * quoted /\ maximum_fee < ceiling /\
  priority_fee = Z.min priority maximum_fee /\
  validate_replacement_fees maximum_fee priority_fee (maximum_fee + 1) (priority_fee + 1) ceiling
  = Ok tt.
Proof.
  intros Hq Hp H. unfold initial_fee_quote in H.
  destruct (_ || _) eqn:E; [done|]. cbv zeta in H.
  apply orb_false_iff in E as [[E1%Z.eqb_neq E2%Z.leb_gt]%orb_false_iff E3%Z.leb_gt].
  step_ok H as m0 H0. step_ok H as d Hd. step_ok H as m Hm. step_ok H as p Hp'.
  apply ok_or_Ok, checked_sub_Some in H0 as [-> _].
  apply ok_or_Ok, checked_mul_Some in Hd as [-> _].
  apply ok_or_Ok, try_from_u_Some in Hm as [-> _].
  apply ok_or_Ok, try_from_u_Some in Hp' as [-> _]. injection H as <- <-.
  split; [lia|]. split; [lia|]. split; [done|]. unfold validate_replacement_fees.
  repeat match goal with |- context [?a <=? ?b] => rewrite (proj2 (Z.leb_gt a b)) by lia end.
  repeat match goal with |- context [?a <? ?b] => rewrite (proj2 (Z.ltb_ge a b)) by lia end.
  done.
Qed.

(** Replacement fees are accepted exactly when both fees strictly
    increase, the priority fee stays under the maximum fee, and the maximum fee
    stays under the ceiling; so the fee of a lane can only be raised a bounded
    number of times. *)
Lemma replacement_fees_spec old_maximum old_priority new_maximum new_priority ceiling :
  validate_replacement_fees old_maximum old_priority new_maximum new_priority ceiling = Ok tt <->
  old_maximum < new_maximum <= ceiling /\ old_priority < new_priority <= new_maximum.
Proof.
  unfold validate_replacement_fees.
  destruct (_ || _) eqn:E1; [|destruct (ceiling <? new_maximum) eqn:E2].
  - rewrite !orb_true_iff, !Z.leb_le, Z.ltb_lt in E1. split; [done|lia].
  - apply Z.ltb_lt in E2. split; [done|lia].
  - rewrite !orb_false_iff, !Z.leb_gt, Z.ltb_ge in E1. apply Z.ltb_ge in E2. split; [lia|done].
Qed.

(** ** Vault V2 calldata

    Models the encoder ([src/src/transaction/encoder.rs]) and the independent
    decoder ([src/src/transaction/decoder.rs]) of the three calls the process
    may sign.  The coder that [sol!] generates for [IVaultV2] is library code:
    it is the class [VaultAbi], and [VaultAbiLaws] is the documented behaviour
    the code relies on. *)

(** The arguments of [allocate] and [deallocate]. *)
Record VaultCall : Type := mkVaultCall {
  call_adapter : Address;
  call_data : Bytes;
  call_assets : Z;
}.
#[global] Instance VaultCall_eq_dec : EqDecision VaultCall.
Proof. solve_decision. Defined.

(** Values an [Address], a [Bytes] and a [U256] can take. *)
Definition call_in_range (c : VaultCall) : Prop :=
  0 <= call_adapter c < 2 ^ 160 /\ Forall (fun b => 0 <= b < 256) (call_data c) /\
  u256 (call_assets c).

(** Selectors, encoders and validating decoders of [allocateCall],
    [deallocateCall] and [multicallCall]. *)
Class VaultAbi : Type := {
  ALLOCATE : Bytes;
  DEALLOCATE : Bytes;
  MULTICALL : Bytes;
  allocate_encode : VaultCall -> Bytes;
  allocate_decode : Bytes -> option VaultCall;
  deallocate_encode : VaultCall -> Bytes;
  deallocate_decode : Bytes -> option VaultCall;
  multicall_encode : list Bytes -> Bytes;
  multicall_decode : Bytes -> option (list Bytes);
}.

(** Each encoding starts with its function's selector, the three selectors
    differ, and decoding inverts encoding. *)
Class VaultAbiLaws `{VaultAbi} : Prop := {
  selectors_distinct : NoDup [ALLOCATE; DEALLOCATE; MULTICALL];
  selectors_length : Forall (fun s => length s = 4%nat) [ALLOCATE; DEALLOCATE; MULTICALL];
  allocate_selector c : exists t, allocate_encode c = ALLOCATE ++ t;
  deallocate_selector c : exists t, deallocate_encode c = DEALLOCATE ++ t;
  multicall_selector l : exists t, multicall_encode l = MULTICALL ++ t;
  allocate_decode_encode c : call_in_range c -> allocate_decode (allocate_encode c) = Some c;
  deallocate_decode_encode c :
    call_in_range c -> deallocate_decode (deallocate_encode c) = Some c;
  multicall_decode_encode l :
    Forall (Forall (fun b => 0 <= b < 256)) l -> multicall_decode (multicall_encode l) = Some l;
  allocate_bytes c : call_in_range c -> Forall (fun b => 0 <= b < 256) (allocate_encode c);
  deallocate_bytes c : call_in_range c -> Forall (fun b => 0 <= b < 256) (deallocate_encode c);
}.

Inductive DecodeError : Type :=
| DecodeSelector
| DecodeNonCanonical
| DecodeMulticall
| DecodePosition
| DecodeZeroAmount.
#[global] Instance DecodeError_eq_dec : EqDecision DecodeError.
Proof. solve_decision. Defined.

Record DecodedRoutineTransaction : Type := mkDecodedRoutineTransaction {
  dr_actions : list V2Action;
  dr_calldata_hash : B256;
}.

(** The action built from the flag [allocation] and its fields. *)
Definition make_action (allocation : bool) (position : PositionKey) (adapter : AdapterAddress)
    (data : Bytes) (amount : Z) : V2Action :=
  if allocation then Allocate position adapter data amount
  else Deallocate position adapter data amount.

(** [data.get(..4)] *)
Definition selector (data : Bytes) : result DecodeError Bytes :=
  if (4 <=? length data)%nat then Ok (take 4 data) else Err DecodeSelector.

Section Codec.
Context `{Keccak} `{AbiParams} `{VaultAbi}.

Definition encode_action (action : V2Action) : Bytes :=
  match action with
  | Deallocate _ adapter data requested_assets =>
      deallocate_encode (mkVaultCall adapter data requested_assets)
  | Allocate _ adapter data requested_assets =>
      allocate_encode (mkVaultCall adapter data requested_assets)
  end.

(** [encode_validated_plan], on the plan's actions. *)
Definition encode_actions (actions : list V2Action) : Bytes :=
  let calls := encode_action <$> actions in
  match calls with
  | [call] => call
  | _ => multicall_encode calls
  end.

(** The liquidity adapter an adapter address with empty data selects. *)
Definition liquidity_match (config : ValidatedVaultConfig) (adapter : Address) (data : Bytes)
    : option ValidatedLiquidityAdapterConfig :=
  liquidity ← vv_liquidity_adapter config;
  if (lac_address liquidity =? adapter) && bool_decide (data = []) then Some liquidity else None.

(** The configured positions an adapter address and market data select. *)
Definition matching_positions (config : ValidatedVaultConfig) (adapter : Address) (data : Bytes)
    : list ValidatedPositionConfig :=
  List.filter (fun position => (pc_adapter position =? adapter)
      && bool_decide (encode_adapter_data (pc_market_params position) = data))
    (vv_positions config).

Definition decode_action (calldata : Bytes) (config : ValidatedVaultConfig)
    : result DecodeError V2Action :=
  value ← selector calldata;
  decoded ←
    (if bool_decide (value = ALLOCATE) then
       call ← ok_or (allocate_decode calldata) DecodeNonCanonical;
       if negb (bool_decide (allocate_encode call = calldata)) then Err DecodeNonCanonical
       else Ok (call, true)
     else if bool_decide (value = DEALLOCATE) then
       call ← ok_or (deallocate_decode calldata) DecodeNonCanonical;
       if negb (bool_decide (deallocate_encode call = calldata)) then Err DecodeNonCanonical
       else Ok (call, false)
     else Err DecodeSelector);
  let '(call, allocation) := decoded in
  let amount := call_assets call in
  if amount =? 0 then Err DecodeZeroAmount
  else match liquidity_match config (call_adapter call) (call_data call) with
  | Some liquidity =>
      Ok (make_action allocation (lac_position_key liquidity) (lac_address liquidity) [] amount)
  | None =>
      match matching_positions config (call_adapter call) (call_data call) with
      | [] => Err DecodePosition
      | [position] =>
          Ok (make_action allocation (pc_position_key position) (pc_adapter position)
                (call_data call) amount)
      | _ :: _ :: _ => Err DecodePosition
      end
  end.

Definition decode_inner (config : ValidatedVaultConfig) (inner : Bytes)
    : result DecodeError V2Action :=
  value ← selector inner;
  if bool_decide (value = MULTICALL) then Err DecodeMulticall
  else decode_action inner config.

Definition decode_routine_calldata (calldata : Bytes) (config : ValidatedVaultConfig)
    : result DecodeError DecodedRoutineTransaction :=
  outer_selector ← selector calldata;
  actions ←
    (if bool_decide (outer_selector = MULTICALL) then
       outer ← ok_or (multicall_decode calldata) DecodeNonCanonical;
       if negb (bool_decide (multicall_encode outer = calldata)) || bool_decide (outer = [])
       then Err DecodeMulticall
       else try_map (decode_inner config) outer
     else
       action ← decode_action calldata config;
       Ok [action]);
  Ok (mkDecodedRoutineTransaction actions (keccak256 calldata)).

(** ** What the decoder accepts *)

(** An action names a configured target: the liquidity adapter with empty
    data, or the only position with this adapter and this market data. *)
Definition configured_action (config : ValidatedVaultConfig) (a : V2Action) : Prop :=
  match liquidity_match config (action_adapter a) (action_data a) with
  | Some liquidity => action_position a = lac_position_key liquidity
  | None =>
      exists position, matching_positions config (action_adapter a) (action_data a) = [position] /\
        action_position a = pc_position_key position
  end.

Definition action_call (a : V2Action) : VaultCall :=
  mkVaultCall (action_adapter a) (action_data a) (action_assets a).

Lemma liquidity_match_Some config adapter data l :
  liquidity_match config adapter data = Some l ->
  vv_liquidity_adapter config = Some l /\ lac_address l = adapter /\ data = [].
Proof.
  unfold liquidity_match. intros (x & Hx & Hl)%bind_Some.
  destruct (_ && _) eqn:E; [|done]. injection Hl as ->.
  apply andb_true_iff in E as [?%Z.eqb_eq ?%bool_decide_eq_true]. done.
Qed.

Lemma matching_positions_elem config adapter data p :
  p ∈ matching_positions config adapter data ->
  p ∈ vv_positions config /\ pc_adapter p = adapter /\
  encode_adapter_data (pc_market_params p) = data.
Proof.
  unfold matching_positions. intros Hp%list_elem_of_In.
  apply List.filter_In in Hp as [Hp E].
  apply andb_true_iff in E as [?%Z.eqb_eq ?%bool_decide_eq_true].
  by rewrite list_elem_of_In.
Qed.

Context `{!VaultAbiLaws}.

Lemma selector_of s t : length s = 4%nat -> selector (s ++ t) = Ok s.
Proof.
  intros Hs. unfold selector. rewrite length_app.
  rewrite (proj2 (Nat.leb_le 4 (length s + length t))) by lia.
  by rewrite <-Hs, take_app_length.
Qed.

Lemma selector_lengths :
  length ALLOCATE = 4%nat /\ length DEALLOCATE = 4%nat /\ length MULTICALL = 4%nat.
Proof.
  pose proof selectors_length as Hl. rewrite !Forall_cons in Hl. naive_solver.
Qed.

Lemma selector_allocate c : selector (allocate_encode c) = Ok ALLOCATE.
Proof.
  destruct (allocate_selector c) as [t ->]. apply selector_of, selector_lengths.
Qed.
Lemma selector_deallocate c : selector (deallocate_encode c) = Ok DEALLOCATE.
Proof.
  destruct (deallocate_selector c) as [t ->]. apply selector_of, selector_lengths.
Qed.
Lemma selector_multicall l : selector (multicall_encode l) = Ok MULTICALL.
Proof.
  destruct (multicall_selector l) as [t ->]. apply selector_of, selector_lengths.
Qed.

Lemma selectors_ne :
  ALLOCATE <> DEALLOCATE /\ ALLOCATE <> MULTICALL /\ DEALLOCATE <> MULTICALL.
Proof.
  pose proof selectors_distinct as Hn. rewrite !NoDup_cons, !elem_of_cons in Hn.
  naive_solver.
Qed.

Lemma selector_action a :
  exists s, selector (encode_action a) = Ok s /\ s <> MULTICALL.
Proof.
  destruct selectors_ne as (? & ? & ?). destruct a; cbn;
    [rewrite selector_deallocate|rewrite selector_allocate]; eauto.
Qed.

(** *** One action *)

Lemma decode_action_sound b config a :
  decode_action b config = Ok a ->
  b = encode_action a /\ action_assets a <> 0 /\ configured_action config a.
Proof.
  unfold decode_action. intros Hd. step_ok Hd as v Hv. step_ok Hd as [c al] Hc.
  assert (b = if al then allocate_encode c else deallocate_encode c) as ->.
  { repeat case_bool_decide; [| |done]; step_ok Hc as c' Hc';
      case_bool_decide; cbn in Hc; [|done| |done]; by injection Hc as <- <-. }
  clear Hc. cbn [fst snd] in Hd. destruct (call_assets c =? 0) eqn:Ea; [done|].
  apply Z.eqb_neq in Ea.
  destruct (liquidity_match _ _ _) as [l|] eqn:El.
  - injection Hd as <-. pose proof El as (_ & E1 & E2)%liquidity_match_Some.
    unfold configured_action. destruct c as [ad dt am]. cbn in *. subst.
    destruct al; cbn; by rewrite El.
  - destruct (matching_positions _ _ _) as [|p [|? ?]] eqn:Em; [done| |done].
    injection Hd as <-. unfold configured_action. destruct c as [ad dt am]. cbn in *.
    assert (pc_adapter p = ad) as <-.
    { eapply matching_positions_elem. rewrite Em. by left. }
    destruct al; cbn; rewrite El, Em; eauto.
Qed.

Lemma decode_action_complete config a :
  call_in_range (action_call a) -> action_assets a <> 0 -> configured_action config a ->
  decode_action (encode_action a) config = Ok a.
Proof.
  intros Hr Hz Hc. destruct selectors_ne as (Hne & _ & _). apply Z.eqb_neq in Hz.
  unfold decode_action, configured_action in *.
  destruct a as [p ad dt am|p ad dt am]; cbn in *.
  - rewrite selector_deallocate. cbn. rewrite bool_decide_eq_false_2 by congruence.
    rewrite bool_decide_eq_true_2 by done. rewrite deallocate_decode_encode by done. cbn.
    rewrite bool_decide_eq_true_2 by done. cbn. rewrite Hz.
    destruct (liquidity_match config ad dt) as [l|] eqn:El.
    + apply liquidity_match_Some in El as (_ & <- & ->). by subst.
    + destruct Hc as (q & Hq & ->). rewrite Hq. cbn. f_equal. f_equal.
      eapply matching_positions_elem. rewrite Hq. by left.
  - rewrite selector_allocate. cbn. rewrite bool_decide_eq_true_2 by done.
    rewrite allocate_decode_encode by done. cbn.
    rewrite bool_decide_eq_true_2 by done. cbn. rewrite Hz.
    destruct (liquidity_match config ad dt) as [l|] eqn:El.
    + apply liquidity_match_Some in El as (_ & <- & ->). by subst.
    + destruct Hc as (q & Hq & ->). rewrite Hq. cbn. f_equal. f_equal.
      eapply matching_positions_elem. rewrite Hq. by left.
Qed.

Lemma decode_inner_Ok config b a :
  decode_inner config b = Ok a ->
  b = encode_action a /\ action_assets a <> 0 /\ configured_action config a.
Proof.
  unfold decode_inner. intros Hd. step_ok Hd as v Hv.
  case_bool_decide; [done|]. by apply decode_action_sound.
Qed.

(** What a routine action must satisfy to have an accepted encoding. *)
Definition encodable (config : ValidatedVaultConfig) (a : V2Action) : Prop :=
  call_in_range (action_call a) /\ action_assets a <> 0 /\ configured_action config a.

Lemma decode_inner_complete config a :
  encodable config a -> decode_inner config (encode_action a) = Ok a.
Proof.
  intros (? & ? & ?). unfold decode_inner.
  destruct (selector_action a) as (s & -> & Hs). cbn.
  rewrite bool_decide_eq_false_2 by done. by apply decode_action_complete.
Qed.

Lemma encode_action_bytes a :
  call_in_range (action_call a) -> Forall (fun b => 0 <= b < 256) (encode_action a).
Proof. destruct a; cbn; intros; [by apply deallocate_bytes|by apply allocate_bytes]. Qed.

Lemma decode_multicall config acts :
  Forall (encodable config) acts -> acts <> [] ->
  decode_routine_calldata (multicall_encode (encode_action <$> acts)) config =
  Ok (mkDecodedRoutineTransaction acts (keccak256 (multicall_encode (encode_action <$> acts)))).
Proof.
  intros Ha Hne. unfold decode_routine_calldata. rewrite selector_multicall. cbn.
  rewrite bool_decide_eq_true_2 by done.
  rewrite multicall_decode_encode
    by (apply Forall_fmap; eapply Forall_impl; [exact Ha|]; intros a (? & _);
        by apply encode_action_bytes).
  cbn. rewrite bool_decide_eq_true_2 by done. rewrite bool_decide_eq_false_2 by (by destruct acts).
  cbn. assert (try_map (decode_inner config) (encode_action <$> acts) = Ok acts) as ->; [|done].
  clear Hne. induction Ha as [|a l Ha _ IH]; [done|].
  cbn. rewrite decode_inner_complete by done. cbn.
  change (list_fmap _ _ encode_action l) with (encode_action <$> l). by rewrite IH.
Qed.

(** C14: The encoder and the independent decoder agree: every non-empty list of
    non-zero actions on configured targets encodes to calldata the decoder
    accepts and reads back as exactly these actions, in order. *)
Theorem calldata_round_trips config acts :
  acts <> [] -> Forall (encodable config) acts ->
  dr_actions <$> decode_routine_calldata (encode_actions acts) config = Ok acts.
Proof.
  intros Hne Ha. unfold encode_actions. destruct acts as [|a [|a' l]]; [done| |].
  - rewrite Forall_singleton in Ha. cbn. unfold decode_routine_calldata.
    destruct (selector_action a) as (s & -> & Hs). cbn.
    rewrite bool_decide_eq_false_2 by done.
    destruct Ha as (? & ? & ?). by rewrite decode_action_complete.
  - change (dr_actions <$> decode_routine_calldata
      (multicall_encode (encode_action <$> a :: a' :: l)) config = Ok (a :: a' :: l)).
    by rewrite decode_multicall.
Qed.

(** Accepted calldata is canonical: it is the encoder's own output for the
    decoded actions, or the multicall of a single encoded action; every decoded
    action is non-zero and names exactly one configured target, and the hash
    is that of the accepted bytes.  No other bytes are accepted. *)
Theorem accepted_calldata_canonical config b d :
  decode_routine_calldata b config = Ok d ->
  dr_calldata_hash d = keccak256 b /\ dr_actions d <> [] /\
  Forall (fun a => action_assets a <> 0 /\ configured_action config a) (dr_actions d) /\
  (b = encode_actions (dr_actions d) \/
   exists a, dr_actions d = [a] /\ b = multicall_encode [encode_action a]).
Proof.
  unfold decode_routine_calldata. intros Hd. step_ok Hd as v Hv. step_ok Hd as acts Ha.
  injection Hd as <-. cbn. split; [done|]. case_bool_decide as Hm.
  - step_ok Ha as o Ho. destruct (_ || _) eqn:E; [done|].
    apply orb_false_iff in E as [?%negb_false_iff%bool_decide_eq_true
      Hne%bool_decide_eq_false]. subst b.
    assert (o = encode_action <$> acts /\
      Forall (fun a => action_assets a <> 0 /\ configured_action config a) acts) as [-> Hf].
    { clear Hv Ho Hne. revert acts Ha. induction o as [|x o IH]; intros acts Ha; cbn in Ha.
      - injection Ha as <-. done.
      - step_ok Ha as a Hx. step_ok Ha as l Hl. injection Ha as <-.
        apply IH in Hl as [-> Hl]. apply decode_inner_Ok in Hx as (-> & ? & ?).
        split; [done|]. by constructor. }
    split; [by destruct acts|]. split; [done|].
    destruct acts as [|a [|a' l]]; [done|right; by exists a|by left].
  - step_ok Ha as a Hx. injection Ha as <-. apply decode_action_sound in Hx as (-> & ? & ?).
    split; [done|]. split; [by constructor|by left].
Qed.

End Codec.

(** ** A concrete coder

    Selector, address, amount, then the data; a list of byte strings is written
    with one marker per element and per byte.  It satisfies the laws, and the
    examples of the development use it. *)

Definition call_encode (sel : Bytes) (c : VaultCall) : Bytes :=
  sel ++ be_bytes 20 (call_adapter c) ++ be_bytes 32 (call_assets c) ++ call_data c.

Definition call_decode (b : Bytes) : option VaultCall :=
  let b := drop 4 b in
  if (52 <=? length b)%nat
  then Some (mkVaultCall (of_be_bytes (take 20 b)) (drop 32 (drop 20 b))
               (of_be_bytes (take 32 (drop 20 b))))
  else None.

Definition list_encode (l : list Bytes) : Bytes :=
  mjoin ((fun b => 2 :: mjoin ((fun x => [1; x]) <$> b)) <$> l).

Fixpoint list_decode (acc : list Bytes) (b : Bytes) : option (list Bytes) :=
  match b with
  | [] => Some (reverse (reverse <$> acc))
  | m :: b' =>
      if m =? 2 then list_decode ([] :: acc) b'
      else match b', acc with
      | x :: b'', a :: acc' => if m =? 1 then list_decode ((x :: a) :: acc') b'' else None
      | _, _ => None
      end
  end.

#[global] Instance byte_abi : VaultAbi := {|
  ALLOCATE := [1; 2; 3; 4];
  DEALLOCATE := [5; 6; 7; 8];
  MULTICALL := [9; 10; 11; 12];
  allocate_encode := call_encode [1; 2; 3; 4];
  allocate_decode := call_decode;
  deallocate_encode := call_encode [5; 6; 7; 8];
  deallocate_decode := call_decode;
  multicall_encode l := [9; 10; 11; 12] ++ list_encode l;
  multicall_decode b := list_decode [] (drop 4 b);
|}.

Lemma call_decode_encode sel c :
  length sel = 4%nat -> call_in_range c -> call_decode (call_encode sel c) = Some c.
Proof.
  intros Hs (Ha & _ & Hm). unfold call_decode, call_encode.
  rewrite drop_app_length' by done.
  rewrite !length_app, !length_be_bytes.
  rewrite (proj2 (Nat.leb_le 52 (20 + (32 + length (call_data c))))) by lia.
  rewrite (take_app_length' (be_bytes 20 _)) by (by rewrite length_be_bytes).
  rewrite (drop_app_length' (be_bytes 20 _)) by (by rewrite length_be_bytes).
  rewrite (take_app_length' (be_bytes 32 _)) by (by rewrite length_be_bytes).
  rewrite (drop_app_length' (be_bytes 32 _)) by (by rewrite length_be_bytes).
  rewrite !of_be_bytes_be_bytes; [by destruct c| |].
  - destruct Hm as [? Hm]. split; [done|]. change (256 ^ Z.of_nat 32) with (U256_MAX + 1). lia.
  - change (256 ^ Z.of_nat 20) with (2 ^ 160). lia.
Qed.

Lemma list_decode_bytes b a acc r :
  list_decode (a :: acc) (mjoin ((fun x => [1; x]) <$> b) ++ r) =
  list_decode ((reverse b ++ a) :: acc) r.
Proof.
  revert a. induction b as [|x b IH]; intros a; [done|].
  rewrite reverse_cons, <-app_assoc. apply (IH (x :: a)).
Qed.

Lemma list_decode_encode l acc :
  list_decode acc (list_encode l) = Some (reverse (reverse <$> acc) ++ l).
Proof.
  revert acc. induction l as [|b l IH]; intros acc; [cbn; by rewrite app_nil_r|].
  change (list_encode (b :: l)) with
    (2 :: (mjoin ((fun x => [1; x]) <$> b) ++ list_encode l)).
  cbn [list_decode]. rewrite Z.eqb_refl, list_decode_bytes, app_nil_r, IH.
  rewrite (fmap_cons reverse), reverse_involutive, reverse_cons, <-app_assoc. done.
Qed.

#[global] Instance byte_abi_laws : VaultAbiLaws.
Proof.
  split.
  - by apply (bool_decide_unpack _).
  - repeat constructor.
  - intros c. by eexists.
  - intros c. by eexists.
  - intros l. by eexists.
  - intros c. by apply (call_decode_encode [1; 2; 3; 4]).
  - intros c. by apply (call_decode_encode [5; 6; 7; 8]).
  - intros l _. apply (list_decode_encode l []).
  - intros c (_ & Hd & _). cbn [allocate_encode deallocate_encode byte_abi].
    unfold call_encode. rewrite !Forall_app.
    split; [repeat constructor; done|].
    split; [apply be_bytes_bytes|]. by split; [apply be_bytes_bytes|].
  - intros c (_ & Hd & _). cbn [allocate_encode deallocate_encode byte_abi].
    unfold call_encode. rewrite !Forall_app.
    split; [repeat constructor; done|].
    split; [apply be_bytes_bytes|]. by split; [apply be_bytes_bytes|].
Qed.
