(* ===== verification/Firewall.v ===== *)
(** * Plan and transaction firewall

    Models [src/src/transaction/firewall.rs]: the checks a semantic plan and a
    raw EIP-1559 transaction pass before a signer may see them.  The JSON
    writer behind the canonical plan identity ([serde_json::to_vec]) is library
    code, the class [PlanJson]. *)
From Stdlib Require Import ZArith Lia List Bool.
From stdpp Require Import base list gmap.
From S2P Require Import Prelude.
From S2P Require Import BlueMath.
From S2P Require Import Domain.
From S2P Require Import Config.
From S2P Require Import Calldata.
Open Scope Z_scope.

Record ValidatedPlan : Type := mkValidatedPlan { vp_plan : V2Plan }.

Definition actions (p : ValidatedPlan) : list V2Action := pl_actions (vp_plan p).

Record RoutineTransactionFields : Type := mkRoutineTransactionFields {
  rt_chain_id : Z;
  rt_from : Address;
  rt_to : Address;
  rt_nonce : Z;
  rt_gas_limit : Z;
  rt_max_fee_per_gas : Z;
  rt_max_priority_fee_per_gas : Z;
  rt_value : Z;
  rt_calldata : Bytes;
}.

Record ValidatedRoutineTransaction : Type := mkValidatedRoutineTransaction {
  vt_fields : RoutineTransactionFields;
  vt_plan_hash : B256;
}.

(** The payload handed to the signer; [TxKind::Call] is the target. *)
Record TxEip1559 : Type := mkTxEip1559 {
  tx_chain_id : Z;
  tx_nonce : Z;
  tx_gas_limit : Z;
  tx_max_fee_per_gas : Z;
  tx_max_priority_fee_per_gas : Z;
  tx_to : Address;
  tx_value : Z;
  tx_access_list : list (Address * list B256);
  tx_input : Bytes;
}.

Definition eip1559 (t : ValidatedRoutineTransaction) : TxEip1559 :=
  let f := vt_fields t in
  mkTxEip1559 (rt_chain_id f) (rt_nonce f) (rt_gas_limit f) (rt_max_fee_per_gas f)
    (rt_max_priority_fee_per_gas f) (rt_to f) (rt_value f) [] (rt_calldata f).

Inductive FirewallError : Type :=
| FwContext
| FwPlanHash
| FwSolver
| FwAction
| FwCalldata
| FwEnvelope
| FwFee
| FwSerialization.
#[global] Instance FirewallError_eq_dec : EqDecision FirewallError.
Proof. solve_decision. Defined.

(** [serde_json::to_vec] on a plan. *)
Class PlanJson : Type := plan_json : V2Plan -> option Bytes.

Definition with_identity (p : V2Plan) (id : PlanId) (hash : B256) : V2Plan :=
  mkV2Plan id (pl_reason p) (pl_vault p) (pl_snapshot p) (pl_config_revision p)
    (pl_topology_revision p) (pl_read_set_revision p) (pl_latest_relevant_event_block p)
    (pl_planner_generation p) (pl_actions p) (pl_projection p) (pl_solver_certificate p)
    (pl_episode_id p) hash.

(** The accumulators of the loop of [validate_actions]. *)
Record ActionLoop : Type := mkActionLoop {
  lo_allocation_phase : bool;
  lo_touched : gset PositionKey;
  lo_deallocated : Z;
  lo_allocated : Z;
}.

(** The first three disjuncts of the solver guard, by plan reason. *)
Definition solver_metadata_rejected (plan : V2Plan) : bool :=
  let c := pl_solver_certificate plan in
  match pl_reason plan with
  | RateRebalance =>
      bool_decide (pl_episode_id plan = None)
      || negb (bool_decide (sc_rate_episode_id c = pl_episode_id plan))
      || bool_decide (sc_objective_branch c = None)
  | TopKApyRebalance =>
      bool_decide (is_Some (pl_episode_id plan))
      || bool_decide (is_Some (sc_rate_episode_id c))
      || bool_decide (is_Some (sc_objective_branch c))
  | CapitalDeployment | LiquidityMaintenance =>
      bool_decide (is_Some (pl_episode_id plan))
      || bool_decide (is_Some (sc_rate_episode_id c))
      || bool_decide (is_Some (sc_objective_branch c))
      || sc_target_reachable c
      || sc_target_reached c
  | PositionSyncRequired => true
  end.

(** The final match of [validate_actions] on the plan's reason. *)
Definition movement_shape_rejected (plan : V2Plan) (vault : ValidatedVaultConfig)
    (deallocated allocated : Z) : bool :=
  match pl_reason plan with
  | RateRebalance | TopKApyRebalance =>
      (deallocated =? 0) || (allocated =? 0) || negb (deallocated =? allocated)
      || (pp_before_spread (pl_projection plan) <=? pp_after_spread (pl_projection plan))
  | CapitalDeployment =>
      (allocated =? 0) || (allocated <? deallocated)
      || existsb (fun action =>
           match action with
           | Deallocate position _ _ _ =>
               match vv_liquidity_adapter vault with
               | None => true
               | Some liquidity => negb (lac_position_key liquidity =? position)
               end
           | Allocate _ _ _ _ => false
           end) (pl_actions plan)
  | LiquidityMaintenance =>
      (allocated =? 0) || (negb (deallocated =? 0) && negb (deallocated =? allocated))
  | PositionSyncRequired => true
  end.

Section Firewall.
Context `{HK : Keccak} `{HA : AbiParams} `{HV : VaultAbi} `{HJ : PlanJson}.

Definition encode_validated_plan (plan : ValidatedPlan) : Bytes := encode_actions (actions plan).

Definition canonical_plan_hash (plan : V2Plan) : result FirewallError B256 :=
  bytes ← ok_or (plan_json (with_identity plan (pl_plan_id plan) 0)) FwSerialization;
  Ok (keccak256 bytes).

Definition canonical_plan_id (plan : V2Plan) : result FirewallError PlanId :=
  bytes ← ok_or (plan_json (with_identity plan 0 0)) FwSerialization;
  Ok (keccak256 bytes).

Definition target_checked (vault : ValidatedVaultConfig) (position : PositionKey)
    (adapter : AdapterAddress) (data : Bytes) (amount : Z) (allocation : bool)
    : result FirewallError unit :=
  match (configured ← vv_liquidity_adapter vault;
         if lac_position_key configured =? position then Some configured else None) with
  | Some configured =>
      if negb (lac_address configured =? adapter) || negb (bool_decide (data = []))
         || (lac_maximum_action_assets configured <? amount)
      then Err FwAction else Ok tt
  | None =>
      configured ← ok_or (List.find (fun configured => pc_position_key configured =? position)
        (vv_positions vault)) FwAction;
      if negb (pc_adapter configured =? adapter)
         || negb (bool_decide (data = encode_adapter_data (pc_market_params configured)))
         || (pc_maximum_action_assets configured <? amount)
         || (allocation && negb (bool_decide (pc_mode configured = Active)))
         || (negb allocation
             && negb (match pc_mode configured with
                      | Active | SourceOnly | Disabled => true
                      | _ => false
                      end))
      then Err FwAction else Ok tt
  end.

Definition action_step (vault : ValidatedVaultConfig) (st : ActionLoop) (action : V2Action)
    : result FirewallError ActionLoop :=
  let position := action_position action in
  let amount := action_assets action in
  let allocation := is_allocation action in
  if (amount =? 0) || bool_decide (position ∈ lo_touched st)
     || (negb allocation && lo_allocation_phase st)
  then Err FwAction
  else
    _ ← target_checked vault position (action_adapter action) (action_data action) amount
      allocation;
    total ← ok_or (checked_add U256_MAX
      (if allocation then lo_allocated st else lo_deallocated st) amount) FwAction;
    Ok (mkActionLoop (lo_allocation_phase st || allocation)
          ({[position]} ∪ lo_touched st)
          (if allocation then lo_deallocated st else total)
          (if allocation then total else lo_allocated st)).

Definition validate_actions (plan : V2Plan) (vault : ValidatedVaultConfig) (maximum_actions : Z)
    : result FirewallError unit :=
  if bool_decide (pl_actions plan = []) || (maximum_actions <? Z.of_nat (length (pl_actions plan)))
  then Err FwAction
  else
    st ← try_fold (action_step vault) (mkActionLoop false ∅ 0 0) (pl_actions plan);
    let movement := Z.max (lo_allocated st) (lo_deallocated st) in
    if negb (movement =? pp_movement_assets (pl_projection plan))
       || (vv_maximum_immediate_rebalance_loss_assets vault
           <? pp_immediate_loss_assets (pl_projection plan))
    then Err FwAction
    else if movement_shape_rejected plan vault (lo_deallocated st) (lo_allocated st)
    then Err FwAction
    else Ok tt.

Definition validate_plan_integrity (plan : V2Plan) (vault : ValidatedVaultConfig)
    (maximum_actions : Z) : result FirewallError ValidatedPlan :=
  if negb (pl_topology_revision plan =? ctx_dynamic_topology_revision (pl_snapshot plan))
  then Err FwPlanHash
  else
    id ← canonical_plan_id plan;
    if negb (pl_plan_id plan =? id) then Err FwPlanHash
    else
      hash ← canonical_plan_hash plan;
      if negb (pl_plan_hash plan =? hash) then Err FwPlanHash
      else
        let c := pl_solver_certificate plan in
        if negb (sc_search_complete_for_lattice c) || (sc_node_limit c <? sc_nodes_evaluated c)
           || solver_metadata_rejected plan
        then Err FwSolver
        else
          _ ← validate_actions plan vault maximum_actions;
          Ok (mkValidatedPlan plan).

Definition find_vault (config : ValidatedConfig) (address : VaultAddress)
    : option ValidatedVaultConfig :=
  List.find (fun vault => vv_address vault =? address) (ac_vaults (vg_app config)).

Definition maximum_actions (config : ValidatedConfig) : Z :=
  ex_maximum_actions (ac_execution (vg_app config)).

Definition validate_plan (plan : V2Plan) (config : ValidatedConfig)
    : result FirewallError ValidatedPlan :=
  vault ← ok_or (find_vault config (pl_vault plan)) FwContext;
  if negb (pl_config_revision plan =? vg_revision config)
     || negb (ctx_static_config_revision (pl_snapshot plan) =? vg_revision config)
     || negb (ctx_chain_id (pl_snapshot plan) =? vc_chain_id (ac_chain (vg_app config)))
  then Err FwPlanHash
  else validate_plan_integrity plan vault (maximum_actions config).

Definition validate_historical_plan (plan : V2Plan) (config : ValidatedConfig)
    : result FirewallError ValidatedPlan :=
  vault ← ok_or (find_vault config (pl_vault plan)) FwContext;
  if negb (pl_config_revision plan =? ctx_static_config_revision (pl_snapshot plan))
  then Err FwPlanHash
  else validate_plan_integrity plan vault (maximum_actions config).

Definition validate_routine_transaction (plan : ValidatedPlan) (fields : RoutineTransactionFields)
    (chain_id : Z) (vault : ValidatedVaultConfig) (execution : ValidatedExecutionConfig)
    : result FirewallError ValidatedRoutineTransaction :=
  if negb (rt_chain_id fields =? chain_id) || negb (rt_from fields =? vv_signer_address vault)
     || negb (rt_to fields =? vv_address vault) || negb (rt_value fields =? 0)
  then Err FwEnvelope
  else if (rt_gas_limit fields =? 0)
     || (ex_maximum_signed_transaction_gas execution <? rt_gas_limit fields)
     || (ex_maximum_fee_per_gas_wei execution <? rt_max_fee_per_gas fields)
     || (rt_max_fee_per_gas fields <? rt_max_priority_fee_per_gas fields)
  then Err FwFee
  else
    let expected := encode_validated_plan plan in
    decoded ← map_err (fun _ => FwCalldata) (decode_routine_calldata (rt_calldata fields) vault);
    if negb (bool_decide (rt_calldata fields = expected))
       || negb (bool_decide (dr_actions decoded = actions plan))
    then Err FwCalldata
    else Ok (mkValidatedRoutineTransaction fields (pl_plan_hash (vp_plan plan))).

Definition validate_historical_routine_transaction (plan : V2Plan)
    (fields : RoutineTransactionFields) (config : ValidatedConfig) (vault : ValidatedVaultConfig)
    : result FirewallError ValidatedRoutineTransaction :=
  validated ← validate_historical_plan plan config;
  validate_routine_transaction validated fields (vc_chain_id (ac_chain (vg_app config))) vault
    (ac_execution (vg_app config)).

Definition configured_plan_vault (plan : ValidatedPlan) (config : ValidatedConfig)
    : result FirewallError ValidatedVaultConfig :=
  ok_or (find_vault config (pl_vault (vp_plan plan))) FwContext.

(** ** What the firewall admits *)

(** An action on a configured target, in a mode that allows its direction. *)
Definition target_admissible (vault : ValidatedVaultConfig) (a : V2Action) : Prop :=
  (exists l, vv_liquidity_adapter vault = Some l /\ lac_position_key l = action_position a /\
     lac_address l = action_adapter a /\ action_data a = [] /\
     action_assets a <= lac_maximum_action_assets l) \/
  ((forall l, vv_liquidity_adapter vault = Some l -> lac_position_key l <> action_position a) /\
   exists c, List.find (fun c => pc_position_key c =? action_position a) (vv_positions vault)
       = Some c /\
     pc_adapter c = action_adapter a /\
     action_data a = encode_adapter_data (pc_market_params c) /\
     action_assets a <= pc_maximum_action_assets c /\
     (if is_allocation a then pc_mode c = Active
      else pc_mode c = Active \/ pc_mode c = SourceOnly \/ pc_mode c = Disabled)).

Definition moved (allocation : bool) (acts : list V2Action) : Z :=
  list_sum ((fun a => if Bool.eqb (is_allocation a) allocation then action_assets a else 0) <$> acts).

(** Deallocations first, then allocations. *)
Definition phase_ordered (acts : list V2Action) : Prop :=
  exists ds als, acts = ds ++ als /\ Forall (fun a => is_allocation a = false) ds /\
    Forall (fun a => is_allocation a = true) als.

Lemma direct_checked vault (pos : PositionKey) ad dt am (al : bool) :
  (configured ← ok_or (List.find (fun c => pc_position_key c =? pos) (vv_positions vault)) FwAction;
   if negb (pc_adapter configured =? ad)
      || negb (bool_decide (dt = encode_adapter_data (pc_market_params configured)))
      || (pc_maximum_action_assets configured <? am)
      || (al && negb (bool_decide (pc_mode configured = Active)))
      || (negb al && negb (match pc_mode configured with
                           | Active | SourceOnly | Disabled => true | _ => false end))
   then Err FwAction else Ok tt) = Ok tt <->
  exists c, List.find (fun c => pc_position_key c =? pos) (vv_positions vault) = Some c /\
    pc_adapter c = ad /\ dt = encode_adapter_data (pc_market_params c) /\
    am <= pc_maximum_action_assets c /\
    (if al then pc_mode c = Active
     else pc_mode c = Active \/ pc_mode c = SourceOnly \/ pc_mode c = Disabled).
Proof.
  destruct (List.find _ _) as [c|]; cbn; [|naive_solver].
  destruct (_ || _) eqn:E; bool_spec E; split; try done.
  - intros (c' & [= <-] & ? & ? & ? & Hm).
    destruct E as [[[[?|?]|?]|[-> ?]]|[-> Hx]]; try done; [lia|].
    by destruct Hm as [Hm|[Hm|Hm]]; rewrite Hm in Hx.
  - intros _. exists c. destruct E as [[[[? ?] ?] Ha] Hd]. split_and!; try done.
    destruct al; [by destruct Ha|]. destruct Hd as [?|Hd]; [done|].
    destruct (pc_mode c); try done; auto.
Qed.

Lemma target_checked_Ok vault a :
  target_checked vault (action_position a) (action_adapter a) (action_data a) (action_assets a)
    (is_allocation a) = Ok tt <-> target_admissible vault a.
Proof.
  unfold target_checked, target_admissible.
  destruct (vv_liquidity_adapter vault) as [l|] eqn:El; cbn;
    [destruct (lac_position_key l =? action_position a) eqn:Ek|]; cbn.
  - apply Z.eqb_eq in Ek. destruct (_ || _) eqn:E.
    + split; [done|]. rewrite !orb_true_iff, !negb_true_iff, Z.eqb_neq, bool_decide_eq_false,
        Z.ltb_lt in E. intros [(l' & [= <-] & ?)|(Hn & _)]; [naive_solver lia|by eapply Hn in Ek].
    + rewrite !orb_false_iff, !negb_false_iff, Z.eqb_eq, bool_decide_eq_true, Z.ltb_ge in E.
      split; [intros _; left|done]. exists l. naive_solver.
  - apply Z.eqb_neq in Ek. rewrite direct_checked. split.
    + intros H. right. split; [by intros l' [= <-]|done].
    + intros [(l' & [= <-] & ? & _)|[_ H]]; done.
  - rewrite direct_checked. split; [intros H; right; done|]. intros [(l & ? & _)|[_ H]]; done.
Qed.

Lemma moved_cons al a acts :
  moved al (a :: acts) = (if Bool.eqb (is_allocation a) al then action_assets a else 0)
                         + moved al acts.
Proof. done. Qed.

Lemma moved_app al l k : moved al (l ++ k) = moved al l + moved al k.
Proof. unfold moved. by rewrite fmap_app, list_sum_app. Qed.

(** The actions built from the nonzero amounts of a vector move its sum. *)
Lemma moved_built {A} (build : A -> Z -> V2Action) (allocation : bool) l amounts :
  (forall x n, is_allocation (build x n) = allocation /\ action_assets (build x n) = n) ->
  length amounts = length l ->
  let acts := (fun p : A * Z => build (fst p) (snd p))
    <$> List.filter (fun p => negb (snd p =? 0)) (zip l amounts) in
  moved allocation acts = list_sum amounts /\ moved (negb allocation) acts = 0.
Proof.
  intros Hb. revert amounts. induction l as [|x l IH]; intros [|n amounts] Hl; try done.
  cbn in Hl. destruct (IH amounts) as [I1 I2]; [lia|]. cbn zeta in *.
  rewrite zip_cons, list_sum_cons. cbn [List.filter snd].
  destruct (Z.eqb_spec n 0) as [->|Hn]; cbn [negb]; [rewrite I1, I2; lia|].
  rewrite fmap_cons, !moved_cons. cbn [fst snd]. destruct (Hb x n) as [-> ->].
  rewrite I1, I2. destruct allocation; cbn; lia.
Qed.

(** Each of them moves a nonzero amount related to its target. *)
Lemma built_elem {A} (build : A -> Z -> V2Action) (R : Z -> A -> Prop) l amounts a :
  Forall2 R amounts l ->
  a ∈ (fun p : A * Z => build (fst p) (snd p))
      <$> List.filter (fun p => negb (snd p =? 0)) (zip l amounts) ->
  exists x n, x ∈ l /\ n <> 0 /\ R n x /\ a = build x n.
Proof.
  intros Hf (p & -> & Hp)%list_elem_of_fmap. apply list_elem_of_In, List.filter_In in Hp as [Hp Hn].
  apply negb_true_iff, Z.eqb_neq in Hn. destruct p as [x n]. exists x, n. cbn in *.
  apply list_elem_of_In in Hp. induction Hf as [|m y ms l Hr _ IH]; [by apply elem_of_nil in Hp|].
  rewrite zip_cons in Hp. apply elem_of_cons in Hp as [[= -> ->]|Hp].
  - split_and!; [by left|done..].
  - destruct (IH Hp) as (? & ? & ? & ?). split_and!; [by right|done..].
Qed.

Lemma moved_nonneg al acts : Forall (fun a => 0 <= action_assets a) acts -> 0 <= moved al acts.
Proof.
  intros Ha. apply list_sum_nonneg, Forall_fmap. eapply Forall_impl; [exact Ha|].
  cbn. intros a ?. case_match; lia.
Qed.

(** The order the loop enforces from a phase. *)
Fixpoint ordered_from (phase : bool) (acts : list V2Action) : Prop :=
  match acts with
  | [] => True
  | a :: l => (phase = true -> is_allocation a = true) /\ ordered_from (phase || is_allocation a) l
  end.

Lemma ordered_from_spec acts :
  (ordered_from true acts <-> Forall (fun a => is_allocation a = true) acts) /\
  (ordered_from false acts <-> phase_ordered acts).
Proof.
  unfold phase_ordered. induction acts as [|a l [IHt IHf]]; cbn [ordered_from].
  - split; [done|]. split; [by exists [], []|done].
  - split; [rewrite Forall_cons, IHt; naive_solver|].
    destruct (is_allocation a) eqn:Ea; cbn [orb].
    + rewrite IHt. split.
      * intros [_ Hl]. exists [], (a :: l). split_and!; [done..|by constructor].
      * intros ([|d ds] & als & He & Hd & Hl); cbn in He.
        -- subst als. split; [done|]. by apply Forall_cons in Hl as [_ Hl].
        -- injection He as -> ->. apply Forall_cons in Hd as [Hd _]. congruence.
    + rewrite IHf. split.
      * intros [_ (ds & als & -> & Hd & Hl)]. exists (a :: ds), als. split_and!; [done| |done].
        by constructor.
      * intros (ds & als & He & Hd & Hl). split; [done|]. destruct ds as [|d ds]; cbn in He.
        -- subst als. apply Forall_cons in Hl as [Hl _]. congruence.
        -- injection He as -> ->. exists ds, als. apply Forall_cons in Hd as [_ Hd]. done.
Qed.

(** One step of the loop, on a list of non-negative amounts. *)
Lemma action_step_Ok vault st a st' :
  action_step vault st a = Ok st' <->
  action_assets a <> 0 /\ action_position a ∉ lo_touched st /\
  (lo_allocation_phase st = true -> is_allocation a = true) /\ target_admissible vault a /\
  (if is_allocation a then lo_allocated st else lo_deallocated st) + action_assets a <= U256_MAX /\
  st' = mkActionLoop (lo_allocation_phase st || is_allocation a)
          ({[action_position a]} ∪ lo_touched st)
          (lo_deallocated st + if is_allocation a then 0 else action_assets a)
          (lo_allocated st + if is_allocation a then action_assets a else 0).
Proof.
  unfold action_step. rewrite <-target_checked_Ok.
  destruct (_ || _) eqn:E; bool_spec E.
  { split; [done|]. intros (? & ? & Hp & _). destruct E as [[?|?]|[He Hph]]; try done.
    apply Hp in Hph. congruence. }
  destruct E as [[Ez Ht] Hp]. destruct (target_checked _ _ _ _ _ _) as [[]|]; cbn;
    [|by split; [|intros (_ & _ & _ & ? & _)]].
  destruct (checked_add _ _ _) as [t|] eqn:Ec; cbn.
  - apply checked_add_Some in Ec as [-> Hm]. split.
    + intros [= <-]. split_and!; try done.
      * intros Hph. rewrite Hph in Hp. by destruct Hp.
      * destruct (is_allocation a); f_equal; lia.
    + intros (_ & _ & _ & _ & _ & ->). destruct (is_allocation a); do 2 f_equal; lia.
  - split; [done|]. intros (_ & _ & _ & _ & Hm & _).
    by rewrite (proj2 (checked_add_Some _ _ _ _) (conj eq_refl Hm)) in Ec.
Qed.

Lemma action_loop_Ok vault acts st st' :
  Forall (fun a => 0 <= action_assets a) acts ->
  lo_allocated st <= U256_MAX -> lo_deallocated st <= U256_MAX ->
  try_fold (action_step vault) st acts = Ok st' <->
  Forall (fun a => action_assets a <> 0 /\ target_admissible vault a) acts /\
  NoDup (action_position <$> acts) /\
  Forall (fun a => action_position a ∉ lo_touched st) acts /\
  ordered_from (lo_allocation_phase st) acts /\
  lo_allocated st + moved true acts <= U256_MAX /\
  lo_deallocated st + moved false acts <= U256_MAX /\
  st' = mkActionLoop (lo_allocation_phase st || existsb is_allocation acts)
          (list_to_set (action_position <$> acts) ∪ lo_touched st)
          (lo_deallocated st + moved false acts) (lo_allocated st + moved true acts).
Proof.
  intros Hnn. revert st. induction Hnn as [|a l Ha Hnn IH]; intros st Hal Hde.
  - cbn. destruct st as [ph t d al]; cbn. rewrite orb_false_r, !Z.add_0_r, union_empty_l_L.
    split; [intros [= <-]; split_and!; try done; constructor|by intros (_ & _ & _ & _ & _ & _ & ->)].
  - cbn [try_fold]. rewrite bind_Ok, !Forall_cons. rewrite !moved_cons.
    pose proof (moved_nonneg true l Hnn). pose proof (moved_nonneg false l Hnn).
    cbn [fmap list_fmap existsb]. change (list_fmap _ _ action_position l) with (action_position <$> l).
    rewrite NoDup_cons. split.
    + intros (s1 & (Hz & Ht & Hp & Hta & Hm & ->)%action_step_Ok & Hr).
      apply IH in Hr; cbn [lo_allocation_phase lo_touched lo_deallocated lo_allocated] in *;
        [|destruct (is_allocation a); lia..].
      destruct Hr as (Hf & Hnd & Hnt & Ho & Hb1 & Hb2 & ->).
      split_and!; try done.
      * intros (b & Hb & Hin)%list_elem_of_fmap. rewrite Forall_forall in Hnt.
        apply Hnt in Hin. rewrite <-Hb in Hin. set_solver.
      * eapply Forall_impl; [exact Hnt|]. set_solver.
      * destruct (is_allocation a); cbn in *; lia.
      * destruct (is_allocation a); cbn in *; lia.
      * f_equal; [by rewrite orb_assoc|set_solver|destruct (is_allocation a); cbn; lia..].
    + intros ([[Hz Hta] Hf] & [Hni Hnd] & [Ht Hnt] & [Hp Ho] & Hb1 & Hb2 & ->).
      eexists. split; [apply action_step_Ok; split_and!; [done..| |reflexivity]|].
      { destruct (is_allocation a); cbn in *; lia. }
      apply IH; cbn [lo_allocation_phase lo_touched lo_deallocated lo_allocated];
        [destruct (is_allocation a); cbn in *; lia..|].
      split_and!; try done.
      * rewrite Forall_forall in Hnt |- *. intros b Hb. pose proof (Hnt b Hb).
        apply not_elem_of_union. split; [|done]. intros He%elem_of_singleton. apply Hni.
        rewrite <-He. by apply list_elem_of_fmap_2.
      * destruct (is_allocation a); cbn in *; lia.
      * destruct (is_allocation a); cbn in *; lia.
      * f_equal; [by rewrite orb_assoc|set_solver|destruct (is_allocation a); cbn; lia..].
Qed.

(** The movement a plan of each reason may make. *)
Definition movement_shape (plan : V2Plan) (vault : ValidatedVaultConfig) : Prop :=
  let deallocated := moved false (pl_actions plan) in
  let allocated := moved true (pl_actions plan) in
  match pl_reason plan with
  | RateRebalance | TopKApyRebalance =>
      0 < deallocated /\ deallocated = allocated /\
      pp_after_spread (pl_projection plan) < pp_before_spread (pl_projection plan)
  | CapitalDeployment =>
      0 < allocated /\ deallocated <= allocated /\
      forall a, a ∈ pl_actions plan -> is_allocation a = false ->
        exists l, vv_liquidity_adapter vault = Some l /\ lac_position_key l = action_position a
  | LiquidityMaintenance => 0 < allocated /\ (deallocated = 0 \/ deallocated = allocated)
  | PositionSyncRequired => False
  end.

Lemma movement_shape_spec plan vault :
  Forall (fun a => 0 <= action_assets a) (pl_actions plan) ->
  movement_shape_rejected plan vault (moved false (pl_actions plan))
    (moved true (pl_actions plan)) = false <-> movement_shape plan vault.
Proof.
  intros Hnn. pose proof (moved_nonneg true _ Hnn). pose proof (moved_nonneg false _ Hnn).
  unfold movement_shape_rejected, movement_shape.
  destruct (pl_reason plan); rewrite ?orb_false_iff, ?andb_false_iff, ?negb_false_iff,
    ?Z.eqb_eq, ?Z.eqb_neq, ?Z.leb_gt, ?Z.ltb_ge; [lia| |lia|lia|done].
  rewrite <-not_true_iff_false, existsb_exists. split.
  - intros [[? ?] Hx]. split; [lia|]. split; [lia|]. intros a Ha Hal.
    destruct (vv_liquidity_adapter vault) as [l|] eqn:El.
    + exists l. split; [done|]. destruct (decide (lac_position_key l = action_position a)) as [|Hne];
        [done|]. destruct Hx. exists a. split; [by apply list_elem_of_In|].
      destruct a; cbn in *; [|done]. by apply negb_true_iff, Z.eqb_neq.
    + destruct Hx. exists a. split; [by apply list_elem_of_In|]. by destruct a.
  - intros (? & ? & Hx). split; [lia|]. intros (a & Ha%list_elem_of_In & Hl).
    destruct a as [k ad dt x|]; [|done]. destruct (Hx _ Ha eq_refl) as (l & El & Hk).
    rewrite El in Hl. apply negb_true_iff, Z.eqb_neq in Hl. done.
Qed.

(** Everything the action checks promise about an accepted plan. *)
Definition actions_admissible (plan : V2Plan) (vault : ValidatedVaultConfig) (maximum : Z) : Prop :=
  pl_actions plan <> [] /\ Z.of_nat (length (pl_actions plan)) <= maximum /\
  NoDup (action_position <$> pl_actions plan) /\ phase_ordered (pl_actions plan) /\
  Forall (fun a => action_assets a <> 0 /\ target_admissible vault a) (pl_actions plan) /\
  moved true (pl_actions plan) <= U256_MAX /\ moved false (pl_actions plan) <= U256_MAX /\
  pp_movement_assets (pl_projection plan)
    = Z.max (moved true (pl_actions plan)) (moved false (pl_actions plan)) /\
  pp_immediate_loss_assets (pl_projection plan)
    <= vv_maximum_immediate_rebalance_loss_assets vault /\
  movement_shape plan vault.

Lemma validate_actions_Ok plan vault maximum :
  Forall (fun a => 0 <= action_assets a) (pl_actions plan) ->
  validate_actions plan vault maximum = Ok tt <-> actions_admissible plan vault maximum.
Proof.
  intros Hnn. unfold validate_actions, actions_admissible.
  destruct (_ || _) eqn:E; bool_spec E; [split; [done|naive_solver lia]|]. rewrite bind_Ok.
  assert (0 <= U256_MAX) as HM by done.
  pose proof (fun st => action_loop_Ok vault _ (mkActionLoop false ∅ 0 0) st Hnn HM HM) as Hloop.
  cbn [lo_allocation_phase lo_touched lo_deallocated lo_allocated] in Hloop.
  rewrite <-(proj2 (ordered_from_spec (pl_actions plan))), <-(movement_shape_spec plan vault Hnn). split.
  - intros (st & (Hf & Hnd & _ & Ho & H1 & H2 & ->)%Hloop & Hr). clear Hloop.
    cbn [lo_deallocated lo_allocated] in Hr. rewrite !Z.add_0_l in Hr.
    destruct (_ || _) eqn:E1; bool_spec E1; [done|].
    destruct (movement_shape_rejected _ _ _ _) eqn:E2; [done|].
    destruct E, E1. split_and!; try done; lia.
  - intros (_ & _ & Hnd & Ho & Hf & H1 & H2 & Hmv & Hl & Hs). eexists. split.
    { apply Hloop. split_and!; [done|done| |done..]. apply Forall_true. intros a. set_solver. }
    cbn [lo_deallocated lo_allocated]. rewrite !Z.add_0_l, Hs, Hmv, Z.eqb_refl. cbn.
    by rewrite (proj2 (Z.ltb_ge _ _)).
Qed.

(** The action checks have one error. *)
Lemma validate_actions_Err plan vault maximum e :
  validate_actions plan vault maximum = Err e -> e = FwAction.
Proof.
  unfold validate_actions. destruct (_ || _); [by intros [= <-]|].
  generalize (mkActionLoop false ∅ 0 0). induction (pl_actions plan) as [|a l IH]; intros st; cbn.
  - destruct (_ || _); [by intros [= <-]|]. destruct (movement_shape_rejected _ _ _ _); by intros [= <-].
  - destruct (action_step vault st a) as [st'|e'] eqn:Es; cbn; [apply IH|]. intros [= <-].
    unfold action_step in Es. destruct (_ || _); [by injection Es as <-|].
    destruct (target_checked _ _ _ _ _ _) as [[]|e''] eqn:Et; cbn in Es.
    + destruct (checked_add _ _ _); [done|by injection Es as <-].
    + injection Es as <-. unfold target_checked in Et. destruct (_ ≫= _).
      * destruct (_ || _); [by injection Et as <-|done].
      * destruct (List.find _ _); cbn in Et; [|by injection Et as <-].
        destruct (_ || _); [by injection Et as <-|done].
Qed.

(** What an executable solver certificate carries, by plan reason. *)
Definition certificate_admissible (plan : V2Plan) : Prop :=
  let c := pl_solver_certificate plan in
  sc_search_complete_for_lattice c = true /\ sc_nodes_evaluated c <= sc_node_limit c /\
  match pl_reason plan with
  | RateRebalance => exists e b, pl_episode_id plan = Some e /\ sc_rate_episode_id c = Some e /\
      sc_objective_branch c = Some b
  | TopKApyRebalance => pl_episode_id plan = None /\ sc_rate_episode_id c = None /\
      sc_objective_branch c = None
  | CapitalDeployment | LiquidityMaintenance =>
      pl_episode_id plan = None /\ sc_rate_episode_id c = None /\ sc_objective_branch c = None /\
      sc_target_reachable c = false /\ sc_target_reached c = false
  | PositionSyncRequired => False
  end.

Lemma certificate_spec plan :
  (negb (sc_search_complete_for_lattice (pl_solver_certificate plan))
   || (sc_node_limit (pl_solver_certificate plan) <? sc_nodes_evaluated (pl_solver_certificate plan))
   || solver_metadata_rejected plan) = false <-> certificate_admissible plan.
Proof.
  unfold certificate_admissible, solver_metadata_rejected.
  rewrite !orb_false_iff, negb_false_iff, Z.ltb_ge.
  apply (iff_trans (Logic.and_assoc _ _ _)). do 2 (apply and_iff_compat_l). destruct (pl_reason plan);
    rewrite ?orb_false_iff, ?negb_false_iff, ?bool_decide_eq_false, ?bool_decide_eq_true,
      ?not_eq_None_Some, <-?eq_None_not_Some; [tauto|tauto| |tauto|done].
  split; [|by intros (e & b & -> & -> & ->)].
  intros [[[e He] Hr] [b Hb]]. exists e, b. split_and!; congruence.
Qed.

Lemma validate_plan_integrity_Ok plan vault maximum q :
  Forall (fun a => 0 <= action_assets a) (pl_actions plan) ->
  validate_plan_integrity plan vault maximum = Ok q <->
  q = mkValidatedPlan plan /\
  pl_topology_revision plan = ctx_dynamic_topology_revision (pl_snapshot plan) /\
  canonical_plan_id plan = Ok (pl_plan_id plan) /\
  canonical_plan_hash plan = Ok (pl_plan_hash plan) /\
  certificate_admissible plan /\ actions_admissible plan vault maximum.
Proof.
  intros Hnn. rewrite <-(validate_actions_Ok plan vault maximum Hnn), <-certificate_spec.
  unfold validate_plan_integrity.
  destruct (negb (_ =? _)) eqn:E1; bool_spec E1; [split; [done|naive_solver]|].
  destruct (canonical_plan_id plan) as [id|e]; cbn; [|split; [done|naive_solver]].
  destruct (negb (_ =? id)) eqn:E2; bool_spec E2; [split; [done|naive_solver]|].
  destruct (canonical_plan_hash plan) as [h|e]; cbn; [|split; [done|naive_solver]].
  destruct (negb (_ =? h)) eqn:E3; bool_spec E3; [split; [done|naive_solver]|].
  destruct (_ || _) eqn:E4; [split; [done|naive_solver]|].
  destruct (validate_actions _ _ _) as [[]|e]; cbn; [|split; [done|naive_solver]].
  split; [intros [= <-]; naive_solver congruence|naive_solver].
Qed.

(** C13: The firewall admits a plan exactly when its vault is configured, the
    plan and its snapshot carry the running configuration's revision and chain,
    the plan's identifier and hash are the canonical ones, the solver
    certificate is complete and agrees with the plan's reason, and the actions
    are admissible: a bounded non-empty sequence of deallocations followed by
    allocations, on pairwise distinct configured targets in a mode that allows
    them, within their size bounds, moving the declared amount within the loss
    limit in the shape the reason allows.  The plan itself is returned
    unchanged. *)
Theorem validate_plan_exact plan config q :
  Forall (fun a => 0 <= action_assets a) (pl_actions plan) ->
  validate_plan plan config = Ok q <->
  q = mkValidatedPlan plan /\
  exists vault, find_vault config (pl_vault plan) = Some vault /\
    pl_config_revision plan = vg_revision config /\
    ctx_static_config_revision (pl_snapshot plan) = vg_revision config /\
    ctx_chain_id (pl_snapshot plan) = vc_chain_id (ac_chain (vg_app config)) /\
    pl_topology_revision plan = ctx_dynamic_topology_revision (pl_snapshot plan) /\
    canonical_plan_id plan = Ok (pl_plan_id plan) /\
    canonical_plan_hash plan = Ok (pl_plan_hash plan) /\
    certificate_admissible plan /\
    actions_admissible plan vault (maximum_actions config).
Proof.
  intros Hnn. unfold validate_plan.
  destruct (find_vault config (pl_vault plan)) as [vault|]; cbn; [|split; naive_solver].
  destruct (_ || _) eqn:E; bool_spec E; [split; [done|naive_solver]|].
  rewrite validate_plan_integrity_Ok by done. naive_solver.
Qed.

(** ** Transactions *)

Lemma validate_routine_transaction_Ok p fields chain vault execution t :
  validate_routine_transaction p fields chain vault execution = Ok t <->
  t = mkValidatedRoutineTransaction fields (pl_plan_hash (vp_plan p)) /\
  rt_chain_id fields = chain /\ rt_from fields = vv_signer_address vault /\
  rt_to fields = vv_address vault /\ rt_value fields = 0 /\
  rt_gas_limit fields <> 0 /\
  rt_gas_limit fields <= ex_maximum_signed_transaction_gas execution /\
  rt_max_fee_per_gas fields <= ex_maximum_fee_per_gas_wei execution /\
  rt_max_priority_fee_per_gas fields <= rt_max_fee_per_gas fields /\
  rt_calldata fields = encode_validated_plan p /\
  dr_actions <$> decode_routine_calldata (rt_calldata fields) vault = Ok (actions p).
Proof.
  unfold validate_routine_transaction.
  destruct (_ || _) eqn:E1; bool_spec E1; [split; [done|naive_solver]|].
  destruct (_ || _) eqn:E2; bool_spec E2; [split; [done|naive_solver lia]|].
  destruct (decode_routine_calldata _ _) as [d|]; cbn; [|split; [done|naive_solver]].
  destruct (_ || _) eqn:E3; bool_spec E3.
  - split; [done|]. intros H. destruct E3; destruct_and! H; congruence.
  - split; [intros [= <-]; naive_solver congruence|naive_solver].
Qed.

Context `{!AbiParamsLaws} `{!VaultAbiLaws}.

(** What configuration validation guarantees of a vault's positions: every
    market identifier is derived from its parameters and appears once. *)
Definition positions_distinct (vault : ValidatedVaultConfig) : Prop :=
  NoDup (pc_market_id <$> vv_positions vault) /\
  Forall (fun p => pc_market_id p = derive_market_id (pc_market_params p)) (vv_positions vault).

(** Adapter data is never empty, unlike the data of the liquidity adapter. *)
Definition adapter_data_nonempty (vault : ValidatedVaultConfig) : Prop :=
  Forall (fun p => encode_adapter_data (pc_market_params p) <> []) (vv_positions vault).

Lemma matching_positions_unique vault c :
  positions_distinct vault -> c ∈ vv_positions vault ->
  matching_positions vault (pc_adapter c) (encode_adapter_data (pc_market_params c)) = [c].
Proof.
  intros [Hnd Hid] Hc. unfold matching_positions.
  induction (vv_positions vault) as [|x l IH]; [by apply elem_of_nil in Hc|].
  cbn in Hnd. apply NoDup_cons in Hnd as [Hni Hnd]. apply Forall_cons in Hid as [Hx Hid].
  cbn. apply elem_of_cons in Hc as [->|Hc].
  - rewrite Z.eqb_refl, bool_decide_eq_true_2 by done. cbn. f_equal.
    destruct (List.filter _ l) as [|y l'] eqn:El; [done|]. exfalso. apply Hni.
    assert (y ∈ List.filter (fun q => (pc_adapter q =? pc_adapter x) && bool_decide
      (encode_adapter_data (pc_market_params q) = encode_adapter_data (pc_market_params x))) l)
      as Hy by (rewrite El; by left).
    apply list_elem_of_In, List.filter_In in Hy as [Hy%list_elem_of_In [_ Hd%bool_decide_eq_true]
      %andb_true_iff].
    rewrite Forall_forall in Hid. apply list_elem_of_fmap. exists y. split; [|done].
    rewrite Hx, (Hid y Hy). unfold derive_market_id. unfold encode_adapter_data in Hd. congruence.
  - destruct (_ && _) eqn:E; [|by apply IH].
    exfalso. apply andb_true_iff in E as [_ Hd%bool_decide_eq_true]. apply Hni.
    rewrite Forall_forall in Hid. apply list_elem_of_fmap. exists c. split; [|done].
    rewrite Hx, (Hid c Hc). unfold derive_market_id. unfold encode_adapter_data in Hd. congruence.
Qed.

Lemma admissible_configured vault a :
  positions_distinct vault -> adapter_data_nonempty vault ->
  target_admissible vault a -> configured_action vault a.
Proof.
  intros Hd Hne [(l & Hl & Hk & Ha & Hdt & _)|(Hno & c & Hc & Ha & Hdt & _)];
    unfold configured_action.
  - assert (liquidity_match vault (action_adapter a) (action_data a) = Some l) as ->; [|done].
    unfold liquidity_match. rewrite Hl. cbn.
    by rewrite Ha, Z.eqb_refl, Hdt, bool_decide_eq_true_2.
  - apply List.find_some in Hc as [Hin%list_elem_of_In Hk%Z.eqb_eq].
    unfold adapter_data_nonempty in Hne. rewrite Forall_forall in Hne.
    assert (liquidity_match vault (action_adapter a) (action_data a) = None) as ->.
    { unfold liquidity_match. destruct (vv_liquidity_adapter vault); [|done]. cbn.
      rewrite (bool_decide_eq_false_2 (action_data a = [])) by (rewrite Hdt; by apply Hne).
      by rewrite andb_false_r. }
    exists c. by rewrite <-Ha, Hdt, matching_positions_unique.
Qed.

(** Nothing but the validated plan can be signed: an accepted transaction
    goes from the vault's signer to the vault on the configured chain, carries
    no value, keeps gas and fees under the configured bounds, and its payload
    has an empty access list and exactly the plan's encoding as input, which
    the independent decoder reads back as the plan's actions. *)
Theorem routine_transaction_sound p fields chain vault execution t :
  validate_routine_transaction p fields chain vault execution = Ok t ->
  tx_chain_id (eip1559 t) = chain /\ rt_from (vt_fields t) = vv_signer_address vault /\
  tx_to (eip1559 t) = vv_address vault /\ tx_value (eip1559 t) = 0 /\
  tx_access_list (eip1559 t) = [] /\
  tx_gas_limit (eip1559 t) <> 0 /\
  tx_gas_limit (eip1559 t) <= ex_maximum_signed_transaction_gas execution /\
  tx_max_priority_fee_per_gas (eip1559 t) <= tx_max_fee_per_gas (eip1559 t)
    <= ex_maximum_fee_per_gas_wei execution /\
  tx_input (eip1559 t) = encode_validated_plan p /\
  dr_actions <$> decode_routine_calldata (tx_input (eip1559 t)) vault = Ok (actions p) /\
  vt_plan_hash t = pl_plan_hash (vp_plan p).
Proof.
  intros (-> & Hc & Hf & Ht & Hv & Hg & Hg' & Hm & Hp & Hd & Hdec)
    %validate_routine_transaction_Ok.
  cbn. split_and!; done.
Qed.

(** The plan checks are strong enough for the transaction checks: the
    encoding of every admitted plan, in an envelope within the configured
    bounds, passes the transaction firewall, so no admitted plan is stuck on
    its own calldata. *)
Theorem admitted_plan_is_signable plan config vault p fields :
  Forall (fun a => call_in_range (action_call a)) (pl_actions plan) ->
  validate_plan plan config = Ok p ->
  configured_plan_vault p config = Ok vault ->
  positions_distinct vault -> adapter_data_nonempty vault ->
  rt_chain_id fields = vc_chain_id (ac_chain (vg_app config)) ->
  rt_from fields = vv_signer_address vault -> rt_to fields = vv_address vault ->
  rt_value fields = 0 ->
  0 < rt_gas_limit fields
    <= ex_maximum_signed_transaction_gas (ac_execution (vg_app config)) ->
  rt_max_priority_fee_per_gas fields <= rt_max_fee_per_gas fields
    <= ex_maximum_fee_per_gas_wei (ac_execution (vg_app config)) ->
  rt_calldata fields = encode_validated_plan p ->
  validate_routine_transaction p fields (vc_chain_id (ac_chain (vg_app config))) vault
    (ac_execution (vg_app config))
  = Ok (mkValidatedRoutineTransaction fields (pl_plan_hash plan)).
Proof.
  intros Hr Hp Hv Hd Hne Hc Hf Ht Hval Hg Hfee Hcd.
  assert (Forall (fun a => 0 <= action_assets a) (pl_actions plan)) as Hnn.
  { eapply Forall_impl; [exact Hr|]. by intros a (_ & _ & [? _]). }
  apply validate_plan_exact in Hp
    as (-> & v & Hv' & _ & _ & _ & _ & _ & _ & _ & Hacts); [|done].
  apply ok_or_Ok in Hv. cbn in Hv. rewrite Hv' in Hv. injection Hv as ->.
  destruct Hacts as (Hnil & _ & _ & _ & Hadm & _).
  apply validate_routine_transaction_Ok. split_and!; try done; try lia.
  rewrite Hcd. apply calldata_round_trips; [done|].
  rewrite Forall_forall in *. intros a Ha. destruct (Hadm a Ha) as [Hz Hta].
  split; [by apply Hr|]. split; [done|]. by apply admissible_configured.
Qed.

End Firewall.
