(* ===== verification/FirewallExample.v ===== *)
(** * A concrete rate plan through the firewall

    The applications of the theorems of [Calldata], [Calldata] and [Firewall] to a
    two-position rate plan of the example vault. *)
From Stdlib Require Import ZArith Lia List Bool String.
From stdpp Require Import base list gmap.
From S2P Require Import Prelude.
From S2P Require Import Domain.
From S2P Require Import Config.
From S2P Require Import Calldata.
From S2P Require Import Firewall.
From S2P Require Import SimulatorProofs.
Open Scope Z_scope.

#[local] Existing Instance sum_keccak.
#[local] Existing Instance word_abi.
#[local] Existing Instance word_abi_laws.

(** A writer of the identity fields, enough to run the identity checks. *)
#[local] Instance example_json : PlanJson :=
  fun p => Some [pl_plan_id p; pl_plan_hash p; pl_vault p].

(** The example vault with derived market identifiers. *)
Definition configured (key collateral : Z) : ValidatedPositionConfig :=
  Example.configured key (derive_market_id (Example.params collateral)) collateral.

Definition vault : ValidatedVaultConfig :=
  mkValidatedVaultConfig "example"%string 1 1 6 0 0 77 SpreadEqualization false 1 0 10 0 0 0 0 0 0 0 0
    1000 0 false false false false 0 0 [] []
    (mkValidatedRateGroupConfig "group"%string 0 0 0 1000000000000 false) [] None
    [configured 21 2; configured 22 9].

Definition execution : ValidatedExecutionConfig :=
  mkValidatedExecutionConfig 1 3 10 10 10 1 4 2 5 4 2000000 1000 100 1000000.

Definition top_k : ValidatedTopKApyConfig :=
  mkValidatedTopKApyConfig 0 0 0 0 0 0 0 0 0 0 [] [] 0 0 0 false 0 0 0 0.

Definition strategy : ValidatedStrategyConfig :=
  mkValidatedStrategyConfig UtilizationSpread 0 0 0 100 20 5 10 3 0 0 0 2 1000 60000 2 1000 0 1 3600000
    false 86400 10 top_k.

Definition config : ValidatedConfig :=
  mkValidatedConfig
    (mkValidatedAppConfig 1
       (mkValidatedNodeConfig "node"%string ModeExecute "data"%string 1000 1000)
       (mkValidatedChainConfig "chain"%string 1 3 4 5 0 100 10 EveryCanonicalBlock [])
       (mkValidatedSnapshotConfig PinnedBlock true 2 2 3 10 1000 1000)
       execution (mkSolverConfigCanonical 100 4 4 4 false) strategy
       (RemoteSigner "signer"%string)
       (mkValidatedAlertConfig (mkTelegramConfig false ""%string ""%string None)
          (mkPagerDutyConfig false ""%string))
       [vault])
    0.

Definition acts : list V2Action :=
  [Deallocate 21 31 [1; 2; 3; 4; 5] 5000; Allocate 22 31 [1; 9; 3; 4; 5] 5000].

Definition draft : V2Plan :=
  mkV2Plan 0 RateRebalance 1 (ev_context Example.snapshot) 0 0 0 0 0 acts
    (mkPlanProjection 5000 100 50 1 0 0)
    (mkSolverCertificate 0 1 1 true (Some 8) (Some Portfolio) true true) (Some 8) 0.

(** The draft with its canonical identifier and hash. *)
Definition plan : V2Plan :=
  let id := default 0 (to_option (canonical_plan_id draft)) in
  let hash := default 0 (to_option (canonical_plan_hash (with_identity draft id 0))) in
  with_identity draft id hash.

Definition validated : ValidatedPlan := mkValidatedPlan plan.

Lemma plan_accepted : validate_plan plan config = Ok validated.
Proof. vm_compute. reflexivity. Qed.

Definition fields : RoutineTransactionFields :=
  mkRoutineTransactionFields 1 77 1 3 500000 40 2 0 (encode_validated_plan validated).

Lemma transaction_accepted :
  validate_routine_transaction validated fields 1 vault execution
  = Ok (mkValidatedRoutineTransaction fields (pl_plan_hash plan)).
Proof. vm_compute. reflexivity. Qed.

Lemma acts_nonneg : Forall (fun a => 0 <= action_assets a) (pl_actions plan).
Proof. repeat constructor; cbn; lia. Qed.

Lemma acts_in_range : Forall (fun a => call_in_range (action_call a)) (pl_actions plan).
Proof. repeat constructor; cbn; done. Qed.

Lemma vault_distinct : positions_distinct vault.
Proof. split; apply (bool_decide_unpack _); vm_compute; done. Qed.

Lemma vault_data : adapter_data_nonempty vault.
Proof. repeat constructor; done. Qed.

Lemma signed_gas_limit_spec_witness : 10000 * (110001 - 1) < 100000 * 11001 <= 10000 * 110010.
Proof.
  destruct (proj1 (signed_gas_limit_spec 100000 1001 200000 110010
    ltac:(done) ltac:(done) ltac:(done)) eq_refl) as [H _]. cbn in *. lia.
Defined.

Lemma initial_quote_leaves_room_witness :
  validate_replacement_fees 80 3 (80 + 1) (3 + 1) 100 = Ok tt.
Proof.
  destruct (initial_quote_leaves_room 40 3 100 80 3) as (_ & _ & _ & H);
    [lia|lia|vm_compute; reflexivity|exact H].
Defined.

Lemma calldata_round_trips_witness :
  dr_actions <$> decode_routine_calldata (encode_actions acts) vault = Ok acts.
Proof.
  apply calldata_round_trips; [done|].
  apply Forall_forall. intros a Ha.
  split; [|split].
  - pose proof acts_in_range as Hr. rewrite Forall_forall in Hr. by apply Hr.
  - apply elem_of_cons in Ha as [-> | ->%list_elem_of_singleton]; done.
  - apply elem_of_cons in Ha as [-> | ->%list_elem_of_singleton]; by eexists.
Defined.

Lemma accepted_calldata_canonical_witness : exists d,
  decode_routine_calldata (encode_actions acts) vault = Ok d /\ dr_actions d <> [].
Proof.
  eexists. split; [vm_compute; reflexivity|].
  match goal with |- dr_actions ?d <> [] =>
    apply (accepted_calldata_canonical vault (encode_actions acts) d); vm_compute; reflexivity
  end.
Defined.

Lemma validate_plan_exact_witness : actions_admissible plan vault 4.
Proof.
  destruct (proj1 (validate_plan_exact plan config validated acts_nonneg) plan_accepted)
    as (_ & v & Hv & _ & _ & _ & _ & _ & _ & _ & H).
  cbn in Hv. injection Hv as <-. exact H.
Defined.

Lemma routine_transaction_sound_witness :
  dr_actions <$> decode_routine_calldata (encode_validated_plan validated) vault = Ok acts.
Proof.
  destruct (routine_transaction_sound validated fields 1 vault execution _ transaction_accepted)
    as (_ & _ & _ & _ & _ & _ & _ & _ & _ & H & _). exact H.
Defined.

Lemma admitted_plan_is_signable_witness :
  validate_routine_transaction validated fields 1 vault execution
  = Ok (mkValidatedRoutineTransaction fields (pl_plan_hash plan)).
Proof.
  apply (admitted_plan_is_signable plan config vault validated fields);
    [exact acts_in_range|exact plan_accepted|reflexivity|exact vault_distinct|exact vault_data
    |reflexivity..| | |reflexivity]; cbn; lia.
Defined.
