(* ===== verification/Capital.v ===== *)
(** * Capital deployment

    Models [src/src/planner/capital.rs]: cap headroom, the pairwise distribution
    of a deployment target, and the bounded search of
    [solve_capital_deployment].  The hash of the searched lattices only
    identifies them; the mutable certificate and best candidate of the search
    are threaded through its loops. *)
From Stdlib Require Import ZArith Lia List Bool.
From stdpp Require Import base list gmap sets sorting.
From S2P Require Import Prelude.
From S2P Require Import BlueMath.
From S2P Require Import Domain.
From S2P Require Import Config.
From S2P Require Import Projection.
From S2P Require Import Simulator.
From S2P Require Import SimulatorProofs.
From S2P Require Import Firewall.
From S2P Require Import Candidates.
From S2P Require Import Objective.
Open Scope Z_scope.

(** ** Cap headroom *)

Definition projected_cap_headroom (snapshot : ExactVaultSnapshot)
    (projection : ProjectedVaultView) (reference : CapRef) : option Z :=
  cap ← ev_caps snapshot !! reference;
  if (cs_absolute_cap cap =? 0) || (WAD <? cs_relative_cap cap) then Some 0
  else
    let delta := default 0 (pj_cap_catch_up (pw_vault projection) !! reference) in
    recorded ← i256_of_u256 (cs_recorded_allocation cap);
    sum ← i256_add recorded delta;
    allocation ← u256_of_i256 sum;
    relative_maximum ←
      (if cs_relative_cap cap <? WAD
       then to_option (mul_div_down (pj_parent_total_assets (pw_vault projection))
                         (cs_relative_cap cap) WAD)
       else Some U256_MAX);
    Some (saturating_sub (Z.min (cs_absolute_cap cap) relative_maximum) allocation).

Definition cap_limited_allocation (snapshot : ExactVaultSnapshot)
    (projection : ProjectedVaultView) (position : PositionKey) : option Z :=
  stored ← ev_positions snapshot !! position;
  opt_fold (fun headroom reference =>
      cap ← projected_cap_headroom snapshot projection reference; Some (Z.min headroom cap))
    U256_MAX (affected_caps_list stored).

Definition allocation_cap_boundaries (snapshot : ExactVaultSnapshot)
    (projection : ProjectedVaultView) (position : PositionKey) : option (list Z) :=
  stored ← ev_positions snapshot !! position;
  opt_map (projected_cap_headroom snapshot projection) (affected_caps_list stored).

(** Another configured position whose assets can free the cap. *)
Definition releases_cap (snapshot : ExactVaultSnapshot) (destination : PositionKey)
    (reference : CapRef) (configured : ValidatedPositionConfig) : bool :=
  negb (pc_position_key configured =? destination)
  && match pc_mode configured with Active | SourceOnly | Disabled => true | _ => false end
  && match ev_positions snapshot !! pc_position_key configured with
     | Some position => bool_decide (reference ∈ affected_caps_list position)
     | None => false
     end.

Definition released_assets (projection : ProjectedVaultView) (total : Z)
    (configured : ValidatedPositionConfig) : option Z :=
  current ← pj_position_expected_assets (pw_vault projection) !! pc_position_key configured;
  checked_add U256_MAX total (saturating_sub current (pc_minimum_position_assets configured)).

Definition reallocation_cap_limited_allocation (snapshot : ExactVaultSnapshot)
    (projection : ProjectedVaultView) (vault : ValidatedVaultConfig) (destination : PositionKey)
    : option Z :=
  stored ← ev_positions snapshot !! destination;
  opt_fold (fun capacity reference =>
      released ← opt_fold (released_assets projection) 0
                   (List.filter (releases_cap snapshot destination reference) (vv_positions vault));
      headroom ← projected_cap_headroom snapshot projection reference;
      available ← checked_add U256_MAX headroom released;
      Some (Z.min capacity available))
    U256_MAX (affected_caps_list stored).

(** ** Results *)

Record PendingDeployment : Type := mkPendingDeployment {
  pd_remaining_assets : Z;
  pd_origin_snapshot_hash : B256;
}.

Record CapitalSolveResult : Type := mkCapitalSolveResult {
  cr_actions : list V2Action;
  cr_state : option SimulationState;
  cr_pending : option PendingDeployment;
  cr_certificate : SearchCertificate;
}.

Definition capital_empty_result (certificate : SearchCertificate) : CapitalSolveResult :=
  mkCapitalSolveResult [] None None certificate.

(** [search_complete = false] on an otherwise fresh certificate. *)
Definition initial_certificate (node_limit : Z) (complete : bool) : SearchCertificate :=
  mkSearchCertificate 0 0 node_limit complete ∅.

(** ** Distributions over one and two destinations *)

Definition single_distribution (count : nat) (total : Z) (first : nat * Z) : list (list Z) :=
  if total <=? first.2 then [<[first.1 := total]> (replicate count 0)] else [].

Definition pair_amount (count : nat) (total minimum_action : Z) (first second : nat * Z)
    (first_amount : Z) : option (list Z) :=
  if (first_amount =? 0) || (first_amount <? minimum_action) || (first.2 <? first_amount)
     || (total <=? first_amount)
  then None
  else
    second_amount ← checked_sub total first_amount;
    if (second_amount <? minimum_action) || (second.2 <? second_amount) then None
    else Some (<[second.1 := second_amount]> (<[first.1 := first_amount]> (replicate count 0))).

Definition pair_distributions (lattices : list (list Z)) (count : nat) (total minimum_action : Z)
    (first second : nat * Z) : list (list Z) :=
  if (first.1 =? second.1)%nat then []
  else match lattices !! first.1 with
       | None => []
       | Some first_lattice => omap (pair_amount count total minimum_action first second) first_lattice
       end.

Definition capital_distributions (maximums : list Z) (lattices : list (list Z))
    (total minimum_action : Z) : list (list Z) :=
  let indexed := imap pair maximums in
  let count := length maximums in
  let inserted := concat ((fun first =>
    single_distribution count total first
    ++ concat ((fun second => pair_distributions lattices count total minimum_action first second)
               <$> indexed)) <$> indexed) in
  sort_by_key (fun d => d) (elements (list_to_set inserted : gset (list Z))).

(** ** The distributions *)

(** A target put on one destination, or split between two by a lattice amount
    of the first. *)
Definition capital_distribution (maximums : list Z) (lattices : list (list Z))
    (total minimum_action : Z) (d : list Z) : Prop :=
  (exists i m, maximums !! i = Some m /\ total <= m /\
     d = <[i := total]> (replicate (length maximums) 0)) \/
  (exists i j mi mj amounts a, i <> j /\ maximums !! i = Some mi /\ maximums !! j = Some mj /\
     lattices !! i = Some amounts /\ a ∈ amounts /\ a <> 0 /\ minimum_action <= a <= mi /\
     a < total /\ minimum_action <= total - a <= mj /\
     d = <[j := total - a]> (<[i := a]> (replicate (length maximums) 0))).

Lemma elem_of_indexed (l : list Z) i m : (i, m) ∈ imap pair l <-> l !! i = Some m.
Proof.
  rewrite elem_of_lookup_imap. split; [|by exists i, m].
  by intros (j & x & [= -> ->] & Hx).
Qed.

Lemma pair_amount_Some count total minimum_action i mi j mj a d :
  pair_amount count total minimum_action (i, mi) (j, mj) a = Some d <->
  a <> 0 /\ minimum_action <= a <= mi /\ a < total /\ minimum_action <= total - a <= mj /\
  d = <[j := total - a]> (<[i := a]> (replicate count 0)).
Proof.
  unfold pair_amount. cbn [fst snd].
  destruct (_ || _) eqn:E; bool_spec E; [split; [done|lia]|].
  unfold checked_sub. rewrite (proj2 (Z.leb_le a total)) by lia. cbn [mbind option_bind].
  destruct (_ || _) eqn:E2; bool_spec E2; [split; [done|lia]|].
  split; [intros [= <-]; repeat split; lia|]. by intros (_ & _ & _ & _ & ->).
Qed.

Lemma elem_of_capital_distributions maximums lattices total minimum_action d :
  d ∈ capital_distributions maximums lattices total minimum_action <->
  capital_distribution maximums lattices total minimum_action d.
Proof.
  unfold capital_distributions, capital_distribution.
  rewrite sort_by_key_perm, elem_of_elements, elem_of_list_to_set, elem_of_concat_map. split.
  - intros ([i m] & Hi%elem_of_indexed & [Hd|Hd]%elem_of_app).
    + left. unfold single_distribution in Hd. cbn [fst snd] in Hd.
      destruct (Z.leb_spec total m); [|by apply elem_of_nil in Hd].
      apply list_elem_of_singleton in Hd as ->. by exists i, m.
    + right. apply elem_of_concat_map in Hd as ([j mj] & Hj%elem_of_indexed & Hd).
      unfold pair_distributions in Hd. cbn [fst snd] in Hd.
      destruct (Nat.eqb_spec i j); [by apply elem_of_nil in Hd|].
      destruct (lattices !! i) as [amounts|] eqn:El; [|by apply elem_of_nil in Hd].
      apply list_elem_of_omap in Hd as (a & Ha & Hp%pair_amount_Some).
      exists i, j, m, mj, amounts, a. naive_solver.
  - intros [(i & m & Hi & Hle & ->)|(i & j & mi & mj & amounts & a & Hij & Hi & Hj & Hl & Ha & Hp)].
    + exists (i, m). rewrite elem_of_indexed. split; [done|]. apply elem_of_app. left.
      unfold single_distribution. cbn. rewrite (proj2 (Z.leb_le _ _)) by done. by left.
    + exists (i, mi). rewrite elem_of_indexed. split; [done|]. apply elem_of_app. right.
      apply elem_of_concat_map. exists (j, mj). rewrite elem_of_indexed. split; [done|].
      unfold pair_distributions. cbn [fst snd]. rewrite (proj2 (Nat.eqb_neq i j)), Hl by done.
      apply list_elem_of_omap. exists a. split; [done|]. apply pair_amount_Some. tauto.
Qed.

(** The amounts a distribution actually moves. *)
Definition nonzero (d : list Z) : list Z := List.filter (fun x => negb (x =? 0)) d.

Lemma nonzero_insert_zeros n i x : (length (nonzero (<[i := x]> (replicate n 0%Z))) <= 1)%nat.
Proof.
  assert (forall k, nonzero (replicate k 0) = []) as Hz by (induction k; cbn; done).
  revert i. induction n as [|n IH]; intros [|i]; [cbn; lia..| |].
  - change (<[0%nat := x]> (replicate (S n) 0)) with (x :: replicate n 0).
    unfold nonzero in *. cbn [List.filter]. rewrite Hz. destruct (negb _); cbn; lia.
  - change (<[S i := x]> (replicate (S n) 0)) with (0 :: <[i := x]> (replicate n 0)).
    unfold nonzero in *. cbn [List.filter Z.eqb negb]. apply IH.
Qed.

Lemma nonzero_insert d j x : (length (nonzero (<[j := x]> d)) <= S (length (nonzero d)))%nat.
Proof.
  revert j. unfold nonzero. induction d as [|y d IH]; intros [|j]; cbn [List.filter]; [cbn; lia..| |].
  - change (<[0%nat := x]> (y :: d)) with (x :: d). cbn [List.filter].
    destruct (negb (x =? 0)), (negb (y =? 0)); cbn; lia.
  - change (<[S j := x]> (y :: d)) with (y :: <[j := x]> d). cbn [List.filter].
    specialize (IH j). destruct (negb (y =? 0)); cbn; lia.
Qed.

Lemma list_sum_zeros n : list_sum (replicate n 0) = 0.
Proof. induction n as [|n IH]; [done|]. cbn [replicate]. rewrite list_sum_cons, IH. done. Qed.

(** Every distribution conserves the target over at most two destinations,
    each within its maximum. *)
Lemma capital_distribution_sound maximums lattices total minimum_action d :
  minimum_action <= total -> capital_distribution maximums lattices total minimum_action d ->
  length d = length maximums /\ list_sum d = total /\ (length (nonzero d) <= 2)%nat /\
  Forall2 (fun x m => x = 0 \/ minimum_action <= x <= m) d maximums.
Proof.
  intros Hmt H.
  assert (Forall2 (fun x m => x = 0 \/ minimum_action <= x <= m) (replicate (length maximums) 0) maximums) as H0.
  { clear H. induction maximums; cbn; constructor; auto. }
  assert (forall i m x z d', maximums !! i = Some m -> minimum_action <= x <= m -> d' !! i = Some z ->
    Forall2 (fun x m => x = 0 \/ minimum_action <= x <= m) d' maximums ->
    Forall2 (fun x m => x = 0 \/ minimum_action <= x <= m) (<[i := x]> d') maximums) as Hins.
  { intros i m x z d' Hi Hx _ Hd'. rewrite <-(list_insert_id maximums i m Hi).
    apply Forall2_insert; [done|by right]. }
  destruct H as [(i & m & Hi & Hle & ->)|(i & j & mi & mj & amounts & a & Hij & Hi & Hj & _ & _ &
    _ & Ha & _ & Hb & ->)];
    pose proof (lookup_lt_Some _ _ _ Hi);
    assert (replicate (length maximums) 0 !! i = Some 0) as Hzi by (by apply lookup_replicate_2).
  - rewrite length_insert, length_replicate. split; [done|].
    rewrite (list_sum_insert _ _ _ _ Hzi), list_sum_zeros. split; [lia|]. split.
    + etrans; [apply nonzero_insert_zeros|lia].
    + by eapply Hins.
  - pose proof (lookup_lt_Some _ _ _ Hj).
    assert (<[i := a]> (replicate (length maximums) 0) !! j = Some 0) as Hzj
      by (rewrite list_lookup_insert_ne by done; by apply lookup_replicate_2).
    rewrite !length_insert, length_replicate. split; [done|].
    rewrite (list_sum_insert _ _ _ _ Hzj), (list_sum_insert _ _ _ _ Hzi), list_sum_zeros.
    split; [lia|]. split.
    + etrans; [apply nonzero_insert|]. pose proof (nonzero_insert_zeros (length maximums) i a). lia.
    + eapply Hins; [exact Hj|lia|exact Hzj|]. eapply Hins; [exact Hi|lia|exact Hzi|done].
Qed.

Section Solve.
Context `{HK : Keccak} `{HA : AbiParams}.
Context (snapshot : ExactVaultSnapshot) (projection : ProjectedVaultView).
Context (vault : ValidatedVaultConfig) (solver : SolverConfigCanonical).
Context (benefit_horizon_seconds : Z) (strategy_objective : StrategyObjective).

(** ** The inputs of the search *)

Definition capital_idle_available : option Z :=
  if ils_verified (ev_idle_locks snapshot) then
    locked ← opt_fold (fun total lock => checked_add U256_MAX total (il_remaining_assets lock))
               0 (ils_locks (ev_idle_locks snapshot));
    checked_sub (pv_idle_assets (ev_parent snapshot)) locked
  else Some 0.

Definition capital_liquidity_available : option Z :=
  match ev_liquidity_adapter snapshot, vv_liquidity_adapter vault with
  | Some state, Some configured =>
      let retained := Z.max (vv_minimum_liquidity_adapter_assets vault)
                        (vv_minimum_atomic_exit_coverage_assets vault) in
      Some (Z.min (Z.min (saturating_sub (la_real_assets state) retained) (la_max_withdraw state))
              (lac_maximum_action_assets configured))
  | None, None => Some 0
  | _, _ => None
  end.

(** One Active position with room for the action, or nothing without room. *)
Definition capital_destination (maximum : Z) (destination : ValidatedPositionConfig)
    : option (option (ValidatedPositionConfig * Z)) :=
  current ← pj_position_expected_assets (pw_vault projection) !! pc_position_key destination;
  let position_maximum := saturating_sub (pc_maximum_position_assets destination) current in
  cap ← cap_limited_allocation snapshot projection (pc_position_key destination);
  let action_maximum := Z.min (Z.min (Z.min maximum position_maximum)
                                 (pc_maximum_action_assets destination)) cap in
  Some (if negb (action_maximum =? 0) then Some (destination, action_maximum) else None).

Definition capital_destinations (maximum : Z) : option (list (ValidatedPositionConfig * Z)) :=
  match opt_map (capital_destination maximum)
    (List.filter (fun position => bool_decide (pc_mode position = Active)) (vv_positions vault)) with
  | Some destinations => Some (concat (option_list <$> destinations))
  | None => None
  end.

Record CapitalInputs : Type := mkCapitalInputs {
  ci_idle_available : Z;
  ci_liquidity_available : Z;
  ci_available : Z;
  ci_horizon_timestamp : Z;
  ci_no_plan_terminal : Z;
  ci_destinations : list (ValidatedPositionConfig * Z);
  ci_maximum_deployable : Z;
}.

Definition capital_inputs : option CapitalInputs :=
  idle_available ← capital_idle_available;
  liquidity_available ← capital_liquidity_available;
  available ← checked_add U256_MAX idle_available liquidity_available;
  horizon_timestamp ← checked_add U64_MAX (blk_timestamp (pw_head projection))
                        benefit_horizon_seconds;
  no_plan_terminal ← to_option (no_plan_terminal_existing_shareholder_assets snapshot vault
                                  projection horizon_timestamp);
  destinations ← capital_destinations available;
  deployable ← opt_fold (fun total d => checked_add U256_MAX total d.2) 0 destinations;
  Some (mkCapitalInputs idle_available liquidity_available available horizon_timestamp
          no_plan_terminal destinations (Z.min deployable available)).

(** The service slack that joins the candidate boundaries. *)
Definition capital_boundaries (inputs : CapitalInputs) (maximum : Z) : list Z :=
  [maximum; ci_available inputs; ci_idle_available inputs; ci_liquidity_available inputs;
   saturating_sub (pj_max_executable_deposit_assets (pw_vault projection))
     (vv_minimum_deposit_headroom_assets vault);
   saturating_sub (pj_atomic_exit_coverage_assets (pw_vault projection))
     (vv_minimum_atomic_exit_coverage_assets vault)].

Definition deployment_lattice (inputs : CapitalInputs) : CandidateLattice :=
  build_candidate_lattice (vv_minimum_action_assets vault) (ci_maximum_deployable inputs)
    (capital_boundaries inputs (ci_available inputs))
    (so_maximum_amount_candidates_per_position solver).

Definition destination_lattices (inputs : CapitalInputs) : list CandidateLattice :=
  (fun d => build_candidate_lattice (vv_minimum_action_assets vault) d.2
              (capital_boundaries inputs (ci_maximum_deployable inputs))
              (so_maximum_amount_candidates_per_position solver)) <$> ci_destinations inputs.

Definition capital_lattice_hash (inputs : CapitalInputs) : B256 :=
  keccak256 (be_bytes 32 (ci_maximum_deployable inputs)
             ++ be_bytes 32 (cl_hash (deployment_lattice inputs))
             ++ concat ((fun l => be_bytes 32 (cl_hash l)) <$> destination_lattices inputs)).

(** The targets, largest first. *)
Definition capital_targets (inputs : CapitalInputs) : list Z :=
  List.filter (fun amount => vv_minimum_action_assets vault <=? amount)
    (rev (cl_amounts (deployment_lattice inputs))).

Definition capital_selections (inputs : CapitalInputs) (deploy_target : Z) : list (list Z) :=
  capital_distributions (ci_destinations inputs).*2
    (cl_amounts <$> destination_lattices inputs) deploy_target (vv_minimum_action_assets vault).

(** ** One candidate *)

Definition allocate_destination (destination : ValidatedPositionConfig) (amount : Z) : V2Action :=
  Allocate (pc_position_key destination) (pc_adapter destination)
    (encode_adapter_data (pc_market_params destination)) amount.

(** The withdrawal that completes the idle assets, [None] when it is skipped. *)
Definition capital_withdrawal (inputs : CapitalInputs) (deploy_target : Z)
    : option (list V2Action) :=
  let liquidity_withdrawal := saturating_sub deploy_target (ci_idle_available inputs) in
  if liquidity_withdrawal =? 0 then Some []
  else
    liquidity ← vv_liquidity_adapter vault;
    if ci_liquidity_available inputs <? liquidity_withdrawal then None
    else Some [Deallocate (lac_position_key liquidity) (lac_address liquidity) []
                 liquidity_withdrawal].

Definition capital_allocations (inputs : CapitalInputs) (selected : list Z) : list V2Action :=
  (fun '((destination, _), amount) => allocate_destination destination amount)
  <$> List.filter (fun p => negb (p.2 =? 0)) (zip (ci_destinations inputs) selected).

(** The candidate's actions, or nothing for a skipped candidate. *)
Definition capital_actions (inputs : CapitalInputs) (deploy_target : Z) (selected : list Z)
    : option (list V2Action) :=
  withdrawal ← capital_withdrawal inputs deploy_target;
  let actions := withdrawal ++ capital_allocations inputs selected in
  if bool_decide (actions = [])
     || (saturating_add USIZE_MAX (Z.of_nat (length (vv_positions vault))) 1
         <? Z.of_nat (length actions))
  then None else Some actions.

Definition capital_spread (state : SimulationState) : option Z :=
  rates ← opt_map (fun position =>
      (fun market => strategy_value market strategy_objective)
      <$> ss_markets state !! pc_market_id position)
    (List.filter (fun position => strategy_market_mode_included (pc_mode position))
       (vv_positions vault));
  if bool_decide (rates = []) then None else Some (rate_spread rates).

(** The candidate's hard checks, in order, and its objective. *)
Definition evaluate_capital (inputs : CapitalInputs) (deploy_target : Z) (actions : list V2Action)
    : result RejectionReason (SimulationState * ObjectiveMetrics) :=
  state ← map_err (fun _ => RejectSimulation) (simulate_actions snapshot projection vault actions);
  _ ← map_err (fun _ => RejectService) (validate_service_constraints state snapshot vault);
  if vv_maximum_immediate_rebalance_loss_assets vault <? ss_immediate_loss_assets state
  then Err RejectImmediateLoss
  else
    plan_terminal ← map_err (fun _ => RejectSimulation)
      (terminal_existing_shareholder_assets state snapshot projection
         (ci_horizon_timestamp inputs));
    if match checked_add U256_MAX plan_terminal (vv_maximum_terminal_value_sacrifice_assets vault) with
       | None => true
       | Some allowed => allowed <? ci_no_plan_terminal inputs
       end
    then Err RejectImmediateLoss
    else
      terminal_value_delta ← ok_or
        (planned ← i256_of_u256 plan_terminal;
         baseline ← i256_of_u256 (ci_no_plan_terminal inputs);
         i256_sub planned baseline) RejectSimulation;
      final_unreserved_idle ← map_err (fun _ => RejectService) (unreserved_idle state);
      applicable_spread ← ok_or (capital_spread state) RejectSimulation;
      Ok (state, mkObjectiveMetrics final_unreserved_idle deploy_target applicable_spread 0
                   terminal_value_delta deploy_target (Z.of_nat (length actions))).

(** ** The search *)

Definition Candidate : Type := list V2Action * SimulationState * ObjectiveMetrics.

(** The certificate, the best candidate and [found_at_target]. *)
Record CapitalSearch : Type := mkCapitalSearch {
  cs_certificate : SearchCertificate;
  cs_best : option Candidate;
  cs_found : bool;
}.

Definition count_node (c : SearchCertificate) : SearchCertificate :=
  mkSearchCertificate (se_candidate_lattice_hash c) (saturating_add U64_MAX (se_nodes_evaluated c) 1)
    (se_node_limit c) (se_search_complete c) (se_rejection_counts c).

Definition mark_incomplete (c : SearchCertificate) : SearchCertificate :=
  mkSearchCertificate (se_candidate_lattice_hash c) (se_nodes_evaluated c) (se_node_limit c) false
    (se_rejection_counts c).

Definition improves (objective : ObjectiveMetrics) (best : option Candidate) : bool :=
  match best with
  | None => true
  | Some (_, _, current) => ranks_before CapitalDeployment objective current 0 false
  end.

(** One distribution of a target. *)
Definition capital_step (inputs : CapitalInputs) (deploy_target : Z) (search : CapitalSearch)
    (selected : list Z) : CapitalSearch :=
  match capital_actions inputs deploy_target selected with
  | None => search
  | Some actions =>
      let certificate := count_node (cs_certificate search) in
      match evaluate_capital inputs deploy_target actions with
      | Err reason => mkCapitalSearch (reject certificate reason) (cs_best search) (cs_found search)
      | Ok (state, objective) =>
          if improves objective (cs_best search)
          then mkCapitalSearch certificate (Some (actions, state, objective)) true
          else mkCapitalSearch certificate (cs_best search) (cs_found search)
      end
  end.

(** The distributions of one target; the flag is [break 'search]. *)
Fixpoint capital_target (inputs : CapitalInputs) (deploy_target : Z) (search : CapitalSearch)
    (selections : list (list Z)) : bool * CapitalSearch :=
  match selections with
  | [] => (false, search)
  | selected :: selections =>
      let c := cs_certificate search in
      if se_node_limit c <=? se_nodes_evaluated c
      then (true, mkCapitalSearch (mark_incomplete c) (cs_best search) (cs_found search))
      else capital_target inputs deploy_target (capital_step inputs deploy_target search selected)
             selections
  end.

Fixpoint capital_search (inputs : CapitalInputs) (certificate : SearchCertificate)
    (best : option Candidate) (targets : list Z) : SearchCertificate * option Candidate :=
  match targets with
  | [] => (certificate, best)
  | deploy_target :: targets =>
      let '(stopped, search) :=
        capital_target inputs deploy_target (mkCapitalSearch certificate best false)
          (capital_selections inputs deploy_target) in
      if stopped || cs_found search then (cs_certificate search, cs_best search)
      else capital_search inputs (cs_certificate search) (cs_best search) targets
  end.

Definition with_lattice_hash (c : SearchCertificate) (hash : B256) : SearchCertificate :=
  mkSearchCertificate hash (se_nodes_evaluated c) (se_node_limit c) (se_search_complete c)
    (se_rejection_counts c).

Definition solve_capital_deployment : CapitalSolveResult :=
  match capital_inputs with
  | None => capital_empty_result (initial_certificate (so_maximum_nodes solver) false)
  | Some inputs =>
      let '(certificate, best) :=
        capital_search inputs (initial_certificate (so_maximum_nodes solver) true) None
          (capital_targets inputs) in
      let certificate := with_lattice_hash certificate (capital_lattice_hash inputs) in
      let '(actions, state, deployed) :=
        match best with
        | Some (actions, state, objective) => (actions, Some state, om_deployed_assets objective)
        | None => ([], None, 0)
        end in
      let remaining := saturating_sub (ci_available inputs) deployed in
      mkCapitalSolveResult actions state
        (if vv_maximum_rounding_dust_assets vault <? remaining
         then Some (mkPendingDeployment remaining (ev_snapshot_hash snapshot)) else None)
        certificate
  end.

(** ** The search *)

(** What a candidate of the search is: the actions of a distribution of the
    target that pass every check. *)
Definition candidate_of (inputs : CapitalInputs) (deploy_target : Z) (selected : list Z)
    (c : Candidate) : Prop :=
  capital_actions inputs deploy_target selected = Some c.1.1 /\
  evaluate_capital inputs deploy_target c.1.1 = Ok (c.1.2, c.2).

Definition not_beaten (c : Candidate) (best : option Candidate) : Prop :=
  exists b, best = Some b /\ ranks_before CapitalDeployment c.2 b.2 0 false = false.

Lemma not_beaten_trans c (b : Candidate) best :
  ranks_before CapitalDeployment c.2 b.2 0 false = false -> not_beaten b best ->
  not_beaten c best.
Proof.
  intros H1 (b' & -> & H2). exists b'. split; [done|]. by eapply ranks_before_not_trans.
Qed.

Lemma reject_keeps c reason :
  se_node_limit (reject c reason) = se_node_limit c /\
  se_nodes_evaluated (reject c reason) = se_nodes_evaluated c /\
  (se_search_complete (reject c reason) = true -> se_search_complete c = true).
Proof. unfold reject. by case_match. Qed.

(** What one pass over distributions does to the search state. *)
Record search_extends (inputs : CapitalInputs) (deploy_target : Z) (selections : list (list Z))
    (s s' : CapitalSearch) : Prop := {
  sx_limit : se_node_limit (cs_certificate s') = se_node_limit (cs_certificate s);
  sx_nodes : se_nodes_evaluated (cs_certificate s) <= se_node_limit (cs_certificate s) ->
    se_nodes_evaluated (cs_certificate s') <= se_node_limit (cs_certificate s);
  sx_complete : se_search_complete (cs_certificate s') = true ->
    se_search_complete (cs_certificate s) = true;
  sx_best : cs_best s' = cs_best s /\ cs_found s' = cs_found s \/
    cs_found s' = true /\ exists selected c, selected ∈ selections /\
      cs_best s' = Some c /\ candidate_of inputs deploy_target selected c;
  sx_kept : forall b, cs_best s = Some b -> not_beaten b (cs_best s');
}.

Lemma search_extends_refl inputs target selections s : search_extends inputs target selections s s.
Proof.
  split; auto. intros b Hb. exists b. split; [done|]. apply ranks_before_irrefl.
Qed.

Lemma search_extends_trans inputs target l l' s1 s2 s3 :
  (forall x, x ∈ l -> x ∈ l') ->
  search_extends inputs target l' s1 s2 -> search_extends inputs target l s2 s3 ->
  search_extends inputs target l' s1 s3.
Proof.
  intros Hl [A1 A2 A3 A4 A5] [B1 B2 B3 B4 B5]. split; [congruence| |auto| |].
  - intros Hn. rewrite A1 in B2. auto.
  - destruct B4 as [[Hb Hf]|(Hf & x & c & Hx & Hc)]; [|right; split; [done|]; exists x, c; auto].
    rewrite Hb, Hf. done.
  - intros b Hb. destruct (A5 b Hb) as (b' & Hb' & H1). eapply not_beaten_trans; eauto.
Qed.

Lemma capital_step_extends inputs target s selected :
  se_nodes_evaluated (cs_certificate s) < se_node_limit (cs_certificate s) ->
  search_extends inputs target [selected] s (capital_step inputs target s selected) /\
  forall c, candidate_of inputs target selected c ->
    not_beaten c (cs_best (capital_step inputs target s selected)).
Proof.
  intros Hn. unfold capital_step, candidate_of.
  destruct (capital_actions inputs target selected) as [acts|] eqn:Ea;
    [|split; [apply search_extends_refl|by intros c []]].
  destruct (reject_keeps (count_node (cs_certificate s)) RejectSimulation) as (_ & _ & _).
  assert (saturating_add U64_MAX (se_nodes_evaluated (cs_certificate s)) 1
    <= se_node_limit (cs_certificate s)) as Hn'.
  { rewrite saturating_add_spec. lia. }
  destruct (evaluate_capital inputs target acts) as [[st obj]|reason] eqn:Ee.
  - assert (candidate_of inputs target selected (acts, st, obj)) as Hc by done.
    destruct (improves obj (cs_best s)) eqn:Ei; cbn [cs_best].
    + split.
      * split; cbn; [done|done|done| |].
        -- right. split; [done|]. exists selected, (acts, st, obj). split; [by left|done].
        -- intros b Hb. rewrite Hb in Ei. destruct b as [[ba bs] bo]. cbn in Ei.
           exists (acts, st, obj). split; [done|]. by apply ranks_before_asym.
      * intros [[a st'] o] [[= <-] Hev]. cbn in Hev. rewrite Ee in Hev. injection Hev as <- <-.
        exists (acts, st, obj). split; [done|]. apply ranks_before_irrefl.
    + split.
      * split; cbn; [done|done|done|by left|]. intros b Hb. exists b. split; [done|].
        apply ranks_before_irrefl.
      * intros [[a st'] o] [[= <-] Hev]. cbn in Hev. rewrite Ee in Hev. injection Hev as <- <-.
        destruct (cs_best s) as [[[ba bs] bo]|]; [|done]. exists (ba, bs, bo). done.
  - destruct (reject_keeps (count_node (cs_certificate s)) reason) as (R1 & R2 & R3).
    split; [split; cbn|].
    + exact R1.
    + intros _. rewrite R2. exact Hn'.
    + exact R3.
    + by left.
    + intros b Hb. exists b. split; [done|]. apply ranks_before_irrefl.
    + intros c [[= <-] Hev]. rewrite Ee in Hev. done.
Qed.

Lemma capital_target_spec inputs target selections s :
  let '(stopped, s') := capital_target inputs target s selections in
  search_extends inputs target selections s s' /\
  (stopped = true -> se_search_complete (cs_certificate s') = false) /\
  (stopped = false -> forall selected c, selected ∈ selections ->
     candidate_of inputs target selected c -> not_beaten c (cs_best s')).
Proof.
  revert s. induction selections as [|sel selections IH]; intros s; cbn [capital_target].
  - split; [apply search_extends_refl|]. split; [done|]. by intros _ x c Hx%elem_of_nil.
  - destruct (_ <=? _) eqn:E; bool_spec E.
    + split; [|done]. split; cbn; auto; try done.
      intros b Hb. exists b. split; [done|]. apply ranks_before_irrefl.
    + destruct (capital_step_extends inputs target s sel E) as [Hstep Hsel].
      specialize (IH (capital_step inputs target s sel)).
      destruct (capital_target _ _ _ selections) as [stopped s'] eqn:Et.
      destruct IH as (Hx & Hst & Hall).
      assert (search_extends inputs target (sel :: selections) s
        (capital_step inputs target s sel)) as Hstep'.
      { destruct Hstep as [? ? ? Hb ?]. split; auto.
        destruct Hb as [?|(? & x & c & Hx' & ?)]; [by left|right]. split; [done|].
        apply list_elem_of_singleton in Hx' as ->. exists sel, c. split; [by left|done]. }
      split; [eapply search_extends_trans; [|done|done]; intros x ?; by right|].
      split; [done|]. intros Hs x c Hxin Hc. apply elem_of_cons in Hxin as [->|Hxin]; [|eauto].
      destruct (Hsel c Hc) as (b & Hb & Hr). eapply not_beaten_trans; [exact Hr|].
      by apply (sx_kept _ _ _ _ _ Hx).
Qed.

Definition no_candidate (inputs : CapitalInputs) (deploy_target : Z) : Prop :=
  forall selected c, selected ∈ capital_selections inputs deploy_target ->
    ~ candidate_of inputs deploy_target selected c.

(** A found candidate with its place in the search; the last part needs a
    search that was not cut short. *)
Definition found_candidate (inputs : CapitalInputs) (targets : list Z) (complete : bool)
    (c : Candidate) : Prop :=
  exists before deploy_target after selected, targets = before ++ deploy_target :: after /\
    selected ∈ capital_selections inputs deploy_target /\
    candidate_of inputs deploy_target selected c /\
    (complete = true -> Forall (no_candidate inputs) before /\
       forall selected' c', selected' ∈ capital_selections inputs deploy_target ->
         candidate_of inputs deploy_target selected' c' ->
         ranks_before CapitalDeployment c'.2 c.2 0 false = false).

Lemma capital_search_spec inputs certificate targets :
  let '(certificate', best) := capital_search inputs certificate None targets in
  se_node_limit certificate' = se_node_limit certificate /\
  (se_nodes_evaluated certificate <= se_node_limit certificate ->
   se_nodes_evaluated certificate' <= se_node_limit certificate) /\
  match best with
  | Some c => found_candidate inputs targets (se_search_complete certificate') c
  | None => se_search_complete certificate' = true -> Forall (no_candidate inputs) targets
  end.
Proof.
  revert certificate. induction targets as [|target targets IH]; intros certificate;
    cbn [capital_search]; [done|].
  pose proof (capital_target_spec inputs target (capital_selections inputs target)
    (mkCapitalSearch certificate None false)) as Hspec.
  destruct (capital_target _ _ _ _) as [stopped s]. destruct Hspec as (Hx & Hst & Hall).
  destruct Hx as [X1 X2 _ X4 _]. cbn [cs_certificate cs_best cs_found] in *.
  destruct (stopped || cs_found s) eqn:Ef.
  - split; [done|]. split; [done|]. destruct X4 as [[Hb Hf]|(_ & sel & c & Hsel & Hb & Hc)].
    + rewrite Hb. rewrite Hf, orb_false_r in Ef. rewrite (Hst Ef). done.
    + rewrite Hb. exists [], target, targets, sel. split; [done|]. split; [done|]. split; [done|].
      intros Hcomplete. split; [done|]. intros sel' c' Hsel' Hc'.
      destruct stopped; [by rewrite Hst in Hcomplete|].
      destruct (Hall eq_refl sel' c' Hsel' Hc') as (b & Hb' & Hr). rewrite Hb in Hb'.
      by injection Hb' as <-.
  - apply orb_false_iff in Ef as [-> Ef]. destruct X4 as [[Hb _]|[Hf _]]; [|congruence].
    rewrite Hb. specialize (IH (cs_certificate s)).
    assert (no_candidate inputs target) as Hno.
    { intros sel c Hsel Hc. destruct (Hall eq_refl sel c Hsel Hc) as (b & Hb' & _). congruence. }
    destruct (capital_search _ _ _ _) as [certificate' best]. destruct IH as (H1 & H2 & H3).
    split; [congruence|]. split; [rewrite X1 in H2; auto|].
    destruct best as [c|]; [|intros Hc; constructor; auto].
    destruct H3 as (before & t & after & sel & -> & Hsel & Hc & Hopt).
    exists (target :: before), t, after, sel. split; [done|]. split; [done|]. split; [done|].
    intros [Hb' Ho]%Hopt. split; [by constructor|done].
Qed.

Lemma lattice_sorted minimum_action maximum boundaries limit :
  StronglySorted Z.le (cl_amounts (build_candidate_lattice minimum_action maximum boundaries limit)).
Proof.
  apply (Sorted_StronglySorted Z.le). unfold build_candidate_lattice. cbn [cl_amounts].
  destruct (small_range maximum limit).
  - destruct (decide (0 <= maximum + 1)); [|rewrite seqZ_nil by lia; constructor].
    replace (maximum + 1) with (Z.of_nat (Z.to_nat (maximum + 1))) by lia. apply seqZ_sorted.
  - apply Sorted_merge_sort. apply _.
Qed.

Lemma StronglySorted_rev (l : list Z) :
  StronglySorted Z.le l -> StronglySorted (flip Z.le) (rev l).
Proof.
  induction 1 as [|x l _ IH Hx]; cbn [rev]; [constructor|].
  apply StronglySorted_app_2; [|done|by repeat constructor].
  intros y z Hy%list_elem_of_In%in_rev%list_elem_of_In ->%list_elem_of_singleton.
  rewrite Forall_forall in Hx. by apply Hx.
Qed.

Lemma StronglySorted_filter {A} (R : relation A) (f : A -> bool) l :
  StronglySorted R l -> StronglySorted R (List.filter f l).
Proof.
  induction 1 as [|x l _ IH Hx]; cbn; [constructor|]. destruct (f x); [|done].
  constructor; [done|]. rewrite Forall_forall in *.
  intros y Hy%list_elem_of_In%filter_In. apply Hx, list_elem_of_In. tauto.
Qed.

(** Targets are tried from the largest, and none is below the minimum action. *)
Lemma targets_descend inputs before target after t :
  capital_targets inputs = before ++ target :: after ->
  t ∈ capital_targets inputs -> t ∈ before \/ t <= target.
Proof.
  intros Hc Ht.
  assert (StronglySorted (flip Z.le) (capital_targets inputs)) as Hs
    by (apply StronglySorted_filter, StronglySorted_rev, lattice_sorted).
  rewrite Hc in Hs, Ht. apply elem_of_app in Ht as [?|[->|Ht]%elem_of_cons]; [by left|by right|].
  right. apply StronglySorted_app_1_r, StronglySorted_cons in Hs as [Hf _].
  rewrite Forall_forall in Hf. by apply Hf.
Qed.

Lemma capital_nodes :
  0 <= so_maximum_nodes solver ->
  se_nodes_evaluated (cr_certificate solve_capital_deployment) <= so_maximum_nodes solver.
Proof.
  intros Hn. unfold solve_capital_deployment. destruct capital_inputs as [inputs|]; [|done].
  pose proof (capital_search_spec inputs (initial_certificate (so_maximum_nodes solver) true)
    (capital_targets inputs)) as Hs.
  destruct (capital_search _ _ _ _) as [certificate best]. destruct Hs as (_ & H2 & _).
  destruct best as [[[? ?] ?]|]; by apply H2.
Qed.

(** The bounded search never evaluates more nodes than its limit, and when
    it completes its answer is optimal. Without a plan, no target of the lattice
    has a distribution that passes the checks. With one, the plan deploys the
    largest target that has any, and among the distributions of this target
    none ranks before it. *)
Theorem capital_search_optimal :
  0 <= so_maximum_nodes solver ->
  se_nodes_evaluated (cr_certificate solve_capital_deployment) <= so_maximum_nodes solver /\
  (se_search_complete (cr_certificate solve_capital_deployment) = true ->
   exists inputs, capital_inputs = Some inputs /\
   match cr_state solve_capital_deployment with
   | None => cr_actions solve_capital_deployment = [] /\
       Forall (no_candidate inputs) (capital_targets inputs)
   | Some state =>
       exists deploy_target selected objective,
         deploy_target ∈ capital_targets inputs /\
         selected ∈ capital_selections inputs deploy_target /\
         candidate_of inputs deploy_target selected
           (cr_actions solve_capital_deployment, state, objective) /\
         (forall t, t ∈ capital_targets inputs -> deploy_target < t -> no_candidate inputs t) /\
         (forall selected' c', selected' ∈ capital_selections inputs deploy_target ->
            candidate_of inputs deploy_target selected' c' ->
            ranks_before CapitalDeployment c'.2 objective 0 false = false)
   end).
Proof.
  intros Hn. split; [by apply capital_nodes|]. unfold solve_capital_deployment.
  destruct capital_inputs as [inputs|]; [|done].
  pose proof (capital_search_spec inputs (initial_certificate (so_maximum_nodes solver) true)
    (capital_targets inputs)) as Hs.
  destruct (capital_search _ _ _ _) as [certificate best]. destruct Hs as (_ & _ & H3).
  destruct best as [[[acts st] obj]|]; cbn [cr_certificate cr_actions cr_state with_lattice_hash
    se_search_complete]; intros Hc; exists inputs; (split; [done|]); [|auto].
  destruct H3 as (before & target & after & sel & Ht & Hsel & Hcand & Hopt).
  destruct (Hopt Hc) as [Hb Ho]. exists target, sel, obj.
  split; [rewrite Ht; apply elem_of_app; right; by left|]. split; [done|]. split; [done|].
  split; [|done]. intros t Hin Hlt.
  destruct (targets_descend inputs _ _ _ t Ht Hin) as [Hin'|?]; [|lia].
  rewrite Forall_forall in Hb. by apply Hb.
Qed.

(** ** The plan *)

Lemma capital_solution state :
  cr_state solve_capital_deployment = Some state ->
  exists inputs deploy_target selected objective,
    capital_inputs = Some inputs /\ deploy_target ∈ capital_targets inputs /\
    selected ∈ capital_selections inputs deploy_target /\
    candidate_of inputs deploy_target selected
      (cr_actions solve_capital_deployment, state, objective) /\
    cr_pending solve_capital_deployment =
      (let remaining := saturating_sub (ci_available inputs) deploy_target in
       if vv_maximum_rounding_dust_assets vault <? remaining
       then Some (mkPendingDeployment remaining (ev_snapshot_hash snapshot)) else None).
Proof.
  unfold solve_capital_deployment. destruct capital_inputs as [inputs|]; [|done].
  pose proof (capital_search_spec inputs (initial_certificate (so_maximum_nodes solver) true)
    (capital_targets inputs)) as Hs.
  destruct (capital_search _ _ _ _) as [certificate [[[acts st] obj]|]]; [|done].
  destruct Hs as (_ & _ & before & target & after & sel & Ht & Hsel & Hcand & _).
  cbn [cr_state cr_actions cr_pending]. intros [= <-]. exists inputs, target, sel, obj.
  split; [done|]. split; [rewrite Ht; apply elem_of_app; right; by left|].
  split; [done|]. split; [done|].
  assert (om_deployed_assets obj = target) as ->; [|done].
  destruct Hcand as [_ He]. unfold evaluate_capital in He. cbn [fst snd] in He.
  step_ok He as s1 _. step_ok He as s2 _. destruct (_ <? _); [done|]. step_ok He as s3 _.
  destruct (match checked_add _ _ _ with Some _ => _ | None => _ end); [done|].
  step_ok He as s4 _. step_ok He as s5 _. step_ok He as s6 _. by injection He as _ <-.
Qed.

(** What an evaluated candidate satisfies. *)
Lemma evaluate_capital_sound inputs deploy_target acts state objective :
  evaluate_capital inputs deploy_target acts = Ok (state, objective) ->
  simulate_actions snapshot projection vault acts = Ok state /\
  validate_service_constraints state snapshot vault = Ok tt /\
  ss_immediate_loss_assets state <= vv_maximum_immediate_rebalance_loss_assets vault /\
  exists planned, terminal_existing_shareholder_assets state snapshot projection
      (ci_horizon_timestamp inputs) = Ok planned /\
    ci_no_plan_terminal inputs <= planned + vv_maximum_terminal_value_sacrifice_assets vault.
Proof.
  unfold evaluate_capital. intros He.
  step_ok He as s1 H1%map_err_Ok. step_ok He as [] H2%map_err_Ok.
  destruct (_ <? ss_immediate_loss_assets _) eqn:E; [done|]. bool_spec E.
  step_ok He as planned H3%map_err_Ok.
  destruct (checked_add U256_MAX planned _) as [allowed|] eqn:Ea; [|done].
  apply checked_add_Some in Ea as [-> _]. destruct (_ <? ci_no_plan_terminal _) eqn:En; [done|].
  bool_spec En. step_ok He as s4 _. step_ok He as s5 _. step_ok He as s6 _.
  injection He as <- _. split_and!; try done. by exists planned.
Qed.

(** Room of a destination the search uses. *)
Definition destination_room (inputs : CapitalInputs) (destination : ValidatedPositionConfig)
    (amount : Z) : Prop :=
  destination ∈ vv_positions vault /\ pc_mode destination = Active /\
  amount <= pc_maximum_action_assets destination /\ amount <= ci_available inputs /\
  exists current cap,
    pj_position_expected_assets (pw_vault projection) !! pc_position_key destination = Some current /\
    amount <= saturating_sub (pc_maximum_position_assets destination) current /\
    cap_limited_allocation snapshot projection (pc_position_key destination) = Some cap /\
    amount <= cap.

Lemma capital_destination_room inputs destination maximum :
  capital_inputs = Some inputs -> (destination, maximum) ∈ ci_destinations inputs ->
  destination_room inputs destination maximum.
Proof.
  unfold capital_inputs. intros H. do 6 (apply bind_Some in H as (? & ? & H)).
  apply bind_Some in H as (deployable & _ & H). injection H as <-. cbn [ci_destinations].
  match goal with Hd : capital_destinations _ = Some _ |- _ => rename Hd into Hds end.
  unfold capital_destinations in Hds. destruct (opt_map _ _) as [ds|] eqn:Eds; [|done].
  injection Hds as <-. intros Hin%elem_of_concat_options.
  eapply opt_map_elem in Hin as (d & Hd & Hc); [|exact Eds].
  apply list_elem_of_In, filter_In in Hd as [Hd%list_elem_of_In Hm%bool_decide_eq_true].
  unfold capital_destination in Hc. apply bind_Some in Hc as (current & Hcur & Hc).
  apply bind_Some in Hc as (cap & Hcap & Hc). cbn beta zeta in Hc.
  destruct (negb _); [|done]. injection Hc as <- <-.
  split; [done|]. split; [done|]. split; [lia|]. cbn [ci_available]. split; [lia|].
  exists current, cap. split_and!; try done; lia.
Qed.

(** The allocations of a selection. *)
Lemma capital_allocations_sound lo destinations selected :
  length selected = length destinations ->
  Forall2 (fun x m => x = 0 \/ lo <= x <= m) selected destinations.*2 ->
  let allocations := (fun '((destination, _), amount) => allocate_destination destination amount)
    <$> List.filter (fun p => negb (p.2 =? 0)) (zip destinations selected) in
  moved true allocations = list_sum selected /\ moved false allocations = 0 /\
  length allocations = length (nonzero selected) /\
  Forall (fun a => exists destination maximum, (destination, maximum) ∈ destinations /\
    a = allocate_destination destination (action_assets a) /\ lo <= action_assets a <= maximum) allocations.
Proof.
  revert selected. induction destinations as [|[d m] ds IH]; intros [|x xs] Hl Hf; try done.
  cbn in Hl, Hf. apply Forall2_cons in Hf as [Hx Hf].
  destruct (IH xs) as (I1 & I2 & I3 & I4); [lia|done|]. cbn zeta in *.
  unfold nonzero in *. cbn [zip List.filter zip_with snd]. rewrite list_sum_cons.
  change (zip_with pair ds xs) with (zip ds xs).
  assert (forall l, Forall (fun a => exists destination maximum, (destination, maximum) ∈ ds /\
    a = allocate_destination destination (action_assets a) /\ lo <= action_assets a <= maximum) l ->
    Forall (fun a => exists destination maximum, (destination, maximum) ∈ (d, m) :: ds /\
    a = allocate_destination destination (action_assets a) /\ lo <= action_assets a <= maximum) l) as Hw.
  { intros l Hall. rewrite Forall_forall in *. intros a Ha. destruct (Hall a Ha) as (d' & m' & ? & ?).
    exists d', m'. split; [by right|done]. }
  destruct (Z.eqb_spec x 0) as [->|Hne]; cbn [negb].
  - split; [lia|]. split; [lia|]. split; [done|by apply Hw].
  - rewrite fmap_cons, !moved_cons.
    change (action_assets (allocate_destination d x)) with x.
    change (is_allocation (allocate_destination d x)) with true. cbn [Bool.eqb length].
    split; [lia|]. split; [lia|]. split; [lia|].
    constructor; [|by apply Hw]. exists d, m. split; [by left|]. cbn. split; [done|].
    destruct Hx; [done|lia].
Qed.

(** The actions of a candidate, split into the withdrawal and the allocations. *)
Lemma capital_actions_sound inputs deploy_target selected acts :
  capital_inputs = Some inputs -> selected ∈ capital_selections inputs deploy_target ->
  vv_minimum_action_assets vault <= deploy_target ->
  capital_actions inputs deploy_target selected = Some acts ->
  exists withdrawal allocations, acts = withdrawal ++ allocations /\
    acts <> [] /\ moved true acts = deploy_target /\ (length allocations <= 2)%nat /\
    Forall (fun a => exists destination,
      a = allocate_destination destination (action_assets a) /\
      destination_room inputs destination (action_assets a) /\
      vv_minimum_action_assets vault <= action_assets a) allocations /\
    (withdrawal = [] /\ moved false acts = 0 /\ deploy_target <= ci_idle_available inputs \/
     exists liquidity, vv_liquidity_adapter vault = Some liquidity /\
       withdrawal = [Deallocate (lac_position_key liquidity) (lac_address liquidity) []
                       (deploy_target - ci_idle_available inputs)] /\
       moved false acts = deploy_target - ci_idle_available inputs /\
       0 < deploy_target - ci_idle_available inputs <= ci_liquidity_available inputs).
Proof.
  intros Hin Hsel Hmt H. apply elem_of_capital_distributions in Hsel.
  apply capital_distribution_sound in Hsel as (Hl & Hs & Hn & Hf); [|done].
  rewrite length_fmap in Hl.
  destruct (capital_allocations_sound (vv_minimum_action_assets vault) (ci_destinations inputs)
    selected Hl Hf)
    as (A1 & A2 & A3 & A4). fold (capital_allocations inputs selected) in A1, A2, A3, A4.
  unfold capital_actions in H. apply bind_Some in H as (withdrawal & Hw & H).
  cbv zeta in H. destruct (_ || _) eqn:E; bool_spec E; [done|]. injection H as <-.
  exists withdrawal, (capital_allocations inputs selected).
  split; [done|]. split; [tauto|]. rewrite !moved_app, A1, A2, A3, Hs.
  assert (Forall (fun a => exists destination,
      a = allocate_destination destination (action_assets a) /\
      destination_room inputs destination (action_assets a) /\
      vv_minimum_action_assets vault <= action_assets a) (capital_allocations inputs selected))
    as Hroom.
  { rewrite Forall_forall in *. intros a Ha. destruct (A4 a Ha) as (d & m & Hd & He & Hle).
    exists d. split; [done|]. destruct (capital_destination_room _ _ _ Hin Hd)
      as (R1 & R2 & R3 & R4 & cur & cap & R5 & R6 & R7 & R8).
    split; [|lia]. split_and!; try done; [lia..|]. exists cur, cap. split_and!; try done; lia. }
  unfold capital_withdrawal in Hw. rewrite saturating_sub_spec in Hw.
  destruct (_ =? 0) eqn:E0; bool_spec E0.
  - injection Hw as <-. cbn. split_and!; try done; try lia. left. split_and!; try done; lia.
  - rewrite Z.max_r in Hw by lia. apply bind_Some in Hw as (liq & Hliq & Hw).
    destruct (_ <? _) eqn:El; bool_spec El; [done|]. injection Hw as <-. cbn.
    split_and!; try done; try lia. right. exists liq. split_and!; try done; lia.
Qed.

(** A capital plan is safe whether or not the search completed: it simulates
    to the returned state, which meets every service constraint, loses no more
    than the configured bound at once, and leaves the existing shareholders'
    value at the horizon within the configured sacrifice of doing nothing. It
    deploys its target into at most two Active positions within their caps,
    position and action limits, each by at least the minimum action, takes only
    what idle assets do not cover from the liquidity adapter, and reports the
    rest as pending when it exceeds dust. *)
Theorem capital_plan_sound state :
  cr_state solve_capital_deployment = Some state ->
  exists inputs deploy_target,
    capital_inputs = Some inputs /\
    simulate_actions snapshot projection vault (cr_actions solve_capital_deployment) = Ok state /\
    validate_service_constraints state snapshot vault = Ok tt /\
    ss_immediate_loss_assets state <= vv_maximum_immediate_rebalance_loss_assets vault /\
    (exists planned, terminal_existing_shareholder_assets state snapshot projection
        (ci_horizon_timestamp inputs) = Ok planned /\
      ci_no_plan_terminal inputs <= planned + vv_maximum_terminal_value_sacrifice_assets vault) /\
    vv_minimum_action_assets vault <= deploy_target /\
    moved true (cr_actions solve_capital_deployment) = deploy_target /\
    (exists withdrawal allocations,
       cr_actions solve_capital_deployment = withdrawal ++ allocations /\
       (length allocations <= 2)%nat /\
       Forall (fun a => exists destination,
         a = allocate_destination destination (action_assets a) /\
         destination_room inputs destination (action_assets a) /\
      vv_minimum_action_assets vault <= action_assets a) allocations /\
       (withdrawal = [] /\ deploy_target <= ci_idle_available inputs \/
        exists liquidity, vv_liquidity_adapter vault = Some liquidity /\
          withdrawal = [Deallocate (lac_position_key liquidity) (lac_address liquidity) []
                          (deploy_target - ci_idle_available inputs)] /\
          0 < deploy_target - ci_idle_available inputs <= ci_liquidity_available inputs)) /\
    cr_pending solve_capital_deployment =
      (let remaining := saturating_sub (ci_available inputs) deploy_target in
       if vv_maximum_rounding_dust_assets vault <? remaining
       then Some (mkPendingDeployment remaining (ev_snapshot_hash snapshot)) else None).
Proof.
  intros (inputs & target & sel & obj & Hin & Ht & Hsel & [Ha He] & Hp)%capital_solution.
  cbn [fst snd] in Ha, He.
  apply evaluate_capital_sound in He as (E1 & E2 & E3 & E4).
  unfold capital_targets in Ht. apply list_elem_of_In, filter_In in Ht as [_ Ht%Z.leb_le].
  destruct (capital_actions_sound _ _ _ _ Hin Hsel Ht Ha)
    as (w & als & Hacts & _ & Hm & Hlen & Hroom & Hw).
  exists inputs, target. split_and!; try done.
  exists w, als. split_and!; try done.
  destruct Hw as [(? & _ & ?)|(l & ? & ? & _ & ?)]; [by left|right; by exists l].
Qed.

End Solve.

(** ** A deployment of the example vault *)

Module DeploymentExample.
Import SimulatorProofs.Example.

Definition solver : SolverConfigCanonical := mkSolverConfigCanonical 200 4 10 10 false.
Definition solved : CapitalSolveResult :=
  @solve_capital_deployment sum_keccak word_abi snapshot view config solver 3600
    SpotBorrowRateSpread.

(** All 300 unlocked idle assets are deployed over both positions. *)
Example deployment_solved_actions :
  cr_actions solved = [Allocate 21 31 [1; 2; 3; 4; 5] 2; Allocate 22 31 [1; 9; 3; 4; 5] 298]
  /\ cr_pending solved = None /\ se_search_complete (cr_certificate solved) = true.
Proof. vm_compute. repeat split. Qed.

Lemma deployment_solved_state : is_Some (cr_state solved).
Proof. vm_compute. by eexists. Qed.

Lemma capital_search_optimal_witness :
  se_nodes_evaluated (cr_certificate solved) <= 200 /\
  exists inputs, @capital_inputs word_abi snapshot view config 3600 = Some inputs.
Proof.
  destruct (@capital_search_optimal sum_keccak word_abi snapshot view config solver 3600
              SpotBorrowRateSpread) as [Hn Hc]; [cbn; lia|].
  destruct Hc as (inputs & Hi & _); [vm_compute; reflexivity|].
  split; [exact Hn|exists inputs; exact Hi].
Defined.

Lemma capital_plan_sound_witness :
  exists state, cr_state solved = Some state /\
    @simulate_actions word_abi snapshot view config (cr_actions solved) = Ok state.
Proof.
  destruct (cr_state solved) as [state|] eqn:Hs;
    [|by destruct deployment_solved_state as [? H]; rewrite Hs in H].
  exists state. split; [reflexivity|].
  destruct (@capital_plan_sound sum_keccak word_abi snapshot view config solver 3600
              SpotBorrowRateSpread state Hs) as (_ & _ & _ & H & _). exact H.
Defined.

End DeploymentExample.
