(* ===== verification/CapOrder.v ===== *)
(** * Bounded allocation-order search

    Models [src/src/planner/cap_order.rs]: the depth-first search over the
    orders of the allocations that follow the canonical deallocations.  The
    set of remaining indices is a sorted list; its length bounds the recursion,
    so [S (length remaining)] is enough fuel.  A [usize] index always fits the
    [u64] it is hashed as. *)
From Stdlib Require Import ZArith Lia List Bool Permutation.
From stdpp Require Import base list gmap sets sorting.
From S2P Require Import Prelude.
From S2P Require Import Domain.
From S2P Require Import Config.
From S2P Require Import Projection.
From S2P Require Import Simulator.
From S2P Require Import SimulatorProofs.
Open Scope Z_scope.

Record AllocationOrderResult : Type := mkAllocationOrderResult {
  ao_feasible : list (list V2Action * SimulationState);
  ao_nodes_evaluated : Z;
  ao_complete : bool;
}.

Definition action_key (snapshot : ExactVaultSnapshot) (action : V2Action) : list Z :=
  match ev_positions snapshot !! action_position action with
  | Some state => [mp_loan_token (dp_market_params state); dp_market_id state; action_adapter action]
  | None => [0; 0; action_adapter action]
  end.

(** The mutable part of [Search]. *)
Record OrderSearch : Type := mkOrderSearch {
  os_nodes : Z;
  os_complete : bool;
  os_seen_prefixes : gset B256;
  os_feasible : list (list V2Action * SimulationState);
}.

Definition order_incomplete (s : OrderSearch) : OrderSearch :=
  mkOrderSearch (os_nodes s) false (os_seen_prefixes s) (os_feasible s).
Definition order_count (s : OrderSearch) : OrderSearch :=
  mkOrderSearch (saturating_add U64_MAX (os_nodes s) 1) (os_complete s) (os_seen_prefixes s)
    (os_feasible s).
Definition order_seen (s : OrderSearch) (h : B256) : OrderSearch :=
  mkOrderSearch (os_nodes s) (os_complete s) ({[h]} ∪ os_seen_prefixes s) (os_feasible s).
Definition order_push (s : OrderSearch) (entry : list V2Action * SimulationState) : OrderSearch :=
  mkOrderSearch (os_nodes s) (os_complete s) (os_seen_prefixes s) (os_feasible s ++ [entry]).

Definition without (index : nat) (remaining : list nat) : list nat :=
  List.filter (fun i => negb (i =? index)%nat) remaining.

(** The children of a node, stopped by the first incomplete one. *)
Fixpoint visit_choices (visit : nat -> OrderSearch -> OrderSearch) (choices : list nat)
    (s : OrderSearch) : OrderSearch :=
  match choices with
  | [] => s
  | index :: choices =>
      let s := visit index s in
      if os_complete s then visit_choices visit choices s else s
  end.

Section Search.
Context `{HK : Keccak} `{HA : AbiParams}.
Context (snapshot : ExactVaultSnapshot) (projection : ProjectedVaultView).
Context (config : ValidatedVaultConfig) (deallocations allocations : list V2Action).
Context (node_limit : Z).

Definition prefix_hash (prefix : list nat) : B256 :=
  keccak256 (concat ((fun index => be_bytes 8 (Z.of_nat index)) <$> prefix)).

(** The leaf of a complete order. *)
Definition visit_leaf (prefix : list nat) (s : OrderSearch) : OrderSearch :=
  match opt_map (fun index => allocations !! index) prefix with
  | None => order_incomplete s
  | Some ordered =>
      match simulate_actions snapshot projection config (deallocations ++ ordered) with
      | Ok state => order_push s (deallocations ++ ordered, state)
      | Err _ => s
      end
  end.

Fixpoint visit (fuel : nat) (prefix remaining : list nat) (s : OrderSearch) : OrderSearch :=
  match fuel with
  | O => s
  | S fuel =>
      if node_limit <=? os_nodes s then order_incomplete s
      else
        let s := order_count s in
        let h := prefix_hash prefix in
        if bool_decide (h ∈ os_seen_prefixes s) then s
        else
          let s := order_seen s h in
          match remaining with
          | [] => visit_leaf prefix s
          | _ => visit_choices (fun index => visit fuel (prefix ++ [index]) (without index remaining))
                   remaining s
          end
  end.

End Search.

Section Orders.
Context `{HK : Keccak} `{HA : AbiParams}.

Definition search_allocation_orders (snapshot : ExactVaultSnapshot)
    (projection : ProjectedVaultView) (config : ValidatedVaultConfig)
    (deallocations allocations : list V2Action) (node_limit : Z)
    : result SimulationError AllocationOrderResult :=
  let canonical_deallocations := sort_by_key (action_key snapshot) deallocations in
  if existsb is_allocation canonical_deallocations then Err InvalidAction
  else
    let canonical_allocations := sort_by_key (action_key snapshot) allocations in
    if existsb (fun action => negb (is_allocation action)) canonical_allocations
    then Err InvalidAction
    else
      let length := length canonical_allocations in
      let search := visit snapshot projection config canonical_deallocations canonical_allocations
                      node_limit (S length) [] (seq 0 length) (mkOrderSearch 0 true ∅ []) in
      Ok (mkAllocationOrderResult (os_feasible search) (os_nodes search) (os_complete search)).

End Orders.

(** ** The reference enumeration *)

(** The orders of some indices, lexicographically, and the nodes of the tree. *)
Fixpoint orders (fuel : nat) (remaining : list nat) : list (list nat) :=
  match fuel, remaining with
  | O, _ => []
  | S _, [] => [[]]
  | S fuel, _ => concat ((fun index => cons index <$> orders fuel (without index remaining)) <$> remaining)
  end.

Fixpoint order_nodes (fuel : nat) (remaining : list nat) : Z :=
  match fuel with
  | O => 0
  | S fuel =>
      1 + list_sum ((fun index => order_nodes fuel (without index remaining)) <$> remaining)
  end.

Lemma order_nodes_nonneg fuel remaining : 0 <= order_nodes fuel remaining.
Proof.
  revert remaining. induction fuel as [|fuel IH]; intros remaining; cbn; [done|].
  assert (Forall (fun x => 0 <= x) ((fun i => order_nodes fuel (without i remaining)) <$> remaining))
    as H%list_sum_nonneg; [|lia].
  apply Forall_fmap, Forall_true. intros i. apply IH.
Qed.

Lemma length_without index remaining :
  NoDup remaining -> index ∈ remaining ->
  S (length (without index remaining)) = length remaining.
Proof.
  induction 1 as [|x l Hx Hnd IH]; [by intros H%elem_of_nil|].
  unfold without in *. cbn. destruct (Nat.eqb_spec x index) as [->|Hne]; cbn.
  - intros _. f_equal. clear -Hx. induction l as [|y l IH]; [done|]. cbn.
    apply not_elem_of_cons in Hx as [? ?].
    rewrite (proj2 (Nat.eqb_neq y index)) by done. cbn. f_equal. auto.
  - intros [->|Hin]%elem_of_cons; [done|]. f_equal. auto.
Qed.

Lemma without_perm index remaining :
  NoDup remaining -> index ∈ remaining -> remaining ≡ₚ index :: without index remaining.
Proof.
  induction 1 as [|x l Hx Hnd IH]; [by intros H%elem_of_nil|].
  unfold without in *. cbn. destruct (Nat.eqb_spec x index) as [->|Hne]; cbn.
  - intros _. f_equiv. clear -Hx. induction l as [|y l IH]; [done|]. cbn.
    apply not_elem_of_cons in Hx as [? ?].
    rewrite (proj2 (Nat.eqb_neq y index)) by done. cbn. f_equiv. auto.
  - intros [->|Hin]%elem_of_cons; [done|]. rewrite Permutation_swap. f_equiv. auto.
Qed.

Lemma NoDup_without index remaining : NoDup remaining -> NoDup (without index remaining).
Proof.
  induction 1 as [|x l Hx Hnd IH]; cbn; [constructor|]. destruct (negb _); [|done].
  constructor; [|done]. intros Hin. apply Hx. unfold without in Hin.
  apply list_elem_of_In, filter_In in Hin as [? _]. by apply list_elem_of_In.
Qed.

(** The reference lists exactly the permutations. *)
Lemma elem_of_orders fuel remaining order :
  NoDup remaining -> (length remaining < fuel)%nat ->
  order ∈ orders fuel remaining <-> order ≡ₚ remaining.
Proof.
  revert remaining order. induction fuel as [|fuel IH]; intros remaining order Hnd Hl; [lia|].
  destruct remaining as [|r remaining]; cbn [orders].
  { rewrite list_elem_of_singleton. split; [by intros ->|]. intros H.
    by apply Permutation_nil_r in H. }
  rewrite elem_of_concat_map. set (all := r :: remaining) in *.
  assert (forall i, i ∈ all -> (length (without i all) < fuel)%nat) as Hlen.
  { intros i Hi. pose proof (length_without i all Hnd Hi). lia. }
  split.
  - intros (i & Hi & (o & -> & Ho)%list_elem_of_fmap).
    apply IH in Ho; [|by apply NoDup_without|by apply Hlen].
    rewrite Ho. symmetry. by apply without_perm.
  - intros Hp. destruct order as [|i o]; [by apply Permutation_nil_l in Hp|].
    assert (i ∈ all) as Hi by (rewrite <-Hp; by left).
    exists i. split; [done|]. apply list_elem_of_fmap. exists o. split; [done|].
    apply IH; [by apply NoDup_without|by apply Hlen|].
    apply (Permutation_cons_inv (a := i)). rewrite Hp. by apply without_perm.
Qed.

(** ** The search *)

(** The beginnings of an order of [n] allocations: distinct indices below [n]. *)
Definition order_prefix (n : nat) (prefix : list nat) : Prop :=
  NoDup prefix /\ Forall (fun i => (i < n)%nat) prefix.

#[export] Instance order_prefix_perm n : Proper ((≡ₚ) ==> iff) (order_prefix n).
Proof. intros p q Hp. unfold order_prefix. by rewrite Hp. Qed.

Lemma order_prefix_app n p q : order_prefix n (p ++ q) -> order_prefix n p.
Proof. intros [H [? _]%Forall_app]. apply NoDup_app in H as (? & _). done. Qed.

(** No two beginnings of orders of [n] allocations have one hash.  There are
    finitely many. *)
Definition hashes_apart `{HK : Keccak} (n : nat) : Prop :=
  forall p q, order_prefix n p -> order_prefix n q -> prefix_hash p = prefix_hash q -> p = q.

Section SearchProofs.
Context `{HK : Keccak} `{HA : AbiParams}.
Context (snapshot : ExactVaultSnapshot) (projection : ProjectedVaultView).
Context (config : ValidatedVaultConfig) (deallocations allocations : list V2Action).
Context (node_limit : Z) (Hlimit : node_limit <= U64_MAX).

Notation in_range := (order_prefix (length allocations)).
Context (Hinj : hashes_apart (length allocations)).

Definition order_entry (order : list nat) : option (list V2Action * SimulationState) :=
  ordered ← opt_map (fun index => allocations !! index) order;
  state ← to_option (simulate_actions snapshot projection config (deallocations ++ ordered));
  Some (deallocations ++ ordered, state).

(** No prefix below [prefix] was seen. *)
Definition fresh (prefix : list nat) (s : OrderSearch) : Prop :=
  forall suffix, in_range (prefix ++ suffix) -> prefix_hash (prefix ++ suffix) ∉ os_seen_prefixes s.

(** The effect of visiting a subtree of [nodes] nodes with the given leaves. *)
Record visited (prefix : list nat) (nodes : Z) (leaves : list (list nat)) (s s' : OrderSearch)
    : Prop := {
  vs_complete : os_complete s' = true <-> os_nodes s + nodes <= node_limit;
  vs_bound : os_nodes s' <= Z.max node_limit (os_nodes s);
  vs_nodes : os_nodes s + nodes <= node_limit -> os_nodes s' = os_nodes s + nodes;
  vs_feasible : os_nodes s + nodes <= node_limit ->
    os_feasible s' = os_feasible s ++ omap order_entry leaves;
  vs_seen : forall h, h ∈ os_seen_prefixes s' -> h ∈ os_seen_prefixes s \/
    exists suffix, in_range (prefix ++ suffix) /\ h = prefix_hash (prefix ++ suffix);
}.

Lemma visit_leaf_visited prefix s :
  in_range prefix -> os_complete s = true ->
  os_nodes s <= node_limit ->
  let s' := visit_leaf snapshot projection config deallocations allocations prefix s in
  os_complete s' = true /\ os_nodes s' = os_nodes s /\
  os_feasible s' = os_feasible s ++ omap order_entry [prefix] /\
  os_seen_prefixes s' = os_seen_prefixes s.
Proof.
  intros Hp Hc Hn. unfold visit_leaf, order_entry. cbn [omap list_omap].
  assert (is_Some (opt_map (fun index => allocations !! index) prefix)) as [ordered ->].
  { destruct Hp as [_ Hp]. clear -Hp. induction Hp as [|i l Hi _ [ys IH]]; cbn; [by eexists|].
    apply lookup_lt_is_Some in Hi as [y ->]. cbn. rewrite IH. by eexists. }
  cbn. destruct (simulate_actions _ _ _ _); cbn; rewrite ?app_nil_r; done.
Qed.

Lemma visit_choices_visited fuel prefix all choices s :
  (forall i s, i ∈ choices -> os_complete s = true -> os_nodes s <= node_limit ->
     fresh (prefix ++ [i]) s ->
     visited (prefix ++ [i]) (order_nodes fuel (without i all))
       ((prefix ++.) <$> (cons i <$> orders fuel (without i all))) s
       (visit snapshot projection config deallocations allocations node_limit fuel (prefix ++ [i])
          (without i all) s)) ->
  NoDup choices -> os_complete s = true -> os_nodes s <= node_limit ->
  (forall i suffix, i ∈ choices -> in_range (prefix ++ i :: suffix) ->
     prefix_hash (prefix ++ i :: suffix) ∉ os_seen_prefixes s) ->
  visited prefix (list_sum ((fun i => order_nodes fuel (without i all)) <$> choices))
    ((prefix ++.) <$> concat ((fun i => cons i <$> orders fuel (without i all)) <$> choices)) s
    (visit_choices (fun i => visit snapshot projection config deallocations allocations node_limit
       fuel (prefix ++ [i]) (without i all)) choices s).
Proof.
  intros Hv. revert s. induction choices as [|i choices IH]; intros s Hnd Hc Hn Hfresh.
  { split; cbn; rewrite ?Z.add_0_r, ?app_nil_r; auto; try done; lia. }
  apply NoDup_cons in Hnd as [Hi Hnd]. cbn [visit_choices].
  destruct (Hv i s) as [V1 V2 V3 V4 V5]; [by left|done|done| |].
  { intros suffix. rewrite <-app_assoc. apply Hfresh. by left. }
  set (s1 := visit _ _ _ _ _ _ _ _ _ _) in *.
  rewrite fmap_cons, list_sum_cons. cbn [concat fmap list_fmap].
  pose proof (order_nodes_nonneg fuel (without i all)).
  assert (0 <= list_sum ((fun i => order_nodes fuel (without i all)) <$> choices)) as Hpos.
  { apply list_sum_nonneg, Forall_fmap, Forall_true. intros. apply order_nodes_nonneg. }
  assert (forall h, h ∈ os_seen_prefixes s1 -> h ∈ os_seen_prefixes s \/
    exists suffix, in_range (prefix ++ i :: suffix) /\ h = prefix_hash (prefix ++ i :: suffix)) as V5'.
  { intros h [?|(x & Hx & ->)]%V5; [by left|right]. exists x. by rewrite <-app_assoc in *. }
  destruct (os_complete s1) eqn:E1.
  - pose proof (proj1 V1 eq_refl) as Hle. specialize (V3 Hle). specialize (V4 Hle).
    destruct (IH ltac:(intros; apply Hv; [by right|done..]) s1) as [W1 W2 W3 W4 W5];
      [done|done|lia| |].
    { intros j suffix Hj Hr Hs. apply V5' in Hs as [Hs|(x & Hx & Hs)].
      - eapply Hfresh; [by right|exact Hr|exact Hs].
      - apply Hinj, app_inv_head in Hs; [|done..]. injection Hs as -> _. done. }
    rewrite V3 in W1, W2, W3, W4. split.
    + rewrite W1. lia.
    + lia.
    + intros ?. rewrite W3; lia.
    + intros ?. rewrite W4, V4, fmap_app, omap_app, app_assoc by lia. done.
    + intros h [Hs|Hs]%W5; [|by right]. apply V5' in Hs as [?|(x & ? & ->)]; eauto.
  - assert (~ os_nodes s + order_nodes fuel (without i all) <= node_limit) as Hgt
      by (intros ?%V1; congruence).
    split; [split; [congruence|lia]|lia|lia|lia|].
    intros h [?|(x & ? & ->)]%V5'; eauto.
Qed.

Lemma visit_visited fuel prefix remaining s :
  (length remaining < fuel)%nat -> NoDup remaining ->
  in_range (prefix ++ remaining) ->
  os_complete s = true -> os_nodes s <= node_limit -> fresh prefix s ->
  visited prefix (order_nodes fuel remaining) ((prefix ++.) <$> orders fuel remaining) s
    (visit snapshot projection config deallocations allocations node_limit fuel prefix remaining s).
Proof.
  revert prefix remaining s. induction fuel as [|fuel IH];
    intros prefix remaining s Hl Hnd Hb Hc Hn Hfresh; [lia|].
  cbn [visit order_nodes]. set (children := list_sum _).
  assert (0 <= children) as Hpos.
  { apply list_sum_nonneg, Forall_fmap, Forall_true. intros. apply order_nodes_nonneg. }
  destruct (Z.leb_spec node_limit (os_nodes s)) as [Hge|Hlt].
  { split; cbn; [split; [done|lia]|lia|lia|lia|auto]. }
  assert (in_range prefix) as Hpre by (by eapply order_prefix_app).
  rewrite bool_decide_eq_false_2 by (cbn; specialize (Hfresh []); rewrite app_nil_r in Hfresh; auto).
  set (s1 := order_seen (order_count s) (prefix_hash prefix)).
  assert (os_nodes s1 = os_nodes s + 1) as Hn1.
  { cbn. rewrite saturating_add_spec. lia. }
  assert (forall h, h ∈ os_seen_prefixes s1 -> h ∈ os_seen_prefixes s \/
    exists suffix, in_range (prefix ++ suffix) /\ h = prefix_hash (prefix ++ suffix)) as Hseen.
  { intros h [->%elem_of_singleton|?]%elem_of_union; [|by left].
    right. exists []. by rewrite app_nil_r. }
  destruct remaining as [|r remaining].
  - cbn [orders] in *. change children with 0. rewrite app_nil_r in Hb.
    destruct (visit_leaf_visited prefix s1 Hb) as (L1 & L2 & L3 & L4); [done|lia|].
    cbn zeta in *. rewrite Hn1 in L2.
    split; rewrite ?L1, ?L2, ?L3, ?L4; [split; [lia|done]|lia|lia| |exact Hseen].
    intros _. cbn [fmap list_fmap]. by rewrite app_nil_r.
  - set (all := r :: remaining) in *. cbn [orders]. fold all.
    assert (visited prefix children
      ((prefix ++.) <$> concat ((fun i => cons i <$> orders fuel (without i all)) <$> all)) s1
      (visit_choices (fun i => visit snapshot projection config deallocations allocations node_limit
         fuel (prefix ++ [i]) (without i all)) all s1)) as [V1 V2 V3 V4 V5].
    { apply visit_choices_visited; [|done|done|lia|].
      - intros i s2 Hi Hc2 Hn2 Hf2.
        assert ((prefix ++.) <$> (cons i <$> orders fuel (without i all))
          = ((prefix ++ [i]) ++.) <$> orders fuel (without i all)) as ->.
        { rewrite <-list_fmap_compose. apply list_fmap_ext. intros k o _. cbn.
          by rewrite <-app_assoc. }
        pose proof (length_without i all Hnd Hi).
        apply IH; [lia|by apply NoDup_without| |done..].
        by rewrite <-app_assoc, <-(without_perm i all Hnd Hi).
      - intros i suffix Hi Hr [Hs%elem_of_singleton|Hs]%elem_of_union.
        + apply Hinj in Hs; [|done..]. apply (f_equal length) in Hs. rewrite length_app in Hs. cbn in Hs. lia.
        + by eapply Hfresh. }
    rewrite Hn1 in V1, V2, V3, V4.
    split; [rewrite V1; lia|lia|intros ?; rewrite V3; lia| |].
    + intros ?. rewrite V4 by lia. done.
    + intros h [Hs|?]%V5; [by apply Hseen|by right].
Qed.

End SearchProofs.

(** ** Orders and permutations *)

Lemma opt_map_perm {A B} (f : A -> option B) l l' ys :
  l ≡ₚ l' -> opt_map f l = Some ys -> exists ys', opt_map f l' = Some ys' /\ ys ≡ₚ ys'.
Proof.
  intros Hp. revert ys. induction Hp as [|x l l' _ IH|x y l|l l' l'' _ IH1 _ IH2]; intros ys H.
  - by exists ys.
  - cbn in *. apply bind_Some in H as (b & -> & H). apply bind_Some in H as (bs & Hbs & [= <-]).
    destruct (IH bs Hbs) as (ys' & -> & Hy). exists (b :: ys'). by rewrite Hy.
  - cbn in *. apply bind_Some in H as (b & -> & H). apply bind_Some in H as (bs & H & [= <-]).
    apply bind_Some in H as (c & -> & H). apply bind_Some in H as (cs & -> & [= <-]).
    exists (c :: b :: cs). split; [done|]. apply Permutation_swap.
  - destruct (IH1 ys H) as (ys1 & H1 & Hy1). destruct (IH2 ys1 H1) as (ys2 & H2 & Hy2).
    exists ys2. split; [done|]. by rewrite Hy1.
Qed.

Lemma opt_map_perm_inv {A B} (f : A -> option B) l ys ys' :
  ys ≡ₚ ys' -> opt_map f l = Some ys -> exists l', opt_map f l' = Some ys' /\ l ≡ₚ l'.
Proof.
  intros Hp. revert l. induction Hp as [|x l l' _ IH|x y l|l l' l'' _ IH1 _ IH2]; intros k H.
  - by exists k.
  - destruct k as [|a k]; cbn in H; [done|].
    apply bind_Some in H as (b & Hb & H). apply bind_Some in H as (bs & Hbs & [= -> ->]).
    destruct (IH k Hbs) as (k' & Hk & Hp). exists (a :: k'). cbn. rewrite Hb, Hk. by rewrite Hp.
  - destruct k as [|a k]; cbn in H; [done|].
    apply bind_Some in H as (b & Hb & H). apply bind_Some in H as (bs & H & [= -> ->]).
    destruct k as [|c k]; cbn in H; [done|].
    apply bind_Some in H as (d & Hd & H). apply bind_Some in H as (ds & Hds & [= -> ->]).
    exists (c :: a :: k). cbn. rewrite Hb, Hd, Hds. split; [done|]. apply Permutation_swap.
  - destruct (IH1 k H) as (k1 & H1 & Hk1). destruct (IH2 k1 H1) as (k2 & H2 & Hk2).
    exists k2. split; [done|]. by rewrite Hk1.
Qed.

Lemma opt_map_lookup_seq {A} (l : list A) :
  opt_map (fun index => l !! index) (seq 0 (length l)) = Some l.
Proof.
  assert (forall (k : nat) (l r : list A), opt_map (fun i => (r ++ l) !! i) (seq (length r) (length l))
    = Some l) as H; [|apply (H 0%nat l [])].
  intros _. clear l. induction l as [|x l IH]; intros r; [done|]. cbn [length seq opt_map].
  rewrite lookup_app_r, Nat.sub_diag by lia. cbn.
  specialize (IH (r ++ [x])). rewrite length_app, <-app_assoc, Nat.add_1_r in IH. cbn in IH.
  by rewrite IH.
Qed.

(** C20: The bounded order search is equivalent to trying every permutation,
    provided no two beginnings of orders, which it remembers by their hashes,
    have the same hash. It fails exactly on a misplaced kind of action.
    Otherwise it never exceeds its node limit, it is complete exactly when the
    whole search tree fits the limit, and a complete search returns precisely
    the plans made of the canonical deallocations followed by a permutation of
    the allocations that the simulator accepts, with their final states. *)
Theorem allocation_orders_exact `{HK : Keccak} `{HA : AbiParams}
    (snapshot : ExactVaultSnapshot) (projection : ProjectedVaultView)
    (config : ValidatedVaultConfig) (deallocations allocations : list V2Action) (node_limit : Z) :
  u64 node_limit -> hashes_apart (length allocations) ->
  match search_allocation_orders snapshot projection config deallocations allocations node_limit with
  | Err e => e = InvalidAction /\
      (Exists (fun a => is_allocation a = true) deallocations \/
       Exists (fun a => is_allocation a = false) allocations)
  | Ok r =>
      Forall (fun a => is_allocation a = false) deallocations /\
      Forall (fun a => is_allocation a = true) allocations /\
      ao_nodes_evaluated r <= node_limit /\
      (ao_complete r = true <->
         order_nodes (S (length allocations)) (seq 0 (length allocations)) <= node_limit) /\
      (ao_complete r = true -> forall acts state, (acts, state) ∈ ao_feasible r <->
         exists ordered, ordered ≡ₚ allocations /\
           acts = sort_by_key (action_key snapshot) deallocations ++ ordered /\
           simulate_actions snapshot projection config acts = Ok state)
  end.
Proof.
  intros [Hl0 Hl] Hinj. unfold search_allocation_orders.
  pose proof (sort_by_key_perm (action_key snapshot) deallocations) as Hd.
  pose proof (sort_by_key_perm (action_key snapshot) allocations) as Ha.
  set (ds := sort_by_key _ deallocations) in *. set (als := sort_by_key _ allocations) in *.
  assert (forall f (l : list V2Action), existsb f l = true -> Exists (fun a => f a = true) l) as Hex.
  { intros f l (a & Hin%list_elem_of_In & Hf)%existsb_exists. apply Exists_exists. eauto. }
  destruct (existsb is_allocation ds) eqn:E1.
  { split; [done|]. left. apply Hex in E1. by rewrite Hd in E1. }
  destruct (existsb _ als) eqn:E2.
  { split; [done|]. right. apply Hex in E2. rewrite Ha in E2.
    eapply Exists_impl; [exact E2|]. by intros a ?%negb_true_iff. }
  assert (forall f (l : list V2Action), existsb f l = false -> Forall (fun a => f a = false) l) as Hall.
  { intros f l Hf. apply Forall_forall. intros a Hin%list_elem_of_In.
    destruct (f a) eqn:E; [|done]. rewrite <-Hf. symmetry. apply existsb_exists. eauto. }
  apply Hall in E1, E2. rewrite Hd in E1. rewrite Ha in E2.
  split; [done|]. split; [eapply Forall_impl; [exact E2|]; by intros a ?%negb_false_iff|].
  assert (length als = length allocations) as Hlen by (by rewrite Ha). rewrite <-Hlen.
  rewrite <-Hlen in Hinj.
  destruct (visit_visited snapshot projection config ds als node_limit Hl Hinj (S (length als)) []
    (seq 0 (length als)) (mkOrderSearch 0 true ∅ [])) as [V1 V2 _ V4 _];
    [rewrite length_seq; lia|apply NoDup_seq| |done|cbn; lia|intros suffix Hs; set_solver|].
  { split; [apply NoDup_seq|]. apply Forall_forall. intros i Hi%elem_of_seq. lia. }
  cbn [ao_nodes_evaluated ao_complete ao_feasible os_nodes] in *.
  split; [lia|]. split; [by rewrite V1|]. intros Hc%V1 acts state. rewrite (V4 Hc). cbn [os_feasible].
  rewrite app_nil_l, list_elem_of_omap. unfold order_entry. split.
  - intros (o & (o' & -> & Ho)%list_elem_of_fmap & H).
    apply elem_of_orders in Ho; [|apply NoDup_seq|rewrite length_seq; lia].
    apply bind_Some in H as (ordered & Hor & H). apply bind_Some in H as (st & Hst & [= <- <-]).
    apply to_option_Some in Hst. exists ordered. split_and!; [|done|done].
    destruct (opt_map_perm _ _ _ _ Ho Hor) as (ys & Hys & ->).
    rewrite opt_map_lookup_seq in Hys. injection Hys as <-. exact Ha.
  - intros (ordered & Hp & -> & Hsim).
    assert (als ≡ₚ ordered) as Hp' by (by rewrite Ha, Hp).
    destruct (opt_map_perm_inv _ _ _ _ Hp' (opt_map_lookup_seq als)) as (o & Hor & Ho).
    exists o. split.
    + apply list_elem_of_fmap. exists o. split; [done|].
      apply elem_of_orders; [apply NoDup_seq|rewrite length_seq; lia|done].
    + rewrite Hor. cbn. rewrite Hsim. done.
Qed.

(** ** The example vault *)

Module OrderExample.
Import SimulatorProofs.Example.

Definition allocations : list V2Action :=
  [Allocate 22 31 [1; 9; 3; 4; 5] 100; Allocate 21 31 [1; 2; 3; 4; 5] 50].
#[local] Instance short_keccak : Keccak := fun b => sum_keccak b mod 2 ^ 256.
Definition searched (node_limit : Z) : result SimulationError AllocationOrderResult :=
  @search_allocation_orders short_keccak word_abi snapshot view config [] allocations node_limit.

(** Five nodes: the root, two first choices, two leaves. *)
Example two_orders :
  match searched 5 with
  | Ok r => List.map (fun e => List.map action_position (fst e)) (ao_feasible r) = [[21; 22]; [22; 21]] /\
      ao_nodes_evaluated r = 5 /\ ao_complete r = true
  | Err _ => False
  end /\
  match searched 4 with Ok r => ao_complete r = false | Err _ => False end.
Proof. vm_compute. repeat split. Qed.

(** The hash is a 256-bit number, and tells the five prefixes apart. *)
Lemma short_keccak_apart : @hashes_apart short_keccak 2.
Proof.
  assert (forall p, order_prefix 2 p -> p ∈ [[]; [0]; [1]; [0; 1]; [1; 0]]%nat) as Hp.
  { intros p Hp. assert (length p <= 2)%nat as Hl.
    { rewrite <-(length_seq 2 0). apply submseteq_length, NoDup_submseteq; [apply Hp|].
      destruct Hp as [_ Hp]. rewrite Forall_forall in Hp. intros i Hi. apply elem_of_seq.
      specialize (Hp i Hi). lia. }
    destruct Hp as [Hn Hf]. rewrite !elem_of_cons.
    destruct p as [|[|[|i]] [|[|[|j]] [|k p]]]; cbn in Hl; try lia; try naive_solver;
      rewrite ?NoDup_cons, ?Forall_cons, ?elem_of_cons in *; naive_solver lia. }
  assert (let l := [[]; [0]; [1]; [0; 1]; [1; 0]]%nat in
    Forall (fun p => Forall (fun q => @prefix_hash short_keccak p = @prefix_hash short_keccak q -> p = q) l) l)
    as H by (repeat constructor; vm_compute; first [discriminate|reflexivity]).
  intros p q Hpp Hq. rewrite Forall_forall in H. specialize (H p (Hp p Hpp)).
  rewrite Forall_forall in H. by apply H, Hp.
Qed.

Lemma allocation_orders_exact_witness :
  match searched 5 with
  | Ok r => ao_nodes_evaluated r <= 5 /\ ao_complete r = true
  | Err _ => False
  end.
Proof.
  assert (is_ok (searched 5) = true) as Hok by (vm_compute; reflexivity).
  pose proof (@allocation_orders_exact short_keccak word_abi snapshot view config [] allocations 5)
    as H. fold (searched 5) in H.
  destruct (searched 5) as [r|e]; [|discriminate Hok].
  destruct H as (_ & _ & Hn & Hc & _); [split; [lia|vm_compute; discriminate]|exact short_keccak_apart|].
  split; [exact Hn|]. apply Hc. vm_compute. discriminate.
Defined.

End OrderExample.
