(* ===== verification/Maintenance.v ===== *)
(** * Liquidity maintenance

    Models the solver of [src/src/planner/liquidity.rs]: the sources and
    destinations of a service-restoring movement and the bounded search of
    [solve_liquidity_maintenance].  Its two nested loops over distributions
    are one loop over their pairs in the same order. *)
From Stdlib Require Import ZArith Lia List Bool String.
From stdpp Require Import base list gmap sets sorting strings.
From S2P Require Import Prelude.
From S2P Require Import BlueMath.
From S2P Require Import Domain.
From S2P Require Import Config.
From S2P Require Import Projection.
From S2P Require Import Simulator.
From S2P Require Import SimulatorProofs.
From S2P Require Import Firewall.
From S2P Require Import Candidates.
From S2P Require Import Objective.
From S2P Require Import Capital.
Open Scope Z_scope.

Record LiquiditySolveResult : Type := mkLiquiditySolveResult {
  lr_actions : list V2Action;
  lr_state : option SimulationState;
  lr_certificate : SearchCertificate;
}.

Definition liquidity_empty_result (certificate : SearchCertificate) : LiquiditySolveResult :=
  mkLiquiditySolveResult [] None certificate.

Record MaintenanceEndpoint : Type := mkMaintenanceEndpoint {
  me_position : PositionKey;
  me_adapter : AdapterAddress;
  me_data : Bytes;
  me_allocation_maximum : Z;
  me_deallocation_maximum : Z;
  me_active_destination : bool;
}.

Definition endpoint_allocate (e : MaintenanceEndpoint) (assets : Z) : V2Action :=
  Allocate (me_position e) (me_adapter e) (me_data e) assets.
Definition endpoint_deallocate (e : MaintenanceEndpoint) (assets : Z) : V2Action :=
  Deallocate (me_position e) (me_adapter e) (me_data e) assets.

(** A source: idle assets ([None]) or an endpoint, with its maximum. *)
Definition Source : Type := option MaintenanceEndpoint * Z.

(** Why there is no search: the service holds or nothing can move, or an input
    is missing. *)
Inductive EarlyExit : Type := NothingToDo | Unsearchable.

Record MaintenanceInputs : Type := mkMaintenanceInputs {
  mi_sources : list Source;
  mi_destinations : list MaintenanceEndpoint;
  mi_maximum : Z;
  mi_movement_boundaries : list Z;
  mi_destination_boundaries : list (list Z);
}.

Section Solve.
Context `{HK : Keccak} `{HA : AbiParams}.
Context (snapshot : ExactVaultSnapshot) (projection : ProjectedVaultView).
Context (vault : ValidatedVaultConfig) (solver : SolverConfigCanonical) (maximum_actions : Z).

(** ** The inputs of the search *)

Definition direct_endpoint (position : ValidatedPositionConfig) : option MaintenanceEndpoint :=
  current ← pj_position_expected_assets (pw_vault projection) !! pc_position_key position;
  Some (mkMaintenanceEndpoint (pc_position_key position) (pc_adapter position)
    (encode_adapter_data (pc_market_params position))
    (Z.min (saturating_sub (pc_maximum_position_assets position) current)
       (pc_maximum_action_assets position))
    (Z.min (saturating_sub current (pc_minimum_position_assets position))
       (pc_maximum_action_assets position))
    (bool_decide (pc_mode position = Active))).

Definition liquidity_endpoint (direct : list MaintenanceEndpoint) : option MaintenanceEndpoint :=
  match vv_liquidity_adapter vault, ev_liquidity_adapter snapshot with
  | Some configured, Some current =>
      Some (mkMaintenanceEndpoint (lac_position_key configured) (lac_address configured) []
        (Z.min (lac_maximum_action_assets configured) (la_max_deposit current))
        (Z.min (Z.min (saturating_sub (la_real_assets current)
                         (vv_minimum_liquidity_adapter_assets vault))
                  (la_max_withdraw current)) (lac_maximum_action_assets configured))
        false)
  | _, _ =>
      List.find (fun e => (me_adapter e =? pv_liquidity_adapter (ev_parent snapshot))
                          && bool_decide (me_data e = pv_liquidity_data (ev_parent snapshot))) direct
  end.

Definition maintenance_sources (idle : Z) (direct : list MaintenanceEndpoint)
    (liquidity : MaintenanceEndpoint) : list Source :=
  (if negb (idle =? 0) then [(None, idle)] else [])
  ++ ((fun e => (Some e, me_deallocation_maximum e))
      <$> List.filter (fun e => negb (me_deallocation_maximum e =? 0)) direct)
  ++ (if negb (me_deallocation_maximum liquidity =? 0)
         && negb (existsb (fun e => me_position e =? me_position liquidity) direct)
      then [(Some liquidity, me_deallocation_maximum liquidity)] else []).

Definition maintenance_destinations (direct : list MaintenanceEndpoint)
    (liquidity : MaintenanceEndpoint) : list MaintenanceEndpoint :=
  List.filter (fun e => negb (me_allocation_maximum e =? 0))
    (liquidity :: List.filter (fun e => me_active_destination e
        && negb (me_position e =? me_position liquidity)
        && negb (me_allocation_maximum e =? 0)) direct).

(** The exact cap boundaries of one destination. *)
Definition destination_boundary (liquidity destination : MaintenanceEndpoint) : option (list Z) :=
  if me_position destination =? me_position liquidity
  then Some (match (state ← ev_liquidity_adapter snapshot;
                    projected_cap_headroom snapshot projection
                      (mkCapRef (vv_address vault) (la_adapter_id state))) with
             | Some boundary => [boundary]
             | None => []
             end)
  else allocation_cap_boundaries snapshot projection (me_position destination).

(** What each service value lacks. *)
Definition service_deficits (liquidity_assets : Z) : list Z :=
  [saturating_sub (vv_minimum_deposit_headroom_assets vault)
     (pj_max_executable_deposit_assets (pw_vault projection));
   saturating_sub (vv_minimum_atomic_exit_coverage_assets vault)
     (pj_atomic_exit_coverage_assets (pw_vault projection));
   saturating_sub (vv_minimum_liquidity_adapter_assets vault) liquidity_assets].

Definition maintenance_inputs : result EarlyExit MaintenanceInputs :=
  base ← map_err (fun _ => Unsearchable) (from_projection snapshot projection);
  if is_ok (validate_service_constraints base snapshot vault) then Err NothingToDo
  else
    idle ← map_err (fun _ => Unsearchable) (unreserved_idle base);
    direct ← ok_or (opt_map direct_endpoint (vv_positions vault)) Unsearchable;
    liquidity ← ok_or (liquidity_endpoint direct) Unsearchable;
    liquidity_assets ← ok_or (position_expected_assets base (me_position liquidity)) Unsearchable;
    let sources := maintenance_sources idle direct liquidity in
    let destinations := maintenance_destinations direct liquidity in
    if bool_decide (sources = []) || bool_decide (destinations = []) || (maximum_actions =? 0)
    then Err NothingToDo
    else
      source_total ← ok_or (opt_fold (fun total s => checked_add U256_MAX total s.2) 0 sources)
                       Unsearchable;
      destination_total ← ok_or (opt_fold (fun total e =>
          checked_add U256_MAX total (me_allocation_maximum e)) 0 destinations) Unsearchable;
      let maximum := Z.min source_total destination_total in
      if maximum <? vv_minimum_action_assets vault then Err NothingToDo
      else
        boundaries ← ok_or (opt_map (destination_boundary liquidity) destinations) Unsearchable;
        Ok (mkMaintenanceInputs sources destinations maximum
              (service_deficits liquidity_assets
               ++ [idle; source_total; destination_total; maximum] ++ concat boundaries)
              boundaries).

Definition movement_lattice (inputs : MaintenanceInputs) : CandidateLattice :=
  build_candidate_lattice (vv_minimum_action_assets vault) (mi_maximum inputs)
    (mi_movement_boundaries inputs) (so_maximum_amount_candidates_per_position solver).

Definition source_lattices (inputs : MaintenanceInputs) : list CandidateLattice :=
  (fun s => build_candidate_lattice (vv_minimum_action_assets vault) (snd s)
              (mi_movement_boundaries inputs) (so_maximum_amount_candidates_per_position solver))
  <$> mi_sources inputs.

Definition maintenance_destination_lattices (inputs : MaintenanceInputs) : list CandidateLattice :=
  (fun '(e, boundaries) =>
     build_candidate_lattice (vv_minimum_action_assets vault) (me_allocation_maximum e)
       (mi_movement_boundaries inputs ++ boundaries)
       (so_maximum_amount_candidates_per_position solver))
  <$> zip (mi_destinations inputs) (mi_destination_boundaries inputs).

Definition maintenance_lattice_hash (inputs : MaintenanceInputs) : B256 :=
  keccak256 (concat ((fun l => be_bytes 32 (cl_hash l))
    <$> movement_lattice inputs :: source_lattices inputs
        ++ maintenance_destination_lattices inputs)).

(** The amounts tried, smallest first. *)
Definition maintenance_amounts (inputs : MaintenanceInputs) : list Z :=
  List.filter (fun amount => vv_minimum_action_assets vault <=? amount)
    (cl_amounts (movement_lattice inputs)).

Definition source_distributions (inputs : MaintenanceInputs) (amount limit : Z)
    : option (list (list Z)) :=
  bounded_distributions (snd <$> mi_sources inputs) (cl_amounts <$> source_lattices inputs) amount
    (vv_minimum_action_assets vault) (Z.min limit (so_maximum_source_sets solver)).

Definition destination_distributions (inputs : MaintenanceInputs) (amount limit : Z)
    : option (list (list Z)) :=
  bounded_distributions (me_allocation_maximum <$> mi_destinations inputs)
    (cl_amounts <$> maintenance_destination_lattices inputs) amount
    (vv_minimum_action_assets vault) (Z.min limit (so_maximum_destination_sets solver)).

(** ** One candidate *)

(** A position that both gives and receives. *)
Definition overlapping_position (inputs : MaintenanceInputs) (source_amounts
    destination_amounts : list Z) : bool :=
  existsb (fun p : Source * Z =>
    let '((source, _), source_amount) := p in
    negb (source_amount =? 0)
    && match source with
       | None => false
       | Some source =>
           existsb (fun q : MaintenanceEndpoint * Z =>
             negb (snd q =? 0) && (me_position (fst q) =? me_position source))
             (zip (mi_destinations inputs) destination_amounts)
       end) (zip (mi_sources inputs) source_amounts).

Definition source_action (p : Source * Z) : option V2Action :=
  let '((source, _), amount) := p in
  if negb (amount =? 0) then (fun e => endpoint_deallocate e amount) <$> source else None.

Definition maintenance_deallocations (inputs : MaintenanceInputs) (source_amounts : list Z)
    : list V2Action :=
  concat (option_list <$> (source_action <$> zip (mi_sources inputs) source_amounts)).

Definition maintenance_allocations (inputs : MaintenanceInputs) (destination_amounts : list Z)
    : list V2Action :=
  (fun q : MaintenanceEndpoint * Z => endpoint_allocate (fst q) (snd q))
  <$> List.filter (fun q => negb (snd q =? 0)) (zip (mi_destinations inputs) destination_amounts).

Definition evaluate_maintenance (inputs : MaintenanceInputs)
    (source_amounts destination_amounts : list Z)
    : result RejectionReason (list V2Action * SimulationState) :=
  if overlapping_position inputs source_amounts destination_amounts then Err RejectSimulation
  else
    let actions := maintenance_deallocations inputs source_amounts
                   ++ maintenance_allocations inputs destination_amounts in
    if bool_decide (actions = []) || (maximum_actions <? Z.of_nat (length actions))
    then Err RejectService
    else
      state ← map_err (fun _ => RejectSimulation)
        (simulate_actions snapshot projection vault actions);
      if vv_maximum_immediate_rebalance_loss_assets vault <? ss_immediate_loss_assets state
      then Err RejectImmediateLoss
      else
        _ ← map_err (fun _ => RejectService) (validate_service_constraints state snapshot vault);
        Ok (actions, state).

(** ** The search *)

Definition MaintenanceBest : Type := Z * list V2Action * SimulationState.

(** The certificate, the [evaluated] counter and the best candidate. *)
Record MaintenanceSearch : Type := mkMaintenanceSearch {
  ms_certificate : SearchCertificate;
  ms_evaluated : Z;
  ms_best : option MaintenanceBest;
}.

Definition maintenance_key (b : MaintenanceBest) : list Z :=
  let '(amount, actions, _) := b in [amount; Z.of_nat (length actions)].

Definition maintenance_improves (candidate : MaintenanceBest) (best : option MaintenanceBest)
    : bool :=
  match best with
  | None => true
  | Some current => lex_lt (maintenance_key candidate) (maintenance_key current)
  end.

Definition maintenance_step (inputs : MaintenanceInputs) (amount : Z) (s : MaintenanceSearch)
    (chosen : list Z * list Z) : MaintenanceSearch :=
  let evaluated := saturating_add U64_MAX (ms_evaluated s) 1 in
  match evaluate_maintenance inputs (fst chosen) (snd chosen) with
  | Err reason => mkMaintenanceSearch (reject (ms_certificate s) reason) evaluated (ms_best s)
  | Ok (actions, state) =>
      mkMaintenanceSearch (ms_certificate s) evaluated
        (if maintenance_improves (amount, actions, state) (ms_best s)
         then Some (amount, actions, state) else ms_best s)
  end.

(** The pairs of one amount; the flag is [break 'search]. *)
Fixpoint maintenance_pairs (inputs : MaintenanceInputs) (amount : Z) (s : MaintenanceSearch)
    (pairs : list (list Z * list Z)) : bool * MaintenanceSearch :=
  match pairs with
  | [] => (false, s)
  | chosen :: pairs =>
      if so_maximum_nodes solver <=? ms_evaluated s
      then (true, mkMaintenanceSearch (mark_incomplete (ms_certificate s)) (ms_evaluated s)
                    (ms_best s))
      else maintenance_pairs inputs amount (maintenance_step inputs amount s chosen) pairs
  end.

Definition distribution_pairs (sources destinations : list (list Z)) : list (list Z * list Z) :=
  concat ((fun s => (fun d => (s, d)) <$> destinations) <$> sources).

(** Whether an amount is skipped, being larger than the best movement. *)
Definition beaten_amount (best : option MaintenanceBest) (amount : Z) : bool :=
  match best with
  | Some (movement, _, _) => movement <? amount
  | None => false
  end.

Fixpoint maintenance_search (inputs : MaintenanceInputs) (s : MaintenanceSearch)
    (amounts : list Z) : MaintenanceSearch :=
  match amounts with
  | [] => s
  | amount :: amounts =>
      if beaten_amount (ms_best s) amount then maintenance_search inputs s amounts
      else
        let limit := saturating_sub (so_maximum_nodes solver) (ms_evaluated s) in
        let incomplete := mkMaintenanceSearch (mark_incomplete (ms_certificate s)) (ms_evaluated s)
                            (ms_best s) in
        match source_distributions inputs amount limit with
        | None => incomplete
        | Some sources =>
            match destination_distributions inputs amount limit with
            | None => incomplete
            | Some destinations =>
                let '(stopped, s) :=
                  maintenance_pairs inputs amount s (distribution_pairs sources destinations) in
                if stopped then s else maintenance_search inputs s amounts
            end
        end
  end.

Definition solve_liquidity_maintenance : LiquiditySolveResult :=
  match maintenance_inputs with
  | Err Unsearchable =>
      liquidity_empty_result (initial_certificate (so_maximum_nodes solver) false)
  | Err NothingToDo =>
      liquidity_empty_result
        (with_lattice_hash (initial_certificate (so_maximum_nodes solver) true) (keccak256 []))
  | Ok inputs =>
      let s := maintenance_search inputs
                 (mkMaintenanceSearch (initial_certificate (so_maximum_nodes solver) true) 0 None)
                 (maintenance_amounts inputs) in
      let certificate :=
        mkSearchCertificate (maintenance_lattice_hash inputs) (ms_evaluated s)
          (se_node_limit (ms_certificate s)) (se_search_complete (ms_certificate s))
          (se_rejection_counts (ms_certificate s)) in
      match ms_best s with
      | Some (_, actions, state) => mkLiquiditySolveResult actions (Some state) certificate
      | None => liquidity_empty_result certificate
      end
  end.

(** ** The inputs *)

(** Machine amounts are not negative; the minimum action is positive. *)
Record maintenance_wf : Prop := {
  mw_minimum : 0 < vv_minimum_action_assets vault;
  mw_actions : Forall (fun p => 0 <= pc_maximum_action_assets p) (vv_positions vault);
  mw_liquidity : forall l, vv_liquidity_adapter vault = Some l -> 0 <= lac_maximum_action_assets l;
  mw_state : forall s, ev_liquidity_adapter snapshot = Some s ->
    0 <= la_max_deposit s /\ 0 <= la_max_withdraw s;
  mw_limit : so_maximum_amount_candidates_per_position solver <= USIZE_MAX;
}.

Definition endpoint_nonneg (e : MaintenanceEndpoint) : Prop :=
  0 <= me_allocation_maximum e /\ 0 <= me_deallocation_maximum e.

Record inputs_nonneg (inputs : MaintenanceInputs) : Prop := {
  in_sources : Forall (fun s : Source => 0 <= snd s) (mi_sources inputs);
  in_destinations : Forall (fun e => 0 <= me_allocation_maximum e) (mi_destinations inputs);
  in_maximum : u256 (mi_maximum inputs);
  in_boundaries : Forall (fun b => 0 <= b) (mi_movement_boundaries inputs);
  in_destination_boundaries :
    Forall (Forall (fun b => 0 <= b)) (mi_destination_boundaries inputs);
  in_lengths : length (mi_destination_boundaries inputs) = length (mi_destinations inputs);
}.

Lemma headroom_nonneg reference h :
  projected_cap_headroom snapshot projection reference = Some h -> 0 <= h.
Proof.
  unfold projected_cap_headroom. intros H. apply bind_Some in H as (cap & _ & H).
  destruct (_ || _); [by injection H as <-|]. cbv zeta in H.
  do 4 (apply bind_Some in H as (? & _ & H)). injection H as <-. apply saturating_sub_nonneg.
Qed.

Lemma direct_endpoint_nonneg direct :
  maintenance_wf -> opt_map direct_endpoint (vv_positions vault) = Some direct ->
  Forall endpoint_nonneg direct.
Proof.
  intros [_ Ha _ _ _] H. apply (opt_map_Forall _ endpoint_nonneg _ _ H).
  intros p e Hp He. unfold direct_endpoint in He. apply bind_Some in He as (cur & _ & [= <-]).
  rewrite Forall_forall in Ha. specialize (Ha p Hp). unfold endpoint_nonneg. cbn.
  pose proof (saturating_sub_nonneg (pc_maximum_position_assets p) cur).
  pose proof (saturating_sub_nonneg cur (pc_minimum_position_assets p)). lia.
Qed.

Lemma liquidity_endpoint_nonneg direct e :
  maintenance_wf -> Forall endpoint_nonneg direct -> liquidity_endpoint direct = Some e ->
  endpoint_nonneg e.
Proof.
  intros Hwf Hd H. unfold liquidity_endpoint in H.
  assert (List.find (fun e => (me_adapter e =? pv_liquidity_adapter (ev_parent snapshot))
    && bool_decide (me_data e = pv_liquidity_data (ev_parent snapshot))) direct = Some e ->
    endpoint_nonneg e) as Hf.
  { intros [Hin%list_elem_of_In _]%List.find_some. rewrite Forall_forall in Hd. by apply Hd. }
  destruct (vv_liquidity_adapter vault) as [l|] eqn:El; [|auto].
  destruct (ev_liquidity_adapter snapshot) as [s|] eqn:Es; [|auto]. injection H as <-.
  pose proof (mw_liquidity Hwf l El). destruct (mw_state Hwf s Es).
  pose proof (saturating_sub_nonneg (la_real_assets s) (vv_minimum_liquidity_adapter_assets vault)).
  unfold endpoint_nonneg. cbn. lia.
Qed.

Lemma sources_nonneg idle direct liquidity :
  0 <= idle -> Forall endpoint_nonneg direct -> endpoint_nonneg liquidity ->
  Forall (fun s : Source => 0 <= snd s) (maintenance_sources idle direct liquidity).
Proof.
  intros Hi Hd [_ Hl]. unfold maintenance_sources. rewrite !Forall_app, Forall_fmap.
  split_and!; [by case_match; constructor| |by case_match; constructor].
  apply Forall_filter. eapply Forall_impl; [exact Hd|]. by intros e [_ ?].
Qed.

Lemma destinations_nonneg direct liquidity :
  Forall endpoint_nonneg direct -> endpoint_nonneg liquidity ->
  Forall (fun e => 0 <= me_allocation_maximum e) (maintenance_destinations direct liquidity).
Proof.
  intros Hd [Hl _]. unfold maintenance_destinations. apply Forall_filter. constructor; [done|].
  apply Forall_filter. eapply Forall_impl; [exact Hd|]. by intros e [? _].
Qed.

Lemma maintenance_inputs_nonneg inputs :
  maintenance_wf -> maintenance_inputs = Ok inputs -> inputs_nonneg inputs.
Proof.
  intros Hwf H. unfold maintenance_inputs in H. step_ok H as base Hbase. destruct (is_ok _); [done|].
  step_ok H as idle (-> & Hidle)%map_err_Ok%ok_or_Ok%checked_sub_Some.
  step_ok H as direct Hdirect%ok_or_Ok. step_ok H as liq Hliq%ok_or_Ok. step_ok H as la _.
  cbv zeta in H. destruct (_ || _); [done|]. step_ok H as st Hst%ok_or_Ok.
  step_ok H as dt Hdt%ok_or_Ok. destruct (_ <? _); [done|]. step_ok H as bs Hbs%ok_or_Ok.
  injection H as <-. apply (direct_endpoint_nonneg _ Hwf) in Hdirect.
  apply (liquidity_endpoint_nonneg _ _ Hwf Hdirect) in Hliq.
  assert (0 <= ss_vault_idle base - ss_locked_idle base) as Hi by lia.
  pose proof (sources_nonneg _ _ _ Hi Hdirect Hliq) as Hs.
  pose proof (destinations_nonneg _ _ Hdirect Hliq) as Hd.
  apply (opt_sum_Some (fun s : Source => snd s)) in Hst; [|done|exact Hs].
  apply (opt_sum_Some me_allocation_maximum) in Hdt; [|done|exact Hd].
  apply (opt_map_Forall _ (Forall (fun b => 0 <= b))) in Hbs as [Hb Hlen].
  - split; cbn [mi_sources mi_destinations mi_maximum mi_movement_boundaries
      mi_destination_boundaries]; try done; [unfold in_u; lia|].
    assert (Forall (fun b => 0 <= b) (concat bs)) as Hc by (by apply Forall_concat).
    repeat (constructor; [first [apply saturating_sub_nonneg|lia]|]). exact Hc.
  - intros e ys _ He. unfold destination_boundary in He. destruct (_ =? _).
    + injection He as <-. destruct (_ ≫= _) as [h|] eqn:Eh; [|constructor].
      apply bind_Some in Eh as (s & _ & Eh). constructor; [|done]. by apply headroom_nonneg in Eh.
    + unfold allocation_cap_boundaries in He. apply bind_Some in He as (p & _ & He).
      apply (opt_map_Forall _ (fun b => 0 <= b)) in He as [? _]; [done|].
      intros r h _ Hh. by apply headroom_nonneg in Hh.
Qed.

(** ** The search *)

Definition unbeaten (c : MaintenanceBest) (best : option MaintenanceBest) : Prop :=
  exists b, best = Some b /\ lex_lt (maintenance_key c) (maintenance_key b) = false.

Lemma unbeaten_refl c : unbeaten c (Some c).
Proof. exists c. split; [done|]. apply lex_lt_irrefl. Qed.

Lemma unbeaten_trans c b best :
  lex_lt (maintenance_key c) (maintenance_key b) = false -> unbeaten b best -> unbeaten c best.
Proof. intros H1 (b' & -> & H2). exists b'. split; [done|]. by eapply lex_lt_not_trans. Qed.

(** A pair of distributions of the amount that passes every check. *)
Definition passes (inputs : MaintenanceInputs) (amount : Z) (pairs : list (list Z * list Z))
    (c : MaintenanceBest) : Prop :=
  c.1.1 = amount /\ exists chosen, chosen ∈ pairs /\
    evaluate_maintenance inputs chosen.1 chosen.2 = Ok (c.1.2, c.2).

(** What the search does to its state, with [C] the candidates it may adopt. *)
Record search_advances (C : MaintenanceBest -> Prop) (s s' : MaintenanceSearch) : Prop := {
  sa_limit : se_node_limit (ms_certificate s') = se_node_limit (ms_certificate s);
  sa_evaluated : ms_evaluated s <= so_maximum_nodes solver ->
    ms_evaluated s' <= so_maximum_nodes solver;
  sa_complete : se_search_complete (ms_certificate s') = true ->
    se_search_complete (ms_certificate s) = true;
  sa_best : ms_best s' = ms_best s \/ exists c, ms_best s' = Some c /\ C c;
  sa_kept : forall b, ms_best s = Some b -> unbeaten b (ms_best s');
}.

Lemma search_advances_refl C s : search_advances C s s.
Proof. split; auto. intros b ->. apply unbeaten_refl. Qed.

Lemma search_advances_trans (C1 C2 C : MaintenanceBest -> Prop) s1 s2 s3 :
  (forall c, C1 c -> C c) -> (forall c, C2 c -> C c) ->
  search_advances C1 s1 s2 -> search_advances C2 s2 s3 -> search_advances C s1 s3.
Proof.
  intros Hc1 Hc2 [A1 A2 A3 A4 A5] [B1 B2 B3 B4 B5]. split; [congruence|auto|auto| |].
  - destruct B4 as [Hb|(c & Hb & Hc)]; [rewrite Hb|right; eauto].
    destruct A4 as [?|(c & ? & ?)]; [by left|right; eauto].
  - intros b Hb. destruct (A5 b Hb) as (b' & Hb' & H). eapply unbeaten_trans; eauto.
Qed.

Lemma search_advances_incomplete C s :
  search_advances C s
    (mkMaintenanceSearch (mark_incomplete (ms_certificate s)) (ms_evaluated s) (ms_best s)).
Proof. split; cbn; auto; [done|]. intros b ->. apply unbeaten_refl. Qed.

Lemma maintenance_step_advances inputs amount s chosen :
  ms_evaluated s < so_maximum_nodes solver ->
  let s' := maintenance_step inputs amount s chosen in
  search_advances (passes inputs amount [chosen]) s s' /\
  forall c, passes inputs amount [chosen] c -> unbeaten c (ms_best s').
Proof.
  intros Hn. unfold maintenance_step, passes.
  assert (saturating_add U64_MAX (ms_evaluated s) 1 <= so_maximum_nodes solver) as Hn'
    by (rewrite saturating_add_spec; lia).
  destruct (evaluate_maintenance inputs chosen.1 chosen.2) as [[acts st]|reason] eqn:Ee;
    cbn [ms_best ms_certificate ms_evaluated]; split.
  - split; cbn [ms_best ms_certificate ms_evaluated]; auto.
    + destruct (maintenance_improves _ _); [right|by left]. exists (amount, acts, st).
      split; [done|]. split; [done|]. exists chosen. split; [by left|done].
    + intros b Hb. rewrite Hb. unfold maintenance_improves.
      destruct (lex_lt _ _) eqn:E; [|apply unbeaten_refl].
      exists (amount, acts, st). split; [done|].
      destruct (lex_lt (maintenance_key b) _) eqn:E2; [|done].
      pose proof (lex_lt_trans _ _ _ E E2) as Hc. by rewrite lex_lt_irrefl in Hc.
  - intros [[a x] y] [Ha (ch & ->%list_elem_of_singleton & Hev)]. cbn in Ha. subst a.
    rewrite Ee in Hev. injection Hev as <- <-. unfold maintenance_improves.
    destruct (ms_best s) as [b|]; [|apply unbeaten_refl].
    destruct (lex_lt _ _) eqn:E; [apply unbeaten_refl|by exists b].
  - destruct (reject_keeps (ms_certificate s) reason) as (R1 & _ & R3).
    split; cbn [ms_best ms_certificate ms_evaluated]; auto. intros b ->. apply unbeaten_refl.
  - intros c [_ (ch & ->%list_elem_of_singleton & Hev)]. rewrite Ee in Hev. done.
Qed.

Lemma maintenance_pairs_advances inputs amount pairs s :
  let '(stopped, s') := maintenance_pairs inputs amount s pairs in
  search_advances (passes inputs amount pairs) s s' /\
  if stopped then se_search_complete (ms_certificate s') = false
  else forall c, passes inputs amount pairs c -> unbeaten c (ms_best s').
Proof.
  revert s. induction pairs as [|chosen pairs IH]; intros s; cbn [maintenance_pairs].
  { split; [apply search_advances_refl|]. by intros c [_ (ch & Hch%elem_of_nil & _)]. }
  destruct (_ <=? _) eqn:E; bool_spec E; [split; [apply search_advances_incomplete|done]|].
  destruct (maintenance_step_advances inputs amount s chosen E) as [Hstep Hch]. cbn zeta in *.
  specialize (IH (maintenance_step inputs amount s chosen)).
  destruct (maintenance_pairs _ _ _ pairs) as [stopped s']. destruct IH as [Hrest Hall].
  split.
  - eapply search_advances_trans; [| |exact Hstep|exact Hrest].
    + intros c [? (ch & ->%list_elem_of_singleton & ?)]. split; [done|]. exists chosen.
      split; [by left|done].
    + intros c [? (ch & ? & ?)]. split; [done|]. exists ch. split; [by right|done].
  - destruct stopped; [done|]. intros c [Ha (ch & [->|Hin]%elem_of_cons & Hev)].
    + destruct (Hch c) as (b & Hb & Hlt); [split; [done|]; exists chosen; split; [by left|done]|].
      eapply unbeaten_trans; [exact Hlt|]. by apply (sa_kept _ _ _ Hrest).
    + apply Hall. split; [done|]. by exists ch.
Qed.

(** The candidates of an amount, independently of the enumeration. *)
Definition maintenance_candidate (inputs : MaintenanceInputs) (c : MaintenanceBest) : Prop :=
  exists sources destinations,
    distribution (snd <$> mi_sources inputs) (cl_amounts <$> source_lattices inputs) c.1.1
      (vv_minimum_action_assets vault) sources /\
    distribution (me_allocation_maximum <$> mi_destinations inputs)
      (cl_amounts <$> maintenance_destination_lattices inputs) c.1.1
      (vv_minimum_action_assets vault) destinations /\
    evaluate_maintenance inputs sources destinations = Ok (c.1.2, c.2).

Lemma elem_of_distribution_pairs sources destinations s d :
  (s, d) ∈ distribution_pairs sources destinations <-> s ∈ sources /\ d ∈ destinations.
Proof.
  unfold distribution_pairs. rewrite elem_of_concat_map. split.
  - intros (x & Hx & (y & [= -> ->] & Hy)%list_elem_of_fmap). done.
  - intros [Hs Hd]. exists s. split; [done|]. apply list_elem_of_fmap. by exists d.
Qed.

(** The distributions of an amount, when they are enumerated. *)
Lemma source_distributions_spec inputs amount limit ds :
  maintenance_wf -> inputs_nonneg inputs -> u256 amount ->
  source_distributions inputs amount limit = Some ds ->
  forall d, d ∈ ds <-> distribution (snd <$> mi_sources inputs)
    (cl_amounts <$> source_lattices inputs) amount (vv_minimum_action_assets vault) d.
Proof.
  intros Hwf Hin Ha H. apply bounded_distributions_spec in H as (_ & _ & H); [done|..].
  - unfold source_lattices. by rewrite !length_fmap.
  - unfold source_lattices. apply (lattices_nonneg_build _ _ snd (fun _ => mi_movement_boundaries inputs));
      [pose proof (mw_minimum Hwf); lia|apply Hwf|apply Hin|].
    apply Forall_true. intros _. apply Hin.
  - done.
  - apply Hwf.
Qed.

Lemma destination_lattices_zip inputs :
  maintenance_destination_lattices inputs =
  (fun p : MaintenanceEndpoint * list Z => build_candidate_lattice
     (vv_minimum_action_assets vault) (me_allocation_maximum p.1)
     (mi_movement_boundaries inputs ++ p.2) (so_maximum_amount_candidates_per_position solver))
  <$> zip (mi_destinations inputs) (mi_destination_boundaries inputs).
Proof. unfold maintenance_destination_lattices. apply list_fmap_ext. by intros _ [e b] _. Qed.

Lemma destination_distributions_spec inputs amount limit ds :
  maintenance_wf -> inputs_nonneg inputs -> u256 amount ->
  destination_distributions inputs amount limit = Some ds ->
  forall d, d ∈ ds <-> distribution (me_allocation_maximum <$> mi_destinations inputs)
    (cl_amounts <$> maintenance_destination_lattices inputs) amount
    (vv_minimum_action_assets vault) d.
Proof.
  intros Hwf Hin Ha H. apply bounded_distributions_spec in H as (_ & _ & H); [done|..].
  - unfold maintenance_destination_lattices. rewrite !length_fmap, length_zip, (in_lengths _ Hin). lia.
  - rewrite destination_lattices_zip.
    destruct Hin as [_ Hd _ Hb Hdb _]. rewrite Forall_forall in Hd; rewrite Forall_forall in Hdb.
    apply (lattices_nonneg_build _ _
      (fun p : MaintenanceEndpoint * list Z => me_allocation_maximum p.1)
      (fun p => mi_movement_boundaries inputs ++ p.2));
      [pose proof (mw_minimum Hwf); lia|apply Hwf|..];
      apply Forall_forall; intros [e b] Hp; cbn.
    + apply Hd. eapply elem_of_zip_l. exact Hp.
    + apply Forall_app. split; [done|]. apply Hdb. eapply elem_of_zip_r. exact Hp.
  - done.
  - apply Hwf.
Qed.

Lemma maintenance_amounts_bounds inputs amount :
  maintenance_wf -> inputs_nonneg inputs -> amount ∈ maintenance_amounts inputs ->
  u256 amount /\ vv_minimum_action_assets vault <= amount <= mi_maximum inputs.
Proof.
  intros Hwf [_ _ [Hm0 Hm] Hb _ _] Hin. unfold maintenance_amounts in Hin.
  apply list_elem_of_In, filter_In in Hin as [Hin%list_elem_of_In Hle%Z.leb_le].
  pose proof (lattice_bounds (vv_minimum_action_assets vault) (mi_maximum inputs)
    (mi_movement_boundaries inputs) (so_maximum_amount_candidates_per_position solver)
    ltac:(pose proof (mw_minimum Hwf); lia) Hm0 Hb (mw_limit Hwf)) as Hl.
  rewrite Forall_forall in Hl. specialize (Hl amount Hin). unfold in_u. lia.
Qed.

Lemma maintenance_search_advances inputs amounts s :
  maintenance_wf -> inputs_nonneg inputs -> Forall u256 amounts ->
  let s' := maintenance_search inputs s amounts in
  search_advances (fun c => c.1.1 ∈ amounts /\ maintenance_candidate inputs c) s s' /\
  (se_search_complete (ms_certificate s') = true ->
   forall c, c.1.1 ∈ amounts -> maintenance_candidate inputs c -> unbeaten c (ms_best s')).
Proof.
  intros Hwf Hin. revert s. induction amounts as [|amount amounts IH]; intros s Hu; cbn.
  { split; [apply search_advances_refl|]. by intros _ c Hc%elem_of_nil. }
  apply Forall_cons in Hu as [Ha Hu]. cbn zeta in IH.
  destruct (beaten_amount (ms_best s) amount) eqn:Eb.
  - destruct (IH s Hu) as [Hadv Hall]. split.
    + eapply (search_advances_trans (fun _ => False)); [done| |apply search_advances_refl|exact Hadv].
      intros c [? ?]. split; [by right|done].
    + intros Hc c [Hca|?]%elem_of_cons Hcand; [|by apply Hall].
      unfold beaten_amount in Eb. destruct (ms_best s) as [[[m x] y]|] eqn:Es; [|done].
      apply Z.ltb_lt in Eb. eapply unbeaten_trans; [|by apply (sa_kept _ _ _ Hadv)].
      destruct c as [[a x'] y']. cbn in Hca. subst a. cbn.
      rewrite (proj2 (Z.ltb_ge amount m)), (proj2 (Z.eqb_neq amount m)) by lia. done.
  - set (limit := saturating_sub _ _).
    destruct (source_distributions inputs amount limit) as [sources|] eqn:Es;
      [|split; [apply search_advances_incomplete|done]].
    destruct (destination_distributions inputs amount limit) as [destinations|] eqn:Ed;
      [|split; [apply search_advances_incomplete|done]].
    pose proof (source_distributions_spec _ _ _ _ Hwf Hin Ha Es) as Hs.
    pose proof (destination_distributions_spec _ _ _ _ Hwf Hin Ha Ed) as Hd.
    assert (forall c, c.1.1 = amount ->
      passes inputs amount (distribution_pairs sources destinations) c <->
      maintenance_candidate inputs c) as Hp.
    { intros c Hc. unfold passes, maintenance_candidate. rewrite Hc. split.
      - intros [_ ([x y] & [Hx%Hs Hy%Hd]%elem_of_distribution_pairs & Hev)]. eauto.
      - intros (x & y & Hx & Hy & Hev). split; [done|]. exists (x, y).
        rewrite elem_of_distribution_pairs, Hs, Hd. done. }
    pose proof (maintenance_pairs_advances inputs amount (distribution_pairs sources destinations) s)
      as Hpairs.
    destruct (maintenance_pairs _ _ _ _) as [stopped s1]. destruct Hpairs as [Hadv Hall].
    assert (forall c, passes inputs amount (distribution_pairs sources destinations) c ->
      c.1.1 ∈ amount :: amounts /\ maintenance_candidate inputs c) as Hsub.
    { intros c Hc. pose proof Hc as [Hca _]. split; [rewrite Hca; by left|by apply Hp]. }
    destruct stopped.
    + split; [|intros Hc; congruence].
      eapply (search_advances_trans _ (fun _ => False));
        [exact Hsub|done|exact Hadv|apply search_advances_refl].
    + destruct (IH s1 Hu) as [Hadv' Hall']. split.
      * eapply search_advances_trans; [exact Hsub| |exact Hadv|exact Hadv'].
        intros c [? ?]. split; [by right|done].
      * intros Hc c [Hca|?]%elem_of_cons Hcand; [|by apply Hall'].
        destruct (Hall c) as (b & Hb & Hlt); [by apply Hp|].
        eapply unbeaten_trans; [exact Hlt|]. by apply (sa_kept _ _ _ Hadv').
Qed.

Lemma maintenance_nodes :
  maintenance_wf -> 0 <= so_maximum_nodes solver ->
  se_nodes_evaluated (lr_certificate solve_liquidity_maintenance) <= so_maximum_nodes solver.
Proof.
  intros Hwf Hn. unfold solve_liquidity_maintenance.
  destruct maintenance_inputs as [inputs|[]] eqn:Ein; [|done|done].
  pose proof (maintenance_inputs_nonneg _ Hwf Ein) as Hin.
  destruct (maintenance_search_advances inputs (maintenance_amounts inputs)
    (mkMaintenanceSearch (initial_certificate (so_maximum_nodes solver) true) 0 None) Hwf Hin)
    as [[_ S2 _ _ _] _].
  { apply Forall_forall. intros a Ha. by apply (maintenance_amounts_bounds inputs a Hwf Hin). }
  cbn zeta. destruct (ms_best _) as [[[amount acts] st]|]; by apply S2.
Qed.

(** The maintenance search respects its node limit, and when it completes
    its answer is optimal: either the service already holds or nothing can
    move, or no admissible pair of distributions of any candidate amount
    restores the service, or the plan restores it with the smallest amount
    that can, and the fewest actions for that amount. *)
Theorem maintenance_search_optimal :
  maintenance_wf -> 0 <= so_maximum_nodes solver ->
  let r := solve_liquidity_maintenance in
  se_nodes_evaluated (lr_certificate r) <= so_maximum_nodes solver /\
  (se_search_complete (lr_certificate r) = true ->
   maintenance_inputs = Err NothingToDo /\ lr_state r = None /\ lr_actions r = [] \/
   exists inputs, maintenance_inputs = Ok inputs /\
   match lr_state r with
   | None => lr_actions r = [] /\ forall c, c.1.1 ∈ maintenance_amounts inputs ->
       ~ maintenance_candidate inputs c
   | Some state =>
       exists amount, amount ∈ maintenance_amounts inputs /\
         maintenance_candidate inputs (amount, lr_actions r, state) /\
         forall c, c.1.1 ∈ maintenance_amounts inputs -> maintenance_candidate inputs c ->
           amount <= c.1.1 /\
           (c.1.1 = amount -> (length (lr_actions r) <= length c.1.2)%nat)
   end).
Proof.
  intros Hwf Hn r. split; [by apply maintenance_nodes|]. unfold r, solve_liquidity_maintenance.
  destruct maintenance_inputs as [inputs|[]] eqn:Ein; [|by intros _; left|done].
  pose proof (maintenance_inputs_nonneg _ Hwf Ein) as Hin.
  destruct (maintenance_search_advances inputs (maintenance_amounts inputs)
    (mkMaintenanceSearch (initial_certificate (so_maximum_nodes solver) true) 0 None) Hwf Hin)
    as [[_ _ _ S4 _] Hall].
  { apply Forall_forall. intros a Ha. by apply (maintenance_amounts_bounds inputs a Hwf Hin). }
  cbn zeta in *. set (s := maintenance_search _ _ _) in *. cbn [ms_best ms_evaluated] in *.
  destruct (ms_best s) as [[[amount acts] st]|] eqn:Eb; cbn; intros Hc; right; exists inputs;
    (split; [done|]).
  - destruct S4 as [?|([[a x] y] & [= <- <- <-] & Ha & Hcand)]; [done|].
    exists amount. split; [done|]. split; [done|]. intros [[a' x'] y'] Ha' Hc'.
    destruct (Hall Hc _ Ha' Hc') as (b & [= <-] & Hlt). cbn in Hlt |- *. bool_spec Hlt.
    destruct Hlt as [? [?|[? _]]]; split; lia.
  - split; [done|]. intros c Hca Hcand. by destruct (Hall Hc c Hca Hcand) as (b & ? & _).
Qed.

(** ** The plan *)

(** What the sources of a distribution take from idle assets. *)
Definition idle_used (sources : list Source) (amounts : list Z) : Z :=
  list_sum ((fun p : Source * Z => match fst (fst p) with None => snd p | Some _ => 0 end)
            <$> zip sources amounts).

Lemma deallocations_moved sources amounts :
  length amounts = length sources ->
  let acts := concat (option_list <$> (source_action <$> zip sources amounts)) in
  moved true acts = 0 /\ moved false acts = list_sum amounts - idle_used sources amounts.
Proof.
  revert amounts. induction sources as [|[e m] sources IH]; intros [|x amounts] Hl; try done.
  cbn in Hl. destruct (IH amounts) as [I1 I2]; [lia|]. cbn zeta in *.
  unfold idle_used in *. rewrite !zip_cons, !fmap_cons. cbn [concat fst snd].
  rewrite !list_sum_cons, !moved_app, I1, I2. unfold source_action.
  assert (forall al, moved al [] = 0) as Hnil by done.
  assert (forall al a, moved al [a] = if Bool.eqb (is_allocation a) al then action_assets a else 0)
    as Hone by (intros; rewrite moved_cons, Hnil; lia).
  destruct (Z.eqb_spec x 0) as [->|Hx]; destruct e as [e|];
    cbn [negb fmap option_fmap option_map]; unfold option_list, option_rect; rewrite ?Hnil, ?Hone;
    cbn [Bool.eqb is_allocation action_assets endpoint_deallocate]; lia.
Qed.

Lemma allocations_moved destinations amounts :
  length amounts = length destinations ->
  let acts := (fun q : MaintenanceEndpoint * Z => endpoint_allocate (fst q) (snd q))
    <$> List.filter (fun q => negb (snd q =? 0)) (zip destinations amounts) in
  moved true acts = list_sum amounts /\ moved false acts = 0.
Proof. intros Hl. by apply (moved_built endpoint_allocate true). Qed.

Lemma evaluate_maintenance_sound inputs sources destinations acts state :
  evaluate_maintenance inputs sources destinations = Ok (acts, state) ->
  overlapping_position inputs sources destinations = false /\
  acts = maintenance_deallocations inputs sources ++ maintenance_allocations inputs destinations /\
  acts <> [] /\ Z.of_nat (length acts) <= maximum_actions /\
  simulate_actions snapshot projection vault acts = Ok state /\
  ss_immediate_loss_assets state <= vv_maximum_immediate_rebalance_loss_assets vault /\
  validate_service_constraints state snapshot vault = Ok tt.
Proof.
  unfold evaluate_maintenance. intros H. destruct (overlapping_position _ _ _); [done|].
  cbv zeta in H. destruct (_ || _) eqn:E; [done|]. bool_spec E. step_ok H as st Hst%map_err_Ok.
  destruct (_ <? ss_immediate_loss_assets _) eqn:El; [done|]. bool_spec El.
  step_ok H as [] Hs%map_err_Ok. injection H as <- <-. destruct E. split_and!; try done; lia.
Qed.

Lemma idle_used_bounds sources amounts :
  Forall (fun x => 0 <= x) amounts -> 0 <= idle_used sources amounts <= list_sum amounts.
Proof.
  intros H. revert sources. unfold idle_used.
  induction H as [|x amounts Hx Hf IH]; intros sources.
  - destruct sources as [|[[e|] m] sources]; done.
  - pose proof (list_sum_nonneg _ Hf). destruct sources as [|[[e|] m] sources].
    + cbn [zip zip_with fmap list_fmap]. rewrite list_sum_cons. change (list_sum []) with 0. lia.
    + specialize (IH sources). rewrite zip_cons, fmap_cons, !list_sum_cons. cbn [fst snd]. lia.
    + specialize (IH sources). rewrite zip_cons, fmap_cons, !list_sum_cons. cbn [fst snd]. lia.
Qed.

(** An endpoint stands for a configured position, within its action limit, or
    for the configured liquidity adapter. *)
Definition endpoint_grounded (e : MaintenanceEndpoint) : Prop :=
  (exists p, p ∈ vv_positions vault /\ pc_position_key p = me_position e /\
     me_allocation_maximum e <= pc_maximum_action_assets p /\
     me_deallocation_maximum e <= pc_maximum_action_assets p) \/
  (exists l, vv_liquidity_adapter vault = Some l /\ lac_position_key l = me_position e).

Definition source_grounded (s : Source) : Prop :=
  forall e, fst s = Some e -> endpoint_grounded e /\ snd s = me_deallocation_maximum e.

Lemma maintenance_inputs_grounded inputs :
  maintenance_inputs = Ok inputs ->
  Forall source_grounded (mi_sources inputs) /\ Forall endpoint_grounded (mi_destinations inputs).
Proof.
  intros H. unfold maintenance_inputs in H. step_ok H as base Hbase. destruct (is_ok _); [done|].
  step_ok H as idle Hidle. step_ok H as direct Hdirect%ok_or_Ok. step_ok H as liq Hliq%ok_or_Ok.
  step_ok H as la _. cbv zeta in H. destruct (_ || _); [done|]. step_ok H as st _.
  step_ok H as dt _. destruct (_ <? _); [done|]. step_ok H as bs _. injection H as <-.
  cbn [mi_sources mi_destinations].
  assert (Forall endpoint_grounded direct) as Hd.
  { apply (opt_map_Forall _ endpoint_grounded) in Hdirect as [? _]; [done|]. intros p e Hp He.
    unfold direct_endpoint in He. apply bind_Some in He as (cur & _ & [= <-]). left.
    exists p. cbn. split_and!; try done; lia. }
  assert (endpoint_grounded liq) as Hl.
  { unfold liquidity_endpoint in Hliq. rewrite Forall_forall in Hd.
    destruct (vv_liquidity_adapter vault) as [l|] eqn:El;
      [destruct (ev_liquidity_adapter snapshot) as [s|] eqn:Es|].
    - injection Hliq as <-. right. by exists l.
    - apply List.find_some in Hliq as [Hin%list_elem_of_In _]. by apply Hd.
    - apply List.find_some in Hliq as [Hin%list_elem_of_In _]. by apply Hd. }
  split.
  - unfold maintenance_sources. rewrite !Forall_app, Forall_fmap. split_and!.
    + destruct (negb _); [by apply Forall_singleton|constructor].
    + apply Forall_filter. eapply Forall_impl; [exact Hd|]. by intros e He ? [= <-].
    + destruct (_ && _); [|constructor]. apply Forall_singleton. by intros e [= <-].
  - unfold maintenance_destinations. apply Forall_filter. constructor; [done|].
    by apply Forall_filter.
Qed.

(** The amounts of a solution stay within the limits of their endpoints. *)
Lemma maintenance_amounts_within inputs sources destinations amount :
  maintenance_wf -> inputs_nonneg inputs ->
  distribution (snd <$> mi_sources inputs) (cl_amounts <$> source_lattices inputs) amount
    (vv_minimum_action_assets vault) sources ->
  distribution (me_allocation_maximum <$> mi_destinations inputs)
    (cl_amounts <$> maintenance_destination_lattices inputs) amount
    (vv_minimum_action_assets vault) destinations ->
  Forall2 (fun n (s : Source) => 0 <= n <= snd s) sources (mi_sources inputs) /\
  Forall2 (fun n e => 0 <= n <= me_allocation_maximum e) destinations (mi_destinations inputs).
Proof.
  intros Hwf [Hs Hd _ Hb Hdb Hlen] H1 H2.
  assert (0 <= vv_minimum_action_assets vault) as Hmin by (pose proof (mw_minimum Hwf); lia).
  split.
  - eapply (distribution_within _ _ (fun s : Source => snd s) (fun _ => mi_movement_boundaries inputs));
      [exact Hmin|apply Hwf|exact Hs|by apply Forall_true|exact H1].
  - rewrite destination_lattices_zip in H2.
    assert (fst <$> zip (mi_destinations inputs) (mi_destination_boundaries inputs)
      = mi_destinations inputs) as Hz by (apply fst_zip; lia).
    rewrite <-Hz in H2 at 1. rewrite <-list_fmap_compose in H2. rewrite <-Hz.
    apply Forall2_fmap_r. rewrite Forall_forall in Hd. rewrite Forall_forall in Hdb.
    eapply (distribution_within _ _
      (fun p : MaintenanceEndpoint * list Z => me_allocation_maximum p.1)
      (fun p => mi_movement_boundaries inputs ++ p.2)); [exact Hmin|apply Hwf| | |exact H2];
      apply Forall_forall; intros [e b] Hp; cbn.
    + apply Hd. eapply elem_of_zip_l. exact Hp.
    + apply Forall_app. split; [done|]. apply Hdb. eapply elem_of_zip_r. exact Hp.
Qed.

(** An action within the limit of the position it names, unless it names the
    liquidity adapter. *)
Definition within_direct_limit (a : V2Action) : Prop :=
  liquidity_target vault (action_position a) = None ->
  forall c, c ∈ vv_positions vault -> pc_position_key c = action_position a ->
  action_assets a <= pc_maximum_action_assets c.

Lemma grounded_within e a n :
  NoDup (pc_position_key <$> vv_positions vault) -> endpoint_grounded e ->
  action_position a = me_position e -> action_assets a = n ->
  n <= me_allocation_maximum e \/ n <= me_deallocation_maximum e -> within_direct_limit a.
Proof.
  intros Hnd [(p & Hp & Hk & Ha & Hde)|(l & Hl & Hk)] Hpos Hn Hle Ht c Hc Hkc.
  - assert (c = p) as ->; [|lia]. apply (NoDup_fmap_elem pc_position_key _ c p Hnd Hc Hp). congruence.
  - unfold liquidity_target in Ht. rewrite Hl in Ht. cbn in Ht.
    rewrite Hpos, Hk, Z.eqb_refl in Ht. done.
Qed.

Lemma maintenance_within inputs sources destinations amount :
  maintenance_wf -> maintenance_inputs = Ok inputs ->
  NoDup (pc_position_key <$> vv_positions vault) ->
  distribution (snd <$> mi_sources inputs) (cl_amounts <$> source_lattices inputs) amount
    (vv_minimum_action_assets vault) sources ->
  distribution (me_allocation_maximum <$> mi_destinations inputs)
    (cl_amounts <$> maintenance_destination_lattices inputs) amount
    (vv_minimum_action_assets vault) destinations ->
  Forall (fun a => within_direct_limit a /\ 0 <= action_assets a)
    (maintenance_deallocations inputs sources ++ maintenance_allocations inputs destinations).
Proof.
  intros Hwf Hin Hnd H1 H2. pose proof (maintenance_inputs_nonneg _ Hwf Hin) as Hnn.
  destruct (maintenance_amounts_within _ _ _ _ Hwf Hnn H1 H2) as [W1 W2].
  apply maintenance_inputs_grounded in Hin as [G1 G2].
  rewrite Forall_forall in G1. rewrite Forall_forall in G2.
  apply Forall_app. split; apply Forall_forall; intros a Ha.
  - unfold maintenance_deallocations in Ha. apply elem_of_concat_options in Ha.
    apply list_elem_of_fmap in Ha as ([[s m] n] & Ha & Hz). unfold source_action in Ha.
    destruct (negb _); [|done]. destruct s as [e|]; [|done]. injection Ha as ->.
    destruct (G1 (Some e, m)) with (e := e) as [He Hm]; [by eapply elem_of_zip_l|done|].
    destruct (Forall2_zip_elem _ _ _ n (Some e, m) W1 Hz) as [Hn0 Hn]. split; [|done].
    apply (grounded_within e _ n); [done..|]. right. cbn in Hm, Hn. by rewrite <-Hm.
  - unfold maintenance_allocations in Ha.
    apply (built_elem endpoint_allocate _ _ _ _ W2) in Ha as (e & n & He & _ & Hn & ->).
    cbn beta in Hn. split; [|by destruct Hn].
    apply (grounded_within e _ n); [done|by apply G2|done|done|left; by destruct Hn].
Qed.

(** The solution the solver returns, before what it means is spelled out. *)
Lemma maintenance_solution state :
  maintenance_wf -> lr_state solve_liquidity_maintenance = Some state ->
  exists inputs sources destinations amount,
    maintenance_inputs = Ok inputs /\ amount <= mi_maximum inputs /\
    vv_minimum_action_assets vault <= amount /\
    distribution (snd <$> mi_sources inputs) (cl_amounts <$> source_lattices inputs) amount
      (vv_minimum_action_assets vault) sources /\
    distribution (me_allocation_maximum <$> mi_destinations inputs)
      (cl_amounts <$> maintenance_destination_lattices inputs) amount
      (vv_minimum_action_assets vault) destinations /\
    evaluate_maintenance inputs sources destinations
      = Ok (lr_actions solve_liquidity_maintenance, state).
Proof.
  intros Hwf H. unfold solve_liquidity_maintenance in *.
  destruct maintenance_inputs as [inputs|[]] eqn:Ein; [|done|done].
  pose proof (maintenance_inputs_nonneg _ Hwf Ein) as Hin.
  destruct (maintenance_search_advances inputs (maintenance_amounts inputs)
    (mkMaintenanceSearch (initial_certificate (so_maximum_nodes solver) true) 0 None) Hwf Hin)
    as [[_ _ _ S4 _] _].
  { apply Forall_forall. intros a Ha. by apply (maintenance_amounts_bounds inputs a Hwf Hin). }
  cbn zeta in *. set (s := maintenance_search _ _ _) in *. cbn [ms_best] in S4.
  destruct (ms_best s) as [[[amount acts] st]|] eqn:Eb; [|done]. cbn [lr_state lr_actions] in *.
  injection H as ->. destruct S4 as [?|([[a x] y] & [= <- <- <-] & Ha & Hcand)]; [done|].
  destruct Hcand as (sources & destinations & Hs & Hd & He). cbn [fst snd] in *.
  apply (maintenance_amounts_bounds inputs amount Hwf Hin) in Ha as [_ [Ha1 Ha2]].
  exists inputs, sources, destinations, amount. by split_and!.
Qed.

(** What its actions move. *)
Lemma maintenance_moved inputs sources destinations amount :
  0 <= vv_minimum_action_assets vault ->
  distribution (snd <$> mi_sources inputs) (cl_amounts <$> source_lattices inputs) amount
    (vv_minimum_action_assets vault) sources ->
  distribution (me_allocation_maximum <$> mi_destinations inputs)
    (cl_amounts <$> maintenance_destination_lattices inputs) amount
    (vv_minimum_action_assets vault) destinations ->
  let acts := maintenance_deallocations inputs sources
              ++ maintenance_allocations inputs destinations in
  moved true acts = amount /\
  moved false acts = amount - idle_used (mi_sources inputs) sources /\
  0 <= idle_used (mi_sources inputs) sources <= amount.
Proof.
  intros Hmin Hs Hd. apply distribution_nonneg in Hs as (L1 & S1 & N1); [|done].
  apply distribution_nonneg in Hd as (L2 & S2 & N2); [|done].
  rewrite length_fmap in L1. rewrite length_fmap in L2.
  destruct (deallocations_moved (mi_sources inputs) sources L1) as [D1 D2].
  destruct (allocations_moved (mi_destinations inputs) destinations L2) as [A1 A2].
  pose proof (idle_used_bounds (mi_sources inputs) sources N1) as Hidle.
  cbn zeta. rewrite !moved_app. unfold maintenance_deallocations, maintenance_allocations.
  cbn zeta in *. rewrite D1, D2, A1, A2, S1, S2 in *. split_and!; lia.
Qed.

(** A maintenance plan restores the service whether or not the search
    completed: it simulates to the returned state, which meets every service
    constraint within the loss bound, with at most the configured number of
    actions and no position on both sides. It allocates one amount, at least
    the minimum action, and withdraws what idle assets do not pay of it. *)
Theorem maintenance_plan_sound state :
  maintenance_wf -> lr_state solve_liquidity_maintenance = Some state ->
  let acts := lr_actions solve_liquidity_maintenance in
  simulate_actions snapshot projection vault acts = Ok state /\
  validate_service_constraints state snapshot vault = Ok tt /\
  ss_immediate_loss_assets state <= vv_maximum_immediate_rebalance_loss_assets vault /\
  acts <> [] /\ Z.of_nat (length acts) <= maximum_actions /\
  exists inputs sources destinations amount,
    maintenance_inputs = Ok inputs /\
    acts = maintenance_deallocations inputs sources ++ maintenance_allocations inputs destinations /\
    overlapping_position inputs sources destinations = false /\
    vv_minimum_action_assets vault <= amount <= mi_maximum inputs /\
    moved true acts = amount /\
    moved false acts = amount - idle_used (mi_sources inputs) sources /\
    0 <= idle_used (mi_sources inputs) sources <= amount.
Proof.
  intros Hwf H. destruct (maintenance_solution _ Hwf H)
    as (inputs & sources & destinations & amount & Hin & Hle & Hmin & Hs & Hd & He).
  pose proof (mw_minimum Hwf). apply evaluate_maintenance_sound in He
    as (E1 & E2 & E3 & E4 & E5 & E6 & E7).
  destruct (maintenance_moved inputs sources destinations amount) as (M1 & M2 & M3);
    [lia|done|done|].
  cbn zeta. split_and!; try done. exists inputs, sources, destinations, amount.
  rewrite E2. split_and!; try done; lia.
Qed.

End Solve.

(** ** A restoration of the example vault

    The liquidity position 21 lacks 310 assets of its minimum; 300 unlocked
    idle assets and 100 assets of the position 22 can cover them. *)
Module MaintenanceExample.
Import SimulatorProofs.Example.

Definition position (key adapter market collateral : Z) : DirectMarketPositionState :=
  mkDirectMarketPositionState key adapter (params collateral) market 100000000000000
    100000000000000 0 0 100000000 100000000 (caps market) Active FixedUntilModeled.
Definition parent : ParentVaultState :=
  mkParentVaultState 1 1 500 200000500 100 1000000000 200000500 1 0 0 false 0 0 false
    0 0 0 0 0 31 [1; 2; 3; 4; 5] ∅ ∅ ∅ 0 0 0.
Definition adapter (address market : Z) : DirectAdapterState :=
  mkDirectAdapterState address 1 1 0 4 41 [market] ∅ 0 100000000 0 [].
Definition snapshot : ExactVaultSnapshot :=
  mkExactVaultSnapshot (mkStateContext 1 block 100 Proven 0 0) parent
    (list_to_map [(31, adapter 31 11); (32, adapter 32 12)]) {[ 31; 32 ]} None
    (list_to_map [(21, position 21 31 11 2); (22, position 22 32 12 9)])
    (list_to_map [(11, stored 11 2); (12, stored 12 9)])
    (list_to_map [cap 41; cap 61; cap 62; cap 71; cap 72]) []
    (mkVaultCapabilities true true true true true true true true true true)
    (mkIdleLockLedgerSnapshot [mkIdleLockSnapshot 1 200 5 None] 0 true) 99.
Definition configured (key adapter market collateral minimum maximum action : Z)
    : ValidatedPositionConfig :=
  mkValidatedPositionConfig key adapter (params collateral) market Active 0 minimum maximum 0 WAD
    0 0 0 0 0 0 action true 0 FixedUntilModeled.
Definition config : ValidatedVaultConfig :=
  mkValidatedVaultConfig "example"%string 1 1 6 0 0 0 SpreadEqualization false 1 0 10 0 0 0 0 0 0
    100000310 0 1000 0 false false false false 0 0 [] []
    (mkValidatedRateGroupConfig "group"%string 0 0 0 1000000000000 false) [] None
    [configured 21 31 11 2 100000000 1000000000000 1000000000000;
     configured 22 32 12 9 0 100000000 100].
Definition view : ProjectedVaultView :=
  match @project_snapshot_to_head word_abi snapshot block config with
  | Ok v => v
  | Err _ => SimulatorProofs.Example.view
  end.
Definition solver : SolverConfigCanonical := mkSolverConfigCanonical 5000 16 1000 1000 false.
Definition solved : LiquiditySolveResult :=
  @solve_liquidity_maintenance sum_keccak word_abi snapshot view config solver 4.

(** The smallest restoration pays 210 assets from idle and withdraws 100. *)
Example restoration_solved_actions :
  lr_actions solved = [Deallocate 22 32 [1; 9; 3; 4; 5] 100; Allocate 21 31 [1; 2; 3; 4; 5] 310] /\
  executable_rate_search (lr_certificate solved) = true.
Proof. vm_compute. repeat split. Qed.

Lemma restoration_solved_state : is_Some (lr_state solved).
Proof. vm_compute. by eexists. Qed.

Lemma restoration_solved_wf : maintenance_wf snapshot config solver.
Proof. split; cbn; [lia|repeat constructor; cbn; lia|done|done|vm_compute; discriminate]. Qed.

Lemma maintenance_search_optimal_witness :
  se_nodes_evaluated (lr_certificate solved) <= 5000.
Proof.
  destruct (@maintenance_search_optimal sum_keccak word_abi snapshot view config solver 4 restoration_solved_wf)
    as [Hn _]; [cbn; lia|exact Hn].
Defined.

Lemma maintenance_plan_sound_witness :
  exists state, lr_state solved = Some state /\
    @validate_service_constraints word_abi state snapshot config = Ok tt.
Proof.
  destruct (lr_state solved) as [state|] eqn:Hs;
    [|by destruct restoration_solved_state as [? H]; rewrite Hs in H].
  exists state. split; [reflexivity|].
  destruct (@maintenance_plan_sound sum_keccak word_abi snapshot view config solver 4 state
              restoration_solved_wf Hs) as (_ & H & _). exact H.
Defined.

End MaintenanceExample.
