(* ===== verification/Rate.v ===== *)
(** * Spread rebalancing

    Models the solver of [src/src/planner/rate.rs]: the sources and
    destinations a frozen episode allows, the bounded search over complete
    movements, the ranking of its candidates, and the second search under the
    unlocked tranche.  As in [Maintenance], the two nested loops over
    distributions are one loop over their pairs. *)
From Stdlib Require Import ZArith Lia List Bool.
From stdpp Require Import base list gmap sets sorting.
From S2P Require Import Prelude.
From S2P Require Import BlueMath.
From S2P Require Import Domain.
From S2P Require Import Config.
From S2P Require Import Projection.
From S2P Require Import Simulator.
From S2P Require Import SimulatorProofs.
From S2P Require Import Episodes.
From S2P Require Import Firewall.
From S2P Require Import Candidates.
From S2P Require Import Objective.
From S2P Require Import Capital.
From S2P Require Import Maintenance.
Open Scope Z_scope.

Record SolvedRateCandidate : Type := mkSolvedRateCandidate {
  src_actions : list V2Action;
  src_state : SimulationState;
  src_objective : ObjectiveMetrics;
  src_before_spread : Z;
}.

Record RateSolveResult : Type := mkRateSolveResult {
  rr_best : option SolvedRateCandidate;
  rr_certificate : SearchCertificate;
  rr_target_reachable : bool;
}.

(** The error carries nothing. *)
Definition metrics (state : SimulationState) (evaluation controllable : gset MarketId)
    (branch : RateObjectiveBranch) (strategy_objective : StrategyObjective)
    (movement terminal_value_delta : Z) : option ObjectiveMetrics :=
  portfolio_spread ← complete_strategy_spread evaluation (ss_markets state) strategy_objective;
  controllable_spread ← complete_strategy_spread controllable (ss_markets state) strategy_objective;
  let '(applicable_spread, secondary_spread) :=
    match branch with
    | Portfolio => (portfolio_spread, controllable_spread)
    | Controllable => (controllable_spread, portfolio_spread)
    end in
  idle ← to_option (unreserved_idle state);
  Some (mkObjectiveMetrics idle 0 applicable_spread secondary_spread terminal_value_delta movement
          (Z.of_nat (length (ss_actions state)))).

Definition episode_rejection (solver : SolverConfigCanonical) : RateSolveResult :=
  mkRateSolveResult None (reject (initial_certificate (so_maximum_nodes solver) true) RejectEpisode)
    false.

(** The second map's counters added to the first's. *)
Definition combine_counts (first second : gmap RejectionReason Z) : gmap RejectionReason Z * bool :=
  (union_with (fun a b => Some (default a (checked_add U64_MAX a b))) first second,
   bool_decide (map_Forall (fun reason count =>
     is_Some (checked_add U64_MAX (default 0 (first !! reason)) count)) second)).

Section Certificates.
Context `{HK : Keccak}.

Definition combine_search_certificates (first second : SearchCertificate)
    (optimal_movement tranche_limit : Z) : SearchCertificate :=
  let nodes_evaluated := checked_add U64_MAX (se_nodes_evaluated first) (se_nodes_evaluated second) in
  let node_limit := checked_add U64_MAX (se_node_limit first) (se_node_limit second) in
  let '(rejection_counts, counters_complete) :=
    combine_counts (se_rejection_counts first) (se_rejection_counts second) in
  mkSearchCertificate
    (keccak256 (be_bytes 32 (se_candidate_lattice_hash first)
                ++ be_bytes 32 (se_candidate_lattice_hash second)
                ++ be_bytes 32 optimal_movement ++ be_bytes 32 tranche_limit))
    (default U64_MAX nodes_evaluated) (default U64_MAX node_limit)
    (se_search_complete first && se_search_complete second
     && bool_decide (is_Some nodes_evaluated) && bool_decide (is_Some node_limit)
     && counters_complete)
    rejection_counts.

End Certificates.

Definition constrained_movement_limit (optimal_movement unlocked_budget tranche_bps : Z)
    : option Z :=
  tranche ← to_option (mul_div_down optimal_movement tranche_bps 10000);
  Some (Z.min tranche unlocked_budget).

(** A source with its maximum, a destination with its maximum and boundaries. *)
Definition RateSource : Type := ValidatedPositionConfig * Z.
Definition RateDestination : Type := ValidatedPositionConfig * Z * list Z.

Record RateInputs : Type := mkRateInputs {
  ri_before_spread : Z;
  ri_horizon_timestamp : Z;
  ri_no_plan_terminal : Z;
  ri_sources : list RateSource;
  ri_destinations : list RateDestination;
  ri_source_total : Z;
  ri_destination_total : Z;
  ri_maximum : Z;
  ri_movement_boundaries : list Z;
}.

Section Solve.
Context `{HK : Keccak} `{HA : AbiParams}.
Context (snapshot : ExactVaultSnapshot) (projection : ProjectedVaultView).
Context (vault : ValidatedVaultConfig) (strategy : ValidatedStrategyConfig).
Context (solver : SolverConfigCanonical) (episode : RateSignalEpisode).

(** ** The inputs of the search *)

Definition market_position (market : MarketId) : option ValidatedPositionConfig :=
  List.find (fun position => pc_market_id position =? market) (vv_positions vault).

Definition rate_source (market : MarketId) : option RateSource :=
  position ← market_position market;
  current ← pj_position_expected_assets (pw_vault projection) !! pc_position_key position;
  Some (position, Z.min (saturating_sub current (pc_minimum_position_assets position))
                    (pc_maximum_action_assets position)).

Definition rate_destination (market : MarketId) : option RateDestination :=
  position ← market_position market;
  current ← pj_position_expected_assets (pw_vault projection) !! pc_position_key position;
  boundaries ← allocation_cap_boundaries snapshot projection (pc_position_key position);
  Some (position, Z.min (saturating_sub (pc_maximum_position_assets position) current)
                    (pc_maximum_action_assets position), boundaries).

(** The boundaries one destination adds. *)
Definition rate_boundaries (destination : RateDestination) : option (list Z) :=
  let '(position, maximum, boundaries) := destination in
  capacity ← reallocation_cap_limited_allocation snapshot projection vault
               (pc_position_key position);
  Some (maximum :: boundaries ++ [Z.min maximum capacity]).

Definition rate_inputs (budget : Z) : option RateInputs :=
  before_portfolio_spread ← complete_strategy_spread (re_evaluation_markets episode)
    (pw_markets projection) (sg_objective strategy);
  before_controllable_spread ← complete_strategy_spread (re_controllable_markets episode)
    (pw_markets projection) (sg_objective strategy);
  horizon_timestamp ← checked_add U64_MAX (blk_timestamp (pw_head projection))
                        (sg_benefit_horizon_seconds strategy);
  no_plan_terminal ← to_option (no_plan_terminal_existing_shareholder_assets snapshot vault
                                  projection horizon_timestamp);
  sources ← opt_map rate_source (set_elements (re_source_markets episode));
  destinations ← opt_map rate_destination (set_elements (re_destination_markets episode));
  let sources := List.filter (fun s => negb (snd s =? 0)) sources in
  let destinations := List.filter (fun d => negb (snd (fst d) =? 0)) destinations in
  source_total ← opt_fold (fun total s => checked_add U256_MAX total (snd s)) 0 sources;
  destination_total ← opt_fold (fun total d => checked_add U256_MAX total (snd (fst d))) 0
                        destinations;
  boundaries ← opt_map rate_boundaries destinations;
  Some (mkRateInputs
    (match re_objective_branch episode with
     | Portfolio => before_portfolio_spread
     | Controllable => before_controllable_spread
     end) horizon_timestamp no_plan_terminal sources destinations source_total destination_total
    (Z.min (Z.min source_total destination_total) budget)
    ([budget; source_total; destination_total] ++ concat boundaries)).

Definition rate_movement_lattice (inputs : RateInputs) : CandidateLattice :=
  build_candidate_lattice (vv_minimum_action_assets vault) (ri_maximum inputs)
    (ri_movement_boundaries inputs) (so_maximum_amount_candidates_per_position solver).

Definition rate_source_lattices (budget : Z) (inputs : RateInputs) : list CandidateLattice :=
  (fun s : RateSource => build_candidate_lattice (vv_minimum_action_assets vault) (snd s)
     [budget; ri_source_total inputs] (so_maximum_amount_candidates_per_position solver))
  <$> ri_sources inputs.

Definition rate_destination_lattices (budget : Z) (inputs : RateInputs) : list CandidateLattice :=
  (fun d : RateDestination => build_candidate_lattice (vv_minimum_action_assets vault) (snd (fst d))
     ([budget; ri_destination_total inputs; snd (fst d)] ++ snd d)
     (so_maximum_amount_candidates_per_position solver))
  <$> ri_destinations inputs.

Definition rate_lattice_hash (budget : Z) (inputs : RateInputs) : B256 :=
  keccak256 (concat ((fun l => be_bytes 32 (cl_hash l))
    <$> rate_movement_lattice inputs :: rate_source_lattices budget inputs
        ++ rate_destination_lattices budget inputs)).

(** The amounts tried, smallest first. *)
Definition rate_amounts (inputs : RateInputs) : list Z :=
  List.filter (fun amount => vv_minimum_action_assets vault <=? amount)
    (cl_amounts (rate_movement_lattice inputs)).

Definition rate_source_distributions (budget : Z) (inputs : RateInputs) (amount limit : Z)
    : option (list (list Z)) :=
  bounded_distributions (snd <$> ri_sources inputs)
    (cl_amounts <$> rate_source_lattices budget inputs) amount
    (vv_minimum_action_assets vault) (Z.min limit (so_maximum_source_sets solver)).

Definition rate_destination_distributions (budget : Z) (inputs : RateInputs) (amount limit : Z)
    : option (list (list Z)) :=
  bounded_distributions ((fun d : RateDestination => snd (fst d)) <$> ri_destinations inputs)
    (cl_amounts <$> rate_destination_lattices budget inputs) amount
    (vv_minimum_action_assets vault) (Z.min limit (so_maximum_destination_sets solver)).

(** ** One candidate *)

Definition deallocate_source (source : ValidatedPositionConfig) (amount : Z) : V2Action :=
  Deallocate (pc_position_key source) (pc_adapter source)
    (encode_adapter_data (pc_market_params source)) amount.

Definition rate_actions (inputs : RateInputs) (chosen : list Z * list Z) : list V2Action :=
  ((fun p : RateSource * Z => deallocate_source (fst (fst p)) (snd p))
   <$> List.filter (fun p => negb (snd p =? 0)) (zip (ri_sources inputs) (fst chosen)))
  ++ ((fun p : RateDestination * Z => allocate_destination (fst (fst (fst p))) (snd p))
      <$> List.filter (fun p => negb (snd p =? 0)) (zip (ri_destinations inputs) (snd chosen))).

(** The spread checks on a candidate's metrics. *)
Definition rate_spread_rejected (before_spread : Z) (objective : ObjectiveMetrics) : bool :=
  (default U256_MAX (checked_add U256_MAX before_spread (portfolio_spread_tolerance strategy))
   <? om_applicable_spread objective)
  || (saturating_sub before_spread (om_applicable_spread objective)
      <? minimum_improvement strategy (bool_decide (re_objective_branch episode = Portfolio))).

Definition evaluate_rate (inputs : RateInputs) (amount : Z) (chosen : list Z * list Z)
    : result RejectionReason SolvedRateCandidate :=
  let actions := rate_actions inputs chosen in
  state ← map_err (fun _ => RejectSimulation) (simulate_actions snapshot projection vault actions);
  _ ← map_err (fun _ => RejectService) (validate_service_constraints state snapshot vault);
  if vv_strict_zero_routine_idle vault
     && match unreserved_idle state with
        | Ok idle => vv_maximum_rounding_dust_assets vault <? idle
        | Err _ => true
        end
  then Err RejectService
  else if vv_maximum_immediate_rebalance_loss_assets vault <? ss_immediate_loss_assets state
  then Err RejectImmediateLoss
  else
    plan_terminal ← map_err (fun _ => RejectSimulation)
      (terminal_existing_shareholder_assets state snapshot projection
         (ri_horizon_timestamp inputs));
    if match checked_add U256_MAX plan_terminal (vv_maximum_terminal_value_sacrifice_assets vault) with
       | None => true
       | Some allowed => allowed <? ri_no_plan_terminal inputs
       end
    then Err RejectImmediateLoss
    else
      terminal_value_delta ← ok_or
        (planned ← i256_of_u256 plan_terminal;
         baseline ← i256_of_u256 (ri_no_plan_terminal inputs);
         i256_sub planned baseline) RejectSimulation;
      objective ← ok_or (metrics state (re_evaluation_markets episode)
        (re_controllable_markets episode) (re_objective_branch episode) (sg_objective strategy)
        amount terminal_value_delta) RejectSimulation;
      if rate_spread_rejected (ri_before_spread inputs) objective then Err RejectSpreadWorsening
      else Ok (mkSolvedRateCandidate actions state objective (ri_before_spread inputs)).

(** ** The search *)

Record RateSearch : Type := mkRateSearch {
  rs_certificate : SearchCertificate;
  rs_candidates : list SolvedRateCandidate;
}.

Definition rate_step (inputs : RateInputs) (amount : Z) (s : RateSearch)
    (chosen : list Z * list Z) : RateSearch :=
  let certificate := count_node (rs_certificate s) in
  match evaluate_rate inputs amount chosen with
  | Err reason => mkRateSearch (reject certificate reason) (rs_candidates s)
  | Ok candidate => mkRateSearch certificate (rs_candidates s ++ [candidate])
  end.

(** The pairs of one amount; the flag is [break 'search]. *)
Fixpoint rate_pairs (inputs : RateInputs) (amount : Z) (s : RateSearch)
    (pairs : list (list Z * list Z)) : bool * RateSearch :=
  match pairs with
  | [] => (false, s)
  | chosen :: pairs =>
      let c := rs_certificate s in
      if se_node_limit c <=? se_nodes_evaluated c
      then (true, mkRateSearch (mark_incomplete c) (rs_candidates s))
      else rate_pairs inputs amount (rate_step inputs amount s chosen) pairs
  end.

Fixpoint rate_search (budget : Z) (inputs : RateInputs) (s : RateSearch) (amounts : list Z)
    : RateSearch :=
  match amounts with
  | [] => s
  | amount :: amounts =>
      let c := rs_certificate s in
      let limit := saturating_sub (se_node_limit c) (se_nodes_evaluated c) in
      let incomplete := mkRateSearch (mark_incomplete c) (rs_candidates s) in
      match rate_source_distributions budget inputs amount limit with
      | None => incomplete
      | Some sources =>
          match rate_destination_distributions budget inputs amount limit with
          | None => incomplete
          | Some destinations =>
              let '(stopped, s) :=
                rate_pairs inputs amount s (distribution_pairs sources destinations) in
              if stopped then s else rate_search budget inputs s amounts
          end
      end
  end.

(** The final ranking of the candidates. *)
Definition rank_candidate (target : Z) (target_reachable : bool)
    (best : option SolvedRateCandidate) (candidate : SolvedRateCandidate)
    : option SolvedRateCandidate :=
  match best with
  | None => Some candidate
  | Some current =>
      if ranks_before RateRebalance (src_objective candidate) (src_objective current) target
           target_reachable
      then Some candidate else best
  end.

Definition search_rate_rebalance (budget : Z) : RateSolveResult :=
  match rate_inputs budget with
  | None => mkRateSolveResult None (initial_certificate (so_maximum_nodes solver) false) false
  | Some inputs =>
      let s := rate_search budget inputs
                 (mkRateSearch (initial_certificate (so_maximum_nodes solver) true) [])
                 (rate_amounts inputs) in
      let certificate := with_lattice_hash (rs_certificate s) (rate_lattice_hash budget inputs) in
      let target := convergence_spread strategy in
      let target_reachable := existsb (fun candidate =>
        om_applicable_spread (src_objective candidate) <=? target) (rs_candidates s) in
      mkRateSolveResult (fold_left (rank_candidate target target_reachable) (rs_candidates s) None)
        certificate target_reachable
  end.

Definition solve_rate_rebalance : RateSolveResult :=
  match remaining_budget episode with
  | Err _ => episode_rejection solver
  | Ok full_budget =>
      let full := search_rate_rebalance full_budget in
      if negb (executable_rate_search (rr_certificate full)) then full
      else match rr_best full with
      | None => full
      | Some best =>
          let optimal_movement := om_movement_assets (src_objective best) in
          match available_budget episode with
          | Err _ => episode_rejection solver
          | Ok unlocked_budget =>
              match constrained_movement_limit optimal_movement unlocked_budget
                      (sg_immediate_tranche_bps strategy) with
              | None => episode_rejection solver
              | Some constrained_limit =>
                  if optimal_movement <=? constrained_limit then full
                  else
                    let constrained := search_rate_rebalance constrained_limit in
                    mkRateSolveResult (rr_best constrained)
                      (combine_search_certificates (rr_certificate full)
                         (rr_certificate constrained) optimal_movement constrained_limit)
                      (rr_target_reachable constrained)
              end
          end
      end
  end.

(** ** The inputs *)

Record rate_wf : Prop := {
  rw_minimum : 0 < vv_minimum_action_assets vault;
  rw_actions : Forall (fun p => 0 <= pc_maximum_action_assets p) (vv_positions vault);
  rw_limit : so_maximum_amount_candidates_per_position solver <= USIZE_MAX;
}.

Record rate_inputs_ok (budget : Z) (inputs : RateInputs) : Prop := {
  ro_sources : Forall (fun s : RateSource => 0 <= snd s) (ri_sources inputs);
  ro_destinations : Forall (fun d : RateDestination => 0 <= snd (fst d)) (ri_destinations inputs);
  ro_destination_boundaries :
    Forall (fun d : RateDestination => Forall (fun b => 0 <= b) (snd d)) (ri_destinations inputs);
  ro_totals : 0 <= ri_source_total inputs /\ 0 <= ri_destination_total inputs;
  ro_maximum : u256 (ri_maximum inputs);
  ro_budget : ri_maximum inputs <= budget;
  ro_boundaries : Forall (fun b => 0 <= b) (ri_movement_boundaries inputs);
}.

Lemma market_position_Some market position :
  market_position market = Some position ->
  position ∈ vv_positions vault /\ pc_market_id position = market.
Proof. intros [H%list_elem_of_In He%Z.eqb_eq]%List.find_some. done. Qed.

Lemma position_maximum_nonneg position x :
  rate_wf -> position ∈ vv_positions vault -> 0 <= x ->
  0 <= Z.min x (pc_maximum_action_assets position).
Proof.
  intros [_ Ha _] Hp Hx. rewrite Forall_forall in Ha. specialize (Ha _ Hp). cbn in Ha. lia.
Qed.

Lemma rate_sources_nonneg l sources :
  rate_wf -> opt_map rate_source l = Some sources ->
  Forall (fun s : RateSource => 0 <= snd s) sources.
Proof.
  intros Hwf H. apply (opt_map_Forall _ (fun s : RateSource => 0 <= snd s) _ _ H).
  intros m s _ Hs. unfold rate_source in Hs. apply bind_Some in Hs as (p & Hp & Hs).
  apply bind_Some in Hs as (cur & _ & [= <-]). apply market_position_Some in Hp as [Hp _].
  apply position_maximum_nonneg; [done|done|apply saturating_sub_nonneg].
Qed.

Lemma rate_destinations_nonneg l destinations :
  rate_wf -> opt_map rate_destination l = Some destinations ->
  Forall (fun d : RateDestination => 0 <= snd (fst d) /\ Forall (fun b => 0 <= b) (snd d))
    destinations.
Proof.
  intros Hwf H.
  apply (opt_map_Forall _ (fun d : RateDestination => 0 <= snd (fst d) /\
    Forall (fun b => 0 <= b) (snd d)) _ _ H).
  intros m d _ Hd. unfold rate_destination in Hd. apply bind_Some in Hd as (p & Hp & Hd).
  apply bind_Some in Hd as (cur & _ & Hd). apply bind_Some in Hd as (bs & Hbs & [= <-]).
  apply market_position_Some in Hp as [Hp _]. cbn [fst snd]. split.
  - apply position_maximum_nonneg; [done|done|apply saturating_sub_nonneg].
  - unfold allocation_cap_boundaries in Hbs. apply bind_Some in Hbs as (q & _ & Hbs).
    apply (opt_map_Forall _ (fun b => 0 <= b)) in Hbs as [? _]; [done|].
    intros r h _ Hh. by eapply headroom_nonneg.
Qed.

Lemma released_nonneg l z t :
  0 <= z -> opt_fold (released_assets projection) z l = Some t -> 0 <= t.
Proof.
  revert z. induction l as [|x l IH]; intros z Hz H; cbn in H; [by injection H as <-|].
  apply bind_Some in H as (z' & Hz' & H). eapply IH; [|exact H].
  unfold released_assets in Hz'. apply bind_Some in Hz' as (cur & _ & Hz').
  apply checked_add_Some in Hz' as [-> _].
  pose proof (saturating_sub_nonneg cur (pc_minimum_position_assets x)). lia.
Qed.

Lemma reallocation_capacity_nonneg key capacity :
  reallocation_cap_limited_allocation snapshot projection vault key = Some capacity -> 0 <= capacity.
Proof.
  unfold reallocation_cap_limited_allocation. intros H. apply bind_Some in H as (p & _ & H).
  match type of H with opt_fold ?f _ _ = _ =>
    assert (forall l z, 0 <= z -> opt_fold f z l = Some capacity -> 0 <= capacity) as Hf end.
  - induction l as [|r l IH]; intros z Hz Ho; cbn [opt_fold] in Ho; [by injection Ho as <-|].
    apply bind_Some in Ho as (z' & Hz' & Ho). eapply IH; [|exact Ho].
    apply bind_Some in Hz' as (rel & Hrel & Hz'). apply released_nonneg in Hrel; [|done].
    apply bind_Some in Hz' as (h & Hh & Hz'). apply headroom_nonneg in Hh.
    apply bind_Some in Hz' as (av & Hav & Hz'). apply checked_add_Some in Hav as [-> _].
    injection Hz' as <-. lia.
  - by eapply Hf; [|exact H].
Qed.

Lemma rate_inputs_sound budget inputs :
  rate_wf -> 0 <= budget -> rate_inputs budget = Some inputs -> rate_inputs_ok budget inputs.
Proof.
  intros Hwf Hb H. unfold rate_inputs in H. do 4 (apply bind_Some in H as (? & _ & H)).
  apply bind_Some in H as (sources & Hs & H). apply bind_Some in H as (dests & Hd & H).
  cbv zeta in H. apply bind_Some in H as (st & Hst & H). apply bind_Some in H as (dt & Hdt & H).
  apply bind_Some in H as (bs & Hbs & [= <-]).
  apply (rate_sources_nonneg _ _ Hwf), (Forall_filter _ (fun s : RateSource => negb (snd s =? 0)))
    in Hs. apply (rate_destinations_nonneg _ _ Hwf),
    (Forall_filter _ (fun d : RateDestination => negb (snd (fst d) =? 0))) in Hd.
  apply Forall_and in Hd as [Hd1 Hd2].
  apply (opt_sum_Some (fun s : RateSource => snd s)) in Hst; [|done|done].
  apply (opt_sum_Some (fun d : RateDestination => snd (fst d))) in Hdt; [|done|done].
  assert (Forall (Forall (fun b => 0 <= b)) bs) as Hbs'.
  { apply (opt_map_Forall _ (Forall (fun b => 0 <= b))) in Hbs as [? _]; [done|].
    intros [[p m] b] ys Hin Hy. unfold rate_boundaries in Hy.
    apply bind_Some in Hy as (cap & Hcap & [= <-]). apply reallocation_capacity_nonneg in Hcap.
    rewrite Forall_forall in Hd1. rewrite Forall_forall in Hd2.
    specialize (Hd1 _ Hin). specialize (Hd2 _ Hin). cbn in Hd1, Hd2.
    constructor; [done|]. apply Forall_app. split; [done|]. constructor; [lia|done]. }
  split; cbn [ri_sources ri_destinations ri_source_total ri_destination_total ri_maximum
    ri_movement_boundaries]; try done; [lia|unfold in_u; lia|lia|].
  assert (Forall (fun b => 0 <= b) (concat bs)) as Hc by (by apply Forall_concat).
  repeat (constructor; [lia|]). exact Hc.
Qed.

(** ** The distributions *)

Definition rate_candidate (budget : Z) (inputs : RateInputs) (amount : Z)
    (c : SolvedRateCandidate) : Prop :=
  exists sources destinations,
    distribution (snd <$> ri_sources inputs) (cl_amounts <$> rate_source_lattices budget inputs)
      amount (vv_minimum_action_assets vault) sources /\
    distribution ((fun d : RateDestination => snd (fst d)) <$> ri_destinations inputs)
      (cl_amounts <$> rate_destination_lattices budget inputs) amount
      (vv_minimum_action_assets vault) destinations /\
    evaluate_rate inputs amount (sources, destinations) = Ok c.

Lemma rate_amounts_bounds budget inputs amount :
  rate_wf -> rate_inputs_ok budget inputs -> amount ∈ rate_amounts inputs ->
  u256 amount /\ vv_minimum_action_assets vault <= amount <= budget.
Proof.
  intros Hwf [_ _ _ _ [Hm0 Hm] Hbud Hb] Hin. unfold rate_amounts in Hin.
  apply list_elem_of_In, filter_In in Hin as [Hin%list_elem_of_In Hle%Z.leb_le].
  pose proof (lattice_bounds (vv_minimum_action_assets vault) (ri_maximum inputs)
    (ri_movement_boundaries inputs) (so_maximum_amount_candidates_per_position solver)
    ltac:(pose proof (rw_minimum Hwf); lia) Hm0 Hb (rw_limit Hwf)) as Hl.
  rewrite Forall_forall in Hl. specialize (Hl amount Hin). unfold in_u. lia.
Qed.

Lemma rate_pairs_enumerate budget inputs amount limit sources destinations c :
  rate_wf -> 0 <= budget -> rate_inputs_ok budget inputs -> u256 amount ->
  rate_source_distributions budget inputs amount limit = Some sources ->
  rate_destination_distributions budget inputs amount limit = Some destinations ->
  (exists chosen, chosen ∈ distribution_pairs sources destinations /\
     evaluate_rate inputs amount chosen = Ok c) <-> rate_candidate budget inputs amount c.
Proof.
  intros Hwf Hb [R1 R2 R3 [R4 R4'] _ _ _] Ha Hs Hd.
  assert (0 <= vv_minimum_action_assets vault) as Hmin by (pose proof (rw_minimum Hwf); lia).
  apply bounded_distributions_spec in Hs as (_ & _ & Hs); [| |..|done|apply Hwf];
    [|by unfold rate_source_lattices; rewrite !length_fmap|].
  2:{ apply (lattices_nonneg_build _ _ (fun s : RateSource => snd s)
        (fun _ => [budget; ri_source_total inputs])); [done|apply Hwf|done|].
      apply Forall_true. intros _. by repeat constructor. }
  apply bounded_distributions_spec in Hd as (_ & _ & Hd); [| |..|done|apply Hwf];
    [|by unfold rate_destination_lattices; rewrite !length_fmap|].
  2:{ apply (lattices_nonneg_build _ _ (fun d : RateDestination => snd (fst d))
        (fun d => [budget; ri_destination_total inputs; snd (fst d)] ++ snd d));
        [done|apply Hwf|done|]. rewrite Forall_forall in R2. rewrite Forall_forall in R3.
      apply Forall_forall. intros d Hin.
      constructor; [done|]. constructor; [done|]. constructor; [by apply R2|by apply R3]. }
  unfold rate_candidate. split.
  - intros ([s d] & [Hs1%Hs Hd1%Hd]%elem_of_distribution_pairs & He). eauto.
  - intros (s & d & Hs1 & Hd1 & He). exists (s, d).
    rewrite elem_of_distribution_pairs, Hs, Hd. done.
Qed.

(** ** The search *)

(** The certificate only moves forward and stays within its limit. *)
Record certificate_advances (c c' : SearchCertificate) : Prop := {
  ca_limit : se_node_limit c' = se_node_limit c;
  ca_nodes : se_nodes_evaluated c <= se_node_limit c ->
    se_nodes_evaluated c' <= se_node_limit c;
  ca_complete : se_search_complete c' = true -> se_search_complete c = true;
}.

Lemma certificate_advances_refl c : certificate_advances c c.
Proof. split; auto. Qed.

Lemma certificate_advances_trans a b c :
  certificate_advances a b -> certificate_advances b c -> certificate_advances a c.
Proof. intros [A1 A2 A3] [B1 B2 B3]. split; [congruence| |auto]. rewrite A1 in B2. auto. Qed.

Lemma certificate_advances_incomplete c : certificate_advances c (mark_incomplete c).
Proof. by split. Qed.

Lemma rate_step_advances inputs amount s chosen :
  se_nodes_evaluated (rs_certificate s) < se_node_limit (rs_certificate s) ->
  certificate_advances (rs_certificate s) (rs_certificate (rate_step inputs amount s chosen)) /\
  rs_candidates (rate_step inputs amount s chosen) =
    rs_candidates s ++ option_list (to_option (evaluate_rate inputs amount chosen)).
Proof.
  intros Hn. unfold rate_step.
  assert (certificate_advances (rs_certificate s) (count_node (rs_certificate s))) as Hc.
  { split; cbn; auto. intros _. rewrite saturating_add_spec. lia. }
  destruct (evaluate_rate inputs amount chosen) as [c|reason]; cbn; [done|].
  rewrite app_nil_r. split; [|done]. destruct (reject_keeps (count_node (rs_certificate s)) reason)
    as (R1 & R2 & R3). destruct Hc as [C1 C2 C3].
  split; [congruence|rewrite R2; auto|auto].
Qed.

Lemma rate_pairs_spec inputs amount pairs s :
  let '(stopped, s') := rate_pairs inputs amount s pairs in
  certificate_advances (rs_certificate s) (rs_certificate s') /\
  (forall c, c ∈ rs_candidates s' -> c ∈ rs_candidates s \/
     exists chosen, chosen ∈ pairs /\ evaluate_rate inputs amount chosen = Ok c) /\
  (forall c, c ∈ rs_candidates s -> c ∈ rs_candidates s') /\
  if stopped then se_search_complete (rs_certificate s') = false
  else forall chosen c, chosen ∈ pairs -> evaluate_rate inputs amount chosen = Ok c ->
    c ∈ rs_candidates s'.
Proof.
  revert s. induction pairs as [|chosen pairs IH]; intros s; cbn [rate_pairs].
  { split; [apply certificate_advances_refl|]. split; [by left|]. split; [done|].
    by intros ch c Hc%elem_of_nil. }
  destruct (_ <=? _) eqn:E; bool_spec E.
  { split; [apply certificate_advances_incomplete|]. split; [by left|done]. }
  destruct (rate_step_advances inputs amount s chosen E) as [Hadv Hcand].
  specialize (IH (rate_step inputs amount s chosen)).
  destruct (rate_pairs _ _ _ pairs) as [stopped s']. destruct IH as (Hadv' & Hs & Hk & Hall).
  split; [by eapply certificate_advances_trans|]. split; [|split].
  - intros c [Hc|(ch & ? & ?)]%Hs; [|right; exists ch; split; [by right|done]].
    rewrite Hcand in Hc. apply elem_of_app in Hc as [?|Hc]; [by left|right].
    exists chosen. split; [by left|]. destruct (evaluate_rate inputs amount chosen); cbn in Hc.
    + by apply list_elem_of_singleton in Hc as ->.
    + by apply elem_of_nil in Hc.
  - intros c Hc. apply Hk. rewrite Hcand. apply elem_of_app. by left.
  - destruct stopped; [done|]. intros ch c [->|Hin]%elem_of_cons He; [|by eapply Hall].
    apply Hk. rewrite Hcand, He. apply elem_of_app. right. by left.
Qed.

Lemma rate_search_spec budget inputs amounts s :
  rate_wf -> 0 <= budget -> rate_inputs_ok budget inputs -> Forall u256 amounts ->
  let s' := rate_search budget inputs s amounts in
  certificate_advances (rs_certificate s) (rs_certificate s') /\
  (forall c, c ∈ rs_candidates s' -> c ∈ rs_candidates s \/
     exists amount, amount ∈ amounts /\ rate_candidate budget inputs amount c) /\
  (forall c, c ∈ rs_candidates s -> c ∈ rs_candidates s') /\
  (se_search_complete (rs_certificate s') = true ->
   forall amount c, amount ∈ amounts -> rate_candidate budget inputs amount c ->
     c ∈ rs_candidates s').
Proof.
  intros Hwf Hb Hin. revert s. induction amounts as [|amount amounts IH]; intros s Hu; cbn.
  { split; [apply certificate_advances_refl|]. split; [by left|]. split; [done|].
    by intros _ a c Ha%elem_of_nil. }
  apply Forall_cons in Hu as [Ha Hu]. set (limit := saturating_sub _ _).
  destruct (rate_source_distributions budget inputs amount limit) as [sources|] eqn:Es;
    [|split; [apply certificate_advances_incomplete|]; split; [by left|done]].
  destruct (rate_destination_distributions budget inputs amount limit) as [destinations|] eqn:Ed;
    [|split; [apply certificate_advances_incomplete|]; split; [by left|done]].
  pose proof (fun c => rate_pairs_enumerate budget inputs amount limit sources destinations c
    Hwf Hb Hin Ha Es Ed) as Henum.
  pose proof (rate_pairs_spec inputs amount (distribution_pairs sources destinations) s) as Hp.
  destruct (rate_pairs _ _ _ _) as [stopped s1]. destruct Hp as (Hadv & Hs & Hk & Hall).
  destruct stopped.
  - split; [done|]. split; [|split; [done|intros Hc; congruence]].
    intros c [?|He%Henum]%Hs; [by left|right]. exists amount. split; [by left|done].
  - destruct (IH s1 Hu) as (Hadv' & Hs' & Hk' & Hall').
    split; [by eapply certificate_advances_trans|]. split; [|split; [auto|]].
    + intros c [[?|He%Henum]%Hs|(a & ? & ?)]%Hs'; [by left|right|right].
      * exists amount. split; [by left|done].
      * exists a. split; [by right|done].
    + intros Hc a c [->|Hin']%elem_of_cons Hcand; [|by eapply Hall'].
      apply Hk'. apply Henum in Hcand as (ch & Hch & He). by eapply Hall.
Qed.

(** ** The ranking *)

Definition outranks (target : Z) (reachable : bool) (a b : SolvedRateCandidate) : bool :=
  ranks_before RateRebalance (src_objective a) (src_objective b) target reachable.

Lemma rank_candidates_spec target reachable candidates init :
  match fold_left (rank_candidate target reachable) candidates init with
  | None => init = None /\ candidates = []
  | Some b => (init = Some b \/ b ∈ candidates) /\
      (forall c, c ∈ candidates \/ init = Some c -> outranks target reachable c b = false)
  end.
Proof.
  revert init. induction candidates as [|x candidates IH]; intros init; cbn [fold_left].
  { destruct init as [b|]; [|done]. split; [by left|].
    intros c [Hc%elem_of_nil|[= <-]]; [done|]. apply ranks_before_irrefl. }
  specialize (IH (rank_candidate target reachable init x)).
  destruct (fold_left _ candidates _) as [b|];
    [|destruct IH as [H _]; destruct init; cbn in H; by repeat case_match].
  destruct IH as [Hin Hmin].
  assert (exists d, rank_candidate target reachable init x = Some d /\
    (init = Some d \/ d = x) /\ outranks target reachable x d = false /\
    forall c, init = Some c -> outranks target reachable c d = false) as (d & Hd & Hdi & Hdx & Hdc).
  { unfold rank_candidate. destruct init as [c|].
    - destruct (ranks_before _ (src_objective x) _ _ _) eqn:E.
      + exists x. split; [done|]. split; [by right|]. split; [apply ranks_before_irrefl|].
        intros c' [= <-]. by apply ranks_before_asym.
      + exists c. split; [done|]. split; [by left|]. split; [done|].
        intros c' [= <-]. apply ranks_before_irrefl.
    - exists x. split; [done|]. split; [by right|]. split; [apply ranks_before_irrefl|done]. }
  rewrite Hd in Hin, Hmin. split.
  - destruct Hin as [[= <-]|?]; [|right; by right]. destruct Hdi as [?| ->]; [by left|right; by left].
  - assert (forall c, outranks target reachable c d = false -> outranks target reachable c b = false)
      as Htr.
    { intros c Hc. eapply ranks_before_not_trans; [|exact Hc]. apply Hmin. by right. }
    intros c [[->|Hc]%elem_of_cons|Hc]; [by apply Htr|apply Hmin; by left|by apply Htr, Hdc].
Qed.

(** One spread search is exact when it completes. It never evaluates more
    nodes than its limit; the target counts as reachable exactly when some
    passing movement within the budget reaches it; without a best candidate no
    movement passes the checks; and no passing movement ranks before the best
    one, which is itself one of them. *)
Theorem rate_search_optimal budget :
  rate_wf -> 0 <= budget -> 0 <= so_maximum_nodes solver ->
  let r := search_rate_rebalance budget in
  let target := convergence_spread strategy in
  se_nodes_evaluated (rr_certificate r) <= se_node_limit (rr_certificate r) /\
  (se_search_complete (rr_certificate r) = true ->
   exists inputs, rate_inputs budget = Some inputs /\
     let passing c := exists amount, amount ∈ rate_amounts inputs /\
                        rate_candidate budget inputs amount c in
     (rr_target_reachable r = true <->
        exists c, passing c /\ om_applicable_spread (src_objective c) <= target) /\
     match rr_best r with
     | None => forall c, ~ passing c
     | Some b => passing b /\ forall c, passing c ->
         ranks_before RateRebalance (src_objective c) (src_objective b) target
           (rr_target_reachable r) = false
     end).
Proof.
  intros Hwf Hb Hn. cbn zeta. unfold search_rate_rebalance.
  destruct (rate_inputs budget) as [inputs|] eqn:Ein; [|done].
  pose proof (rate_inputs_sound _ _ Hwf Hb Ein) as Hin.
  destruct (rate_search_spec budget inputs (rate_amounts inputs)
    (mkRateSearch (initial_certificate (so_maximum_nodes solver) true) []) Hwf Hb Hin)
    as ([A1 A2 _] & Hs & _ & Hall).
  { apply Forall_forall. intros a Ha. by apply (rate_amounts_bounds budget inputs a Hwf Hin). }
  cbn zeta in *. set (s := rate_search _ _ _ _) in *. cbn [rs_candidates rs_certificate] in *.
  cbn [rr_certificate rr_best rr_target_reachable with_lattice_hash se_nodes_evaluated
    se_node_limit se_search_complete].
  split; [rewrite A1; by apply A2|]. intros Hc. exists inputs. split; [done|].
  assert (forall c, c ∈ rs_candidates s <-> exists amount, amount ∈ rate_amounts inputs /\
    rate_candidate budget inputs amount c) as Hiff.
  { intros c. split; [by intros [?%elem_of_nil|?]%Hs|]. intros (a & Ha & Hcand). by eapply Hall. }
  split.
  - rewrite existsb_exists. split.
    + intros (c & Hcs%list_elem_of_In%Hiff & Hle%Z.leb_le). eauto.
    + intros (c & Hcs%Hiff & Hle). exists c. by rewrite <-list_elem_of_In, Z.leb_le.
  - set (reachable := existsb _ _).
    pose proof (rank_candidates_spec (convergence_spread strategy) reachable (rs_candidates s) None)
      as Hr.
    destruct (fold_left _ _ _) as [b|].
    + destruct Hr as [[?|Hbs%Hiff] Hmin]; [done|]. split; [done|].
      intros c Hc'%Hiff. apply Hmin. by left.
    + destruct Hr as [_ Hnil]. intros c Hc'%Hiff. rewrite Hnil in Hc'. by apply elem_of_nil in Hc'.
Qed.

(** ** The plan *)

(** What a returned movement satisfies. *)
Record rate_plan_ok (c : SolvedRateCandidate) : Prop := {
  rp_simulated : simulate_actions snapshot projection vault (src_actions c) = Ok (src_state c);
  rp_service : validate_service_constraints (src_state c) snapshot vault = Ok tt;
  rp_idle : vv_strict_zero_routine_idle vault = true -> exists idle,
    unreserved_idle (src_state c) = Ok idle /\ idle <= vv_maximum_rounding_dust_assets vault;
  rp_loss : ss_immediate_loss_assets (src_state c)
    <= vv_maximum_immediate_rebalance_loss_assets vault;
  rp_terminal : exists baseline planned,
    let horizon := blk_timestamp (pw_head projection) + sg_benefit_horizon_seconds strategy in
    no_plan_terminal_existing_shareholder_assets snapshot vault projection horizon = Ok baseline /\
    terminal_existing_shareholder_assets (src_state c) snapshot projection horizon = Ok planned /\
    baseline <= planned + vv_maximum_terminal_value_sacrifice_assets vault;
  rp_spread :
    let markets := match re_objective_branch episode with
                   | Portfolio => re_evaluation_markets episode
                   | Controllable => re_controllable_markets episode
                   end in
    complete_strategy_spread markets (pw_markets projection) (sg_objective strategy)
      = Some (src_before_spread c) /\
    complete_strategy_spread markets (ss_markets (src_state c)) (sg_objective strategy)
      = Some (om_applicable_spread (src_objective c)) /\
    minimum_improvement strategy (bool_decide (re_objective_branch episode = Portfolio))
      <= saturating_sub (src_before_spread c) (om_applicable_spread (src_objective c));
  rp_movement : moved true (src_actions c) = om_movement_assets (src_objective c) /\
    moved false (src_actions c) = om_movement_assets (src_objective c) /\
    vv_minimum_action_assets vault <= om_movement_assets (src_objective c);
  rp_direction : Forall (fun a => exists position, position ∈ vv_positions vault /\
    0 < action_assets a <= pc_maximum_action_assets position /\
    if is_allocation a
    then a = allocate_destination position (action_assets a) /\
         pc_market_id position ∈ re_destination_markets episode
    else a = deallocate_source position (action_assets a) /\
         pc_market_id position ∈ re_source_markets episode) (src_actions c);
}.

Lemma evaluate_rate_Ok inputs amount chosen c :
  evaluate_rate inputs amount chosen = Ok c ->
  src_actions c = rate_actions inputs chosen /\
  src_before_spread c = ri_before_spread inputs /\
  simulate_actions snapshot projection vault (src_actions c) = Ok (src_state c) /\
  validate_service_constraints (src_state c) snapshot vault = Ok tt /\
  (vv_strict_zero_routine_idle vault = true -> exists idle,
     unreserved_idle (src_state c) = Ok idle /\ idle <= vv_maximum_rounding_dust_assets vault) /\
  ss_immediate_loss_assets (src_state c) <= vv_maximum_immediate_rebalance_loss_assets vault /\
  (exists planned, terminal_existing_shareholder_assets (src_state c) snapshot projection
       (ri_horizon_timestamp inputs) = Ok planned /\
     ri_no_plan_terminal inputs <= planned + vv_maximum_terminal_value_sacrifice_assets vault) /\
  (exists delta, metrics (src_state c) (re_evaluation_markets episode)
     (re_controllable_markets episode) (re_objective_branch episode) (sg_objective strategy) amount
     delta = Some (src_objective c)) /\
  rate_spread_rejected (ri_before_spread inputs) (src_objective c) = false.
Proof.
  unfold evaluate_rate. intros H. step_ok H as st Hst%map_err_Ok. step_ok H as [] Hsv%map_err_Ok.
  destruct (_ && _) eqn:Ei; [done|]. destruct (_ <? ss_immediate_loss_assets _) eqn:El; [done|].
  step_ok H as planned Hpl%map_err_Ok.
  destruct (checked_add U256_MAX planned _) as [allowed|] eqn:Ea; [|done].
  apply checked_add_Some in Ea as [-> _]. destruct (_ <? ri_no_plan_terminal _) eqn:Et; [done|].
  step_ok H as delta _. step_ok H as obj Hobj%ok_or_Ok.
  destruct (rate_spread_rejected _ _) eqn:Es; [done|]. injection H as <-.
  cbn [src_actions src_state src_objective src_before_spread]. bool_spec El. bool_spec Et.
  split_and!; try done; [|by exists planned|by exists delta].
  intros Hz. rewrite Hz in Ei. destruct (unreserved_idle st) as [idle|]; [|done].
  exists idle. bool_spec Ei. destruct Ei as [?|?]; [done|]. split; [done|lia].
Qed.

Lemma rate_inputs_facts budget inputs :
  rate_inputs budget = Some inputs ->
  complete_strategy_spread (match re_objective_branch episode with
    | Portfolio => re_evaluation_markets episode
    | Controllable => re_controllable_markets episode end)
    (pw_markets projection) (sg_objective strategy) = Some (ri_before_spread inputs) /\
  ri_horizon_timestamp inputs =
    blk_timestamp (pw_head projection) + sg_benefit_horizon_seconds strategy /\
  no_plan_terminal_existing_shareholder_assets snapshot vault projection
    (ri_horizon_timestamp inputs) = Ok (ri_no_plan_terminal inputs) /\
  Forall (fun s : RateSource => s.1 ∈ vv_positions vault /\
    pc_market_id s.1 ∈ re_source_markets episode /\ s.2 <= pc_maximum_action_assets s.1)
    (ri_sources inputs) /\
  Forall (fun d : RateDestination => d.1.1 ∈ vv_positions vault /\
    pc_market_id d.1.1 ∈ re_destination_markets episode /\
    d.1.2 <= pc_maximum_action_assets d.1.1) (ri_destinations inputs).
Proof.
  unfold rate_inputs. intros H. apply bind_Some in H as (pf & Hpf & H).
  apply bind_Some in H as (ct & Hct & H). apply bind_Some in H as (hz & Hhz & H).
  apply bind_Some in H as (np & Hnp & H). apply bind_Some in H as (ss & Hs & H).
  apply bind_Some in H as (ds & Hd & H). cbv zeta in H.
  do 3 (apply bind_Some in H as (? & _ & H)). injection H as <-.
  apply checked_add_Some in Hhz as [-> _]. apply to_option_Some in Hnp.
  cbn [ri_before_spread ri_horizon_timestamp ri_no_plan_terminal ri_sources ri_destinations].
  split; [by destruct (re_objective_branch episode)|]. split; [done|]. split; [done|].
  split; apply Forall_filter.
  - apply (opt_map_Forall _ (fun s : RateSource => s.1 ∈ vv_positions vault /\
      pc_market_id s.1 ∈ re_source_markets episode /\ s.2 <= pc_maximum_action_assets s.1)) in Hs;
      [apply Hs|].
    intros m s Hm Hsrc. apply elem_of_set_elements in Hm. unfold rate_source in Hsrc.
    apply bind_Some in Hsrc as (p & Hp & Hsrc). apply bind_Some in Hsrc as (cur & _ & [= <-]).
    apply market_position_Some in Hp as [? <-]. cbn. split_and!; try done; lia.
  - apply (opt_map_Forall _ (fun d : RateDestination => d.1.1 ∈ vv_positions vault /\
      pc_market_id d.1.1 ∈ re_destination_markets episode /\
      d.1.2 <= pc_maximum_action_assets d.1.1)) in Hd; [apply Hd|].
    intros m d Hm Hdst. apply elem_of_set_elements in Hm. unfold rate_destination in Hdst.
    apply bind_Some in Hdst as (p & Hp & Hdst). apply bind_Some in Hdst as (cur & _ & Hdst).
    apply bind_Some in Hdst as (bs & _ & [= <-]).
    apply market_position_Some in Hp as [? <-]. cbn. split_and!; try done; lia.
Qed.

Lemma metrics_Some state delta amount m :
  metrics state (re_evaluation_markets episode) (re_controllable_markets episode)
    (re_objective_branch episode) (sg_objective strategy) amount delta = Some m ->
  om_movement_assets m = amount /\
  complete_strategy_spread (match re_objective_branch episode with
    | Portfolio => re_evaluation_markets episode
    | Controllable => re_controllable_markets episode end)
    (ss_markets state) (sg_objective strategy) = Some (om_applicable_spread m).
Proof.
  unfold metrics. intros H. apply bind_Some in H as (pf & Hpf & H).
  apply bind_Some in H as (ct & Hct & H).
  destruct (re_objective_branch episode); cbn in H; apply bind_Some in H as (idle & _ & [= <-]);
    by split.
Qed.

Lemma rate_actions_sound budget inputs amount sources destinations :
  rate_wf -> 0 <= budget -> rate_inputs budget = Some inputs ->
  distribution (snd <$> ri_sources inputs) (cl_amounts <$> rate_source_lattices budget inputs)
    amount (vv_minimum_action_assets vault) sources ->
  distribution ((fun d : RateDestination => snd (fst d)) <$> ri_destinations inputs)
    (cl_amounts <$> rate_destination_lattices budget inputs) amount
    (vv_minimum_action_assets vault) destinations ->
  let acts := rate_actions inputs (sources, destinations) in
  moved true acts = amount /\ moved false acts = amount /\
  Forall (fun a => exists position, position ∈ vv_positions vault /\
    0 < action_assets a <= pc_maximum_action_assets position /\
    if is_allocation a
    then a = allocate_destination position (action_assets a) /\
         pc_market_id position ∈ re_destination_markets episode
    else a = deallocate_source position (action_assets a) /\
         pc_market_id position ∈ re_source_markets episode) acts.
Proof.
  intros Hwf Hb Hin Hs Hd. pose proof (rate_inputs_sound _ _ Hwf Hb Hin) as [R1 R2 R3 [R4 R4'] _ _ _].
  apply rate_inputs_facts in Hin as (_ & _ & _ & Fs & Fd).
  assert (0 <= vv_minimum_action_assets vault) as Hmin by (pose proof (rw_minimum Hwf); lia).
  pose proof (rw_limit Hwf) as Hlim.
  pose proof (distribution_nonneg _ _ _ _ _ Hmin Hs) as (L1 & S1 & _).
  pose proof (distribution_nonneg _ _ _ _ _ Hmin Hd) as (L2 & S2 & _).
  rewrite length_fmap in L1. rewrite length_fmap in L2.
  assert (Forall2 (fun n (s : RateSource) => 0 <= n <= s.2) sources (ri_sources inputs)) as Hs2.
  { eapply (distribution_within _ _ (fun s : RateSource => snd s)
      (fun _ => [budget; ri_source_total inputs])); [exact Hmin|exact Hlim|exact R1| |exact Hs].
    apply Forall_true. intros _. by repeat constructor. }
  assert (Forall2 (fun n (d : RateDestination) => 0 <= n <= d.1.2) destinations (ri_destinations inputs))
    as Hd2.
  { eapply (distribution_within _ _ (fun d : RateDestination => snd (fst d))
      (fun d => [budget; ri_destination_total inputs; snd (fst d)] ++ snd d));
      [exact Hmin|exact Hlim|exact R2| |exact Hd].
    rewrite Forall_forall in R2. rewrite Forall_forall in R3. apply Forall_forall. intros d Hdin.
    constructor; [done|]. constructor; [done|]. constructor; [by apply R2|by apply R3]. }
  cbn zeta. unfold rate_actions. cbn [fst snd]. rewrite !moved_app.
  destruct (moved_built (fun s : RateSource => deallocate_source (fst s)) false (ri_sources inputs)
    sources) as [A1 A2]; [done|done|]. cbn zeta in A1, A2. rewrite A1. cbn [negb] in A2. rewrite A2.
  destruct (moved_built (fun d : RateDestination => allocate_destination (fst (fst d))) true
    (ri_destinations inputs) destinations) as [B1 B2]; [done|done|]. cbn zeta in B1, B2.
  rewrite B1. cbn [negb] in B2. rewrite B2. split; [lia|]. split; [lia|].
  apply Forall_app. rewrite Forall_forall in Fs. rewrite Forall_forall in Fd.
  split; apply Forall_forall; intros a Ha.
  - eapply (built_elem (fun s : RateSource => deallocate_source (fst s))) in Ha
      as (s & n & Hsin & Hnz & Hle & ->); [|exact Hs2].
    cbn beta in Hle. destruct (Fs s Hsin) as (F1 & F2 & F3). exists s.1. split; [done|].
    split; [cbn; lia|by split].
  - eapply (built_elem (fun d : RateDestination => allocate_destination (fst (fst d)))) in Ha
      as (d & n & Hdin & Hnz & Hle & ->); [|exact Hd2].
    cbn beta in Hle. destruct (Fd d Hdin) as (F1 & F2 & F3). exists d.1.1. split; [done|].
    split; [cbn; lia|by split].
Qed.

Lemma rate_candidate_ok budget inputs amount c :
  rate_wf -> 0 <= budget -> rate_inputs budget = Some inputs -> amount ∈ rate_amounts inputs ->
  rate_candidate budget inputs amount c ->
  rate_plan_ok c /\ om_movement_assets (src_objective c) <= budget.
Proof.
  intros Hwf Hb Hin Ha (sources & destinations & Hs & Hd & He).
  destruct (rate_amounts_bounds budget inputs amount Hwf (rate_inputs_sound _ _ Hwf Hb Hin) Ha)
    as [_ Hle].
  destruct (rate_actions_sound _ _ _ _ _ Hwf Hb Hin Hs Hd) as (M1 & M2 & Hdir).
  apply rate_inputs_facts in Hin as (F1 & F2 & F3 & _).
  apply evaluate_rate_Ok in He as (E1 & E2 & E3 & E4 & E5 & E6 & (pl & E7 & E7') & (dl & E8) & E9).
  apply metrics_Some in E8 as [Hm Hsp]. rewrite <-E1 in M1, M2, Hdir.
  split; [|lia]. split; try done.
  - exists (ri_no_plan_terminal inputs), pl. cbn zeta. by rewrite <-F2.
  - cbn zeta. rewrite E2. split; [done|]. split; [done|].
    unfold rate_spread_rejected in E9. bool_spec E9. lia.
  - lia.
Qed.

Lemma search_rate_best budget c :
  rate_wf -> 0 <= budget -> rr_best (search_rate_rebalance budget) = Some c ->
  rate_plan_ok c /\ om_movement_assets (src_objective c) <= budget.
Proof.
  intros Hwf Hb H. unfold search_rate_rebalance in H.
  destruct (rate_inputs budget) as [inputs|] eqn:Ein; [|done].
  pose proof (rate_inputs_sound _ _ Hwf Hb Ein) as Hin.
  destruct (rate_search_spec budget inputs (rate_amounts inputs)
    (mkRateSearch (initial_certificate (so_maximum_nodes solver) true) []) Hwf Hb Hin)
    as (_ & Hs & _).
  { apply Forall_forall. intros a Ha. by apply (rate_amounts_bounds budget inputs a Hwf Hin). }
  cbn zeta in *. set (s := rate_search _ _ _ _) in *. cbn [rr_best] in H.
  pose proof (rank_candidates_spec (convergence_spread strategy)
    (existsb (fun c => om_applicable_spread (src_objective c) <=? convergence_spread strategy)
       (rs_candidates s)) (rs_candidates s) None) as Hr.
  rewrite H in Hr. destruct Hr as [[?|Hc] _]; [done|].
  apply Hs in Hc as [Hc%elem_of_nil|(a & Ha & Hc)]; [done|]. by eapply rate_candidate_ok.
Qed.

Lemma unspent_nonneg maximum value : unspent episode maximum = Ok value -> 0 <= value.
Proof.
  unfold unspent. intros H%ok_or_Ok. apply bind_Some in H as (v & _ & H).
  apply checked_sub_Some in H as [-> ?]. lia.
Qed.

(** The search that produced the returned movement. *)
Lemma solve_rate_search c :
  rate_wf -> 0 <= sg_immediate_tranche_bps strategy ->
  rr_best solve_rate_rebalance = Some c ->
  executable_rate_search (rr_certificate solve_rate_rebalance) = true ->
  exists unlocked full budget, available_budget episode = Ok unlocked /\
    remaining_budget episode = Ok full /\ 0 <= budget <= full /\
    rr_best (search_rate_rebalance budget) = Some c /\
    om_movement_assets (src_objective c) <= Z.min unlocked full.
Proof.
  intros Hwf Hbps. unfold solve_rate_rebalance.
  destruct (remaining_budget episode) as [full|] eqn:Efull; [|done].
  pose proof (unspent_nonneg _ _ Efull) as Hfull.
  destruct (negb _) eqn:Eex; [intros _ He; by rewrite He in Eex|].
  destruct (rr_best (search_rate_rebalance full)) as [best|] eqn:Ebest;
    [|intros H; by rewrite Ebest in H].
  destruct (search_rate_best _ _ Hwf Hfull Ebest) as [Hok Hle].
  destruct (available_budget episode) as [unlocked|] eqn:Eun; [|done].
  pose proof (unspent_nonneg _ _ Eun) as Hun.
  destruct (constrained_movement_limit _ _ _) as [limit|] eqn:El; [|done].
  unfold constrained_movement_limit in El. apply bind_Some in El as (tr & Htr & [= <-]).
  apply to_option_Some, mul_div_down_Ok in Htr as (_ & _ & ->).
  pose proof (rw_minimum Hwf). pose proof (rp_movement _ Hok) as (_ & _ & Hmin).
  assert (0 <= om_movement_assets (src_objective best) * sg_immediate_tranche_bps strategy / 10000)
    as Htr by (apply Z.div_pos; [apply Z.mul_nonneg_nonneg|]; lia).
  destruct (_ <=? _) eqn:Ecmp; bool_spec Ecmp.
  - intros Hc _. rewrite Ebest in Hc. injection Hc as <-.
    exists unlocked, full, full. split_and!; try done; lia.
  - cbn [rr_best rr_certificate]. intros Hc _.
    pose proof Hc as [_ Hlec]%search_rate_best; [|done|lia].
    exists unlocked, full, (Z.min (om_movement_assets (src_objective best)
      * sg_immediate_tranche_bps strategy / 10000) unlocked). split_and!; try done; lia.
Qed.

(** C21: Whatever movement the rate solver returns with an executable
    certificate is safe for its episode. It simulates to the returned state,
    which meets every service constraint, leaves no idle dust when the vault
    forbids it, stays within the loss and value bounds, and improves the
    applicable spread of the frozen markets by the configured minimum. It
    takes one amount, no less than the minimum action and no more than the
    unlocked budget of the episode, from the frozen sources to the frozen
    destinations, within the limit of every position. *)
Theorem rate_plan_sound c :
  rate_wf -> 0 <= sg_immediate_tranche_bps strategy ->
  rr_best solve_rate_rebalance = Some c ->
  executable_rate_search (rr_certificate solve_rate_rebalance) = true ->
  rate_plan_ok c /\
  exists unlocked full, available_budget episode = Ok unlocked /\
    remaining_budget episode = Ok full /\
    om_movement_assets (src_objective c) <= Z.min unlocked full.
Proof.
  intros Hwf Hbps Hb He.
  destruct (solve_rate_search _ Hwf Hbps Hb He) as (unlocked & full & b & Hu & Hf & Hr & Hs & Hm).
  destruct (search_rate_best _ _ Hwf (proj1 Hr) Hs) as [Hok _]. split; [done|].
  by exists unlocked, full.
Qed.

End Solve.
