(* ===== verification/TopK.v ===== *)
(** * Top-K diversification policy

    Models the policy half of [src/src/planner/top_k_apy.rs]: the conservative
    rate evidence of every eligible market, the proposed membership with its
    entry, exit and replacement thresholds, the canonical confirmation window,
    and the target allocation with its score.  The solvers that move assets
    toward the target are in [TopKSolve]. *)
From Stdlib Require Import ZArith Lia List Bool.
From stdpp Require Import base list gmap sets.
From S2P Require Import Prelude.
From S2P Require Import BlueMath.
From S2P Require Import Domain.
From S2P Require Import Adapters.
From S2P Require Import Config.
From S2P Require Import Projection.
From S2P Require Import Capital.
From S2P Require Import Models.
Open Scope Z_scope.

Inductive TopKApyNoActionReason : Type :=
| InsufficientEligibleMarkets
| TopSetUnconfirmed
| TopTargetReached
| BelowEntryScore
| NoFeasibleCandidate
| ImprovementBelowMinimum
| SearchIncomplete.
#[global] Instance TopKApyNoActionReason_eq_dec : EqDecision TopKApyNoActionReason.
Proof. solve_decision. Defined.

Record TopKMarketEvidence : Type := mkTopKMarketEvidence {
  tm_market : MarketId;
  tm_current_rate : Z;
  tm_post_probe_rate : Z;
  tm_smoothed_rate : Z;
  tm_ranking_rate : Z;
  tm_destination_capacity : Z;
}.
#[global] Instance TopKMarketEvidence_eq_dec : EqDecision TopKMarketEvidence.
Proof. solve_decision. Defined.

Record TopKApyTarget : Type := mkTopKApyTarget {
  tt_selected_markets : list MarketId;
  tt_target_assets_by_market : gmap MarketId Z;
  tt_current_assets_by_market : gmap MarketId Z;
  tt_evidence_by_market : gmap MarketId TopKMarketEvidence;
  tt_target_direct_assets : Z;
  tt_current_score_wad : Z;
}.

Record TopKApyObservation : Type := mkTopKApyObservation {
  ob_target : option TopKApyTarget;
  ob_no_action_reason : option TopKApyNoActionReason;
  ob_next_memory : TopKApyMemory;
}.

Inductive TopKApyError : Type :=
| TopIncompleteState
| TopArithmetic.
#[global] Instance TopKApyError_eq_dec : EqDecision TopKApyError.
Proof. solve_decision. Defined.

Definition memory_default : TopKApyMemory := mkTopKApyMemory 0 0 0 [] ∅ [] None 0.

(** Updates of the memory. *)
Definition with_observation_head (m : TopKApyMemory) (block timestamp : Z) : TopKApyMemory :=
  mkTopKApyMemory block timestamp (tk_generation m) (tk_selected_markets m)
    (tk_smoothed_rate_by_market m) (tk_pending_selected_markets m)
    (tk_pending_selection_since_timestamp m) (tk_last_reconciled_rebalance_timestamp m).
Definition with_smoothed (m : TopKApyMemory) (rates : gmap MarketId Z) : TopKApyMemory :=
  mkTopKApyMemory (tk_last_observed_block m) (tk_last_observed_timestamp m) (tk_generation m)
    (tk_selected_markets m) rates (tk_pending_selected_markets m)
    (tk_pending_selection_since_timestamp m) (tk_last_reconciled_rebalance_timestamp m).
Definition with_selection (m : TopKApyMemory) (generation : Z) (selected pending : list MarketId)
    (since : option Z) : TopKApyMemory :=
  mkTopKApyMemory (tk_last_observed_block m) (tk_last_observed_timestamp m) generation selected
    (tk_smoothed_rate_by_market m) pending since (tk_last_reconciled_rebalance_timestamp m).

Definition checked_sum (values : list Z) : result TopKApyError Z :=
  try_fold (fun total value => ok_or (checked_add U256_MAX total value) TopArithmetic) 0 values.

Definition absolute_difference (left right : Z) : Z :=
  if right <=? left then saturating_sub left right else saturating_sub right left.

Definition smoothed_rate (previous : option Z) (current alpha_bps : Z) : option Z :=
  match previous with
  | None => Some current
  | Some previous =>
      if current <=? previous then Some current
      else
        increase ← checked_sub current previous;
        accepted ← to_option (mul_div_down increase alpha_bps 10000);
        checked_add U256_MAX previous accepted
  end.

Definition current_assets_by_market (projection : ProjectedVaultView)
    (vault : ValidatedVaultConfig) : result TopKApyError (gmap MarketId Z) :=
  entries ← try_map (fun position =>
    assets ← ok_or (pj_position_expected_assets (pw_vault projection)
                      !! pc_position_key position) TopIncompleteState;
    Ok (pc_market_id position, assets)) (vv_positions vault);
  Ok (fold_left (fun m e => <[e.1 := e.2]> m) entries ∅).

Definition annualized_supply_yield (rate_per_second : Z) : result TopKApyError Z :=
  map_err (fun _ => TopArithmetic) (w_taylor_compounded rate_per_second SECONDS_PER_YEAR).

(** ** Weights *)

Definition base_target_weights (selected_len : nat) (settings : ValidatedTopKApyConfig)
    : result TopKApyError (list Z) :=
  match selected_len with
  | 3%nat => Ok (vt_three_market_weights_bps settings)
  | 4%nat => Ok (vt_four_market_weights_bps settings)
  | _ => Err TopIncompleteState
  end.

Definition find_evidence (evidence : list TopKMarketEvidence) (market : MarketId)
    : option TopKMarketEvidence :=
  List.find (fun item => tm_market item =? market) evidence.

(** The ranking yield of a market the evidence must have. *)
Definition ranking_yield (evidence : list TopKMarketEvidence) (market : MarketId)
    : result TopKApyError Z :=
  item ← ok_or (find_evidence evidence market) TopIncompleteState;
  annualized_supply_yield (tm_ranking_rate item).

Definition top_market_boost_required (top_apy other_apy_sum other_count threshold : Z)
    : result TopKApyError bool :=
  other_average ← ok_or (checked_div other_apy_sum other_count) TopArithmetic;
  Ok (match checked_sub top_apy other_average with
      | Some gap => threshold <? gap
      | None => false
      end).

(** The weights after the boosted first; the last takes what is left. *)
Fixpoint boosted_tail (boosted_remainder base_remainder assigned : Z) (weights : list Z)
    : result TopKApyError (list Z) :=
  match weights with
  | [] => Ok []
  | weight :: rest =>
      scaled ← (match rest with
                | [] => ok_or (checked_sub 10000 assigned) TopArithmetic
                | _ => ok_or (value ← checked_mul U32_MAX boosted_remainder weight;
                              checked_div value base_remainder) TopArithmetic
                end);
      assigned ← ok_or (checked_add U32_MAX assigned scaled) TopArithmetic;
      tail ← boosted_tail boosted_remainder base_remainder assigned rest;
      Ok (scaled :: tail)
  end.

Definition boosted_weights (base : list Z) (boost : Z) : result TopKApyError (list Z) :=
  base_top ← ok_or (head base) TopIncompleteState;
  base_remainder ← ok_or (checked_sub 10000 base_top) TopArithmetic;
  boosted_remainder ← ok_or (checked_sub 10000 boost) TopArithmetic;
  tail ← boosted_tail boosted_remainder base_remainder boost (drop 1 base);
  Ok (boost :: tail).

Definition effective_target_weights (selected : list MarketId)
    (evidence : list TopKMarketEvidence) (settings : ValidatedTopKApyConfig)
    : result TopKApyError (list Z) :=
  base ← base_target_weights (length selected) settings;
  top_market ← ok_or (head selected) TopIncompleteState;
  top_apy ← ranking_yield evidence top_market;
  other_apy_sum ← try_fold (fun sum selected_market =>
      apy ← ranking_yield evidence selected_market;
      ok_or (checked_add U256_MAX sum apy) TopArithmetic) 0 (drop 1 selected);
  other_count ← ok_or (try_from_u U32_MAX (Z.of_nat (pred (length selected)))) TopArithmetic;
  boost ← top_market_boost_required top_apy other_apy_sum other_count
            (vt_top_market_boost_threshold_apy_wad settings);
  if negb boost then Ok base
  else boosted_weights base (vt_top_market_boost_weight_bps settings).

(** ** Allocations and scores *)

(** The remaining selected markets with the weights from the same offset. *)
Fixpoint allocate_targets (direct_assets assigned : Z) (selected : list MarketId)
    (weights : list Z) (targets : gmap MarketId Z) : result TopKApyError (gmap MarketId Z) :=
  match selected with
  | [] => Ok targets
  | market :: rest =>
      amount ← (match rest with
                | [] => ok_or (checked_sub direct_assets assigned) TopArithmetic
                | _ =>
                    weight ← ok_or (head weights) TopIncompleteState;
                    map_err (fun _ => TopArithmetic) (mul_div_down direct_assets weight 10000)
                end);
      assigned ← ok_or (checked_add U256_MAX assigned amount) TopArithmetic;
      allocate_targets direct_assets assigned rest (drop 1 weights) (<[market := amount]> targets)
  end.

Definition target_allocations (selected : list MarketId) (direct_assets : Z) (weights : list Z)
    : result TopKApyError (gmap MarketId Z) :=
  if negb (length selected =? length weights)%nat then Err TopIncompleteState
  else allocate_targets direct_assets 0 selected weights ∅.

Definition allocation_score (current targets : gmap MarketId Z) (direct_assets : Z)
    : result TopKApyError Z :=
  if direct_assets =? 0 then Ok 0
  else
    distance ← checked_sum ((fun market =>
      absolute_difference (default 0 (current !! market)) (default 0 (targets !! market)))
      <$> set_elements (dom current ∪ dom targets));
    denominator ← ok_or (checked_mul U256_MAX direct_assets 2) TopArithmetic;
    map_err (fun _ => TopArithmetic) (mul_div_down distance WAD denominator).

(** ** Membership *)

Definition fourth_market_allowed (best_apy fourth_apy maximum_gap : Z) : bool :=
  saturating_sub best_apy fourth_apy <=? maximum_gap.

Definition market_can_hold_target (evidence : TopKMarketEvidence) (current_assets target_assets
    minimum_position_assets : Z) : bool :=
  (minimum_position_assets <=? target_assets)
  && match checked_add U256_MAX current_assets (tm_destination_capacity evidence) with
     | Some maximum_assets => target_assets <=? maximum_assets
     | None => false
     end.

Definition improves_by_at_least (candidate incumbent threshold : Z) : bool :=
  match checked_sub candidate incumbent with
  | Some improvement => threshold <=? improvement
  | None => false
  end.

Definition transition_apy_improvements_allowed (candidate_ranking_apy incumbent_ranking_apy
    candidate_current_apy incumbent_current_apy candidate_post_probe_apy
    incumbent_post_probe_apy : Z) (settings : ValidatedTopKApyConfig) : bool :=
  improves_by_at_least candidate_ranking_apy incumbent_ranking_apy (vt_enter_apy_wad settings)
  && improves_by_at_least candidate_current_apy incumbent_current_apy (vt_exit_apy_wad settings)
  && improves_by_at_least candidate_post_probe_apy incumbent_post_probe_apy
       (vt_replacement_apy_wad settings).

Definition market_transition_allowed (candidate incumbent : TopKMarketEvidence)
    (settings : ValidatedTopKApyConfig) : result TopKApyError bool :=
  candidate_ranking ← annualized_supply_yield (tm_ranking_rate candidate);
  incumbent_ranking ← annualized_supply_yield (tm_ranking_rate incumbent);
  candidate_current ← annualized_supply_yield (tm_current_rate candidate);
  incumbent_current ← annualized_supply_yield (tm_current_rate incumbent);
  candidate_post_probe ← annualized_supply_yield (tm_post_probe_rate candidate);
  incumbent_post_probe ← annualized_supply_yield (tm_post_probe_rate incumbent);
  Ok (transition_apy_improvements_allowed candidate_ranking incumbent_ranking candidate_current
        incumbent_current candidate_post_probe incumbent_post_probe settings).

(** The gate for one market taking the place of another. *)
Definition transition_between (ranked : list TopKMarketEvidence)
    (settings : ValidatedTopKApyConfig) (candidate incumbent : MarketId)
    : result TopKApyError bool :=
  candidate_evidence ← ok_or (find_evidence ranked candidate) TopIncompleteState;
  incumbent_evidence ← ok_or (find_evidence ranked incumbent) TopIncompleteState;
  market_transition_allowed candidate_evidence incumbent_evidence settings.

(** Three markets, or four when the fourth holds its target and pays enough. *)
Definition desired_count (ranked : list TopKMarketEvidence) (direct_assets : Z)
    (current_assets : gmap MarketId Z) (vault : ValidatedVaultConfig)
    (settings : ValidatedTopKApyConfig) : result TopKApyError nat :=
  match ranked with
  | best :: second :: third :: fourth :: _ =>
      let four := tm_market <$> [best; second; third; fourth] in
      weights ← effective_target_weights four ranked settings;
      targets ← target_allocations four direct_assets weights;
      fourth_target ← ok_or (targets !! tm_market fourth) TopIncompleteState;
      fourth_current ← ok_or (current_assets !! tm_market fourth) TopIncompleteState;
      configured ← ok_or (List.find (fun position => pc_market_id position =? tm_market fourth)
                            (vv_positions vault)) TopIncompleteState;
      if negb (market_can_hold_target fourth fourth_current fourth_target
                 (pc_minimum_position_assets configured))
      then Ok 3%nat
      else
        best_apy ← annualized_supply_yield (tm_ranking_rate best);
        fourth_apy ← annualized_supply_yield (tm_ranking_rate fourth);
        Ok (if fourth_market_allowed best_apy fourth_apy
                 (vt_fourth_market_max_gap_apy_wad settings)
            then 4%nat else 3%nat)
  | _ => Ok 3%nat
  end.

Definition contains (market : MarketId) (markets : list MarketId) : bool :=
  bool_decide (market ∈ markets).

(** Whether every replacement passes the gate, in order. *)
Fixpoint replacements_allowed (ranked : list TopKMarketEvidence)
    (settings : ValidatedTopKApyConfig) (pairs : list (MarketId * MarketId))
    : result TopKApyError bool :=
  match pairs with
  | [] => Ok true
  | (candidate, incumbent) :: pairs =>
      allowed ← transition_between ranked settings candidate incumbent;
      if negb allowed then Ok false else replacements_allowed ranked settings pairs
  end.

Fixpoint index_of (market : MarketId) (markets : list MarketId) : option nat :=
  match markets with
  | [] => None
  | m :: markets => if m =? market then Some 0%nat else S <$> index_of market markets
  end.

(** Whether every promotion within the current set passes the gate. *)
Fixpoint promotions_allowed (ranked : list TopKMarketEvidence)
    (settings : ValidatedTopKApyConfig) (current : list MarketId) (desired_index : nat)
    (desired : list MarketId) : result TopKApyError bool :=
  match desired with
  | [] => Ok true
  | candidate :: desired =>
      match index_of candidate current with
      | Some current_index =>
          if (current_index <=? desired_index)%nat
          then promotions_allowed ranked settings current (S desired_index) desired
          else
            incumbent_market ← ok_or (current !! desired_index) TopIncompleteState;
            allowed ← transition_between ranked settings candidate incumbent_market;
            if negb allowed then Ok false
            else promotions_allowed ranked settings current (S desired_index) desired
      | None => promotions_allowed ranked settings current (S desired_index) desired
      end
  end.

Definition proposed_membership (ranked : list TopKMarketEvidence) (direct_assets : Z)
    (current_assets : gmap MarketId Z) (vault : ValidatedVaultConfig) (memory : TopKApyMemory)
    (settings : ValidatedTopKApyConfig) : result TopKApyError (list MarketId) :=
  if (length ranked <? 3)%nat then Ok []
  else
    count ← desired_count ranked direct_assets current_assets vault settings;
    let desired := tm_market <$> take count ranked in
    let eligible := tm_market <$> ranked in
    let current := List.filter (fun market => contains market eligible)
                     (tk_selected_markets memory) in
    if bool_decide (tk_selected_markets memory = [])
       || existsb (fun market => negb (contains market eligible)) (tk_selected_markets memory)
       || negb (length current =? length desired)%nat
    then Ok desired
    else
      let incoming := List.filter (fun market => negb (contains market current)) desired in
      let outgoing := List.filter (fun market => negb (contains market desired)) current in
      if negb (length incoming =? length outgoing)%nat then Ok current
      else
        replaced ← replacements_allowed ranked settings (zip incoming outgoing);
        if negb replaced then Ok current
        else
          promoted ← promotions_allowed ranked settings current 0 desired;
          if negb promoted then Ok current else Ok desired.

Definition membership_confirmed (since : option Z) (now confirmation_seconds : Z) : bool :=
  match (timestamp ← since; checked_add U64_MAX timestamp confirmation_seconds) with
  | Some deadline => deadline <=? now
  | None => false
  end.

(** ** Observation *)

Section Observe.
Context (snapshot : ExactVaultSnapshot) (projection : ProjectedVaultView).
Context (vault : ValidatedVaultConfig) (settings : ValidatedTopKApyConfig).

(** The dust guards of the market and of its dead shares. *)
Definition market_below_minimums (configured : ValidatedPositionConfig)
    (market : ProjectedMarketState) (exact_position : DirectMarketPositionState) : bool :=
  (pm_total_supply_assets market <? pc_minimum_destination_market_supply_assets configured)
  || (pm_total_supply_shares market <? pc_minimum_destination_market_supply_shares configured)
  || (dp_market_dead_supply_shares exact_position <? vv_minimum_market_dead_supply_shares vault).

Definition destination_capacity (configured : ValidatedPositionConfig) (current : Z) : option Z :=
  capacity ← reallocation_cap_limited_allocation snapshot projection vault
               (pc_position_key configured);
  Some (Z.min (saturating_sub (pc_maximum_position_assets configured) current) capacity).

Definition below_minimum_position (configured : ValidatedPositionConfig) (current capacity : Z)
    : bool :=
  match checked_add U256_MAX current capacity with
  | None => true
  | Some maximum_assets => maximum_assets <? pc_minimum_position_assets configured
  end.

(** The supply rate after the bounded probe deposit. *)
Definition post_probe_rate (configured : ValidatedPositionConfig) (market : ProjectedMarketState)
    (exact_position : DirectMarketPositionState) (direct_assets capacity : Z)
    : result TopKApyError Z :=
  tranche ← map_err (fun _ => TopArithmetic)
    (mul_div_down direct_assets (vt_probe_allocation_bps settings) 10000);
  let desired_probe := Z.min (Z.max tranche (pc_minimum_position_assets configured)) capacity in
  if desired_probe =? 0 then Ok (pm_spot_supply_rate market)
  else
    stored ← ok_or (ev_markets snapshot !! pc_market_id configured) TopIncompleteState;
    probed ← map_err (fun _ => TopIncompleteState)
      (Market.allocate market (dp_internal_supply_shares exact_position) desired_probe
         (dp_parent_recorded_market_allocation exact_position) (sm_fee stored)
         (dp_affected_caps exact_position));
    Ok (pm_spot_supply_rate (Market.at_market probed)).

(** The smoothed rate, which moves once per block. *)
Definition observe_smoothed (first_at_block : bool) (previous : option Z) (current : Z)
    : result TopKApyError Z :=
  if first_at_block
  then ok_or (smoothed_rate previous current (vt_upside_ema_alpha_bps settings)) TopArithmetic
  else Ok (default current previous).

(** One Active position: [None] where it is not eligible. *)
Definition market_evidence (first_at_block : bool) (rates : gmap MarketId Z)
    (current_assets : gmap MarketId Z) (direct_assets : Z) (configured : ValidatedPositionConfig)
    : result TopKApyError (option TopKMarketEvidence) :=
  let market_id := pc_market_id configured in
  exact_position ← ok_or (ev_positions snapshot !! pc_position_key configured) TopIncompleteState;
  market ← ok_or (pw_markets projection !! market_id) TopIncompleteState;
  if market_below_minimums configured market exact_position then Ok None
  else
    current ← ok_or (current_assets !! market_id) TopIncompleteState;
    capacity ← ok_or (destination_capacity configured current) TopIncompleteState;
    if below_minimum_position configured current capacity then Ok None
    else
      post_probe ← post_probe_rate configured market exact_position direct_assets capacity;
      let spot := pm_spot_supply_rate market in
      smoothed ← observe_smoothed first_at_block (rates !! market_id) spot;
      Ok (Some (mkTopKMarketEvidence market_id spot post_probe smoothed
                  (Z.min (Z.min spot post_probe) smoothed) capacity)).

(** The loop over the Active positions: the rates and the evidence so far. *)
Definition collect_evidence (first_at_block : bool) (current_assets : gmap MarketId Z)
    (direct_assets : Z) (acc : gmap MarketId Z * list TopKMarketEvidence)
    (configured : ValidatedPositionConfig)
    : result TopKApyError (gmap MarketId Z * list TopKMarketEvidence) :=
  found ← market_evidence first_at_block acc.1 current_assets direct_assets configured;
  Ok (match found with
      | None => acc
      | Some item => (<[tm_market item := tm_smoothed_rate item]> acc.1, acc.2 ++ [item])
      end).

(** Best conservative rate first, ties by market. *)
Definition rank_evidence (evidence : list TopKMarketEvidence) : list TopKMarketEvidence :=
  sort_by_key (fun item => [- tm_ranking_rate item; tm_market item]) evidence.

Definition retain_evidence (rates : gmap MarketId Z) (evidence : list TopKMarketEvidence)
    : gmap MarketId Z :=
  filter (fun entry => entry.1 ∈ tm_market <$> evidence) rates.

(** A selected market the evidence no longer has. *)
Definition operational_replacement (memory : TopKApyMemory) (evidence : list TopKMarketEvidence)
    : bool :=
  existsb (fun market => negb (contains market (tm_market <$> evidence)))
    (tk_selected_markets memory).

(** The selection put in force, with the next generation. *)
Definition install_selection (m : TopKApyMemory) (selected : list MarketId)
    : result TopKApyError TopKApyMemory :=
  generation ← ok_or (checked_add U64_MAX (tk_generation m) 1) TopArithmetic;
  Ok (with_selection m generation selected [] None).

(** The membership state machine: whether a selection is in force, and the
    memory after the observation. *)
Definition update_membership (m : TopKApyMemory) (proposed : list MarketId)
    (replacement : bool) (now : Z) : result TopKApyError (bool * TopKApyMemory) :=
  if bool_decide (proposed = tk_selected_markets m)
  then Ok (true, with_selection m (tk_generation m) (tk_selected_markets m) [] None)
  else if replacement && negb (bool_decide (tk_selected_markets m = []))
  then next ← install_selection m proposed; Ok (true, next)
  else
    let m := if bool_decide (tk_pending_selected_markets m = proposed) then m
             else with_selection m (tk_generation m) (tk_selected_markets m) proposed (Some now) in
    if membership_confirmed (tk_pending_selection_since_timestamp m) now
         (vt_membership_confirmation_seconds settings)
    then next ← install_selection m (tk_pending_selected_markets m); Ok (true, next)
    else Ok (false, m).

(** The evidence of a head and the memory with its rates and its block. *)
Definition observe_evidence (memory : TopKApyMemory) (current_assets : gmap MarketId Z)
    (direct_assets : Z) : result TopKApyError (list TopKMarketEvidence * TopKApyMemory) :=
  let head := pw_head projection in
  let first_at_block := negb (tk_last_observed_block memory =? blk_number head) in
  collected ← try_fold (collect_evidence first_at_block current_assets direct_assets)
    (tk_smoothed_rate_by_market memory, [])
    (List.filter (fun position => bool_decide (pc_mode position = Active)) (vv_positions vault));
  let evidence := rank_evidence collected.2 in
  let next := with_smoothed memory (retain_evidence collected.1 evidence) in
  Ok (evidence, if first_at_block
                then with_observation_head next (blk_number head) (blk_timestamp head)
                else next).

Definition topk_target (selected : list MarketId) (evidence : list TopKMarketEvidence)
    (current_assets : gmap MarketId Z) (direct_assets : Z) : result TopKApyError TopKApyTarget :=
  weights ← effective_target_weights selected evidence settings;
  targets ← target_allocations selected direct_assets weights;
  score ← allocation_score current_assets targets direct_assets;
  Ok (mkTopKApyTarget selected targets current_assets
        (list_to_map ((fun item => (tm_market item, item)) <$> rev evidence)) direct_assets score).

(** What an observation reads before the membership is decided. *)
Record TopKReading : Type := mkTopKReading {
  to_current_assets : gmap MarketId Z;
  to_direct_assets : Z;
  to_evidence : list TopKMarketEvidence;
  to_memory : TopKApyMemory;
  to_proposed : list MarketId;
}.

Definition read_top_k (memory : TopKApyMemory) (additional_direct_assets : Z)
    : result TopKApyError TopKReading :=
  current_assets ← current_assets_by_market projection vault;
  current_direct ← checked_sum (btree_values current_assets);
  direct_assets ← ok_or (checked_add U256_MAX current_direct additional_direct_assets)
    TopArithmetic;
  observed ← observe_evidence memory current_assets direct_assets;
  proposed ← proposed_membership observed.1 direct_assets current_assets vault observed.2 settings;
  Ok (mkTopKReading current_assets direct_assets observed.1 observed.2 proposed).

Definition observe_top_k_target (memory : option TopKApyMemory) (additional_direct_assets : Z)
    : result TopKApyError TopKApyObservation :=
  reading ← read_top_k (default memory_default memory) additional_direct_assets;
  let next := to_memory reading in
  let evidence := to_evidence reading in
  if (length (to_proposed reading) <? 3)%nat
  then Ok (mkTopKApyObservation None (Some InsufficientEligibleMarkets) next)
  else
    updated ← update_membership next (to_proposed reading) (operational_replacement next evidence)
                (blk_timestamp (pw_head projection));
    if updated.1 : bool
    then
      target ← topk_target (tk_selected_markets updated.2) evidence (to_current_assets reading)
                 (to_direct_assets reading);
      Ok (mkTopKApyObservation (Some target) None updated.2)
    else Ok (mkTopKApyObservation None (Some TopSetUnconfirmed) updated.2).

End Observe.
