(* ===== verification/TopKProofs.v ===== *)
(** * Top-K targets

    Proofs about [TopK]: the weights and the target allocation are exact
    partitions, the score is a fraction, every selected market of a target is
    eligible, and a selection only changes after its confirmation window or
    when a selected market stops being eligible. *)
From Stdlib Require Import ZArith Lia List Bool.
From stdpp Require Import base list gmap sets sorting.
From S2P Require Import Prelude.
From S2P Require Import BlueMath.
From S2P Require Import Domain.
From S2P Require Import Config.
From S2P Require Import Projection.
From S2P Require Import Capital.
From S2P Require Import Models.
From S2P Require Import TopK.
Open Scope Z_scope.

(** What the validated settings promise about the weights. *)
Record weights_wf (weights : list Z) : Prop := {
  ww_bounds : Forall (fun w => 0 <= w) weights;
  ww_sum : list_sum weights = 10000;
}.

Record settings_wf (settings : ValidatedTopKApyConfig) : Prop := {
  sw_three : weights_wf (vt_three_market_weights_bps settings);
  sw_three_length : length (vt_three_market_weights_bps settings) = 3%nat;
  sw_four : weights_wf (vt_four_market_weights_bps settings);
  sw_four_length : length (vt_four_market_weights_bps settings) = 4%nat;
  sw_boost : 0 <= vt_top_market_boost_weight_bps settings;
}.

(** ** Weights *)

Lemma base_target_weights_wf n settings base :
  settings_wf settings -> base_target_weights n settings = Ok base ->
  weights_wf base /\ length base = n /\ (n = 3 \/ n = 4)%nat.
Proof.
  intros W. unfold base_target_weights.
  destruct n as [|[|[|[|[|n]]]]]; intros H; try discriminate H; injection H as <-;
    (split; [apply W|split; [apply W|lia]]).
Qed.

(** The boosted tail completes the weights to ten thousand. *)
Lemma boosted_tail_Ok boosted base assigned weights tail :
  boosted_tail boosted base assigned weights = Ok tail ->
  0 <= boosted -> 0 <= base -> Forall (fun w => 0 <= w) weights ->
  Forall (fun w => 0 <= w) tail /\ length tail = length weights /\
  (weights <> [] -> list_sum tail = 10000 - assigned).
Proof.
  revert assigned tail.
  induction weights as [|w weights IH]; intros assigned tail H Hb Hs Hw; cbn [boosted_tail] in H.
  { by injection H as <-. }
  apply Forall_cons_1 in Hw as [Hw0 Hw].
  step_ok H as x Hx. step_ok H as assigned' Ha. step_ok H as tail' Ht. injection H as <-.
  apply ok_or_Ok, checked_add_Some in Ha as [-> _].
  apply IH in Ht as (F & L & S); [|done..].
  assert (0 <= x) as Hx0.
  { destruct weights; apply ok_or_Ok in Hx; inv_ok; [lia|]. apply Z.div_pos; [nia|lia]. }
  split; [by constructor|]. split; [cbn; by rewrite L|]. intros _. rewrite list_sum_cons.
  destruct weights as [|w' weights]; [|rewrite S by done; lia].
  destruct tail'; [|discriminate L]. apply ok_or_Ok, checked_sub_Some in Hx as [-> _]. cbn. lia.
Qed.

Lemma boosted_weights_wf base boost weights :
  boosted_weights base boost = Ok weights -> 0 <= boost -> weights_wf base ->
  (2 <= length base)%nat -> weights_wf weights /\ length weights = length base.
Proof.
  unfold boosted_weights. intros H Hb [F S] Hl. destruct base as [|w [|w' base]]; cbn in Hl; [lia..|].
  cbn [head] in H. inv_ok. apply Forall_cons_1 in F as [Hw F].
  match goal with H : boosted_tail _ _ _ _ = Ok _ |- _ =>
    apply boosted_tail_Ok in H as (F' & L & S'); [|lia..|done] end.
  split; [|cbn in *; lia]. split; [by constructor|]. rewrite list_sum_cons, S' by done. lia.
Qed.

Lemma try_fold_Ok_cons {E A B} (f : A -> B -> result E A) a b l r :
  try_fold f a (b :: l) = Ok r -> exists a', f a b = Ok a' /\ try_fold f a' l = Ok r.
Proof. cbn. intros H. inv_ok. eauto. Qed.

Lemma find_evidence_Some evidence market item :
  find_evidence evidence market = Some item -> item ∈ evidence /\ tm_market item = market.
Proof.
  intros [Hin Hm]%List.find_some. split; [by apply list_elem_of_In|by apply Z.eqb_eq].
Qed.

Lemma ranking_yield_Ok evidence market apy :
  ranking_yield evidence market = Ok apy -> market ∈ tm_market <$> evidence.
Proof.
  unfold ranking_yield. intros H. inv_ok.
  match goal with H : find_evidence _ _ = Some ?i |- _ => apply find_evidence_Some in H as [? <-] end.
  by apply list_elem_of_fmap_2.
Qed.

Lemma effective_target_weights_Ok selected evidence settings weights :
  settings_wf settings -> effective_target_weights selected evidence settings = Ok weights ->
  weights_wf weights /\ length weights = length selected /\
  (length selected = 3 \/ length selected = 4)%nat /\
  Forall (fun market => market ∈ tm_market <$> evidence) selected.
Proof.
  unfold effective_target_weights. intros W H. step_ok H as base Hbase.
  apply base_target_weights_wf in Hbase as (Wb & Lb & Hn); [|done].
  step_ok H as top Htop. apply ok_or_Ok in Htop. destruct selected as [|m selected]; [done|].
  injection Htop as ->. step_ok H as top_apy Ha. apply ranking_yield_Ok in Ha.
  step_ok H as sum Hsum.
  assert (Forall (fun market => market ∈ tm_market <$> evidence) selected) as Hs.
  { clear -Hsum. change (drop 1 (top :: selected)) with selected in Hsum. revert Hsum.
    generalize 0. induction selected as [|s selected IH]; intros z H; [done|].
    apply try_fold_Ok_cons in H as (z' & H' & H). inv_ok.
    constructor; [by eapply ranking_yield_Ok|by eapply IH]. }
  step_ok H as count Hc. step_ok H as boost Hboost.
  assert (weights_wf weights /\ length weights = length base) as [Ww Lw].
  { destruct (negb boost); [by injection H as <-|].
    apply boosted_weights_wf in H; [done|apply W|done|lia]. }
  split; [done|]. split; [by rewrite Lw|]. split; [done|by constructor].
Qed.

(** ** Allocations *)

Lemma allocate_targets_Ok direct assigned selected weights targets result :
  allocate_targets direct assigned selected weights targets = Ok result ->
  NoDup selected -> (forall m, m ∈ selected -> targets !! m = None) ->
  0 <= direct -> Forall (fun w => 0 <= w) weights ->
  dom result = dom targets ∪ list_to_set selected /\
  (map_Forall (fun _ a => 0 <= a) targets -> map_Forall (fun _ a => 0 <= a) result) /\
  (selected <> [] ->
   map_sum_by id result = map_sum_by id targets + (direct - assigned)).
Proof.
  revert assigned weights targets.
  induction selected as [|m selected IH];
    intros assigned weights targets H Hnd Hfresh Hd Hw; cbn [allocate_targets] in H.
  { injection H as <-. split; [set_solver|done]. }
  apply NoDup_cons in Hnd as [Hm Hnd]. step_ok H as amount Ha. step_ok H as assigned' Has.
  apply ok_or_Ok, checked_add_Some in Has as [-> _].
  assert (targets !! m = None) as Ht by (apply Hfresh; set_solver).
  assert (0 <= amount) as Hpos.
  { destruct selected; [apply ok_or_Ok, checked_sub_Some in Ha; lia|].
    step_ok Ha as w Hhead. apply ok_or_Ok in Hhead.
    destruct weights as [|w' weights]; [done|]. injection Hhead as ->.
    apply Forall_cons_1 in Hw as [? _]. inv_math. apply Z.div_pos; nia. }
  pose proof H as Hlast. apply IH in H as (D & F & S); [|done| |done|by apply Forall_drop].
  2:{ intros m' Hin. rewrite lookup_insert_ne; [apply Hfresh; set_solver|set_solver]. }
  split; [rewrite D, dom_insert_L; set_solver|]. split.
  { intros Hall. apply F. by apply map_Forall_insert_2. }
  intros _. destruct selected as [|m' selected].
  - injection Hlast as <-. rewrite map_sum_by_insert_new by done. unfold id.
    apply ok_or_Ok, checked_sub_Some in Ha as [-> _]. lia.
  - rewrite S by done. rewrite map_sum_by_insert_new by done. unfold id. lia.
Qed.

Lemma target_allocations_Ok selected direct weights targets :
  target_allocations selected direct weights = Ok targets ->
  NoDup selected -> selected <> [] -> 0 <= direct -> Forall (fun w => 0 <= w) weights ->
  dom targets = list_to_set selected /\ map_Forall (fun _ a => 0 <= a) targets /\
  map_sum_by id targets = direct.
Proof.
  unfold target_allocations. intros H Hnd Hne Hd Hw. inv_ok.
  match goal with H : allocate_targets _ _ _ _ _ = Ok _ |- _ =>
    apply allocate_targets_Ok in H as (D & F & S); [|done|done|done|done] end.
  split; [set_solver|]. split; [by apply F|]. rewrite S by done.
  change (map_sum_by id (∅ : gmap MarketId Z)) with (map_fold (fun (_ : MarketId) (a acc : Z) => id a + acc) 0 (∅ : gmap MarketId Z)).
  rewrite map_fold_empty. lia.
Qed.

(** ** The score *)

Lemma map_sum_by_empty {A} (g : A -> Z) : map_sum_by g (∅ : gmap Z A) = 0.
Proof. apply map_fold_empty. Qed.

(** The total of a map, over any list of keys that has all of its own. *)
Lemma sum_over_keys (m : gmap Z Z) (l : list Z) :
  NoDup l -> (forall k, k ∈ dom m -> k ∈ l) ->
  list_sum ((fun k => default 0 (m !! k)) <$> l) = map_sum_by id m.
Proof.
  intros Hnd. induction m as [|k a m Hk IH] using map_ind; intros Hdom.
  - rewrite map_sum_by_empty. clear. induction l as [|k l IH]; [done|].
    rewrite fmap_cons, list_sum_cons, IH, lookup_empty. cbn. lia.
  - rewrite map_sum_by_insert_new, <-IH by (try done; intros ? ?; apply Hdom; set_solver).
    assert (k ∈ l) as (l1 & l2 & ->)%list_elem_of_split by (apply Hdom; set_solver).
    apply NoDup_app in Hnd as (_ & H1 & [H2 _]%NoDup_cons).
    assert (k ∉ l1) as Hk1 by (intros ?; eapply H1; [done|by left]).
    rewrite !fmap_app, !fmap_cons, !list_sum_app, !list_sum_cons, lookup_insert_eq, Hk.
    assert (forall l' : list Z, k ∉ l' -> (fun x => default 0 (<[k := a]> m !! x)) <$> l'
                          = (fun x => default 0 (m !! x)) <$> l') as E.
    { intros l' Hl'. apply list_fmap_ext. intros i x Hx. rewrite lookup_insert_ne; [done|].
      intros ->. apply Hl'. by eapply list_elem_of_lookup_2. }
    rewrite !E by done. unfold id. cbn. lia.
Qed.

Lemma btree_values_sum (m : gmap Z Z) : list_sum (btree_values m) = map_sum_by id m.
Proof.
  rewrite <-(sum_over_keys m (btree_keys m)); [|apply NoDup_btree_keys|].
  - f_equal. unfold btree_values, btree_keys. rewrite <-list_fmap_compose.
    apply list_fmap_ext. intros i [k a] Hk%list_elem_of_lookup_2%elem_of_btree_entries.
    cbn. by rewrite Hk.
  - intros k Hk. by apply elem_of_btree_keys, elem_of_dom.
Qed.

Lemma absolute_difference_bound a b : 0 <= a -> 0 <= b -> 0 <= absolute_difference a b <= a + b.
Proof.
  intros. unfold absolute_difference. rewrite !saturating_sub_spec. case_match; lia.
Qed.

Lemma distance_bound (f g : MarketId -> Z) keys :
  (forall k, 0 <= f k) -> (forall k, 0 <= g k) ->
  0 <= list_sum ((fun k => absolute_difference (f k) (g k)) <$> keys)
    <= list_sum (f <$> keys) + list_sum (g <$> keys).
Proof.
  intros Hf Hg. induction keys as [|k keys IH]; [cbn; lia|].
  rewrite !fmap_cons, !list_sum_cons.
  pose proof (absolute_difference_bound _ _ (Hf k) (Hg k)). lia.
Qed.

(** The score is the normalized distance between two allocations of at most
    the direct assets: a fraction. *)
Lemma allocation_score_bounds current targets direct score :
  allocation_score current targets direct = Ok score ->
  map_Forall (fun _ a => 0 <= a) current -> map_Forall (fun _ a => 0 <= a) targets ->
  map_sum_by id current <= direct -> map_sum_by id targets <= direct ->
  0 <= score <= WAD.
Proof.
  unfold allocation_score. intros H Fc Ft Sc St.
  destruct (direct =? 0); [by injection H as <-|].
  step_ok H as distance Hd. step_ok H as denominator Hden.
  apply ok_or_Ok, checked_mul_Some in Hden as [-> _]. inv_ok. inv_math.
  apply checked_sum_Ok in Hd. subst.
  set (keys := set_elements _) in *.
  assert (forall k m, map_Forall (fun _ a => 0 <= a) m -> 0 <= default 0 ((m : gmap Z Z) !! k)) as Hnn.
  { intros k m Hm. destruct (m !! k) eqn:E; cbn; [by eapply Hm|lia]. }
  assert (NoDup keys) as Hnd by (unfold keys; rewrite set_elements_perm; apply NoDup_elements).
  pose proof (distance_bound (fun k => default 0 (current !! k)) (fun k => default 0 (targets !! k))
                keys (fun k => Hnn k current Fc) (fun k => Hnn k targets Ft)) as Hsum.
  rewrite !sum_over_keys in Hsum;
    [|done|intros k ?; apply elem_of_set_elements; set_solver
     |done|intros k ?; apply elem_of_set_elements; set_solver].
  split; [apply Z.div_pos; unfold WAD; lia|].
  apply Z.div_le_upper_bound; unfold WAD; nia.
Qed.

(** ** Evidence *)

Section Observe.
Context (snapshot : ExactVaultSnapshot) (projection : ProjectedVaultView).
Context (vault : ValidatedVaultConfig) (settings : ValidatedTopKApyConfig).

(** What the evidence of a position rests on: an Active position of the vault
    above every dust minimum, room for a minimum position, and a ranking rate
    no higher than any of the three observations. *)
Record evidence_of (current_assets : gmap MarketId Z) (configured : ValidatedPositionConfig)
    (item : TopKMarketEvidence) : Prop := {
  eo_market : tm_market item = pc_market_id configured;
  eo_guards : exists exact_position market current,
    ev_positions snapshot !! pc_position_key configured = Some exact_position /\
    pw_markets projection !! pc_market_id configured = Some market /\
    current_assets !! pc_market_id configured = Some current /\
    market_below_minimums vault configured market exact_position = false /\
    destination_capacity snapshot projection vault configured current
      = Some (tm_destination_capacity item) /\
    below_minimum_position configured current (tm_destination_capacity item) = false /\
    tm_current_rate item = pm_spot_supply_rate market;
  eo_ranking : tm_ranking_rate item
    = Z.min (Z.min (tm_current_rate item) (tm_post_probe_rate item)) (tm_smoothed_rate item);
}.

Lemma market_evidence_Some first rates current_assets direct configured item :
  market_evidence snapshot projection vault settings first rates current_assets direct configured
    = Ok (Some item) ->
  evidence_of current_assets configured item.
Proof.
  unfold market_evidence. intros H.
  step_ok H as exact He. step_ok H as market Hm. apply ok_or_Ok in He, Hm.
  destruct (market_below_minimums _ _ _ _) eqn:Hd; [discriminate H|].
  step_ok H as current Hc. step_ok H as capacity Hcap. apply ok_or_Ok in Hc, Hcap.
  destruct (below_minimum_position _ _ _) eqn:Hb; [discriminate H|].
  step_ok H as probe Hp. step_ok H as smoothed Hs. injection H as <-.
  split; [done| |done]. by exists exact, market, current.
Qed.

Lemma collected_evidence first current_assets direct positions acc collected :
  try_fold (collect_evidence snapshot projection vault settings first current_assets direct)
    acc positions = Ok collected ->
  exists found, collected.2 = acc.2 ++ found /\
    (tm_market <$> found) `sublist_of` (pc_market_id <$> positions) /\
    forall item, item ∈ found ->
      exists configured, configured ∈ positions /\ evidence_of current_assets configured item.
Proof.
  revert acc. induction positions as [|p positions IH]; intros acc H.
  { injection H as <-. exists []. split; [by rewrite app_nil_r|].
    split; [apply sublist_nil_l|]. by intros ? ?%elem_of_nil. }
  apply try_fold_Ok_cons in H as (acc' & Hp & H). apply IH in H as (found & E & S & F).
  unfold collect_evidence in Hp. step_ok Hp as item Hi. injection Hp as <-.
  destruct item as [item|].
  - pose proof (market_evidence_Some _ _ _ _ _ _ Hi) as He. exists (item :: found).
    split; [rewrite E; cbn; by rewrite <-(assoc app)|]. split.
    + rewrite !fmap_cons, (eo_market _ _ _ He). by apply sublist_skip.
    + intros item' [-> |Hin]%elem_of_cons; [exists p; split; [by left|done]|].
      apply F in Hin as (c & ? & ?). exists c. split; [by right|done].
  - exists found. split; [done|]. split; [rewrite fmap_cons; by apply sublist_cons|].
    intros item' Hin. apply F in Hin as (c & ? & ?). exists c. split; [by right|done].
Qed.

Lemma list_filter_sublist {A} (f : A -> bool) l : List.filter f l `sublist_of` l.
Proof.
  induction l as [|x l IH]; cbn; [constructor|].
  destruct (f x); [by apply sublist_skip|by apply sublist_cons].
Qed.

Lemma observe_evidence_Ok memory current_assets direct evidence next :
  observe_evidence snapshot projection vault settings memory current_assets direct
    = Ok (evidence, next) ->
  NoDup (pc_market_id <$> vv_positions vault) ->
  NoDup (tm_market <$> evidence) /\
  (forall item, item ∈ evidence -> exists configured,
     configured ∈ vv_positions vault /\ pc_mode configured = Active /\
     evidence_of current_assets configured item) /\
  tk_selected_markets next = tk_selected_markets memory /\
  tk_generation next = tk_generation memory /\
  tk_pending_selected_markets next = tk_pending_selected_markets memory /\
  tk_pending_selection_since_timestamp next = tk_pending_selection_since_timestamp memory.
Proof.
  unfold observe_evidence. intros H Hnd. step_ok H as collected Hc.
  apply collected_evidence in Hc as (found & E & S & F). cbn in E.
  injection H as <- <-. rewrite E. unfold rank_evidence. split; [|split].
  - rewrite sort_by_key_perm. eapply sublist_NoDup; [|exact S].
    eapply sublist_NoDup; [exact Hnd|]. apply fmap_sublist, list_filter_sublist.
  - intros item Hin. rewrite sort_by_key_perm in Hin. apply F in Hin as (c & Hc & He).
    exists c. apply list_elem_of_In, List.filter_In in Hc as [Hc Ha].
    rewrite list_elem_of_In. by apply bool_decide_eq_true in Ha.
  - by destruct (negb _).
Qed.

(** ** Membership *)

Lemma proposed_membership_Ok ranked direct current_assets memory proposed :
  proposed_membership ranked direct current_assets vault memory settings = Ok proposed ->
  NoDup (tm_market <$> ranked) -> NoDup (tk_selected_markets memory) -> NoDup proposed.
Proof.
  unfold proposed_membership. intros H Hr Hs.
  destruct (length ranked <? 3)%nat; [injection H as <-; constructor|].
  step_ok H as count Hc.
  assert (NoDup (tm_market <$> take count ranked)) as Hd.
  { eapply sublist_NoDup; [exact Hr|]. apply fmap_sublist. apply sublist_take. }
  assert (NoDup (List.filter (fun market => contains market (tm_market <$> ranked))
                   (tk_selected_markets memory))) as Hcur
    by (eapply sublist_NoDup; [exact Hs|apply list_filter_sublist]).
  cbn zeta in H. destruct (_ || _ || _); [by injection H as <-|].
  destruct (negb _); [by injection H as <-|]. step_ok H as replaced Hrep.
  destruct (negb replaced); [by injection H as <-|]. step_ok H as promoted Hprom.
  destruct (negb promoted); by injection H as <-.
Qed.

(** The selection in force is the proposal; otherwise it is unchanged. *)
Lemma update_membership_Ok m proposed replacement now in_force next :
  update_membership settings m proposed replacement now = Ok (in_force, next) ->
  if in_force
  then tk_selected_markets next = proposed /\ tk_pending_selected_markets next = [] /\
       tk_pending_selection_since_timestamp next = None
  else tk_selected_markets next = tk_selected_markets m.
Proof.
  unfold update_membership. intros H.
  destruct (bool_decide (proposed = _)) eqn:E1; [injection H as <- <-; bool_spec E1; by subst|].
  destruct (_ && _).
  { step_ok H as m' Hm. injection H as <- <-. unfold install_selection in Hm. by inv_ok. }
  destruct (bool_decide (tk_pending_selected_markets m = proposed)) eqn:E2; bool_spec E2;
    cbn zeta in H; (destruct (membership_confirmed _ _ _);
      [step_ok H as m' Hm; unfold install_selection in Hm|]); by inv_ok.
Qed.

(** ** The target *)

Lemma current_assets_nonneg current_assets :
  current_assets_by_market projection vault = Ok current_assets ->
  map_Forall (fun _ a => 0 <= a) (pj_position_expected_assets (pw_vault projection)) ->
  map_Forall (fun _ a => 0 <= a) current_assets.
Proof.
  unfold current_assets_by_market. intros H Hn. step_ok H as entries He. injection H as <-.
  assert (Forall (fun e : MarketId * Z => 0 <= e.2) entries) as Hf.
  { clear -He Hn. revert entries He. induction (vv_positions vault) as [|p l IH];
      intros entries He; cbn in He; inv_ok; [constructor|].
    constructor; [|by apply IH]. cbn. by eapply Hn. }
  clear He. assert (map_Forall (fun _ a => 0 <= a) (∅ : gmap MarketId Z)) as H0
    by apply map_Forall_empty.
  revert H0. generalize (∅ : gmap MarketId Z).
  induction Hf as [|e entries H0 Hf IH]; intros m Hm; [done|].
  cbn. apply IH. by apply map_Forall_insert_2.
Qed.

(** What a target promises. *)
Record top_k_target_ok (additional : Z) (obs : TopKApyObservation) (t : TopKApyTarget) : Prop := {
  tg_distinct : NoDup (tt_selected_markets t);
  tg_count : (length (tt_selected_markets t) = 3 \/ length (tt_selected_markets t) = 4)%nat;
  tg_eligible : forall market, market ∈ tt_selected_markets t ->
    exists configured item,
      configured ∈ vv_positions vault /\ pc_mode configured = Active /\
      tt_evidence_by_market t !! market = Some item /\ tm_market item = market /\
      evidence_of (tt_current_assets_by_market t) configured item;
  tg_domain : dom (tt_target_assets_by_market t) = list_to_set (tt_selected_markets t);
  tg_nonneg : map_Forall (fun _ a => 0 <= a) (tt_target_assets_by_market t);
  tg_exact : map_sum_by id (tt_target_assets_by_market t) = tt_target_direct_assets t;
  tg_direct : tt_target_direct_assets t
    = map_sum_by id (tt_current_assets_by_market t) + additional;
  tg_score : 0 <= tt_current_score_wad t <= WAD;
  tg_in_force : tk_selected_markets (ob_next_memory obs) = tt_selected_markets t;
  tg_settled : tk_pending_selected_markets (ob_next_memory obs) = [];
}.

Lemma read_top_k_Ok memory additional reading :
  read_top_k snapshot projection vault settings memory additional = Ok reading ->
  NoDup (pc_market_id <$> vv_positions vault) -> NoDup (tk_selected_markets memory) ->
  NoDup (to_proposed reading) /\ NoDup (tm_market <$> to_evidence reading) /\
  (forall item, item ∈ to_evidence reading -> exists configured,
     configured ∈ vv_positions vault /\ pc_mode configured = Active /\
     evidence_of (to_current_assets reading) configured item) /\
  current_assets_by_market projection vault = Ok (to_current_assets reading) /\
  to_direct_assets reading = map_sum_by id (to_current_assets reading) + additional.
Proof.
  unfold read_top_k. intros H Hnd Hs.
  step_ok H as current Hc. step_ok H as sum Hsum. step_ok H as direct Hd.
  step_ok H as [evidence next] Ho. step_ok H as proposed Hp. injection H as <-. cbn [fst snd] in *.
  apply observe_evidence_Ok in Ho as (Hn & He & Hsel & _); [|done].
  apply proposed_membership_Ok in Hp; [|done|by rewrite Hsel].
  apply ok_or_Ok, checked_add_Some in Hd as [-> _].
  apply checked_sum_Ok in Hsum. rewrite btree_values_sum in Hsum. cbn.
  split; [done|]. split; [done|]. split; [done|]. split; [done|]. lia.
Qed.

Lemma evidence_lookup evidence market :
  NoDup (tm_market <$> evidence) -> market ∈ tm_market <$> evidence ->
  exists item, item ∈ evidence /\ tm_market item = market /\
    (list_to_map ((fun item => (tm_market item, item)) <$> rev evidence)
     : gmap MarketId TopKMarketEvidence) !! market = Some item.
Proof.
  intros Hnd Hin. apply list_elem_of_fmap in Hin as (item & -> & Hin). exists item.
  split; [done|]. split; [done|]. apply elem_of_list_to_map_1.
  - rewrite <-list_fmap_compose. unfold compose. cbn [fst]. by rewrite <-Permutation_rev.
  - apply list_elem_of_fmap. exists item. split; [done|].
    apply list_elem_of_In. rewrite <-in_rev. by apply list_elem_of_In.
Qed.

(** a target the observation puts in force is an exact partition of the
    direct assets (with the additional ones) over three or four distinct
    Active markets of the vault, each above every dust minimum, with room for
    a minimum position and with a ranking rate no higher than any of its
    observations; its score is a fraction, and the memory that is saved holds
    that selection and no pending one. *)
Theorem top_k_target_sound memory additional obs t :
  settings_wf settings -> NoDup (pc_market_id <$> vv_positions vault) ->
  map_Forall (fun _ a => 0 <= a) (pj_position_expected_assets (pw_vault projection)) ->
  0 <= additional -> NoDup (tk_selected_markets memory) ->
  observe_top_k_target snapshot projection vault settings (Some memory) additional = Ok obs ->
  ob_target obs = Some t -> top_k_target_ok additional obs t.
Proof.
  intros W Hnd Hassets Hadd Hs H Ht. unfold observe_top_k_target in H.
  step_ok H as reading Hr. cbn [default] in Hr.
  apply read_top_k_Ok in Hr as (Hp & Hev & Hel & Hcur & Hdir); [|done|done].
  pose proof (current_assets_nonneg _ Hcur Hassets) as Hcn.
  destruct (length _ <? 3)%nat; [by injection H as <-|].
  step_ok H as [in_force next] Hu. apply update_membership_Ok in Hu. cbn [fst snd] in H.
  destruct in_force; [|by injection H as <-].
  destruct Hu as (Hsel & Hpend & _). step_ok H as target Htarget. injection H as <-.
  injection Ht as ->. unfold topk_target in Htarget.
  step_ok Htarget as weights Hw. step_ok Htarget as targets Hts.
  step_ok Htarget as score Hscore. injection Htarget as <-.
  apply effective_target_weights_Ok in Hw as ([Wf _] & _ & Hn & Hin); [|done].
  rewrite Hsel in *.
  assert (0 <= map_sum_by id (to_current_assets reading)) as Hsum0.
  { rewrite <-btree_values_sum. apply list_sum_nonneg, Forall_forall.
    intros v Hv. unfold btree_values in Hv. apply list_elem_of_fmap in Hv as ([k a] & -> & Hka).
    apply elem_of_btree_entries in Hka. by eapply Hcn. }
  apply target_allocations_Ok in Hts as (Hdom & Hnn & Hexact);
    [|done|by destruct (to_proposed reading); [destruct Hn as [Hn|Hn]; discriminate Hn|]|lia|done].
  constructor; cbn; [done|done| |done|done|done|done| |done|done].
  - intros market Hm. rewrite Forall_forall in Hin. apply Hin in Hm.
    destruct (evidence_lookup _ _ Hev Hm) as (item & Hitem & <- & Hl).
    destruct (Hel item Hitem) as (c & ? & ? & ?). exists c, item. by rewrite Hl.
  - eapply allocation_score_bounds; [exact Hscore|done|done|lia|lia].
Qed.

(** ** Histories of observations *)

(** What one observation contributes: its canonical time, the set it proposes
    and the markets that are eligible at it. *)
Record TopKEvent : Type := mkTopKEvent {
  ev_time : Z;
  ev_proposal : list MarketId;
  ev_eligible : list MarketId;
}.

(** [pending] is what every conclusive observation proposed since [since]. *)
Inductive proposed_since (pending : list MarketId) : list TopKEvent -> Z -> Prop :=
| since_first event history :
    ev_proposal event = pending -> proposed_since pending (event :: history) (ev_time event)
| since_kept event history since :
    proposed_since pending history since ->
    ev_proposal event = pending \/ (length (ev_proposal event) < 3)%nat ->
    proposed_since pending (event :: history) since.

(** The only ways a selection comes to be in force, and its generation. *)
Inductive selected_after (confirmation : Z) : list TopKEvent -> list MarketId -> Z -> Prop :=
| selected_never : selected_after confirmation [] [] 0
| selected_kept event history selected generation :
    selected_after confirmation history selected generation ->
    selected_after confirmation (event :: history) selected generation
| selected_replaced event history selected market generation :
    selected_after confirmation history selected generation ->
    market ∈ selected -> market ∉ ev_eligible event -> (3 <= length (ev_proposal event))%nat ->
    selected_after confirmation (event :: history) (ev_proposal event) (generation + 1)
| selected_confirmed event history selected since generation :
    selected_after confirmation history selected generation ->
    proposed_since (ev_proposal event) (event :: history) since ->
    since + confirmation <= ev_time event -> (3 <= length (ev_proposal event))%nat ->
    selected_after confirmation (event :: history) (ev_proposal event) (generation + 1).

(** The memory's pending set, against the history. *)
Definition pending_after (history : list TopKEvent) (m : TopKApyMemory) : Prop :=
  match tk_pending_selection_since_timestamp m with
  | None => True
  | Some since => proposed_since (tk_pending_selected_markets m) history since
  end.

Record memory_after (history : list TopKEvent) (m : TopKApyMemory) : Prop := {
  ma_selected : selected_after (vt_membership_confirmation_seconds settings) history
                  (tk_selected_markets m) (tk_generation m);
  ma_pending : pending_after history m;
}.

Lemma contains_false market markets : contains market markets = false <-> market ∉ markets.
Proof. unfold contains. by rewrite bool_decide_eq_false. Qed.

Lemma operational_replacement_true m evidence :
  operational_replacement m evidence = true ->
  exists market, market ∈ tk_selected_markets m /\ market ∉ tm_market <$> evidence.
Proof.
  unfold operational_replacement. intros (market & Hin & Hc)%existsb_exists. exists market.
  by rewrite list_elem_of_In, <-contains_false, <-negb_true_iff.
Qed.

(** One step of the membership machine extends the history. *)
Lemma update_membership_history history m event evidence in_force next :
  memory_after history m ->
  ev_eligible event = tm_market <$> evidence -> (3 <= length (ev_proposal event))%nat ->
  update_membership settings m (ev_proposal event) (operational_replacement m evidence)
    (ev_time event) = Ok (in_force, next) ->
  memory_after (event :: history) next.
Proof.
  intros [Hsel Hpend] He Hl H. unfold update_membership in H.
  destruct (bool_decide (ev_proposal event = _)) eqn:E1.
  { injection H as <- <-. split; [by apply selected_kept|done]. }
  destruct (_ && _) eqn:E2.
  { step_ok H as m' Hm. injection H as <- <-. unfold install_selection in Hm. inv_ok.
    apply andb_true_iff in E2 as [E2 _]. apply operational_replacement_true in E2 as (market & ? & ?).
    split; [|done]. cbn. eapply selected_replaced; [done|done|by rewrite He|done]. }
  cbn zeta in H. set (m1 := if bool_decide _ then m else _) in H.
  assert (tk_selected_markets m1 = tk_selected_markets m /\ tk_generation m1 = tk_generation m /\
          tk_pending_selected_markets m1 = ev_proposal event /\ pending_after (event :: history) m1)
    as (Es & Eg & Ep & Hp1).
  { unfold m1. destruct (bool_decide (tk_pending_selected_markets m = _)) eqn:E3; bool_spec E3.
    - repeat split; try done. unfold pending_after in *.
      destruct (tk_pending_selection_since_timestamp m); [|done].
      apply since_kept; [done|by left].
    - repeat split; try done. by apply since_first. }
  destruct (membership_confirmed _ _ _) eqn:E4.
  - step_ok H as m' Hm. injection H as <- <-. unfold install_selection in Hm.
    step_ok Hm as generation Hg. apply ok_or_Ok, checked_add_Some in Hg as [-> _].
    injection Hm as <-. split; [|done]. cbn [with_selection tk_selected_markets tk_generation].
    rewrite Ep, Eg. unfold pending_after in Hp1. unfold membership_confirmed in E4.
    destruct (tk_pending_selection_since_timestamp m1) as [since|]; [|discriminate E4].
    cbn in E4. destruct (checked_add _ _ _) eqn:E5; [|discriminate E4].
    apply checked_add_Some in E5 as [-> _]. bool_spec E4. rewrite Ep in Hp1.
    by eapply selected_confirmed.
  - injection H as <- <-. split; [|done]. rewrite Es, Eg. by apply selected_kept.
Qed.

End Observe.

(** The memory after a series of observations of one vault, most recent first,
    each on any snapshot, projection and additional assets. *)
Inductive observed (vault : ValidatedVaultConfig) (settings : ValidatedTopKApyConfig)
    : list TopKEvent -> option TopKApyMemory -> Prop :=
| observed_never : observed vault settings [] None
| observed_next history memory snapshot projection additional reading obs :
    observed vault settings history memory ->
    read_top_k snapshot projection vault settings (default memory_default memory) additional
      = Ok reading ->
    observe_top_k_target snapshot projection vault settings memory additional = Ok obs ->
    observed vault settings
      (mkTopKEvent (blk_timestamp (pw_head projection)) (to_proposed reading)
         (tm_market <$> to_evidence reading) :: history)
      (Some (ob_next_memory obs)).

(** C22: through any series of observations, the selection only changes to a
    proposed set of three or more markets when a selected market has stopped
    being eligible, or when every conclusive observation has proposed that set
    for at least the confirmation period of canonical time; the generation
    counts the changes. *)
Theorem selection_changes_confirmed vault settings history memory :
  NoDup (pc_market_id <$> vv_positions vault) ->
  observed vault settings history (Some memory) ->
  selected_after (vt_membership_confirmation_seconds settings) history
    (tk_selected_markets memory) (tk_generation memory).
Proof.
  intros Hnd H. cut (memory_after settings history memory); [by intros []|].
  change memory with (default memory_default (Some memory)). revert H.
  generalize (Some memory). clear memory. intros memory H.
  induction H as [|history memory snapshot projection additional reading obs _ IH Hr Ho].
  { split; [constructor|done]. }
  unfold observe_top_k_target in Ho. rewrite Hr in Ho. cbn [mbind result_bind] in Ho.
  set (event := mkTopKEvent _ _ _).
  assert (memory_after settings history (to_memory reading)) as Hm.
  { unfold read_top_k in Hr. step_ok Hr as current Hc. step_ok Hr as sum Hs.
    step_ok Hr as direct Hd. step_ok Hr as [evidence next] Hobs. step_ok Hr as proposed Hp.
    injection Hr as <-. apply observe_evidence_Ok in Hobs as (_ & _ & E1 & E2 & E3 & E4); [|done].
    cbn. destruct IH as [I1 I2]. split; [by rewrite E1, E2|]. unfold pending_after in *.
    by rewrite E3, E4. }
  cbn zeta in Ho. destruct (length _ <? 3)%nat eqn:El.
  - injection Ho as <-. cbn. apply Nat.ltb_lt in El. destruct Hm as [M1 M2].
    split; [by apply selected_kept|]. unfold pending_after in *.
    destruct (tk_pending_selection_since_timestamp _); [|done]. apply since_kept; [done|by right].
  - apply Nat.ltb_ge in El. step_ok Ho as [in_force next] Hu.
    eapply (update_membership_history settings history _ event (to_evidence reading)) in Hu;
      [|done|done|done].
    cbn [fst snd] in Ho. destruct in_force; [step_ok Ho as t Ht|]; by injection Ho as <-.
Qed.
