(* ===== verification/TopKSolve.v ===== *)
(** * Top-K solvers

    Models the solvers of [src/src/planner/top_k_apy.rs]: the capital that may
    be deployed, its allocation to the deficits of a frozen target under shared
    cap headroom, and the bounded search for market-to-market movements toward
    the target. *)
From Stdlib Require Import ZArith Lia List Bool.
From stdpp Require Import base list gmap sets sorting.
From S2P Require Import Prelude.
From S2P Require Import BlueMath.
From S2P Require Import Domain.
From S2P Require Import IdleLocks.
From S2P Require Import Config.
From S2P Require Import Projection.
From S2P Require Import Simulator.
From S2P Require Import SimulatorProofs.
From S2P Require Import Firewall.
From S2P Require Import Candidates.
From S2P Require Import Objective.
From S2P Require Import Capital.
From S2P Require Import Maintenance.
From S2P Require Import Rate.
From S2P Require Import TopK.
Open Scope Z_scope.

Record TopKApyCandidate : Type := mkTopKApyCandidate {
  tc_actions : list V2Action;
  tc_state : SimulationState;
  tc_before_score_wad : Z;
  tc_after_score_wad : Z;
  tc_movement_assets : Z;
  tc_before_portfolio_rate : Z;
  tc_after_portfolio_rate : Z;
}.

Record TopKApySolveResult : Type := mkTopKApySolveResult {
  tr_best : option TopKApyCandidate;
  tr_no_action_reason : option TopKApyNoActionReason;
  tr_certificate : SearchCertificate;
}.

Record TopKDeployableCapital : Type := mkTopKDeployableCapital {
  td_idle_assets : Z;
  td_liquidity_assets : Z;
  td_total_assets : Z;
}.

Record TopKSolveLimits : Type := mkTopKSolveLimits {
  tl_immediate_tranche_bps : Z;
  tl_maximum_actions : Z;
  tl_maximum_nodes : Z;
}.

(** ** Deployable capital *)

Definition verified_deployable_capital (snapshot : ExactVaultSnapshot)
    (vault : ValidatedVaultConfig) : result TopKApyError TopKDeployableCapital :=
  if ils_verified (ev_idle_locks snapshot) then
    locked ← checked_sum (il_remaining_assets <$> ils_locks (ev_idle_locks snapshot));
    idle_assets ← ok_or (checked_sub (pv_idle_assets (ev_parent snapshot)) locked)
      TopIncompleteState;
    liquidity_assets ←
      match ev_liquidity_adapter snapshot, vv_liquidity_adapter vault with
      | Some state, Some configured =>
          let retained := Z.max (vv_minimum_liquidity_adapter_assets vault)
                            (vv_minimum_atomic_exit_coverage_assets vault) in
          Ok (Z.min (Z.min (saturating_sub (la_real_assets state) retained)
                       (la_max_withdraw state)) (lac_maximum_action_assets configured))
      | None, None => Ok 0
      | _, _ => Err TopIncompleteState
      end;
    total_assets ← ok_or (checked_add U256_MAX idle_assets liquidity_assets) TopArithmetic;
    Ok (mkTopKDeployableCapital idle_assets liquidity_assets total_assets)
  else Ok (mkTopKDeployableCapital 0 0 0).

(** ** Portfolio *)

Definition portfolio_rate (current : gmap MarketId Z) (markets : gmap MarketId ProjectedMarketState)
    : result TopKApyError Z :=
  total ← checked_sum (btree_values current);
  if total =? 0 then Ok 0
  else
    weighted ← try_fold (fun sum entry =>
        rate ← ok_or (pm_spot_supply_rate <$> markets !! fst entry) TopIncompleteState;
        value ← ok_or (checked_mul U256_MAX (snd entry) rate) TopArithmetic;
        ok_or (checked_add U256_MAX sum value) TopArithmetic) 0 (btree_entries current);
    ok_or (checked_div weighted total) TopArithmetic.

Definition simulation_assets_by_market `{HK : Keccak} `{HA : AbiParams} (state : SimulationState) (vault : ValidatedVaultConfig)
    : result TopKApyError (gmap MarketId Z) :=
  entries ← try_map (fun position =>
    assets ← ok_or (position_expected_assets state (pc_position_key position)) TopIncompleteState;
    Ok (pc_market_id position, assets)) (vv_positions vault);
  Ok (fold_left (fun m e => <[e.1 := e.2]> m) entries ∅).

(** The position of a market; a map built from the list keeps the last. *)
Definition position_of (vault : ValidatedVaultConfig) (market : MarketId)
    : option ValidatedPositionConfig :=
  List.find (fun position => pc_market_id position =? market) (rev (vv_positions vault)).

Section Deployment.
Context `{HK : Keccak} `{HA : AbiParams}.
Context (snapshot : ExactVaultSnapshot) (projection : ProjectedVaultView).
Context (vault : ValidatedVaultConfig) (target : TopKApyTarget).
Context (funding : TopKDeployableCapital) (limits : TopKSolveLimits).

(** The loop's state: what is left to deploy, the allocations so far and the
    headroom left in every cap. *)
Record Deployment : Type := mkDeployment {
  dy_remaining : Z;
  dy_allocations : list V2Action;
  dy_headroom : gmap CapRef Z;
}.

Definition cap_headrooms : option (gmap CapRef Z) :=
  headrooms ← opt_map (fun reference =>
      headroom ← projected_cap_headroom snapshot projection reference; Some (reference, headroom))
    (map_to_list (ev_caps snapshot)).*1;
  Some (list_to_map headrooms).

(** The least headroom of the caps an allocation consumes. *)
Definition shared_cap_capacity (headroom : gmap CapRef Z) (position : DirectMarketPositionState)
    : option Z :=
  headrooms ← opt_map (fun reference => headroom !! reference) (affected_caps_list position);
  match headrooms with
  | [] => None
  | first :: rest => Some (foldl Z.min first rest)
  end.

Definition consume_cap (amount : Z) (headroom : gmap CapRef Z) (reference : CapRef)
    : result TopKApyError (gmap CapRef Z) :=
  current ← ok_or (headroom !! reference) TopIncompleteState;
  left ← ok_or (checked_sub current amount) TopArithmetic;
  Ok (<[reference := left]> headroom).

(** One selected market: its position, its state and what it can take. *)
Definition deployment_room (state : Deployment) (market : MarketId)
    : result TopKApyError (ValidatedPositionConfig * DirectMarketPositionState * Z) :=
  configured ← ok_or (position_of vault market) TopIncompleteState;
  current ← ok_or (tt_current_assets_by_market target !! market) TopIncompleteState;
  desired ← ok_or (tt_target_assets_by_market target !! market) TopIncompleteState;
  evidence ← ok_or (tt_evidence_by_market target !! market) TopIncompleteState;
  limited ← ok_or (cap_limited_allocation snapshot projection (pc_position_key configured))
    TopIncompleteState;
  let capacity := Z.min (tm_destination_capacity evidence) limited in
  position ← ok_or (ev_positions snapshot !! pc_position_key configured) TopIncompleteState;
  shared ← ok_or (shared_cap_capacity (dy_headroom state) position) TopIncompleteState;
  Ok (configured, position,
      Z.min (Z.min (Z.min (Z.min (saturating_sub desired current)
                             (pc_maximum_action_assets configured)) capacity) shared)
        (dy_remaining state)).

Definition deploy_market (state : Deployment) (market : MarketId)
    : result TopKApyError Deployment :=
  room ← deployment_room state market;
  let '(configured, position, amount) :=
    (room : ValidatedPositionConfig * DirectMarketPositionState * Z) in
  if amount <? vv_minimum_action_assets vault then Ok state
  else
    headroom ← try_fold (consume_cap amount) (dy_headroom state) (affected_caps_list position);
    remaining ← ok_or (checked_sub (dy_remaining state) amount) TopArithmetic;
    Ok (mkDeployment remaining (dy_allocations state ++ [allocate_destination configured amount])
          headroom).

(** The markets in order, until nothing remains. *)
Fixpoint deploy_markets (state : Deployment) (markets : list MarketId)
    : result TopKApyError Deployment :=
  match markets with
  | [] => Ok state
  | market :: markets =>
      if dy_remaining state =? 0 then Ok state
      else next ← deploy_market state market; deploy_markets next markets
  end.

(** The withdrawal that completes the idle assets, and the allocations. *)
Definition deployment_actions (allocated : Z) (allocations : list V2Action)
    : result TopKApyError (list V2Action) :=
  let liquidity_withdrawal := saturating_sub allocated (td_idle_assets funding) in
  if td_liquidity_assets funding <? liquidity_withdrawal then Err TopIncompleteState
  else if liquidity_withdrawal =? 0 then Ok allocations
  else
    liquidity ← ok_or (vv_liquidity_adapter vault) TopIncompleteState;
    Ok (Deallocate (lac_position_key liquidity) (lac_address liquidity) [] liquidity_withdrawal
        :: allocations).

(** The three hard checks of the one candidate, in order. *)
Definition deployment_state (actions : list V2Action) : result RejectionReason SimulationState :=
  state ← map_err (fun _ => RejectSimulation) (simulate_actions snapshot projection vault actions);
  _ ← map_err (fun _ => RejectService) (validate_service_constraints state snapshot vault);
  if vv_maximum_immediate_rebalance_loss_assets vault <? ss_immediate_loss_assets state
  then Err RejectImmediateLoss else Ok state.

Definition deployment_evidence (allocated : Z) (actions : list V2Action) : list Z :=
  be_bytes 32 allocated ++ concat ((fun action => be_bytes 32 (action_assets action)) <$> actions).

Definition one_node (c : SearchCertificate) : SearchCertificate :=
  mkSearchCertificate (se_candidate_lattice_hash c) 1 (se_node_limit c) (se_search_complete c)
    (se_rejection_counts c).

Definition solve_top_k_capital_deployment : result TopKApyError CapitalSolveResult :=
  let certificate := initial_certificate (tl_maximum_nodes limits) true in
  deployment ← map_err (fun _ => TopArithmetic)
    (mul_div_down (td_total_assets funding) (tl_immediate_tranche_bps limits) 10000);
  if deployment <? vv_minimum_action_assets vault then Ok (capital_empty_result certificate)
  else
    headroom ← ok_or cap_headrooms TopIncompleteState;
    deployed ← deploy_markets (mkDeployment deployment [] headroom) (tt_selected_markets target);
    allocated ← ok_or (checked_sub deployment (dy_remaining deployed)) TopArithmetic;
    if allocated <? vv_minimum_action_assets vault then Ok (capital_empty_result certificate)
    else
      actions ← deployment_actions allocated (dy_allocations deployed);
      if (tl_maximum_actions limits <? Z.of_nat (length actions)) || (tl_maximum_nodes limits =? 0)
      then Ok (capital_empty_result (mark_incomplete certificate))
      else
        let certificate := with_lattice_hash (one_node certificate)
          (keccak256 (deployment_evidence allocated actions)) in
        match deployment_state actions with
        | Err reason => Ok (capital_empty_result (reject certificate reason))
        | Ok state =>
            let undeployed := saturating_sub (td_total_assets funding) allocated in
            Ok (mkCapitalSolveResult actions (Some state)
                  (if vv_maximum_rounding_dust_assets vault <? undeployed
                   then Some (mkPendingDeployment undeployed (ev_snapshot_hash snapshot))
                   else None) certificate)
        end.

End Deployment.

(** ** Movements *)

Section Rebalance.
Context `{HK : Keccak} `{HA : AbiParams}.
Context (snapshot : ExactVaultSnapshot) (projection : ProjectedVaultView).
Context (vault : ValidatedVaultConfig) (settings : ValidatedTopKApyConfig).
Context (target : TopKApyTarget) (limits : TopKSolveLimits).

(** What a market above its target can give, never below its minimum. *)
Definition topk_source (market : MarketId) : option RateSource :=
  current ← tt_current_assets_by_market target !! market;
  let desired := default 0 (tt_target_assets_by_market target !! market) in
  configured ← position_of vault market;
  let available := Z.min (Z.min (saturating_sub current desired)
                            (pc_maximum_action_assets configured))
                     (saturating_sub current (pc_minimum_position_assets configured)) in
  if negb (available =? 0) then Some (configured, available) else None.

Definition topk_destination (market : MarketId) : option RateSource :=
  current ← tt_current_assets_by_market target !! market;
  desired ← tt_target_assets_by_market target !! market;
  configured ← position_of vault market;
  evidence ← tt_evidence_by_market target !! market;
  let available := Z.min (Z.min (saturating_sub desired current)
                            (pc_maximum_action_assets configured))
                     (tm_destination_capacity evidence) in
  if negb (available =? 0) then Some (configured, available) else None.

(** The endpoints, by market. *)
Definition topk_sources : list RateSource :=
  omap topk_source (set_elements (dom (tt_current_assets_by_market target)
                                  ∪ dom (tt_target_assets_by_market target))).
Definition topk_destinations : list RateSource :=
  sort_by_key (fun d => [pc_market_id (fst d)]) (omap topk_destination (tt_selected_markets target)).

Definition endpoint_lattices (endpoints : list RateSource) : list (list Z) :=
  cl_amounts <$> ((fun e => build_candidate_lattice (vv_minimum_action_assets vault) (snd e)
                              [snd e] 8) <$> endpoints).

Definition endpoint_distributions (endpoints : list RateSource) (movement limit : Z)
    : option (list (list Z)) :=
  bounded_distributions (snd <$> endpoints) (endpoint_lattices endpoints) movement
    (vv_minimum_action_assets vault) limit.

(** The actions of one distribution over the endpoints. *)
Definition endpoint_actions (build : ValidatedPositionConfig -> Z -> V2Action)
    (endpoints : list RateSource) (amounts : list Z) : list V2Action :=
  (fun p : RateSource * Z => build (fst (fst p)) (snd p))
  <$> List.filter (fun p => negb (snd p =? 0)) (zip endpoints amounts).

Definition movement_actions (chosen : list Z * list Z) : list V2Action :=
  endpoint_actions deallocate_source topk_sources (fst chosen)
  ++ endpoint_actions allocate_destination topk_destinations (snd chosen).

(** The candidates before the limit, and whether all of them fit in it. *)
Fixpoint push_candidates (limit : Z) (candidates : list (list V2Action))
    (pairs : list (list Z * list Z)) : list (list V2Action) * bool :=
  match pairs with
  | [] => (candidates, true)
  | chosen :: pairs =>
      if limit <=? Z.of_nat (length candidates) then (candidates, false)
      else push_candidates limit (candidates ++ [movement_actions chosen]) pairs
  end.

Definition movement_action_candidates (requested_movement maximum_nodes : Z)
    : result TopKApyError (list (list V2Action) * bool) :=
  source_total ← checked_sum (snd <$> topk_sources);
  destination_total ← checked_sum (snd <$> topk_destinations);
  let movement := Z.min (Z.min requested_movement source_total) destination_total in
  if movement =? 0 then Ok ([], true)
  else
    let distribution_limit := Z.max maximum_nodes 1 in
    match endpoint_distributions topk_sources movement distribution_limit with
    | None => Ok ([], false)
    | Some source_distributions =>
        match endpoint_distributions topk_destinations movement distribution_limit with
        | None => Ok ([], false)
        | Some destination_distributions =>
            Ok (push_candidates distribution_limit []
                  (distribution_pairs source_distributions destination_distributions))
        end
    end.

(** The tranche, its half, its quarter and the minimum action, largest first. *)
Definition candidate_amounts (full : Z) : result TopKApyError (list Z) :=
  tranche ← map_err (fun _ => TopArithmetic)
    (mul_div_down full (tl_immediate_tranche_bps limits) 10000);
  Ok (rev (set_elements (list_to_set
        (List.filter (fun amount => (vv_minimum_action_assets vault <=? amount) && (amount <=? full))
           [tranche; default 0 (checked_div tranche 2); default 0 (checked_div tranche 4);
            vv_minimum_action_assets vault])))).

Definition movement_total (actions : list V2Action) : result TopKApyError Z :=
  try_fold (fun total action =>
      match action with
      | Deallocate _ _ _ requested => ok_or (checked_add U256_MAX total requested) TopArithmetic
      | Allocate _ _ _ _ => Ok total
      end) 0 actions.

(** The hard checks of one candidate; the outer error stops the search. *)
Definition evaluate_rebalance (before_portfolio_rate : Z) (actions : list V2Action)
    : result TopKApyError (result RejectionReason TopKApyCandidate) :=
  if bool_decide (actions = []) || (tl_maximum_actions limits <? Z.of_nat (length actions))
  then Ok (Err RejectSimulation)
  else
    match deployment_state snapshot projection vault actions with
    | Err reason => Ok (Err reason)
    | Ok state =>
        after_assets ← simulation_assets_by_market state vault;
        after_score ← allocation_score after_assets (tt_target_assets_by_market target)
                        (tt_target_direct_assets target);
        if saturating_sub (tt_current_score_wad target) after_score
             <? vt_minimum_improvement_score_wad settings
        then Ok (Err RejectSpreadWorsening)
        else
          after_portfolio_rate ← portfolio_rate after_assets (ss_markets state);
          before_apy ← annualized_supply_yield before_portfolio_rate;
          after_apy ← annualized_supply_yield after_portfolio_rate;
          if match checked_add U256_MAX after_apy (vt_maximum_diversification_cost_apy_wad settings) with
             | None => true
             | Some with_budget => with_budget <? before_apy
             end
          then Ok (Err RejectSpreadWorsening)
          else
            movement ← movement_total actions;
            Ok (Ok (mkTopKApyCandidate actions state (tt_current_score_wad target) after_score
                      movement before_portfolio_rate after_portfolio_rate))
    end.

(** The order of candidates: score, then rate from the highest, loss, movement
    and number of actions. *)
Definition topk_key (c : TopKApyCandidate) : list Z :=
  [tc_after_score_wad c; - tc_after_portfolio_rate c; ss_immediate_loss_assets (tc_state c);
   tc_movement_assets c; Z.of_nat (length (tc_actions c))].

Definition better_candidate (candidate : TopKApyCandidate) (best : option TopKApyCandidate)
    : bool :=
  match best with
  | None => true
  | Some current => lex_lt (topk_key candidate) (topk_key current)
  end.

Definition action_evidence (action : V2Action) : list Z :=
  match action with
  | Deallocate position _ _ requested => 0 :: be_bytes 32 position ++ be_bytes 32 requested
  | Allocate position _ _ requested => 1 :: be_bytes 32 position ++ be_bytes 32 requested
  end.

(** The search: the certificate, the best candidate and the evidence bytes. *)
Record TopKSearch : Type := mkTopKSearch {
  ts_certificate : SearchCertificate;
  ts_best : option TopKApyCandidate;
  ts_bytes : list Z;
}.

Definition mark_search_incomplete (s : TopKSearch) : TopKSearch :=
  mkTopKSearch (mark_incomplete (ts_certificate s)) (ts_best s) (ts_bytes s).

Definition rebalance_step (before_portfolio_rate amount : Z) (s : TopKSearch)
    (actions : list V2Action) : result TopKApyError TopKSearch :=
  let certificate := count_node (ts_certificate s) in
  let bytes := ts_bytes s ++ be_bytes 32 amount ++ concat (action_evidence <$> actions) in
  evaluated ← evaluate_rebalance before_portfolio_rate actions;
  Ok (match evaluated with
      | Err reason => mkTopKSearch (reject certificate reason) (ts_best s) bytes
      | Ok candidate =>
          mkTopKSearch certificate
            (if better_candidate candidate (ts_best s) then Some candidate else ts_best s) bytes
      end).

(** The candidates of one amount; the flag is [break 'amounts]. *)
Fixpoint rebalance_candidates (before_portfolio_rate amount : Z) (s : TopKSearch)
    (candidates : list (list V2Action)) : result TopKApyError (bool * TopKSearch) :=
  match candidates with
  | [] => Ok (false, s)
  | actions :: candidates =>
      let c := ts_certificate s in
      if se_node_limit c <=? se_nodes_evaluated c then Ok (true, mark_search_incomplete s)
      else
        next ← rebalance_step before_portfolio_rate amount s actions;
        rebalance_candidates before_portfolio_rate amount next candidates
  end.

Fixpoint rebalance_amounts (before_portfolio_rate : Z) (s : TopKSearch) (amounts : list Z)
    : result TopKApyError TopKSearch :=
  match amounts with
  | [] => Ok s
  | amount :: amounts =>
      let c := ts_certificate s in
      let remaining_nodes := saturating_sub (se_node_limit c) (se_nodes_evaluated c) in
      if remaining_nodes =? 0 then Ok (mark_search_incomplete s)
      else
        candidates ← movement_action_candidates amount remaining_nodes;
        if negb (snd candidates) then Ok (mark_search_incomplete s)
        else
          searched ← rebalance_candidates before_portfolio_rate amount s (fst candidates);
          if fst searched : bool then Ok (snd searched)
          else rebalance_amounts before_portfolio_rate (snd searched) amounts
  end.

Definition topk_excess : result TopKApyError Z :=
  checked_sum ((fun entry => saturating_sub (snd entry)
      (default 0 (tt_target_assets_by_market target !! fst entry)))
    <$> btree_entries (tt_current_assets_by_market target)).

Definition solve_top_k_rebalance : result TopKApyError TopKApySolveResult :=
  let certificate := initial_certificate (tl_maximum_nodes limits) true in
  if tt_current_score_wad target <=? vt_target_score_wad settings
  then Ok (mkTopKApySolveResult None (Some TopTargetReached) certificate)
  else if tt_current_score_wad target <? vt_entry_score_wad settings
  then Ok (mkTopKApySolveResult None (Some BelowEntryScore) certificate)
  else
    excess ← topk_excess;
    amounts ← candidate_amounts excess;
    before_portfolio_rate ← portfolio_rate (tt_current_assets_by_market target)
                              (pw_markets projection);
    searched ← rebalance_amounts before_portfolio_rate
      (mkTopKSearch certificate None (concat (be_bytes 32 <$> amounts))) amounts;
    let certificate := with_lattice_hash (ts_certificate searched)
      (keccak256 (ts_bytes searched)) in
    Ok (mkTopKApySolveResult (ts_best searched)
          (if negb (se_search_complete certificate) then Some SearchIncomplete
           else if bool_decide (is_Some (ts_best searched)) then None
           else Some NoFeasibleCandidate) certificate).

End Rebalance.
