(* ===== verification/TopKSolveProofs.v ===== *)
(** * What the top-K solvers guarantee

    Proofs about [TopKSolve]: its movements, and its deployments. *)
From Stdlib Require Import ZArith Lia List Bool.
From stdpp Require Import base list gmap sets sorting.
From S2P Require Import Prelude.
From S2P Require Import BlueMath.
From S2P Require Import Domain.
From S2P Require Import Caps.
From S2P Require Import Config.
From S2P Require Import Projection.
From S2P Require Import Simulator.
From S2P Require Import SimulatorProofs.
From S2P Require Import Candidates.
From S2P Require Import Objective.
From S2P Require Import Firewall.
From S2P Require Import Capital.
From S2P Require Import Maintenance.
From S2P Require Import Rate.
From S2P Require Import TopK.
From S2P Require Import TopKProofs.
From S2P Require Import TopKSolve.
Open Scope Z_scope.

(** ** Top-K movements and deployments

    Proofs about [TopKSolve]: the rebalance search returns an unbeaten
    candidate of the complete lattice and moves toward the target without
    overshooting it; a deployment stays within the deficits, the funding and
    the shared headroom of every cap. *)

Section Rebalance.
Context `{HK : Keccak} `{HA : AbiParams}.
Context (snapshot : ExactVaultSnapshot) (projection : ProjectedVaultView).
Context (vault : ValidatedVaultConfig) (settings : ValidatedTopKApyConfig).
Context (target : TopKApyTarget) (limits : TopKSolveLimits).

Let sources := topk_sources vault target.
Let destinations := topk_destinations vault target.

Record topk_wf : Prop := {
  kw_minimum : 0 < vv_minimum_action_assets vault;
  kw_actions : Forall (fun p => 0 <= pc_maximum_action_assets p) (vv_positions vault);
  kw_capacity : map_Forall (fun _ e => 0 <= tm_destination_capacity e)
                  (tt_evidence_by_market target);
}.

Lemma position_of_Some market position :
  position_of vault market = Some position ->
  position ∈ vv_positions vault /\ pc_market_id position = market.
Proof.
  intros [H He%Z.eqb_eq]%List.find_some. split; [|done]. apply list_elem_of_In. by apply in_rev.
Qed.

(** ** The endpoints *)

(** What an endpoint may give: part of its excess over the target. *)
Definition source_room (s : RateSource) : Prop :=
  s.1 ∈ vv_positions vault /\
  exists current, tt_current_assets_by_market target !! pc_market_id s.1 = Some current /\
    0 < s.2 <= pc_maximum_action_assets s.1 /\
    s.2 <= saturating_sub current
             (default 0 (tt_target_assets_by_market target !! pc_market_id s.1)) /\
    s.2 <= saturating_sub current (pc_minimum_position_assets s.1).

(** What a destination may take: part of its deficit. *)
Definition destination_room (d : RateSource) : Prop :=
  d.1 ∈ vv_positions vault /\ pc_market_id d.1 ∈ tt_selected_markets target /\
  exists current desired evidence,
    tt_current_assets_by_market target !! pc_market_id d.1 = Some current /\
    tt_target_assets_by_market target !! pc_market_id d.1 = Some desired /\
    tt_evidence_by_market target !! pc_market_id d.1 = Some evidence /\
    0 < d.2 <= pc_maximum_action_assets d.1 /\
    d.2 <= saturating_sub desired current /\ d.2 <= tm_destination_capacity evidence.

Lemma sources_room : topk_wf -> Forall source_room sources.
Proof.
  intros [_ Ha _]. apply Forall_forall. intros s Hs. unfold sources, topk_sources in Hs.
  apply list_elem_of_omap in Hs as (market & _ & Hs). unfold topk_source in Hs.
  apply bind_Some in Hs as (current & Hc & Hs). apply bind_Some in Hs as (p & Hp & Hs).
  apply position_of_Some in Hp as [Hp <-].
  cbv zeta in Hs. destruct (negb _) eqn:E; [|done]. bool_spec E. injection Hs as <-.
  rewrite Forall_forall in Ha. specialize (Ha p Hp). cbn in Ha.
  split; [done|]. exists current. cbn [fst snd]. split; [done|].
  pose proof (saturating_sub_nonneg current (default 0 (tt_target_assets_by_market target !! pc_market_id p))).
  pose proof (saturating_sub_nonneg current (pc_minimum_position_assets p)). lia.
Qed.

Lemma destinations_room : topk_wf -> Forall destination_room destinations.
Proof.
  intros [_ Ha He]. apply Forall_forall. intros d Hd. unfold destinations, topk_destinations in Hd.
  rewrite sort_by_key_perm in Hd.
  apply list_elem_of_omap in Hd as (market & Hsel & Hd). unfold topk_destination in Hd.
  apply bind_Some in Hd as (current & Hc & Hd). apply bind_Some in Hd as (desired & Ht & Hd).
  apply bind_Some in Hd as (p & Hp & Hd). apply position_of_Some in Hp as [Hp <-].
  apply bind_Some in Hd as (e & Hev & Hd). pose proof (He _ _ Hev) as Hcap. cbn beta in Hcap.
  cbv zeta in Hd. destruct (negb _) eqn:E; [|done]. bool_spec E. injection Hd as <-.
  rewrite Forall_forall in Ha. specialize (Ha p Hp). cbn in Ha.
  split; [done|]. split; [done|]. exists current, desired, e. cbn [fst snd].
  pose proof (saturating_sub_nonneg desired current). split_and!; try done; lia.
Qed.

Lemma source_room_nonneg l : Forall source_room l -> Forall (fun s : RateSource => 0 <= snd s) l.
Proof. intros H. eapply Forall_impl; [exact H|]. intros s (_ & c & _ & ? & _). cbn. lia. Qed.

Lemma destination_room_nonneg l :
  Forall destination_room l -> Forall (fun s : RateSource => 0 <= snd s) l.
Proof.
  intros H. eapply Forall_impl; [exact H|]. intros s (_ & _ & c & t & e & _ & _ & _ & ? & _). cbn. lia.
Qed.

Lemma endpoint_distributions_spec endpoints movement limit ds :
  0 < vv_minimum_action_assets vault -> Forall (fun s : RateSource => 0 <= snd s) endpoints ->
  u256 movement -> endpoint_distributions vault endpoints movement limit = Some ds ->
  forall d, d ∈ ds <-> distribution (snd <$> endpoints) (endpoint_lattices vault endpoints) movement
                         (vv_minimum_action_assets vault) d.
Proof.
  intros Hmin Hn Hm H. apply bounded_distributions_spec in H as (_ & _ & H); [done| | |done|done].
  - unfold endpoint_lattices. by rewrite !length_fmap.
  - apply (lattices_nonneg_build _ _ (fun e : RateSource => snd e) (fun e => [snd e]));
      [lia|vm_compute; discriminate|done|].
    eapply Forall_impl; [exact Hn|]. intros e He. by repeat constructor.
Qed.

(** ** The candidates *)

(** A movement of an amount, as far as both sides allow, split between the
    endpoints by the lattices. *)
Definition topk_movement (amount : Z) (actions : list V2Action) : Prop :=
  let movement := Z.min (Z.min amount (list_sum (snd <$> sources)))
                    (list_sum (snd <$> destinations)) in
  movement <> 0 /\
  exists chosen_sources chosen_destinations,
    distribution (snd <$> sources) (endpoint_lattices vault sources) movement
      (vv_minimum_action_assets vault) chosen_sources /\
    distribution (snd <$> destinations) (endpoint_lattices vault destinations) movement
      (vv_minimum_action_assets vault) chosen_destinations /\
    actions = movement_actions vault target (chosen_sources, chosen_destinations).

Lemma push_candidates_spec limit candidates pairs out complete :
  push_candidates vault target limit candidates pairs = (out, complete) ->
  (forall a, a ∈ out -> a ∈ candidates \/ exists chosen, chosen ∈ pairs /\
     a = movement_actions vault target chosen) /\
  (forall a, a ∈ candidates -> a ∈ out) /\
  (complete = true -> forall chosen, chosen ∈ pairs -> movement_actions vault target chosen ∈ out).
Proof.
  revert candidates. induction pairs as [|chosen pairs IH]; intros candidates H; cbn in H.
  { injection H as <- <-. split; [by left|]. split; [done|]. by intros _ ? ?%elem_of_nil. }
  destruct (_ <=? _); [injection H as <- <-; split; [by left|]; by split|].
  apply IH in H as (H1 & H2 & H3). split; [|split].
  - intros a [Ha|(ch & ? & ?)]%H1; [|right; exists ch; split; [by right|done]].
    apply elem_of_app in Ha as [?|Ha]; [by left|]. apply list_elem_of_singleton in Ha as ->.
    right. exists chosen. split; [by left|done].
  - intros a Ha. apply H2, elem_of_app. by left.
  - intros Hc ch [->|Hin]%elem_of_cons; [|by apply H3]. apply H2, elem_of_app. right. by left.
Qed.

Lemma movement_candidates_spec amount maximum_nodes candidates complete :
  topk_wf -> u256 amount ->
  movement_action_candidates vault target amount maximum_nodes = Ok (candidates, complete) ->
  (forall actions, actions ∈ candidates -> topk_movement amount actions) /\
  (complete = true -> forall actions, topk_movement amount actions -> actions ∈ candidates).
Proof.
  intros Hwf [Ha Hamax] H. unfold movement_action_candidates in H.
  step_ok H as st Hst. step_ok H as dt Hdt. apply checked_sum_Ok in Hst, Hdt.
  pose proof (source_room_nonneg _ (sources_room Hwf)) as Ns.
  pose proof (destination_room_nonneg _ (destinations_room Hwf)) as Nd.
  pose proof (list_sum_nonneg _ (proj2 (Forall_fmap _ _ _) Ns)) as Ps.
  pose proof (list_sum_nonneg _ (proj2 (Forall_fmap _ _ _) Nd)) as Pd.
  rewrite Z.add_0_l in Hst, Hdt. subst st dt. fold sources destinations in H. cbv zeta in H.
  unfold topk_movement. cbv zeta.
  set (movement := Z.min (Z.min amount _) _) in *.
  assert (u256 movement) as Hm.
  { split; [by repeat apply Z.min_glb|].
    unfold movement. etransitivity; [apply Z.le_min_l|]. etransitivity; [apply Z.le_min_l|done]. }
  destruct (movement =? 0) eqn:E; bool_spec E.
  { injection H as <- <-. split; [by intros ? ?%elem_of_nil|]. by intros _ ? [? _]. }
  destruct (endpoint_distributions vault sources movement _) as [ss|] eqn:Es;
    [|injection H as <- <-; split; [by intros ? ?%elem_of_nil|done]].
  destruct (endpoint_distributions vault destinations movement _) as [ds|] eqn:Ed;
    [|injection H as <- <-; split; [by intros ? ?%elem_of_nil|done]].
  pose proof (endpoint_distributions_spec _ _ _ _ (kw_minimum Hwf) Ns Hm Es) as Hs.
  pose proof (endpoint_distributions_spec _ _ _ _ (kw_minimum Hwf) Nd Hm Ed) as Hd.
  injection H as H. apply push_candidates_spec in H as (H1 & _ & H3). split.
  - intros a [?%elem_of_nil|([s d] & [Hs1%Hs Hd1%Hd]%elem_of_distribution_pairs & ->)]%H1; [done|].
    split; [done|]. eauto.
  - intros Hc a (_ & s & d & Hs1%Hs & Hd1%Hd & ->). apply H3; [done|].
    by apply elem_of_distribution_pairs.
Qed.

(** ** The search *)

Definition unbeaten (c : TopKApyCandidate) (best : option TopKApyCandidate) : Prop :=
  exists b, best = Some b /\ lex_lt (topk_key c) (topk_key b) = false.

Lemma best_unbeaten_trans c b best :
  lex_lt (topk_key c) (topk_key b) = false -> unbeaten b best -> unbeaten c best.
Proof. intros H (d & -> & Hd). exists d. split; [done|]. by eapply lex_lt_not_trans. Qed.

Lemma best_unbeaten_refl c : unbeaten c (Some c).
Proof. exists c. split; [done|]. apply lex_lt_irrefl. Qed.

(** The best of a search only gets better, and only by passing candidates. *)
Record topk_extends (passes : TopKApyCandidate -> Prop) (s s' : TopKSearch) : Prop := {
  te_advances : certificate_advances (ts_certificate s) (ts_certificate s');
  te_from : forall c, ts_best s' = Some c -> ts_best s = Some c \/ passes c;
  te_keeps : forall c, ts_best s = Some c -> unbeaten c (ts_best s');
}.

Lemma topk_extends_refl passes s : topk_extends passes s s.
Proof.
  split; [apply certificate_advances_refl|by left|]. intros c ->. apply best_unbeaten_refl.
Qed.

Lemma topk_extends_incomplete passes s : topk_extends passes s (mark_search_incomplete s).
Proof.
  split; [apply certificate_advances_incomplete|by left|]. cbn. intros c ->. apply best_unbeaten_refl.
Qed.

Lemma topk_extends_unbeaten passes s s' c :
  topk_extends passes s s' -> unbeaten c (ts_best s) -> unbeaten c (ts_best s').
Proof. intros [_ _ K] (b & Hb & Hl). apply K in Hb. by eapply best_unbeaten_trans. Qed.

Lemma topk_extends_trans (p q r : TopKApyCandidate -> Prop) a b c :
  (forall x, p x -> r x) -> (forall x, q x -> r x) ->
  topk_extends p a b -> topk_extends q b c -> topk_extends r a c.
Proof.
  intros Hp Hq Hab Hbc. pose proof Hab as [A1 A2 A3]. pose proof Hbc as [B1 B2 B3].
  split; [by eapply certificate_advances_trans| |].
  - intros x [[?|?]%A2|?]%B2; [by left|right; by apply Hp|right; by apply Hq].
  - intros x Hx. eapply topk_extends_unbeaten; [exact Hbc|by apply A3].
Qed.

Context (before_portfolio_rate : Z).

Definition passing_actions (actions : list V2Action) (c : TopKApyCandidate) : Prop :=
  evaluate_rebalance snapshot projection vault settings target limits before_portfolio_rate actions
    = Ok (Ok c).

Lemma rebalance_step_extends amount s actions s' :
  se_nodes_evaluated (ts_certificate s) < se_node_limit (ts_certificate s) ->
  rebalance_step snapshot projection vault settings target limits before_portfolio_rate amount s
    actions = Ok s' ->
  topk_extends (passing_actions actions) s s' /\
  (forall c, passing_actions actions c -> unbeaten c (ts_best s')).
Proof.
  intros Hn H. unfold rebalance_step in H. step_ok H as evaluated He. injection H as <-.
  assert (certificate_advances (ts_certificate s) (count_node (ts_certificate s))) as Hc.
  { split; cbn; auto. intros _. rewrite saturating_add_spec. lia. }
  destruct evaluated as [c|reason].
  - assert (forall b, better_candidate c (Some b) = true -> lex_lt (topk_key b) (topk_key c) = false)
      as Hlt.
    { intros b Hb. unfold better_candidate in Hb. destruct (lex_lt (topk_key b) (topk_key c)) eqn:E; [|done].
      by rewrite <-(lex_lt_irrefl (topk_key c)), <-(lex_lt_trans _ _ _ Hb E). }
    split; [split|]; cbn [ts_certificate ts_best]; [done| | |].
    + intros x Hx. destruct (better_candidate _ _); [|by left].
      injection Hx as <-. right. exact He.
    + intros x Hx. rewrite Hx in *. destruct (better_candidate _ _) eqn:E; [|apply best_unbeaten_refl].
      exists c. split; [done|by apply Hlt].
    + intros x Hx. unfold passing_actions in Hx. rewrite He in Hx. injection Hx as <-.
      destruct (ts_best s) as [b|]; [|apply best_unbeaten_refl].
      destruct (better_candidate c (Some b)) eqn:E; [apply best_unbeaten_refl|].
      exists b. split; [done|exact E].
  - split.
    + split; cbn [ts_certificate ts_best].
      * destruct (reject_keeps (count_node (ts_certificate s)) reason) as (R1 & R2 & R3).
        destruct Hc as [C1 C2 C3]. split; [congruence|rewrite R2; auto|auto].
      * by left.
      * intros c ->. apply best_unbeaten_refl.
    + intros c Hx. unfold passing_actions in Hx. by rewrite He in Hx.
Qed.

Lemma rebalance_candidates_spec amount candidates s stopped s' :
  rebalance_candidates snapshot projection vault settings target limits before_portfolio_rate amount
    s candidates = Ok (stopped, s') ->
  topk_extends (fun c => exists actions, actions ∈ candidates /\ passing_actions actions c) s s' /\
  if stopped then se_search_complete (ts_certificate s') = false
  else forall actions c, actions ∈ candidates -> passing_actions actions c ->
    unbeaten c (ts_best s').
Proof.
  revert s. induction candidates as [|actions candidates IH]; intros s H; cbn in H.
  { injection H as <- <-. split; [apply topk_extends_refl|]. by intros ? ? ?%elem_of_nil. }
  destruct (_ <=? _) eqn:E; bool_spec E.
  { injection H as <- <-. split; [apply topk_extends_incomplete|done]. }
  step_ok H as s1 Hs1. apply rebalance_step_extends in Hs1 as [Hext Hub]; [|done].
  apply IH in H as [Hext' Hall]. split.
  - eapply topk_extends_trans; [| |exact Hext|exact Hext'].
    + intros c Hc. exists actions. split; [by left|done].
    + intros c (a & Ha & Hc). exists a. split; [by right|done].
  - destruct stopped; [done|]. intros a c [->|Hin]%elem_of_cons Hc; [|by eapply Hall].
    eapply topk_extends_unbeaten; [exact Hext'|by apply Hub].
Qed.

(** A movement of one of the amounts that passes every check. *)
Definition topk_candidate (amounts : list Z) (c : TopKApyCandidate) : Prop :=
  exists amount actions, amount ∈ amounts /\ topk_movement amount actions /\
    passing_actions actions c.

Lemma topk_candidate_cons amount amounts c :
  topk_candidate amounts c -> topk_candidate (amount :: amounts) c.
Proof. intros (a & acts & Ha & H). exists a, acts. split; [by right|done]. Qed.

Lemma rebalance_amounts_spec amounts s s' :
  topk_wf -> Forall u256 amounts ->
  rebalance_amounts snapshot projection vault settings target limits before_portfolio_rate s amounts
    = Ok s' ->
  topk_extends (topk_candidate amounts) s s' /\
  (se_search_complete (ts_certificate s') = true ->
   forall c, topk_candidate amounts c -> unbeaten c (ts_best s')).
Proof.
  intros Hwf. revert s. induction amounts as [|amount amounts IH]; intros s Hu H; cbn in H.
  { injection H as <-. split; [apply topk_extends_refl|].
    intros _ c (a & ? & Ha & _). by apply elem_of_nil in Ha. }
  apply Forall_cons in Hu as [Ha Hu].
  destruct (_ =? 0); [injection H as <-; split; [apply topk_extends_incomplete|done]|].
  step_ok H as [candidates complete] Hc. cbn [fst snd] in H.
  apply movement_candidates_spec in Hc as [Hc1 Hc2]; [|done|done].
  destruct complete; cbn in H;
    [|injection H as <-; split; [apply topk_extends_incomplete|done]].
  step_ok H as [stopped s1] Hs1. cbn [fst snd] in H.
  apply rebalance_candidates_spec in Hs1 as [Hext Hall].
  assert (forall c, (exists actions, actions ∈ candidates /\ passing_actions actions c) ->
    topk_candidate (amount :: amounts) c) as Hsub.
  { intros c (acts & Hin & Hp). exists amount, acts. split; [by left|]. split; [by apply Hc1|done]. }
  destruct stopped.
  - injection H as <-. split; [|intros Hcomp; congruence].
    eapply topk_extends_trans; [exact Hsub| |exact Hext|apply topk_extends_refl].
    intros c Hf. exact Hf.
  - apply IH in H as [Hext' Hall']; [|done]. split.
    + eapply topk_extends_trans; [exact Hsub|apply topk_candidate_cons|exact Hext|exact Hext'].
    + intros Hcomp c (a & acts & [->|Hin]%elem_of_cons & Hm & Hp).
      * eapply topk_extends_unbeaten; [exact Hext'|]. eapply Hall; [by apply Hc2|done].
      * apply Hall'; [done|]. by exists a, acts.
Qed.

(** ** The result *)

Lemma Ok_eq {E A} (a b : A) : @Ok E A a = Ok b -> b = a.
Proof. by intros [= ->]. Qed.

Lemma candidate_amounts_Ok full amounts :
  candidate_amounts vault limits full = Ok amounts ->
  0 <= tl_immediate_tranche_bps limits -> 0 <= full -> 0 < vv_minimum_action_assets vault ->
  Forall (fun a => vv_minimum_action_assets vault <= a <= full /\
    a <= Z.max (full * tl_immediate_tranche_bps limits / 10000) (vv_minimum_action_assets vault))
    amounts.
Proof.
  unfold candidate_amounts. intros H Hb Hf Hm. step_ok H as tranche Ht.
  apply map_err_Ok, mul_div_down_Ok in Ht as (_ & _ & ->).
  set (tranche := full * _ / 10000) in *.
  assert (0 <= tranche) as Htr by (apply Z.div_pos; nia). clearbody tranche.
  apply Ok_eq in H as ->.
  apply Forall_forall. intros a Ha. apply list_elem_of_In, in_rev, list_elem_of_In in Ha.
  apply elem_of_set_elements, elem_of_list_to_set, list_elem_of_In, List.filter_In in Ha as [Ha E].
  bool_spec E. split; [lia|].
  assert (tranche / 2 <= tranche /\ tranche / 4 <= tranche) as [H2 H4]
    by (split; apply Z.div_le_upper_bound; lia).
  change (default 0 (checked_div tranche 2)) with (tranche / 2) in Ha.
  change (default 0 (checked_div tranche 4)) with (tranche / 4) in Ha. cbn [In] in Ha.
  destruct Ha as [<-|[<-|[<-|[<-|[]]]]]; lia.
Qed.

Lemma movement_total_Ok acts m : movement_total acts = Ok m -> m = moved false acts.
Proof.
  unfold movement_total. intros H. cut (m = 0 + moved false acts); [lia|]. revert H. generalize 0.
  induction acts as [|a acts IH]; intros z H; cbn [try_fold] in H.
  { injection H as <-. unfold moved. cbn. lia. }
  step_ok H as z' Hz. apply IH in H. rewrite moved_cons. destruct a; cbn.
  - apply ok_or_Ok, checked_add_Some in Hz as [-> _]. lia.
  - injection Hz as <-. lia.
Qed.

(** What a chosen movement does: the same amount out of the markets above
    their target and into the markets below it, never past the target. *)
Definition toward_target (a : V2Action) : Prop :=
  exists position, position ∈ vv_positions vault /\
    0 < action_assets a <= pc_maximum_action_assets position /\
    exists current, tt_current_assets_by_market target !! pc_market_id position = Some current /\
    if is_allocation a
    then a = allocate_destination position (action_assets a) /\
         pc_market_id position ∈ tt_selected_markets target /\
         exists desired, tt_target_assets_by_market target !! pc_market_id position = Some desired /\
           current + action_assets a <= desired
    else a = deallocate_source position (action_assets a) /\
         default 0 (tt_target_assets_by_market target !! pc_market_id position)
           <= current - action_assets a /\
         pc_minimum_position_assets position <= current - action_assets a.

Lemma endpoints_within endpoints movement d :
  0 < vv_minimum_action_assets vault -> Forall (fun s : RateSource => 0 <= snd s) endpoints ->
  distribution (snd <$> endpoints) (endpoint_lattices vault endpoints) movement
    (vv_minimum_action_assets vault) d ->
  Forall2 (fun n (s : RateSource) => 0 <= n <= s.2) d endpoints.
Proof.
  intros Hm Hn Hd. eapply (distribution_within _ _ (fun s : RateSource => snd s) (fun e => [snd e]));
    [| | | |exact Hd]; [lia|vm_compute; discriminate|done|].
  eapply Forall_impl; [exact Hn|]. intros e He. by repeat constructor.
Qed.

Lemma saturating_sub_le a b x : 0 < x -> x <= saturating_sub a b -> b <= a - x.
Proof. intros Hx. rewrite saturating_sub_spec. lia. Qed.

Lemma topk_movement_sound amount acts :
  topk_wf -> 0 <= amount -> topk_movement amount acts ->
  moved true acts = moved false acts /\ 0 < moved false acts <= amount /\
  Forall toward_target acts.
Proof.
  intros Hwf Ha (Hne & s & d & Hs & Hd & ->).
  pose proof (sources_room Hwf) as Rs. pose proof (destinations_room Hwf) as Rd.
  pose proof (source_room_nonneg _ Rs) as Ns. pose proof (destination_room_nonneg _ Rd) as Nd.
  pose proof (kw_minimum Hwf) as Hm.
  pose proof (endpoints_within _ _ _ Hm Ns Hs) as Ws. pose proof (endpoints_within _ _ _ Hm Nd Hd) as Wd.
  destruct Hs as (_ & Ss & _). destruct Hd as (_ & Sd & _).
  pose proof (list_sum_nonneg _ (proj2 (Forall_fmap _ _ _) Ns)) as Ps.
  pose proof (list_sum_nonneg _ (proj2 (Forall_fmap _ _ _) Nd)) as Pd.
  set (movement := Z.min _ _) in *.
  assert (0 <= movement <= amount) as Hmv.
  { split; [by repeat apply Z.min_glb|]. etransitivity; apply Z.le_min_l. }
  unfold movement_actions, endpoint_actions. cbn [fst snd]. rewrite !moved_app.
  destruct (moved_built (fun s : RateSource => deallocate_source (fst s)) false sources s)
    as [A1 A2]; [done|by eapply Forall2_length|].
  destruct (moved_built (fun d : RateSource => allocate_destination (fst d)) true destinations d)
    as [B1 B2]; [done|by eapply Forall2_length|].
  cbn zeta in A1, A2, B1, B2. cbn [negb] in A2, B2. fold sources destinations.
  rewrite A1, A2, B1, B2, Ss, Sd, Z.add_0_l, Z.add_0_r. split; [done|]. split; [lia|].
  apply Forall_app. rewrite Forall_forall in Rs. rewrite Forall_forall in Rd.
  split; apply Forall_forall; intros a Hin.
  - eapply (built_elem (fun s : RateSource => deallocate_source (fst s))) in Hin
      as (e & n & He & Hn & Hle & ->); [|exact Ws].
    cbn beta in Hle. destruct (Rs e He) as (Hp & current & Hc & Hr1 & Hr2 & Hr3).
    exists e.1. split; [done|]. cbn [action_assets deallocate_source is_allocation].
    split; [lia|]. exists current. split; [done|]. split; [done|].
    split; apply saturating_sub_le; lia.
  - eapply (built_elem (fun s : RateSource => allocate_destination (fst s))) in Hin
      as (e & n & He & Hn & Hle & ->); [|exact Wd].
    cbn beta in Hle.
    destruct (Rd e He) as (Hp & Hsel & current & desired & ev & Hc & Ht & _ & Hr1 & Hr2 & _).
    exists e.1. split; [done|]. cbn [action_assets allocate_destination is_allocation].
    split; [lia|]. exists current. split; [done|]. split; [done|]. split; [done|].
    exists desired. split; [done|]. rewrite saturating_sub_spec in Hr2. lia.
Qed.

End Rebalance.

Section Results.
Context `{HK : Keccak} `{HA : AbiParams}.
Context (snapshot : ExactVaultSnapshot) (projection : ProjectedVaultView).
Context (vault : ValidatedVaultConfig) (settings : ValidatedTopKApyConfig).
Context (target : TopKApyTarget) (limits : TopKSolveLimits).

(** The amounts the search tries and the rate of the current allocation. *)
Definition topk_inputs (excess : Z) (amounts : list Z) (before : Z) : Prop :=
  topk_excess target = Ok excess /\ candidate_amounts vault limits excess = Ok amounts /\
  portfolio_rate (tt_current_assets_by_market target) (pw_markets projection) = Ok before.

Lemma checked_total_range {E} (e : E) z l t :
  u256 z -> Forall (fun x => 0 <= x) l ->
  try_fold (fun total x => ok_or (checked_add U256_MAX total x) e) z l = Ok t -> u256 t.
Proof.
  intros Hz Hl. revert z Hz. induction Hl as [|x l Hx Hl IH]; intros z [Hz Hz'] H; cbn [try_fold] in H.
  { by injection H as <-. }
  step_ok H as z' He. apply ok_or_Ok, checked_add_Some in He as [-> ?].
  eapply IH; [|exact H]. unfold in_u. lia.
Qed.

Lemma topk_excess_range excess : topk_excess target = Ok excess -> u256 excess.
Proof.
  intros H. eapply checked_total_range; [| |exact H]; [done|].
  apply Forall_fmap, Forall_true. intros e. apply saturating_sub_nonneg.
Qed.

(** How a result with a candidate or a complete search came about. *)
Lemma solve_topk_searched r :
  topk_wf vault target -> 0 <= tl_immediate_tranche_bps limits -> 0 <= tl_maximum_nodes limits ->
  solve_top_k_rebalance snapshot projection vault settings target limits = Ok r ->
  tt_current_score_wad target <= vt_target_score_wad settings /\
    tr_best r = None /\ tr_no_action_reason r = Some TopTargetReached \/
  tt_current_score_wad target < vt_entry_score_wad settings /\
    tr_best r = None /\ tr_no_action_reason r = Some BelowEntryScore \/
  exists excess amounts before, topk_inputs excess amounts before /\ u256 excess /\
    Forall (fun a => vv_minimum_action_assets vault <= a <= excess /\
      a <= Z.max (excess * tl_immediate_tranche_bps limits / 10000)
             (vv_minimum_action_assets vault)) amounts /\
    se_nodes_evaluated (tr_certificate r) <= se_node_limit (tr_certificate r) /\
    (forall c, tr_best r = Some c ->
       topk_candidate snapshot projection vault settings target limits before amounts c) /\
    (se_search_complete (tr_certificate r) = true ->
     forall c, topk_candidate snapshot projection vault settings target limits before amounts c ->
       unbeaten c (tr_best r)) /\
    (tr_no_action_reason r = None <->
       se_search_complete (tr_certificate r) = true /\ is_Some (tr_best r)).
Proof.
  intros Hwf Hb Hn H. unfold solve_top_k_rebalance in H. cbv zeta in H.
  destruct (_ <=? vt_target_score_wad _) eqn:E1; bool_spec E1; [left; by injection H as <-|right].
  destruct (_ <? vt_entry_score_wad _) eqn:E2; bool_spec E2; [left; by injection H as <-|right].
  step_ok H as excess He. step_ok H as amounts Ha. step_ok H as before Hbf.
  step_ok H as searched Hs. exists excess, amounts, before.
  pose proof (topk_excess_range _ He) as [He0 He1].
  pose proof (candidate_amounts_Ok _ _ _ _ Ha Hb He0 (kw_minimum _ _ Hwf)) as Hb2.
  pose proof (kw_minimum _ _ Hwf) as Hmin.
  apply rebalance_amounts_spec in Hs as [[[A1 A2 _] Hfrom _] Hall]; [|done|].
  2:{ eapply Forall_impl; [exact Hb2|]. intros a. cbn. unfold in_u. lia. }
  cbn [ts_certificate ts_best] in *.
  injection H as <-. cbn [tr_best tr_certificate tr_no_action_reason with_lattice_hash
    se_nodes_evaluated se_node_limit se_search_complete].
  split; [done|]. split; [done|]. split; [done|]. split; [rewrite A1; by apply A2|].
  split; [by intros c [?|?]%Hfrom|]. split; [exact Hall|].
  destruct (se_search_complete (ts_certificate searched)); cbn [negb].
  - case_bool_decide; by split; [|intros [_ ?]].
  - split; [done|]. by intros [? _].
Qed.

(** a complete top-K search is exact. It stays within its node limit; it
    reports no reason exactly when it is complete with a candidate; and the
    candidate it returns is a movement of one of the tried amounts that passes
    every check and that no other such movement beats in score, then rate,
    loss, size and number of actions. Without a candidate no movement passes. *)
Theorem topk_search_optimal r :
  topk_wf vault target -> 0 <= tl_immediate_tranche_bps limits -> 0 <= tl_maximum_nodes limits ->
  vt_target_score_wad settings < tt_current_score_wad target ->
  vt_entry_score_wad settings <= tt_current_score_wad target ->
  solve_top_k_rebalance snapshot projection vault settings target limits = Ok r ->
  exists excess amounts before, topk_inputs excess amounts before /\
    let passing := topk_candidate snapshot projection vault settings target limits before amounts in
    se_nodes_evaluated (tr_certificate r) <= se_node_limit (tr_certificate r) /\
    (tr_no_action_reason r = None <->
       se_search_complete (tr_certificate r) = true /\ is_Some (tr_best r)) /\
    (se_search_complete (tr_certificate r) = true ->
     match tr_best r with
     | None => forall c, ~ passing c
     | Some b => passing b /\ forall c, passing c -> lex_lt (topk_key c) (topk_key b) = false
     end).
Proof.
  intros Hwf Hb Hn H1 H2 H.
  destruct (solve_topk_searched r Hwf Hb Hn H)
    as [[? _]|[[? _]|(excess & amounts & before & Hin & _ & _ & Hnodes & Hfrom & Hall & Hreason)]];
    [lia|lia|].
  exists excess, amounts, before. split; [done|]. cbv zeta. split; [done|]. split; [done|].
  intros Hc. specialize (Hall Hc). destruct (tr_best r) as [b|].
  - split; [by apply Hfrom|]. intros c Hp. by destruct (Hall c Hp) as (b' & [= <-] & ?).
  - intros c Hp. by destruct (Hall c Hp) as (b & ? & _).
Qed.

Lemma deployment_state_Ok actions state :
  deployment_state snapshot projection vault actions = Ok state ->
  simulate_actions snapshot projection vault actions = Ok state /\
  validate_service_constraints state snapshot vault = Ok tt /\
  ss_immediate_loss_assets state <= vv_maximum_immediate_rebalance_loss_assets vault.
Proof.
  unfold deployment_state. intros H. step_ok H as st Hst%map_err_Ok. step_ok H as [] Hsv%map_err_Ok.
  destruct (_ <? _) eqn:E; bool_spec E; [done|]. by injection H as <-.
Qed.

(** What a returned movement promises. *)
Record topk_plan_ok (excess before : Z) (c : TopKApyCandidate) : Prop := {
  tp_simulates : simulate_actions snapshot projection vault (tc_actions c) = Ok (tc_state c);
  tp_service : validate_service_constraints (tc_state c) snapshot vault = Ok tt;
  tp_loss : ss_immediate_loss_assets (tc_state c)
              <= vv_maximum_immediate_rebalance_loss_assets vault;
  tp_actions : 0 < Z.of_nat (length (tc_actions c)) <= tl_maximum_actions limits;
  tp_movement : moved true (tc_actions c) = tc_movement_assets c /\
    moved false (tc_actions c) = tc_movement_assets c /\
    0 < tc_movement_assets c <= excess /\
    tc_movement_assets c <= Z.max (excess * tl_immediate_tranche_bps limits / 10000)
                              (vv_minimum_action_assets vault);
  tp_direction : Forall (toward_target vault target) (tc_actions c);
  tp_score : exists after_assets,
    simulation_assets_by_market (tc_state c) vault = Ok after_assets /\
    allocation_score after_assets (tt_target_assets_by_market target)
      (tt_target_direct_assets target) = Ok (tc_after_score_wad c) /\
    portfolio_rate after_assets (ss_markets (tc_state c)) = Ok (tc_after_portfolio_rate c);
  tp_improves : vt_minimum_improvement_score_wad settings
    <= Z.max 0 (tt_current_score_wad target - tc_after_score_wad c);
  tp_yield : exists before_apy after_apy, annualized_supply_yield before = Ok before_apy /\
    annualized_supply_yield (tc_after_portfolio_rate c) = Ok after_apy /\
    before_apy <= after_apy + vt_maximum_diversification_cost_apy_wad settings;
  tp_before : tc_before_score_wad c = tt_current_score_wad target;
}.

Lemma evaluate_rebalance_Ok before actions c :
  evaluate_rebalance snapshot projection vault settings target limits before actions = Ok (Ok c) ->
  tc_actions c = actions /\ actions <> [] /\
  Z.of_nat (length actions) <= tl_maximum_actions limits /\
  deployment_state snapshot projection vault actions = Ok (tc_state c) /\
  tc_movement_assets c = moved false actions /\
  (exists after_assets,
    simulation_assets_by_market (tc_state c) vault = Ok after_assets /\
    allocation_score after_assets (tt_target_assets_by_market target)
      (tt_target_direct_assets target) = Ok (tc_after_score_wad c) /\
    portfolio_rate after_assets (ss_markets (tc_state c)) = Ok (tc_after_portfolio_rate c)) /\
  vt_minimum_improvement_score_wad settings
    <= saturating_sub (tt_current_score_wad target) (tc_after_score_wad c) /\
  (exists before_apy after_apy, annualized_supply_yield before = Ok before_apy /\
    annualized_supply_yield (tc_after_portfolio_rate c) = Ok after_apy /\
    before_apy <= after_apy + vt_maximum_diversification_cost_apy_wad settings) /\
  tc_before_score_wad c = tt_current_score_wad target.
Proof.
  unfold evaluate_rebalance. intros H. destruct (_ || _) eqn:E1; [done|]. bool_spec E1.
  destruct E1 as [Hne Hlen]. destruct (deployment_state _ _ _ _) as [state|] eqn:Est; [|done].
  step_ok H as assets Has. step_ok H as score Hsc.
  destruct (_ <? vt_minimum_improvement_score_wad _) eqn:E2; bool_spec E2; [done|].
  step_ok H as rate Hr. step_ok H as bapy Hb. step_ok H as aapy Ha.
  destruct (checked_add U256_MAX aapy _) as [wb|] eqn:Eb; [|done].
  apply checked_add_Some in Eb as [-> _].
  destruct (_ <? bapy) eqn:E3; bool_spec E3; [done|].
  step_ok H as movement Hm. apply movement_total_Ok in Hm as ->. injection H as <-. cbn.
  split_and!; try done; [by exists assets|by exists bapy, aapy].
Qed.

(** whatever movement the top-K solver returns is safe and makes progress.
    It simulates to the returned state, within every service constraint and
    the loss bound; it takes one amount, at most the excess and at most the
    tranche (or the minimum action), out of markets above their target and
    into selected markets below it, never past the target of either side nor
    below the minimum of a position; the score improves by the configured
    minimum and the compounded portfolio yield drops by no more than the
    configured budget. *)
Theorem topk_rebalance_sound r c :
  topk_wf vault target -> 0 <= tl_immediate_tranche_bps limits -> 0 <= tl_maximum_nodes limits ->
  solve_top_k_rebalance snapshot projection vault settings target limits = Ok r ->
  tr_best r = Some c ->
  exists excess amounts before, topk_inputs excess amounts before /\ topk_plan_ok excess before c.
Proof.
  intros Hwf Hb Hn H Hc.
  destruct (solve_topk_searched r Hwf Hb Hn H)
    as [(_ & ? & _)|[(_ & ? & _)|(excess & amounts & before & Hin & [He _] & Ham & _ & Hfrom & _)]];
    [congruence|congruence|].
  exists excess, amounts, before. split; [done|].
  apply Hfrom in Hc as (amount & actions & Ha & Hm & Hp).
  rewrite Forall_forall in Ham. apply Ham in Ha as (Ha1 & Ha2). pose proof (kw_minimum _ _ Hwf).
  apply evaluate_rebalance_Ok in Hp as (<- & Hne & Hlen & Hst & Hmv & Hsc & Himp & Hy & Hbs).
  apply topk_movement_sound in Hm as (M1 & M2 & M3); [|done|lia].
  apply deployment_state_Ok in Hst as (S1 & S2 & S3).
  split; try done; [destruct (tc_actions c); [done|cbn in *; lia]|split_and!; lia|].
  rewrite saturating_sub_spec in Himp. done.
Qed.

End Results.

(** ** Top-K deployments

    The deployment of [TopKSolve] spends no more than its funding, fills no
    market past its target, and never takes more from a cap, over all its
    allocations together, than the headroom the cap has. *)

Section Deployment.
Context `{HK : Keccak} `{HA : AbiParams}.
Context (snapshot : ExactVaultSnapshot) (projection : ProjectedVaultView).
Context (vault : ValidatedVaultConfig) (target : TopKApyTarget).
Context (funding : TopKDeployableCapital) (limits : TopKSolveLimits).

Record deploy_wf : Prop := {
  dw_minimum : 0 < vv_minimum_action_assets vault;
  dw_bps : 0 <= tl_immediate_tranche_bps limits <= 10000;
  dw_idle : 0 <= td_idle_assets funding;
  dw_liquidity : 0 <= td_liquidity_assets funding;
  dw_total : td_total_assets funding = td_idle_assets funding + td_liquidity_assets funding;
  dw_distinct : NoDup (tt_selected_markets target);
}.

(** The caps an allocation to a position consumes. *)
Definition caps_of (position : ValidatedPositionConfig) : list CapRef :=
  match ev_positions snapshot !! pc_position_key position with
  | Some stored => affected_caps_list stored
  | None => []
  end.

(** What a list of allocations takes from a cap. *)
Definition cap_use (reference : CapRef) (built : list RateSource) : Z :=
  list_sum ((fun b => if bool_decide (reference ∈ caps_of (fst b)) then snd b else 0) <$> built).

Definition allocations_of (built : list RateSource) : list V2Action :=
  (fun b => allocate_destination (fst b) (snd b)) <$> built.

(** One allocation: part of the deficit of a selected market. *)
Definition fills_deficit (b : RateSource) : Prop :=
  b.1 ∈ vv_positions vault /\ pc_market_id b.1 ∈ tt_selected_markets target /\
  vv_minimum_action_assets vault <= b.2 <= pc_maximum_action_assets b.1 /\
  exists current desired evidence limited,
    tt_current_assets_by_market target !! pc_market_id b.1 = Some current /\
    tt_target_assets_by_market target !! pc_market_id b.1 = Some desired /\
    tt_evidence_by_market target !! pc_market_id b.1 = Some evidence /\
    cap_limited_allocation snapshot projection (pc_position_key b.1) = Some limited /\
    current + b.2 <= desired /\ b.2 <= tm_destination_capacity evidence /\ b.2 <= limited.

(** Consuming a cap leaves at least nothing, and takes the amount. *)
Lemma consume_caps amount references m m' :
  try_fold (consume_cap amount) m references = Ok m' -> 0 <= amount ->
  forall r h, m !! r = Some h -> 0 <= h -> exists h', m' !! r = Some h' /\ 0 <= h' /\
    h' + (if bool_decide (r ∈ references) then amount else 0) <= h.
Proof.
  revert m. induction references as [|x references IH]; intros m H Ha r h Hr Hh; cbn in H.
  { injection H as <-. exists h. case_bool_decide as E; [by apply elem_of_nil in E|].
    split; [done|lia]. }
  step_ok H as m1 Hm. unfold consume_cap in Hm. step_ok Hm as current Hc. step_ok Hm as left Hl.
  apply ok_or_Ok in Hc. apply ok_or_Ok, checked_sub_Some in Hl as [-> Hle]. injection Hm as <-.
  destruct (decide (r = x)) as [->|Hne].
  - rewrite Hr in Hc. injection Hc as <-.
    destruct (IH _ H Ha x (h - amount)) as (h' & Hh' & Hp & Hs); [by rewrite lookup_insert_eq|lia|].
    exists h'. split; [done|]. split; [done|]. rewrite bool_decide_eq_true_2 by (by left).
    case_bool_decide; lia.
  - destruct (IH _ H Ha r h) as (h' & Hh' & Hp & Hs); [by rewrite lookup_insert_ne|done|].
    exists h'. split; [done|]. split; [done|].
    destruct (bool_decide (r ∈ references)) eqn:E; bool_spec E; case_bool_decide as E2; try lia.
    apply elem_of_cons in E2 as [?|?]; done.
Qed.

(** The loop's invariant after the markets it has passed. *)
Record deployed (deployment : Z) (headroom : gmap CapRef Z) (passed : list MarketId)
    (s : Deployment) (built : list RateSource) : Prop := {
  dd_allocations : dy_allocations s = allocations_of built;
  dd_spent : dy_remaining s = deployment - list_sum (snd <$> built) /\ 0 <= dy_remaining s;
  dd_deficits : Forall fills_deficit built;
  dd_passed : (pc_market_id <$> built.*1) `sublist_of` passed;
  dd_caps : forall r h, headroom !! r = Some h -> 0 <= h -> exists h', dy_headroom s !! r = Some h' /\
    0 <= h' /\ h' + cap_use r built <= h;
}.

Lemma deployed_skip deployment headroom passed s built market :
  deployed deployment headroom passed s built ->
  deployed deployment headroom (passed ++ [market]) s built.
Proof.
  intros [D1 D2 D3 D4 D5]. split; try done. by apply sublist_inserts_r.
Qed.

Lemma deploy_market_Ok deployment headroom passed s built market s' :
  deploy_wf -> deployed deployment headroom passed s built ->
  market ∈ tt_selected_markets target ->
  deploy_market snapshot projection vault target s market = Ok s' ->
  exists built', deployed deployment headroom (passed ++ [market]) s' built'.
Proof.
  intros W D Hsel H. unfold deploy_market in H.
  step_ok H as [[configured position] amount] Hr. unfold deployment_room in Hr.
  step_ok Hr as p Hp. step_ok Hr as current Hc. step_ok Hr as desired Ht. step_ok Hr as evidence He.
  step_ok Hr as limited Hl. step_ok Hr as stored Hs. step_ok Hr as shared Hsh.
  apply ok_or_Ok in Hp, Hc, Ht, He, Hl, Hs, Hsh. injection Hr as <- <- Ham.
  apply position_of_Some in Hp as [Hp <-].
  destruct (amount <? _) eqn:E; bool_spec E.
  { injection H as <-. exists built. by apply deployed_skip. }
  step_ok H as next Hn. step_ok H as remaining Hrem.
  apply ok_or_Ok, checked_sub_Some in Hrem as [-> Hle]. injection H as <-.
  pose proof (dw_minimum W) as Hmin. destruct D as [D1 [D2 D2'] D3 D4 D5].
  exists (built ++ [(p, amount)]). split; cbn [dy_allocations dy_remaining dy_headroom].
  - unfold allocations_of. by rewrite fmap_app, D1.
  - rewrite fmap_app, list_sum_app. cbn. lia.
  - apply Forall_app. split; [done|]. constructor; [|done]. cbn [fst snd].
    rewrite saturating_sub_spec in Ham. split; [done|]. split; [done|]. cbn [fst snd].
    split; [lia|]. exists current, desired, evidence, limited. split_and!; try done; lia.
  - rewrite !fmap_app. apply sublist_app; [done|]. reflexivity.
  - intros r h Hrh Hh0. destruct (D5 r h Hrh Hh0) as (h1 & Hh1 & Hp1 & Hs1).
    destruct (consume_caps _ _ _ _ Hn ltac:(lia) r h1 Hh1 Hp1) as (h2 & Hh2 & Hp2 & Hs2).
    exists h2. split; [done|]. split; [done|]. unfold cap_use in *.
    rewrite fmap_app, list_sum_app, fmap_cons, list_sum_cons. cbn [fst snd].
    assert (caps_of p = affected_caps_list stored) as -> by (unfold caps_of; by rewrite Hs).
    change (list_sum (_ <$> [])) with 0. lia.
Qed.

Lemma deploy_markets_Ok deployment headroom passed s built markets s' :
  deploy_wf -> deployed deployment headroom passed s built ->
  (forall market, market ∈ markets -> market ∈ tt_selected_markets target) ->
  deploy_markets snapshot projection vault target s markets = Ok s' ->
  exists built', deployed deployment headroom (passed ++ markets) s' built'.
Proof.
  intros W. revert passed s built. induction markets as [|market markets IH];
    intros passed s built D Hsel H; cbn in H.
  { injection H as <-. exists built. by rewrite app_nil_r. }
  destruct (_ =? 0).
  { injection H as <-. exists built. destruct D as [D1 D2 D3 D4 D5]. split; try done.
    by apply sublist_inserts_r. }
  step_ok H as s1 Hs1. eapply deploy_market_Ok in Hs1 as (built1 & D1); [|done|exact D|apply Hsel; by left].
  replace (passed ++ market :: markets) with ((passed ++ [market]) ++ markets)
    by (by rewrite <-app_assoc). eapply IH; [exact D1| |exact H]. intros m Hm. apply Hsel. by right.
Qed.

(** ** The plan *)

(** What a returned deployment promises. *)
Record topk_deployment_ok (r : CapitalSolveResult) (state : SimulationState) : Prop := {
  pk_simulates : simulate_actions snapshot projection vault (cr_actions r) = Ok state;
  pk_service : validate_service_constraints state snapshot vault = Ok tt;
  pk_loss : ss_immediate_loss_assets state <= vv_maximum_immediate_rebalance_loss_assets vault;
  pk_count : Z.of_nat (length (cr_actions r)) <= tl_maximum_actions limits;
  pk_plan : exists withdrawal built,
    cr_actions r = withdrawal ++ allocations_of built /\
    Forall fills_deficit built /\ NoDup (pc_market_id <$> built.*1) /\
    let allocated := list_sum (snd <$> built) in
    vv_minimum_action_assets vault <= allocated
      <= td_total_assets funding * tl_immediate_tranche_bps limits / 10000 /\
    (withdrawal = [] /\ allocated <= td_idle_assets funding \/
     exists liquidity, vv_liquidity_adapter vault = Some liquidity /\
       withdrawal = [Deallocate (lac_position_key liquidity) (lac_address liquidity) []
                       (allocated - td_idle_assets funding)] /\
       0 < allocated - td_idle_assets funding <= td_liquidity_assets funding) /\
    (forall reference headroom, is_Some (ev_caps snapshot !! reference) ->
       projected_cap_headroom snapshot projection reference = Some headroom ->
       cap_use reference built <= headroom) /\
    cr_pending r =
      (if vv_maximum_rounding_dust_assets vault <? td_total_assets funding - allocated
       then Some (mkPendingDeployment (td_total_assets funding - allocated)
                    (ev_snapshot_hash snapshot)) else None);
}.

Lemma cap_headrooms_lookup headrooms reference headroom :
  cap_headrooms snapshot projection = Some headrooms ->
  is_Some (ev_caps snapshot !! reference) ->
  projected_cap_headroom snapshot projection reference = Some headroom ->
  headrooms !! reference = Some headroom.
Proof.
  unfold cap_headrooms. intros H [cap Hcap] Hh. apply bind_Some in H as (l & Hl & [= <-]).
  assert (Forall2 (fun k (e : CapRef * Z) => e.1 = k /\
    projected_cap_headroom snapshot projection k = Some e.2) (map_to_list (ev_caps snapshot)).*1 l) as F.
  { revert l Hl. induction ((map_to_list (ev_caps snapshot)).*1) as [|k ks IH]; intros l Hl; cbn in Hl.
    - injection Hl as <-. constructor.
    - apply bind_Some in Hl as (e & He & Hl). apply bind_Some in Hl as (l' & Hl' & [= <-]).
      apply bind_Some in He as (h & Hk & [= <-]). constructor; [done|by apply IH]. }
  assert (l.*1 = (map_to_list (ev_caps snapshot)).*1) as Hk.
  { clear -F. induction F as [|k e ks l [? _] _ IH]; [done|]. by rewrite fmap_cons, IH; f_equal. }
  apply elem_of_list_to_map_1; [rewrite Hk; apply NoDup_fst_map_to_list|].
  assert (reference ∈ (map_to_list (ev_caps snapshot)).*1) as (i & Hi)%list_elem_of_lookup.
  { apply list_elem_of_fmap. exists (reference, cap). split; [done|]. by apply elem_of_map_to_list. }
  destruct (Forall2_lookup_l _ _ _ _ _ F Hi) as ([k h] & Hle & Hk1 & Hk2). cbn in Hk1, Hk2. subst k.
  rewrite Hh in Hk2. injection Hk2 as ->. by eapply list_elem_of_lookup_2.
Qed.

Lemma deployment_actions_Ok allocated allocations actions :
  deployment_actions vault funding allocated allocations = Ok actions ->
  exists withdrawal, actions = withdrawal ++ allocations /\
    (withdrawal = [] /\ allocated <= td_idle_assets funding \/
     exists liquidity, vv_liquidity_adapter vault = Some liquidity /\
       withdrawal = [Deallocate (lac_position_key liquidity) (lac_address liquidity) []
                       (allocated - td_idle_assets funding)] /\
       0 < allocated - td_idle_assets funding <= td_liquidity_assets funding).
Proof.
  unfold deployment_actions. intros H. rewrite saturating_sub_spec in H. cbv zeta in H.
  destruct (td_liquidity_assets funding <? _) eqn:E1; bool_spec E1; [done|].
  destruct (_ =? 0) eqn:E2; bool_spec E2.
  - injection H as <-. exists []. split; [done|]. left. split; [done|lia].
  - step_ok H as liquidity Hl%ok_or_Ok. injection H as <-.
    exists [Deallocate (lac_position_key liquidity) (lac_address liquidity) []
       (Z.max 0 (allocated - td_idle_assets funding))].
    split; [done|]. right. exists liquidity. rewrite Z.max_r by lia. split; [done|].
    split; [done|lia].
Qed.

(** C23: a top-K deployment with a state is safe and exact. It simulates to that
    state within every service constraint and the loss bound; its allocations
    go to distinct selected markets, each within the market's deficit, its
    destination capacity and the action bounds; together they take no more
    than the tranche of the funding and, for every cap of the vault, no more
    than its headroom; the liquidity withdrawal is exactly what idle assets do
    not cover; and the rest is pending unless it is dust. *)
Theorem topk_deployment_sound r state :
  deploy_wf ->
  solve_top_k_capital_deployment snapshot projection vault target funding limits = Ok r ->
  cr_state r = Some state -> topk_deployment_ok r state.
Proof.
  intros W H Hst. unfold solve_top_k_capital_deployment in H. cbv zeta in H.
  step_ok H as deployment Hd. apply map_err_Ok, mul_div_down_Ok in Hd as (_ & _ & ->).
  set (deployment := _ / 10000) in *.
  destruct (deployment <? _) eqn:E0; bool_spec E0; [by injection H as <-|].
  step_ok H as headrooms Hh%ok_or_Ok. step_ok H as dep Hdep. step_ok H as allocated Hal.
  apply ok_or_Ok, checked_sub_Some in Hal as [-> _].
  destruct (_ <? vv_minimum_action_assets vault) eqn:E1; bool_spec E1; [by injection H as <-|].
  step_ok H as actions Hact. destruct (_ || _) eqn:E2; bool_spec E2; [by injection H as <-|].
  destruct (deployment_state _ _ _ _) as [st|reason] eqn:Es; [|by injection H as <-].
  apply deployment_state_Ok in Es as (S1 & S2 & S3).
  pose proof (dw_minimum W). pose proof (dw_bps W).
  destruct (deploy_markets_Ok deployment headrooms [] (mkDeployment deployment [] headrooms) []
    (tt_selected_markets target) dep W) as (built & [B1 [B2 B2'] B3 B4 B5]); [|done|done|].
  { split; cbn; [done|lia|done|done|]. intros r' h Hr Hh0. exists h. split; [done|].
    unfold cap_use. cbn. lia. }
  assert (deployment - dy_remaining dep = list_sum (snd <$> built)) as Eal by lia.
  rewrite Eal in *. apply deployment_actions_Ok in Hact as (withdrawal & -> & Hw).
  injection H as <-. cbn in Hst. injection Hst as <-. split; cbn; try done; [lia|].
  exists withdrawal, built. rewrite B1. split; [done|]. split; [done|].
  split; [eapply sublist_NoDup; [exact (dw_distinct W)|exact B4]|].
  split; [fold deployment; lia|]. split; [done|]. split.
  - intros reference headroom Hcap Hr.
    destruct (B5 reference headroom) as (h' & _ & ? & ?);
      [by eapply cap_headrooms_lookup|by eapply headroom_nonneg|lia].
  - assert (list_sum (snd <$> built) <= td_total_assets funding).
    { assert (deployment <= td_total_assets funding); [|lia].
      pose proof (dw_total W). pose proof (dw_idle W). pose proof (dw_liquidity W).
      apply Z.div_le_upper_bound; [lia|]. nia. }
    rewrite saturating_sub_spec, Z.max_r by lia. done.
Qed.

End Deployment.
