(* ===== verification/Builders.v ===== *)
(** * Plan builders

    Models the planning interface of [src/src/planner/mod.rs] and the three
    builders that implement it in [src/src/planner/liquidity.rs],
    [src/src/planner/capital.rs] and [src/src/planner/rate.rs]: a builder plans
    against the first frozen inclusion scenario and keeps only actions that
    simulate under all of them.  [PlanBuilder] is the trait; [PlanBuilderLaws]
    is what every builder promises. *)
From Stdlib Require Import ZArith Lia List Bool.
From stdpp Require Import base list gmap sets.
From S2P Require Import Prelude.
From S2P Require Import BlueMath.
From S2P Require Import Domain.
From S2P Require Import Config.
From S2P Require Import Projection.
From S2P Require Import Simulator.
From S2P Require Import Episodes.
From S2P Require Import Objective.
From S2P Require Import Capital.
From S2P Require Import Maintenance.
From S2P Require Import Rate.
Open Scope Z_scope.

Record InclusionScenario : Type := mkInclusionScenario {
  is_id : B256;
  is_head : BlockRef;
}.

Record PlanningInput : Type := mkPlanningInput {
  pi_exact : ExactVaultSnapshot;
  pi_inclusion_scenarios : list InclusionScenario;
  pi_projected : gmap B256 ProjectedVaultView;
  pi_config : ValidatedVaultConfig;
  pi_active_episode : option RateSignalEpisode;
  pi_pending_deployment : option PendingDeployment;
  pi_reservations : ResourceReservations;
}.

Inductive CandidatePlanSet : Type :=
| SetLiquidity (r : LiquiditySolveResult)
| SetCapital (r : CapitalSolveResult)
| SetRate (r : RateSolveResult).

Inductive PlanningError : Type :=
| MissingProjection
| MissingEpisode.

Class PlanBuilder (B : Type) : Type :=
  build : B -> PlanningInput -> result PlanningError (option CandidatePlanSet).

Record LiquidityPlanBuilder : Type := mkLiquidityPlanBuilder {
  lb_solver : SolverConfigCanonical;
  lb_maximum_actions : Z;
}.

Record CapitalPlanBuilder : Type := mkCapitalPlanBuilder {
  cb_solver : SolverConfigCanonical;
  cb_benefit_horizon_seconds : Z;
  cb_objective : StrategyObjective;
}.

Record RatePlanBuilder : Type := mkRatePlanBuilder {
  rb_strategy : ValidatedStrategyConfig;
  rb_solver : SolverConfigCanonical;
}.

Section Builders.
Context `{HK : Keccak} `{HA : AbiParams}.

(** [input.projected.values().next()]. *)
Definition first_projection (input : PlanningInput) : result PlanningError ProjectedVaultView :=
  ok_or (head (btree_values (pi_projected input))) MissingProjection.

(** Whether some scenario rejects the actions. *)
Definition scenario_rejects (input : PlanningInput) (actions : list V2Action) : bool :=
  existsb (fun scenario =>
    negb (is_ok (simulate_actions (pi_exact input) scenario (pi_config input) actions)))
    (btree_values (pi_projected input)).

Definition build_liquidity (b : LiquidityPlanBuilder) (input : PlanningInput)
    : result PlanningError (option CandidatePlanSet) :=
  projection ← first_projection input;
  let r := solve_liquidity_maintenance (pi_exact input) projection (pi_config input)
             (lb_solver b) (lb_maximum_actions b) in
  if bool_decide (lr_actions r = []) || scenario_rejects input (lr_actions r)
  then Ok None else Ok (Some (SetLiquidity r)).
#[global] Instance liquidity_builder : PlanBuilder LiquidityPlanBuilder := build_liquidity.

Definition build_capital (b : CapitalPlanBuilder) (input : PlanningInput)
    : result PlanningError (option CandidatePlanSet) :=
  projection ← first_projection input;
  let r := solve_capital_deployment (pi_exact input) projection (pi_config input) (cb_solver b)
             (cb_benefit_horizon_seconds b) (cb_objective b) in
  if bool_decide (cr_actions r = []) || negb (se_search_complete (cr_certificate r)) then Ok None
  else if scenario_rejects input (cr_actions r) then Ok None
  else Ok (Some (SetCapital r)).
#[global] Instance capital_builder : PlanBuilder CapitalPlanBuilder := build_capital.

Definition build_rate (b : RatePlanBuilder) (input : PlanningInput)
    : result PlanningError (option CandidatePlanSet) :=
  episode ← ok_or (pi_active_episode input) MissingEpisode;
  projection ← first_projection input;
  let r := solve_rate_rebalance (pi_exact input) projection (pi_config input) (rb_strategy b)
             (rb_solver b) episode in
  if negb (executable_rate_search (rr_certificate r)) then Ok None
  else
    let best :=
      match rr_best r with
      | Some best => if scenario_rejects input (src_actions best) then None else Some best
      | None => None
      end in
    match best with
    | None => Ok None
    | Some best =>
        Ok (Some (SetRate (mkRateSolveResult (Some best) (rr_certificate r)
                             (rr_target_reachable r))))
    end.
#[global] Instance rate_builder : PlanBuilder RatePlanBuilder := build_rate.

(** The actions a set proposes. *)
Definition set_actions (s : CandidatePlanSet) : list V2Action :=
  match s with
  | SetLiquidity r => lr_actions r
  | SetCapital r => cr_actions r
  | SetRate r => from_option src_actions [] (rr_best r)
  end.

(** What the planner may rely on, whichever builder it runs: a proposed set of
    actions succeeds under every frozen scenario, and without a scenario there
    is no answer. *)
Class PlanBuilderLaws (B : Type) `{PlanBuilder B} : Prop := {
  build_simulates b input s : build b input = Ok (Some s) ->
    forall id view, pi_projected input !! id = Some view ->
    exists state, simulate_actions (pi_exact input) view (pi_config input) (set_actions s) = Ok state;
  build_needs_projection b input : pi_projected input = ∅ -> is_ok (build b input) = false;
}.

Lemma scenario_rejects_false input actions :
  scenario_rejects input actions = false ->
  forall id view, pi_projected input !! id = Some view ->
  exists state, simulate_actions (pi_exact input) view (pi_config input) actions = Ok state.
Proof.
  intros H id view Hv. apply not_true_iff_false in H. unfold scenario_rejects in H.
  rewrite existsb_exists in H.
  destruct (simulate_actions _ view _ actions) as [st|e] eqn:E; [by exists st|]. destruct H.
  exists view. rewrite E. split; [|done]. apply list_elem_of_In. unfold btree_values.
  apply list_elem_of_fmap. exists (id, view). by rewrite elem_of_btree_entries.
Qed.

Lemma first_projection_empty input :
  pi_projected input = ∅ -> first_projection input = Err MissingProjection.
Proof. intros H. unfold first_projection. by rewrite H. Qed.

#[global] Instance liquidity_builder_laws : PlanBuilderLaws LiquidityPlanBuilder.
Proof.
  split; unfold build, liquidity_builder, build_liquidity; intros b input.
  - intros s H. step_ok H as p Hp. destruct (_ || _) eqn:E; [done|]. bool_spec E.
    injection H as <-. apply scenario_rejects_false. tauto.
  - intros H. by rewrite (first_projection_empty _ H).
Qed.

#[global] Instance capital_builder_laws : PlanBuilderLaws CapitalPlanBuilder.
Proof.
  split; unfold build, capital_builder, build_capital; intros b input.
  - intros s H. step_ok H as p Hp. destruct (_ || _); [done|].
    destruct (scenario_rejects _ _) eqn:E; [done|]. injection H as <-.
    by apply scenario_rejects_false.
  - intros H. by rewrite (first_projection_empty _ H).
Qed.

#[global] Instance rate_builder_laws : PlanBuilderLaws RatePlanBuilder.
Proof.
  split; unfold build, rate_builder, build_rate; intros b input.
  - intros s H. step_ok H as e He. step_ok H as p Hp. destruct (negb _); [done|].
    destruct (rr_best _) as [best|]; [|done].
    destruct (scenario_rejects input (src_actions best)) eqn:E; [done|]. injection H as <-.
    by apply scenario_rejects_false.
  - intros H. rewrite (first_projection_empty _ H).
    by destruct (ok_or _ _).
Qed.

End Builders.
