(* ===== verification/Revision.v ===== *)
(** * Planning revisions

    Models [src/src/runtime/planning_revision.rs]: the reasons a vault must be
    planned again, the key that binds a plan to the state it was made from, and
    the accumulator that merges bursts of canonical events, with the
    invalidations of [src/src/chain/logs.rs].  A [BTreeMap] is a [gmap]. *)
From Stdlib Require Import ZArith Lia List Bool.
From stdpp Require Import base list gmap sets.
From S2P Require Import Prelude.
From S2P Require Import BlueMath.
From S2P Require Import Domain.
From S2P Require Import Config.
Open Scope Z_scope.

Inductive DirtyReason : Type :=
| EconomicState
| ReadSet
| PolicyState
| SafetyIdentity
| Startup
| Reorg
| PostTransaction
| StrategyTick
| StrategyContinuation.
#[global] Instance DirtyReason_eq_dec : EqDecision DirtyReason.
Proof. solve_decision. Defined.
#[global] Instance DirtyReason_countable : Countable DirtyReason.
Proof.
  refine (inj_countable
    (fun r => match r with EconomicState => 0 | ReadSet => 1 | PolicyState => 2
              | SafetyIdentity => 3 | Startup => 4 | Reorg => 5 | PostTransaction => 6
              | StrategyTick => 7 | StrategyContinuation => 8 end)
    (fun n => match n with 0 => Some EconomicState | 1 => Some ReadSet | 2 => Some PolicyState
              | 3 => Some SafetyIdentity | 4 => Some Startup | 5 => Some Reorg
              | 6 => Some PostTransaction | 7 => Some StrategyTick
              | 8 => Some StrategyContinuation | _ => None end) _).
  by intros [].
Defined.

Inductive StateInvalidation : Type :=
| VaultAccounting (vault : VaultAddress)
| VaultTopology (vault : VaultAddress)
| InvalidCapState (vault : VaultAddress) (cap : CapId)
| AdapterState (adapter : AdapterAddress)
| PositionState (position : PositionKey)
| MarketState (market : MarketId)
| TokenLiquidity (token : Address)
| PendingAdministration (target : Address)
| RoleState (vault : VaultAddress)
| GateState (vault : VaultAddress)
| AllForVault (vault : VaultAddress).
#[global] Instance StateInvalidation_eq_dec : EqDecision StateInvalidation.
Proof. solve_decision. Defined.

Record PlanningRevision : Type := mkPlanningRevision {
  pr_vault : VaultAddress;
  pr_latest_relevant_event_block : Z;
  pr_read_set_revision : Z;
  pr_topology_revision : B256;
  pr_config_revision : B256;
  pr_snapshot_block : BlockRef;
  pr_snapshot_fingerprint : B256;
  pr_projection_block : BlockRef;
  pr_planner_generation : Z;
  pr_dirty_reasons : gset DirtyReason;
}.
#[global] Instance PlanningRevision_eq_dec : EqDecision PlanningRevision.
Proof. solve_decision. Defined.

(** The exact state a planning generation is checked against. *)
Record CoveredState : Type := mkCoveredState {
  cs_snapshot_block : BlockRef;
  cs_fingerprint : B256;
  cs_projection_block : BlockRef;
  cs_topology_revision : B256;
  cs_config_revision : B256;
}.

Definition accepts_state (r : PlanningRevision) (s : CoveredState) : bool :=
  bool_decide (cs_snapshot_block s = pr_snapshot_block r)
  && (cs_fingerprint s =? pr_snapshot_fingerprint r)
  && bool_decide (cs_projection_block s = pr_projection_block r)
  && (cs_topology_revision s =? pr_topology_revision r)
  && (cs_config_revision s =? pr_config_revision r)
  && (pr_latest_relevant_event_block r <=? blk_number (cs_projection_block s)).

Definition projection_follows_snapshot (s : CoveredState) : bool :=
  (blk_number (cs_snapshot_block s) <? blk_number (cs_projection_block s))
  || bool_decide (cs_projection_block s = cs_snapshot_block s).

Definition rebind_to_covered_state (r : PlanningRevision) (s : CoveredState)
    : option PlanningRevision :=
  if negb (projection_follows_snapshot s)
     || (blk_timestamp (cs_projection_block s) <? blk_timestamp (cs_snapshot_block s))
     || (blk_number (cs_projection_block s) <? pr_latest_relevant_event_block r)
     || negb (pr_topology_revision r =? cs_topology_revision s)
     || negb (pr_config_revision r =? cs_config_revision s)
  then None
  else Some (mkPlanningRevision (pr_vault r) (pr_latest_relevant_event_block r)
    (pr_read_set_revision r) (pr_topology_revision r) (pr_config_revision r)
    (cs_snapshot_block s) (cs_fingerprint s) (cs_projection_block s) (pr_planner_generation r)
    (pr_dirty_reasons r)).

Record DirtyVault : Type := mkDirtyVault {
  dv_latest_relevant_event_block : Z;
  dv_read_set_revision : Z;
  dv_planner_generation : Z;
  dv_reasons : gset DirtyReason;
}.

Record DirtyAccumulator : Type := mkDirtyAccumulator {
  ds_vaults : gmap VaultAddress DirtyVault;
  ds_read_set_revisions : gmap VaultAddress Z;
  ds_planner_generations : gmap VaultAddress Z;
}.

Definition dirty_default : DirtyAccumulator := mkDirtyAccumulator ∅ ∅ ∅.

Definition mark (d : DirtyAccumulator) (vault : VaultAddress) (block_number : Z)
    (reason : DirtyReason) (read_set_changed : bool) : DirtyAccumulator :=
  let read_set_revision := default 0 (ds_read_set_revisions d !! vault) in
  let read_set_revision :=
    if read_set_changed then saturating_add U64_MAX read_set_revision 1 else read_set_revision in
  let planner_generation :=
    saturating_add U64_MAX (default 0 (ds_planner_generations d !! vault)) 1 in
  let entry := default (mkDirtyVault block_number read_set_revision planner_generation ∅)
                 (ds_vaults d !! vault) in
  mkDirtyAccumulator
    (<[vault := mkDirtyVault (Z.max (dv_latest_relevant_event_block entry) block_number)
                  read_set_revision planner_generation ({[reason]} ∪ dv_reasons entry)]>
       (ds_vaults d))
    (<[vault := read_set_revision]> (ds_read_set_revisions d))
    (<[vault := planner_generation]> (ds_planner_generations d)).

(** A call of [mark]: the vault, the reason and whether the read set changed. *)
Definition MarkCall : Type := VaultAddress * DirtyReason * bool.

Definition mark_all (block_number : Z) (d : DirtyAccumulator) (calls : list MarkCall)
    : DirtyAccumulator :=
  fold_left (fun d call => mark d (fst (fst call)) block_number (snd (fst call)) (snd call)) calls d.

Definition mark_startup (d : DirtyAccumulator) (config : ValidatedConfig) : DirtyAccumulator :=
  fold_left (fun d vault => mark d (vv_address vault) (vv_deployment_block vault) Startup true)
    (ac_vaults (vg_app config)) d.

Definition mark_strategy_tick (d : DirtyAccumulator) (config : ValidatedConfig) (block_number : Z)
    : DirtyAccumulator :=
  fold_left (fun d vault =>
    if vv_deployment_block vault <=? block_number
    then mark d (vv_address vault) block_number StrategyTick false else d)
    (ac_vaults (vg_app config)) d.

Definition mark_strategy_continuation (d : DirtyAccumulator) (vault : VaultAddress)
    (block_number : Z) : DirtyAccumulator :=
  mark d vault block_number StrategyContinuation false.

(** The vaults of the configuration a condition holds of, all for one reason. *)
Definition vaults_where (config : ValidatedConfig) (p : ValidatedVaultConfig -> bool)
    (reason : DirtyReason) : list MarkCall :=
  (fun vault => (vv_address vault, reason, false))
  <$> List.filter p (ac_vaults (vg_app config)).

(** The calls of [mark] one invalidation makes, in the order of the vaults. *)
Definition invalidation_calls (config : ValidatedConfig) (invalidation : StateInvalidation)
    : list MarkCall :=
  match invalidation with
  | VaultAccounting vault | AllForVault vault => [(vault, EconomicState, false)]
  | VaultTopology vault => [(vault, ReadSet, true)]
  | InvalidCapState vault _ | GateState vault => [(vault, PolicyState, false)]
  | RoleState vault => [(vault, SafetyIdentity, false)]
  | AdapterState adapter =>
      vaults_where config (fun vault =>
        existsb (fun item => vad_address item =? adapter) (vv_adapters vault)
        || match vv_liquidity_adapter vault with
           | Some item => lac_address item =? adapter
           | None => false
           end) EconomicState
  | PositionState position =>
      vaults_where config (fun vault =>
        existsb (fun item => pc_position_key item =? position) (vv_positions vault)
        || match vv_liquidity_adapter vault with
           | Some item => lac_position_key item =? position
           | None => false
           end) EconomicState
  | MarketState market =>
      vaults_where config (fun vault =>
        existsb (fun item => pc_market_id item =? market) (vv_positions vault)) EconomicState
  | TokenLiquidity token =>
      vaults_where config (fun vault => vv_asset vault =? token) EconomicState
  | PendingAdministration target =>
      vaults_where config (fun vault =>
        (vv_address vault =? target)
        || existsb (fun item => vad_address item =? target) (vv_adapters vault)) PolicyState
  end.

Definition merge_invalidations (d : DirtyAccumulator) (config : ValidatedConfig)
    (block_number : Z) (invalidations : list StateInvalidation) : DirtyAccumulator :=
  fold_left (fun d invalidation => mark_all block_number d (invalidation_calls config invalidation))
    invalidations d.

Definition mark_reorg (d : DirtyAccumulator) (config : ValidatedConfig) (block_number : Z)
    : DirtyAccumulator :=
  fold_left (fun d vault => mark d (vv_address vault) block_number Reorg true)
    (ac_vaults (vg_app config)) d.

Definition mark_post_transaction (d : DirtyAccumulator) (vault : VaultAddress) (block_number : Z)
    : DirtyAccumulator :=
  mark d vault block_number PostTransaction false.

Definition is_dirty (d : DirtyAccumulator) : bool := negb (bool_decide (ds_vaults d = ∅)).

Definition is_vault_dirty (d : DirtyAccumulator) (vault : VaultAddress) : bool :=
  bool_decide (is_Some (ds_vaults d !! vault)).

Definition dirty_vaults (d : DirtyAccumulator) : list VaultAddress := btree_keys (ds_vaults d).

(** The accumulator after the call, and its answer. *)
Definition bind_snapshot (d : DirtyAccumulator) (vault : VaultAddress) (s : CoveredState)
    : DirtyAccumulator * option PlanningRevision :=
  match ds_vaults d !! vault with
  | None => (d, None)
  | Some dirty =>
      if negb (projection_follows_snapshot s)
         || (blk_timestamp (cs_projection_block s) <? blk_timestamp (cs_snapshot_block s))
         || (blk_number (cs_projection_block s) <? dv_latest_relevant_event_block dirty)
      then (d, None)
      else (mkDirtyAccumulator (delete vault (ds_vaults d)) (ds_read_set_revisions d)
              (ds_planner_generations d),
            Some (mkPlanningRevision vault (dv_latest_relevant_event_block dirty)
                    (dv_read_set_revision dirty) (cs_topology_revision s) (cs_config_revision s)
                    (cs_snapshot_block s) (cs_fingerprint s) (cs_projection_block s)
                    (dv_planner_generation dirty) (dv_reasons dirty)))
  end.

(** ** The interface, as one type of operations *)

Inductive DirtyOperation : Type :=
| OpStartup (config : ValidatedConfig)
| OpStrategyTick (config : ValidatedConfig) (block_number : Z)
| OpStrategyContinuation (vault : VaultAddress) (block_number : Z)
| OpInvalidations (config : ValidatedConfig) (block_number : Z)
    (invalidations : list StateInvalidation)
| OpReorg (config : ValidatedConfig) (block_number : Z)
| OpPostTransaction (vault : VaultAddress) (block_number : Z)
| OpBind (vault : VaultAddress) (s : CoveredState).

Definition run_operation (d : DirtyAccumulator) (op : DirtyOperation)
    : DirtyAccumulator * option PlanningRevision :=
  match op with
  | OpStartup config => (mark_startup d config, None)
  | OpStrategyTick config n => (mark_strategy_tick d config n, None)
  | OpStrategyContinuation vault n => (mark_strategy_continuation d vault n, None)
  | OpInvalidations config n l => (merge_invalidations d config n l, None)
  | OpReorg config n => (mark_reorg d config n, None)
  | OpPostTransaction vault n => (mark_post_transaction d vault n, None)
  | OpBind vault s => bind_snapshot d vault s
  end.

(** Running a sequence, with the revisions it publishes. *)
Fixpoint run_operations (d : DirtyAccumulator) (ops : list DirtyOperation)
    : DirtyAccumulator * list PlanningRevision :=
  match ops with
  | [] => (d, [])
  | op :: ops =>
      let '(d, out) := run_operation d op in
      let '(d, outs) := run_operations d ops in
      (d, option_list out ++ outs)
  end.

(** ** The specification: a log of events per vault

    Every event of a vault is kept.  The pending ones are those no published
    revision covers. *)

Record DirtyEvent : Type := mkDirtyEvent {
  de_block : Z;
  de_reason : DirtyReason;
  de_read_set : bool;
}.

Record VaultLog : Type := mkVaultLog {
  vl_published : list DirtyEvent;
  vl_pending : list DirtyEvent;
}.

Definition EventLog : Type := VaultAddress -> VaultLog.
Definition empty_log : EventLog := fun _ => mkVaultLog [] [].

Definition log_set (log : EventLog) (vault : VaultAddress) (l : VaultLog) : EventLog :=
  fun v => if v =? vault then l else log v.

Definition log_event (log : EventLog) (e : VaultAddress * DirtyEvent) : EventLog :=
  log_set log (fst e)
    (mkVaultLog (vl_published (log (fst e))) (vl_pending (log (fst e)) ++ [snd e])).

Definition vault_events (vaults : list ValidatedVaultConfig) (block_of : ValidatedVaultConfig -> Z)
    (reason : DirtyReason) (read_set : bool) : list (VaultAddress * DirtyEvent) :=
  (fun vault => (vv_address vault, mkDirtyEvent (block_of vault) reason read_set)) <$> vaults.

(** The events an operation records. *)
Definition operation_events (op : DirtyOperation) : list (VaultAddress * DirtyEvent) :=
  match op with
  | OpStartup config =>
      vault_events (ac_vaults (vg_app config)) vv_deployment_block Startup true
  | OpStrategyTick config n =>
      vault_events (List.filter (fun vault => vv_deployment_block vault <=? n)
                      (ac_vaults (vg_app config))) (fun _ => n) StrategyTick false
  | OpStrategyContinuation vault n => [(vault, mkDirtyEvent n StrategyContinuation false)]
  | OpInvalidations config n l =>
      concat ((fun i => (fun c : MarkCall => (c.1.1, mkDirtyEvent n c.1.2 c.2))
                        <$> invalidation_calls config i) <$> l)
  | OpReorg config n => vault_events (ac_vaults (vg_app config)) (fun _ => n) Reorg true
  | OpPostTransaction vault n => [(vault, mkDirtyEvent n PostTransaction false)]
  | OpBind _ _ => []
  end.

(** The latest block of a non-empty list of events. *)
Definition latest_block (events : list DirtyEvent) : Z :=
  match events with
  | [] => 0
  | e :: l => fold_left Z.max (de_block <$> l) (de_block e)
  end.

Definition events_count (events : list DirtyEvent) : Z :=
  Z.min (Z.of_nat (length events)) U64_MAX.

Definition read_set_count (events : list DirtyEvent) : Z :=
  events_count (List.filter de_read_set events).

Definition event_reasons (events : list DirtyEvent) : gset DirtyReason :=
  list_to_set (de_reason <$> events).

Definition log_covered (l : VaultLog) (s : CoveredState) : bool :=
  negb (bool_decide (vl_pending l = [])) && projection_follows_snapshot s
  && (blk_timestamp (cs_snapshot_block s) <=? blk_timestamp (cs_projection_block s))
  && (latest_block (vl_pending l) <=? blk_number (cs_projection_block s)).

Definition log_revision (vault : VaultAddress) (l : VaultLog) (s : CoveredState)
    : PlanningRevision :=
  mkPlanningRevision vault (latest_block (vl_pending l))
    (read_set_count (vl_published l ++ vl_pending l)) (cs_topology_revision s)
    (cs_config_revision s) (cs_snapshot_block s) (cs_fingerprint s) (cs_projection_block s)
    (events_count (vl_published l ++ vl_pending l)) (event_reasons (vl_pending l)).

Definition log_operation (log : EventLog) (op : DirtyOperation)
    : EventLog * option PlanningRevision :=
  match op with
  | OpBind vault s =>
      if log_covered (log vault) s
      then (log_set log vault (mkVaultLog (vl_published (log vault) ++ vl_pending (log vault)) []),
            Some (log_revision vault (log vault) s))
      else (log, None)
  | _ => (fold_left log_event (operation_events op) log, None)
  end.

Fixpoint log_operations (log : EventLog) (ops : list DirtyOperation)
    : EventLog * list PlanningRevision :=
  match ops with
  | [] => (log, [])
  | op :: ops =>
      let '(log, out) := log_operation log op in
      let '(log, outs) := log_operations log ops in
      (log, option_list out ++ outs)
  end.

(** The accumulator stands for the log. *)
Record represents (d : DirtyAccumulator) (log : EventLog) : Prop := {
  rp_read_set : forall v, default 0 (ds_read_set_revisions d !! v)
    = read_set_count (vl_published (log v) ++ vl_pending (log v));
  rp_generation : forall v, default 0 (ds_planner_generations d !! v)
    = events_count (vl_published (log v) ++ vl_pending (log v));
  rp_dirty : forall v, ds_vaults d !! v =
    let pending := vl_pending (log v) in
    let events := vl_published (log v) ++ pending in
    if bool_decide (pending = []) then None
    else Some (mkDirtyVault (latest_block pending) (read_set_count events) (events_count events)
                 (event_reasons pending));
}.

Lemma latest_block_snoc l e :
  latest_block (l ++ [e]) =
    if bool_decide (l = []) then de_block e else Z.max (latest_block l) (de_block e).
Proof.
  destruct l as [|x l]; [done|]. cbn. rewrite fmap_app, fold_left_app. done.
Qed.

Lemma events_count_snoc l e :
  events_count (l ++ [e]) = saturating_add U64_MAX (events_count l) 1.
Proof. unfold events_count. rewrite length_app, saturating_add_spec. cbn. lia. Qed.

Lemma read_set_count_snoc l e :
  read_set_count (l ++ [e]) =
    if de_read_set e then saturating_add U64_MAX (read_set_count l) 1 else read_set_count l.
Proof.
  unfold read_set_count. rewrite List.filter_app. cbn.
  destruct (de_read_set e); [apply events_count_snoc|by rewrite app_nil_r].
Qed.

Lemma event_reasons_snoc l e : event_reasons (l ++ [e]) = {[de_reason e]} ∪ event_reasons l.
Proof. unfold event_reasons. rewrite fmap_app, list_to_set_app_L. set_solver. Qed.

Lemma represents_default : represents dirty_default empty_log.
Proof. by split. Qed.

(** [mark] records one event. *)
Lemma mark_represents d log v e :
  represents d log ->
  represents (mark d v (de_block e) (de_reason e) (de_read_set e)) (log_event log (v, e)).
Proof.
  intros [Hr Hg Hd]. specialize (Hr v) as Hrv. specialize (Hg v) as Hgv. specialize (Hd v) as Hdv.
  unfold mark, log_event, log_set. cbn [fst snd]. rewrite Hrv, Hgv, Hdv. cbn zeta.
  rewrite <-read_set_count_snoc, <-(events_count_snoc _ e), <-!app_assoc.
  split; intros w; cbn; destruct (Z.eqb_spec w v) as [->|Hne]; cbn;
    try rewrite lookup_insert_eq; try rewrite lookup_insert_ne by congruence;
    [done|apply Hr|done|apply Hg| |apply Hd].
  rewrite (bool_decide_eq_false_2 (_ ++ [e] = [])) by (by destruct (vl_pending (log v))).
  fold (event_reasons (vl_pending (log v) ++ [e])). rewrite latest_block_snoc, event_reasons_snoc.
  destruct (bool_decide _) eqn:E; [|done]. apply bool_decide_eq_true in E. rewrite E. cbn.
  by rewrite Z.max_id.
Qed.

Definition apply_event (d : DirtyAccumulator) (e : VaultAddress * DirtyEvent) : DirtyAccumulator :=
  mark d (fst e) (de_block (snd e)) (de_reason (snd e)) (de_read_set (snd e)).

Lemma apply_events_represents events d log :
  represents d log -> represents (fold_left apply_event events d) (fold_left log_event events log).
Proof.
  revert d log. induction events as [|[v e] l IH]; intros d log H; [done|].
  apply IH. by apply (mark_represents d log v e).
Qed.

Lemma fold_left_fmap {A B C} (f : C -> B -> C) (g : A -> B) l c :
  fold_left f (g <$> l) c = fold_left (fun c a => f c (g a)) l c.
Proof. revert c. induction l; intros; cbn; auto. Qed.

Lemma fold_left_concat {B C} (f : C -> B -> C) ls c :
  fold_left f (concat ls) c = fold_left (fun c l => fold_left f l c) ls c.
Proof. revert c. induction ls; intros; cbn; [done|]. rewrite fold_left_app. auto. Qed.

Lemma fold_left_filter {A C} (f : C -> A -> C) p l c :
  fold_left f (List.filter p l) c = fold_left (fun c a => if p a then f c a else c) l c.
Proof. revert c. induction l as [|a l IH]; intros; cbn; [done|]. destruct (p a); cbn; auto. Qed.

(** Every operation but a binding is the marks of its events. *)
Lemma run_operation_events d op :
  (forall v s, op <> OpBind v s) ->
  run_operation d op = (fold_left apply_event (operation_events op) d, None).
Proof.
  intros Hb. destruct op as [c|c n|v n|c n l|c n|v n|v s]; [.. |by destruct (Hb v s)];
    cbn [run_operation operation_events]; f_equal.
  - unfold vault_events. by rewrite fold_left_fmap.
  - unfold vault_events. by rewrite fold_left_fmap, fold_left_filter.
  - rewrite fold_left_concat, fold_left_fmap. unfold merge_invalidations, mark_all.
    clear Hb. revert d. induction l as [|i l IH]; intros d; cbn; [done|].
    rewrite fold_left_fmap. apply IH.
  - unfold vault_events. by rewrite fold_left_fmap.
Qed.

Lemma represents_ext d log log' :
  (forall v, log v = log' v) -> represents d log -> represents d log'.
Proof. intros He [Hr Hg Hd]. split; intros v; rewrite <-He; auto. Qed.

(** Binding answers as the log does, and publishes exactly what is pending. *)
Lemma bind_represents d log v s :
  represents d log ->
  represents (fst (bind_snapshot d v s)) (fst (log_operation log (OpBind v s))) /\
  snd (bind_snapshot d v s) = snd (log_operation log (OpBind v s)).
Proof.
  intros Hrep. pose proof Hrep as [Hr Hg Hd]. pose proof (Hd v) as Hv. cbn zeta in Hv.
  unfold bind_snapshot. cbn [log_operation]. unfold log_covered. rewrite Hv.
  destruct (bool_decide (vl_pending (log v) = [])) eqn:Ep; cbn [negb andb]; [done|].
  cbn [dv_latest_relevant_event_block].
  rewrite (Z.ltb_antisym (blk_timestamp _)), (Z.ltb_antisym (latest_block _)).
  destruct (projection_follows_snapshot s), (_ <=? blk_timestamp _), (_ <=? blk_number _); cbn;
    try done.
  split; [|done]. split; intros w; unfold log_set; cbn;
    destruct (Z.eqb_spec w v) as [->|Hne]; cbn; rewrite ?app_nil_r;
    [apply Hr|apply Hr|apply Hg|apply Hg|apply lookup_delete_eq|].
  rewrite lookup_delete_ne by congruence. apply Hd.
Qed.

Lemma operation_represents d log op :
  represents d log ->
  represents (fst (run_operation d op)) (fst (log_operation log op)) /\
  snd (run_operation d op) = snd (log_operation log op).
Proof.
  intros H. destruct op as [c|c n|v n|c n l|c n|v n|v s]; [..|by apply bind_represents];
    rewrite run_operation_events by done; (split; [by apply apply_events_represents|done]).
Qed.

(** C24: The accumulator loses no event. After any sequence of operations it
    stands for the log that keeps them all: a vault is dirty exactly when an
    event of it is pending, its entry carries the latest block and all the
    reasons of the pending events, its generation and read-set revision count
    all events of the vault and all read-set changes, published ones included,
    and every revision published on the way is the one the log gives for
    exactly the events pending then. *)
Theorem accumulator_refines_log ops :
  let '(d, published) := run_operations dirty_default ops in
  let '(log, specified) := log_operations empty_log ops in
  represents d log /\ published = specified.
Proof.
  assert (forall d log, represents d log ->
    represents (fst (run_operations d ops)) (fst (log_operations log ops)) /\
    snd (run_operations d ops) = snd (log_operations log ops)) as H.
  { induction ops as [|op ops IH]; intros d log Hr; [done|].
    destruct (operation_represents d log op Hr) as [Ho He]. cbn.
    destruct (run_operation d op) as [d1 o1], (log_operation log op) as [l1 o2]. cbn in *.
    destruct (IH _ _ Ho) as [I1 I2].
    destruct (run_operations d1 ops), (log_operations l1 ops). cbn in *. by subst. }
  specialize (H _ _ represents_default).
  by destruct (run_operations _ _), (log_operations _ _).
Qed.

(** A published revision is accepted by the state it is bound to and by no
    other; the state contains every event the revision covers. Rebound to a
    later state of the same topology and configuration it is accepted by that
    state, and it still carries the same generation and the same reasons. *)
Theorem revision_acceptance d vault s d' r :
  bind_snapshot d vault s = (d', Some r) ->
  pr_latest_relevant_event_block r <= blk_number (cs_projection_block s) /\
  is_vault_dirty d' vault = false /\
  (forall s', accepts_state r s' = true <-> s' = s) /\
  (forall s' r', rebind_to_covered_state r s' = Some r' ->
     (forall s'', accepts_state r' s'' = true <-> s'' = s') /\
     pr_planner_generation r' = pr_planner_generation r /\
     pr_read_set_revision r' = pr_read_set_revision r /\
     pr_dirty_reasons r' = pr_dirty_reasons r).
Proof.
  assert (forall r s, accepts_state r s = true <->
    s = mkCoveredState (pr_snapshot_block r) (pr_snapshot_fingerprint r) (pr_projection_block r)
          (pr_topology_revision r) (pr_config_revision r) /\
    pr_latest_relevant_event_block r <= blk_number (pr_projection_block r)) as Hacc.
  { intros r0 [a b c t g]. unfold accepts_state. cbn.
    rewrite !andb_true_iff, !bool_decide_eq_true, !Z.eqb_eq, Z.leb_le. naive_solver. }
  unfold bind_snapshot. destruct (ds_vaults d !! vault) as [dirty|]; [|done].
  destruct (_ || _) eqn:E; [done|]. bool_spec E. intros [= <- <-]. cbn.
  split; [lia|]. split.
  { unfold is_vault_dirty. cbn. rewrite lookup_delete_eq. by apply bool_decide_eq_false. }
  split; [intros s'; rewrite Hacc; destruct s; cbn in *; naive_solver lia|].
  intros s' r'. unfold rebind_to_covered_state. destruct (_ || _) eqn:E2; [done|]. bool_spec E2.
  intros [= <-]. cbn in *. split; [|done].
  intros s''. rewrite Hacc. cbn. destruct s', s''; cbn in *. naive_solver lia.
Qed.

Module RevisionExample.

Definition at_number (number : Z) : BlockRef := mkBlockRef number number (number - 1) number 1.

(** The burst of the canonical events of blocks 9 and 10, bound at block 11. *)
Definition burst : DirtyAccumulator :=
  mark_post_transaction (mark (mark dirty_default 1 9 EconomicState false) 1 9 ReadSet true) 1 10.
Definition state : CoveredState := mkCoveredState (at_number 10) 4 (at_number 11) 2 3.
Definition revision : PlanningRevision :=
  mkPlanningRevision 1 10 1 2 3 (at_number 10) 4 (at_number 11) 3
    {[ EconomicState; ReadSet; PostTransaction ]}.

Lemma bound : bind_snapshot burst 1 state
  = (mkDirtyAccumulator ∅ {[ 1 := 1 ]} {[ 1 := 3 ]}, Some revision).
Proof. vm_compute. reflexivity. Qed.

Lemma revision_acceptance_witness :
  accepts_state revision state = true /\
  accepts_state revision (mkCoveredState (at_number 10) 4 (at_number 12) 2 3) = false.
Proof.
  destruct (revision_acceptance burst 1 state _ revision bound) as (_ & _ & Ha & _).
  split; [by apply Ha|]. destruct (accepts_state _ (mkCoveredState _ _ (at_number 12) _ _)) eqn:E;
    [|done]. apply Ha in E. vm_compute in E. discriminate E.
Defined.

End RevisionExample.
