(* ===== verification/Planning.v ===== *)
(** * Validated plans

    Models the pure part of [src/src/runtime/planning_service.rs]: the spread
    signal of a projected vault and the plans built from the solvers of
    [Maintenance], [Capital] and [Rate], each given its canonical identity and
    passed through the firewall of [Firewall]. *)
From Stdlib Require Import ZArith Lia List Bool.
From stdpp Require Import base list gmap sets.
From S2P Require Import Prelude.
From S2P Require Import BlueMath.
From S2P Require Import Domain.
From S2P Require Import Config.
From S2P Require Import Projection.
From S2P Require Import Simulator.
From S2P Require Import SimulatorProofs.
From S2P Require Import Episodes.
From S2P Require Import Calldata.
From S2P Require Import Firewall.
From S2P Require Import Candidates.
From S2P Require Import Objective.
From S2P Require Import Capital.
From S2P Require Import Maintenance.
From S2P Require Import Rate.
From S2P Require Import Revision.
Open Scope Z_scope.

(** The failures of the pure part; the others come from the services. *)
Inductive PlanningServiceError : Type :=
| PsStorage
| PsEpisode (error : EpisodeError)
| PsFirewall (error : FirewallError)
| PsController
| PsSerialization
| PsTimestampRange
| PsPlanConstruction
| PsTopKApy.
#[global] Instance PlanningServiceError_eq_dec : EqDecision PlanningServiceError.
Proof. solve_decision. Defined.

Record RateSignal : Type := mkRateSignal {
  rg_branch : RateObjectiveBranch;
  rg_evaluation_markets : gset MarketId;
  rg_controllable_markets : gset MarketId;
  rg_source_markets : gset MarketId;
  rg_destination_markets : gset MarketId;
  rg_spread : Z;
  rg_desired_movement : Z;
}.

Record PreparedRatePlan : Type := mkPreparedRatePlan {
  prp_plan : ValidatedPlan;
  prp_action_projections : list ActionProjection;
}.

Definition strategy_market_ids (vault : ValidatedVaultConfig) : gset MarketId :=
  list_to_set (pc_market_id
    <$> List.filter (fun position => strategy_market_mode_included (pc_mode position))
          (vv_positions vault)).

Definition seeded_destination_is_relevant (mode : MarketMode) (total_supply_assets
    total_supply_shares dead_supply_shares minimum_supply_assets minimum_supply_shares
    minimum_dead_supply_shares : Z) : bool :=
  bool_decide (mode = Active) && (minimum_supply_assets <=? total_supply_assets)
  && (minimum_supply_shares <=? total_supply_shares)
  && (minimum_dead_supply_shares <=? dead_supply_shares).

Definition spread_exceeds_entry (spread entry : Z) : bool := entry <? spread.

Definition convergence_threshold (config : ValidatedConfig) : Z :=
  convergence_spread (ac_strategy (vg_app config)).

Definition positive_i256 (value : Z) : Z := if 0 <? value then value else 0.

Definition duration_seconds_ceil (milliseconds : Z) : result PlanningServiceError Z :=
  total ← ok_or (checked_add U128_MAX milliseconds 999) PsTimestampRange;
  ok_or (try_from_u U64_MAX (total / 1000)) PsTimestampRange.

Definition signal_matches_episode (episode : RateSignalEpisode) (signal : RateSignal)
    (target_spread : Z) : bool :=
  (target_spread <? rg_spread signal)
  && is_ok (validate_direction episode (rg_branch signal) (rg_source_markets signal)
              (rg_destination_markets signal)).

Definition projected_controllable_spread (projection : ProjectedVaultView)
    (vault : ValidatedVaultConfig) (strategy : ValidatedStrategyConfig) : option Z :=
  complete_strategy_spread (strategy_market_ids vault) (pw_markets projection)
    (sg_objective strategy).

(** ** The spread signal *)

Record SignalCandidate : Type := mkSignalCandidate {
  sl_market : MarketId;
  sl_objective_value : Z;
  sl_can_source : bool;
  sl_can_destination : bool;
  sl_source_capacity : Z;
  sl_destination_capacity : Z;
}.

(** One position of the loop: absent state, or the candidate if relevant. *)
Definition signal_candidate (snapshot : ExactVaultSnapshot) (projection : ProjectedVaultView)
    (vault : ValidatedVaultConfig) (strategy : ValidatedStrategyConfig) (active_episode : bool)
    (configured : ValidatedPositionConfig) : option (option SignalCandidate) :=
  position ← ev_positions snapshot !! pc_position_key configured;
  market ← pw_markets projection !! pc_market_id configured;
  expected_assets ← pj_position_expected_assets (pw_vault projection) !! pc_position_key configured;
  let relevance_threshold :=
    if active_episode then pc_minimum_relevance_exit_assets configured
    else pc_minimum_relevance_entry_assets configured in
  let existing_exposure_relevant := relevance_threshold <=? expected_assets in
  let seeded_destination_relevant :=
    seeded_destination_is_relevant (dp_mode position) (pm_total_supply_assets market)
      (pm_total_supply_shares market) (dp_market_dead_supply_shares position)
      (pc_minimum_destination_market_supply_assets configured)
      (pc_minimum_destination_market_supply_shares configured)
      (vv_minimum_market_dead_supply_shares vault) in
  let relevant :=
    (existing_exposure_relevant || seeded_destination_relevant)
    && (pc_minimum_rate_relevant_market_supply_assets configured
        <=? pm_total_supply_assets market)
    && (pc_minimum_rate_relevant_market_borrow_assets configured
        <=? pm_total_borrow_assets market)
    && negb (match dp_mode position with Disabled | SyncRequired => true | _ => false end) in
  if negb relevant then Some None
  else
    let can_source :=
      match dp_mode position with Active | SourceOnly => true | _ => false end
      && (pc_minimum_position_assets configured <? expected_assets) in
    let can_destination :=
      bool_decide (dp_mode position = Active)
      && (expected_assets <? pc_maximum_position_assets configured) in
    Some (Some (mkSignalCandidate (pc_market_id configured)
      (strategy_value market (sg_objective strategy)) can_source can_destination
      (saturating_sub expected_assets (pc_minimum_position_assets configured))
      (saturating_sub (pc_maximum_position_assets configured) expected_assets))).

Definition list_minimum (l : list Z) : option Z :=
  match l with [] => None | x :: l => Some (fold_left Z.min l x) end.
Definition list_maximum (l : list Z) : option Z :=
  match l with [] => None | x :: l => Some (fold_left Z.max l x) end.

Definition markets_of (p : SignalCandidate -> bool) (candidates : list SignalCandidate)
    : gset MarketId :=
  list_to_set (sl_market <$> List.filter p candidates).

(** The summed capacity of the candidates whose market is selected. *)
Definition total_capacity (capacity : SignalCandidate -> Z) (markets : gset MarketId)
    (candidates : list SignalCandidate) : option Z :=
  opt_fold (fun total candidate => checked_add U256_MAX total (capacity candidate)) 0
    (List.filter (fun candidate => bool_decide (sl_market candidate ∈ markets)) candidates).

Definition detect_rate_signal (snapshot : ExactVaultSnapshot) (projection : ProjectedVaultView)
    (vault : ValidatedVaultConfig) (strategy : ValidatedStrategyConfig) (active_episode : bool)
    : option RateSignal :=
  found ← opt_map (signal_candidate snapshot projection vault strategy active_episode)
            (vv_positions vault);
  let candidates := concat (option_list <$> found) in
  let evaluation_markets := markets_of (fun _ => true) candidates in
  let controllable_markets :=
    markets_of (fun c => sl_can_source c || sl_can_destination c) candidates in
  if (size controllable_markets <? 2)%nat then None
  else
    spread ← complete_strategy_spread controllable_markets (pw_markets projection)
               (sg_objective strategy);
    values ← opt_map (fun market =>
        (fun state => strategy_value state (sg_objective strategy))
        <$> pw_markets projection !! market) (set_elements controllable_markets);
    minimum ← list_minimum values;
    maximum ← list_maximum values;
    if maximum <=? minimum then None
    else
      gap ← checked_sub maximum minimum;
      half ← checked_div gap 2;
      midpoint ← checked_add U256_MAX half minimum;
      let source_markets :=
        markets_of (fun c => sl_can_source c && (sl_objective_value c <=? midpoint)) candidates in
      let destination_markets :=
        markets_of (fun c => sl_can_destination c && (midpoint <? sl_objective_value c))
          candidates in
      if bool_decide (source_markets = ∅) || bool_decide (destination_markets = ∅) then None
      else
        source_capacity ← total_capacity sl_source_capacity source_markets candidates;
        destination_capacity ← total_capacity sl_destination_capacity destination_markets
                                 candidates;
        Some (mkRateSignal
          (if bool_decide (evaluation_markets = controllable_markets) then Portfolio
           else Controllable)
          evaluation_markets controllable_markets source_markets destination_markets spread
          (Z.min source_capacity destination_capacity)).

(** ** What a signal carries *)

Lemma signal_candidate_capacity snapshot projection vault strategy active configured c :
  signal_candidate snapshot projection vault strategy active configured = Some (Some c) ->
  0 <= sl_source_capacity c /\ 0 <= sl_destination_capacity c.
Proof.
  unfold signal_candidate. intros H. apply bind_Some in H as (p & _ & H).
  apply bind_Some in H as (m & _ & H). apply bind_Some in H as (e & _ & H). cbv zeta in H.
  destruct (negb _); [done|]. injection H as <-. cbn. split; apply saturating_sub_nonneg.
Qed.

Lemma total_capacity_range capacity markets candidates total :
  Forall (fun c => 0 <= capacity c) candidates ->
  total_capacity capacity markets candidates = Some total -> u256 total.
Proof.
  intros Hc H. apply (opt_sum_Some capacity) in H; [unfold in_u; lia|done|].
  by apply Forall_filter.
Qed.

(** The movement a signal asks for is a representable amount. *)
Lemma signal_movement_range snapshot projection vault strategy active signal :
  detect_rate_signal snapshot projection vault strategy active = Some signal ->
  u256 (rg_desired_movement signal).
Proof.
  unfold detect_rate_signal. intros H. apply bind_Some in H as (found & Hf & H). cbv zeta in H.
  destruct (_ <? _)%nat; [done|]. do 4 (apply bind_Some in H as (? & _ & H)).
  destruct (_ <=? _); [done|]. do 3 (apply bind_Some in H as (? & _ & H)).
  destruct (_ || _); [done|]. apply bind_Some in H as (sc & Hsc & H).
  apply bind_Some in H as (dc & Hdc & [= <-]). cbn [rg_desired_movement].
  assert (Forall (fun c => 0 <= sl_source_capacity c /\ 0 <= sl_destination_capacity c)
    (concat (option_list <$> found))) as Hall.
  { apply Forall_forall. intros c Hc%elem_of_concat_options.
    eapply opt_map_elem in Hc as (p & _ & Hp); [|exact Hf]. by eapply signal_candidate_capacity. }
  apply total_capacity_range in Hsc; [|eapply Forall_impl; [exact Hall|by intros c []]].
  apply total_capacity_range in Hdc; [|eapply Forall_impl; [exact Hall|by intros c []]].
  unfold in_u in *. lia.
Qed.

(** ** The plans *)

Definition action_movement (actions : list V2Action) : result PlanningServiceError Z :=
  totals ← try_fold (fun (totals : Z * Z) action =>
      let '(allocated, deallocated) := totals in
      match action with
      | Allocate _ _ _ requested =>
          allocated ← ok_or (checked_add U256_MAX allocated requested) PsPlanConstruction;
          Ok (allocated, deallocated)
      | Deallocate _ _ _ requested =>
          deallocated ← ok_or (checked_add U256_MAX deallocated requested) PsPlanConstruction;
          Ok (allocated, deallocated)
      end) (0, 0) actions;
  Ok (Z.max (fst totals) (snd totals)).

Section Plans.
Context `{HK : Keccak} `{HA : AbiParams} `{HV : VaultAbi} `{HJ : PlanJson}.
Context (config : ValidatedConfig) (vault : ValidatedVaultConfig).
Context (snapshot : ExactVaultSnapshot) (projection : ProjectedVaultView).
Context (revision : option PlanningRevision).

(** The unidentified plan: identifier and hash are zero. *)
Definition draft_plan (reason : PlanReason) (actions : list V2Action) (figures : PlanProjection)
    (certificate : SolverCertificate) (episode_id : option EpisodeId) : V2Plan :=
  mkV2Plan 0 reason (vv_address vault) (ev_context snapshot) (vg_revision config)
    (ctx_dynamic_topology_revision (ev_context snapshot))
    (from_option pr_read_set_revision 0 revision)
    (from_option pr_latest_relevant_event_block (blk_number (ctx_block (ev_context snapshot)))
       revision)
    (from_option pr_planner_generation 0 revision) actions figures certificate episode_id 0.

(** [plan.plan_id = ..?; plan.plan_hash = ..?; validate_plan(plan, config)?]. *)
Definition identified (plan : V2Plan) : result PlanningServiceError ValidatedPlan :=
  plan_id ← map_err PsFirewall (canonical_plan_id plan);
  let plan := with_identity plan plan_id (pl_plan_hash plan) in
  plan_hash ← map_err PsFirewall (canonical_plan_hash plan);
  map_err PsFirewall (validate_plan (with_identity plan plan_id plan_hash) config).

Definition build_validated_non_rate_plan (reason : PlanReason) (actions : list V2Action)
    (state : SimulationState) (candidate_lattice_hash : B256) (nodes_evaluated : Z)
    : result PlanningServiceError PreparedRatePlan :=
  let strategy := ac_strategy (vg_app config) in
  let markets := strategy_market_ids vault in
  before_spread ← ok_or (complete_strategy_spread markets (pw_markets projection)
                           (sg_objective strategy)) PsPlanConstruction;
  after_spread ← ok_or (complete_strategy_spread markets (ss_markets state)
                          (sg_objective strategy)) PsPlanConstruction;
  movement_assets ← action_movement actions;
  horizon_timestamp ← ok_or (checked_add U64_MAX (blk_timestamp (pw_head projection))
                               (sg_benefit_horizon_seconds strategy)) PsPlanConstruction;
  no_plan_terminal ← map_err (fun _ => PsPlanConstruction)
    (no_plan_terminal_existing_shareholder_assets snapshot vault projection horizon_timestamp);
  plan_terminal ← map_err (fun _ => PsPlanConstruction)
    (terminal_existing_shareholder_assets state snapshot projection horizon_timestamp);
  if match checked_add U256_MAX plan_terminal (vv_maximum_terminal_value_sacrifice_assets vault) with
     | None => true
     | Some allowed => allowed <? no_plan_terminal
     end
  then Err PsPlanConstruction
  else
    terminal_value_delta_assets ← ok_or
      (planned ← i256_of_u256 plan_terminal;
       baseline ← i256_of_u256 no_plan_terminal;
       i256_sub planned baseline) PsPlanConstruction;
    no_plan_real_assets ← map_err (fun _ => PsPlanConstruction)
      (no_plan_terminal_real_assets snapshot vault projection horizon_timestamp);
    plan_real_assets ← map_err (fun _ => PsPlanConstruction)
      (terminal_real_assets state snapshot projection horizon_timestamp);
    let expected_gain_assets := saturating_sub plan_real_assets no_plan_real_assets in
    plan ← identified (draft_plan reason actions
      (mkPlanProjection movement_assets before_spread after_spread (ss_immediate_loss_assets state)
         terminal_value_delta_assets expected_gain_assets)
      (mkSolverCertificate candidate_lattice_hash nodes_evaluated
         (so_maximum_nodes (ac_solver (vg_app config))) true None None false false) None);
    Ok (mkPreparedRatePlan plan (ss_actions state)).

Definition exceeds_actions (actions : list V2Action) : bool :=
  maximum_actions config <? Z.of_nat (length actions).

Definition build_validated_liquidity_plan
    : result PlanningServiceError (option PreparedRatePlan) :=
  let solved := solve_liquidity_maintenance snapshot projection vault (ac_solver (vg_app config))
                  (maximum_actions config) in
  match lr_state solved with
  | None => Ok None
  | Some state =>
      if bool_decide (lr_actions solved = []) || exceeds_actions (lr_actions solved)
         || negb (executable_rate_search (lr_certificate solved))
      then Ok None
      else
        Some <$> build_validated_non_rate_plan LiquidityMaintenance (lr_actions solved) state
          (se_candidate_lattice_hash (lr_certificate solved))
          (se_nodes_evaluated (lr_certificate solved))
  end.

Definition build_validated_capital_plan
    : result PlanningServiceError (option PreparedRatePlan) :=
  let strategy := ac_strategy (vg_app config) in
  let solved := solve_capital_deployment snapshot projection vault (ac_solver (vg_app config))
                  (sg_benefit_horizon_seconds strategy) (sg_objective strategy) in
  match cr_state solved with
  | None => Ok None
  | Some state =>
      if bool_decide (cr_actions solved = []) || exceeds_actions (cr_actions solved)
         || negb (se_search_complete (cr_certificate solved))
      then Ok None
      else
        Some <$> build_validated_non_rate_plan CapitalDeployment (cr_actions solved) state
          (se_candidate_lattice_hash (cr_certificate solved))
          (se_nodes_evaluated (cr_certificate solved))
  end.

Definition build_validated_rate_plan (episode : RateSignalEpisode)
    : result PlanningServiceError (option PreparedRatePlan) :=
  let strategy := ac_strategy (vg_app config) in
  let solved := solve_rate_rebalance snapshot projection vault strategy
                  (ac_solver (vg_app config)) episode in
  if negb (executable_rate_search (rr_certificate solved)) then Ok None
  else match rr_best solved with
  | None => Ok None
  | Some best =>
      if exceeds_actions (src_actions best) then Ok None
      else
        let o := src_objective best in
        let c := rr_certificate solved in
        plan ← identified (draft_plan RateRebalance (src_actions best)
          (mkPlanProjection (om_movement_assets o) (src_before_spread best)
             (om_applicable_spread o) (ss_immediate_loss_assets (src_state best))
             (om_terminal_value_delta o) (positive_i256 (om_terminal_value_delta o)))
          (mkSolverCertificate (se_candidate_lattice_hash c) (se_nodes_evaluated c)
             (se_node_limit c) (se_search_complete c) (Some (re_episode_id episode))
             (Some (re_objective_branch episode)) (rr_target_reachable solved)
             (om_applicable_spread o <=? convergence_threshold config))
          (Some (re_episode_id episode)));
        Ok (Some (mkPreparedRatePlan plan (ss_actions (src_state best))))
  end.

(** ** From a simulated plan to an admitted one

    What configuration validation, the exact snapshot and the JSON writer
    guarantee whenever a plan is built. *)
Record plan_ready : Prop := {
  pd_vault : find_vault config (vv_address vault) = Some vault;
  pd_revision : ctx_static_config_revision (ev_context snapshot) = vg_revision config;
  pd_chain : ctx_chain_id (ev_context snapshot) = vc_chain_id (ac_chain (vg_app config));
  pd_modes : forall c p, c ∈ vv_positions vault ->
    ev_positions snapshot !! pc_position_key c = Some p -> dp_mode p = pc_mode c;
  pd_keys : NoDup (pc_position_key <$> vv_positions vault);
  pd_json : forall p, is_Some (plan_json p);
  pd_nodes : 0 <= so_maximum_nodes (ac_solver (vg_app config));
}.

Lemma target_matches a :
  plan_ready -> simulated_target snapshot vault a -> within_direct_limit vault a ->
  target_admissible vault a.
Proof.
  intros Hr Ht Hw. unfold target_admissible. destruct Ht as [(l & Hl & Ha & Hd & Hm)|(Hn & c & p & Hc & Ha & Hd & Hp & Hmode)].
  - left. unfold liquidity_target in Hl. apply bind_Some in Hl as (l' & Hl' & Hl).
    destruct (_ =? _) eqn:E; [|done]. injection Hl as ->. apply Z.eqb_eq in E. by exists l.
  - right. specialize (Hw Hn). split.
    + intros l Hl He. unfold liquidity_target in Hn. rewrite Hl in Hn. cbn in Hn.
      by rewrite He, Z.eqb_refl in Hn.
    + exists c. pose proof Hc as [Hin%list_elem_of_In Hk%Z.eqb_eq]%List.find_some.
      rewrite <-(pd_modes Hr c p Hin) by (by rewrite Hk). split_and!; try done. by apply Hw.
Qed.

(** The canonical identity does not depend on the identity it is given. *)
Lemma identified_spec plan :
  plan_ready -> pl_vault plan = vv_address vault -> pl_snapshot plan = ev_context snapshot ->
  pl_config_revision plan = vg_revision config ->
  pl_topology_revision plan = ctx_dynamic_topology_revision (ev_context snapshot) ->
  certificate_admissible plan -> Forall (fun a => 0 <= action_assets a) (pl_actions plan) ->
  (actions_admissible plan vault (maximum_actions config) ->
     exists id hash, identified plan = Ok (mkValidatedPlan (with_identity plan id hash)) /\
       validate_plan (with_identity plan id hash) config
         = Ok (mkValidatedPlan (with_identity plan id hash))) /\
  (~ actions_admissible plan vault (maximum_actions config) ->
     identified plan = Err (PsFirewall FwAction)).
Proof.
  intros [Hv Hrev Hch _ _ Hj _] H1 H2 H3 H4 Hc Hnn.
  destruct (Hj (with_identity plan 0 0)) as [ib Hib].
  destruct (Hj (with_identity plan (keccak256 ib) 0)) as [hb Hhb].
  assert (identified plan = map_err PsFirewall
    (validate_plan (with_identity plan (keccak256 ib) (keccak256 hb)) config)) as ->.
  { unfold identified, canonical_plan_id. rewrite Hib. cbn [ok_or mbind result_bind map_err].
    cbv zeta. unfold canonical_plan_hash.
    change (with_identity (with_identity plan (keccak256 ib) (pl_plan_hash plan))
      (pl_plan_id (with_identity plan (keccak256 ib) (pl_plan_hash plan))) 0)
      with (with_identity plan (keccak256 ib) 0).
    rewrite Hhb. done. }
  set (final := with_identity plan (keccak256 ib) (keccak256 hb)).
  assert (validate_plan final config =
    (_ ← validate_actions final vault (maximum_actions config); Ok (mkValidatedPlan final))) as He.
  { unfold validate_plan. cbn [pl_vault final with_identity]. rewrite H1, Hv. cbn [ok_or mbind result_bind].
    cbn [pl_config_revision pl_snapshot final with_identity]. rewrite H2, H3, Hrev, Hch, !Z.eqb_refl.
    cbn [negb orb]. unfold validate_plan_integrity, canonical_plan_id, canonical_plan_hash.
    change (with_identity final 0 0) with (with_identity plan 0 0).
    change (with_identity final (pl_plan_id final) 0) with (with_identity plan (keccak256 ib) 0).
    cbn [pl_topology_revision pl_snapshot final with_identity]. rewrite H2, H4, Z.eqb_refl, Hib, Hhb.
    cbn [ok_or mbind result_bind negb pl_plan_id pl_plan_hash final with_identity].
    rewrite !Z.eqb_refl. cbn [negb].
    change (with_identity plan (keccak256 ib) (keccak256 hb)) with final.
    rewrite (proj2 (certificate_spec final)) by exact Hc. done. }
  split; intros Ha.
  - exists (keccak256 ib), (keccak256 hb). fold final. rewrite He.
    assert (validate_actions final vault (maximum_actions config) = Ok tt) as ->
      by (apply (validate_actions_Ok final); [exact Hnn|exact Ha]). done.
  - rewrite He. destruct (validate_actions final vault (maximum_actions config)) as [[]|e] eqn:E.
    + apply (validate_actions_Ok final) in E; [|exact Hnn]. done.
    + cbn. by rewrite (validate_actions_Err _ _ _ _ E).
Qed.

(** What a plan needs, beyond being simulated, to pass the action checks. *)
Lemma simulated_plan_admissible plan state :
  plan_ready -> simulate_actions snapshot projection vault (pl_actions plan) = Ok state ->
  pl_actions plan <> [] -> exceeds_actions (pl_actions plan) = false ->
  Forall (within_direct_limit vault) (pl_actions plan) ->
  moved true (pl_actions plan) <= U256_MAX -> moved false (pl_actions plan) <= U256_MAX ->
  pp_movement_assets (pl_projection plan)
    = Z.max (moved true (pl_actions plan)) (moved false (pl_actions plan)) ->
  pp_immediate_loss_assets (pl_projection plan) <= vv_maximum_immediate_rebalance_loss_assets vault ->
  actions_admissible plan vault (maximum_actions config) <-> movement_shape plan vault.
Proof.
  intros Hr Hs Hne He Hw M1 M2 Hm Hl. unfold actions_admissible.
  unfold exceeds_actions in He. apply Z.ltb_ge in He.
  pose proof (simulated_targets _ _ _ _ _ Hs) as Ht.
  apply simulate_actions_run in Hs as (st & _ & Hrun & Hnd). destruct Hrun.
  destruct rs_phases as (ds & als & Hph & Hds & Hals & _).
  split; [by intros H; apply H|]. intros Hsh. split_and!; try done; [by exists ds, als|].
  rewrite Forall_forall in rs_nonzero; rewrite Forall_forall in Hw; rewrite Forall_forall in Ht.
  apply Forall_forall. intros a Ha. split; [by apply rs_nonzero|].
  apply target_matches; [done|by apply Ht|by apply Hw].
Qed.

Lemma action_movement_Ok actions movement :
  Forall (fun a => 0 <= action_assets a) actions -> action_movement actions = Ok movement ->
  moved true actions <= U256_MAX /\ moved false actions <= U256_MAX /\
  movement = Z.max (moved true actions) (moved false actions).
Proof.
  intros Hnn. unfold action_movement. intros H. step_ok H as [al de] Hf. injection H as <-.
  cbn [fst snd].
  assert (forall a0 d0, a0 <= U256_MAX -> d0 <= U256_MAX ->
    try_fold (fun (totals : Z * Z) action =>
      let '(allocated, deallocated) := totals in
      match action with
      | Allocate _ _ _ requested =>
          allocated ← ok_or (checked_add U256_MAX allocated requested) PsPlanConstruction;
          Ok (allocated, deallocated)
      | Deallocate _ _ _ requested =>
          deallocated ← ok_or (checked_add U256_MAX deallocated requested) PsPlanConstruction;
          Ok (allocated, deallocated)
      end) (a0, d0) actions = Ok (al, de) ->
    al = a0 + moved true actions /\ de = d0 + moved false actions /\
    al <= U256_MAX /\ de <= U256_MAX) as Hgen.
  { clear Hf. induction Hnn as [|a l Ha Hnn IH]; intros a0 d0 Ha0 Hd0 H.
    - injection H as <- <-. cbn. lia.
    - cbn [try_fold] in H. rewrite !moved_cons. step_ok H as [a1 d1] Hs.
      destruct a as [k ad dt x|k ad dt x]; cbn in Hs |- *;
        step_ok Hs as t [-> Hle]%ok_or_Ok%checked_add_Some; injection Hs as <- <-;
        apply IH in H; lia. }
  apply Hgen in Hf as (-> & -> & ? & ?); [|done|done]. split_and!; lia.
Qed.

(** Everything a plan that is not a spread movement promises. *)
Lemma non_rate_plan_spec reason actions state hash nodes :
  plan_ready -> (reason = CapitalDeployment \/ reason = LiquidityMaintenance) ->
  simulate_actions snapshot projection vault actions = Ok state ->
  ss_immediate_loss_assets state <= vv_maximum_immediate_rebalance_loss_assets vault ->
  actions <> [] -> exceeds_actions actions = false ->
  Forall (fun a => within_direct_limit vault a /\ 0 <= action_assets a) actions ->
  nodes <= so_maximum_nodes (ac_solver (vg_app config)) ->
  let built := build_validated_non_rate_plan reason actions state hash nodes in
  built = Err PsPlanConstruction \/
  exists figures certificate,
    let plan := draft_plan reason actions figures certificate None in
    pp_movement_assets figures = Z.max (moved true actions) (moved false actions) /\
    (movement_shape plan vault -> exists q id final,
       built = Ok (mkPreparedRatePlan q (ss_actions state)) /\
       vp_plan q = with_identity plan id final /\ validate_plan (vp_plan q) config = Ok q) /\
    (~ movement_shape plan vault -> built = Err (PsFirewall FwAction)).
Proof.
  intros Hr Hreason Hs Hloss Hne He Hw Hn. cbn zeta. unfold build_validated_non_rate_plan.
  assert (Forall (fun a => 0 <= action_assets a) actions) as Hnn
    by (eapply Forall_impl; [exact Hw|by intros a []]).
  assert (Forall (within_direct_limit vault) actions) as Hwd
    by (eapply Forall_impl; [exact Hw|by intros a []]).
  destruct (complete_strategy_spread _ (pw_markets projection) _) as [before|]; cbn; [|by left].
  destruct (complete_strategy_spread _ (ss_markets state) _) as [after|]; cbn; [|by left].
  destruct (action_movement actions) as [movement|e] eqn:Em; cbn.
  2: { left. unfold action_movement in Em. destruct (try_fold _ _ _) as [[? ?]|e'] eqn:Ef; [done|].
       cbn in Em. injection Em as <-. f_equal. clear -Ef. revert Ef. generalize (0, 0).
       induction actions as [|a l IH]; intros [x y] H; [done|]. cbn in H.
       destruct a; cbn in H; destruct (checked_add _ _ _); cbn in H; try (by eapply IH);
         by injection H as <-. }
  destruct (checked_add U64_MAX _ _) as [hz|]; cbn; [|by left].
  destruct (no_plan_terminal_existing_shareholder_assets _ _ _ _) as [npt|]; cbn; [|by left].
  destruct (terminal_existing_shareholder_assets _ _ _ _) as [pt|]; cbn; [|by left].
  destruct (match checked_add U256_MAX pt _ with None => true | Some allowed => allowed <? npt end);
    [by left|].
  destruct (i256_of_u256 pt ≫= _) as [delta|]; cbn; [|by left].
  destruct (no_plan_terminal_real_assets _ _ _ _) as [nr|]; cbn; [|by left].
  destruct (terminal_real_assets _ _ _ _) as [pr|]; cbn; [|by left].
  right. match goal with |- context [identified ?p] => set (plan := p) end.
  exists (pl_projection plan), (pl_solver_certificate plan). cbn zeta.
  change (draft_plan reason actions (pl_projection plan) (pl_solver_certificate plan) None) with plan.
  apply action_movement_Ok in Em as (M1 & M2 & Hm); [|done].
  assert (certificate_admissible plan) as Hc
    by (destruct Hreason as [-> | ->]; unfold certificate_admissible; by split_and!).
  destruct (identified_spec plan Hr) as [Hyes Hno]; [done..|].
  assert (actions_admissible plan vault (maximum_actions config) <-> movement_shape plan vault) as Hiff
    by (by eapply simulated_plan_admissible).
  split; [exact Hm|]. split; intros Hsh.
  - destruct (Hyes (proj2 Hiff Hsh)) as (id & h & -> & Hv). cbn.
    by exists (mkValidatedPlan (with_identity plan id h)), id, h.
  - rewrite Hno by (by rewrite Hiff). done.
Qed.

(** What a builder that returns a plan has shown. *)
Record plan_admitted (reason : PlanReason) (actions : list V2Action) (p : PreparedRatePlan) : Prop := {
  pa_validated : validate_plan (vp_plan (prp_plan p)) config = Ok (prp_plan p);
  pa_reason : pl_reason (vp_plan (prp_plan p)) = reason;
  pa_actions : pl_actions (vp_plan (prp_plan p)) = actions;
  pa_simulated : exists state, simulate_actions snapshot projection vault actions = Ok state /\
    validate_service_constraints state snapshot vault = Ok tt /\
    prp_action_projections p = ss_actions state;
}.

Let strategy := ac_strategy (vg_app config).
Let solver := ac_solver (vg_app config).
Let capital := solve_capital_deployment snapshot projection vault solver
  (sg_benefit_horizon_seconds strategy) (sg_objective strategy).
Let maintenance := solve_liquidity_maintenance snapshot projection vault solver
  (maximum_actions config).

(** The firewall never refuses what the capital solver found: building a
    capital plan either finds nothing to do, or fails to compute the plan's
    figures, or returns a plan that passes the firewall with the solver's
    actions and effects unchanged. *)
Theorem capital_plan_admitted :
  plan_ready -> 0 < vv_minimum_action_assets vault ->
  match build_validated_capital_plan with
  | Ok None => cr_state capital = None \/ exceeds_actions (cr_actions capital) = true \/
      se_search_complete (cr_certificate capital) = false
  | Ok (Some p) => plan_admitted CapitalDeployment (cr_actions capital) p
  | Err e => e = PsPlanConstruction
  end.
Proof.
  intros Hr Hmin. unfold build_validated_capital_plan. fold strategy solver capital.
  destruct (cr_state capital) as [state|] eqn:Hst; [|by left].
  pose proof (capital_solution _ _ _ _ _ _ _ Hst)
    as (inputs & target & sel & obj & Hin & Ht & Hsel & [Ha He] & _).
  cbn [fst snd] in Ha, He. fold capital in Ha, He.
  unfold capital_targets in Ht. apply list_elem_of_In, List.filter_In in Ht as [_ Ht%Z.leb_le].
  apply evaluate_capital_sound in He as (E1 & E2 & E3 & _).
  edestruct capital_actions_sound as (w & als & Hacts & Hne & Hm & _ & Hroom & Hw);
    [exact Hin|exact Hsel|exact Ht|exact Ha|].
  rewrite bool_decide_eq_false_2 by done. cbn [orb].
  destruct (exceeds_actions (cr_actions capital)) eqn:Hex; [by right; left|]. cbn [orb].
  destruct (se_search_complete (cr_certificate capital)) eqn:Hc; [|by right; right]. cbn [negb].
  assert (Forall (fun a => within_direct_limit vault a /\ 0 <= action_assets a) (cr_actions capital)) as Hwd.
  { rewrite Hacts. apply Forall_app. split.
    - destruct Hw as [(-> & _)|(l & Hl & -> & _ & Hp & _)]; [constructor|].
      apply Forall_singleton. split; [|cbn; lia]. intros Hn. unfold liquidity_target in Hn.
      rewrite Hl in Hn. cbn in Hn. by rewrite Z.eqb_refl in Hn.
    - eapply Forall_impl; [exact Hroom|]. intros a (d & Hd & (R1 & _ & R3 & _) & Hlo).
      split; [|lia]. intros _ c Hcin Hk. assert (c = d) as ->; [|done].
      apply (NoDup_fmap_elem pc_position_key _ c d (pd_keys Hr) Hcin R1). rewrite Hk, Hd. done. }
  pose proof (non_rate_plan_spec CapitalDeployment (cr_actions capital) state
    (se_candidate_lattice_hash (cr_certificate capital))
    (se_nodes_evaluated (cr_certificate capital)) Hr (or_introl eq_refl) E1 E3 Hne Hex Hwd
    (capital_nodes _ _ _ _ _ _ (pd_nodes Hr))) as [->|(figures & cert & _ & Hyes & _)]; [done|].
  destruct Hyes as (q & id & h & -> & Hq & Hv).
  - unfold movement_shape. cbn [pl_reason pl_actions draft_plan]. split; [lia|]. split.
    + destruct Hw as [(_ & -> & _)|(l & _ & _ & -> & ? & _)]; [lia|].
      unfold capital_inputs in Hin. apply bind_Some in Hin as (ia & Hia & Hin).
      unfold capital_idle_available in Hia.
      assert (0 <= ia) as Hia0.
      { destruct (ils_verified _); [|by injection Hia as <-].
        apply bind_Some in Hia as (lk & _ & [-> ?]%checked_sub_Some). lia. }
      repeat (apply bind_Some in Hin as (? & _ & Hin)). injection Hin as <-.
      cbn [ci_idle_available]. lia.
    + intros a Ha' Hal. rewrite Hacts in Ha'. apply elem_of_app in Ha' as [Ha'|Ha'].
      * destruct Hw as [(-> & _)|(l & Hl & -> & _)]; [by apply elem_of_nil in Ha'|].
        apply list_elem_of_singleton in Ha' as ->. by exists l.
      * rewrite Forall_forall in Hroom. destruct (Hroom a Ha') as (d & Hd & _). by rewrite Hd in Hal.
  - split; cbn; [done|by rewrite Hq..|]. by exists state.
Qed.

(** The firewall refuses exactly the restorations that mix idle assets with
    withdrawn ones. Building a maintenance plan returns a plan that passes the
    firewall when the solver's restoration is paid by idle assets alone or by
    withdrawals alone; a restoration that uses both is never published: the
    build fails with the firewall's action error, or before it. *)
Theorem maintenance_plan_admitted :
  plan_ready -> maintenance_wf snapshot vault solver ->
  let mixed := 0 < moved false (lr_actions maintenance) < moved true (lr_actions maintenance) in
  match build_validated_liquidity_plan with
  | Ok None => lr_state maintenance = None \/
      executable_rate_search (lr_certificate maintenance) = false
  | Ok (Some p) => plan_admitted LiquidityMaintenance (lr_actions maintenance) p /\ ~ mixed
  | Err e => e = PsPlanConstruction \/ e = PsFirewall FwAction /\ mixed
  end.
Proof.
  intros Hr Hwf. cbn zeta. unfold build_validated_liquidity_plan. fold solver maintenance.
  destruct (lr_state maintenance) as [state|] eqn:Hst; [|by left].
  destruct (maintenance_solution _ _ _ _ _ _ Hwf Hst)
    as (inputs & ss & ds & amount & Hin & _ & Hmin & Hs & Hd & He).
  fold maintenance in He. apply evaluate_maintenance_sound in He
    as (_ & E2 & E3 & E4 & E5 & E6 & E7).
  pose proof (mw_minimum _ _ _ Hwf) as Hpos.
  edestruct maintenance_moved as (M1 & M2 & M3); [|exact Hs|exact Hd|].
  { lia. }
  assert (Forall (fun a => within_direct_limit vault a /\ 0 <= action_assets a)
    (lr_actions maintenance)) as Hwd.
  { rewrite E2. eapply maintenance_within;
      [exact Hwf|exact Hin|exact (pd_keys Hr)|exact Hs|exact Hd]. }
  rewrite <-E2 in M1. rewrite <-E2 in M2. rewrite bool_decide_eq_false_2 by done. cbn [orb].
  assert (exceeds_actions (lr_actions maintenance) = false) as Hex
    by (apply Z.ltb_ge; exact E4). rewrite Hex. cbn [orb].
  destruct (executable_rate_search (lr_certificate maintenance)) eqn:Hc; [|by right]. cbn [negb].
  edestruct non_rate_plan_spec as [->|(figures & cert & _ & Hyes & Hno)];
    [exact Hr|by right|exact E5|exact E6|exact E3|exact Hex|exact Hwd
    |exact (maintenance_nodes _ _ _ _ _ Hwf (pd_nodes Hr))|by left|].
  unfold movement_shape in Hyes, Hno. cbn [pl_reason pl_actions draft_plan] in Hyes, Hno.
  destruct (decide (0 < moved false (lr_actions maintenance) < moved true (lr_actions maintenance)))
    as [Hmix|Hmix].
  - rewrite Hno by lia. by right.
  - destruct Hyes as (q & id & h & -> & Hq & Hv); [lia|]. cbn. split; [|done].
    split; cbn; [done|by rewrite Hq..|]. by exists state.
Qed.

(** Building a spread movement never fails. When the configured minimum
    improvement is positive, an executable search with few enough actions
    always yields a plan that passes the firewall, bound to its episode and
    moving no more than the episode has unlocked; otherwise there is no plan. *)
Theorem rate_plan_admitted episode :
  plan_ready -> rate_wf vault solver -> 0 <= sg_immediate_tranche_bps strategy ->
  0 < minimum_improvement strategy (bool_decide (re_objective_branch episode = Portfolio)) ->
  episode_wf episode ->
  let solved := solve_rate_rebalance snapshot projection vault strategy solver episode in
  match build_validated_rate_plan episode with
  | Ok None => executable_rate_search (rr_certificate solved) = false \/ rr_best solved = None \/
      exists best, rr_best solved = Some best /\ exceeds_actions (src_actions best) = true
  | Ok (Some p) => exists best unlocked, rr_best solved = Some best /\
      plan_admitted RateRebalance (src_actions best) p /\
      pl_episode_id (vp_plan (prp_plan p)) = Some (re_episode_id episode) /\
      available_budget episode = Ok unlocked /\
      pp_movement_assets (pl_projection (vp_plan (prp_plan p))) <= unlocked
  | Err _ => False
  end.
Proof.
  intros Hr Hwf Hbps Himp Hep solved. unfold build_validated_rate_plan.
  fold strategy solver solved.
  destruct (executable_rate_search (rr_certificate solved)) eqn:Hex; [|by left]. cbn [negb].
  destruct (rr_best solved) as [best|] eqn:Hb; [|by right; left].
  destruct (exceeds_actions (src_actions best)) eqn:Hlen; [right; right; by exists best|].
  destruct (solve_rate_search _ _ _ _ _ _ _ Hwf Hbps Hb Hex)
    as (unlocked & full & budget & Hun & Hfull & Hbud & Hsearch & Hmv).
  destruct (search_rate_best _ _ _ _ _ _ _ _ Hwf (proj1 Hbud) Hsearch)
    as [[P1 P2 _ P4 _ (_ & _ & P6) (P7 & P8 & P9) P10] _].
  assert (full <= U256_MAX) as Hfm.
  { unfold remaining_budget, unspent in Hfull. apply ok_or_Ok, bind_Some in Hfull as (v & Hv & Hfull).
    apply checked_sub_Some in Hv as [-> ?]. apply checked_sub_Some in Hfull as [-> ?].
    destruct (ew_budget _ Hep) as (_ & ? & ? & ?). lia. }
  pose proof (rw_minimum _ _ Hwf) as Hmin.
  match goal with |- context [identified ?p] => set (plan := p) end.
  assert (certificate_admissible plan) as Hc.
  { unfold executable_rate_search in Hex. bool_spec Hex. unfold certificate_admissible.
    cbn. split; [tauto|]. split; [lia|]. by exists (re_episode_id episode), (re_objective_branch episode). }
  assert (Forall (fun a => within_direct_limit vault a /\ 0 <= action_assets a) (src_actions best)) as Hwd.
  { eapply Forall_impl; [exact P10|]. intros a (d & Hd & Ha & Hk). split; [|lia].
    intros _ c Hcin Hkc. assert (c = d) as ->; [|lia].
    apply (NoDup_fmap_elem pc_position_key _ c d (pd_keys Hr) Hcin Hd). rewrite Hkc.
    by destruct (is_allocation a); destruct Hk as [-> _]. }
  assert (Forall (fun a => 0 <= action_assets a) (src_actions best)) as Hnn
    by (eapply Forall_impl; [exact Hwd|by intros a []]).
  assert (Forall (within_direct_limit vault) (src_actions best)) as Hwl
    by (eapply Forall_impl; [exact Hwd|by intros a []]).
  destruct (identified_spec plan Hr) as [Hyes _]; [done..|].
  destruct Hyes as (id & h & He & Hv).
  { eapply simulated_plan_admissible; [done|exact P1| |exact Hlen|exact Hwl| | | |exact P4|].
    - intros Hnil. cbn [plan draft_plan pl_actions] in Hnil. rewrite Hnil in P7. cbn in P7.
      change (moved true []) with 0 in P7. lia.
    - cbn [plan draft_plan pl_actions]. lia.
    - cbn [plan draft_plan pl_actions]. lia.
    - cbn [plan draft_plan pl_actions pl_projection pp_movement_assets]. lia.
    - unfold movement_shape. cbn [plan draft_plan pl_actions pl_reason pl_projection pp_before_spread
        pp_after_spread]. rewrite saturating_sub_spec in P6. fold strategy in P6. lia. }
  rewrite He. cbn. exists best, unlocked. split; [done|].
  split; [split; cbn; [done..|]; by exists (src_state best)|]. split; [done|]. split; [done|].
  cbn. lia.
Qed.

End Plans.
