(* ===== verification/PlanTopK.v ===== *)
(** * Top-K plans

    Models the top-K builders of [src/src/runtime/planning_service.rs]: a
    deployment of verified capital first, otherwise a movement toward the
    target, each with its canonical identity and through the firewall. *)
From Stdlib Require Import ZArith Lia List Bool.
From stdpp Require Import base list gmap sets.
From S2P Require Import Prelude.
From S2P Require Import BlueMath.
From S2P Require Import Domain.
From S2P Require Import Config.
From S2P Require Import Projection.
From S2P Require Import Simulator.
From S2P Require Import SimulatorProofs.
From S2P Require Import Calldata.
From S2P Require Import Firewall.
From S2P Require Import Objective.
From S2P Require Import Capital.
From S2P Require Import Maintenance.
From S2P Require Import Rate.
From S2P Require Import TopK.
From S2P Require Import TopKSolve.
From S2P Require Import TopKSolveProofs.
From S2P Require Import Revision.
From S2P Require Import Planning.
Open Scope Z_scope.

Section TopKPlans.
Context `{HK : Keccak} `{HA : AbiParams} `{HV : VaultAbi} `{HJ : PlanJson}.
Context (config : ValidatedConfig) (vault : ValidatedVaultConfig).
Context (snapshot : ExactVaultSnapshot) (projection : ProjectedVaultView).
Context (revision : option PlanningRevision) (target : TopKApyTarget).

Let strategy := ac_strategy (vg_app config).
Let settings := sg_top_k_apy strategy.

Definition top_k_limits : TopKSolveLimits :=
  mkTopKSolveLimits (sg_immediate_tranche_bps strategy) (maximum_actions config)
    (so_maximum_nodes (ac_solver (vg_app config))).

Definition build_validated_top_k_capital_plan (funding : TopKDeployableCapital)
    : result PlanningServiceError (option PreparedRatePlan) :=
  solved ← map_err (fun _ => PsTopKApy)
    (solve_top_k_capital_deployment snapshot projection vault target funding top_k_limits);
  match cr_state solved with
  | None => Ok None
  | Some state =>
      if bool_decide (cr_actions solved = [])
         || negb (executable_rate_search (cr_certificate solved))
      then Ok None
      else
        Some <$> build_validated_non_rate_plan config vault snapshot projection revision
          CapitalDeployment (cr_actions solved) state
          (se_candidate_lattice_hash (cr_certificate solved))
          (se_nodes_evaluated (cr_certificate solved))
  end.

(** The value checks of a movement: [None] when it gives up too much value. *)
Definition top_k_figures (best : TopKApyCandidate)
    : result PlanningServiceError (option PlanProjection) :=
  horizon_timestamp ← ok_or (checked_add U64_MAX (blk_timestamp (pw_head projection))
                               (sg_benefit_horizon_seconds strategy)) PsPlanConstruction;
  no_plan_terminal ← map_err (fun _ => PsPlanConstruction)
    (no_plan_terminal_existing_shareholder_assets snapshot vault projection horizon_timestamp);
  plan_terminal ← map_err (fun _ => PsPlanConstruction)
    (terminal_existing_shareholder_assets (tc_state best) snapshot projection horizon_timestamp);
  if match checked_add U256_MAX plan_terminal (vv_maximum_terminal_value_sacrifice_assets vault) with
     | None => true
     | Some allowed => allowed <? no_plan_terminal
     end
  then Ok None
  else
    terminal_value_delta_assets ← ok_or
      (planned ← i256_of_u256 plan_terminal;
       baseline ← i256_of_u256 no_plan_terminal;
       i256_sub planned baseline) PsPlanConstruction;
    no_plan_real_assets ← map_err (fun _ => PsPlanConstruction)
      (no_plan_terminal_real_assets snapshot vault projection horizon_timestamp);
    plan_real_assets ← map_err (fun _ => PsPlanConstruction)
      (terminal_real_assets (tc_state best) snapshot projection horizon_timestamp);
    Ok (Some (mkPlanProjection (tc_movement_assets best) (tc_before_score_wad best)
                (tc_after_score_wad best) (ss_immediate_loss_assets (tc_state best))
                terminal_value_delta_assets
                (saturating_sub plan_real_assets no_plan_real_assets))).

Definition build_validated_top_k_rebalance_plan
    : result PlanningServiceError (option PreparedRatePlan) :=
  solved ← map_err (fun _ => PsTopKApy)
    (solve_top_k_rebalance snapshot projection vault settings target top_k_limits);
  if negb (executable_rate_search (tr_certificate solved)) then Ok None
  else match tr_best solved with
  | None => Ok None
  | Some best =>
      found ← top_k_figures best;
      match found with
      | None => Ok None
      | Some figures =>
          let c := tr_certificate solved in
          plan ← identified config (draft_plan config vault snapshot revision TopKApyRebalance
            (tc_actions best) figures
            (mkSolverCertificate (se_candidate_lattice_hash c) (se_nodes_evaluated c)
               (se_node_limit c) (se_search_complete c) None None true
               (tc_after_score_wad best <=? vt_target_score_wad settings)) None);
          Ok (Some (mkPreparedRatePlan plan (ss_actions (tc_state best))))
      end
  end.

Definition build_validated_top_k_plan (funding : TopKDeployableCapital)
    : result PlanningServiceError (option PreparedRatePlan) :=
  deployed ←
    (if negb (td_total_assets funding =? 0) then build_validated_top_k_capital_plan funding
     else Ok None);
  match deployed with
  | Some prepared => Ok (Some prepared)
  | None => build_validated_top_k_rebalance_plan
  end.

(** ** The plans are admitted *)

Let admitted := plan_admitted config vault snapshot projection.

Let head_timestamp := blk_timestamp (pw_head projection).
Let horizon := checked_add U64_MAX head_timestamp (sg_benefit_horizon_seconds strategy).
Let terminal_without := no_plan_terminal_existing_shareholder_assets snapshot vault projection.
Let terminal_with (state : SimulationState) :=
  terminal_existing_shareholder_assets state snapshot projection.

(** A figure of the value at the horizon that has no value. *)
Inductive value_missing (state : SimulationState) : Prop :=
  | missing_horizon : horizon = None -> value_missing state
  | missing_baseline h e : horizon = Some h -> terminal_without h = Err e -> value_missing state
  | missing_terminal h e : horizon = Some h -> terminal_with state h = Err e -> value_missing state
  | missing_delta h planned baseline : horizon = Some h ->
      terminal_without h = Ok baseline -> terminal_with state h = Ok planned ->
      (planned ← i256_of_u256 planned; baseline ← i256_of_u256 baseline; i256_sub planned baseline) = None ->
      value_missing state
  | missing_baseline_assets h e : horizon = Some h ->
      no_plan_terminal_real_assets snapshot vault projection h = Err e -> value_missing state
  | missing_terminal_assets h e : horizon = Some h ->
      terminal_real_assets state snapshot projection h = Err e -> value_missing state.

(** The figures only a deployment shows: the spreads and the moved amount. *)
Definition spread_missing (state : SimulationState) (actions : list V2Action) : Prop :=
  complete_strategy_spread (strategy_market_ids vault) (pw_markets projection) (sg_objective strategy) = None \/
  complete_strategy_spread (strategy_market_ids vault) (ss_markets state) (sg_objective strategy) = None \/
  exists e, action_movement actions = Err e.

(** The plan leaves existing shareholders with less at the horizon than no plan
    would, by more than the vault tolerates. *)
Definition value_sacrificed (state : SimulationState) : Prop :=
  exists h planned baseline, horizon = Some h /\ terminal_with state h = Ok planned /\
    terminal_without h = Ok baseline /\
    match checked_add U256_MAX planned (vv_maximum_terminal_value_sacrifice_assets vault) with
    | None => true
    | Some allowed => allowed <? baseline
    end = true.

(** Why there is no answer: a solver's arithmetic or a figure, or the value
    check of the deployment, which fails the whole build. *)
Inductive deployment_failed (funding : TopKDeployableCapital) : PlanningServiceError -> Prop :=
  | deployment_unsolved e :
      solve_top_k_capital_deployment snapshot projection vault target funding top_k_limits = Err e ->
      deployment_failed funding PsTopKApy
  | deployment_uncounted solved state :
      solve_top_k_capital_deployment snapshot projection vault target funding top_k_limits = Ok solved ->
      cr_state solved = Some state ->
      spread_missing state (cr_actions solved) \/ value_missing state ->
      deployment_failed funding PsPlanConstruction
  | deployment_refused solved state :
      solve_top_k_capital_deployment snapshot projection vault target funding top_k_limits = Ok solved ->
      cr_state solved = Some state -> value_sacrificed state ->
      deployment_failed funding PsPlanConstruction.

Inductive movement_failed : PlanningServiceError -> Prop :=
  | movement_unsolved e :
      solve_top_k_rebalance snapshot projection vault settings target top_k_limits = Err e ->
      movement_failed PsTopKApy
  | movement_uncounted solved best :
      solve_top_k_rebalance snapshot projection vault settings target top_k_limits = Ok solved ->
      tr_best solved = Some best -> value_missing (tc_state best) ->
      movement_failed PsPlanConstruction.

(** Why a deployment whose solver has a state is refused before the firewall. *)
Lemma non_rate_refused reason actions state hash nodes :
  build_validated_non_rate_plan config vault snapshot projection revision reason actions state hash
    nodes = Err PsPlanConstruction ->
  spread_missing state actions \/ value_missing state \/ value_sacrificed state.
Proof.
  unfold build_validated_non_rate_plan, spread_missing, value_sacrificed. fold head_timestamp strategy.
  cbv zeta. intros H.
  destruct (complete_strategy_spread _ (pw_markets projection) _) as [before|]; [|by left; left].
  destruct (complete_strategy_spread _ (ss_markets state) _) as [after|]; [|by left; right; left].
  destruct (action_movement actions) as [movement|e]; [|left; right; right; by exists e]. cbn in H.
  fold horizon in H. destruct horizon as [h|] eqn:Eh; [|right; left; by constructor 1]. cbn in H.
  fold (terminal_without h) in H. fold (terminal_with state h) in H.
  destruct (terminal_without h) as [npt|e] eqn:E1; [|right; left; by econstructor 2]. cbn in H.
  destruct (terminal_with state h) as [pt|e] eqn:E2; [|right; left; by econstructor 3]. cbn in H.
  destruct (match checked_add U256_MAX pt _ with None => true | Some allowed => allowed <? npt end) eqn:E3.
  { right. right. by exists h, pt, npt. }
  destruct (i256_of_u256 pt ≫= _) as [delta|] eqn:E4; [|right; left; by econstructor 4]. cbn in H.
  destruct (no_plan_terminal_real_assets _ _ _ _) as [nr|e] eqn:E5; [|right; left; by econstructor 5].
  destruct (terminal_real_assets _ _ _ _) as [pr|e] eqn:E6; [|right; left; by econstructor 6].
  exfalso. cbn in H. unfold identified in H.
  repeat match type of H with context [map_err PsFirewall ?x] => destruct x; cbn in H end; done.
Qed.

Lemma deployment_certificate funding r state :
  solve_top_k_capital_deployment snapshot projection vault target funding top_k_limits = Ok r ->
  cr_state r = Some state -> 0 <= tl_maximum_nodes top_k_limits ->
  se_nodes_evaluated (cr_certificate r) = 1 /\ se_node_limit (cr_certificate r) = tl_maximum_nodes top_k_limits /\
  1 <= tl_maximum_nodes top_k_limits.
Proof.
  intros H Hs Hn. unfold solve_top_k_capital_deployment in H. cbv zeta in H.
  step_ok H as deployment Hd. destruct (deployment <? _); [by injection H as <-|].
  step_ok H as headrooms Hh. step_ok H as dep Hdep. step_ok H as allocated Hal.
  destruct (allocated <? _); [by injection H as <-|]. step_ok H as actions Hact.
  destruct (_ || _) eqn:E; bool_spec E; [by injection H as <-|].
  destruct (deployment_state _ _ _ _); injection H as <-; [|done]. cbn in *. lia.
Qed.

Lemma top_k_allocations_moved built :
  moved true (allocations_of built) = list_sum (snd <$> built) /\
  moved false (allocations_of built) = 0 /\
  Forall (fun a => is_allocation a = true) (allocations_of built).
Proof.
  induction built as [|b built (IH1 & IH2 & IH3)]; [done|].
  change (allocations_of (b :: built)) with (allocate_destination b.1 b.2 :: allocations_of built).
  rewrite !moved_cons, fmap_cons, list_sum_cons. cbn [is_allocation allocate_destination Bool.eqb action_assets]. split; [lia|]. split; [lia|]. by constructor.
Qed.

(** Deployments stay within the action bounds and only withdraw liquidity. *)
Lemma deployment_shape funding r state :
  plan_ready config vault snapshot ->
  topk_deployment_ok snapshot projection vault target funding top_k_limits r state ->
  0 < vv_minimum_action_assets vault -> 0 <= td_idle_assets funding ->
  cr_actions r <> [] /\
  Forall (fun a => within_direct_limit vault a /\ 0 <= action_assets a) (cr_actions r) /\
  0 < moved true (cr_actions r) /\ moved false (cr_actions r) <= moved true (cr_actions r) /\
  forall a, a ∈ cr_actions r -> is_allocation a = false ->
    exists l, vv_liquidity_adapter vault = Some l /\ lac_position_key l = action_position a.
Proof.
  intros Hr [_ _ _ _ (withdrawal & built & Ha & Hf & _ & Hb & Hw & _)] Hm Hi. cbv zeta in Hb, Hw.
  destruct (top_k_allocations_moved built) as (M1 & M2 & M3). rewrite Ha, !moved_app, M1, M2.
  set (allocated := list_sum _) in *. split.
  { destruct built; [change allocated with 0 in Hb; lia|]. by destruct withdrawal. }
  assert (Forall (fun a => within_direct_limit vault a /\ 0 <= action_assets a) (allocations_of built)) as Hal.
  { apply Forall_fmap. eapply Forall_impl; [exact Hf|]. intros b (Hp & _ & Hle & _).
    cbn. split; [|lia]. intros _ c Hc Hk. cbn in Hk |- *.
    assert (c = b.1) as ->; [|lia].
    by apply (NoDup_fmap_elem pc_position_key _ c b.1 (pd_keys _ _ _ Hr) Hc Hp). }
  rewrite Forall_app. rewrite Forall_forall in M3.
  destruct Hw as [[-> Hle]|(l & Hl & -> & Hpos)].
  - change (moved true []) with 0. change (moved false []) with 0.
    split; [done|]. split; [lia|]. split; [lia|].
    intros a Hin Hf'. apply M3 in Hin. congruence.
  - rewrite !moved_cons. change (moved true []) with 0. change (moved false []) with 0. cbn.
    split; [|split; [lia|split; [lia|]]].
    + split; [|done]. constructor; [|done]. split; [|cbn; lia].
      intros Hn. unfold liquidity_target in Hn. rewrite Hl in Hn. cbn in Hn.
      by rewrite Z.eqb_refl in Hn.
    + intros a [-> |Hin]%elem_of_cons Hf'; [by exists l|]. apply M3 in Hin. congruence.
Qed.

Lemma top_k_capital_plan_spec funding :
  plan_ready config vault snapshot -> deploy_wf vault target funding top_k_limits ->
  match build_validated_top_k_capital_plan funding with
  | Ok None => True
  | Ok (Some p) => exists solved,
      solve_top_k_capital_deployment snapshot projection vault target funding top_k_limits = Ok solved /\
      admitted CapitalDeployment (cr_actions solved) p
  | Err e => deployment_failed funding e
  end.
Proof.
  intros Hr W. unfold build_validated_top_k_capital_plan.
  destruct (solve_top_k_capital_deployment _ _ _ _ _ _) as [r|e] eqn:Es; cbn; [|by econstructor].
  destruct (cr_state r) as [state|] eqn:Est; [|done].
  destruct (_ || _) eqn:E; bool_spec E; [done|].
  pose proof (topk_deployment_sound _ _ _ _ _ _ _ _ W Es Est) as Hok.
  destruct (deployment_certificate _ _ _ Es Est (pd_nodes _ _ _ Hr)) as (N1 & N2 & N3).
  destruct (deployment_shape _ _ _ Hr Hok (dw_minimum _ _ _ _ W) (dw_idle _ _ _ _ W))
    as (Hne & Hw & S1 & S2 & S3).
  destruct Hok as [K1 K2 K3 K4 _].
  destruct (non_rate_plan_spec config vault snapshot projection revision CapitalDeployment
    (cr_actions r) state (se_candidate_lattice_hash (cr_certificate r))
    (se_nodes_evaluated (cr_certificate r))) as [Hb|(figures & cert & _ & Hyes & _)];
    [exact Hr|by left|exact K1|exact K3|exact Hne| |exact Hw| | |].
  - unfold exceeds_actions. apply Z.ltb_ge. exact K4.
  - rewrite N1. exact N3.
  - rewrite Hb. cbn. apply non_rate_refused in Hb as [?|[?|?]];
      [eapply deployment_uncounted; eauto..|by eapply deployment_refused].
  - destruct Hyes as (q & id & h & -> & Hq & Hv); [by split|]. cbn. exists r. split; [done|].
    split; cbn; [done|by rewrite Hq..|]. by exists state.
Qed.

Lemma top_k_figures_Ok best :
  match top_k_figures best with
  | Ok None => True
  | Ok (Some f) => pp_movement_assets f = tc_movement_assets best /\
      pp_before_spread f = tc_before_score_wad best /\ pp_after_spread f = tc_after_score_wad best /\
      pp_immediate_loss_assets f = ss_immediate_loss_assets (tc_state best)
  | Err e => e = PsPlanConstruction /\ value_missing (tc_state best)
  end.
Proof.
  unfold top_k_figures. fold head_timestamp horizon.
  destruct horizon as [h|] eqn:Eh; cbn; [|split; [done|by constructor 1]].
  fold (terminal_without h) (terminal_with (tc_state best) h).
  destruct (terminal_without h) as [npt|] eqn:E1; cbn; [|split; [done|by econstructor 2]].
  destruct (terminal_with _ h) as [pt|] eqn:E2; cbn; [|split; [done|by econstructor 3]].
  destruct (match checked_add U256_MAX pt _ with None => true | Some allowed => allowed <? npt end);
    [done|].
  destruct (i256_of_u256 pt ≫= _) as [delta|] eqn:E3; cbn; [|split; [done|by econstructor 4]].
  destruct (no_plan_terminal_real_assets _ _ _ _) as [nr|] eqn:E4; cbn; [|split; [done|by econstructor 5]].
  by destruct (terminal_real_assets _ _ _ _) as [pr|] eqn:E5; cbn; [|split; [done|by econstructor 6]].
Qed.

Lemma toward_target_within acts :
  plan_ready config vault snapshot -> Forall (toward_target vault target) acts ->
  Forall (fun a => within_direct_limit vault a /\ 0 <= action_assets a) acts.
Proof.
  intros Hr H. eapply Forall_impl; [exact H|]. intros a (p & Hp & Ha & current & _ & Hk).
  split; [|lia]. intros _ c Hc Hkc. assert (c = p) as ->; [|lia].
  apply (NoDup_fmap_elem pc_position_key _ c p (pd_keys _ _ _ Hr) Hc Hp). rewrite Hkc.
  by destruct (is_allocation a); destruct Hk as [-> _].
Qed.

Lemma top_k_rebalance_plan_spec :
  plan_ready config vault snapshot -> topk_wf vault target ->
  0 <= tl_immediate_tranche_bps top_k_limits ->
  0 < vt_minimum_improvement_score_wad settings ->
  match build_validated_top_k_rebalance_plan with
  | Ok None => True
  | Ok (Some p) => exists solved best,
      solve_top_k_rebalance snapshot projection vault settings target top_k_limits = Ok solved /\
      tr_best solved = Some best /\ admitted TopKApyRebalance (tc_actions best) p
  | Err e => movement_failed e
  end.
Proof.
  intros Hr Hwf Hbps Himp. unfold build_validated_top_k_rebalance_plan.
  destruct (solve_top_k_rebalance _ _ _ _ _ _) as [r|e] eqn:Es; cbn; [|by econstructor].
  destruct (executable_rate_search (tr_certificate r)) eqn:Hex; [cbn|done].
  destruct (tr_best r) as [best|] eqn:Hb; [|done].
  destruct (topk_rebalance_sound _ _ _ _ _ _ _ _ Hwf Hbps (pd_nodes _ _ _ Hr) Es Hb)
    as (excess & amounts & before & (He & _ & _) & [P1 P2 P3 P4 (M1 & M2 & M3 & _) P6 _ P8 _ P10]).
  apply topk_excess_range in He as [_ He].
  pose proof (top_k_figures_Ok best) as Hfig.
  destruct (top_k_figures best) as [[figures|]|e]; cbn; [|done|].
  2:{ destruct Hfig as [-> Hm]. by eapply movement_uncounted. }
  destruct Hfig as (F1 & F2 & F3 & F4).
  pose proof (toward_target_within _ Hr P6) as Hwd.
  assert (Forall (fun a => 0 <= action_assets a) (tc_actions best)) as Hnn
    by (eapply Forall_impl; [exact Hwd|by intros a []]).
  assert (Forall (within_direct_limit vault) (tc_actions best)) as Hwl
    by (eapply Forall_impl; [exact Hwd|by intros a []]).
  match goal with |- context [identified config ?p] => set (plan := p) end.
  destruct (identified_spec config vault snapshot plan Hr) as [Hyes _]; [done..| | |].
  { unfold executable_rate_search in Hex. bool_spec Hex. split; [tauto|]. split; [cbn; lia|done]. }
  { done. }
  destruct Hyes as (id & h & Hid & Hv).
  { eapply simulated_plan_admissible; [done|exact P1| | |exact Hwl| | | | |].
    - intros Hnil. cbn [plan draft_plan pl_actions] in Hnil. rewrite Hnil in P4. cbn in P4. lia.
    - apply Z.ltb_ge. cbn [plan draft_plan pl_actions]. exact (proj2 P4).
    - cbn [plan draft_plan pl_actions]. lia.
    - cbn [plan draft_plan pl_actions]. lia.
    - cbn [plan draft_plan pl_actions pl_projection]. lia.
    - cbn [plan draft_plan pl_projection]. lia.
    - unfold movement_shape. cbn [plan draft_plan pl_actions pl_reason pl_projection].
      lia. }
  rewrite Hid. cbn. exists r, best. split; [done|]. split; [done|].
  split; cbn; [done..|]. by exists (tc_state best).
Qed.

(** C25: Building a top-K plan never fails at the firewall. The deployment of
    verified capital has priority: a movement toward the target is only
    returned when no deployment is. Whatever is returned passed the firewall
    with exactly the solver's actions. The build fails only because a solver's
    arithmetic or a figure of the plan has no value, or because the deployment
    the solver found gives up more value at the horizon than the vault
    tolerates: then no movement is built either. *)
Theorem top_k_plan_admitted funding :
  plan_ready config vault snapshot -> topk_wf vault target ->
  deploy_wf vault target funding top_k_limits ->
  0 < vt_minimum_improvement_score_wad settings ->
  let undeployed := td_total_assets funding = 0 \/ build_validated_top_k_capital_plan funding = Ok None in
  match build_validated_top_k_plan funding with
  | Ok None => undeployed /\ build_validated_top_k_rebalance_plan = Ok None
  | Ok (Some p) =>
      (exists solved, td_total_assets funding <> 0 /\
         solve_top_k_capital_deployment snapshot projection vault target funding top_k_limits
           = Ok solved /\ admitted CapitalDeployment (cr_actions solved) p) \/
      undeployed /\
      exists solved best,
        solve_top_k_rebalance snapshot projection vault settings target top_k_limits = Ok solved /\
        tr_best solved = Some best /\ admitted TopKApyRebalance (tc_actions best) p
  | Err e => td_total_assets funding <> 0 /\ deployment_failed funding e \/
      undeployed /\ movement_failed e
  end.
Proof.
  intros Hr Hwf W Himp undeployed. unfold build_validated_top_k_plan.
  pose proof (top_k_rebalance_plan_spec Hr Hwf (proj1 (dw_bps _ _ _ _ W)) Himp) as Hreb.
  destruct (td_total_assets funding =? 0) eqn:E; bool_spec E; cbn [negb mbind result_bind].
  - assert undeployed as Hu by by left.
    by destruct build_validated_top_k_rebalance_plan as [[p|]|e]; [right|..|right].
  - pose proof (top_k_capital_plan_spec funding Hr W) as Hcap.
    destruct (build_validated_top_k_capital_plan funding) as [[p|]|e] eqn:Ec; cbn; [| |by left].
    + left. destruct Hcap as (solved & ? & ?). by exists solved.
    + assert undeployed as Hu by by right.
      by destruct build_validated_top_k_rebalance_plan as [[p|]|e]; [right|..|right].
Qed.

End TopKPlans.
