(* ===== verification/PlanService.v ===== *)
(** * The spread planner's service loop

    Models the stateful part of [src/src/runtime/planning_service.rs]: one
    refresh of the rate plan of a vault, with every call it makes on the durable
    storage, the operator API and the runtime registry, in order.  The calls are
    recorded; which of them fail is left to the environment, the class
    [PlanServices], so the theorems hold whatever fails and when. *)
From Stdlib Require Import ZArith Lia List Bool String.
From stdpp Require Import base list gmap sets.
From S2P Require Import Prelude.
From S2P Require Import BlueMath.
From S2P Require Import Domain.
From S2P Require Import Config.
From S2P Require Import Projection.
From S2P Require Import Simulator.
From S2P Require Import Episodes.
From S2P Require Import Calldata.
From S2P Require Import Firewall.
From S2P Require Import Objective.
From S2P Require Import Rate.
From S2P Require Import Revision.
From S2P Require Import Planning.
From S2P Require Import Models.
From S2P Require Import Storage.
Open Scope Z_scope.

(** The calls of a refresh. *)
Inductive ServiceCall : Type :=
| PersistRateEpisode (episode : RateSignalEpisode) (timestamp : Z)
| PersistPlan (plan : V2Plan) (timestamp : Z)
| PersistTopKMemory (memory : TopKApyMemory) (timestamp : Z)
| RecordEpisode (episode : RateSignalEpisode)
| RecordPlan (plan : V2Plan)
| ClearPlanThrough (block_number planner_generation : Z)
| RecordPlanning (plan_id : option PlanId) (episode_id : option EpisodeId).

(** The storage query: the one nonterminal episode of a rate group. *)
Definition active_in (vault : VaultAddress) (rate_group : RateGroupId) (entry : TimedEpisode)
    : bool :=
  (re_vault (te_episode entry) =? vault) && (re_rate_group (te_episode entry) =? rate_group)
  && negb (bool_decide (re_state (te_episode entry) = Complete)).

Definition load_active_rate_episode (s : JsonState) (vault : VaultAddress)
    (rate_group : RateGroupId) : result StorageError (option RateSignalEpisode) :=
  match List.filter (active_in vault rate_group) (js_rate_episodes s) with
  | [] => Ok None
  | [entry] => Ok (Some (te_episode entry))
  | _ => Err (Invariant "multiple active rate episodes"%string)
  end.

(** The durable state a refresh starts from, and how the services answer given
    the calls made before. *)
Class PlanServices : Type := {
  stored : JsonState;
  storage_loads : bool;
  storage_persists : list ServiceCall -> ServiceCall -> bool;
  api_accepts : list ServiceCall -> V2Plan -> bool;
  runtime_updates : list ServiceCall -> ServiceCall -> bool;
}.

(** A computation that makes calls and may fail or return early. *)
Definition Service (A : Type) : Type :=
  list ServiceCall -> list ServiceCall * result PlanningServiceError A.
#[global] Instance service_ret : MRet Service := fun A a calls => (calls, Ok a).
#[global] Instance service_bind : MBind Service := fun A B f c calls =>
  let '(calls, r) := c calls in
  match r with Ok a => f a calls | Err e => (calls, Err e) end.

Definition lift {A} (r : result PlanningServiceError A) : Service A := fun calls => (calls, r).
(** A call that cannot fail. *)
Definition notify (c : ServiceCall) : Service unit := fun calls => (calls ++ [c], Ok tt).
(** A call whose failure is propagated. *)
Definition attempt (answers : list ServiceCall -> ServiceCall -> bool)
    (error : PlanningServiceError) (c : ServiceCall) : Service unit := fun calls =>
  (calls ++ [c], if answers calls c then Ok tt else Err error).

Section Refresh.
Context `{HK : Keccak} `{HA : AbiParams} `{HV : VaultAbi} `{HJ : PlanJson} `{HS : PlanServices}.
Context (config : ValidatedConfig) (vault : ValidatedVaultConfig).
Context (snapshot : ExactVaultSnapshot) (projection : ProjectedVaultView).
Context (revision : option PlanningRevision).

Let strategy := ac_strategy (vg_app config).
Let now := blk_timestamp (pw_head projection).

Definition load_episode : Service (option RateSignalEpisode) :=
  lift (if storage_loads
        then map_err (fun _ => PsStorage)
               (load_active_rate_episode stored (vv_address vault) (rg_id (vv_rate_group vault)))
        else Err PsStorage).

Definition persist_rate_episode (episode : RateSignalEpisode) : Service unit :=
  attempt storage_persists PsStorage (PersistRateEpisode episode now).

Definition record_episode (episode : RateSignalEpisode) : Service unit :=
  notify (RecordEpisode episode).

Definition clear_plan (episode_id : option EpisodeId) (block_number : Z) : Service unit :=
  _ ← notify (ClearPlanThrough block_number (from_option pr_planner_generation 0 revision));
  attempt runtime_updates PsController (RecordPlanning None episode_id).

(** Early [return Ok(None)] after clearing the published plan. *)
Definition clear_and_stop {A} (episode_id : option EpisodeId) : Service (option A) :=
  _ ← clear_plan episode_id (blk_number (pw_head projection)); mret None.

Definition terminate_rate_episode : Service unit :=
  loaded ← load_episode;
  match loaded with
  | None => mret tt
  | Some episode =>
      let episode := complete episode HigherPriorityPlan in
      _ ← persist_rate_episode episode;
      record_episode episode
  end.

Definition publish_plan (plan : V2Plan) (episode_id : option EpisodeId) (timestamp : Z)
    : Service (option V2Plan) :=
  _ ← attempt storage_persists PsStorage (PersistPlan plan timestamp);
  accepted ← (fun calls => (calls ++ [RecordPlan plan], Ok (api_accepts calls plan)));
  if negb accepted then mret None
  else
    _ ← attempt runtime_updates PsController
          (RecordPlanning (Some (pl_plan_id plan)) episode_id);
    mret (Some plan).

Definition detect (active_episode : bool) : option RateSignal :=
  detect_rate_signal snapshot projection vault strategy active_episode.

(** Why an active episode must stop, if it must. *)
Definition stop_reason (active : RateSignalEpisode) (signal : option RateSignal)
    : option RateEpisodeStopReason :=
  let incompatible_revision :=
    negb (re_config_revision active =? vg_revision config)
    || negb (re_topology_revision active
             =? ctx_dynamic_topology_revision (ev_context snapshot)) in
  let expired := re_expires_at active <=? now in
  let required_spread :=
    if bool_decide (re_state active = Detecting) then entry_spread strategy
    else convergence_threshold config in
  let incompatible_signal :=
    match signal with
    | None => true
    | Some current => negb (signal_matches_episode active current required_spread)
    end in
  if incompatible_revision || expired || incompatible_signal then
    Some (if incompatible_revision then ConfigOrTopologyChanged
          else if expired then ExpiredStalled
          else if match projected_controllable_spread projection vault strategy with
                  | Some spread => spread <=? convergence_threshold config
                  | None => false
                  end
          then TargetReached
          else StopDirectionChanged)
  else None.

(** The first block: the loaded episode, unless it had to stop. *)
Definition settle_episode (loaded : option RateSignalEpisode) (signal : option RateSignal)
    : Service (option RateSignalEpisode) :=
  match loaded with
  | None => mret None
  | Some active =>
      match stop_reason active signal with
      | None => mret (Some active)
      | Some reason =>
          let active := complete active reason in
          _ ← persist_rate_episode active;
          _ ← record_episode active;
          mret None
      end
  end.

(** The second block: a new episode when the entry signal is strong enough. *)
Definition enter_episode (episode : option RateSignalEpisode)
    : Service (option RateSignalEpisode) :=
  match episode with
  | Some e => mret (Some e)
  | None =>
      match detect false with
      | None => mret None
      | Some current =>
          if spread_exceeds_entry (rg_spread current) (entry_spread strategy)
             && (vv_minimum_action_assets vault <=? rg_desired_movement current)
          then
            lifetime_seconds ← lift (duration_seconds_ceil
                                       (sg_maximum_rate_episode_duration_millis strategy));
            expires_at ← lift (ok_or (checked_add U64_MAX now lifetime_seconds) PsTimestampRange);
            started ← lift (map_err PsEpisode (start (vv_address vault)
              (rg_id (vv_rate_group vault)) (rg_branch current) (pw_head projection)
              (vg_revision config) (ctx_dynamic_topology_revision (ev_context snapshot))
              (rg_evaluation_markets current) (rg_controllable_markets current)
              (rg_source_markets current) (rg_destination_markets current) now expires_at));
            _ ← persist_rate_episode started;
            _ ← record_episode started;
            mret (Some started)
          else mret None
      end
  end.

(** The third block: a Detecting episode observes the signal.  [None] returns
    early. *)
Definition confirm_episode (episode : RateSignalEpisode) (signal : option RateSignal)
    : Service (option RateSignalEpisode) :=
  if negb (bool_decide (re_state episode = Detecting)) then mret (Some episode)
  else
    match signal with
    | None => clear_and_stop (Some (re_episode_id episode))
    | Some current =>
        let '(episode, observed) :=
          observe_short_confirmation episode (pw_head projection)
            (sg_confirmation_opportunities strategy) (rg_desired_movement current) in
        match observed with
        | Ok _ => _ ← persist_rate_episode episode; mret (Some episode)
        | Err NonConsecutiveObservation =>
            let episode := complete episode StopNonConsecutiveObservation in
            _ ← persist_rate_episode episode;
            _ ← record_episode episode;
            clear_and_stop None
        | Err error => lift (Err (PsEpisode error))
        end
    end.

(** Whether an Immediate episode may become Persistent at this head. *)
Definition persistent_confirmed (episode : RateSignalEpisode) (persistent_at
    independent_span_seconds : Z) : bool :=
  ((persistent_at <=? now)
   || independent_confirmation_ready episode (sg_minimum_independent_rate_events strategy)
        independent_span_seconds)
  && match detect true with
     | Some current => signal_matches_episode episode current (convergence_threshold config)
     | None => false
     end.

(** The fourth block: an Immediate episode unlocks its persistent tranche. *)
Definition unlock_episode (episode : RateSignalEpisode) : Service (option RateSignalEpisode) :=
  if negb (bool_decide (re_state episode = Immediate)) then mret (Some episode)
  else
    persistent_seconds ← lift (duration_seconds_ceil
                                 (sg_persistent_confirmation_duration_millis strategy));
    independent_span_seconds ← lift (duration_seconds_ceil
                                       (sg_minimum_independent_event_span_millis strategy));
    match re_confirmation_block episode with
    | None => clear_and_stop (Some (re_episode_id episode))
    | Some confirmation_block =>
        persistent_at ← lift (ok_or (checked_add U64_MAX (blk_timestamp confirmation_block)
                                       persistent_seconds) PsTimestampRange);
        if persistent_confirmed episode persistent_at independent_span_seconds
        then
          let '(episode, unlocked) := unlock_persistent episode in
          _ ← lift (map_err PsEpisode unlocked);
          _ ← persist_rate_episode episode;
          _ ← record_episode episode;
          mret (Some episode)
        else mret (Some episode)
    end.

Definition plan_episode (episode : RateSignalEpisode) : Service (option V2Plan) :=
  prepared ← lift (build_validated_rate_plan config vault snapshot projection revision episode);
  match prepared with
  | None => clear_and_stop (Some (re_episode_id episode))
  | Some prepared =>
      publish_plan (vp_plan (prp_plan prepared)) (Some (re_episode_id episode)) now
  end.

Definition refresh_rate_plan : Service (option V2Plan) :=
  loaded ← load_episode;
  let signal := detect (bool_decide (is_Some loaded)) in
  kept ← settle_episode loaded signal;
  entered ← enter_episode kept;
  match entered with
  | None => clear_and_stop None
  | Some episode =>
      confirmed ← confirm_episode episode signal;
      match confirmed with
      | None => mret None
      | Some episode =>
          _ ← record_episode episode;
          if bool_decide (re_state episode = Detecting)
          then clear_and_stop (Some (re_episode_id episode))
          else
            unlocked ← unlock_episode episode;
            match unlocked with
            | None => mret None
            | Some episode => plan_episode episode
            end
      end
  end.

(** ** The guarantees of a trace *)

(** The latest episode the storage was asked to keep. *)
Definition durable (calls : list ServiceCall) : option RateSignalEpisode :=
  fold_left (fun d c => match c with PersistRateEpisode e _ => Some e | _ => d end) calls
    (default None (to_option (load_active_rate_episode stored (vv_address vault)
                                (rg_id (vv_rate_group vault))))).

(** An episode started at this head for this vault. *)
Definition started_now (e : RateSignalEpisode) : Prop :=
  re_state e = Detecting /\ re_detection_block e = pw_head projection /\
  exists signal expires_at, detect false = Some signal /\
    entry_spread strategy < rg_spread signal /\
    start (vv_address vault) (rg_id (vv_rate_group vault)) (rg_branch signal) (pw_head projection)
      (vg_revision config) (ctx_dynamic_topology_revision (ev_context snapshot))
      (rg_evaluation_markets signal) (rg_controllable_markets signal) (rg_source_markets signal)
      (rg_destination_markets signal) now expires_at = Ok e.

(** No episode is open. *)
Definition closed (d : option RateSignalEpisode) : Prop :=
  forall e, d = Some e -> re_state e = Complete.

(** What each call may be, after the calls before it. *)
Definition call_allowed (before : list ServiceCall) (c : ServiceCall) : Prop :=
  match c with
  | PersistRateEpisode e _ =>
      (closed (durable before) /\ started_now e \/
       exists d, durable before = Some d /\ rtc signal_step d e) /\
      (re_state e = Persistent -> exists d block persistent_seconds span,
         durable before = Some d /\ re_state d = Immediate /\
         re_confirmation_block d = Some block /\
         duration_seconds_ceil (sg_persistent_confirmation_duration_millis strategy)
           = Ok persistent_seconds /\
         duration_seconds_ceil (sg_minimum_independent_event_span_millis strategy) = Ok span /\
         persistent_confirmed d (blk_timestamp block + persistent_seconds) span = true)
  | PersistPlan p _ => exists e prepared, durable before = Some e /\
      (re_state e = Immediate \/ re_state e = Persistent) /\
      build_validated_rate_plan config vault snapshot projection revision e = Ok (Some prepared) /\
      vp_plan (prp_plan prepared) = p
  | RecordEpisode e => durable before = Some e
  | RecordPlan p => last before = Some (PersistPlan p now)
  | RecordPlanning (Some id) episode_id => exists p, last before = Some (RecordPlan p) /\
      id = pl_plan_id p /\ episode_id = re_episode_id <$> durable before
  | _ => True
  end.

Definition trace_ok (calls : list ServiceCall) : Prop :=
  forall before c after, calls = before ++ c :: after -> call_allowed before c.

Lemma trace_ok_snoc calls c :
  trace_ok calls -> call_allowed calls c -> trace_ok (calls ++ [c]).
Proof.
  intros Ht Hc before d after He. destruct after as [|x after _] using rev_ind.
  - apply app_inj_tail in He as [-> ->]. done.
  - rewrite app_comm_cons, app_assoc in He. apply app_inj_tail in He as [He _]. by eapply Ht.
Qed.

Lemma durable_snoc calls c :
  durable (calls ++ [c]) = match c with PersistRateEpisode e _ => Some e | _ => durable calls end.
Proof. unfold durable. rewrite fold_left_app. by destruct c. Qed.

(** A computation from traces satisfying [P] keeps traces allowed, and its
    result satisfies [Q]. *)
Definition spec {A} (P : list ServiceCall -> Prop) (c : Service A)
    (Q : list ServiceCall -> A -> Prop) : Prop :=
  forall calls, trace_ok calls -> P calls ->
    trace_ok (fst (c calls)) /\ forall a, snd (c calls) = Ok a -> Q (fst (c calls)) a.

Lemma spec_ret {A} (P : list ServiceCall -> Prop) (a : A) (Q : list ServiceCall -> A -> Prop) :
  (forall calls, P calls -> Q calls a) -> spec P (mret a) Q.
Proof. intros H calls Ht Hp. split; [done|]. cbn. intros ? [= <-]. auto. Qed.

Lemma spec_bind {A B} P (c : Service A) (f : A -> Service B) R Q :
  spec P c R -> (forall a, spec (fun calls => R calls a) (f a) Q) -> spec P (c ≫= f) Q.
Proof.
  intros Hc Hf calls Ht Hp. destruct (Hc calls Ht Hp) as [Ht' Hr].
  unfold mbind, service_bind. destruct (c calls) as [calls' [a|e]]; cbn in *; [|done].
  by apply Hf; [|apply Hr].
Qed.

Lemma spec_lift_bind {A B} P (r : result PlanningServiceError A) (f : A -> Service B) Q :
  (forall a, r = Ok a -> spec P (f a) Q) -> spec P (lift r ≫= f) Q.
Proof.
  intros H calls Ht Hp. unfold mbind, service_bind, lift. destruct r as [a|e]; [by apply H|done].
Qed.

Lemma spec_call {A} P (c : ServiceCall) (r : list ServiceCall -> result PlanningServiceError A)
    (Q : list ServiceCall -> Prop) :
  (forall calls, P calls -> call_allowed calls c /\ Q (calls ++ [c])) ->
  spec P (fun calls => (calls ++ [c], r calls)) (fun calls _ => Q calls).
Proof.
  intros H calls Ht Hp. destruct (H calls Hp). cbn. split; [by apply trace_ok_snoc|done].
Qed.

Lemma spec_weaken {A} P (c : Service A) (Q Q' : list ServiceCall -> A -> Prop) :
  spec P c Q' -> (forall calls a, Q' calls a -> Q calls a) -> spec P c Q.
Proof. intros H Hq calls Ht Hp. destruct (H calls Ht Hp). split; auto. Qed.

Lemma spec_stop {A} P id :
  spec P (clear_and_stop (A := A) id) (fun _ r => r = None).
Proof.
  unfold clear_and_stop, clear_plan. eapply spec_bind; [|intros []; by apply spec_ret].
  eapply spec_bind; [apply (spec_call _ _ _ (fun _ => True)); done|].
  intros []. by apply (spec_call _ _ _ (fun _ => True)).
Qed.

Lemma spec_pre {A} P P' (c : Service A) Q :
  (forall calls, P calls -> P' calls) -> spec P' c Q -> spec P c Q.
Proof. intros Hp H calls Ht Hc. apply H; auto. Qed.

(** The episode in hand is the durable one. *)
Definition held (calls : list ServiceCall) (r : option RateSignalEpisode) : Prop :=
  forall e, r = Some e -> durable calls = Some e /\ re_state e <> Complete.

Lemma spec_held {A} e (c : Service A) Q :
  (re_state e <> Complete -> spec (fun calls => durable calls = Some e) c Q) ->
  spec (fun calls => held calls (Some e)) c Q.
Proof. intros H calls Ht Hh. destruct (Hh e eq_refl). by apply H. Qed.

(** The storage only loads open episodes of the group. *)
Lemma load_active_Some s v g e :
  load_active_rate_episode s v g = Ok (Some e) ->
  re_state e <> Complete /\ re_vault e = v /\ re_rate_group e = g.
Proof.
  unfold load_active_rate_episode.
  destruct (List.filter (active_in v g) (js_rate_episodes s)) as [|x [|y l]] eqn:E; try done.
  intros [= <-]. assert (In x (List.filter (active_in v g) (js_rate_episodes s))) as Hx
    by (rewrite E; by left).
  apply List.filter_In in Hx as [_ Hx]. unfold active_in in Hx. bool_spec Hx. tauto.
Qed.

Lemma loaded_open loaded :
  load_active_rate_episode stored (vv_address vault) (rg_id (vv_rate_group vault)) = Ok loaded ->
  held [] loaded.
Proof.
  intros H e ->. split; [unfold durable; by rewrite H|]. by destruct (load_active_Some _ _ _ _ H).
Qed.

(** Persisting an episode, then telling the API about it. *)
Lemma spec_persist P e :
  (forall calls, P calls -> call_allowed calls (PersistRateEpisode e now)) ->
  spec P (persist_rate_episode e) (fun calls _ => durable calls = Some e).
Proof.
  intros H. apply spec_call. intros calls Hp. split; [by apply H|]. by rewrite durable_snoc.
Qed.

Lemma spec_record e :
  spec (fun calls => durable calls = Some e) (record_episode e)
    (fun calls _ => durable calls = Some e).
Proof.
  apply (spec_call _ _ (fun _ => Ok tt) (fun calls => durable calls = Some e)).
  intros calls Hd. split; [done|]. by rewrite durable_snoc.
Qed.

(** Persist, record, return. *)
Lemma spec_persist_record {A} P e (k : A) Q :
  (forall calls, P calls -> call_allowed calls (PersistRateEpisode e now)) ->
  (forall calls, durable calls = Some e -> Q calls k) ->
  spec P (_ ← persist_rate_episode e; _ ← record_episode e; mret k) Q.
Proof.
  intros Hp Hk. eapply spec_bind; [by apply spec_persist|]. intros [].
  eapply spec_bind; [apply spec_record|]. intros []. by apply spec_ret.
Qed.

Lemma complete_allowed calls d e reason :
  durable calls = Some d -> rtc signal_step d e ->
  call_allowed calls (PersistRateEpisode (complete e reason) now).
Proof.
  intros Hd Hs. cbn. split; [|done]. right. exists d. split; [done|].
  eapply rtc_r; [exact Hs|]. constructor.
Qed.

Lemma settle_spec loaded signal :
  spec (fun calls => durable calls = loaded /\ held calls loaded)
    (settle_episode loaded signal)
    (fun calls r => held calls r /\ (r = None -> closed (durable calls))).
Proof.
  unfold settle_episode. destruct loaded as [active|].
  2: { apply spec_ret. intros calls [-> _]. by split. }
  destruct (stop_reason active signal) as [reason|].
  - apply spec_persist_record.
    + intros calls [Hd _]. by eapply complete_allowed.
    + intros calls Hd. split; [done|]. intros _ e He. rewrite Hd in He. by injection He as <-.
  - apply spec_ret. intros calls [_ Hh]. split; [|done]. intros e [= <-]. by apply Hh.
Qed.

Lemma enter_spec kept :
  spec (fun calls => held calls kept /\ (kept = None -> closed (durable calls)))
    (enter_episode kept) held.
Proof.
  unfold enter_episode. destruct kept as [e|]; [apply spec_ret; by intros calls []|].
  destruct (detect false) as [signal|] eqn:Es; [|by apply spec_ret].
  destruct (_ && _) eqn:E; [|by apply spec_ret]. bool_spec E. destruct E as [E _].
  apply spec_lift_bind. intros lifetime _. apply spec_lift_bind. intros expires _.
  apply spec_lift_bind. intros e Est%map_err_Ok. pose proof Est as Hst. unfold start in Hst.
  destruct (_ || _); [done|]. cbv zeta in Hst. injection Hst as Hst.
  apply spec_persist_record.
  - intros calls [_ Hc]. split; [|by rewrite <-Hst]. left. split; [by apply Hc|].
    split; [by rewrite <-Hst|]. split; [by rewrite <-Hst|]. exists signal, expires.
    unfold spread_exceeds_entry in E. bool_spec E. done.
  - intros calls Hd e' [= <-]. split; [done|]. by rewrite <-Hst.
Qed.

(** An observation of a Detecting episode leaves it Detecting or Immediate. *)
Lemma observe_state e block required baseline :
  re_state e = Detecting ->
  re_state (fst (observe_short_confirmation e block required baseline)) = Detecting \/
  re_state (fst (observe_short_confirmation e block required baseline)) = Immediate.
Proof.
  intros He.
  assert (forall e, re_state e = Detecting ->
    re_state (fst (confirm_true (confirm_short e block baseline))) = Detecting \/
    re_state (fst (confirm_true (confirm_short e block baseline))) = Immediate) as Hc.
  { intros e0 H0. unfold confirm_short. rewrite H0. rewrite bool_decide_eq_false_2 by done.
    rewrite bool_decide_eq_true_2 by done. cbn [negb orb]. destruct (_ =? 0); cbn; auto. }
  unfold observe_short_confirmation. rewrite He. rewrite bool_decide_eq_false_2 by done.
  rewrite bool_decide_eq_true_2 by done. cbn [negb]. destruct (_ <=? _); [by apply Hc|].
  destruct (bool_decide _); [by left|]. destruct (_ || _); [by left|]. cbv zeta.
  destruct (_ ≫= _); [|by left]. destruct (_ <=? _); [by apply Hc|by left].
Qed.

Lemma confirm_spec e signal :
  re_state e <> Complete -> (forall s, signal = Some s -> u256 (rg_desired_movement s)) ->
  spec (fun calls => durable calls = Some e) (confirm_episode e signal) held.
Proof.
  intros Hne Hu. unfold confirm_episode. destruct (negb _) eqn:E; bool_spec E.
  { apply spec_ret. intros calls Hd e' [= <-]. done. }
  destruct signal as [current|]; [|by eapply spec_weaken; [apply spec_stop|intros calls a ->]].
  pose proof (observe_state e (pw_head projection) (sg_confirmation_opportunities strategy)
    (rg_desired_movement current) E) as Hst.
  pose proof (signal_observe e (pw_head projection) (sg_confirmation_opportunities strategy)
    (rg_desired_movement current) (Hu current eq_refl)) as Hstep.
  destruct (observe_short_confirmation _ _ _ _) as [e' r]. cbn [fst] in Hst, Hstep.
  destruct r as [ok|err]; [|destruct err; try by intros calls Ht _].
  - eapply spec_bind; [apply spec_persist|intros []; apply spec_ret].
    + intros calls Hd. split; [|intros Hp; destruct Hst; congruence]. right. exists e.
      split; [done|]. by apply rtc_once.
    + intros calls Hd e'' [= <-]. split; [done|]. destruct Hst as [-> | ->]; done.
  - eapply spec_bind; [apply spec_persist|intros []].
    + intros calls Hd. eapply complete_allowed; [exact Hd|by apply rtc_once].
    + eapply spec_bind; [apply spec_record|intros []].
      eapply spec_weaken; [apply spec_stop|by intros calls a ->].
Qed.

Lemma unlock_spec e :
  re_state e <> Detecting -> re_state e <> Complete ->
  spec (fun calls => durable calls = Some e) (unlock_episode e)
    (fun calls r => forall e', r = Some e' ->
       durable calls = Some e' /\ (re_state e' = Immediate \/ re_state e' = Persistent)).
Proof.
  intros Hd Hc. unfold unlock_episode. destruct (negb _) eqn:E; bool_spec E.
  { apply spec_ret. intros calls He e' [= <-]. split; [done|]. destruct (re_state e); auto; done. }
  apply spec_lift_bind. intros seconds Hsec. apply spec_lift_bind. intros span Hspan.
  destruct (re_confirmation_block e) as [block|] eqn:Eb;
    [|eapply spec_weaken; [apply spec_stop|by intros calls a ->]].
  apply spec_lift_bind. intros at_ [-> _]%ok_or_Ok%checked_add_Some.
  destruct (persistent_confirmed _ _ _) eqn:Ep; [|apply spec_ret; intros calls He e' [= <-]; auto].
  pose proof (signal_unlock e) as Hstep. unfold unlock_persistent in *. rewrite E in *.
  rewrite bool_decide_eq_false_2 in * by done. cbn [fst] in Hstep.
  apply spec_lift_bind. intros [] _. apply spec_persist_record.
  - intros calls He. split; [right; exists e; split; [done|by apply rtc_once]|].
    intros _. by exists e, block, seconds, span.
  - intros calls He e' [= <-]. split; [done|]. by right.
Qed.

Lemma plan_spec e :
  re_state e = Immediate \/ re_state e = Persistent ->
  spec (fun calls => durable calls = Some e) (plan_episode e)
    (fun calls r => forall p, r = Some p -> exists before prepared,
       calls = before ++ [PersistPlan p now; RecordPlan p;
                          RecordPlanning (Some (pl_plan_id p)) (Some (re_episode_id e))] /\
       durable before = Some e /\ p = vp_plan (prp_plan prepared) /\
       build_validated_rate_plan config vault snapshot projection revision e = Ok (Some prepared)).
Proof.
  intros Hst. unfold plan_episode. apply spec_lift_bind. intros [prepared|] Hb;
    [|eapply spec_weaken; [apply spec_stop|by intros calls a ->]].
  set (p := vp_plan (prp_plan prepared)). unfold publish_plan.
  eapply spec_bind; [apply (spec_call _ _ _ (fun calls => exists before,
    calls = before ++ [PersistPlan p now] /\ durable before = Some e))|].
  { intros calls Hd. split; [by exists e, prepared|]. by exists calls. }
  intros []. eapply spec_bind; [apply (spec_call _ _ _ (fun calls => exists before,
    calls = before ++ [PersistPlan p now; RecordPlan p] /\ durable before = Some e))|].
  { intros calls (before & -> & Hd). split; [unfold call_allowed; by rewrite last_snoc|]. exists before.
    by rewrite <-app_assoc. }
  intros accepted. destruct (negb accepted); [by apply spec_ret|].
  eapply spec_bind; [apply (spec_call _ _ _ (fun calls => exists before,
    calls = before ++ [PersistPlan p now; RecordPlan p;
      RecordPlanning (Some (pl_plan_id p)) (Some (re_episode_id e))] /\ durable before = Some e))|].
  { intros calls (before & -> & Hd). split.
    - unfold call_allowed. exists p. change [PersistPlan p now; RecordPlan p] with ([PersistPlan p now] ++ [RecordPlan p]).
      rewrite app_assoc, last_snoc, !durable_snoc, Hd. done.
    - exists before. by rewrite <-app_assoc. }
  intros []. apply spec_ret. intros calls (before & -> & Hd) p' [= <-]. by exists before, prepared.
Qed.

Lemma refresh_spec :
  spec (fun calls => calls = []) refresh_rate_plan (fun calls r => forall p, r = Some p ->
    exists before e prepared,
      calls = before ++ [PersistPlan p now; RecordPlan p;
                         RecordPlanning (Some (pl_plan_id p)) (Some (re_episode_id e))] /\
      durable before = Some e /\ (re_state e = Immediate \/ re_state e = Persistent) /\
      p = vp_plan (prp_plan prepared) /\
      build_validated_rate_plan config vault snapshot projection revision e = Ok (Some prepared)).
Proof.
  unfold refresh_rate_plan, load_episode. apply spec_lift_bind. intros loaded Hl.
    destruct storage_loads; [|done]. apply map_err_Ok in Hl.
    eapply spec_bind; [eapply spec_pre; [|apply settle_spec]|intros kept].
    { intros calls ->. split; [by unfold durable; rewrite Hl|]. by apply loaded_open. }
    eapply spec_bind; [apply enter_spec|intros entered].
    destruct entered as [e|]; [|eapply spec_weaken; [apply spec_stop|by intros calls a ->]].
    apply spec_held. intros He.
    eapply spec_bind; [apply confirm_spec; [exact He|]|intros confirmed].
    { intros s Hs. by eapply signal_movement_range. }
    destruct confirmed as [e'|]; [|by apply spec_ret]. clear e He.
    apply spec_held. intros He. eapply spec_bind; [apply spec_record|intros []].
    destruct (bool_decide _) eqn:Ed; bool_spec Ed;
      [eapply spec_weaken; [apply spec_stop|by intros calls a ->]|].
    eapply spec_bind; [by apply unlock_spec|intros unlocked].
    destruct unlocked as [e|]; [|by apply spec_ret].
    intros calls Ht Hp. destruct (Hp e eq_refl) as [Hd Hst].
    destruct (plan_spec e Hst calls Ht Hd) as [Ht' Hq]. split; [exact Ht'|].
    intros r Hr p Hp'. destruct (Hq r Hr p Hp') as (before & prepared & H1 & H2 & H3 & H4).
    by exists before, e, prepared.
Qed.

Lemma refresh_trace_ok : trace_ok (fst (refresh_rate_plan [])).
Proof. apply refresh_spec; [by intros [] c after|done]. Qed.

(** Whatever the services answer, one refresh of the rate plan only makes
    calls the program is allowed to make. Every episode it persists is started
    at the current head while no episode is open, or reached from the durable
    one by steps of the episode machine; it unlocks the persistent tranche only
    for a confirmed Immediate episode whose signal still matches; a plan is
    persisted only if the firewall admitted it for the durable, confirmed
    episode, shown to the operator only once persisted, and entered in the
    runtime registry only once shown. A returned plan ends such a sequence. *)
Theorem refresh_rate_plan_sound :
  let run := refresh_rate_plan [] in
  trace_ok (fst run) /\
  (forall p, snd run = Ok (Some p) -> exists before e prepared,
     fst run = before ++ [PersistPlan p now; RecordPlan p;
                          RecordPlanning (Some (pl_plan_id p)) (Some (re_episode_id e))] /\
     durable before = Some e /\ (re_state e = Immediate \/ re_state e = Persistent) /\
     p = vp_plan (prp_plan prepared) /\
     build_validated_rate_plan config vault snapshot projection revision e = Ok (Some prepared)).
Proof.
  cbv zeta. destruct (refresh_spec []) as [Ht Hq]; [by intros [] c after|done|].
  split; [exact Ht|]. intros p Hp. by apply (Hq (Some p)).
Qed.

End Refresh.
