(* ===== verification/ProtocolLock.v ===== *)
(** * Protocol lock

    [protocol_lock.rs] and [contracts/{code_identity,selectors}.rs]: the pinned
    deployment identities, the enumeration of unset inputs, the validation of a
    lock into its sorted, digested form, and the check of runtime bytecode
    against it. The hexadecimal parsers and the JSON serializer belong to the
    libraries the source calls and are parameters. *)
From Stdlib Require Import ZArith Lia String Ascii.
From stdpp Require Import base gmap sets strings sorting countable list.
From S2P Require Import Prelude.
From S2P Require Import Text.
From S2P Require Import Domain.
From S2P Require Import Calldata.
Open Scope Z_scope.

Definition PROTOCOL_LOCK_SCHEMA_VERSION : Z := 1.

Inductive IdentityKind : Type :=
  | IkVaultV2 | IkMorphoSingleton | IkAdaptiveCurveIrm | IkDirectAdapter
  | IkMorphoVaultV1Adapter | IkMorphoVaultV1 | IkMulticall3 | IkAssetToken | IkGate
  | IkAdapterRegistry.
#[global] Instance IdentityKind_eq_dec : EqDecision IdentityKind.
Proof. solve_decision. Defined.

Inductive ProxyPolicy : Type := RejectProxy | PinnedProxy.
#[global] Instance ProxyPolicy_eq_dec : EqDecision ProxyPolicy.
Proof. solve_decision. Defined.

Record ProxyImplementationIdentity : Type := mkProxyImplementationIdentity {
  xi_storage_slot : string;
  xi_address : string;
  xi_runtime_code_hash : string;
}.

Record ContractIdentity : Type := mkContractIdentity {
  ci_name : string;
  ci_kind : IdentityKind;
  ci_address : string;
  ci_runtime_code_hash : string;
  ci_repository : string;
  ci_git_commit : string;
  ci_source_path : string;
  ci_compiler_version : string;
  ci_optimizer_enabled : bool;
  ci_optimizer_runs : Z;
  ci_constructor_immutables : gmap string string;
  ci_proxy_policy : ProxyPolicy;
  ci_proxy_implementation : option ProxyImplementationIdentity;
  ci_behavior_profile : string;
}.

Record RemoteSignerIdentity : Type := mkRemoteSignerIdentity {
  si_service_identity : string;
  si_client_identity_env : string;
  si_authentication_secret_env : string;
}.

Record ProtocolLock : Type := mkProtocolLock {
  pk_schema_version : Z;
  pk_chain_id : Z;
  pk_contract : list ContractIdentity;
  pk_remote_signer : RemoteSignerIdentity;
}.

Record ValidatedProxyImplementationIdentity : Type := mkValidatedProxyImplementationIdentity {
  vx_storage_slot : B256;
  vx_address : Address;
  vx_runtime_code_hash : B256;
}.

Record ValidatedContractIdentity : Type := mkValidatedContractIdentity {
  vi_name : string;
  vi_kind : IdentityKind;
  vi_address : Address;
  vi_runtime_code_hash : B256;
  vi_repository : string;
  vi_git_commit : string;
  vi_source_path : string;
  vi_compiler_version : string;
  vi_optimizer_enabled : bool;
  vi_optimizer_runs : Z;
  vi_constructor_immutables : gmap string string;
  vi_proxy_policy : ProxyPolicy;
  vi_proxy_implementation : option ValidatedProxyImplementationIdentity;
  vi_behavior_profile : string;
}.

Record ValidatedProtocolLock : Type := mkValidatedProtocolLock {
  vl_schema_version : Z;
  vl_chain_id : Z;
  vl_contracts : list ValidatedContractIdentity;
  vl_remote_signer : RemoteSignerIdentity;
  vl_digest : B256;
}.

Inductive ProtocolLockError : Type :=
  | LockIo
  | LockParse
  | LockValidation (field reason : string)
  | LockCanonical.

Definition invalid (field reason : string) : ProtocolLockError := LockValidation field reason.

(** [Address::from_str] and [B256::from_str]. *)
Class HexParse : Type := {
  address_from_str : string -> option Address;
  b256_from_str : string -> option B256;
}.

(** [serde_json::to_vec] of the canonical lock. *)
Class LockJson : Type :=
  lock_json : Z -> Z -> list ValidatedContractIdentity -> RemoteSignerIdentity -> option Bytes.

Local Open Scope string_scope.
Local Open Scope list_scope.
Local Open Scope Z_scope.

(** ** Unset inputs *)

Definition is_unset (value : string) : bool :=
  bool_decide (trim value = "") || eq_ignore_ascii_case (trim value) "unset".


Definition missing_proxy_inputs (prefix : string) (c : ContractIdentity) : list string :=
  match ci_proxy_policy c, ci_proxy_implementation c with
  | PinnedProxy, Some proxy =>
      (if is_unset (xi_storage_slot proxy)
       then [prefix +:+ ".proxy_implementation.storage_slot"] else []) ++
      (if is_unset (xi_address proxy) then [prefix +:+ ".proxy_implementation.address"] else []) ++
      (if is_unset (xi_runtime_code_hash proxy)
       then [prefix +:+ ".proxy_implementation.runtime_code_hash"] else [])
  | PinnedProxy, None => [prefix +:+ ".proxy_implementation"]
  | RejectProxy, _ => []
  end.

Definition missing_contract_inputs (c : ContractIdentity) : list string :=
  let prefix := "contract[" +:+ ci_name c +:+ "]" in
  (if is_unset (ci_address c) then [prefix +:+ ".address"] else []) ++
  (if is_unset (ci_runtime_code_hash c) then [prefix +:+ ".runtime_code_hash"] else []) ++
  (if is_unset (ci_source_path c) || eq_ignore_ascii_case (ci_source_path c) "deployment-specific"
   then [prefix +:+ ".source_path"] else []) ++
  (if is_unset (ci_compiler_version c) then [prefix +:+ ".compiler_version"] else []) ++
  (if ci_optimizer_enabled c && (ci_optimizer_runs c =? 0)
   then [prefix +:+ ".optimizer_runs"] else []) ++
  ((fun e => prefix +:+ ".constructor_immutables." +:+ e.1) <$>
     filter (fun e => is_unset e.2) (map_to_list (ci_constructor_immutables c))) ++
  missing_proxy_inputs prefix c.

Definition missing_deployment_inputs (lock : ProtocolLock) : list string :=
  let signer := pk_remote_signer lock in
  merge_sort String.le
    ((pk_contract lock ≫= missing_contract_inputs) ++
     (if is_unset (si_service_identity signer) then ["remote_signer.service_identity"] else []) ++
     (if is_unset (si_client_identity_env signer)
      then ["remote_signer.client_identity_env"] else []) ++
     (if is_unset (si_authentication_secret_env signer)
      then ["remote_signer.authentication_secret_env"] else [])).

(** ** Validation *)

Definition validate_commit (commit : string) : result ProtocolLockError unit :=
  if negb (String.length commit =? 40)%nat
     || negb (forallb is_ascii_hexdigit (list_ascii_of_string commit))
  then Err (invalid "contract.git_commit" "commit must be exactly 40 hexadecimal characters")
  else Ok tt.

Section Validate.
Context `{HK : Keccak} `{HP : HexParse} `{HJ : LockJson}.

Definition protocol_lock_digest (schema_version chain_id : Z)
    (contracts : list ValidatedContractIdentity) (remote_signer : RemoteSignerIdentity)
    : result ProtocolLockError B256 :=
  text ← ok_or (lock_json schema_version chain_id contracts remote_signer) LockCanonical;
  Ok (keccak256 text).

Definition validate_proxy (address : Address) (policy : ProxyPolicy)
    (proxy : option ProxyImplementationIdentity)
    : result ProtocolLockError (option ValidatedProxyImplementationIdentity) :=
  match policy, proxy with
  | RejectProxy, None => Ok None
  | RejectProxy, Some _ =>
      Err (invalid "contract.proxy_implementation"
                   "direct deployments cannot declare a proxy implementation")
  | PinnedProxy, None =>
      Err (invalid "contract.proxy_implementation"
                   "pinned proxies require slot, address and implementation hash")
  | PinnedProxy, Some proxy =>
      storage_slot ← ok_or (b256_from_str (xi_storage_slot proxy))
        (invalid "contract.proxy_implementation.storage_slot" "invalid storage slot");
      implementation ← ok_or (address_from_str (xi_address proxy))
        (invalid "contract.proxy_implementation.address" "invalid implementation address");
      implementation_hash ← ok_or (b256_from_str (xi_runtime_code_hash proxy))
        (invalid "contract.proxy_implementation.runtime_code_hash"
                 "invalid implementation runtime hash");
      if (storage_slot =? 0) || (implementation =? 0) || (implementation =? address)
         || (implementation_hash =? 0)
      then Err (invalid "contract.proxy_implementation"
                        "slot, distinct implementation and runtime hash must be nonzero")
      else Ok (Some (mkValidatedProxyImplementationIdentity storage_slot implementation
                       implementation_hash))
  end.

(** The loop's locals. *)
Record LockScan : Type := mkLockScan {
  ls_names : gset string;
  ls_addresses : gset Address;
  ls_kinds : list IdentityKind;
  ls_contracts : list ValidatedContractIdentity;
}.

Definition scan_contract (scan : LockScan) (item : ContractIdentity)
    : result ProtocolLockError LockScan :=
  if bool_decide (ci_name item ∈ ls_names scan)
  then Err (invalid "contract.name" "identity name is duplicated")
  else
    address ← ok_or (address_from_str (ci_address item))
      (invalid "contract.address" "invalid EVM address");
    if address =? 0
    then Err (invalid "contract.address" "deployment address must be nonzero")
    else if bool_decide (address ∈ ls_addresses scan)
    then Err (invalid "contract.address" "deployment address is duplicated")
    else
      runtime_code_hash ← ok_or (b256_from_str (ci_runtime_code_hash item))
        (invalid "contract.runtime_code_hash" "invalid runtime code hash");
      if runtime_code_hash =? 0
      then Err (invalid "contract.runtime_code_hash" "runtime code hash must be nonzero")
      else
        _ ← validate_commit (ci_git_commit item);
        if negb (starts_with (ci_repository item) "https://github.com/")
        then Err (invalid "contract.repository"
                          "official repository must use a pinned HTTPS GitHub origin")
        else if is_empty (ci_source_path item) || is_empty (ci_compiler_version item)
                || is_empty (ci_behavior_profile item)
        then Err (invalid "contract"
                          "source path, compiler version and behavior profile are required")
        else
          proxy_implementation ←
            validate_proxy address (ci_proxy_policy item) (ci_proxy_implementation item);
          Ok (mkLockScan ({[ci_name item]} ∪ ls_names scan) ({[address]} ∪ ls_addresses scan)
                (ci_kind item :: ls_kinds scan)
                (ls_contracts scan ++
                 [mkValidatedContractIdentity (ci_name item) (ci_kind item) address
                    runtime_code_hash (ci_repository item) (ci_git_commit item)
                    (ci_source_path item) (ci_compiler_version item)
                    (ci_optimizer_enabled item) (ci_optimizer_runs item)
                    (ci_constructor_immutables item) (ci_proxy_policy item)
                    proxy_implementation (ci_behavior_profile item)])).

Definition required_kinds : list IdentityKind :=
  [IkVaultV2; IkMorphoSingleton; IkAdaptiveCurveIrm; IkDirectAdapter; IkMulticall3; IkAssetToken].

Definition name_le (a b : ValidatedContractIdentity) : Prop := String.le (vi_name a) (vi_name b).
#[global] Instance name_le_dec : RelDecision name_le.
Proof. intros a b. unfold name_le. apply _. Defined.

Definition validate_lock (lock : ProtocolLock)
    : result ProtocolLockError ValidatedProtocolLock :=
  let signer := pk_remote_signer lock in
  if negb (pk_schema_version lock =? PROTOCOL_LOCK_SCHEMA_VERSION)
  then Err (invalid "schema_version" "unsupported lock schema")
  else if pk_chain_id lock =? 0
  then Err (invalid "chain_id" "chain ID must be nonzero")
  else if is_empty (si_service_identity signer) || is_empty (si_client_identity_env signer)
          || is_empty (si_authentication_secret_env signer)
  then Err (invalid "remote_signer" "all remote signer identity references are required")
  else
    scan ← try_fold scan_contract (mkLockScan ∅ ∅ [] []) (pk_contract lock);
    if negb (forallb (fun required => bool_decide (required ∈ ls_kinds scan)) required_kinds)
    then Err (invalid "contract.kind" "required deployment identity is missing")
    else
      let contracts := merge_sort name_le (ls_contracts scan) in
      digest ← protocol_lock_digest (pk_schema_version lock) (pk_chain_id lock) contracts signer;
      Ok (mkValidatedProtocolLock (pk_schema_version lock) (pk_chain_id lock) contracts signer
            digest).

(** ** Runtime code and selectors *)

Inductive CodeIdentityError : Type :=
  | EmptyCode (address : Address)
  | HashMismatch (address : Address) (expected observed : B256).

Definition verify_runtime_code (identity : ValidatedContractIdentity) (runtime_code : Bytes)
    : result CodeIdentityError unit :=
  match runtime_code with
  | [] => Err (EmptyCode (vi_address identity))
  | _ =>
      let observed := keccak256 runtime_code in
      if negb (observed =? vi_runtime_code_hash identity)
      then Err (HashMismatch (vi_address identity) (vi_runtime_code_hash identity) observed)
      else Ok tt
  end.

End Validate.

(** [contracts/selectors.rs]; the three selectors come from the bindings. *)
Definition ROUTINE_WRITE_ALLOWLIST `{VaultAbi} : list Bytes := [ALLOCATE; DEALLOCATE; MULTICALL].

Definition is_routine_write `{VaultAbi} (selector : Bytes) : bool :=
  bool_decide (selector ∈ ROUTINE_WRITE_ALLOWLIST).

(** ** What a validated lock promises *)

Section Validated.
Context `{HK : Keccak} `{HP : HexParse} `{HJ : LockJson}.

(** The reviewed proxy of an identity: none for a direct deployment, a
    nonzero slot and a distinct implementation otherwise. *)
Definition proxy_pinned (address : Address) (item : ContractIdentity)
    (proxy : option ValidatedProxyImplementationIdentity) : Prop :=
  match ci_proxy_policy item, ci_proxy_implementation item, proxy with
  | RejectProxy, None, None => True
  | PinnedProxy, Some raw, Some p =>
      b256_from_str (xi_storage_slot raw) = Some (vx_storage_slot p) /\
      address_from_str (xi_address raw) = Some (vx_address p) /\
      b256_from_str (xi_runtime_code_hash raw) = Some (vx_runtime_code_hash p) /\
      vx_storage_slot p <> 0 /\ vx_address p <> 0 /\ vx_address p <> address /\
      vx_runtime_code_hash p <> 0
  | _, _, _ => False
  end.

Definition commit_pinned (commit : string) : Prop :=
  String.length commit = 40%nat /\ Forall (fun c => is_ascii_hexdigit c = true)
                                     (list_ascii_of_string commit).

(** [v] is the parsed form of the acceptable raw identity [item]. *)
Definition identity_pinned (item : ContractIdentity) (v : ValidatedContractIdentity) : Prop :=
  address_from_str (ci_address item) = Some (vi_address v) /\ vi_address v <> 0 /\
  b256_from_str (ci_runtime_code_hash item) = Some (vi_runtime_code_hash v) /\
  vi_runtime_code_hash v <> 0 /\ commit_pinned (ci_git_commit item) /\
  starts_with (ci_repository item) "https://github.com/" = true /\
  ci_source_path item <> "" /\ ci_compiler_version item <> "" /\
  ci_behavior_profile item <> "" /\
  proxy_pinned (vi_address v) item (vi_proxy_implementation v) /\
  v = mkValidatedContractIdentity (ci_name item) (ci_kind item) (vi_address v)
        (vi_runtime_code_hash v) (ci_repository item) (ci_git_commit item)
        (ci_source_path item) (ci_compiler_version item) (ci_optimizer_enabled item)
        (ci_optimizer_runs item) (ci_constructor_immutables item) (ci_proxy_policy item)
        (vi_proxy_implementation v) (ci_behavior_profile item).

Definition lock_pinned (lock : ProtocolLock) (v : ValidatedProtocolLock) : Prop :=
  let signer := pk_remote_signer lock in
  pk_schema_version lock = PROTOCOL_LOCK_SCHEMA_VERSION /\ pk_chain_id lock <> 0 /\
  si_service_identity signer <> "" /\ si_client_identity_env signer <> "" /\
  si_authentication_secret_env signer <> "" /\
  vl_schema_version v = pk_schema_version lock /\ vl_chain_id v = pk_chain_id lock /\
  vl_remote_signer v = signer /\
  (exists identities, Forall2 identity_pinned (pk_contract lock) identities /\
     identities ≡ₚ vl_contracts v) /\
  NoDup (vi_name <$> vl_contracts v) /\ NoDup (vi_address <$> vl_contracts v) /\
  StronglySorted name_le (vl_contracts v) /\
  (forall kind, kind ∈ required_kinds -> exists c, c ∈ vl_contracts v /\ vi_kind c = kind) /\
  exists text,
    lock_json (vl_schema_version v) (vl_chain_id v) (vl_contracts v) (vl_remote_signer v)
      = Some text /\ vl_digest v = keccak256 text.

Lemma is_empty_true s : is_empty s = true <-> s = "".
Proof. destruct s; cbn; naive_solver. Qed.

Lemma validate_commit_Ok commit u : validate_commit commit = Ok u <-> commit_pinned commit.
Proof.
  unfold validate_commit, commit_pinned. destruct u.
  rewrite <-Nat.eqb_eq. destruct (String.length commit =? 40)%nat; cbn; [|naive_solver].
  rewrite Forall_forall. destruct (forallb _ _) eqn:E; cbn.
  - split; [|done]. intros _. split; [done|]. intros c Hc.
    rewrite forallb_forall in E. by apply E, list_elem_of_In.
  - split; [done|]. intros [_ H]. exfalso. apply not_true_iff_false in E. apply E.
    apply forallb_forall. intros c Hc. by apply H, list_elem_of_In.
Qed.

Lemma validate_proxy_Ok address item p :
  validate_proxy address (ci_proxy_policy item) (ci_proxy_implementation item) = Ok p <->
  proxy_pinned address item p.
Proof.
  unfold validate_proxy, proxy_pinned.
  destruct (ci_proxy_policy item), (ci_proxy_implementation item) as [raw|], p as [p|];
    try (split; intros H; inv_ok; done).
  - split.
    + intros H. step_ok H as a Ha. step_ok H as b Hb. step_ok H as c Hc. destruct (_ || _) eqn:E; [done|]. inv_ok. bool_spec E. cbn. naive_solver.
    + intros (-> & -> & -> & H1 & H2 & H3 & H4). cbn.
      rewrite !(proj2 (Z.eqb_neq _ _)) by done. by destruct p.
Qed.

(** The scan after an accepted contract. *)
Definition scan_push (scan : LockScan) (v : ValidatedContractIdentity) : LockScan :=
  mkLockScan ({[vi_name v]} ∪ ls_names scan) ({[vi_address v]} ∪ ls_addresses scan)
    (vi_kind v :: ls_kinds scan) (ls_contracts scan ++ [v]).

Lemma scan_contract_Ok scan item scan' :
  scan_contract scan item = Ok scan' <->
  exists v, identity_pinned item v /\ (vi_name v ∉ ls_names scan) /\
    (vi_address v ∉ ls_addresses scan) /\ scan' = scan_push scan v.
Proof.
  unfold scan_contract, identity_pinned. split.
  - case_bool_decide as Hn; [done|]. intros H. step_ok H as address Ha.
    destruct (address =? 0) eqn:Ez; [done|]. case_bool_decide as Had; [done|].
    step_ok H as hash Hh. destruct (hash =? 0) eqn:Eh; [done|]. step_ok H as u Hc.
    destruct (starts_with _ _) eqn:Er; [|done]. cbn [negb] in H.
    destruct (_ || _) eqn:Ee; [done|]. step_ok H as proxy Hp. inv_ok.
    apply validate_commit_Ok in Hc. apply validate_proxy_Ok in Hp. bool_spec Ez. bool_spec Eh.
    rewrite !orb_false_iff, <-!not_true_iff_false, !is_empty_true in Ee.
    eexists (mkValidatedContractIdentity _ _ _ _ _ _ _ _ _ _ _ _ _ _). cbn. naive_solver.
  - intros (v & (Ha & Hz & Hh & Hhz & Hc & Hr & H1 & H2 & H3 & Hp & Hv) & Hn & Had & ->).
    destruct v as [name kind address hash repo commit path compiler on runs imm policy proxy prof].
    cbn in *. injection Hv as -> -> -> -> -> -> -> -> -> -> ->.
    rewrite bool_decide_false, Ha by done. cbn.
    rewrite (proj2 (Z.eqb_neq _ _)), bool_decide_false, Hh by done. cbn.
    rewrite (proj2 (Z.eqb_neq _ _)) by done.
    rewrite (proj2 (validate_commit_Ok _ tt)) by done. cbn. rewrite Hr. cbn.
    rewrite <-!is_empty_true, !not_true_iff_false in H1, H2, H3. rewrite H1, H2, H3. cbn.
    apply validate_proxy_Ok in Hp. by rewrite Hp.
Qed.

(** The whole scan: distinct names and addresses, each contract accepted. *)
Lemma scan_contracts_Ok l scan scan' :
  try_fold scan_contract scan l = Ok scan' <->
  exists ids, Forall2 identity_pinned l ids /\
    NoDup (vi_name <$> ids) /\ (forall v, v ∈ ids -> vi_name v ∉ ls_names scan) /\
    NoDup (vi_address <$> ids) /\ (forall v, v ∈ ids -> vi_address v ∉ ls_addresses scan) /\
    scan' = foldl scan_push scan ids.
Proof.
  revert scan. induction l as [|item l IH]; intros scan; cbn [try_fold].
  - split.
    + intros H. inv_ok. exists []. cbn. split_and!; try constructor; set_solver.
    + intros (ids & Hf & _ & _ & _ & _ & ->). by inversion Hf.
  - split.
    + intros H. step_ok H as s1 H1. apply scan_contract_Ok in H1 as (v & Hv & Hn & Ha & ->).
      apply IH in H as (ids & Hf & Dn & Fn & Da & Fa & ->). exists (v :: ids).
      cbn in *. rewrite !NoDup_cons, !list_elem_of_fmap. set_solver.
    + intros (ids & Hf & Dn & Fn & Da & Fa & ->). inversion Hf as [|? v ? ids' Hv Hf']; subst.
      cbn in Dn, Da. apply NoDup_cons in Dn as [Nn Dn], Da as [Na Da].
      rewrite list_elem_of_fmap in Nn. rewrite list_elem_of_fmap in Na.
      rewrite (proj2 (scan_contract_Ok _ _ (scan_push scan v))) by (exists v; set_solver).
      cbn. apply IH. exists ids'. cbn. set_solver.
Qed.

Lemma foldl_scan_push scan ids :
  ls_contracts (foldl scan_push scan ids) = ls_contracts scan ++ ids /\
  ls_kinds (foldl scan_push scan ids) = reverse (vi_kind <$> ids) ++ ls_kinds scan.
Proof.
  revert scan. induction ids as [|v ids IH]; intros scan; cbn [foldl]; [by rewrite app_nil_r|].
  destruct (IH (scan_push scan v)) as [-> ->].
  rewrite fmap_cons, reverse_cons. cbn [scan_push ls_contracts ls_kinds].
  by rewrite <-!(assoc_L (++)).
Qed.

#[global] Instance name_le_total : Total name_le.
Proof. intros a b. unfold name_le. apply (total String.le). Qed.
#[global] Instance name_le_trans : Transitive name_le.
Proof. intros a b c. unfold name_le. apply (transitivity (R := String.le)). Qed.

(** Distinct names order the contracts in one way only. *)
Lemma sorted_by_name_unique l l' :
  NoDup (vi_name <$> l) -> l ≡ₚ l' -> StronglySorted name_le l' -> merge_sort name_le l = l'.
Proof.
  intros Hd Hp Hs. apply (StronglySorted_unique_strong name_le).
  - intros a b Ha Hb Hab Hba. rewrite merge_sort_Permutation in Ha. rewrite <-Hp in Hb.
    assert (E : vi_name a = vi_name b) by by apply (anti_symm String.le).
    by apply (NoDup_fmap_elem vi_name l).
  - apply (StronglySorted_merge_sort _).
  - done.
  - by rewrite merge_sort_Permutation.
Qed.

(** C18: validation accepts exactly the pinned locks: it returns [v] when, and
    only when, [v] holds the parsed identities of the lock in name order, with
    distinct names and addresses, every required kind, pinned sources, the
    reviewed proxies, and the digest of the canonical text. *)
Theorem validate_lock_exact lock v : validate_lock lock = Ok v <-> lock_pinned lock v.
Proof.
  unfold validate_lock, lock_pinned, protocol_lock_digest. split.
  - intros H. destruct (pk_schema_version lock =? _) eqn:Es; [|done].
    destruct (pk_chain_id lock =? 0) eqn:Ec; [done|]. cbn [negb] in H.
    destruct (_ || _) eqn:Er; [done|]. step_ok H as scan Hs.
    destruct (forallb _ _) eqn:Ek; [|done]. cbn [negb] in H.
    step_ok H as digest Hd. step_ok Hd as text Ht. inv_ok. bool_spec Es. bool_spec Ec.
    rewrite !orb_false_iff, <-!not_true_iff_false, !is_empty_true in Er.
    apply scan_contracts_Ok in Hs as (ids & Hf & Dn & _ & Da & _ & ->).
    destruct (foldl_scan_push (mkLockScan ∅ ∅ [] []) ids) as [Hc Hk]. cbn in Hc.
    rewrite Hk, app_nil_r in Ek. rewrite Hc in Ht |- *. cbn.
    split_and!; try (done || tauto).
    + exists ids. split; [done|]. by rewrite merge_sort_Permutation.
    + by rewrite merge_sort_Permutation.
    + by rewrite merge_sort_Permutation.
    + apply (StronglySorted_merge_sort _).
    + intros kind Hkind. rewrite forallb_forall in Ek.
      specialize (Ek kind (proj1 (list_elem_of_In _ _) Hkind)).
      apply bool_decide_eq_true, elem_of_reverse, list_elem_of_fmap in Ek as (c & -> & ?).
      exists c. by rewrite merge_sort_Permutation.
    + by exists text.
  - intros (-> & Hchain & H1 & H2 & H3 & Hv & Hvc & Hvs & (ids & Hf & Hp) & Dn & Da & Hs & Hk &
            text & Ht & Hd).
    rewrite <-Hp in Dn, Da. rewrite Z.eqb_refl, (proj2 (Z.eqb_neq _ _)) by done.
    rewrite <-!is_empty_true, !not_true_iff_false in H1, H2, H3. rewrite H1, H2, H3.
    cbn [orb negb]. rewrite (proj2 (scan_contracts_Ok _ _ (foldl scan_push (mkLockScan ∅ ∅ [] []) ids))).
    2: { exists ids. split_and!; [done|done|set_solver|done|set_solver|done]. }
    destruct (foldl_scan_push (mkLockScan ∅ ∅ [] []) ids) as [Hc Hk']. cbn in Hc.
    cbn [mbind result_bind]. rewrite Hk', app_nil_r, Hc.
    rewrite (sorted_by_name_unique ids (vl_contracts v)) by done.
    rewrite (proj2 (forallb_forall _ _)).
    2: { intros kind Hkind. apply list_elem_of_In, Hk in Hkind as (c & Hc' & <-).
         apply bool_decide_eq_true, elem_of_reverse, list_elem_of_fmap.
         exists c. by rewrite Hp. }
    cbn. rewrite Hvc, Hv, Hvs in Ht. rewrite Ht. cbn.
    rewrite <-Hd, <-Hv, <-Hvc, <-Hvs. by destruct v.
Qed.
End Validated.
