(* ===== verification/Actor.v ===== *)
(** * The storage commands

    The read-only commands of [storage/actor.rs], and the dispatch of the
    mutating ones around one atomic commit. *)
From Stdlib Require Import ZArith Lia List Bool String.
From stdpp Require Import base gmap sets strings list sorting.
From S2P Require Import Prelude.
From S2P Require Import Domain.
From S2P Require Import Episodes.
From S2P Require Import Models.
From S2P Require Import Storage.
Open Scope Z_scope.

(** ** Storage queries

    The read-only commands of [storage/actor.rs]: what each answers on the
    durable state. The state-changing commands are in [Storage]; the larger
    queries with an index of their own (unresolved lanes, pending conformance
    and reconciliation, spending and movement budgets) are there too. *)

(** [iter().max_by_key(key)]: the last element of maximal key. *)
Fixpoint max_by_key {A} (key : A -> list Z) (l : list A) : option A :=
  match l with
  | [] => None
  | x :: l =>
      match max_by_key key l with
      | None => Some x
      | Some y => if lex_lt (key y) (key x) then Some x else Some y
      end
  end.

(** ** Canonical chain *)

Definition load_cursor (s : JsonState) (chain_id : Z) : option BlockRef :=
  js_chain_cursors s !! chain_id.

Definition load_canonical_block (s : JsonState) (chain_id number : Z) : option BlockRef :=
  cb_block <$> find (fun record => (cb_chain_id record =? chain_id)
                                   && (blk_number (cb_block record) =? number))
                 (js_canonical_blocks s).

Definition load_canonical_blocks (s : JsonState) (chain_id from_block to_block : Z)
    : result StorageError (list BlockRef) :=
  if to_block <? from_block then Err (Invariant "canonical block range is reversed")
  else Ok (sort_by_key (fun block => [blk_number block])
    (cb_block <$> List.filter (fun record =>
       (cb_chain_id record =? chain_id) && (from_block <=? blk_number (cb_block record))
       && (blk_number (cb_block record) <=? to_block)) (js_canonical_blocks s))).

Definition count_execution_opportunities (s : JsonState) (chain_id from_exclusive to_inclusive : Z)
    (required_gas_limit : option Z) : result StorageError Z :=
  if to_inclusive <? from_exclusive
  then Err (Invariant "execution opportunity range is reversed")
  else
    let count := Z.of_nat (length (List.filter (fun record =>
      (cb_chain_id record =? chain_id) && (from_exclusive <? blk_number (cb_block record))
      && (blk_number (cb_block record) <=? to_inclusive)
      && match required_gas_limit with
         | None => true
         | Some limit => blk_gas_limit (cb_block record) =? limit
         end) (js_canonical_blocks s))) in
    ok_or (try_from_u U64_MAX count) (Invariant "execution opportunity count exceeds u64").

Definition load_canonical_receipts (s : JsonState) (chain_id number : Z)
    : list CanonicalReceiptRecord :=
  sort_by_key (fun receipt => [cr_transaction_index receipt])
    (List.filter (fun receipt => (cr_chain_id receipt =? chain_id)
                                 && (cr_block_number receipt =? number))
       (js_canonical_receipts s)).

Definition load_canonical_receipt (s : JsonState) (chain_id : Z) (transaction_hashes : list B256)
    : result StorageError (option CanonicalReceiptRecord) :=
  match List.filter (fun receipt => (cr_chain_id receipt =? chain_id)
                       && bool_decide (cr_transaction_hash receipt ∈ transaction_hashes))
          (js_canonical_receipts s) with
  | [] => Ok None
  | [receipt] => Ok (Some receipt)
  | _ => Err (Invariant "multiple known attempts have canonical receipts")
  end.

Definition load_canonical_logs (s : JsonState) (chain_id from_block to_block : Z)
    : list CanonicalLogRecord :=
  sort_by_key (fun log => [cl_block_number log; cl_transaction_index log; cl_log_index log])
    (List.filter (fun log => (cl_chain_id log =? chain_id) && (from_block <=? cl_block_number log)
                             && (cl_block_number log <=? to_block)) (js_canonical_logs s)).

(** ** Transactions *)

Record DurableTransactionSummary : Type := mkDurableTransactionSummary {
  sm_vault : VaultAddress;
  sm_transaction_hash : B256;
  sm_state : TransactionState;
  sm_included_block : option Z;
}.

Definition load_transaction_summaries (s : JsonState) : list DurableTransactionSummary :=
  sort_by_key (fun summary => [sm_transaction_hash summary])
    (omap (fun row => (fun hash => mkDurableTransactionSummary (nr_vault (tx_reservation row)) hash
                                     (tx_state row) (tx_included_block row))
                      <$> tx_transaction_hash row) (js_transactions s)).

Definition is_known_transaction_hash (s : JsonState) (transaction_hash : B256) : bool :=
  existsb (fun attempt => sa_transaction_hash attempt =? transaction_hash)
    (js_transaction_attempts s).

(** The attempts of the requested hashes, each with its lifecycle. *)
Definition attempt_ownership (s : JsonState) (requested : gset B256) : gset (B256 * TransactionId) :=
  list_to_set ((fun attempt => (sa_transaction_hash attempt, sa_transaction_id attempt)) <$>
    List.filter (fun attempt => bool_decide (sa_transaction_hash attempt ∈ requested))
      (js_transaction_attempts s)).

Definition owner_vault (s : JsonState) (ownership : list (B256 * TransactionId))
    (vaults : gset VaultAddress) (owner : B256 * TransactionId)
    : result StorageError (gset VaultAddress) :=
  let '(hash, transaction_id) := owner in
  if existsb (fun other => (other.1 =? hash) && negb (other.2 =? transaction_id)) ownership
  then Err (Invariant "transaction hash belongs to multiple lifecycle rows")
  else
    match List.filter (has_id transaction_id) (js_transactions s) with
    | [row] => Ok ({[nr_vault (tx_reservation row)]} ∪ vaults)
    | [] => Err (Invariant "known transaction attempt has no lifecycle row")
    | _ => Err (Invariant "known transaction attempt has multiple lifecycle rows")
    end.

(** The pairs in the order of the set. *)
Definition ownership_list (ownership : gset (B256 * TransactionId))
    : list (B256 * TransactionId) :=
  sort_by_key (fun owner => [owner.1; owner.2]) (elements ownership).

Definition known_transaction_vaults (s : JsonState) (transaction_hashes : list B256)
    : result StorageError (list VaultAddress) :=
  let ownership := ownership_list (attempt_ownership s (list_to_set transaction_hashes)) in
  vaults ← try_fold (owner_vault s ownership) ∅ ownership;
  Ok (set_elements vaults).

Definition load_conformance (s : JsonState) (transaction_id : TransactionId)
    : result StorageError (option ConformanceRecord) :=
  match List.filter (fun record => cf_transaction_id record =? transaction_id)
          (js_conformance_records s) with
  | [] => Ok None
  | [record] => Ok (Some record)
  | _ => Err (Invariant "transaction has multiple conformance records")
  end.

(** ** Snapshots and topology *)

Definition load_exact_snapshot (s : JsonState) (vault : VaultAddress) (block : BlockRef)
    : option ExactVaultSnapshot :=
  let matching := List.filter (fun entry =>
    (pv_vault (ev_parent (ts_snapshot entry)) =? vault)
    && bool_decide (ctx_block (ev_context (ts_snapshot entry)) = block))
    (rev (js_exact_snapshots s)) in
  ts_snapshot <$>
    match find (fun entry => ils_verified (ev_idle_locks (ts_snapshot entry))) matching with
    | Some entry => Some entry
    | None => head matching
    end.

Definition load_topology_revision (s : JsonState) (vault : VaultAddress) (through_block : Z)
    : option TopologyRevision :=
  max_by_key (fun entry => [blk_number (tr_block entry)])
    (List.filter (fun entry => (ti_vault (tr_topology entry) =? vault)
                               && (blk_number (tr_block entry) <=? through_block))
       (js_topology_history s)).

Definition load_topology (s : JsonState) (vault : VaultAddress) (through_block : Z)
    : option TopologyIndex :=
  tr_topology <$> load_topology_revision s vault through_block.

(** ** The storage actor

    Compaction of the durable state, the atomic [commit] of one mutation, and
    the dispatch of the mutating commands of [storage/actor.rs]. The
    files behind it are in [Journal]. *)

Definition JOURNAL_SEGMENT_EVENTS : Z := 128.
Definition HOT_BLOCK_RETENTION : Z := 512.
Definition HOT_SNAPSHOT_RETENTION : nat := 32.
Definition HOT_PLAN_RETENTION : nat := 32.
Definition MAX_DURABLE_REORG_RESCAN_BLOCKS : Z := 256.
Definition HOT_TOPOLOGY_RETENTION_PER_VAULT : nat := 257.
Definition HOT_TOP_K_MEMORY_RETENTION_PER_VAULT : nat := 257.
Definition HOT_TRANSACTION_RETENTION : nat := 1024.
Definition ROLLING_POLICY_RETENTION_SECONDS : Z := 172800.

(** ** Trimming *)

(** The last [n] elements, dropping the excess at the front. *)
Definition keep_last {A} (n : nat) (l : list A) : list A := drop (length l - n) l.

Definition list_max (l : list Z) : option Z :=
  match l with [] => None | x :: l => Some (foldr Z.max x l) end.
Definition list_min (l : list Z) : option Z :=
  match l with [] => None | x :: l => Some (foldr Z.min x l) end.

(** A [Vec] grouped by vault into a [BTreeMap], each group sorted and trimmed
    to its newest [n] entries, and flattened again in vault order. *)
Definition trim_by_vault {A} (vault : A -> Z) (key : A -> list Z) (n : nat) (l : list A)
    : list A :=
  concat ((fun v => keep_last n (sort_by_key key (List.filter (fun x => vault x =? v) l)))
          <$> set_elements (id_set (vault <$> l))).

(** [drain(..).enumerate().filter(|(index, x)| index >= start || pinned(x))]. *)
Definition keep_from {A} (start : nat) (pinned : A -> bool) (l : list A) : list A :=
  List.filter pinned (take start l) ++ drop start l.

(** ** Compaction *)

Definition compact_lifecycle_history (s : JsonState) : JsonState :=
  let latest_timestamp :=
    default 0 (list_max ((fun r => blk_timestamp (cb_block r)) <$> js_canonical_blocks s)) in
  let rolling_cutoff := saturating_sub latest_timestamp ROLLING_POLICY_RETENTION_SECONDS in
  let terminal := sort_by_key (fun p => [fst p; snd p])
    ((fun row => (nr_created_at (tx_reservation row), nr_transaction_id (tx_reservation row))) <$>
     List.filter (fun row => negb (is_active_lifecycle (tx_state row))) (js_transactions s)) in
  let retained_terminal := id_set (snd <$> keep_last HOT_TRANSACTION_RETENTION terminal) in
  let transactions := List.filter (fun row =>
      is_active_lifecycle (tx_state row)
      || (rolling_cutoff <=? nr_created_at (tx_reservation row))
      || mem (nr_transaction_id (tx_reservation row)) retained_terminal) (js_transactions s) in
  let retained := id_set ((fun row => nr_transaction_id (tx_reservation row)) <$> transactions) in
  let s := with_lanes s transactions
    (List.filter (fun r => bool_decide (rm_state r = MovementPending)
                           || mem (rm_transaction_id r) retained)
       (js_rate_movement_reservations s))
    (List.filter (fun a => mem (sa_transaction_id a) retained) (js_transaction_attempts s))
    (js_rate_episodes s) in
  with_evidence s (js_exact_snapshots s) (js_plans s) (js_final_preflights s)
    (List.filter (fun c => mem (cf_transaction_id c) retained) (js_conformance_records s))
    (List.filter (fun r => mem (rc_transaction_id r) retained) (js_reconciliation_records s))
    (js_topology_history s) (js_top_k_apy_memory s).

Definition active_episodes (s : JsonState) : list RateSignalEpisode :=
  List.filter (fun e => negb (bool_decide (re_state e = Complete)))
    (te_episode <$> js_rate_episodes s).

(** Logs and receipts below the oldest replay point are dropped. *)
Definition compact_replay (s : JsonState) : JsonState :=
  let topology_from := blk_number <$> (tr_block <$> head (js_topology_history s)) in
  let episode_from :=
    list_min ((fun e => blk_number (re_detection_block e)) <$> active_episodes s) in
  match list_min (option_list topology_from ++ option_list episode_from) with
  | None => s
  | Some checkpoint_from =>
      let replay_from := saturating_sub checkpoint_from MAX_DURABLE_REORG_RESCAN_BLOCKS in
      let lifecycle_hashes := id_set (omap tx_transaction_hash (js_transactions s) ++
                                      (sa_transaction_hash <$> js_transaction_attempts s)) in
      with_chain s (js_canonical_blocks s)
        (List.filter (fun l => replay_from <=? cl_block_number l) (js_canonical_logs s))
        (List.filter (fun r => (replay_from <=? cr_block_number r)
                               || mem (cr_transaction_hash r) lifecycle_hashes)
           (js_canonical_receipts s))
        (js_chain_cursors s)
  end.

Definition pinned_blocks (s : JsonState) (referenced : list V2Plan) : gset Z :=
  id_set (concat ((fun row => nr_created_block (tx_reservation row)
                              :: option_list (tx_included_block row)) <$>
            List.filter (fun row => is_active_lifecycle (tx_state row)) (js_transactions s)))
  ∪ id_set ((fun p => blk_number (ctx_block (pl_snapshot p))) <$> referenced)
  ∪ id_set (cr_block_number <$> js_canonical_receipts s)
  ∪ id_set ((fun r => blk_number (tr_block r)) <$> js_topology_history s)
  ∪ id_set (concat ((fun e => blk_number (re_detection_block e)
                              :: option_list (blk_number <$> re_confirmation_block e)
                              ++ ((fun v => blk_number (ie_block v)) <$> re_independent_events e))
                    <$> active_episodes s)).

Definition compact_hot_state (s : JsonState) : JsonState :=
  let s := compact_lifecycle_history s in
  let referenced_plan_ids := id_set (omap (fun row => nr_plan_id (tx_reservation row))
    (List.filter (fun row => is_active_lifecycle (tx_state row)) (js_transactions s))) in
  let referenced := tp_plan <$>
    List.filter (fun e => mem (pl_plan_id (tp_plan e)) referenced_plan_ids) (js_plans s) in
  let topology := sort_by_key (fun r => [blk_number (tr_block r); ti_vault (tr_topology r)])
    (trim_by_vault (fun r => ti_vault (tr_topology r))
       (fun r => [blk_number (tr_block r); blk_hash (tr_block r)])
       HOT_TOPOLOGY_RETENTION_PER_VAULT (js_topology_history s)) in
  let memory := sort_by_key
    (fun m => [tm_vault m; tk_last_observed_block (tm_memory m); tm_updated_at m])
    (trim_by_vault tm_vault (fun m => [tk_last_observed_block (tm_memory m); tm_updated_at m])
       HOT_TOP_K_MEMORY_RETENTION_PER_VAULT (js_top_k_apy_memory s)) in
  let s := with_evidence s (js_exact_snapshots s) (js_plans s) (js_final_preflights s)
             (js_conformance_records s) (js_reconciliation_records s) topology memory in
  let s := compact_replay s in
  let pinned := pinned_blocks s referenced in
  let blocks :=
    match list_max ((fun r => blk_number (cb_block r)) <$> js_canonical_blocks s) with
    | None => js_canonical_blocks s
    | Some latest =>
        let retain_from := saturating_sub latest (saturating_sub HOT_BLOCK_RETENTION 1) in
        List.filter (fun r => (retain_from <=? blk_number (cb_block r))
                              || mem (blk_number (cb_block r)) pinned) (js_canonical_blocks s)
    end in
  let s := with_chain s blocks (js_canonical_logs s) (js_canonical_receipts s)
             (js_chain_cursors s) in
  let snapshots :=
    if (HOT_SNAPSHOT_RETENTION <? length (js_exact_snapshots s))%nat
    then keep_from (length (js_exact_snapshots s) - (HOT_SNAPSHOT_RETENTION - length referenced))
           (fun e => existsb (fun p => (pv_vault (ev_parent (ts_snapshot e)) =? pl_vault p)
                        && bool_decide (ev_context (ts_snapshot e) = pl_snapshot p)) referenced)
           (js_exact_snapshots s)
    else js_exact_snapshots s in
  let plans :=
    if (HOT_PLAN_RETENTION <? length (js_plans s))%nat
    then keep_from (length (js_plans s) - (HOT_PLAN_RETENTION - size referenced_plan_ids))
           (fun e => mem (pl_plan_id (tp_plan e)) referenced_plan_ids) (js_plans s)
    else js_plans s in
  let retained_plan_ids := id_set ((fun e => pl_plan_id (tp_plan e)) <$> plans) in
  with_evidence s snapshots plans
    (List.filter (fun p => mem (fp_plan_id p) retained_plan_ids) (js_final_preflights s))
    (js_conformance_records s) (js_reconciliation_records s) (js_topology_history s)
    (js_top_k_apy_memory s).

(** ** Commit *)

Definition with_revision (s : JsonState) (revision : Z) : JsonState :=
  mkJsonState (js_format_version s) revision (js_canonical_blocks s) (js_canonical_logs s)
    (js_canonical_receipts s) (js_chain_cursors s) (js_exact_snapshots s) (js_plans s)
    (js_final_preflights s) (js_transactions s) (js_rate_movement_reservations s)
    (js_transaction_attempts s) (js_conformance_records s) (js_reconciliation_records s)
    (js_topology_history s) (js_rate_episodes s) (js_top_k_apy_memory s).

(** [next] is the state after the mutation; the result is what is committed. *)
Definition commit_next (next : JsonState) : result StorageError JsonState :=
  revision ← ok_or (checked_add U64_MAX (js_revision next) 1)
               (Invariant "JSON state revision overflow");
  let next := with_revision next revision in
  Ok (if revision mod JOURNAL_SEGMENT_EVENTS =? 0 then compact_hot_state next else next).

(** ** Mutating commands *)

Inductive StorageCommand : Type :=
  | ApplyCanonicalBlock (block : CanonicalBlockRecord) (logs : list CanonicalLogRecord)
      (receipts : list CanonicalReceiptRecord)
  | RewindToAncestor (chain_id : Z) (ancestor : BlockRef)
  | PersistSnapshot (snapshot : ExactVaultSnapshot) (created_at : Z)
  | PersistCanonicalReceipt (receipt : CanonicalReceiptRecord)
  | PersistPlan (plan : V2Plan) (created_at : Z)
  | PersistFinalPreflight (record : FinalPreflightRecord)
  | ReserveNonce (reservation : NonceReservation)
  | ReserveRateMovementAndNonce (reservation : NonceReservation) (episode_id : EpisodeId)
      (movement_assets : Z)
  | PersistSignedTransaction (transaction : SignedTransactionRecord)
  | PersistSignedAttempt (attempt : SignedAttemptRecord)
  | RecordAttemptBroadcast (id : TransactionId) (hash : B256) (broadcast_at broadcast_block : Z)
  | TransitionTransaction (transition : TransactionTransition)
  | PersistConformance (record : ConformanceRecord)
  | PersistReconciliation (record : ReconciliationRecord) (snapshot : ExactVaultSnapshot)
      (confirmed_episode : option RateSignalEpisode)
  | FinalizeConformedPostStateFailure (id : TransactionId) (expected_state : TransactionState)
      (updated_at : Z)
  | PersistTopology (topology : TopologyIndex) (block : BlockRef)
  | PersistRateEpisode (episode : RateSignalEpisode) (updated_at : Z)
  | PersistTopKApyMemory (vault : VaultAddress) (memory : TopKApyMemory) (updated_at : Z).

Definition persist_topology (s : JsonState) (topology : TopologyIndex) (block : BlockRef)
    : JsonState :=
  with_evidence s (js_exact_snapshots s) (js_plans s) (js_final_preflights s)
    (js_conformance_records s) (js_reconciliation_records s)
    (List.filter (fun e => negb (ti_vault (tr_topology e) =? ti_vault topology)
                           || negb (blk_hash (tr_block e) =? blk_hash block))
       (js_topology_history s) ++ [mkTopologyRevision topology block])
    (js_top_k_apy_memory s).

Definition persist_top_k_apy_memory (s : JsonState) (vault : VaultAddress)
    (memory : TopKApyMemory) (updated_at : Z) : result StorageError JsonState :=
  _ ← require (negb (updated_at <? tk_last_observed_timestamp memory))
        (Invariant "top-K memory timestamp exceeds durable update timestamp");
  let kept := List.filter (fun e => negb (tm_vault e =? vault)
      || negb (tk_last_observed_block (tm_memory e) =? tk_last_observed_block memory))
      (js_top_k_apy_memory s) in
  Ok (with_evidence s (js_exact_snapshots s) (js_plans s) (js_final_preflights s)
        (js_conformance_records s) (js_reconciliation_records s) (js_topology_history s)
        (sort_by_key (fun e => [tm_vault e; tk_last_observed_block (tm_memory e); tm_updated_at e])
           (kept ++ [mkTimedTopKApyMemory vault memory updated_at]))).

Section Dispatch.
Context `{HK : Keccak}.

Definition mutate (s : JsonState) (command : StorageCommand) : result StorageError JsonState :=
  match command with
  | ApplyCanonicalBlock block logs receipts => apply_block s block logs receipts
  | RewindToAncestor chain_id ancestor => fst <$> rewind s chain_id ancestor
  | PersistSnapshot snapshot created_at => Ok (persist_snapshot s snapshot created_at)
  | PersistCanonicalReceipt receipt => persist_canonical_receipt s receipt
  | PersistPlan plan created_at => persist_plan s plan created_at
  | PersistFinalPreflight record => persist_final_preflight s record
  | ReserveNonce reservation => reserve_nonce s reservation
  | ReserveRateMovementAndNonce reservation episode_id movement_assets =>
      fst <$> reserve_rate_movement_and_nonce s reservation episode_id movement_assets
  | PersistSignedTransaction transaction => persist_signed s transaction
  | PersistSignedAttempt attempt => persist_signed_attempt s attempt
  | RecordAttemptBroadcast id hash at_ block => record_attempt_broadcast s id hash at_ block
  | TransitionTransaction transition => transition_transaction s transition
  | PersistConformance record => persist_conformance s record
  | PersistReconciliation record snapshot episode =>
      persist_reconciliation s record snapshot episode
  | FinalizeConformedPostStateFailure id expected updated_at =>
      finalize_conformed_post_state_failure s id expected updated_at
  | PersistTopology topology block => Ok (persist_topology s topology block)
  | PersistRateEpisode episode updated_at => persist_episode s episode updated_at
  | PersistTopKApyMemory vault memory updated_at =>
      persist_top_k_apy_memory s vault memory updated_at
  end.

(** The actor's answer to a command. *)
Definition commit (s : JsonState) (command : StorageCommand) : result StorageError JsonState :=
  next ← mutate s command; commit_next next.

(** The durable state after a command: a rejected one changes nothing. *)
Definition process (s : JsonState) (command : StorageCommand) : JsonState :=
  match commit s command with Ok s' => s' | Err _ => s end.

Definition process_all (s : JsonState) (commands : list StorageCommand) : JsonState :=
  fold_left process commands s.

End Dispatch.
