(* ===== verification/StorageProofs.v ===== *)
(** * Invariants of the durable state

    What holds of the durable state between canonical rewinds whatever
    commands the actor is sent: rows move along the lifecycle graph, a signer
    owns at most one unresolved lane, and a broadcast state is backed by a
    durable signed attempt. *)
From Stdlib Require Import ZArith Lia List Bool String.
From stdpp Require Import base list gmap sets sorting.
From S2P Require Import Prelude.
From S2P Require Import Domain.
From S2P Require Import Episodes.
From S2P Require Import Models.
From S2P Require Import Storage.
From S2P Require Import Actor.
Open Scope Z_scope.

(** ** Lists updated at their first match *)

Lemma require_Ok {E} b (e : E) x : require b e = Ok x -> b = true.
Proof. by destruct b. Qed.

Lemma find_none_update {A} (p : A -> bool) f l : find p l = None -> update_first p f l = l.
Proof.
  induction l as [|x l IH]; cbn; [done|]. destruct (p x); [done|]. intros H. by rewrite IH.
Qed.

Lemma update_first_split {A} (p : A -> bool) f l x :
  find p l = Some x ->
  exists l1 l2, l = l1 ++ x :: l2 /\ update_first p f l = l1 ++ f x :: l2 /\
    Forall (fun y => p y = false) l1 /\ p x = true.
Proof.
  induction l as [|y l IH]; cbn; [done|]. destruct (p y) eqn:Hp.
  - intros [= ->]. exists [], l. by repeat split.
  - intros (l1 & l2 & -> & Hu & Hf & Hx)%IH. exists (y :: l1), l2.
    rewrite Hu. repeat split; try done. by constructor.
Qed.

Lemma fmap_update_first {A B} (p : A -> bool) f (g : A -> B) l :
  (forall x, g (f x) = g x) -> g <$> update_first p f l = g <$> l.
Proof.
  intros Hg. induction l as [|x l IH]; [done|]. cbn. case_match; cbn; [by rewrite Hg|].
  by rewrite IH.
Qed.

Lemma elem_of_update_first {A} (p : A -> bool) f l y :
  y ∈ update_first p f l -> y ∈ l \/ exists x, find p l = Some x /\ y = f x.
Proof.
  destruct (find p l) as [x|] eqn:Hf; [|rewrite find_none_update by done; by left].
  destruct (update_first_split p f l x Hf) as (l1 & l2 & -> & -> & _ & _).
  rewrite !elem_of_app, !elem_of_cons. naive_solver.
Qed.

Lemma find_has_id id rows row :
  find (has_id id) rows = Some row -> row ∈ rows /\ nr_transaction_id (tx_reservation row) = id.
Proof.
  intros [Hin Hid%Z.eqb_eq]%find_some. by split; [apply list_elem_of_In|].
Qed.

(** ** Row steps *)

Definition row_id (row : TransactionRow) : TransactionId := nr_transaction_id (tx_reservation row).

Definition fresh_row (r : NonceReservation) : TransactionRow :=
  mkTransactionRow r NonceReserved None None None None None (nr_created_at r).

(** The identity has a broadcast signed attempt. *)
Definition has_broadcast (attempts : list SignedAttemptRecord) (id : TransactionId) : Prop :=
  exists a, a ∈ attempts /\ sa_transaction_id a = id /\ is_Some (sa_broadcast_at a).

(** How one command other than a rewind, which leaves behind [attempts], may
    change the transaction rows. *)
Inductive row_step (attempts : list SignedAttemptRecord) (rows : list TransactionRow)
    : list TransactionRow -> Prop :=
  | row_same : row_step attempts rows rows
  | row_reserved r :
      existsb (owns_lane (nr_signer r)) rows = false ->
      existsb (has_id (nr_transaction_id r)) rows = false ->
      row_step attempts rows (rows ++ [fresh_row r])
  | row_moved id row f :
      find (has_id id) rows = Some row ->
      (forall x, tx_reservation (f x) = tx_reservation x) ->
      permits (tx_state row) (tx_state (f row)) = true ->
      (broadcasts (tx_state (f row)) = true -> has_broadcast attempts id) ->
      row_step attempts rows (update_first (has_id id) f rows).

Lemma permits_unresolved s t :
  permits s t = true -> is_unresolved t = true -> is_unresolved s = true.
Proof. by destruct s, t. Qed.

(** At most one unresolved lane per signer, and transaction identities are
    unique. *)
Record lanes_wf (rows : list TransactionRow) : Prop := {
  lw_ids : NoDup (row_id <$> rows);
  lw_single : forall signer, (length (List.filter (owns_lane signer) rows) <= 1)%nat;
}.

Lemma owns_lane_moved signer row row' :
  tx_reservation row' = tx_reservation row ->
  permits (tx_state row) (tx_state row') = true ->
  owns_lane signer row' = true -> owns_lane signer row = true.
Proof.
  unfold owns_lane. intros -> Hp [-> Hu]%andb_true_iff. cbn. by eapply permits_unresolved.
Qed.

Lemma existsb_false_filter {A} (p : A -> bool) l : existsb p l = false -> List.filter p l = [].
Proof.
  induction l as [|x l IH]; cbn; [done|]. intros [-> ?]%orb_false_iff. auto.
Qed.

Lemma row_step_wf attempts rows rows' :
  lanes_wf rows -> row_step attempts rows rows' -> lanes_wf rows'.
Proof.
  intros [Hids Hs] Hstep. destruct Hstep as [|r Hl Hid|id row f Hf Hr Hp _]; [by constructor| |].
  - constructor.
    + rewrite fmap_app. apply NoDup_app. split; [done|]. split; [|apply NoDup_singleton].
      intros x Hx ->%list_elem_of_singleton. apply list_elem_of_fmap in Hx as (y & Hy & Hin).
      assert (existsb (has_id (nr_transaction_id r)) rows = true); [|congruence].
      apply existsb_exists. exists y. split; [by apply list_elem_of_In|].
      unfold has_id. apply Z.eqb_eq. symmetry. exact Hy.
    + intros signer. rewrite List.filter_app, length_app. cbn [List.filter].
      destruct (owns_lane signer (fresh_row r)) eqn:Ho; cbn; [|specialize (Hs signer); lia].
      unfold owns_lane in Ho. cbn in Ho. rewrite andb_true_r in Ho. apply Z.eqb_eq in Ho as <-.
      by rewrite existsb_false_filter.
  - constructor.
    + rewrite fmap_update_first; [done|]. intros x. unfold row_id. by rewrite Hr.
    + intros signer. specialize (Hs signer).
      destruct (update_first_split _ f _ _ Hf) as (l1 & l2 & -> & -> & _ & _).
      rewrite List.filter_app, length_app in *. cbn [List.filter] in *.
      destruct (owns_lane signer (f row)) eqn:Ho.
      * by rewrite (owns_lane_moved signer row (f row)) in Hs by auto.
      * destruct (owns_lane signer row); cbn in Hs |- *; lia.
Qed.

Lemma filter_lanes_wf p rows : lanes_wf rows -> lanes_wf (List.filter p rows).
Proof.
  intros [Hids Hs]. constructor.
  - clear Hs. induction rows as [|x rows IH]; cbn in *; [done|].
    apply NoDup_cons in Hids as [Hx Hn]. specialize (IH Hn). case_match; [|done].
    cbn. apply NoDup_cons. split; [|done]. intros (y & Hy & Hin)%list_elem_of_fmap. apply Hx.
    apply list_elem_of_In, filter_In in Hin as [Hin _].
    rewrite Hy. apply list_elem_of_fmap. exists y. by split; [|apply list_elem_of_In].
  - intros signer. etrans; [|apply (Hs signer)]. clear.
    induction rows as [|x rows IH]; cbn; [lia|].
    destruct (p x); cbn; destruct (owns_lane signer x); cbn; lia.
Qed.

(** ** Attempts only gain evidence *)

(** Broadcast attempts stay broadcast. *)
Definition attempts_le (l l' : list SignedAttemptRecord) : Prop :=
  forall a, a ∈ l -> is_Some (sa_broadcast_at a) ->
    exists a', a' ∈ l' /\ sa_transaction_id a' = sa_transaction_id a /\
      is_Some (sa_broadcast_at a').

Lemma attempts_le_refl l : attempts_le l l.
Proof. intros a Ha Hb. by exists a. Qed.

Lemma attempts_le_app l l' : attempts_le l (l ++ l').
Proof. intros a Ha Hb. exists a. split; [|done]. apply elem_of_app. by left. Qed.

Lemma attempts_le_update p f l :
  (forall a, sa_transaction_id (f a) = sa_transaction_id a /\ is_Some (sa_broadcast_at (f a))) ->
  attempts_le l (update_first p f l).
Proof.
  intros Hf. induction l as [|x l IH]; intros a Ha Hb; [by apply elem_of_nil in Ha|].
  cbn. apply elem_of_cons in Ha as [->|Ha].
  - case_match; [exists (f x)|exists x]; (split; [apply elem_of_cons; by left|]); [apply Hf|done].
  - case_match.
    + exists a. split; [apply elem_of_cons; by right|done].
    + destruct (IH a Ha Hb) as (a' & ? & ?). exists a'. split; [apply elem_of_cons; by right|done].
Qed.

Lemma mark_broadcast_evidence s t s' :
  mark_broadcast s t = Ok s' ->
  attempts_le (js_transaction_attempts s) (js_transaction_attempts s') /\
  (broadcasts (tt_next_state t) = true ->
   has_broadcast (js_transaction_attempts s') (tt_transaction_id t)).
Proof.
  unfold mark_broadcast. intros H. case_match; [|injection H as <-; by split;
    [apply attempts_le_refl|]].
  step_ok H as h Hh. step_ok H as at_ Hat. step_ok H as a Ha. injection H as <-.
  apply ok_or_Ok in Ha. split.
  - apply attempts_le_update. intros x. split; [done|by eexists].
  - intros _. cbn.
    set (f := fun attempt => attempt_broadcast attempt at_ (sa_last_broadcast_block attempt)).
    destruct (update_first_split _ f _ _ Ha) as (l1 & l2 & _ & -> & _ & Hp).
    exists (f a). split; [apply elem_of_app; right; apply elem_of_cons; by left|].
    apply andb_true_iff in Hp as [Hp%Z.eqb_eq _]. split; [done|by eexists].
Qed.

(** ** Every command takes a row step *)

Definition is_rewind (command : StorageCommand) : bool :=
  match command with RewindToAncestor _ _ => true | _ => false end.

Ltac guards H :=
  repeat match type of H with
  | mbind (fun _ => _) (require _ _) = Ok _ =>
      let G := fresh "G" in step_ok H as ? G; apply require_Ok in G
  | mbind (fun _ => _) (ok_or (find _ _) _) = Ok _ =>
      let x := fresh "found" in let G := fresh "F" in
      step_ok H as x G; apply ok_or_Ok in G
  | mbind (fun _ => _) _ = Ok _ =>
      let x := fresh "x" in let G := fresh "S" in step_ok H as x G
  end.

Lemma release_rate_movement_rows s id s' :
  release_rate_movement s id = Ok s' ->
  js_transactions s' = js_transactions s /\
  js_transaction_attempts s' = js_transaction_attempts s.
Proof.
  unfold release_rate_movement. intros H. case_match; [by injection H as <-|].
  case_match; [|done]. guards H. by injection H as <-.
Qed.

Lemma mark_broadcast_rows s t s' :
  mark_broadcast s t = Ok s' -> js_transactions s' = js_transactions s.
Proof.
  unfold mark_broadcast. intros H. case_match; [|by injection H as <-].
  guards H. by injection H as <-.
Qed.

Lemma transition_transaction_rows s t s' :
  transition_transaction s t = Ok s' ->
  exists row, find (has_id (tt_transaction_id t)) (js_transactions s) = Some row /\
    tx_state row = tt_expected_state t /\
    permits (tt_expected_state t) (tt_next_state t) = true /\
    js_transactions s'
    = update_first (has_id (tt_transaction_id t)) (transitioned t) (js_transactions s) /\
    attempts_le (js_transaction_attempts s) (js_transaction_attempts s') /\
    (broadcasts (tt_next_state t) = true ->
     has_broadcast (js_transaction_attempts s') (tt_transaction_id t)).
Proof.
  unfold transition_transaction. cbv zeta. intros H.
  step_ok H as ? G1. step_ok H as ? G2. step_ok H as row Hrow. step_ok H as ? G3.
  step_ok H as s1 Hs1. apply require_Ok in G2, G3. apply bool_decide_eq_true in G3.
  apply ok_or_Ok in Hrow. pose proof (mark_broadcast_evidence _ _ _ Hs1) as Hev.
  apply mark_broadcast_rows in Hs1. exists row.
  split; [done|]. split; [done|]. split; [done|]. rewrite <-Hs1.
  case_match; [|by injection H as <-].
  by apply release_rate_movement_rows in H as [-> ->].
Qed.

Section Commands.
Context `{HK : Keccak}.

Lemma reserve_nonce_rows s r s' :
  reserve_nonce s r = Ok s' ->
  (forall attempts, row_step attempts (js_transactions s) (js_transactions s')) /\
  js_transaction_attempts s' = js_transaction_attempts s /\
  js_rate_movement_reservations s' = js_rate_movement_reservations s /\
  js_rate_episodes s' = js_rate_episodes s.
Proof.
  unfold reserve_nonce. intros H. step_ok H as ? G1. step_ok H as ? G2. step_ok H as ? G3.
  injection H as <-. apply require_Ok, negb_true_iff in G2, G3. split; [|done].
  intros attempts. by apply row_reserved.
Qed.

Lemma reserve_rate_movement_and_nonce_rows s r e m s' rec :
  reserve_rate_movement_and_nonce s r e m = Ok (s', rec) ->
  (forall attempts, row_step attempts (js_transactions s) (js_transactions s')) /\
  js_transaction_attempts s' = js_transaction_attempts s.
Proof.
  unfold reserve_rate_movement_and_nonce. cbv zeta. intros H. guards H. injection H as <- _.
  match goal with
  | H : reserve_nonce _ _ = Ok _ |- _ => apply reserve_nonce_rows in H as (Hrow & Ha & _)
  end. by split.
Qed.

Lemma confirm_failed_movement_rows s id st plan c r s' :
  confirm_failed_movement s id st plan c r = Ok s' ->
  js_transactions s' = js_transactions s /\
  js_transaction_attempts s' = js_transaction_attempts s.
Proof.
  unfold confirm_failed_movement. cbv zeta. intros H. guards H.
  destruct st; try done; guards H; by injection H as <-.
Qed.

Lemma persist_episode_rows s e t s' :
  persist_episode s e t = Ok s' ->
  js_transactions s' = js_transactions s /\
  js_transaction_attempts s' = js_transaction_attempts s /\
  js_rate_movement_reservations s' = js_rate_movement_reservations s.
Proof. unfold persist_episode. intros H. case_match; [done|]. by injection H as <-. Qed.

Lemma persist_snapshot_rows s snapshot t :
  js_transactions (persist_snapshot s snapshot t) = js_transactions s /\
  js_transaction_attempts (persist_snapshot s snapshot t) = js_transaction_attempts s /\
  js_rate_movement_reservations (persist_snapshot s snapshot t)
    = js_rate_movement_reservations s /\
  js_rate_episodes (persist_snapshot s snapshot t) = js_rate_episodes s.
Proof. unfold persist_snapshot. by case_match. Qed.

Lemma persist_reconciliation_rows s record snapshot episode s' :
  persist_reconciliation s record snapshot episode = Ok s' ->
  js_transaction_attempts s' = js_transaction_attempts s /\
  exists row, find (has_id (rc_transaction_id record)) (js_transactions s) = Some row /\
    requires_reconciliation (tx_state row) = true /\
    js_transactions s' = update_first (has_id (rc_transaction_id record)) (fun row =>
      row_with_state row Reconciled (tx_transaction_hash row) (tx_raw_signed_transaction row)
        (rc_reconciled_at record)) (js_transactions s).
Proof.
  unfold persist_reconciliation. cbv zeta. intros H.
  step_ok H as ? G1. step_ok H as ? G2. step_ok H as row Hrow. step_ok H as em Hem.
  step_ok H as ? G3. step_ok H as ? G4. step_ok H as ? G5. step_ok H as s1 Hs1.
  apply ok_or_Ok in Hrow, Hem. injection H as <-.
  set (s0 := persist_snapshot _ _ _) in Hs1.
  assert (js_transactions s1 = js_transactions s0 /\
          js_transaction_attempts s1 = js_transaction_attempts s0) as [E1 E2].
  { destruct episode; [|by injection Hs1 as <-]. by apply persist_episode_rows in Hs1 as (-> & -> & _). }
  subst s0. rewrite (proj1 (persist_snapshot_rows _ _ _)) in E1.
  rewrite (proj1 (proj2 (persist_snapshot_rows _ _ _))) in E2.
  cbn in E1, E2. clear G5 Hs1.
  split; [destruct (bool_decide (tx_state row = _)); exact E2|]. exists row. split; [done|].
  split; [by destruct (tx_state row)|]. destruct (bool_decide (tx_state row = _)); exact E1.
Qed.

Lemma finalize_rows s id st t s' :
  finalize_conformed_post_state_failure s id st t = Ok s' ->
  js_transaction_attempts s' = js_transaction_attempts s /\
  exists row, find (has_id id) (js_transactions s) = Some row /\
    requires_reconciliation (tx_state row) = true /\
    js_transactions s' = update_first (has_id id) (fun row =>
      row_with_state row Failed (tx_transaction_hash row) (tx_raw_signed_transaction row) t)
      (js_transactions s).
Proof.
  unfold finalize_conformed_post_state_failure. cbv zeta. intros H.
  step_ok H as ? G1. step_ok H as row Hrow. step_ok H as ? G2. step_ok H as ? G3.
  step_ok H as ? G4. step_ok H as ? G5. step_ok H as ? G6. step_ok H as ? G7. step_ok H as ? G8.
  step_ok H as c Hc. step_ok H as ? G9. step_ok H as ? G10. step_ok H as ? G11.
  step_ok H as s1 Hs1. injection H as <-. apply ok_or_Ok in Hrow.
  apply require_Ok in G1, G2. apply bool_decide_eq_true in G2.
  apply andb_true_iff in G1 as [G1 _].
  assert (js_transactions s1 = js_transactions s /\
          js_transaction_attempts s1 = js_transaction_attempts s) as [E1 E2].
  { case_match; [by injection Hs1 as <-|]. by apply confirm_failed_movement_rows in Hs1. }
  cbn. rewrite E1. split; [done|]. exists row. by rewrite G2.
Qed.

Ltac split_guards :=
  repeat match goal with
  | G : require _ _ = Ok _ |- _ => apply require_Ok in G
  | G : ok_or _ _ = Ok _ |- _ => apply ok_or_Ok in G
  | G : _ && _ = true |- _ => apply andb_true_iff in G as [? ?]
  | G : bool_decide _ = true |- _ => apply bool_decide_eq_true in G
  end.

Lemma persist_signed_rows s signed s' :
  persist_signed s signed = Ok s' ->
  (forall attempts, row_step attempts (js_transactions s) (js_transactions s')) /\
  exists a, js_transaction_attempts s' = js_transaction_attempts s ++ [a].
Proof.
  unfold persist_signed. cbv zeta. intros H. step_ok H as ? G1. step_ok H as ? G2.
  step_ok H as row Hrow. step_ok H as ? G3. injection H as <-. split_guards.
  split; [|by eexists]. intros attempts. eapply row_moved; [exact Hrow|done| |done].
  cbn. by rewrite G3.
Qed.

Lemma signed_state_permits kind s t :
  signed_state kind s = Some t -> permits s t = true /\ broadcasts t = false.
Proof. destruct kind, s; cbn; intros [= <-]; done. Qed.

Lemma persist_signed_attempt_rows s a s' :
  persist_signed_attempt s a = Ok s' ->
  (forall attempts, row_step attempts (js_transactions s) (js_transactions s')) /\
  js_transaction_attempts s' = js_transaction_attempts s ++ [a].
Proof.
  unfold persist_signed_attempt. cbv zeta. intros H. step_ok H as ? G1. step_ok H as ? G2.
  step_ok H as ? G3. step_ok H as row Hrow. step_ok H as st Hst. injection H as <-.
  apply ok_or_Ok in Hrow, Hst. apply signed_state_permits in Hst as [Hp Hb].
  split; [|done]. intros attempts. eapply row_moved; [exact Hrow|done|exact Hp|].
  cbn. by rewrite Hb.
Qed.

Lemma record_attempt_broadcast_rows s id h t b s' :
  record_attempt_broadcast s id h t b = Ok s' ->
  js_transactions s' = js_transactions s /\
  exists f, (forall a, sa_transaction_id (f a) = sa_transaction_id a /\
                       is_Some (sa_broadcast_at (f a))) /\
    js_transaction_attempts s' = update_first (is_attempt id h) f (js_transaction_attempts s).
Proof.
  unfold record_attempt_broadcast. intros H. step_ok H as ? G1. step_ok H as ? G2.
  injection H as <-. split; [done|]. eexists (fun a => attempt_broadcast a t (Some b)).
  split; [|done]. intros a. split; [done|]. by eexists.
Qed.

Lemma persist_conformance_rows s record s' :
  persist_conformance s record = Ok s' ->
  (forall attempts, row_step attempts (js_transactions s) (js_transactions s')) /\
  js_transaction_attempts s' = js_transaction_attempts s.
Proof.
  unfold persist_conformance. cbv zeta. intros H. step_ok H as ? G1. step_ok H as ? G2.
  step_ok H as row Hrow. step_ok H as ? G3. injection H as <-. split_guards.
  split; [|done]. intros attempts. eapply row_moved; [exact Hrow|done| |done]. cbn.
  by match goal with E : tx_state row = _ |- _ => rewrite E end.
Qed.

Lemma requires_reconciliation_permits s :
  requires_reconciliation s = true -> permits s Reconciled = true /\ permits s Failed = true.
Proof. by destruct s. Qed.

(** Commands that leave the transaction lanes alone. *)
Lemma evidence_rows s command s' :
  match command with
  | ApplyCanonicalBlock _ _ _ | PersistSnapshot _ _ | PersistCanonicalReceipt _ | PersistPlan _ _
  | PersistFinalPreflight _ | PersistTopology _ _ | PersistTopKApyMemory _ _ _ => True
  | _ => False
  end ->
  mutate s command = Ok s' ->
  js_transactions s' = js_transactions s /\
  js_transaction_attempts s' = js_transaction_attempts s /\
  js_rate_movement_reservations s' = js_rate_movement_reservations s /\
  js_rate_episodes s' = js_rate_episodes s.
Proof.
  destruct command; cbn; intros Hc H; try done.
  - unfold apply_block in H. cbv zeta in H. guards H. by injection H as <-.
  - injection H as <-. apply persist_snapshot_rows.
  - unfold persist_canonical_receipt in H. guards H. case_match.
    + case_match; [by injection H as <-|done].
    + guards H. by injection H as <-.
  - unfold persist_plan in H. guards H. case_match; [|by injection H as <-].
    case_match; [by injection H as <-|done].
  - unfold persist_final_preflight in H. guards H. case_match; [|by injection H as <-].
    case_match; [by injection H as <-|done].
  - by injection H as <-.
  - unfold persist_top_k_apy_memory in H. guards H. by injection H as <-.
Qed.

Lemma mutate_row_step s command s' :
  is_rewind command = false -> mutate s command = Ok s' ->
  row_step (js_transaction_attempts s') (js_transactions s) (js_transactions s') /\
  attempts_le (js_transaction_attempts s) (js_transaction_attempts s').
Proof.
  intros Hr H.
  assert (js_transactions s' = js_transactions s ->
          js_transaction_attempts s' = js_transaction_attempts s ->
          row_step (js_transaction_attempts s') (js_transactions s) (js_transactions s') /\
          attempts_le (js_transaction_attempts s) (js_transaction_attempts s')) as Hsame
    by (intros -> ->; split; [constructor|apply attempts_le_refl]).
  destruct command; try done;
    try (by eapply evidence_rows in H as (? & ? & _); [apply Hsame|]); cbn in H.
  - apply reserve_nonce_rows in H as (Hstep & -> & _). split; [apply Hstep|apply attempts_le_refl].
  - destruct (reserve_rate_movement_and_nonce _ _ _ _) as [[s1 r]|] eqn:E; [|done].
    injection H as <-. apply reserve_rate_movement_and_nonce_rows in E as (Hstep & ->).
    split; [apply Hstep|apply attempts_le_refl].
  - apply persist_signed_rows in H as [Hstep [a ->]]. split; [apply Hstep|apply attempts_le_app].
  - apply persist_signed_attempt_rows in H as [Hstep ->].
    split; [apply Hstep|apply attempts_le_app].
  - apply record_attempt_broadcast_rows in H as (-> & f & Hf & ->).
    split; [constructor|by apply attempts_le_update].
  - apply transition_transaction_rows in H as (row & Hf & Hst & Hp & -> & Hle & Hb).
    split; [|done]. eapply row_moved; [exact Hf|done| |done]. cbn. by rewrite Hst.
  - apply persist_conformance_rows in H as [Hstep ->]. split; [apply Hstep|apply attempts_le_refl].
  - apply persist_reconciliation_rows in H as (-> & row & Hf & Hq & ->).
    split; [|apply attempts_le_refl]. eapply row_moved; [exact Hf|done| |done].
    by apply requires_reconciliation_permits.
  - apply finalize_rows in H as (-> & row & Hf & Hq & ->).
    split; [|apply attempts_le_refl]. eapply row_moved; [exact Hf|done| |done].
    by apply requires_reconciliation_permits.
  - apply persist_episode_rows in H as (? & ? & _). by apply Hsame.
Qed.

(** ** Committed commands *)

Lemma compact_replay_lanes s :
  js_transactions (compact_replay s) = js_transactions s /\
  js_transaction_attempts (compact_replay s) = js_transaction_attempts s /\
  js_rate_movement_reservations (compact_replay s) = js_rate_movement_reservations s /\
  js_rate_episodes (compact_replay s) = js_rate_episodes s.
Proof. unfold compact_replay. cbv zeta. by case_match. Qed.

Lemma compact_hot_state_lanes s :
  js_transactions (compact_hot_state s) = js_transactions (compact_lifecycle_history s) /\
  js_transaction_attempts (compact_hot_state s)
    = js_transaction_attempts (compact_lifecycle_history s) /\
  js_rate_movement_reservations (compact_hot_state s)
    = js_rate_movement_reservations (compact_lifecycle_history s) /\
  js_rate_episodes (compact_hot_state s) = js_rate_episodes s.
Proof.
  unfold compact_hot_state. cbv zeta.
  cbn [with_evidence with_chain js_transactions js_transaction_attempts
       js_rate_movement_reservations js_rate_episodes].
  match goal with
  | |- context [compact_replay ?x] =>
      pose proof (compact_replay_lanes x) as (-> & -> & -> & ->)
  end. by repeat split.
Qed.

(** What a commit does to the lanes on top of the mutation: nothing, or a
    compaction that keeps every active row with its attempts and every pending
    movement. *)
Lemma commit_next_lanes next s' :
  commit_next next = Ok s' ->
  js_rate_episodes s' = js_rate_episodes next /\
  exists keep : TransactionRow -> bool,
    (forall row, is_active_lifecycle (tx_state row) = true -> keep row = true) /\
    js_transactions s' = List.filter keep (js_transactions next) /\
    (forall a, a ∈ js_transaction_attempts next ->
       (exists row, row ∈ js_transactions s' /\ row_id row = sa_transaction_id a) ->
       a ∈ js_transaction_attempts s') /\
    (forall r, r ∈ js_rate_movement_reservations s' -> r ∈ js_rate_movement_reservations next) /\
    List.filter (fun r => bool_decide (rm_state r = MovementPending))
      (js_rate_movement_reservations s')
    = List.filter (fun r => bool_decide (rm_state r = MovementPending))
        (js_rate_movement_reservations next).
Proof.
  unfold commit_next. intros H. step_ok H as rev Hrev. cbv zeta in H. injection H as <-.
  case_match.
  - set (n := with_revision next rev).
    destruct (compact_hot_state_lanes n) as (E1 & E2 & E3 & E4).
    rewrite E1, E2, E3, E4. split; [done|]. eexists. split; [|split; [reflexivity|split; [|split]]].
    + intros row Ha. cbn. by rewrite Ha.
    + intros a Ha (row & Hrow & Hid). cbn in *.
      apply list_elem_of_In, filter_In. split; [by apply list_elem_of_In|].
      apply bool_decide_eq_true, elem_of_list_to_set, list_elem_of_fmap. by exists row.
    + intros r. cbn. rewrite !list_elem_of_In, filter_In. by intros [? _].
    + cbn. induction (js_rate_movement_reservations next) as [|r l IH]; [done|]. cbn.
      destruct (bool_decide (rm_state r = MovementPending)) eqn:E; cbn.
      * rewrite E. by f_equal.
      * case_match; cbn; [by rewrite E|done].
  - split; [done|]. exists (fun _ => true). split; [done|]. split; [|done].
    cbn. induction (js_transactions next) as [|r l IH]; [done|]. cbn. by f_equal.
Qed.

Lemma commit_lanes_wf s command s' :
  is_rewind command = false -> commit s command = Ok s' ->
  lanes_wf (js_transactions s) -> lanes_wf (js_transactions s').
Proof.
  unfold commit. intros Hr H Hwf. step_ok H as next Hn.
  apply commit_next_lanes in H as (_ & keep & _ & -> & _).
  apply filter_lanes_wf. eapply row_step_wf; [exact Hwf|]. by eapply mutate_row_step in Hn as [? _].
Qed.

Lemma process_all_inv (P : JsonState -> Prop) (allowed : StorageCommand -> bool) :
  (forall s command s', allowed command = true -> P s -> commit s command = Ok s' -> P s') ->
  forall commands s, Forall (fun c => allowed c = true) commands -> P s ->
    P (process_all s commands).
Proof.
  intros Hstep commands. induction commands as [|c commands IH]; intros s Hall Hs; [done|].
  apply Forall_cons in Hall as [Hc Hall]. cbn. apply IH; [done|].
  unfold process. destruct (commit s c) eqn:E; [|done]. by eapply Hstep.
Qed.

Lemma load_unresolved_total s signer :
  lanes_wf (js_transactions s) ->
  exists found, load_unresolved s signer = Ok found /\
    (is_Some found <-> exists row, row ∈ js_transactions s /\ owns_lane signer row = true).
Proof.
  intros [_ Hs]. specialize (Hs signer). unfold load_unresolved.
  destruct (List.filter _ _) as [|row [|]] eqn:E; cbn in Hs; [| |lia].
  - eexists. split; [done|]. split; [by intros [? ?]|]. intros (row & Hin & Ho).
    assert (In row (List.filter (owns_lane signer) (js_transactions s))) as Hi
      by (apply filter_In; by split; [apply list_elem_of_In|]). by rewrite E in Hi.
  - eexists. split; [done|]. split; [|by eexists]. intros _. exists row.
    assert (In row (List.filter (owns_lane signer) (js_transactions s))) as Hi
      by (rewrite E; by left).
    apply filter_In in Hi as [Hi Ho]. by split; [apply list_elem_of_In|].
Qed.

Lemma try_map_total {E A B} (f : A -> result E B) l :
  Forall (fun x => is_ok (f x) = true) l -> is_ok (try_map f l) = true.
Proof.
  induction 1 as [|x l Hx _ IH]; [done|]. cbn. destruct (f x); [|done]. cbn.
  by destruct (try_map f l).
Qed.

Lemma load_all_unresolved_total s :
  lanes_wf (js_transactions s) -> is_ok (load_all_unresolved s) = true.
Proof.
  intros Hwf. unfold load_all_unresolved. apply try_map_total, Forall_forall. intros signer Hin.
  unfold set_elements in Hin. rewrite merge_sort_Permutation in Hin.
  apply elem_of_elements, elem_of_list_to_set, list_elem_of_fmap in Hin as (row & -> & Hin).
  apply list_elem_of_In, filter_In in Hin as [Hin Hu].
  destruct (load_unresolved_total s (nr_signer (tx_reservation row)) Hwf) as (found & -> & Hf).
  destruct Hf as [_ [u ->]]; [|done]. exists row. split; [by apply list_elem_of_In|].
  unfold owns_lane. by rewrite Z.eqb_refl.
Qed.

(** C1: Between canonical rewinds, whatever mutating commands the storage
    actor is sent, a signer owns at most one unresolved nonce lane and
    transaction identities stay unique, so that loading the unresolved lane of
    any signer, or of all of them, never fails. *)
Theorem single_unresolved_lane commands s :
  Forall (fun c => negb (is_rewind c) = true) commands ->
  lanes_wf (js_transactions s) ->
  let final := process_all s commands in
  lanes_wf (js_transactions final) /\
  is_ok (load_all_unresolved final) = true /\
  (forall signer, is_ok (load_unresolved final signer) = true).
Proof.
  intros Hc Hs final.
  assert (lanes_wf (js_transactions final)) as Hwf.
  { apply (process_all_inv (fun s => lanes_wf (js_transactions s))
             (fun c => negb (is_rewind c))); [|done|done].
    intros s0 c s1 Hr%negb_true_iff H0 H1. by eapply commit_lanes_wf. }
  split; [done|]. split; [by apply load_all_unresolved_total|]. intros signer.
  by destruct (load_unresolved_total final signer Hwf) as (? & -> & _).
Qed.


(** ** Broadcast evidence *)

(** States a row can only be in after bytes of it were broadcast. *)
Definition broadcast_state (state : TransactionState) : bool :=
  match state with
  | NonceReserved | AbortedBeforeSigning | Signed | Failed | ForeignNonceConsumed
  | CancellationSigned => false
  | _ => true
  end.

Definition broadcast_evidence (s : JsonState) : Prop :=
  forall row, row ∈ js_transactions s -> broadcast_state (tx_state row) = true ->
    exists a, a ∈ js_transaction_attempts s /\ sa_transaction_id a = row_id row /\
      is_Some (sa_broadcast_at a).

Lemma permits_broadcast s t :
  permits s t = true -> broadcast_state t = true ->
  broadcast_state s = true \/ broadcasts t = true.
Proof. destruct s, t; cbn; auto. Qed.

(** A row in any state that presupposes a broadcast (submitted, replaced,
    included, confirmed, reverted, validated, reconciled, ...) is backed by a
    durable signed attempt of the same transaction whose broadcast was
    recorded; every command other than a rewind preserves this, compaction
    included. *)
Theorem broadcast_backed_by_signed_attempt commands s :
  Forall (fun c => negb (is_rewind c) = true) commands ->
  broadcast_evidence s -> broadcast_evidence (process_all s commands).
Proof.
  apply (process_all_inv broadcast_evidence (fun c => negb (is_rewind c))). clear s commands.
  intros s command s' Hr%negb_true_iff Hs H. unfold commit in H. step_ok H as next Hn.
  destruct (mutate_row_step _ _ _ Hr Hn) as [Hstep Hle].
  assert (broadcast_evidence next) as Hnext.
  { assert (forall row, row ∈ js_transactions s -> broadcast_state (tx_state row) = true ->
      has_broadcast (js_transaction_attempts next) (row_id row)) as Hold.
    { intros row Hin Hb. destruct (Hs row Hin Hb) as (a & Ha & Hid & Hbr).
      destruct (Hle a Ha Hbr) as (a' & Ha' & Hid' & Hbr'). exists a'. by rewrite Hid', Hid. }
    intros row' Hin Hb. destruct Hstep as [|r _ _|id row f Hf Hres Hp Hbr]; [by apply Hold| |].
    - apply elem_of_app in Hin as [Hin| ->%list_elem_of_singleton]; [by apply Hold|done].
    - apply elem_of_update_first in Hin as [Hin|(x & Hx & ->)]; [by apply Hold|].
      rewrite Hf in Hx. injection Hx as <-. apply find_has_id in Hf as [Hf Hid].
      replace (row_id (f row)) with (row_id row) by (unfold row_id; by rewrite Hres).
      destruct (permits_broadcast _ _ Hp Hb) as [Hb'|Hb']; [by apply Hold|].
      unfold row_id. rewrite Hid. by apply Hbr. }
  apply commit_next_lanes in H as (_ & keep & _ & Hrows & Hatt & _).
  intros row Hin Hb. pose proof Hin as Hin'. rewrite Hrows in Hin'.
  apply list_elem_of_In, filter_In in Hin' as [Hin' _].
  destruct (Hnext row) as (a & Ha & Hid & Hbr); [by apply list_elem_of_In|done|].
  exists a. split; [|done]. apply Hatt; [done|]. by exists row.
Qed.

End Commands.
