(* ===== verification/StorageLedger.v ===== *)
(** * The rate-movement ledger and canonical rewinds

    The pending movement of every durable episode is the sum of the pending
    reservations that own it, through every command including rewinds; and
    what a rewind leaves behind. *)
From Stdlib Require Import ZArith Lia List Bool String.
From stdpp Require Import base list gmap sets sorting.
From S2P Require Import Prelude.
From S2P Require Import Domain.
From S2P Require Import Episodes.
From S2P Require Import Models.
From S2P Require Import Storage.
From S2P Require Import Actor.
From S2P Require Import StorageProofs.
Open Scope Z_scope.

(** ** Movements pending against an episode *)

Definition pending_share (id : EpisodeId) (r : RateMovementReservationRecord) : Z :=
  if bool_decide (rm_state r = MovementPending) && (rm_episode_id r =? id)
  then rm_movement_assets r else 0.

Definition pending_of (movements : list RateMovementReservationRecord) (id : EpisodeId) : Z :=
  list_sum (pending_share id <$> movements).

Definition episode_id_of (entry : TimedEpisode) : EpisodeId := re_episode_id (te_episode entry).

Record ledger_wf (movements : list RateMovementReservationRecord)
    (episodes : list TimedEpisode) : Prop := {
  lg_ids : NoDup (episode_id_of <$> episodes);
  lg_pending : forall entry, entry ∈ episodes ->
    re_pending_movement (te_episode entry) = pending_of movements (episode_id_of entry);
  lg_owned : forall r, r ∈ movements -> rm_state r = MovementPending ->
    exists entry, entry ∈ episodes /\ episode_id_of entry = rm_episode_id r;
}.

Lemma pending_of_app l1 l2 id : pending_of (l1 ++ l2) id = pending_of l1 id + pending_of l2 id.
Proof. unfold pending_of. by rewrite fmap_app, list_sum_app. Qed.

Lemma pending_of_cons r l id : pending_of (r :: l) id = pending_share id r + pending_of l id.
Proof. done. Qed.

Lemma pending_share_other id id' r : rm_episode_id r = id -> id <> id' -> pending_share id' r = 0.
Proof.
  intros <- Hne. unfold pending_share. rewrite (proj2 (Z.eqb_neq _ _)) by done.
  by rewrite andb_false_r.
Qed.

Lemma pending_of_filter l id :
  pending_of l id
  = pending_of (List.filter (fun r => bool_decide (rm_state r = MovementPending)) l) id.
Proof.
  induction l as [|r l IH]; [done|]. rewrite pending_of_cons. cbn [List.filter].
  destruct (bool_decide (rm_state r = MovementPending)) eqn:E; [by rewrite pending_of_cons, IH|].
  unfold pending_share. rewrite E. cbn [andb]. lia.
Qed.

(** Only the pending reservations matter to the ledger. *)
Lemma ledger_wf_pending_only m m' es :
  List.filter (fun r => bool_decide (rm_state r = MovementPending)) m'
  = List.filter (fun r => bool_decide (rm_state r = MovementPending)) m ->
  ledger_wf m es -> ledger_wf m' es.
Proof.
  intros Hf [Hi Hp Ho]. constructor; [done| |].
  - intros entry Hin. by rewrite pending_of_filter, Hf, <-pending_of_filter, Hp.
  - intros r Hin Hs. apply Ho; [|done].
    assert (In r (List.filter (fun r => bool_decide (rm_state r = MovementPending)) m')) as Hr
      by (apply filter_In; split; [by apply list_elem_of_In|by apply bool_decide_eq_true]).
    rewrite Hf in Hr. apply filter_In in Hr as [Hr _]. by apply list_elem_of_In.
Qed.

Lemma find_has_episode id es entry :
  find (has_episode id) es = Some entry -> entry ∈ es /\ episode_id_of entry = id.
Proof. intros [Hin Hid%Z.eqb_eq]%find_some. by split; [apply list_elem_of_In|]. Qed.

(** Rewriting one episode and one share of its movements in step. *)
Lemma ledger_update m m' es id entry delta g :
  ledger_wf m es -> find (has_episode id) es = Some entry ->
  (forall x, x ∈ es -> episode_id_of x = id -> episode_id_of (g x) = id) ->
  re_pending_movement (te_episode (g entry))
    = re_pending_movement (te_episode entry) + delta ->
  (forall id', pending_of m' id' = pending_of m id' + if id' =? id then delta else 0) ->
  (forall r, r ∈ m' -> rm_state r = MovementPending -> r ∈ m \/ rm_episode_id r = id) ->
  ledger_wf m' (update_first (has_episode id) g es).
Proof.
  intros [Hi Hp Ho] Hf Hg Hdelta Hm Hown.
  pose proof (find_has_episode _ _ _ Hf) as [Hin Hid].
  specialize (Hg entry Hin Hid).
  destruct (update_first_split _ g _ _ Hf) as (l1 & l2 & -> & Hu & _ & _). rewrite Hu.
  assert (episode_id_of <$> l1 ++ g entry :: l2 = episode_id_of <$> l1 ++ entry :: l2) as Hmap
    by (rewrite !fmap_app; cbn; by rewrite Hg, Hid).
  rewrite fmap_app in Hi. apply NoDup_app in Hi as (Hi1 & Hdis & Hi2). cbn in Hi2.
  apply NoDup_cons in Hi2 as [Hni Hi2].
  assert (forall x, x ∈ l1 ++ l2 -> episode_id_of x <> id) as Hother.
  { intros x Hx E. apply elem_of_app in Hx as [Hx|Hx].
    - apply (Hdis (episode_id_of x)); [apply list_elem_of_fmap; eauto|].
      rewrite E, <-Hid. cbn. apply elem_of_cons. by left.
    - apply Hni. rewrite Hid, <-E. apply list_elem_of_fmap. eauto. }
  constructor.
  - rewrite Hmap, fmap_app. apply NoDup_app. split; [done|]. split; [done|].
    cbn. by apply NoDup_cons.
  - intros x Hx. rewrite Hm. apply elem_of_app in Hx as [Hx|[->|Hx]%elem_of_cons].
    + rewrite (proj2 (Z.eqb_neq _ _)) by (apply Hother, elem_of_app; auto).
      rewrite Z.add_0_r. apply Hp, elem_of_app. by left.
    + rewrite Hg, Z.eqb_refl, Hdelta, Hp by done. by rewrite Hid.
    + rewrite (proj2 (Z.eqb_neq _ _)) by (apply Hother, elem_of_app; auto).
      rewrite Z.add_0_r. apply Hp, elem_of_app. right. apply elem_of_cons. by right.
  - intros r Hr Hs.
    assert (exists x, x ∈ l1 ++ entry :: l2 /\ episode_id_of x = rm_episode_id r) as (x & Hx & E).
    { destruct (Hown r Hr Hs) as [Hr'| ->]; [by apply Ho|by exists entry]. }
    apply elem_of_app in Hx as [Hx|[->|Hx]%elem_of_cons].
    + exists x. split; [apply elem_of_app; by left|done].
    + exists (g entry). split; [apply elem_of_app; right; apply elem_of_cons; by left|].
      congruence.
    + exists x. split; [apply elem_of_app; right; apply elem_of_cons; by right|done].
Qed.

(** ** The movement operations of an episode *)

Lemma reserve_pending_committed e m e' :
  committed (reserve_pending e m) = Ok e' ->
  re_episode_id e' = re_episode_id e /\ re_pending_movement e' = re_pending_movement e + m.
Proof.
  unfold reserve_pending. destruct (available_budget e); [|done]. case_match; [done|].
  destruct (checked_add _ _ _) eqn:E; [|done]. apply checked_add_Some in E as [-> _].
  by intros [= <-].
Qed.

Lemma release_pending_committed e m e' :
  committed (release_pending e m) = Ok e' ->
  re_episode_id e' = re_episode_id e /\ re_pending_movement e' = re_pending_movement e - m.
Proof.
  unfold release_pending. destruct (checked_sub _ _) eqn:E; [|done].
  apply checked_sub_Some in E as [-> _]. by intros [= <-].
Qed.

Lemma confirm_pending_committed e m e' :
  committed (confirm_pending e m) = Ok e' ->
  re_episode_id e' = re_episode_id e /\ re_pending_movement e' = re_pending_movement e - m.
Proof.
  unfold confirm_pending. destruct (checked_sub _ _) eqn:E; [|done].
  apply checked_sub_Some in E as [-> _]. destruct (checked_add _ _ _); [|done].
  by intros [= <-].
Qed.

Lemma reopen_confirmed_committed e m b e' :
  committed (reopen_confirmed e m b) = Ok e' ->
  re_episode_id e' = re_episode_id e /\ re_pending_movement e' = re_pending_movement e + m.
Proof.
  unfold reopen_confirmed. destruct (checked_sub _ _); [|done].
  destruct (checked_add _ _ _) eqn:E; [|done]. apply checked_add_Some in E as [-> _].
  destruct (checked_sub _ _); [|done]. by intros [= <-].
Qed.

(** ** Moving one reservation *)

(** A pending reservation that leaves the pending state takes its amount off
    its episode. *)
Lemma ledger_settled m es r p entry e' state g :
  ledger_wf m es -> find p m = Some r -> rm_state r = MovementPending ->
  state <> MovementPending ->
  find (has_episode (rm_episode_id r)) es = Some entry ->
  (forall x, te_episode (g x) = e') ->
  re_episode_id e' = re_episode_id (te_episode entry) ->
  re_pending_movement e' = re_pending_movement (te_episode entry) - rm_movement_assets r ->
  ledger_wf (update_first p (fun r => movement_with_state r state) m)
    (update_first (has_episode (rm_episode_id r)) g es).
Proof.
  intros Hl Hp Hr Hs Hf Hg Hid Hpend.
  destruct (update_first_split p (fun r => movement_with_state r state) m r Hp)
    as (m1 & m2 & Em & -> & _ & _).
  eapply (ledger_update m) with (delta := - rm_movement_assets r);
    [exact Hl|exact Hf| | | |].
  - intros x Hx E. unfold episode_id_of. rewrite Hg, Hid.
    by apply find_has_episode in Hf as [_ <-].
  - rewrite Hg. lia.
  - intros id'. rewrite Em, !pending_of_app, !pending_of_cons. unfold pending_share. cbn.
    rewrite (bool_decide_eq_false_2 (state = _)) by done.
    rewrite (bool_decide_eq_true_2 (rm_state r = _)) by done. cbn [andb].
    rewrite (Z.eqb_sym id'). destruct (rm_episode_id r =? id'); lia.
  - intros x Hx Hxs. rewrite Em. apply elem_of_app in Hx as [Hx|[->|Hx]%elem_of_cons].
    + left. apply elem_of_app. by left.
    + done.
    + left. apply elem_of_app. right. apply elem_of_cons. by right.
Qed.

Lemma find_filter_singleton {A} (p : A -> bool) l x rest :
  List.filter p l = x :: rest -> find p l = Some x.
Proof.
  induction l as [|y l IH]; cbn; [done|]. destruct (p y); [by intros [= ->]|auto].
Qed.

Lemma release_rate_movement_ledger s id s' :
  release_rate_movement s id = Ok s' ->
  ledger_wf (js_rate_movement_reservations s) (js_rate_episodes s) ->
  ledger_wf (js_rate_movement_reservations s') (js_rate_episodes s').
Proof.
  unfold release_rate_movement. intros H Hl.
  destruct (List.filter _ _) as [|r [|]] eqn:E; [by injection H as <-| |done]. cbv zeta in H.
  step_ok H as entry He. step_ok H as e' He'. injection H as <-. cbn.
  apply ok_or_Ok in He. apply map_err_Ok, release_pending_committed in He' as [Hid Hpend].
  pose proof (find_filter_singleton _ _ _ _ E) as Hf.
  apply find_some in Hf as Hr. destruct Hr as [_ [_ Hr%bool_decide_eq_true]%andb_true_iff].
  unfold replace_episode. eapply (ledger_settled _ _ r _ entry e'); [exact Hl|exact Hf|exact Hr|done|exact He
    |intros y; reflexivity|exact Hid|exact Hpend].
Qed.

Lemma transition_transaction_ledger s t s' :
  transition_transaction s t = Ok s' ->
  ledger_wf (js_rate_movement_reservations s) (js_rate_episodes s) ->
  ledger_wf (js_rate_movement_reservations s') (js_rate_episodes s').
Proof.
  unfold transition_transaction. cbv zeta. intros H Hl.
  step_ok H as ? G1. step_ok H as ? G2. step_ok H as row Hrow. step_ok H as ? G3.
  step_ok H as s1 Hs1.
  assert (js_rate_movement_reservations s1 = js_rate_movement_reservations s /\
          js_rate_episodes s1 = js_rate_episodes s) as [E1 E2].
  { unfold mark_broadcast in Hs1. destruct (broadcasts _); [|by injection Hs1 as <-].
    guards Hs1. by injection Hs1 as <-. }
  destruct (releases_movement _); [|injection H as <-; cbn; by rewrite E1, E2].
  eapply release_rate_movement_ledger; [exact H|]. cbn. by rewrite E1, E2.
Qed.

Section Ledger.
Context `{HK : Keccak}.

Lemma reserve_rate_movement_and_nonce_ledger s r id m s' rec :
  reserve_rate_movement_and_nonce s r id m = Ok (s', rec) ->
  ledger_wf (js_rate_movement_reservations s) (js_rate_episodes s) ->
  ledger_wf (js_rate_movement_reservations s') (js_rate_episodes s').
Proof.
  unfold reserve_rate_movement_and_nonce. cbv zeta. intros H Hl.
  step_ok H as plan_id G1. step_ok H as plan G2. step_ok H as ? G3. step_ok H as ? G4.
  step_ok H as entry He. step_ok H as before G5. step_ok H as e' He'. step_ok H as after G6.
  step_ok H as s1 Hs1. injection H as <- _.
  apply reserve_nonce_rows in Hs1 as (_ & _ & E1 & E2). cbn in *. rewrite E1, E2.
  apply ok_or_Ok in He.
  apply map_err_Ok, reserve_pending_committed in He' as [Hid Hpend].
  eapply (ledger_update (js_rate_movement_reservations s)) with (delta := m);
    [exact Hl|exact He| | | |].
  - intros y Hy E. unfold episode_id_of. cbn. rewrite Hid.
    by apply find_has_episode in He as [_ <-].
  - exact Hpend.
  - intros id'. rewrite pending_of_app, pending_of_cons. change (pending_of [] id') with 0.
    unfold pending_share. cbn.
    rewrite (bool_decide_eq_true_2 (MovementPending = _)) by done. cbn [andb].
    rewrite (Z.eqb_sym id'). destruct (id =? id'); lia.
  - intros y [Hy| ->%list_elem_of_singleton]%elem_of_app _; [by left|by right].
Qed.

Lemma finalize_ledger s id st t s' :
  finalize_conformed_post_state_failure s id st t = Ok s' ->
  ledger_wf (js_rate_movement_reservations s) (js_rate_episodes s) ->
  ledger_wf (js_rate_movement_reservations s') (js_rate_episodes s').
Proof.
  unfold finalize_conformed_post_state_failure. cbv zeta. intros H Hl.
  step_ok H as ? G1. step_ok H as row Hrow. step_ok H as ? G2. step_ok H as ? G3.
  step_ok H as ? G4. step_ok H as ? G5. step_ok H as ? G6. step_ok H as ? G7. step_ok H as ? G8.
  step_ok H as c Hc. step_ok H as ? G9. step_ok H as ? G10. step_ok H as ? G11.
  step_ok H as s1 Hs1. injection H as <-. cbn.
  destruct (List.filter _ (js_rate_movement_reservations s)) as [|r rest] eqn:E;
    [by injection Hs1 as <-|].
  unfold confirm_failed_movement in Hs1. cbv zeta in Hs1. step_ok Hs1 as ? G12.
  step_ok Hs1 as entry He. apply ok_or_Ok in He. destruct st; try done.
  - step_ok Hs1 as ? Hr. step_ok Hs1 as e' He'. injection Hs1 as <-. cbn.
    apply require_Ok, bool_decide_eq_true in Hr.
    apply map_err_Ok, confirm_pending_committed in He' as [Hid Hpend].
    apply find_filter_singleton in E.
    unfold replace_episode. eapply (ledger_settled _ _ r _ entry e'); [exact Hl|exact E|exact Hr|done|exact He
      |intros y; reflexivity|exact Hid|exact Hpend].
  - step_ok Hs1 as ? Hr. by injection Hs1 as <-.
Qed.

Lemma persist_reconciliation_ledger s record snapshot episode s' :
  persist_reconciliation s record snapshot episode = Ok s' ->
  ledger_wf (js_rate_movement_reservations s) (js_rate_episodes s) ->
  ledger_wf (js_rate_movement_reservations s') (js_rate_episodes s').
Proof.
  unfold persist_reconciliation. cbv zeta. intros H Hl.
  step_ok H as ? G1. step_ok H as ? G2. step_ok H as row Hrow. step_ok H as em Hem.
  step_ok H as ? G3. step_ok H as ? G4. step_ok H as ? G5. step_ok H as s1 Hs1.
  apply ok_or_Ok in Hem. injection H as <-.
  set (s0 := persist_snapshot _ _ _) in Hs1.
  assert (js_rate_movement_reservations s0 = js_rate_movement_reservations s /\
          js_rate_episodes s0 = js_rate_episodes s) as [E1 E2]
    by (subst s0; match goal with
        | |- context [persist_snapshot ?a ?b ?c] =>
            by destruct (persist_snapshot_rows a b c) as (_ & _ & -> & ->)
        end).
  clearbody s0.
  destruct (List.filter _ (js_rate_movement_reservations s)) as [|r rest] eqn:E.
  - destruct episode; [done|]. injection Hs1 as <-.
    assert (find (owned_movement (rc_transaction_id record))
              (js_rate_movement_reservations s0) = None) as Hn.
    { rewrite E1. clear -E. induction (js_rate_movement_reservations s) as [|y l IH]; [done|].
      cbn in *. destruct (owned_movement _ y); [done|auto]. }
    destruct (bool_decide (tx_state row = _)); cbn; rewrite ?(find_none_update _ _ _ Hn), E1, E2; exact Hl.
  - destruct episode as [ep|]; [|done]. apply find_filter_singleton in E.
    unfold reconciled_episode in G5. step_ok G5 as ? Hid. step_ok G5 as ? Hst.
    step_ok G5 as entry He. step_ok G5 as e' He'.
    apply require_Ok, bool_decide_eq_true in G5 as ->.
    apply require_Ok, Z.eqb_eq in Hid. apply require_Ok, bool_decide_eq_true in Hst.
    apply ok_or_Ok in He.
    unfold persist_episode in Hs1. cbv zeta in Hs1. destruct (_ && _); [done|].
    injection Hs1 as <-. cbn. rewrite E1, E2, Hid.
    assert (existsb (has_episode (rm_episode_id r)) (js_rate_episodes s) = true) as ->.
    { apply find_some in He as [He1 He2]. apply existsb_exists. eauto. }
    destruct (decide (tx_state row = ConformanceValidated)) as [Hs|Hs].
    + rewrite (bool_decide_eq_true_2 (tx_state row = _)) in He' |- * by done. cbn.
      apply map_err_Ok, confirm_pending_committed in He' as [Hid' Hpend].
      rewrite Hs in Hem. injection Hem as <-.
      eapply (ledger_settled _ _ r _ entry ep);
        [exact Hl|exact E|exact Hst|done|exact He|intros y; reflexivity|exact Hid'|exact Hpend].
    + rewrite (bool_decide_eq_false_2 (tx_state row = _)) in He' |- * by done.
      cbn. rewrite ?E1.
      injection He' as <-.
      apply (ledger_update (js_rate_movement_reservations s)) with (entry := entry) (delta := 0);
        [exact Hl|exact He| |cbn; lia|intros id'; destruct (id' =? _); lia|auto].
      intros y _ _. exact Hid.
Qed.

(** An episode that follows from the stored one of its identity by changes of
    the signal, or a new one under an identity that is not stored. *)
Definition signal_update (s : JsonState) (episode : RateSignalEpisode) : Prop :=
  match find (has_episode (re_episode_id episode)) (js_rate_episodes s) with
  | Some entry => rtc signal_step (te_episode entry) episode
  | None => just_started episode
  end.

(** What the actor relies on: the one command that stores an episode from
    outside is a signal update of the state it is applied to. *)
Definition respects_ledger (s : JsonState) (command : StorageCommand) : Prop :=
  match command with
  | PersistRateEpisode episode _ => signal_update s episode
  | _ => True
  end.

Lemma signal_update_pending s episode :
  signal_update s episode ->
  ledger_wf (js_rate_movement_reservations s) (js_rate_episodes s) ->
  re_pending_movement episode
  = pending_of (js_rate_movement_reservations s) (re_episode_id episode).
Proof.
  unfold signal_update. intros Hu [_ Hp Ho].
  destruct (find _ _) as [entry|] eqn:Hf.
  - apply find_has_episode in Hf as [Hin Hid]. apply signal_steps_movement in Hu as [_ ->].
    by rewrite (Hp entry Hin), Hid.
  - rewrite (just_started_movement _ Hu). unfold pending_of. symmetry.
    assert (Forall (fun r => pending_share (re_episode_id episode) r = 0)
              (js_rate_movement_reservations s)) as Hz.
    { apply Forall_forall. intros r Hr. unfold pending_share. case_bool_decide as Hs; [|done].
      destruct (Z.eqb_spec (rm_episode_id r) (re_episode_id episode)) as [E|]; [|done].
      destruct (Ho r Hr Hs) as (entry & Hin & Hid). exfalso.
      pose proof (find_none _ _ Hf entry ltac:(by apply list_elem_of_In)) as Hne.
      apply Z.eqb_neq in Hne. unfold episode_id_of in Hid. congruence. }
    clear -Hz. induction Hz as [|r l Hr _ IH]; [done|]. by rewrite fmap_cons, list_sum_cons, Hr, IH.
Qed.

Lemma persist_episode_ledger s e t s' :
  signal_update s e -> persist_episode s e t = Ok s' ->
  ledger_wf (js_rate_movement_reservations s) (js_rate_episodes s) ->
  ledger_wf (js_rate_movement_reservations s') (js_rate_episodes s').
Proof.
  unfold persist_episode. intros Hu H Hl. pose proof (signal_update_pending _ _ Hu Hl) as He.
  cbv zeta in H. destruct (_ && _); [done|].
  injection H as <-. cbn. destruct (existsb _ _) eqn:Ex.
  - destruct (find (has_episode (re_episode_id e)) (js_rate_episodes s)) as [entry|] eqn:Hf.
    + apply (ledger_update (js_rate_movement_reservations s)) with (entry := entry) (delta := 0);
        [done|done|done| |intros id'; destruct (id' =? _); lia|auto].
      apply find_has_episode in Hf as [Hin Hid]. cbn.
      rewrite He, (lg_pending _ _ Hl entry Hin), Hid. lia.
    + by rewrite find_none_update.
  - destruct Hl as [Hi Hp Ho]. constructor.
    + rewrite fmap_app. apply NoDup_app. split; [done|]. split; [|apply NoDup_singleton].
      intros id Hin ->%list_elem_of_singleton. apply list_elem_of_fmap in Hin as (x & Hx & Hin).
      assert (existsb (has_episode (re_episode_id e)) (js_rate_episodes s) = true); [|congruence].
      apply existsb_exists. exists x. split; [by apply list_elem_of_In|].
      apply Z.eqb_eq. symmetry. exact Hx.
    + intros x [Hx| ->%list_elem_of_singleton]%elem_of_app; [by apply Hp|exact He].
    + intros r Hr Hs. destruct (Ho r Hr Hs) as (x & Hx & Hid). exists x.
      split; [apply elem_of_app; by left|done].
Qed.

Lemma reopen_movements_ledger orphaned ms : forall pre es ms' es',
  reopen_movements orphaned ms es = Ok (ms', es') ->
  ledger_wf (pre ++ ms) es -> ledger_wf (pre ++ ms') es'.
Proof.
  induction ms as [|r ms IH]; intros pre es ms' es' H Hl; [by injection H as <- <-|].
  cbn in H. step_ok H as [r1 es1] H1. step_ok H as [ms2 es2] H2. injection H as <- <-.
  change (r1 :: ms2) with ([r1] ++ ms2). rewrite app_assoc. eapply IH; [exact H2|].
  rewrite <-app_assoc. cbn. destruct (_ && _) eqn:Hc; [|by injection H1 as <- <-].
  apply andb_true_iff in Hc as [Hc%bool_decide_eq_true _].
  step_ok H1 as entry He. step_ok H1 as e' He'. injection H1 as <- <-.
  apply ok_or_Ok in He. apply map_err_Ok, reopen_confirmed_committed in He' as [Hid Hpend].
  unfold replace_episode.
  apply (ledger_update (pre ++ r :: ms)) with (entry := entry) (delta := rm_movement_assets r);
    [exact Hl|exact He| |exact Hpend| |].
  - intros x Hx E. unfold episode_id_of. cbn. rewrite Hid.
    by apply find_has_episode in He as [_ <-].
  - intros id'. rewrite !pending_of_app, !pending_of_cons. unfold pending_share. cbn.
    rewrite Hc. rewrite (bool_decide_eq_true_2 (MovementPending = _)) by done.
    rewrite (bool_decide_eq_false_2 (MovementConfirmed = _)) by done. cbn [andb].
    rewrite (Z.eqb_sym id'). destruct (rm_episode_id r =? id'); lia.
  - intros x [Hx|[->|Hx]%elem_of_cons]%elem_of_app _; [|by right|];
      left; apply elem_of_app; [by left|right; apply elem_of_cons; by right].
Qed.

Lemma rewind_episode_movement ancestor entry :
  episode_id_of (rewind_episode ancestor entry) = episode_id_of entry /\
  re_pending_movement (te_episode (rewind_episode ancestor entry))
    = re_pending_movement (te_episode entry).
Proof. unfold rewind_episode, episode_id_of. cbv zeta. cbn. by destruct (episode_above _ _). Qed.

Lemma rewind_episodes_ledger ancestor ms es :
  ledger_wf ms es -> ledger_wf ms (rewind_episodes ancestor ms es).
Proof.
  intros [Hi Hp Ho]. unfold rewind_episodes. cbv zeta.
  assert (forall x, x ∈ (rewind_episode ancestor <$> es) -> exists y, y ∈ es /\
            episode_id_of x = episode_id_of y /\
            re_pending_movement (te_episode x) = re_pending_movement (te_episode y)) as Hx.
  { intros x (y & -> & Hy)%list_elem_of_fmap. exists y.
    destruct (rewind_episode_movement ancestor y). done. }
  constructor.
  - assert (episode_id_of <$> (rewind_episode ancestor <$> es) = episode_id_of <$> es) as E.
    { rewrite <-list_fmap_compose. apply list_fmap_ext. intros i y _.
      apply rewind_episode_movement. }
    rewrite <-E in Hi. clear -Hi. induction (rewind_episode ancestor <$> es) as [|x l IH];
      [done|]. cbn in *. apply NoDup_cons in Hi as [Hn Hd]. specialize (IH Hd).
    case_match; [|done]. cbn. apply NoDup_cons. split; [|done].
    intros (y & Hy & Hin)%list_elem_of_fmap. apply Hn.
    apply list_elem_of_In, filter_In in Hin as [Hin _]. rewrite Hy.
    apply list_elem_of_fmap. exists y. by split; [|apply list_elem_of_In].
  - intros x [Hin _]%list_elem_of_In%filter_In. apply list_elem_of_In in Hin.
    destruct (Hx x Hin) as (y & Hy & -> & ->). by apply Hp.
  - intros r Hr Hs. destruct (Ho r Hr Hs) as (y & Hy & Hid).
    exists (rewind_episode ancestor y).
    split; [|by rewrite (proj1 (rewind_episode_movement ancestor y))].
    apply list_elem_of_In, filter_In. split.
    + apply list_elem_of_In, list_elem_of_fmap. by exists y.
    + apply orb_true_iff. left. apply bool_decide_eq_true, elem_of_list_to_set.
      apply list_elem_of_fmap. exists r. split.
      * rewrite <-Hid. apply rewind_episode_movement.
      * apply list_elem_of_In, filter_In. split; [by apply list_elem_of_In|].
        by apply bool_decide_eq_true.
Qed.

Lemma rewind_ledger s chain_id ancestor s' r :
  rewind s chain_id ancestor = Ok (s', r) ->
  ledger_wf (js_rate_movement_reservations s) (js_rate_episodes s) ->
  ledger_wf (js_rate_movement_reservations s') (js_rate_episodes s').
Proof.
  unfold rewind. cbv zeta. intros H Hl. step_ok H as [orph reval] H1.
  step_ok H as [ms es] H2. injection H as <- _. cbn. apply rewind_episodes_ledger.
  by apply (reopen_movements_ledger orph _ []) in H2.
Qed.

Lemma mutate_ledger s command s' :
  respects_ledger s command -> mutate s command = Ok s' ->
  ledger_wf (js_rate_movement_reservations s) (js_rate_episodes s) ->
  ledger_wf (js_rate_movement_reservations s') (js_rate_episodes s').
Proof.
  intros Hr H Hl.
  destruct command; try (by eapply evidence_rows in H as (_ & _ & -> & ->); [|done]); cbn in H.
  - destruct (rewind _ _ _) as [[s1 r]|] eqn:E; [|done]. injection H as <-.
    by eapply rewind_ledger.
  - by apply reserve_nonce_rows in H as (_ & _ & -> & ->).
  - destruct (reserve_rate_movement_and_nonce _ _ _ _) as [[s1 r]|] eqn:E; [|done].
    injection H as <-. by eapply reserve_rate_movement_and_nonce_ledger.
  - unfold persist_signed in H. cbv zeta in H. guards H. by injection H as <-.
  - unfold persist_signed_attempt in H. cbv zeta in H. guards H. by injection H as <-.
  - unfold record_attempt_broadcast in H. guards H. by injection H as <-.
  - by eapply transition_transaction_ledger.
  - unfold persist_conformance in H. cbv zeta in H. guards H. by injection H as <-.
  - by eapply persist_reconciliation_ledger.
  - by eapply finalize_ledger.
  - by eapply persist_episode_ledger.
Qed.

(** C7: The pending movement of every durable rate episode is exactly the sum
    of the pending reservations that own it, no pending reservation is without
    its episode, and episode identities are unique: every command the actor
    accepts or rejects preserves this, canonical rewinds and compaction
    included.  The one command that stores an episode as it is given,
    [PersistRateEpisode], is taken to bring what its senders make: the stored
    episode of that identity after changes of the signal (observations, the
    unlocking, independent events, completion), which are shown to move
    nothing, or a freshly started one under an identity that is not stored.
    The actor itself does not check it: an episode loaded before a movement was
    reserved and stored after it breaks the ledger. *)
Theorem movement_ledger_conserved s command :
  respects_ledger s command ->
  ledger_wf (js_rate_movement_reservations s) (js_rate_episodes s) ->
  ledger_wf (js_rate_movement_reservations (process s command))
    (js_rate_episodes (process s command)).
Proof.
  intros Hr Hl. unfold process, commit. destruct (mutate s command) as [next|] eqn:Hn; [|done].
  cbn. destruct (commit_next next) as [s'|] eqn:Hc; [|done].
  apply commit_next_lanes in Hc as (-> & keep & _ & _ & _ & _ & Hf).
  eapply ledger_wf_pending_only; [exact Hf|]. by eapply mutate_ledger.
Qed.

End Ledger.

(** ** What a canonical rewind leaves behind *)

Definition at_or_below (ancestor : BlockRef) (number : Z) : Prop := number <= blk_number ancestor.

(** The inclusion of a row, as it is recorded or as a canonical receipt of one
    of its attempts shows it, lies above the ancestor. *)
Definition inclusion_above (s : JsonState) (chain_id : Z) (ancestor : BlockRef)
    (row : TransactionRow) : Prop :=
  (exists number, tx_included_block row = Some number /\ blk_number ancestor < number) \/
  (exists attempt receipt,
     attempt ∈ js_transaction_attempts s /\ sa_transaction_id attempt = row_id row /\
     receipt ∈ js_canonical_receipts s /\ cr_chain_id receipt = chain_id /\
     cr_transaction_hash receipt = sa_transaction_hash attempt /\
     blk_number ancestor < cr_block_number receipt).

(** The row was reconciled on a block above the ancestor. *)
Definition reconciled_above (s : JsonState) (ancestor : BlockRef) (row : TransactionRow) : Prop :=
  exists record, record ∈ js_reconciliation_records s /\
    rc_transaction_id record = row_id row /\ blk_number ancestor < blk_number (rc_block record).

(** What a rewind from [s] to [s'] forgets the inclusion of: a receipt-bearing
    row whose inclusion is above the ancestor, or whose reconciliation is and
    whose inclusion or conformance is no longer durable. *)
Definition forgets (s s' : JsonState) (chain_id : Z) (ancestor : BlockRef)
    (row : TransactionRow) : Prop :=
  is_rewindable (tx_state row) = true /\
  (inclusion_above s chain_id ancestor row \/
   reconciled_above s ancestor row /\ canonical_inclusion s' chain_id (row_id row) row = false).

(** What it keeps for another reconciliation. *)
Definition revalidates (s s' : JsonState) (chain_id : Z) (ancestor : BlockRef)
    (row : TransactionRow) : Prop :=
  reconciled_above s ancestor row /\ canonical_inclusion s' chain_id (row_id row) row = true /\
  ~ forgets s s' chain_id ancestor row.

Definition orphaned_row (row : TransactionRow) : TransactionRow :=
  mkTransactionRow (tx_reservation row) Orphaned (tx_transaction_hash row)
    (tx_raw_signed_transaction row) (tx_submitted_at row) None None (tx_updated_at row).

(** How a rewind treats one row. *)
Record rewound (s s' : JsonState) (chain_id : Z) (ancestor : BlockRef)
    (row row' : TransactionRow) : Prop := {
  rw_forgotten : forgets s s' chain_id ancestor row -> row' = orphaned_row row;
  rw_revalidated : revalidates s s' chain_id ancestor row ->
    tx_state row = Reconciled /\
    row' = row_with_state row ReconciliationPending (tx_transaction_hash row)
             (tx_raw_signed_transaction row) (blk_timestamp ancestor);
  rw_untouched : ~ forgets s s' chain_id ancestor row ->
    ~ revalidates s s' chain_id ancestor row -> row' = row;
}.

(** How it treats one movement: a confirmed one of a forgotten transaction is
    pending again. *)
Definition movement_rewound (s s' : JsonState) (chain_id : Z) (ancestor : BlockRef)
    (r r' : RateMovementReservationRecord) : Prop :=
  let reopened := rm_state r = MovementConfirmed /\
    exists row, row ∈ js_transactions s /\ row_id row = rm_transaction_id r /\
      forgets s s' chain_id ancestor row in
  (reopened -> r' = movement_with_state r MovementPending) /\ (~ reopened -> r' = r).

Lemma id_set_filter {A} (f : A -> Z) (p : A -> bool) l id :
  id ∈ id_set (f <$> List.filter p l) <-> exists x, x ∈ l /\ f x = id /\ p x = true.
Proof.
  unfold id_set. rewrite elem_of_list_to_set, list_elem_of_fmap. split.
  - intros (x & -> & [Hin Hp]%list_elem_of_In%filter_In). exists x. by split; [apply list_elem_of_In|].
  - intros (x & Hin & <- & Hp). exists x. split; [done|].
    apply list_elem_of_In, filter_In. by split; [apply list_elem_of_In|].
Qed.

Lemma orphaned_inclusions_spec s chain_id ancestor id :
  id ∈ orphaned_inclusions s chain_id ancestor <->
  exists row, row ∈ js_transactions s /\ row_id row = id /\
    is_rewindable (tx_state row) = true /\ inclusion_above s chain_id ancestor row.
Proof.
  unfold orphaned_inclusions. cbv zeta. rewrite id_set_filter. unfold inclusion_above, row_id, mem.
  split; intros (row & Hin & Hid & H); exists row; (split; [done|]); (split; [done|]).
  - apply andb_true_iff in H as [H Hr]. split; [done|]. apply orb_true_iff in H as [H|H].
    + left. destruct (tx_included_block row) as [n|]; [|done]. exists n. by apply Z.ltb_lt in H.
    + right. apply bool_decide_eq_true, id_set_filter in H as (a & Ha & Hid' & H).
      apply bool_decide_eq_true, id_set_filter in H as (r & Hr' & Hh & H).
      apply andb_true_iff in H as [Hc%Z.eqb_eq Hn%Z.ltb_lt]. by exists a, r.
  - destruct H as [Hr H]. rewrite Hr, andb_true_r. apply orb_true_iff. destruct H as [(n & -> & Hn)|H].
    + left. by apply Z.ltb_lt.
    + right. destruct H as (a & r & Ha & Hid' & Hr' & Hc & Hh & Hn).
      apply bool_decide_eq_true, id_set_filter. exists a. split; [done|]. split; [done|].
      apply bool_decide_eq_true, id_set_filter. exists r. split; [done|]. split; [done|].
      apply andb_true_iff. by rewrite Z.eqb_eq, Z.ltb_lt.
Qed.

(** The row of an identity was reconciled, with or without evidence that its
    inclusion is still canonical. *)
Definition reconciled_with (evidence : bool) (s : JsonState) (chain_id : Z) (id : TransactionId)
    : Prop :=
  exists row, find (has_id id) (js_transactions s) = Some row /\
    tx_state row = Reconciled /\ canonical_inclusion s chain_id id row = evidence.

Lemma reconciled_with_det s chain_id id :
  reconciled_with true s chain_id id -> reconciled_with false s chain_id id -> False.
Proof. intros (x & H1 & _ & H2) (y & H3 & _ & H4). congruence. Qed.

Lemma classify_fold s chain_id l : forall o v o' v',
  try_fold (classify_reconciliation s chain_id) (o, v) l = Ok (o', v') ->
  (forall id, id ∈ o' <-> id ∈ o \/ id ∈ l /\ id ∉ o /\ reconciled_with false s chain_id id) /\
  (forall id, id ∈ v' <-> id ∈ v \/ id ∈ l /\ id ∉ o /\ reconciled_with true s chain_id id) /\
  (forall id, id ∈ l -> id ∉ o -> exists evidence, reconciled_with evidence s chain_id id).
Proof.
  pose proof (reconciled_with_det s chain_id) as Hdet.
  induction l as [|id l IH]; intros o v o' v' H; [injection H as <- <-; set_solver|].
  cbn in H. step_ok H as [o1 v1] H1. apply IH in H as (Ho & Hv & He). clear IH.
  setoid_rewrite elem_of_cons.
  unfold classify_reconciliation in H1. destruct (mem id o) eqn:Hm.
  { injection H1 as <- <-. apply bool_decide_eq_true in Hm. naive_solver. }
  apply bool_decide_eq_false in Hm.
  step_ok H1 as row Hrow. step_ok H1 as ? Hst. apply ok_or_Ok in Hrow.
  apply require_Ok, bool_decide_eq_true in Hst.
  destruct (canonical_inclusion s chain_id id row) eqn:Hc; injection H1 as <- <-.
  - assert (reconciled_with true s chain_id id) as Hid by (by exists row).
    split; [|split].
    + intros i. rewrite Ho. naive_solver.
    + intros i. rewrite Hv. set_solver.
    + naive_solver.
  - assert (reconciled_with false s chain_id id) as Hid by (by exists row).
    split; [|split].
    + intros i. rewrite Ho. destruct (decide (i = id)); set_solver.
    + intros i. rewrite Hv. destruct (decide (i = id)); set_solver.
    + intros i Hi Hn. destruct (decide (i = id)); [naive_solver|]. apply He; set_solver.
Qed.

Lemma find_unique id rows row :
  NoDup (row_id <$> rows) -> row ∈ rows -> row_id row = id ->
  find (has_id id) rows = Some row.
Proof.
  intros Hnd Hin <-. destruct (find (has_id (row_id row)) rows) as [row0|] eqn:Hf.
  - apply find_has_id in Hf as [Hin0 Hid]. f_equal.
    clear -Hnd Hin Hin0 Hid. induction rows as [|x rows IH]; [by apply elem_of_nil in Hin|].
    cbn in Hnd. apply NoDup_cons in Hnd as [Hx Hnd].
    apply elem_of_cons in Hin as [->|Hin], Hin0 as [->|Hin0]; try done; [| |by apply IH].
    + exfalso. apply Hx. rewrite <-Hid. apply list_elem_of_fmap. by exists row0.
    + exfalso. apply Hx. unfold row_id at 1. rewrite Hid. apply list_elem_of_fmap. by exists row.
  - apply find_none with (x := row) in Hf; [|by apply list_elem_of_In].
    unfold has_id, row_id in Hf. by rewrite Z.eqb_refl in Hf.
Qed.

Lemma rewind_row_spec orphaned revalidated ancestor row :
  rewind_row orphaned revalidated ancestor row =
  if mem (row_id row) orphaned && (mem (row_id row) revalidated || is_rewindable (tx_state row))
  then orphaned_row (if mem (row_id row) revalidated
                     then row_with_state row ReconciliationPending (tx_transaction_hash row)
                            (tx_raw_signed_transaction row) (blk_timestamp ancestor)
                     else row)
  else if mem (row_id row) revalidated
  then row_with_state row ReconciliationPending (tx_transaction_hash row)
         (tx_raw_signed_transaction row) (blk_timestamp ancestor)
  else row.
Proof.
  unfold rewind_row. cbv zeta. fold (row_id row).
  destruct (mem (row_id row) revalidated), (mem (row_id row) orphaned); cbn; try done;
    by destruct (is_rewindable (tx_state row)).
Qed.

Lemma reopen_movements_spec orphaned ms : forall es ms' es',
  reopen_movements orphaned ms es = Ok (ms', es') ->
  ms' = (fun r => if bool_decide (rm_state r = MovementConfirmed) && mem (rm_transaction_id r) orphaned
                  then movement_with_state r MovementPending else r) <$> ms.
Proof.
  induction ms as [|r ms IH]; intros es ms' es' H; [by injection H as <- _|].
  cbn in H. step_ok H as [r1 es1] H1. step_ok H as [ms2 es2] H2. injection H as <- _.
  apply IH in H2 as ->. cbn. f_equal. destruct (_ && _); [|by injection H1 as <- _].
  step_ok H1 as entry He. step_ok H1 as e' He'. by injection H1 as <- _.
Qed.

Section Rewind.
Context (s : JsonState) (chain_id : Z) (ancestor : BlockRef) (s' : JsonState) (r : RewindResult).
Context (Hnd : NoDup (row_id <$> js_transactions s)) (H : rewind s chain_id ancestor = Ok (s', r)).

(** The two sets of a rewind, and what it makes of rows and movements. *)
Lemma rewind_sets : exists orphaned revalidated,
  js_transactions s' = rewind_row orphaned revalidated ancestor <$> js_transactions s /\
  js_rate_movement_reservations s' =
    ((fun r => if bool_decide (rm_state r = MovementConfirmed) && mem (rm_transaction_id r) orphaned
               then movement_with_state r MovementPending else r) <$> js_rate_movement_reservations s) /\
  (forall id, id ∈ orphaned <-> exists row, row ∈ js_transactions s /\ row_id row = id /\
     forgets s s' chain_id ancestor row) /\
  (forall row, row ∈ js_transactions s -> row_id row ∈ revalidated <->
     revalidates s s' chain_id ancestor row) /\
  (forall row, row ∈ js_transactions s -> row_id row ∈ revalidated -> tx_state row = Reconciled).
Proof.
  pose proof H as Hr. unfold rewind in Hr. cbv zeta in Hr. step_ok Hr as [orph reval] H1.
  step_ok Hr as [ms es] H2. injection Hr as Hs _. exists orph, reval.
  set (kept := retain_ancestors s chain_id ancestor) in *.
  assert (forall id row, canonical_inclusion s' chain_id id row = canonical_inclusion kept chain_id id row)
    as Hci by (intros; by rewrite <-Hs).
  apply reopen_movements_spec in H2. apply classify_fold in H1 as (Ho & Hv & He).
  assert (forall row, row ∈ js_transactions s -> forall evidence,
    reconciled_with evidence kept chain_id (row_id row) <->
    tx_state row = Reconciled /\ canonical_inclusion s' chain_id (row_id row) row = evidence) as Hrec.
  { intros row Hin evidence. pose proof (find_unique _ _ _ Hnd Hin eq_refl) as Hf.
    unfold reconciled_with. cbn. rewrite Hf. setoid_rewrite <-Hci. naive_solver. }
  assert (forall row, row_id row ∈ set_elements (id_set (rc_transaction_id <$> List.filter
      (fun r => blk_number ancestor <? blk_number (rc_block r)) (js_reconciliation_records s))) <->
    reconciled_above s ancestor row) as Hra.
  { intros row. rewrite elem_of_set_elements, id_set_filter. unfold reconciled_above.
    by setoid_rewrite Z.ltb_lt. }
  assert (forall row, row ∈ js_transactions s -> row_id row ∈ orphaned_inclusions s chain_id ancestor <->
    is_rewindable (tx_state row) = true /\ inclusion_above s chain_id ancestor row) as Hincl.
  { intros row Hin. rewrite orphaned_inclusions_spec. split; [|by eauto].
    intros (row1 & Hin1 & Hid & ?). pose proof (find_unique _ _ _ Hnd Hin1 Hid) as Hf.
    rewrite (find_unique _ _ _ Hnd Hin eq_refl) in Hf. by injection Hf as ->. }
  assert (forall row, row ∈ js_transactions s -> reconciled_above s ancestor row ->
    row_id row ∉ orphaned_inclusions s chain_id ancestor -> tx_state row = Reconciled) as Hstate.
  { intros row Hin Hab Hn. destruct (He (row_id row)) as [evidence Hev]; [by apply Hra|done|].
    by apply Hrec in Hev as [? _]. }
  assert (forall row, row ∈ js_transactions s -> row_id row ∈ orph <-> forgets s s' chain_id ancestor row) as Horph.
  { intros row Hin. rewrite Ho, Hra, Hrec by done. unfold forgets. pose proof (Hstate row Hin).
    rewrite (Hincl row Hin) in *. split.
    - intros [[? ?]|(? & ? & Hst & ?)]; [by split; [|left]|]. rewrite Hst. split; [done|right; by split].
    - intros [Hw [Hi|[Hab Hc]]]; [by left|].
      destruct (decide (row_id row ∈ orphaned_inclusions s chain_id ancestor)) as [Hd|Hd];
        rewrite (Hincl row Hin) in Hd; [by left|right]. auto. }
  split; [by rewrite <-Hs|]. split; [by rewrite <-Hs|]. split; [|split].
  - intros id. split.
    + intros Hid. assert (exists row, row ∈ js_transactions s /\ row_id row = id) as (row & Hin & <-).
      { apply Ho in Hid as [(row & ? & ? & _)%orphaned_inclusions_spec|(_ & _ & row & Hf & _)]; [by exists row|].
        exists row. by apply find_has_id in Hf. }
      exists row. by rewrite <-Horph.
    + intros (row & Hin & <- & Hf). by apply Horph.
  - intros row Hin. rewrite Hv, Hra, Hrec by done. unfold revalidates. rewrite <-(Horph row Hin).
    rewrite (Ho (row_id row)), Hra, (Hrec row Hin). pose proof (Hstate row Hin).
    split; [intros [?%not_elem_of_empty|(? & ? & ? & ?)]; [done|]|].
    + split_and!; [done..|]. intros [?|(_ & _ & _ & ?)]; [done|congruence].
    + intros (? & ? & Hn). right. assert (row_id row ∉ orphaned_inclusions s chain_id ancestor) by naive_solver.
      auto.
  - intros row Hin [?%not_elem_of_empty|(_ & _ & Hst)]%Hv; [done|]. by apply Hrec in Hst as [? _].
Qed.

End Rewind.

Lemma rewind_evidence s chain_id ancestor s' r :
  rewind s chain_id ancestor = Ok (s', r) ->
  (forall b, b ∈ js_canonical_blocks s' <-> b ∈ js_canonical_blocks s /\
     (cb_chain_id b = chain_id -> at_or_below ancestor (blk_number (cb_block b)))) /\
  (forall l, l ∈ js_canonical_logs s' <-> l ∈ js_canonical_logs s /\
     (cl_chain_id l = chain_id -> at_or_below ancestor (cl_block_number l))) /\
  (forall x, x ∈ js_canonical_receipts s' <-> x ∈ js_canonical_receipts s /\
     (cr_chain_id x = chain_id -> at_or_below ancestor (cr_block_number x))) /\
  (forall e, e ∈ js_exact_snapshots s' <-> e ∈ js_exact_snapshots s /\
     (ctx_chain_id (ev_context (ts_snapshot e)) = chain_id ->
      at_or_below ancestor (blk_number (ctx_block (ev_context (ts_snapshot e)))))) /\
  js_chain_cursors s' = <[ chain_id := ancestor ]> (js_chain_cursors s) /\
  (forall c, c ∈ js_conformance_records s' <->
     c ∈ js_conformance_records s /\ at_or_below ancestor (cf_block_number c)) /\
  (forall c, c ∈ js_reconciliation_records s' <->
     c ∈ js_reconciliation_records s /\ at_or_below ancestor (blk_number (rc_block c))) /\
  (forall e, e ∈ js_topology_history s' <->
     e ∈ js_topology_history s /\ at_or_below ancestor (blk_number (tr_block e))) /\
  (forall m, m ∈ js_top_k_apy_memory s' <->
     m ∈ js_top_k_apy_memory s /\ at_or_below ancestor (tk_last_observed_block (tm_memory m))).
Proof.
  unfold rewind. cbv zeta. intros H. step_ok H as [orph reval] H1. step_ok H as [ms es] H2.
  injection H as <- _. clear H1 H2. cbn -[Z.leb].
  assert (forall (A : Type) (l : list A) (chain number : A -> Z) x,
    x ∈ List.filter (fun x => negb (chain x =? chain_id) || (number x <=? blk_number ancestor)) l
    <-> x ∈ l /\ (chain x = chain_id -> at_or_below ancestor (number x))) as Hchain.
  { intros A l chain number x. rewrite !list_elem_of_In, filter_In, orb_true_iff, negb_true_iff.
    rewrite Z.eqb_neq, Z.leb_le. unfold at_or_below.
    destruct (decide (chain x = chain_id)); naive_solver. }
  assert (forall (A : Type) (l : list A) (number : A -> Z) x,
    x ∈ List.filter (fun x => number x <=? blk_number ancestor) l
    <-> x ∈ l /\ at_or_below ancestor (number x)) as Hall.
  { intros A l number x. by rewrite !list_elem_of_In, filter_In, Z.leb_le. }
  do 8 (split; [first [done|intros; apply Hchain|intros; apply Hall]|]); first [done|intros; apply Hchain|intros; apply Hall].
Qed.

Lemma rewind_row_rewound s s' chain_id ancestor orph reval row :
  (forall id, id ∈ orph <-> exists row, row ∈ js_transactions s /\ row_id row = id /\
     forgets s s' chain_id ancestor row) ->
  (forall row, row ∈ js_transactions s -> row_id row ∈ reval <-> revalidates s s' chain_id ancestor row) ->
  (forall row, row ∈ js_transactions s -> row_id row ∈ reval -> tx_state row = Reconciled) ->
  NoDup (row_id <$> js_transactions s) -> row ∈ js_transactions s ->
  rewound s s' chain_id ancestor row (rewind_row orph reval ancestor row).
Proof.
  intros Ho Hv Hst Hnd Hin. rewrite rewind_row_spec.
  assert (row_id row ∈ orph <-> forgets s s' chain_id ancestor row) as Hf.
  { rewrite Ho. split; [|by eauto]. intros (row1 & Hin1 & Hid & Hm).
    pose proof (find_unique _ _ _ Hnd Hin1 Hid) as E.
    rewrite (find_unique _ _ _ Hnd Hin eq_refl) in E. by injection E as ->. }
  specialize (Hv row Hin). specialize (Hst row Hin). unfold mem.
  split.
  - intros Hw. rewrite (bool_decide_eq_true_2 (_ ∈ orph)) by (by apply Hf).
    rewrite (bool_decide_eq_false_2 (_ ∈ reval)) by (rewrite Hv; by intros (_ & _ & ?)).
    destruct Hw as [-> _]. done.
  - intros Hw. split; [apply Hst; by apply Hv|].
    rewrite (bool_decide_eq_false_2 (_ ∈ orph)) by (rewrite Hf; by destruct Hw as (_ & _ & ?)).
    by rewrite (bool_decide_eq_true_2 (_ ∈ reval)) by (by apply Hv).
  - intros Hn1 Hn2. rewrite (bool_decide_eq_false_2 (_ ∈ orph)) by (by rewrite Hf).
    by rewrite (bool_decide_eq_false_2 (_ ∈ reval)) by (by rewrite Hv).
Qed.

(** C8: A successful rewind keeps exactly the chain's blocks, logs, receipts and
    snapshots at or below the ancestor and everything of other chains, keeps
    exactly the conformance, reconciliation, topology and strategy records at or
    below it, and moves the cursor to the ancestor.  Every transaction is
    decided exactly: a receipt-bearing row whose inclusion is above the
    ancestor, or that was reconciled above it and whose inclusion or conformance
    is no longer durable, becomes an orphan without inclusion; any other row
    reconciled above it goes back to its pending reconciliation; all others are
    untouched.  A confirmed movement is pending again exactly when its
    transaction is forgotten, and no receipt-bearing row is left with an
    inclusion above the ancestor. *)
Theorem rewind_sound s chain_id ancestor s' r :
  NoDup (row_id <$> js_transactions s) -> rewind s chain_id ancestor = Ok (s', r) ->
  (forall b, b ∈ js_canonical_blocks s' <-> b ∈ js_canonical_blocks s /\
     (cb_chain_id b = chain_id -> at_or_below ancestor (blk_number (cb_block b)))) /\
  (forall l, l ∈ js_canonical_logs s' <-> l ∈ js_canonical_logs s /\
     (cl_chain_id l = chain_id -> at_or_below ancestor (cl_block_number l))) /\
  (forall x, x ∈ js_canonical_receipts s' <-> x ∈ js_canonical_receipts s /\
     (cr_chain_id x = chain_id -> at_or_below ancestor (cr_block_number x))) /\
  (forall e, e ∈ js_exact_snapshots s' <-> e ∈ js_exact_snapshots s /\
     (ctx_chain_id (ev_context (ts_snapshot e)) = chain_id ->
      at_or_below ancestor (blk_number (ctx_block (ev_context (ts_snapshot e)))))) /\
  js_chain_cursors s' = <[ chain_id := ancestor ]> (js_chain_cursors s) /\
  (forall c, c ∈ js_conformance_records s' <->
     c ∈ js_conformance_records s /\ at_or_below ancestor (cf_block_number c)) /\
  (forall c, c ∈ js_reconciliation_records s' <->
     c ∈ js_reconciliation_records s /\ at_or_below ancestor (blk_number (rc_block c))) /\
  (forall e, e ∈ js_topology_history s' <->
     e ∈ js_topology_history s /\ at_or_below ancestor (blk_number (tr_block e))) /\
  (forall m, m ∈ js_top_k_apy_memory s' <->
     m ∈ js_top_k_apy_memory s /\ at_or_below ancestor (tk_last_observed_block (tm_memory m))) /\
  Forall2 (rewound s s' chain_id ancestor) (js_transactions s) (js_transactions s') /\
  Forall2 (movement_rewound s s' chain_id ancestor)
    (js_rate_movement_reservations s) (js_rate_movement_reservations s') /\
  (forall row' number, row' ∈ js_transactions s' -> is_rewindable (tx_state row') = true ->
     tx_included_block row' = Some number -> at_or_below ancestor number).
Proof.
  intros Hnd H.
  destruct (rewind_sets s chain_id ancestor s' r Hnd H) as (orph & reval & Et & Em & Ho & Hv & Hst).
  pose proof (rewind_evidence s chain_id ancestor s' r H) as
    (H1 & H2 & H3 & H4 & H5 & H6 & H7 & H8 & H9).
  do 9 (split; [assumption|]). clear H1 H2 H3 H4 H5 H6 H7 H8 H9.
  assert (forall row, row ∈ js_transactions s ->
    rewound s s' chain_id ancestor row (rewind_row orph reval ancestor row)) as Hrow.
  { intros row Hin. by apply rewind_row_rewound. }
  split; [|split].
  - rewrite Et. apply Forall2_fmap_r, Forall_Forall2_diag, Forall_forall. exact Hrow.
  - rewrite Em. apply Forall2_fmap_r, Forall_Forall2_diag, Forall_forall. intros x _. split.
    + intros [Hc Hx]. rewrite bool_decide_eq_true_2 by done. unfold mem.
      by rewrite bool_decide_eq_true_2 by (by apply Ho).
    + intros Hn. destruct (bool_decide (rm_state x = _)) eqn:Ec; [|done]. unfold mem.
      rewrite bool_decide_eq_false_2; [done|]. rewrite Ho. bool_spec Ec. naive_solver.
  - rewrite Et. intros row' number (row & -> & Hin)%list_elem_of_fmap Hr Hi.
    destruct (Hrow row Hin) as [Hf Hre Hu]. unfold at_or_below.
    destruct (decide (row_id row ∈ orph)) as [Hm|Hm].
    { rewrite Hf in Hr; [done|]. apply Ho in Hm as (row1 & Hin1 & Hid & Hm).
      pose proof (find_unique _ _ _ Hnd Hin1 Hid) as E.
      rewrite (find_unique _ _ _ Hnd Hin eq_refl) in E. by injection E as ->. }
    assert (~ forgets s s' chain_id ancestor row) as Hnf.
    { contradict Hm. apply Ho. by exists row. }
    destruct (Z.le_gt_cases number (blk_number ancestor)) as [|Hgt]; [done|]. exfalso. apply Hnf.
    destruct (decide (row_id row ∈ reval)) as [Hx|Hx].
    + destruct (Hre (proj1 (Hv row Hin) Hx)) as [Hs Er]. rewrite Er in Hi.
      split; [by rewrite Hs|]. left. left. by exists number.
    + assert (~ revalidates s s' chain_id ancestor row) as Hnr by (by rewrite <-(Hv row Hin)).
      rewrite (Hu Hnf Hnr) in Hr, Hi. split; [done|]. left. left. by exists number.
Qed.
