(* ===== verification/StorageExample.v ===== *)
(** * A concrete transaction lifecycle

    One transaction from its nonce reservation to its reconciliation, the
    applications of the storage theorems to it, and a rewind of it. *)
From Stdlib Require Import ZArith Lia List Bool String.
From stdpp Require Import base list gmap sets.
From S2P Require Import Prelude.
From S2P Require Import Domain.
From S2P Require Import Episodes.
From S2P Require Import Models.
From S2P Require Import Storage.
From S2P Require Import Actor.
From S2P Require Import StorageProofs.
From S2P Require Import StorageLedger.
From S2P Require Import SimulatorProofs.
Open Scope Z_scope.

#[local] Existing Instance sum_keccak.

Definition signer : Address := 9.

Definition reservation (id nonce : Z) : NonceReservation :=
  mkNonceReservation id None 1 signer nonce [1; 2] (keccak256 [1; 2]) 5 1 100 0 9 50.

Definition raw : Bytes := [7; 7; 7].

Definition included_at : BlockRef := Example.block.

Definition move (from to : TransactionState) : StorageCommand :=
  TransitionTransaction
    (mkTransactionTransition 1 from to (Some (keccak256 raw)) (Some 60)
       (if bool_decide (to = Included) then Some (blk_number included_at) else None)
       (if bool_decide (to = Included) then Some (blk_hash included_at) else None) 60).

Definition conformance : ConformanceRecord :=
  mkConformanceRecord 1 (keccak256 raw) (blk_number included_at) (blk_hash included_at) 1 0 0 1 70.

Definition reconciliation : ReconciliationRecord :=
  mkReconciliationRecord 1 (ev_snapshot_hash Example.snapshot) included_at 0 true false false 1 80.

Definition broadcast_commands : list StorageCommand :=
  [ReserveNonce (reservation 1 0);
   PersistSignedTransaction (mkSignedTransactionRecord 1 (keccak256 raw) raw 55);
   move Signed Submitted].

Definition lifecycle_commands : list StorageCommand :=
  broadcast_commands ++
  [ApplyCanonicalBlock
     (mkCanonicalBlockRecord (ctx_chain_id (ev_context Example.snapshot)) included_at) [] [];
   move Submitted Included; move Included Confirmed;
   PersistConformance conformance;
   PersistReconciliation reconciliation Example.snapshot None;
   ReserveNonce (reservation 2 1)].

Definition broadcast : JsonState := process_all JsonState_default broadcast_commands.
Definition reconciled : JsonState := process_all JsonState_default lifecycle_commands.

Definition ancestor : BlockRef := mkBlockRef 9 6 5 90 0.
Definition rewound_state : result StorageError (JsonState * RewindResult) :=
  rewind reconciled (ctx_chain_id (ev_context Example.snapshot)) ancestor.

Example lifecycle_states :
  tx_state <$> js_transactions broadcast = [Submitted] /\
  tx_state <$> js_transactions reconciled = [Reconciled; NonceReserved].
Proof. vm_compute. done. Qed.

Lemma default_lanes : lanes_wf (js_transactions JsonState_default).
Proof. constructor; [constructor|cbn; lia]. Qed.

Lemma single_unresolved_lane_witness :
  is_ok (load_all_unresolved reconciled) = true /\ js_revision reconciled = 9.
Proof.
  destruct (single_unresolved_lane lifecycle_commands JsonState_default) as (_ & Hok & _);
    [repeat constructor|exact default_lanes|].
  split; [exact Hok|vm_compute; reflexivity].
Defined.

Definition first_command : StorageCommand := ReserveNonce (reservation 1 0).


Lemma broadcast_backed_by_signed_attempt_witness :
  exists a, a ∈ js_transaction_attempts broadcast /\ is_Some (sa_broadcast_at a).
Proof.
  assert (broadcast_evidence broadcast) as Hev.
  { apply broadcast_backed_by_signed_attempt; [repeat constructor|].
    intros row Hin. by apply elem_of_nil in Hin. }
  destruct (js_transactions broadcast) as [|row rows] eqn:E; [exfalso; vm_compute in E; done|].
  destruct (Hev row) as (a & Ha & _ & Hb); [rewrite E; apply elem_of_cons; by left| |by exists a].
  assert (tx_state <$> js_transactions broadcast = [Submitted]) as Hs by apply lifecycle_states.
  rewrite E in Hs. cbn in Hs. injection Hs as -> _. reflexivity.
Defined.

(** A durable rate plan of 400 units on an armed episode. *)
Definition armed : RateSignalEpisode := EpisodeExample.armed.

Definition rate_plan : V2Plan :=
  mkV2Plan 40 RateRebalance 1 (ev_context Example.snapshot) 0 0 0 0 0 []
    (mkPlanProjection 400 0 0 0 0 0)
    (mkSolverCertificate 0 1 1 true None (Some Portfolio) true true)
    (Some (re_episode_id armed)) 0.

Definition planned : JsonState :=
  with_episodes (with_plans JsonState_default [mkTimedPlan rate_plan 40]) [mkTimedEpisode armed 40].

Definition reserve_rate : StorageCommand :=
  ReserveRateMovementAndNonce
    (mkNonceReservation 1 (Some 40) 1 signer 0 [1; 2] (keccak256 [1; 2]) 5 1 100 400 9 50)
    (re_episode_id armed) 400.

Definition rate_reserved : JsonState := process planned reserve_rate.

(** The planner completes the episode as it is stored, with its movement. *)
Definition completion (e : RateSignalEpisode) : StorageCommand :=
  PersistRateEpisode (complete e HigherPriorityPlan) 60.
Definition completed_episode : JsonState :=
  process rate_reserved (completion (with_movements armed 0 400)).

Lemma movement_ledger_conserved_witness :
  ledger_wf (js_rate_movement_reservations completed_episode) (js_rate_episodes completed_episode) /\
  (re_state ∘ te_episode <$> js_rate_episodes completed_episode) = [Complete] /\
  pending_of (js_rate_movement_reservations completed_episode) (re_episode_id armed) = 400.
Proof.
  split; [|vm_compute; split; reflexivity].
  apply movement_ledger_conserved; [|apply movement_ledger_conserved; [exact I|]].
  - assert (find (has_episode (re_episode_id armed)) (js_rate_episodes rate_reserved)
            = Some (mkTimedEpisode (with_movements armed 0 400) 40)) as E by (vm_compute; reflexivity).
    unfold respects_ledger, completion, signal_update.
    change (re_episode_id (complete (with_movements armed 0 400) HigherPriorityPlan))
      with (re_episode_id armed).
    rewrite E. apply rtc_once. constructor.
  - constructor.
    + apply NoDup_singleton.
    + intros entry ->%list_elem_of_singleton. vm_compute. reflexivity.
    + intros r Hin. by apply elem_of_nil in Hin.
Defined.

(** The actor stores what it is given: an episode that was loaded before the
    movement was reserved, and stored after it, erases the pending amount that
    the reservation still holds. *)
Example stale_episode_breaks_ledger :
  let s := process rate_reserved (completion armed) in
  js_revision s = js_revision rate_reserved + 1 /\
  re_pending_movement ∘ te_episode <$> js_rate_episodes s = [0] /\
  pending_of (js_rate_movement_reservations s) (re_episode_id armed) = 400.
Proof. vm_compute. auto. Qed.

Lemma rewind_sound_witness :
  match rewound_state with
  | Ok (s', _) =>
      Forall2 (rewound reconciled s' (ctx_chain_id (ev_context Example.snapshot)) ancestor)
        (js_transactions reconciled) (js_transactions s') /\
      tx_state <$> js_transactions s' = [Orphaned; NonceReserved]
  | Err _ => False
  end.
Proof.
  destruct rewound_state as [[s' r]|] eqn:E; [|exfalso; vm_compute in E; done].
  split.
  - apply (rewind_sound reconciled _ ancestor s' r); [|exact E].
    apply (bool_decide_unpack _). vm_compute. exact I.
  - vm_compute in E. injection E as <- _. vm_compute. reflexivity.
Defined.

(** A rewind of a reconciled transaction while its signer already owns a
    newer unresolved transaction makes both of them unresolved: recovery then
    reports [MultipleUnresolved] for a signer that had at most one unresolved
    lane before. *)
Theorem rewind_reopens_second_lane :
  is_ok (load_unresolved reconciled signer) = true /\
  exists s' r, rewound_state = Ok (s', r) /\
    tx_state <$> js_transactions s' = [Orphaned; NonceReserved] /\
    load_unresolved s' signer = Err (MultipleUnresolved signer).
Proof.
  split; [vm_compute; reflexivity|].
  destruct rewound_state as [[s' r]|] eqn:E; [|vm_compute in E; done].
  exists s', r. split; [done|]. vm_compute in E. injection E as <- <-.
  split; vm_compute; reflexivity.
Qed.
