(* ===== verification/Signer.v ===== *)
(** * Signing

    The restricted signing boundary and the durable lifecycle around it. *)
From Stdlib Require Import ZArith Lia List Bool String Ascii.
From stdpp Require Import base list gmap strings.
From S2P Require Import Prelude.
From S2P Require Import Text.
From S2P Require Import Domain.
From S2P Require Import Models.
From S2P Require Import Storage.
From S2P Require Import Actor.
From S2P Require Import Firewall.
Open Scope Z_scope.

(** ** The restricted signing boundary

    Models [src/src/transaction/signer.rs] and the two signers behind it,
    [src/src/transaction/remote_signer.rs] and
    [src/src/transaction/local_signer.rs].  The EIP-2718 coder, sender recovery,
    text codecs, the remote service and the private key are library or external
    code: classes and arguments.  [RoutineSigner] is the interface the rest of
    the program sees; [RoutineSignerLaws] is what it promises, and both signers
    discharge it. *)

Record SignedEnvelope : Type := mkSignedEnvelope {
  se_raw_transaction : Bytes;
  se_signer : Address;
  se_transaction_hash : B256;
}.
#[global] Instance SignedEnvelope_eq_dec : EqDecision SignedEnvelope.
Proof. solve_decision. Defined.

Inductive SignerError : Type := Policy | Transport | Response | DecodeEnvelope | Mutation.
#[global] Instance SignerError_eq_dec : EqDecision SignerError.
Proof. solve_decision. Defined.
#[global] Instance TxEip1559_eq_dec : EqDecision TxEip1559.
Proof. solve_decision. Defined.

Record ValidatedPendingTransaction : Type := mkValidatedPendingTransaction {
  vp_transaction_id : TransactionId;
  vp_original : ValidatedRoutineTransaction;
  vp_current_max_fee_per_gas : Z;
  vp_current_max_priority_fee_per_gas : Z;
}.

Definition from_submitted (transaction_id : TransactionId) (original : ValidatedRoutineTransaction)
    : ValidatedPendingTransaction :=
  mkValidatedPendingTransaction transaction_id original
    (rt_max_fee_per_gas (vt_fields original)) (rt_max_priority_fee_per_gas (vt_fields original)).

Definition from_recovered_attempt (transaction_id : TransactionId)
    (original : ValidatedRoutineTransaction)
    (current_max_fee_per_gas current_max_priority_fee_per_gas : Z)
    : result SignerError ValidatedPendingTransaction :=
  let f := vt_fields original in
  if (current_max_fee_per_gas <? rt_max_fee_per_gas f)
     || (current_max_priority_fee_per_gas <? rt_max_priority_fee_per_gas f)
     || (current_max_fee_per_gas <? current_max_priority_fee_per_gas)
  then Err Policy
  else Ok (mkValidatedPendingTransaction transaction_id original current_max_fee_per_gas
             current_max_priority_fee_per_gas).

Record SignRebalanceRequest : Type := mkSignRebalanceRequest {
  sr_request_id : B256;
  sr_transaction : ValidatedRoutineTransaction;
}.

Record SignReplacementRequest : Type := mkSignReplacementRequest {
  sp_request_id : B256;
  sp_pending : ValidatedPendingTransaction;
  sp_max_fee_per_gas : Z;
  sp_max_priority_fee_per_gas : Z;
}.

Record SignCancellationRequest : Type := mkSignCancellationRequest {
  sl_request_id : B256;
  sl_pending : ValidatedPendingTransaction;
  sl_gas_limit : Z;
  sl_max_fee_per_gas : Z;
  sl_max_priority_fee_per_gas : Z;
}.

(** ** The expected transaction *)

Record ExpectedSignedTransaction : Type := mkExpectedSignedTransaction {
  ex_request_id : B256;
  ex_purpose : string;
  ex_expected_signer : Address;
  ex_vault : Address;
  ex_plan_hash : B256;
  ex_transaction : TxEip1559;
}.

Definition rebalance (request : SignRebalanceRequest) : ExpectedSignedTransaction :=
  let fields := vt_fields (sr_transaction request) in
  mkExpectedSignedTransaction (sr_request_id request) "routine_rebalance" (rt_from fields)
    (rt_to fields) (vt_plan_hash (sr_transaction request)) (eip1559 (sr_transaction request)).

Definition with_fees (t : TxEip1559) (maximum priority : Z) : TxEip1559 :=
  mkTxEip1559 (tx_chain_id t) (tx_nonce t) (tx_gas_limit t) maximum priority (tx_to t)
    (tx_value t) (tx_access_list t) (tx_input t).

Definition replacement (request : SignReplacementRequest)
    : result SignerError ExpectedSignedTransaction :=
  let pending := sp_pending request in
  let original := vt_fields (vp_original pending) in
  if (sp_max_fee_per_gas request <=? vp_current_max_fee_per_gas pending)
     || (sp_max_priority_fee_per_gas request <=? vp_current_max_priority_fee_per_gas pending)
     || (sp_max_fee_per_gas request <? sp_max_priority_fee_per_gas request)
  then Err Policy
  else Ok (mkExpectedSignedTransaction (sp_request_id request) "same_calldata_replacement"
             (rt_from original) (rt_to original) (vt_plan_hash (vp_original pending))
             (with_fees (eip1559 (vp_original pending)) (sp_max_fee_per_gas request)
                (sp_max_priority_fee_per_gas request))).

Definition cancellation (request : SignCancellationRequest)
    : result SignerError ExpectedSignedTransaction :=
  let pending := sl_pending request in
  let original := vt_fields (vp_original pending) in
  if (sl_gas_limit request =? 0)
     || (sl_max_fee_per_gas request <=? vp_current_max_fee_per_gas pending)
     || (sl_max_priority_fee_per_gas request <=? vp_current_max_priority_fee_per_gas pending)
     || (sl_max_fee_per_gas request <? sl_max_priority_fee_per_gas request)
  then Err Policy
  else Ok (mkExpectedSignedTransaction (sl_request_id request) "same_nonce_cancellation"
             (rt_from original) (rt_to original) (vt_plan_hash (vp_original pending))
             (mkTxEip1559 (rt_chain_id original) (rt_nonce original) (sl_gas_limit request)
                (sl_max_fee_per_gas request) (sl_max_priority_fee_per_gas request)
                (rt_from original) 0 [] [])).

(** ** Verification of the returned bytes *)

(** A signed EIP-1559 transaction as the coder returns it. *)
Record SignedEip1559 : Type := mkSignedEip1559 {
  s1_tx : TxEip1559;
  s1_signature : Bytes;
  s1_hash : B256;
}.

Inductive TxEnvelope : Type :=
| Eip1559 (signed : SignedEip1559)
| OtherEnvelope.

(** [TxEnvelope::decode_2718], which returns the bytes it did not consume, and
    [recover_signer]. *)
Class Envelope2718 : Type := {
  decode_2718 : Bytes -> option (TxEnvelope * Bytes);
  recover_signer : SignedEip1559 -> option Address;
}.

Section Verify.
Context `{HK : Keccak} `{HE : Envelope2718}.

Definition verify_signed_response (raw : Bytes) (expected : ExpectedSignedTransaction)
    : result SignerError SignedEnvelope :=
  decoded ← ok_or (decode_2718 raw) DecodeEnvelope;
  let '(envelope, remaining) := decoded in
  if negb (bool_decide (remaining = [])) then Err DecodeEnvelope
  else match envelope with
  | OtherEnvelope => Err Mutation
  | Eip1559 signed =>
      signer ← ok_or (recover_signer signed) DecodeEnvelope;
      if negb (signer =? ex_expected_signer expected)
         || negb (bool_decide (s1_tx signed = ex_transaction expected))
      then Err Mutation
      else
        let transaction_hash := keccak256 raw in
        if negb (transaction_hash =? s1_hash signed) then Err DecodeEnvelope
        else Ok (mkSignedEnvelope raw signer transaction_hash)
  end.

Definition verify_rebalance_envelope (raw : Bytes) (request : SignRebalanceRequest)
    : result SignerError SignedEnvelope :=
  verify_signed_response raw (rebalance request).

(** [env] carries, entirely, a transaction equal to [tx] signed by [signer]. *)
Definition carries (env : SignedEnvelope) (signer : Address) (tx : TxEip1559) : Prop :=
  se_signer env = signer /\ se_transaction_hash env = keccak256 (se_raw_transaction env) /\
  exists signed, decode_2718 (se_raw_transaction env) = Some (Eip1559 signed, []) /\
    recover_signer signed = Some signer /\ s1_tx signed = tx /\
    s1_hash signed = keccak256 (se_raw_transaction env).

Lemma verify_signed_response_Ok raw expected env :
  verify_signed_response raw expected = Ok env ->
  se_raw_transaction env = raw /\ carries env (ex_expected_signer expected) (ex_transaction expected).
Proof.
  unfold verify_signed_response. intros H. step_ok H as [e rem] Hd. apply ok_or_Ok in Hd.
  case_bool_decide; [|done]. subst. cbn in H. destruct e as [signed|]; [|done].
  step_ok H as who Hw. apply ok_or_Ok in Hw.
  destruct (_ || _) eqn:E; bool_spec E; [done|]. destruct E as [-> E].
  destruct (negb _) eqn:E2; bool_spec E2; [done|]. injection H as <-.
  split; [done|]. split; [done|]. split; [done|]. exists signed. cbn. auto.
Qed.

(** ** The interface *)

Class RoutineSigner : Type := {
  sign_rebalance : SignRebalanceRequest -> result SignerError SignedEnvelope;
  sign_replacement : SignReplacementRequest -> result SignerError SignedEnvelope;
  sign_cancellation : SignCancellationRequest -> result SignerError SignedEnvelope;
}.

(** A signer returns nothing but the expected transaction. *)
Class RoutineSignerLaws (S : RoutineSigner) : Prop := {
  sign_rebalance_carries req env : sign_rebalance req = Ok env ->
    carries env (ex_expected_signer (rebalance req)) (ex_transaction (rebalance req));
  sign_replacement_carries req env : sign_replacement req = Ok env ->
    exists e, replacement req = Ok e /\ carries env (ex_expected_signer e) (ex_transaction e);
  sign_cancellation_carries req env : sign_cancellation req = Ok env ->
    exists e, cancellation req = Ok e /\ carries env (ex_expected_signer e) (ex_transaction e);
}.

(** A signer that answers every request through one function of the expected
    transaction. *)
Definition signer_of (sign : ExpectedSignedTransaction -> result SignerError SignedEnvelope)
    : RoutineSigner := {|
  sign_rebalance request := sign (rebalance request);
  sign_replacement request := expected ← replacement request; sign expected;
  sign_cancellation request := expected ← cancellation request; sign expected;
|}.

Lemma signer_of_laws sign :
  (forall e env, sign e = Ok env -> carries env (ex_expected_signer e) (ex_transaction e)) ->
  RoutineSignerLaws (signer_of sign).
Proof.
  intros Hs. split; cbn.
  - intros req env. apply Hs.
  - intros req env H. step_ok H as e He. eauto.
  - intros req env H. step_ok H as e He. eauto.
Qed.

End Verify.

(** ** The remote signer *)

Record RemoteSignerPolicy : Type := mkRemoteSignerPolicy {
  rp_chain_id : Z;
  rp_signer_vaults : gmap Address (gset Address);
  rp_maximum_gas_limit : Z;
  rp_maximum_fee_per_gas : Z;
}.

Record RemoteRequest : Type := mkRemoteRequest {
  rq_request_id : string;
  rq_chain_id : Z;
  rq_expected_signer : string;
  rq_purpose : string;
  rq_vault : string;
  rq_nonce : Z;
  rq_to : string;
  rq_value : string;
  rq_gas_limit : Z;
  rq_max_fee_per_gas : string;
  rq_max_priority_fee_per_gas : string;
  rq_calldata : string;
  rq_calldata_hash : string;
  rq_plan_hash : string;
}.

Record RemoteResponse : Type := mkRemoteResponse {
  rr_request_id : string;
  rr_signer : string;
  rr_transaction_hash : string;
  rr_raw_transaction : string;
}.

(** [Display] and [FromStr] of addresses and hashes, [{:#x}] of integers, and
    the [hex] crate. *)
Class TextCodec : Type := {
  show_b256 : B256 -> string;
  show_address : Address -> string;
  show_hex : Z -> string;
  parse_address : string -> option Address;
  parse_b256 : string -> option B256;
  hex_encode : Bytes -> string;
  hex_decode : string -> option Bytes;
}.

Section Remote.
Context `{HK : Keccak} `{HE : Envelope2718} `{HT : TextCodec}.
(** The HTTP exchange: [None] is any transport, status or decoding failure. *)
Variable service : RemoteRequest -> option RemoteResponse.
Variable policy : RemoteSignerPolicy.

Definition from_expected (e : ExpectedSignedTransaction) : RemoteRequest :=
  let t := ex_transaction e in
  mkRemoteRequest (show_b256 (ex_request_id e)) (tx_chain_id t) (show_address (ex_expected_signer e))
    (ex_purpose e) (show_address (ex_vault e)) (tx_nonce t) (show_address (tx_to t))
    (show_hex (tx_value t)) (tx_gas_limit t) (show_hex (tx_max_fee_per_gas t))
    (show_hex (tx_max_priority_fee_per_gas t)) ("0x" ++ hex_encode (tx_input t))
    (show_b256 (keccak256 (tx_input t))) (show_b256 (ex_plan_hash e)).

Definition target_valid (e : ExpectedSignedTransaction) (expected_vaults : gset Address) : bool :=
  if String.eqb (ex_purpose e) "same_nonce_cancellation"
  then tx_to (ex_transaction e) =? ex_expected_signer e
  else (tx_to (ex_transaction e) =? ex_vault e) && bool_decide (ex_vault e ∈ expected_vaults).

Definition remote_sign (e : ExpectedSignedTransaction) : result SignerError SignedEnvelope :=
  let t := ex_transaction e in
  expected_vaults ← ok_or (rp_signer_vaults policy !! ex_expected_signer e) Policy;
  if negb (tx_chain_id t =? rp_chain_id policy) || negb (target_valid e expected_vaults)
     || negb (tx_value t =? 0) || (tx_gas_limit t =? 0)
     || (rp_maximum_gas_limit policy <? tx_gas_limit t)
     || (rp_maximum_fee_per_gas policy <? tx_max_fee_per_gas t)
     || (tx_max_fee_per_gas t <? tx_max_priority_fee_per_gas t)
  then Err Policy
  else
    let request := from_expected e in
    response ← ok_or (service request) Transport;
    if negb (String.eqb (rr_request_id response) (rq_request_id request)) then Err Mutation
    else
      claimed_signer ← ok_or (parse_address (rr_signer response)) Response;
      claimed_hash ← ok_or (parse_b256 (rr_transaction_hash response)) Response;
      raw ← ok_or (digits ← strip_0x (rr_raw_transaction response); hex_decode digits) Response;
      verified ← verify_signed_response raw e;
      if negb (claimed_signer =? se_signer verified)
         || negb (claimed_hash =? se_transaction_hash verified)
      then Err Mutation
      else Ok verified.

Definition RemoteRoutineSigner : RoutineSigner := signer_of remote_sign.

Lemma remote_sign_Ok e env :
  remote_sign e = Ok env ->
  carries env (ex_expected_signer e) (ex_transaction e) /\
  exists vaults, rp_signer_vaults policy !! ex_expected_signer e = Some vaults /\
    tx_chain_id (ex_transaction e) = rp_chain_id policy /\ target_valid e vaults = true /\
    tx_value (ex_transaction e) = 0 /\ tx_gas_limit (ex_transaction e) <> 0 /\
    tx_gas_limit (ex_transaction e) <= rp_maximum_gas_limit policy /\
    tx_max_fee_per_gas (ex_transaction e) <= rp_maximum_fee_per_gas policy /\
    tx_max_priority_fee_per_gas (ex_transaction e) <= tx_max_fee_per_gas (ex_transaction e).
Proof.
  unfold remote_sign. intros H. step_ok H as vaults Hv. apply ok_or_Ok in Hv.
  destruct (_ || _) eqn:E; bool_spec E; [done|].
  step_ok H as resp Hr. destruct (negb (String.eqb _ _)); [done|].
  step_ok H as cs Hcs. step_ok H as ch Hch. step_ok H as raw Hraw. step_ok H as v Hver.
  destruct (_ || _) eqn:E2; [done|]. injection H as ->.
  apply verify_signed_response_Ok in Hver as [_ Hc]. split; [done|].
  exists vaults. naive_solver.
Qed.

#[global] Instance RemoteRoutineSigner_laws : RoutineSignerLaws RemoteRoutineSigner.
Proof. apply signer_of_laws. intros e env H. by apply remote_sign_Ok in H as [? _]. Qed.

End Remote.

(** ** The local development signer *)

Section Local.
Context `{HK : Keccak} `{HE : Envelope2718}.
Variable address : Address.
(** [sign_hash_sync], [into_signed] and [encoded_2718] with the loaded key. *)
Variable sign_and_encode : TxEip1559 -> option Bytes.

Definition sign_expected (expected : ExpectedSignedTransaction) : result SignerError SignedEnvelope :=
  if negb (address =? ex_expected_signer expected) then Err Policy
  else
    raw ← ok_or (sign_and_encode (ex_transaction expected)) DecodeEnvelope;
    verify_signed_response raw expected.

Definition LocalDevelopmentRoutineSigner : RoutineSigner := signer_of sign_expected.

#[global] Instance LocalDevelopmentRoutineSigner_laws :
  RoutineSignerLaws LocalDevelopmentRoutineSigner.
Proof.
  apply signer_of_laws. intros e env H. unfold sign_expected in H.
  destruct (negb _); [done|]. step_ok H as raw Hr.
  by apply verify_signed_response_Ok in H as [_ ?].
Qed.

End Local.

(** ** What a signer can be made to sign *)

Section Confinement.
Context `{HK : Keccak} `{HE : Envelope2718} (S : RoutineSigner) `{!RoutineSignerLaws S}.

Lemma replacement_Ok req e :
  replacement req = Ok e ->
  vp_current_max_fee_per_gas (sp_pending req) < sp_max_fee_per_gas req /\
  vp_current_max_priority_fee_per_gas (sp_pending req) < sp_max_priority_fee_per_gas req
    <= sp_max_fee_per_gas req /\
  ex_expected_signer e = rt_from (vt_fields (vp_original (sp_pending req))) /\
  ex_transaction e = with_fees (eip1559 (vp_original (sp_pending req))) (sp_max_fee_per_gas req)
    (sp_max_priority_fee_per_gas req).
Proof.
  unfold replacement. destruct (_ || _) eqn:E; bool_spec E; [done|]. intros [= <-].
  cbn. split_and!; try done; lia.
Qed.

Lemma cancellation_Ok req e :
  cancellation req = Ok e ->
  vp_current_max_fee_per_gas (sl_pending req) < sl_max_fee_per_gas req /\
  vp_current_max_priority_fee_per_gas (sl_pending req) < sl_max_priority_fee_per_gas req
    <= sl_max_fee_per_gas req /\ sl_gas_limit req <> 0 /\
  ex_expected_signer e = rt_from (vt_fields (vp_original (sl_pending req))) /\
  ex_transaction e =
    mkTxEip1559 (rt_chain_id (vt_fields (vp_original (sl_pending req))))
      (rt_nonce (vt_fields (vp_original (sl_pending req)))) (sl_gas_limit req)
      (sl_max_fee_per_gas req) (sl_max_priority_fee_per_gas req)
      (rt_from (vt_fields (vp_original (sl_pending req)))) 0 [] [].
Proof.
  unfold cancellation. destruct (_ || _) eqn:E; bool_spec E; [done|]. intros [= <-].
  cbn. split_and!; try done; lia.
Qed.

(** C12: Whatever a signer answers, an accepted replacement spends the nonce of
    the original transaction on the same chain, target, value, gas limit and
    calldata with both fees strictly raised, and an accepted cancellation
    spends it on a zero-value transfer of the sender to itself with no
    calldata; each is recovered to the original sender from the exact bytes
    whose hash is reported. *)
Theorem signer_confined_to_the_lane :
  (forall req env, sign_replacement req = Ok env ->
     let original := vp_original (sp_pending req) in
     exists tx, carries env (rt_from (vt_fields original)) tx /\
       with_fees tx 0 0 = with_fees (eip1559 original) 0 0 /\
       vp_current_max_fee_per_gas (sp_pending req) < tx_max_fee_per_gas tx /\
       vp_current_max_priority_fee_per_gas (sp_pending req) < tx_max_priority_fee_per_gas tx
         <= tx_max_fee_per_gas tx) /\
  (forall req env, sign_cancellation req = Ok env ->
     let original := vt_fields (vp_original (sl_pending req)) in
     exists tx, carries env (rt_from original) tx /\
       tx_chain_id tx = rt_chain_id original /\ tx_nonce tx = rt_nonce original /\
       tx_to tx = rt_from original /\ tx_value tx = 0 /\ tx_input tx = [] /\
       tx_access_list tx = [] /\
       vp_current_max_fee_per_gas (sl_pending req) < tx_max_fee_per_gas tx /\
       vp_current_max_priority_fee_per_gas (sl_pending req) < tx_max_priority_fee_per_gas tx
         <= tx_max_fee_per_gas tx).
Proof.
  split; intros req env H original.
  - apply sign_replacement_carries in H as (e & He & Hc).
    apply replacement_Ok in He as (Hm & Hp & Hs & Ht). rewrite Hs, Ht in Hc.
    eexists. split; [exact Hc|]. cbn. done.
  - apply sign_cancellation_carries in H as (e & He & Hc).
    apply cancellation_Ok in He as (Hm & Hp & _ & Hs & Ht). rewrite Hs, Ht in Hc.
    eexists. split; [exact Hc|]. cbn. done.
Qed.

End Confinement.

(** ** Durable signing

    Models [src/src/transaction/lifecycle.rs]: the order of durable writes and
    signer calls before any signed byte may leave the process, and the startup
    recovery decision.  An [async] function is a computation on a [World], the
    durable state and the bytes submitted so far; an error leaves the world as
    it is at the failing call. *)

(** ** Effects *)

(** A submission carries the durable state at its time. *)
Record World : Type := mkWorld {
  w_storage : JsonState;
  w_submissions : list (Bytes * JsonState);
}.

Definition io (E A : Type) : Type := World -> result E A * World.

#[global] Instance io_ret {E} : MRet (io E) := fun A a w => (Ok a, w).
#[global] Instance io_bind {E} : MBind (io E) := fun A B f c w =>
  match c w with
  | (Ok a, w') => f a w'
  | (Err e, w') => (Err e, w')
  end.

Definition io_err {E A} (e : E) : io E A := fun w => (Err e, w).
(** A pure fallible computation, with its error converted by [f]. *)
Definition io_lift {E F A} (f : F -> E) (c : result F A) : io E A := fun w => (map_err f c, w).
(** An error of the inner computation converted by [f]. *)
Definition io_map_err {E F A} (f : F -> E) (c : io F A) : io E A := fun w =>
  let '(r, w') := c w in (map_err f r, w').

Lemma io_bind_Ok {E A B} (c : io E A) (f : A -> io E B) w b w' :
  (c ≫= f) w = (Ok b, w') -> exists a w1, c w = (Ok a, w1) /\ f a w1 = (Ok b, w').
Proof.
  unfold mbind, io_bind. destruct (c w) as [[a|e] w1] eqn:Ec; [|done]. intros H. by exists a, w1.
Qed.

Lemma io_map_err_Ok {E F A} (f : F -> E) (c : io F A) w a w' :
  io_map_err f c w = (Ok a, w') -> c w = (Ok a, w').
Proof.
  unfold io_map_err. destruct (c w) as [r w1]. intros [= Hr <-]. f_equal. by apply map_err_Ok in Hr.
Qed.

(** [io_step H as a w Ha] inverts the first bind of [H] only. *)
Tactic Notation "io_step" hyp(H) "as" simple_intropattern(a) simple_intropattern(w)
    simple_intropattern(Ha) :=
  apply io_bind_Ok in H as (a & w & Ha & H); cbn beta iota in H.

Section Effects.
Context `{HK : Keccak}.

(** One storage call: the actor commits the mutation or rejects it. *)
Definition call_with {A} (mutation : JsonState -> result StorageError (JsonState * A))
    : io StorageError A := fun w =>
  match (next ← mutation (w_storage w); s ← commit_next (fst next); Ok (s, snd next)) with
  | Ok (s, a) => (Ok a, mkWorld s (w_submissions w))
  | Err e => (Err e, w)
  end.

Definition call (command : StorageCommand) : io StorageError unit :=
  call_with (fun s => s' ← mutate s command; Ok (s', tt)).

End Effects.

Definition from_storage {E A} (f : StorageError -> E) (c : io StorageError A) : io E A := fun w =>
  let '(r, w') := c w in (map_err f r, w').

(** ** The signing boundary *)

Inductive SigningBoundaryError : Type :=
| BoundaryStorage (e : StorageError)
| BoundarySigner (e : SignerError)
| BoundaryIdentity.

Record DurableSigningRequest : Type := mkDurableSigningRequest {
  ds_transaction_id : TransactionId;
  ds_transaction : ValidatedRoutineTransaction;
  ds_created_at : Z;
  ds_movement_reservation : option RateMovementReservationRecord;
}.

Definition abort_transition (id : TransactionId) (updated_at : Z) : TransactionTransition :=
  mkTransactionTransition id NonceReserved AbortedBeforeSigning None None None None updated_at.

Section Boundary.
Context `{HK : Keccak}.

Definition durable {A} (c : io StorageError A) : io SigningBoundaryError A :=
  from_storage BoundaryStorage c.

Definition reservation_of (plan : ValidatedPlan) (transaction : ValidatedRoutineTransaction)
    (transaction_id : TransactionId) (created_block created_at : Z) : NonceReservation :=
  let fields := vt_fields transaction in
  mkNonceReservation transaction_id (Some (pl_plan_id (vp_plan plan))) (pl_vault (vp_plan plan))
    (rt_from fields) (rt_nonce fields) (rt_calldata fields) (keccak256 (rt_calldata fields))
    (rt_max_fee_per_gas fields) (rt_max_priority_fee_per_gas fields) (rt_gas_limit fields)
    (pp_movement_assets (pl_projection (vp_plan plan))) created_block created_at.

Definition reserve_durable_rebalance (plan : ValidatedPlan)
    (transaction : ValidatedRoutineTransaction) (transaction_id : TransactionId)
    (created_block created_at : Z) : io SigningBoundaryError DurableSigningRequest :=
  if negb (vt_plan_hash transaction =? pl_plan_hash (vp_plan plan)) then io_err BoundaryIdentity
  else
    let reservation := reservation_of plan transaction transaction_id created_block created_at in
    movement_reservation ←
      match pl_episode_id (vp_plan plan) with
      | Some episode_id =>
          record ← durable (call_with (fun s => reserve_rate_movement_and_nonce s reservation
            episode_id (pp_movement_assets (pl_projection (vp_plan plan)))));
          mret (Some record)
      | None =>
          _ ← durable (call (ReserveNonce reservation)); mret None
      end;
    mret (mkDurableSigningRequest transaction_id transaction created_at movement_reservation).

Definition persist_unsigned_rebalance (plan : ValidatedPlan)
    (transaction : ValidatedRoutineTransaction) (transaction_id : TransactionId) (created_at : Z)
    : io SigningBoundaryError DurableSigningRequest :=
  if negb (vt_plan_hash transaction =? pl_plan_hash (vp_plan plan)) then io_err BoundaryIdentity
  else
    _ ← durable (call (PersistPlan (vp_plan plan) created_at));
    reserve_durable_rebalance plan transaction transaction_id
      (blk_number (ctx_block (pl_snapshot (vp_plan plan)))) created_at.

Definition abort_unsigned_rebalance (request : DurableSigningRequest) (updated_at : Z)
    : io SigningBoundaryError unit :=
  durable (call (TransitionTransaction
    (abort_transition (ds_transaction_id request) updated_at))).

Definition sign_durable_rebalance `{HS : RoutineSigner} (request : DurableSigningRequest)
    (request_id : B256) : io SigningBoundaryError SignedEnvelope :=
  match sign_rebalance (mkSignRebalanceRequest request_id (ds_transaction request)) with
  | Err error =>
      _ ← durable (call (TransitionTransaction
        (abort_transition (ds_transaction_id request) (ds_created_at request))));
      io_err (BoundarySigner error)
  | Ok signed =>
      _ ← durable (call (PersistSignedTransaction
        (mkSignedTransactionRecord (ds_transaction_id request) (se_transaction_hash signed)
           (se_raw_transaction signed) (ds_created_at request))));
      mret signed
  end.

End Boundary.

(** ** Startup recovery *)

Record RecoveryFacts : Type := mkRecoveryFacts {
  rf_latest_account_nonce : Z;
  rf_pending_nonce : Z;
  rf_transaction_visible : bool;
  rf_canonical_receipt : bool;
  rf_receipt_orphaned : bool;
}.

Inductive RecoveryClassification : Type :=
| CanonicalInclusion
| PendingVisible
| PendingAbsent
| RecoveryOrphaned
| AmbiguousNonceAdvance
| InvalidFutureReservation.
#[global] Instance RecoveryClassification_eq_dec : EqDecision RecoveryClassification.
Proof. solve_decision. Defined.

Definition classify_recovery (facts : RecoveryFacts) : RecoveryClassification :=
  if rf_receipt_orphaned facts then RecoveryOrphaned
  else if rf_latest_account_nonce facts <? rf_pending_nonce facts then InvalidFutureReservation
  else if rf_pending_nonce facts <? rf_latest_account_nonce facts then
    if rf_canonical_receipt facts then CanonicalInclusion else AmbiguousNonceAdvance
  else if rf_transaction_visible facts then PendingVisible
  else PendingAbsent.
