(* ===== verification/Pending.v ===== *)
(** * Pending transactions

    Models [src/src/transaction/pending.rs]: the dependencies a pending plan
    touches, the decision at an inclusion opportunity, and the signing,
    persistence and submission of one replacement or cancellation. *)
From Stdlib Require Import ZArith Lia List Bool String.
From stdpp Require Import base list gmap sorting.
From S2P Require Import Prelude.
From S2P Require Import Provider.
From S2P Require Import Domain.
From S2P Require Import Config.
From S2P Require Import Models.
From S2P Require Import Storage.
From S2P Require Import Actor.
From S2P Require Import Calldata.
From S2P Require Import Firewall.
From S2P Require Import Signer.
Open Scope Z_scope.

Inductive CancellationReason : Type :=
| MaterialInvalidation
| PendingHorizon
| DirectionReversed
| ServiceConstraint
| RewardPolicyExpired
| SignerRoleLost
| ProviderAmbiguity
| ExternalIdleLock.
#[global] Instance CancellationReason_eq_dec : EqDecision CancellationReason.
Proof. solve_decision. Defined.

Record PendingSafetySignals : Type := mkPendingSafetySignals {
  ps_material_invalidation : bool;
  ps_direction_reversed : bool;
  ps_service_constraint_failed : bool;
  ps_reward_policy_expired : bool;
  ps_signer_role_lost : bool;
  ps_provider_ambiguous : bool;
  ps_external_idle_lock_created : bool;
}.

Record TouchedResources : Type := mkTouchedResources {
  to_vault : VaultAddress;
  to_positions : list PositionKey;
  to_adapters : list AdapterAddress;
  to_markets : list MarketId;
}.

Inductive PendingDecision : Type :=
| Wait
| Replace
| Cancel (reason : CancellationReason).
#[global] Instance PendingDecision_eq_dec : EqDecision PendingDecision.
Proof. solve_decision. Defined.

Inductive PendingAttemptOutcome : Type :=
| Broadcast (transaction_hash : B256)
| SubmissionIndeterminate (transaction_hash : B256) (category : RpcErrorCategory).

Inductive PendingPolicyError : Type :=
| PendIdentity
| PendClock
| PendFee (e : FeeError)
| PendSigner (e : SignerError)
| PendStorage (e : StorageError)
| PendSubmissionHash.

Record PendingClock : Type := mkPendingClock {
  pk_reason : PlanReason;
  pk_submitted_at : Z;
  pk_last_attempt_at : Z;
  pk_touched : TouchedResources;
}.

(** ** Touched resources *)

(** [Vec::dedup]: removes consecutive repetitions. *)
Fixpoint dedup (l : list Z) : list Z :=
  match l with
  | x :: (y :: _) as l' => if x =? y then dedup l' else x :: dedup l'
  | _ => l
  end.

Definition sort_dedup (l : list Z) : list Z := dedup (merge_sort Z.le l).

Section Touched.
Context `{HK : Keccak} `{HA : AbiParams}.

(** The idle market of the liquidity adapter. *)
Definition idle_market_id (vault : ValidatedVaultConfig) : MarketId :=
  derive_market_id (mkMarketParams (vv_asset vault) 0 0 0 0).

Definition touched_market (vault : ValidatedVaultConfig) (position : PositionKey)
    (adapter : AdapterAddress) : result PendingPolicyError MarketId :=
  match (configured ← vv_liquidity_adapter vault;
         if (lac_position_key configured =? position) && (lac_address configured =? adapter)
         then Some configured else None) with
  | Some _ => Ok (idle_market_id vault)
  | None =>
      ok_or (pc_market_id <$> List.find (fun configured =>
               (pc_position_key configured =? position) && (pc_adapter configured =? adapter))
               (vv_positions vault)) PendIdentity
  end.

Definition from_plan (plan : V2Plan) (vault : ValidatedVaultConfig)
    : result PendingPolicyError TouchedResources :=
  if negb (pl_vault plan =? vv_address vault) then Err PendIdentity
  else
    markets ← try_map (fun action =>
      touched_market vault (action_position action) (action_adapter action)) (pl_actions plan);
    Ok (mkTouchedResources (vv_address vault)
          (sort_dedup (action_position <$> pl_actions plan))
          (sort_dedup (action_adapter <$> pl_actions plan))
          (sort_dedup markets)).

End Touched.

(** ** The decision at one opportunity *)

Definition pending_horizon (reason : PlanReason) (execution : ValidatedExecutionConfig)
    : result PendingPolicyError Z :=
  match reason with
  | RateRebalance | TopKApyRebalance => Ok (ex_maximum_rate_rebalance_pending_opportunities execution)
  | CapitalDeployment => Ok (ex_maximum_capital_deployment_pending_opportunities execution)
  | LiquidityMaintenance => Ok (ex_maximum_liquidity_maintenance_pending_opportunities execution)
  | PositionSyncRequired => Err PendIdentity
  end.

Definition assess_pending (clock : PendingClock) (current : Z) (signals : PendingSafetySignals)
    (execution : ValidatedExecutionConfig) : result PendingPolicyError PendingDecision :=
  age ← ok_or (checked_sub current (pk_submitted_at clock)) PendClock;
  attempt_age ← ok_or (checked_sub current (pk_last_attempt_at clock)) PendClock;
  if ps_provider_ambiguous signals then Ok Wait
  else if ps_signer_role_lost signals then Ok (Cancel SignerRoleLost)
  else if ps_external_idle_lock_created signals then Ok (Cancel ExternalIdleLock)
  else if ps_service_constraint_failed signals
          && negb (bool_decide (pk_reason clock = LiquidityMaintenance))
  then Ok (Cancel ServiceConstraint)
  else if ps_reward_policy_expired signals then Ok (Cancel RewardPolicyExpired)
  else if ps_direction_reversed signals then Ok (Cancel DirectionReversed)
  else if ps_material_invalidation signals then Ok (Cancel MaterialInvalidation)
  else
    horizon ← pending_horizon (pk_reason clock) execution;
    let remaining := saturating_sub horizon age in
    if (0 <? age) && ((horizon <=? age)
                      || (remaining <=? ex_cancel_when_opportunities_remaining execution))
    then Ok (Cancel PendingHorizon)
    else if ex_replacement_after_opportunities execution <=? attempt_age then Ok Replace
    else Ok Wait.

(** ** One restricted attempt *)

Record PendingAttemptRequest : Type := mkPendingAttemptRequest {
  pr_pending : ValidatedPendingTransaction;
  pr_expected_state : TransactionState;
  pr_decision : PendingDecision;
  pr_signer_request_id : B256;
  pr_max_fee_per_gas : Z;
  pr_max_priority_fee_per_gas : Z;
  pr_cancellation_gas_limit : Z;
  pr_created_at : Z;
  pr_signed_block : Z;
}.

(** The provider's answer to exact signed bytes. *)
Class SignedTransactionSubmitter : Type :=
  submit_signed_bytes : Bytes -> result ProviderError B256.

Definition attempt_permitted (expected_state : TransactionState) (decision : PendingDecision)
    : bool :=
  match expected_state, decision with
  | (Submitted | Replaced), _ => true
  | (Signed | Orphaned), Cancel _ => true
  | _, _ => false
  end.

Section Attempt.
Context `{HK : Keccak} `{HS : RoutineSigner} `{HB : SignedTransactionSubmitter}.

(** The provider call, which may reach the network whatever it answers. *)
Definition submit (raw : Bytes) : io PendingPolicyError (result ProviderError B256) := fun w =>
  (Ok (submit_signed_bytes raw),
   mkWorld (w_storage w) (w_submissions w ++ [(raw, w_storage w)])).

(** The kind of attempt, its signed and next states, and the signed bytes. *)
Definition sign_attempt (execution : ValidatedExecutionConfig) (request : PendingAttemptRequest)
    : result PendingPolicyError
        (TransactionAttemptKind * TransactionState * TransactionState * SignedEnvelope) :=
  match pr_decision request with
  | Replace =>
      signed ← map_err PendSigner (sign_replacement
        (mkSignReplacementRequest (pr_signer_request_id request) (pr_pending request)
           (pr_max_fee_per_gas request) (pr_max_priority_fee_per_gas request)));
      Ok (Replacement, ReplacementSigned, Replaced, signed)
  | Cancel _ =>
      if (pr_cancellation_gas_limit request =? 0)
         || (ex_maximum_signed_transaction_gas execution <? pr_cancellation_gas_limit request)
      then Err PendIdentity
      else
        signed ← map_err PendSigner (sign_cancellation
          (mkSignCancellationRequest (pr_signer_request_id request) (pr_pending request)
             (pr_cancellation_gas_limit request) (pr_max_fee_per_gas request)
             (pr_max_priority_fee_per_gas request)));
        Ok (Cancellation, CancellationSigned, CancellationSubmitted, signed)
  | Wait => Err PendIdentity
  end.

Definition stored {A} (c : io StorageError A) : io PendingPolicyError A :=
  from_storage PendStorage c.

Definition attempt_record (request : PendingAttemptRequest) (kind : TransactionAttemptKind)
    (signed : SignedEnvelope) : SignedAttemptRecord :=
  mkSignedAttemptRecord (vp_transaction_id (pr_pending request)) kind
    (se_transaction_hash signed) (se_raw_transaction signed) (pr_max_fee_per_gas request)
    (pr_max_priority_fee_per_gas request) (pr_created_at request) (pr_signed_block request)
    None None.

(** The durable writes after the submission, and the outcome. *)
Definition finish_attempt (request : PendingAttemptRequest)
    (signed_state next_state : TransactionState) (signed : SignedEnvelope)
    (submission : result ProviderError B256) : io PendingPolicyError PendingAttemptOutcome :=
  let transaction_id := vp_transaction_id (pr_pending request) in
  _ ← stored (call (RecordAttemptBroadcast transaction_id (se_transaction_hash signed)
        (pr_created_at request) (pr_signed_block request)));
  _ ← stored (call (TransitionTransaction
        (mkTransactionTransition transaction_id signed_state next_state
           (Some (se_transaction_hash signed)) (Some (pr_created_at request)) None None
           (pr_created_at request))));
  match submission with
  | Ok submitted_hash =>
      if negb (submitted_hash =? se_transaction_hash signed) then io_err PendSubmissionHash
      else mret (Broadcast submitted_hash)
  | Err error =>
      if bool_decide (rpc_category error = AlreadyKnown)
      then mret (Broadcast (se_transaction_hash signed))
      else mret (SubmissionIndeterminate (se_transaction_hash signed) (rpc_category error))
  end.

Definition execute_pending_attempt (execution : ValidatedExecutionConfig)
    (request : PendingAttemptRequest) : io PendingPolicyError PendingAttemptOutcome :=
  if negb (attempt_permitted (pr_expected_state request) (pr_decision request))
  then io_err PendIdentity
  else
    _ ← io_lift PendFee (validate_replacement_fees
          (vp_current_max_fee_per_gas (pr_pending request))
          (vp_current_max_priority_fee_per_gas (pr_pending request))
          (pr_max_fee_per_gas request) (pr_max_priority_fee_per_gas request)
          (ex_maximum_fee_per_gas_wei execution));
    attempt ← io_lift id (sign_attempt execution request);
    let '(kind, signed_state, next_state, signed) := attempt in
    _ ← stored (call (PersistSignedAttempt (attempt_record request kind signed)));
    submission ← submit (se_raw_transaction signed);
    finish_attempt request signed_state next_state signed submission.

End Attempt.
