(* ===== verification/SigningProofs.v ===== *)
(** * Signed bytes are durable before they leave

    The theorems about [Signer] and [Pending]: what is durable when a signer
    is asked, when signed bytes are returned or submitted, and after a pending
    attempt; and when a pending transaction is replaced or cancelled. *)
From Stdlib Require Import ZArith Lia List Bool String.
From stdpp Require Import base list gmap sorting.
From S2P Require Import Prelude.
From S2P Require Import Domain.
From S2P Require Import Config.
From S2P Require Import Models.
From S2P Require Import Storage.
From S2P Require Import Actor.
From S2P Require Import StorageProofs.
From S2P Require Import Calldata.
From S2P Require Import Firewall.
From S2P Require Import Signer.
From S2P Require Import Pending.
Open Scope Z_scope.

(** ** Inversion of the effects *)

Section Effects.
Context `{HK : Keccak}.

Lemma call_with_Ok {A} (m : JsonState -> result StorageError (JsonState * A)) w a w' :
  call_with m w = (Ok a, w') ->
  exists next, m (w_storage w) = Ok (next, a) /\ commit_next next = Ok (w_storage w') /\
    w_submissions w' = w_submissions w.
Proof.
  unfold call_with. destruct (m (w_storage w)) as [[next b]|e]; cbn; [|done].
  destruct (commit_next next) as [s|e] eqn:Ec; cbn; [|done].
  intros [= <- <-]. exists next. cbn. auto.
Qed.

Lemma call_with_Err {A} (m : JsonState -> result StorageError (JsonState * A)) w e w' :
  call_with m w = (Err e, w') -> w' = w.
Proof. unfold call_with. by destruct (_ ≫= _) as [[]|]; intros [= _ <-]. Qed.

Lemma call_Ok command w u w' :
  call command w = (Ok u, w') ->
  exists next, mutate (w_storage w) command = Ok next /\ commit_next next = Ok (w_storage w') /\
    w_submissions w' = w_submissions w.
Proof.
  intros (next & Hm & Hc & Hs)%call_with_Ok. apply bind_Ok in Hm as (s & Hm & [= <- _]).
  by exists s.
Qed.

Lemma from_storage_Ok {E A} (f : StorageError -> E) (c : io StorageError A) w a w' :
  from_storage f c w = (Ok a, w') -> c w = (Ok a, w').
Proof.
  unfold from_storage. destruct (c w) as [r w1]. intros [= Hr <-]. f_equal.
  by apply map_err_Ok in Hr.
Qed.

(** What a storage call does to the submissions: nothing. *)
Lemma stored_submissions {E A} (f : StorageError -> E)
    (m : JsonState -> result StorageError (JsonState * A)) w r w' :
  from_storage f (call_with m) w = (r, w') -> w_submissions w' = w_submissions w.
Proof.
  unfold from_storage. destruct (call_with m w) as [[a|e] w1] eqn:Hw; intros [= _ <-].
  - by apply call_with_Ok in Hw as (_ & _ & _ & ?).
  - by apply call_with_Err in Hw as ->.
Qed.

(** ** Rows and attempts that survive a commit *)

Lemma committed_attempt next s' row a :
  commit_next next = Ok s' -> row ∈ js_transactions s' -> a ∈ js_transaction_attempts next ->
  row_id row = sa_transaction_id a -> a ∈ js_transaction_attempts s'.
Proof. intros (_ & keep & _ & _ & Ha & _)%commit_next_lanes Hrow Hin Hid. eauto. Qed.

(** Identities stay where they are found. *)
Lemma committed_find next s' id row :
  commit_next next = Ok s' -> find (has_id id) (js_transactions next) = Some row ->
  is_active_lifecycle (tx_state row) = true -> find (has_id id) (js_transactions s') = Some row.
Proof.
  intros (_ & keep & Hk & -> & _)%commit_next_lanes Hf Ha.
  specialize (Hk row Ha). revert Hf. induction (js_transactions next) as [|x l IH]; [done|].
  cbn. destruct (has_id id x) eqn:Ex.
  - intros [= ->]. rewrite Hk. cbn. by rewrite Ex.
  - intros Hf. destruct (keep x); cbn; [rewrite Ex|]; by apply IH.
Qed.

Lemma find_fresh id (l : list TransactionRow) row :
  existsb (has_id id) l = false -> has_id id row = true ->
  find (has_id id) (l ++ [row]) = Some row.
Proof.
  induction l as [|x l IH]; cbn; [by intros _ ->|].
  intros [-> Hl]%orb_false_iff Hr. by apply IH.
Qed.

Lemma reserved_find s r next s' :
  reserve_nonce s r = Ok next -> commit_next next = Ok s' ->
  find (has_id (nr_transaction_id r)) (js_transactions s') = Some (fresh_row r).
Proof.
  unfold reserve_nonce. intros H Hc. step_ok H as ? G1. step_ok H as ? G2. step_ok H as ? G3.
  injection H as <-. apply require_Ok, negb_true_iff in G3.
  eapply committed_find; [exact Hc| |done]. cbn. apply find_fresh; [done|]. apply Z.eqb_refl.
Qed.

Lemma reserved_movement_find s r e m next rec s' :
  reserve_rate_movement_and_nonce s r e m = Ok (next, rec) -> commit_next next = Ok s' ->
  find (has_id (nr_transaction_id r)) (js_transactions s') = Some (fresh_row r).
Proof.
  unfold reserve_rate_movement_and_nonce. cbv zeta. intros H Hc. guards H. injection H as <- _.
  match goal with
  | H : reserve_nonce _ _ = Ok ?n |- _ =>
      unfold reserve_nonce in H; step_ok H as ? G1; step_ok H as ? G2; step_ok H as ? G3;
      injection H as <-
  end.
  apply require_Ok, negb_true_iff in G3.
  eapply committed_find; [exact Hc| |done]. cbn. apply find_fresh; [done|]. apply Z.eqb_refl.
Qed.

(** The row and the attempt an accepted signature leaves. *)
Definition signed_row (row : TransactionRow) (state : TransactionState) (hash : B256) (raw : Bytes)
    (at_ : Z) : TransactionRow :=
  row_with_state row state (Some hash) (Some raw) at_.

Lemma updated_find id f (l : list TransactionRow) row :
  find (has_id id) l = Some row -> tx_reservation (f row) = tx_reservation row ->
  find (has_id id) (update_first (has_id id) f l) = Some (f row).
Proof.
  intros Hf Hr. induction l as [|x l IH]; [done|]. cbn in Hf |- *.
  destruct (has_id id x) eqn:Ex; cbn.
  - injection Hf as ->. unfold has_id in *. by rewrite Hr, Ex.
  - rewrite Ex. by apply IH.
Qed.

Lemma persist_signed_durable s signed next s' :
  persist_signed s signed = Ok next -> commit_next next = Ok s' ->
  exists row, find (has_id (st_transaction_id signed)) (js_transactions s) = Some row /\
    tx_state row = NonceReserved /\
    find (has_id (st_transaction_id signed)) (js_transactions s') = Some
      (signed_row row Signed (st_transaction_hash signed) (st_raw_signed_transaction signed)
         (st_updated_at signed)) /\
    exists a, a ∈ js_transaction_attempts s' /\ sa_kind a = Initial /\
      sa_transaction_id a = st_transaction_id signed /\
      sa_transaction_hash a = st_transaction_hash signed /\
      sa_raw_signed_transaction a = st_raw_signed_transaction signed /\
      sa_broadcast_at a = None.
Proof.
  unfold persist_signed. cbv zeta. intros H Hc. step_ok H as ? G1. step_ok H as ? G2.
  step_ok H as row Hrow. step_ok H as ? G3. injection H as <-. apply ok_or_Ok in Hrow.
  apply require_Ok, bool_decide_eq_true in G3. exists row. split; [done|]. split; [done|].
  set (row' := signed_row _ _ _ _ _).
  assert (find (has_id (st_transaction_id signed)) (js_transactions s') = Some row') as Hin.
  { eapply committed_find; [exact Hc| |done]. cbn [with_lanes js_transactions].
    by apply (updated_find _ (fun row => row_with_state row Signed _ _ _)). }
  split; [done|]. eexists. split.
  { eapply committed_attempt; [exact Hc|exact (proj1 (find_has_id _ _ _ Hin))| |].
    - cbn [with_lanes js_transaction_attempts]. apply elem_of_app. right. by left.
    - unfold row_id. cbn. by apply find_has_id in Hrow as [_ ?]. }
  done.
Qed.

Lemma persist_signed_attempt_durable s a next s' :
  persist_signed_attempt s a = Ok next -> commit_next next = Ok s' ->
  exists row state, find (has_id (sa_transaction_id a)) (js_transactions s) = Some row /\
    signed_state (sa_kind a) (tx_state row) = Some state /\
    keccak256 (sa_raw_signed_transaction a) = sa_transaction_hash a /\
    find (has_id (sa_transaction_id a)) (js_transactions s') = Some
      (signed_row row state (sa_transaction_hash a) (sa_raw_signed_transaction a)
         (sa_signed_at a)) /\
    a ∈ js_transaction_attempts s'.
Proof.
  unfold persist_signed_attempt. cbv zeta. intros H Hc. step_ok H as ? G1. step_ok H as ? G2.
  step_ok H as ? G3. step_ok H as row Hrow. step_ok H as st Hst. injection H as <-.
  apply ok_or_Ok in Hrow, Hst. apply require_Ok in G2. bool_spec G2.
  destruct G2 as [[_ Hh] _]. exists row, st. split; [done|]. split; [done|]. split; [done|].
  set (row' := signed_row _ _ _ _ _).
  assert (find (has_id (sa_transaction_id a)) (js_transactions s') = Some row') as Hin.
  { eapply committed_find; [exact Hc| |].
    - cbn [with_lanes js_transactions].
      by apply (updated_find _ (fun row => row_with_state row st _ _ _)).
    - cbn. by destruct (sa_kind a), (tx_state row); try done; injection Hst as <-. }
  split; [done|]. eapply committed_attempt; [exact Hc|exact (proj1 (find_has_id _ _ _ Hin))| |].
  - cbn [with_lanes js_transaction_attempts]. apply elem_of_app. right. by left.
  - unfold row_id. cbn. by apply find_has_id in Hrow as [_ ?].
Qed.

Lemma record_broadcast_durable s id hash at_ block next s' row :
  record_attempt_broadcast s id hash at_ block = Ok next -> commit_next next = Ok s' ->
  find (has_id id) (js_transactions s) = Some row -> is_active_lifecycle (tx_state row) = true ->
  find (has_id id) (js_transactions s') = Some row.
Proof.
  intros (Hr & _)%record_attempt_broadcast_rows Hc Hf Ha.
  eapply committed_find; [exact Hc|by rewrite Hr|done].
Qed.

(** A broadcast transition moves the row and records the broadcast. *)
Lemma broadcast_transition_durable s t next s' row :
  transition_transaction s t = Ok next -> commit_next next = Ok s' ->
  broadcasts (tt_next_state t) = true ->
  find (has_id (tt_transaction_id t)) (js_transactions s) = Some row ->
  tx_state row = tt_expected_state t /\
  find (has_id (tt_transaction_id t)) (js_transactions s') = Some (transitioned t row) /\
  exists a hash, a ∈ js_transaction_attempts s' /\ tt_transaction_hash t = Some hash /\
    sa_transaction_id a = tt_transaction_id t /\ sa_transaction_hash a = hash /\
    sa_broadcast_at a = tt_submitted_at t.
Proof.
  unfold transition_transaction. cbv zeta. intros H Hc Hb Hf. step_ok H as ? G1. step_ok H as ? G2.
  rewrite Hf in H. cbn [ok_or] in H. step_ok H as row' Hrow. injection Hrow as <-.
  step_ok H as ? G3. step_ok H as s1 Hm. apply require_Ok, bool_decide_eq_true in G3.
  assert (releases_movement (tt_next_state t) = false) as Hrel by (by destruct (tt_next_state t)).
  rewrite Hrel in H. injection H as <-.
  unfold mark_broadcast in Hm. rewrite Hb in Hm. step_ok Hm as hash Hh. step_ok Hm as sub Hsub.
  step_ok Hm as att Hatt. injection Hm as <-. apply ok_or_Ok in Hh, Hsub, Hatt.
  split; [done|].
  assert (find (has_id (tt_transaction_id t)) (js_transactions s') = Some (transitioned t row))
    as Hin.
  { eapply committed_find; [exact Hc| |].
    - cbn. by apply (updated_find _ (transitioned t)).
    - cbn. by destruct (tt_next_state t). }
  split; [done|].
  set (f := fun a => attempt_broadcast a sub (sa_last_broadcast_block a)).
  exists (f att), hash. assert (is_attempt (tt_transaction_id t) hash att = true) as Hid
    by (by apply find_some in Hatt as [_ ?]).
  unfold is_attempt in Hid. bool_spec Hid. destruct Hid as [Hid Hha]. split; [|by rewrite Hsub].
  eapply committed_attempt; [exact Hc|exact (proj1 (find_has_id _ _ _ Hin))| |].
  - cbn. destruct (update_first_split _ f _ _ Hatt) as (l1 & l2 & _ & Hu & _).
    unfold f in Hu. rewrite Hu. apply elem_of_app. right. by left.
  - apply find_has_id in Hf as [_ Hf]. unfold row_id. cbn. by rewrite Hf, Hid.
Qed.

End Effects.

(** ** The signing boundary *)

Section Boundary.
Context `{HK : Keccak} `{HE : Envelope2718} (S : RoutineSigner) `{!RoutineSignerLaws S}.

Lemma reserve_durable_Ok plan t id block now w request w' :
  reserve_durable_rebalance plan t id block now w = (Ok request, w') ->
  vt_plan_hash t = pl_plan_hash (vp_plan plan) /\
  ds_transaction_id request = id /\ ds_transaction request = t /\ ds_created_at request = now /\
  w_submissions w' = w_submissions w /\
  find (has_id id) (js_transactions (w_storage w')) = Some (fresh_row
    (reservation_of plan t id block now)).
Proof.
  unfold reserve_durable_rebalance. destruct (negb _) eqn:Eh; bool_spec Eh; [done|].
  intros H. io_step H as mv w1 Hm. injection H as <- <-. split; [done|]. split; [done|].
  split; [done|]. split; [done|]. destruct (pl_episode_id (vp_plan plan)) as [e|].
  - io_step Hm as r w2 Hr. injection Hm as <- <-. apply from_storage_Ok in Hr.
    apply call_with_Ok in Hr as (next & Hr & Hc & Hs). split; [done|].
    by apply (reserved_movement_find _ _ _ _ _ _ _ Hr).
  - io_step Hm as u w2 Hr. injection Hm as <- <-. apply from_storage_Ok in Hr.
    apply call_Ok in Hr as (next & Hr & Hc & Hs). split; [done|].
    by apply (reserved_find _ _ _ _ Hr).
Qed.

Lemma persist_unsigned_Ok plan t id now w request w' :
  persist_unsigned_rebalance plan t id now w = (Ok request, w') ->
  ds_transaction_id request = id /\ ds_transaction request = t /\ ds_created_at request = now /\
  w_submissions w' = w_submissions w /\
  find (has_id id) (js_transactions (w_storage w')) = Some (fresh_row
    (reservation_of plan t id (blk_number (ctx_block (pl_snapshot (vp_plan plan)))) now)).
Proof.
  unfold persist_unsigned_rebalance. destruct (negb _); [done|]. intros H.
  io_step H as u w1 Hp. apply from_storage_Ok, call_Ok in Hp as (_ & _ & _ & Hs).
  apply reserve_durable_Ok in H as (_ & Hid & Ht & Hn & Hs' & Hf).
  split_and!; try done. by rewrite Hs', Hs.
Qed.

(** Signed bytes reach the caller only after they are durable: when the two
    halves of the signing boundary succeed, nothing has been submitted, the
    envelope carries exactly the firewalled transaction signed by its sender,
    and the durable state holds the reservation built from that transaction in
    state [Signed] with these bytes, and an initial attempt with these bytes
    that no broadcast is recorded for. *)
Theorem signed_bytes_durable plan t id now request_id w w1 w2 request env :
  persist_unsigned_rebalance plan t id now w = (Ok request, w1) ->
  sign_durable_rebalance request request_id w1 = (Ok env, w2) ->
  w_submissions w2 = w_submissions w /\
  carries env (rt_from (vt_fields t)) (eip1559 t) /\
  (exists row, row ∈ js_transactions (w_storage w2) /\ tx_state row = Signed /\
     tx_reservation row =
       reservation_of plan t id (blk_number (ctx_block (pl_snapshot (vp_plan plan)))) now /\
     tx_raw_signed_transaction row = Some (se_raw_transaction env) /\
     tx_transaction_hash row = Some (se_transaction_hash env)) /\
  exists a, a ∈ js_transaction_attempts (w_storage w2) /\ sa_kind a = Initial /\
    sa_transaction_id a = id /\ sa_transaction_hash a = se_transaction_hash env /\
    sa_raw_signed_transaction a = se_raw_transaction env /\ sa_broadcast_at a = None.
Proof.
  intros (Hid & Ht & Hn & Hs & Hf)%persist_unsigned_Ok H. unfold sign_durable_rebalance in H.
  destruct (sign_rebalance _) as [env'|e] eqn:Hsign;
    [|io_step H as u w3 Hu; done].
  io_step H as u w3 Hu. injection H as -> ->. apply from_storage_Ok in Hu.
  apply call_Ok in Hu as (next & Hm & Hc & Hs').
  apply sign_rebalance_carries in Hsign. cbn in Hsign. rewrite Ht in Hsign.
  destruct (persist_signed_durable _ _ _ _ Hm Hc) as (row & Hrow & _ & Hin & a & Ha).
  cbn in Hrow, Hin, Ha. rewrite Hid in *. rewrite Hf in Hrow. injection Hrow as <-.
  split; [by rewrite Hs'|]. split; [exact Hsign|]. split; [|by exists a].
  eexists. split; [exact (proj1 (find_has_id _ _ _ Hin))|]. done.
Qed.

(** A signer error leaves no signed bytes behind: the reservation is aborted. *)
Lemma signer_error_aborts request request_id e w w' :
  sign_durable_rebalance request request_id w = (Err (BoundarySigner e), w') ->
  sign_rebalance (mkSignRebalanceRequest request_id (ds_transaction request)) = Err e /\
  w_submissions w' = w_submissions w /\
  exists next, commit_next next = Ok (w_storage w') /\
    transition_transaction (w_storage w)
      (abort_transition (ds_transaction_id request) (ds_created_at request)) = Ok next.
Proof.
  unfold sign_durable_rebalance. destruct (sign_rebalance _) as [env|e'].
  - unfold mbind at 1, io_bind at 1, durable, from_storage.
    by destruct (call _ _) as [[|] ?].
  - unfold mbind at 1, io_bind at 1, durable, from_storage.
    destruct (call _ _) as [[u|e1] w1] eqn:Hw; cbn; [|done]. intros [= -> <-].
    apply call_Ok in Hw as (next & Hm & Hc & Hs). split; [done|]. split; [done|]. by exists next.
Qed.

End Boundary.

(** ** One pending attempt *)

Section Attempt.
Context `{HK : Keccak} `{HE : Envelope2718} (S : RoutineSigner) `{!RoutineSignerLaws S}.
Context `{HB : SignedTransactionSubmitter}.

(** The kind and states of the attempt a decision makes. *)
Definition attempt_states (decision : PendingDecision)
    : option (TransactionAttemptKind * TransactionState * TransactionState) :=
  match decision with
  | Replace => Some (Replacement, ReplacementSigned, Replaced)
  | Cancel _ => Some (Cancellation, CancellationSigned, CancellationSubmitted)
  | Wait => None
  end.

(** The transaction an attempt signs: the original with new fees, or a
    zero-value transfer of its nonce to the sender. *)
Definition attempt_transaction (request : PendingAttemptRequest) : TxEip1559 :=
  let original := vp_original (pr_pending request) in
  match pr_decision request with
  | Cancel _ =>
      mkTxEip1559 (rt_chain_id (vt_fields original)) (rt_nonce (vt_fields original))
        (pr_cancellation_gas_limit request) (pr_max_fee_per_gas request)
        (pr_max_priority_fee_per_gas request) (rt_from (vt_fields original)) 0 [] []
  | _ => with_fees (eip1559 original) (pr_max_fee_per_gas request)
           (pr_max_priority_fee_per_gas request)
  end.

Lemma sign_attempt_Ok execution request kind st next signed :
  sign_attempt execution request = Ok (kind, st, next, signed) ->
  attempt_states (pr_decision request) = Some (kind, st, next) /\
  carries signed (rt_from (vt_fields (vp_original (pr_pending request))))
    (attempt_transaction request).
Proof.
  unfold sign_attempt, attempt_transaction. destruct (pr_decision request) as [| |r]; [done| |].
  - intros H. step_ok H as env He. injection H as <- <- <- <-. apply map_err_Ok in He.
    apply sign_replacement_carries in He as (e & He & Hc).
    apply replacement_Ok in He as (_ & _ & Hs & Ht). rewrite Hs, Ht in Hc. done.
  - destruct (_ || _); [done|]. intros H. step_ok H as env He. injection H as <- <- <- <-.
    apply map_err_Ok in He. apply sign_cancellation_carries in He as (e & He & Hc).
    apply cancellation_Ok in He as (_ & _ & _ & Hs & Ht). rewrite Hs, Ht in Hc. done.
Qed.

Lemma attempt_states_facts decision kind st next :
  attempt_states decision = Some (kind, st, next) ->
  (forall s st', signed_state kind s = Some st' -> st' = st) /\
  is_active_lifecycle st = true /\ broadcasts next = true /\ is_unresolved next = true.
Proof.
  destruct decision; cbn; [done| |]; intros [= <- <- <-]; (split; [|done]);
    by intros []; cbn; intros ? [= <-].
Qed.

(** Signed bytes that are durable, in the only unresolved state they can be. *)
Definition durably_signed (s : JsonState) (request : PendingAttemptRequest)
    (signed : SignedEnvelope) (kind : TransactionAttemptKind) (st : TransactionState) : Prop :=
  let id := vp_transaction_id (pr_pending request) in
  attempt_record request kind signed ∈ js_transaction_attempts s /\
  exists row, find (has_id id) (js_transactions s) = Some row /\ tx_state row = st /\
    tx_raw_signed_transaction row = Some (se_raw_transaction signed) /\
    tx_transaction_hash row = Some (se_transaction_hash signed).

(** What is durable once a pending attempt has returned an outcome. *)
Definition durably_broadcast (s : JsonState) (request : PendingAttemptRequest)
    (signed : SignedEnvelope) (next : TransactionState) : Prop :=
  let id := vp_transaction_id (pr_pending request) in
  (exists row, find (has_id id) (js_transactions s) = Some row /\ tx_state row = next /\
     tx_raw_signed_transaction row = Some (se_raw_transaction signed) /\
     tx_transaction_hash row = Some (se_transaction_hash signed)) /\
  exists a, a ∈ js_transaction_attempts s /\ sa_transaction_id a = id /\
    sa_transaction_hash a = se_transaction_hash signed /\
    sa_broadcast_at a = Some (pr_created_at request).

Definition outcome_hash (o : PendingAttemptOutcome) : B256 :=
  match o with Broadcast h => h | SubmissionIndeterminate h _ => h end.

Lemma finish_attempt_spec request st next signed submission w r w' row :
  finish_attempt request st next signed submission w = (r, w') ->
  find (has_id (vp_transaction_id (pr_pending request))) (js_transactions (w_storage w)) = Some row ->
  is_active_lifecycle (tx_state row) = true -> broadcasts next = true ->
  tx_raw_signed_transaction row = Some (se_raw_transaction signed) ->
  tx_transaction_hash row = Some (se_transaction_hash signed) ->
  w_submissions w' = w_submissions w /\
  forall o, r = Ok o -> outcome_hash o = se_transaction_hash signed /\
    durably_broadcast (w_storage w') request signed next.
Proof.
  intros H Hrow Hact Hbr Hraw Hhash. unfold finish_attempt in H. cbv zeta in H.
  unfold mbind at 1, io_bind at 1 in H.
  destruct (stored (call (RecordAttemptBroadcast _ _ _ _)) w) as [[u|e] w1] eqn:Hp;
    pose proof (stored_submissions _ _ _ _ _ Hp) as Hsub; [|injection H as <- <-; done].
  apply from_storage_Ok, call_Ok in Hp as (n1 & Hm1 & Hc1 & _).
  pose proof (record_broadcast_durable _ _ _ _ _ _ _ _ Hm1 Hc1 Hrow Hact) as Hrow1.
  unfold mbind at 1, io_bind at 1 in H.
  destruct (stored (call (TransitionTransaction _)) w1) as [[u2|e] w2] eqn:Hp;
    pose proof (stored_submissions _ _ _ _ _ Hp) as Hsub2;
    [|injection H as <- <-; by rewrite Hsub2].
  apply from_storage_Ok, call_Ok in Hp as (n2 & Hm2 & Hc2 & _).
  destruct (broadcast_transition_durable _ _ _ _ _ Hm2 Hc2 Hbr Hrow1)
    as (_ & Hrow2 & a & hash & Ha & Hh & Hid & Hah & Hbc).
  assert (w' = w2 /\ forall o, r = Ok o -> outcome_hash o = se_transaction_hash signed)
    as [-> Ho].
  { destruct submission as [h|c]; [destruct (negb _) eqn:Eh; bool_spec Eh|case_bool_decide];
      injection H as <- <-; (split; [done|]); intros o [= <-]; done. }
  split; [by rewrite Hsub2|]. intros o Hr. split; [by apply Ho|]. split.
  - eexists. split; [exact Hrow2|]. split; [done|]. by rewrite <-Hraw.
  - exists a. cbn in Hh, Hid, Hah, Hbc. injection Hh as <-. done.
Qed.

(** The cases of one pending attempt. *)
Lemma pending_attempt_cases execution request w r w' :
  execute_pending_attempt execution request w = (r, w') ->
  (w_submissions w' = w_submissions w /\ forall o, r <> Ok o) \/
  exists kind st next signed s1,
    attempt_states (pr_decision request) = Some (kind, st, next) /\
    carries signed (rt_from (vt_fields (vp_original (pr_pending request))))
      (attempt_transaction request) /\
    vp_current_max_fee_per_gas (pr_pending request) < pr_max_fee_per_gas request
      <= ex_maximum_fee_per_gas_wei execution /\
    vp_current_max_priority_fee_per_gas (pr_pending request)
      < pr_max_priority_fee_per_gas request /\
    w_submissions w' = w_submissions w ++ [(se_raw_transaction signed, s1)] /\
    durably_signed s1 request signed kind st /\
    forall o, r = Ok o -> outcome_hash o = se_transaction_hash signed /\
      durably_broadcast (w_storage w') request signed next /\ is_unresolved next = true.
Proof.
  unfold execute_pending_attempt. destruct (negb _); [intros [= <- <-]; by left|].
  unfold mbind at 1, io_bind at 1, io_lift at 1.
  destruct (validate_replacement_fees _ _ _ _ _) as [[]|e] eqn:Hf; cbn [map_err];
    [|intros [= <- <-]; by left].
  apply replacement_fees_spec in Hf as [Hf1 Hf2].
  unfold mbind at 1, io_bind at 1, io_lift at 1.
  destruct (sign_attempt execution request) as [[[[kind st] next] signed]|e] eqn:Hs;
    cbn [map_err]; [|intros [= <- <-]; by left].
  apply sign_attempt_Ok in Hs as [Hst Hcar].
  destruct (attempt_states_facts _ _ _ _ Hst) as (Hsig & Hact & Hbr & Hun).
  unfold mbind at 1, io_bind at 1.
  destruct (stored (call (PersistSignedAttempt _)) w) as [[u|e] w1] eqn:Hp;
    pose proof (stored_submissions _ _ _ _ _ Hp) as Hsub;
    [|intros [= <- <-]; by left].
  apply from_storage_Ok, call_Ok in Hp as (n1 & Hm1 & Hc1 & _).
  destruct (persist_signed_attempt_durable _ _ _ _ Hm1 Hc1) as (row & st' & Hrow & Hst' & _ & Hin & Ha).
  apply Hsig in Hst' as ->. cbn [attempt_record sa_transaction_id sa_transaction_hash
    sa_raw_signed_transaction sa_signed_at] in *.
  unfold mbind at 1, io_bind at 1, submit at 1. intros H. right.
  exists kind, st, next, signed, (w_storage w1). split; [done|]. split; [done|].
  split; [lia|]. split; [lia|].
  assert (durably_signed (w_storage w1) request signed kind st) as Hd.
  { split; [done|]. eexists. split; [exact Hin|]. done. }
  enough (w_submissions w' = w_submissions w1 ++ [(se_raw_transaction signed, w_storage w1)] /\
    forall o, r = Ok o -> outcome_hash o = se_transaction_hash signed /\
      durably_broadcast (w_storage w') request signed next) as [He Ho].
  { rewrite He, Hsub. split; [done|]. split; [done|]. intros o Hr. by destruct (Ho o Hr). }
  exact (finish_attempt_spec _ _ _ _ _ _ _ _ _ H Hin Hact Hbr eq_refl eq_refl).
Qed.

(** C11: A replacement or cancellation is submitted at most once per attempt, and
    only after it is durable: either nothing was submitted and no outcome was
    returned, or exactly one submission was made, of bytes that carry the
    permitted transaction of the original sender with strictly raised fees
    under the ceiling, at a durable state that already held the attempt and the
    row with these bytes.  Any returned outcome, an indeterminate submission
    included, reports the hash of these bytes and leaves the broadcast recorded
    and the nonce lane unresolved in its next state. *)
Theorem pending_attempt_durable execution request w r w' :
  execute_pending_attempt execution request w = (r, w') ->
  (w_submissions w' = w_submissions w /\ forall o, r <> Ok o) \/
  exists kind st next signed s1,
    attempt_states (pr_decision request) = Some (kind, st, next) /\
    carries signed (rt_from (vt_fields (vp_original (pr_pending request))))
      (attempt_transaction request) /\
    vp_current_max_fee_per_gas (pr_pending request) < pr_max_fee_per_gas request
      <= ex_maximum_fee_per_gas_wei execution /\
    vp_current_max_priority_fee_per_gas (pr_pending request)
      < pr_max_priority_fee_per_gas request /\
    w_submissions w' = w_submissions w ++ [(se_raw_transaction signed, s1)] /\
    durably_signed s1 request signed kind st /\
    forall o, r = Ok o -> outcome_hash o = se_transaction_hash signed /\
      durably_broadcast (w_storage w') request signed next /\ is_unresolved next = true.
Proof. apply pending_attempt_cases. Qed.

End Attempt.

(** ** The decision at an opportunity *)

(** An exact signal that the signed plan must not land. *)
Definition invalidated (clock : PendingClock) (signals : PendingSafetySignals) : Prop :=
  ps_signer_role_lost signals = true \/ ps_external_idle_lock_created signals = true \/
  (ps_service_constraint_failed signals = true /\ pk_reason clock <> LiquidityMaintenance) \/
  ps_reward_policy_expired signals = true \/ ps_direction_reversed signals = true \/
  ps_material_invalidation signals = true.

#[global] Instance invalidated_dec clock signals : Decision (invalidated clock signals).
Proof. unfold invalidated. apply _. Defined.

(** The horizon of the plan's reason is near or passed. *)
Definition expiring (clock : PendingClock) (current : Z) (execution : ValidatedExecutionConfig)
    : Prop :=
  exists horizon, pending_horizon (pk_reason clock) execution = Ok horizon /\
    pk_submitted_at clock < current /\
    horizon - (current - pk_submitted_at clock) <= ex_cancel_when_opportunities_remaining execution.

Lemma assess_pending_unfold clock current signals execution :
  pk_submitted_at clock <= current -> pk_last_attempt_at clock <= current ->
  ps_provider_ambiguous signals = false ->
  (invalidated clock signals ->
     exists r, assess_pending clock current signals execution = Ok (Cancel r)) /\
  (~ invalidated clock signals ->
     assess_pending clock current signals execution =
     (horizon ← pending_horizon (pk_reason clock) execution;
      let age := current - pk_submitted_at clock in
      if (0 <? age) && ((horizon <=? age)
           || (saturating_sub horizon age <=? ex_cancel_when_opportunities_remaining execution))
      then Ok (Cancel PendingHorizon)
      else if ex_replacement_after_opportunities execution <=? current - pk_last_attempt_at clock
           then Ok Replace else Ok Wait)).
Proof.
  intros Hs Hl Ha. unfold assess_pending, invalidated.
  rewrite (proj2 (checked_sub_Some current _ _) (conj eq_refl Hs)).
  rewrite (proj2 (checked_sub_Some current _ _) (conj eq_refl Hl)).
  cbn [ok_or mbind result_bind]. rewrite Ha.
  destruct (ps_signer_role_lost signals); [naive_solver|].
  destruct (ps_external_idle_lock_created signals); [naive_solver|].
  destruct (ps_service_constraint_failed signals && _) eqn:E; bool_spec E; [naive_solver|].
  destruct (ps_reward_policy_expired signals); [naive_solver|].
  destruct (ps_direction_reversed signals); [naive_solver|].
  destruct (ps_material_invalidation signals); [naive_solver|].
  split; [|done]. intros [?|[?|[[? ?]|[?|[?|?]]]]]; try done. destruct E; congruence.
Qed.

(** The decision at an opportunity is total and exact: with a monotone
    clock and a plan that can be pending there is always a decision; an
    ambiguous provider blocks every new signature; otherwise the transaction is
    cancelled exactly when an exact signal invalidates it or its horizon runs
    out, whatever replacement is due, and a fee replacement is made exactly when
    it is not cancelled and the last attempt is old enough. *)
Theorem pending_decision_exact clock current signals execution :
  pk_submitted_at clock <= current -> pk_last_attempt_at clock <= current ->
  0 <= ex_cancel_when_opportunities_remaining execution ->
  pk_reason clock <> PositionSyncRequired ->
  exists d, assess_pending clock current signals execution = Ok d /\
    (ps_provider_ambiguous signals = true -> d = Wait) /\
    (ps_provider_ambiguous signals = false ->
       ((exists r, d = Cancel r) <-> invalidated clock signals \/ expiring clock current execution) /\
       (d = Replace <-> ~ invalidated clock signals /\ ~ expiring clock current execution /\
          ex_replacement_after_opportunities execution <= current - pk_last_attempt_at clock)).
Proof.
  intros Hs Hl Hc Hr. destruct (ps_provider_ambiguous signals) eqn:Ea.
  { exists Wait. unfold assess_pending.
    rewrite (proj2 (checked_sub_Some current _ _) (conj eq_refl Hs)).
    rewrite (proj2 (checked_sub_Some current _ _) (conj eq_refl Hl)).
    cbn [ok_or mbind result_bind]. by rewrite Ea. }
  destruct (assess_pending_unfold clock current signals execution Hs Hl Ea) as [Hi Hn].
  destruct (decide (invalidated clock signals)) as [H|H].
  - destruct (Hi H) as [r Hd]. exists (Cancel r). split; [done|]. split; [done|]. intros _.
    split; [naive_solver|]. split; [done|]. by intros [? _].
  - rewrite Hn by done. destruct (pending_horizon (pk_reason clock) execution) as [h|e] eqn:Eh;
      [|by destruct (pk_reason clock)].
    cbn [mbind result_bind]. cbv zeta. rewrite saturating_sub_spec.
    assert (expiring clock current execution <->
      (0 <? current - pk_submitted_at clock) && ((h <=? current - pk_submitted_at clock)
        || (Z.max 0 (h - (current - pk_submitted_at clock))
            <=? ex_cancel_when_opportunities_remaining execution)) = true) as He.
    { rewrite andb_true_iff, orb_true_iff, Z.ltb_lt, !Z.leb_le. unfold expiring. split.
      - rewrite Eh. intros (h' & [= <-] & ? & ?). lia.
      - intros [? ?]. exists h. split; [done|]. lia. }
    destruct (_ && _) eqn:E; [|destruct (_ <=? _) eqn:E2; bool_spec E2].
    + eexists. split; [done|]. split; [done|]. intros _. split; [naive_solver|].
      split; [done|]. naive_solver.
    + eexists. split; [done|]. split; [done|]. intros _. rewrite He. split; [naive_solver|].
      split; [|done]. intros _. split; [done|]. by split.
    + eexists. split; [done|]. split; [done|]. intros _. rewrite He. split; [naive_solver|].
      split; [done|]. intros (_ & _ & ?). lia.
Qed.
