(* ===== verification/PlanPriority.v ===== *)
(** * A refresh of the planning service

    The plan classes in their order over the spread refresh of [PlanService],
    and the episodes one refresh leaves in the durable store. *)
From Stdlib Require Import ZArith Lia List Bool String.
From stdpp Require Import base list gmap sets.
From S2P Require Import Prelude.
From S2P Require Import BlueMath.
From S2P Require Import Domain.
From S2P Require Import Episodes.
From S2P Require Import Models.
From S2P Require Import Storage.
From S2P Require Import StorageProofs.
From S2P Require Import Config.
From S2P Require Import Projection.
From S2P Require Import Simulator.
From S2P Require Import Objective.
From S2P Require Import Calldata.
From S2P Require Import Firewall.
From S2P Require Import Rate.
From S2P Require Import TopK.
From S2P Require Import TopKSolve.
From S2P Require Import Revision.
From S2P Require Import Planning.
From S2P Require Import PlanTopK.
From S2P Require Import StorageLedger.
From S2P Require Import PlanService.
Open Scope Z_scope.

(** ** The priority of plans

    Models [refresh_priority_plan] and [refresh_top_k_plan] of
    [src/src/runtime/planning_service.rs]: the plan classes in their order, the
    termination of the rate episode under a higher class, and the top-K refresh
    with the memory it persists.  The calls are those of [PlanService]. *)

(** The memory of the latest observed block of a vault, the last of equals. *)
Definition later_memory (best : option TimedTopKApyMemory) (entry : TimedTopKApyMemory)
    : option TimedTopKApyMemory :=
  let key e := [tk_last_observed_block (tm_memory e); tm_updated_at e] in
  match best with
  | Some b => if lex_lt (key entry) (key b) then Some b else Some entry
  | None => Some entry
  end.
Definition load_top_k_apy_memory (s : JsonState) (vault : VaultAddress) : option TopKApyMemory :=
  tm_memory <$> fold_left later_memory
    (List.filter (fun entry => tm_vault entry =? vault) (js_top_k_apy_memory s)) None.

(** Whether the storage answers the load of the memory. *)
Class TopKServices : Type := { memory_loads : bool }.

Section Priority.
Context `{HK : Keccak} `{HA : AbiParams} `{HV : VaultAbi} `{HJ : PlanJson} `{HS : PlanServices}.
Context `{HT : TopKServices}.
Context (config : ValidatedConfig) (vault : ValidatedVaultConfig).
Context (snapshot : ExactVaultSnapshot) (projection : ProjectedVaultView).
Context (revision : option PlanningRevision).

Let settings := sg_top_k_apy (ac_strategy (vg_app config)).
Let now := blk_timestamp (pw_head projection).

(** A plan published outside of an episode, at its own block. *)
Definition publish_prepared (prepared : PreparedRatePlan) : Service (option V2Plan) :=
  let plan := vp_plan (prp_plan prepared) in
  publish_plan plan None (blk_timestamp (ctx_block (pl_snapshot plan))).

(** Early [return Ok(None)] after clearing the plan through the snapshot. *)
Definition clear_at_snapshot : Service (option V2Plan) :=
  _ ← clear_plan revision None (blk_number (ctx_block (ev_context snapshot)));
  mret None.

Definition refresh_top_k_plan : Service (option V2Plan) :=
  previous ← lift (if memory_loads then Ok (load_top_k_apy_memory stored (vv_address vault))
                   else Err PsStorage);
  funding ← lift (map_err (fun _ => PsTopKApy) (verified_deployable_capital snapshot vault));
  observation ← lift (map_err (fun _ => PsTopKApy)
    (observe_top_k_target snapshot projection vault settings previous (td_total_assets funding)));
  _ ← attempt storage_persists PsStorage (PersistTopKMemory (ob_next_memory observation) now);
  match ob_target observation with
  | None => clear_at_snapshot
  | Some target =>
      prepared ← lift (build_validated_top_k_plan config vault snapshot projection revision target
                         funding);
      match prepared with
      | None => clear_at_snapshot
      | Some prepared => publish_prepared prepared
      end
  end.

Definition refresh_priority_plan : Service (option V2Plan) :=
  restoration ← lift (build_validated_liquidity_plan config vault snapshot projection revision);
  match restoration with
  | Some prepared =>
      _ ← terminate_rate_episode vault projection;
      publish_prepared prepared
  | None =>
      if bool_decide (vv_strategy vault = TopKApyDiversified) then
        _ ← terminate_rate_episode vault projection;
        refresh_top_k_plan
      else
        deployment ← lift (build_validated_capital_plan config vault snapshot projection revision);
        match deployment with
        | Some prepared =>
            _ ← terminate_rate_episode vault projection;
            publish_prepared prepared
        | None => refresh_rate_plan config vault snapshot projection revision
        end
  end.

(** ** What may be published *)

(** Every plan the storage is asked to keep satisfies [P] after the calls
    before it. *)
Definition all_plans (P : list ServiceCall -> V2Plan -> Z -> Prop) (calls : list ServiceCall)
    : Prop :=
  forall before p t after, calls = before ++ PersistPlan p t :: after -> P before p t.

Lemma all_plans_snoc P calls c :
  all_plans P calls -> (forall p t, c = PersistPlan p t -> P calls p t) ->
  all_plans P (calls ++ [c]).
Proof.
  intros H Hc before p t after He. destruct after as [|x after _] using rev_ind.
  - apply app_inj_tail in He as [-> ->]. by apply Hc.
  - rewrite app_comm_cons, app_assoc in He. apply app_inj_tail in He as [He _]. by eapply H.
Qed.

Lemma all_plans_nil P : all_plans P [].
Proof. by intros [] p t after. Qed.

(** The highest class with a plan is the one published; outside of the spread
    strategy no episode is open. *)
Definition published (before : list ServiceCall) (p : V2Plan) (t : Z) : Prop :=
  (exists prepared,
     build_validated_liquidity_plan config vault snapshot projection revision = Ok (Some prepared) /\
     p = vp_plan (prp_plan prepared) /\ closed (durable vault before)) \/
  build_validated_liquidity_plan config vault snapshot projection revision = Ok None /\
  ((vv_strategy vault = TopKApyDiversified /\ closed (durable vault before) /\
    exists funding previous observation target prepared,
      verified_deployable_capital snapshot vault = Ok funding /\
      observe_top_k_target snapshot projection vault settings previous (td_total_assets funding)
        = Ok observation /\
      PersistTopKMemory (ob_next_memory observation) now ∈ before /\
      ob_target observation = Some target /\
      build_validated_top_k_plan config vault snapshot projection revision target funding
        = Ok (Some prepared) /\ p = vp_plan (prp_plan prepared)) \/
   vv_strategy vault <> TopKApyDiversified /\
   ((exists prepared,
       build_validated_capital_plan config vault snapshot projection revision = Ok (Some prepared) /\
       p = vp_plan (prp_plan prepared) /\ closed (durable vault before)) \/
    build_validated_capital_plan config vault snapshot projection revision = Ok None /\
    exists e prepared, durable vault before = Some e /\
      (re_state e = Immediate \/ re_state e = Persistent) /\
      build_validated_rate_plan config vault snapshot projection revision e = Ok (Some prepared) /\
      p = vp_plan (prp_plan prepared))).

(** A run that ends with a plan has just kept, shown and registered it. *)
Definition ends_published (calls : list ServiceCall) (r : result PlanningServiceError (option V2Plan))
    : Prop :=
  forall p, r = Ok (Some p) -> exists before t episode_id,
    calls = before ++ [PersistPlan p t; RecordPlan p; RecordPlanning (Some (pl_plan_id p)) episode_id].

Definition run_ok (run : list ServiceCall * result PlanningServiceError (option V2Plan)) : Prop :=
  all_plans published run.1 /\ ends_published run.1 run.2.

Lemma publish_run prepared calls :
  all_plans published calls ->
  (forall t, published calls (vp_plan (prp_plan prepared)) t) ->
  run_ok (publish_prepared prepared calls).
Proof.
  intros Hc Hp. unfold publish_prepared, publish_plan, run_ok, attempt, mbind, service_bind. cbn.
  set (p := vp_plan (prp_plan prepared)) in *. set (t := blk_timestamp _).
  assert (all_plans published (calls ++ [PersistPlan p t])) as H1.
  { apply all_plans_snoc; [done|]. intros p' t' [= <- <-]. apply Hp. }
  assert (all_plans published ((calls ++ [PersistPlan p t]) ++ [RecordPlan p])) as H2
    by (by apply all_plans_snoc).
  destruct (storage_persists _ _); [|done]. cbn.
  destruct (api_accepts _ _); cbn; [|done].
  destruct (runtime_updates _ _); cbn; (split; [by apply all_plans_snoc|]); [|done].
  intros p' [= <-]. exists calls, t, None. by rewrite <-!app_assoc.
Qed.

Lemma clear_run calls : all_plans published calls -> run_ok (clear_at_snapshot calls).
Proof.
  intros Hc. unfold clear_at_snapshot, clear_plan, run_ok, attempt, notify, mbind, service_bind. cbn.
  destruct (runtime_updates _ _); cbn; (split; [|done]); by repeat apply all_plans_snoc.
Qed.

(** Termination closes the episode of the group, or fails. *)
Lemma terminate_run :
  let run := terminate_rate_episode vault projection [] in
  all_plans published run.1 /\ (run.2 = Ok tt -> closed (durable vault run.1)).
Proof.
  cbv zeta. unfold terminate_rate_episode, load_episode, lift, mbind, service_bind.
  destruct storage_loads; [|split; [apply all_plans_nil|done]].
  destruct (load_active_rate_episode stored (vv_address vault) (rg_id (vv_rate_group vault)))
    as [[e|]|err] eqn:El; cbn [map_err]; [|split; [apply all_plans_nil|]|split; [apply all_plans_nil|done]].
  - unfold persist_rate_episode, record_episode, attempt, notify. cbn.
    assert (all_plans published [PersistRateEpisode (complete e HigherPriorityPlan) now]) as H1
      by (apply (all_plans_snoc _ [] _); [apply all_plans_nil|done]).
    destruct (storage_persists _ _); cbn; [|done].
    split; [by apply (all_plans_snoc _ [_] _)|]. intros _ e' He. unfold durable in He. cbn in He.
    by injection He as <-.
  - intros _ e' He. unfold durable in He. cbn in He. by rewrite El in He.
Qed.

Lemma durable_top_k calls memory t :
  durable vault (calls ++ [PersistTopKMemory memory t]) = durable vault calls.
Proof. by rewrite durable_snoc. Qed.

Lemma top_k_run calls :
  build_validated_liquidity_plan config vault snapshot projection revision = Ok None ->
  vv_strategy vault = TopKApyDiversified -> closed (durable vault calls) ->
  all_plans published calls -> run_ok (refresh_top_k_plan calls).
Proof.
  intros Hl Hs Hc Ha. unfold refresh_top_k_plan, lift, attempt, mbind, service_bind.
  destruct memory_loads; [|by split]. cbn [map_err].
  set (previous := load_top_k_apy_memory _ _).
  destruct (verified_deployable_capital snapshot vault) as [funding|] eqn:Ef; cbn [map_err]; [|by split].
  destruct (observe_top_k_target _ _ _ _ _ _) as [obs|] eqn:Eo; cbn [map_err]; [|by split].
  set (calls' := calls ++ [PersistTopKMemory (ob_next_memory obs) now]).
  assert (all_plans published calls') as Ha' by (by apply all_plans_snoc).
  destruct (storage_persists _ _); [|by split].
  destruct (ob_target obs) as [target|] eqn:Et; [|by apply clear_run].
  destruct (build_validated_top_k_plan _ _ _ _ _ _ _) as [[prepared|]|e] eqn:Eb;
    [|by apply clear_run|by split].
  apply publish_run; [done|]. intros t. right. split; [done|]. left. split; [done|].
  split; [unfold calls'; by rewrite durable_top_k|].
  exists funding, previous, obs, target, prepared. split_and!; try done.
  unfold calls'. apply elem_of_app. right. by left.
Qed.

(** After a termination, a run of the plan of a higher class. *)
Lemma terminated_run (next : Service (option V2Plan)) :
  (forall calls, all_plans published calls -> closed (durable vault calls) -> run_ok (next calls)) ->
  run_ok ((_ ← terminate_rate_episode vault projection; next) []).
Proof.
  intros Hn. pose proof terminate_run as [Ha Hc]. unfold mbind, service_bind.
  destruct (terminate_rate_episode vault projection []) as [calls [[]|e]]; cbn in *; [|by split].
  apply Hn; [done|by apply Hc].
Qed.

(** C26: Whatever the services answer, one refresh publishes by class. A plan
    is only persisted when no higher class has one: a restoration first, then
    either the top-K plan of the persisted observation or, under the spread
    strategy, a deployment and last the movement of the confirmed durable
    episode. Outside of the spread movement the rate episode was completed
    first, and a returned plan has just been persisted, shown and registered. *)
Theorem refresh_priority_sound :
  let run := refresh_priority_plan [] in
  all_plans published run.1 /\ ends_published run.1 run.2.
Proof.
  cbv zeta. change (run_ok (refresh_priority_plan [])). unfold refresh_priority_plan.
  unfold lift at 1. unfold mbind at 1, service_bind at 1.
  destruct (build_validated_liquidity_plan _ _ _ _ _) as [[prepared|]|e] eqn:El;
    [| |by split; [apply all_plans_nil|]].
  { apply terminated_run. intros calls Ha Hc. apply publish_run; [done|].
    intros t. left. by exists prepared. }
  destruct (bool_decide _) eqn:Es; bool_spec Es.
  { apply terminated_run. intros calls Ha Hc. by apply top_k_run. }
  unfold lift at 1. unfold mbind at 1, service_bind at 1.
  destruct (build_validated_capital_plan _ _ _ _ _) as [[prepared|]|e] eqn:Ec;
    [| |by split; [apply all_plans_nil|]].
  { apply terminated_run. intros calls Ha Hc. apply publish_run; [done|].
    intros t. right. split; [done|]. right. split; [done|]. left. by exists prepared. }
  destruct (refresh_spec config vault snapshot projection revision []) as [Ht Hq];
    [by intros [] c after|done|].
  split.
  - intros before p t after He. right. split; [done|]. right. split; [done|]. right.
    split; [done|]. apply Ht in He. destruct He as (e & prepared & H1 & H2 & H3 & H4).
    exists e, prepared. by rewrite H4.
  - intros p Hp. destruct (Hq _ Hp p eq_refl) as (before & e & prepared & -> & _).
    by exists before, now, (Some (re_episode_id e)).
Qed.

End Priority.

(** ** The episodes of a refresh in the durable store

    Composes [PlanService] with the storage of [Storage]: every episode one
    refresh persists is accepted by the storage's rule of one active episode
    per rate group, and the store ends with exactly the episode the refresh
    holds. *)

(** ** One active episode per rate group *)

Definition episode_ids (s : JsonState) : list EpisodeId :=
  (fun entry => re_episode_id (te_episode entry)) <$> js_rate_episodes s.

(** The active entries of a group after the entries of one episode change. *)
Definition active_entries (vault : VaultAddress) (group : RateGroupId) (l : list TimedEpisode)
    : list TimedEpisode := List.filter (active_in vault group) l.

Lemma active_entries_app v g l1 l2 :
  active_entries v g (l1 ++ l2) = active_entries v g l1 ++ active_entries v g l2.
Proof. apply List.filter_app. Qed.

Lemma load_active_Ok s v g o :
  load_active_rate_episode s v g = Ok o ->
  match o with
  | None => active_entries v g (js_rate_episodes s) = []
  | Some e => exists entry, active_entries v g (js_rate_episodes s) = [entry] /\ te_episode entry = e
  end.
Proof.
  unfold load_active_rate_episode, active_entries.
  destruct (List.filter _ _) as [|x [|y l]]; [by intros [= <-]|intros [= <-]; by exists x|done].
Qed.

Lemma elem_of_active v g l entry :
  entry ∈ active_entries v g l <-> entry ∈ l /\ active_in v g entry = true.
Proof. unfold active_entries. rewrite !list_elem_of_In, List.filter_In. done. Qed.

(** What is left open after an episode is stored. *)
Definition open_episode (e : RateSignalEpisode) : option RateSignalEpisode :=
  if bool_decide (re_state e = Complete) then None else Some e.

Lemma active_timed v g e t :
  re_vault e = v -> re_rate_group e = g ->
  active_entries v g [mkTimedEpisode e t]
    = if bool_decide (re_state e = Complete) then [] else [mkTimedEpisode e t].
Proof.
  intros <- <-. unfold active_entries. cbn. unfold active_in. cbn. rewrite !Z.eqb_refl. cbn.
  by destruct (bool_decide _).
Qed.

Lemma load_active_of s v g e t :
  active_entries v g (js_rate_episodes s)
    = (if bool_decide (re_state e = Complete) then [] else [mkTimedEpisode e t]) ->
  load_active_rate_episode s v g = Ok (open_episode e).
Proof.
  intros H. unfold load_active_rate_episode. fold (active_entries v g (js_rate_episodes s)).
  rewrite H. unfold open_episode. by destruct (bool_decide _).
Qed.

(** Storing an episode of a group whose active episode, if any, has the same
    identity succeeds and leaves it the only active one, unless complete. *)
Lemma persist_episode_accepted s v g o e t :
  NoDup (episode_ids s) -> load_active_rate_episode s v g = Ok o ->
  re_vault e = v -> re_rate_group e = g ->
  (forall d, o = Some d -> re_episode_id d = re_episode_id e) ->
  exists s', persist_episode s e t = Ok s' /\ NoDup (episode_ids s') /\
    load_active_rate_episode s' v g = Ok (open_episode e).
Proof.
  intros Hnd Hl Hv Hg Hid. apply load_active_Ok in Hl.
  assert (forall entry, entry ∈ active_entries v g (js_rate_episodes s) ->
    re_episode_id (te_episode entry) = re_episode_id e) as Hall.
  { destruct o as [d|]; [|by rewrite Hl; intros ? ?%elem_of_nil].
    destruct Hl as (x & -> & <-). intros entry ->%list_elem_of_singleton. by apply Hid. }
  unfold persist_episode.
  assert (existsb (fun entry => (re_vault (te_episode entry) =? re_vault e)
      && (re_rate_group (te_episode entry) =? re_rate_group e)
      && negb (bool_decide (re_state (te_episode entry) = Complete))
      && negb (re_episode_id (te_episode entry) =? re_episode_id e)) (js_rate_episodes s) = false)
    as ->.
  { apply not_true_iff_false. rewrite existsb_exists. intros (x & Hx%list_elem_of_In & Hc).
    bool_spec Hc. destruct Hc as [Hc Hne]. apply Hne, Hall, elem_of_active. split; [done|].
    unfold active_in. rewrite Hv, Hg in Hc. destruct Hc as [[-> ->] Hc].
    by rewrite !Z.eqb_refl, bool_decide_eq_false_2. }
  rewrite andb_false_r. eexists. split; [reflexivity|].
  set (timed := mkTimedEpisode e t). unfold episode_ids. cbn [js_rate_episodes with_episodes with_lanes].
  destruct (existsb (has_episode (re_episode_id e)) (js_rate_episodes s)) eqn:Ex.
  - destruct (find (has_episode (re_episode_id e)) (js_rate_episodes s)) as [x|] eqn:Ef.
    2: { exfalso. apply existsb_exists in Ex as (y & Hy & Hyid).
         by eapply List.find_none in Ef; [|exact Hy]; rewrite Hyid in Ef. }
    apply (update_first_split _ (fun _ => timed)) in Ef as (l1 & l2 & He & -> & _ & Hx).
    unfold has_episode in Hx. apply Z.eqb_eq in Hx.
    unfold episode_ids in Hnd. rewrite He in Hnd, Hall, Hl. split.
    { rewrite fmap_app, fmap_cons in Hnd |- *. cbn beta in Hnd |- *.
      change (te_episode timed) with e. by rewrite Hx in Hnd. }
    apply (load_active_of _ v g e t). cbn [js_rate_episodes with_episodes with_lanes].
    rewrite active_entries_app. change (timed :: l2) with ([timed] ++ l2).
    rewrite active_entries_app. unfold timed. rewrite active_timed by done.
    assert (forall y, y ∈ l1 ++ l2 -> re_episode_id (te_episode y) <> re_episode_id e) as Hne.
    { intros y Hy Hyid. rewrite fmap_app, fmap_cons, NoDup_app, NoDup_cons in Hnd.
      destruct Hnd as (_ & Hdis & Hni & _). rewrite Hx in Hdis, Hni.
      apply elem_of_app in Hy as [Hy|Hy].
      - apply (Hdis (re_episode_id e)); [|by left]. apply list_elem_of_fmap. by exists y.
      - apply Hni. apply list_elem_of_fmap. by exists y. }
    assert (active_entries v g l1 = [] /\ active_entries v g l2 = []) as [-> ->].
    { split; apply elem_of_nil_inv; intros y Hy; pose proof Hy as [Hin _]%elem_of_active;
        apply (Hne y); [set_solver| |set_solver|]; apply Hall;
        rewrite active_entries_app; change (x :: l2) with ([x] ++ l2); rewrite active_entries_app;
        set_solver. }
    by rewrite app_nil_r.
  - assert (forall y, y ∈ js_rate_episodes s -> re_episode_id (te_episode y) <> re_episode_id e) as Hne.
    { intros y Hy Hyid. apply not_true_iff_false in Ex. apply Ex, existsb_exists. exists y.
      split; [by apply list_elem_of_In|]. unfold has_episode. by apply Z.eqb_eq. }
    split.
    { rewrite fmap_app, NoDup_app. split; [done|]. split; [|apply NoDup_singleton].
      intros i (y & -> & Hy)%list_elem_of_fmap Hi%list_elem_of_singleton. by apply (Hne y). }
    apply (load_active_of _ v g e t). cbn [js_rate_episodes with_episodes with_lanes].
    rewrite active_entries_app. unfold timed. rewrite active_timed by done.
    assert (active_entries v g (js_rate_episodes s) = []) as ->; [|done].
    apply elem_of_nil_inv. intros y Hy. pose proof Hy as [Hin _]%elem_of_active.
    by apply (Hne y), Hall.
Qed.

(** The stored entry of an identity. *)
Definition stored_as (s : JsonState) (e : RateSignalEpisode) : Prop :=
  exists entry, find (has_episode (re_episode_id e)) (js_rate_episodes s) = Some entry /\
    te_episode entry = e.

Lemma find_update_first {A} (p : A -> bool) x l :
  existsb p l = true -> p x = true -> find p (update_first p (fun _ => x) l) = Some x.
Proof.
  intros He Hx. induction l as [|y l IH]; [done|]. cbn in *.
  destruct (p y) eqn:E; cbn; [by rewrite Hx|]. rewrite E. by apply IH.
Qed.

Lemma persist_episode_stores s e t s' : persist_episode s e t = Ok s' -> stored_as s' e.
Proof.
  unfold persist_episode, stored_as. destruct (_ && _); [done|]. cbv zeta. intros [= <-]. cbn.
  assert (has_episode (re_episode_id e) (mkTimedEpisode e t) = true) as Ht by apply Z.eqb_refl.
  exists (mkTimedEpisode e t). split; [|done]. destruct (existsb _ _) eqn:Ex.
  - by apply find_update_first.
  - induction (js_rate_episodes s) as [|y l IH]; cbn in *; [by rewrite Ht|].
    apply orb_false_iff in Ex as [-> Ex]. auto.
Qed.

Lemma load_active_stored s v g e :
  NoDup (episode_ids s) -> load_active_rate_episode s v g = Ok (Some e) -> stored_as s e.
Proof.
  unfold load_active_rate_episode, stored_as, episode_ids. intros Hnd H.
  destruct (List.filter (active_in v g) (js_rate_episodes s)) as [|x [|y l]] eqn:E; try done.
  injection H as <-. assert (x ∈ js_rate_episodes s) as Hin.
  { assert (In x [x]) as Hx by (by left). rewrite <-E in Hx. apply List.filter_In in Hx as [Hx _].
    by apply list_elem_of_In. }
  exists x. split; [|done]. clear E. induction (js_rate_episodes s) as [|z l IH]; [set_solver|].
  cbn in Hnd |- *. apply NoDup_cons in Hnd as [Hz Hnd]. unfold has_episode at 1.
  destruct (Z.eqb_spec (re_episode_id (te_episode z)) (re_episode_id (te_episode x))) as [Ez|Ez].
  - apply elem_of_cons in Hin as [->|Hin]; [done|]. exfalso. apply Hz. rewrite Ez.
    apply list_elem_of_fmap. by exists x.
  - apply elem_of_cons in Hin as [->|Hin]; [done|]. by apply IH.
Qed.

(** ** What the steps of an episode keep *)

Definition episode_identity (e : RateSignalEpisode) : EpisodeId * VaultAddress * RateGroupId :=
  (re_episode_id e, re_vault e, re_rate_group e).

Lemma confirm_short_identity e block baseline :
  episode_identity (fst (confirm_short e block baseline)) = episode_identity e.
Proof. unfold confirm_short. by repeat case_match. Qed.

Lemma confirm_true_fst run : fst (confirm_true run) = fst run.
Proof. by destruct run as [e []]. Qed.

Lemma step_identity e e' : episode_step e e' -> episode_identity e' = episode_identity e.
Proof.
  destruct 1.
  - apply confirm_short_identity.
  - unfold observe_short_confirmation.
    repeat (case_match; try done); rewrite ?confirm_true_fst, ?confirm_short_identity; done.
  - unfold reserve_pending. by repeat case_match.
  - unfold release_pending. by repeat case_match.
  - unfold confirm_pending. by repeat case_match.
  - unfold reopen_confirmed. by repeat case_match.
  - unfold unlock_persistent. by case_match.
  - unfold record_independent_event. by repeat case_match.
  - done.
  - done.
Qed.

Lemma steps_identity e e' : rtc signal_step e e' -> episode_identity e' = episode_identity e.
Proof.
  induction 1 as [|x y z Hs _ IH]; [done|]. rewrite IH. by apply step_identity, signal_step_step.
Qed.

Lemma start_identity `{Keccak} vault group branch block config topology eval control src dst t0 t1 e :
  start vault group branch block config topology eval control src dst t0 t1 = Ok e ->
  re_vault e = vault /\ re_rate_group e = group.
Proof. unfold start. destruct (_ || _); [done|]. by intros [= <-]. Qed.

(** ** The refresh *)

Definition replay (s : JsonState) (calls : list ServiceCall) : result StorageError JsonState :=
  try_fold (fun s c =>
    match c with PersistRateEpisode e t => persist_episode s e t | _ => Ok s end) s calls.

Lemma replay_snoc s calls c :
  replay s (calls ++ [c]) =
  (s' ← replay s calls;
   match c with PersistRateEpisode e t => persist_episode s' e t | _ => Ok s' end).
Proof.
  unfold replay. revert s. induction calls as [|d l IH]; intros s; cbn.
  - by destruct (match c with PersistRateEpisode _ _ => _ | _ => _ end).
  - by destruct (match d with PersistRateEpisode _ _ => _ | _ => _ end); cbn; [apply IH|].
Qed.

Section Refresh.
Context `{HK : Keccak} `{HA : AbiParams} `{HV : VaultAbi} `{HJ : PlanJson} `{HS : PlanServices}.
Context (config : ValidatedConfig) (vault : ValidatedVaultConfig).
Context (snapshot : ExactVaultSnapshot) (projection : ProjectedVaultView).
Context (revision : option PlanningRevision).

Let group := rg_id (vv_rate_group vault).
Let trace := fst (refresh_rate_plan config vault snapshot projection revision []).

Lemma trace_replays loaded calls :
  NoDup (episode_ids stored) ->
  load_active_rate_episode stored (vv_address vault) group = Ok loaded ->
  trace_ok config vault snapshot projection revision calls ->
  exists s, replay stored calls = Ok s /\ NoDup (episode_ids s) /\
    load_active_rate_episode s (vv_address vault) group
      = Ok (durable vault calls ≫= open_episode) /\
    forall d, durable vault calls = Some d ->
      re_vault d = vv_address vault /\ re_rate_group d = group /\ stored_as s d.
Proof.
  intros Hnd Hl. induction calls as [|c calls IH] using rev_ind; intros Ht.
  - exists stored. unfold durable. cbn. fold group. rewrite Hl. split_and!; [done|done| |].
    + cbn. destruct loaded as [e|]; [|done]. apply load_active_Some in Hl as [Hs _].
      cbn. unfold open_episode. by rewrite bool_decide_eq_false_2.
    + cbn. intros d ->. pose proof (load_active_stored _ _ _ _ Hnd Hl).
      by apply load_active_Some in Hl as (_ & ? & ?).
  - destruct IH as (s & Hs & Hids & Hload & Hown).
    { intros before x after ->. apply (Ht before x (after ++ [c])). by rewrite <-app_assoc. }
    pose proof (Ht calls c [] eq_refl) as Hc.
    rewrite replay_snoc, Hs. cbn [mbind result_bind]. rewrite durable_snoc.
    destruct c as [e t| | | | | |]; try (by exists s).
    destruct Hc as [Hc _].
    assert (re_vault e = vv_address vault /\ re_rate_group e = group /\
      (forall d, durable vault calls ≫= open_episode = Some d -> re_episode_id d = re_episode_id e))
      as (Hv & Hg & Hid).
    { destruct Hc as [[Hcl (_ & _ & sg & x & _ & _ & Hst)]|(d & Hd & Hstep)].
      - apply start_identity in Hst as [? ?]. split_and!; [done..|]. intros d Hd.
        apply bind_Some in Hd as (d' & Hd' & Hd). unfold open_episode in Hd.
        by rewrite bool_decide_eq_true_2 in Hd by (by apply Hcl).
      - destruct (Hown d Hd) as (? & ? & _). apply steps_identity in Hstep. injection Hstep as H1 H2 H3.
        rewrite Hd. cbn. unfold open_episode. split_and!; [congruence..|].
        intros d'. destruct (bool_decide _); [done|]. intros [= <-]. done. }
    destruct (persist_episode_accepted s _ _ _ e t Hids Hload Hv Hg Hid) as (s' & Hp & Hn & Hl').
    exists s'. split; [done|]. split; [done|]. split; [exact Hl'|]. intros d [= <-].
    split_and!; [done..|]. by eapply persist_episode_stores.
Qed.

(** A refresh sends the actor what [movement_ledger_conserved] takes for
    granted: every episode it persists is a signal update of the state it is
    applied to, unless it starts a new one, whose identity the hash makes. *)
Lemma refresh_respects_ledger loaded before e t after :
  NoDup (episode_ids stored) ->
  load_active_rate_episode stored (vv_address vault) group = Ok loaded ->
  trace = before ++ PersistRateEpisode e t :: after ->
  exists s, replay stored before = Ok s /\
    (signal_update s e \/ just_started e /\ closed (durable vault before)).
Proof.
  intros Hnd Hl Ht. pose proof (refresh_trace_ok config vault snapshot projection revision) as Hok.
  fold trace in Hok.
  destruct (trace_replays loaded before Hnd Hl) as (s & Hs & _ & _ & Hown).
  { intros b c a E. apply (Hok b c (a ++ PersistRateEpisode e t :: after)). rewrite Ht, E.
    by rewrite <-app_assoc. }
  exists s. split; [done|]. destruct (Hok _ _ _ Ht) as [[[Hc Hst]|(d & Hd & Hstep)] _].
  - right. split; [|done]. destruct Hst as (_ & _ & sg & x & _ & _ & Hst). by repeat eexists.
  - left. destruct (Hown d Hd) as (_ & _ & entry & Hf & He). unfold signal_update.
    rewrite (proj1 (signal_steps_movement _ _ Hstep)), Hf. by rewrite He.
Qed.

(** The store accepts every episode a refresh persists. Starting from a
    state whose episodes have distinct identities and whose active episode the
    refresh loaded, replaying the refresh's persisted episodes never meets the
    one-active-episode rule, and afterwards loading the rate group returns the
    last episode persisted, or none when that one is complete. *)
Theorem refresh_keeps_one_episode loaded :
  NoDup (episode_ids stored) ->
  load_active_rate_episode stored (vv_address vault) group = Ok loaded ->
  exists s, replay stored trace = Ok s /\ NoDup (episode_ids s) /\
    load_active_rate_episode s (vv_address vault) group
      = Ok (durable vault trace ≫= open_episode).
Proof.
  intros Hnd Hl. destruct (trace_replays loaded trace Hnd Hl) as (s & H1 & H2 & H3 & _).
  - apply refresh_trace_ok.
  - by exists s.
Qed.

End Refresh.
