(* ===== verification/PlanningExample.v ===== *)
(** * Plans of the example vaults

    A top-K vault and a spread vault, and the plans built from them: the
    applications of the theorems of the planners. *)
From Stdlib Require Import ZArith Lia List Bool String.
From stdpp Require Import base list gmap sets.
From S2P Require Import Prelude.
From S2P Require Import BlueMath.
From S2P Require Import Domain.
From S2P Require Import Episodes.
From S2P Require Import Models.
From S2P Require Import Storage.
From S2P Require Import Config.
From S2P Require Import Projection.
From S2P Require Import Simulator.
From S2P Require Import SimulatorProofs.
From S2P Require Import Candidates.
From S2P Require Import Objective.
From S2P Require Import Calldata.
From S2P Require Import Firewall.
From S2P Require Import FirewallExample.
From S2P Require Import Capital.
From S2P Require Import Maintenance.
From S2P Require Import Rate.
From S2P Require Import TopK.
From S2P Require Import TopKProofs.
From S2P Require Import TopKSolve.
From S2P Require Import TopKSolveProofs.
From S2P Require Import Planning.
From S2P Require Import PlanTopK.
From S2P Require Import PlanService.
From S2P Require Import PlanPriority.
Open Scope Z_scope.

(** ** A top-K vault

    A vault over three markets used at different levels: two observations an
    hour apart put their ranking in force, and the solvers of [TopKSolve]
    deploy idle assets and move assets toward its target: the witnesses of the
    theorems about them. *)

Module TopKExample.
Import SimulatorProofs.Example.

(** A market with [borrowed] of its thousand million lent out. *)
Definition market (id collateral borrowed : Z) : StoredMarketState :=
  mkStoredMarketState id (params collateral) 1000000000 1000000000000000 borrowed
    (borrowed * 1000000) 100 0 4 1268391679 1000000000.
Definition parent : ParentVaultState :=
  mkParentVaultState 1 1 500 300000500 100 1000000000 300000500 1 0 0 false 0 0 false
    0 0 0 0 0 0 [] ∅ ∅ ∅ 0 0 0.
Definition snapshot : ExactVaultSnapshot :=
  mkExactVaultSnapshot (mkStateContext 1 block 100 Proven 0 0) parent
    {[ 31 := mkDirectAdapterState 31 1 1 0 4 41 [11; 12; 13] ∅ 0 300000000 0 [] ]} {[ 31 ]} None
    (list_to_map [(21, position 21 11 2); (22, position 22 12 9); (23, position 23 13 8)])
    (list_to_map [(11, market 11 2 800000000); (12, market 12 9 700000000);
                  (13, market 13 8 600000000)])
    (list_to_map [cap 41; cap 61; cap 62; cap 63; cap 71; cap 72; cap 73]) []
    (mkVaultCapabilities true true true true true true true true true true)
    (mkIdleLockLedgerSnapshot [mkIdleLockSnapshot 1 200 5 None] 0 true) 99.
Definition config : ValidatedVaultConfig :=
  mkValidatedVaultConfig "example"%string 1 1 6 0 0 0 TopKApyDiversified false 100 0 10 0 0 0 0 0 0
    0 0 1000 0 false false false false 0 0 [] []
    (mkValidatedRateGroupConfig "group"%string 0 0 0 1000000000000 false) [] None
    [configured 21 11 2; configured 22 12 9; configured 23 13 8].
Definition later : BlockRef := mkBlockRef 20 8 10 3700 0.
Definition view_at (head : BlockRef) : ProjectedVaultView :=
  match @project_snapshot_to_head word_abi snapshot head config with
  | Ok v => v
  | Err _ => SimulatorProofs.Example.view
  end.
Definition settings : ValidatedTopKApyConfig :=
  mkValidatedTopKApyConfig 0 0 0 1000000000000000000 1000000000000000000 7000 2000 500 3600 10
    [5000; 3000; 2000] [4000; 3000; 2000; 1000] 50000000000000000 10000000000000000
    1000000000000000 false 0 0 0 2500000000000000.
Definition limits : TopKSolveLimits := mkTopKSolveLimits 5000 8 200.

Definition funding : TopKDeployableCapital :=
  match verified_deployable_capital snapshot config with
  | Ok f => f
  | Err _ => mkTopKDeployableCapital 0 0 0
  end.
Definition first : result TopKApyError TopKApyObservation :=
  observe_top_k_target snapshot (view_at block) config settings None 300.
Definition memory_after_first : TopKApyMemory :=
  match first with Ok obs => ob_next_memory obs | Err _ => memory_default end.
Definition second : result TopKApyError TopKApyObservation :=
  observe_top_k_target snapshot (view_at later) config settings (Some memory_after_first) 300.
Definition target : TopKApyTarget :=
  match second with
  | Ok obs => default (mkTopKApyTarget [] ∅ ∅ ∅ 0 0) (ob_target obs)
  | Err _ => mkTopKApyTarget [] ∅ ∅ ∅ 0 0
  end.
Definition deployment : result TopKApyError CapitalSolveResult :=
  @solve_top_k_capital_deployment sum_keccak word_abi snapshot (view_at later) config target funding
    limits.
Definition topk_rebalance : result TopKApyError TopKApySolveResult :=
  @solve_top_k_rebalance sum_keccak word_abi snapshot (view_at later) config settings target limits.

Lemma second_target : exists obs, second = Ok obs /\ ob_target obs = Some target.
Proof. vm_compute. eexists. by split. Qed.

(** The hour between the observations confirms the ranking; 150 of every 300
    assets go to the best market. *)
Example target_selected :
  tt_selected_markets target = [11; 12; 13] /\
  tt_target_assets_by_market target !! 11 = Some 150000552 /\
  ob_no_action_reason <$> to_option first = Some (Some TopSetUnconfirmed).
Proof. vm_compute. done. Qed.

Lemma settings_ok : settings_wf settings.
Proof. split; [split| |split| |]; cbn; repeat constructor; lia. Qed.

Lemma markets_distinct : NoDup (pc_market_id <$> vv_positions config).
Proof. apply (bool_decide_unpack _). vm_compute. done. Qed.

Lemma top_k_target_sound_witness :
  exists obs, second = Ok obs /\
    map_sum_by id (tt_target_assets_by_market target) = tt_target_direct_assets target /\
    0 <= tt_current_score_wad target <= WAD.
Proof.
  destruct second_target as (obs & Ho & Ht). exists obs. split; [exact Ho|].
  destruct (top_k_target_sound snapshot (view_at later) config settings memory_after_first 300 obs
              target settings_ok markets_distinct) as [_ _ _ _ _ He _ Hs _ _];
    [apply (bool_decide_unpack _); vm_compute; done|lia
    |apply (bool_decide_unpack _); vm_compute; done|exact Ho|exact Ht|].
  split; [exact He|exact Hs].
Defined.

(** ** The two observations *)

Definition reading (head : BlockRef) (memory : TopKApyMemory) : TopKReading :=
  match read_top_k snapshot (view_at head) config settings memory 300 with
  | Ok r => r
  | Err _ => mkTopKReading ∅ 0 [] memory []
  end.
Definition event (head : BlockRef) (memory : TopKApyMemory) : TopKEvent :=
  let r := reading head memory in
  mkTopKEvent (blk_timestamp (pw_head (view_at head))) (to_proposed r)
    (tm_market <$> to_evidence r).
Definition memory_after_second : TopKApyMemory :=
  match second with Ok obs => ob_next_memory obs | Err _ => memory_default end.
Definition history : list TopKEvent := [event later memory_after_first; event block memory_default].

Lemma observed_twice : observed config settings history (Some memory_after_second).
Proof.
  assert (exists o, first = Ok o) as [o1 H1] by (vm_compute; eauto).
  assert (exists o, second = Ok o) as [o2 H2] by (vm_compute; eauto).
  unfold memory_after_second. rewrite H2.
  apply (observed_next config settings [event block memory_default] (Some memory_after_first) snapshot
    (view_at later) 300 (reading later memory_after_first) o2);
    [|vm_compute; reflexivity|exact H2].
  unfold memory_after_first. rewrite H1.
  apply (observed_next config settings [] None snapshot (view_at block) 300
    (reading block memory_default) o1); [constructor|vm_compute; reflexivity|exact H1].
Qed.

Lemma selection_changes_confirmed_witness :
  selected_after 3600 history (tk_selected_markets memory_after_second)
    (tk_generation memory_after_second) /\ tk_generation memory_after_second = 1.
Proof.
  split; [|vm_compute; reflexivity].
  apply (selection_changes_confirmed config settings history memory_after_second markets_distinct
    observed_twice).
Defined.

(** ** The solvers *)

Lemma topk_ok : topk_wf config target.
Proof.
  split; [cbn; lia|repeat constructor; cbn; lia|].
  apply (bool_decide_unpack _). vm_compute. done.
Qed.

Lemma rebalance_found :
  exists r, topk_rebalance = Ok r /\ se_search_complete (tr_certificate r) = true /\ is_Some (tr_best r).
Proof.
  assert (match topk_rebalance with
          | Ok r => se_search_complete (tr_certificate r) && bool_decide (is_Some (tr_best r))
          | Err _ => false
          end = true) as H by (vm_compute; reflexivity).
  destruct topk_rebalance as [r|e]; [|discriminate H]. exists r.
  apply andb_true_iff in H as [Hc Hb]. split; [reflexivity|]. split; [exact Hc|].
  by apply bool_decide_eq_true in Hb.
Qed.

(** Half the excess leaves the worst market for the best. *)
Example rebalance_actions :
  (tc_actions <$> (r ← to_option topk_rebalance; tr_best r))
    = Some [Deallocate 23 31 [1; 8; 3; 4; 5] 24999959; Allocate 21 31 [1; 2; 3; 4; 5] 24999959].
Proof. vm_compute. reflexivity. Qed.

Lemma topk_search_optimal_witness :
  exists r, topk_rebalance = Ok r /\ tr_no_action_reason r = None.
Proof.
  destruct rebalance_found as (r & Hr & Hc & Hb). exists r. split; [exact Hr|].
  destruct (@topk_search_optimal sum_keccak word_abi snapshot (view_at later) config settings target
              limits r topk_ok) as (_ & _ & _ & _ & _ & Hreason & _);
    [cbn; lia|cbn; lia|vm_compute; reflexivity|vm_compute; discriminate|exact Hr|].
  apply Hreason. split; [exact Hc|exact Hb].
Defined.

Lemma topk_rebalance_sound_witness :
  exists r c, topk_rebalance = Ok r /\ tr_best r = Some c /\
    @simulate_actions word_abi snapshot (view_at later) config (tc_actions c) = Ok (tc_state c).
Proof.
  destruct rebalance_found as (r & Hr & _ & c & Hc). exists r, c. split; [exact Hr|].
  split; [exact Hc|].
  destruct (@topk_rebalance_sound sum_keccak word_abi snapshot (view_at later) config settings target
              limits r c topk_ok) as (_ & _ & _ & _ & [H _ _ _ _ _ _ _ _ _]);
    [cbn; lia|cbn; lia|exact Hr|exact Hc|exact H].
Defined.

Lemma funding_ok : deploy_wf config target funding limits.
Proof.
  split; [cbn; lia|cbn; lia|vm_compute; discriminate|vm_compute; discriminate|vm_compute; reflexivity|].
  apply (bool_decide_unpack _). vm_compute. done.
Qed.

Lemma deployment_found : exists r state, deployment = Ok r /\ cr_state r = Some state.
Proof. vm_compute. eexists _, _. split; reflexivity. Qed.

(** Half of the 300 unlocked idle assets goes to the largest deficit first. *)
Example deployment_actions_found :
  (cr_actions <$> to_option deployment) = Some [Allocate 21 31 [1; 2; 3; 4; 5] 150].
Proof. vm_compute. reflexivity. Qed.

Lemma topk_deployment_sound_witness :
  exists r state, deployment = Ok r /\ cr_state r = Some state /\
    @simulate_actions word_abi snapshot (view_at later) config (cr_actions r) = Ok state.
Proof.
  destruct deployment_found as (r & state & Hr & Hs). exists r, state. split; [exact Hr|].
  split; [exact Hs|].
  destruct (@topk_deployment_sound sum_keccak word_abi snapshot (view_at later) config target funding
              limits r state funding_ok Hr Hs) as [H _ _ _ _]. exact H.
Defined.

End TopKExample.

(** ** Plans of the example vaults

    A spread rebalance, the plans built from it and from the other example
    vaults, one refresh of the planning service, and the plans of the top-K
    vault, with the applications of the theorems about them. *)

(** ** A spread rebalance

    A vault whose second market is used more than its first, the episode armed
    for it, and the movement the solver of [Rate] finds: the witnesses of the
    theorems of [Rate]. *)

Module RebalanceExample.
Import SimulatorProofs.Example.

(** Ninety per cent of the second market is lent out, against eighty. *)
Definition used_market : StoredMarketState :=
  mkStoredMarketState 12 (params 9) 1000000000 1000000000000000 900000000
    900000000000000 100 0 4 1268391679 1000000000.
Definition snapshot : ExactVaultSnapshot :=
  mkExactVaultSnapshot (mkStateContext 1 block 100 Proven 0 0) parent
    {[ 31 := mkDirectAdapterState 31 1 1 0 4 41 [11; 12] ∅ 0 200000000 0 [] ]} {[ 31 ]} None
    (list_to_map [(21, position 21 11 2); (22, position 22 12 9)])
    (list_to_map [(11, stored 11 2); (12, used_market)])
    (list_to_map [cap 41; cap 61; cap 62; cap 71; cap 72]) []
    (mkVaultCapabilities true true true true true true true true true true)
    (mkIdleLockLedgerSnapshot [mkIdleLockSnapshot 1 500 5 None] 0 true) 99.
Definition config : ValidatedVaultConfig := SimulatorProofs.Example.config.
Definition view : ProjectedVaultView :=
  match @project_snapshot_to_head word_abi snapshot block config with
  | Ok v => v
  | Err _ => SimulatorProofs.Example.view
  end.
Definition strategy : ValidatedStrategyConfig :=
  mkValidatedStrategyConfig UtilizationSpread 0 0 0 1000 1000 0 1 0 0 0 0 3 5000 0 0 0 0 0 0 false
    3600 10 (mkValidatedTopKApyConfig 0 0 0 0 0 0 0 0 0 0 [] [] 0 0 0 false 0 0 0 0).
Definition solver : SolverConfigCanonical := mkSolverConfigCanonical 200 6 10 10 false.
Definition at_block (number : Z) : BlockRef :=
  mkBlockRef number number (number - 1) (12 * number) 0.
Definition observed : RateSignalEpisode :=
  match @start sum_keccak 1 0 Portfolio (at_block 10) 0 0 {[ 11; 12 ]} {[ 11; 12 ]} {[ 11 ]}
          {[ 12 ]} 100 200 with
  | Ok e => e
  | Err _ => EpisodeExample.initial
  end.
Definition episode : RateSignalEpisode :=
  fst (observe_short_confirmation observed (at_block 12) 3 8000).
Definition solved : RateSolveResult :=
  @solve_rate_rebalance sum_keccak word_abi snapshot view config strategy solver episode.

(** Half of the optimal movement of 8000: the immediate tranche. *)
Example solved_movement :
  (src_actions <$> rr_best solved)
    = Some [Deallocate 21 31 [1; 2; 3; 4; 5] 4000; Allocate 22 31 [1; 9; 3; 4; 5] 4000] /\
  executable_rate_search (rr_certificate solved) = true.
Proof. vm_compute. by split. Qed.

Lemma solved_best : is_Some (rr_best solved).
Proof. vm_compute. by eexists. Qed.

Lemma movement_solved_wf : rate_wf config solver.
Proof. split; cbn; [lia|repeat constructor; cbn; lia|vm_compute; discriminate]. Qed.

Lemma rate_search_optimal_witness :
  exists inputs, @rate_inputs word_abi snapshot view config strategy episode 8000
    = Some inputs.
Proof.
  destruct (@rate_search_optimal sum_keccak word_abi snapshot view config strategy solver
              episode 8000 movement_solved_wf) as [_ H]; [lia|cbn; lia|].
  destruct H as (inputs & Hi & _); [vm_compute; reflexivity|by exists inputs].
Defined.

Lemma rate_plan_sound_witness :
  exists best, rr_best solved = Some best /\
    @simulate_actions word_abi snapshot view config (src_actions best) = Ok (src_state best).
Proof.
  destruct (rr_best solved) as [best|] eqn:Hs;
    [|by destruct solved_best as [? H]; rewrite Hs in H].
  exists best. split; [reflexivity|].
  destruct (@rate_plan_sound sum_keccak word_abi snapshot view config strategy solver episode best
              movement_solved_wf) as [[H _ _ _ _ _ _ _] _];
    [cbn; lia|exact Hs|vm_compute; reflexivity|exact H].
Defined.

End RebalanceExample.

(** ** Plans of the example vaults

    The builders of [Planning] on the vaults of [Capital], [Maintenance] and
    [RebalanceExample]: a deployment and a spread movement the firewall admits, and
    a restoration it refuses. *)

#[local] Existing Instance sum_keccak.
#[local] Existing Instance word_abi.
#[local] Existing Instance example_json.

Definition planning_config (solver : SolverConfigCanonical) (strategy : ValidatedStrategyConfig)
    (vault : ValidatedVaultConfig) : ValidatedConfig :=
  let app := vg_app FirewallExample.config in
  mkValidatedConfig
    (mkValidatedAppConfig (ac_schema_version app) (ac_node app) (ac_chain app) (ac_snapshot app)
       (ac_execution app) solver strategy (ac_signing app) (ac_alerts app) [vault]) 0.

Lemma planning_ready snapshot solver strategy vault :
  vv_address vault = 1 -> ev_context snapshot = mkStateContext 1 Example.block 100 Proven 0 0 ->
  forallb (fun c => match ev_positions snapshot !! pc_position_key c with
                    | Some p => bool_decide (dp_mode p = pc_mode c)
                    | None => true
                    end) (vv_positions vault) = true ->
  NoDup (pc_position_key <$> vv_positions vault) -> 0 <= so_maximum_nodes solver ->
  plan_ready (planning_config solver strategy vault) vault snapshot.
Proof.
  intros Ha Hc Hm Hk Hn. split; try done.
  - unfold find_vault. cbn. rewrite Z.eqb_refl. done.
  - by rewrite Hc.
  - by rewrite Hc.
  - intros c p Hin Hp. rewrite forallb_forall in Hm. specialize (Hm c).
    rewrite Hp in Hm. eapply bool_decide_eq_true. apply Hm. by apply list_elem_of_In.
Qed.

(** ** Deployment *)

Definition capital_config : ValidatedConfig :=
  planning_config DeploymentExample.solver FirewallExample.strategy Example.config.
Definition capital_plan :=
  build_validated_capital_plan capital_config Example.config Example.snapshot Example.view None.

Lemma capital_ready : plan_ready capital_config Example.config Example.snapshot.
Proof.
  apply planning_ready; [done|done|vm_compute; done| |vm_compute; done].
  apply (bool_decide_unpack _). vm_compute. done.
Qed.

Lemma capital_plan_built : exists p, capital_plan = Ok (Some p).
Proof. vm_compute. by eexists. Qed.

Lemma capital_plan_admitted_witness :
  exists p, capital_plan = Ok (Some p) /\
    validate_plan (vp_plan (prp_plan p)) capital_config = Ok (prp_plan p).
Proof.
  pose proof (capital_plan_admitted capital_config Example.config Example.snapshot Example.view None
    capital_ready ltac:(cbn; lia)) as H. fold capital_plan in H.
  destruct capital_plan_built as [p Hp]. rewrite Hp in H.
  exists p. split; [exact Hp|exact (pa_validated _ _ _ _ _ _ _ H)].
Defined.

(** ** Restoration *)

Definition maintenance_config : ValidatedConfig :=
  planning_config MaintenanceExample.solver FirewallExample.strategy MaintenanceExample.config.
Definition maintenance_plan :=
  build_validated_liquidity_plan maintenance_config MaintenanceExample.config
    MaintenanceExample.snapshot MaintenanceExample.view None.

Lemma maintenance_ready :
  plan_ready maintenance_config MaintenanceExample.config MaintenanceExample.snapshot.
Proof.
  apply planning_ready; [done|done|vm_compute; done| |vm_compute; done].
  apply (bool_decide_unpack _). vm_compute. done.
Qed.

(** The only restoration of the example takes 210 idle assets and withdraws
    100: no plan can be published. *)
Example maintenance_plan_refused : maintenance_plan = Err (PsFirewall FwAction).
Proof. vm_compute. reflexivity. Qed.

Lemma maintenance_plan_admitted_witness :
  0 < moved false (lr_actions MaintenanceExample.solved)
    < moved true (lr_actions MaintenanceExample.solved).
Proof.
  pose proof (maintenance_plan_admitted maintenance_config MaintenanceExample.config
    MaintenanceExample.snapshot MaintenanceExample.view None maintenance_ready
    MaintenanceExample.restoration_solved_wf) as H.
  cbv zeta in H. fold maintenance_plan in H. rewrite maintenance_plan_refused in H.
  destruct H as [H|[_ H]]; [discriminate H|exact H].
Defined.

(** ** Spread movement *)

Definition rate_config : ValidatedConfig :=
  planning_config RebalanceExample.solver RebalanceExample.strategy RebalanceExample.config.
Definition rate_plan :=
  build_validated_rate_plan rate_config RebalanceExample.config RebalanceExample.snapshot
    RebalanceExample.view None RebalanceExample.episode.

Lemma rate_ready : plan_ready rate_config RebalanceExample.config RebalanceExample.snapshot.
Proof.
  apply planning_ready; [done|done|vm_compute; done| |vm_compute; done].
  apply (bool_decide_unpack _). vm_compute. done.
Qed.

Lemma rate_episode_wf : episode_wf RebalanceExample.episode.
Proof.
  apply (episode_step_wf RebalanceExample.observed);
    [|apply step_observe; split; vm_compute; congruence].
  apply (@start_wf sum_keccak 1 0 Portfolio (RebalanceExample.at_block 10) 0 0 {[ 11; 12 ]}
           {[ 11; 12 ]} {[ 11 ]} {[ 12 ]} 100 200). vm_compute. reflexivity.
Qed.

Lemma rate_plan_built : exists p, rate_plan = Ok (Some p).
Proof. vm_compute. by eexists. Qed.

Lemma rate_plan_admitted_witness :
  exists p, rate_plan = Ok (Some p) /\
    pl_episode_id (vp_plan (prp_plan p)) = Some (re_episode_id RebalanceExample.episode).
Proof.
  pose proof (rate_plan_admitted rate_config RebalanceExample.config RebalanceExample.snapshot
    RebalanceExample.view None RebalanceExample.episode rate_ready RebalanceExample.movement_solved_wf
    ltac:(cbn; lia) ltac:(vm_compute; reflexivity) rate_episode_wf) as H.
  cbv zeta in H. fold rate_plan in H.
  destruct rate_plan_built as [p Hp]. rewrite Hp in H.
  exists p. split; [exact Hp|]. destruct H as (b & u & _ & _ & H & _). exact H.
Defined.

(** ** A refresh of the example vault

    The durable store holds the armed episode of [RebalanceExample]; one refresh
    finds its spread movement, persists the plan and publishes it. *)

#[local] Existing Instance sum_keccak.
#[local] Existing Instance word_abi.
#[local] Existing Instance example_json.

Definition armed_state : JsonState :=
  with_episodes JsonState_default [mkTimedEpisode RebalanceExample.episode 100].

#[local] Instance working_services : PlanServices :=
  {| stored := armed_state; storage_loads := true; storage_persists := fun _ _ => true;
     api_accepts := fun _ _ => true; runtime_updates := fun _ _ => true |}.

Definition refreshed : list ServiceCall * result PlanningServiceError (option V2Plan) :=
  refresh_rate_plan rate_config RebalanceExample.config RebalanceExample.snapshot
    RebalanceExample.view None [].

(** The episode is shown, the plan persisted, shown and registered. *)
Example refreshed_calls :
  (match refreshed with
   | ([RecordEpisode e; PersistPlan p t; RecordPlan q; RecordPlanning (Some i) (Some j)],
      Ok (Some r)) =>
       bool_decide (e = RebalanceExample.episode) && bool_decide (p = q) && bool_decide (q = r)
       && (t =? 100) && (i =? pl_plan_id p) && (j =? re_episode_id e)
   | _ => false
   end) = true.
Proof. vm_compute. reflexivity. Qed.

Lemma refreshed_plan : exists p, snd refreshed = Ok (Some p).
Proof. vm_compute. by eexists. Qed.

Lemma refresh_rate_plan_sound_witness :
  exists p before e, snd refreshed = Ok (Some p) /\
    fst refreshed = before ++ [PersistPlan p 100; RecordPlan p;
      RecordPlanning (Some (pl_plan_id p)) (Some (re_episode_id e))].
Proof.
  destruct refreshed_plan as [p Hp].
  pose proof (refresh_rate_plan_sound rate_config RebalanceExample.config RebalanceExample.snapshot
    RebalanceExample.view None) as [_ H].
  destruct (H p Hp) as (before & e & prepared & Hf & _). exists p, before, e.
  split; [exact Hp|exact Hf].
Defined.

Lemma armed_ids : NoDup (episode_ids armed_state).
Proof. apply (bool_decide_unpack _). vm_compute. done. Qed.

Lemma armed_loads : load_active_rate_episode armed_state 1 0 = Ok (Some RebalanceExample.episode).
Proof. vm_compute. reflexivity. Qed.

Lemma refresh_keeps_one_episode_witness :
  exists s, replay armed_state (fst refreshed) = Ok s /\ NoDup (episode_ids s).
Proof.
  destruct (refresh_keeps_one_episode rate_config RebalanceExample.config RebalanceExample.snapshot
    RebalanceExample.view None (Some RebalanceExample.episode)) as (s & H1 & H2 & _);
    [exact armed_ids|exact armed_loads|exists s; split; [exact H1|exact H2]].
Defined.

(** ** Plans of the top-K vault

    The builder of [PlanTopK] on the vault of [TopKExample].  With a tolerance
    for the dilution of a deployment, the idle assets are deployed first;
    without it the deployment loses one unit at the horizon, its figures are
    refused, and the movement toward the target, which could be planned, is not
    reached. *)

#[local] Existing Instance sum_keccak.
#[local] Existing Instance word_abi.
#[local] Existing Instance example_json.

Definition top_k_strategy : ValidatedStrategyConfig :=
  mkValidatedStrategyConfig UtilizationSpread 0 0 0 1000 1000 0 1 0 0 0 0 3 5000 0 0 0 0 0 0 false
    3600 10 TopKExample.settings.
(** The vault of the example, with a tolerated sacrifice of terminal value. *)
Definition tolerant (sacrifice : Z) : ValidatedVaultConfig :=
  mkValidatedVaultConfig "example"%string 1 1 6 0 0 0 TopKApyDiversified false 100 0 10 sacrifice 0 0
    0 0 0 0 0 1000 0 false false false false 0 0 [] []
    (mkValidatedRateGroupConfig "group"%string 0 0 0 1000000000000 false) [] None
    (vv_positions TopKExample.config).
Definition top_k_config (sacrifice : Z) : ValidatedConfig :=
  planning_config (mkSolverConfigCanonical 200 6 10 10 false) top_k_strategy (tolerant sacrifice).
Definition later_view := TopKExample.view_at TopKExample.later.
Definition top_k_plan (sacrifice : Z) :=
  build_validated_top_k_plan (top_k_config sacrifice) (tolerant sacrifice) TopKExample.snapshot
    later_view None TopKExample.target TopKExample.funding.
Definition top_k_movement (sacrifice : Z) :=
  build_validated_top_k_rebalance_plan (top_k_config sacrifice) (tolerant sacrifice)
    TopKExample.snapshot later_view None TopKExample.target.

(** The deployment that is refused suppresses the movement. *)
Example deployment_suppresses_movement :
  top_k_plan 0 = Err PsPlanConstruction /\
  match top_k_movement 0 with
  | Ok (Some p) => pl_reason (vp_plan (prp_plan p)) = TopKApyRebalance
  | _ => False
  end.
Proof. vm_compute. by split. Qed.

Lemma top_k_ready : plan_ready (top_k_config 10) (tolerant 10) TopKExample.snapshot.
Proof.
  apply planning_ready; [done|done|vm_compute; done| |vm_compute; done].
  apply (bool_decide_unpack _). vm_compute. done.
Qed.

Lemma top_k_endpoints : topk_wf (tolerant 10) TopKExample.target.
Proof.
  split; [cbn; lia|repeat constructor; cbn; lia|].
  apply (bool_decide_unpack _). vm_compute. done.
Qed.

Lemma top_k_funded :
  deploy_wf (tolerant 10) TopKExample.target TopKExample.funding (top_k_limits (top_k_config 10)).
Proof.
  split; [cbn; lia|cbn; lia|vm_compute; discriminate|vm_compute; discriminate
         |vm_compute; reflexivity|].
  apply (bool_decide_unpack _). vm_compute. done.
Qed.

Lemma top_k_plan_built :
  match top_k_plan 10 with
  | Ok (Some p) => pl_reason (vp_plan (prp_plan p)) = CapitalDeployment
  | _ => False
  end.
Proof. vm_compute. reflexivity. Qed.

(** The deployment is the plan returned. *)
Lemma top_k_plan_admitted_witness :
  exists p, top_k_plan 10 = Ok (Some p) /\
    validate_plan (vp_plan (prp_plan p)) (top_k_config 10) = Ok (prp_plan p).
Proof.
  pose proof (top_k_plan_admitted (top_k_config 10) (tolerant 10) TopKExample.snapshot later_view
    None TopKExample.target TopKExample.funding top_k_ready top_k_endpoints top_k_funded
    ltac:(vm_compute; reflexivity)) as H.
  pose proof top_k_plan_built as Hb. unfold top_k_plan in *.
  destruct (build_validated_top_k_plan _ _ _ _ _ _ _) as [[p|]|e]; [|destruct Hb|destruct Hb].
  exists p. split; [reflexivity|].
  destruct H as [(s & _ & _ & H)|(_ & s & b & _ & _ & H)]; exact (pa_validated _ _ _ _ _ _ _ H).
Defined.
