(* ===== verification/Logs.v ===== *)
(** * Event logs and whom they concern

    Models the decoding and attribution of canonical logs of
    [src/src/chain/logs.rs] and the dirty marks they leave, with the theorems
    about them. *)
From Stdlib Require Import ZArith Lia.
From stdpp Require Import base gmap sets strings list.
From S2P Require Import Prelude.
From S2P Require Import Domain.
From S2P Require Import IdleLocks.
From S2P Require Import Config.
From S2P Require Import Revision.
From S2P Require Import ProtocolLock.
Open Scope Z_scope.

(** ** Watched protocol events

    [chain/logs.rs]: the event families of the watched contracts, the strict
    decoding of a raw log under its contract role, the state it invalidates,
    the attribution of a whole transaction, and the watched address sets.
    The generated decoder and encoder of each interface ([contracts/bindings.rs]
    expands [sol!]) and its signature hashes are parameters; the payloads are
    the events the checked-in interfaces of [abi/] declare. *)

(** ** Raw logs and contract roles *)

Record RawEventLog : Type := mkRawEventLog {
  rl_address : Address;
  rl_topics : list B256;
  rl_data : Bytes;
}.

Inductive EventSource : Type :=
  | SourceVault (vault : VaultAddress)
  | SourceAdapter (adapter : AdapterAddress)
  | SourceMorpho (morpho : Address)
  | SourceAdaptiveCurveIrm (irm : Address)
  | SourceToken (token : Address).
#[global] Instance EventSource_eq_dec : EqDecision EventSource.
Proof. solve_decision. Defined.

Definition source_address (source : EventSource) : Address :=
  match source with
  | SourceVault address | SourceAdapter address | SourceMorpho address
  | SourceAdaptiveCurveIrm address | SourceToken address => address
  end.

(** ** Event identities *)

Module VaultEventKind.
Inductive VaultEventKind : Type :=
  | Deposit | Withdraw | Allocate | Deallocate | ForceDeallocate | AccrueInterest
  | IncreaseAbsoluteCap | DecreaseAbsoluteCap | IncreaseRelativeCap | DecreaseRelativeCap
  | AddAdapter | RemoveAdapter | SetAdapterRegistry | SetLiquidityAdapterAndData | SetMaxRate
  | SetIsAllocator | SetIsSentinel | SetCurator | SetForceDeallocatePenalty
  | SetPerformanceFee | SetManagementFee | SetPerformanceFeeRecipient
  | SetManagementFeeRecipient | SetReceiveSharesGate | SetSendSharesGate
  | SetReceiveAssetsGate | SetSendAssetsGate | Submit | Revoke | Accept
  | IncreaseTimelock | DecreaseTimelock | Abdicate.
#[global] Instance VaultEventKind_eq_dec : EqDecision VaultEventKind.
Proof. solve_decision. Defined.
End VaultEventKind.
Notation VaultEventKind := VaultEventKind.VaultEventKind.

Module AdapterEventKind.
Inductive AdapterEventKind : Type :=
  | Allocate | Deallocate | BurnShares | SetSkimRecipient | Submit | Revoke | Accept
  | IncreaseTimelock | DecreaseTimelock | Abdicate.
#[global] Instance AdapterEventKind_eq_dec : EqDecision AdapterEventKind.
Proof. solve_decision. Defined.
End AdapterEventKind.
Notation AdapterEventKind := AdapterEventKind.AdapterEventKind.

Module MorphoEventKind.
Inductive MorphoEventKind : Type :=
  | Supply | Withdraw | Borrow | Repay | Liquidate | AccrueInterest | SetFee | SetFeeRecipient.
#[global] Instance MorphoEventKind_eq_dec : EqDecision MorphoEventKind.
Proof. solve_decision. Defined.
End MorphoEventKind.
Notation MorphoEventKind := MorphoEventKind.MorphoEventKind.

Inductive WatchedEventKind : Type :=
  | WatchedVault (kind : VaultEventKind)
  | WatchedAdapter (kind : AdapterEventKind)
  | WatchedMorpho (kind : MorphoEventKind)
  | BorrowRateUpdate
  | WatchedTransfer.
#[global] Instance WatchedEventKind_eq_dec : EqDecision WatchedEventKind.
Proof. solve_decision. Defined.

(** ** Payloads *)

Module VaultEvent.
Inductive IVaultV2Events : Type :=
  | Deposit (sender onBehalf : Address) (assets shares : Z)
  | Withdraw (sender receiver onBehalf : Address) (assets shares : Z)
  | Allocate (sender adapter : Address) (assets : Z) (ids : list B256) (change : Z)
  | Deallocate (sender adapter : Address) (assets : Z) (ids : list B256) (change : Z)
  | ForceDeallocate (sender adapter : Address) (assets : Z) (onBehalf : Address)
      (ids : list B256) (penaltyAssets : Z)
  | AccrueInterest (previousTotalAssets newTotalAssets performanceFeeShares
      managementFeeShares : Z)
  | Revoke (sender : Address) (selector data : Bytes)
  | Submit (selector data : Bytes) (executableAt : Z)
  | Accept (selector data : Bytes)
  | SetCurator (newCurator : Address)
  | SetIsSentinel (account : Address) (newIsSentinel : bool)
  | SetIsAllocator (account : Address) (newIsAllocator : bool)
  | SetReceiveSharesGate (newReceiveSharesGate : Address)
  | SetSendSharesGate (newSendSharesGate : Address)
  | SetReceiveAssetsGate (newReceiveAssetsGate : Address)
  | SetSendAssetsGate (newSendAssetsGate : Address)
  | SetAdapterRegistry (newAdapterRegistry : Address)
  | AddAdapter (account : Address)
  | RemoveAdapter (account : Address)
  | DecreaseTimelock (selector : Bytes) (newDuration : Z)
  | IncreaseTimelock (selector : Bytes) (newDuration : Z)
  | Abdicate (selector : Bytes)
  | SetLiquidityAdapterAndData (sender newLiquidityAdapter : Address) (newLiquidityData : B256)
  | SetPerformanceFee (newPerformanceFee : Z)
  | SetPerformanceFeeRecipient (newPerformanceFeeRecipient : Address)
  | SetManagementFee (newManagementFee : Z)
  | SetManagementFeeRecipient (newManagementFeeRecipient : Address)
  | DecreaseAbsoluteCap (sender : Address) (id : B256) (idData : Bytes) (newAbsoluteCap : Z)
  | IncreaseAbsoluteCap (id : B256) (idData : Bytes) (newAbsoluteCap : Z)
  | DecreaseRelativeCap (sender : Address) (id : B256) (idData : Bytes) (newRelativeCap : Z)
  | IncreaseRelativeCap (id : B256) (idData : Bytes) (newRelativeCap : Z)
  | SetMaxRate (newMaxRate : Z)
  | SetForceDeallocatePenalty (adapter : Address) (forceDeallocatePenalty : Z).
End VaultEvent.
Notation IVaultV2Events := VaultEvent.IVaultV2Events.

Module AdapterEvent.
Inductive IMorphoMarketV1AdapterV2Events : Type :=
  | Submit (selector data : Bytes) (executableAt : Z)
  | Revoke (sender : Address) (selector data : Bytes)
  | Accept (selector data : Bytes)
  | Abdicate (selector : Bytes)
  | IncreaseTimelock (selector : Bytes) (newDuration : Z)
  | DecreaseTimelock (selector : Bytes) (newDuration : Z)
  | SetSkimRecipient (newSkimRecipient : Address)
  | BurnShares (marketId : B256) (supplyShares : Z)
  | Allocate (marketId : B256) (newAllocation mintedShares : Z)
  | Deallocate (marketId : B256) (newAllocation burnedShares : Z).
End AdapterEvent.
Notation IMorphoMarketV1AdapterV2Events := AdapterEvent.IMorphoMarketV1AdapterV2Events.

Module MorphoEvent.
Inductive IMorphoEvents : Type :=
  | SetFee (id : B256) (newFee : Z)
  | SetFeeRecipient (newFeeRecipient : Address)
  | Supply (id : B256) (caller onBehalf : Address) (assets shares : Z)
  | Withdraw (id : B256) (caller onBehalf receiver : Address) (assets shares : Z)
  | Borrow (id : B256) (caller onBehalf receiver : Address) (assets shares : Z)
  | Repay (id : B256) (caller onBehalf : Address) (assets shares : Z)
  | Liquidate (id : B256) (caller borrower : Address)
      (repaidAssets repaidShares seizedAssets badDebtAssets badDebtShares : Z)
  | AccrueInterest (id : B256) (prevBorrowRate interest feeShares : Z).
End MorphoEvent.
Notation IMorphoEvents := MorphoEvent.IMorphoEvents.

Inductive IIrmEvents : Type := IrmBorrowRateUpdate (id : B256) (avgBorrowRate rateAtTarget : Z).
Inductive IERC20Events : Type := Erc20Transfer (from to : Address) (value : Z).

Inductive ProtocolEvent : Type :=
  | EventVault (event : IVaultV2Events)
  | EventAdapter (event : IMorphoMarketV1AdapterV2Events)
  | EventMorpho (event : IMorphoEvents)
  | EventAdaptiveCurveIrm (event : IIrmEvents)
  | EventToken (event : IERC20Events).

(** ** Decoded events

    The invalidations are those [Revision] merges, the origins those the idle
    ledger of [IdleLocks] attributes. *)

Record DecodedEvent : Type := mkDecodedEvent {
  de_source : EventSource;
  de_kind : WatchedEventKind;
  de_event : ProtocolEvent;
  de_invalidations : list StateInvalidation;
}.

Inductive EventDecodeError : Type :=
  | AddressMismatch
  | MissingSignature
  | UnknownSignature (signature : B256)
  | Malformed (kind : WatchedEventKind)
  | NonCanonical (kind : WatchedEventKind).

(** ** The generated interfaces

    [SIGNATURE_HASH], [decode_raw_log] and [to_log_data] of each event enum. *)
Class EventAbi : Type := {
  vault_signature : VaultEventKind -> B256;
  adapter_signature : AdapterEventKind -> B256;
  morpho_signature : MorphoEventKind -> B256;
  borrow_rate_update_signature : B256;
  transfer_signature : B256;
  decode_vault_raw_log : list B256 -> Bytes -> option IVaultV2Events;
  decode_adapter_raw_log : list B256 -> Bytes -> option IMorphoMarketV1AdapterV2Events;
  decode_morpho_raw_log : list B256 -> Bytes -> option IMorphoEvents;
  decode_irm_raw_log : list B256 -> Bytes -> option IIrmEvents;
  decode_token_raw_log : list B256 -> Bytes -> option IERC20Events;
  to_log_data : ProtocolEvent -> list B256 * Bytes;
}.

Section Decode.
Context `{HE : EventAbi}.

Definition VAULT_EVENTS : list (B256 * VaultEventKind) :=
  (fun kind => (vault_signature kind, kind)) <$>
  [VaultEventKind.Deposit; VaultEventKind.Withdraw; VaultEventKind.Allocate;
   VaultEventKind.Deallocate; VaultEventKind.ForceDeallocate; VaultEventKind.AccrueInterest;
   VaultEventKind.IncreaseAbsoluteCap; VaultEventKind.DecreaseAbsoluteCap;
   VaultEventKind.IncreaseRelativeCap; VaultEventKind.DecreaseRelativeCap;
   VaultEventKind.AddAdapter; VaultEventKind.RemoveAdapter; VaultEventKind.SetAdapterRegistry;
   VaultEventKind.SetLiquidityAdapterAndData; VaultEventKind.SetMaxRate;
   VaultEventKind.SetIsAllocator; VaultEventKind.SetIsSentinel; VaultEventKind.SetCurator;
   VaultEventKind.SetForceDeallocatePenalty; VaultEventKind.SetPerformanceFee;
   VaultEventKind.SetManagementFee; VaultEventKind.SetPerformanceFeeRecipient;
   VaultEventKind.SetManagementFeeRecipient; VaultEventKind.SetReceiveSharesGate;
   VaultEventKind.SetSendSharesGate; VaultEventKind.SetReceiveAssetsGate;
   VaultEventKind.SetSendAssetsGate; VaultEventKind.Submit; VaultEventKind.Revoke;
   VaultEventKind.Accept; VaultEventKind.IncreaseTimelock; VaultEventKind.DecreaseTimelock;
   VaultEventKind.Abdicate].

Definition ADAPTER_EVENTS : list (B256 * AdapterEventKind) :=
  (fun kind => (adapter_signature kind, kind)) <$>
  [AdapterEventKind.Allocate; AdapterEventKind.Deallocate; AdapterEventKind.BurnShares;
   AdapterEventKind.SetSkimRecipient; AdapterEventKind.Submit; AdapterEventKind.Revoke;
   AdapterEventKind.Accept; AdapterEventKind.IncreaseTimelock;
   AdapterEventKind.DecreaseTimelock; AdapterEventKind.Abdicate].

Definition MORPHO_EVENTS : list (B256 * MorphoEventKind) :=
  (fun kind => (morpho_signature kind, kind)) <$>
  [MorphoEventKind.Supply; MorphoEventKind.Withdraw; MorphoEventKind.Borrow;
   MorphoEventKind.Repay; MorphoEventKind.Liquidate; MorphoEventKind.AccrueInterest;
   MorphoEventKind.SetFee; MorphoEventKind.SetFeeRecipient].

(** [iter().find_map(|(hash, kind)| (hash == signature).then_some(kind))]. *)
Definition kind_of {K} (table : list (B256 * K)) (signature : B256) : option K :=
  snd <$> find (fun entry => entry.1 =? signature) table.

Definition vault_kind (signature : B256) : option VaultEventKind := kind_of VAULT_EVENTS signature.
Definition adapter_kind (signature : B256) : option AdapterEventKind :=
  kind_of ADAPTER_EVENTS signature.
Definition morpho_kind (signature : B256) : option MorphoEventKind :=
  kind_of MORPHO_EVENTS signature.

Definition is_watched_signature (source : EventSource) (signature : B256) : bool :=
  match source with
  | SourceVault _ => bool_decide (is_Some (vault_kind signature))
  | SourceAdapter _ => bool_decide (is_Some (adapter_kind signature))
  | SourceMorpho _ => bool_decide (is_Some (morpho_kind signature))
  | SourceAdaptiveCurveIrm _ => signature =? borrow_rate_update_signature
  | SourceToken _ => signature =? transfer_signature
  end.

Definition invalidations (source : EventSource) (kind : WatchedEventKind) (raw : RawEventLog)
    : list StateInvalidation :=
  let topic (n : nat) (f : B256 -> StateInvalidation) := from_option (fun id => [f id]) []
                                                           (rl_topics raw !! n) in
  match source, kind with
  | SourceVault vault, WatchedVault vault_kind =>
      match vault_kind with
      | VaultEventKind.AddAdapter | VaultEventKind.RemoveAdapter
      | VaultEventKind.SetAdapterRegistry | VaultEventKind.SetLiquidityAdapterAndData =>
          [VaultTopology vault]
      | VaultEventKind.SetIsAllocator | VaultEventKind.SetIsSentinel => [RoleState vault]
      | VaultEventKind.SetReceiveSharesGate | VaultEventKind.SetSendSharesGate
      | VaultEventKind.SetReceiveAssetsGate | VaultEventKind.SetSendAssetsGate =>
          [GateState vault]
      | VaultEventKind.IncreaseAbsoluteCap | VaultEventKind.IncreaseRelativeCap =>
          topic 1%nat (InvalidCapState vault)
      | VaultEventKind.DecreaseAbsoluteCap | VaultEventKind.DecreaseRelativeCap =>
          topic 2%nat (InvalidCapState vault)
      | VaultEventKind.Submit | VaultEventKind.Revoke | VaultEventKind.Accept =>
          [PendingAdministration vault]
      | _ => [AllForVault vault]
      end
  | SourceAdapter adapter, WatchedAdapter adapter_kind =>
      AdapterState adapter ::
      match adapter_kind with
      | AdapterEventKind.Submit | AdapterEventKind.Revoke | AdapterEventKind.Accept =>
          [PendingAdministration adapter]
      | _ => []
      end
  | SourceMorpho _, WatchedMorpho _ | SourceAdaptiveCurveIrm _, BorrowRateUpdate =>
      topic 1%nat MarketState
  | SourceToken token, WatchedTransfer => [TokenLiquidity token]
  | _, _ => []
  end.

(** The kind of a log by its signature, and its decoded payload, under one
    role. *)
Definition decode_payload (source : EventSource) (signature : B256) (raw : RawEventLog)
    : result EventDecodeError (WatchedEventKind * ProtocolEvent) :=
  let topics := rl_topics raw in
  let data := rl_data raw in
  match source with
  | SourceVault _ =>
      kind ← ok_or (vault_kind signature) (UnknownSignature signature);
      decoded ← ok_or (decode_vault_raw_log topics data) (Malformed (WatchedVault kind));
      Ok (WatchedVault kind, EventVault decoded)
  | SourceAdapter _ =>
      kind ← ok_or (adapter_kind signature) (UnknownSignature signature);
      decoded ← ok_or (decode_adapter_raw_log topics data) (Malformed (WatchedAdapter kind));
      Ok (WatchedAdapter kind, EventAdapter decoded)
  | SourceMorpho _ =>
      kind ← ok_or (morpho_kind signature) (UnknownSignature signature);
      decoded ← ok_or (decode_morpho_raw_log topics data) (Malformed (WatchedMorpho kind));
      Ok (WatchedMorpho kind, EventMorpho decoded)
  | SourceAdaptiveCurveIrm _ =>
      if negb (signature =? borrow_rate_update_signature) then Err (UnknownSignature signature)
      else
        decoded ← ok_or (decode_irm_raw_log topics data) (Malformed BorrowRateUpdate);
        Ok (BorrowRateUpdate, EventAdaptiveCurveIrm decoded)
  | SourceToken _ =>
      if negb (signature =? transfer_signature) then Err (UnknownSignature signature)
      else
        decoded ← ok_or (decode_token_raw_log topics data) (Malformed WatchedTransfer);
        Ok (WatchedTransfer, EventToken decoded)
  end.

Definition decode_event (source : EventSource) (raw : RawEventLog)
    : result EventDecodeError DecodedEvent :=
  if negb (rl_address raw =? source_address source) then Err AddressMismatch
  else
    signature ← ok_or (head (rl_topics raw)) MissingSignature;
    decoded ← decode_payload source signature raw;
    let '(kind, event) := decoded in
    if negb (bool_decide (to_log_data event = (rl_topics raw, rl_data raw)))
    then Err (NonCanonical kind)
    else Ok (mkDecodedEvent source kind event (invalidations source kind raw)).

Definition decode_watched_event (source : EventSource) (raw : RawEventLog)
    : result EventDecodeError (option DecodedEvent) :=
  if negb (rl_address raw =? source_address source) then Err AddressMismatch
  else
    match head (rl_topics raw) with
    | None => Ok None
    | Some signature =>
        if negb (is_watched_signature source signature) then Ok None
        else decoded ← decode_event source raw; Ok (Some decoded)
    end.
End Decode.

(** ** Attribution of a transaction *)

Definition any_kind (events : list DecodedEvent) (p : WatchedEventKind -> bool) : bool :=
  existsb (fun event => p (de_kind event)) events.

Definition allocator_kind (kind : WatchedEventKind) : bool :=
  match kind with
  | WatchedVault VaultEventKind.Allocate | WatchedVault VaultEventKind.Deallocate => true
  | _ => false
  end.

Definition administration_kind (kind : WatchedEventKind) : bool :=
  match kind with
  | WatchedVault
      ( VaultEventKind.IncreaseAbsoluteCap | VaultEventKind.DecreaseAbsoluteCap
      | VaultEventKind.IncreaseRelativeCap | VaultEventKind.DecreaseRelativeCap
      | VaultEventKind.AddAdapter | VaultEventKind.RemoveAdapter
      | VaultEventKind.SetAdapterRegistry | VaultEventKind.SetLiquidityAdapterAndData
      | VaultEventKind.SetMaxRate | VaultEventKind.SetIsAllocator
      | VaultEventKind.SetIsSentinel | VaultEventKind.SetCurator
      | VaultEventKind.SetForceDeallocatePenalty | VaultEventKind.SetPerformanceFee
      | VaultEventKind.SetManagementFee | VaultEventKind.SetPerformanceFeeRecipient
      | VaultEventKind.SetManagementFeeRecipient | VaultEventKind.SetReceiveSharesGate
      | VaultEventKind.SetSendSharesGate | VaultEventKind.SetReceiveAssetsGate
      | VaultEventKind.SetSendAssetsGate | VaultEventKind.Submit | VaultEventKind.Revoke
      | VaultEventKind.Accept | VaultEventKind.IncreaseTimelock
      | VaultEventKind.DecreaseTimelock | VaultEventKind.Abdicate) => true
  | _ => false
  end.

Definition morpho_activity (kind : WatchedEventKind) : bool :=
  match kind with WatchedMorpho _ => true | _ => false end.

Definition is_kind (expected kind : WatchedEventKind) : bool := bool_decide (kind = expected).

Definition classify_transaction (sender : Address) (known_bot_transaction : bool)
    (approved_allocators approved_sentinels : gset Address) (curator owner : option Address)
    (ordered_events : list DecodedEvent) : FlowOrigin :=
  let any := any_kind ordered_events in
  if known_bot_transaction then BotRebalance
  else if any (is_kind (WatchedVault VaultEventKind.Deposit)) then VaultUserDeposit
  else if any (is_kind (WatchedVault VaultEventKind.Withdraw)) then VaultUserWithdrawal
  else if any (is_kind (WatchedVault VaultEventKind.ForceDeallocate))
  then VaultUserForceDeallocate
  else if any allocator_kind then
    if bool_decide (sender ∈ approved_sentinels)
       && any (is_kind (WatchedVault VaultEventKind.Deallocate)) then SentinelDeallocation
    else if bool_decide (sender ∈ approved_allocators) then ApprovedExternalAllocator
    else UnknownExternalAllocator
  else
    let administration := any administration_kind in
    if administration && bool_decide (curator = Some sender) then CuratorAdministration
    else if administration && bool_decide (owner = Some sender) then OwnerAdministration
    else if any (is_kind (WatchedMorpho MorphoEventKind.Liquidate)) then LiquidationOrBadDebt
    else if any morpho_activity then MorphoExternalUser
    else if negb (bool_decide (ordered_events = []))
            && forallb (fun event => is_kind WatchedTransfer (de_kind event)) ordered_events
    then DirectDonation
    else UnknownOrigin.

(** ** Watched addresses *)

Record WatchedAddresses : Type := mkWatchedAddresses {
  wa_vaults : gset Address;
  wa_adapters : gset Address;
  wa_morpho : gset Address;
  wa_irms : gset Address;
  wa_tokens : gset Address;
  wa_gates : gset Address;
  wa_registries : gset Address;
  wa_signers : gset Address;
  wa_role_accounts : gset Address;
}.

Definition watched_default : WatchedAddresses := mkWatchedAddresses ∅ ∅ ∅ ∅ ∅ ∅ ∅ ∅ ∅.

Inductive WatchedAddressError : Type := ChainMismatch.

Definition watch_vault (w : WatchedAddresses) (vault : ValidatedVaultConfig) : WatchedAddresses :=
  mkWatchedAddresses
    ({[vv_address vault]} ∪ wa_vaults w)
    (list_to_set (vad_address <$> vv_adapters vault) ∪ wa_adapters w)
    (wa_morpho w)
    (list_to_set ((fun position => mp_irm (pc_market_params position)) <$> vv_positions vault)
       ∪ wa_irms w)
    ({[vv_asset vault]} ∪ wa_tokens w)
    (wa_gates w) (wa_registries w)
    ({[vv_signer_address vault]} ∪ wa_signers w)
    (list_to_set (vv_approved_sentinels vault) ∪
       (list_to_set (vv_approved_allocators vault) ∪ wa_role_accounts w)).

Definition watch_identity (w : WatchedAddresses) (identity : ValidatedContractIdentity)
    : WatchedAddresses :=
  let '(mkWatchedAddresses vaults adapters morpho irms tokens gates registries signers roles) := w in
  let a := vi_address identity in
  match vi_kind identity with
  | IkVaultV2 =>
      mkWatchedAddresses ({[a]} ∪ vaults) adapters morpho irms tokens gates registries signers roles
  | IkMorphoSingleton =>
      mkWatchedAddresses vaults adapters ({[a]} ∪ morpho) irms tokens gates registries signers roles
  | IkAdaptiveCurveIrm =>
      mkWatchedAddresses vaults adapters morpho ({[a]} ∪ irms) tokens gates registries signers roles
  | IkDirectAdapter =>
      mkWatchedAddresses vaults ({[a]} ∪ adapters) morpho irms tokens gates registries signers roles
  | IkAssetToken =>
      mkWatchedAddresses vaults adapters morpho irms ({[a]} ∪ tokens) gates registries signers roles
  | IkGate =>
      mkWatchedAddresses vaults adapters morpho irms tokens ({[a]} ∪ gates) registries signers roles
  | IkAdapterRegistry =>
      mkWatchedAddresses vaults adapters morpho irms tokens gates ({[a]} ∪ registries) signers roles
  | IkMorphoVaultV1Adapter | IkMorphoVaultV1 | IkMulticall3 => w
  end.

Definition watch_singleton (w : WatchedAddresses) (morpho : Address) : WatchedAddresses :=
  mkWatchedAddresses (wa_vaults w) (wa_adapters w) ({[morpho]} ∪ wa_morpho w) (wa_irms w)
    (wa_tokens w) (wa_gates w) (wa_registries w) (wa_signers w) (wa_role_accounts w).

Definition watched_build (config : ValidatedConfig) (lock : ValidatedProtocolLock)
    : result WatchedAddressError WatchedAddresses :=
  let app := vg_app config in
  if negb (vc_chain_id (ac_chain app) =? vl_chain_id lock) then Err ChainMismatch
  else
    let watched := watch_singleton watched_default (vc_morpho_blue (ac_chain app)) in
    let watched := fold_left watch_vault (ac_vaults app) watched in
    Ok (fold_left watch_identity (vl_contracts lock) watched).

Definition watched_all (w : WatchedAddresses) : gset Address :=
  ⋃ [wa_vaults w; wa_adapters w; wa_morpho w; wa_irms w; wa_tokens w; wa_gates w;
     wa_registries w; wa_signers w; wa_role_accounts w].

(** ** What the encodings of the interfaces look like

    The identity of a payload and the topics the Solidity ABI gives it: the
    signature hash, then each indexed argument in order. *)

Definition event_kind (event : ProtocolEvent) : WatchedEventKind :=
  match event with
  | EventVault e => WatchedVault
      match e with
      | VaultEvent.Deposit _ _ _ _ => VaultEventKind.Deposit
      | VaultEvent.Withdraw _ _ _ _ _ => VaultEventKind.Withdraw
      | VaultEvent.Allocate _ _ _ _ _ => VaultEventKind.Allocate
      | VaultEvent.Deallocate _ _ _ _ _ => VaultEventKind.Deallocate
      | VaultEvent.ForceDeallocate _ _ _ _ _ _ => VaultEventKind.ForceDeallocate
      | VaultEvent.AccrueInterest _ _ _ _ => VaultEventKind.AccrueInterest
      | VaultEvent.Revoke _ _ _ => VaultEventKind.Revoke
      | VaultEvent.Submit _ _ _ => VaultEventKind.Submit
      | VaultEvent.Accept _ _ => VaultEventKind.Accept
      | VaultEvent.SetCurator _ => VaultEventKind.SetCurator
      | VaultEvent.SetIsSentinel _ _ => VaultEventKind.SetIsSentinel
      | VaultEvent.SetIsAllocator _ _ => VaultEventKind.SetIsAllocator
      | VaultEvent.SetReceiveSharesGate _ => VaultEventKind.SetReceiveSharesGate
      | VaultEvent.SetSendSharesGate _ => VaultEventKind.SetSendSharesGate
      | VaultEvent.SetReceiveAssetsGate _ => VaultEventKind.SetReceiveAssetsGate
      | VaultEvent.SetSendAssetsGate _ => VaultEventKind.SetSendAssetsGate
      | VaultEvent.SetAdapterRegistry _ => VaultEventKind.SetAdapterRegistry
      | VaultEvent.AddAdapter _ => VaultEventKind.AddAdapter
      | VaultEvent.RemoveAdapter _ => VaultEventKind.RemoveAdapter
      | VaultEvent.DecreaseTimelock _ _ => VaultEventKind.DecreaseTimelock
      | VaultEvent.IncreaseTimelock _ _ => VaultEventKind.IncreaseTimelock
      | VaultEvent.Abdicate _ => VaultEventKind.Abdicate
      | VaultEvent.SetLiquidityAdapterAndData _ _ _ => VaultEventKind.SetLiquidityAdapterAndData
      | VaultEvent.SetPerformanceFee _ => VaultEventKind.SetPerformanceFee
      | VaultEvent.SetPerformanceFeeRecipient _ => VaultEventKind.SetPerformanceFeeRecipient
      | VaultEvent.SetManagementFee _ => VaultEventKind.SetManagementFee
      | VaultEvent.SetManagementFeeRecipient _ => VaultEventKind.SetManagementFeeRecipient
      | VaultEvent.DecreaseAbsoluteCap _ _ _ _ => VaultEventKind.DecreaseAbsoluteCap
      | VaultEvent.IncreaseAbsoluteCap _ _ _ => VaultEventKind.IncreaseAbsoluteCap
      | VaultEvent.DecreaseRelativeCap _ _ _ _ => VaultEventKind.DecreaseRelativeCap
      | VaultEvent.IncreaseRelativeCap _ _ _ => VaultEventKind.IncreaseRelativeCap
      | VaultEvent.SetMaxRate _ => VaultEventKind.SetMaxRate
      | VaultEvent.SetForceDeallocatePenalty _ _ => VaultEventKind.SetForceDeallocatePenalty
      end
  | EventAdapter e => WatchedAdapter
      match e with
      | AdapterEvent.Submit _ _ _ => AdapterEventKind.Submit
      | AdapterEvent.Revoke _ _ _ => AdapterEventKind.Revoke
      | AdapterEvent.Accept _ _ => AdapterEventKind.Accept
      | AdapterEvent.Abdicate _ => AdapterEventKind.Abdicate
      | AdapterEvent.IncreaseTimelock _ _ => AdapterEventKind.IncreaseTimelock
      | AdapterEvent.DecreaseTimelock _ _ => AdapterEventKind.DecreaseTimelock
      | AdapterEvent.SetSkimRecipient _ => AdapterEventKind.SetSkimRecipient
      | AdapterEvent.BurnShares _ _ => AdapterEventKind.BurnShares
      | AdapterEvent.Allocate _ _ _ => AdapterEventKind.Allocate
      | AdapterEvent.Deallocate _ _ _ => AdapterEventKind.Deallocate
      end
  | EventMorpho e => WatchedMorpho
      match e with
      | MorphoEvent.SetFee _ _ => MorphoEventKind.SetFee
      | MorphoEvent.SetFeeRecipient _ => MorphoEventKind.SetFeeRecipient
      | MorphoEvent.Supply _ _ _ _ _ => MorphoEventKind.Supply
      | MorphoEvent.Withdraw _ _ _ _ _ _ => MorphoEventKind.Withdraw
      | MorphoEvent.Borrow _ _ _ _ _ _ => MorphoEventKind.Borrow
      | MorphoEvent.Repay _ _ _ _ _ => MorphoEventKind.Repay
      | MorphoEvent.Liquidate _ _ _ _ _ _ _ _ => MorphoEventKind.Liquidate
      | MorphoEvent.AccrueInterest _ _ _ _ => MorphoEventKind.AccrueInterest
      end
  | EventAdaptiveCurveIrm _ => BorrowRateUpdate
  | EventToken _ => WatchedTransfer
  end.

(** A [bytes4] argument fills the high bytes of its topic. *)
Definition selector_topic (selector : Bytes) : B256 := of_be_bytes selector * 2 ^ 224.

Definition indexed_topics (event : ProtocolEvent) : list B256 :=
  match event with
  | EventVault e =>
      match e with
      | VaultEvent.Deposit sender onBehalf _ _ => [sender; onBehalf]
      | VaultEvent.Withdraw sender receiver onBehalf _ _ => [sender; receiver; onBehalf]
      | VaultEvent.Allocate sender adapter _ _ _ | VaultEvent.Deallocate sender adapter _ _ _ =>
          [sender; adapter]
      | VaultEvent.ForceDeallocate sender _ _ onBehalf _ _ => [sender; onBehalf]
      | VaultEvent.AccrueInterest _ _ _ _ | VaultEvent.SetPerformanceFee _
      | VaultEvent.SetManagementFee _ | VaultEvent.SetMaxRate _ => []
      | VaultEvent.Revoke sender selector _ => [sender; selector_topic selector]
      | VaultEvent.Submit selector _ _ | VaultEvent.Accept selector _
      | VaultEvent.DecreaseTimelock selector _ | VaultEvent.IncreaseTimelock selector _
      | VaultEvent.Abdicate selector => [selector_topic selector]
      | VaultEvent.SetCurator a | VaultEvent.SetIsSentinel a _ | VaultEvent.SetIsAllocator a _
      | VaultEvent.SetReceiveSharesGate a | VaultEvent.SetSendSharesGate a
      | VaultEvent.SetReceiveAssetsGate a | VaultEvent.SetSendAssetsGate a
      | VaultEvent.SetAdapterRegistry a | VaultEvent.AddAdapter a | VaultEvent.RemoveAdapter a
      | VaultEvent.SetPerformanceFeeRecipient a | VaultEvent.SetManagementFeeRecipient a
      | VaultEvent.SetForceDeallocatePenalty a _ => [a]
      | VaultEvent.SetLiquidityAdapterAndData sender adapter data => [sender; adapter; data]
      | VaultEvent.DecreaseAbsoluteCap sender id _ _
      | VaultEvent.DecreaseRelativeCap sender id _ _ => [sender; id]
      | VaultEvent.IncreaseAbsoluteCap id _ _ | VaultEvent.IncreaseRelativeCap id _ _ => [id]
      end
  | EventAdapter e =>
      match e with
      | AdapterEvent.Submit selector _ _ | AdapterEvent.Accept selector _
      | AdapterEvent.Abdicate selector | AdapterEvent.IncreaseTimelock selector _
      | AdapterEvent.DecreaseTimelock selector _ => [selector_topic selector]
      | AdapterEvent.Revoke sender selector _ => [sender; selector_topic selector]
      | AdapterEvent.SetSkimRecipient a => [a]
      | AdapterEvent.BurnShares id _ | AdapterEvent.Allocate id _ _
      | AdapterEvent.Deallocate id _ _ => [id]
      end
  | EventMorpho e =>
      match e with
      | MorphoEvent.SetFee id _ | MorphoEvent.AccrueInterest id _ _ _ => [id]
      | MorphoEvent.SetFeeRecipient recipient => [recipient]
      | MorphoEvent.Supply id caller onBehalf _ _
      | MorphoEvent.Repay id caller onBehalf _ _ => [id; caller; onBehalf]
      | MorphoEvent.Withdraw id _ onBehalf receiver _ _
      | MorphoEvent.Borrow id _ onBehalf receiver _ _ => [id; onBehalf; receiver]
      | MorphoEvent.Liquidate id caller borrower _ _ _ _ _ => [id; caller; borrower]
      end
  | EventAdaptiveCurveIrm (IrmBorrowRateUpdate id _ _) => [id]
  | EventToken (Erc20Transfer from to _) => [from; to]
  end.

Definition kind_signature `{EventAbi} (kind : WatchedEventKind) : B256 :=
  match kind with
  | WatchedVault kind => vault_signature kind
  | WatchedAdapter kind => adapter_signature kind
  | WatchedMorpho kind => morpho_signature kind
  | BorrowRateUpdate => borrow_rate_update_signature
  | WatchedTransfer => transfer_signature
  end.

(** The topics of an encoding, and signature hashes distinct within each
    interface. *)
Class EventAbiLaws `{EventAbi} : Prop := {
  encoded_topics event :
    (to_log_data event).1 = kind_signature (event_kind event) :: indexed_topics event;
  vault_signature_inj : Inj (=) (=) vault_signature;
  adapter_signature_inj : Inj (=) (=) adapter_signature;
  morpho_signature_inj : Inj (=) (=) morpho_signature;
}.

(** ** What a decoded event says

    A log that decodes under a role is the canonical encoding of its payload,
    its kind is the payload's, and the state it invalidates is named by the
    payload's own arguments; merging those invalidations leaves every vault
    the event concerns dirty since its block. Attribution depends on the set
    of kinds in a transaction only. *)

(** ** Kinds and payloads *)

(** The role a payload belongs to. *)
Definition event_of_role (source : EventSource) (event : ProtocolEvent) : bool :=
  match source, event with
  | SourceVault _, EventVault _ | SourceAdapter _, EventAdapter _
  | SourceMorpho _, EventMorpho _ | SourceAdaptiveCurveIrm _, EventAdaptiveCurveIrm _
  | SourceToken _, EventToken _ => true
  | _, _ => false
  end.

(** The state an event invalidates, by its own arguments. *)
Definition event_invalidations (source : EventSource) (event : ProtocolEvent)
    : list StateInvalidation :=
  match source, event with
  | SourceVault vault, EventVault e =>
      match e with
      | VaultEvent.AddAdapter _ | VaultEvent.RemoveAdapter _ | VaultEvent.SetAdapterRegistry _
      | VaultEvent.SetLiquidityAdapterAndData _ _ _ => [VaultTopology vault]
      | VaultEvent.SetIsAllocator _ _ | VaultEvent.SetIsSentinel _ _ => [RoleState vault]
      | VaultEvent.SetReceiveSharesGate _ | VaultEvent.SetSendSharesGate _
      | VaultEvent.SetReceiveAssetsGate _ | VaultEvent.SetSendAssetsGate _ => [GateState vault]
      | VaultEvent.IncreaseAbsoluteCap id _ _ | VaultEvent.IncreaseRelativeCap id _ _
      | VaultEvent.DecreaseAbsoluteCap _ id _ _ | VaultEvent.DecreaseRelativeCap _ id _ _ =>
          [InvalidCapState vault id]
      | VaultEvent.Submit _ _ _ | VaultEvent.Revoke _ _ _ | VaultEvent.Accept _ _ =>
          [PendingAdministration vault]
      | _ => [AllForVault vault]
      end
  | SourceAdapter adapter, EventAdapter e =>
      AdapterState adapter ::
      match e with
      | AdapterEvent.Submit _ _ _ | AdapterEvent.Revoke _ _ _ | AdapterEvent.Accept _ _ =>
          [PendingAdministration adapter]
      | _ => []
      end
  | SourceMorpho _, EventMorpho e =>
      match e with
      | MorphoEvent.SetFeeRecipient recipient => [MarketState recipient]
      | MorphoEvent.SetFee id _ | MorphoEvent.AccrueInterest id _ _ _
      | MorphoEvent.Supply id _ _ _ _ | MorphoEvent.Repay id _ _ _ _
      | MorphoEvent.Withdraw id _ _ _ _ _ | MorphoEvent.Borrow id _ _ _ _ _
      | MorphoEvent.Liquidate id _ _ _ _ _ _ _ => [MarketState id]
      end
  | SourceAdaptiveCurveIrm _, EventAdaptiveCurveIrm (IrmBorrowRateUpdate id _ _) =>
      [MarketState id]
  | SourceToken token, EventToken _ => [TokenLiquidity token]
  | _, _ => []
  end.

Section Decoded.
Context `{HE : EventAbi} `{HL : !EventAbiLaws}.

Lemma kind_of_Some {K} (f : K -> B256) (kinds : list K) signature kind :
  kind_of ((fun kind => (f kind, kind)) <$> kinds) signature = Some kind -> f kind = signature.
Proof.
  unfold kind_of. intros ([h k] & [H1 H2]%find_some & ->)%fmap_Some.
  apply list_elem_of_In, list_elem_of_fmap in H1 as (k' & [= -> ->] & _). by apply Z.eqb_eq.
Qed.

Lemma vault_kind_Some signature kind :
  vault_kind signature = Some kind -> vault_signature kind = signature.
Proof. apply kind_of_Some. Qed.
Lemma adapter_kind_Some signature kind :
  adapter_kind signature = Some kind -> adapter_signature kind = signature.
Proof. apply kind_of_Some. Qed.
Lemma morpho_kind_Some signature kind :
  morpho_kind signature = Some kind -> morpho_signature kind = signature.
Proof. apply kind_of_Some. Qed.

(** A payload decodes under its own role, with the kind of the signature. *)
Lemma decode_payload_Ok source signature raw kind event :
  decode_payload source signature raw = Ok (kind, event) ->
  event_of_role source event = true /\ kind_signature kind = signature /\
  match source, kind with
  | SourceVault _, WatchedVault _ | SourceAdapter _, WatchedAdapter _
  | SourceMorpho _, WatchedMorpho _ | SourceAdaptiveCurveIrm _, BorrowRateUpdate
  | SourceToken _, WatchedTransfer => True
  | _, _ => False
  end.
Proof.
  unfold decode_payload. destruct source; intros H; inv_ok; cbn.
  - split_and!; [done|by apply vault_kind_Some|done].
  - split_and!; [done|by apply adapter_kind_Some|done].
  - split_and!; [done|by apply morpho_kind_Some|done].
  - bool_hyps. rewrite Z.eqb_eq in *. by split_and!.
  - bool_hyps. rewrite Z.eqb_eq in *. by split_and!.
Qed.

(** With distinct signatures the kind is the payload's. *)
Lemma kind_of_payload source kind event :
  event_of_role source event = true ->
  match source, kind with
  | SourceVault _, WatchedVault _ | SourceAdapter _, WatchedAdapter _
  | SourceMorpho _, WatchedMorpho _ | SourceAdaptiveCurveIrm _, BorrowRateUpdate
  | SourceToken _, WatchedTransfer => True
  | _, _ => False
  end ->
  kind_signature kind = kind_signature (event_kind event) -> kind = event_kind event.
Proof.
  destruct source, kind, event; try done; cbn; intros _ _ E; f_equal.
  - by apply vault_signature_inj.
  - by apply adapter_signature_inj.
  - by apply morpho_signature_inj.
Qed.

(** The topics name the state the payload names. *)
Lemma invalidations_of_event source event raw rest :
  event_of_role source event = true ->
  rl_topics raw = kind_signature (event_kind event) :: indexed_topics event ++ rest ->
  invalidations source (event_kind event) raw = event_invalidations source event.
Proof.
  intros Hr Ht. unfold invalidations. rewrite Ht.
  destruct source, event as [[]|[]|[]|[]|[]]; try discriminate; done.
Qed.

(** Decoding is strict: an accepted log comes from its role's address, is the
    complete canonical encoding of its payload, carries the payload's own
    kind, and invalidates exactly the state the payload's arguments name. *)
Lemma decode_event_Ok source raw d :
  decode_event source raw = Ok d ->
  rl_address raw = source_address source /\
  to_log_data (de_event d) = (rl_topics raw, rl_data raw) /\
  event_of_role source (de_event d) = true /\
  d = mkDecodedEvent source (event_kind (de_event d)) (de_event d)
        (event_invalidations source (de_event d)).
Proof.
  unfold decode_event. destruct (rl_address raw =? _) eqn:Ea; [|done]. cbn [negb]. intros H.
  step_ok H as signature Hs. step_ok H as [kind event] Hp.
  case_bool_decide as Hc; [|done]. cbn [negb] in H. inv_ok. bool_spec Ea.
  apply decode_payload_Ok in Hp as (Hr & Hk & Hm). cbn.
  pose proof (encoded_topics event) as He. rewrite Hc in He. cbn in He.
  rewrite He in Hs. injection Hs as Hs. rewrite <-Hs in Hk.
  apply (kind_of_payload source) in Hk as ->; [|done..].
  split_and!; [done|done|done|]. f_equal.
  apply (invalidations_of_event _ _ _ []); [done|]. by rewrite app_nil_r.
Qed.

(** A watched log decodes strictly or is not an event of the family. *)
Lemma decode_watched_event_Ok source raw o :
  decode_watched_event source raw = Ok o ->
  match o with
  | Some d => decode_event source raw = Ok d
  | None => forall signature, head (rl_topics raw) = Some signature ->
            is_watched_signature source signature = false
  end.
Proof.
  unfold decode_watched_event. destruct (_ =? _); [|done]. cbn [negb].
  destruct (head _) as [signature|] eqn:Hh.
  - destruct (is_watched_signature _ _) eqn:Hw; cbn [negb]; intros H.
    + by inv_ok.
    + inv_ok. naive_solver.
  - intros H. inv_ok. done.
Qed.
End Decoded.

(** ** Every event dirties the vaults it concerns *)

(** [v] must be planned again from a state at block [n] or later. *)
Definition dirty_since (d : DirtyAccumulator) (v : VaultAddress) (n : Z) : Prop :=
  exists dirty, ds_vaults d !! v = Some dirty /\ n <= dv_latest_relevant_event_block dirty.

Lemma mark_dirties d v n reason read_set : dirty_since (mark d v n reason read_set) v n.
Proof. unfold dirty_since, mark. cbn. rewrite lookup_insert_eq. eexists. split; [done|]. cbn. lia. Qed.

Lemma mark_keeps_dirty d v n reason read_set w k :
  dirty_since d w k -> dirty_since (mark d v n reason read_set) w k.
Proof.
  intros (dirty & Hw & Hk). unfold dirty_since, mark. cbn. destruct (decide (v = w)) as [->|Hne].
  - rewrite lookup_insert_eq, Hw. eexists. split; [done|]. cbn. lia.
  - rewrite lookup_insert_ne by done. by exists dirty.
Qed.

Lemma mark_all_keeps_dirty n d calls w k :
  dirty_since d w k -> dirty_since (mark_all n d calls) w k.
Proof.
  unfold mark_all. revert d. induction calls as [|c calls IH]; intros d Hd; [done|].
  cbn. by apply IH, mark_keeps_dirty.
Qed.

Lemma mark_all_dirties n d calls v reason read_set :
  (v, reason, read_set) ∈ calls -> dirty_since (mark_all n d calls) v n.
Proof.
  unfold mark_all. revert d. induction calls as [|c calls IH]; intros d; [by rewrite elem_of_nil|].
  rewrite elem_of_cons. intros [<-|Hin]; cbn; [|by apply IH].
  by apply (mark_all_keeps_dirty n), mark_dirties.
Qed.

Lemma merge_keeps_dirty d config n l w k :
  dirty_since d w k -> dirty_since (merge_invalidations d config n l) w k.
Proof.
  unfold merge_invalidations. revert d. induction l as [|i l IH]; intros d Hd; [done|].
  cbn. by apply IH, mark_all_keeps_dirty.
Qed.

Lemma merge_dirties d config n l i v reason read_set :
  i ∈ l -> (v, reason, read_set) ∈ invalidation_calls config i ->
  dirty_since (merge_invalidations d config n l) v n.
Proof.
  unfold merge_invalidations. revert d. induction l as [|j l IH]; intros d; [by rewrite elem_of_nil|].
  rewrite elem_of_cons. intros [<-|Hin] Hc; cbn; [|by apply IH].
  by eapply (merge_keeps_dirty _ config n), mark_all_dirties.
Qed.

(** The market a payload names, when it names one. *)
Definition event_market (event : ProtocolEvent) : option MarketId :=
  match event with
  | EventMorpho (MorphoEvent.SetFee id _) | EventMorpho (MorphoEvent.AccrueInterest id _ _ _)
  | EventMorpho (MorphoEvent.Supply id _ _ _ _) | EventMorpho (MorphoEvent.Repay id _ _ _ _)
  | EventMorpho (MorphoEvent.Withdraw id _ _ _ _ _)
  | EventMorpho (MorphoEvent.Borrow id _ _ _ _ _)
  | EventMorpho (MorphoEvent.Liquidate id _ _ _ _ _ _ _)
  | EventAdaptiveCurveIrm (IrmBorrowRateUpdate id _ _) => Some id
  | _ => None
  end.

(** The configured vaults an event of a role bears on. *)
Definition concerns (source : EventSource) (event : ProtocolEvent)
    (vault : ValidatedVaultConfig) : Prop :=
  match source with
  | SourceVault v => v = vv_address vault
  | SourceAdapter adapter =>
      (exists item, item ∈ vv_adapters vault /\ vad_address item = adapter) \/
      (exists item, vv_liquidity_adapter vault = Some item /\ lac_address item = adapter)
  | SourceMorpho _ | SourceAdaptiveCurveIrm _ =>
      exists market position, event_market event = Some market /\
        position ∈ vv_positions vault /\ pc_market_id position = market
  | SourceToken token => vv_asset vault = token
  end.

Lemma vaults_where_elem config p reason vault :
  vault ∈ ac_vaults (vg_app config) -> p vault = true ->
  (vv_address vault, reason, false) ∈ vaults_where config p reason.
Proof.
  intros Hin Hp. unfold vaults_where. apply list_elem_of_fmap. exists vault. split; [done|].
  by apply list_elem_of_In, List.filter_In; rewrite <-list_elem_of_In.
Qed.

Lemma existsb_key {A} (key : A -> Z) l x k :
  x ∈ l -> key x = k -> existsb (fun item => key item =? k) l = true.
Proof.
  intros Hx Hk. apply existsb_exists. exists x.
  split; [by apply list_elem_of_In|by apply Z.eqb_eq].
Qed.

(** One of the event's invalidations names each vault it concerns. *)
Lemma concerned_vault_called config source event vault :
  vault ∈ ac_vaults (vg_app config) -> event_of_role source event = true ->
  concerns source event vault ->
  exists i reason read_set, i ∈ event_invalidations source event /\
    (vv_address vault, reason, read_set) ∈ invalidation_calls config i.
Proof.
  intros Hin Hr Hc. destruct source, event; try discriminate; cbn in Hc.
  - subst. destruct event; try (do 3 eexists; split; by left);
      (do 3 eexists; split; [by left|]; apply vaults_where_elem; [done|by rewrite Z.eqb_refl]).
  - do 3 eexists; split; [by left|]. apply vaults_where_elem; [done|].
    apply orb_true_iff. destruct Hc as [(item & Hi & Ha)|(item & -> & Ha)].
    + left. by eapply (existsb_key vad_address).
    + right. by apply Z.eqb_eq.
  - destruct Hc as (market & position & Hm & Hp & <-). exists (MarketState (pc_market_id position)).
    do 2 eexists. split; [destruct event; simplify_eq/=; by left|].
    apply vaults_where_elem; [done|]. by eapply (existsb_key pc_market_id).
  - destruct Hc as (market & position & Hm & Hp & <-). exists (MarketState (pc_market_id position)).
    do 2 eexists. split; [destruct event; simplify_eq/=; by left|].
    apply vaults_where_elem; [done|]. by eapply (existsb_key pc_market_id).
  - do 3 eexists; split; [by left|]. apply vaults_where_elem; [done|]. by apply Z.eqb_eq.
Qed.

(** A strictly decoded event reaches the planner: the accepted log is the
    complete canonical encoding of its payload, under its role's address and
    with the payload's kind, and once its invalidations are merged at a block
    every configured vault the event concerns is dirty since that block, so no
    revision is published for it from a projection before that block. *)
Theorem decoded_event_dirties_vaults `{HE : EventAbi} `{HL : !EventAbiLaws}
    source raw event config vault d n s :
  decode_event source raw = Ok event ->
  vault ∈ ac_vaults (vg_app config) -> concerns source (de_event event) vault ->
  rl_address raw = source_address source /\
  to_log_data (de_event event) = (rl_topics raw, rl_data raw) /\
  de_kind event = event_kind (de_event event) /\
  let merged := merge_invalidations d config n (de_invalidations event) in
  is_vault_dirty merged (vv_address vault) = true /\
  (blk_number (cs_projection_block s) < n ->
   bind_snapshot merged (vv_address vault) s = (merged, None)).
Proof.
  intros Hd Hin Hc. apply decode_event_Ok in Hd as (Ha & He & Hr & Heq).
  destruct (concerned_vault_called config source (de_event event) vault Hin Hr Hc)
    as (i & reason & read_set & Hi & Hcall).
  assert (dirty_since (merge_invalidations d config n (de_invalidations event))
            (vv_address vault) n) as (dirty & Hv & Hn).
  { eapply merge_dirties; [|exact Hcall]. by rewrite Heq. }
  split; [done|]. split; [done|]. split; [by rewrite Heq|]. cbn zeta. split.
  - unfold is_vault_dirty. rewrite Hv. by apply bool_decide_eq_true.
  - intros Hs. unfold bind_snapshot. rewrite Hv.
    rewrite (proj2 (Z.ltb_lt _ (dv_latest_relevant_event_block dirty))) by lia.
    by rewrite orb_true_r.
Qed.

Lemma filter_none {A} (p : A -> bool) l :
  (forall x, x ∈ l -> p x = false) -> List.filter p l = [].
Proof.
  induction l as [|x l IH]; intros H; [done|]. cbn. rewrite (H x) by (by left).
  apply IH. intros y Hy. apply H. by right.
Qed.

(** A change of Morpho's fee recipient names the recipient as the market it
    invalidates: no vault is marked unless a position's market id equals that
    address. *)
Lemma fee_recipient_change_marks_nothing config d n morpho recipient :
  (forall vault position, vault ∈ ac_vaults (vg_app config) -> position ∈ vv_positions vault ->
     pc_market_id position <> recipient) ->
  merge_invalidations d config n
    (event_invalidations (SourceMorpho morpho) (EventMorpho (MorphoEvent.SetFeeRecipient recipient)))
  = d.
Proof.
  intros Hm. cbn. unfold vaults_where. rewrite filter_none; [done|].
  intros vault Hv. apply not_true_iff_false.
  rewrite existsb_exists. intros (position & Hp%list_elem_of_In & E%Z.eqb_eq).
  by eapply Hm.
Qed.

(** ** Attribution *)

Lemma any_kind_spec events p :
  any_kind events p = true <-> exists kind, kind ∈ (de_kind <$> events) /\ p kind = true.
Proof.
  unfold any_kind. rewrite existsb_exists. split.
  - intros (event & Hin & Hp). exists (de_kind event). split; [|done].
    apply list_elem_of_fmap. exists event. by rewrite list_elem_of_In.
  - intros (kind & (event & -> & Hin)%list_elem_of_fmap & Hp). exists event.
    by rewrite <-list_elem_of_In.
Qed.

Lemma negb_forallb {A} (p : A -> bool) l :
  negb (forallb p l) = existsb (fun x => negb (p x)) l.
Proof. induction l as [|x l IH]; cbn; [done|]. by rewrite negb_andb, IH. Qed.

(** Transactions with the same kinds, in any order and number, are attributed
    alike. *)
Lemma classify_kinds sender known allocators sentinels curator owner events events' :
  (forall kind, kind ∈ (de_kind <$> events) <-> kind ∈ (de_kind <$> events')) ->
  classify_transaction sender known allocators sentinels curator owner events =
  classify_transaction sender known allocators sentinels curator owner events'.
Proof.
  intros Hk.
  assert (Hany : forall p, any_kind events p = any_kind events' p).
  { intros p. apply eq_true_iff_eq. rewrite !any_kind_spec. set_solver. }
  assert (Hempty : bool_decide (events = []) = bool_decide (events' = [])).
  { apply bool_decide_ext. destruct events as [|e l], events' as [|e' l']; [done| | |done].
    - specialize (Hk (de_kind e')). cbn in Hk. rewrite elem_of_cons, elem_of_nil in Hk. naive_solver.
    - specialize (Hk (de_kind e)). cbn in Hk. rewrite elem_of_cons, elem_of_nil in Hk. naive_solver. }
  assert (Hall : forallb (fun event => is_kind WatchedTransfer (de_kind event)) events =
                 forallb (fun event => is_kind WatchedTransfer (de_kind event)) events').
  { specialize (Hany (fun kind => negb (is_kind WatchedTransfer kind))). unfold any_kind in Hany.
    rewrite <-(negb_involutive (forallb _ events)), <-(negb_involutive (forallb _ events')).
    f_equal. by rewrite !negb_forallb. }
  unfold classify_transaction. by rewrite !Hany, Hempty, Hall.
Qed.
