(* ===== verification/Conformance.v ===== *)
(** * Receipt conformance

    [reconciliation/conformance.rs], with [expected_action_records] of
    [transaction/final_preflight.rs]: the check that the receipt of a
    confirmed transaction shows exactly the effects of the released plan, and
    the durable step to [ConformanceValidated]. *)
From Stdlib Require Import ZArith Lia String Ascii.
From stdpp Require Import base gmap sets strings list.
From S2P Require Import Prelude.
From S2P Require Import Domain.
From S2P Require Import Config.
From S2P Require Import Caps.
From S2P Require Import Projection.
From S2P Require Import Simulator.
From S2P Require Import Models.
From S2P Require Import Storage.
From S2P Require Import Actor.
From S2P Require Import Calldata.
From S2P Require Import Firewall.
From S2P Require Import Signer.
From S2P Require Import Text.
From S2P Require Import Provider.
From S2P Require Import ProtocolLock.
From S2P Require Import Revision.
From S2P Require Import Logs.
Open Scope Z_scope.

(** ** Expected effects *)

Record ConformanceExpectation : Type := mkConformanceExpectation {
  ce_transaction_id : TransactionId;
  ce_transaction_hash : B256;
  ce_transaction : RoutineTransactionFields;
  ce_actions : list ExpectedActionRecord;
  ce_vault : VaultAddress;
  ce_morpho : Address;
  ce_asset : Address;
}.

Record ConformanceReport : Type := mkConformanceReport {
  cp_transaction_id : TransactionId;
  cp_transaction_hash : B256;
  cp_block_number : Z;
  cp_block_hash : B256;
  cp_action_count : Z;
  cp_movement_assets : Z;
  cp_positive_loss_assets : Z;
  cp_report_hash : B256;
}.

Inductive ConformanceError : Type :=
  | CfIdentity | CfStatus | CfLogOrder | CfDecode | CfVaultEvent | CfAdapterEvent
  | CfMorphoEvent | CfTransfer | CfExpectedAction | CfReport.

Record VaultAction : Type := mkVaultAction {
  va_kind : ExpectedActionKind;
  va_sender : Address;
  va_adapter : Address;
  va_assets : Z;
  va_ids : list B256;
  va_change : Z;
}.
#[global] Instance VaultAction_eq_dec : EqDecision VaultAction.
Proof. solve_decision. Defined.

Record AdapterAction : Type := mkAdapterAction {
  aa_kind : ExpectedActionKind;
  aa_adapter : Address;
  aa_market : B256;
  aa_new_allocation : Z;
  aa_changed_shares : Z;
}.

Record MorphoAction : Type := mkMorphoAction {
  ma_kind : ExpectedActionKind;
  ma_market : B256;
  ma_caller : Address;
  ma_on_behalf : Address;
  ma_receiver : option Address;
  ma_assets : Z;
  ma_shares : Z;
}.

Record AssetTransfer : Type := mkAssetTransfer {
  at_from : Address;
  at_to : Address;
  at_value : Z;
}.
#[global] Instance AssetTransfer_eq_dec : EqDecision AssetTransfer.
Proof. solve_decision. Defined.

(** ** Identity and order of the receipt *)

Definition observed_quantity (field : string) (value : option string)
    : result ConformanceError Z :=
  value ← ok_or value CfIdentity;
  map_err (fun _ => CfIdentity) (parse_quantity field value).

Definition validate_identity (expectation : ConformanceExpectation) (observed : RpcTransaction)
    (receipt : CanonicalReceiptRecord) : result ConformanceError unit :=
  let transaction := ce_transaction expectation in
  observed_block ← observed_quantity "transaction.blockNumber" (rx_block_number observed);
  observed_index ← observed_quantity "transaction.transactionIndex" (rx_transaction_index observed);
  if negb (ce_transaction_hash expectation =? cr_transaction_hash receipt)
     || negb (rx_hash observed =? cr_transaction_hash receipt)
     || negb (rx_from observed =? rt_from transaction)
     || negb (bool_decide (rx_to observed = Some (rt_to transaction)))
     || negb (rx_value observed =? 0)
     || negb (rx_value observed =? rt_value transaction)
     || negb (bool_decide (rx_input observed = rt_calldata transaction))
     || negb (bool_decide (rx_block_hash observed = Some (cr_block_hash receipt)))
     || negb (observed_block =? cr_block_number receipt)
     || negb (observed_index =? cr_transaction_index receipt)
     || negb (cr_chain_id receipt =? rt_chain_id transaction)
  then Err CfIdentity
  else Ok tt.

Definition validate_log_order (receipt : CanonicalReceiptRecord) : result ConformanceError unit :=
  if negb (forallb (log_of_receipt receipt) (cr_logs receipt))
     || negb (strictly_increasing cl_log_index (cr_logs receipt))
  then Err CfLogOrder
  else Ok tt.

Fixpoint raw_topics (ended : bool) (topics : list (option B256))
    : result ConformanceError (list B256) :=
  match topics with
  | [] => Ok []
  | Some topic :: rest =>
      if ended then Err CfLogOrder else rest ← raw_topics ended rest; Ok (topic :: rest)
  | None :: rest => raw_topics true rest
  end.

Definition raw_log (log : CanonicalLogRecord) : result ConformanceError RawEventLog :=
  let '(a, b, c, d) := cl_topics log in
  topics ← raw_topics false [a; b; c; d];
  Ok (mkRawEventLog (cl_address log) topics (cl_data log)).

(** ** Events in the vocabulary of the plan *)

Definition normalize_vault (event : ProtocolEvent) : result ConformanceError VaultAction :=
  match event with
  | EventVault (VaultEvent.Allocate sender adapter assets ids change) =>
      Ok (mkVaultAction ExpectAllocate sender adapter assets ids change)
  | EventVault (VaultEvent.Deallocate sender adapter assets ids change) =>
      Ok (mkVaultAction ExpectDeallocate sender adapter assets ids change)
  | _ => Err CfVaultEvent
  end.

Definition normalize_adapter (adapter : Address) (event : ProtocolEvent)
    : result ConformanceError AdapterAction :=
  match event with
  | EventAdapter (AdapterEvent.Allocate marketId newAllocation mintedShares) =>
      Ok (mkAdapterAction ExpectAllocate adapter marketId newAllocation mintedShares)
  | EventAdapter (AdapterEvent.Deallocate marketId newAllocation burnedShares) =>
      Ok (mkAdapterAction ExpectDeallocate adapter marketId newAllocation burnedShares)
  | _ => Err CfAdapterEvent
  end.

Definition normalize_morpho (event : ProtocolEvent) : result ConformanceError MorphoAction :=
  match event with
  | EventMorpho (MorphoEvent.Supply id caller onBehalf assets shares) =>
      Ok (mkMorphoAction ExpectAllocate id caller onBehalf None assets shares)
  | EventMorpho (MorphoEvent.Withdraw id caller onBehalf receiver assets shares) =>
      Ok (mkMorphoAction ExpectDeallocate id caller onBehalf (Some receiver) assets shares)
  | _ => Err CfMorphoEvent
  end.

Definition normalize_transfer (event : ProtocolEvent) : result ConformanceError AssetTransfer :=
  match event with
  | EventToken (Erc20Transfer from to value) => Ok (mkAssetTransfer from to value)
  | _ => Err CfTransfer
  end.

(** The loop's locals. *)
Record ReceiptScan : Type := mkReceiptScan {
  rs_vault_actions : list VaultAction;
  rs_adapter_actions : list AdapterAction;
  rs_morpho_actions : list MorphoAction;
  rs_transfers : list AssetTransfer;
}.

Definition direct_actions (actions : list ExpectedActionRecord) : list ExpectedActionRecord :=
  List.filter (fun action => bool_decide (ea_adapter_kind action = DirectMarket)) actions.

Definition decode_error (e : EventDecodeError) : ConformanceError := CfDecode.

Section Scan.
Context `{HE : EventAbi}.

Definition scan_log (expectation : ConformanceExpectation) (adapters : gset Address)
    (scan : ReceiptScan) (log : CanonicalLogRecord) : result ConformanceError ReceiptScan :=
  let '(mkReceiptScan vault_actions adapter_actions morpho_actions transfers) := scan in
  raw ← raw_log log;
  if cl_address log =? ce_vault expectation then
    decoded ← map_err decode_error (decode_event (SourceVault (ce_vault expectation)) raw);
    match de_kind decoded with
    | WatchedVault (VaultEventKind.Allocate | VaultEventKind.Deallocate) =>
        action ← normalize_vault (de_event decoded);
        Ok (mkReceiptScan (vault_actions ++ [action]) adapter_actions morpho_actions transfers)
    | WatchedVault VaultEventKind.AccrueInterest => Ok scan
    | _ => Err CfVaultEvent
    end
  else if bool_decide (cl_address log ∈ adapters) then
    decoded ← map_err decode_error (decode_event (SourceAdapter (cl_address log)) raw);
    match de_kind decoded with
    | WatchedAdapter (AdapterEventKind.Allocate | AdapterEventKind.Deallocate) =>
        action ← normalize_adapter (cl_address log) (de_event decoded);
        Ok (mkReceiptScan vault_actions (adapter_actions ++ [action]) morpho_actions transfers)
    | _ => Err CfAdapterEvent
    end
  else if cl_address log =? ce_morpho expectation then
    decoded ← map_err decode_error (decode_event (SourceMorpho (ce_morpho expectation)) raw);
    match de_kind decoded with
    | WatchedMorpho (MorphoEventKind.Supply | MorphoEventKind.Withdraw) =>
        action ← normalize_morpho (de_event decoded);
        Ok (mkReceiptScan vault_actions adapter_actions (morpho_actions ++ [action]) transfers)
    | WatchedMorpho MorphoEventKind.AccrueInterest => Ok scan
    | _ => Err CfMorphoEvent
    end
  else if cl_address log =? ce_asset expectation then
    decoded ← map_err decode_error (decode_event (SourceToken (ce_asset expectation)) raw);
    transfer ← normalize_transfer (de_event decoded);
    Ok (mkReceiptScan vault_actions adapter_actions morpho_actions (transfers ++ [transfer]))
  else Ok scan.
End Scan.

(** ** The plan's effects in the same vocabulary *)

Definition expected_vault (expectation : ConformanceExpectation) : list VaultAction :=
  (fun action => mkVaultAction (ea_kind action) (rt_from (ce_transaction expectation))
     (ea_adapter action) (ea_requested_assets action) (ea_returned_cap_ids action)
     (ea_allocation_change action)) <$> ce_actions expectation.

Definition expected_adapter (expectation : ConformanceExpectation) : list AdapterAction :=
  (fun action => mkAdapterAction (ea_kind action) (ea_adapter action) (ea_market action)
     (ea_expected_assets_after action) (ea_changed_shares action))
  <$> direct_actions (ce_actions expectation).

(** The Morpho account of an action: the adapter, or the wrapped vault. *)
Definition action_account (action : ExpectedActionRecord) : result ConformanceError Address :=
  match ea_adapter_kind action with
  | DirectMarket => Ok (ea_adapter action)
  | ExpectedMorphoVaultV1Idle => ok_or (ea_intermediary action) CfExpectedAction
  end.

Definition expected_morpho_action (action : ExpectedActionRecord)
    : result ConformanceError MorphoAction :=
  account ← action_account action;
  Ok (mkMorphoAction (ea_kind action) (ea_market action) account account
        (if bool_decide (ea_kind action = ExpectDeallocate) then Some account else None)
        (ea_requested_assets action) (ea_changed_shares action)).

Definition action_transfers (vault morpho : Address) (action : ExpectedActionRecord)
    : result ConformanceError (list AssetTransfer) :=
  let adapter := ea_adapter action in
  let value := ea_requested_assets action in
  match ea_adapter_kind action, ea_kind action with
  | DirectMarket, ExpectAllocate =>
      Ok [mkAssetTransfer vault adapter value; mkAssetTransfer adapter morpho value]
  | DirectMarket, ExpectDeallocate =>
      Ok [mkAssetTransfer morpho adapter value; mkAssetTransfer adapter vault value]
  | ExpectedMorphoVaultV1Idle, ExpectAllocate =>
      intermediary ← ok_or (ea_intermediary action) CfExpectedAction;
      Ok [mkAssetTransfer vault adapter value; mkAssetTransfer adapter intermediary value;
          mkAssetTransfer intermediary morpho value]
  | ExpectedMorphoVaultV1Idle, ExpectDeallocate =>
      intermediary ← ok_or (ea_intermediary action) CfExpectedAction;
      Ok [mkAssetTransfer morpho intermediary value; mkAssetTransfer intermediary adapter value;
          mkAssetTransfer adapter vault value]
  end.

Definition expected_transfers (expectation : ConformanceExpectation)
    : result ConformanceError (list AssetTransfer) :=
  groups ← try_map (action_transfers (ce_vault expectation) (ce_morpho expectation))
             (ce_actions expectation);
  Ok (concat groups).

(** [observed.len() == expected.len() && zip(..).all(..)]. *)
Definition all_match {A B} (matches : A -> B -> bool) (observed : list A) (expected : list B)
    : bool :=
  (length observed =? length expected)%nat
  && forallb (fun pair => matches pair.1 pair.2) (zip observed expected).

Definition adapter_actions_match_expected (observed expected : list AdapterAction) : bool :=
  all_match (fun observed expected =>
    bool_decide (aa_kind observed = aa_kind expected)
    && (aa_adapter observed =? aa_adapter expected)
    && (aa_market observed =? aa_market expected)
    && (aa_new_allocation observed =? aa_new_allocation expected)
    && negb (aa_changed_shares observed =? 0)) observed expected.

Definition morpho_actions_match_expected (observed expected : list MorphoAction) : bool :=
  all_match (fun observed expected =>
    bool_decide (ma_kind observed = ma_kind expected)
    && (ma_market observed =? ma_market expected)
    && (ma_caller observed =? ma_caller expected)
    && (ma_on_behalf observed =? ma_on_behalf expected)
    && bool_decide (ma_receiver observed = ma_receiver expected)
    && (ma_assets observed =? ma_assets expected)
    && negb (ma_shares observed =? 0)) observed expected.

Definition adapter_shares_match_morpho (adapters : list AdapterAction)
    (morpho : list MorphoAction) : bool :=
  forallb (fun adapter =>
    existsb (fun action =>
      bool_decide (ma_kind action = aa_kind adapter)
      && (ma_market action =? aa_market adapter)
      && (ma_caller action =? aa_adapter adapter)
      && (ma_on_behalf action =? aa_adapter adapter)
      && (ma_shares action =? aa_changed_shares adapter)) morpho) adapters.

(** ** The report *)

(** [serde_json::to_vec] of a report. *)
Class ReportJson : Type := report_json : ConformanceReport -> option Bytes.

(** Allocated, deallocated and lost assets of the actions so far. *)
Definition add_totals (totals : Z * Z * Z) (action : ExpectedActionRecord)
    : result ConformanceError (Z * Z * Z) :=
  let '(allocated, deallocated, positive_loss) := totals in
  let assets := ea_requested_assets action in
  moved ← match ea_kind action with
          | ExpectAllocate =>
              allocated ← ok_or (checked_add U256_MAX allocated assets) CfReport;
              Ok (allocated, deallocated)
          | ExpectDeallocate =>
              deallocated ← ok_or (checked_add U256_MAX deallocated assets) CfReport;
              Ok (allocated, deallocated)
          end;
  positive_loss ← ok_or (checked_add U256_MAX positive_loss (ea_positive_loss_assets action))
                    CfReport;
  Ok (moved, positive_loss).

Section Conformance.
Context `{HK : Keccak} `{HE : EventAbi} `{HR : ReportJson}.

Definition with_report_hash (report : ConformanceReport) (hash : B256) : ConformanceReport :=
  mkConformanceReport (cp_transaction_id report) (cp_transaction_hash report)
    (cp_block_number report) (cp_block_hash report) (cp_action_count report)
    (cp_movement_assets report) (cp_positive_loss_assets report) hash.

Definition build_report (expectation : ConformanceExpectation) (receipt : CanonicalReceiptRecord)
    : result ConformanceError ConformanceReport :=
  '(allocated, deallocated, positive_loss) ← try_fold add_totals (0, 0, 0)
                                                (ce_actions expectation);
  action_count ← ok_or (try_from_u U64_MAX (Z.of_nat (length (ce_actions expectation)))) CfReport;
  let report := mkConformanceReport (ce_transaction_id expectation)
    (ce_transaction_hash expectation) (cr_block_number receipt) (cr_block_hash receipt)
    action_count (Z.max allocated deallocated) positive_loss 0 in
  text ← ok_or (report_json report) CfReport;
  Ok (with_report_hash report (keccak256 text)).

(** The intermediary is present exactly when the adapter kind has one. *)
Definition intermediary_invalid (action : ExpectedActionRecord) : bool :=
  match ea_adapter_kind action with
  | DirectMarket => bool_decide (is_Some (ea_intermediary action))
  | ExpectedMorphoVaultV1Idle =>
      match ea_intermediary action with None => true | Some address => address =? 0 end
  end.

Definition scan_receipt (expectation : ConformanceExpectation) (receipt : CanonicalReceiptRecord)
    : result ConformanceError ReceiptScan :=
  let adapters := list_to_set (ea_adapter <$> direct_actions (ce_actions expectation)) in
  try_fold (scan_log expectation adapters) (mkReceiptScan [] [] [] []) (cr_logs receipt).

Definition validate_receipt_conformance (expectation : ConformanceExpectation)
    (observed : RpcTransaction) (receipt : CanonicalReceiptRecord)
    : result ConformanceError ConformanceReport :=
  _ ← validate_identity expectation observed receipt;
  if existsb intermediary_invalid (ce_actions expectation) then Err CfExpectedAction
  else if negb (bool_decide (cr_status receipt = Some 1)) then Err CfStatus
  else
    _ ← validate_log_order receipt;
    scan ← scan_receipt expectation receipt;
    if negb (bool_decide (rs_vault_actions scan = expected_vault expectation))
    then Err CfVaultEvent
    else if negb (adapter_actions_match_expected (rs_adapter_actions scan)
                    (expected_adapter expectation)) then Err CfAdapterEvent
    else
      expected_morpho ← try_map expected_morpho_action (ce_actions expectation);
      if negb (morpho_actions_match_expected (rs_morpho_actions scan) expected_morpho)
      then Err CfMorphoEvent
      else if negb (adapter_shares_match_morpho (rs_adapter_actions scan)
                      (rs_morpho_actions scan)) then Err CfAdapterEvent
      else
        transfers ← expected_transfers expectation;
        if negb (bool_decide (rs_transfers scan = transfers)) then Err CfTransfer
        else build_report expectation receipt.
End Conformance.

Definition validate_expected_action_identity (action : ExpectedActionRecord)
    (adapter : AdapterAddress) (market : MarketId) : result ConformanceError unit :=
  if negb (ea_adapter action =? adapter) || negb (ea_market action =? market)
  then Err CfExpectedAction
  else Ok tt.

Definition same_action_identity (preflight inclusion : list ExpectedActionRecord) : bool :=
  all_match (fun before after =>
    bool_decide (ea_kind before = ea_kind after)
    && (ea_position before =? ea_position after)
    && (ea_adapter before =? ea_adapter after)
    && (ea_market before =? ea_market after)
    && (ea_requested_assets before =? ea_requested_assets after)
    && bool_decide (ea_returned_cap_ids before = ea_returned_cap_ids after)) preflight inclusion.

(** ** Expected actions of a simulated plan *)

Section Expected.
Context `{HK : Keccak} `{HA : AbiParams} `{HC : AbiCaps}.

Definition expected_action_record (vault : ValidatedVaultConfig)
    (pair : V2Action * ActionProjection) : option ExpectedActionRecord :=
  let '(action, projection) := pair in
  let kind := if is_allocation action then ExpectAllocate else ExpectDeallocate in
  let position := action_position action in
  let adapter := action_adapter action in
  let requested_assets := action_assets action in
  if negb (act_position projection =? position)
     || negb (act_requested_assets projection =? requested_assets)
  then None
  else
    let record adapter_kind intermediary market cap_ids :=
      mkExpectedActionRecord kind adapter_kind position adapter intermediary market
        requested_assets (act_changed_shares projection) (act_expected_assets_after projection)
        cap_ids (act_allocation_change projection) (act_positive_loss_assets projection) in
    let direct :=
      configured ← find (fun configured => pc_position_key configured =? position)
                     (vv_positions vault);
      if negb (pc_adapter configured =? adapter) then None
      else
        let '(a, b, c) :=
          cap_data_ids (direct_position_cap_data adapter (pc_market_params configured)) in
        Some (record DirectMarket None (pc_market_id configured) [a; b; c]) in
    match vv_liquidity_adapter vault with
    | Some configured =>
        if lac_position_key configured =? position then
          if negb (lac_address configured =? adapter) then None
          else Some (record ExpectedMorphoVaultV1Idle (Some (lac_morpho_vault_v1 configured))
                       (derive_market_id (mkMarketParams (vv_asset vault) 0 0 0 0))
                       [adapter_cap_id adapter])
        else direct
    | None => direct
    end.

(** [None] is [PreflightError::Firewall(FirewallError::Action)]. *)
Definition expected_action_records (plan : ValidatedPlan) (projections : list ActionProjection)
    (vault : ValidatedVaultConfig) : option (list ExpectedActionRecord) :=
  if negb (length (actions plan) =? length projections)%nat then None
  else opt_map (expected_action_record vault) (zip (actions plan) projections).
End Expected.

(** ** Reconciling a confirmed transaction *)

Inductive ReceiptReconciliationError : Type :=
  | RrStorage (e : StorageError)
  | RrProvider (e : ProviderError)
  | RrMissingCanonicalAttempt
  | RrTransactionUnavailable
  | RrFeeRange
  | RrModel
  | RrConformance (e : ConformanceError).

(** [eth_getTransactionByHash]. *)
Class TransactionLookupProvider : Type :=
  transaction_by_hash : B256 -> result ProviderError (option RpcTransaction).

(** One storage query: the actor answers from the current state. *)
Definition query {A} (f : JsonState -> result StorageError A) : io StorageError A := fun w =>
  (f (w_storage w), w).

Definition conformance_record (report : ConformanceReport) (validated_at : Z) : ConformanceRecord :=
  mkConformanceRecord (cp_transaction_id report) (cp_transaction_hash report)
    (cp_block_number report) (cp_block_hash report) (cp_action_count report)
    (cp_movement_assets report) (cp_positive_loss_assets report) (cp_report_hash report)
    validated_at.

Section Reconcile.
Context `{HK : Keccak} `{HA : AbiParams} `{HC : AbiCaps} `{HJ : PlanJson} `{HB : VaultAbi}.
Context `{HE : EventAbi} `{HR : ReportJson} `{HP : TransactionLookupProvider}.

(** The transaction the reservation was signed for. *)
Definition reserved_transaction (config : ValidatedConfig) (reservation : NonceReservation)
    : result ReceiptReconciliationError RoutineTransactionFields :=
  max_fee ← ok_or (try_from_u U128_MAX (nr_max_fee_per_gas reservation)) RrFeeRange;
  max_priority_fee ←
    ok_or (try_from_u U128_MAX (nr_max_priority_fee_per_gas reservation)) RrFeeRange;
  Ok (mkRoutineTransactionFields (vc_chain_id (ac_chain (vg_app config))) (nr_signer reservation)
        (nr_vault reservation) (nr_nonce reservation) (nr_gas_limit reservation) max_fee
        max_priority_fee 0 (nr_calldata reservation)).

(** The plan's effects replayed on the state of the inclusion block. *)
Definition inclusion_actions (config : ValidatedConfig) (vault : ValidatedVaultConfig)
    (pending : PendingConformance) : result ReceiptReconciliationError (list ExpectedActionRecord) :=
  validated ← map_err (fun _ => RrModel) (validate_historical_plan (pc_plan pending) config);
  projection ← map_err (fun _ => RrModel)
    (project_snapshot_to_head (pc_snapshot pending) (pc_inclusion_head pending) vault);
  simulated ← map_err (fun _ => RrModel)
    (simulate_actions (pc_snapshot pending) projection vault (actions validated));
  actions ← ok_or (expected_action_records validated (ss_actions simulated) vault) RrModel;
  if negb (same_action_identity (pc_expected_actions pending) actions) then Err RrModel
  else Ok actions.

Definition canonical_attempt (pending : PendingConformance)
    (receipts : list CanonicalReceiptRecord) : option CanonicalReceiptRecord :=
  match List.filter (fun receipt =>
          (cr_block_hash receipt =? pc_included_block_hash pending)
          && bool_decide (cr_transaction_hash receipt ∈ pc_known_transaction_hashes pending))
          receipts with
  | [receipt] => Some receipt
  | _ => None
  end.

Definition reconcile_confirmed_transaction (transaction_id : TransactionId)
    (config : ValidatedConfig) (vault : ValidatedVaultConfig) (validated_at : Z)
    : io ReceiptReconciliationError ConformanceReport :=
  pending ← from_storage RrStorage (query (fun s => load_pending_conformance s transaction_id));
  pending ← io_lift id (ok_or pending RrMissingCanonicalAttempt);
  receipts ← from_storage RrStorage (query (fun s =>
    Ok (load_canonical_receipts s (vc_chain_id (ac_chain (vg_app config)))
          (pc_included_block pending))));
  receipt ← io_lift id (ok_or (canonical_attempt pending receipts) RrMissingCanonicalAttempt);
  observed ← io_lift RrProvider (transaction_by_hash (cr_transaction_hash receipt));
  observed ← io_lift id (ok_or observed RrTransactionUnavailable);
  transaction ← io_lift id (reserved_transaction config (pc_reservation pending));
  actions ← io_lift id (inclusion_actions config vault pending);
  let expectation := mkConformanceExpectation transaction_id (cr_transaction_hash receipt)
    transaction actions (nr_vault (pc_reservation pending))
    (vc_morpho_blue (ac_chain (vg_app config))) (vv_asset vault) in
  report ← io_lift RrConformance (validate_receipt_conformance expectation observed receipt);
  _ ← from_storage RrStorage (call (PersistConformance (conformance_record report validated_at)));
  mret report.
End Reconcile.
