(* ===== verification/ConformanceProofs.v ===== *)
(** * What a conforming receipt shows

    The checks of [Conformance] as one record over the receipt's own logs, the
    net asset flow they imply, and the durable step a successful
    reconciliation takes. *)
From Stdlib Require Import ZArith Lia String.
From stdpp Require Import base gmap sets strings list.
From S2P Require Import Prelude.
From S2P Require Import Domain.
From S2P Require Import Config.
From S2P Require Import Caps.
From S2P Require Import Projection.
From S2P Require Import Simulator.
From S2P Require Import Models.
From S2P Require Import Storage.
From S2P Require Import Actor.
From S2P Require Import StorageProofs.
From S2P Require Import Calldata.
From S2P Require Import Firewall.
From S2P Require Import Signer.
From S2P Require Import SigningProofs.
From S2P Require Import ProtocolLock.
From S2P Require Import Revision.
From S2P Require Import Logs.
From S2P Require Import Text.
From S2P Require Import Provider.
From S2P Require Import Conformance.
Open Scope Z_scope.

(** ** The events of a receipt *)

Definition plan_adapters (expectation : ConformanceExpectation) : gset Address :=
  list_to_set (ea_adapter <$> direct_actions (ce_actions expectation)).

(** The role a log's address has in the plan, when it has one. *)
Definition log_role (expectation : ConformanceExpectation) (log : CanonicalLogRecord)
    : option EventSource :=
  if cl_address log =? ce_vault expectation then Some (SourceVault (ce_vault expectation))
  else if bool_decide (cl_address log ∈ plan_adapters expectation)
  then Some (SourceAdapter (cl_address log))
  else if cl_address log =? ce_morpho expectation then Some (SourceMorpho (ce_morpho expectation))
  else if cl_address log =? ce_asset expectation then Some (SourceToken (ce_asset expectation))
  else None.

Section Events.
Context `{HE : EventAbi}.

Definition log_event (expectation : ConformanceExpectation) (log : CanonicalLogRecord)
    : option DecodedEvent :=
  source ← log_role expectation log;
  raw ← to_option (raw_log log);
  to_option (decode_event source raw).

(** Every event the plan's contracts emitted, in log order. *)
Definition receipt_events (expectation : ConformanceExpectation) (receipt : CanonicalReceiptRecord)
    : list DecodedEvent :=
  omap (log_event expectation) (cr_logs receipt).
End Events.

Definition vault_action_of (event : DecodedEvent) : option VaultAction :=
  match de_kind event with
  | WatchedVault (VaultEventKind.Allocate | VaultEventKind.Deallocate) =>
      to_option (normalize_vault (de_event event))
  | _ => None
  end.

Definition adapter_action_of (event : DecodedEvent) : option AdapterAction :=
  match de_source event, de_kind event with
  | SourceAdapter adapter, WatchedAdapter (AdapterEventKind.Allocate | AdapterEventKind.Deallocate) =>
      to_option (normalize_adapter adapter (de_event event))
  | _, _ => None
  end.

Definition morpho_action_of (event : DecodedEvent) : option MorphoAction :=
  match de_kind event with
  | WatchedMorpho (MorphoEventKind.Supply | MorphoEventKind.Withdraw) =>
      to_option (normalize_morpho (de_event event))
  | _ => None
  end.

Definition transfer_of (event : DecodedEvent) : option AssetTransfer :=
  match de_kind event with
  | WatchedTransfer => to_option (normalize_transfer (de_event event))
  | _ => None
  end.

(** The only events a routine receipt may show. *)
Definition routine_kind (kind : WatchedEventKind) : bool :=
  match kind with
  | WatchedVault (VaultEventKind.Allocate | VaultEventKind.Deallocate
                 | VaultEventKind.AccrueInterest)
  | WatchedAdapter (AdapterEventKind.Allocate | AdapterEventKind.Deallocate)
  | WatchedMorpho (MorphoEventKind.Supply | MorphoEventKind.Withdraw
                  | MorphoEventKind.AccrueInterest)
  | WatchedTransfer => true
  | _ => false
  end.

(** ** Asset flow *)

Definition indicator (b : bool) : Z := if b then 1 else 0.

(** What an account received, less what it sent. *)
Definition net_flow (account : Address) (transfers : list AssetTransfer) : Z :=
  list_sum ((fun t => at_value t * (indicator (at_to t =? account)
                                    - indicator (at_from t =? account))) <$> transfers).

Definition moved_by (kind : ExpectedActionKind) (actions : list ExpectedActionRecord) : Z :=
  list_sum (ea_requested_assets <$>
            List.filter (fun action => bool_decide (ea_kind action = kind)) actions).

Lemma net_flow_app account l l' : net_flow account (l ++ l') = net_flow account l + net_flow account l'.
Proof. unfold net_flow. by rewrite fmap_app, list_sum_app. Qed.

Lemma moved_by_cons kind action actions :
  moved_by kind (action :: actions) =
  indicator (bool_decide (ea_kind action = kind)) * ea_requested_assets action
  + moved_by kind actions.
Proof.
  unfold moved_by. cbn [List.filter]. case_bool_decide; cbn [indicator]; [|lia].
  rewrite fmap_cons, list_sum_cons. lia.
Qed.

(** Evaluates the tests of a known action kind. *)
Ltac kind_tests :=
  change (bool_decide (ExpectAllocate = ExpectAllocate)) with true;
  change (bool_decide (ExpectDeallocate = ExpectDeallocate)) with true;
  change (bool_decide (ExpectAllocate = ExpectDeallocate)) with false;
  change (bool_decide (ExpectDeallocate = ExpectAllocate)) with false;
  cbn [indicator].

(** Each action moves its assets along a path between the vault and Morpho. *)
Lemma action_net_flow vault morpho action transfers account :
  action_transfers vault morpho action = Ok transfers ->
  net_flow account transfers =
    (indicator (bool_decide (ea_kind action = ExpectAllocate))
     - indicator (bool_decide (ea_kind action = ExpectDeallocate)))
    * ea_requested_assets action
    * (indicator (morpho =? account) - indicator (vault =? account)).
Proof.
  unfold action_transfers, net_flow. intros H.
  destruct (ea_adapter_kind action), (ea_kind action); inv_ok;
    rewrite !fmap_cons, !list_sum_cons; cbn [fmap list_fmap list_sum foldr at_value at_to at_from];
    kind_tests; ring.
Qed.

(** So a plan's transfers leave every account but the two ends unchanged. *)
Lemma plan_net_flow vault morpho actions groups account :
  try_map (action_transfers vault morpho) actions = Ok groups ->
  net_flow account (concat groups) =
    (moved_by ExpectAllocate actions - moved_by ExpectDeallocate actions)
    * (indicator (morpho =? account) - indicator (vault =? account)).
Proof.
  revert groups. induction actions as [|action actions IH]; intros groups; cbn [try_map]; intros H.
  - inv_ok. done.
  - step_ok H as transfers Ht. step_ok H as rest Hr. inv_ok. cbn [concat].
    rewrite net_flow_app, (action_net_flow _ _ _ _ _ Ht), (IH _ Hr), !moved_by_cons. ring.
Qed.

(** ** The report *)

Lemma add_totals_fold l allocated deallocated loss allocated' deallocated' loss' :
  try_fold add_totals (allocated, deallocated, loss) l = Ok (allocated', deallocated', loss') ->
  allocated' = allocated + moved_by ExpectAllocate l /\
  deallocated' = deallocated + moved_by ExpectDeallocate l /\
  loss' = loss + list_sum (ea_positive_loss_assets <$> l).
Proof.
  revert allocated deallocated loss. induction l as [|action l IH]; intros a d p; cbn [try_fold].
  - intros H. inv_ok. cbn. unfold moved_by. cbn. lia.
  - intros H. step_ok H as totals Ht. unfold add_totals in Ht. step_ok Ht as moved Hm.
    step_ok Ht as loss1 Hl. rewrite !moved_by_cons, fmap_cons, list_sum_cons.
    destruct (ea_kind action); inv_ok; destruct (IH _ _ _ H) as (-> & -> & ->);
      kind_tests; lia.
Qed.

(** ** The scan collects the events *)

Section Scanned.
Context `{HE : EventAbi}.

Definition scan_events (scan : ReceiptScan) (events : list DecodedEvent) : ReceiptScan :=
  mkReceiptScan (rs_vault_actions scan ++ omap vault_action_of events)
    (rs_adapter_actions scan ++ omap adapter_action_of events)
    (rs_morpho_actions scan ++ omap morpho_action_of events)
    (rs_transfers scan ++ omap transfer_of events).

(** A watched log decodes under its role to a routine event. *)
Definition log_routine (expectation : ConformanceExpectation) (log : CanonicalLogRecord) : Prop :=
  is_Some (log_role expectation log) ->
  exists event, log_event expectation log = Some event /\ routine_kind (de_kind event) = true.

Lemma decode_event_source source raw event : decode_event source raw = Ok event -> de_source event = source.
Proof. unfold decode_event. intros H. inv_ok. done. Qed.

Lemma decode_event_family source raw event :
  decode_event source raw = Ok event ->
  match source, de_kind event with
  | SourceVault _, WatchedVault _ | SourceAdapter _, WatchedAdapter _
  | SourceMorpho _, WatchedMorpho _ | SourceAdaptiveCurveIrm _, BorrowRateUpdate
  | SourceToken _, WatchedTransfer => True
  | _, _ => False
  end.
Proof.
  unfold decode_event. intros H. inv_ok. cbn. unfold decode_payload in *.
  destruct source; inv_ok; by simplify_eq.
Qed.

Lemma scan_events_nil scan : scan_events scan [] = scan.
Proof. destruct scan. unfold scan_events. cbn. by rewrite !app_nil_r. Qed.

(** One step appends what the log's event says. *)
Lemma scan_log_Ok expectation scan log scan' :
  scan_log expectation (plan_adapters expectation) scan log = Ok scan' ->
  log_routine expectation log /\
  scan' = scan_events scan (option_list (log_event expectation log)).
Proof.
  unfold scan_log, log_routine, log_event, log_role. destruct scan as [vs ads ms ts]. intros H.
  step_ok H as raw Hraw. rewrite Hraw.
  destruct (cl_address log =? ce_vault expectation); [|
    case_bool_decide; [|destruct (cl_address log =? ce_morpho expectation); [|
      destruct (cl_address log =? ce_asset expectation)]]].
  5: { inv_ok. cbn. split; [by intros []|]. by rewrite scan_events_nil. }
  all: step_ok H as event Hd; apply map_err_Ok in Hd; cbn [mbind option_bind to_option]; rewrite Hd;
    pose proof (decode_event_family _ _ _ Hd) as Hf; pose proof (decode_event_source _ _ _ Hd) as Hs.
  all: unfold scan_events, vault_action_of, adapter_action_of, morpho_action_of, transfer_of; cbn.
  all: rewrite ?Hs; destruct (de_kind event) as [[]|[]|[]| |] eqn:Hk; try done.
  all: try (step_ok H as action Ha; rewrite Ha); inv_ok; cbn; rewrite ?app_nil_r;
    (split; [|done]); intros _; exists event; by rewrite Hk.
Qed.

Lemma scan_events_app scan l l' : scan_events (scan_events scan l) l' = scan_events scan (l ++ l').
Proof. unfold scan_events. cbn. by rewrite !omap_app, !(assoc_L (++)). Qed.

Lemma scan_logs_Ok expectation logs scan scan' :
  try_fold (scan_log expectation (plan_adapters expectation)) scan logs = Ok scan' ->
  Forall (log_routine expectation) logs /\
  scan' = scan_events scan (omap (log_event expectation) logs).
Proof.
  revert scan. induction logs as [|log logs IH]; intros scan; cbn [try_fold]; intros H.
  - inv_ok. split; [constructor|]. by rewrite scan_events_nil.
  - step_ok H as scan1 H1. apply scan_log_Ok in H1 as [Hr ->].
    apply IH in H as [Hf ->]. split; [by constructor|].
    rewrite scan_events_app. f_equal. cbn. by destruct (log_event expectation log).
Qed.
End Scanned.

(** ** What acceptance means *)

Definition adapter_matches (observed : AdapterAction) (action : ExpectedActionRecord) : Prop :=
  aa_kind observed = ea_kind action /\ aa_adapter observed = ea_adapter action /\
  aa_market observed = ea_market action /\
  aa_new_allocation observed = ea_expected_assets_after action /\ aa_changed_shares observed <> 0.

(** [account] is the adapter, or the wrapped vault of an idle adapter. *)
Definition morpho_matches (observed : MorphoAction) (action : ExpectedActionRecord) : Prop :=
  exists account,
    match ea_adapter_kind action with
    | DirectMarket => account = ea_adapter action
    | ExpectedMorphoVaultV1Idle => ea_intermediary action = Some account
    end /\
    ma_kind observed = ea_kind action /\ ma_market observed = ea_market action /\
    ma_caller observed = account /\ ma_on_behalf observed = account /\
    ma_receiver observed = (if bool_decide (ea_kind action = ExpectDeallocate)
                            then Some account else None) /\
    ma_assets observed = ea_requested_assets action /\ ma_shares observed <> 0.

Record receipt_conforms `{EventAbi} (expectation : ConformanceExpectation)
    (observed : RpcTransaction) (receipt : CanonicalReceiptRecord) (report : ConformanceReport)
    : Prop := {
  (** The provider's transaction, the receipt and the signed one are one. *)
  rf_hash : cr_transaction_hash receipt = ce_transaction_hash expectation /\
    rx_hash observed = ce_transaction_hash expectation;
  rf_envelope : rx_from observed = rt_from (ce_transaction expectation) /\
    rx_to observed = Some (rt_to (ce_transaction expectation)) /\
    rx_input observed = rt_calldata (ce_transaction expectation) /\
    rx_value observed = 0 /\ rx_block_hash observed = Some (cr_block_hash receipt) /\
    cr_chain_id receipt = rt_chain_id (ce_transaction expectation);
  rf_status : cr_status receipt = Some 1;
  (** Its logs are its own, in strict order, and routine where they matter. *)
  rf_logs : Forall (fun log => log_of_receipt receipt log = true) (cr_logs receipt) /\
    strictly_increasing cl_log_index (cr_logs receipt) = true /\
    Forall (log_routine expectation) (cr_logs receipt);
  (** Its events are the plan's actions, in order, and nothing else. *)
  rf_vault : omap vault_action_of (receipt_events expectation receipt) = expected_vault expectation;
  rf_adapter : Forall2 adapter_matches
    (omap adapter_action_of (receipt_events expectation receipt))
    (direct_actions (ce_actions expectation));
  rf_morpho : Forall2 morpho_matches (omap morpho_action_of (receipt_events expectation receipt))
    (ce_actions expectation);
  rf_transfers : exists groups,
    try_map (action_transfers (ce_vault expectation) (ce_morpho expectation))
      (ce_actions expectation) = Ok groups /\
    omap transfer_of (receipt_events expectation receipt) = concat groups;
  (** The report sums the plan. *)
  rf_report : cp_transaction_id report = ce_transaction_id expectation /\
    cp_transaction_hash report = cr_transaction_hash receipt /\
    cp_block_number report = cr_block_number receipt /\
    cp_block_hash report = cr_block_hash receipt /\
    cp_action_count report = Z.of_nat (length (ce_actions expectation)) /\
    cp_movement_assets report = Z.max (moved_by ExpectAllocate (ce_actions expectation))
                                      (moved_by ExpectDeallocate (ce_actions expectation)) /\
    cp_positive_loss_assets report = list_sum (ea_positive_loss_assets <$> ce_actions expectation);
}.

Lemma all_match_Forall2 {A B} (m : A -> B -> bool) l k :
  all_match m l k = true -> Forall2 (fun a b => m a b = true) l k.
Proof.
  unfold all_match. intros [Hl Hz]%andb_true_iff. apply Nat.eqb_eq in Hl.
  revert k Hl Hz. induction l as [|a l IH]; intros [|b k]; try discriminate; [constructor|].
  cbn. intros [= Hl] [Ha Hz]%andb_true_iff. constructor; [done|]. by apply IH.
Qed.


(** An accepted receipt shows exactly the plan. *)
Lemma validate_identity_Ok expectation observed receipt u :
  validate_identity expectation observed receipt = Ok u ->
  (cr_transaction_hash receipt = ce_transaction_hash expectation /\
   rx_hash observed = ce_transaction_hash expectation) /\
  rx_from observed = rt_from (ce_transaction expectation) /\
  rx_to observed = Some (rt_to (ce_transaction expectation)) /\
  rx_input observed = rt_calldata (ce_transaction expectation) /\
  rx_value observed = 0 /\ rx_block_hash observed = Some (cr_block_hash receipt) /\
  cr_chain_id receipt = rt_chain_id (ce_transaction expectation).
Proof.
  unfold validate_identity. intros H. step_ok H as block Hb. step_ok H as index Hi.
  destruct (_ || _) eqn:E; [done|]. bool_spec E. destruct_and!. split_and!; congruence.
Qed.

Lemma adapter_match_expected observed action :
  let expected := mkAdapterAction (ea_kind action) (ea_adapter action) (ea_market action)
                    (ea_expected_assets_after action) (ea_changed_shares action) in
  bool_decide (aa_kind observed = aa_kind expected)
    && (aa_adapter observed =? aa_adapter expected)
    && (aa_market observed =? aa_market expected)
    && (aa_new_allocation observed =? aa_new_allocation expected)
    && negb (aa_changed_shares observed =? 0) = true ->
  adapter_matches observed action.
Proof. cbn. intros E. bool_spec E. unfold adapter_matches. naive_solver. Qed.

Lemma morpho_match_expected observed action expected :
  expected_morpho_action action = Ok expected ->
  bool_decide (ma_kind observed = ma_kind expected)
    && (ma_market observed =? ma_market expected)
    && (ma_caller observed =? ma_caller expected)
    && (ma_on_behalf observed =? ma_on_behalf expected)
    && bool_decide (ma_receiver observed = ma_receiver expected)
    && (ma_assets observed =? ma_assets expected)
    && negb (ma_shares observed =? 0) = true ->
  morpho_matches observed action.
Proof.
  unfold expected_morpho_action. intros H. step_ok H as account Ha. inv_ok. cbn. intros E.
  bool_spec E. unfold morpho_matches. exists account. split; [|naive_solver].
  unfold action_account in Ha. destruct (ea_adapter_kind action); by inv_ok.
Qed.

Lemma build_report_Ok `{Keccak} `{ReportJson} expectation receipt report :
  build_report expectation receipt = Ok report ->
  cp_transaction_id report = ce_transaction_id expectation /\
  cp_transaction_hash report = ce_transaction_hash expectation /\
  cp_block_number report = cr_block_number receipt /\
  cp_block_hash report = cr_block_hash receipt /\
  cp_action_count report = Z.of_nat (length (ce_actions expectation)) /\
  cp_movement_assets report = Z.max (moved_by ExpectAllocate (ce_actions expectation))
                                    (moved_by ExpectDeallocate (ce_actions expectation)) /\
  cp_positive_loss_assets report = list_sum (ea_positive_loss_assets <$> ce_actions expectation).
Proof.
  unfold build_report. intros Hb. step_ok Hb as totals Ht. destruct totals as [[a d] p].
  step_ok Hb as count Hc. step_ok Hb as text Hx. inv_ok.
  apply add_totals_fold in Ht as (-> & -> & ->). cbn. done.
Qed.

Lemma validate_receipt_conformance_Ok `{Keccak} `{EventAbi} `{ReportJson}
    expectation observed receipt report :
  validate_receipt_conformance expectation observed receipt = Ok report ->
  receipt_conforms expectation observed receipt report.
Proof.
  unfold validate_receipt_conformance. intros Hv. step_ok Hv as u Hid.
  apply validate_identity_Ok in Hid as (Hh & Henv).
  destruct (existsb _ _); [done|]. case_bool_decide as Hs; [|done]. cbn [negb] in Hv.
  step_ok Hv as u' Hlog. unfold validate_log_order in Hlog.
  destruct (_ || _) eqn:El; [done|]. bool_spec El. destruct El as [Hown Hinc].
  step_ok Hv as scan Hscan. apply scan_logs_Ok in Hscan as [Hr ->]. cbn [scan_events rs_vault_actions
    rs_adapter_actions rs_morpho_actions rs_transfers app] in Hv.
  case_bool_decide as Hva; [|done]. destruct (adapter_actions_match_expected _ _) eqn:Had; [|done].
  cbn [negb] in Hv. step_ok Hv as morpho Hm.
  destruct (morpho_actions_match_expected _ _) eqn:Hmo; [|done].
  destruct (adapter_shares_match_morpho _ _); [|done]. cbn [negb] in Hv.
  step_ok Hv as transfers Ht. case_bool_decide as Htr; [|done]. cbn [negb] in Hv.
  apply build_report_Ok in Hv as (R1 & R2 & Rr). unfold expected_transfers in Ht.
  step_ok Ht as groups Hg. inv_ok. apply all_match_Forall2 in Had, Hmo.
  apply try_map_Forall2 in Hm.
  split; [done|done|done| |done| | |by exists groups|by rewrite R2, (proj1 Hh)].
  - split_and!; [|done|done]. apply Forall_forall. intros log Hin.
    rewrite forallb_forall in Hown. by apply Hown, list_elem_of_In.
  - unfold expected_adapter in Had. rewrite Forall2_fmap_r in Had.
    eapply Forall2_impl; [exact Had|]. intros o a. apply adapter_match_expected.
  - revert Hmo. unfold receipt_events. generalize (omap morpho_action_of
      (omap (log_event expectation) (cr_logs receipt))). clear -Hm. induction Hm; intros k Hl;
      inversion Hl; subst; constructor; eauto using morpho_match_expected.
Qed.

(** ** The durable step *)

Lemma io_bind_Err {E A B} (c : io E A) (f : A -> io E B) w e w' :
  (c ≫= f) w = (Err e, w') ->
  c w = (Err e, w') \/ exists a w1, c w = (Ok a, w1) /\ f a w1 = (Err e, w').
Proof.
  unfold mbind, io_bind. destruct (c w) as [[a|e'] w1]; intros H; [right; by exists a, w1|].
  left. congruence.
Qed.

(** A computation that leaves the world alone. *)
Definition reads {E A} (c : io E A) : Prop := forall w, snd (c w) = w.

Lemma reads_lift {E F A} (f : F -> E) (c : result F A) : reads (io_lift f c).
Proof. done. Qed.
Lemma reads_query {E A} (f : StorageError -> E) (q : JsonState -> result StorageError A) :
  reads (from_storage f (query q)).
Proof. done. Qed.

Lemma reads_world {E A} (c : io E A) w r w' : reads c -> c w = (r, w') -> w' = w.
Proof. intros Hr H. specialize (Hr w). by rewrite H in Hr. Qed.

Lemma io_lift_Ok {E F A} (f : F -> E) (c : result F A) w a w' :
  io_lift f c w = (Ok a, w') -> c = Ok a /\ w' = w.
Proof. unfold io_lift. intros [= H <-]. by apply map_err_Ok in H. Qed.

Lemma query_Ok {E A} (f : StorageError -> E) (q : JsonState -> result StorageError A) w a w' :
  from_storage f (query q) w = (Ok a, w') -> q (w_storage w) = Ok a /\ w' = w.
Proof. intros [= H <-]%from_storage_Ok. done. Qed.

Lemma persist_conformance_durable `{Keccak} s record next s' :
  persist_conformance s record = Ok next -> commit_next next = Ok s' ->
  exists row, find (has_id (cf_transaction_id record)) (js_transactions s) = Some row /\
    tx_state row = Confirmed /\ tx_included_block row = Some (cf_block_number record) /\
    tx_included_block_hash row = Some (cf_block_hash record) /\
    find (has_id (cf_transaction_id record)) (js_transactions s') =
      Some (row_with_state row ConformanceValidated (Some (cf_transaction_hash record))
              (tx_raw_signed_transaction row) (cf_validated_at record)) /\
    record ∈ js_conformance_records next.
Proof.
  unfold persist_conformance. cbv zeta. intros Hm Hc. step_ok Hm as ? G1. step_ok Hm as ? G2.
  step_ok Hm as row Hrow. step_ok Hm as ? G3. injection Hm as <-. apply ok_or_Ok in Hrow.
  apply require_Ok in G3. bool_spec G3. destruct G3 as [[G3 G4] G5].
  exists row. split_and!; try done.
  - eapply committed_find; [exact Hc| |done]. cbn [with_conformance with_evidence
      with_transactions with_lanes js_transactions].
    by apply (updated_find _ (fun row => row_with_state row ConformanceValidated _ _ _)).
  - cbn. apply elem_of_app. right. by left.
Qed.

Section Reconciled.
Context `{HK : Keccak} `{HA : AbiParams} `{HC : AbiCaps} `{HJ : PlanJson} `{HB : VaultAbi}.
Context `{HE : EventAbi} `{HR : ReportJson} `{HP : TransactionLookupProvider}.

Lemma canonical_attempt_Some pending receipts receipt :
  canonical_attempt pending receipts = Some receipt ->
  receipt ∈ receipts /\ cr_block_hash receipt = pc_included_block_hash pending /\
  cr_transaction_hash receipt ∈ pc_known_transaction_hashes pending.
Proof.
  unfold canonical_attempt. destruct (List.filter _ _) as [|r [|]] eqn:Ef; try done.
  intros [= ->]. assert (Hin : In receipt [receipt]) by (by left). rewrite <-Ef in Hin.
  apply List.filter_In in Hin as [Hin E]. bool_spec E. by rewrite list_elem_of_In.
Qed.

(** What a successful reconciliation went through. *)
Lemma reconcile_Ok transaction_id config vault validated_at w report w' :
  reconcile_confirmed_transaction transaction_id config vault validated_at w = (Ok report, w') ->
  exists pending receipt observed transaction actions,
    load_pending_conformance (w_storage w) transaction_id = Ok (Some pending) /\
    canonical_attempt pending (load_canonical_receipts (w_storage w)
      (vc_chain_id (ac_chain (vg_app config))) (pc_included_block pending)) = Some receipt /\
    transaction_by_hash (cr_transaction_hash receipt) = Ok (Some observed) /\
    reserved_transaction config (pc_reservation pending) = Ok transaction /\
    inclusion_actions config vault pending = Ok actions /\
    validate_receipt_conformance
      (mkConformanceExpectation transaction_id (cr_transaction_hash receipt) transaction actions
         (nr_vault (pc_reservation pending)) (vc_morpho_blue (ac_chain (vg_app config)))
         (vv_asset vault)) observed receipt = Ok report /\
    w_submissions w' = w_submissions w /\
    exists next, persist_conformance (w_storage w) (conformance_record report validated_at)
        = Ok next /\ commit_next next = Ok (w_storage w').
Proof.
  unfold reconcile_confirmed_transaction. intros H.
  io_step H as o w1 H1. apply query_Ok in H1 as [Hp ->].
  io_step H as pending w1 H1. apply io_lift_Ok in H1 as [H1%ok_or_Ok ->]. subst o.
  io_step H as receipts w1 H1. apply query_Ok in H1 as [[= <-] ->].
  io_step H as receipt w1 H1. apply io_lift_Ok in H1 as [Hr%ok_or_Ok ->].
  io_step H as o w1 H1. apply io_lift_Ok in H1 as [Ho ->].
  io_step H as observed w1 H1. apply io_lift_Ok in H1 as [H1%ok_or_Ok ->]. subst o.
  io_step H as transaction w1 H1. apply io_lift_Ok in H1 as [Ht ->].
  io_step H as acts w1 H1. apply io_lift_Ok in H1 as [Ha ->]. cbv zeta in H.
  io_step H as report' w1 H1. apply io_lift_Ok in H1 as [Hv ->].
  io_step H as u w1 H1. apply from_storage_Ok, call_Ok in H1 as (next & Hm & Hc & Hs).
  injection H as <- <-. exists pending, receipt, observed, transaction, acts.
  split_and!; try done. by exists next.
Qed.

(** A failed reconciliation changes nothing. *)
Lemma reconcile_Err transaction_id config vault validated_at w e w' :
  reconcile_confirmed_transaction transaction_id config vault validated_at w = (Err e, w') ->
  w' = w.
Proof.
  unfold reconcile_confirmed_transaction. intros H.
  repeat (apply io_bind_Err in H as [H|(? & ? & Hstep & H)];
    [by apply (reads_world _ _ _ _ (reads_lift _ _)) in H
      || apply (reads_world _ _ _ _ (reads_query _ _)) in H|
     first [apply (reads_world _ _ _ _ (reads_lift _ _)) in Hstep
           | apply (reads_world _ _ _ _ (reads_query _ _)) in Hstep]; subst; cbv zeta in H]).
  apply io_bind_Err in H as [H|(? & ? & _ & H)]; [|done].
  unfold from_storage, call in H.
  destruct (call_with _ w) as [[u|e'] w1] eqn:Hc; [done|]. apply call_with_Err in Hc as ->.
  congruence.
Qed.

Lemma inclusion_actions_Ok config vault pending acts :
  inclusion_actions config vault pending = Ok acts ->
  same_action_identity (pc_expected_actions pending) acts = true /\
  exists validated projection simulated,
    validate_historical_plan (pc_plan pending) config = Ok validated /\
    project_snapshot_to_head (pc_snapshot pending) (pc_inclusion_head pending) vault
      = Ok projection /\
    simulate_actions (pc_snapshot pending) projection vault (actions validated) = Ok simulated /\
    expected_action_records validated (ss_actions simulated) vault = Some acts.
Proof.
  unfold inclusion_actions. intros H. step_ok H as validated Hv. step_ok H as projection Hp.
  step_ok H as simulated Hs. step_ok H as acts' Ha. destruct (same_action_identity _ _) eqn:Es;
    [|done]. injection H as <-. apply map_err_Ok in Hv, Hp, Hs. apply ok_or_Ok in Ha.
  split; [done|]. by exists validated, projection, simulated.
Qed.
End Reconciled.

(** ** Results *)

(** C15: An accepted receipt shows the released plan and nothing else: the
    receipt, the provider's transaction and the signed envelope agree, the
    receipt succeeded, its logs are its own and strictly ordered, every log of
    a plan contract is a routine event, and the vault, adapter, Morpho and
    transfer events are the plan's actions in order; over the transfers the
    receipt shows, Morpho gains exactly the net allocated assets, the vault
    pays them, and every other account breaks even. *)
Theorem receipt_conformance_sound `{Keccak} `{EventAbi} `{ReportJson}
    expectation observed receipt report :
  validate_receipt_conformance expectation observed receipt = Ok report ->
  receipt_conforms expectation observed receipt report /\
  forall account,
    net_flow account (omap transfer_of (receipt_events expectation receipt)) =
    (moved_by ExpectAllocate (ce_actions expectation)
     - moved_by ExpectDeallocate (ce_actions expectation))
    * (indicator (ce_morpho expectation =? account) - indicator (ce_vault expectation =? account)).
Proof.
  intros Hv%validate_receipt_conformance_Ok. split; [done|]. intros account.
  destruct (rf_transfers _ _ _ _ Hv) as (groups & Hg & ->). by apply plan_net_flow.
Qed.

(** Reconciling a confirmed transaction either fails and changes nothing
    or takes exactly one durable step: the unique canonical receipt among the
    known signed attempts, at the recorded inclusion block, conforms to the
    plan's effects replayed on the inclusion block's projected state (which
    keep the identity of the effects persisted before signing), and the
    lifecycle moves from [Confirmed] to [ConformanceValidated] with that
    report's record; nothing is submitted. *)
Theorem confirmed_reconciliation_sound `{Keccak} `{AbiParams} `{AbiCaps} `{PlanJson} `{VaultAbi}
    `{EventAbi} `{ReportJson} `{TransactionLookupProvider}
    transaction_id config vault validated_at w :
  let '(answer, w') :=
    reconcile_confirmed_transaction transaction_id config vault validated_at w in
  match answer with
  | Err _ => w' = w
  | Ok report => exists pending receipt observed transaction acts row row',
      load_pending_conformance (w_storage w) transaction_id = Ok (Some pending) /\
      receipt ∈ js_canonical_receipts (w_storage w) /\
      cr_transaction_hash receipt ∈ pc_known_transaction_hashes pending /\
      cr_block_number receipt = pc_included_block pending /\
      cr_block_hash receipt = pc_included_block_hash pending /\
      rt_calldata transaction = nr_calldata (pc_reservation pending) /\
      rt_from transaction = nr_signer (pc_reservation pending) /\
      inclusion_actions config vault pending = Ok acts /\
      same_action_identity (pc_expected_actions pending) acts = true /\
      receipt_conforms (mkConformanceExpectation transaction_id (cr_transaction_hash receipt)
        transaction acts (nr_vault (pc_reservation pending))
        (vc_morpho_blue (ac_chain (vg_app config))) (vv_asset vault)) observed receipt report /\
      find (has_id transaction_id) (js_transactions (w_storage w)) = Some row /\
      tx_state row = Confirmed /\
      find (has_id transaction_id) (js_transactions (w_storage w')) = Some row' /\
      tx_state row' = ConformanceValidated /\
      tx_transaction_hash row' = Some (cr_transaction_hash receipt) /\
      w_submissions w' = w_submissions w
  end.
Proof.
  destruct (reconcile_confirmed_transaction _ _ _ _ w) as [[report|e] w'] eqn:E;
    [|by apply reconcile_Err in E].
  apply reconcile_Ok in E as (pending & receipt & observed & transaction & acts & Hp & Hr & _ &
    Ht & Ha & Hv & Hs & next & Hm & Hc).
  apply canonical_attempt_Some in Hr as (Hin & Hbh & Hh).
  unfold load_canonical_receipts in Hin. rewrite sort_by_key_perm in Hin.
  apply list_elem_of_In, List.filter_In in Hin as [Hin En]. bool_spec En. destruct En as [_ En].
  apply validate_receipt_conformance_Ok in Hv. pose proof (rf_report _ _ _ _ Hv) as Hrep.
  cbn in Hrep. destruct Hrep as (Hid & Hhash & _).
  destruct (persist_conformance_durable _ _ _ _ Hm Hc) as (row & Hf & Hst & _ & _ & Hf' & _).
  cbn in Hf, Hf'. rewrite Hid in Hf, Hf'. rewrite Hhash in Hf'.
  unfold reserved_transaction in Ht. inv_ok.
  pose proof (proj1 (inclusion_actions_Ok _ _ _ _ Ha)).
  eexists pending, receipt, observed, _, acts, row, (row_with_state row _ _ _ _).
  split_and!; try done; try exact Hf'; try reflexivity; by apply list_elem_of_In.
Qed.
