(* ===== verification/Reconciliation.v ===== *)
(** * Reconciliation

    The outcome a canonical receipt gives a transaction and the exact state it
    is closed with, and what both keep. *)
From Stdlib Require Import ZArith Lia String.
From stdpp Require Import base gmap sets strings list.
From S2P Require Import Prelude.
From S2P Require Import Text.
From S2P Require Import BlueMath.
From S2P Require Import Domain.
From S2P Require Import Adapters.
From S2P Require Import Episodes.
From S2P Require Import Models.
From S2P Require Import Storage.
From S2P Require Import Actor.
From S2P Require Import StorageProofs.
From S2P Require Import Config.
From S2P Require Import Provider.
From S2P Require Import Firewall.
From S2P Require Import Revision.
From S2P Require Import Signer.
From S2P Require Import SigningProofs.
From S2P Require Import ProtocolLock.
From S2P Require Import Logs.
From S2P Require Import Conformance.
From S2P Require Import ConformanceProofs.
Open Scope Z_scope.

(** ** Outcome tracking and current-state reconciliation

    [reconciliation/classification.rs]: the classes of a revert, the outcome a
    canonical receipt gives a nonce lane, and its confirmation at depth.
    [reconciliation/current_state.rs]: the rebuilt exact state a conformed
    transaction is closed with. The state-owned rebuild and the serializers of
    the report and the snapshot are parameters. *)

(** ** Reverts *)

Inductive TransactionFailureClass : Type :=
  | StaleState | ConfigurationChanged | InsufficientLiquidity | RoleLoss
  | UnsupportedDependency | ModelMismatch | RpcSimulationMismatch | OutOfGas | UnknownFailure.

Inductive FailureDisposition : Type := RefreshAndReplan.

Record RevertEvidence : Type := mkRevertEvidence {
  rv_state_advanced : bool;
  rv_reproduced_class : option TransactionFailureClass;
  rv_exhausted_signed_gas : bool;
  rv_provider_disagreement : bool;
}.

Definition classify_revert (evidence : RevertEvidence) : TransactionFailureClass :=
  if rv_exhausted_signed_gas evidence then OutOfGas
  else if rv_state_advanced evidence then StaleState
  else if rv_provider_disagreement evidence then RpcSimulationMismatch
  else default UnknownFailure (rv_reproduced_class evidence).

Definition disposition (class : TransactionFailureClass) : FailureDisposition := RefreshAndReplan.

(** ** Canonical receipts *)

Inductive ReceiptTrackingError : Type :=
  | TrackStorage (e : StorageError)
  | TrackIdentity
  | ConfirmationRange.

Definition canonical_receipt_outcome (pending : UnresolvedTransaction)
    (receipt : CanonicalReceiptRecord) : result ReceiptTrackingError TransactionState :=
  if negb (bool_decide (cr_transaction_hash receipt ∈ un_known_transaction_hashes pending))
     || negb (match un_state pending with
              | Submitted | Replaced | CancellationSubmitted | Orphaned => true
              | _ => false
              end)
  then Err TrackIdentity
  else
    let cancellation_won :=
      bool_decide (un_state pending = CancellationSubmitted)
      && bool_decide (un_transaction_hash pending = Some (cr_transaction_hash receipt)) in
    match cr_status receipt with
    | Some 0 => Ok Reverted
    | Some 1 => Ok (if cancellation_won then Cancelled else Included)
    | _ => Err TrackIdentity
    end.

Section Tracking.
Context `{HK : Keccak}.

Definition persist_canonical_receipt_outcome (pending : UnresolvedTransaction)
    (receipt : CanonicalReceiptRecord) (next_state : TransactionState) (observed_at : Z)
    : io ReceiptTrackingError unit :=
  outcome ← io_lift id (canonical_receipt_outcome pending receipt);
  if negb (bool_decide (outcome = next_state)) then io_err TrackIdentity
  else
    from_storage TrackStorage (call (TransitionTransaction
      (mkTransactionTransition (un_transaction_id pending) (un_state pending) next_state
         (Some (cr_transaction_hash receipt)) None (Some (cr_block_number receipt))
         (Some (cr_block_hash receipt)) observed_at))).

Definition observe_canonical_receipt (pending : UnresolvedTransaction)
    (receipt : CanonicalReceiptRecord) (observed_at : Z) : io ReceiptTrackingError TransactionState :=
  next_state ← io_lift id (canonical_receipt_outcome pending receipt);
  _ ← persist_canonical_receipt_outcome pending receipt next_state observed_at;
  mret next_state.

Definition confirm_canonical_inclusion (transaction_id : TransactionId) (chain_id : Z)
    (included_block canonical_head : BlockRef) (required_confirmations confirmed_at : Z)
    : io ReceiptTrackingError bool :=
  confirmation_block ← io_lift id (ok_or
    (checked_add U64_MAX (blk_number included_block) required_confirmations) ConfirmationRange);
  if blk_number canonical_head <? confirmation_block then mret false
  else
    block ← from_storage TrackStorage
      (query (fun s => Ok (load_canonical_block s chain_id (blk_number included_block))));
    if negb (bool_decide (block = Some included_block)) then io_err TrackIdentity
    else
      _ ← from_storage TrackStorage (call (TransitionTransaction
        (mkTransactionTransition transaction_id Included Confirmed None None None None
           confirmed_at)));
      mret true.
End Tracking.

(** ** Current state *)

Record CurrentStateAssessment : Type := mkCurrentStateAssessment {
  as_snapshot : ExactVaultSnapshot;
  as_current_rate_spread : Z;
  as_service_constraints_met : bool;
  as_next_plan_needed : bool;
  as_pending_deployment_resolved : bool;
  as_confirmed_episode : option RateSignalEpisode;
}.

Inductive CurrentStateSourceError : Type :=
  | ContextNotReady
  | RetryableAt (stage : string)
  | ProviderOutageAt (stage : string)
  | FatalAt (stage : string)
  | FailedAt (stage : string).

(** [ExactCurrentStateSource]: the rebuild of one vault, which may persist what
    it observed. *)
Class ExactCurrentStateSource : Type :=
  rebuild_current_state : ConformanceReport
    -> io CurrentStateSourceError CurrentStateAssessment.

Record CurrentStateReport : Type := mkCurrentStateReport {
  sr_transaction_id : TransactionId;
  sr_snapshot_hash : B256;
  sr_block : BlockRef;
  sr_current_rate_spread : Z;
  sr_service_constraints_met : bool;
  sr_next_plan_needed : bool;
  sr_pending_deployment_resolved : bool;
  sr_report_hash : B256;
}.

Inductive CurrentStateError : Type :=
  | CsSource (e : CurrentStateSourceError)
  | CsStorage (e : StorageError)
  | CsIdentity
  | CsAccounting
  | CsServiceConstraint
  | CsEpisodeMovement
  | CsReport.

(** [canonical_snapshot_bytes] with a cleared hash, and [serde_json::to_vec]
    of a report. *)
Class SnapshotJson : Type := snapshot_json : ExactVaultSnapshot -> option Bytes.
Class StateReportJson : Type := state_report_json : CurrentStateReport -> option Bytes.

Definition classify_reconciliation_storage_error (e : StorageError) : CurrentStateError :=
  match e with
  | StaleTransition => CsSource ContextNotReady
  | other => CsStorage other
  end.

Section CurrentState.
Context `{HK : Keccak} `{HA : AbiParams} `{HS : SnapshotJson}.

Definition hash_exact_snapshot (snapshot : ExactVaultSnapshot) : option B256 :=
  keccak256 <$> snapshot_json snapshot.

(** The expected assets of an adapter's current markets. *)
Definition adapter_expected_assets (snapshot : ExactVaultSnapshot) (adapter_key : AdapterAddress)
    (adapter : DirectAdapterState) : result CurrentStateError Z :=
  try_fold (fun expected_real_assets market =>
    position ← ok_or (find (fun position => (dp_adapter position =? adapter_key)
                                            && (dp_market_id position =? market))
                        (btree_values (ev_positions snapshot))) CsAccounting;
    ok_or (checked_add U256_MAX expected_real_assets (dp_expected_assets position)) CsAccounting)
    0 (da_current_market_ids adapter).

Definition validate_adapter (vault : ValidatedVaultConfig) (snapshot : ExactVaultSnapshot)
    (entry : AdapterAddress * DirectAdapterState) : result CurrentStateError unit :=
  let '(adapter_key, adapter) := entry in
  if negb (da_adapter adapter =? adapter_key)
     || negb (da_parent_vault adapter =? vv_address vault)
     || negb (da_asset adapter =? vv_asset vault)
  then Err CsAccounting
  else
    expected_real_assets ← adapter_expected_assets snapshot adapter_key adapter;
    if negb (expected_real_assets =? da_real_assets adapter) then Err CsAccounting else Ok tt.

Definition validate_liquidity_adapter (vault : ValidatedVaultConfig)
    (snapshot : ExactVaultSnapshot) : result CurrentStateError unit :=
  match vv_liquidity_adapter vault, ev_liquidity_adapter snapshot with
  | Some configured, Some adapter =>
      reproduced ← map_err (fun _ => CsAccounting)
        (VaultV1.preview_redeem (la_share_balance adapter) (la_vault_total_assets adapter)
           (la_vault_total_supply adapter) (la_decimals_offset adapter));
      cap ← ok_or (ev_caps snapshot !! mkCapRef (vv_address vault) (la_adapter_id adapter))
              CsAccounting;
      if negb (la_adapter adapter =? lac_address configured)
         || negb (la_parent_vault adapter =? vv_address vault)
         || negb (la_morpho_vault_v1 adapter =? lac_morpho_vault_v1 configured)
         || negb (reproduced =? la_real_assets adapter)
         || negb (cs_recorded_allocation cap =? la_recorded_allocation adapter)
      then Err CsAccounting
      else Ok tt
  | None, None => Ok tt
  | _, _ => Err CsAccounting
  end.

Definition validate_position (vault : ValidatedVaultConfig) (snapshot : ExactVaultSnapshot)
    (entry : PositionKey * DirectMarketPositionState) : result CurrentStateError unit :=
  let '(key, position) := entry in
  if negb (dp_position_key position =? key)
     || negb (dp_market_id position =? derive_market_id (dp_market_params position))
     || (dp_actual_morpho_supply_shares position <? dp_internal_supply_shares position)
     || negb (bool_decide (checked_sub (dp_actual_morpho_supply_shares position)
                             (dp_internal_supply_shares position)
                           = Some (dp_ignored_donation_shares position)))
     || negb (bool_decide (is_Some (ev_adapters snapshot !! dp_adapter position)))
     || negb (bool_decide (is_Some (ev_markets snapshot !! dp_market_id position)))
     || existsb (fun reference => negb (cr_vault reference =? vv_address vault)
                   || negb (bool_decide (is_Some (ev_caps snapshot !! reference))))
          (affected_caps_list position)
  then Err CsAccounting
  else Ok tt.

Definition validate_snapshot (vault : ValidatedVaultConfig) (conformance : ConformanceReport)
    (snapshot : ExactVaultSnapshot) : result CurrentStateError unit :=
  let context := ev_context snapshot in
  if (ctx_chain_id context =? 0)
     || (blk_number (ctx_block context) <? cp_block_number conformance)
     || negb (pv_vault (ev_parent snapshot) =? vv_address vault)
     || negb (pv_asset (ev_parent snapshot) =? vv_asset vault)
  then Err CsIdentity
  else
    hash ← ok_or (hash_exact_snapshot snapshot) CsIdentity;
    if negb (hash =? ev_snapshot_hash snapshot)
       || negb (vc_can_observe (ev_capabilities snapshot))
       || negb (vc_can_project (ev_capabilities snapshot))
    then Err CsIdentity
    else
      _ ← try_map (validate_adapter vault snapshot) (btree_entries (ev_adapters snapshot));
      _ ← validate_liquidity_adapter vault snapshot;
      _ ← try_map (validate_position vault snapshot) (btree_entries (ev_positions snapshot));
      Ok tt.

Context `{HR : StateReportJson} `{HX : ExactCurrentStateSource}.

(** The movement of the transaction is in the episode's confirmed total. *)
Definition episode_mismatch (vault : ValidatedVaultConfig) (conformance : ConformanceReport)
    (episode : option RateSignalEpisode) : bool :=
  match episode with
  | Some episode =>
      negb (re_vault episode =? vv_address vault)
      || (re_confirmed_movement episode <? cp_movement_assets conformance)
      || negb (re_pending_movement episode =? 0)
  | None => false
  end.

Definition build_state_report (conformance : ConformanceReport) (a : CurrentStateAssessment)
    : result CurrentStateError CurrentStateReport :=
  let report hash := mkCurrentStateReport (cp_transaction_id conformance)
    (ev_snapshot_hash (as_snapshot a)) (ctx_block (ev_context (as_snapshot a)))
    (as_current_rate_spread a) (as_service_constraints_met a) (as_next_plan_needed a)
    (as_pending_deployment_resolved a) hash in
  text ← ok_or (state_report_json (report 0)) CsReport;
  Ok (report (keccak256 text)).

Definition reconciliation_record (report : CurrentStateReport) (reconciled_at : Z)
    : ReconciliationRecord :=
  mkReconciliationRecord (sr_transaction_id report) (sr_snapshot_hash report) (sr_block report)
    (sr_current_rate_spread report) (sr_service_constraints_met report)
    (sr_next_plan_needed report) (sr_pending_deployment_resolved report) (sr_report_hash report)
    reconciled_at.

Definition reconcile_current_state (vault : ValidatedVaultConfig)
    (conformance : ConformanceReport) (reconciled_at : Z)
    : io CurrentStateError CurrentStateReport :=
  assessment ← io_map_err CsSource (rebuild_current_state conformance);
  _ ← io_lift id (validate_snapshot vault conformance (as_snapshot assessment));
  if negb (as_service_constraints_met assessment) then io_err CsServiceConstraint
  else if episode_mismatch vault conformance (as_confirmed_episode assessment)
  then io_err CsEpisodeMovement
  else
    report ← io_lift id (build_state_report conformance assessment);
    _ ← from_storage classify_reconciliation_storage_error (call (PersistReconciliation
          (reconciliation_record report reconciled_at) (as_snapshot assessment)
          (as_confirmed_episode assessment)));
    mret report.
End CurrentState.

(** ** What outcome tracking and reconciliation keep

    A receipt moves the lifecycle along the graph only, and a transaction is
    closed only on a rebuilt snapshot whose accounting is exact. *)

(** ** Receipts *)

(** The outcome a receipt gives a lane. *)
Definition receipt_outcome (pending : UnresolvedTransaction) (receipt : CanonicalReceiptRecord)
    (next : TransactionState) : Prop :=
  let cancellation := un_state pending = CancellationSubmitted /\
                      un_transaction_hash pending = Some (cr_transaction_hash receipt) in
  cr_transaction_hash receipt ∈ un_known_transaction_hashes pending /\
  permits (un_state pending) next = true /\
  ((cr_status receipt = Some 0 /\ next = Reverted) \/
   (cr_status receipt = Some 1 /\ cancellation /\ next = Cancelled) \/
   (cr_status receipt = Some 1 /\ ~ cancellation /\ next = Included)).

Lemma canonical_receipt_outcome_Ok pending receipt next :
  canonical_receipt_outcome pending receipt = Ok next -> receipt_outcome pending receipt next.
Proof.
  unfold canonical_receipt_outcome, receipt_outcome. destruct (_ || _) eqn:E; [done|].
  apply orb_false_iff in E as [E1 E2]. bool_spec E1. apply negb_false_iff in E2.
  destruct (cr_status receipt) as [[|[]|]|]; try done.
  - intros [= <-]. split; [done|]. split; [by destruct (un_state pending)|]. by left.
  - intros [= <-]. split; [done|]. repeat case_bool_decide; cbn.
    + rewrite H. split; [done|]. right; left. done.
    + split; [by destruct (un_state pending)|]. right; right. naive_solver.
    + split; [by destruct (un_state pending)|]. right; right. naive_solver.
    + split; [by destruct (un_state pending)|]. right; right. naive_solver.
Qed.

(** A cancellation that is included again after a reorganization orphaned it
    counts as the included routine transaction: the lane is [Orphaned], so the
    cancellation is no longer recognized. *)
Lemma orphaned_cancellation_included pending receipt :
  un_state pending = Orphaned ->
  cr_transaction_hash receipt ∈ un_known_transaction_hashes pending ->
  un_transaction_hash pending = Some (cr_transaction_hash receipt) ->
  cr_status receipt = Some 1 ->
  canonical_receipt_outcome pending receipt = Ok Included.
Proof.
  intros Hs Hk Hh Hst. unfold canonical_receipt_outcome. rewrite Hs, Hh, Hst.
  by rewrite (bool_decide_eq_true_2 _ Hk).
Qed.

Section Tracked.
Context `{HK : Keccak}.

(** The transition an outcome takes. *)
Definition receipt_transition (pending : UnresolvedTransaction) (receipt : CanonicalReceiptRecord)
    (next : TransactionState) (observed_at : Z) : TransactionTransition :=
  mkTransactionTransition (un_transaction_id pending) (un_state pending) next
    (Some (cr_transaction_hash receipt)) None (Some (cr_block_number receipt))
    (Some (cr_block_hash receipt)) observed_at.

Lemma call_Err command w e w' : call command w = (Err e, w') -> w' = w.
Proof. unfold call. by intros ?%call_with_Err. Qed.

Lemma stored_call_Err {E} (f : StorageError -> E) command w e w' :
  from_storage f (call command) w = (Err e, w') -> w' = w.
Proof.
  unfold from_storage. destruct (call command w) as [[u|e'] w1] eqn:Hc; [done|].
  apply call_Err in Hc as ->. intros H. congruence.
Qed.


(** Confirmation needs the inclusion to stay canonical at depth. *)
Lemma confirm_inclusion_Ok transaction_id chain_id included head depth at_ w confirmed w' :
  confirm_canonical_inclusion transaction_id chain_id included head depth at_ w
    = (Ok confirmed, w') ->
  if confirmed
  then blk_number included + depth <= blk_number head /\
       load_canonical_block (w_storage w) chain_id (blk_number included) = Some included /\
       exists row s, find (has_id transaction_id) (js_transactions (w_storage w)) = Some row /\
         tx_state row = Included /\ commit_next s = Ok (w_storage w') /\
         find (has_id transaction_id) (js_transactions (w_storage w'))
           = Some (transitioned (mkTransactionTransition transaction_id Included Confirmed
                                   None None None None at_) row)
  else blk_number head < blk_number included + depth /\ w' = w.
Proof.
  unfold confirm_canonical_inclusion. intros H. io_step H as block w1 H1.
  apply io_lift_Ok in H1 as [Hb ->]. inv_ok.
  destruct (blk_number head <? _) eqn:Eh; bool_spec Eh.
  - injection H as <- <-. done.
  - io_step H as b w2 Hq. apply query_Ok in Hq as [[= <-] ->].
    case_bool_decide as Hcan; [|done]. cbn [negb] in H. io_step H as u w2 Hq.
    injection H as <- <-. apply from_storage_Ok, call_Ok in Hq as (s & Hm & Hc & _). cbn [mutate] in Hm.
    split; [lia|]. split; [done|].
    apply transition_transaction_rows in Hm as (row & Hf & Hst & _ & Ht & _). cbn in *.
    exists row, s. split_and!; [done|done|done|].
    eapply committed_find; [exact Hc| |done]. rewrite Ht. by apply updated_find.
Qed.
End Tracked.

(** ** Current state *)

(** The real assets of an adapter are those of its current positions. *)
Definition adapter_consistent (vault : ValidatedVaultConfig) (snapshot : ExactVaultSnapshot)
    (key : AdapterAddress) (adapter : DirectAdapterState) : Prop :=
  da_adapter adapter = key /\ da_parent_vault adapter = vv_address vault /\
  da_asset adapter = vv_asset vault /\
  exists positions, Forall2 (fun market position =>
      dp_adapter position = key /\ dp_market_id position = market /\
      exists k, ev_positions snapshot !! k = Some position)
    (da_current_market_ids adapter) positions /\
    da_real_assets adapter = list_sum (dp_expected_assets <$> positions).

Definition position_consistent `{Keccak} `{AbiParams} (vault : ValidatedVaultConfig)
    (snapshot : ExactVaultSnapshot) (key : PositionKey) (position : DirectMarketPositionState)
    : Prop :=
  dp_position_key position = key /\
  dp_market_id position = derive_market_id (dp_market_params position) /\
  dp_internal_supply_shares position <= dp_actual_morpho_supply_shares position /\
  dp_ignored_donation_shares position =
    dp_actual_morpho_supply_shares position - dp_internal_supply_shares position /\
  is_Some (ev_adapters snapshot !! dp_adapter position) /\
  is_Some (ev_markets snapshot !! dp_market_id position) /\
  Forall (fun reference => cr_vault reference = vv_address vault /\
                           is_Some (ev_caps snapshot !! reference)) (affected_caps_list position).

Definition liquidity_consistent (vault : ValidatedVaultConfig) (snapshot : ExactVaultSnapshot)
    : Prop :=
  match vv_liquidity_adapter vault, ev_liquidity_adapter snapshot with
  | Some configured, Some adapter =>
      la_adapter adapter = lac_address configured /\
      la_parent_vault adapter = vv_address vault /\
      la_morpho_vault_v1 adapter = lac_morpho_vault_v1 configured /\
      VaultV1.preview_redeem (la_share_balance adapter) (la_vault_total_assets adapter)
        (la_vault_total_supply adapter) (la_decimals_offset adapter)
        = Ok (la_real_assets adapter) /\
      exists cap, ev_caps snapshot !! mkCapRef (vv_address vault) (la_adapter_id adapter)
          = Some cap /\
        cs_recorded_allocation cap = la_recorded_allocation adapter
  | None, None => True
  | _, _ => False
  end.

Record snapshot_consistent `{Keccak} `{AbiParams} `{SnapshotJson} (vault : ValidatedVaultConfig)
    (conformance : ConformanceReport) (snapshot : ExactVaultSnapshot) : Prop := {
  sc_context : ctx_chain_id (ev_context snapshot) <> 0 /\
    cp_block_number conformance <= blk_number (ctx_block (ev_context snapshot));
  sc_parent : pv_vault (ev_parent snapshot) = vv_address vault /\
    pv_asset (ev_parent snapshot) = vv_asset vault;
  sc_hash : hash_exact_snapshot snapshot = Some (ev_snapshot_hash snapshot);
  sc_adapters : forall key adapter, ev_adapters snapshot !! key = Some adapter ->
    adapter_consistent vault snapshot key adapter;
  sc_liquidity : liquidity_consistent vault snapshot;
  sc_positions : forall key position, ev_positions snapshot !! key = Some position ->
    position_consistent vault snapshot key position;
}.

Section Closed.
Context `{HK : Keccak} `{HA : AbiParams} `{HS : SnapshotJson}.

Lemma try_map_elem {E A B} (f : A -> result E B) l k x :
  try_map f l = Ok k -> x ∈ l -> exists b, f x = Ok b.
Proof.
  intros H Hx. apply try_map_Forall2 in H. induction H as [|a b l k Hab _ IH]; [by apply elem_of_nil in Hx|].
  apply elem_of_cons in Hx as [->|Hx]; [by exists b|by apply IH].
Qed.

Lemma adapter_expected_assets_Ok snapshot key markets total sum :
  try_fold (fun expected_real_assets market =>
    position ← ok_or (find (fun position => (dp_adapter position =? key)
                                            && (dp_market_id position =? market))
                        (btree_values (ev_positions snapshot))) CsAccounting;
    ok_or (checked_add U256_MAX expected_real_assets (dp_expected_assets position)) CsAccounting)
    total markets = Ok sum ->
  exists positions, Forall2 (fun market position =>
      dp_adapter position = key /\ dp_market_id position = market /\
      exists k, ev_positions snapshot !! k = Some position) markets positions /\
    sum = total + list_sum (dp_expected_assets <$> positions).
Proof.
  revert total. induction markets as [|market markets IH]; intros total; cbn [try_fold]; intros H.
  - inv_ok. exists []. split; [constructor|]. cbn. lia.
  - step_ok H as total' Ht. step_ok Ht as position Hp. apply ok_or_Ok in Hp.
    apply IH in H as (positions & Hf & ->). exists (position :: positions). inv_ok.
    rewrite fmap_cons, list_sum_cons. split; [|lia]. constructor; [|done].
    apply find_some in Hp as [Hin E]. bool_spec E. destruct E as [-> ->].
    split_and!; [done|done|]. unfold btree_values in Hin.
    apply list_elem_of_In, list_elem_of_fmap in Hin as ([k p] & -> & Hin).
    exists k. by apply elem_of_btree_entries.
Qed.

Lemma validate_adapter_Ok vault snapshot key adapter u :
  validate_adapter vault snapshot (key, adapter) = Ok u ->
  adapter_consistent vault snapshot key adapter.
Proof.
  unfold validate_adapter, adapter_consistent. destruct (_ || _) eqn:E; [done|]. bool_spec E.
  destruct E as [[-> ->] ->]. intros H. step_ok H as sum Hs.
  destruct (sum =? _) eqn:Es; [|done]. bool_spec Es. subst.
  apply adapter_expected_assets_Ok in Hs as (positions & Hf & ->).
  split_and!; try done. by exists positions.
Qed.

Lemma validate_position_Ok vault snapshot key position u :
  validate_position vault snapshot (key, position) = Ok u ->
  position_consistent vault snapshot key position.
Proof.
  unfold validate_position, position_consistent. destruct (_ || _) eqn:E; [done|]. intros _.
  apply orb_false_iff in E as [E Ec]. bool_spec E.
  destruct E as [[[[[Hk Hid] Hle] Hd] Ha] Hm]. apply checked_sub_Some in Hd as [Hd1 Hd2].
  split_and!; try done; try lia. apply Forall_forall. intros reference Hr.
  apply not_true_iff_false in Ec. rewrite existsb_exists in Ec.
  destruct (decide (cr_vault reference = vv_address vault /\ is_Some (ev_caps snapshot !! reference)))
    as [?|Hn]; [done|]. exfalso. apply Ec. exists reference. split; [by apply list_elem_of_In|].
  apply orb_true_iff. rewrite !negb_true_iff, Z.eqb_neq, bool_decide_eq_false.
  destruct (decide (cr_vault reference = vv_address vault)); [right|by left]. naive_solver.
Qed.

Lemma validate_liquidity_Ok vault snapshot u :
  validate_liquidity_adapter vault snapshot = Ok u -> liquidity_consistent vault snapshot.
Proof.
  unfold validate_liquidity_adapter, liquidity_consistent.
  destruct (vv_liquidity_adapter vault) as [configured|], (ev_liquidity_adapter snapshot) as [adapter|];
    try done. intros H. step_ok H as reproduced Hr. step_ok H as cap Hc.
  destruct (_ || _) eqn:E; [done|]. bool_spec E. destruct E as [[[[-> ->] ->] ->] Hcap].
  apply map_err_Ok in Hr. apply ok_or_Ok in Hc. split_and!; try done. by exists cap.
Qed.

Lemma validate_snapshot_Ok vault conformance snapshot u :
  validate_snapshot vault conformance snapshot = Ok u ->
  snapshot_consistent vault conformance snapshot.
Proof.
  unfold validate_snapshot. destruct (_ || _) eqn:E; [done|]. intros H. bool_spec E.
  destruct E as [[[Hchain Hb] Hv] Ha]. step_ok H as hash Hh. apply ok_or_Ok in Hh.
  destruct (_ || _) eqn:E; [done|]. bool_spec E. destruct E as [[-> _] _].
  step_ok H as us Hads. step_ok H as u' Hl. step_ok H as us' Hps.
  split; [done|done|done| |by apply validate_liquidity_Ok in Hl|].
  - intros key adapter Hk. apply elem_of_btree_entries in Hk.
    destruct (try_map_elem _ _ _ _ Hads Hk) as [b Hb']. by apply validate_adapter_Ok in Hb'.
  - intros key position Hk. apply elem_of_btree_entries in Hk.
    destruct (try_map_elem _ _ _ _ Hps Hk) as [b Hb']. by apply validate_position_Ok in Hb'.
Qed.
End Closed.

