(* ===== verification/FinalPreflight.v ===== *)
(** * Final preflight

    [transaction/final_preflight.rs]: the exclusive execution resources and the
    one-head sequence that rebuilds a plan, simulates it, makes it durable,
    passes the signing gate, signs, submits and records the broadcast.

    The exact source and the RPC providers are parameters. Each of their calls
    is an [io] computation named by the stage that makes it, so that answers
    may differ from stage to stage and other tasks may change the durable state
    while the call is awaited. What the source keeps between the rebuild and
    the gate is handed from one to the other. Calls joined by [try_join!] run in their order.
    The monotonic clock is the record of its readings. *)
From Stdlib Require Import ZArith Lia String.
From stdpp Require Import base gmap sets strings countable list.
From S2P Require Import Prelude.
From S2P Require Import Domain.
From S2P Require Import BlueMath.
From S2P Require Import Config.
From S2P Require Import Caps.
From S2P Require Import Simulator.
From S2P Require Import Models.
From S2P Require Import Storage.
From S2P Require Import Actor.
From S2P Require Import Calldata.
From S2P Require Import Firewall.
From S2P Require Import Signer.
From S2P Require Import Provider.
From S2P Require Import Pending.
From S2P Require Import Conformance.
Open Scope Z_scope.

(** ** Data *)

Inductive InclusionScenarioKind : Type := Earliest | ExpectedInclusion | LatestAccepted.

Record InclusionAssumption : Type := mkInclusionAssumption {
  ia_kind : InclusionScenarioKind;
  ia_opportunity_offset : Z;
  ia_canonical_block : BlockRef;
  ia_max_fee_per_gas : Z;
}.

(** The array of the three scenarios. *)
Definition Scenarios : Type := InclusionAssumption * InclusionAssumption * InclusionAssumption.

Record FinalPreflightContext : Type := mkFinalPreflightContext {
  fc_snapshot_block_number : Z;
  fc_snapshot_block_hash : B256;
  fc_snapshot_block_timestamp : Z;
  fc_simulation_before_hash : B256;
  fc_simulation_after_hash : B256;
  fc_signing_gate_hash : B256;
  fc_event_cursor_block : Z;
  fc_completed_at_monotonic_ns : Z;
  fc_snapshot_to_sign_latency_ms : Z;
  fc_rate_episode_id : option B256;
  fc_rate_objective_branch : option RateObjectiveBranch;
  fc_episode_budget_before : option Z;
  fc_episode_budget_after_reservation : option Z;
  fc_movement_reservation_id : B256;
}.

Record ExecutePreflightRequest : Type := mkExecutePreflightRequest {
  er_transaction_id : TransactionId;
  er_signer_request_id : B256;
  er_nonce : Z;
  er_max_fee_per_gas : Z;
  er_max_priority_fee_per_gas : Z;
}.

Record SubmittedPreflight : Type := mkSubmittedPreflight {
  sp_context : FinalPreflightContext;
  sp_scenarios : Scenarios;
  sp_signed : SignedEnvelope;
  sp_submitted_hash : B256;
}.

Record PreparedPreflightPlan : Type := mkPreparedPreflightPlan {
  pf_plan : ValidatedPlan;
  pf_action_projections : list ActionProjection;
  pf_scenarios : Scenarios;
}.

Inductive PreflightSourceError : Type :=
  | ContextChanged
  | SourceFailed
  | FailedAt (stage : string)
  | RetryableAt (stage : string)
  | ProviderOutageAt (stage : string)
  | FatalAt (stage : string)
  | VaultFatalAt (stage : string).

(** ** Exclusive resources *)

Inductive ExecutionResource : Type :=
  | ResourceVault (a : Address)
  | ResourceSigner (a : Address)
  | ResourceMarket (id : B256)
  | ResourceLoanToken (a : Address).
#[global] Instance ExecutionResource_eq_dec : EqDecision ExecutionResource.
Proof. solve_decision. Defined.

Definition resource_code (r : ExecutionResource) : Z + Z + (Z + Z) :=
  match r with
  | ResourceVault a => inl (inl a)
  | ResourceSigner a => inl (inr a)
  | ResourceMarket id => inr (inl id)
  | ResourceLoanToken a => inr (inr a)
  end.
Definition resource_decode (c : Z + Z + (Z + Z)) : ExecutionResource :=
  match c with
  | inl (inl a) => ResourceVault a
  | inl (inr a) => ResourceSigner a
  | inr (inl id) => ResourceMarket id
  | inr (inr a) => ResourceLoanToken a
  end.
#[global] Instance ExecutionResource_countable : Countable ExecutionResource.
Proof. apply (inj_countable' resource_code resource_decode). by intros []. Defined.

Inductive ReservationError : Type := Busy | Poisoned.

(** The shared set under its lock; [None] when a panicking owner poisoned
    it. *)
Definition ExecutionReservationManager : Type := option (gset ExecutionResource).

(** A lease is the set of resources it holds. *)
Definition ExecutionLease : Type := gset ExecutionResource.

Definition vault_resources (vault : ValidatedVaultConfig) : gset ExecutionResource :=
  {[ResourceVault (vv_address vault); ResourceSigner (vv_signer_address vault)]} ∪
  list_to_set (concat ((fun position =>
    [ResourceMarket (pc_market_id position);
     ResourceLoanToken (mp_loan_token (pc_market_params position))]) <$> vv_positions vault)).

Definition acquire (manager : ExecutionReservationManager) (vault : ValidatedVaultConfig)
    : result ReservationError (ExecutionReservationManager * ExecutionLease) :=
  let resources := vault_resources vault in
  held ← ok_or manager Poisoned;
  if negb (bool_decide (resources ∩ held = ∅)) then Err Busy
  else Ok (Some (held ∪ resources), resources).

(** [ExecutionLease::drop] *)
Definition drop_lease (manager : ExecutionReservationManager) (lease : ExecutionLease)
    : ExecutionReservationManager :=
  held ← manager; Some (held ∖ lease).

(** ** Errors *)

Inductive PreflightError : Type :=
  | PfReservation (e : ReservationError)
  | PfNonceBusy
  | PfRefreshAndReplan
  | PfNonceChanged
  | PfBigBlocks
  | PfLatency
  | PfSource (e : PreflightSourceError)
  | PfProvider (e : ProviderError)
  | PfFee (e : FeeError)
  | PfMovementBudget
  | PfEconomicGate
  | PfFirewall (e : FirewallError)
  | PfStorage (e : StorageError)
  | PfSigning (e : SigningBoundaryError)
  | PfSubmissionHash
  | PfClockRange.

(** ** Checks *)

Definition inclusion_assumptions (head : BlockRef) (expected_offset latest_offset max_fee_per_gas : Z)
    : result PreflightError Scenarios :=
  if (expected_offset =? 0) || (latest_offset <? expected_offset) then Err PfRefreshAndReplan
  else
    let build kind offset := mkInclusionAssumption kind offset head max_fee_per_gas in
    Ok (build Earliest 1, build ExpectedInclusion expected_offset,
        build LatestAccepted latest_offset).

Definition require_head (observed expected : BlockRef) : result PreflightError unit :=
  if bool_decide (observed = expected) then Ok tt else Err PfRefreshAndReplan.

Definition require_cursor (cursor head : BlockRef) : result PreflightError unit :=
  require_head cursor head.

Definition exceeds (used proposed maximum : Z) : bool :=
  match checked_add U256_MAX used proposed with
  | Some total => maximum <? total
  | None => true
  end.

Definition require_top_k_gain (gain required : Z) : result PreflightError unit :=
  if gain <? required then Err PfEconomicGate else Ok tt.

(** [U256::checked_pow] of ten. *)
Definition checked_pow10 (decimals : Z) : option Z :=
  if 10 ^ decimals <=? U256_MAX then Some (10 ^ decimals) else None.

Definition required_top_k_gain_assets (gas_limit max_fee_per_gas asset_decimals : Z)
    (settings : ValidatedTopKApyConfig) (immediate_loss_assets : Z) : result PreflightError Z :=
  let economic {A} (o : option A) := ok_or o PfEconomicGate in
  native_cost_wei ← economic (checked_mul U256_MAX gas_limit max_fee_per_gas);
  whole_asset_wad ← map_err (fun _ => PfEconomicGate)
    (mul_div_up native_cost_wei (vt_native_token_price_ceiling_asset_wad settings) WAD);
  asset_scale ← economic (checked_pow10 asset_decimals);
  gas_assets ← map_err (fun _ => PfEconomicGate) (mul_div_up whole_asset_wad asset_scale WAD);
  economic (cost ← checked_mul U256_MAX gas_assets (vt_gas_cost_multiplier settings);
            cost ← checked_add U256_MAX cost immediate_loss_assets;
            checked_add U256_MAX cost (vt_minimum_net_gain_assets settings)).

Definition validate_top_k_economic_gate (plan : ValidatedPlan) (gas_limit max_fee_per_gas : Z)
    (vault : ValidatedVaultConfig) (config : ValidatedConfig) : result PreflightError unit :=
  if negb (bool_decide (vv_strategy vault = TopKApyDiversified))
     || negb (match pl_reason (vp_plan plan) with
              | CapitalDeployment | TopKApyRebalance => true
              | _ => false
              end)
  then Ok tt
  else
    let settings := sg_top_k_apy (ac_strategy (vg_app config)) in
    if negb (vt_enforce_gas_economic_gate settings) then Ok tt
    else if vt_native_token_price_ceiling_asset_wad settings =? 0 then Err PfEconomicGate
    else
      required ← required_top_k_gain_assets gas_limit max_fee_per_gas (vv_asset_decimals vault)
        settings (pp_immediate_loss_assets (pl_projection (vp_plan plan)));
      require_top_k_gain (pp_expected_gain_assets (pl_projection (vp_plan plan))) required.

(** ** Surroundings *)

(** The calls that read the head: at the start, before the simulation of a
    latest-only snapshot, and at the signing gate. *)
Inductive HeadStage : Type := RequestedHead | SimulationHead | GateHead.
Inductive CursorStage : Type := InitialCursor | GateCursor.

Class PreflightProviders : Type := {
  head_latest : HeadStage -> io ProviderError BlockRef;
  confirmed_nonce : Address -> io ProviderError Z;
  simulate_call : Address -> Address -> Bytes -> BlockRef -> io ProviderError Bytes;
  simulate_gas : Address -> Address -> Bytes -> BlockRef -> io ProviderError Z;
  signer_uses_big_blocks : Address -> io ProviderError bool;
}.

Class ExactPreflightSource : Type := {
  read_set : Type;
  event_cursor : CursorStage -> io PreflightSourceError BlockRef;
  rebuild_plan : BlockRef -> Scenarios
    -> io PreflightSourceError (PreparedPreflightPlan * read_set);
  invalidation_queued : read_set -> io PreflightSourceError bool;
}.

(** The readings of the monotonic clock: since the start when the preflight
    record is built and at the gate, and since signing started before and
    after the submission. *)
Record PreflightClock : Type := mkPreflightClock {
  ck_started_nanos : Z;
  ck_started_millis : Z;
  ck_sign_millis : Z;
  ck_broadcast_millis : Z;
}.

Definition io_require {E} (b : bool) (e : E) : io E unit := if b then mret tt else io_err e.

Section Preflight.
Context `{HK : Keccak} `{HA : AbiParams} `{HC : AbiCaps} `{HJ : PlanJson} `{HB : VaultAbi}.
Context `{HS : RoutineSigner} `{HU : SignedTransactionSubmitter}.
Context `{HP : PreflightProviders} `{HX : ExactPreflightSource}.

Definition context_hash (parts : list Bytes) : B256 := keccak256 (concat parts).

Definition final_preflight_id (transaction_id : TransactionId) (plan_id : PlanId) (head : BlockRef)
    (calldata_hash simulation_before_hash simulation_after_hash : B256) : B256 :=
  context_hash [be_bytes 32 transaction_id; be_bytes 32 plan_id; be_bytes 32 (blk_hash head);
                be_bytes 32 calldata_hash; be_bytes 32 simulation_before_hash;
                be_bytes 32 simulation_after_hash].

Definition stored_pf {A} (c : io StorageError A) : io PreflightError A := from_storage PfStorage c.

Definition validate_rolling_movement (vault : ValidatedVaultConfig) (proposed now : Z)
    : io PreflightError unit :=
  hourly ← stored_pf (query (fun s => movement_since s (vv_address vault) (saturating_sub now 3600)));
  daily ← stored_pf (query (fun s => movement_since s (vv_address vault) (saturating_sub now 86400)));
  io_require (negb (exceeds hourly proposed (vv_maximum_movement_per_hour_assets vault)
                    || exceeds daily proposed (vv_maximum_movement_per_day_assets vault)))
    PfMovementBudget.

Definition pinned (config : ValidatedConfig) : bool :=
  match vs_mode (ac_snapshot (vg_app config)) with PinnedBlock => true | AtomicLatest => false end.

(** The lane is empty and the signer is on the configured one. *)
Definition lane_ready (config : ValidatedConfig) (vault : ValidatedVaultConfig)
    : io PreflightError unit :=
  unresolved ← stored_pf (query (fun s => load_unresolved s (vv_signer_address vault)));
  _ ← io_require (negb (bool_decide (is_Some unresolved))) PfNonceBusy;
  if requires_hyper_evm_signer_lane_check (vc_block_opportunity_policy (ac_chain (vg_app config)))
  then
    big ← io_map_err PfProvider (signer_uses_big_blocks (vv_signer_address vault));
    io_require (negb big) PfBigBlocks
  else mret tt.

Definition scenario_heads (s : Scenarios) : list BlockRef :=
  let '(a, b, c) := s in ia_canonical_block <$> [a; b; c].

Definition planning_head (prepared : PreparedPreflightPlan) : BlockRef :=
  let '(earliest, _, _) := pf_scenarios prepared in ia_canonical_block earliest.

Definition snapshot_head (plan : ValidatedPlan) : BlockRef := ctx_block (pl_snapshot (vp_plan plan)).

(** The rebuilt plan is one of this vault at one head. *)
Definition context_mismatch (config : ValidatedConfig) (vault : ValidatedVaultConfig)
    (prepared : PreparedPreflightPlan) : bool :=
  let head := planning_head prepared in
  existsb (fun block => negb (bool_decide (block = head))) (scenario_heads (pf_scenarios prepared))
  || negb (pl_vault (vp_plan (pf_plan prepared)) =? vv_address vault)
  || (if pinned config then negb (bool_decide (head = snapshot_head (pf_plan prepared)))
      else blk_number head <? blk_number (snapshot_head (pf_plan prepared))).

(** The requested head, the exact rebuild and the checks of its context. *)
Definition rebuild (config : ValidatedConfig) (vault : ValidatedVaultConfig)
    (request : ExecutePreflightRequest)
    : io PreflightError (PreparedPreflightPlan * read_set) :=
  requested_head ← io_map_err PfProvider (head_latest RequestedHead);
  _ ← (if pinned config then
         cursor ← io_map_err PfSource (event_cursor InitialCursor);
         io_lift id (require_cursor cursor requested_head)
       else mret tt);
  requested_scenarios ← io_lift id (inclusion_assumptions requested_head
    (ex_expected_inclusion_opportunities (ac_execution (vg_app config)))
    (ex_maximum_inclusion_opportunities (ac_execution (vg_app config)))
    (er_max_fee_per_gas request));
  rebuilt ← io_map_err (fun e => match e with
                                  | ContextChanged => PfRefreshAndReplan
                                  | _ => PfSource e
                                  end) (rebuild_plan requested_head requested_scenarios);
  let prepared := fst rebuilt in
  _ ← io_require (negb (context_mismatch config vault prepared)) PfRefreshAndReplan;
  _ ← validate_rolling_movement vault
        (pp_movement_assets (pl_projection (vp_plan (pf_plan prepared))))
        (blk_timestamp (planning_head prepared));
  mret rebuilt.

(** The firewalled transaction with the evidence of its simulation. *)
Record SimulatedTransaction : Type := mkSimulatedTransaction {
  sm_transaction : ValidatedRoutineTransaction;
  sm_expected_actions : list ExpectedActionRecord;
  sm_calldata_hash : B256;
  sm_gas_estimate : Z;
  sm_gas_limit : Z;
  sm_before_hash : B256;
  sm_after_hash : B256;
}.

Definition routine_fields (config : ValidatedConfig) (vault : ValidatedVaultConfig)
    (request : ExecutePreflightRequest) (calldata : Bytes) (gas_limit : Z)
    : RoutineTransactionFields :=
  mkRoutineTransactionFields (vc_chain_id (ac_chain (vg_app config))) (vv_signer_address vault)
    (vv_address vault) (er_nonce request) gas_limit (er_max_fee_per_gas request)
    (er_max_priority_fee_per_gas request) 0 calldata.

Definition simulate_plan (config : ValidatedConfig) (vault : ValidatedVaultConfig)
    (request : ExecutePreflightRequest) (prepared : PreparedPreflightPlan)
    : io PreflightError SimulatedTransaction :=
  let plan := pf_plan prepared in
  let head := planning_head prepared in
  let execution := ac_execution (vg_app config) in
  expected_actions ← io_lift id (ok_or
    (expected_action_records plan (pf_action_projections prepared) vault) (PfFirewall FwAction));
  let calldata := encode_validated_plan plan in
  let calldata_hash := keccak256 calldata in
  let before_hash := context_hash [be_bytes 32 (pl_plan_hash (vp_plan plan));
                                   be_bytes 32 (blk_hash head); be_bytes 32 calldata_hash] in
  simulation_head ← (if pinned config then mret head
                     else io_map_err PfProvider (head_latest SimulationHead));
  call_output ← io_map_err PfProvider (simulate_call (vv_signer_address vault) (vv_address vault)
                                          calldata simulation_head);
  gas_estimate ← io_map_err PfProvider (simulate_gas (vv_signer_address vault) (vv_address vault)
                                          calldata simulation_head);
  gas_limit ← io_lift PfFee (signed_gas_limit gas_estimate (ex_gas_headroom_bps execution)
                               (ex_maximum_signed_transaction_gas execution));
  _ ← io_lift id (validate_top_k_economic_gate plan gas_limit (er_max_fee_per_gas request)
                    vault config);
  let after_hash := context_hash [be_bytes 32 before_hash; be_bytes 32 (blk_hash simulation_head);
                                  call_output; be_bytes 8 gas_estimate; be_bytes 8 gas_limit] in
  transaction ← io_lift PfFirewall (validate_routine_transaction plan
    (routine_fields config vault request calldata gas_limit)
    (vc_chain_id (ac_chain (vg_app config))) vault execution);
  mret (mkSimulatedTransaction transaction expected_actions calldata_hash gas_estimate gas_limit
          before_hash after_hash).

Definition preflight_record (request : ExecutePreflightRequest) (prepared : PreparedPreflightPlan)
    (simulated : SimulatedTransaction) (elapsed_nanos : Z) : FinalPreflightRecord :=
  let plan := vp_plan (pf_plan prepared) in
  let head := planning_head prepared in
  mkFinalPreflightRecord
    (final_preflight_id (er_transaction_id request) (pl_plan_id plan) head
       (sm_calldata_hash simulated) (sm_before_hash simulated) (sm_after_hash simulated))
    (pl_plan_id plan) head (sm_before_hash simulated) (sm_after_hash simulated) (blk_number head)
    (sm_calldata_hash simulated) (sm_gas_estimate simulated) (sm_gas_limit simulated)
    (sm_expected_actions simulated) elapsed_nanos (blk_timestamp head).

(** The plan, the preflight record and the reservation become durable. *)
Definition make_durable (clock : PreflightClock) (request : ExecutePreflightRequest)
    (prepared : PreparedPreflightPlan) (simulated : SimulatedTransaction)
    : io PreflightError DurableSigningRequest :=
  let head := planning_head prepared in
  _ ← stored_pf (call (PersistPlan (vp_plan (pf_plan prepared)) (blk_timestamp head)));
  elapsed_nanos ← io_lift id (ok_or (try_from_u U64_MAX (ck_started_nanos clock)) PfClockRange);
  _ ← stored_pf (call (PersistFinalPreflight
        (preflight_record request prepared simulated elapsed_nanos)));
  io_map_err PfSigning (reserve_durable_rebalance (pf_plan prepared) (sm_transaction simulated)
    (er_transaction_id request) (blk_number head) (blk_timestamp head)).

(** What the signing gate observed. *)
Record GateObservation : Type := mkGateObservation {
  go_head : BlockRef;
  go_cursor : BlockRef;
  go_nonce : Z;
  go_invalidated : bool;
  go_elapsed_millis : Z;
}.

Definition observe_gate (clock : PreflightClock) (vault : ValidatedVaultConfig)
    (context : read_set) : io PreflightError GateObservation :=
  head ← io_map_err PfProvider (head_latest GateHead);
  cursor ← io_map_err PfSource (event_cursor GateCursor);
  nonce ← io_map_err PfProvider (confirmed_nonce (vv_signer_address vault));
  invalidated ← io_map_err PfSource (invalidation_queued context);
  elapsed ← io_lift id (ok_or (try_from_u U64_MAX (ck_started_millis clock)) PfClockRange);
  mret (mkGateObservation head cursor nonce invalidated elapsed).

Definition strict_context_changed (config : ValidatedConfig) (head : BlockRef)
    (gate : GateObservation) : bool :=
  pinned config
  && (negb (bool_decide (go_head gate = head)) || negb (is_ok (require_cursor (go_cursor gate) head))).

Definition latency_exceeded (config : ValidatedConfig) (gate : GateObservation) : bool :=
  vs_maximum_snapshot_to_sign_latency_millis (ac_snapshot (vg_app config))
    <? go_elapsed_millis gate.

(** The gate passes, or the reservation is aborted. *)
Definition pass_gate (config : ValidatedConfig) (request : ExecutePreflightRequest)
    (head : BlockRef) (durable : DurableSigningRequest) (gate : GateObservation)
    : io PreflightError unit :=
  if strict_context_changed config head gate || go_invalidated gate
     || negb (go_nonce gate =? er_nonce request) || latency_exceeded config gate
  then
    _ ← io_map_err PfSigning (abort_unsigned_rebalance durable (blk_timestamp head));
    io_err (if negb (go_nonce gate =? er_nonce request) then PfNonceChanged
            else if latency_exceeded config gate then PfLatency
            else PfRefreshAndReplan)
  else mret tt.

Definition submit_io (raw : Bytes) : io PreflightError (result ProviderError B256) := fun w =>
  (Ok (submit_signed_bytes raw),
   mkWorld (w_storage w) (w_submissions w ++ [(raw, w_storage w)])).

Definition broadcast_late (config : ValidatedConfig) (elapsed : Z) : bool :=
  vs_maximum_sign_to_broadcast_latency_millis (ac_snapshot (vg_app config)) <? elapsed.

Definition submitted_transition (request : ExecutePreflightRequest) (head : BlockRef)
    (signed : SignedEnvelope) : TransactionTransition :=
  mkTransactionTransition (er_transaction_id request) Signed Submitted
    (Some (se_transaction_hash signed)) (Some (blk_timestamp head)) None None (blk_timestamp head).

(** The submission, recorded whatever the provider answers. *)
Definition broadcast (config : ValidatedConfig) (clock : PreflightClock)
    (request : ExecutePreflightRequest) (head : BlockRef) (signed : SignedEnvelope)
    : io PreflightError B256 :=
  _ ← io_require (negb (broadcast_late config (ck_sign_millis clock))) PfLatency;
  submission ← submit_io (se_raw_transaction signed);
  _ ← stored_pf (call (RecordAttemptBroadcast (er_transaction_id request)
        (se_transaction_hash signed) (blk_timestamp head) (blk_number head)));
  submitted_hash ← io_lift PfProvider submission;
  _ ← io_require (submitted_hash =? se_transaction_hash signed) PfSubmissionHash;
  _ ← stored_pf (call (TransitionTransaction (submitted_transition request head signed)));
  _ ← io_require (negb (broadcast_late config (ck_broadcast_millis clock))) PfLatency;
  mret submitted_hash.

Definition preflight_context (clock : PreflightClock) (prepared : PreparedPreflightPlan)
    (simulated : SimulatedTransaction) (durable : DurableSigningRequest) (gate : GateObservation)
    : FinalPreflightContext :=
  let plan := vp_plan (pf_plan prepared) in
  let snapshot := snapshot_head (pf_plan prepared) in
  let reservation := ds_movement_reservation durable in
  mkFinalPreflightContext (blk_number snapshot) (blk_hash snapshot) (blk_timestamp snapshot)
    (sm_before_hash simulated) (sm_after_hash simulated)
    (context_hash [be_bytes 32 (sm_after_hash simulated); be_bytes 32 (blk_hash (go_head gate));
                   be_bytes 32 (blk_hash (go_cursor gate))])
    (blk_number (go_cursor gate)) (ck_started_nanos clock) (go_elapsed_millis gate)
    (pl_episode_id plan) (sc_objective_branch (pl_solver_certificate plan))
    (rm_budget_before <$> reservation) (rm_budget_after <$> reservation)
    (match reservation with Some r => rm_reservation_id r | None => 0 end).

Definition execute_under_lease (config : ValidatedConfig) (vault : ValidatedVaultConfig)
    (clock : PreflightClock) (request : ExecutePreflightRequest)
    : io PreflightError SubmittedPreflight :=
  _ ← lane_ready config vault;
  rebuilt ← rebuild config vault request;
  let '(prepared, context) := rebuilt in
  simulated ← simulate_plan config vault request prepared;
  durable ← make_durable clock request prepared simulated;
  gate ← observe_gate clock vault context;
  _ ← pass_gate config request (planning_head prepared) durable gate;
  signed ← io_map_err PfSigning (sign_durable_rebalance durable (er_signer_request_id request));
  submitted_hash ← broadcast config clock request (planning_head prepared) signed;
  mret (mkSubmittedPreflight (preflight_context clock prepared simulated durable gate)
          (pf_scenarios prepared) signed submitted_hash).

(** The lease is held from the acquisition to every return. *)
Definition execute_one_head_preflight (manager : ExecutionReservationManager)
    (config : ValidatedConfig) (vault : ValidatedVaultConfig) (clock : PreflightClock)
    (request : ExecutePreflightRequest) : io PreflightError SubmittedPreflight :=
  _ ← io_lift PfReservation (acquire manager vault);
  execute_under_lease config vault clock request.

End Preflight.
