(* ===== verification/FinalPreflightProofs.v ===== *)
(** * The final preflight submits only what it has checked

    The theorems about [FinalPreflight]: leases never overlap, and whatever
    the providers and the source answer, and whatever other tasks commit in
    the meantime, bytes leave the process at most once, after every check, and
    only when they are durable. *)
From Stdlib Require Import ZArith Lia String.
From stdpp Require Import base gmap sets strings list.
From S2P Require Import Prelude.
From S2P Require Import Domain.
From S2P Require Import Config.
From S2P Require Import Caps.
From S2P Require Import Simulator.
From S2P Require Import Models.
From S2P Require Import Storage.
From S2P Require Import Actor.
From S2P Require Import StorageProofs.
From S2P Require Import Calldata.
From S2P Require Import Firewall.
From S2P Require Import Signer.
From S2P Require Import Provider.
From S2P Require Import Pending.
From S2P Require Import SigningProofs.
From S2P Require Import Conformance.
From S2P Require Import ConformanceProofs.
From S2P Require Import FinalPreflight.
Open Scope Z_scope.

(** ** Leases *)

(** The manager and the leases that are alive. *)
Inductive lease_step : ExecutionReservationManager * list ExecutionLease ->
    ExecutionReservationManager * list ExecutionLease -> Prop :=
  | lease_acquired manager leases vault manager' lease :
      acquire manager vault = Ok (manager', lease) ->
      lease_step (manager, leases) (manager', lease :: leases)
  | lease_dropped manager before lease after :
      lease_step (manager, before ++ lease :: after)
        (drop_lease manager lease, before ++ after).

Fixpoint exclusive (leases : list ExecutionLease) : Prop :=
  match leases with
  | [] => True
  | lease :: leases => lease ## ⋃ leases /\ exclusive leases
  end.

Definition leases_wf (state : ExecutionReservationManager * list ExecutionLease) : Prop :=
  fst state = Some (⋃ (snd state)) /\ exclusive (snd state).

Lemma exclusive_app before lease after :
  exclusive (before ++ lease :: after) ->
  exclusive (before ++ after) /\ lease ## ⋃ (before ++ after).
Proof.
  induction before as [|l before IH]; cbn; [naive_solver|].
  intros [Hl H]. apply IH in H as [H Hd].
  rewrite !union_list_app_L in *. cbn in *. set_solver.
Qed.

(** Every reachable manager holds exactly the resources of its live leases,
    which never overlap: no two live leases share a vault, a signer, a market
    or a loan token. *)
Theorem leases_exclusive state :
  rtc lease_step (Some ∅, []) state -> leases_wf state.
Proof.
  apply (rtc_ind_r leases_wf); [done|].
  intros x y _ Hs [Hh He]. destruct Hs as [manager leases vault manager' lease Ha
    |manager before lease after]; cbn in *; subst manager.
  - unfold acquire in Ha. cbn in Ha. destruct (negb _) eqn:Eb; [done|]. bool_spec Eb.
    injection Ha as <- <-. apply disjoint_intersection_L in Eb.
    split; cbn; [f_equal; apply union_comm_L|]. done.
  - apply exclusive_app in He as [He Hd]. split; [|done]. cbn. f_equal.
    rewrite !union_list_app_L in *. cbn. set_solver.
Qed.

(** ** Computations that submit nothing *)

Definition quiet {E A} (c : io E A) : Prop :=
  forall w, w_submissions (snd (c w)) = w_submissions w.

(** [c] leaves a reserved row of identity [id] as it is. *)
Definition keeps_reserved {E A} (id : TransactionId) (c : io E A) : Prop :=
  forall w row, find (has_id id) (js_transactions (w_storage w)) = Some row ->
    tx_state row = NonceReserved ->
    find (has_id id) (js_transactions (w_storage (snd (c w)))) = Some row.

Section Quiet.
Context {E : Type}.

Lemma quiet_lift {F A} (f : F -> E) (c : result F A) : quiet (io_lift f c).
Proof. done. Qed.
Lemma quiet_ret {A} (a : A) : quiet (mret (M := io E) a).
Proof. done. Qed.
Lemma quiet_err {A} (e : E) : quiet (io_err (A := A) e).
Proof. done. Qed.
Lemma quiet_require b (e : E) : quiet (io_require b e).
Proof. by destruct b. Qed.
Lemma quiet_query {A} (f : StorageError -> E) (q : JsonState -> result StorageError A) :
  quiet (from_storage f (query q)).
Proof. done. Qed.

Lemma quiet_call_with `{Keccak} {A} (m : JsonState -> result StorageError (JsonState * A)) f :
  quiet (from_storage (E := E) f (call_with m)).
Proof.
  intros w. destruct (from_storage f (call_with m) w) as [r w'] eqn:Hw. cbn.
  by eapply stored_submissions.
Qed.

Lemma quiet_map_err {F A} (f : F -> E) (c : io F A) : quiet c -> quiet (io_map_err f c).
Proof. intros H w. specialize (H w). unfold io_map_err. by destruct (c w). Qed.

Lemma quiet_bind {A B} (c : io E A) (f : A -> io E B) :
  quiet c -> (forall a, quiet (f a)) -> quiet (c ≫= f).
Proof.
  intros Hc Hf w. unfold mbind, io_bind. specialize (Hc w).
  destruct (c w) as [[a|e] w1]; cbn in *; [|done]. by rewrite Hf.
Qed.

Lemma keeps_bind {A B} id (c : io E A) (f : A -> io E B) :
  keeps_reserved id c -> (forall a, keeps_reserved id (f a)) -> keeps_reserved id (c ≫= f).
Proof.
  intros Hc Hf w row Hr Hs. unfold mbind, io_bind. specialize (Hc w row Hr Hs).
  destruct (c w) as [[a|e] w1]; cbn in *; [|done]. by apply Hf.
Qed.

Lemma keeps_map_err {F A} id (f : F -> E) (c : io F A) :
  keeps_reserved id c -> keeps_reserved id (io_map_err f c).
Proof. intros H w row Hr Hs. specialize (H w row Hr Hs). unfold io_map_err. by destruct (c w). Qed.

(** A bind ends in its first computation or goes on. *)
Lemma io_bind_cases {A B} (c : io E A) (f : A -> io E B) w r w' :
  (c ≫= f) w = (r, w') ->
  (exists e, c w = (Err e, w') /\ r = Err e) \/
  exists a w1, c w = (Ok a, w1) /\ f a w1 = (r, w').
Proof.
  unfold mbind, io_bind. destruct (c w) as [[a|e] w1]; intros H; [right; by exists a, w1|].
  left. exists e. by injection H as <- <-.
Qed.

Lemma io_require_Ok b (e : E) w u w' : io_require b e w = (Ok u, w') -> b = true /\ w' = w.
Proof. destruct b; cbn; [|done]. by intros [= <-]. Qed.

Lemma io_require_Err b (e e' : E) w w' : io_require b e w = (Err e', w') -> w' = w.
Proof. destruct b; cbn; [done|]. by intros [= _ <-]. Qed.

(** A quiet first step either ends the computation with nothing submitted or
    goes on with the submissions unchanged. *)
Lemma quiet_bind_cases {A B} (c : io E A) (f : A -> io E B) w r w' sent :
  quiet c -> w_submissions w = sent -> (c ≫= f) w = (r, w') ->
  (w_submissions w' = sent /\ forall b, r <> Ok b) \/
  exists a w1, c w = (Ok a, w1) /\ w_submissions w1 = sent /\ f a w1 = (r, w').
Proof.
  intros Hc Hw H. specialize (Hc w).
  apply io_bind_cases in H as [(e & H & ->)|(a & w1 & H & Hf)]; rewrite H in Hc; cbn in Hc.
  - left. by rewrite Hc.
  - right. exists a, w1. by rewrite Hc.
Qed.

End Quiet.

Create HintDb quiet.
#[export] Hint Resolve quiet_lift quiet_ret quiet_err quiet_require quiet_query quiet_call_with
  quiet_map_err : quiet.
Ltac quiet_step :=
  lazymatch goal with
  | |- quiet (_ ≫= _) => apply quiet_bind; [|intros ?]
  | |- quiet (io_map_err _ _) => apply quiet_map_err
  | |- quiet (match _ with _ => _ end) => case_match
  | |- quiet _ => solve [eauto 3 with quiet]
  end.

Tactic Notation "next_stage" hyp(H) ident(Hs) uconstr(Hw) uconstr(Hq) "as"
    simple_intropattern(a) simple_intropattern(w) simple_intropattern(Ha) :=
  let G := fresh in
  destruct (quiet_bind_cases _ _ _ _ _ _ Hq Hw H) as [G|(a & w & Ha & Hs & G)];
  [by left|]; clear H; rename G into H; cbv beta iota in H.

(** What the preflight relies on: the surroundings have no way to submit, and
    while the signing gate is observed only the preflight moves its own
    reserved row. *)
Class PreflightProviderLaws (P : PreflightProviders) (id : TransactionId) : Prop := {
  head_quiet stage : quiet (head_latest stage);
  nonce_quiet signer : quiet (confirmed_nonce signer);
  call_quiet from target data block : quiet (simulate_call from target data block);
  gas_quiet from target data block : quiet (simulate_gas from target data block);
  lane_quiet signer : quiet (signer_uses_big_blocks signer);
  gate_head_keeps : keeps_reserved id (head_latest GateHead);
  gate_nonce_keeps signer : keeps_reserved id (confirmed_nonce signer);
}.
Class PreflightSourceLaws (X : ExactPreflightSource) (id : TransactionId) : Prop := {
  cursor_quiet stage : quiet (event_cursor stage);
  rebuild_quiet head scenarios : quiet (rebuild_plan head scenarios);
  invalidation_quiet context : quiet (invalidation_queued context);
  gate_cursor_keeps : keeps_reserved id (event_cursor GateCursor);
  gate_invalidation_keeps context : keeps_reserved id (invalidation_queued context);
}.
Class PreflightLaws (P : PreflightProviders) (X : ExactPreflightSource) (id : TransactionId)
    : Prop := {
  provider_laws :: PreflightProviderLaws P id;
  source_laws :: PreflightSourceLaws X id;
}.
#[export] Hint Resolve head_quiet nonce_quiet call_quiet gas_quiet lane_quiet cursor_quiet
  rebuild_quiet invalidation_quiet provider_laws source_laws : quiet.

Section Preflight.
Context `{HK : Keccak} `{HA : AbiParams} `{HC : AbiCaps} `{HJ : PlanJson} `{HB : VaultAbi}.
Context `{HE : Envelope2718} (S : RoutineSigner) `{HL : !RoutineSignerLaws S}.
Context `{HU : SignedTransactionSubmitter}.
Context (P : PreflightProviders) (X : ExactPreflightSource).
Context (request : ExecutePreflightRequest) `{HW : !PreflightLaws P X (er_transaction_id request)}.
Context (config : ValidatedConfig) (vault : ValidatedVaultConfig) (clock : PreflightClock).

Lemma lane_ready_quiet : quiet (lane_ready config vault).
Proof using HW. unfold lane_ready, stored_pf. repeat quiet_step. Qed.

Lemma rebuild_is_quiet : quiet (rebuild config vault request).
Proof using HW. unfold rebuild, validate_rolling_movement, stored_pf. repeat quiet_step. Qed.

Lemma simulate_plan_quiet prepared : quiet (simulate_plan config vault request prepared).
Proof using HW. unfold simulate_plan. cbv zeta. repeat quiet_step. Qed.

Lemma make_durable_quiet prepared simulated : quiet (make_durable clock request prepared simulated).
Proof.
  unfold make_durable, stored_pf, reserve_durable_rebalance, durable, call. cbv zeta.
  repeat quiet_step.
Qed.

Lemma observe_gate_quiet context : quiet (observe_gate clock vault context).
Proof using HW. unfold observe_gate. repeat quiet_step. Qed.

Lemma observe_gate_keeps context :
  keeps_reserved (er_transaction_id request) (observe_gate clock vault context).
Proof using HW.
  unfold observe_gate.
  apply keeps_bind; [apply keeps_map_err, gate_head_keeps|intros ?].
  apply keeps_bind; [apply keeps_map_err, gate_cursor_keeps|intros ?].
  apply keeps_bind; [apply keeps_map_err, gate_nonce_keeps|intros ?].
  apply keeps_bind; [apply keeps_map_err, gate_invalidation_keeps|intros ?].
  by apply keeps_bind; [|intros ?]; intros w row Hf _.
Qed.

Lemma pass_gate_quiet head durable gate : quiet (pass_gate config request head durable gate).
Proof. unfold pass_gate, abort_unsigned_rebalance, Signer.durable, call. repeat quiet_step. Qed.

Lemma sign_quiet durable id : quiet (sign_durable_rebalance durable id).
Proof. unfold sign_durable_rebalance, Signer.durable, call. repeat quiet_step. Qed.

(** ** What each stage has established *)

(** The plan is one of this vault at one canonical head. *)
Definition in_context (prepared : PreparedPreflightPlan) : Prop :=
  Forall (fun block => block = planning_head prepared) (scenario_heads (pf_scenarios prepared)) /\
  pl_vault (vp_plan (pf_plan prepared)) = vv_address vault /\
  if pinned config then snapshot_head (pf_plan prepared) = planning_head prepared
  else blk_number (snapshot_head (pf_plan prepared)) <= blk_number (planning_head prepared).

(** In the durable state [s], the movement fits both rolling budgets. *)
Definition within_budgets (s : JsonState) (prepared : PreparedPreflightPlan) : Prop :=
  let movement := pp_movement_assets (pl_projection (vp_plan (pf_plan prepared))) in
  let now := blk_timestamp (planning_head prepared) in
  exists hourly daily,
    movement_since s (vv_address vault) (saturating_sub now 3600) = Ok hourly /\
    movement_since s (vv_address vault) (saturating_sub now 86400) = Ok daily /\
    hourly + movement <= vv_maximum_movement_per_hour_assets vault /\
    daily + movement <= vv_maximum_movement_per_day_assets vault.

Definition gate_open (head : BlockRef) (gate : GateObservation) : Prop :=
  go_nonce gate = er_nonce request /\ go_invalidated gate = false /\
  go_elapsed_millis gate
    <= vs_maximum_snapshot_to_sign_latency_millis (ac_snapshot (vg_app config)) /\
  (pinned config = true -> go_head gate = head /\ go_cursor gate = head).

(** The durable row and attempt of the signed bytes. *)
Definition signed_durably (s : JsonState) (prepared : PreparedPreflightPlan)
    (transaction : ValidatedRoutineTransaction) (signed : SignedEnvelope) : Prop :=
  let head := planning_head prepared in
  (exists row, find (has_id (er_transaction_id request)) (js_transactions s) = Some row /\
     tx_state row = Signed /\
     tx_reservation row = reservation_of (pf_plan prepared) transaction
       (er_transaction_id request) (blk_number head) (blk_timestamp head) /\
     tx_raw_signed_transaction row = Some (se_raw_transaction signed) /\
     tx_transaction_hash row = Some (se_transaction_hash signed)) /\
  exists a, a ∈ js_transaction_attempts s /\ sa_kind a = Initial /\
    sa_transaction_id a = er_transaction_id request /\
    sa_transaction_hash a = se_transaction_hash signed /\
    sa_raw_signed_transaction a = se_raw_transaction signed /\ sa_broadcast_at a = None.

(** The row after a recorded broadcast. *)
Definition submitted_durably (s : JsonState) (head : BlockRef) (signed : SignedEnvelope) : Prop :=
  (exists row, find (has_id (er_transaction_id request)) (js_transactions s) = Some row /\
     tx_state row = Submitted /\
     tx_raw_signed_transaction row = Some (se_raw_transaction signed) /\
     tx_transaction_hash row = Some (se_transaction_hash signed)) /\
  exists a, a ∈ js_transaction_attempts s /\ sa_transaction_id a = er_transaction_id request /\
    sa_transaction_hash a = se_transaction_hash signed /\
    sa_broadcast_at a = Some (blk_timestamp head).

Lemma exceeds_false used proposed maximum :
  exceeds used proposed maximum = false -> used + proposed <= maximum.
Proof.
  unfold exceeds. destruct (checked_add _ _ _) eqn:E; [|done]. apply checked_add_Some in E.
  intros H. bool_spec H. lia.
Qed.

Lemma rebuild_Ok w prepared context w' :
  rebuild config vault request w = (Ok (prepared, context), w') ->
  in_context prepared /\ within_budgets (w_storage w') prepared.
Proof.
  unfold rebuild. intros H. io_step H as head w1 H1. io_step H as u w2 H2.
  io_step H as sc w3 H3. io_step H as [prep ctx] w4 H4. io_step H as u' w5 H5.
  apply io_require_Ok in H5 as [H5 ->]. io_step H as u'' w6 H6. cbn [fst] in *. injection H as <- <- <-.
  unfold validate_rolling_movement in H6. io_step H6 as hourly w7 H7. io_step H6 as daily w8 H8.
  apply query_Ok in H7 as [H7 ->], H8 as [H8 ->]. apply io_require_Ok in H6 as [H6 ->].
  apply negb_true_iff, orb_false_iff in H6 as [Hh%exceeds_false Hd%exceeds_false].
  split; [|by exists hourly, daily].
  unfold context_mismatch in H5. apply negb_true_iff in H5. cbv zeta in H5.
  apply orb_false_iff in H5 as [[Hs Hv]%orb_false_iff Hp]. unfold in_context. split.
  - apply Forall_forall. intros block Hin. apply existsb_false_filter in Hs.
    destruct (decide (block = planning_head prep)) as [|Hne]; [done|].
    exfalso. eapply elem_of_nil. rewrite <- Hs. apply list_elem_of_In, filter_In.
    split; [by apply list_elem_of_In|]. by rewrite bool_decide_eq_false_2.
  - bool_spec Hv. split; [done|]. destruct (pinned config); bool_spec Hp; [done|lia].
Qed.

Lemma simulate_plan_Ok w prepared simulated w' :
  simulate_plan config vault request prepared w = (Ok simulated, w') ->
  let plan := pf_plan prepared in
  let fields := routine_fields config vault request (encode_validated_plan plan)
                  (sm_gas_limit simulated) in
  signed_gas_limit (sm_gas_estimate simulated) (ex_gas_headroom_bps (ac_execution (vg_app config)))
    (ex_maximum_signed_transaction_gas (ac_execution (vg_app config)))
    = Ok (sm_gas_limit simulated) /\
  validate_top_k_economic_gate plan (sm_gas_limit simulated) (er_max_fee_per_gas request) vault
    config = Ok tt /\
  validate_routine_transaction plan fields (vc_chain_id (ac_chain (vg_app config))) vault
    (ac_execution (vg_app config)) = Ok (sm_transaction simulated).
Proof.
  unfold simulate_plan. cbv zeta. intros H. io_step H as acts w1 H1. io_step H as head w2 H2.
  io_step H as out w3 H3. io_step H as gas w4 H4. io_step H as limit w5 H5.
  io_step H as u w6 H6. io_step H as tr w7 H7. injection H as <- <-.
  apply io_lift_Ok in H5 as [H5 _], H6 as [H6 _], H7 as [H7 _]. destruct u. done.
Qed.

Lemma make_durable_Ok w prepared simulated durable w' :
  make_durable clock request prepared simulated w = (Ok durable, w') ->
  ds_transaction_id durable = er_transaction_id request /\
  ds_transaction durable = sm_transaction simulated /\
  find (has_id (er_transaction_id request)) (js_transactions (w_storage w')) =
    Some (fresh_row (reservation_of (pf_plan prepared) (sm_transaction simulated)
      (er_transaction_id request) (blk_number (planning_head prepared))
      (blk_timestamp (planning_head prepared)))).
Proof.
  unfold make_durable. cbv zeta. intros H. io_step H as u w1 H1. io_step H as n w2 H2.
  io_step H as u' w3 H3. apply io_map_err_Ok, reserve_durable_Ok in H as (_ & Hid & Ht & _ & _ & Hf).
  done.
Qed.

Lemma pass_gate_Ok head durable gate w u w' :
  pass_gate config request head durable gate w = (Ok u, w') -> gate_open head gate /\ w' = w.
Proof.
  unfold pass_gate. destruct (_ || _) eqn:Eg.
  - intros H. by io_step H as v w1 H1.
  - intros [= _ <-]. split; [|done]. unfold latency_exceeded, strict_context_changed in Eg.
    apply orb_false_iff in Eg as [[[Hs Hi]%orb_false_iff Hn]%orb_false_iff Hl].
    bool_spec Hn. bool_spec Hl. unfold gate_open. split; [done|]. split; [done|]. split; [lia|].
    intros Hp. rewrite Hp in Hs. cbn [andb] in Hs. apply orb_false_iff in Hs as [Hh Hc].
    bool_spec Hh. split; [done|]. unfold require_cursor, require_head in Hc.
    case_bool_decide; done.
Qed.

Lemma sign_Ok w prepared transaction durable signed w' :
  sign_durable_rebalance durable (er_signer_request_id request) w = (Ok signed, w') ->
  ds_transaction_id durable = er_transaction_id request -> ds_transaction durable = transaction ->
  find (has_id (er_transaction_id request)) (js_transactions (w_storage w)) =
    Some (fresh_row (reservation_of (pf_plan prepared) transaction (er_transaction_id request)
      (blk_number (planning_head prepared)) (blk_timestamp (planning_head prepared)))) ->
  carries signed (rt_from (vt_fields transaction)) (eip1559 transaction) /\
  signed_durably (w_storage w') prepared transaction signed.
Proof using HL.
  intros H Hid Ht Hf. unfold sign_durable_rebalance in H.
  destruct (sign_rebalance _) as [env'|e] eqn:Hsign; [|by io_step H as u w3 Hu].
  io_step H as u w3 Hu. injection H as -> ->. apply from_storage_Ok in Hu.
  apply call_Ok in Hu as (next & Hm & Hc & _).
  apply sign_rebalance_carries in Hsign. cbn in Hsign. rewrite Ht in Hsign.
  destruct (persist_signed_durable _ _ _ _ Hm Hc) as (row & Hrow & _ & Hin & a & Ha).
  cbn in Hrow, Hin, Ha. rewrite Hid in *. rewrite Hf in Hrow. injection Hrow as <-.
  split; [exact Hsign|]. split; [|by exists a]. eexists. split; [exact Hin|]. done.
Qed.

Lemma broadcast_spec head signed w r w' row :
  broadcast config clock request head signed w = (r, w') ->
  find (has_id (er_transaction_id request)) (js_transactions (w_storage w)) = Some row ->
  tx_state row = Signed ->
  tx_raw_signed_transaction row = Some (se_raw_transaction signed) ->
  (w_submissions w' = w_submissions w /\ forall h, r <> Ok h) \/
  w_submissions w' = w_submissions w ++ [(se_raw_transaction signed, w_storage w)] /\
  forall h, r = Ok h -> h = se_transaction_hash signed /\ submitted_durably (w_storage w') head signed.
Proof.
  intros H Hrow Hst Hraw. unfold broadcast in H.
  apply io_bind_cases in H as [(e & H1 & ->)|(u & w1 & H1 & H)].
  { left. by apply io_require_Err in H1 as ->. }
  apply io_require_Ok in H1 as [_ ->]. unfold mbind at 1, io_bind at 1, submit_io at 1 in H. right.
  set (w0 := mkWorld _ _) in H.
  assert (w_submissions w0 = w_submissions w ++ [(se_raw_transaction signed, w_storage w)])
    as Hw0 by done.
  apply io_bind_cases in H as [(e & H1 & ->)|(u1 & w1 & H1 & H)];
    pose proof (stored_submissions _ _ _ _ _ H1) as Hs1; [by rewrite Hs1|].
  apply from_storage_Ok, call_Ok in H1 as (n1 & Hm1 & Hc1 & _).
  pose proof (record_broadcast_durable _ _ _ _ _ _ _ row Hm1 Hc1 Hrow ltac:(by rewrite Hst)) as Hrow1.
  apply io_bind_cases in H as [(e & H1 & ->)|(h & w2 & H1 & H)].
  { apply (f_equal snd) in H1. cbn in H1. subst w'. by rewrite Hs1. }
  apply io_lift_Ok in H1 as [Hh ->].
  apply io_bind_cases in H as [(e & H1 & ->)|(u2 & w2 & H1 & H)].
  { apply io_require_Err in H1 as ->. by rewrite Hs1. }
  apply io_require_Ok in H1 as [Eh ->]. bool_spec Eh.
  apply io_bind_cases in H as [(e & H1 & ->)|(u3 & w2 & H1 & H)];
    pose proof (stored_submissions _ _ _ _ _ H1) as Hs2; [by rewrite Hs2, Hs1|].
  apply from_storage_Ok, call_Ok in H1 as (n2 & Hm2 & Hc2 & _).
  destruct (broadcast_transition_durable _ _ _ _ _ Hm2 Hc2 eq_refl Hrow1)
    as (_ & Hrow2 & a & hash & Ha & Hha & Hid & Hah & Hbc).
  assert (w' = w2 /\ forall h', r = Ok h' -> h' = h) as [-> Hr].
  { apply io_bind_cases in H as [(e & H1 & ->)|(u4 & w3 & H1 & H)].
    - by apply io_require_Err in H1 as ->.
    - apply io_require_Ok in H1 as [_ ->]. injection H as <- <-. split; [done|]. by intros h' [= <-]. }
  split; [by rewrite Hs2, Hs1|]. intros h' Hok. apply Hr in Hok as ->. split; [done|]. split.
  - eexists. split; [exact Hrow2|]. split; [done|]. by rewrite <-Hraw.
  - exists a. cbn in Hha, Hid, Hah, Hbc. injection Hha as <-. done.
Qed.

Lemma acquired_free manager m lease :
  acquire manager vault = Ok (m, lease) ->
  exists held, manager = Some held /\ vault_resources vault ## held.
Proof.
  unfold acquire. intros H. step_ok H as held Hh. apply ok_or_Ok in Hh. exists held. split; [done|].
  destruct (negb _) eqn:Eb in H; [done|]. bool_spec Eb. by apply disjoint_intersection_L.
Qed.

Lemma routine_sender plan calldata gas chain execution t :
  validate_routine_transaction plan (routine_fields config vault request calldata gas) chain vault
    execution = Ok t -> rt_from (vt_fields t) = vv_signer_address vault.
Proof.
  by intros (-> & _)%validate_routine_transaction_Ok.
Qed.

(** The cases of one preflight. *)
Lemma preflight_cases manager w r w' :
  execute_one_head_preflight manager config vault clock request w = (r, w') ->
  (w_submissions w' = w_submissions w /\ forall o, r <> Ok o) \/
  exists held prepared context simulated gate signed w0 w1 w2 w3 s,
    manager = Some held /\ vault_resources vault ## held /\
    rebuild config vault request w0 = (Ok (prepared, context), w1) /\ in_context prepared /\
    within_budgets (w_storage w1) prepared /\
    validate_top_k_economic_gate (pf_plan prepared) (sm_gas_limit simulated)
      (er_max_fee_per_gas request) vault config = Ok tt /\
    validate_routine_transaction (pf_plan prepared)
      (routine_fields config vault request (encode_validated_plan (pf_plan prepared))
         (sm_gas_limit simulated))
      (vc_chain_id (ac_chain (vg_app config))) vault (ac_execution (vg_app config))
      = Ok (sm_transaction simulated) /\
    observe_gate clock vault context w2 = (Ok gate, w3) /\ gate_open (planning_head prepared) gate /\
    carries signed (vv_signer_address vault) (eip1559 (sm_transaction simulated)) /\
    signed_durably s prepared (sm_transaction simulated) signed /\
    w_submissions w' = w_submissions w ++ [(se_raw_transaction signed, s)] /\
    forall o, r = Ok o -> sp_submitted_hash o = se_transaction_hash signed /\
      submitted_durably (w_storage w') (planning_head prepared) signed.
Proof using HL HW.
  unfold execute_one_head_preflight, execute_under_lease. intros H.
  next_stage H S0 eq_refl (quiet_lift PfReservation (acquire manager vault)) as [m lease] w0 H0.
  apply io_lift_Ok in H0 as [H0 ->].
  next_stage H S1 S0 lane_ready_quiet as u w0 H1.
  next_stage H S2 S1 rebuild_is_quiet as [prepared context] w1 H2.
  next_stage H S3 S2 (simulate_plan_quiet prepared) as simulated w2 H3.
  next_stage H S4 S3 (make_durable_quiet prepared simulated) as durable w3 H4.
  next_stage H S5 S4 (observe_gate_quiet context) as gate w4 H5.
  next_stage H S6 S5 (pass_gate_quiet (planning_head prepared) durable gate) as u1 w5 H6.
  next_stage H S7 S6 (quiet_map_err PfSigning _ (sign_quiet durable (er_signer_request_id request)))
    as signed w6 H7.
  destruct (rebuild_Ok _ _ _ _ H2) as [Hctx Hbud].
  destruct (simulate_plan_Ok _ _ _ _ H3) as (_ & Heco & Hfw).
  destruct (make_durable_Ok _ _ _ _ _ H4) as (Hid & Htx & Hrow).
  pose proof (observe_gate_keeps context _ _ Hrow eq_refl) as Hrow'. rewrite H5 in Hrow'. cbn in Hrow'.
  apply pass_gate_Ok in H6 as [Hopen ->]. apply io_map_err_Ok in H7.
  destruct (sign_Ok _ _ _ _ _ _ H7 Hid Htx Hrow') as [Hcar Hdur].
  pose proof Hdur as [(row & Hfind & Hst & _ & Hraw & _) _].
  destruct (acquired_free _ _ _ H0) as (held & -> & Hfree).
  rewrite (routine_sender _ _ _ _ _ _ Hfw) in Hcar.
  apply io_bind_cases in H as [(e & H & ->)|(h & w7 & H & Hret)];
    destruct (broadcast_spec _ _ _ _ _ _ H Hfind Hst Hraw) as [[Hs Hn]|[Hs Hdone]].
  - left. by rewrite Hs.
  - right. exists held, prepared, context, simulated, gate, signed, w0, w1, w3, w4, (w_storage w6).
    rewrite S7 in Hs. split_and!; try done.
  - by destruct (Hn h).
  - right. exists held, prepared, context, simulated, gate, signed, w0, w1, w3, w4, (w_storage w6).
    rewrite S7 in Hs. injection Hret as <- <-. split_and!; try done.
    intros o [= <-]. by apply Hdone.
Qed.

(** C37: Whatever the providers and the source answer and other tasks commit,
    one preflight either submits nothing and returns no submission, or submits
    exactly one signed transaction, under a lease that overlaps no other: the
    plan is one of this vault at one canonical head and its movement fits both
    rolling budgets; the transaction passed the economic gate and the firewall
    with the requested nonce; the signing gate saw this nonce, no queued
    invalidation, an acceptable latency and, when blocks are pinned, the
    planning head as head and cursor; the bytes carry exactly this transaction
    and at the submission the reservation of it was durable as signed with an
    attempt not yet broadcast. A returned submission has the signed hash and is
    durable as submitted. *)
Theorem final_preflight_guarded manager w r w' :
  execute_one_head_preflight manager config vault clock request w = (r, w') ->
  (w_submissions w' = w_submissions w /\ forall o, r <> Ok o) \/
  exists held prepared context simulated gate signed w0 w1 w2 w3 s,
    manager = Some held /\ vault_resources vault ## held /\
    rebuild config vault request w0 = (Ok (prepared, context), w1) /\ in_context prepared /\
    within_budgets (w_storage w1) prepared /\
    validate_top_k_economic_gate (pf_plan prepared) (sm_gas_limit simulated)
      (er_max_fee_per_gas request) vault config = Ok tt /\
    validate_routine_transaction (pf_plan prepared)
      (routine_fields config vault request (encode_validated_plan (pf_plan prepared))
         (sm_gas_limit simulated))
      (vc_chain_id (ac_chain (vg_app config))) vault (ac_execution (vg_app config))
      = Ok (sm_transaction simulated) /\
    observe_gate clock vault context w2 = (Ok gate, w3) /\ gate_open (planning_head prepared) gate /\
    carries signed (vv_signer_address vault) (eip1559 (sm_transaction simulated)) /\
    signed_durably s prepared (sm_transaction simulated) signed /\
    w_submissions w' = w_submissions w ++ [(se_raw_transaction signed, s)] /\
    forall o, r = Ok o -> sp_submitted_hash o = se_transaction_hash signed /\
      submitted_durably (w_storage w') (planning_head prepared) signed.
Proof using HL HW. apply preflight_cases. Qed.

End Preflight.
