(* ===== verification/SigningExample.v ===== *)
(** * Signed transactions of the example vault

    Signing, replacing and submitting through the local development signer
    over a concrete envelope coder, and one run of the final preflight, with
    the applications of the theorems about them. *)
From Stdlib Require Import ZArith Lia List Bool String.
From stdpp Require Import base gmap sets strings list.
From S2P Require Import Prelude.
From S2P Require Import Domain.
From S2P Require Import Config.
From S2P Require Import Caps.
From S2P Require Import Simulator.
From S2P Require Import SimulatorProofs.
From S2P Require Import Models.
From S2P Require Import Storage.
From S2P Require Import Actor.
From S2P Require Import StorageProofs.
From S2P Require Import StorageExample.
From S2P Require Import Provider.
From S2P Require Import Calldata.
From S2P Require Import Firewall.
From S2P Require Import FirewallExample.
From S2P Require Import Signer.
From S2P Require Import Pending.
From S2P Require Import SigningProofs.
From S2P Require Import FinalPreflight.
From S2P Require Import FinalPreflightProofs.
Open Scope Z_scope.

(** ** Signing and replacing a transaction

    The applications of the theorems of [Signer] and [SigningProofs]: a reserved
    and signed transaction, and a fee replacement of the submitted transaction
    of [StorageExample], both through the local development signer over a
    concrete envelope coder. *)

#[local] Existing Instance sum_keccak.

(** One word per field, then the input; transactions with an access list are
    not coded. *)
Definition encode_signed (signer : Address) (t : TxEip1559) : option Bytes :=
  if bool_decide (tx_access_list t = []) then
    Some ([signer; tx_chain_id t; tx_nonce t; tx_gas_limit t; tx_max_fee_per_gas t;
           tx_max_priority_fee_per_gas t; tx_to t; tx_value t] ++ tx_input t)
  else None.

#[local] Instance word_envelope : Envelope2718 := {|
  decode_2718 raw :=
    match raw with
    | signer :: chain :: nonce :: gas :: maximum :: priority :: to :: value :: input =>
        Some (Eip1559 (mkSignedEip1559 (mkTxEip1559 chain nonce gas maximum priority to value [] input)
                         [signer] (keccak256 raw)), [])
    | _ => None
    end;
  recover_signer signed := head (s1_signature signed);
|}.

Definition local : RoutineSigner := LocalDevelopmentRoutineSigner signer (encode_signed signer).
#[local] Existing Instance local.

(** The provider acknowledges the hash of the bytes. *)
Definition acknowledging : SignedTransactionSubmitter := fun raw => Ok (keccak256 raw).

(** ** Signing a reserved transaction *)

Definition maintenance_plan : V2Plan :=
  mkV2Plan 40 LiquidityMaintenance 1 (ev_context Example.snapshot) 0 0 0 0 0 acts
    (mkPlanProjection 5000 100 50 1 0 0) (mkSolverCertificate 0 1 1 true None None false false)
    None 12.

Definition transaction : ValidatedRoutineTransaction :=
  mkValidatedRoutineTransaction (mkRoutineTransactionFields 1 signer 1 0 100 5 1 0 [1; 2]) 12.

Definition before : World :=
  mkWorld (with_snapshots JsonState_default [mkTimedSnapshot Example.snapshot 40]) [].

Definition reserved : result SigningBoundaryError DurableSigningRequest * World :=
  persist_unsigned_rebalance (mkValidatedPlan maintenance_plan) transaction 1 50 before.

Lemma signed_runs :
  match reserved with
  | (Ok request, w) => is_ok (fst (sign_durable_rebalance request 7 w)) = true
  | (Err _, _) => False
  end.
Proof. vm_compute. reflexivity. Qed.

Lemma signed_bytes_durable_witness : exists request env w w',
  reserved = (Ok request, w) /\ sign_durable_rebalance request 7 w = (Ok env, w') /\
  w_submissions w' = [] /\
  exists row, row ∈ js_transactions (w_storage w') /\ tx_state row = Signed.
Proof.
  pose proof signed_runs as Hok. destruct reserved as [[request|] w] eqn:Hr; [|done].
  destruct (sign_durable_rebalance request 7 w) as [[env|] w'] eqn:He; [|done].
  exists request, env, w, w'. split; [reflexivity|]. split; [exact He|].
  unfold reserved in Hr.
  destruct (signed_bytes_durable local _ _ _ _ _ _ _ _ _ _ Hr He)
    as (Hs & _ & (row & Hin & Hst & _) & _).
  split; [exact Hs|]. exists row. split; [exact Hin|exact Hst].
Defined.

(** ** Replacing a submitted transaction *)

Definition pending : ValidatedPendingTransaction := from_submitted 1 transaction.

Definition replace_request : PendingAttemptRequest :=
  mkPendingAttemptRequest pending Submitted Replace 8 6 2 0 61 11.

Definition submitted : World := mkWorld StorageExample.broadcast [].

Definition replaced : result PendingPolicyError PendingAttemptOutcome * World :=
  execute_pending_attempt (HB := acknowledging) execution replace_request submitted.

Example replacement_runs :
  tx_state <$> js_transactions (w_storage (snd replaced)) = [Replaced] /\
  length (w_submissions (snd replaced)) = 1%nat.
Proof. vm_compute. done. Qed.

Lemma replaced_runs :
  is_ok (fst (execute_pending_attempt (HB := acknowledging) execution replace_request submitted))
  = true.
Proof. vm_compute. reflexivity. Qed.

Lemma pending_attempt_durable_witness : exists o env w,
  execute_pending_attempt (HB := acknowledging) execution replace_request submitted = (Ok o, w) /\
  durably_broadcast (w_storage w) replace_request env Replaced.
Proof.
  pose proof replaced_runs as Hok.
  destruct (execute_pending_attempt _ _ _) as [[o|] w] eqn:Hr; [|done].
  exists o.
  destruct (pending_attempt_durable (HB := acknowledging) local _ _ _ _ _ Hr)
    as [[_ Hn]|(kind & st & next & env & s1 & Hst & _ & _ & _ & _ & _ & Hd)].
  - by destruct (Hn o).
  - injection Hst as <- <- <-. exists env, w. split; [reflexivity|].
    by destruct (Hd o eq_refl) as (_ & H & _).
Defined.

(** The signer confined on that replacement. *)
Lemma signer_confined_witness : exists env tx,
  sign_replacement (mkSignReplacementRequest 8 pending 6 2) = Ok env /\ carries env signer tx /\
  tx_nonce tx = 0 /\ tx_input tx = [1; 2] /\ 5 < tx_max_fee_per_gas tx.
Proof.
  destruct (signer_confined_to_the_lane local) as [Hr _].
  destruct (Hr (mkSignReplacementRequest 8 pending 6 2)
              (mkSignedEnvelope [9; 1; 0; 100; 6; 2; 1; 0; 1; 2] 9
                 (keccak256 [9; 1; 0; 100; 6; 2; 1; 0; 1; 2])))
    as (tx & Hc & Hf & Hm & _); [vm_compute; reflexivity|].
  eexists. exists tx. split; [vm_compute; reflexivity|]. split; [exact Hc|].
  unfold with_fees in Hf. cbn in Hf, Hm. injection Hf as _ Hn _ _ _ _ Hi. auto.
Defined.

Definition clock : PendingClock :=
  mkPendingClock RateRebalance 3 5 (mkTouchedResources 1 [21; 22] [31] [11; 12]).

Definition quiet : PendingSafetySignals :=
  mkPendingSafetySignals false false false false false false false.

Lemma pending_decision_exact_witness :
  assess_pending clock 10 quiet execution = Ok Replace.
Proof.
  destruct (pending_decision_exact clock 10 quiet execution) as (d & Hd & _ & Hq);
    [cbn; lia|cbn; lia|cbn; lia|done|].
  destruct (Hq eq_refl) as [_ Hr]. rewrite Hd. f_equal. apply Hr.
  split; [intros H; unfold invalidated in H; cbn in H; intuition discriminate|].
  split; [intros (h & [= <-] & _ & Hh); cbn in Hh; lia|cbn; lia].
Defined.

(** ** One preflight run

    A run of the final preflight on the example vault through the local
    development signer, and the application of its theorem to it. *)

Module PreflightExample.

#[local] Existing Instance sum_keccak.
#[local] Existing Instance word_abi.
#[local] Existing Instance word_envelope.
#[local] Existing Instance local.
#[local] Existing Instance acknowledging.
#[local] Existing Instance example_json.

#[local] Instance word_caps : AbiCaps := {|
  abi_encode_this a := [a];
  abi_encode_collateral a := [1; a];
  abi_encode_market a p := [2; a; mp_collateral_token p];
|}.

(** The example vault with movement budgets and the local signer. *)
Definition funded : ValidatedVaultConfig :=
  mkValidatedVaultConfig "example"%string 1 1 6 0 0 signer SpreadEqualization false 1 0 10 0 0
    5000 20000 0 0 0 0 1000 0 false false false false 0 0 [] []
    (mkValidatedRateGroupConfig "group"%string 0 0 0 1000000000000 false) [] None
    [FirewallExample.configured 21 2; FirewallExample.configured 22 9].

Definition head : BlockRef := ctx_block (ev_context Example.snapshot).

#[local] Instance steady : PreflightProviders := {|
  head_latest _ := mret head;
  confirmed_nonce _ := mret 3;
  simulate_call _ _ _ _ := mret [];
  simulate_gas _ _ _ _ := mret 100000;
  signer_uses_big_blocks _ := mret false;
|}.

Definition prepared (scenarios : Scenarios) : PreparedPreflightPlan :=
  mkPreparedPreflightPlan (mkValidatedPlan maintenance_plan)
    [mkActionProjection 21 5000 10 0 (-5000) 0; mkActionProjection 22 5000 10 0 5000 0] scenarios.

#[local] Instance exact : ExactPreflightSource := {|
  event_cursor _ := mret head;
  read_set := unit;
  rebuild_plan _ scenarios := mret (prepared scenarios, tt);
  invalidation_queued _ := mret false;
|}.

#[local] Instance example_laws id : PreflightLaws steady exact id.
Proof. split; split; intros; first [done | by intros w row Hf _]. Qed.

Definition request : ExecutePreflightRequest := mkExecutePreflightRequest 1 7 3 40 2.
Definition readings : PreflightClock := mkPreflightClock 5000000 5 1 2.

Definition run : result PreflightError SubmittedPreflight * World :=
  execute_one_head_preflight (Some ∅) config funded readings request before.

Lemma run_submits : is_ok (fst run) = true.
Proof. vm_compute. reflexivity. Qed.

Lemma final_preflight_guarded_witness : exists o w signed s,
  run = (Ok o, w) /\ w_submissions w = [(se_raw_transaction signed, s)] /\
  exists transaction, carries signed signer (eip1559 transaction).
Proof.
  pose proof run_submits as Hok. destruct run as [[o|] w] eqn:Hr; [|done].
  unfold run in Hr.
  destruct (final_preflight_guarded local steady exact request config funded readings
              _ _ _ _ Hr)
    as [[_ Hn]|(held & prep & ctx & sim & gate & signed & w0 & w1 & w2 & w3 & s & _ & _ & Hb & _ & _ & _ &
        Hf & _ & _ & Hc & _ & Hs & _)].
  - by destruct (Hn o).
  - exists o, w, signed, s. split; [reflexivity|]. split; [exact Hs|].
    exists (sm_transaction sim). exact Hc.
Defined.

End PreflightExample.
