(* ===== verification/Heads.v ===== *)
(** * Canonical blocks

    The strict attribution of receipts and logs to a block, and the service
    that polls, rewinds, fetches and publishes the canonical chain. *)
From Stdlib Require Import ZArith Lia String.
From stdpp Require Import base gmap sets strings sorting pretty list.
From S2P Require Import Prelude.
From S2P Require Import Domain.
From S2P Require Import Models.
From S2P Require Import Storage.
From S2P Require Import Actor.
From S2P Require Import Provider.
From S2P Require Import Revision.
From S2P Require Import Logs.
Open Scope Z_scope.

(** ** Canonical receipts

    [chain/receipts.rs], [chain/provider_consensus.rs], the errors of
    [chain/mod.rs] and the messages of [runtime/messages.rs]: the strict
    attribution of provider receipts and logs to one block, and the agreement
    of independent optional views. *)

Inductive ChainError : Type :=
  | ChainProvider (e : ProviderError)
  | ChainStorage (e : StorageError)
  | InvalidBundle (reason : string)
  | ProviderViewInconsistent
  | DeepReorg (searched_blocks : Z)
  | ProviderDisagreement (block_number : Z)
  | ChannelClosed
  | ChannelTimeout
  | InvalidConfiguration (reason : string).

Record ReceiptRecord : Type := mkReceiptRecord {
  rt_transaction_hash : B256;
  rt_block_number : Z;
  rt_block_hash : B256;
  rt_transaction_index : Z;
  rt_status : option Z;
  rt_gas_used : Z;
  rt_logs : list CanonicalLogRecord;
}.

Record ProviderStatus : Type := mkProviderStatus {
  pv_provider : string;
  pv_reason : string;
}.

Record TransactionObservation : Type := mkTransactionObservation {
  tb_transaction_hash : B256;
  tb_sender : option Address;
  tb_input : option Bytes;
  tb_block : option BlockRef;
}.

Inductive ChainUpdate : Type :=
  | CanonicalHead (head : BlockRef)
  | CanonicalBlock (block : BlockRef) (receipts : list ReceiptRecord)
      (logs : list CanonicalLogRecord)
  | ReorgDetected (old_head new_head common_ancestor : BlockRef)
  | TransactionSeen (observation : TransactionObservation)
  | ProviderDegraded (status : ProviderStatus).

(** ** Attribution *)

Definition quantity (field value : string) : result ChainError Z :=
  map_err ChainProvider (parse_quantity field value).

Definition parse_optional_quantity (field : string) (value : option string)
    : result ChainError Z :=
  value ← ok_or value (InvalidBundle "required log quantity is absent");
  quantity field value.

(** The array of four optional topics. *)
Definition topic_slots (topics : list B256)
    : option B256 * option B256 * option B256 * option B256 :=
  (topics !! 0%nat, topics !! 1%nat, topics !! 2%nat, topics !! 3%nat).

Definition validate_log (chain_id : Z) (block : BlockRef) (receipt_transaction_hash : B256)
    (receipt_transaction_index : Z) (log : RpcLog) : result ChainError CanonicalLogRecord :=
  if lg_removed log then Err (InvalidBundle "canonical block response contains removed log")
  else
    block_number ← parse_optional_quantity "log.block_number" (lg_block_number log);
    block_hash ← ok_or (lg_block_hash log) (InvalidBundle "log has no block hash");
    transaction_hash ← ok_or (lg_transaction_hash log) (InvalidBundle "log has no transaction hash");
    transaction_index ← parse_optional_quantity "log.transaction_index" (lg_transaction_index log);
    log_index ← parse_optional_quantity "log.log_index" (lg_log_index log);
    if negb (block_number =? blk_number block) || negb (block_hash =? blk_hash block)
    then Err (InvalidBundle "log block identity mismatch")
    else if negb (transaction_hash =? receipt_transaction_hash)
            || negb (transaction_index =? receipt_transaction_index)
    then Err (InvalidBundle "log transaction identity mismatch")
    else if (4 <? length (lg_topics log))%nat
    then Err (InvalidBundle "log has more than four topics")
    else Ok (mkCanonicalLogRecord chain_id block_number block_hash transaction_hash
               transaction_index log_index (lg_address log) (topic_slots (lg_topics log))
               (lg_data log)).

Definition validate_receipt (chain_id : Z) (block : BlockRef) (receipt : RpcReceipt)
    : result ChainError ReceiptRecord :=
  block_number ← quantity "receipt.block_number" (rr_block_number receipt);
  if negb (block_number =? blk_number block) || negb (rr_block_hash receipt =? blk_hash block)
  then Err (InvalidBundle "receipt block number or hash mismatch")
  else
    transaction_index ← quantity "receipt.transaction_index" (rr_transaction_index receipt);
    status ← (match rr_status receipt with
              | Some value => status ← quantity "receipt.status" value; Ok (Some status)
              | None => Ok None
              end);
    gas_used ← quantity "receipt.gas_used" (rr_gas_used receipt);
    logs ← try_map (validate_log chain_id block (rr_transaction_hash receipt) transaction_index)
             (rr_logs receipt);
    if negb (strictly_increasing cl_log_index logs)
    then Err (InvalidBundle "receipt logs are not strictly ordered")
    else Ok (mkReceiptRecord (rr_transaction_hash receipt) block_number (rr_block_hash receipt)
               transaction_index status gas_used logs).

Definition sort_receipts (receipts : list ReceiptRecord) : list ReceiptRecord :=
  sort_by_key (fun receipt => [rt_transaction_index receipt]) receipts.

Definition validate_receipts (chain_id : Z) (block : BlockRef) (receipts : list RpcReceipt)
    : result ChainError (list ReceiptRecord) :=
  converted ← try_map (validate_receipt chain_id block) receipts;
  let converted := sort_receipts converted in
  if negb (bool_decide (NoDup (rt_transaction_index <$> converted)))
     || negb (bool_decide (NoDup (rt_transaction_hash <$> converted)))
  then Err (InvalidBundle "duplicate transaction receipt in block")
  else Ok converted.

Definition validate_standalone_log (chain_id : Z) (block : BlockRef) (log : RpcLog)
    : result ChainError CanonicalLogRecord :=
  transaction_hash ← ok_or (lg_transaction_hash log) (InvalidBundle "log has no transaction hash");
  transaction_index ← parse_optional_quantity "log.transaction_index" (lg_transaction_index log);
  validate_log chain_id block transaction_hash transaction_index log.

Definition watched_logs (receipts : list ReceiptRecord) (watched_addresses : gset Address)
    : list CanonicalLogRecord :=
  List.filter (fun log => bool_decide (cl_address log ∈ watched_addresses))
    (concat (rt_logs <$> receipts)).

(** ** Agreement of optional views *)

Inductive OptionalViewSelectionError (E : Type) : Type :=
  | Disagreement
  | Unavailable (error : E).
Arguments Disagreement {E}.
Arguments Unavailable {E}.

Section Views.
Context {T E : Type} `{EqDecision T}.

(** The loop over the views: the value and the first error seen so far. *)
Fixpoint select_views (observed : option T) (first_error : option E)
    (views : list (result E (option T))) : result (OptionalViewSelectionError E) (option T) :=
  match views with
  | [] =>
      match observed, first_error with
      | Some value, _ => Ok (Some value)
      | None, Some error => Err (Unavailable error)
      | None, None => Ok None
      end
  | Ok (Some value) :: views =>
      match observed with
      | Some known => if bool_decide (known = value) then select_views (Some value) first_error views
                      else Err Disagreement
      | None => select_views (Some value) first_error views
      end
  | Ok None :: views => select_views observed first_error views
  | Err error :: views =>
      select_views observed (match first_error with Some e => Some e | None => Some error end) views
  end.

Definition select_consistent_optional_view (views : list (result E (option T)))
    : result (OptionalViewSelectionError E) (option T) := select_views None None views.

(** The values the views report. *)
Definition reported (views : list (result E (option T))) : list T :=
  omap (fun view => match view with Ok value => value | Err _ => None end) views.
Definition failures (views : list (result E (option T))) : list E :=
  omap (fun view => match view with Ok _ => None | Err error => Some error end) views.

Lemma select_views_spec observed first_error views :
  select_views observed first_error views =
    match option_list observed ++ reported views with
    | [] => match option_list first_error ++ failures views with
            | [] => Ok None
            | error :: _ => Err (Unavailable error)
            end
    | value :: others =>
        if forallb (fun other => bool_decide (value = other)) others then Ok (Some value)
        else Err Disagreement
    end.
Proof.
  revert observed first_error. induction views as [|[[value|]|error] views IH];
    intros observed first_error; cbn.
  - destruct observed, first_error; done.
  - destruct observed as [known|]; cbn; rewrite IH; cbn; [|done].
    by destruct (decide (known = value)) as [<-|Hk];
      [rewrite !bool_decide_eq_true_2 by done|rewrite !bool_decide_eq_false_2 by done].
  - apply IH.
  - rewrite IH. unfold reported, failures. cbn. destruct observed; cbn; [done|].
    destruct (omap _ views); [|done]. by destruct first_error.
Qed.

(** The views agree exactly when all reported values are equal: their value is
    selected, an absence needs every view, and an error is reported only when
    nothing else is known. *)
Lemma select_view_exact views :
  select_consistent_optional_view views =
    match reported views with
    | [] => match failures views with
            | [] => Ok None
            | error :: _ => Err (Unavailable error)
            end
    | value :: others =>
        if forallb (fun other => bool_decide (value = other)) others then Ok (Some value)
        else Err Disagreement
    end.
Proof. apply select_views_spec. Qed.

End Views.

(** ** What attribution guarantees *)

Definition log_in_block (chain_id : Z) (block : BlockRef) (log : CanonicalLogRecord) : Prop :=
  cl_chain_id log = chain_id /\ cl_block_number log = blk_number block /\
  cl_block_hash log = blk_hash block.

Lemma validate_log_Ok chain_id block hash index log record :
  validate_log chain_id block hash index log = Ok record ->
  log_in_block chain_id block record /\ cl_transaction_hash record = hash /\
  cl_transaction_index record = index /\ cl_address record = lg_address log.
Proof.
  unfold validate_log. destruct (lg_removed log); [done|]. intros H.
  step_ok H as n Hn. step_ok H as h Hh. step_ok H as th Hth. step_ok H as ti Hti. step_ok H as li Hli.
  destruct (_ || _) eqn:E1; bool_spec E1; [done|]. destruct (_ || _) eqn:E2; bool_spec E2; [done|].
  destruct (_ <? _)%nat; [done|]. injection H as <-. unfold log_in_block. cbn. naive_solver.
Qed.

Lemma validate_receipt_Ok chain_id block receipt record :
  validate_receipt chain_id block receipt = Ok record ->
  rt_transaction_hash record = rr_transaction_hash receipt /\
  rt_block_number record = blk_number block /\ rt_block_hash record = blk_hash block /\
  strictly_increasing cl_log_index (rt_logs record) = true /\
  Forall (fun log => log_in_block chain_id block log /\
            cl_transaction_hash log = rt_transaction_hash record /\
            cl_transaction_index log = rt_transaction_index record) (rt_logs record).
Proof.
  unfold validate_receipt. intros H. step_ok H as n Hn.
  destruct (_ || _) eqn:E1; bool_spec E1; [done|]. step_ok H as ti Hti. step_ok H as st Hst.
  step_ok H as gas Hgas. step_ok H as ls Hls. destruct (negb _) eqn:E2; [done|].
  injection H as <-. cbn. bool_spec E2. split; [done|]. split; [naive_solver|].
  split; [naive_solver|]. split; [done|].
  apply try_map_Forall2 in Hls. clear -Hls. induction Hls as [|l r ls rs Hl _ IH]; constructor; [|done].
  apply validate_log_Ok in Hl. naive_solver.
Qed.

(** ** Canonical heads

    [chain/heads.rs] and [chain/reorg.rs]: the chain service that polls the
    head, checks it against the checkpoint provider, rewinds to a common
    ancestor, fetches every block bundle, persists it and publishes it.

    The providers and the update channel are an environment with a state of
    its own, which every call may change: answers may differ from call to
    call. Streams that are buffered run in their order. *)

Definition ADDRESS_GROUP_SIZE : nat := 64.
Definition MAX_PUBLISHED_CATCH_UP_BLOCKS : Z := 8.
Definition MAX_LOG_QUERY_ATTEMPTS : nat := 3.

Record ChainServiceConfig : Type := mkChainServiceConfig {
  cs_chain_id : Z;
  cs_event_start_block : Z;
  cs_maximum_log_range : Z;
  cs_reorg_rescan_blocks : Z;
  cs_watched_addresses : gset Address;
  cs_latest_only : bool;
}.

(** [ChainServiceConfig::validate] *)
Definition validate_service_config (config : ChainServiceConfig)
    : result ChainError ChainServiceConfig :=
  if cs_maximum_log_range config =? 0
  then Err (InvalidConfiguration "maximum_log_range must be positive")
  else if cs_reorg_rescan_blocks config =? 0
  then Err (InvalidConfiguration "reorg_rescan_blocks must be positive")
  else Ok config.

(** The roles of a provider and its name. *)
Record ProviderIdentity : Type := mkProviderIdentity {
  pn_name : string;
  pn_roles : list ProviderRole;
}.
Definition has_role (provider : ProviderIdentity) (role : ProviderRole) : bool :=
  bool_decide (role ∈ pn_roles provider).

(** The service, with what is installed on it: a deployment-aware filter,
    indexed token accounts, the shared readiness gate and the head hints. *)
Record ChainService : Type := mkChainService {
  sv_primary : ProviderIdentity;
  sv_checkpoint : option ProviderIdentity;
  sv_config : ChainServiceConfig;
  sv_log_filter : option (CanonicalLogRecord -> result ChainError bool);
  sv_indexed_token_accounts : gmap Address (gset Address);
  sv_provider_ready : bool;
  sv_head_hints : bool;
}.

Definition missing_role (provider : ProviderIdentity) (roles : list ProviderRole)
    : option ProviderRole := find (fun role => negb (has_role provider role)) roles.

(** [ChainService::new] *)
Definition new_service (primary : ProviderIdentity) (checkpoint : option ProviderIdentity)
    (config : ChainServiceConfig) : result ChainError ChainService :=
  config ← validate_service_config config;
  match missing_role primary [ProviderHead; ProviderLogs; ProviderReceipt] with
  | Some role => Err (ChainProvider (MissingRole (pn_name primary) role))
  | None =>
      match (provider ← checkpoint; role ← missing_role provider [ProviderCheckpoint];
             Some (pn_name provider, role)) with
      | Some (name, role) => Err (ChainProvider (MissingRole name role))
      | None => Ok (mkChainService primary checkpoint config None ∅ false false)
      end
  end.

(** ** Effects *)

Class ChainEnvironment : Type := {
  env : Type;
  primary_chain_id : env -> result ProviderError Z * env;
  primary_latest_header : env -> result ProviderError BlockRef * env;
  primary_header_by_number : Z -> env -> result ProviderError BlockRef * env;
  primary_logs : Z -> Z -> list Address -> env -> result ProviderError (list RpcLog) * env;
  primary_logs_with_topics : Z -> Z -> list Address -> list (option (list B256)) -> env ->
    result ProviderError (list RpcLog) * env;
  primary_receipt_by_hash : B256 -> env -> result ProviderError (option RpcReceipt) * env;
  checkpoint_chain_id : env -> result ProviderError Z * env;
  checkpoint_header_by_number : Z -> env -> result ProviderError BlockRef * env;
  checkpoint_receipt_by_hash : B256 -> env -> result ProviderError (option RpcReceipt) * env;
  (** [Some] is the error of a closed or full channel. *)
  deliver : ChainUpdate -> env -> option ChainError * env;
}.

(** The durable state, the delivered updates with the durable state at their
    time, the latest head hint and the readiness gate. *)
Record ChainWorld `{ChainEnvironment} : Type := mkChainWorld {
  cw_env : env;
  cw_storage : JsonState;
  cw_updates : list (ChainUpdate * JsonState);
  cw_head : option BlockRef;
  cw_ready : bool;
}.

Section Service.
Context `{HV : ChainEnvironment} `{HK : Keccak} `{HE : EventAbi}.

Definition cio (A : Type) : Type := ChainWorld -> result ChainError A * ChainWorld.
#[export] Instance cio_ret : MRet cio := fun A a w => (Ok a, w).
#[export] Instance cio_bind : MBind cio := fun A B f c w =>
  match c w with
  | (Ok a, w') => f a w'
  | (Err e, w') => (Err e, w')
  end.
Definition cio_err {A} (e : ChainError) : cio A := fun w => (Err e, w).
Definition cio_lift {A} (c : result ChainError A) : cio A := fun w => (c, w).

(** A provider call that keeps its error as a value. *)
Definition provider_try {A} (call : env -> result ProviderError A * env)
    : cio (result ProviderError A) := fun w =>
  let '(r, e) := call (cw_env w) in
  (Ok r, mkChainWorld _ e (cw_storage w) (cw_updates w) (cw_head w) (cw_ready w)).
Definition provider_call {A} (call : env -> result ProviderError A * env) : cio A :=
  answer ← provider_try call; cio_lift (map_err ChainProvider answer).

Definition stored_query {A} (f : JsonState -> result StorageError A) : cio A := fun w =>
  (map_err ChainStorage (f (cw_storage w)), w).

Definition stored_call (command : StorageCommand) : cio unit := fun w =>
  match commit (cw_storage w) command with
  | Ok s => (Ok tt, mkChainWorld _ (cw_env w) s (cw_updates w) (cw_head w) (cw_ready w))
  | Err e => (Err (ChainStorage e), w)
  end.

Definition send_update (update : ChainUpdate) : cio unit := fun w =>
  let '(outcome, e) := deliver update (cw_env w) in
  match outcome with
  | None => (Ok tt, mkChainWorld _ e (cw_storage w) (cw_updates w ++ [(update, cw_storage w)])
                      (cw_head w) (cw_ready w))
  | Some error => (Err error, mkChainWorld _ e (cw_storage w) (cw_updates w) (cw_head w) (cw_ready w))
  end.

Definition set_ready (service : ChainService) (ready : bool) : cio unit := fun w =>
  (Ok tt, if sv_provider_ready service
          then mkChainWorld _ (cw_env w) (cw_storage w) (cw_updates w) (cw_head w) ready else w).

Definition publish_head (service : ChainService) (head : BlockRef) : cio unit :=
  if sv_head_hints service
  then fun w => (Ok tt, mkChainWorld _ (cw_env w) (cw_storage w) (cw_updates w) (Some head)
                          (cw_ready w))
  else send_update (CanonicalHead head).

Fixpoint cio_fold {A B} (f : A -> B -> cio A) (a : A) (l : list B) : cio A :=
  match l with
  | [] => mret a
  | b :: l => a ← f a b; cio_fold f a l
  end.

(** ** Identity and checkpoints *)

Definition require_chain (config : ChainServiceConfig) (observed : Z) : cio unit :=
  if observed =? cs_chain_id config then mret tt
  else cio_err (ChainProvider (ProviderChainMismatch (cs_chain_id config) observed)).

Definition verify_provider_identity (service : ChainService) : cio unit :=
  observed ← provider_call primary_chain_id;
  _ ← require_chain (sv_config service) observed;
  match sv_checkpoint service with
  | Some _ =>
      observed ← provider_call checkpoint_chain_id;
      require_chain (sv_config service) observed
  | None => mret tt
  end.

Definition disagreement_reason (number : Z) : string :=
  "canonical hash disagreement at block " +:+ pretty number.

Definition compare_checkpoint (service : ChainService) (latest : BlockRef) : cio unit :=
  match sv_checkpoint service with
  | None => mret tt
  | Some checkpoint =>
      answer ← provider_try (checkpoint_header_by_number (blk_number latest));
      match answer with
      | Err error =>
          _ ← set_ready service false;
          _ ← send_update (ProviderDegraded
                (mkProviderStatus (pn_name checkpoint) "canonical checkpoint unavailable"));
          cio_err (ChainProvider error)
      | Ok candidate =>
          if negb (blk_hash candidate =? blk_hash latest)
             || negb (blk_parent_hash candidate =? blk_parent_hash latest)
          then
            _ ← set_ready service false;
            _ ← send_update (ProviderDegraded
                  (mkProviderStatus (pn_name checkpoint) (disagreement_reason (blk_number latest))));
            cio_err (ProviderDisagreement (blk_number latest))
          else mret tt
      end
  end.

(** ** One block bundle *)

Definition retain_log (service : ChainService) (log : CanonicalLogRecord)
    : result ChainError bool :=
  match sv_log_filter service with Some filter => filter log | None => Ok true end.

Fixpoint filter_logs (service : ChainService) (logs : list CanonicalLogRecord)
    : result ChainError (list CanonicalLogRecord) :=
  match logs with
  | [] => Ok []
  | log :: logs =>
      keep ← retain_log service log;
      rest ← filter_logs service logs;
      Ok (if (keep : bool) then log :: rest else rest)
  end.

(** [slice::chunks] *)
Fixpoint chunks_fuel (fuel : nat) (l : list Address) : list (list Address) :=
  match fuel, l with
  | O, _ | _, [] => []
  | S fuel, l => take ADDRESS_GROUP_SIZE l :: chunks_fuel fuel (drop ADDRESS_GROUP_SIZE l)
  end.
Definition chunks (l : list Address) : list (list Address) := chunks_fuel (length l) l.

Definition plain_addresses (service : ChainService) : list Address :=
  List.filter (fun address => negb (bool_decide (is_Some (sv_indexed_token_accounts service !! address))))
    (set_elements (cs_watched_addresses (sv_config service))).

(** The topics of the transfers from and to the accounts of a token. *)
Definition transfer_topics (accounts : gset Address) : list (list (option (list B256))) :=
  let account_topics := set_elements accounts in
  if bool_decide (account_topics = []) then []
  else [[Some [transfer_signature]; Some account_topics];
        [Some [transfer_signature]; None; Some account_topics]].

(** The filtered logs of one answer, each bound to the block. *)
Definition accept_logs (service : ChainService) (block : BlockRef)
    (accepted : Address -> bool) (reason : string) (answer : list RpcLog)
    : result ChainError (list CanonicalLogRecord) :=
  try_fold (fun logs log =>
    converted ← validate_standalone_log (cs_chain_id (sv_config service)) block log;
    if negb (accepted (cl_address converted)) then Err (InvalidBundle reason)
    else
      keep ← retain_log service converted;
      Ok (if (keep : bool) then logs ++ [converted] else logs)) [] answer.

Definition query_plain (service : ChainService) (block : BlockRef)
    : cio (list CanonicalLogRecord) :=
  cio_fold (fun logs group =>
    answer ← provider_call (primary_logs (blk_number block) (blk_number block) group);
    new ← cio_lift (accept_logs service block
      (fun address => bool_decide (address ∈ cs_watched_addresses (sv_config service)))
      "fallback provider returned an unwatched address" answer);
    mret (logs ++ new)) [] (chunks (plain_addresses service)).

Definition query_indexed (service : ChainService) (block : BlockRef)
    : cio (list CanonicalLogRecord) :=
  cio_fold (fun logs '(token, topics) =>
    answer ← provider_call (primary_logs_with_topics (blk_number block) (blk_number block)
                              [token] topics);
    new ← cio_lift (accept_logs service block (fun address => address =? token)
      "indexed token query returned a different address" answer);
    mret (logs ++ new)) []
    (concat ((fun '(token, accounts) => (fun topics => (token, topics)) <$> transfer_topics accounts)
               <$> btree_entries (sv_indexed_token_accounts service))).

Definition sort_logs (logs : list CanonicalLogRecord) : list CanonicalLogRecord :=
  sort_by_key (fun log => [cl_transaction_index log; cl_log_index log]) logs.

(** Equal logs reported by overlapping queries are kept once; different logs of
    one position are an inconsistent view. *)
Definition dedup_step (deduplicated : list CanonicalLogRecord) (log : CanonicalLogRecord)
    : result ChainError (list CanonicalLogRecord) :=
  match last deduplicated with
  | Some previous =>
      if (cl_transaction_index previous =? cl_transaction_index log)
         && (cl_log_index previous =? cl_log_index log)
      then if bool_decide (previous = log) then Ok deduplicated else Err ProviderViewInconsistent
      else Ok (deduplicated ++ [log])
  | None => Ok (deduplicated ++ [log])
  end.

Definition reject_duplicate_logs (logs : list CanonicalLogRecord) : result ChainError unit :=
  if bool_decide (NoDup ((fun log => (cl_block_hash log, cl_log_index log)) <$> logs)) then Ok tt
  else Err (InvalidBundle "fallback query returned duplicate log").

Definition fetch_receipts (service : ChainService) (block : BlockRef)
    (logs : list CanonicalLogRecord) : cio (list ReceiptRecord) :=
  cio_fold (fun receipts hash =>
    receipt ← provider_call (primary_receipt_by_hash hash);
    receipt ← cio_lift (ok_or receipt (InvalidBundle "fallback log transaction has no receipt"));
    receipt ← cio_lift (validate_receipt (cs_chain_id (sv_config service)) block receipt);
    mret (receipts ++ [receipt])) []
    (set_elements (list_to_set (cl_transaction_hash <$> logs))).

Definition fallback_bundle (service : ChainService) (block : BlockRef)
    : cio (list ReceiptRecord * list CanonicalLogRecord) :=
  plain ← query_plain service block;
  indexed ← query_indexed service block;
  queried_logs ← cio_lift (try_fold dedup_step [] (sort_logs (plain ++ indexed)));
  _ ← cio_lift (reject_duplicate_logs queried_logs);
  receipts ← fetch_receipts service block queried_logs;
  let receipts := sort_receipts receipts in
  _ ← cio_lift (if strictly_increasing rt_transaction_index receipts then Ok tt
                else Err (InvalidBundle "fallback receipts contain duplicate transaction index"));
  receipt_logs ← cio_lift (filter_logs service
    (watched_logs receipts (cs_watched_addresses (sv_config service))));
  if negb (bool_decide (sort_logs receipt_logs = queried_logs)) then cio_err ProviderViewInconsistent
  else mret (receipts, queried_logs).

Definition canonical_receipt (chain_id : Z) (receipt : ReceiptRecord) : CanonicalReceiptRecord :=
  mkCanonicalReceiptRecord chain_id (rt_transaction_hash receipt) (rt_block_number receipt)
    (rt_block_hash receipt) (rt_transaction_index receipt) (rt_status receipt)
    (rt_gas_used receipt) (rt_logs receipt).

Definition persist_bundle (service : ChainService) (block : BlockRef)
    (receipts : list ReceiptRecord) (logs : list CanonicalLogRecord) : cio unit :=
  let chain_id := cs_chain_id (sv_config service) in
  stored_call (ApplyCanonicalBlock (mkCanonicalBlockRecord chain_id block) logs
                 (canonical_receipt chain_id <$> receipts)).

(** ** Catch-up *)

Definition extends (parent block : BlockRef) : bool :=
  (blk_number block =? saturating_add U64_MAX (blk_number parent) 1)
  && (blk_parent_hash block =? blk_hash parent).

Definition fetch_header (latest : BlockRef) (number : Z) : cio BlockRef :=
  if number =? blk_number latest then mret latest
  else provider_call (primary_header_by_number number).

Definition catch_up_block (service : ChainService) (latest : BlockRef) (publish_blocks : bool)
    (previous : option BlockRef) (number : Z) : cio (option BlockRef) :=
  block ← fetch_header latest number;
  bundle ← fallback_bundle service block;
  let '(receipts, logs) := bundle in
  if match previous with Some parent => negb (extends parent block) | None => false end
  then cio_err (InvalidBundle "canonical head changed during bounded catch-up")
  else
    _ ← persist_bundle service block receipts logs;
    _ ← (if publish_blocks then
           _ ← send_update (CanonicalBlock block receipts logs);
           publish_head service block
         else mret tt);
    mret (Some block).

(** The numbers [from..=to]. *)
Definition block_numbers (from to : Z) : list Z := seqZ from (to - from + 1).

Definition catch_up_from (service : ChainService) (start : Z) (latest : BlockRef)
    (publish_blocks : bool) : cio unit :=
  if blk_number latest <? start then mret tt
  else
    previous ← stored_query (fun s => Ok
      (if start =? cs_event_start_block (sv_config service)
       then load_cursor s (cs_chain_id (sv_config service))
       else load_canonical_block s (cs_chain_id (sv_config service)) (saturating_sub start 1)));
    _ ← cio_fold (catch_up_block service latest publish_blocks) previous
          (block_numbers start (blk_number latest));
    mret tt.

(** ** Reorganizations *)

(** [find_common_ancestor]: the distances still to try. *)
Fixpoint search_ancestor (chain_id highest attempts : Z) (distances : list Z) : cio BlockRef :=
  match distances with
  | [] => cio_err (DeepReorg attempts)
  | distance :: distances =>
      let number := saturating_sub highest distance in
      stored ← stored_query (fun s => Ok (load_canonical_block s chain_id number));
      match stored with
      | Some stored =>
          remote ← provider_call (primary_header_by_number number);
          if blk_hash stored =? blk_hash remote then mret remote
          else search_ancestor chain_id highest attempts distances
      | None => search_ancestor chain_id highest attempts distances
      end
  end.

Definition find_common_ancestor (chain_id : Z) (old_head new_head : BlockRef) (maximum_rewind : Z)
    : cio BlockRef :=
  let highest := Z.min (blk_number old_head) (blk_number new_head) in
  let available_steps := saturating_add U64_MAX highest 1 in
  let attempts := Z.min (saturating_add U64_MAX maximum_rewind 1) available_steps in
  search_ancestor chain_id highest attempts (seqZ 0 attempts).

Definition rewind_and_replay (service : ChainService) (old_head new_head : BlockRef) : cio unit :=
  let config := sv_config service in
  ancestor ← find_common_ancestor (cs_chain_id config) old_head new_head
               (cs_reorg_rescan_blocks config);
  _ ← stored_call (RewindToAncestor (cs_chain_id config) ancestor);
  _ ← send_update (ReorgDetected old_head new_head ancestor);
  catch_up_from service (saturating_add U64_MAX (blk_number ancestor) 1) new_head false.

(** ** Sparse catch-up *)

Definition retryable_log_query_error (error : ProviderError) : bool :=
  match error with
  | TransportError _ | MalformedResponse _ => true
  | HttpStatus _ status =>
      (status =? 408) || (status =? 425) || (status =? 429)
      || ((500 <=? status) && (status <=? 599))
  | _ => false
  end.

(** The attempts left after the current one. *)
Fixpoint logs_with_bounded_retry (retries : nat) (from to : Z) (addresses : list Address)
    (topics : list (option (list B256))) : cio (list RpcLog) :=
  answer ← provider_try (primary_logs_with_topics from to addresses topics);
  match answer with
  | Ok logs => mret logs
  | Err error =>
      match retries with
      | S retries => if retryable_log_query_error error
                     then logs_with_bounded_retry retries from to addresses topics
                     else cio_err (ChainProvider error)
      | O => cio_err (ChainProvider error)
      end
  end.

Definition retained_log_hint (service : ChainService) (from to : Z) (log : RpcLog)
    : result ChainError (option Z) :=
  if lg_removed log then Err (InvalidBundle "latest-only range query returned a removed log")
  else if negb (bool_decide (lg_address log ∈ cs_watched_addresses (sv_config service)))
  then Err (InvalidBundle "latest-only range query returned an unwatched address")
  else
    number ← ok_or (lg_block_number log) (InvalidBundle "log has no block number");
    number ← quantity "log.block_number" number;
    hash ← ok_or (lg_block_hash log) (InvalidBundle "latest-only range log has no block hash");
    if negb ((from <=? number) && (number <=? to))
    then Err (InvalidBundle "latest-only range log is outside its requested canonical range")
    else
      converted ← validate_standalone_log (cs_chain_id (sv_config service))
        (mkBlockRef number hash 0 0 0) log;
      keep ← retain_log service converted;
      Ok (if (keep : bool) then Some number else None).

(** The ranges of the scan, at most [maximum] blocks each. *)
Fixpoint log_ranges (fuel : nat) (from to maximum : Z) : list (Z * Z) :=
  match fuel with
  | O => []
  | S fuel =>
      if to <? from then []
      else
        let upper := Z.min (saturating_add U64_MAX from (saturating_sub maximum 1)) to in
        (from, upper) :: log_ranges fuel (saturating_add U64_MAX upper 1) to maximum
  end.

Definition range_queries (service : ChainService)
    : list (list Address * list (option (list B256))) :=
  ((fun group => (group, [])) <$> chunks (plain_addresses service)) ++
  concat ((fun '(token, accounts) => (fun topics => ([token], topics)) <$> transfer_topics accounts)
            <$> btree_entries (sv_indexed_token_accounts service)).

(** The blocks with a retained log in one range. *)
Definition scan_range (service : ChainService) (relevant : gset Z) (range : Z * Z)
    : cio (gset Z) :=
  let '(from, to) := range in
  cio_fold (fun relevant '(addresses, topics) =>
    logs ← logs_with_bounded_retry (MAX_LOG_QUERY_ATTEMPTS - 1) from to addresses topics;
    hints ← cio_lift (try_map (retained_log_hint service from to) logs);
    mret (relevant ∪ list_to_set (omap id hints))) relevant (range_queries service).

Definition known_receipt_by_hash (service : ChainService) (hash : B256)
    : cio (option RpcReceipt) :=
  primary ← provider_try (primary_receipt_by_hash hash);
  checkpoint ← (match sv_checkpoint service with
                | Some provider =>
                    if has_role provider ProviderReceipt
                    then answer ← provider_try (checkpoint_receipt_by_hash hash); mret [answer]
                    else mret []
                | None => mret []
                end);
  match select_consistent_optional_view (primary :: checkpoint) with
  | Ok receipt => mret receipt
  | Err Disagreement => cio_err ProviderViewInconsistent
  | Err (Unavailable error) => cio_err (ChainProvider error)
  end.

(** The receipts of the durably known transactions, with their blocks. *)
Definition pin_receipt (service : ChainService) (start : Z) (latest : BlockRef)
    (acc : gset Z * list RpcReceipt) (hash : B256) : cio (gset Z * list RpcReceipt) :=
  let '(relevant, receipts) := acc in
  receipt ← known_receipt_by_hash service hash;
  match receipt with
  | None => mret acc
  | Some receipt =>
      if negb (rr_transaction_hash receipt =? hash)
      then cio_err (InvalidBundle "known transaction receipt hash mismatch")
      else
        number ← cio_lift (quantity "receipt.block_number" (rr_block_number receipt));
        mret (if (start <=? number) && (number <=? blk_number latest)
              then ({[number]} ∪ relevant, receipts ++ [receipt]) else acc)
  end.

Definition sparse_block (service : ChainService) (latest : BlockRef) (recent_start : Z)
    (previous_recent : option BlockRef) (number : Z) : cio (option BlockRef) :=
  block ← fetch_header latest number;
  bundle ← fallback_bundle service block;
  let '(receipts, logs) := bundle in
  next ← (if recent_start <=? blk_number block then
            if match previous_recent with
               | Some previous => negb (extends previous block)
               | None => false
               end
            then cio_err (InvalidBundle "canonical head changed during latest-only catch-up")
            else mret (Some block)
          else mret previous_recent);
  _ ← persist_bundle service block receipts logs;
  mret next.

Definition persist_known_receipt (service : ChainService) (u : unit) (receipt : RpcReceipt)
    : cio unit :=
  let chain_id := cs_chain_id (sv_config service) in
  number ← cio_lift (quantity "receipt.block_number" (rr_block_number receipt));
  block ← stored_query (fun s => Ok (load_canonical_block s chain_id number));
  block ← cio_lift (ok_or block (InvalidBundle "known transaction receipt block was not retained"));
  validated ← cio_lift (validate_receipt chain_id block receipt);
  stored_call (PersistCanonicalReceipt (canonical_receipt chain_id validated)).

Definition catch_up_latest_only (service : ChainService) (start : Z) (latest : BlockRef)
    : cio unit :=
  if blk_number latest <? start then mret tt
  else
    let config := sv_config service in
    relevant ← cio_fold (scan_range service) ∅
      (log_ranges (Z.to_nat (blk_number latest - start + 1)) start (blk_number latest)
         (cs_maximum_log_range config));
    unresolved ← stored_query load_all_unresolved;
    pinned ← cio_fold (pin_receipt service start latest) (relevant, [])
               (concat (un_known_transaction_hashes <$> unresolved));
    let '(relevant, receipts) := pinned in
    let recent_start :=
      Z.max (saturating_add U64_MAX
               (saturating_sub (blk_number latest) (cs_reorg_rescan_blocks config)) 1) start in
    let blocks := relevant ∪ list_to_set (block_numbers recent_start (blk_number latest)) in
    _ ← cio_fold (sparse_block service latest recent_start) None (set_elements blocks);
    selected ← provider_call (primary_header_by_number (blk_number latest));
    if negb (blk_hash selected =? blk_hash latest)
    then cio_err (InvalidBundle "selected latest head was reorganized during catch-up")
    else cio_fold (persist_known_receipt service) tt receipts.

(** ** Polling *)

Definition catch_up (service : ChainService) (start : Z) (latest : BlockRef) : cio unit :=
  let span := saturating_add U64_MAX (saturating_sub (blk_number latest) start) 1 in
  if cs_latest_only (sv_config service) && (MAX_PUBLISHED_CATCH_UP_BLOCKS <? span)
  then catch_up_latest_only service start latest
  else catch_up_from service start latest (span <=? MAX_PUBLISHED_CATCH_UP_BLOCKS).

Definition cursor_still_canonical (old_head latest : BlockRef) : cio bool :=
  if blk_number latest =? saturating_add U64_MAX (blk_number old_head) 1
  then mret (blk_parent_hash latest =? blk_hash old_head)
  else if blk_number old_head <=? blk_number latest
  then
    header ← provider_call (primary_header_by_number (blk_number old_head));
    mret (blk_hash header =? blk_hash old_head)
  else mret false.

Definition poll_once_inner (service : ChainService) : cio BlockRef :=
  let config := sv_config service in
  latest ← provider_call primary_latest_header;
  cursor ← stored_query (fun s => Ok (load_cursor s (cs_chain_id config)));
  _ ← (if negb (bool_decide (cursor = Some latest)) then set_ready service false else mret tt);
  _ ← compare_checkpoint service latest;
  _ ← (match cursor with
       | None => catch_up service (cs_event_start_block config) latest
       | Some old_head =>
           canonical ← cursor_still_canonical old_head latest;
           if negb canonical || ((blk_number latest =? blk_number old_head)
                                 && negb (blk_hash latest =? blk_hash old_head))
           then rewind_and_replay service old_head latest
           else if blk_number old_head <? blk_number latest
           then catch_up service (saturating_add U64_MAX (blk_number old_head) 1) latest
           else mret tt
       end);
  _ ← publish_head service latest;
  mret latest.

(** The gate is open exactly after a successful poll. *)
Definition poll_once (service : ChainService) : cio BlockRef := fun w =>
  let '(r, w') := poll_once_inner service w in
  let '(_, w'') := set_ready service (is_ok r) w' in (r, w'').

Definition on_head_hint (service : ChainService) : cio BlockRef := poll_once service.

End Service.
