(* ===== verification/HeadsProofs.v ===== *)
(** * The durable chain stays linked

    The theorems about [Heads]: whatever the providers answer, the canonical
    blocks of the durable state are unique, linked by their parent hashes
    outside of the gaps a sparse catch-up leaves, and headed by the cursor
    through every poll, and nothing is published before it is durable. *)
From Stdlib Require Import ZArith Lia String.
From stdpp Require Import base gmap sets strings sorting list.
From S2P Require Import Prelude.
From S2P Require Import Domain.
From S2P Require Import Models.
From S2P Require Import Storage.
From S2P Require Import Actor.
From S2P Require Import StorageProofs.
From S2P Require Import Provider.
From S2P Require Import Revision.
From S2P Require Import Logs.
From S2P Require Import Heads.
Open Scope Z_scope.

(** ** The stored chain *)

Definition number_of (b : CanonicalBlockRecord) : Z := blk_number (cb_block b).
Definition hash_of (b : CanonicalBlockRecord) : B256 := blk_hash (cb_block b).

(** The blocks of the chain: one per number, below the largest number; a block
    is linked to the one below it unless their seam, named by the lower number,
    is in a gap; the cursor is the identity of the highest. *)
Record chain_wf (gap : Z -> Prop) (chain : Z) (s : JsonState) : Prop := {
  ch_chain : Forall (fun b => cb_chain_id b = chain) (js_canonical_blocks s);
  ch_range : Forall (fun b => 0 <= number_of b < U64_MAX) (js_canonical_blocks s);
  ch_unique : NoDup (number_of <$> js_canonical_blocks s);
  ch_linked : forall a b, a ∈ js_canonical_blocks s -> b ∈ js_canonical_blocks s ->
    number_of b = number_of a + 1 -> ~ gap (number_of a) ->
    blk_parent_hash (cb_block b) = hash_of a;
  ch_cursor : match load_cursor s chain with
              | None => js_canonical_blocks s = []
              | Some cursor =>
                  Forall (fun b => number_of b <= blk_number cursor) (js_canonical_blocks s) /\
                  exists b, b ∈ js_canonical_blocks s /\ number_of b = blk_number cursor /\
                    hash_of b = blk_hash cursor
              end;
}.

Lemma list_max_le l n x : list_max l = Some n -> x ∈ l -> x <= n.
Proof.
  unfold list_max. destruct l as [|y l]; [done|]. intros [= <-].
  induction l as [|z l IH]; cbn.
  - intros Hx%list_elem_of_singleton. lia.
  - rewrite !elem_of_cons in *. destruct 1 as [->|[->|Hx]].
    + pose proof (IH ltac:(by left)). lia.
    + lia.
    + pose proof (IH ltac:(by right)). lia.
Qed.

Lemma compact_replay_blocks s :
  js_canonical_blocks (compact_replay s) = js_canonical_blocks s /\
  js_chain_cursors (compact_replay s) = js_chain_cursors s.
Proof. unfold compact_replay. cbv zeta. by case_match. Qed.

Lemma list_max_in l n : list_max l = Some n -> n ∈ l.
Proof.
  unfold list_max. destruct l as [|y l]; [done|]. intros [= <-].
  induction l as [|z l IH]; cbn; [by left|].
  destruct (Z.max_spec z (foldr Z.max y l)) as [[_ ->]|[_ ->]]; rewrite !elem_of_cons in *;
    naive_solver.
Qed.

Lemma filter_true {A} (l : list A) : List.filter (fun _ => true) l = l.
Proof. induction l as [|x l IH]; cbn; by f_equal. Qed.

(** A commit keeps the cursors and a part of the blocks with the highest. *)
Lemma commit_next_chain next s' :
  commit_next next = Ok s' ->
  js_chain_cursors s' = js_chain_cursors next /\
  exists keep, js_canonical_blocks s' = List.filter keep (js_canonical_blocks next) /\
    forall b, b ∈ js_canonical_blocks next -> 0 <= number_of b ->
      Forall (fun b' => number_of b' <= number_of b) (js_canonical_blocks next) -> keep b = true.
Proof.
  unfold commit_next. intros H. step_ok H as rev Hrev. cbv zeta in H. injection H as <-.
  case_match; [|by split; [done|exists (fun _ => true)]; split; [rewrite filter_true|]].
  unfold compact_hot_state. cbv zeta.
  cbn [with_evidence with_chain js_canonical_blocks js_chain_cursors].
  match goal with
  | |- context [compact_replay ?x] => destruct (compact_replay_blocks x) as [-> ->]
  end.
  cbn [with_evidence js_canonical_blocks js_chain_cursors compact_lifecycle_history with_lanes
       with_revision].
  split; [done|]. destruct (list_max _) as [latest|] eqn:Hm.
  - eexists. split; [reflexivity|]. intros b Hb Hp Hall. cbv beta.
    apply orb_true_iff. left. apply Z.leb_le.
    assert (latest <= number_of b).
    { apply list_max_in, list_elem_of_fmap in Hm as (b' & -> & Hb').
      rewrite Forall_forall in Hall. by apply Hall. }
    pose proof (saturating_sub_spec latest (saturating_sub HOT_BLOCK_RETENTION 1)).
    unfold number_of in *. change (saturating_sub HOT_BLOCK_RETENTION 1) with 511 in *. lia.
  - exists (fun _ => true). by rewrite filter_true.
Qed.

Lemma NoDup_fmap_filter {A B} (f : A -> B) keep l :
  NoDup (f <$> l) -> NoDup (f <$> List.filter keep l).
Proof.
  induction l as [|x l IH]; cbn; [done|]. intros [Hn Hu]%NoDup_cons. case_match; [|by apply IH].
  cbn. apply NoDup_cons. split; [|by apply IH]. intros (y & Hy & Hin)%list_elem_of_fmap. apply Hn.
  apply list_elem_of_fmap. exists y. split; [done|].
  apply list_elem_of_In in Hin. apply list_elem_of_In. by apply filter_In in Hin as [? _].
Qed.

(** Keeping a part of the blocks with the highest keeps the chain. *)
Lemma chain_wf_filter gap chain s s' keep :
  chain_wf gap chain s -> load_cursor s' chain = load_cursor s chain ->
  js_canonical_blocks s' = List.filter keep (js_canonical_blocks s) ->
  (forall b, b ∈ js_canonical_blocks s -> 0 <= number_of b ->
     Forall (fun b' => number_of b' <= number_of b) (js_canonical_blocks s) -> keep b = true) ->
  chain_wf gap chain s'.
Proof.
  intros [Hc Hr Hu Hl Hcur] Hcs Hb Hk.
  assert (forall b, b ∈ js_canonical_blocks s' -> b ∈ js_canonical_blocks s) as Hsub.
  { intros b. rewrite Hb, !list_elem_of_In, filter_In. by intros [? _]. }
  split; rewrite ?Hb.
  - by apply Forall_filter.
  - by apply Forall_filter.
  - by apply NoDup_fmap_filter.
  - rewrite <- Hb. intros a b Ha Hb'. auto.
  - rewrite Hcs. destruct (load_cursor s chain) as [cursor|]; [|by rewrite Hcur].
    destruct Hcur as [Hle (b & Hin & Hn & Hh)]. split; [by apply Forall_filter|].
    exists b. split; [|done]. apply list_elem_of_In, filter_In. split; [by apply list_elem_of_In|].
    apply Hk; [done| |].
    + rewrite Forall_forall in Hr. by apply Hr.
    + eapply Forall_impl; [exact Hle|]. cbn. intros b' ?. lia.
Qed.

Lemma commit_next_wf gap chain next s' :
  commit_next next = Ok s' -> chain_wf gap chain next -> chain_wf gap chain s'.
Proof.
  intros (Hc & keep & Hb & Hk)%commit_next_chain Hwf. eapply chain_wf_filter; [exact Hwf| |done|done].
  unfold load_cursor. by rewrite Hc.
Qed.

(** The identity a block extends: the cursor, or nothing. *)
Definition at_cursor (chain : Z) (previous : option BlockRef) (s : JsonState) : Prop :=
  match previous, load_cursor s chain with
  | None, None => True
  | Some parent, Some cursor =>
      blk_number parent = blk_number cursor /\ blk_hash parent = blk_hash cursor
  | _, _ => False
  end.

Lemma filter_all {A} (f : A -> bool) l : Forall (fun x => f x = true) l -> List.filter f l = l.
Proof. induction 1 as [|x l Hx _ IH]; cbn; [done|]. by rewrite Hx, IH. Qed.

(** The block below a new block is the one it names as its parent. *)
Lemma extends_linked gap chain previous s block a :
  chain_wf gap chain s -> at_cursor chain previous s ->
  match previous with Some parent => extends parent block = true | None => True end ->
  a ∈ js_canonical_blocks s -> blk_number block = number_of a + 1 ->
  blk_parent_hash block = hash_of a.
Proof.
  intros [_ Hr Hu _ Hcur] Hat Hext Ha Hn. unfold at_cursor in Hat.
  destruct previous as [parent|], (load_cursor s chain) as [cursor|]; try done.
  - destruct Hcur as [_ (b & Hb & Hbn & Hbh)], Hat as [Hp Hh].
    rewrite Forall_forall in Hr. specialize (Hr b Hb). cbn in Hr.
    unfold extends in Hext. bool_spec Hext. destruct Hext as [Hext Hpar].
    rewrite saturating_add_spec in Hext.
    assert (a = b) as -> by (eapply NoDup_fmap_elem; [exact Hu|done|done|lia]).
    congruence.
  - rewrite Hcur in Ha. by apply elem_of_nil in Ha.
Qed.

(** A block above all others, linked outside of the gaps, becomes the cursor. *)
Lemma apply_block_wf `{HK : Keccak} gap chain block logs receipts s s' :
  commit s (ApplyCanonicalBlock (mkCanonicalBlockRecord chain block) logs receipts) = Ok s' ->
  chain_wf gap chain s -> 0 <= blk_number block < U64_MAX ->
  Forall (fun b => number_of b < blk_number block) (js_canonical_blocks s) ->
  (forall a, a ∈ js_canonical_blocks s -> blk_number block = number_of a + 1 -> ~ gap (number_of a) ->
     blk_parent_hash block = hash_of a) ->
  chain_wf gap chain s' /\ load_cursor s' chain = Some block.
Proof.
  intros H Hwf Hn Hlt Hlink. unfold commit in H. step_ok H as next Hm. cbn [mutate] in Hm.
  unfold apply_block in Hm. cbv zeta in Hm. guards Hm. injection Hm as <-.
  split; [eapply commit_next_wf; [eassumption|]|].
  2:{ match goal with Hn : commit_next _ = Ok _ |- _ => apply commit_next_chain in Hn as [Hc _] end.
      unfold load_cursor. rewrite Hc. cbn. by rewrite lookup_insert_eq. }
  set (new := mkCanonicalBlockRecord chain block).
  assert (js_canonical_blocks s ++ [new] = List.filter (fun b => negb (cb_chain_id b =? chain)
    || negb (number_of b =? blk_number block)) (js_canonical_blocks s) ++ [new]) as Hblocks.
  { rewrite filter_all; [done|]. eapply Forall_impl; [exact Hlt|]. cbn. intros b ?.
    apply orb_true_iff. right. apply negb_true_iff, Z.eqb_neq. lia. }
  destruct Hwf as [Hch Hr Hu Hl Hcur].
  split; cbn [with_chain js_canonical_blocks]; unfold number_of in Hblocks;
    cbn [cb_chain_id cb_block blk_number] in *; rewrite <- ?Hblocks.
  - apply Forall_app. split; [done|by constructor].
  - apply Forall_app. split; [done|by constructor].
  - rewrite fmap_app. apply NoDup_app. split; [done|]. split; [|apply NoDup_singleton].
    intros n (b & -> & Hb)%list_elem_of_fmap Hin%list_elem_of_singleton.
    rewrite Forall_forall in Hlt. specialize (Hlt b Hb). unfold number_of in *. cbn in *. lia.
  - intros a b [Ha|Ha%list_elem_of_singleton]%elem_of_app [Hb|Hb%list_elem_of_singleton]%elem_of_app
      Hnum Hg.
    + by apply Hl.
    + subst b. by apply (Hlink a).
    + subst a. rewrite Forall_forall in Hlt. specialize (Hlt b Hb). cbn in *. unfold number_of in *.
      cbn in *. lia.
    + subst. unfold number_of in Hnum. cbn in Hnum. lia.
  - unfold load_cursor. cbn [with_chain js_chain_cursors cb_chain_id cb_block].
    rewrite lookup_insert_eq. split.
    + apply Forall_app. split; [|by constructor]. eapply Forall_impl; [exact Hlt|]. cbn. lia.
    + exists new. split; [apply elem_of_app; right; by left|done].
Qed.

(** The stored blocks are below a block that extends the cursor. *)
Lemma extends_above gap chain previous s block :
  chain_wf gap chain s -> at_cursor chain previous s ->
  match previous with Some parent => extends parent block = true | None => True end ->
  Forall (fun b => number_of b < blk_number block) (js_canonical_blocks s).
Proof.
  intros [_ Hr _ _ Hcur] Hat Hext. unfold at_cursor in Hat.
  destruct previous as [parent|], (load_cursor s chain) as [cursor|]; try done; [|by rewrite Hcur].
  destruct Hcur as [Hle (b & Hin & Hb & _)], Hat as [Hp _].
  rewrite Forall_forall in Hr. specialize (Hr b Hin). cbn in Hr.
  unfold extends in Hext. bool_spec Hext. destruct Hext as [Hext _].
  rewrite saturating_add_spec in Hext. eapply Forall_impl; [exact Hle|]. cbn. intros b' ?. lia.
Qed.

Lemma rewind_blocks s chain ancestor next result :
  rewind s chain ancestor = Ok (next, result) ->
  js_canonical_blocks next =
    List.filter (fun b => negb (cb_chain_id b =? chain) || (number_of b <=? blk_number ancestor))
      (js_canonical_blocks s) /\
  js_chain_cursors next = <[chain := ancestor]> (js_chain_cursors s).
Proof.
  unfold rewind. cbv zeta. intros H. step_ok H as [orphaned revalidated] H1.
  step_ok H as [movements episodes] H2. injection H as <- _. done.
Qed.

(** A rewind to the identity of a stored block heads the chain there. *)
Lemma rewind_wf `{HK : Keccak} gap chain ancestor stored s s' :
  commit s (RewindToAncestor chain ancestor) = Ok s' -> chain_wf gap chain s ->
  stored ∈ js_canonical_blocks s -> number_of stored = blk_number ancestor ->
  hash_of stored = blk_hash ancestor ->
  chain_wf gap chain s' /\ load_cursor s' chain = Some ancestor.
Proof.
  intros H [Hch Hr Hu Hl Hcur] Hin Hn Hh. unfold commit in H. step_ok H as next Hm.
  cbn [mutate] in Hm. destruct (rewind s chain ancestor) as [[next' res]|e] eqn:Hrw; [|done].
  cbn in Hm. injection Hm as ->. apply rewind_blocks in Hrw as [Hb Hc].
  split.
  2:{ match goal with G : commit_next _ = Ok _ |- _ => apply commit_next_chain in G as [Hc' _] end.
      unfold load_cursor. by rewrite Hc', Hc, lookup_insert_eq. }
  eapply commit_next_wf; [eassumption|].
  assert (forall b, b ∈ js_canonical_blocks next -> b ∈ js_canonical_blocks s /\
            number_of b <= blk_number ancestor) as Hsub.
  { intros b. rewrite Hb, !list_elem_of_In, filter_In. intros [Hi Hf]. split; [done|].
    apply list_elem_of_In in Hi. rewrite Forall_forall in Hch. specialize (Hch b Hi). cbn in Hch.
    rewrite Hch, Z.eqb_refl in Hf. cbn in Hf. by apply Z.leb_le. }
  split.
  - rewrite Hb. by apply Forall_filter.
  - rewrite Hb. by apply Forall_filter.
  - rewrite Hb. by apply NoDup_fmap_filter.
  - intros a b [Ha _]%Hsub [Hb' _]%Hsub. by apply Hl.
  - unfold load_cursor. rewrite Hc, lookup_insert_eq. split.
    + apply Forall_forall. by intros b [_ ?]%Hsub.
    + exists stored. split; [|done]. rewrite Hb. apply list_elem_of_In, filter_In.
      split; [by apply list_elem_of_In|]. apply orb_true_iff. right. apply Z.leb_le. lia.
Qed.

Lemma load_canonical_block_elem s chain number block :
  load_canonical_block s chain number = Some block ->
  exists b, b ∈ js_canonical_blocks s /\ cb_block b = block /\ number_of b = number.
Proof.
  unfold load_canonical_block. destruct (find _ _) as [b|] eqn:Hf; [|done]. intros [= <-].
  apply find_some in Hf as [Hin Hp]. bool_spec Hp. exists b. split; [by apply list_elem_of_In|].
  split; [done|naive_solver].
Qed.

Lemma load_canonical_block_cursor gap chain s cursor :
  chain_wf gap chain s -> load_cursor s chain = Some cursor ->
  exists block, load_canonical_block s chain (blk_number cursor) = Some block /\
    blk_number block = blk_number cursor /\ blk_hash block = blk_hash cursor.
Proof.
  intros [Hch _ Hu _ Hcur] Hc. rewrite Hc in Hcur. destruct Hcur as [_ (b & Hb & Hn & Hh)].
  unfold load_canonical_block. destruct (find _ _) as [b'|] eqn:Hf; cbn.
  - apply find_some in Hf as [Hin Hp]. bool_spec Hp. destruct Hp as [_ Hp].
    apply list_elem_of_In in Hin. assert (b' = b) as ->.
    { eapply (NoDup_fmap_elem number_of); [exact Hu|done|done|]. unfold number_of in *. lia. }
    by eexists.
  - exfalso. apply (find_none _ _) with (x := b) in Hf; [|by apply list_elem_of_In].
    rewrite Forall_forall in Hch. rewrite (Hch b Hb), Z.eqb_refl in Hf. cbn in Hf.
    unfold number_of in Hn. by rewrite Hn, Z.eqb_refl in Hf.
Qed.

Lemma cursor_nonneg gap chain s cursor :
  chain_wf gap chain s -> load_cursor s chain = Some cursor -> 0 <= blk_number cursor < U64_MAX.
Proof.
  intros [_ Hr _ _ Hcur] Hc. rewrite Hc in Hcur. destruct Hcur as [_ (b & Hb & <- & _)].
  rewrite Forall_forall in Hr. by apply Hr.
Qed.

(** ** Reasoning about the service *)

(** What the reasoning sees of a world: the durable state and the updates. *)
Definition seen `{ChainEnvironment} (w : ChainWorld) : JsonState * list (ChainUpdate * JsonState) :=
  (cw_storage w, cw_updates w).

(** An update was delivered after what it reports was durable. *)
Definition published (chain : Z) (u : ChainUpdate * JsonState) : Prop :=
  match fst u with
  | CanonicalBlock block _ _ => load_cursor (snd u) chain = Some block
  | ReorgDetected _ _ ancestor => load_cursor (snd u) chain = Some ancestor
  | _ => True
  end.

Definition sound (gap : Z -> Prop) (chain : Z) (v : JsonState * list (ChainUpdate * JsonState)) : Prop :=
  chain_wf gap chain (fst v) /\ Forall (published chain) (snd v).

(** What the service relies on of its primary provider: numbers are block
    numbers, and a header read by number has this number. *)
Class ChainLaws `(V : ChainEnvironment) : Prop := {
  latest_in_range e block e' :
    primary_latest_header e = (Ok block, e') -> 0 <= blk_number block < U64_MAX;
  header_number number e block e' :
    primary_header_by_number number e = (Ok block, e') -> blk_number block = number;
}.

Section Run.
Context `{HV : ChainEnvironment}.
Definition View : Type := JsonState * list (ChainUpdate * JsonState).

(** From [P], [c] ends in [Q] or fails in [X]. *)
Definition run {A} (P : View -> Prop) (c : cio A) (Q : A -> View -> Prop) (X : View -> Prop) : Prop :=
  forall w, P (seen w) ->
    match c w with
    | (Ok a, w') => Q a (seen w')
    | (Err _, w') => X (seen w')
    end.

Lemma run_bind {A B} P (c : cio A) Q (f : A -> cio B) R X :
  run P c Q X -> (forall a, run (Q a) (f a) R X) -> run P (c ≫= f) R X.
Proof.
  intros Hc Hf w Hw. specialize (Hc w Hw). unfold mbind, cio_bind.
  destruct (c w) as [[a|e] w1]; [by apply Hf|done].
Qed.

Lemma run_ret {A} (a : A) (P : View -> Prop) Q X : (forall v, P v -> Q a v) -> run P (mret a) Q X.
Proof. intros H w Hw. cbn. auto. Qed.

Lemma run_err {A} (P : View -> Prop) e Q X : (forall v, P v -> X v) -> run P (cio_err (A := A) e) Q X.
Proof. intros H w Hw. cbn. auto. Qed.

Lemma run_lift {A} (c : result ChainError A) (P : View -> Prop) X :
  (forall v, P v -> X v) -> run P (cio_lift c) (fun a v => P v /\ c = Ok a) X.
Proof. intros H w Hw. cbn. destruct c; auto. Qed.

Lemma run_conseq {A} (P P' : View -> Prop) (c : cio A) (Q Q' : A -> View -> Prop) X :
  run P' c Q' X -> (forall v, P v -> P' v) -> (forall a v, Q' a v -> Q a v) -> run P c Q X.
Proof.
  intros Hc HP HQ w Hw. specialize (Hc w (HP _ Hw)). by destruct (c w) as [[a|e] w']; [apply HQ|].
Qed.

Lemma run_pure {A} (P : View -> Prop) (phi : Prop) (c : cio A) Q X :
  (phi -> run P c Q X) -> run (fun v => P v /\ phi) c Q X.
Proof. intros H w [Hw Hp]. by apply H. Qed.

(** A computation that touches neither the durable state nor the updates. *)
Definition silent {A} (c : cio A) : Prop := forall w, seen (snd (c w)) = seen w.

Lemma run_silent {A} (P : View -> Prop) (c : cio A) X :
  silent c -> (forall v, P v -> X v) -> run P c (fun _ => P) X.
Proof.
  intros Hs HX w Hw. specialize (Hs w). destruct (c w) as [[a|e] w']; cbn in Hs; rewrite Hs; auto.
Qed.

Lemma run_fold {A B} (I : A -> list B -> View -> Prop) (f : A -> B -> cio A) X :
  (forall a b l, run (I a (b :: l)) (f a b) (fun a => I a l) X) ->
  forall l a, run (I a l) (cio_fold f a l) (fun a => I a []) X.
Proof.
  intros Hf l. induction l as [|b l IH]; intros a; cbn [cio_fold]; [by apply run_ret|].
  eapply run_bind; [apply Hf|]. intros a'. apply IH.
Qed.

Lemma silent_bind {A B} (c : cio A) (f : A -> cio B) :
  silent c -> (forall a, silent (f a)) -> silent (c ≫= f).
Proof.
  intros Hc Hf w. specialize (Hc w). unfold mbind, cio_bind.
  destruct (c w) as [[a|e] w1]; cbn in *; [by rewrite Hf|done].
Qed.
Lemma silent_lift {A} (c : result ChainError A) : silent (cio_lift c).
Proof. done. Qed.
Lemma silent_ret {A} (a : A) : silent (mret a).
Proof. done. Qed.
Lemma silent_err {A} e : silent (cio_err (A := A) e).
Proof. done. Qed.
Lemma silent_try {A} (call : env -> result ProviderError A * env) : silent (provider_try call).
Proof. intros w. unfold provider_try. by destruct (call _). Qed.
Lemma silent_call {A} (call : env -> result ProviderError A * env) : silent (provider_call call).
Proof. apply silent_bind; [apply silent_try|intros; apply silent_lift]. Qed.
Lemma silent_query {A} (f : JsonState -> result StorageError A) : silent (stored_query f).
Proof. done. Qed.
Lemma silent_ready service ready : silent (set_ready service ready).
Proof. intros w. unfold set_ready. by case_match. Qed.
Lemma silent_fold {A B} (f : A -> B -> cio A) l a :
  (forall a b, silent (f a b)) -> silent (cio_fold f a l).
Proof.
  intros Hf. revert a. induction l as [|b l IH]; intros a; cbn [cio_fold]; [apply silent_ret|].
  by apply silent_bind.
Qed.

End Run.

Create HintDb silent.
#[export] Hint Resolve silent_lift silent_ret silent_err silent_try silent_call silent_query
  silent_ready : silent.
Ltac silent_step :=
  lazymatch goal with
  | |- silent (_ ≫= _) => apply silent_bind; [|intros ?]
  | |- silent (cio_fold _ _ _) => apply silent_fold; intros ? ?
  | |- silent (match _ with _ => _ end) => case_match
  | |- silent (let '(_, _) := ?x in _) => destruct x
  | |- silent _ => solve [auto 2 with silent]
  end.

(** A silent computation keeps every fact of the view. *)
Lemma run_here `{ChainEnvironment} {A} (P R : View -> Prop) (c : cio A) (Q : A -> View -> Prop) X :
  silent c -> run P c Q X -> run (fun v => P v /\ R v) c (fun a v => Q a v /\ R v) X.
Proof.
  intros Hs Hc w [Hw HR]. specialize (Hs w). specialize (Hc w Hw).
  destruct (c w) as [[a|e] w']; cbn in Hs; [|done]. split; [done|]. by rewrite Hs.
Qed.

(** A computation that fails and succeeds more weakly. *)
Lemma run_weaken `{ChainEnvironment} {A} (P : View -> Prop) (c : cio A) (Q Q' : A -> View -> Prop)
    (X X' : View -> Prop) :
  run P c Q X -> (forall a v, Q a v -> Q' a v) -> (forall v, X v -> X' v) -> run P c Q' X'.
Proof.
  intros Hc HQ HX w Hw. specialize (Hc w Hw). destruct (c w) as [[a|e] w']; auto.
Qed.

Section Service.
Context `{HV : ChainEnvironment} `{HL : !ChainLaws HV} `{HK : Keccak} `{HE : EventAbi}.
Context (service : ChainService) (gap : Z -> Prop).
Let chain := cs_chain_id (sv_config service).

Lemma fallback_silent block : silent (fallback_bundle service block).
Proof.
  unfold fallback_bundle, query_plain, query_indexed, fetch_receipts. cbv zeta.
  repeat silent_step.
Qed.

Lemma send_update_run (P : JsonState -> Prop) u :
  run (fun v => P (fst v) /\ sound gap chain v /\ published chain (u, fst v)) (send_update u)
    (fun _ v => P (fst v) /\ sound gap chain v) (sound gap chain).
Proof.
  intros w (HP & [Hw Hu] & Hp). unfold send_update.
  destruct (deliver u (cw_env w)) as [[e|] e'].
  - done.
  - split; [done|]. split; [done|]. apply Forall_app. split; [done|by constructor].
Qed.

Lemma publish_head_run (P : JsonState -> Prop) head :
  run (fun v => P (fst v) /\ sound gap chain v) (publish_head service head)
    (fun _ v => P (fst v) /\ sound gap chain v) (sound gap chain).
Proof.
  unfold publish_head. case_match; [by intros w Hw|].
  eapply run_conseq; [apply (send_update_run P)|naive_solver|done].
Qed.

Lemma persist_bundle_run block receipts logs previous :
  0 <= blk_number block < U64_MAX ->
  match previous with Some parent => extends parent block = true | None => True end ->
  run (fun v => sound gap chain v /\ at_cursor chain previous (fst v))
    (persist_bundle service block receipts logs)
    (fun _ v => load_cursor (fst v) chain = Some block /\ sound gap chain v) (sound gap chain).
Proof.
  intros Hn He w [[Hw Hu] Hat]. unfold persist_bundle, stored_call. cbv zeta.
  destruct (commit _ _) as [s|e] eqn:Hc; [|done]. cbn.
  destruct (apply_block_wf _ _ _ _ _ _ _ Hc Hw Hn) as [Hw' Hcur];
    [by eapply extends_above|intros a Ha Hna _; by eapply extends_linked|done].
Qed.

Lemma fetch_header_run (P : View -> Prop) latest number X :
  (forall v, P v -> X v) ->
  run P (fetch_header latest number)
    (fun block v => P v /\ blk_number block = number /\
                    (number = blk_number latest -> block = latest)) X.
Proof using HL.
  intros HX w Hw. unfold fetch_header. destruct (Z.eqb_spec number (blk_number latest)) as [->|Hn].
  - done.
  - unfold provider_call, provider_try, mbind, cio_bind.
    destruct (primary_header_by_number number (cw_env w)) as [[block|e] e'] eqn:Hh; cbn.
    + split; [exact Hw|]. split; [by eapply header_number|]. by intros ?.
    + by apply HX.
Qed.

(** One block of the catch-up moves the cursor to it. *)
Lemma catch_up_block_run latest publish previous number :
  0 <= number <= blk_number latest -> blk_number latest < U64_MAX ->
  run (fun v => sound gap chain v /\ at_cursor chain previous (fst v))
    (catch_up_block service latest publish previous number)
    (fun next v => exists block, next = Some block /\ (number = blk_number latest -> block = latest) /\
       load_cursor (fst v) chain = Some block /\ sound gap chain v) (sound gap chain).
Proof using HL.
  intros Hn Hl. unfold catch_up_block.
  eapply run_bind; [apply fetch_header_run; naive_solver|]. intros block.
  eapply run_bind; [apply run_silent; [apply fallback_silent|naive_solver]|]. intros [receipts logs].
  cbv iota beta.
  destruct (match previous with Some parent => negb (extends parent block) | None => false end)
    eqn:Eext; [apply run_err; naive_solver|].
  apply run_pure. intros [Hb Hlast].
  eapply run_bind; [apply (persist_bundle_run _ _ _ previous)|intros u].
  { lia. } { destruct previous; [by apply negb_false_iff|done]. }
  eapply run_bind with (Q := fun _ v => load_cursor (fst v) chain = Some block /\ sound gap chain v).
  - destruct publish; [|by apply run_ret].
    eapply run_bind;
      [|intros u'; apply (publish_head_run (fun s => load_cursor s chain = Some block))].
    eapply run_conseq;
      [apply (send_update_run (fun s => load_cursor s chain = Some block))|naive_solver|done].
  - intros u'. apply run_ret. naive_solver.
Qed.

(** The cursor a catch-up reaches. *)
Lemma catch_up_from_run start latest publish :
  0 <= start -> 0 <= blk_number latest < U64_MAX ->
  run (fun v => sound gap chain v /\
         match load_cursor (fst v) chain with
         | Some cursor => start = blk_number cursor + 1
         | None => start = cs_event_start_block (sv_config service)
         end)
    (catch_up_from service start latest publish)
    (fun _ v => sound gap chain v /\ (start <= blk_number latest ->
                                  load_cursor (fst v) chain = Some latest)) (sound gap chain).
Proof using HL.
  intros Hs Hl. unfold catch_up_from. destruct (Z.ltb_spec (blk_number latest) start) as [Hlt|Hle].
  { apply run_ret. intros v [Hv _]. split; [done|lia]. }
  eapply run_bind with (Q := fun previous v => sound gap chain v /\ at_cursor chain previous (fst v)).
  - intros w [[Hw Hu] Hst]. cbn in Hw, Hst |- *. split; [done|]. unfold at_cursor.
    change (cs_chain_id (sv_config service)) with chain.
    destruct (load_cursor (cw_storage w) chain) as [cursor|] eqn:Hc.
    + destruct (start =? _); [done|]. rewrite saturating_sub_spec.
      pose proof (cursor_nonneg _ _ _ _ Hw Hc).
      replace (Z.max 0 (start - 1)) with (blk_number cursor) by lia.
      destruct (load_canonical_block_cursor _ _ _ _ Hw Hc) as (block & -> & ? & ?). done.
    + by rewrite Hst, Z.eqb_refl.
  - intros previous.
    set (I := fun (prev : option BlockRef) (l : list Z) (v : View) =>
      sound gap chain v /\ at_cursor chain prev (fst v) /\
      Forall (fun n => 0 <= n <= blk_number latest) l /\
      match last l with
      | Some n => n = blk_number latest
      | None => load_cursor (fst v) chain = Some latest
      end).
    eapply run_bind; [|intros next; apply run_ret; intros v Hv; exact Hv].
    eapply run_conseq; [apply (run_fold I)| |].
    + intros prev n l w (Hsd & Hat & Hall & Hlast). apply Forall_cons in Hall as [Hn Hall].
      pose proof (catch_up_block_run latest publish prev n ltac:(done) ltac:(lia) w (conj Hsd Hat))
        as Hr.
      destruct (catch_up_block _ _ _ _ _ _) as [[next|e] w']; [|done].
      destruct Hr as (block & -> & Hb & Hcur & Hs'). split; [done|].
      split; [unfold at_cursor; by rewrite Hcur|]. split; [done|].
      destruct l as [|m l]; [cbn in *; by rewrite Hcur, Hb|].
      change (last (n :: m :: l)) with (last (m :: l)) in Hlast.
      destruct (last (m :: l)) eqn:El; [exact Hlast|by apply last_None in El].
    + intros v [Hv Hat]. unfold I. split; [done|]. split; [done|]. split.
      * apply Forall_forall. intros n Hin%elem_of_seqZ. lia.
      * unfold block_numbers. replace (blk_number latest - start + 1)
          with (Z.of_nat (S (Z.to_nat (blk_number latest - start)))) by lia.
        rewrite seqZ_S, last_snoc. lia.
    + intros next v (Hsd & _ & _ & Hc). split; [done|]. intros _. exact Hc.
Qed.

(** The ancestor is the identity of a stored block. *)
Definition ancestor_of (highest : Z) (ancestor : BlockRef) (s : JsonState) : Prop :=
  exists stored, stored ∈ js_canonical_blocks s /\ number_of stored = blk_number ancestor /\
    hash_of stored = blk_hash ancestor /\ blk_number ancestor <= Z.max 0 highest.

Lemma search_ancestor_run highest attempts distances :
  Forall (fun d => 0 <= d) distances ->
  run (sound gap chain) (search_ancestor chain highest attempts distances)
    (fun ancestor v => sound gap chain v /\ ancestor_of highest ancestor (fst v)) (sound gap chain).
Proof using HL.
  induction 1 as [|d ds Hd _ IH]; cbn [search_ancestor]; [by apply run_err|]. cbv zeta.
  eapply run_bind with (Q := fun stored v => sound gap chain v /\
    load_canonical_block (fst v) chain (saturating_sub highest d) = stored).
  { intros w Hw. cbn. done. }
  intros [stored|]; [|eapply run_conseq; [exact IH|naive_solver|done]].
  intros w [Hw Hst]. unfold provider_call, provider_try, mbind, cio_bind.
  destruct (primary_header_by_number _ (cw_env w)) as [[remote|e] e'] eqn:Hh; cbn; [|done].
  apply header_number in Hh. set (w' := mkChainWorld _ _ _ _ _ _).
  assert (seen w' = seen w) as Hseen by done.
  destruct (Z.eqb_spec (blk_hash stored) (blk_hash remote)) as [Heq|Hne].
  - cbn. split; [done|]. destruct (load_canonical_block_elem _ _ _ _ Hst) as (b & Hb & <- & Hn).
    exists b. split; [done|]. split; [lia|]. split; [done|]. rewrite Hh, saturating_sub_spec. lia.
  - apply IH. by rewrite Hseen.
Qed.

Lemma search_ancestor_silent highest attempts distances :
  silent (search_ancestor chain highest attempts distances).
Proof.
  induction distances as [|d ds IH]; cbn [search_ancestor]; [auto with silent|]. cbv zeta.
  repeat first [exact IH|silent_step].
Qed.

Lemma find_common_ancestor_run before old_head new_head maximum :
  run (fun v => sound gap chain v /\ fst v = before) (find_common_ancestor chain old_head new_head maximum)
    (fun ancestor v => (sound gap chain v /\
       ancestor_of (Z.min (blk_number old_head) (blk_number new_head)) ancestor (fst v)) /\
       fst v = before)
    (sound gap chain).
Proof using HL.
  unfold find_common_ancestor. cbv zeta. apply run_here; [apply search_ancestor_silent|].
  apply search_ancestor_run, Forall_forall. intros d Hd%elem_of_seqZ. lia.
Qed.

(** The block of the cursor was durable before. *)
Definition known (before : JsonState) (cursor : BlockRef) : Prop :=
  exists b, b ∈ js_canonical_blocks before /\ number_of b = blk_number cursor /\
    hash_of b = blk_hash cursor.

(** The cursor is the head, or was already durable at the height of the head. *)
Definition at_height (before : JsonState) (latest : BlockRef) (s : JsonState) : Prop :=
  exists cursor, load_cursor s chain = Some cursor /\ blk_number cursor = blk_number latest /\
    (cursor = latest \/ known before cursor).

Lemma rewind_call_run highest ancestor :
  run (fun v => sound gap chain v /\ ancestor_of highest ancestor (fst v))
    (stored_call (RewindToAncestor chain ancestor))
    (fun _ v => (load_cursor (fst v) chain = Some ancestor /\ sound gap chain v) /\
       0 <= blk_number ancestor <= Z.max 0 highest /\ blk_number ancestor < U64_MAX) (sound gap chain).
Proof.
  intros w [[Hw Hu] (stored & Hin & Hn & Hh & Hle)]. unfold stored_call.
  destruct (commit _ _) as [s|e] eqn:Hc; [|done]. cbn.
  destruct (rewind_wf _ _ _ _ _ _ Hc Hw Hin Hn Hh) as [Hw' Hcur].
  destruct Hw as [_ Hr _ _ _]. rewrite Forall_forall in Hr. specialize (Hr _ Hin). cbv beta in Hr.
  split; [by split|]. lia.
Qed.

Lemma rewind_and_replay_run before old_head latest :
  0 <= blk_number old_head -> 0 <= blk_number latest < U64_MAX ->
  run (fun v => sound gap chain v /\ fst v = before) (rewind_and_replay service old_head latest)
    (fun _ v => at_height before latest (fst v) /\ sound gap chain v) (sound gap chain).
Proof using HL.
  intros Ho Hl. unfold rewind_and_replay. cbv zeta.
  eapply run_bind; [apply find_common_ancestor_run|]. intros ancestor.
  eapply run_conseq with (P' := fun v => (sound gap chain v /\
       ancestor_of (Z.min (blk_number old_head) (blk_number latest)) ancestor (fst v)) /\
       known before ancestor); [|intros v [[Hv Ha] <-]; split; [done|];
       destruct Ha as (b & ? & ? & ? & _); by exists b|intros a v Hv; exact Hv].
  apply run_pure. intros Hknown.
  eapply run_bind; [apply rewind_call_run|]. intros u.
  apply run_pure. intros [Ha Hb].
  eapply run_bind.
  { eapply run_conseq; [apply (send_update_run (fun s => load_cursor s chain = Some ancestor))| |].
    - intros v [Hc Hv]. by split.
    - intros a v Hv. exact Hv. }
  intros u'. rewrite saturating_add_spec, Z.min_l by lia.
  destruct (Z.eq_dec (blk_number ancestor) (blk_number latest)) as [E|Hne].
  - unfold catch_up_from. rewrite (proj2 (Z.ltb_lt _ _)) by lia. apply run_ret.
    intros v [Hc Hv]. split; [|done]. exists ancestor. split; [done|]. split; [done|by right].
  - eapply run_conseq; [apply catch_up_from_run; lia| |].
    + intros v [Hc Hv]. rewrite Hc. split; [done|lia].
    + intros a v [Hv Hc]. split; [|done]. exists latest. split; [apply Hc; lia|]. by split; [|left].
Qed.

Lemma compare_checkpoint_run (P : JsonState -> Prop) latest :
  run (fun v => P (fst v) /\ sound gap chain v) (compare_checkpoint service latest)
    (fun _ v => P (fst v) /\ sound gap chain v) (sound gap chain).
Proof.
  unfold compare_checkpoint. case_match; [|by apply run_ret].
  eapply run_bind; [apply run_silent; [auto with silent|naive_solver]|]. intros answer.
  assert (forall status error, run (fun v => P (fst v) /\ sound gap chain v)
    (_ ← set_ready service false; _ ← send_update (ProviderDegraded status); cio_err (A := unit) error)
    (fun _ v => P (fst v) /\ sound gap chain v) (sound gap chain)) as Hdeg.
  { intros status error.
    eapply run_bind; [apply run_silent; [auto with silent|naive_solver]|]. intros u.
    eapply run_bind; [eapply run_conseq; [apply (send_update_run P)|naive_solver|]|].
    - intros a v Hv. exact Hv.
    - intros u'. apply run_err. naive_solver. }
  destruct answer; [case_match|]; try apply Hdeg. by apply run_ret.
Qed.

End Service.

(** ** Sparse catch-up

    The blocks without a relevant log are left out below the rescan window, so
    that the seams between the retained blocks there are not linked. *)

(** The seams of [gap], and those from [from] up to, but without, [until]. *)
Definition widen (gap : Z -> Prop) (from until n : Z) : Prop := gap n \/ from <= n < until.

Lemma sound_weaken (gap gap' : Z -> Prop) chain v :
  sound gap chain v -> (forall n, gap n -> gap' n) -> sound gap' chain v.
Proof.
  intros [[Hc Hr Hu Hl Hcur] Hp] Hg. split; [|done]. split; [done..| |done].
  intros a b Ha Hb Hn Hna. apply Hl; auto.
Qed.

Lemma sound_widen gap chain from until v : sound gap chain v -> sound (widen gap from until) chain v.
Proof. intros Hv. eapply sound_weaken; [exact Hv|]. by left. Qed.

Lemma set_elements_sorted s : StronglySorted Z.lt (set_elements s).
Proof.
  assert (StronglySorted Z.le (set_elements s)) as Hs.
  { apply Sorted_StronglySorted; [intros a b c; lia|]. apply Sorted_merge_sort. intros a b. lia. }
  assert (NoDup (set_elements s)) as Hd by (rewrite set_elements_perm; apply NoDup_elements).
  induction Hs as [|x l Hl IH Hx]; [constructor|]. apply NoDup_cons in Hd as [Hn Hd].
  constructor; [by apply IH|]. apply Forall_forall. intros y Hy.
  rewrite Forall_forall in Hx. specialize (Hx y Hy). assert (x <> y) by (by intros ->). lia.
Qed.

Lemma StronglySorted_last l n m :
  StronglySorted Z.lt l -> n ∈ l -> Forall (fun k => k <= n) l -> last l = Some m -> m = n.
Proof.
  intros Hs Hn Hall Hm. apply last_Some in Hm as [k ->]. apply Forall_app in Hall as [_ Hall].
  rewrite Forall_singleton in Hall.
  apply elem_of_app in Hn as [Hn|Hn%list_elem_of_singleton]; [|done].
  assert (n < m); [|lia]. clear Hall. revert Hs Hn. induction k as [|x k IH]; intros Hs Hn;
    [by apply elem_of_nil in Hn|].
  apply StronglySorted_inv in Hs as [Hs Hx]. apply elem_of_cons in Hn as [->|Hn]; [|by apply IH].
  rewrite Forall_forall in Hx. apply Hx, elem_of_app. right. by left.
Qed.

(** The ranges of the scan lie in the scanned interval. *)
Lemma log_ranges_inside fuel lo from to maximum :
  lo <= from -> to < U64_MAX ->
  Forall (fun range => lo <= fst range /\ snd range <= to) (log_ranges fuel from to maximum).
Proof.
  intros Hlo Hto. revert from Hlo. induction fuel as [|fuel IH]; intros from Hlo; cbn [log_ranges];
    [constructor|]. destruct (Z.ltb_spec to from); [constructor|]. cbv zeta.
  rewrite !saturating_add_spec, saturating_sub_spec. constructor; cbn; [lia|]. apply IH. lia.
Qed.

Lemma retained_log_hint_inside `{HK : Keccak} `{HE : EventAbi} service from to log number :
  retained_log_hint service from to log = Ok (Some number) -> from <= number <= to.
Proof.
  unfold retained_log_hint. intros H. do 2 (case_match; [done|]).
  step_ok H as n0 Hn0. step_ok H as n Hn. step_ok H as h Hh.
  case_match eqn:E; bool_spec E; [done|]. step_ok H as converted Hc. step_ok H as keep Hk.
  destruct keep; [|done]. injection H as <-. lia.
Qed.

Section Sparse.
Context `{HV : ChainEnvironment} `{HL : !ChainLaws HV} `{HK : Keccak} `{HE : EventAbi}.
Context (service : ChainService) (gap : Z -> Prop) (start : Z) (latest : BlockRef).
Let chain := cs_chain_id (sv_config service).

Lemma retry_silent retries from to addresses topics :
  silent (logs_with_bounded_retry retries from to addresses topics).
Proof.
  revert from to. induction retries as [|retries IH]; intros from to; cbn [logs_with_bounded_retry];
    repeat first [apply IH|silent_step].
Qed.

Lemma known_receipt_silent hash : silent (known_receipt_by_hash service hash).
Proof. unfold known_receipt_by_hash. repeat silent_step. Qed.

(** Numbers the catch-up may ingest. *)
Definition inside (numbers : gset Z) : Prop :=
  forall n, n ∈ numbers -> start <= n <= blk_number latest.

Lemma scan_range_run (P X : View -> Prop) relevant range :
  (forall v, P v -> X v) -> start <= fst range -> snd range <= blk_number latest -> inside relevant ->
  run P (scan_range service relevant range) (fun relevant v => P v /\ inside relevant) X.
Proof.
  intros HX Hf Ht Hin. destruct range as [from to]. cbn in Hf, Ht. unfold scan_range.
  eapply run_conseq;
    [apply (run_fold (fun relevant _ v => P v /\ inside relevant))|by intros v Hv|done].
  intros known [addresses topics] l. apply run_pure. intros Hk.
  eapply run_bind; [apply run_silent; [apply retry_silent|done]|]. intros logs.
  eapply run_bind; [by apply run_lift|]. intros hints. apply run_ret. intros v [Hv Hh].
  split; [done|]. intros n [Hn|Hn]%elem_of_union; [by apply Hk|].
  apply elem_of_list_to_set, list_elem_of_omap in Hn as (hint & Hhint & Hn). cbn in Hn. subst hint.
  apply try_map_Forall2 in Hh. apply list_elem_of_lookup in Hhint as [i Hi].
  destruct (Forall2_lookup_r _ _ _ _ _ Hh Hi) as (log & _ & Hlog).
  apply retained_log_hint_inside in Hlog. lia.
Qed.

Lemma pin_receipt_run (P X : View -> Prop) acc hash :
  (forall v, P v -> X v) -> inside (fst acc) ->
  run P (pin_receipt service start latest acc hash) (fun acc v => P v /\ inside (fst acc)) X.
Proof.
  intros HX Hin. destruct acc as [relevant receipts]. cbn in Hin. unfold pin_receipt.
  eapply run_bind; [apply run_silent; [apply known_receipt_silent|done]|].
  intros [receipt|]; [|by apply run_ret]. case_match; [by apply run_err|].
  eapply run_bind; [by apply run_lift|]. intros number. apply run_ret. intros v [Hv _].
  split; [done|]. case_match eqn:E; [|done]. bool_spec E. cbn.
  intros n [->%elem_of_singleton|Hn]%elem_of_union; [lia|by apply Hin].
Qed.

(** The start of the rescan window, and the seams left by the catch-up. *)
Context (recent : Z).
Context (Hrange : 0 <= start /\ start <= recent <= blk_number latest /\ blk_number latest < U64_MAX).
Let gap' := widen gap (start - 1) recent.

(** The state while the numbers of [rest] are still to be ingested. *)
Definition sparse_state (previous : option BlockRef) (rest : list Z) (v : View) : Prop :=
  sound gap' chain v /\ Forall (fun n => start <= n <= blk_number latest) rest /\
  StronglySorted Z.lt rest /\
  (forall b n, b ∈ js_canonical_blocks (fst v) -> n ∈ rest -> number_of b < n) /\
  match previous with
  | Some parent => load_cursor (fst v) chain = Some parent /\ recent <= blk_number parent
  | None => forall b, b ∈ js_canonical_blocks (fst v) -> number_of b < recent
  end /\
  match last rest with
  | Some n => n = blk_number latest
  | None => load_cursor (fst v) chain = Some latest
  end.

(** What the next block is checked against before it is persisted. *)
Definition sparse_next (previous : option BlockRef) (block : BlockRef) (next : option BlockRef)
    : Prop :=
  next = (if recent <=? blk_number block then Some block else previous) /\
  (recent <= blk_number block ->
   match previous with Some parent => extends parent block = true | None => True end).

Lemma sparse_persist_run previous number rest block receipts logs next :
  blk_number block = number -> (number = blk_number latest -> block = latest) ->
  sparse_next previous block next ->
  run (sparse_state previous (number :: rest)) (persist_bundle service block receipts logs)
    (fun _ => sparse_state next rest) (sound gap' chain).
Proof using Hrange.
  intros Hb Hlast [-> Hext] w ([Hw Hu] & Hall & Hs & Habove & Hprev & Hl).
  unfold persist_bundle, stored_call. cbv zeta.
  destruct (commit _ _) as [s|e] eqn:Hc; [|done]. cbn in Hw, Hu, Hprev, Habove |- *.
  apply Forall_cons in Hall as [Hn Hall]. apply StronglySorted_inv in Hs as [Hs Hx].
  rewrite Forall_forall in Hx. destruct (apply_block_wf gap' _ _ _ _ _ _ Hc Hw) as [Hw' Hcur]; [lia|..].
  { apply Forall_forall. intros b Hin. rewrite Hb. apply Habove; [done|by left]. }
  { intros a Ha Hna Hg. destruct (Z.lt_ge_cases (number_of a) recent) as [Hlt|Hge].
    { destruct Hg. right. lia. }
    specialize (Hext ltac:(lia)). destruct previous as [parent|]; [|specialize (Hprev a Ha); lia].
    destruct Hprev as [Hp _]. eapply (extends_linked gap' chain (Some parent)); [done| |done..].
    unfold at_cursor. by rewrite Hp. }
  pose proof (ch_cursor _ _ _ Hw') as Hle. rewrite Hcur in Hle. destruct Hle as [Hle _].
  rewrite Forall_forall in Hle. unfold sparse_state. cbn. split; [done|]. split; [done|]. split; [done|].
  split; [intros b m Hin Hm; specialize (Hle b Hin); specialize (Hx m Hm); lia|].
  split.
  - destruct (Z.leb_spec recent (blk_number block)); [done|].
    destruct previous as [parent|]; [|intros b Hin; specialize (Hle b Hin); lia].
    destruct Hprev as [Hp Hr]. exfalso. pose proof (ch_cursor _ _ _ Hw) as Hcp. rewrite Hp in Hcp.
    destruct Hcp as [_ (b & Hin & Hbn & _)]. specialize (Habove b number Hin ltac:(by left)). lia.
  - destruct rest as [|m rest]; [cbn in Hl; by rewrite (Hlast Hl) in Hcur|].
    change (last (number :: m :: rest)) with (last (m :: rest)) in Hl.
    destruct (last (m :: rest)) eqn:El; [exact Hl|by apply last_None in El].
Qed.

Lemma sparse_block_run previous number rest :
  run (sparse_state previous (number :: rest)) (sparse_block service latest recent previous number)
    (fun next => sparse_state next rest) (sound gap' chain).
Proof using HL Hrange.
  assert (forall v, sparse_state previous (number :: rest) v -> sound gap' chain v) as HX
    by (by intros v [? _]).
  unfold sparse_block. eapply run_bind; [by apply fetch_header_run|]. intros block.
  eapply run_bind; [apply run_silent; [apply fallback_silent|intros v [Hv _]; by apply HX]|].
  intros [receipts logs]. cbv iota beta. apply run_pure. intros [Hb Hlast].
  eapply run_bind with (Q := fun next v => sparse_state previous (number :: rest) v /\
    sparse_next previous block next).
  - unfold sparse_next. destruct (Z.leb_spec recent (blk_number block)).
    + destruct previous as [parent|]; [|by apply run_ret].
      destruct (extends parent block) eqn:E; [by apply run_ret|by apply run_err].
    + apply run_ret. intros v Hv. split; [done|]. split; [done|lia].
  - intros next. apply run_pure. intros Hnext.
    eapply run_bind; [by apply sparse_persist_run|]. intros u. by apply run_ret.
Qed.

(** The receipts of the known transactions change neither blocks nor cursor. *)
Lemma persist_known_receipt_run u receipt :
  run (fun v => load_cursor (fst v) chain = Some latest /\ sound gap' chain v)
    (persist_known_receipt service u receipt)
    (fun _ v => load_cursor (fst v) chain = Some latest /\ sound gap' chain v) (sound gap' chain).
Proof using.
  unfold persist_known_receipt. cbv zeta.
  do 4 (eapply run_bind; [apply run_silent; [auto 2 with silent|by intros v [_ ?]]|intros ?]).
  intros w [Hcur [Hw Hu]]. unfold stored_call. destruct (commit _ _) as [s|e] eqn:Hc; [|done].
  unfold commit in Hc. step_ok Hc as next Hm. cbn [mutate] in Hm.
  assert (js_canonical_blocks next = js_canonical_blocks (cw_storage w) /\
          js_chain_cursors next = js_chain_cursors (cw_storage w)) as [Hb Hcs].
  { unfold persist_canonical_receipt in Hm. step_ok Hm as v Hv. case_match.
    - by case_match; [injection Hm as <-|].
    - step_ok Hm as v' Hv'. by injection Hm as <-. }
  assert (load_cursor next chain = Some latest) as Hcn by (unfold load_cursor in *; by rewrite Hcs).
  assert (chain_wf gap' chain next) as Hwn.
  { eapply (chain_wf_filter _ _ (cw_storage w) _ (fun _ => true)); [done| | |done].
    - by rewrite Hcn.
    - by rewrite filter_true. }
  pose proof (commit_next_chain _ _ Hc) as [Hcs' _]. cbn. split.
  - unfold load_cursor in *. by rewrite Hcs'.
  - split; [by eapply commit_next_wf|done].
Qed.

End Sparse.

(** ** Polling *)

Section Poll.
Context `{HV : ChainEnvironment} `{HL : !ChainLaws HV} `{HK : Keccak} `{HE : EventAbi}.
Context (service : ChainService) (gap : Z -> Prop).
Let chain := cs_chain_id (sv_config service).
Let event_start := cs_event_start_block (sv_config service).
Let rescan := cs_reorg_rescan_blocks (sv_config service).

(** The durable chain ends below [start]. *)
Definition ends_below (start : Z) (s : JsonState) : Prop :=
  match load_cursor s chain with
  | Some cursor => start = blk_number cursor + 1
  | None => start = event_start
  end.

(** The first block of the rescan window below the head. *)
Definition window_start (start : Z) (latest : BlockRef) : Z :=
  Z.max (Z.max 0 (blk_number latest - rescan) + 1) start.

(** What the sparse catch-up ingests starts above the durable chain and ends
    with the head. *)
Lemma sparse_start relevant start latest v :
  let recent := window_start start latest in
  let blocks := relevant ∪ list_to_set (block_numbers recent (blk_number latest)) in
  inside start latest relevant -> 0 <= start < blk_number latest -> 0 < rescan ->
  sound gap chain v -> ends_below start (fst v) ->
  sparse_state service gap start latest recent None (set_elements blocks) v.
Proof.
  intros recent blocks Hin Hs Hr Hv Hend.
  assert (start <= recent <= blk_number latest) as Hrec by (subst recent; unfold window_start; lia).
  assert (forall n, n ∈ blocks <-> n ∈ relevant \/ recent <= n <= blk_number latest) as Hblocks.
  { intros n. unfold blocks, block_numbers. rewrite elem_of_union, elem_of_list_to_set, elem_of_seqZ.
    split; (intros [?|?]; [by left|right; lia]). }
  assert (Forall (fun n => start <= n <= blk_number latest) (set_elements blocks)) as Hall.
  { apply Forall_forall. intros n [Hn|Hn]%elem_of_set_elements%Hblocks; [by apply Hin|lia]. }
  assert (forall b, b ∈ js_canonical_blocks (fst v) -> number_of b < start) as Hbelow.
  { destruct Hv as [Hw _]. pose proof (ch_cursor _ _ _ Hw) as Hcur. unfold ends_below in Hend.
    destruct (load_cursor (fst v) chain) as [cursor|].
    - destruct Hcur as [Hle _]. rewrite Forall_forall in Hle. intros b Hb. specialize (Hle b Hb).
      cbv beta in Hle. lia.
    - rewrite Hcur. intros b Hb. by apply elem_of_nil in Hb. }
  split; [by apply sound_widen|]. split; [done|]. split; [apply set_elements_sorted|]. split.
  { intros b n Hb Hn. rewrite Forall_forall in Hall. specialize (Hall n Hn). specialize (Hbelow b Hb).
    cbv beta in Hall. lia. }
  split; [intros b Hb; specialize (Hbelow b Hb); lia|].
  assert (blk_number latest ∈ set_elements blocks) as Hlast
    by (apply elem_of_set_elements, Hblocks; lia).
  destruct (last (set_elements blocks)) as [n|] eqn:El.
  - eapply StronglySorted_last; [apply set_elements_sorted|exact Hlast| |exact El].
    eapply Forall_impl; [exact Hall|]. cbn. lia.
  - apply last_None in El. rewrite El in Hlast. by apply elem_of_nil in Hlast.
Qed.

Lemma catch_up_latest_only_run start latest :
  0 <= start < blk_number latest -> blk_number latest < U64_MAX -> 0 < rescan ->
  let gap' := widen gap (start - 1) (window_start start latest) in
  run (fun v => sound gap chain v /\ ends_below start (fst v))
    (catch_up_latest_only service start latest)
    (fun _ v => load_cursor (fst v) chain = Some latest /\ sound gap' chain v) (sound gap' chain).
Proof using HL.
  intros Hs Hl Hr gap'. unfold catch_up_latest_only.
  rewrite (proj2 (Z.ltb_ge _ _)) by lia. cbv zeta.
  set (P := fun v => sound gap chain v /\ ends_below start (fst v)).
  assert (forall v, P v -> sound gap' chain v) as HX by (intros v [Hv _]; by apply sound_widen).
  eapply run_bind with (Q := fun relevant v => P v /\ inside start latest relevant).
  { eapply run_conseq; [apply (run_fold (fun relevant ranges v => P v /\
      (inside start latest relevant /\
       Forall (fun range => start <= fst range /\ snd range <= blk_number latest) ranges)))| |].
    - intros relevant range ranges. apply run_pure. intros [Hin [Hrg Hall]%Forall_cons].
      eapply run_conseq; [apply (scan_range_run service start latest P); [done|apply Hrg..|done]|done|].
      intros a v [Hv Ha]. done.
    - intros v Hv. split; [done|]. split; [intros n Hn; by apply elem_of_empty in Hn|].
      apply log_ranges_inside; lia.
    - intros a v (Hv & Ha & _). done. }
  intros relevant. eapply run_bind; [apply run_silent; [auto with silent|naive_solver]|].
  intros unresolved. apply run_pure. intros Hin.
  eapply run_bind with (Q := fun acc v => P v /\ inside start latest (fst acc)).
  { eapply run_conseq;
      [apply (run_fold (fun acc _ v => P v /\ inside start latest (fst acc)))|done|done].
    intros acc hash hashes. apply run_pure. intros Ha. by apply pin_receipt_run. }
  intros [known receipts]. apply run_pure. cbn [fst]. intros Hk.
  replace (Z.max _ start) with (window_start start latest)
    by (unfold window_start; rewrite saturating_add_spec, saturating_sub_spec; fold rescan; lia).
  assert (0 <= start /\ start <= window_start start latest <= blk_number latest /\
          blk_number latest < U64_MAX) as Hrange by (unfold window_start; lia).
  eapply run_bind with (Q := fun _ v => load_cursor (fst v) chain = Some latest /\ sound gap' chain v).
  { eapply run_conseq; [apply (run_fold (sparse_state service gap start latest
      (window_start start latest)))| |].
    - intros previous number rest. by apply sparse_block_run.
    - intros v [Hv Hend]. by apply sparse_start.
    - intros next v (Hv & _ & _ & _ & _ & Hc). done. }
  intros _. eapply run_bind; [apply run_silent; [auto with silent|naive_solver]|]. intros selected.
  case_match; [by apply run_err; intros v [_ ?]|].
  eapply run_conseq; [apply (run_fold (fun _ _ v => load_cursor (fst v) chain = Some latest /\
    sound gap' chain v))|done|done].
  intros u receipt rest. apply persist_known_receipt_run.
Qed.

(** The seams a poll with this head may leave above [from]: none unless the
    service keeps only the latest state, and none in the rescan window. *)
Definition swept (from : Z) (latest : BlockRef) : Z -> Prop :=
  widen gap from (if cs_latest_only (sv_config service) then window_start (from + 1) latest else from).

Lemma catch_up_run (P : JsonState -> Prop) start latest :
  0 <= start -> 0 <= blk_number latest < U64_MAX -> 0 < rescan ->
  run (fun v => (sound gap chain v /\ ends_below start (fst v)) /\ P (fst v))
    (catch_up service start latest)
    (fun _ v => (start <= blk_number latest -> load_cursor (fst v) chain = Some latest) /\
       (blk_number latest < start -> P (fst v)) /\
       sound (swept (start - 1) latest) chain v) (sound (swept (start - 1) latest) chain).
Proof using HL.
  intros Hs Hl Hr. unfold catch_up. cbv zeta. case_match eqn:E.
  - bool_spec E. destruct E as [Hlo Hspan]. unfold MAX_PUBLISHED_CATCH_UP_BLOCKS in Hspan.
    rewrite saturating_add_spec, saturating_sub_spec in Hspan.
    unfold swept. rewrite Hlo. replace (start - 1 + 1) with start by lia.
    eapply run_conseq; [apply catch_up_latest_only_run; lia|by intros v [? _]|].
    intros a v [Hc Hv]. cbv beta. split; [done|]. split; [lia|done].
  - clear E. destruct (Z.lt_ge_cases (blk_number latest) start) as [Hlt|Hge].
    { unfold catch_up_from. rewrite (proj2 (Z.ltb_lt _ _)) by lia. apply run_ret.
      intros v [[Hv _] HP]. split; [lia|]. split; [done|by apply sound_widen]. }
    eapply run_weaken; [| |intros v Hv; by apply sound_widen].
    { eapply run_conseq; [by apply (catch_up_from_run service gap start latest)|by intros v [? _]|].
      intros a v Hv. exact Hv. }
    intros a v [Hv Hc]. split; [done|]. split; [lia|by apply sound_widen].
Qed.

(** What a completed poll leaves durable. *)
Definition polled (before : JsonState) (latest : BlockRef) (s : JsonState) : Prop :=
  (load_cursor s chain = None /\ blk_number latest < event_start) \/ at_height service before latest s.

Lemma cursor_advance_run before latest old_head :
  0 <= blk_number latest < U64_MAX -> 0 <= blk_number old_head < U64_MAX -> 0 < rescan ->
  load_cursor before chain = Some old_head ->
  run (fun v => sound gap chain v /\ fst v = before)
    (canonical ← cursor_still_canonical old_head latest;
     if negb canonical || ((blk_number latest =? blk_number old_head)
                           && negb (blk_hash latest =? blk_hash old_head))
     then rewind_and_replay service old_head latest
     else if blk_number old_head <? blk_number latest
     then catch_up service (saturating_add U64_MAX (blk_number old_head) 1) latest
     else mret tt)
    (fun _ v => polled before latest (fst v) /\ sound (swept (blk_number old_head) latest) chain v)
    (sound (swept (blk_number old_head) latest) chain).
Proof using HL.
  intros Hl Ho Hr Hold.
  eapply run_bind with (Q := fun canonical v => (sound gap chain v /\ fst v = before) /\
    (canonical = true -> blk_number old_head <= blk_number latest)).
  { unfold cursor_still_canonical. rewrite saturating_add_spec, Z.min_l by lia.
    case_match eqn:E1; [apply run_ret; intros v Hv; split; [done|lia]|].
    case_match eqn:E2; [|apply run_ret; intros v Hv; by split].
    eapply run_bind; [apply run_silent; [auto with silent|]|].
    { intros v [Hv _]. by apply sound_widen. }
    intros header. apply run_ret. intros v Hv. split; [done|lia]. }
  intros canonical. apply run_pure. intros Hcan. case_match eqn:E1.
  { eapply run_weaken; [apply (rewind_and_replay_run service gap before); lia| |].
    - intros a v [Hh Hv]. split; [by right|by apply sound_widen].
    - intros v Hv. by apply sound_widen. }
  bool_spec E1. case_match eqn:E2.
  - rewrite saturating_add_spec, Z.min_l by lia.
    pose proof (catch_up_run (fun _ => True) (blk_number old_head + 1) latest ltac:(lia) Hl Hr) as Hc.
    replace (blk_number old_head + 1 - 1) with (blk_number old_head) in Hc by lia.
    eapply run_conseq; [exact Hc| |].
    + intros v [Hv ->]. split; [|done]. split; [done|]. unfold ends_below. by rewrite Hold.
    + intros a v (Hcur & _ & Hv). split; [|done]. right. exists latest. split; [apply Hcur; lia|].
      by split; [|left].
  - apply run_ret. intros v [Hv Hb]. split; [|by apply sound_widen]. right. exists old_head.
    rewrite Hb. split; [done|]. assert (blk_number old_head = blk_number latest) as Heq.
    { destruct canonical; [|naive_solver]. specialize (Hcan eq_refl). lia. }
    split; [done|]. right. destruct Hv as [Hw _]. pose proof (ch_cursor _ _ _ Hw) as Hcur.
    rewrite Hb, Hold in Hcur. by destruct Hcur as [_ Hcur].
Qed.

(** The number below which the durable chain ends. *)
Definition history_end (s : JsonState) : Z :=
  match load_cursor s chain with Some cursor => blk_number cursor | None => event_start - 1 end.

Lemma poll_head_run before latest :
  0 <= blk_number latest < U64_MAX -> 0 <= event_start -> 0 < rescan ->
  run (fun v => sound gap chain v /\ fst v = before)
    (_ ← (if negb (bool_decide (load_cursor before chain = Some latest))
          then set_ready service false else mret tt);
     _ ← compare_checkpoint service latest;
     _ ← (match load_cursor before chain with
          | None => catch_up service event_start latest
          | Some old_head =>
              canonical ← cursor_still_canonical old_head latest;
              if negb canonical || ((blk_number latest =? blk_number old_head)
                                    && negb (blk_hash latest =? blk_hash old_head))
              then rewind_and_replay service old_head latest
              else if blk_number old_head <? blk_number latest
              then catch_up service (saturating_add U64_MAX (blk_number old_head) 1) latest
              else mret tt
          end);
     _ ← publish_head service latest;
     mret latest)
    (fun head v => head = latest /\ polled before latest (fst v) /\
       sound (swept (history_end before) latest) chain v)
    (sound (swept (history_end before) latest) chain).
Proof using HL.
  intros Hl Hst Hr. set (gap' := swept (history_end before) latest).
  assert (forall v, sound gap chain v -> sound gap' chain v) as HX by (intros v; apply sound_widen).
  eapply run_bind; [apply run_silent; [case_match; auto with silent|naive_solver]|]. intros u1.
  eapply run_bind with (Q := fun _ v => sound gap chain v /\ fst v = before).
  { eapply run_weaken; [|intros a v Hv; exact Hv|exact HX].
    eapply run_conseq; [apply (compare_checkpoint_run service gap (fun s => s = before))|naive_solver..]. }
  intros u2. eapply run_bind with (Q := fun _ v => polled before latest (fst v) /\ sound gap' chain v).
  - unfold gap', history_end. destruct (load_cursor before chain) as [old_head|] eqn:Hold.
    + intros w [Hv Hb]. apply cursor_advance_run; try done.
      destruct Hv as [Hw _]. eapply cursor_nonneg; [exact Hw|by rewrite Hb].
    + eapply run_conseq; [by apply (catch_up_run (fun s => load_cursor s chain = None))| |].
      * intros v [Hv Hb]. unfold ends_below. by rewrite Hb, Hold.
      * intros a v (Hcur & Hno & Hv). split; [|done].
        destruct (Z.lt_ge_cases (blk_number latest) event_start) as [Hlt|Hge].
        -- left. split; [by apply Hno|done].
        -- right. exists latest. split; [by apply Hcur|]. by split; [|left].
  - intros u3. eapply run_bind; [apply (publish_head_run service gap' (polled before latest))|].
    intros u4. by apply run_ret.
Qed.

End Poll.

Lemma poll_once_inner_run `{HV : ChainEnvironment} `{HL : !ChainLaws HV} `{HK : Keccak}
    `{HE : EventAbi} (service : ChainService) (gap : Z -> Prop) (w : ChainWorld) :
  let chain := cs_chain_id (sv_config service) in
  0 <= cs_event_start_block (sv_config service) -> 0 < cs_reorg_rescan_blocks (sv_config service) ->
  sound gap chain (seen w) ->
  match fst (primary_latest_header (cw_env w)), poll_once_inner service w with
  | Ok latest, (r, w') =>
      sound (swept service gap (history_end service (cw_storage w)) latest) chain (seen w') /\
      forall head, r = Ok head -> head = latest /\ polled service (cw_storage w) latest (cw_storage w')
  | Err e, (r, w') => r = Err (ChainProvider e) /\ seen w' = seen w
  end.
Proof.
  intros chain Hst Hr Hw. unfold poll_once_inner, provider_call, provider_try, mbind, cio_bind.
  destruct (primary_latest_header (cw_env w)) as [[latest|e] e'] eqn:Hh; cbn; [|done].
  set (w1 := mkChainWorld _ _ _ _ _ _).
  pose proof (poll_head_run service gap (cw_storage w) latest ltac:(by eapply latest_in_range) Hst Hr w1
    (conj Hw eq_refl)) as Hrun.
  unfold mbind, cio_bind in Hrun. change (cw_storage w1) with (cw_storage w) in *.
  match goal with |- let '(_, _) := ?c in _ =>
    match type of Hrun with match ?c' with _ => _ end => change c with c' end end.
  match type of Hrun with match ?c with _ => _ end => destruct c as [[head|e1] w2] end.
  - destruct Hrun as (-> & Hp & Hs). split; [done|]. by intros head [= <-].
  - by split.
Qed.

(** C29: Whatever the providers answer and wherever a poll stops, the durable
    canonical blocks of the chain stay unique by number, below the cursor,
    which is the identity of the highest, and linked by their parent hashes
    wherever they were linked before. A service that keeps only the latest
    state may leave blocks unlinked where it skipped history: never below the
    old cursor, nor within the rescan window under the head. Every block and
    reorganization is announced only after it is durable, the readiness gate is
    open exactly after a poll that succeeded, and a successful poll returns the
    head that the provider reported: either this head is below the first block
    of a history still empty, or the cursor is at its height, as this head or
    as the block that was durable there before. *)
Theorem poll_keeps_canonical_chain `{HV : ChainEnvironment} `{HL : !ChainLaws HV} `{HK : Keccak}
    `{HE : EventAbi} (service : ChainService) (gap : Z -> Prop) (w w' : ChainWorld) r :
  let chain := cs_chain_id (sv_config service) in
  let before := cw_storage w in
  let reported := fst (primary_latest_header (cw_env w)) in
  validate_service_config (sv_config service) = Ok (sv_config service) ->
  0 <= cs_reorg_rescan_blocks (sv_config service) ->
  0 <= cs_event_start_block (sv_config service) ->
  chain_wf gap chain before -> Forall (published chain) (cw_updates w) ->
  poll_once service w = (r, w') ->
  chain_wf (match reported with
            | Ok latest => swept service gap (history_end service before) latest
            | Err _ => gap
            end) chain (cw_storage w') /\
  (cs_latest_only (sv_config service) = false -> chain_wf gap chain (cw_storage w')) /\
  Forall (published chain) (cw_updates w') /\
  (sv_provider_ready service = true -> cw_ready w' = is_ok r) /\
  (forall latest, r = Ok latest ->
     reported = Ok latest /\
     ((load_cursor (cw_storage w') chain = None /\
       blk_number latest < cs_event_start_block (sv_config service)) \/
      exists cursor, load_cursor (cw_storage w') chain = Some cursor /\
        blk_number cursor = blk_number latest /\
        (cursor = latest \/
         exists stored, stored ∈ js_canonical_blocks before /\
           number_of stored = blk_number cursor /\ hash_of stored = blk_hash cursor))).
Proof.
  intros chain before reported Hv Hr Hst Hw Hu Hp. unfold poll_once in Hp.
  assert (0 < cs_reorg_rescan_blocks (sv_config service)) as Hrescan.
  { unfold validate_service_config in Hv. destruct (_ =? 0); [done|].
    destruct (Z.eqb_spec (cs_reorg_rescan_blocks (sv_config service)) 0); [done|lia]. }
  pose proof (poll_once_inner_run service gap w Hst Hrescan (conj Hw Hu)) as Hrun.
  fold reported in Hrun. destruct (poll_once_inner service w) as [r1 w1]. cbn in Hp. injection Hp as <- <-.
  assert (seen (if sv_provider_ready service
    then mkChainWorld _ (cw_env w1) (cw_storage w1) (cw_updates w1) (cw_head w1) (is_ok r1)
    else w1) = seen w1) as Hseen by (by destruct (sv_provider_ready service)).
  injection Hseen as -> ->.
  destruct reported as [head|e].
  - destruct Hrun as [[Hwf Hpub] Hok].
    split; [done|]. split; [|split; [done|split; [by intros ->|]]].
    + intros Hlo. eapply (sound_weaken _ gap chain (cw_storage w1, [])); [by split; [|constructor]|].
      unfold swept, widen. rewrite Hlo. intros n [?|?]; [done|lia].
    + intros latest ->. destruct (Hok latest eq_refl) as [-> Hpolled].
      split; [done|exact Hpolled].
  - destruct Hrun as [-> Hseen]. injection Hseen as -> ->.
    split; [done|]. split; [done|]. split; [done|]. split; [by intros ->|]. intros latest Hok. discriminate Hok.
Qed.
