(* ===== verification/ConformanceExample.v ===== *)
(** * Receipts and polls

    A word-wise event interface, a receipt that conforms to its plan, and two
    polls of the chain service, with the applications of the theorems. *)
From Stdlib Require Import ZArith Lia String.
From stdpp Require Import base gmap strings sets sorting list.
From S2P Require Import Prelude.
From S2P Require Import Text.
From S2P Require Import Domain.
From S2P Require Import Models.
From S2P Require Import Storage.
From S2P Require Import Actor.
From S2P Require Import Config.
From S2P Require Import SimulatorProofs.
From S2P Require Import Provider.
From S2P Require Import Firewall.
From S2P Require Import FirewallExample.
From S2P Require Import Revision.
From S2P Require Import ProtocolLock.
From S2P Require Import Logs.
From S2P Require Import Conformance.
From S2P Require Import ConformanceProofs.
From S2P Require Import Reconciliation.
From S2P Require Import Heads.
From S2P Require Import HeadsProofs.
Open Scope Z_scope.

(** ** A receipt that conforms

    An event interface with one word per argument, a receipt of one allocation
    and a log of the example vault, with the applications of the theorems of
    [Logs] and [ConformanceProofs]; a protocol lock that validates. *)

Module ConformanceExample.

#[local] Existing Instance sum_keccak.

(** ** A word-wise event interface *)

Definition vault_code (kind : VaultEventKind) : B256 :=
  match kind with
  | VaultEventKind.Deposit => 1 | VaultEventKind.Withdraw => 2 | VaultEventKind.Allocate => 3
  | VaultEventKind.Deallocate => 4 | VaultEventKind.ForceDeallocate => 5
  | VaultEventKind.AccrueInterest => 6 | VaultEventKind.IncreaseAbsoluteCap => 7
  | VaultEventKind.DecreaseAbsoluteCap => 8 | VaultEventKind.IncreaseRelativeCap => 9
  | VaultEventKind.DecreaseRelativeCap => 10 | VaultEventKind.AddAdapter => 11
  | VaultEventKind.RemoveAdapter => 12 | VaultEventKind.SetAdapterRegistry => 13
  | VaultEventKind.SetLiquidityAdapterAndData => 14 | VaultEventKind.SetMaxRate => 15
  | VaultEventKind.SetIsAllocator => 16 | VaultEventKind.SetIsSentinel => 17
  | VaultEventKind.SetCurator => 18 | VaultEventKind.SetForceDeallocatePenalty => 19
  | VaultEventKind.SetPerformanceFee => 20 | VaultEventKind.SetManagementFee => 21
  | VaultEventKind.SetPerformanceFeeRecipient => 22
  | VaultEventKind.SetManagementFeeRecipient => 23 | VaultEventKind.SetReceiveSharesGate => 24
  | VaultEventKind.SetSendSharesGate => 25 | VaultEventKind.SetReceiveAssetsGate => 26
  | VaultEventKind.SetSendAssetsGate => 27 | VaultEventKind.Submit => 28
  | VaultEventKind.Revoke => 29 | VaultEventKind.Accept => 30
  | VaultEventKind.IncreaseTimelock => 31 | VaultEventKind.DecreaseTimelock => 32
  | VaultEventKind.Abdicate => 33
  end.

Definition adapter_code (kind : AdapterEventKind) : B256 :=
  match kind with
  | AdapterEventKind.Allocate => 1 | AdapterEventKind.Deallocate => 2
  | AdapterEventKind.BurnShares => 3 | AdapterEventKind.SetSkimRecipient => 4
  | AdapterEventKind.Submit => 5 | AdapterEventKind.Revoke => 6 | AdapterEventKind.Accept => 7
  | AdapterEventKind.IncreaseTimelock => 8 | AdapterEventKind.DecreaseTimelock => 9
  | AdapterEventKind.Abdicate => 10
  end.

Definition morpho_code (kind : MorphoEventKind) : B256 :=
  match kind with
  | MorphoEventKind.Supply => 1 | MorphoEventKind.Withdraw => 2 | MorphoEventKind.Borrow => 3
  | MorphoEventKind.Repay => 4 | MorphoEventKind.Liquidate => 5
  | MorphoEventKind.AccrueInterest => 6 | MorphoEventKind.SetFee => 7
  | MorphoEventKind.SetFeeRecipient => 8
  end.

(** The words of the arguments that are not indexed. *)
Definition data_words (event : ProtocolEvent) : Bytes :=
  match event with
  | EventVault (VaultEvent.Allocate _ _ assets ids change)
  | EventVault (VaultEvent.Deallocate _ _ assets ids change) => assets :: change :: ids
  | EventAdapter (AdapterEvent.Allocate _ allocation shares)
  | EventAdapter (AdapterEvent.Deallocate _ allocation shares) => [allocation; shares]
  | EventMorpho (MorphoEvent.Supply _ _ _ assets shares) => [assets; shares]
  | EventToken (Erc20Transfer _ _ value) => [value]
  | _ => []
  end.

Definition signature_word (kind : WatchedEventKind) : B256 :=
  match kind with
  | WatchedVault kind => vault_code kind
  | WatchedAdapter kind => adapter_code kind
  | WatchedMorpho kind => morpho_code kind
  | BorrowRateUpdate => 1
  | WatchedTransfer => 1
  end.

#[local] Instance word_events : EventAbi := {|
  vault_signature := vault_code;
  adapter_signature := adapter_code;
  morpho_signature := morpho_code;
  borrow_rate_update_signature := 1;
  transfer_signature := 1;
  decode_vault_raw_log topics data :=
    match topics, data with
    | [signature; sender; adapter], assets :: change :: ids =>
        if signature =? 3 then Some (VaultEvent.Allocate sender adapter assets ids change)
        else if signature =? 4 then Some (VaultEvent.Deallocate sender adapter assets ids change)
        else None
    | _, _ => None
    end;
  decode_adapter_raw_log topics data :=
    match topics, data with
    | [signature; market], [allocation; shares] =>
        if signature =? 1 then Some (AdapterEvent.Allocate market allocation shares)
        else Some (AdapterEvent.Deallocate market allocation shares)
    | _, _ => None
    end;
  decode_morpho_raw_log topics data :=
    match topics, data with
    | [_; id; caller; onBehalf], [assets; shares] =>
        Some (MorphoEvent.Supply id caller onBehalf assets shares)
    | _, _ => None
    end;
  decode_irm_raw_log topics data := None;
  decode_token_raw_log topics data :=
    match topics, data with
    | [_; from; to], [value] => Some (Erc20Transfer from to value)
    | _, _ => None
    end;
  to_log_data event := (signature_word (event_kind event) :: indexed_topics event, data_words event);
|}.

#[local] Instance word_events_laws : EventAbiLaws.
Proof.
  split.
  - done.
  - by intros [] [].
  - by intros [] [].
  - by intros [] [].
Qed.

(** ** A log of the example vault *)

Definition allocate_log : RawEventLog := mkRawEventLog 1 [3; 77; 31] [100; 100; 5].

Definition allocated : DecodedEvent :=
  mkDecodedEvent (SourceVault 1) (WatchedVault VaultEventKind.Allocate)
    (EventVault (VaultEvent.Allocate 77 31 100 [5] 100)) [AllForVault 1].

Lemma decoded_event_dirties_vaults_witness :
  is_vault_dirty (merge_invalidations dirty_default config 12 (de_invalidations allocated)) 1 = true.
Proof.
  destruct (@decoded_event_dirties_vaults word_events word_events_laws (SourceVault 1) allocate_log allocated config vault
    dirty_default 12 (mkCoveredState (mkBlockRef 0 0 0 0 0) 0 (mkBlockRef 0 0 0 0 0) 0 0)
    ltac:(vm_compute; reflexivity) ltac:(by left) eq_refl) as (_ & _ & _ & H & _). exact H.
Defined.

(** ** A conforming receipt *)

Definition action : ExpectedActionRecord :=
  mkExpectedActionRecord ExpectAllocate DirectMarket 21 31 None 9 100 50 150 [5; 6; 7] 100 0.

Definition expectation : ConformanceExpectation :=
  mkConformanceExpectation 1 500 (mkRoutineTransactionFields 1 77 1 3 500000 40 2 0 [1; 2]) [action]
    1 3 4.

Definition log (index address : Z) (topics : option B256 * option B256 * option B256 * option B256)
    (data : Bytes) : CanonicalLogRecord :=
  mkCanonicalLogRecord 1 12 120 500 0 index address topics data.

Definition receipt : CanonicalReceiptRecord :=
  mkCanonicalReceiptRecord 1 500 12 120 0 (Some 1) 21000
    [log 0 4 (Some 1, Some 1, Some 31, None) [100];
     log 1 4 (Some 1, Some 31, Some 3, None) [100];
     log 2 3 (Some 1, Some 9, Some 31, Some 31) [100; 50];
     log 3 31 (Some 1, Some 9, None, None) [150; 50];
     log 4 1 (Some 3, Some 77, Some 31, None) [100; 100; 5; 6; 7];
     log 5 99 (None, None, None, None) [1]].

Definition observed : RpcTransaction :=
  mkRpcTransaction 500 77 (Some 1) 0 [1; 2] "0x3" (Some 120) (Some "0xc"%string) (Some "0x0"%string).

#[local] Instance report_words : ReportJson :=
  fun r => Some [cp_transaction_id r; cp_movement_assets r].

Definition report : ConformanceReport :=
  mkConformanceReport 1 500 12 120 1 100 0 (keccak256 [1; 100]).

Lemma receipt_conformance_sound_witness :
  net_flow 3 (omap transfer_of (receipt_events expectation receipt)) = 100 /\
  net_flow 31 (omap transfer_of (receipt_events expectation receipt)) = 0.
Proof.
  destruct (@receipt_conformance_sound sum_keccak word_events report_words expectation observed receipt report
    ltac:(vm_compute; reflexivity)) as [_ H].
  rewrite (H 3), (H 31). done.
Defined.

(** The same receipt with the adapter's share count changed is rejected. *)
Example changed_shares_rejected :
  validate_receipt_conformance expectation observed
    (mkCanonicalReceiptRecord 1 500 12 120 0 (Some 1) 21000
       (take 3 (cr_logs receipt) ++ [log 3 31 (Some 1, Some 9, None, None) [150; 51]] ++
        drop 4 (cr_logs receipt))) = Err CfAdapterEvent.
Proof. vm_compute. reflexivity. Qed.

(** A cancellation included again after a reorganization. *)
Example orphaned_cancellation :
  canonical_receipt_outcome
    (mkUnresolvedTransaction 1 1 77 3 Orphaned (Some 500) None None None [] 0 [400; 500] 40 2 40 2
       21000 None 11 11 None Cancellation)
    receipt = Ok Included.
Proof. reflexivity. Qed.
End ConformanceExample.

(** ** Two polls

    A first poll that ingests two blocks, to which the theorem of polling
    applies, and a poll in which the provider answers with two blocks of one
    height. *)

Module HeadsExample.

#[local] Existing Instance sum_keccak.
#[local] Existing Instance ConformanceExample.word_events.

(** The block of a number, and a sibling of it. *)
Definition block_at (number : Z) : BlockRef :=
  mkBlockRef number (100 + number) (99 + number) (1000 + number) 0.
Definition sibling_at (number : Z) : BlockRef :=
  mkBlockRef number (500 + number) (99 + number) (1000 + number) 0.

(** A provider without logs whose latest header is given. *)
Definition quiet (latest : BlockRef) : ChainEnvironment := {|
  env := unit;
  primary_chain_id e := (Ok 1, e);
  primary_latest_header e := (Ok latest, e);
  primary_header_by_number number e := (Ok (block_at number), e);
  primary_logs _ _ _ e := (Ok [], e);
  primary_logs_with_topics _ _ _ _ e := (Ok [], e);
  primary_receipt_by_hash _ e := (Ok None, e);
  checkpoint_chain_id e := (Ok 1, e);
  checkpoint_header_by_number number e := (Ok (block_at number), e);
  checkpoint_receipt_by_hash _ e := (Ok None, e);
  deliver _ e := (None, e);
|}.

Lemma quiet_laws latest : 0 <= blk_number latest < U64_MAX -> ChainLaws (quiet latest).
Proof. intros Hl. split; [by intros e block e' [= <- _]|by intros number e block e' [= <- _]]. Qed.

Definition identity (name : string) : ProviderIdentity :=
  mkProviderIdentity name [ProviderHead; ProviderLogs; ProviderReceipt; ProviderCheckpoint].

Definition service (checkpoint : bool) : ChainService :=
  mkChainService (identity "primary") (if checkpoint then Some (identity "checkpoint") else None)
    (mkChainServiceConfig 1 5 100 10 {[7]} false) None {[8 := {[3]}]} true false.

Definition started (latest : BlockRef) : @ChainWorld (quiet latest) :=
  @mkChainWorld (quiet latest) tt JsonState_default [] None false.

Definition poll_at (latest : BlockRef) (w : @ChainWorld (quiet latest)) (checkpoint : bool) :=
  @poll_once (quiet latest) _ _ (service checkpoint) w.

Lemma default_chain : chain_wf (fun _ => False) 1 JsonState_default.
Proof.
  split; cbn; [constructor|constructor|constructor| |done]. intros a b Ha. by apply elem_of_nil in Ha.
Qed.

Definition first_poll := poll_at (block_at 6) (started (block_at 6)) true.

(** The same service keeping only the latest state, 40 blocks behind. *)
Definition latest_service : ChainService :=
  mkChainService (identity "primary") None (mkChainServiceConfig 1 5 100 10 {[7]} true) None ∅ true false.

Definition sparse_poll :=
  @poll_once (quiet (block_at 45)) _ _ latest_service (started (block_at 45)).

(** The poll of the full history, and the sparse one, which ingests the last ten
    blocks and links them. *)
Lemma poll_keeps_canonical_chain_witness :
  (first_poll.1 = Ok (block_at 6) /\ chain_wf (fun _ => False) 1 (cw_storage first_poll.2) /\
   load_cursor (cw_storage first_poll.2) 1 = Some (block_at 6) /\ cw_ready first_poll.2 = true /\
   length (cw_updates first_poll.2) = 5%nat) /\
  (sparse_poll.1 = Ok (block_at 45) /\
   chain_wf (fun n => False \/ 4 <= n < 36) 1 (cw_storage sparse_poll.2) /\
   (number_of <$> js_canonical_blocks (cw_storage sparse_poll.2)) = seqZ 36 10).
Proof.
  split.
  - destruct (@poll_keeps_canonical_chain (quiet (block_at 6))
      (quiet_laws (block_at 6) ltac:(by vm_compute)) _ _ (service true) (fun _ => False)
      (started (block_at 6)) first_poll.2 first_poll.1) as (_ & Hw & _ & Hr & _).
    + reflexivity.
    + vm_compute. discriminate.
    + vm_compute. discriminate.
    + exact default_chain.
    + constructor.
    + apply surjective_pairing.
    + split; [vm_compute; reflexivity|]. split; [by apply Hw|].
      split; [vm_compute; reflexivity|]. split; [rewrite Hr by reflexivity|]; vm_compute; reflexivity.
  - destruct (@poll_keeps_canonical_chain (quiet (block_at 45))
      (quiet_laws (block_at 45) ltac:(by vm_compute)) _ _ latest_service (fun _ => False)
      (started (block_at 45)) sparse_poll.2 sparse_poll.1) as (Hw & _).
    + reflexivity.
    + vm_compute. discriminate.
    + vm_compute. discriminate.
    + exact default_chain.
    + constructor.
    + apply surjective_pairing.
    + split; [vm_compute; reflexivity|]. split; [exact Hw|vm_compute; reflexivity].
Defined.

(** The latest header is a sibling of the durable head, and the header read
    next at this height is the durable one again. *)
Definition flapping_poll :=
  poll_at (sibling_at 6)
    (@mkChainWorld (quiet (sibling_at 6)) tt (cw_storage first_poll.2) [] None true) false.

(** The poll succeeds with the sibling and opens the readiness gate, although
    this head was never ingested: the cursor is another block. *)
Theorem flapping_head_reported_ready :
  flapping_poll.1 = Ok (sibling_at 6) /\ cw_ready flapping_poll.2 = true /\
  load_cursor (cw_storage flapping_poll.2) 1 = Some (block_at 6).
Proof. vm_compute. done. Qed.

End HeadsExample.
