(* ===== verification/RawConfig.v ===== *)
(** * Raw configuration

    The records of [config.rs] and [config/top_k.rs] as they are read: addresses,
    hashes and amounts are text. A [Duration] is its number of nanoseconds.
    Also the document envelope that separates operator inputs from policy, and
    its merge. *)
From Stdlib Require Import ZArith Lia String.
From stdpp Require Import base strings list.
From S2P Require Import Prelude.
From S2P Require Import Domain.
From S2P Require Import Config.
Open Scope Z_scope.

Definition Duration : Type := Z.
Definition from_secs (seconds : Z) : Duration := seconds * 1000000000.
Definition as_secs (d : Duration) : Z := d / 1000000000.
Definition as_millis (d : Duration) : Z := d / 1000000.
Definition duration_is_zero (d : Duration) : bool := d =? 0.

Definition CONFIG_SCHEMA_VERSION : Z := 6.

(** ** Raw records *)

Record NodeConfig : Type := mkNodeConfig {
  cfg_node_instance_id : string;
  cfg_node_mode : RuntimeMode;
  cfg_node_data_dir : string;
  cfg_node_full_reconciliation_interval : Duration;
  cfg_node_topology_reconciliation_interval : Duration;
}.

Record RpcConfig : Type := mkRpcConfig {
  cfg_rpc_name : string;
  cfg_rpc_url_env : string;
  cfg_rpc_websocket_url_env : option string;
  cfg_rpc_roles : list RpcRole;
  cfg_rpc_production_grade : bool;
  cfg_rpc_supports_websocket : bool;
  cfg_rpc_supports_historical_state : bool;
}.

Record ChainConfig : Type := mkChainConfig {
  cfg_chain_name : string;
  cfg_chain_chain_id : Z;
  cfg_chain_morpho_blue : string;
  cfg_chain_multicall3 : string;
  cfg_chain_expected_multicall3_code_hash : string;
  cfg_chain_event_start_block : Z;
  cfg_chain_maximum_log_range : Z;
  cfg_chain_reorg_rescan_blocks : Z;
  cfg_chain_block_opportunity_policy : BlockOpportunityPolicy;
  cfg_chain_rpc : list RpcConfig;
}.

Record SnapshotConfig : Type := mkSnapshotConfig {
  cfg_snapshot_mode : SnapshotMode;
  cfg_snapshot_strict_signing_context : bool;
  cfg_snapshot_maximum_background_snapshot_age_blocks : Z;
  cfg_snapshot_maximum_signing_snapshot_age_blocks : Z;
  cfg_snapshot_maximum_snapshot_retries : Z;
  cfg_snapshot_maximum_evm_timestamp_lag_seconds : Z;
  cfg_snapshot_maximum_snapshot_to_sign_latency : Duration;
  cfg_snapshot_maximum_sign_to_broadcast_latency : Duration;
}.

Record ExecutionConfig : Type := mkExecutionConfig {
  cfg_execution_expected_inclusion_opportunities : Z;
  cfg_execution_maximum_inclusion_opportunities : Z;
  cfg_execution_maximum_rate_rebalance_pending_opportunities : Z;
  cfg_execution_maximum_capital_deployment_pending_opportunities : Z;
  cfg_execution_maximum_liquidity_maintenance_pending_opportunities : Z;
  cfg_execution_identical_rebroadcast_after_opportunities : Z;
  cfg_execution_replacement_after_opportunities : Z;
  cfg_execution_cancel_when_opportunities_remaining : Z;
  cfg_execution_receipt_confirmation_evm_blocks : Z;
  cfg_execution_maximum_actions : Z;
  cfg_execution_maximum_signed_transaction_gas : Z;
  cfg_execution_gas_headroom_bps : Z;
  cfg_execution_maximum_fee_per_gas_wei : string;
  cfg_execution_maximum_daily_gas_spend_wei : string;
}.

Record SolverConfig : Type := mkSolverConfig {
  cfg_solver_maximum_nodes : Z;
  cfg_solver_maximum_amount_candidates_per_position : Z;
  cfg_solver_maximum_source_sets : Z;
  cfg_solver_maximum_destination_sets : Z;
  cfg_solver_allow_incomplete_rate_solver : bool;
}.

Record TopKApyConfig : Type := mkTopKApyConfig {
  cfg_topk_enter_apy_bps : Z;
  cfg_topk_exit_apy_bps : Z;
  cfg_topk_replacement_apy_bps : Z;
  cfg_topk_fourth_market_max_gap_apy_bps : Z;
  cfg_topk_top_market_boost_threshold_apy_bps : Z;
  cfg_topk_top_market_boost_weight_bps : Z;
  cfg_topk_upside_ema_alpha_bps : Z;
  cfg_topk_probe_allocation_bps : Z;
  cfg_topk_membership_confirmation : Duration;
  cfg_topk_tick_interval : Duration;
  cfg_topk_three_market_weights_bps : list Z;
  cfg_topk_four_market_weights_bps : list Z;
  cfg_topk_entry_score_wad : string;
  cfg_topk_target_score_wad : string;
  cfg_topk_minimum_improvement_score_wad : string;
  cfg_topk_enforce_gas_economic_gate : bool;
  cfg_topk_minimum_net_gain_assets : string;
  cfg_topk_gas_cost_multiplier : Z;
  cfg_topk_native_token_price_ceiling_asset_wad : string;
  cfg_topk_maximum_diversification_cost_apy_bps : Z;
}.

Definition MAXIMUM_MARKET_WEIGHT_BPS : Z := 7000.
Definition REQUIRED_TICK_INTERVAL_SECONDS : Z := 300.

(** [TopKApyConfig::default] *)
Definition TopKApyConfig_default : TopKApyConfig :=
  mkTopKApyConfig 200 250 100 250 200 MAXIMUM_MARKET_WEIGHT_BPS 2000 500 (from_secs 1800)
    (from_secs REQUIRED_TICK_INTERVAL_SECONDS) [5000; 3000; 2000] [4000; 3000; 2000; 1000]
    "50000000000000000" "10000000000000000" "10000000000000000" true "0" 3 "0" 25.

Record StrategyConfig : Type := mkStrategyConfig {
  cfg_strategy_objective : StrategyObjective;
  cfg_strategy_entry_spread_apr_bps : Z;
  cfg_strategy_target_spread_apr_bps : Z;
  cfg_strategy_target_tolerance_apr_bps : Z;
  cfg_strategy_utilization_entry_spread_bps : Z;
  cfg_strategy_utilization_target_spread_bps : Z;
  cfg_strategy_utilization_target_tolerance_bps : Z;
  cfg_strategy_utilization_minimum_improvement_bps : Z;
  cfg_strategy_utilization_portfolio_spread_tolerance_bps : Z;
  cfg_strategy_minimum_portfolio_improvement_apr_bps : Z;
  cfg_strategy_minimum_controllable_improvement_apr_bps : Z;
  cfg_strategy_portfolio_spread_tolerance_apr_bps : Z;
  cfg_strategy_confirmation_opportunities : Z;
  cfg_strategy_immediate_tranche_bps : Z;
  cfg_strategy_persistent_confirmation_duration : Duration;
  cfg_strategy_minimum_independent_rate_events : Z;
  cfg_strategy_minimum_independent_event_span : Duration;
  cfg_strategy_minimum_independent_event_rate_impact_apr_bps : Z;
  cfg_strategy_minimum_independent_event_utilization_impact_bps : Z;
  cfg_strategy_maximum_rate_episode_duration : Duration;
  cfg_strategy_extreme_spread_bypass_enabled : bool;
  cfg_strategy_benefit_horizon : Duration;
  cfg_strategy_maximum_daily_transactions : Z;
  cfg_strategy_top_k_apy : TopKApyConfig;
}.

Record AlertConfig : Type := mkAlertConfig {
  cfg_alerts_telegram : TelegramConfig;
  cfg_alerts_pagerduty : PagerDutyConfig;
}.

Record RateGroupConfig : Type := mkRateGroupConfig {
  cfg_group_name : string;
  cfg_group_minimum_assets : string;
  cfg_group_target_assets : string;
  cfg_group_maximum_assets : string;
  cfg_group_allow_cross_group_movement : bool;
}.

Record LiquidityAdapterConfig : Type := mkLiquidityAdapterConfig {
  cfg_liquidity_address : string;
  cfg_liquidity_kind : LiquidityAdapterKind;
  cfg_liquidity_expected_code_hash : string;
  cfg_liquidity_morpho_vault_v1 : string;
  cfg_liquidity_expected_morpho_vault_v1_code_hash : string;
  cfg_liquidity_maximum_action_assets : string;
}.

Record AdapterConfig : Type := mkAdapterConfig {
  cfg_adapter_address : string;
  cfg_adapter_kind : AdapterKind;
  cfg_adapter_expected_code_hash : string;
  cfg_adapter_maximum_markets : Z;
}.

Record PositionConfig : Type := mkPositionConfig {
  cfg_position_adapter : string;
  cfg_position_loan_token : string;
  cfg_position_collateral_token : string;
  cfg_position_oracle : string;
  cfg_position_irm : string;
  cfg_position_lltv : string;
  cfg_position_market_id : string;
  cfg_position_mode : MarketMode;
  cfg_position_rate_group : string;
  cfg_position_minimum_position_assets : string;
  cfg_position_maximum_position_assets : string;
  cfg_position_minimum_source_liquidity_assets : string;
  cfg_position_maximum_source_utilization_wad : string;
  cfg_position_minimum_relevance_entry_assets : string;
  cfg_position_minimum_relevance_exit_assets : string;
  cfg_position_minimum_rate_relevant_market_supply_assets : string;
  cfg_position_minimum_rate_relevant_market_borrow_assets : string;
  cfg_position_minimum_destination_market_supply_assets : string;
  cfg_position_minimum_destination_market_supply_shares : string;
  cfg_position_maximum_action_assets : string;
  cfg_position_allow_active_complete_exit : bool;
  cfg_position_complete_exit_dust_threshold_assets : string;
  cfg_position_reward_policy : RewardPolicy;
}.

Record VaultConfig : Type := mkVaultConfig {
  cfg_vault_name : string;
  cfg_vault_address : string;
  cfg_vault_asset : string;
  cfg_vault_asset_decimals : Z;
  cfg_vault_expected_vault_code_hash : string;
  cfg_vault_deployment_block : Z;
  cfg_vault_signer_address : string;
  cfg_vault_strategy : VaultStrategy;
  cfg_vault_strict_zero_routine_idle : bool;
  cfg_vault_minimum_action_assets : string;
  cfg_vault_maximum_rounding_dust_assets : string;
  cfg_vault_maximum_immediate_rebalance_loss_assets : string;
  cfg_vault_maximum_terminal_value_sacrifice_assets : string;
  cfg_vault_minimum_active_positions_after_economic_exit : Z;
  cfg_vault_maximum_movement_per_hour_assets : string;
  cfg_vault_maximum_movement_per_day_assets : string;
  cfg_vault_minimum_independent_event_assets : string;
  cfg_vault_minimum_atomic_exit_coverage_assets : string;
  cfg_vault_minimum_liquidity_adapter_assets : string;
  cfg_vault_minimum_deposit_headroom_assets : string;
  cfg_vault_deposit_headroom_search_upper_bound_assets : string;
  cfg_vault_minimum_source_token_liquidity_assets : string;
  cfg_vault_lock_operator_clearance_required : bool;
  cfg_vault_unattributed_idle_fail_closed : bool;
  cfg_vault_require_supported_nonzero_liquidity_adapter : bool;
  cfg_vault_require_zero_gates : bool;
  cfg_vault_required_vault_dead_address : string;
  cfg_vault_minimum_market_dead_supply_shares : string;
  cfg_vault_approved_allocators : list string;
  cfg_vault_approved_sentinels : list string;
  cfg_vault_rate_group : list RateGroupConfig;
  cfg_vault_adapter : list AdapterConfig;
  cfg_vault_liquidity_adapter : option LiquidityAdapterConfig;
  cfg_vault_position : list PositionConfig;
}.

Record AppConfig : Type := mkAppConfig {
  cfg_schema_version : Z;
  cfg_node : NodeConfig;
  cfg_chain : ChainConfig;
  cfg_snapshot : SnapshotConfig;
  cfg_execution : ExecutionConfig;
  cfg_solver : SolverConfig;
  cfg_strategy : StrategyConfig;
  cfg_signing : SigningConfig;
  cfg_alerts : AlertConfig;
  cfg_vault : list VaultConfig;
}.

(** ** The document *)

Record NormalNodeConfig : Type := mkNormalNodeConfig {
  doc_node_instance_id : string;
  doc_node_mode : RuntimeMode;
  doc_node_data_dir : string;
}.

Record NormalChainConfig : Type := mkNormalChainConfig {
  doc_chain_name : string;
  doc_chain_chain_id : Z;
  doc_chain_morpho_blue : string;
  doc_chain_multicall3 : string;
  doc_chain_expected_multicall3_code_hash : string;
  doc_chain_event_start_block : Z;
  doc_chain_rpc : list RpcConfig;
}.

Record NormalConfig : Type := mkNormalConfig {
  doc_normal_node : NormalNodeConfig;
  doc_normal_chain : NormalChainConfig;
  doc_normal_signing : SigningConfig;
  doc_normal_alerts : AlertConfig;
  doc_normal_vault : list VaultConfig;
}.

Record AdvancedNodeConfig : Type := mkAdvancedNodeConfig {
  doc_full_reconciliation_interval : Duration;
  doc_topology_reconciliation_interval : Duration;
}.

Record AdvancedChainConfig : Type := mkAdvancedChainConfig {
  doc_maximum_log_range : Z;
  doc_reorg_rescan_blocks : Z;
  doc_block_opportunity_policy : BlockOpportunityPolicy;
}.

Record AdvancedConfig : Type := mkAdvancedConfig {
  doc_advanced_node : AdvancedNodeConfig;
  doc_advanced_chain : AdvancedChainConfig;
  doc_advanced_snapshot : SnapshotConfig;
  doc_advanced_execution : ExecutionConfig;
  doc_advanced_solver : SolverConfig;
  doc_advanced_strategy : StrategyConfig;
}.

Record ConfigDocument : Type := mkConfigDocument {
  doc_schema_version : Z;
  doc_normal : NormalConfig;
  doc_advanced : AdvancedConfig;
}.

Definition into_app_config (d : ConfigDocument) : AppConfig :=
  let normal := doc_normal d in
  let advanced := doc_advanced d in
  let node := doc_normal_node normal in
  let chain := doc_normal_chain normal in
  mkAppConfig (doc_schema_version d)
    (mkNodeConfig (doc_node_instance_id node) (doc_node_mode node) (doc_node_data_dir node)
       (doc_full_reconciliation_interval (doc_advanced_node advanced))
       (doc_topology_reconciliation_interval (doc_advanced_node advanced)))
    (mkChainConfig (doc_chain_name chain) (doc_chain_chain_id chain) (doc_chain_morpho_blue chain)
       (doc_chain_multicall3 chain) (doc_chain_expected_multicall3_code_hash chain)
       (doc_chain_event_start_block chain)
       (doc_maximum_log_range (doc_advanced_chain advanced))
       (doc_reorg_rescan_blocks (doc_advanced_chain advanced))
       (doc_block_opportunity_policy (doc_advanced_chain advanced))
       (doc_chain_rpc chain))
    (doc_advanced_snapshot advanced) (doc_advanced_execution advanced) (doc_advanced_solver advanced)
    (doc_advanced_strategy advanced) (doc_normal_signing normal) (doc_normal_alerts normal)
    (doc_normal_vault normal).
