(* ===== verification/ConfigValidation.v ===== *)
(** * Configuration validation

    [AppConfig::validate] of [config.rs] with the top-K policy of
    [config/top_k.rs]: the fail-closed checks, the exact unit conversions, the
    canonical order of unordered inputs and the revision. The parsers of
    addresses, hashes and integers, the document decoders and the JSON writer
    are libraries. *)
From Stdlib Require Import ZArith Lia Ascii String.
From stdpp Require Import base gmap sets strings sorting list.
From S2P Require Import Prelude.
From S2P Require Import Text.
From S2P Require Import BlueMath.
From S2P Require Import Domain.
From S2P Require Import Config.
From S2P Require Import Actor.
From S2P Require Import ProtocolLock.
From S2P Require Import RawConfig.
Open Scope Z_scope.

Inductive ConfigError : Type :=
  | ConfigIo
  | ConfigParse
  | ConfigYaml
  | UnsupportedFormat
  | ConfigInvalid (field reason : string)
  | ConfigArithmetic (e : ArithmeticError)
  | ConfigCanonical.

Definition validation (field reason : string) : ConfigError := ConfigInvalid field reason.

(** [if cond { return Err(validation(field, reason)); }] *)
Definition refuse (cond : bool) (field reason : string) : result ConfigError unit :=
  if cond then Err (validation field reason) else Ok tt.

Definition blank (s : string) : bool := is_empty (trim s).

(** [str::as_bytes] *)
Definition string_bytes (s : string) : Bytes :=
  (fun c => Z.of_N (Ascii.N_of_ascii c)) <$> String.list_ascii_of_string s.

(** ** Unit conversions *)

Definition apr_bps_to_rate_per_second_up (value : Z) : result ArithmeticError Z :=
  numerator ← ok_or (checked_mul U256_MAX value WAD) Overflow;
  denominator ← ok_or (checked_mul U256_MAX 10000 SECONDS_PER_YEAR) Overflow;
  adjustment ← ok_or (checked_sub denominator 1) Underflow;
  adjusted ← ok_or (checked_add U256_MAX numerator adjustment) Overflow;
  ok_or (checked_div adjusted denominator) Overflow.

Definition apr_bps_to_rate_per_second_down (value : Z) : result ArithmeticError Z :=
  numerator ← ok_or (checked_mul U256_MAX value WAD) Overflow;
  denominator ← ok_or (checked_mul U256_MAX 10000 SECONDS_PER_YEAR) Overflow;
  ok_or (checked_div numerator denominator) Overflow.

Definition utilization_bps_to_wad (value : Z) : result ArithmeticError Z :=
  ok_or (checked_mul U256_MAX value (WAD / 10000)) Overflow.

(** [?] on an arithmetic result. *)
Definition exact {A} (c : result ArithmeticError A) : result ConfigError A :=
  map_err ConfigArithmetic c.

(** ** Library parsers *)

(** [U256::from_str]. *)
Class U256Text : Type := u256_from_str : string -> option Z.

(** [serde_json::to_vec] of the canonical configuration and the two document
    decoders. *)
Class ConfigCodec : Type := {
  app_to_json : ValidatedAppConfig -> option Bytes;
  document_from_json : string -> option ConfigDocument;
  document_from_yaml : string -> option ConfigDocument;
}.

Section Validate.
Context `{HK : Keccak} `{HA : AbiParams} `{HH : HexParse} `{HU : U256Text} `{HC : ConfigCodec}.

Definition parse_address (field raw : string) : result ConfigError Address :=
  ok_or (address_from_str raw) (validation field "invalid EVM address").

Definition parse_hash (field raw : string) : result ConfigError B256 :=
  ok_or (b256_from_str raw) (validation field "invalid 32-byte hash").

Definition parse_nonzero_hash (field raw : string) : result ConfigError B256 :=
  hash ← parse_hash field raw;
  _ ← refuse (hash =? 0) field "expected code hash must be nonzero";
  Ok hash.

Definition parse_u256 (field raw : string) : result ConfigError Z :=
  ok_or (u256_from_str raw) (validation field "invalid unsigned integer").

Definition parse_addresses (field : string) (values : list string)
    : result ConfigError (list Address) := try_map (parse_address field) values.

(** ** The top-K policy *)

Definition BASIS_POINTS_SCALE : Z := 10000.

Definition in_range (low high value : Z) : bool := (low <=? value) && (value <=? high).

Fixpoint non_increasing (weights : list Z) : bool :=
  match weights with
  | w1 :: (w2 :: _) as rest => (w2 <=? w1) && non_increasing rest
  | _ => true
  end.

Definition valid_weights (weights : list Z) (expected_len : nat) : bool :=
  bool_decide (length weights = expected_len)
  && bool_decide (opt_fold (checked_add U32_MAX) 0 weights = Some BASIS_POINTS_SCALE)
  && non_increasing weights
  && forallb (fun weight => weight <=? MAXIMUM_MARKET_WEIGHT_BPS) weights.

(** Whether the boosted weight leaves no room above the first weight. *)
Definition boost_conflict (boost : Z) (weights : list Z) : bool :=
  match weights with
  | weight :: _ => boost <=? weight
  | [] => true
  end.

Definition validate_top_k (c : TopKApyConfig) (mode : RuntimeMode) (strategy_is_enabled : bool)
    : result ConfigError unit :=
  _ ← refuse ((cfg_topk_enter_apy_bps c =? 0)
              || (cfg_topk_exit_apy_bps c <? cfg_topk_enter_apy_bps c)
              || (cfg_topk_replacement_apy_bps c =? 0)
              || (cfg_topk_exit_apy_bps c <? cfg_topk_replacement_apy_bps c)
              || (BASIS_POINTS_SCALE <? cfg_topk_exit_apy_bps c))
        "strategy.top_k_apy.hysteresis"
        "enter must be positive, exit must be at least enter, and replacement must be in 1..=exit";
  _ ← refuse ((BASIS_POINTS_SCALE <? cfg_topk_fourth_market_max_gap_apy_bps c)
              || negb (in_range 1 BASIS_POINTS_SCALE (cfg_topk_top_market_boost_threshold_apy_bps c))
              || negb (in_range 1 MAXIMUM_MARKET_WEIGHT_BPS (cfg_topk_top_market_boost_weight_bps c)))
        "strategy.top_k_apy.yield_weighting"
        "fourth-market gap must be at most 10000 bps, boost threshold must be in 1..=10000, and boosted top weight must be in 1..=7000";
  _ ← refuse (negb (in_range 1 BASIS_POINTS_SCALE (cfg_topk_upside_ema_alpha_bps c))
              || negb (in_range 1 BASIS_POINTS_SCALE (cfg_topk_probe_allocation_bps c)))
        "strategy.top_k_apy.smoothing" "EMA alpha and probe allocation must be in 1..=10000";
  _ ← refuse (duration_is_zero (cfg_topk_membership_confirmation c)
              || negb (as_secs (cfg_topk_tick_interval c) =? REQUIRED_TICK_INTERVAL_SECONDS))
        "strategy.top_k_apy.timing"
        "membership confirmation must be positive and tick_interval must be exactly 5m";
  _ ← refuse (negb (valid_weights (cfg_topk_three_market_weights_bps c) 3)
              || negb (valid_weights (cfg_topk_four_market_weights_bps c) 4)
              || boost_conflict (cfg_topk_top_market_boost_weight_bps c)
                   (cfg_topk_three_market_weights_bps c)
              || boost_conflict (cfg_topk_top_market_boost_weight_bps c)
                   (cfg_topk_four_market_weights_bps c))
        "strategy.top_k_apy.weights"
        "three/four market weights must have the expected lengths, sum to 10000, be non-increasing, stay at or below 70%, and leave room for the configured top-market boost";
  entry_score ← parse_u256 "strategy.top_k_apy.entry_score_wad" (cfg_topk_entry_score_wad c);
  target_score ← parse_u256 "strategy.top_k_apy.target_score_wad" (cfg_topk_target_score_wad c);
  minimum_improvement ← parse_u256 "strategy.top_k_apy.minimum_improvement_score_wad"
    (cfg_topk_minimum_improvement_score_wad c);
  _ ← refuse ((WAD <? entry_score) || (entry_score <=? target_score) || (minimum_improvement =? 0)
              || (entry_score <? minimum_improvement) || (cfg_topk_gas_cost_multiplier c =? 0))
        "strategy.top_k_apy.score"
        "scores must satisfy 0 <= target < entry <= WAD, improvement must be in 1..=entry, and gas multiplier must be positive";
  if bool_decide (mode = ModeExecute) && strategy_is_enabled then
    ceiling ← parse_u256 "strategy.top_k_apy.native_token_price_ceiling_asset_wad"
      (cfg_topk_native_token_price_ceiling_asset_wad c);
    refuse (ceiling =? 0) "strategy.top_k_apy.native_token_price_ceiling_asset_wad"
      "top-K Execute requires a nonzero curator-approved gas conversion ceiling"
  else Ok tt.

(** [TopKApyConfig::canonical] *)
Definition canonical (c : TopKApyConfig) : result ConfigError ValidatedTopKApyConfig :=
  enter ← exact (utilization_bps_to_wad (cfg_topk_enter_apy_bps c));
  exit ← exact (utilization_bps_to_wad (cfg_topk_exit_apy_bps c));
  replacement ← exact (utilization_bps_to_wad (cfg_topk_replacement_apy_bps c));
  gap ← exact (utilization_bps_to_wad (cfg_topk_fourth_market_max_gap_apy_bps c));
  threshold ← exact (utilization_bps_to_wad (cfg_topk_top_market_boost_threshold_apy_bps c));
  entry_score ← parse_u256 "strategy.top_k_apy.entry_score_wad" (cfg_topk_entry_score_wad c);
  target_score ← parse_u256 "strategy.top_k_apy.target_score_wad" (cfg_topk_target_score_wad c);
  improvement ← parse_u256 "strategy.top_k_apy.minimum_improvement_score_wad"
    (cfg_topk_minimum_improvement_score_wad c);
  net_gain ← parse_u256 "strategy.top_k_apy.minimum_net_gain_assets"
    (cfg_topk_minimum_net_gain_assets c);
  ceiling ← parse_u256 "strategy.top_k_apy.native_token_price_ceiling_asset_wad"
    (cfg_topk_native_token_price_ceiling_asset_wad c);
  diversification ← exact (utilization_bps_to_wad (cfg_topk_maximum_diversification_cost_apy_bps c));
  Ok (mkValidatedTopKApyConfig enter exit replacement gap threshold
        (cfg_topk_top_market_boost_weight_bps c) (cfg_topk_upside_ema_alpha_bps c)
        (cfg_topk_probe_allocation_bps c) (as_secs (cfg_topk_membership_confirmation c))
        (as_secs (cfg_topk_tick_interval c)) (cfg_topk_three_market_weights_bps c)
        (cfg_topk_four_market_weights_bps c) entry_score target_score improvement
        (cfg_topk_enforce_gas_economic_gate c) net_gain (cfg_topk_gas_cost_multiplier c) ceiling
        diversification).

(** ** Process-wide checks *)

Definition provider_reference_invalid (provider : RpcConfig) : bool :=
  blank (cfg_rpc_name provider) || blank (cfg_rpc_url_env provider)
  || negb (eqb (cfg_rpc_supports_websocket provider)
             match cfg_rpc_websocket_url_env provider with
             | Some name => negb (blank name)
             | None => false
             end).

Definition signing_environment (signing : SigningConfig) : string :=
  match signing with
  | RemoteSigner endpoint_env => endpoint_env
  | LocalDevelopment private_key_env _ => private_key_env
  end.

Definition telegram_incomplete (c : TelegramConfig) : bool :=
  tg_enabled c && (blank (tg_bot_token_env c) || blank (tg_chat_id c)).
Definition pagerduty_incomplete (c : PagerDutyConfig) : bool :=
  pd_enabled c && blank (pd_integration_key_env c).

Definition local_signer_unauthorized (config : AppConfig) : bool :=
  match cfg_signing config with
  | LocalDevelopment _ execute_chain_id =>
      bool_decide (cfg_node_mode (cfg_node config) = ModeExecute)
      && negb (bool_decide (execute_chain_id = Some (cfg_chain_chain_id (cfg_chain config))))
  | RemoteSigner _ => false
  end.

Definition owns_roles (roles : list RpcRole) (provider : RpcConfig) : bool :=
  forallb (fun role => bool_decide (role ∈ cfg_rpc_roles provider)) roles.

Definition primary_roles : list RpcRole :=
  [RoleHead; RoleLogs; RoleRead; RoleSimulate; RoleSubmit; RoleReceipt].
Definition checkpoint_roles : list RpcRole := [RoleRead; RoleCheckpoint; RoleReceipt].

Definition primaries (providers : list RpcConfig) : list RpcConfig :=
  List.filter (fun provider => cfg_rpc_production_grade provider
                               && owns_roles primary_roles provider) providers.

Definition sole_primary (providers : list RpcConfig) : result ConfigError RpcConfig :=
  match primaries providers with
  | [primary] => Ok primary
  | _ => Err (validation "chain.rpc"
                "exactly one production-grade primary must own every live runtime role")
  end.

Definition has_checkpoint_provider (primary : RpcConfig) (providers : list RpcConfig) : bool :=
  existsb (fun provider => negb (bool_decide (cfg_rpc_name provider = cfg_rpc_name primary))
                           && owns_roles checkpoint_roles provider) providers.

(** The signed gas does not fit the blocks that count as opportunities. *)
Definition gas_limit_conflict (policy : BlockOpportunityPolicy) (maximum_gas : Z) : bool :=
  match policy with
  | HyperEvmFastBlocks gas_limit => (gas_limit =? 0) || (gas_limit <=? maximum_gas)
  | EveryCanonicalBlock => false
  end.

(** The environment references and the positive bounds of the process. *)
Definition validate_environment (config : AppConfig) : result ConfigError unit :=
  let chain := cfg_chain config in
  let solver := cfg_solver config in
  _ ← refuse (negb (cfg_schema_version config =? CONFIG_SCHEMA_VERSION))
        "schema_version" "unsupported schema version";
  _ ← refuse (bool_decide (length (cfg_vault config) = 0%nat))
        "vault" "at least one vault is required";
  _ ← refuse (bool_decide (length (cfg_chain_rpc chain) = 0%nat))
        "chain.rpc" "at least one RPC provider is required";
  _ ← refuse (existsb provider_reference_invalid (cfg_chain_rpc chain)) "chain.rpc"
        "provider names and HTTP environment references must be non-empty, and WebSocket support requires exactly one WebSocket environment reference";
  _ ← refuse (blank (signing_environment (cfg_signing config)))
        "signing" "signer environment-variable name must be non-empty";
  _ ← refuse (telegram_incomplete (cfg_alerts_telegram (cfg_alerts config)))
        "alerts.telegram" "enabled Telegram requires non-empty token environment and chat ID";
  _ ← refuse (pagerduty_incomplete (cfg_alerts_pagerduty (cfg_alerts config)))
        "alerts.pagerduty" "enabled PagerDuty requires a non-empty integration-key environment";
  _ ← refuse (local_signer_unauthorized config) "signing.execute_chain_id"
        "local-development Execute requires an explicit exact chain-ID authorization";
  _ ← refuse ((cfg_chain_maximum_log_range chain =? 0) || (cfg_chain_reorg_rescan_blocks chain =? 0)
              || (MAX_DURABLE_REORG_RESCAN_BLOCKS <? cfg_chain_reorg_rescan_blocks chain))
        "chain" "log range must be positive and reorg rescan must be within durable retention";
  _ ← refuse ((cfg_snapshot_maximum_snapshot_retries (cfg_snapshot config) =? 0)
              || (60 <? cfg_snapshot_maximum_evm_timestamp_lag_seconds (cfg_snapshot config)))
        "snapshot"
        "snapshot retries must be positive and EVM timestamp lag may not exceed 60 seconds";
  refuse ((cfg_solver_maximum_nodes solver =? 0)
          || (cfg_solver_maximum_amount_candidates_per_position solver =? 0)
          || (cfg_solver_maximum_source_sets solver =? 0)
          || (cfg_solver_maximum_destination_sets solver =? 0))
    "solver" "all bounded-search limits must be positive".

(** The roles of the providers and the bounds of a transaction. *)
Definition validate_execution (config : AppConfig) : result ConfigError unit :=
  let providers := cfg_chain_rpc (cfg_chain config) in
  let execution := cfg_execution config in
  primary ← sole_primary providers;
  _ ← refuse (negb (has_checkpoint_provider primary providers))
        "chain.rpc" "an independent checkpoint/read/receipt provider is required";
  _ ← refuse (cfg_execution_maximum_signed_transaction_gas execution =? 0)
        "execution.maximum_signed_transaction_gas" "must be positive";
  _ ← refuse (gas_limit_conflict (cfg_chain_block_opportunity_policy (cfg_chain config))
                (cfg_execution_maximum_signed_transaction_gas execution))
        "chain.block_opportunity_policy.gas_limit" "must exceed the maximum signed transaction gas";
  maximum_fee_per_gas ← parse_u256 "execution.maximum_fee_per_gas_wei"
    (cfg_execution_maximum_fee_per_gas_wei execution);
  _ ← refuse (maximum_fee_per_gas <? 2) "execution.maximum_fee_per_gas_wei"
        "must leave room for an initial fee and a higher cancellation fee";
  maximum_daily ← parse_u256 "execution.maximum_daily_gas_spend_wei"
    (cfg_execution_maximum_daily_gas_spend_wei execution);
  _ ← refuse (maximum_daily =? 0) "execution.maximum_daily_gas_spend_wei" "must be positive";
  _ ← refuse (cfg_execution_maximum_inclusion_opportunities execution
              <? cfg_execution_maximum_rate_rebalance_pending_opportunities execution)
        "execution.maximum_rate_rebalance_pending_opportunities"
        "rate pending horizon exceeds normal inclusion horizon";
  refuse ((cfg_execution_identical_rebroadcast_after_opportunities execution =? 0)
          || (cfg_execution_replacement_after_opportunities execution
              <? cfg_execution_identical_rebroadcast_after_opportunities execution))
    "execution.identical_rebroadcast_after_opportunities"
    "must be positive and no later than fee replacement".

(** The entry threshold is not above the convergence threshold. *)
Definition spread_conflict (entry target tolerance : Z) : bool :=
  match checked_add U32_MAX target tolerance with
  | Some convergence => entry <=? convergence
  | None => true
  end.
Definition convergence_above (bound target tolerance : Z) : bool :=
  match checked_add U32_MAX target tolerance with
  | Some convergence => bound <? convergence
  | None => true
  end.

Definition validate_strategy (s : StrategyConfig) : result ConfigError unit :=
  _ ← refuse (spread_conflict (cfg_strategy_entry_spread_apr_bps s)
                (cfg_strategy_target_spread_apr_bps s) (cfg_strategy_target_tolerance_apr_bps s))
        "strategy.entry_spread_apr_bps" "entry spread must exceed target plus convergence tolerance";
  _ ← refuse ((10000 <? cfg_strategy_utilization_entry_spread_bps s)
              || (10000 <? cfg_strategy_utilization_target_spread_bps s)
              || (10000 <? cfg_strategy_utilization_target_tolerance_bps s)
              || spread_conflict (cfg_strategy_utilization_entry_spread_bps s)
                   (cfg_strategy_utilization_target_spread_bps s)
                   (cfg_strategy_utilization_target_tolerance_bps s)
              || convergence_above 10000 (cfg_strategy_utilization_target_spread_bps s)
                   (cfg_strategy_utilization_target_tolerance_bps s))
        "strategy.utilization_entry_spread_bps"
        "entry must be at most 10000 and exceed target plus tolerance";
  _ ← refuse ((cfg_strategy_minimum_portfolio_improvement_apr_bps s =? 0)
              || (cfg_strategy_minimum_controllable_improvement_apr_bps s =? 0))
        "strategy.minimum_improvement" "portfolio and controllable improvements must be positive";
  _ ← refuse ((cfg_strategy_utilization_minimum_improvement_bps s =? 0)
              || (10000 <? cfg_strategy_utilization_minimum_improvement_bps s)
              || (10000 <? cfg_strategy_utilization_portfolio_spread_tolerance_bps s))
        "strategy.utilization_minimum_improvement_bps"
        "minimum improvement must be in 1..=10000 and tolerance at most 10000";
  _ ← refuse (negb (in_range 1 10000 (cfg_strategy_immediate_tranche_bps s)))
        "strategy.immediate_tranche_bps" "must be in 1..=10000";
  _ ← refuse (cfg_strategy_confirmation_opportunities s =? 0)
        "strategy.confirmation_opportunities" "must be positive";
  _ ← refuse (duration_is_zero (cfg_strategy_persistent_confirmation_duration s))
        "strategy.persistent_confirmation_duration" "must be positive";
  _ ← refuse (cfg_strategy_minimum_independent_rate_events s <? 2)
        "strategy.minimum_independent_rate_events" "must be at least two";
  _ ← refuse (duration_is_zero (cfg_strategy_minimum_independent_event_span s)
              || (cfg_strategy_minimum_independent_event_rate_impact_apr_bps s =? 0)
              || (cfg_strategy_minimum_independent_event_utilization_impact_bps s =? 0)
              || (10000 <? cfg_strategy_minimum_independent_event_utilization_impact_bps s))
        "strategy.independent_event" "event span and rate impact must be positive";
  _ ← refuse (cfg_strategy_maximum_rate_episode_duration s
              <=? cfg_strategy_persistent_confirmation_duration s)
        "strategy.maximum_rate_episode_duration" "must exceed persistent confirmation duration";
  refuse (cfg_strategy_maximum_daily_transactions s =? 0)
    "strategy.maximum_daily_transactions" "must be positive".

Definition validate_top_level (config : AppConfig) : result ConfigError unit :=
  let strategy := cfg_strategy config in
  _ ← validate_environment config;
  _ ← validate_execution config;
  _ ← validate_strategy strategy;
  _ ← validate_top_k (cfg_strategy_top_k_apy strategy) (cfg_node_mode (cfg_node config))
        (existsb (fun vault => bool_decide (cfg_vault_strategy vault = TopKApyDiversified))
           (cfg_vault config));
  refuse (bool_decide (cfg_node_mode (cfg_node config) = ModeExecute)
          && (cfg_strategy_extreme_spread_bypass_enabled strategy
              || cfg_solver_allow_incomplete_rate_solver (cfg_solver config)))
    "node.mode" "release-one Execute forbids extreme bypass and incomplete rate search".

(** ** One vault *)

(** The end of the validity of the evidence, after its identity is checked. *)
Definition reward_validity (policy : RewardPolicy) : result ConfigError (option Z) :=
  match policy with
  | NoMaterialRewards _ valid_until_timestamp evidence_hash =>
      _ ← refuse (evidence_hash =? 0) "vault.position.reward_policy.evidence_hash"
            "evidence hash must be nonzero";
      Ok (Some valid_until_timestamp)
  | Modeled model_revision valid_until_timestamp =>
      _ ← refuse (model_revision =? 0) "vault.position.reward_policy.model_revision"
            "model revision must be nonzero";
      Ok (Some valid_until_timestamp)
  | IgnoreRewardsByCuratorMandate policy_revision =>
      _ ← refuse (policy_revision =? 0) "vault.position.reward_policy.policy_revision"
            "policy revision must be nonzero";
      Ok None
  | FixedUntilModeled => Ok None
  end.

Definition validate_reward_policy (policy : RewardPolicy) (required_validity : Z)
    : result ConfigError unit :=
  validity ← reward_validity policy;
  refuse match validity with
         | Some timestamp => timestamp <? required_validity
         | None => false
         end
    "vault.position.reward_policy.valid_until_timestamp"
    "reward evidence does not cover the configured benefit horizon".

Definition validate_adapter (adapter : AdapterConfig) : result ConfigError ValidatedAdapterConfig :=
  _ ← refuse (cfg_adapter_maximum_markets adapter =? 0)
        "vault.adapter.maximum_markets" "must be positive";
  address ← parse_address "vault.adapter.address" (cfg_adapter_address adapter);
  code_hash ← parse_nonzero_hash "vault.adapter.expected_code_hash"
    (cfg_adapter_expected_code_hash adapter);
  Ok (mkValidatedAdapterConfig address (cfg_adapter_kind adapter) code_hash
        (cfg_adapter_maximum_markets adapter)).

Definition validate_liquidity_adapter (adapter_set : gset AdapterAddress)
    (adapter : LiquidityAdapterConfig) : result ConfigError ValidatedLiquidityAdapterConfig :=
  address ← parse_address "vault.liquidity_adapter.address" (cfg_liquidity_address adapter);
  _ ← refuse (bool_decide (address ∈ adapter_set)) "vault.liquidity_adapter.address"
        "liquidity-only adapter must not also be configured as a direct adapter";
  maximum_action_assets ← parse_u256 "vault.liquidity_adapter.maximum_action_assets"
    (cfg_liquidity_maximum_action_assets adapter);
  _ ← refuse (maximum_action_assets =? 0)
        "vault.liquidity_adapter.maximum_action_assets" "must be positive";
  code_hash ← parse_nonzero_hash "vault.liquidity_adapter.expected_code_hash"
    (cfg_liquidity_expected_code_hash adapter);
  morpho_vault_v1 ← parse_address "vault.liquidity_adapter.morpho_vault_v1"
    (cfg_liquidity_morpho_vault_v1 adapter);
  vault_hash ← parse_nonzero_hash "vault.liquidity_adapter.expected_morpho_vault_v1_code_hash"
    (cfg_liquidity_expected_morpho_vault_v1_code_hash adapter);
  Ok (mkValidatedLiquidityAdapterConfig (derive_liquidity_position_key address) address
        (cfg_liquidity_kind adapter) code_hash morpho_vault_v1 vault_hash maximum_action_assets).

Definition parse_market_params (position : PositionConfig) : result ConfigError MarketParams :=
  loan_token ← parse_address "vault.position.loan_token" (cfg_position_loan_token position);
  collateral_token ← parse_address "vault.position.collateral_token"
    (cfg_position_collateral_token position);
  oracle ← parse_address "vault.position.oracle" (cfg_position_oracle position);
  irm ← parse_address "vault.position.irm" (cfg_position_irm position);
  lltv ← parse_u256 "vault.position.lltv" (cfg_position_lltv position);
  Ok (mkMarketParams loan_token collateral_token oracle irm lltv).

Definition validate_position (asset : Address) (adapter_set : gset AdapterAddress)
    (group_name : string) (group_id : RateGroupId) (required_reward_validity : Z)
    (position : PositionConfig) : result ConfigError ValidatedPositionConfig :=
  adapter ← parse_address "vault.position.adapter" (cfg_position_adapter position);
  _ ← refuse (negb (bool_decide (adapter ∈ adapter_set)))
        "vault.position.adapter" "position references an unconfigured adapter";
  _ ← refuse (negb (bool_decide (cfg_position_rate_group position = group_name)))
        "vault.position.rate_group" "position references an unknown rate group";
  params ← parse_market_params position;
  _ ← refuse (negb (mp_loan_token params =? asset))
        "vault.position.loan_token" "loan token differs from vault asset";
  configured_market_id ← parse_hash "vault.position.market_id" (cfg_position_market_id position);
  _ ← refuse (negb (configured_market_id =? derive_market_id params))
        "vault.position.market_id" "configured market ID differs from exact derivation";
  _ ← validate_reward_policy (cfg_position_reward_policy position) required_reward_validity;
  relevance_entry ← parse_u256 "vault.position.minimum_relevance_entry_assets"
    (cfg_position_minimum_relevance_entry_assets position);
  relevance_exit ← parse_u256 "vault.position.minimum_relevance_exit_assets"
    (cfg_position_minimum_relevance_exit_assets position);
  _ ← refuse (relevance_entry <=? relevance_exit)
        "vault.position.minimum_relevance_entry_assets" "entry relevance must exceed exit relevance";
  minimum_position_assets ← parse_u256 "vault.position.minimum_position_assets"
    (cfg_position_minimum_position_assets position);
  maximum_position_assets ← parse_u256 "vault.position.maximum_position_assets"
    (cfg_position_maximum_position_assets position);
  _ ← refuse (maximum_position_assets <? minimum_position_assets)
        "vault.position" "minimum position exceeds maximum position";
  source_liquidity ← parse_u256 "vault.position.minimum_source_liquidity_assets"
    (cfg_position_minimum_source_liquidity_assets position);
  source_utilization ← parse_u256 "vault.position.maximum_source_utilization_wad"
    (cfg_position_maximum_source_utilization_wad position);
  relevant_supply ← parse_u256 "vault.position.minimum_rate_relevant_market_supply_assets"
    (cfg_position_minimum_rate_relevant_market_supply_assets position);
  relevant_borrow ← parse_u256 "vault.position.minimum_rate_relevant_market_borrow_assets"
    (cfg_position_minimum_rate_relevant_market_borrow_assets position);
  destination_assets ← parse_u256 "vault.position.minimum_destination_market_supply_assets"
    (cfg_position_minimum_destination_market_supply_assets position);
  destination_shares ← parse_u256 "vault.position.minimum_destination_market_supply_shares"
    (cfg_position_minimum_destination_market_supply_shares position);
  maximum_action ← parse_u256 "vault.position.maximum_action_assets"
    (cfg_position_maximum_action_assets position);
  exit_dust ← parse_u256 "vault.position.complete_exit_dust_threshold_assets"
    (cfg_position_complete_exit_dust_threshold_assets position);
  Ok (mkValidatedPositionConfig (derive_position_key adapter params) adapter params
        (derive_market_id params) (cfg_position_mode position) group_id minimum_position_assets
        maximum_position_assets source_liquidity source_utilization relevance_entry relevance_exit
        relevant_supply relevant_borrow destination_assets destination_shares maximum_action
        (cfg_position_allow_active_complete_exit position) exit_dust
        (cfg_position_reward_policy position)).

(** [sort] then [dedup]. *)
Fixpoint dedup_adjacent (l : list Z) : list Z :=
  match l with
  | x :: (y :: _) as rest => if x =? y then dedup_adjacent rest else x :: dedup_adjacent rest
  | _ => l
  end.
Definition sort_dedup (l : list Z) : list Z := dedup_adjacent (merge_sort Z.le l).

Definition distinct_by {A} (key : A -> Z) (l : list A) : bool :=
  bool_decide (size (list_to_set (key <$> l) : gset Z) = length l).

Definition sort_by_number {A} (key : A -> Z) (l : list A) : list A :=
  sort_by_key (fun x => [key x]) l.

Definition validate_group (groups : list RateGroupConfig) : result ConfigError ValidatedRateGroupConfig :=
  group ← ok_or (last groups) (validation "vault.rate_group"
            "release one requires exactly one active rate group");
  minimum ← parse_u256 "vault.rate_group.minimum_assets" (cfg_group_minimum_assets group);
  target ← parse_u256 "vault.rate_group.target_assets" (cfg_group_target_assets group);
  maximum ← parse_u256 "vault.rate_group.maximum_assets" (cfg_group_maximum_assets group);
  _ ← refuse ((target <? minimum) || (maximum <? target))
        "vault.rate_group" "group assets must satisfy minimum <= target <= maximum";
  _ ← refuse (cfg_group_allow_cross_group_movement group)
        "vault.rate_group.allow_cross_group_movement"
        "release one does not support cross-group movement";
  Ok (mkValidatedRateGroupConfig (cfg_group_name group)
        (keccak256 (string_bytes (cfg_group_name group))) minimum target maximum
        (cfg_group_allow_cross_group_movement group)).

Definition validate_adapters (adapters : list AdapterConfig)
    : result ConfigError (list ValidatedAdapterConfig) :=
  adapters ← try_map validate_adapter adapters;
  let adapters := sort_by_number vad_address adapters in
  _ ← refuse (negb (distinct_by vad_address adapters))
        "vault.adapter.address" "direct adapter address is duplicated";
  Ok adapters.

Definition validate_positions (vault : VaultConfig) (asset : Address)
    (adapter_set : gset AdapterAddress) (group : ValidatedRateGroupConfig)
    (required_reward_validity : Z) : result ConfigError (list ValidatedPositionConfig) :=
  positions ← try_map (validate_position asset adapter_set (rg_name group) (rg_id group)
                         required_reward_validity) (cfg_vault_position vault);
  let positions := sort_by_number pc_position_key positions in
  _ ← refuse (negb (distinct_by pc_position_key positions))
        "vault.position" "position identity is duplicated";
  _ ← refuse (negb (distinct_by pc_market_id positions))
        "vault.position.market_id" "one Morpho market may appear only once per managed vault";
  let active := List.filter (fun p => bool_decide (pc_mode p = Active)) positions in
  _ ← refuse (Z.of_nat (length active) <? cfg_vault_minimum_active_positions_after_economic_exit vault)
        "vault.minimum_active_positions_after_economic_exit"
        "cannot exceed the configured Active position count";
  Ok positions.

Definition validate_vault (vault : VaultConfig) (required_reward_validity : Z)
    : result ConfigError ValidatedVaultConfig :=
  _ ← refuse (negb (bool_decide (length (cfg_vault_rate_group vault) = 1%nat)))
        "vault.rate_group" "release one requires exactly one active rate group";
  address ← parse_address "vault.address" (cfg_vault_address vault);
  asset ← parse_address "vault.asset" (cfg_vault_asset vault);
  signer_address ← parse_address "vault.signer_address" (cfg_vault_signer_address vault);
  _ ← refuse (cfg_vault_asset_decimals vault =? 0)
        "vault.asset_decimals" "asset decimals must be nonzero";
  minimum_action ← parse_u256 "vault.minimum_action_assets" (cfg_vault_minimum_action_assets vault);
  per_hour ← parse_u256 "vault.maximum_movement_per_hour_assets"
    (cfg_vault_maximum_movement_per_hour_assets vault);
  per_day ← parse_u256 "vault.maximum_movement_per_day_assets"
    (cfg_vault_maximum_movement_per_day_assets vault);
  event ← parse_u256 "vault.minimum_independent_event_assets"
    (cfg_vault_minimum_independent_event_assets vault);
  _ ← refuse ((minimum_action =? 0) || (per_hour <? minimum_action) || (per_day <? per_hour)
              || (event =? 0))
        "vault.movement_limits"
        "minimum action and event amount must be positive, with hourly >= action and daily >= hourly";
  headroom ← parse_u256 "vault.minimum_deposit_headroom_assets"
    (cfg_vault_minimum_deposit_headroom_assets vault);
  headroom_bound ← parse_u256 "vault.deposit_headroom_search_upper_bound_assets"
    (cfg_vault_deposit_headroom_search_upper_bound_assets vault);
  _ ← refuse ((headroom_bound =? 0) || (headroom_bound <? headroom))
        "vault.deposit_headroom_search_upper_bound_assets"
        "must be nonzero and cover minimum deposit headroom";
  allocators ← parse_addresses "vault.approved_allocators" (cfg_vault_approved_allocators vault);
  _ ← refuse (negb (bool_decide (signer_address ∈ allocators)))
        "vault.signer_address" "signer is absent from approved allocators";
  sentinels ← parse_addresses "vault.approved_sentinels" (cfg_vault_approved_sentinels vault);
  group ← validate_group (cfg_vault_rate_group vault);
  adapters ← validate_adapters (cfg_vault_adapter vault);
  let adapter_set := list_to_set (vad_address <$> adapters) in
  liquidity_adapter ←
    (match cfg_vault_liquidity_adapter vault with
     | Some adapter => adapter ← validate_liquidity_adapter adapter_set adapter; Ok (Some adapter)
     | None => Ok None
     end);
  positions ← validate_positions vault asset adapter_set group required_reward_validity;
  code_hash ← parse_nonzero_hash "vault.expected_vault_code_hash"
    (cfg_vault_expected_vault_code_hash vault);
  dust ← parse_u256 "vault.maximum_rounding_dust_assets"
    (cfg_vault_maximum_rounding_dust_assets vault);
  immediate_loss ← parse_u256 "vault.maximum_immediate_rebalance_loss_assets"
    (cfg_vault_maximum_immediate_rebalance_loss_assets vault);
  sacrifice ← parse_u256 "vault.maximum_terminal_value_sacrifice_assets"
    (cfg_vault_maximum_terminal_value_sacrifice_assets vault);
  coverage ← parse_u256 "vault.minimum_atomic_exit_coverage_assets"
    (cfg_vault_minimum_atomic_exit_coverage_assets vault);
  liquidity ← parse_u256 "vault.minimum_liquidity_adapter_assets"
    (cfg_vault_minimum_liquidity_adapter_assets vault);
  token_liquidity ← parse_u256 "vault.minimum_source_token_liquidity_assets"
    (cfg_vault_minimum_source_token_liquidity_assets vault);
  dead_address ← parse_address "vault.required_vault_dead_address"
    (cfg_vault_required_vault_dead_address vault);
  dead_shares ← parse_u256 "vault.minimum_market_dead_supply_shares"
    (cfg_vault_minimum_market_dead_supply_shares vault);
  Ok (mkValidatedVaultConfig (cfg_vault_name vault) address asset (cfg_vault_asset_decimals vault)
        code_hash (cfg_vault_deployment_block vault) signer_address (cfg_vault_strategy vault)
        (cfg_vault_strict_zero_routine_idle vault) minimum_action dust immediate_loss sacrifice
        (cfg_vault_minimum_active_positions_after_economic_exit vault) per_hour per_day event
        coverage liquidity headroom headroom_bound token_liquidity
        (cfg_vault_lock_operator_clearance_required vault)
        (cfg_vault_unattributed_idle_fail_closed vault)
        (cfg_vault_require_supported_nonzero_liquidity_adapter vault)
        (cfg_vault_require_zero_gates vault) dead_address dead_shares (sort_dedup allocators)
        (sort_dedup sentinels) group adapters liquidity_adapter positions).

(** ** The whole configuration *)

Definition role_index (role : RpcRole) : Z :=
  match role with
  | RoleHead => 0 | RoleLogs => 1 | RoleRead => 2 | RoleSimulate => 3
  | RoleSubmit => 4 | RoleCheckpoint => 5 | RoleReceipt => 6
  end.
Fixpoint dedup_roles (l : list RpcRole) : list RpcRole :=
  match l with
  | x :: (y :: _) as rest => if bool_decide (x = y) then dedup_roles rest else x :: dedup_roles rest
  | _ => l
  end.

Definition validate_rpc (item : RpcConfig) : ValidatedRpcConfig :=
  mkValidatedRpcConfig (cfg_rpc_name item) (cfg_rpc_url_env item) (cfg_rpc_websocket_url_env item)
    (dedup_roles (sort_by_number role_index (cfg_rpc_roles item)))
    (cfg_rpc_production_grade item) (cfg_rpc_supports_websocket item)
    (cfg_rpc_supports_historical_state item).

Definition rpc_name_le (a b : ValidatedRpcConfig) : Prop := String.le (vr_name a) (vr_name b).
#[global] Instance rpc_name_le_dec : RelDecision rpc_name_le.
Proof. intros a b. unfold rpc_name_le. apply _. Defined.

Definition canonical_chain (chain : ChainConfig) : result ConfigError ValidatedChainConfig :=
  let rpc := merge_sort rpc_name_le (validate_rpc <$> cfg_chain_rpc chain) in
  morpho_blue ← parse_address "chain.morpho_blue" (cfg_chain_morpho_blue chain);
  multicall3 ← parse_address "chain.multicall3" (cfg_chain_multicall3 chain);
  code_hash ← parse_nonzero_hash "chain.expected_multicall3_code_hash"
    (cfg_chain_expected_multicall3_code_hash chain);
  Ok (mkValidatedChainConfig (cfg_chain_name chain) (cfg_chain_chain_id chain) morpho_blue
        multicall3 code_hash (cfg_chain_event_start_block chain) (cfg_chain_maximum_log_range chain)
        (cfg_chain_reorg_rescan_blocks chain) (cfg_chain_block_opportunity_policy chain) rpc).

Definition canonical_execution (e : ExecutionConfig) : result ConfigError ValidatedExecutionConfig :=
  maximum_fee ← parse_u256 "execution.maximum_fee_per_gas_wei"
    (cfg_execution_maximum_fee_per_gas_wei e);
  maximum_daily ← parse_u256 "execution.maximum_daily_gas_spend_wei"
    (cfg_execution_maximum_daily_gas_spend_wei e);
  Ok (mkValidatedExecutionConfig (cfg_execution_expected_inclusion_opportunities e)
        (cfg_execution_maximum_inclusion_opportunities e)
        (cfg_execution_maximum_rate_rebalance_pending_opportunities e)
        (cfg_execution_maximum_capital_deployment_pending_opportunities e)
        (cfg_execution_maximum_liquidity_maintenance_pending_opportunities e)
        (cfg_execution_identical_rebroadcast_after_opportunities e)
        (cfg_execution_replacement_after_opportunities e)
        (cfg_execution_cancel_when_opportunities_remaining e)
        (cfg_execution_receipt_confirmation_evm_blocks e) (cfg_execution_maximum_actions e)
        (cfg_execution_maximum_signed_transaction_gas e) (cfg_execution_gas_headroom_bps e)
        maximum_fee maximum_daily).

Definition canonical_strategy (s : StrategyConfig) : result ConfigError ValidatedStrategyConfig :=
  entry ← exact (apr_bps_to_rate_per_second_up (cfg_strategy_entry_spread_apr_bps s));
  target ← exact (apr_bps_to_rate_per_second_down (cfg_strategy_target_spread_apr_bps s));
  tolerance ← exact (apr_bps_to_rate_per_second_down (cfg_strategy_target_tolerance_apr_bps s));
  u_entry ← exact (utilization_bps_to_wad (cfg_strategy_utilization_entry_spread_bps s));
  u_target ← exact (utilization_bps_to_wad (cfg_strategy_utilization_target_spread_bps s));
  u_tolerance ← exact (utilization_bps_to_wad (cfg_strategy_utilization_target_tolerance_bps s));
  u_improvement ← exact (utilization_bps_to_wad
                           (cfg_strategy_utilization_minimum_improvement_bps s));
  u_portfolio ← exact (utilization_bps_to_wad
                         (cfg_strategy_utilization_portfolio_spread_tolerance_bps s));
  portfolio ← exact (apr_bps_to_rate_per_second_up
                       (cfg_strategy_minimum_portfolio_improvement_apr_bps s));
  controllable ← exact (apr_bps_to_rate_per_second_up
                          (cfg_strategy_minimum_controllable_improvement_apr_bps s));
  portfolio_tolerance ← exact (apr_bps_to_rate_per_second_down
                                 (cfg_strategy_portfolio_spread_tolerance_apr_bps s));
  event_impact ← exact (apr_bps_to_rate_per_second_up
                          (cfg_strategy_minimum_independent_event_rate_impact_apr_bps s));
  u_event_impact ← exact (utilization_bps_to_wad
                            (cfg_strategy_minimum_independent_event_utilization_impact_bps s));
  top_k ← canonical (cfg_strategy_top_k_apy s);
  Ok (mkValidatedStrategyConfig (cfg_strategy_objective s) entry target tolerance u_entry u_target
        u_tolerance u_improvement u_portfolio portfolio controllable portfolio_tolerance
        (cfg_strategy_confirmation_opportunities s) (cfg_strategy_immediate_tranche_bps s)
        (as_millis (cfg_strategy_persistent_confirmation_duration s))
        (cfg_strategy_minimum_independent_rate_events s)
        (as_millis (cfg_strategy_minimum_independent_event_span s)) event_impact u_event_impact
        (as_millis (cfg_strategy_maximum_rate_episode_duration s))
        (cfg_strategy_extreme_spread_bypass_enabled s) (as_secs (cfg_strategy_benefit_horizon s))
        (cfg_strategy_maximum_daily_transactions s) top_k).

(** The loop over the vaults: the addresses and the signer seen, and the
    validated vaults. *)
Record VaultScan : Type := mkVaultScan {
  sc_vault_addresses : gset VaultAddress;
  sc_shared_signer : option Address;
  sc_vaults : list ValidatedVaultConfig;
}.

Definition scan_vault (required_reward_validity : Z) (scan : VaultScan) (vault : VaultConfig)
    : result ConfigError VaultScan :=
  validated ← validate_vault vault required_reward_validity;
  _ ← refuse (bool_decide (vv_address validated ∈ sc_vault_addresses scan))
        "vault.address" "vault address is duplicated";
  _ ← refuse match sc_shared_signer scan with
             | Some signer => negb (signer =? vv_signer_address validated)
             | None => false
             end
        "vault.signer_address" "all managed vaults must share one allocator signer";
  Ok (mkVaultScan ({[vv_address validated]} ∪ sc_vault_addresses scan)
        (Some (vv_signer_address validated)) (sc_vaults scan ++ [validated])).

Definition config_revision_checked (app : ValidatedAppConfig) : result ConfigError B256 :=
  bytes ← ok_or (app_to_json app) ConfigCanonical;
  Ok (keccak256 bytes).

Definition config_revision (config : ValidatedConfig) : B256 := vg_revision config.

Definition validate_at (config : AppConfig) (now : Z) : result ConfigError ValidatedConfig :=
  _ ← validate_top_level config;
  chain ← canonical_chain (cfg_chain config);
  execution ← canonical_execution (cfg_execution config);
  strategy ← canonical_strategy (cfg_strategy config);
  required_reward_validity ←
    exact (ok_or (checked_add U64_MAX now (as_secs (cfg_strategy_benefit_horizon (cfg_strategy config))))
             Overflow);
  scan ← try_fold (scan_vault required_reward_validity) (mkVaultScan ∅ None []) (cfg_vault config);
  let node := cfg_node config in
  let snapshot := cfg_snapshot config in
  let solver := cfg_solver config in
  let app := mkValidatedAppConfig (cfg_schema_version config)
    (mkValidatedNodeConfig (cfg_node_instance_id node) (cfg_node_mode node) (cfg_node_data_dir node)
       (as_millis (cfg_node_full_reconciliation_interval node))
       (as_millis (cfg_node_topology_reconciliation_interval node)))
    chain
    (mkValidatedSnapshotConfig (cfg_snapshot_mode snapshot)
       (cfg_snapshot_strict_signing_context snapshot)
       (cfg_snapshot_maximum_background_snapshot_age_blocks snapshot)
       (cfg_snapshot_maximum_signing_snapshot_age_blocks snapshot)
       (cfg_snapshot_maximum_snapshot_retries snapshot)
       (cfg_snapshot_maximum_evm_timestamp_lag_seconds snapshot)
       (as_millis (cfg_snapshot_maximum_snapshot_to_sign_latency snapshot))
       (as_millis (cfg_snapshot_maximum_sign_to_broadcast_latency snapshot)))
    execution
    (mkSolverConfigCanonical (cfg_solver_maximum_nodes solver)
       (cfg_solver_maximum_amount_candidates_per_position solver)
       (cfg_solver_maximum_source_sets solver) (cfg_solver_maximum_destination_sets solver)
       (cfg_solver_allow_incomplete_rate_solver solver))
    strategy (cfg_signing config)
    (mkValidatedAlertConfig (cfg_alerts_telegram (cfg_alerts config))
       (cfg_alerts_pagerduty (cfg_alerts config)))
    (sort_by_number vv_address (sc_vaults scan)) in
  revision ← config_revision_checked app;
  Ok (mkValidatedConfig app revision).

(** [now] is the Unix time of the system clock, which may precede the epoch. *)
Definition current_unix_timestamp (timestamp : Z) : result ConfigError Z :=
  _ ← refuse (timestamp <? 0) "system_time" "timestamp precedes Unix epoch";
  Ok timestamp.

Definition validate (config : AppConfig) (timestamp : Z) : result ConfigError ValidatedConfig :=
  now ← current_unix_timestamp timestamp;
  validate_at config now.

(** [AppConfig::load] of the text and the extension of a path. *)
Definition load (text : option string) (extension : option string) : result ConfigError AppConfig :=
  text ← ok_or text ConfigIo;
  document ← (match lowercase <$> extension with
              | Some "json"%string => ok_or (document_from_json text) ConfigParse
              | Some "yaml"%string | Some "yml"%string => ok_or (document_from_yaml text) ConfigYaml
              | _ => Err UnsupportedFormat
              end);
  Ok (into_app_config document).

End Validate.
