(* ===== verification/ConfigProofs.v ===== *)
(** * What a validated configuration guarantees

    The theorems about [ConfigValidation]: the invariants every consumer of the
    configuration relies on, and the independence of the result from the order
    of unordered inputs. *)
From Stdlib Require Import ZArith Lia Ascii String.
From stdpp Require Import base gmap sets strings sorting list.
From S2P Require Import Prelude.
From S2P Require Import Text.
From S2P Require Import BlueMath.
From S2P Require Import Domain.
From S2P Require Import Config.
From S2P Require Import ProtocolLock.
From S2P Require Import RawConfig.
From S2P Require Import ConfigValidation.
Open Scope Z_scope.

(** An integer that parses is unsigned and fits its width. *)
Class U256TextLaws `{U256Text} : Prop :=
  u256_text_range s v : u256_from_str s = Some v -> 0 <= v <= U256_MAX.

Lemma refuse_Ok c field reason u : refuse c field reason = Ok u <-> c = false.
Proof. destruct c, u; cbn; split; congruence. Qed.

(** Unfolds a chain of checks: a refusal becomes its failed condition, a parse
    its result. *)
Ltac unroll_step :=
  match goal with
  | H : (_ ≫= _) = Ok _ |- _ => apply bind_Ok in H as (? & ? & H); cbn beta iota in H
  | H : refuse _ _ _ = Ok _ |- _ => apply refuse_Ok in H
  | H : ok_or _ _ = Ok _ |- _ => apply ok_or_Ok in H
  | H : map_err _ _ = Ok _ |- _ => apply map_err_Ok in H
  | H : Ok _ = Ok _ |- _ => injection H as H
  | H : Err _ = Ok _ |- _ => discriminate H
  end.
Ltac unroll := repeat unroll_step.

(** ** Canonical orders *)

Lemma size_list_le (l : list Z) : (size (list_to_set l : gset Z) <= length l)%nat.
Proof.
  induction l as [|x l IH]; cbn; [by rewrite size_empty|].
  pose proof (size_union_alt ({[x]} : gset Z) (list_to_set l)) as E.
  pose proof (subseteq_size (list_to_set l ∖ {[x]} : gset Z) (list_to_set l) ltac:(set_solver)).
  rewrite size_singleton in E. lia.
Qed.

Section Sorting.
Context {A : Type} (key : A -> Z).
Let le (x y : A) : Prop := Is_true (lex_le [key x] [key y]).

Lemma number_le x y : le x y <-> key x <= key y.
Proof.
  unfold le. cbn. rewrite Is_true_true.
  destruct (Z.ltb_spec (key x) (key y)), (Z.eqb_spec (key x) (key y)); cbn; split;
    first [done | lia].
Qed.

#[local] Instance number_le_total : Total le.
Proof. intros x y. rewrite !number_le. lia. Qed.
#[local] Instance number_le_trans : Transitive le.
Proof. intros x y z. rewrite !number_le. lia. Qed.

(** The keys increase strictly. *)
Definition strictly_sorted (l : list A) : Prop := StronglySorted (fun x y => key x < key y) l.

Lemma sort_by_number_perm l : sort_by_number key l ≡ₚ l.
Proof. apply sort_by_key_perm. Qed.

Lemma distinct_by_spec l : distinct_by key l = true <-> NoDup (key <$> l).
Proof.
  unfold distinct_by. rewrite bool_decide_eq_true. induction l as [|x l IH]; cbn.
  { rewrite size_empty. split; [constructor|done]. }
  rewrite NoDup_cons, <- IH. clear IH.
  destruct (decide (key x ∈ key <$> l)) as [Hin|Hin].
  - assert ({[key x]} ∪ list_to_set (key <$> l) =@{gset Z} list_to_set (key <$> l)) as ->.
    { set_solver. }
    split; [intros Hs|by intros [? _]]. exfalso.
    pose proof (size_list_le (key <$> l)) as Hle. rewrite length_fmap in Hle. lia.
  - rewrite size_union, size_singleton by set_solver. split; [|intros [_ ->]; lia].
    intros Hs. split; [done|lia].
Qed.

Lemma sort_by_number_strict l :
  NoDup (key <$> l) -> strictly_sorted (sort_by_number key l).
Proof.
  intros Hd. rewrite <- (sort_by_number_perm l) in Hd.
  pose proof (StronglySorted_merge_sort le l) as Hs.
  change (merge_sort le l) with (sort_by_number key l) in Hs. unfold strictly_sorted.
  induction Hs as [|x k Hs IH Hf]; [constructor|]. cbn in Hd. apply NoDup_cons in Hd as [Hx Hd].
  constructor; [by apply IH|]. rewrite Forall_forall in Hf |- *. intros y Hy.
  specialize (Hf y Hy). apply number_le in Hf.
  assert (key x <> key y) by (intros E; apply Hx; rewrite E; by apply list_elem_of_fmap_2).
  lia.
Qed.

Lemma strictly_sorted_unique l k : strictly_sorted l -> strictly_sorted k -> l ≡ₚ k -> l = k.
Proof.
  intros Hl. revert k. induction Hl as [|x l Hl IH Hx]; intros k Hk Hp.
  { by apply Permutation_nil_l in Hp. }
  destruct Hk as [|y k Hk Hy]; [by apply Permutation_nil_r in Hp|].
  rewrite Forall_forall in Hx, Hy.
  assert (x = y) as ->.
  { assert (x ∈ y :: k) as Hxk by (rewrite <- Hp; by left).
    assert (y ∈ x :: l) as Hyl by (rewrite Hp; by left).
    apply elem_of_cons in Hxk as [->|Hxk]; [done|]. apply elem_of_cons in Hyl as [->|Hyl]; [done|].
    specialize (Hx y Hyl). specialize (Hy x Hxk). cbn in *. lia. }
  f_equal. apply IH; [done|]. by apply Permutation_cons_inv in Hp.
Qed.

Lemma sort_by_number_unique l k :
  NoDup (key <$> l) -> l ≡ₚ k -> sort_by_number key l = sort_by_number key k.
Proof.
  intros Hd Hp. apply strictly_sorted_unique.
  - by apply sort_by_number_strict.
  - apply sort_by_number_strict. by rewrite <- Hp.
  - by rewrite !sort_by_number_perm.
Qed.

End Sorting.

(** ** Sorted allowlists *)

Lemma dedup_adjacent_elem l x : x ∈ dedup_adjacent l <-> x ∈ l.
Proof.
  induction l as [|y l IH]; [done|]. destruct l as [|z l]; [done|].
  cbn [dedup_adjacent]. destruct (Z.eqb_spec y z) as [->|Hn].
  - rewrite IH, !elem_of_cons. tauto.
  - rewrite !elem_of_cons, IH, elem_of_cons. done.
Qed.

Lemma dedup_adjacent_strict l : StronglySorted Z.le l -> StronglySorted Z.lt (dedup_adjacent l).
Proof.
  induction l as [|y l IH]; [constructor|]. intros [Hl Hy]%StronglySorted_inv.
  destruct l as [|z l]; [repeat constructor|]. cbn [dedup_adjacent].
  destruct (Z.eqb_spec y z) as [->|Hn]; [by apply IH|]. constructor; [by apply IH|].
  apply Forall_forall. intros x Hx. apply (proj1 (dedup_adjacent_elem (z :: l) x)) in Hx.
  apply StronglySorted_inv in Hl as [_ Hz]. rewrite Forall_forall in Hz, Hy.
  pose proof (Hy z ltac:(by left)). apply elem_of_cons in Hx as [->|Hx]; [lia|].
  specialize (Hz x Hx). lia.
Qed.

Lemma sort_dedup_elem l x : x ∈ sort_dedup l <-> x ∈ l.
Proof. unfold sort_dedup. by rewrite dedup_adjacent_elem, merge_sort_Permutation. Qed.

Lemma sort_dedup_strict l : StronglySorted Z.lt (sort_dedup l).
Proof. apply dedup_adjacent_strict, (StronglySorted_merge_sort _). Qed.

Lemma sort_dedup_perm l k : l ≡ₚ k -> sort_dedup l = sort_dedup k.
Proof.
  intros Hp. unfold sort_dedup. f_equal. apply (StronglySorted_unique Z.le).
  - apply (StronglySorted_merge_sort _).
  - apply (StronglySorted_merge_sort _).
  - by rewrite !merge_sort_Permutation.
Qed.

(** ** The invariants *)

Section Sound.
Context `{HK : Keccak} `{HA : AbiParams} `{HH : HexParse} `{HU : U256Text} `{HC : ConfigCodec}.
Context `{HL : !U256TextLaws}.

Lemma parse_u256_Ok field s v :
  parse_u256 field s = Ok v -> u256_from_str s = Some v /\ 0 <= v <= U256_MAX.
Proof using HL. intros H%ok_or_Ok. split; [done|]. by eapply u256_text_range. Qed.

Lemma parse_nonzero_hash_Ok field s v :
  parse_nonzero_hash field s = Ok v <-> b256_from_str s = Some v /\ v <> 0.
Proof.
  unfold parse_nonzero_hash, parse_hash. split.
  - intros H. unroll. subst. bool_hyps. split; [done|]. by apply Z.eqb_neq.
  - intros [Hs Hv%Z.eqb_neq]. by rewrite Hs; cbn; rewrite Hv.
Qed.

(** The evidence of a reward policy covers the horizon. *)
Definition reward_covered (validity : Z) (policy : RewardPolicy) : Prop :=
  match policy with
  | NoMaterialRewards _ valid_until evidence_hash => evidence_hash <> 0 /\ validity <= valid_until
  | Modeled revision valid_until => revision <> 0 /\ validity <= valid_until
  | IgnoreRewardsByCuratorMandate revision => revision <> 0
  | FixedUntilModeled => True
  end.

Record position_wf (validity : Z) (vault : ValidatedVaultConfig) (p : ValidatedPositionConfig)
    : Prop := {
  pw_adapter : pc_adapter p ∈ vad_address <$> vv_adapters vault;
  pw_asset : mp_loan_token (pc_market_params p) = vv_asset vault;
  pw_market : pc_market_id p = derive_market_id (pc_market_params p);
  pw_key : pc_position_key p = derive_position_key (pc_adapter p) (pc_market_params p);
  pw_group : pc_rate_group p = rg_id (vv_rate_group vault);
  pw_relevance : 0 <= pc_minimum_relevance_exit_assets p < pc_minimum_relevance_entry_assets p;
  pw_bounds : 0 <= pc_minimum_position_assets p <= pc_maximum_position_assets p;
  pw_action : 0 <= pc_maximum_action_assets p <= U256_MAX;
  pw_reward : reward_covered validity (pc_reward_policy p);
}.

Record vault_wf (validity : Z) (v : ValidatedVaultConfig) : Prop := {
  vw_signer : vv_signer_address v ∈ vv_approved_allocators v;
  vw_allocators : StronglySorted Z.lt (vv_approved_allocators v);
  vw_sentinels : StronglySorted Z.lt (vv_approved_sentinels v);
  vw_movement : 0 < vv_minimum_action_assets v <= vv_maximum_movement_per_hour_assets v;
  vw_budgets : vv_maximum_movement_per_hour_assets v <= vv_maximum_movement_per_day_assets v;
  vw_event : 0 < vv_minimum_independent_event_assets v;
  vw_headroom : 0 <= vv_minimum_deposit_headroom_assets v
                <= vv_deposit_headroom_search_upper_bound_assets v;
  vw_headroom_bound : 0 < vv_deposit_headroom_search_upper_bound_assets v;
  vw_code : vv_expected_vault_code_hash v <> 0;
  vw_group : 0 <= rg_minimum_assets (vv_rate_group v) <= rg_target_assets (vv_rate_group v) /\
             rg_target_assets (vv_rate_group v) <= rg_maximum_assets (vv_rate_group v) /\
             rg_allow_cross_group_movement (vv_rate_group v) = false /\
             rg_id (vv_rate_group v) = keccak256 (string_bytes (rg_name (vv_rate_group v)));
  vw_adapters : strictly_sorted vad_address (vv_adapters v);
  vw_adapter_code : Forall (fun a => vad_expected_code_hash a <> 0 /\ vad_maximum_markets a <> 0)
                      (vv_adapters v);
  vw_liquidity : forall a, vv_liquidity_adapter v = Some a ->
    lac_address a ∉ vad_address <$> vv_adapters v /\ 0 < lac_maximum_action_assets a /\
    lac_position_key a = derive_liquidity_position_key (lac_address a);
  vw_positions : strictly_sorted pc_position_key (vv_positions v);
  vw_markets : NoDup (pc_market_id <$> vv_positions v);
  vw_position : Forall (position_wf validity v) (vv_positions v);
  vw_active : vv_minimum_active_positions_after_economic_exit v
              <= Z.of_nat (length (List.filter (fun p => bool_decide (pc_mode p = Active))
                                     (vv_positions v)));
}.

Lemma validate_reward_policy_Ok policy validity :
  validate_reward_policy policy validity = Ok tt <-> reward_covered validity policy.
Proof.
  unfold validate_reward_policy, reward_validity, refuse. destruct policy; cbn;
    repeat match goal with
    | |- context [?a =? 0] => destruct (Z.eqb_spec a 0); cbn
    | |- context [?a <? ?b] => destruct (Z.ltb_spec a b); cbn
    end; split; try done; intros; destruct_and?; try done; lia.
Qed.

(** What the validation of a position keeps, with the vault still in parts. *)
Lemma config_position_Ok asset adapters name id validity position p :
  validate_position asset adapters name id validity position = Ok p ->
  pc_adapter p ∈ adapters /\ mp_loan_token (pc_market_params p) = asset /\
  pc_market_id p = derive_market_id (pc_market_params p) /\
  pc_position_key p = derive_position_key (pc_adapter p) (pc_market_params p) /\
  pc_rate_group p = id /\
  0 <= pc_minimum_relevance_exit_assets p < pc_minimum_relevance_entry_assets p /\
  0 <= pc_minimum_position_assets p <= pc_maximum_position_assets p /\
  0 <= pc_maximum_action_assets p <= U256_MAX /\ reward_covered validity (pc_reward_policy p).
Proof using HL.
  unfold validate_position. intros H. unroll. subst p. cbn.
  repeat match goal with G : parse_u256 _ _ = Ok _ |- _ => apply parse_u256_Ok in G as [_ G] end.
  match goal with G : validate_reward_policy _ _ = Ok ?u |- _ =>
    destruct u; apply validate_reward_policy_Ok in G end.
  repeat match goal with G : _ = false |- _ => progress bool_spec G end.
  split_and!; done || lia.
Qed.

Lemma validate_adapters_Ok raw adapters :
  validate_adapters raw = Ok adapters ->
  strictly_sorted vad_address adapters /\
  Forall (fun a => vad_expected_code_hash a <> 0 /\ vad_maximum_markets a <> 0) adapters.
Proof.
  unfold validate_adapters. intros H. unroll. subst adapters.
  match goal with G : try_map _ _ = Ok _ |- _ => apply try_map_Forall2 in G as Hf end.
  match goal with G : negb _ = false |- _ =>
    apply negb_false_iff, distinct_by_spec in G as Hd end.
  rewrite (sort_by_number_perm vad_address) in Hd. split.
  - by apply sort_by_number_strict.
  - rewrite (sort_by_number_perm vad_address). clear -Hf. induction Hf as [|a v raw vs Ha _ IH]; constructor; [|done].
    unfold validate_adapter in Ha. unroll. subst v. cbn.
    match goal with G : parse_nonzero_hash _ _ = Ok _ |- _ =>
      apply parse_nonzero_hash_Ok in G as [_ G] end.
    split; [done|]. by apply Z.eqb_neq.
Qed.

Lemma validate_positions_Ok vault asset adapters group validity positions :
  validate_positions vault asset adapters group validity = Ok positions ->
  strictly_sorted pc_position_key positions /\ NoDup (pc_market_id <$> positions) /\
  cfg_vault_minimum_active_positions_after_economic_exit vault
    <= Z.of_nat (length (List.filter (fun p => bool_decide (pc_mode p = Active)) positions)) /\
  forall p, p ∈ positions -> exists raw,
    validate_position asset adapters (rg_name group) (rg_id group) validity raw = Ok p.
Proof.
  unfold validate_positions. intros H. unroll. subst positions.
  match goal with G : try_map _ _ = Ok _ |- _ => apply try_map_Forall2 in G as Hf end.
  repeat match goal with G : negb _ = false |- _ => apply negb_false_iff, distinct_by_spec in G end.
  match goal with G : (_ <? _) = false |- _ => apply Z.ltb_ge in G end.
  split_and!; try done.
  - apply sort_by_number_strict. by rewrite <- (sort_by_number_perm pc_position_key).
  - intros p Hp. rewrite (sort_by_number_perm pc_position_key) in Hp.
    apply list_elem_of_lookup in Hp as [i Hi].
    destruct (Forall2_lookup_r _ _ _ _ _ Hf Hi) as (raw & _ & Hraw). by exists raw.
Qed.

Lemma validate_group_Ok groups group :
  validate_group groups = Ok group ->
  0 <= rg_minimum_assets group <= rg_target_assets group /\
  rg_target_assets group <= rg_maximum_assets group /\
  rg_allow_cross_group_movement group = false /\
  rg_id group = keccak256 (string_bytes (rg_name group)).
Proof using HL.
  unfold validate_group. intros H. unroll. subst group. cbn.
  repeat match goal with G : parse_u256 _ _ = Ok _ |- _ => apply parse_u256_Ok in G as [_ G] end.
  repeat match goal with G : (_ || _) = false |- _ => progress bool_spec G end.
  split_and!; done || lia.
Qed.

Lemma validate_liquidity_adapter_Ok adapters raw a :
  validate_liquidity_adapter adapters raw = Ok a ->
  lac_address a ∉ adapters /\ 0 < lac_maximum_action_assets a /\
  lac_position_key a = derive_liquidity_position_key (lac_address a).
Proof using HL.
  unfold validate_liquidity_adapter. intros H. unroll. subst a. cbn.
  repeat match goal with G : parse_u256 _ _ = Ok _ |- _ => apply parse_u256_Ok in G as [_ G] end.
  repeat match goal with G : _ = false |- _ => progress bool_spec G end.
  split_and!; done || lia.
Qed.

Lemma validate_vault_sound vault validity v :
  validate_vault vault validity = Ok v -> vault_wf validity v.
Proof using HL.
  unfold validate_vault. intros H. unroll. subst v.
  repeat match goal with
  | G : parse_u256 _ _ = Ok _ |- _ => apply parse_u256_Ok in G as [_ G]
  | G : parse_nonzero_hash _ _ = Ok _ |- _ => apply parse_nonzero_hash_Ok in G as [_ G]
  | G : validate_group _ = Ok _ |- _ => apply validate_group_Ok in G
  | G : validate_adapters _ = Ok _ |- _ => apply validate_adapters_Ok in G as [? ?]
  | G : validate_positions _ _ _ _ _ = Ok _ |- _ => apply validate_positions_Ok in G as (? & ? & ? & ?)
  | G : _ = false |- _ => progress bool_spec G
  end.
  split; cbn; try done; try lia.
  - by apply sort_dedup_elem.
  - apply sort_dedup_strict.
  - apply sort_dedup_strict.
  - intros a ->. match goal with G : match ?o with _ => _ end = Ok (Some a) |- _ =>
      destruct o; [|done] end.
    unroll. subst.
    match goal with G : validate_liquidity_adapter _ _ = Ok _ |- _ =>
      apply validate_liquidity_adapter_Ok in G as (Hn & ? & ?) end.
    split_and!; [|done|done]. by rewrite elem_of_list_to_set in Hn.
  - apply Forall_forall. intros p Hp.
    match goal with G : forall p, _ -> exists raw, _ |- _ => destruct (G p Hp) as [raw Hraw] end.
    apply config_position_Ok in Hraw as (Ha & ?). rewrite elem_of_list_to_set in Ha.
    destruct_and!. by split.
Qed.

(** ** The strategy *)

Lemma spread_conflict_false entry target tolerance :
  spread_conflict entry target tolerance = false -> target + tolerance < entry.
Proof.
  unfold spread_conflict. destruct (checked_add _ _ _) as [c|] eqn:E; [|done].
  apply checked_add_Some in E as [-> _]. intros ?%Z.leb_gt. done.
Qed.

Lemma rate_up_Ok bps rate :
  apr_bps_to_rate_per_second_up bps = Ok rate ->
  rate = (bps * WAD + 315359999999) / 315360000000 /\ bps * WAD + 315359999999 <= U256_MAX.
Proof.
  unfold apr_bps_to_rate_per_second_up. intros H. unroll.
  repeat match goal with
  | G : checked_mul _ _ _ = Some _ |- _ => apply checked_mul_Some in G as [-> ?]
  | G : checked_add _ _ _ = Some _ |- _ => apply checked_add_Some in G as [-> ?]
  | G : checked_sub _ _ = Some _ |- _ => apply checked_sub_Some in G as [-> ?]
  | G : checked_div _ _ = Some _ |- _ => apply checked_div_Some in G as [-> ?]
  end.
  by change (10000 * SECONDS_PER_YEAR) with 315360000000 in *.
Qed.

Lemma rate_down_Ok bps rate :
  apr_bps_to_rate_per_second_down bps = Ok rate -> rate = bps * WAD / 315360000000.
Proof.
  unfold apr_bps_to_rate_per_second_down. intros H. unroll.
  repeat match goal with
  | G : checked_mul _ _ _ = Some _ |- _ => apply checked_mul_Some in G as [-> ?]
  | G : checked_div _ _ = Some _ |- _ => apply checked_div_Some in G as [-> ?]
  end.
  by change (10000 * SECONDS_PER_YEAR) with 315360000000 in *.
Qed.

Lemma utilization_Ok bps wad :
  utilization_bps_to_wad bps = Ok wad -> wad = bps * 100000000000000 /\ wad <= U256_MAX.
Proof.
  unfold utilization_bps_to_wad. intros H%ok_or_Ok. apply checked_mul_Some in H as [-> ?].
  by change (WAD / 10000) with 100000000000000 in *.
Qed.

(** Rounding the entry up and the convergence down keeps their order. *)
Lemma rounded_hysteresis entry target tolerance e t l :
  apr_bps_to_rate_per_second_up entry = Ok e -> apr_bps_to_rate_per_second_down target = Ok t ->
  apr_bps_to_rate_per_second_down tolerance = Ok l -> target + tolerance < entry ->
  t + l < e /\ e <= U256_MAX.
Proof.
  intros [-> He]%rate_up_Ok ->%rate_down_Ok ->%rate_down_Ok Hlt. unfold WAD in *.
  pose proof (Z.div_mod (target * 1000000000000000000) 315360000000 ltac:(done)).
  pose proof (Z.div_mod (tolerance * 1000000000000000000) 315360000000 ltac:(done)).
  pose proof (Z.div_mod (entry * 1000000000000000000 + 315359999999) 315360000000 ltac:(done)).
  pose proof (Z.mod_pos_bound (target * 1000000000000000000) 315360000000 ltac:(done)).
  pose proof (Z.mod_pos_bound (tolerance * 1000000000000000000) 315360000000 ltac:(done)).
  pose proof (Z.mod_pos_bound (entry * 1000000000000000000 + 315359999999) 315360000000 ltac:(done)).
  unfold U256_MAX in *. split; lia.
Qed.

Lemma rate_up_pos bps rate : 0 < bps -> apr_bps_to_rate_per_second_up bps = Ok rate -> 0 < rate.
Proof.
  intros Hb [-> _]%rate_up_Ok. apply Z.div_str_pos. unfold WAD. lia.
Qed.

(** Weights of a full portfolio in rank order, none above 70 %. *)
Definition weights_wf (boost : Z) (n : nat) (weights : list Z) : Prop :=
  length weights = n /\ list_sum weights = 10000 /\ StronglySorted (fun a b => b <= a) weights /\
  Forall (fun w => w <= 7000) weights /\ Forall (fun w => w < boost) weights.

Record top_k_wf (t : ValidatedTopKApyConfig) : Prop := {
  tk_enter : 0 < vt_enter_apy_wad t <= vt_exit_apy_wad t;
  tk_exit : vt_exit_apy_wad t <= WAD;
  tk_replacement : 0 < vt_replacement_apy_wad t <= vt_exit_apy_wad t;
  tk_boost : 1 <= vt_top_market_boost_weight_bps t <= 7000;
  tk_ema : 1 <= vt_upside_ema_alpha_bps t <= 10000;
  tk_probe : 1 <= vt_probe_allocation_bps t <= 10000;
  tk_tick : vt_tick_interval_seconds t = 300;
  tk_three : weights_wf (vt_top_market_boost_weight_bps t) 3 (vt_three_market_weights_bps t);
  tk_four : weights_wf (vt_top_market_boost_weight_bps t) 4 (vt_four_market_weights_bps t);
  tk_score : 0 <= vt_target_score_wad t < vt_entry_score_wad t /\ vt_entry_score_wad t <= WAD;
  tk_improvement : 0 < vt_minimum_improvement_score_wad t <= vt_entry_score_wad t;
  tk_multiplier : vt_gas_cost_multiplier t <> 0;
}.

Record strategy_wf (s : ValidatedStrategyConfig) : Prop := {
  sw_hysteresis : convergence_spread s < entry_spread s;
  sw_improvement : forall portfolio, 0 < minimum_improvement s portfolio;
  sw_impact : 0 < minimum_independent_event_impact s;
  sw_tranche : 1 <= sg_immediate_tranche_bps s <= 10000;
  sw_confirmation : sg_confirmation_opportunities s <> 0;
  sw_events : 2 <= sg_minimum_independent_rate_events s;
  sw_duration : sg_persistent_confirmation_duration_millis s
                <= sg_maximum_rate_episode_duration_millis s;
  sw_daily : sg_maximum_daily_transactions s <> 0;
  sw_top_k : top_k_wf (sg_top_k_apy s);
}.

(** The basis points of a strategy are unsigned integers. *)
Definition strategy_unsigned (s : StrategyConfig) : Prop :=
  0 <= cfg_strategy_minimum_portfolio_improvement_apr_bps s /\
  0 <= cfg_strategy_minimum_controllable_improvement_apr_bps s /\
  0 <= cfg_strategy_utilization_minimum_improvement_bps s /\
  0 <= cfg_strategy_minimum_independent_event_rate_impact_apr_bps s /\
  0 <= cfg_strategy_minimum_independent_event_utilization_impact_bps s /\
  0 <= cfg_topk_enter_apy_bps (cfg_strategy_top_k_apy s) /\
  0 <= cfg_topk_replacement_apy_bps (cfg_strategy_top_k_apy s).

Lemma non_increasing_sorted l :
  non_increasing l = true -> StronglySorted (fun a b => b <= a) l.
Proof.
  induction l as [|x l IH]; [constructor|]. destruct l as [|y l]; [repeat constructor|].
  intros [Hxy Hl]%andb_true_iff. apply Z.leb_le in Hxy. specialize (IH Hl).
  constructor; [done|]. constructor; [done|].
  apply StronglySorted_inv in IH as [_ Hy]. eapply Forall_impl; [exact Hy|]. cbn. lia.
Qed.

Lemma opt_fold_sum max l a b :
  opt_fold (checked_add max) a l = Some b -> b = a + list_sum l.
Proof.
  revert a. induction l as [|x l IH]; intros a; cbn.
  - intros [= <-]. unfold list_sum. cbn. lia.
  - destruct (checked_add max a x) as [c|] eqn:E; [|done]. apply checked_add_Some in E as [-> _].
    cbn. intros ->%IH. unfold list_sum. cbn. lia.
Qed.

Lemma weights_Ok boost n weights :
  valid_weights weights n = true -> boost_conflict boost weights = false -> weights_wf boost n weights.
Proof.
  unfold valid_weights. intros Hv Hb. bool_hyps.
  repeat match goal with G : bool_decide _ = true |- _ => apply bool_decide_eq_true in G end.
  split_and!; [done| | | |].
  - match goal with G : opt_fold _ _ _ = _ |- _ => apply opt_fold_sum in G; unfold BASIS_POINTS_SCALE in G; lia end.
  - by apply non_increasing_sorted.
  - apply Forall_forall. intros w Hw. match goal with G : forallb _ _ = true |- _ =>
      rewrite forallb_forall in G; specialize (G w (proj1 (list_elem_of_In _ _) Hw)) end.
    by apply Z.leb_le.
  - destruct weights as [|w weights]; [done|]. cbn in Hb. apply Z.leb_gt in Hb.
    constructor; [done|]. match goal with G : non_increasing _ = true |- _ =>
      apply non_increasing_sorted, StronglySorted_inv in G as [_ G];
      eapply Forall_impl; [exact G|] end. cbn. lia.
Qed.

Lemma top_k_sound c mode enabled t :
  validate_top_k c mode enabled = Ok tt -> canonical c = Ok t ->
  0 <= cfg_topk_enter_apy_bps c -> 0 <= cfg_topk_replacement_apy_bps c -> top_k_wf t.
Proof using HL.
  unfold validate_top_k, canonical, exact. intros H1 H2 He Hr. unroll.
  repeat match goal with
  | G : utilization_bps_to_wad _ = Ok _ |- _ => apply utilization_Ok in G as [-> ?]
  | G : parse_u256 _ ?s = Ok ?v |- _ => apply parse_u256_Ok in G as [? ?]
  end.
  repeat match goal with
  | G : u256_from_str ?s = Some ?v, G' : u256_from_str ?s = Some ?v' |- _ =>
      rewrite G in G'; injection G' as ?
  end.
  subst. unfold in_range, BASIS_POINTS_SCALE, MAXIMUM_MARKET_WEIGHT_BPS,
    REQUIRED_TICK_INTERVAL_SECONDS, WAD in *.
  repeat match goal with G : _ = false |- _ => progress bool_spec G end. destruct_and!.
  split; cbn; unfold WAD; try lia; by apply weights_Ok.
Qed.

Lemma strategy_sound s c mode enabled :
  validate_strategy s = Ok tt ->
  validate_top_k (cfg_strategy_top_k_apy s) mode enabled = Ok tt ->
  canonical_strategy s = Ok c -> strategy_unsigned s -> strategy_wf c.
Proof using HL.
  unfold validate_strategy, canonical_strategy, exact.
  intros H Ht H2 (Hu1 & Hu2 & Hu3 & Hu4 & Hu5 & Hu6 & Hu7). unroll. subst c.
  repeat match goal with
  | G : utilization_bps_to_wad _ = Ok _ |- _ => apply utilization_Ok in G as [-> ?]
  end.
  repeat match goal with G : _ = false |- _ => progress bool_spec G end. destruct_and!.
  repeat match goal with G : spread_conflict _ _ _ = false |- _ => apply spread_conflict_false in G end.
  match goal with
  | Ge : apr_bps_to_rate_per_second_up (cfg_strategy_entry_spread_apr_bps s) = Ok _,
    Gt : apr_bps_to_rate_per_second_down (cfg_strategy_target_spread_apr_bps s) = Ok _,
    Gl : apr_bps_to_rate_per_second_down (cfg_strategy_target_tolerance_apr_bps s) = Ok _ |- _ =>
      destruct (rounded_hysteresis _ _ _ _ _ _ Ge Gt Gl ltac:(done))
  end.
  repeat match goal with
  | G : apr_bps_to_rate_per_second_up _ = Ok _ |- _ => apply rate_up_pos in G; [|lia]
  end.
  split; cbn; unfold in_range in *; bool_hyps; try lia.
  - unfold convergence_spread, target_spread, target_tolerance, entry_spread. cbn.
    destruct (cfg_strategy_objective s); unfold checked_add; case_match eqn:E; cbn; lia.
  - intros []; unfold minimum_improvement; cbn; case_match; lia.
  - unfold minimum_independent_event_impact. cbn. case_match; lia.
  - unfold as_millis. apply Z.div_le_mono; lia.
  - by eapply top_k_sound.
Qed.

(** ** Providers *)

Definition serves (roles : list RpcRole) (provider : ValidatedRpcConfig) : bool :=
  forallb (fun role => bool_decide (role ∈ vr_roles provider)) roles.
Definition is_primary (provider : ValidatedRpcConfig) : bool :=
  vr_production_grade provider && serves primary_roles provider.

Lemma dedup_roles_elem l role : role ∈ dedup_roles l <-> role ∈ l.
Proof.
  induction l as [|x l IH]; [done|]. destruct l as [|y l]; [done|]. cbn [dedup_roles].
  case_bool_decide as E.
  - subst. rewrite IH, !elem_of_cons. tauto.
  - rewrite !elem_of_cons, IH, elem_of_cons. done.
Qed.

Lemma serves_validated roles provider : serves roles (validate_rpc provider) = owns_roles roles provider.
Proof.
  unfold serves, owns_roles. induction roles as [|role roles IH]; [done|]. cbn [forallb]. rewrite IH.
  f_equal. apply bool_decide_ext. cbn. by rewrite dedup_roles_elem, sort_by_number_perm.
Qed.

Lemma primaries_validated providers :
  List.filter is_primary (validate_rpc <$> providers) = validate_rpc <$> primaries providers.
Proof.
  unfold primaries. induction providers as [|provider providers IH]; [done|]. cbn.
  unfold is_primary at 1. rewrite serves_validated. cbn. by case_match; cbn; rewrite IH.
Qed.

(** One provider serves the live process and another one checks it. *)
Definition providers_wf (providers : list ValidatedRpcConfig) : Prop :=
  exists primary, List.filter is_primary providers = [primary] /\
    exists checkpoint, checkpoint ∈ providers /\ vr_name checkpoint <> vr_name primary /\
      serves checkpoint_roles checkpoint = true.

Lemma filter_perm {A} (f : A -> bool) m k : m ≡ₚ k -> List.filter f m ≡ₚ List.filter f k.
Proof.
  induction 1 as [|y m k _ IH|y z m|]; cbn; [done| | |by etrans]; repeat case_match; try done;
    [by f_equiv|by apply Permutation_swap].
Qed.

Lemma sorted_filter {A} (R : relation A) `{!RelDecision R} f l x :
  List.filter f l = [x] -> List.filter f (merge_sort R l) = [x].
Proof.
  intros Hf. apply Permutation_singleton_r. rewrite <- Hf.
  apply filter_perm, merge_sort_Permutation.
Qed.

Lemma providers_sound providers primary :
  sole_primary providers = Ok primary -> has_checkpoint_provider primary providers = true ->
  providers_wf (merge_sort rpc_name_le (validate_rpc <$> providers)).
Proof.
  unfold sole_primary. destruct (primaries providers) as [|p [|]] eqn:Ep; try done.
  intros [= ->] (checkpoint & Hin & Hc)%existsb_exists. bool_spec Hc. destruct Hc as [Hn Hr].
  exists (validate_rpc primary). split.
  - apply sorted_filter. by rewrite primaries_validated, Ep.
  - exists (validate_rpc checkpoint). split_and!.
    + rewrite merge_sort_Permutation. apply list_elem_of_fmap_2. by apply list_elem_of_In.
    + done.
    + by rewrite serves_validated.
Qed.

(** ** The configuration *)

Record config_wf (now : Z) (c : ValidatedConfig) : Prop := {
  cw_schema : ac_schema_version (vg_app c) = CONFIG_SCHEMA_VERSION;
  cw_providers : providers_wf (vc_rpc (ac_chain (vg_app c)));
  cw_multicall : vc_expected_multicall3_code_hash (ac_chain (vg_app c)) <> 0;
  cw_log_range : vc_maximum_log_range (ac_chain (vg_app c)) <> 0;
  cw_rescan : vc_reorg_rescan_blocks (ac_chain (vg_app c)) <> 0 /\
              vc_reorg_rescan_blocks (ac_chain (vg_app c)) <= 256;
  cw_gas : forall gas_limit,
    vc_block_opportunity_policy (ac_chain (vg_app c)) = HyperEvmFastBlocks gas_limit ->
    ex_maximum_signed_transaction_gas (ac_execution (vg_app c)) < gas_limit;
  cw_fee : 2 <= ex_maximum_fee_per_gas_wei (ac_execution (vg_app c)) <= U256_MAX;
  cw_spend : 0 < ex_maximum_daily_gas_spend_wei (ac_execution (vg_app c)) <= U256_MAX;
  cw_rebroadcast : ex_identical_rebroadcast_after_opportunities (ac_execution (vg_app c))
                   <= ex_replacement_after_opportunities (ac_execution (vg_app c));
  cw_local : forall key authorized, ac_signing (vg_app c) = LocalDevelopment key authorized ->
    vn_mode (ac_node (vg_app c)) = ModeExecute ->
    authorized = Some (vc_chain_id (ac_chain (vg_app c)));
  cw_execute : vn_mode (ac_node (vg_app c)) = ModeExecute ->
    sg_extreme_spread_bypass_enabled (ac_strategy (vg_app c)) = false /\
    so_allow_incomplete_rate_solver (ac_solver (vg_app c)) = false;
  cw_solver : so_maximum_nodes (ac_solver (vg_app c)) <> 0 /\
              so_maximum_amount_candidates_per_position (ac_solver (vg_app c)) <> 0;
  cw_strategy : strategy_wf (ac_strategy (vg_app c));
  cw_vaults : ac_vaults (vg_app c) <> [] /\ strictly_sorted vv_address (ac_vaults (vg_app c));
  cw_signer : exists signer,
    Forall (fun v => vv_signer_address v = signer) (ac_vaults (vg_app c));
  cw_vault : Forall (vault_wf (now + sg_benefit_horizon_seconds (ac_strategy (vg_app c))))
               (ac_vaults (vg_app c));
  cw_revision : exists bytes, app_to_json (vg_app c) = Some bytes /\ vg_revision c = keccak256 bytes;
}.

(** What the loop over the vaults has collected. *)
Definition scan_wf (validity : Z) (scan : VaultScan) : Prop :=
  sc_vault_addresses scan = list_to_set (vv_address <$> sc_vaults scan) /\
  NoDup (vv_address <$> sc_vaults scan) /\
  Forall (fun v => Some (vv_signer_address v) = sc_shared_signer scan) (sc_vaults scan) /\
  Forall (vault_wf validity) (sc_vaults scan).

Lemma scan_vault_wf validity scan raw scan' :
  scan_wf validity scan -> scan_vault validity scan raw = Ok scan' ->
  scan_wf validity scan' /\ length (sc_vaults scan') = S (length (sc_vaults scan)).
Proof using HL.
  unfold scan_vault, scan_wf. intros (Hs & Hd & Hg & Hw) H. unroll. subst scan'. cbn.
  repeat match goal with G : bool_decide _ = false |- _ => apply bool_decide_eq_false in G end.
  match goal with G : validate_vault _ _ = Ok ?v |- _ =>
    rename v into new; apply validate_vault_sound in G as Hnew end.
  rewrite fmap_app, length_app. cbn. split; [|lia]. split_and!.
  - rewrite Hs, list_to_set_app_L. set_solver.
  - apply NoDup_app. split; [done|]. split; [|apply NoDup_singleton].
    intros a Ha ->%list_elem_of_singleton. set_solver.
  - apply Forall_app. split; [|by constructor]. eapply Forall_impl; [exact Hg|]. cbn.
    intros v Hv. rewrite <- Hv in *.
    match goal with G : negb _ = false |- _ => apply negb_false_iff, Z.eqb_eq in G; by rewrite G end.
  - apply Forall_app. split; [done|by constructor].
Qed.

Lemma scan_vaults_wf validity raws scan scan' :
  scan_wf validity scan -> try_fold (scan_vault validity) scan raws = Ok scan' ->
  scan_wf validity scan' /\ length (sc_vaults scan') = (length (sc_vaults scan) + length raws)%nat.
Proof using HL.
  revert scan. induction raws as [|raw raws IH]; intros scan Hw H; cbn in H.
  { injection H as <-. split; [done|cbn; lia]. }
  step_ok H as next Hn. apply scan_vault_wf in Hn as [Hw' Hl]; [|done].
  destruct (IH next Hw' H) as [Hw'' Hl'']. split; [done|]. cbn. lia.
Qed.

Lemma environment_Ok config :
  validate_environment config = Ok tt ->
  cfg_schema_version config = CONFIG_SCHEMA_VERSION /\ length (cfg_vault config) <> 0%nat /\
  local_signer_unauthorized config = false /\
  cfg_chain_maximum_log_range (cfg_chain config) <> 0 /\
  cfg_chain_reorg_rescan_blocks (cfg_chain config) <> 0 /\
  cfg_chain_reorg_rescan_blocks (cfg_chain config) <= 256 /\
  cfg_solver_maximum_nodes (cfg_solver config) <> 0 /\
  cfg_solver_maximum_amount_candidates_per_position (cfg_solver config) <> 0.
Proof.
  unfold validate_environment. intros H. unroll.
  repeat match goal with G : _ = false |- _ => progress bool_spec G end. destruct_and!.
  by split_and!.
Qed.

Lemma execution_Ok config :
  validate_execution config = Ok tt ->
  providers_wf (merge_sort rpc_name_le (validate_rpc <$> cfg_chain_rpc (cfg_chain config))) /\
  gas_limit_conflict (cfg_chain_block_opportunity_policy (cfg_chain config))
    (cfg_execution_maximum_signed_transaction_gas (cfg_execution config)) = false /\
  cfg_execution_identical_rebroadcast_after_opportunities (cfg_execution config)
    <= cfg_execution_replacement_after_opportunities (cfg_execution config) /\
  forall e, canonical_execution (cfg_execution config) = Ok e ->
    2 <= ex_maximum_fee_per_gas_wei e <= U256_MAX /\
    0 < ex_maximum_daily_gas_spend_wei e <= U256_MAX.
Proof using HL.
  unfold validate_execution. intros H. unroll.
  match goal with G : sole_primary _ = Ok ?p, G' : negb _ = false |- _ =>
    apply negb_false_iff in G'; pose proof (providers_sound _ _ G G') as Hp end.
  repeat match goal with G : _ = false |- _ => progress bool_spec G end. destruct_and!.
  split_and!; [done|done|done|]. unfold canonical_execution. intros e He. unroll. subst e. cbn.
  repeat match goal with
  | G : parse_u256 _ ?s = Ok _, G' : parse_u256 _ ?s = Ok _ |- _ => rewrite G in G'; injection G' as ?
  | G : parse_u256 _ _ = Ok _ |- _ => apply parse_u256_Ok in G as [_ G]
  end. subst. lia.
Qed.

(** The fields the canonical form keeps. *)
Lemma canonical_chain_Ok raw c :
  canonical_chain raw = Ok c ->
  vc_chain_id c = cfg_chain_chain_id raw /\
  vc_maximum_log_range c = cfg_chain_maximum_log_range raw /\
  vc_reorg_rescan_blocks c = cfg_chain_reorg_rescan_blocks raw /\
  vc_block_opportunity_policy c = cfg_chain_block_opportunity_policy raw /\
  vc_rpc c = merge_sort rpc_name_le (validate_rpc <$> cfg_chain_rpc raw) /\
  vc_expected_multicall3_code_hash c <> 0.
Proof.
  unfold canonical_chain. intros H. unroll. subst c.
  match goal with G : parse_nonzero_hash _ _ = Ok _ |- _ => apply parse_nonzero_hash_Ok in G as [_ G] end.
  done.
Qed.

Lemma canonical_execution_Ok raw e :
  canonical_execution raw = Ok e ->
  ex_maximum_signed_transaction_gas e = cfg_execution_maximum_signed_transaction_gas raw /\
  ex_identical_rebroadcast_after_opportunities e
    = cfg_execution_identical_rebroadcast_after_opportunities raw /\
  ex_replacement_after_opportunities e = cfg_execution_replacement_after_opportunities raw.
Proof. unfold canonical_execution. intros H. unroll. by subst e. Qed.

Lemma canonical_strategy_Ok raw s :
  canonical_strategy raw = Ok s ->
  sg_benefit_horizon_seconds s = as_secs (cfg_strategy_benefit_horizon raw) /\
  sg_extreme_spread_bypass_enabled s = cfg_strategy_extreme_spread_bypass_enabled raw.
Proof. unfold canonical_strategy. intros H. unroll. by subst s. Qed.

(** C38: A configuration that validates is safe to run with: exactly one
    production provider owns every live role and another one checks it; the
    vaults are distinct, sorted, under one approved signer, their positions
    distinct and derived from their exact market parameters, their budgets
    ordered and their reward evidence valid over the benefit horizon; every
    spread strategy enters strictly above where it converges, also after its
    thresholds are rounded; the top-K weights are ranked partitions; a local
    signer executes only on the authorized chain; and the revision is the hash
    of the canonical configuration. *)
Theorem validated_config_sound config now c :
  strategy_unsigned (cfg_strategy config) -> validate_at config now = Ok c -> config_wf now c.
Proof using HL.
  intros Hu H. unfold validate_at, validate_top_level, exact in H. unroll. subst c.
  repeat match goal with u : unit |- _ => destruct u end.
  match goal with G : config_revision_checked _ = Ok _ |- _ =>
    unfold config_revision_checked in G; unroll; subst end.
  match goal with G : try_fold _ _ _ = Ok _ |- _ =>
    apply scan_vaults_wf in G as [(_ & Hd & Hs & Hw) Hlen]; [|by split_and!; try constructor] end.
  match goal with G : checked_add _ _ _ = Some _ |- _ => apply checked_add_Some in G as [-> _] end.
  match goal with G : validate_environment _ = Ok _ |- _ =>
    apply environment_Ok in G as (? & Hne & Hlocal & ? & ? & ? & ? & ?) end.
  match goal with G : validate_execution _ = Ok _ |- _ =>
    apply execution_Ok in G as (Hproviders & Hgas & ? & Hfees) end.
  match goal with G : canonical_chain _ = Ok _ |- _ =>
    apply canonical_chain_Ok in G as (Hid & Hrange & Hrescan & Hpolicy & Hrpc & ?) end.
  match goal with G : canonical_execution _ = Ok _ |- _ =>
    destruct (Hfees _ G); apply canonical_execution_Ok in G as (Hsigned & Hre & Hrepl) end.
  match goal with G : canonical_strategy _ = Ok ?s |- _ =>
    pose proof (strategy_sound _ _ _ _ ltac:(eassumption) ltac:(eassumption) G Hu);
    apply canonical_strategy_Ok in G as [Hb Hx] end.
  split; cbn; rewrite ?Hid, ?Hrange, ?Hrescan, ?Hpolicy, ?Hrpc, ?Hsigned, ?Hre, ?Hrepl, ?Hb, ?Hx;
    try done.
  - intros limit Hl. rewrite Hl in Hgas. cbn in Hgas. bool_spec Hgas. lia.
  - intros key authorized Hsg Hmode. unfold local_signer_unauthorized in Hlocal.
    rewrite Hsg, Hmode in Hlocal. bool_spec Hlocal. naive_solver.
  - intros Hmode. rewrite Hmode in *.
    match goal with G : _ && (_ || _) = false |- _ => cbn in G; apply orb_false_iff in G end. done.
  - split; [|by apply sort_by_number_strict]. intros E.
    apply (f_equal length) in E. rewrite sort_by_number_perm in E. cbn in *. lia.
  - match goal with |- context [sc_vaults ?scan] => exists (default 0 (sc_shared_signer scan)) end.
    rewrite sort_by_number_perm. eapply Forall_impl; [exact Hs|]. cbn. by intros v <-.
  - by rewrite sort_by_number_perm.
  - eauto.
Qed.

End Sound.
