(* ===== verification/ConfigOrder.v ===== *)
(** * Unordered configuration inputs

    The validated configuration, with its revision, does not depend on the
    order in which vaults, positions, adapters, allowlists, providers and
    their roles are written, as long as provider names are distinct. *)
From Stdlib Require Import ZArith Lia Ascii String.
From stdpp Require Import base gmap sets strings sorting list.
From S2P Require Import Prelude.
From S2P Require Import Text.
From S2P Require Import BlueMath.
From S2P Require Import Domain.
From S2P Require Import Config.
From S2P Require Import ProtocolLock.
From S2P Require Import RawConfig.
From S2P Require Import ConfigValidation.
From S2P Require Import ConfigProofs.
Open Scope Z_scope.

(** ** Reordered inputs *)

(** The same vault with other lists. *)
Definition with_lists (v : VaultConfig) (allocators sentinels : list string)
    (adapters : list AdapterConfig) (positions : list PositionConfig) : VaultConfig :=
  mkVaultConfig (cfg_vault_name v) (cfg_vault_address v) (cfg_vault_asset v)
    (cfg_vault_asset_decimals v) (cfg_vault_expected_vault_code_hash v)
    (cfg_vault_deployment_block v) (cfg_vault_signer_address v) (cfg_vault_strategy v)
    (cfg_vault_strict_zero_routine_idle v) (cfg_vault_minimum_action_assets v)
    (cfg_vault_maximum_rounding_dust_assets v) (cfg_vault_maximum_immediate_rebalance_loss_assets v)
    (cfg_vault_maximum_terminal_value_sacrifice_assets v)
    (cfg_vault_minimum_active_positions_after_economic_exit v)
    (cfg_vault_maximum_movement_per_hour_assets v) (cfg_vault_maximum_movement_per_day_assets v)
    (cfg_vault_minimum_independent_event_assets v) (cfg_vault_minimum_atomic_exit_coverage_assets v)
    (cfg_vault_minimum_liquidity_adapter_assets v) (cfg_vault_minimum_deposit_headroom_assets v)
    (cfg_vault_deposit_headroom_search_upper_bound_assets v)
    (cfg_vault_minimum_source_token_liquidity_assets v)
    (cfg_vault_lock_operator_clearance_required v) (cfg_vault_unattributed_idle_fail_closed v)
    (cfg_vault_require_supported_nonzero_liquidity_adapter v) (cfg_vault_require_zero_gates v)
    (cfg_vault_required_vault_dead_address v) (cfg_vault_minimum_market_dead_supply_shares v)
    allocators sentinels (cfg_vault_rate_group v) adapters (cfg_vault_liquidity_adapter v) positions.

Definition vault_reordered (a b : VaultConfig) : Prop :=
  exists allocators sentinels adapters positions,
    b = with_lists a allocators sentinels adapters positions /\
    cfg_vault_approved_allocators a ≡ₚ allocators /\
    cfg_vault_approved_sentinels a ≡ₚ sentinels /\
    cfg_vault_adapter a ≡ₚ adapters /\ cfg_vault_position a ≡ₚ positions.

Definition rpc_reordered (a b : RpcConfig) : Prop :=
  exists roles, cfg_rpc_roles a ≡ₚ roles /\
    b = mkRpcConfig (cfg_rpc_name a) (cfg_rpc_url_env a) (cfg_rpc_websocket_url_env a) roles
          (cfg_rpc_production_grade a) (cfg_rpc_supports_websocket a)
          (cfg_rpc_supports_historical_state a).

Definition with_rpc (c : ChainConfig) (rpc : list RpcConfig) : ChainConfig :=
  mkChainConfig (cfg_chain_name c) (cfg_chain_chain_id c) (cfg_chain_morpho_blue c)
    (cfg_chain_multicall3 c) (cfg_chain_expected_multicall3_code_hash c)
    (cfg_chain_event_start_block c) (cfg_chain_maximum_log_range c)
    (cfg_chain_reorg_rescan_blocks c) (cfg_chain_block_opportunity_policy c) rpc.

Definition config_reordered (a b : AppConfig) : Prop :=
  exists rpc vaults,
    b = mkAppConfig (cfg_schema_version a) (cfg_node a) (with_rpc (cfg_chain a) rpc)
          (cfg_snapshot a) (cfg_execution a) (cfg_solver a) (cfg_strategy a) (cfg_signing a)
          (cfg_alerts a) vaults /\
    (exists rpc', cfg_chain_rpc (cfg_chain a) ≡ₚ rpc' /\ Forall2 rpc_reordered rpc' rpc) /\
    (exists vaults', cfg_vault a ≡ₚ vaults' /\ Forall2 vault_reordered vaults' vaults).

(** ** Maps that may fail *)

Lemma try_map_Ok {E A B} (f : A -> result E B) l k :
  try_map f l = Ok k <-> Forall2 (fun a b => f a = Ok b) l k.
Proof.
  split; [apply try_map_Forall2|]. induction 1 as [|a b l k Hf _ IH]; [done|]. cbn.
  by rewrite Hf; cbn; rewrite IH.
Qed.

Lemma try_map_perm {E A B} (f : A -> result E B) l l' k :
  l ≡ₚ l' -> try_map f l = Ok k -> exists k', try_map f l' = Ok k' /\ k ≡ₚ k'.
Proof.
  intros Hp H%try_map_Ok. destruct (Permutation_Forall2 Hp H) as (k' & Hk & Hf).
  exists k'. split; [by apply try_map_Ok|done].
Qed.

Lemma sole_perm {A} (l k : list A) x : l ≡ₚ k -> l = [x] -> k = [x].
Proof. intros Hp ->. by apply Permutation_singleton_l in Hp. Qed.

Section Order.
Context `{HK : Keccak} `{HA : AbiParams} `{HH : HexParse} `{HU : U256Text} `{HC : ConfigCodec}.

Lemma bind_intro {E A B} (c : result E A) (f : A -> result E B) a b :
  c = Ok a -> f a = Ok b -> c ≫= f = Ok b.
Proof. by intros ->. Qed.

(** Replays a chain of computations whose results are known. *)
Ltac chain := repeat (eapply bind_intro; [eassumption|cbv beta]); reflexivity.

(** ** One vault *)

Lemma validate_adapters_perm l l' k :
  l ≡ₚ l' -> validate_adapters l = Ok k -> validate_adapters l' = Ok k.
Proof.
  unfold validate_adapters. intros Hp H. unroll. subst k.
  match goal with G : try_map _ _ = Ok _ |- _ =>
    destruct (try_map_perm _ _ _ _ Hp G) as (k' & -> & Hk) end. cbn.
  match goal with G : negb _ = false |- _ => apply negb_false_iff, distinct_by_spec in G as Hd end.
  rewrite sort_by_number_perm in Hd. rewrite <- (sort_by_number_unique _ _ _ Hd Hk).
  rewrite (proj2 (distinct_by_spec _ _)) by (by rewrite sort_by_number_perm). done.
Qed.

Lemma validate_positions_perm v allocators sentinels adapters positions asset set group validity k :
  cfg_vault_position v ≡ₚ positions ->
  validate_positions v asset set group validity = Ok k ->
  validate_positions (with_lists v allocators sentinels adapters positions) asset set group validity
    = Ok k.
Proof.
  unfold validate_positions. intros Hp H. cbn. step_ok H as valid Hv.
  destruct (try_map_perm _ _ _ _ Hp Hv) as (k' & -> & Hk). cbn.
  assert (sort_by_number pc_position_key valid = sort_by_number pc_position_key k') as <-; [|done].
  apply sort_by_number_unique; [|done]. unroll.
  match goal with G : negb (distinct_by pc_position_key _) = false |- _ =>
    apply negb_false_iff, distinct_by_spec in G end.
  by rewrite <- (sort_by_number_perm pc_position_key).
Qed.

Lemma validate_vault_reordered a b validity v :
  vault_reordered a b -> validate_vault a validity = Ok v -> validate_vault b validity = Ok v.
Proof.
  intros (allocators & sentinels & adapters & positions & -> & Pa & Ps & Pd & Pp).
  unfold validate_vault, parse_addresses. intros H.
  repeat match type of H with _ ≫= _ = Ok _ => let x := fresh "x" in step_ok H as x ? end.
  injection H as <-.
  match goal with G : try_map _ (cfg_vault_approved_allocators a) = Ok ?l |- _ =>
    destruct (try_map_perm _ _ _ _ Pa G) as (al & Hal & Pal); rename l into al0; clear G end.
  match goal with G : try_map _ (cfg_vault_approved_sentinels a) = Ok _ |- _ =>
    destruct (try_map_perm _ _ _ _ Ps G) as (se & Hse & Pse); clear G end.
  match goal with G : validate_adapters (cfg_vault_adapter a) = Ok _ |- _ =>
    apply (validate_adapters_perm _ _ _ Pd) in G end.
  match goal with G : validate_positions a _ _ _ _ = Ok _ |- _ =>
    apply (validate_positions_perm a allocators sentinels adapters) with (1 := Pp) in G end.
  match goal with G : refuse (negb (bool_decide (?x ∈ al0))) _ _ = Ok _ |- _ =>
    rewrite (bool_decide_ext (x ∈ al0) (x ∈ al)) in G by (by rewrite Pal) end.
  rewrite (sort_dedup_perm _ _ Pal), (sort_dedup_perm _ _ Pse). chain.
Qed.

(** ** All vaults *)

(** The vaults the loop collects from a state of it. *)
Definition scanned (validity : Z) (scan : VaultScan) (raws : list VaultConfig)
    (vs : list ValidatedVaultConfig) : Prop :=
  Forall2 (fun raw v => validate_vault raw validity = Ok v) raws vs /\
  NoDup (vv_address <$> vs) /\ Forall (fun v => vv_address v ∉ sc_vault_addresses scan) vs /\
  exists signer, (forall s, sc_shared_signer scan = Some s -> s = signer) /\
    Forall (fun v => vv_signer_address v = signer) vs.

Definition scan_next (scan : VaultScan) (v : ValidatedVaultConfig) : VaultScan :=
  mkVaultScan ({[vv_address v]} ∪ sc_vault_addresses scan) (Some (vv_signer_address v))
    (sc_vaults scan ++ [v]).

Lemma scan_vault_Ok validity scan raw scan' :
  scan_vault validity scan raw = Ok scan' <->
  exists v, validate_vault raw validity = Ok v /\ vv_address v ∉ sc_vault_addresses scan /\
    (forall s, sc_shared_signer scan = Some s -> s = vv_signer_address v) /\ scan' = scan_next scan v.
Proof.
  unfold scan_vault. split.
  - intros H. unroll. subst scan'. eexists. split; [done|].
    repeat match goal with G : bool_decide _ = false |- _ => apply bool_decide_eq_false in G end.
    split_and!; [done| |done]. intros s Hs. rewrite Hs in *.
    match goal with G : negb _ = false |- _ => by apply negb_false_iff, Z.eqb_eq in G end.
  - intros (v & -> & Ha & Hs & ->). cbn. rewrite bool_decide_eq_false_2 by done. cbn.
    destruct (sc_shared_signer scan) as [s|]; [|done]. rewrite (Hs s eq_refl), Z.eqb_refl. done.
Qed.

Lemma scanned_cons validity scan raw raws v vs :
  scanned validity scan (raw :: raws) (v :: vs) <->
  validate_vault raw validity = Ok v /\ vv_address v ∉ sc_vault_addresses scan /\
  (forall s, sc_shared_signer scan = Some s -> s = vv_signer_address v) /\
  scanned validity (scan_next scan v) raws vs.
Proof.
  unfold scanned. rewrite Forall2_cons, fmap_cons, NoDup_cons, !Forall_cons. cbn [scan_next
    sc_vault_addresses sc_shared_signer].
  assert (Forall (fun u => vv_address u ∉ {[vv_address v]} ∪ sc_vault_addresses scan) vs <->
          vv_address v ∉ vv_address <$> vs /\
          Forall (fun u => vv_address u ∉ sc_vault_addresses scan) vs) as Hf.
  { rewrite !Forall_forall, list_elem_of_fmap. set_solver. }
  rewrite Hf. split.
  - intros ([Hv Hr] & [Hn Hd] & [Ha Hal] & signer & Hs & [Hsv Hsl]%Forall_cons). subst signer.
    split_and!; try done. exists (vv_signer_address v). split; [|done]. by intros s [= <-].
  - intros (Hv & Ha & Hs & Hr & Hd & [Hn Hal] & signer & Hg & Hsl).
    specialize (Hg _ eq_refl). subst signer. split_and!; try done.
    exists (vv_signer_address v). split; [done|]. by constructor.
Qed.

Lemma scan_vaults_Ok validity raws scan scan' :
  try_fold (scan_vault validity) scan raws = Ok scan' ->
  exists vs, sc_vaults scan' = sc_vaults scan ++ vs /\ scanned validity scan raws vs.
Proof.
  revert scan. induction raws as [|raw raws IH]; intros scan; cbn [try_fold].
  - intros [= <-]. exists []. rewrite app_nil_r. split; [done|].
    split_and!; [constructor|constructor|constructor|].
    exists (default 0 (sc_shared_signer scan)). split; [by intros s ->|constructor].
  - intros H. step_ok H as next Hn. apply scan_vault_Ok in Hn as (v & Hv & Ha & Hs & ->).
    destruct (IH _ H) as (vs & E & Hsc). exists (v :: vs). split.
    + rewrite E. cbn. by rewrite <- app_assoc.
    + by apply scanned_cons.
Qed.

Lemma scanned_complete validity raws scan vs :
  scanned validity scan raws vs ->
  exists scan', try_fold (scan_vault validity) scan raws = Ok scan' /\
    sc_vaults scan' = sc_vaults scan ++ vs.
Proof.
  revert scan vs. induction raws as [|raw raws IH]; intros scan vs Hsc.
  - destruct Hsc as (Hr & _). apply Forall2_nil_inv_l in Hr as ->. exists scan.
    by rewrite app_nil_r.
  - destruct vs as [|v vs]; [by destruct Hsc as (Hr & _); inversion Hr|].
    apply scanned_cons in Hsc as (Hv & Ha & Hs & Hsc). destruct (IH _ _ Hsc) as (scan' & H & E).
    exists scan'. cbn [try_fold]. split.
    + erewrite (proj2 (scan_vault_Ok _ _ _ (scan_next scan v))); [exact H|]. by exists v.
    + rewrite E. cbn. by rewrite <- app_assoc.
Qed.

Lemma scan_reordered validity raws raws' raws'' scan :
  raws ≡ₚ raws' -> Forall2 vault_reordered raws' raws'' ->
  try_fold (scan_vault validity) (mkVaultScan ∅ None []) raws = Ok scan ->
  exists scan', try_fold (scan_vault validity) (mkVaultScan ∅ None []) raws'' = Ok scan' /\
    sort_by_number vv_address (sc_vaults scan') = sort_by_number vv_address (sc_vaults scan).
Proof.
  intros Hp Hr (vs & E & Hv & Hd & _ & signer & _ & Hs)%scan_vaults_Ok. cbn in E.
  destruct (Permutation_Forall2 Hp Hv) as (vs' & Hpv & Hv').
  destruct (scanned_complete validity raws'' (mkVaultScan ∅ None []) vs') as (scan' & H & E').
  { split_and!.
    - clear -Hr Hv'. revert vs' Hv'. induction Hr as [|a b l k Hab _ IH]; intros vs' Hv';
        apply Forall2_cons_inv_l in Hv' || apply Forall2_nil_inv_l in Hv'; [by subst|].
      destruct Hv' as (v & vs & Hv & Hvs & ->). constructor; [by eapply validate_vault_reordered|auto].
    - by rewrite <- Hpv.
    - apply Forall_forall. set_solver.
    - exists signer. split; [done|]. by rewrite <- Hpv. }
  exists scan'. split; [done|]. cbn in E'. rewrite E, E'. symmetry. by apply sort_by_number_unique.
Qed.

(** ** Providers *)

#[local] Existing Instance number_le_total.
#[local] Existing Instance number_le_trans.

Lemma owns_roles_reordered roles a b : rpc_reordered a b -> owns_roles roles b = owns_roles roles a.
Proof.
  intros (r & Hr & ->). unfold owns_roles. induction roles as [|role roles IH]; [done|].
  cbn [forallb]. rewrite IH. f_equal. apply bool_decide_ext. cbn. by rewrite Hr.
Qed.

Lemma role_index_inj r r' : role_index r = role_index r' -> r = r'.
Proof. by destruct r, r'. Qed.

Lemma sort_roles_unique l k :
  l ≡ₚ k -> sort_by_number role_index l = sort_by_number role_index k.
Proof.
  intros Hp. apply (StronglySorted_unique_strong
    (fun x y => Is_true (lex_le [role_index x] [role_index y]))).
  - intros x y _ _ Hxy Hyx. apply role_index_inj.
    apply (number_le role_index) in Hxy, Hyx. lia.
  - apply (StronglySorted_merge_sort _).
  - apply (StronglySorted_merge_sort _).
  - by rewrite !sort_by_number_perm.
Qed.

Lemma validate_rpc_reordered a b : rpc_reordered a b -> validate_rpc b = validate_rpc a.
Proof.
  intros (r & Hr & ->). unfold validate_rpc. cbn. by rewrite (sort_roles_unique _ _ Hr).
Qed.

Lemma existsb_reordered {A} (R : A -> A -> Prop) (f : A -> bool) l l' l'' :
  (forall a b, R a b -> f b = f a) -> l ≡ₚ l' -> Forall2 R l' l'' -> existsb f l'' = existsb f l.
Proof.
  intros Hf Hp Hr. trans (existsb f l').
  - clear Hp. induction Hr as [|a b k k' Hab _ IH]; [done|]. cbn. by rewrite IH, (Hf a b Hab).
  - clear Hr. induction Hp as [|a k k' _ IH|a b k|]; cbn; [done|by rewrite IH| |congruence].
    by rewrite !orb_assoc, (orb_comm (f a)).
Qed.

Lemma primaries_reordered l l' l'' primary :
  l ≡ₚ l' -> Forall2 rpc_reordered l' l'' -> primaries l = [primary] ->
  exists primary', primaries l'' = [primary'] /\ rpc_reordered primary primary'.
Proof.
  intros Hp Hr Hl. unfold primaries in *.
  apply (sole_perm _ _ _ (filter_perm _ _ _ Hp)) in Hl.
  set (f := fun p => cfg_rpc_production_grade p && owns_roles primary_roles p) in *.
  assert (Forall2 rpc_reordered (List.filter f l') (List.filter f l'')) as Hf.
  { clear Hp Hl. induction Hr as [|a b k k' Hab _ IH]; [constructor|]. cbn.
    assert (f b = f a) as ->.
    { unfold f. rewrite (owns_roles_reordered _ _ _ Hab). by destruct Hab as (r & _ & ->). }
    by destruct (f a); [constructor|]. }
  rewrite Hl in Hf. apply Forall2_cons_inv_l in Hf as (q & k & Hq & Hk & ->).
  apply Forall2_nil_inv_l in Hk as ->. by exists q.
Qed.

Lemma rpc_sorted l : StronglySorted rpc_name_le (merge_sort rpc_name_le l).
Proof.
  assert (Total rpc_name_le) by (intros x y; apply (total String.le)).
  assert (Transitive rpc_name_le) by (intros x y z; apply (transitivity (R := String.le))).
  apply (StronglySorted_merge_sort _).
Qed.

Lemma validate_rpcs_reordered l l' l'' :
  NoDup (cfg_rpc_name <$> l) -> l ≡ₚ l' -> Forall2 rpc_reordered l' l'' ->
  merge_sort rpc_name_le (validate_rpc <$> l'') = merge_sort rpc_name_le (validate_rpc <$> l).
Proof.
  intros Hd Hp Hr.
  assert (validate_rpc <$> l'' = validate_rpc <$> l') as ->.
  { clear Hp. induction Hr as [|a b k k' Hab _ IH]; [done|]. cbn.
    by rewrite IH, (validate_rpc_reordered _ _ Hab). }
  assert (NoDup (vr_name <$> (validate_rpc <$> l))) as Hd'.
  { rewrite <- list_fmap_compose. erewrite list_fmap_ext; [exact Hd|done]. }
  symmetry. apply (StronglySorted_unique_strong rpc_name_le).
  - intros x y Hx Hy Hxy Hyx. rewrite merge_sort_Permutation in Hx, Hy. rewrite <- Hp in Hy.
    eapply (NoDup_fmap_elem vr_name); [exact Hd'|done|done|]. by apply (anti_symm String.le).
  - apply rpc_sorted.
  - apply rpc_sorted.
  - by rewrite !merge_sort_Permutation, Hp.
Qed.

(** ** The configuration *)

Section Reordered.
Context (a : AppConfig) (rpc rpc' : list RpcConfig) (vaults vaults' : list VaultConfig).
Context (Hrp : cfg_chain_rpc (cfg_chain a) ≡ₚ rpc') (Hrr : Forall2 rpc_reordered rpc' rpc).
Context (Hvp : cfg_vault a ≡ₚ vaults') (Hvr : Forall2 vault_reordered vaults' vaults).
Let b : AppConfig :=
  mkAppConfig (cfg_schema_version a) (cfg_node a) (with_rpc (cfg_chain a) rpc)
    (cfg_snapshot a) (cfg_execution a) (cfg_solver a) (cfg_strategy a) (cfg_signing a)
    (cfg_alerts a) vaults.

Lemma reference_invalid_reordered :
  existsb provider_reference_invalid rpc = existsb provider_reference_invalid (cfg_chain_rpc (cfg_chain a)).
Proof using Hrp Hrr.
  eapply existsb_reordered; [|exact Hrp|exact Hrr]. by intros x y (r & _ & ->).
Qed.

Lemma environment_reordered : validate_environment b = validate_environment a.
Proof using Hrp Hrr Hvp Hvr.
  unfold validate_environment. cbn. rewrite reference_invalid_reordered.
  rewrite <- (Forall2_length _ _ _ Hvr), <- (Permutation_length Hvp).
  by rewrite <- (Forall2_length _ _ _ Hrr), <- (Permutation_length Hrp).
Qed.

Lemma execution_reordered u : validate_execution a = Ok u -> validate_execution b = Ok u.
Proof using Hrp Hrr.
  unfold validate_execution, b. intros H.
  cbn [cfg_chain cfg_execution with_rpc cfg_chain_rpc cfg_chain_block_opportunity_policy].
  step_ok H as primary Hp. unfold sole_primary in *.
  destruct (primaries (cfg_chain_rpc (cfg_chain a))) as [|p [|]] eqn:Ep; try done.
  injection Hp as ->. destruct (primaries_reordered _ _ _ _ Hrp Hrr Ep) as (q & -> & Hq).
  cbn [mbind result_bind].
  assert (has_checkpoint_provider q rpc
          = has_checkpoint_provider primary (cfg_chain_rpc (cfg_chain a))) as ->; [|done].
  unfold has_checkpoint_provider. destruct Hq as (r & _ & ->). cbn [cfg_rpc_name].
  eapply existsb_reordered; [|exact Hrp|exact Hrr]. intros x y Hxy. cbv beta.
  rewrite (owns_roles_reordered _ _ _ Hxy). by destruct Hxy as (r' & _ & ->).
Qed.

Lemma top_level_reordered u : validate_top_level a = Ok u -> validate_top_level b = Ok u.
Proof using Hrp Hrr Hvp Hvr.
  unfold validate_top_level. intros H. cbn. rewrite environment_reordered.
  step_ok H as u1 H1. step_ok H as u2 H2. rewrite H1. cbn. rewrite (execution_reordered _ H2). cbn.
  erewrite existsb_reordered; [exact H| |exact Hvp|exact Hvr].
  by intros x y (al & se & ad & po & -> & _).
Qed.

Lemma chain_reordered :
  NoDup (cfg_rpc_name <$> cfg_chain_rpc (cfg_chain a)) ->
  canonical_chain (with_rpc (cfg_chain a) rpc) = canonical_chain (cfg_chain a).
Proof using Hrp Hrr.
  intros Hd. unfold canonical_chain. cbn. by rewrite (validate_rpcs_reordered _ _ _ Hd Hrp Hrr).
Qed.

End Reordered.

(** The validated configuration and its revision do not depend on the
    order in which the vaults, their positions, adapters and allowlists, and
    the providers with their roles are written, provided that the names of
    the providers are distinct. *)
Theorem validation_order_independent a b now c :
  NoDup (cfg_rpc_name <$> cfg_chain_rpc (cfg_chain a)) -> config_reordered a b ->
  validate_at a now = Ok c -> validate_at b now = Ok c.
Proof.
  intros Hd (rpc & vaults & -> & (rpc' & Hrp & Hrr) & (vaults' & Hvp & Hvr)) H.
  unfold validate_at in *. cbn. step_ok H as u Hu.
  rewrite (top_level_reordered _ _ _ _ _ Hrp Hrr Hvp Hvr _ Hu). cbn.
  rewrite (chain_reordered _ _ _ Hrp Hrr Hd).
  step_ok H as chain Hc. step_ok H as execution He. step_ok H as strategy Hs.
  step_ok H as validity Hv. step_ok H as scan Hsc. rewrite Hc, He, Hs, Hv. cbn.
  destruct (scan_reordered _ _ _ _ _ Hvp Hvr Hsc) as (scan' & -> & E). cbn. by rewrite E.
Qed.

End Order.
