(* ===== verification/ConfigExample.v ===== *)
(** * A configuration that validates

    A configuration of one vault over two markets, the applications of the
    theorems about validation to it, and durations that validate as positive
    but are zero in their canonical unit. *)
From Stdlib Require Import ZArith Lia Ascii String.
From stdpp Require Import base gmap sets strings sorting pretty list.
From S2P Require Import Prelude.
From S2P Require Import Text.
From S2P Require Import BlueMath.
From S2P Require Import Domain.
From S2P Require Import Config.
From S2P Require Import ProtocolLock.
From S2P Require Import RawConfig.
From S2P Require Import ConfigValidation.
From S2P Require Import ConfigProofs.
From S2P Require Import ConfigOrder.
Open Scope Z_scope.

Module ConfigExample.

#[local] Existing Instance sum_keccak.
#[local] Existing Instance word_abi.

(** Decimal text. *)
Definition decimal_step (value : option Z) (c : ascii) : option Z :=
  v ← value;
  let d := Z.of_N (N_of_ascii c) - 48 in
  if (0 <=? d) && (d <=? 9) && (10 * v + d <=? U256_MAX) then Some (10 * v + d) else None.
Definition decimal (s : string) : option Z :=
  if is_empty s then None else foldl decimal_step (Some 0) (list_ascii_of_string s).

#[local] Instance decimal_text : U256Text := decimal.
#[local] Instance decimal_hex : HexParse := {| address_from_str := decimal; b256_from_str := decimal |}.
#[local] Instance brief_codec : ConfigCodec := {|
  app_to_json app := Some (ac_schema_version app :: (vv_address <$> ac_vaults app));
  document_from_json _ := None;
  document_from_yaml _ := None;
|}.

Lemma decimal_digits_range l v w :
  0 <= v <= U256_MAX -> foldl decimal_step (Some v) l = Some w -> 0 <= w <= U256_MAX.
Proof.
  revert v. induction l as [|c l IH]; intros v Hv; cbn [foldl]; [by intros [= <-]|].
  unfold decimal_step at 2. cbn. destruct (_ && _) eqn:E.
  - bool_spec E. apply IH. lia.
  - clear. induction l as [|c' l IH]; [done|exact IH].
Qed.

#[local] Instance decimal_laws : U256TextLaws.
Proof.
  intros s v. unfold u256_from_str, decimal_text, decimal. case_match; [done|].
  apply decimal_digits_range. by vm_compute.
Qed.

Definition params (collateral : Z) : MarketParams := mkMarketParams 2 collateral 4 5 6.

Definition position (collateral : Z) : PositionConfig :=
  mkPositionConfig "10" "2" (pretty collateral) "4" "5" "6"
    (pretty (derive_market_id (params collateral))) Active "group" "0" "1000" "0"
    "900000000000000000" "20" "10" "0" "0" "0" "0" "500" false "0" FixedUntilModeled.

Definition vault (positions : list PositionConfig) : VaultConfig :=
  mkVaultConfig "vault" "100" "2" 6 "77" 1 "9" SpreadEqualization true "1" "0" "0" "0" 1
    "1000" "5000" "1" "0" "0" "0" "1000" "0" true true false true "0" "0" ["9"; "8"] ["7"]
    [mkRateGroupConfig "group" "0" "10" "100000" false]
    [mkAdapterConfig "10" MorphoMarketV1AdapterV2 "78" 5] None positions.

Definition primary : RpcConfig :=
  mkRpcConfig "primary" "RPC" None
    [RoleHead; RoleLogs; RoleRead; RoleSimulate; RoleSubmit; RoleReceipt] true false false.
Definition checkpoint : RpcConfig :=
  mkRpcConfig "checkpoint" "RPC2" None [RoleReceipt; RoleRead; RoleCheckpoint] false false false.

Definition strategy (confirmation : Duration) (top_k : TopKApyConfig) : StrategyConfig :=
  mkStrategyConfig SpotBorrowRateSpread 50 10 5 25 10 0 1 0 1 1 0 2 5000 confirmation 2
    (from_secs 60) 1 1 (from_secs 86400) false (from_secs 86400) 10 top_k.

Definition config_of (providers : list RpcConfig) (positions : list PositionConfig)
    (confirmation : Duration) (top_k : TopKApyConfig) : AppConfig :=
  mkAppConfig 6 (mkNodeConfig "node" ModeShadow "data" (from_secs 60) (from_secs 600))
    (mkChainConfig "chain" 1 "50" "51" "52" 0 100 64 EveryCanonicalBlock providers)
    (mkSnapshotConfig PinnedBlock true 1 1 3 0 (from_secs 1) (from_secs 1))
    (mkExecutionConfig 2 10 5 5 5 1 3 1 2 8 1000000 1000 "100" "100000")
    (mkSolverConfig 100 10 5 5 false) (strategy confirmation top_k) (RemoteSigner "SIGNER")
    (mkAlertConfig (mkTelegramConfig false "" "" None) (mkPagerDutyConfig false ""))
    [vault positions].

Definition written : AppConfig :=
  config_of [primary; checkpoint] [position 3; position 30] (from_secs 3600) TopKApyConfig_default.
Definition rewritten : AppConfig :=
  config_of [checkpoint; primary] [position 30; position 3] (from_secs 3600) TopKApyConfig_default.

Lemma validated_config_sound_witness : exists c,
  validate_at written 1000 = Ok c /\ config_wf 1000 c.
Proof.
  destruct (validate_at written 1000) as [c|] eqn:H; [|vm_compute in H; discriminate].
  exists c. split; [reflexivity|]. apply (validated_config_sound written 1000 c); [|exact H].
  vm_compute. repeat split; discriminate.
Defined.

Lemma reordered : config_reordered written rewritten.
Proof.
  exists [checkpoint; primary], [vault [position 30; position 3]]. split; [reflexivity|]. split.
  - exists [checkpoint; primary]. split; [apply Permutation_swap|]. constructor; [|constructor; [|constructor]].
    + exists (cfg_rpc_roles checkpoint). split; [reflexivity|reflexivity].
    + exists (cfg_rpc_roles primary). split; [reflexivity|reflexivity].
  - exists [vault [position 3; position 30]]. split; [reflexivity|]. constructor; [|constructor].
    exists ["9"; "8"]%string, ["7"]%string, [mkAdapterConfig "10" MorphoMarketV1AdapterV2 "78" 5],
      [position 30; position 3]. split; [reflexivity|]. repeat split; try reflexivity.
    apply Permutation_swap.
Qed.

Lemma validation_order_independent_witness : exists c,
  validate_at written 1000 = Ok c /\ validate_at rewritten 1000 = Ok c.
Proof.
  destruct (validate_at written 1000) as [c|] eqn:H; [|vm_compute in H; discriminate].
  exists c. split; [reflexivity|].
  apply (validation_order_independent written rewritten 1000 c); [|exact reordered|exact H].
  apply (bool_decide_unpack _). vm_compute. exact I.
Defined.

(** A positive duration below the canonical unit passes the validation and is
    zero in the validated configuration. *)
Definition brief_top_k : TopKApyConfig :=
  mkTopKApyConfig 200 250 100 250 200 7000 2000 500 500000000 (from_secs 300)
    [5000; 3000; 2000] [4000; 3000; 2000; 1000]
    "50000000000000000" "10000000000000000" "10000000000000000" true "0" 3 "0" 25.

Theorem confirmation_rounds_to_zero :
  match validate_at (config_of [primary; checkpoint] [position 3; position 30] 500000 brief_top_k) 1000
  with
  | Ok c => sg_persistent_confirmation_duration_millis (ac_strategy (vg_app c)) = 0 /\
            vt_membership_confirmation_seconds (sg_top_k_apy (ac_strategy (vg_app c))) = 0
  | Err _ => False
  end.
Proof. vm_compute. done. Qed.

(** Providers may share a name; then their order changes the result. *)
Definition twin (url : string) : RpcConfig := mkRpcConfig "twin" url None [RoleHead] false false false.

Theorem twins_order_matters :
  let ordered twins := config_of ([primary; checkpoint] ++ twins) [position 3; position 30]
                         (from_secs 3600) TopKApyConfig_default in
  let names c := vr_url_env <$> vc_rpc (ac_chain (vg_app c)) in
  names <$> to_option (validate_at (ordered [twin "A"; twin "B"]) 1000)
  <> names <$> to_option (validate_at (ordered [twin "B"; twin "A"]) 1000).
Proof. vm_compute. discriminate. Qed.

End ConfigExample.
