(* ===== verification/Topology.v ===== *)
(** * Replayable topology

    [state/topology.rs] and [state/pending_admin.rs]: the all-ever adapter,
    market, cap-data and pending-administration index of a vault, replayed
    from canonical events and reconciled against exact reads.

    The operations mutate the index in place and may fail half way, so each
    returns the index beside its result. The generated call decoders and the
    ABI and JSON writers are library code. *)
From Stdlib Require Import ZArith Lia.
From stdpp Require Import base gmap sets strings list.
From S2P Require Import Prelude.
From S2P Require Import Domain.
From S2P Require Import Models.
From S2P Require Import Logs.
Open Scope Z_scope.

Record EventLocation : Type := mkEventLocation {
  lo_block_number : Z;
  lo_transaction_hash : B256;
}.

Inductive TopologyError : Type :=
  | SourceMismatch
  | VaultMismatch
  | SelectorMismatch
  | TimestampRange
  | UnknownPendingOperation
  | CapIdMismatch
  | CapDataCollision
  | UncataloguedTopology
  | DonationEvidenceOverflow
  | ConfiguredPositionCollision
  | Serialization.

(** ** Pending administration *)

Inductive AdminTargetKind : Type := TargetVaultV2 | TargetDirectAdapter | TargetOtherKnown.

(** The calls of [IVaultV2] with a known effect; the others are one case. *)
Module VaultCall.
Inductive IVaultV2Calls : Type :=
  | setCurator (newCurator : Address)
  | setIsSentinel (account : Address) (newIsSentinel : bool)
  | setIsAllocator (account : Address) (newIsAllocator : bool)
  | setReceiveSharesGate (newReceiveSharesGate : Address)
  | setSendSharesGate (newSendSharesGate : Address)
  | setReceiveAssetsGate (newReceiveAssetsGate : Address)
  | setSendAssetsGate (newSendAssetsGate : Address)
  | setAdapterRegistry (newAdapterRegistry : Address)
  | addAdapter (account : Address)
  | removeAdapter (account : Address)
  | increaseAbsoluteCap (idData : Bytes) (newAbsoluteCap : Z)
  | decreaseAbsoluteCap (idData : Bytes) (newAbsoluteCap : Z)
  | increaseRelativeCap (idData : Bytes) (newRelativeCap : Z)
  | decreaseRelativeCap (idData : Bytes) (newRelativeCap : Z)
  | setLiquidityAdapterAndData (newLiquidityAdapter : Address) (newLiquidityData : Bytes)
  | setMaxRate (newMaxRate : Z)
  | setPerformanceFee (newPerformanceFee : Z)
  | setManagementFee (newManagementFee : Z)
  | setPerformanceFeeRecipient (newPerformanceFeeRecipient : Address)
  | setManagementFeeRecipient (newManagementFeeRecipient : Address)
  | setForceDeallocatePenalty (adapter : Address) (newForceDeallocatePenalty : Z)
  | increaseTimelock (selector : Z) (newDuration : Z)
  | decreaseTimelock (selector : Z) (newDuration : Z)
  | abdicate (selector : Z)
  | other (input : Bytes).
End VaultCall.
Notation IVaultV2Calls := VaultCall.IVaultV2Calls.

Module AdapterCall.
Inductive IMorphoMarketV1AdapterV2Calls : Type :=
  | burnShares (marketId : B256)
  | setSkimRecipient (newSkimRecipient : Address)
  | increaseTimelock (selector : Z) (newDuration : Z)
  | decreaseTimelock (selector : Z) (newDuration : Z)
  | abdicate (selector : Z)
  | other (input : Bytes).
End AdapterCall.
Notation IMorphoMarketV1AdapterV2Calls := AdapterCall.IMorphoMarketV1AdapterV2Calls.

(** [abi_decode_validate] and [abi_encode] of the two call enums, the ABI
    encoding of an operation identity, and [serde_json::to_vec]. *)
Class AdminAbi : Type := {
  vault_call_decode : Bytes -> option IVaultV2Calls;
  vault_call_encode : IVaultV2Calls -> Bytes;
  adapter_call_decode : Bytes -> option IMorphoMarketV1AdapterV2Calls;
  adapter_call_encode : IMorphoMarketV1AdapterV2Calls -> Bytes;
  operation_encode : Address * Bytes -> Bytes;
  topology_to_json : TopologyIndex -> option Bytes;
}.

Section Effects.
Context `{HB : AdminAbi}.

Definition decode_vault_effect (calldata : Bytes) : AdminEffect :=
  match vault_call_decode calldata with
  | None => Unknown
  | Some call =>
      if negb (bool_decide (vault_call_encode call = calldata)) then Unknown
      else
        match call with
        | VaultCall.setCurator curator => CuratorChange curator
        | VaultCall.setIsSentinel account enabled => SentinelMembership account enabled
        | VaultCall.setIsAllocator account enabled => AllocatorMembership account enabled
        | VaultCall.setReceiveSharesGate gate => GateChange ReceiveShares gate
        | VaultCall.setSendSharesGate gate => GateChange SendShares gate
        | VaultCall.setReceiveAssetsGate gate => GateChange ReceiveAssets gate
        | VaultCall.setSendAssetsGate gate => GateChange SendAssets gate
        | VaultCall.setAdapterRegistry registry => AdapterRegistryChange registry
        | VaultCall.addAdapter account => AdapterMembership account true
        | VaultCall.removeAdapter account => AdapterMembership account false
        | VaultCall.increaseAbsoluteCap id_data value => CapChange Absolute true id_data value
        | VaultCall.decreaseAbsoluteCap id_data value => CapChange Absolute false id_data value
        | VaultCall.increaseRelativeCap id_data value => CapChange Relative true id_data value
        | VaultCall.decreaseRelativeCap id_data value => CapChange Relative false id_data value
        | VaultCall.setLiquidityAdapterAndData adapter data => LiquidityAdapterChange adapter data
        | VaultCall.setMaxRate max_rate => MaxRateChange max_rate
        | VaultCall.setPerformanceFee fee => FeeChange Performance fee
        | VaultCall.setManagementFee fee => FeeChange Management fee
        | VaultCall.setPerformanceFeeRecipient recipient => FeeRecipientChange Performance recipient
        | VaultCall.setManagementFeeRecipient recipient => FeeRecipientChange Management recipient
        | VaultCall.setForceDeallocatePenalty adapter penalty =>
            ForceDeallocationPenaltyChange adapter penalty
        | VaultCall.increaseTimelock selector duration => TimelockChange selector duration true
        | VaultCall.decreaseTimelock selector duration => TimelockChange selector duration false
        | VaultCall.abdicate selector => Abdicate selector
        | VaultCall.other _ => Unknown
        end
  end.

Definition decode_adapter_effect (calldata : Bytes) : AdminEffect :=
  match adapter_call_decode calldata with
  | None => Unknown
  | Some call =>
      if negb (bool_decide (adapter_call_encode call = calldata)) then Unknown
      else
        match call with
        | AdapterCall.burnShares market => AdapterBurnShares market
        | AdapterCall.setSkimRecipient recipient => AdapterSkimRecipientChange recipient
        | AdapterCall.increaseTimelock selector duration => TimelockChange selector duration true
        | AdapterCall.decreaseTimelock selector duration => TimelockChange selector duration false
        | AdapterCall.abdicate selector => Abdicate selector
        | AdapterCall.other _ => Unknown
        end
  end.

Definition decode_admin_effect (target : AdminTargetKind) (calldata : Bytes) : AdminEffect :=
  match target with
  | TargetVaultV2 => decode_vault_effect calldata
  | TargetDirectAdapter => decode_adapter_effect calldata
  | TargetOtherKnown => Unknown
  end.

End Effects.

(** ** The index *)

Definition with_adapters (t : TopologyIndex) (adapters : gmap AdapterAddress AdapterTopology)
    : TopologyIndex :=
  mkTopologyIndex (ti_vault t) adapters (ti_cap_id_data t) (ti_pending_operations t)
    (ti_configured_positions t) (ti_receive_shares_gate t) (ti_send_shares_gate t)
    (ti_receive_assets_gate t) (ti_send_assets_gate t) (ti_performance_fee_recipient t)
    (ti_management_fee_recipient t).
Definition with_caps (t : TopologyIndex) (caps : gmap CapId CapIdDataEntry) : TopologyIndex :=
  mkTopologyIndex (ti_vault t) (ti_adapters t) caps (ti_pending_operations t)
    (ti_configured_positions t) (ti_receive_shares_gate t) (ti_send_shares_gate t)
    (ti_receive_assets_gate t) (ti_send_assets_gate t) (ti_performance_fee_recipient t)
    (ti_management_fee_recipient t).
Definition with_pending (t : TopologyIndex) (pending : gmap B256 PendingAdminOperation)
    : TopologyIndex :=
  mkTopologyIndex (ti_vault t) (ti_adapters t) (ti_cap_id_data t) pending
    (ti_configured_positions t) (ti_receive_shares_gate t) (ti_send_shares_gate t)
    (ti_receive_assets_gate t) (ti_send_assets_gate t) (ti_performance_fee_recipient t)
    (ti_management_fee_recipient t).
Definition with_positions (t : TopologyIndex)
    (positions : gmap PositionKey ConfiguredPositionTopology) : TopologyIndex :=
  mkTopologyIndex (ti_vault t) (ti_adapters t) (ti_cap_id_data t) (ti_pending_operations t)
    positions (ti_receive_shares_gate t) (ti_send_shares_gate t) (ti_receive_assets_gate t)
    (ti_send_assets_gate t) (ti_performance_fee_recipient t) (ti_management_fee_recipient t).
Definition with_gates (t : TopologyIndex) (receive_shares send_shares receive_assets send_assets
    performance management : Address) : TopologyIndex :=
  mkTopologyIndex (ti_vault t) (ti_adapters t) (ti_cap_id_data t) (ti_pending_operations t)
    (ti_configured_positions t) receive_shares send_shares receive_assets send_assets performance
    management.

Definition new_adapter (block_number : Z) : AdapterTopology :=
  mkAdapterTopology block_number None false [] ∅ ∅ ∅.

(** The entry of an adapter, made when it is absent, under a change. *)
Definition adapter_entry (t : TopologyIndex) (adapter : AdapterAddress) (block_number : Z)
    (change : AdapterTopology -> AdapterTopology) : TopologyIndex :=
  with_adapters t (<[adapter := change (default (new_adapter block_number)
                                         (ti_adapters t !! adapter))]> (ti_adapters t)).

Definition with_first_seen (e : AdapterTopology) (block : Z) : AdapterTopology :=
  mkAdapterTopology block (at_removed_at_block e) (at_currently_enabled e) (at_current_market_ids e)
    (at_historical_market_ids e) (at_sync_required_market_ids e)
    (at_observed_external_donation_shares e).
Definition with_membership (e : AdapterTopology) (enabled : bool) (removed : option Z)
    : AdapterTopology :=
  mkAdapterTopology (at_first_seen_block e) removed enabled (at_current_market_ids e)
    (at_historical_market_ids e) (at_sync_required_market_ids e)
    (at_observed_external_donation_shares e).
Definition with_current (e : AdapterTopology) (markets : list MarketId) : AdapterTopology :=
  mkAdapterTopology (at_first_seen_block e) (at_removed_at_block e) (at_currently_enabled e) markets
    (at_historical_market_ids e) (at_sync_required_market_ids e)
    (at_observed_external_donation_shares e).
Definition with_history (e : AdapterTopology) (market : MarketId) : AdapterTopology :=
  mkAdapterTopology (at_first_seen_block e) (at_removed_at_block e) (at_currently_enabled e)
    (at_current_market_ids e) ({[market]} ∪ at_historical_market_ids e)
    (at_sync_required_market_ids e) (at_observed_external_donation_shares e).
Definition with_sync (e : AdapterTopology) (market : MarketId) : AdapterTopology :=
  mkAdapterTopology (at_first_seen_block e) (at_removed_at_block e) (at_currently_enabled e)
    (at_current_market_ids e) (at_historical_market_ids e)
    ({[market]} ∪ at_sync_required_market_ids e) (at_observed_external_donation_shares e).
Definition with_donation (e : AdapterTopology) (market : MarketId) (shares : Z) : AdapterTopology :=
  mkAdapterTopology (at_first_seen_block e) (at_removed_at_block e) (at_currently_enabled e)
    (at_current_market_ids e) (at_historical_market_ids e) (at_sync_required_market_ids e)
    (<[market := shares]> (at_observed_external_donation_shares e)).

(** [TopologyIndex::new] *)
Definition new_index (vault : VaultAddress) (deployment_block : Z)
    (configured_adapters : list AdapterAddress)
    (configured_positions : list (AdapterAddress * MarketId * PositionKey)) : TopologyIndex :=
  let empty := mkTopologyIndex vault
    (foldl (fun m adapter => <[adapter := new_adapter deployment_block]> m) ∅ configured_adapters)
    ∅ ∅ ∅ 0 0 0 0 0 0 in
  foldl (fun t '(adapter, market, position) =>
    let t := with_positions t (<[position := mkConfiguredPositionTopology adapter market]>
                                 (ti_configured_positions t)) in
    adapter_entry t adapter deployment_block (fun e => with_history e market))
    empty configured_positions.

(** ** Operations *)

Definition topo : Type := TopologyIndex -> result TopologyError unit * TopologyIndex.
Definition topo_ok (t : TopologyIndex) : result TopologyError unit * TopologyIndex := (Ok tt, t).
Definition topo_err (e : TopologyError) : topo := fun t => (Err e, t).
Definition topo_then (f g : topo) : topo := fun t =>
  match f t with
  | (Ok _, t') => g t'
  | (Err e, t') => (Err e, t')
  end.
Fixpoint topo_each {A} (f : A -> topo) (l : list A) : topo :=
  match l with
  | [] => topo_ok
  | x :: l => topo_then (f x) (topo_each f l)
  end.

(** The earliest block the adapter is known from. *)
Definition seen_from (deployment_block : Z) (e : AdapterTopology) : AdapterTopology :=
  with_first_seen e (Z.min (at_first_seen_block e) deployment_block).

Definition merge_configured_position (deployment_block : Z)
    (configured : AdapterAddress * MarketId * PositionKey) : topo := fun t =>
  let '(adapter, market, position) := configured in
  let entry := mkConfiguredPositionTopology adapter market in
  let merge t := topo_ok (adapter_entry t adapter deployment_block
                            (fun e => with_history (seen_from deployment_block e) market)) in
  match ti_configured_positions t !! position with
  | Some existing =>
      if bool_decide (cp_adapter existing = adapter) && bool_decide (cp_market_id existing = market)
      then merge t else (Err ConfiguredPositionCollision, t)
  | None => merge (with_positions t (<[position := entry]> (ti_configured_positions t)))
  end.

Definition merge_configured_read_set (deployment_block : Z)
    (configured_adapters : list AdapterAddress)
    (configured_positions : list (AdapterAddress * MarketId * PositionKey)) : topo :=
  topo_then
    (topo_each (fun adapter t => topo_ok (adapter_entry t adapter deployment_block
                                            (seen_from deployment_block))) configured_adapters)
    (topo_each (merge_configured_position deployment_block) configured_positions).

Section Replay.
Context `{HK : Keccak} `{HB : AdminAbi}.

Definition catalog_cap_data (id : CapId) (id_data : Bytes) (block_number : Z) : topo := fun t =>
  if negb (keccak256 id_data =? id) then (Err CapIdMismatch, t)
  else
    match ti_cap_id_data t !! id with
    | Some existing =>
        if negb (bool_decide (ce_id_data existing = id_data)) then (Err CapDataCollision, t)
        else topo_ok (with_caps t (<[id := mkCapIdDataEntry (ce_id_data existing)
                                             (ce_first_seen_block existing) block_number]>
                                     (ti_cap_id_data t)))
    | None => topo_ok (with_caps t (<[id := mkCapIdDataEntry id_data block_number block_number]>
                                      (ti_cap_id_data t)))
    end.

Definition revision (t : TopologyIndex) : result TopologyError B256 :=
  encoded ← ok_or (topology_to_json t) Serialization;
  Ok (keccak256 encoded).

Definition pending_operation_id (target : Address) (calldata : Bytes) : B256 :=
  keccak256 (operation_encode (target, calldata)).

(** The first four bytes are the selector; [get(..4)] needs four of them. *)
Definition validate_selector (selector calldata : Bytes) : result TopologyError unit :=
  if (4 <=? length calldata)%nat && bool_decide (take 4 calldata = selector) then Ok tt
  else Err SelectorMismatch.

Definition submit_pending (target : Address) (selector calldata : Bytes) (executable_at : Z)
    (target_kind : AdminTargetKind) (location : EventLocation) : topo := fun t =>
  match validate_selector selector calldata with
  | Err e => (Err e, t)
  | Ok _ =>
      match try_from_u U64_MAX executable_at with
      | None => (Err TimestampRange, t)
      | Some executable_at =>
          let operation :=
            mkPendingAdminOperation target (of_be_bytes selector) (keccak256 calldata) calldata
              executable_at (decode_admin_effect target_kind calldata) (lo_block_number location)
              (lo_transaction_hash location) in
          topo_ok (with_pending t (<[pending_operation_id target calldata := operation]>
                                     (ti_pending_operations t)))
      end
  end.

Definition resolve_pending (target : Address) (selector calldata : Bytes) : topo := fun t =>
  match validate_selector selector calldata with
  | Err e => (Err e, t)
  | Ok _ =>
      let id := pending_operation_id target calldata in
      let t' := with_pending t (delete id (ti_pending_operations t)) in
      match ti_pending_operations t !! id with
      | Some _ => topo_ok t'
      | None => (Err UnknownPendingOperation, t')
      end
  end.

Definition apply_vault_event (event : IVaultV2Events) (location : EventLocation) : topo := fun t =>
  let block := lo_block_number location in
  match event with
  | VaultEvent.AddAdapter account =>
      topo_ok (adapter_entry t account block (fun e => with_membership e true None))
  | VaultEvent.RemoveAdapter account =>
      topo_ok (adapter_entry t account block (fun e => with_membership e false (Some block)))
  | VaultEvent.IncreaseAbsoluteCap id id_data _ => catalog_cap_data id id_data block t
  | VaultEvent.DecreaseAbsoluteCap _ id id_data _ => catalog_cap_data id id_data block t
  | VaultEvent.IncreaseRelativeCap id id_data _ => catalog_cap_data id id_data block t
  | VaultEvent.DecreaseRelativeCap _ id id_data _ => catalog_cap_data id id_data block t
  | VaultEvent.Submit selector data executable_at =>
      submit_pending (ti_vault t) selector data executable_at TargetVaultV2 location t
  | VaultEvent.Revoke _ selector data => resolve_pending (ti_vault t) selector data t
  | VaultEvent.Accept selector data => resolve_pending (ti_vault t) selector data t
  | VaultEvent.SetReceiveSharesGate gate =>
      topo_ok (with_gates t gate (ti_send_shares_gate t) (ti_receive_assets_gate t)
                 (ti_send_assets_gate t) (ti_performance_fee_recipient t)
                 (ti_management_fee_recipient t))
  | VaultEvent.SetSendSharesGate gate =>
      topo_ok (with_gates t (ti_receive_shares_gate t) gate (ti_receive_assets_gate t)
                 (ti_send_assets_gate t) (ti_performance_fee_recipient t)
                 (ti_management_fee_recipient t))
  | VaultEvent.SetReceiveAssetsGate gate =>
      topo_ok (with_gates t (ti_receive_shares_gate t) (ti_send_shares_gate t) gate
                 (ti_send_assets_gate t) (ti_performance_fee_recipient t)
                 (ti_management_fee_recipient t))
  | VaultEvent.SetSendAssetsGate gate =>
      topo_ok (with_gates t (ti_receive_shares_gate t) (ti_send_shares_gate t)
                 (ti_receive_assets_gate t) gate (ti_performance_fee_recipient t)
                 (ti_management_fee_recipient t))
  | VaultEvent.SetPerformanceFeeRecipient recipient =>
      topo_ok (with_gates t (ti_receive_shares_gate t) (ti_send_shares_gate t)
                 (ti_receive_assets_gate t) (ti_send_assets_gate t) recipient
                 (ti_management_fee_recipient t))
  | VaultEvent.SetManagementFeeRecipient recipient =>
      topo_ok (with_gates t (ti_receive_shares_gate t) (ti_send_shares_gate t)
                 (ti_receive_assets_gate t) (ti_send_assets_gate t)
                 (ti_performance_fee_recipient t) recipient)
  | _ => topo_ok t
  end.

(** [Vec::swap_remove] of an index in range. *)
Definition swap_remove (l : list MarketId) (index : nat) : list MarketId :=
  match last l with
  | None => l
  | Some final =>
      let kept := take (length l - 1) l in
      if (index <? length l - 1)%nat then <[index := final]> kept else kept
  end.

Fixpoint market_index (market : MarketId) (l : list MarketId) : option nat :=
  match l with
  | [] => None
  | x :: l => if x =? market then Some 0%nat else S <$> market_index market l
  end.

Definition update_market_membership (e : AdapterTopology) (market : MarketId) (allocation : Z)
    : AdapterTopology :=
  let e := with_history e market in
  if allocation =? 0 then
    match market_index market (at_current_market_ids e) with
    | Some index => with_current e (swap_remove (at_current_market_ids e) index)
    | None => e
    end
  else if bool_decide (market ∈ at_current_market_ids e) then e
  else with_current e (at_current_market_ids e ++ [market]).

(** The entry is made before the event is looked at. *)
Definition apply_adapter_event (adapter : AdapterAddress) (event : IMorphoMarketV1AdapterV2Events)
    (location : EventLocation) : topo := fun t =>
  let block := lo_block_number location in
  let touched := adapter_entry t adapter block id in
  match event with
  | AdapterEvent.Allocate market allocation _ | AdapterEvent.Deallocate market allocation _ =>
      topo_ok (adapter_entry t adapter block
                 (fun e => update_market_membership e market allocation))
  | AdapterEvent.BurnShares market _ =>
      topo_ok (adapter_entry t adapter block (fun e => with_sync (with_history e market) market))
  | AdapterEvent.Submit selector data executable_at =>
      submit_pending adapter selector data executable_at TargetDirectAdapter location touched
  | AdapterEvent.Revoke _ selector data => resolve_pending adapter selector data touched
  | AdapterEvent.Accept selector data => resolve_pending adapter selector data touched
  | _ => topo_ok touched
  end.

(** The market, the account and the shares donated to it by another. *)
Definition morpho_effect (event : IMorphoEvents) : option (MarketId * Address * option Z) :=
  match event with
  | MorphoEvent.Supply id caller on_behalf _ shares =>
      Some (id, on_behalf, if negb (caller =? on_behalf) then Some shares else None)
  | MorphoEvent.Withdraw id _ on_behalf _ _ _ => Some (id, on_behalf, None)
  | _ => None
  end.

Definition apply_morpho_event (event : IMorphoEvents) (location : EventLocation) : topo := fun t =>
  match morpho_effect event with
  | None => topo_ok t
  | Some (market, adapter, donation) =>
      match ti_adapters t !! adapter with
      | None => topo_ok t
      | Some entry =>
          let entry := with_history entry market in
          let entry := if lo_block_number location <? at_first_seen_block entry
                       then with_first_seen entry (lo_block_number location) else entry in
          let store entry := with_adapters t (<[adapter := entry]> (ti_adapters t)) in
          match donation with
          | None => topo_ok (store entry)
          | Some shares =>
              let existing := default 0 (at_observed_external_donation_shares entry !! market) in
              match checked_add U256_MAX existing shares with
              | None => (Err DonationEvidenceOverflow, store entry)
              | Some total => topo_ok (store (with_donation entry market total))
              end
          end
      end
  end.

Definition apply_event (source : EventSource) (event : ProtocolEvent) (location : EventLocation)
    : topo := fun t =>
  match source, event with
  | SourceVault vault, EventVault event =>
      if negb (vault =? ti_vault t) then (Err VaultMismatch, t)
      else apply_vault_event event location t
  | SourceAdapter adapter, EventAdapter event => apply_adapter_event adapter event location t
  | SourceMorpho _, EventMorpho event => apply_morpho_event event location t
  | SourceAdaptiveCurveIrm _, EventAdaptiveCurveIrm _ => topo_ok t
  | SourceToken _, EventToken _ => topo_ok t
  | _, _ => (Err SourceMismatch, t)
  end.

End Replay.

(** ** Reconciliation *)

Definition enable_adapter (adapter : AdapterAddress) : topo := fun t =>
  match ti_adapters t !! adapter with
  | None => (Err UncataloguedTopology, t)
  | Some entry => topo_ok (with_adapters t (<[adapter := with_membership entry true None]>
                                              (ti_adapters t)))
  end.

Definition reconcile_adapter (current_set : gset AdapterAddress)
    (current_markets : gmap AdapterAddress (list MarketId)) (block_number : Z)
    (adapter : AdapterAddress) : topo := fun t =>
  match ti_adapters t !! adapter with
  | None => topo_ok t
  | Some entry =>
      let entry := if negb (bool_decide (adapter ∈ current_set)) && at_currently_enabled entry
                   then with_membership entry false (Some block_number) else entry in
      let store entry := with_adapters t (<[adapter := entry]> (ti_adapters t)) in
      match current_markets !! adapter with
      | None => (Err UncataloguedTopology, store entry)
      | Some exact =>
          if forallb (fun market => bool_decide (market ∈ at_historical_market_ids entry)) exact
          then topo_ok (store (with_current entry exact))
          else (Err UncataloguedTopology, store entry)
      end
  end.

(** The second loop visits every known adapter in key order. *)
Definition reconcile_exact (current_adapters : list AdapterAddress)
    (current_markets : gmap AdapterAddress (list MarketId)) (block_number : Z) : topo :=
  topo_then (topo_each enable_adapter current_adapters)
    (fun t => topo_each (reconcile_adapter (list_to_set current_adapters) current_markets block_number)
                (btree_keys (ti_adapters t)) t).
