(* ===== verification/TopologyProofs.v ===== *)
(** * What the replayed topology means

    The invariant of the index through any replay, its refinement of the
    membership the events define, exact reconciliation, and the replay of one
    vault on which the theorems are applied. *)
From Stdlib Require Import ZArith Lia.
From stdpp Require Import base gmap sets strings list.
From S2P Require Import Prelude.
From S2P Require Import Domain.
From S2P Require Import Models.
From S2P Require Import Logs.
From S2P Require Import Topology.
Open Scope Z_scope.

(** ** What the topology index keeps

    Theorems about [Topology]: through any sequence of events, merges and
    reconciliations, failing ones included, the index stays well formed and
    forgets nothing; its current membership is that of the latest events, and
    an exact reconciliation makes it the membership that was read. *)

(** ** Ordered removal *)

Lemma market_index_Some market l i : market_index market l = Some i -> l !! i = Some market.
Proof.
  revert i. induction l as [|x l IH]; intros i; cbn; [done|].
  destruct (Z.eqb_spec x market) as [->|Hn]; [by intros [= <-]|].
  intros (j & Hj & ->)%fmap_Some. cbn. by apply IH.
Qed.

Lemma market_index_None market l : market_index market l = None -> market ∉ l.
Proof.
  induction l as [|x l IH]; cbn; [intros _; apply not_elem_of_nil|].
  destruct (Z.eqb_spec x market) as [->|Hn]; [done|]. intros H%fmap_None.
  rewrite not_elem_of_cons. split; [done|by apply IH].
Qed.

(** What is left is what was there without the removed element. *)
Lemma swap_remove_perm l i x : l !! i = Some x -> x :: swap_remove l i ≡ₚ l.
Proof.
  intros Hi. unfold swap_remove. destruct (last l) as [final|] eqn:Hl.
  2:{ apply last_None in Hl as ->. by rewrite lookup_nil in Hi. }
  apply last_Some in Hl as [k ->]. rewrite length_app. cbn [length].
  replace (length k + 1 - 1)%nat with (length k) by lia.
  rewrite take_app_length. destruct (Nat.ltb_spec i (length k)) as [Hlt|Hge].
  - rewrite lookup_app_l in Hi by done. rewrite insert_take_drop by done.
    trans ((take i k ++ x :: drop (S i) k) ++ [final]); [|by rewrite take_drop_middle].
    rewrite <- app_assoc. cbn. rewrite <- (Permutation_middle (take i k) _ x).
    apply perm_skip, Permutation_app_head, Permutation_cons_append.
  - assert (i = length k) as -> by (apply lookup_lt_Some in Hi; rewrite length_app in Hi; cbn in Hi; lia).
    rewrite list_lookup_middle in Hi by done. injection Hi as ->. by rewrite Permutation_app_comm.
Qed.

(** ** Well-formed entries *)

Record entry_wf (e : AdapterTopology) : Prop := {
  ew_unique : NoDup (at_current_market_ids e);
  ew_current : forall m, m ∈ at_current_market_ids e -> m ∈ at_historical_market_ids e;
  ew_sync : at_sync_required_market_ids e ⊆ at_historical_market_ids e;
  ew_donation : dom (at_observed_external_donation_shares e) ⊆ at_historical_market_ids e;
  ew_enabled : at_currently_enabled e = true -> at_removed_at_block e = None;
}.

(** An entry only gains history. *)
Definition entry_grows (e e' : AdapterTopology) : Prop :=
  at_first_seen_block e' <= at_first_seen_block e /\
  at_historical_market_ids e ⊆ at_historical_market_ids e' /\
  at_sync_required_market_ids e ⊆ at_sync_required_market_ids e'.

#[export] Instance entry_grows_preorder : PreOrder entry_grows.
Proof. split; [done|]. intros a b c (?&?&?) (?&?&?). split; [lia|]. split; by etrans. Qed.

Lemma new_adapter_wf block : entry_wf (new_adapter block).
Proof. split; cbn; try done; [constructor|set_solver]. Qed.

Lemma with_membership_wf e enabled removed :
  (enabled = true -> removed = None) -> entry_wf e -> entry_wf (with_membership e enabled removed).
Proof. by intros Hr [? ? ? ? ?]; split. Qed.

Lemma with_first_seen_wf e block : entry_wf e -> entry_wf (with_first_seen e block).
Proof. by intros [? ? ? ? ?]; split. Qed.

Lemma with_history_wf e market : entry_wf e -> entry_wf (with_history e market).
Proof. intros [? ? ? ? ?]; split; cbn; try done; set_solver. Qed.

Lemma with_sync_wf e market :
  market ∈ at_historical_market_ids e -> entry_wf e -> entry_wf (with_sync e market).
Proof. intros Hm [? ? ? ? ?]; split; cbn; try done; set_solver. Qed.

Lemma with_donation_wf e market shares :
  market ∈ at_historical_market_ids e -> entry_wf e -> entry_wf (with_donation e market shares).
Proof. intros Hm [? ? ? ? ?]; split; cbn; try done. rewrite dom_insert_L. set_solver. Qed.

Lemma with_current_wf e markets :
  NoDup markets -> (forall m, m ∈ markets -> m ∈ at_historical_market_ids e) -> entry_wf e ->
  entry_wf (with_current e markets).
Proof. intros Hd Hm [? ? ? ? ?]; by split. Qed.

Lemma swap_remove_elem l i x m :
  NoDup l -> l !! i = Some x -> m ∈ swap_remove l i <-> m ∈ l /\ m <> x.
Proof.
  intros Hd Hi. pose proof (swap_remove_perm l i x Hi) as Hp.
  assert (m ∈ l <-> m = x \/ m ∈ swap_remove l i) as -> by (by rewrite <- elem_of_cons, Hp).
  rewrite <- Hp in Hd. apply NoDup_cons in Hd as [Hn _]. split; [|naive_solver].
  intros Hm. split; [by right|]. by intros ->.
Qed.

Lemma update_market_membership_wf e market allocation :
  entry_wf e -> entry_wf (update_market_membership e market allocation).
Proof.
  intros Hw. apply (with_history_wf e market) in Hw. unfold update_market_membership. cbv zeta.
  pose proof Hw as [Hd Hc _ _ _]. case_match.
  - case_match eqn:Ep; [|done]. apply market_index_Some in Ep.
    apply with_current_wf; [| |done].
    + pose proof (swap_remove_perm _ _ _ Ep) as Hp. rewrite <- Hp in Hd.
      by apply NoDup_cons in Hd as [_ ?].
    + intros m Hm. apply Hc. rewrite (swap_remove_elem _ _ market m Hd Ep) in Hm. tauto.
  - case_bool_decide as Hin; [done|]. apply with_current_wf; [| |done].
    + apply NoDup_app. split; [done|]. split; [|apply NoDup_singleton].
      intros m Hm Hm'%list_elem_of_singleton. by subst m.
    + intros m [Hm|Hm%list_elem_of_singleton]%elem_of_app; [by apply Hc|]. subst m. cbn. set_solver.
Qed.

(** What membership an allocation leaves. *)
Lemma update_market_membership_current e market allocation m :
  entry_wf e ->
  m ∈ at_current_market_ids (update_market_membership e market allocation) <->
  if decide (m = market) then allocation <> 0 else m ∈ at_current_market_ids e.
Proof.
  intros [Hd _ _ _ _]. unfold update_market_membership. cbv zeta. cbn [with_history at_current_market_ids].
  destruct (Z.eqb_spec allocation 0) as [->|Hn].
  - destruct (market_index market (at_current_market_ids e)) as [i|] eqn:Ep; cbn.
    + apply market_index_Some in Ep. rewrite (swap_remove_elem _ _ market m Hd Ep).
      case_decide; naive_solver.
    + apply market_index_None in Ep. case_decide; naive_solver.
  - case_bool_decide as Hin; cbn.
    + case_decide; naive_solver.
    + rewrite elem_of_app, list_elem_of_singleton. case_decide; naive_solver.
Qed.

(** ** The index *)

Section Invariant.
Context `{HK : Keccak} `{HB : AdminAbi}.

(** An operation is filed under its identity, with the hash, the selector and
    the effect of its own calldata. *)
Definition operation_wf (id : B256) (op : PendingAdminOperation) : Prop :=
  id = pending_operation_id (pa_target op) (pa_calldata op) /\
  pa_calldata_hash op = keccak256 (pa_calldata op) /\
  pa_selector op = of_be_bytes (take 4 (pa_calldata op)) /\ (4 <= length (pa_calldata op))%nat /\
  pa_executable_at op <= U64_MAX /\
  exists kind, pa_effect op = decode_admin_effect kind (pa_calldata op).

Definition position_known (t : TopologyIndex) (p : ConfiguredPositionTopology) : Prop :=
  exists e, ti_adapters t !! cp_adapter p = Some e /\ cp_market_id p ∈ at_historical_market_ids e.

Record topology_wf (t : TopologyIndex) : Prop := {
  tw_adapters : map_Forall (fun _ e => entry_wf e) (ti_adapters t);
  tw_caps : map_Forall (fun id entry => keccak256 (ce_id_data entry) = id) (ti_cap_id_data t);
  tw_pending : map_Forall operation_wf (ti_pending_operations t);
  tw_positions : map_Forall (fun _ p => position_known t p) (ti_configured_positions t);
}.

(** Nothing observed is forgotten. *)
Record grows (t t' : TopologyIndex) : Prop := {
  gr_vault : ti_vault t' = ti_vault t;
  gr_adapters : forall a e, ti_adapters t !! a = Some e ->
    exists e', ti_adapters t' !! a = Some e' /\ entry_grows e e';
  gr_caps : forall id c, ti_cap_id_data t !! id = Some c ->
    exists c', ti_cap_id_data t' !! id = Some c' /\ ce_id_data c' = ce_id_data c;
  gr_positions : ti_configured_positions t ⊆ ti_configured_positions t';
}.

#[export] Instance grows_preorder : PreOrder grows.
Proof.
  split.
  - intros t. split; [done| | |done]; intros k x H; exists x; by split.
  - intros a b c [V1 A1 C1 P1] [V2 A2 C2 P2]. split; [congruence| | |by etrans].
    + intros k e (e1 & H1 & G1)%A1. destruct (A2 _ _ H1) as (e2 & H2 & G2).
      exists e2. split; [done|by etrans].
    + intros k e (e1 & H1 & G1)%C1. destruct (C2 _ _ H1) as (e2 & H2 & G2).
      exists e2. split; [done|congruence].
Qed.

Definition keeps (f : topo) : Prop := forall t, topology_wf t -> topology_wf (f t).2 /\ grows t (f t).2.

Lemma keeps_then f g : keeps f -> keeps g -> keeps (topo_then f g).
Proof.
  intros Hf Hg t Hw. unfold topo_then. destruct (f t) as [[u|e] t1] eqn:E.
  - destruct (Hf t Hw) as [Hw1 G1]. rewrite E in Hw1, G1. destruct (Hg t1 Hw1) as [Hw2 G2].
    split; [done|]. by etrans.
  - destruct (Hf t Hw) as [Hw1 G1]. by rewrite E in Hw1, G1.
Qed.

Lemma keeps_each {A} (f : A -> topo) l : (forall x, x ∈ l -> keeps (f x)) -> keeps (topo_each f l).
Proof.
  induction l as [|x l IH]; intros Hf; cbn.
  - intros t Hw. by split.
  - apply keeps_then; [apply Hf; by left|]. apply IH. intros y Hy. apply Hf. by right.
Qed.

(** A change of one entry. *)
Lemma store_keeps t a e e' :
  topology_wf t -> default (new_adapter (at_first_seen_block e)) (ti_adapters t !! a) = e ->
  entry_wf e' -> entry_grows e e' ->
  topology_wf (with_adapters t (<[a := e']> (ti_adapters t))) /\
  grows t (with_adapters t (<[a := e']> (ti_adapters t))).
Proof.
  intros [Ha Hc Hp Hpos] He He' Hg.
  assert (grows t (with_adapters t (<[a := e']> (ti_adapters t)))) as G.
  { split; cbn; [done| |eauto|done]. intros b x Hx. destruct (decide (b = a)) as [->|Hn].
    - exists e'. rewrite lookup_insert_eq. split; [done|]. rewrite Hx in He. cbn in He. by subst.
    - exists x. by rewrite lookup_insert_ne. }
  split; [|done]. split; cbn; [by apply map_Forall_insert_2|done|done|].
  intros k p Hk. destruct (Hpos k p Hk) as (x & Hx & Hm).
  destruct (gr_adapters _ _ G _ _ Hx) as (x' & Hx' & (_ & Hh & _)). exists x'. split; [done|set_solver].
Qed.

Lemma adapter_entry_keeps t a block change :
  topology_wf t -> (forall e, entry_wf e -> entry_wf (change e)) -> (forall e, entry_grows e (change e)) ->
  topology_wf (adapter_entry t a block change) /\ grows t (adapter_entry t a block change).
Proof.
  intros Hw Hc Hg. unfold adapter_entry. destruct (ti_adapters t !! a) as [e|] eqn:E; cbn.
  - apply (store_keeps _ _ e); [done|by rewrite E| |done]. apply Hc. by apply (tw_adapters t Hw a).
  - apply (store_keeps _ _ (new_adapter block)); [done|by rewrite E| |done]. apply Hc, new_adapter_wf.
Qed.

(** The other parts change without the adapters. *)
Lemma with_caps_keeps t id c :
  topology_wf t -> keccak256 (ce_id_data c) = id ->
  (forall old, ti_cap_id_data t !! id = Some old -> ce_id_data c = ce_id_data old) ->
  topology_wf (with_caps t (<[id := c]> (ti_cap_id_data t))) /\
  grows t (with_caps t (<[id := c]> (ti_cap_id_data t))).
Proof.
  intros [Ha Hc Hp Hpos] Hid Hold. split.
  - split; cbn; [done|by apply map_Forall_insert_2|done|done].
  - split; cbn; [done|by intros a e H; exists e| |done]. intros k x Hk. destruct (decide (k = id)) as [->|Hn].
    + exists c. rewrite lookup_insert_eq. split; [done|by apply Hold].
    + exists x. by rewrite lookup_insert_ne.
Qed.

Lemma with_pending_keeps t pending :
  topology_wf t -> map_Forall operation_wf pending ->
  topology_wf (with_pending t pending) /\ grows t (with_pending t pending).
Proof.
  intros [Ha Hc Hp Hpos] Hnew. split; [by split|]. split; cbn; [done|by intros k x H; exists x|by eauto|done].
Qed.

Lemma with_gates_keeps t a b c d e f :
  topology_wf t -> topology_wf (with_gates t a b c d e f) /\ grows t (with_gates t a b c d e f).
Proof. intros [Ha Hc Hp Hpos]. split; [by split|]. split; cbn; [done|by intros k x H; exists x|by eauto|done]. Qed.

Lemma catalog_cap_data_keeps id id_data block : keeps (catalog_cap_data id id_data block).
Proof.
  intros t Hw. unfold catalog_cap_data. case_match eqn:E; cbn; [by split|].
  apply negb_false_iff, Z.eqb_eq in E. case_match eqn:El.
  - case_match eqn:Ed; cbn; [by split|]. apply negb_false_iff, bool_decide_eq_true in Ed.
    apply with_caps_keeps; cbn; [done|congruence|]. intros old Ho. congruence.
  - apply with_caps_keeps; cbn; [done|done|]. intros old Ho. congruence.
Qed.

Lemma submit_pending_keeps target selector data at_time kind location :
  keeps (submit_pending target selector data at_time kind location).
Proof.
  intros t Hw. unfold submit_pending, validate_selector.
  destruct (_ && _) eqn:E; cbn; [|by split]. bool_spec E. destruct E as [Hlen Hsel].
  case_match eqn:Et; cbn; [|by split]. apply try_from_u_Some in Et as [-> Ht].
  apply with_pending_keeps; [done|]. apply map_Forall_insert_2; [|by apply Hw].
  unfold operation_wf. cbn. rewrite Hsel. apply Nat.leb_le in Hlen. split_and!; try done. by exists kind.
Qed.

Lemma resolve_pending_keeps target selector data : keeps (resolve_pending target selector data).
Proof.
  intros t Hw. unfold resolve_pending. case_match; cbn; [|by split].
  assert (map_Forall operation_wf (delete (pending_operation_id target data) (ti_pending_operations t)))
    by (by apply map_Forall_delete, Hw).
  case_match; cbn; by apply with_pending_keeps.
Qed.

Lemma grows_history e market : entry_grows e (with_history e market).
Proof. split; [cbn; lia|]. split; cbn; set_solver. Qed.
Lemma grows_membership e enabled removed : entry_grows e (with_membership e enabled removed).
Proof. done. Qed.
Lemma grows_first_seen e block : block <= at_first_seen_block e -> entry_grows e (with_first_seen e block).
Proof. by split. Qed.

Lemma grows_update e market allocation :
  entry_grows e (update_market_membership e market allocation).
Proof.
  unfold update_market_membership. cbv zeta. etrans; [apply (grows_history e market)|].
  repeat case_match; done.
Qed.

Lemma apply_vault_event_keeps event location : keeps (apply_vault_event event location).
Proof.
  intros t Hw. destruct event; cbn [apply_vault_event topo_ok snd];
    auto using catalog_cap_data_keeps, submit_pending_keeps, resolve_pending_keeps, with_gates_keeps;
    try (by split); try (by apply with_gates_keeps).
  - by apply resolve_pending_keeps.
  - by apply submit_pending_keeps.
  - by apply resolve_pending_keeps.
  - apply adapter_entry_keeps; [done| |done]. intros e. by apply with_membership_wf.
  - apply adapter_entry_keeps; [done| |done]. intros e. by apply with_membership_wf.
  - by apply catalog_cap_data_keeps.
  - by apply catalog_cap_data_keeps.
  - by apply catalog_cap_data_keeps.
  - by apply catalog_cap_data_keeps.
Qed.

Lemma keeps_after (f : topo) t t1 :
  keeps f -> topology_wf t1 /\ grows t t1 -> topology_wf (f t1).2 /\ grows t (f t1).2.
Proof. intros Hf [Hw G]. destruct (Hf t1 Hw) as [Hw' G']. split; [done|]. by etrans. Qed.

Lemma apply_adapter_event_keeps adapter event location : keeps (apply_adapter_event adapter event location).
Proof.
  intros t Hw.
  assert (topology_wf (adapter_entry t adapter (lo_block_number location) id) /\
          grows t (adapter_entry t adapter (lo_block_number location) id)) as Ht
    by (by apply adapter_entry_keeps).
  destruct event; cbn [apply_adapter_event topo_ok snd]; try done;
    try (by apply (keeps_after (submit_pending _ _ _ _ _ _)); [apply submit_pending_keeps|]);
    try (by apply (keeps_after (resolve_pending _ _ _)); [apply resolve_pending_keeps|]);
    apply adapter_entry_keeps; auto using update_market_membership_wf, grows_update.
  - intros e He. apply with_sync_wf; [cbn; set_solver|]. by apply with_history_wf.
  - intros e. split; [cbn; lia|]. split; cbn; set_solver.
Qed.

Lemma apply_morpho_event_keeps event location : keeps (apply_morpho_event event location).
Proof.
  intros t Hw. unfold apply_morpho_event. destruct (morpho_effect event) as [[[market a] donation]|];
    cbn; [|by split]. destruct (ti_adapters t !! a) as [e|] eqn:Ee; cbn; [|by split].
  assert (entry_wf e) as He by (by apply (tw_adapters t Hw a)). cbv zeta.
  set (e1 := if _ <? _ then _ else _).
  assert (entry_wf e1 /\ entry_grows e e1 /\ market ∈ at_historical_market_ids e1) as (He1 & G1 & Hm).
  { subst e1. apply (with_history_wf e market) in He. case_match eqn:Eb.
    - apply Z.ltb_lt in Eb. split_and!; [by apply with_first_seen_wf| |cbn; set_solver].
      etrans; [apply (grows_history e market)|]. apply grows_first_seen. cbn in *. lia.
    - split_and!; [done|apply grows_history|cbn; set_solver]. }
  assert (default (new_adapter (at_first_seen_block e)) (ti_adapters t !! a) = e) as Hd by by rewrite Ee.
  destruct donation as [shares|]; [|by apply (store_keeps _ _ e)].
  case_match; cbn; [|by apply (store_keeps _ _ e)].
  apply (store_keeps _ _ e); [done|done|by apply with_donation_wf|done].
Qed.

Lemma apply_event_keeps source event location : keeps (apply_event source event location).
Proof.
  intros t Hw. destruct source, event; cbn [apply_event topo_ok snd]; try (by split).
  - case_match; cbn; [by split|]. by apply apply_vault_event_keeps.
  - by apply apply_adapter_event_keeps.
  - by apply apply_morpho_event_keeps.
Qed.

(** ** Configuration and reconciliation *)

Lemma with_positions_keeps t k p :
  topology_wf t -> position_known t p ->
  (forall old, ti_configured_positions t !! k = Some old -> old = p) ->
  topology_wf (with_positions t (<[k := p]> (ti_configured_positions t))) /\
  grows t (with_positions t (<[k := p]> (ti_configured_positions t))).
Proof.
  intros [Ha Hc Hp Hpos] Hk Hold. split.
  - split; cbn; [done|done|done|]. apply map_Forall_insert_2; [exact Hk|exact Hpos].
  - split; cbn; [done|by intros a e H; exists e|by eauto|].
    apply map_subseteq_spec. intros j x Hj. destruct (decide (j = k)) as [->|Hn].
    + rewrite lookup_insert_eq. f_equal. symmetry. by apply Hold.
    + by rewrite lookup_insert_ne.
Qed.

Lemma merge_position_keeps block configured : keeps (merge_configured_position block configured).
Proof.
  intros t Hw. destruct configured as [[a market] k]. unfold merge_configured_position. cbv zeta.
  set (change := fun e => with_history (seen_from block e) market).
  assert (topology_wf (adapter_entry t a block change) /\ grows t (adapter_entry t a block change))
    as [Hw1 G1].
  { apply adapter_entry_keeps; [done| |].
    - intros e He. by apply with_history_wf, with_first_seen_wf.
    - intros e. etrans; [apply (grows_first_seen e (Z.min (at_first_seen_block e) block)); lia|].
      apply grows_history. }
  case_match eqn:Ep.
  - case_match; by split.
  - cbn [topo_ok snd].
    destruct (with_positions_keeps (adapter_entry t a block change) k
                (mkConfiguredPositionTopology a market)) as [Hw2 G2]; [done| | |].
    + unfold position_known. cbn. rewrite lookup_insert_eq. eexists. split; [done|]. cbn. set_solver.
    + cbn. intros old Ho. congruence.
    + split; [exact Hw2|]. etrans; [exact G1|exact G2].
Qed.

Lemma merge_keeps block adapters positions : keeps (merge_configured_read_set block adapters positions).
Proof.
  apply keeps_then; apply keeps_each; intros x _.
  - intros t Hw. cbn. apply adapter_entry_keeps; [done| |].
    + intros e He. by apply with_first_seen_wf.
    + intros e. apply grows_first_seen. lia.
  - apply merge_position_keeps.
Qed.

Lemma enable_adapter_keeps a : keeps (enable_adapter a).
Proof.
  intros t Hw. unfold enable_adapter. case_match eqn:E; cbn; [|by split].
  match type of E with _ = Some ?e => apply (store_keeps _ _ e) end; [done|by rewrite E| |done].
  apply with_membership_wf; [done|]. by apply (tw_adapters t Hw a).
Qed.

(** The reads report every market once. *)
Definition exact_reads (markets : gmap AdapterAddress (list MarketId)) : Prop :=
  map_Forall (fun _ l => NoDup l) markets.

Lemma reconcile_adapter_keeps current markets block a :
  exact_reads markets -> keeps (reconcile_adapter current markets block a).
Proof.
  intros Hm t Hw. unfold reconcile_adapter. destruct (ti_adapters t !! a) as [e|] eqn:E; cbn; [|by split].
  assert (entry_wf e) as He by (by apply (tw_adapters t Hw a)). cbv zeta.
  set (e1 := if negb (bool_decide (a ∈ current)) && at_currently_enabled e
             then with_membership e false (Some block) else e).
  assert (entry_wf e1 /\ entry_grows e e1) as [He1 G1].
  { subst e1. case_match; [|done]. split; [by apply with_membership_wf|done]. }
  assert (default (new_adapter (at_first_seen_block e)) (ti_adapters t !! a) = e) as Hd by by rewrite E.
  destruct (markets !! a) as [exact|] eqn:Em; cbn; [|by apply (store_keeps _ _ e)].
  case_match eqn:Ef; cbn; [|by apply (store_keeps _ _ e)].
  apply (store_keeps _ _ e); [done|done| |done]. apply with_current_wf; [by apply (Hm a)| |done].
  intros m Hin. rewrite forallb_forall in Ef.
  specialize (Ef m (proj1 (list_elem_of_In _ _) Hin)). by apply bool_decide_eq_true in Ef.
Qed.

Lemma reconcile_keeps adapters markets block :
  exact_reads markets -> keeps (reconcile_exact adapters markets block).
Proof.
  intros Hm. apply keeps_then.
  - apply keeps_each. intros a _. apply enable_adapter_keeps.
  - intros t. apply keeps_each. intros a _. by apply reconcile_adapter_keeps.
Qed.

(** ** Replay *)

Inductive TopologyOp : Type :=
  | ReplayEvent (source : EventSource) (event : ProtocolEvent) (location : EventLocation)
  | MergeConfigured (block : Z) (adapters : list AdapterAddress)
      (positions : list (AdapterAddress * MarketId * PositionKey))
  | ReconcileExact (adapters : list AdapterAddress)
      (markets : gmap AdapterAddress (list MarketId)) (block : Z).

Definition apply_op (op : TopologyOp) : topo :=
  match op with
  | ReplayEvent source event location => apply_event source event location
  | MergeConfigured block adapters positions => merge_configured_read_set block adapters positions
  | ReconcileExact adapters markets block => reconcile_exact adapters markets block
  end.

Definition op_ok (op : TopologyOp) : Prop :=
  match op with ReconcileExact _ markets _ => exact_reads markets | _ => True end.

(** The index after a series of operations, whether they fail or not. *)
Definition run_ops (t : TopologyIndex) (ops : list TopologyOp) : TopologyIndex :=
  foldl (fun t op => (apply_op op t).2) t ops.

Lemma apply_op_keeps op : op_ok op -> keeps (apply_op op).
Proof.
  destruct op; intros Hop; [apply apply_event_keeps|apply merge_keeps|by apply reconcile_keeps].
Qed.

Lemma run_ops_keeps ops t :
  Forall op_ok ops -> topology_wf t -> topology_wf (run_ops t ops) /\ grows t (run_ops t ops).
Proof.
  intros Hops. revert t. induction Hops as [|op ops Hop _ IH]; intros t Hw; cbn; [by split|].
  destruct (apply_op_keeps op Hop t Hw) as [Hw' G]. destruct (IH _ Hw') as [Hw'' G'].
  split; [done|]. by etrans.
Qed.

Lemma new_index_wf vault block adapters positions :
  topology_wf (new_index vault block adapters positions).
Proof.
  unfold new_index. cbv zeta.
  set (t0 := mkTopologyIndex _ _ _ _ _ _ _ _ _ _ _).
  assert (topology_wf t0) as H0.
  { subst t0. split; cbn; try apply map_Forall_empty.
    assert (forall m : gmap AdapterAddress AdapterTopology, map_Forall (fun _ e => entry_wf e) m ->
      map_Forall (fun _ e => entry_wf e)
        (foldl (fun m a => <[a := new_adapter block]> m) m adapters)) as Hf.
    { induction adapters as [|a l IH]; intros m Hm; cbn; [done|]. apply IH.
      apply map_Forall_insert_2; [apply new_adapter_wf|done]. }
    apply Hf, map_Forall_empty. }
  clearbody t0. revert t0 H0. induction positions as [|[[a market] k] l IH]; intros t Hw; cbn [foldl]; [done|].
  apply IH.
  destruct (adapter_entry_keeps t a block (fun e => with_history e market) Hw) as [[Ha Hc Hp Hpos] G].
  { intros e. apply with_history_wf. } { intros e. apply grows_history. }
  split; [exact Ha|exact Hc|exact Hp|]. cbn. apply map_Forall_insert_2; [|exact Hpos].
  unfold position_known. cbn. rewrite lookup_insert_eq. eexists. split; [done|]. cbn. set_solver.
Qed.

(** From a configured index, through any series of canonical events,
    configuration merges and exact reconciliations, those that fail half way
    included, the topology index stays well formed: current and
    synchronization-only markets are catalogued, a current market is listed
    once, cap data hashes to its identifier, a pending operation is filed under
    its own calldata with its effect, every configured position has its market
    catalogued; and no adapter, market, cap data or configured position is
    ever forgotten. *)
Theorem topology_replay_invariant vault block adapters positions ops1 ops2 :
  Forall op_ok ops1 -> Forall op_ok ops2 ->
  let before := run_ops (new_index vault block adapters positions) ops1 in
  let after := run_ops before ops2 in
  topology_wf after /\ grows before after.
Proof.
  intros H1 H2 before after.
  destruct (run_ops_keeps ops1 (new_index vault block adapters positions) H1) as [Hw _];
    [apply new_index_wf|]. by apply run_ops_keeps.
Qed.

(** ** What the index says of the chain *)

Definition enabled (t : TopologyIndex) (a : AdapterAddress) : bool :=
  match ti_adapters t !! a with Some e => at_currently_enabled e | None => false end.
Definition listed (t : TopologyIndex) (a : AdapterAddress) (m : MarketId) : bool :=
  match ti_adapters t !! a with
  | Some e => bool_decide (m ∈ at_current_market_ids e)
  | None => false
  end.
Definition pending (t : TopologyIndex) (id : B256) : bool := bool_decide (is_Some (ti_pending_operations t !! id)).

(** The abstract state of one adapter, one of its markets and one operation
    after an event of the chain. *)
Definition chain_enabled (vault : VaultAddress) (a : AdapterAddress) (before : bool)
    (occurrence : EventSource * ProtocolEvent * EventLocation) : bool :=
  match occurrence with
  | (SourceVault v, EventVault (VaultEvent.AddAdapter account), _) =>
      if (v =? vault) && (account =? a) then true else before
  | (SourceVault v, EventVault (VaultEvent.RemoveAdapter account), _) =>
      if (v =? vault) && (account =? a) then false else before
  | _ => before
  end.

Definition chain_listed (a : AdapterAddress) (m : MarketId) (before : bool)
    (occurrence : EventSource * ProtocolEvent * EventLocation) : bool :=
  match occurrence with
  | (SourceAdapter adapter, EventAdapter (AdapterEvent.Allocate market allocation _), _)
  | (SourceAdapter adapter, EventAdapter (AdapterEvent.Deallocate market allocation _), _) =>
      if (adapter =? a) && (market =? m) then negb (allocation =? 0) else before
  | _ => before
  end.

Definition chain_pending (vault : VaultAddress) (id : B256) (before : bool)
    (occurrence : EventSource * ProtocolEvent * EventLocation) : bool :=
  let submitted target selector data at_time :=
    if is_ok (validate_selector selector data) && (at_time <=? U64_MAX)
       && (pending_operation_id target data =? id) then true else before in
  let resolved target selector data :=
    if is_ok (validate_selector selector data) && (pending_operation_id target data =? id)
    then false else before in
  match occurrence with
  | (SourceVault v, EventVault event, _) =>
      if negb (v =? vault) then before
      else
        match event with
        | VaultEvent.Submit selector data at_time => submitted vault selector data at_time
        | VaultEvent.Revoke _ selector data => resolved vault selector data
        | VaultEvent.Accept selector data => resolved vault selector data
        | _ => before
        end
  | (SourceAdapter adapter, EventAdapter event, _) =>
      match event with
      | AdapterEvent.Submit selector data at_time => submitted adapter selector data at_time
      | AdapterEvent.Revoke _ selector data => resolved adapter selector data
      | AdapterEvent.Accept selector data => resolved adapter selector data
      | _ => before
      end
  | _ => before
  end.

Lemma entry_enabled t a block change b :
  enabled (adapter_entry t a block change) b =
  if decide (b = a)
  then at_currently_enabled (change (default (new_adapter block) (ti_adapters t !! a)))
  else enabled t b.
Proof.
  unfold enabled, adapter_entry. cbn. case_decide; subst.
  - by rewrite lookup_insert_eq.
  - by rewrite lookup_insert_ne.
Qed.

Lemma entry_listed t a block change b m :
  listed (adapter_entry t a block change) b m =
  if decide (b = a)
  then bool_decide (m ∈ at_current_market_ids (change (default (new_adapter block) (ti_adapters t !! a))))
  else listed t b m.
Proof.
  unfold listed, adapter_entry. cbn. case_decide; subst.
  - by rewrite lookup_insert_eq.
  - by rewrite lookup_insert_ne.
Qed.

Lemma default_enabled t a block :
  at_currently_enabled (default (new_adapter block) (ti_adapters t !! a)) = enabled t a.
Proof. unfold enabled. by destruct (ti_adapters t !! a). Qed.

Lemma default_listed t a block m :
  bool_decide (m ∈ at_current_market_ids (default (new_adapter block) (ti_adapters t !! a)))
  = listed t a m.
Proof. unfold listed. by destruct (ti_adapters t !! a). Qed.

(** The membership of a parent or adapter only moves with the operations on
    entries; the rest of the index is separate. *)
Definition same_membership (t t' : TopologyIndex) : Prop :=
  (forall a, enabled t' a = enabled t a) /\ (forall a m, listed t' a m = listed t a m).

Lemma same_membership_entry t a block change :
  (forall e, at_currently_enabled (change e) = at_currently_enabled e) ->
  (forall e, at_current_market_ids (change e) = at_current_market_ids e) ->
  same_membership t (adapter_entry t a block change).
Proof.
  intros He Hc. split.
  - intros b. rewrite entry_enabled, He, default_enabled. by case_decide; subst.
  - intros b m. rewrite entry_listed, Hc, default_listed. by case_decide; subst.
Qed.

Lemma same_membership_adapters t t' : ti_adapters t' = ti_adapters t -> same_membership t t'.
Proof. intros E. unfold same_membership, enabled, listed. by rewrite E. Qed.

Lemma catalog_adapters id data block t :
  ti_adapters (catalog_cap_data id data block t).2 = ti_adapters t /\
  ti_pending_operations (catalog_cap_data id data block t).2 = ti_pending_operations t.
Proof. unfold catalog_cap_data. by repeat case_match. Qed.

Lemma submit_adapters target selector data at_time kind location t :
  ti_adapters (submit_pending target selector data at_time kind location t).2 = ti_adapters t.
Proof. unfold submit_pending. by repeat case_match. Qed.

Lemma resolve_adapters target selector data t :
  ti_adapters (resolve_pending target selector data t).2 = ti_adapters t.
Proof. unfold resolve_pending. by repeat case_match. Qed.

Lemma morpho_membership event location t :
  same_membership t (apply_morpho_event event location t).2 /\
  ti_pending_operations (apply_morpho_event event location t).2 = ti_pending_operations t.
Proof.
  unfold apply_morpho_event. destruct (morpho_effect event) as [[[market a] donation]|]; [|done].
  destruct (ti_adapters t !! a) as [e|] eqn:E; [|done]. cbv zeta.
  assert (forall e', at_currently_enabled e' = at_currently_enabled e ->
    at_current_market_ids e' = at_current_market_ids e ->
    same_membership t (with_adapters t (<[a := e']> (ti_adapters t)))) as Hst.
  { intros e' He Hc. unfold same_membership, enabled, listed. cbn. split; intros b; [|intros m];
      (destruct (decide (b = a)) as [->|Hn];
       [by rewrite lookup_insert_eq, E, ?He, ?Hc|by rewrite lookup_insert_ne]). }
  repeat case_match; cbn; (split; [|done]); by apply Hst.
Qed.

Lemma event_enabled source event location t a :
  enabled (apply_event source event location t).2 a
  = chain_enabled (ti_vault t) a (enabled t a) (source, event, location).
Proof.
  destruct source as [v|b|mo|irm|tok], event as [event|event|event|event|event]; try done.
  - cbn [apply_event]. destruct (Z.eqb_spec v (ti_vault t)) as [->|Hv]; cbn [negb].
    2:{ destruct event; cbn; try done; by rewrite (proj2 (Z.eqb_neq _ _) Hv). }
    destruct event; cbn [apply_vault_event topo_ok snd chain_enabled]; try done;
      try (by rewrite (proj1 (same_membership_adapters _ _ (submit_adapters _ _ _ _ _ _ t))));
      try (by rewrite (proj1 (same_membership_adapters _ _ (resolve_adapters _ _ _ t))));
      try (by rewrite (proj1 (same_membership_adapters _ _ (proj1 (catalog_adapters _ _ _ t))))).
    + rewrite entry_enabled, Z.eqb_refl. cbn. destruct (Z.eqb_spec account a); case_decide; congruence.
    + rewrite entry_enabled, Z.eqb_refl. cbn. destruct (Z.eqb_spec account a); case_decide; congruence.
  - cbn [apply_event chain_enabled].
    assert (same_membership t (adapter_entry t b (lo_block_number location) id)) as [He _]
      by (by apply same_membership_entry).
    destruct event; cbn [apply_adapter_event topo_ok snd]; try done;
      try (by rewrite (proj1 (same_membership_adapters _ _ (submit_adapters _ _ _ _ _ _ _))));
      try (by rewrite (proj1 (same_membership_adapters _ _ (resolve_adapters _ _ _ _))));
      rewrite entry_enabled.
    + cbn. rewrite default_enabled. by case_decide; subst.
    + unfold update_market_membership. case_decide; [|done]. subst.
      repeat case_match; cbn; by rewrite default_enabled.
    + unfold update_market_membership. case_decide; [|done]. subst.
      repeat case_match; cbn; by rewrite default_enabled.
  - apply morpho_membership.
Qed.

Lemma default_entry_wf t a block :
  topology_wf t -> entry_wf (default (new_adapter block) (ti_adapters t !! a)).
Proof.
  intros Hw. destruct (ti_adapters t !! a) eqn:E; cbn; [by apply (tw_adapters t Hw a)|apply new_adapter_wf].
Qed.

Lemma update_listed t a block market allocation b m :
  topology_wf t ->
  listed (adapter_entry t a block (fun e => update_market_membership e market allocation)) b m
  = if (a =? b) && (market =? m) then negb (allocation =? 0) else listed t b m.
Proof.
  intros Hw. rewrite entry_listed. destruct (Z.eqb_spec a b) as [->|Hn]; [|by rewrite decide_False by done].
  rewrite decide_True by done. cbn [andb].
  pose proof (update_market_membership_current _ market allocation m (default_entry_wf t b block Hw)) as Hu.
  destruct (Z.eqb_spec market m) as [->|Hm].
  - rewrite decide_True in Hu by done. rewrite (bool_decide_ext _ _ Hu).
    by destruct (Z.eqb_spec allocation 0); case_bool_decide.
  - rewrite decide_False in Hu by done. rewrite (bool_decide_ext _ _ Hu). apply default_listed.
Qed.

Lemma event_listed source event location t a m :
  topology_wf t ->
  listed (apply_event source event location t).2 a m
  = chain_listed a m (listed t a m) (source, event, location).
Proof.
  intros Hw. destruct source as [v|b|mo|irm|tok], event as [event|event|event|event|event]; try done.
  - cbn [apply_event chain_listed]. destruct (v =? ti_vault t); cbn [negb]; [|done].
    destruct event; cbn [apply_vault_event topo_ok snd]; try done;
      try (by rewrite (proj2 (same_membership_adapters _ _ (submit_adapters _ _ _ _ _ _ t))));
      try (by rewrite (proj2 (same_membership_adapters _ _ (resolve_adapters _ _ _ t))));
      try (by rewrite (proj2 (same_membership_adapters _ _ (proj1 (catalog_adapters _ _ _ t)))));
      rewrite entry_listed; cbn; rewrite default_listed; by case_decide; subst.
  - cbn [apply_event].
    assert (same_membership t (adapter_entry t b (lo_block_number location) id)) as [_ Hl]
      by (by apply same_membership_entry).
    destruct event; cbn [apply_adapter_event topo_ok snd chain_listed]; try done;
      try (by rewrite (proj2 (same_membership_adapters _ _ (submit_adapters _ _ _ _ _ _ _))));
      try (by rewrite (proj2 (same_membership_adapters _ _ (resolve_adapters _ _ _ _))));
      try (by apply update_listed).
    rewrite entry_listed. cbn. rewrite default_listed. by case_decide; subst.
  - apply morpho_membership.
Qed.

Lemma submit_pending_spec target selector data at_time kind location t id :
  pending (submit_pending target selector data at_time kind location t).2 id =
  if is_ok (validate_selector selector data) && (at_time <=? U64_MAX)
     && (pending_operation_id target data =? id) then true else pending t id.
Proof.
  unfold submit_pending, try_from_u, pending. destruct (validate_selector selector data); cbn; [|done].
  destruct (at_time <=? U64_MAX); cbn; [|done].
  destruct (Z.eqb_spec (pending_operation_id target data) id) as [->|Hn].
  - by rewrite lookup_insert_eq.
  - by rewrite lookup_insert_ne.
Qed.

Lemma resolve_pending_spec target selector data t id :
  pending (resolve_pending target selector data t).2 id =
  if is_ok (validate_selector selector data) && (pending_operation_id target data =? id)
  then false else pending t id.
Proof.
  unfold resolve_pending, pending. destruct (validate_selector selector data); cbn; [|done].
  destruct (Z.eqb_spec (pending_operation_id target data) id) as [->|Hn];
    case_match; cbn; rewrite ?lookup_delete_eq, ?lookup_delete_ne by done; try done;
    by rewrite bool_decide_eq_false_2 by (by intros [? ?]).
Qed.

Lemma event_pending source event location t id :
  pending (apply_event source event location t).2 id
  = chain_pending (ti_vault t) id (pending t id) (source, event, location).
Proof.
  destruct source as [v|b|mo|irm|tok], event as [event|event|event|event|event]; try done.
  - cbn [apply_event chain_pending]. destruct (v =? ti_vault t); cbn [negb]; [|done].
    destruct event; cbn [apply_vault_event topo_ok snd]; try done;
      try apply submit_pending_spec; try apply resolve_pending_spec;
      unfold pending; by rewrite (proj2 (catalog_adapters _ _ _ t)).
  - cbn [apply_event chain_pending]. destruct event; cbn [apply_adapter_event topo_ok snd]; try done;
      first [by etrans; [apply submit_pending_spec|]|by etrans; [apply resolve_pending_spec|]].
  - cbn [apply_event chain_pending]. unfold pending. by rewrite (proj2 (morpho_membership _ _ t)).
Qed.

(** The index after a series of events. *)
Definition replay (t : TopologyIndex) (events : list (EventSource * ProtocolEvent * EventLocation))
    : TopologyIndex :=
  foldl (fun t '(source, event, location) => (apply_event source event location t).2) t events.

(** C27: Replaying canonical events, whether single ones are refused or not,
    leaves exactly the membership the chain has: an adapter is enabled when
    the last event of the vault that names it added it, a market is listed
    when the last allocation the adapter reported for it is not zero, and an
    operation is pending when it was submitted and neither revoked nor
    accepted since. *)
Theorem topology_refines_events t events :
  topology_wf t ->
  (forall a, enabled (replay t events) a = foldl (chain_enabled (ti_vault t) a) (enabled t a) events) /\
  (forall a m, listed (replay t events) a m = foldl (chain_listed a m) (listed t a m) events) /\
  (forall id, pending (replay t events) id = foldl (chain_pending (ti_vault t) id) (pending t id) events).
Proof.
  revert t. induction events as [|[[source event] location] events IH]; intros t Hw; [done|].
  cbn [replay foldl]. destruct (apply_event_keeps source event location t Hw) as [Hw' G].
  destruct (IH _ Hw') as (He & Hl & Hp). rewrite (gr_vault _ _ G) in He, Hp.
  split_and!; intros; rewrite <- ?event_enabled, <- ?event_pending.
  - apply He.
  - rewrite <- event_listed by done. apply Hl.
  - apply Hp.
Qed.

End Invariant.

(** ** Reconciliation *)

Lemma enable_each_Ok l t t1 :
  topo_each enable_adapter l t = (Ok tt, t1) ->
  forall a, (a ∈ l -> is_Some (ti_adapters t1 !! a)) /\ enabled t1 a = bool_decide (a ∈ l) || enabled t a.
Proof.
  revert t. induction l as [|b l IH]; intros t; cbn.
  - intros [= <-] a. split; [by intros ?%elem_of_nil|]. done.
  - unfold topo_then, enable_adapter at 1. destruct (ti_adapters t !! b) as [e|] eqn:Eb; [|done].
    cbn. intros H a. destruct (IH _ H a) as [Hs He]. split.
    + intros [->|Hin]%elem_of_cons; [|by apply Hs]. apply not_eq_None_Some. intros En.
      unfold enabled in He. cbn in He. rewrite En, lookup_insert_eq in He. cbn in He.
      by rewrite orb_true_r in He.
    + rewrite He. unfold enabled. cbn. destruct (decide (a = b)) as [->|Hn].
      * rewrite lookup_insert_eq, Eb. cbn. rewrite orb_true_r.
        by rewrite bool_decide_eq_true_2 by by left.
      * rewrite lookup_insert_ne by done. f_equal. apply bool_decide_ext. rewrite elem_of_cons. tauto.
Qed.

(** What the second loop leaves of an entry. *)
Definition reconciled_entry (set : gset AdapterAddress) (markets : gmap AdapterAddress (list MarketId))
    (a : AdapterAddress) (e e' : AdapterTopology) : Prop :=
  at_currently_enabled e' = at_currently_enabled e && bool_decide (a ∈ set) /\
  markets !! a = Some (at_current_market_ids e').

Lemma reconcile_adapter_Ok set markets block a t t' :
  reconcile_adapter set markets block a t = (Ok tt, t') ->
  (forall b, b <> a -> ti_adapters t' !! b = ti_adapters t !! b) /\
  match ti_adapters t !! a with
  | Some e => exists e', ti_adapters t' !! a = Some e' /\ reconciled_entry set markets a e e'
  | None => ti_adapters t' !! a = None
  end.
Proof.
  unfold reconcile_adapter. destruct (ti_adapters t !! a) as [e|] eqn:E.
  2:{ intros [= <-]. by rewrite E. }
  cbv zeta. destruct (markets !! a) as [exact|] eqn:Em; [|done]. case_match; [|done].
  intros [= <-]. cbn. split; [intros b Hb; by rewrite lookup_insert_ne|].
  rewrite lookup_insert_eq. eexists. split; [done|]. split; cbn; [|by rewrite Em].
  case_bool_decide; cbn; destruct (at_currently_enabled e) eqn:Ee; cbn; by rewrite ?Ee.
Qed.

Lemma reconcile_each_Ok set markets block keys t t' :
  NoDup keys -> topo_each (reconcile_adapter set markets block) keys t = (Ok tt, t') ->
  forall a, match ti_adapters t !! a with
    | Some e => if decide (a ∈ keys)
                then exists e', ti_adapters t' !! a = Some e' /\ reconciled_entry set markets a e e'
                else ti_adapters t' !! a = Some e
    | None => ti_adapters t' !! a = None
    end.
Proof.
  intros Hd. revert t. induction Hd as [|k keys Hk Hd IH]; intros t; cbn.
  - intros [= <-] a. destruct (ti_adapters t !! a) eqn:E; [|done].
    by rewrite decide_False by apply not_elem_of_nil.
  - unfold topo_then. destruct (reconcile_adapter set markets block k t) as [[[]|] t1] eqn:E1; [|done].
    intros H a. apply reconcile_adapter_Ok in E1 as [Hne Hk1]. specialize (IH _ H a).
    destruct (decide (a = k)) as [->|Hn].
    + destruct (ti_adapters t !! k) as [e|].
      * rewrite decide_True by by left. destruct Hk1 as (e' & He' & Hr). rewrite He' in IH.
        rewrite decide_False in IH by done. by exists e'.
      * by rewrite Hk1 in IH.
    + rewrite (Hne a Hn) in IH. destruct (ti_adapters t !! a) as [e|]; [|done].
      destruct (decide (a ∈ keys)).
      * by rewrite decide_True by by right.
      * rewrite decide_False; [done|]. by intros [?|?]%elem_of_cons.
Qed.

(** An accepted reconciliation leaves exactly the membership that was read. *)
Theorem reconcile_exact_sound adapters markets block t t' :
  reconcile_exact adapters markets block t = (Ok tt, t') ->
  (forall a, enabled t' a = bool_decide (a ∈ adapters)) /\
  (forall a e, ti_adapters t' !! a = Some e -> markets !! a = Some (at_current_market_ids e)).
Proof.
  unfold reconcile_exact, topo_then at 1.
  destruct (topo_each enable_adapter adapters t) as [[[]|] t1] eqn:E1; [|done]. intros H.
  pose proof (enable_each_Ok _ _ _ E1) as Hen.
  pose proof (reconcile_each_Ok _ _ _ _ _ _ (NoDup_btree_keys _) H) as Hre. split.
  - intros a. specialize (Hre a). destruct (Hen a) as [Hs He]. unfold enabled in He |- *.
    destruct (ti_adapters t1 !! a) as [e|] eqn:Ea.
    + rewrite decide_True in Hre by by apply elem_of_btree_keys.
      destruct Hre as (e' & -> & -> & _). rewrite He.
      rewrite (bool_decide_ext (a ∈ (list_to_set adapters : gset _)) (a ∈ adapters))
        by apply elem_of_list_to_set.
      case_bool_decide; cbn; [done|]. by rewrite andb_false_r.
    + rewrite Hre, bool_decide_eq_false_2; [done|]. intros [? ?]%Hs. congruence.
  - intros a e Ha. specialize (Hre a). destruct (ti_adapters t1 !! a) as [e1|] eqn:Ea; [|congruence].
    rewrite decide_True in Hre by by apply elem_of_btree_keys.
    destruct Hre as (e' & He' & _ & Hm). congruence.
Qed.

(** ** A replayed topology

    A vault with one configured adapter: events that add an adapter, list and
    unlist markets, submit and accept an administrative call, and a
    reconciliation; the applications of the theorems of [TopologyProofs]. *)

Module TopologyExample.

#[local] Existing Instance sum_keccak.

(** Selector 9 is [addAdapter] of the fifth byte; nothing else decodes. *)
#[local] Instance brief_admin : AdminAbi := {|
  vault_call_decode data :=
    match data with [0; 0; 0; 9; account] => Some (VaultCall.addAdapter account) | _ => None end;
  vault_call_encode call :=
    match call with VaultCall.addAdapter account => [0; 0; 0; 9; account] | _ => [] end;
  adapter_call_decode _ := None;
  adapter_call_encode _ := [];
  operation_encode '(target, data) := target :: data;
  topology_to_json t := Some (ti_vault t :: btree_keys (ti_adapters t));
|}.

Definition at_block (block : Z) : EventLocation := mkEventLocation block (1000 + block).
Definition vault_event (block : Z) (event : IVaultV2Events)
    : EventSource * ProtocolEvent * EventLocation :=
  (SourceVault 100, EventVault event, at_block block).
Definition adapter_event (adapter block : Z) (event : IMorphoMarketV1AdapterV2Events)
    : EventSource * ProtocolEvent * EventLocation :=
  (SourceAdapter adapter, EventAdapter event, at_block block).

Definition configured_index : TopologyIndex := new_index 100 1 [10] [(10, 50, 500)].

(** The second adapter is submitted, accepted and added, market 50 is entered
    and left, market 51 is entered, and an unknown operation is revoked. *)
Definition events : list (EventSource * ProtocolEvent * EventLocation) :=
  [vault_event 2 (VaultEvent.AddAdapter 10);
   adapter_event 10 3 (AdapterEvent.Allocate 50 700 700);
   vault_event 4 (VaultEvent.Submit [0; 0; 0; 9] [0; 0; 0; 9; 11] 99);
   adapter_event 10 5 (AdapterEvent.Allocate 51 20 20);
   vault_event 6 (VaultEvent.Accept [0; 0; 0; 9] [0; 0; 0; 9; 11]);
   vault_event 6 (VaultEvent.AddAdapter 11);
   adapter_event 10 7 (AdapterEvent.Deallocate 50 0 700);
   vault_event 8 (VaultEvent.Revoke 1 [0; 0; 0; 9] [0; 0; 0; 9; 12]);
   vault_event 9 (VaultEvent.Submit [0; 0; 0; 9] [0; 0; 0; 9; 13] 120)].

Definition replay_op (occurrence : EventSource * ProtocolEvent * EventLocation) : TopologyOp :=
  let '(source, event, location) := occurrence in ReplayEvent source event location.

Definition exact_markets : gmap AdapterAddress (list MarketId) := {[10 := [51]; 11 := []]}.

Lemma exact_markets_ok : exact_reads exact_markets.
Proof.
  unfold exact_reads, exact_markets.
  apply map_Forall_insert_2; [|apply map_Forall_singleton];
    repeat first [apply NoDup_nil_2 | apply NoDup_cons_2 | apply not_elem_of_nil].
Qed.

(** Replay and reconciliation agree on the example. *)
Lemma topology_replay_invariant_witness :
  let before := run_ops configured_index (replay_op <$> take 5 events) in
  let after := run_ops before ((replay_op <$> drop 5 events) ++ [ReconcileExact [10; 11] exact_markets 9]) in
  (topology_wf after /\ grows before after) /\
  (apply_op (ReconcileExact [10; 11] exact_markets 9) (replay configured_index events)).1 = Ok tt /\
  (at_current_market_ids <$> ti_adapters after !! 10) = Some [51].
Proof.
  cbv zeta. split; [|by vm_compute].
  apply (topology_replay_invariant 100 1 [10] [(10, 50, 500)]).
  - repeat constructor.
  - repeat apply Forall_cons_2; try exact I; [exact exact_markets_ok|constructor].
Defined.

Lemma topology_refines_events_witness :
  ((forall a, enabled (replay configured_index events) a = foldl (chain_enabled 100 a) (enabled configured_index a) events) /\
   (forall a m, listed (replay configured_index events) a m = foldl (chain_listed a m) (listed configured_index a m) events) /\
   (forall id, pending (replay configured_index events) id = foldl (chain_pending 100 id) (pending configured_index id) events)) /\
  (enabled (replay configured_index events) 11, listed (replay configured_index events) 10 50,
   listed (replay configured_index events) 10 51,
   pending (replay configured_index events) (pending_operation_id 100 [0; 0; 0; 9; 11]),
   pending (replay configured_index events) (pending_operation_id 100 [0; 0; 0; 9; 13]))
  = (true, false, true, false, true).
Proof.
  split; [|by vm_compute].
  apply (topology_refines_events configured_index events). apply new_index_wf.
Defined.

(** The effect of the operation that is still pending. *)
Example pending_effect :
  (pa_effect <$> ti_pending_operations (replay configured_index events) !! pending_operation_id 100 [0; 0; 0; 9; 13])
  = Some (AdapterMembership 13 true).
Proof. by vm_compute. Qed.

End TopologyExample.
