(* ===== verification/Capability.v ===== *)
(** * Vault capabilities

    [state/capability.rs]: the fail-closed classification of what may be done
    with a vault, with its reasons, and the proof that every reason and every
    flag is exact. *)
From Stdlib Require Import ZArith Lia.
From stdpp Require Import base gmap sets strings list.
From S2P Require Import Prelude.
From S2P Require Import Domain.
From S2P Require Import Config.
From S2P Require Import SimulatorProofs.
Open Scope Z_scope.

Module CapabilityReason.
Inductive CapabilityReason : Type :=
  | UnsupportedGate
  | ParentSeedInsufficient
  | MarketSeedInsufficient
  | RewardPolicyNotReady
  | AccountingShareDeficit
  | DonationClassificationMismatch
  | RemovedAdapterUnresolved
  | UnlistedInternalValue
  | PositionSyncRequired
  | PendingAdministration
  | IdleLockUnverified
  | RateEpisodeUnverified
  | LiquidityAdapterUnsupported
  | AllocatorRoleMissing.
#[global] Instance CapabilityReason_eq_dec : EqDecision CapabilityReason.
Proof. solve_decision. Defined.

Definition index (r : CapabilityReason) : nat :=
  match r with
  | UnsupportedGate => 0 | ParentSeedInsufficient => 1 | MarketSeedInsufficient => 2
  | RewardPolicyNotReady => 3 | AccountingShareDeficit => 4 | DonationClassificationMismatch => 5
  | RemovedAdapterUnresolved => 6 | UnlistedInternalValue => 7 | PositionSyncRequired => 8
  | PendingAdministration => 9 | IdleLockUnverified => 10 | RateEpisodeUnverified => 11
  | LiquidityAdapterUnsupported => 12 | AllocatorRoleMissing => 13
  end.
Definition of_index (n : nat) : CapabilityReason :=
  match n with
  | 0 => UnsupportedGate | 1 => ParentSeedInsufficient | 2 => MarketSeedInsufficient
  | 3 => RewardPolicyNotReady | 4 => AccountingShareDeficit | 5 => DonationClassificationMismatch
  | 6 => RemovedAdapterUnresolved | 7 => UnlistedInternalValue | 8 => PositionSyncRequired
  | 9 => PendingAdministration | 10 => IdleLockUnverified | 11 => RateEpisodeUnverified
  | 12 => LiquidityAdapterUnsupported | _ => AllocatorRoleMissing
  end%nat.
#[global] Instance CapabilityReason_countable : Countable CapabilityReason.
Proof. refine (inj_countable' index of_index _). by intros []. Defined.
End CapabilityReason.
Notation CapabilityReason := CapabilityReason.CapabilityReason.

Inductive VaultAutomationState : Type := AutomationReady | PausedUnsupportedConfiguration.

Record CapabilityReport : Type := mkCapabilityReport {
  cy_capabilities : VaultCapabilities;
  cy_state : VaultAutomationState;
  cy_reasons : gset CapabilityReason;
}.

Record CapabilityInputs : Type := mkCapabilityInputs {
  ci_config : ValidatedVaultConfig;
  ci_strategy : ValidatedStrategyConfig;
  ci_parent : ParentVaultState;
  ci_adapters : gmap AdapterAddress DirectAdapterState;
  ci_liquidity_adapter : option VaultV1LiquidityAdapterState;
  ci_positions : gmap PositionKey DirectMarketPositionState;
  ci_markets : gmap MarketId StoredMarketState;
  ci_caps : gmap CapRef CapState;
  ci_enabled_adapters : gset AdapterAddress;
  ci_pending_admin : list PendingAdminOperation;
  ci_administrative_horizon_timestamp : Z;
  ci_expected_inclusion_timestamp : Z;
  ci_lock_ledger_verified : bool;
  ci_unattributed_idle_assets : Z;
  ci_rate_episode_state_verified : bool;
}.

Inductive CapabilityError : Type := ParentSeedOverflow | RewardHorizonOverflow.

Definition required_parent_dead_shares (virtual_shares : Z) : result CapabilityError Z :=
  scaled ← ok_or (checked_mul U256_MAX virtual_shares 1000000) ParentSeedOverflow;
  Ok (Z.max scaled 1000000000).

Definition configured_position (config : ValidatedVaultConfig) (key : PositionKey)
    : option ValidatedPositionConfig :=
  find (fun position => pc_position_key position =? key) (vv_positions config).

Definition position_is_destination (position : DirectMarketPositionState)
    (caps : gmap CapRef CapState) : bool :=
  forallb (fun reference => match caps !! reference with
                            | Some cap => 0 <? cs_absolute_cap cap
                            | None => false
                            end) (affected_caps_list position).

Definition reward_policy_ready (policy : RewardPolicy) (required_through : Z) : bool :=
  match policy with
  | NoMaterialRewards _ valid_until_timestamp evidence_hash =>
      (required_through <=? valid_until_timestamp) && negb (evidence_hash =? 0)
  | IgnoreRewardsByCuratorMandate policy_revision => negb (policy_revision =? 0)
  | Modeled _ _ => false
  | FixedUntilModeled => false
  end.

Definition planning_relevant (effect : AdminEffect) : bool :=
  match effect with
  | CuratorChange _ | SentinelMembership _ _ | TimelockChange _ _ _ | Abdicate _ => false
  | _ => true
  end.

(** ** The loop over the positions *)

Record PositionScan : Type := mkPositionScan {
  ps_reasons : gset CapabilityReason;
  ps_reward_ready : bool;
  ps_market_seed_ready : bool;
  ps_hard_accounting_pause : bool;
  ps_has_sync_required : bool;
}.

Definition note (cond : bool) (reason : CapabilityReason) (reasons : gset CapabilityReason)
    : gset CapabilityReason := if cond then {[reason]} ∪ reasons else reasons.

Definition share_deficit (position : DirectMarketPositionState) : bool :=
  dp_actual_morpho_supply_shares position <? dp_internal_supply_shares position.
Definition donation_mismatch (position : DirectMarketPositionState) : bool :=
  negb (share_deficit position)
  && negb (default 0 (checked_sub (dp_actual_morpho_supply_shares position)
                        (dp_internal_supply_shares position))
           =? dp_ignored_donation_shares position).
Definition unlisted_value (input : CapabilityInputs) (position : DirectMarketPositionState) : bool :=
  negb match ci_adapters input !! dp_adapter position with
       | Some adapter => bool_decide (dp_market_id position ∈ da_current_market_ids adapter)
       | None => false
       end
  && negb (dp_internal_supply_shares position =? 0) && negb (dp_expected_assets position =? 0).
Definition sync_required (position : DirectMarketPositionState) : bool :=
  bool_decide (dp_mode position = SyncRequired).
Definition reward_missing (reward_horizon : Z) (position : DirectMarketPositionState) : bool :=
  bool_decide (dp_mode position = Active)
  && negb (reward_policy_ready (dp_reward_policy position) reward_horizon).

Definition market_ready (input : CapabilityInputs) (position : DirectMarketPositionState) : bool :=
  match ci_markets input !! dp_market_id position with
  | None => false
  | Some market =>
      let configured := configured_position (ci_config input) (dp_position_key position) in
      (from_option pc_minimum_destination_market_supply_assets U256_MAX configured
       <=? sm_total_supply_assets market)
      && (from_option pc_minimum_destination_market_supply_shares U256_MAX configured
          <=? sm_total_supply_shares market)
      && (sm_irm market =? mp_irm (dp_market_params position))
      && (vv_minimum_market_dead_supply_shares (ci_config input)
          <=? dp_market_dead_supply_shares position)
  end.
Definition seed_missing (input : CapabilityInputs) (position : DirectMarketPositionState) : bool :=
  bool_decide (dp_mode position = Active) && position_is_destination position (ci_caps input)
  && negb (market_ready input position).

Definition scan_position (input : CapabilityInputs) (reward_horizon : Z) (scan : PositionScan)
    (position : DirectMarketPositionState) : PositionScan :=
  let deficit := share_deficit position in
  let mismatch := donation_mismatch position in
  let unlisted := unlisted_value input position in
  let sync := sync_required position in
  let reward := reward_missing reward_horizon position in
  let seed := seed_missing input position in
  mkPositionScan
    (note seed CapabilityReason.MarketSeedInsufficient
       (note reward CapabilityReason.RewardPolicyNotReady
          (note sync CapabilityReason.PositionSyncRequired
             (note unlisted CapabilityReason.UnlistedInternalValue
                (note mismatch CapabilityReason.DonationClassificationMismatch
                   (note deficit CapabilityReason.AccountingShareDeficit (ps_reasons scan)))))))
    (ps_reward_ready scan && negb reward) (ps_market_seed_ready scan && negb seed)
    (ps_hard_accounting_pause scan || deficit || mismatch || unlisted)
    (ps_has_sync_required scan || sync).

(** A removed adapter that still accounts for value. *)
Definition adapter_unresolved (input : CapabilityInputs) (entry : AdapterAddress * DirectAdapterState)
    : bool :=
  let '(address, adapter) := entry in
  let dust := vv_maximum_rounding_dust_assets (ci_config input) in
  negb (bool_decide (address ∈ ci_enabled_adapters input))
  && (existsb (fun position =>
        (dp_adapter position =? address)
        && (negb (dp_internal_supply_shares position =? 0)
            || (dust <? dp_expected_assets position)
            || negb (dp_parent_recorded_market_allocation position =? 0)
            || negb (dp_actual_morpho_supply_shares position =? dp_ignored_donation_shares position)))
        (btree_values (ci_positions input))
      || (dust <? da_real_assets adapter)).

Section Classify.
Context `{HA : AbiParams}.

Definition liquidity_supported (input : CapabilityInputs) : bool :=
  let config := ci_config input in
  let parent := ci_parent input in
  if vv_require_supported_nonzero_liquidity_adapter config then
    match vv_liquidity_adapter config, ci_liquidity_adapter input with
    | Some configured, Some state =>
        (la_adapter state =? lac_address configured)
        && (pv_liquidity_adapter parent =? lac_address configured)
        && bool_decide (pv_liquidity_data parent = [])
        && bool_decide (lac_address configured ∈ ci_enabled_adapters input)
    | _, _ =>
        existsb (fun position =>
          (dp_adapter position =? pv_liquidity_adapter parent)
          && bool_decide (encode_adapter_data (dp_market_params position) = pv_liquidity_data parent)
          && bool_decide (dp_adapter position ∈ ci_enabled_adapters input))
          (btree_values (ci_positions input))
    end
  else true.

Definition gates_are_zero (parent : ParentVaultState) : bool :=
  (pv_receive_shares_gate parent =? 0) && (pv_send_shares_gate parent =? 0)
  && (pv_receive_assets_gate parent =? 0) && (pv_send_assets_gate parent =? 0).

Definition classify_capabilities (input : CapabilityInputs)
    : result CapabilityError CapabilityReport :=
  let config := ci_config input in
  let parent := ci_parent input in
  let gates := gates_are_zero parent in
  let reasons := note (vv_require_zero_gates config && negb gates) CapabilityReason.UnsupportedGate ∅ in
  required_dead_shares ← required_parent_dead_shares (pv_virtual_shares parent);
  let parent_seed_ready :=
    (pv_required_dead_shares parent =? required_dead_shares)
    && (pv_dead_address parent =? vv_required_vault_dead_address config)
    && (required_dead_shares <=? pv_dead_share_balance parent) in
  let reasons := note (negb parent_seed_ready) CapabilityReason.ParentSeedInsufficient reasons in
  reward_horizon ← ok_or (checked_add U64_MAX (ci_expected_inclusion_timestamp input)
                            (sg_benefit_horizon_seconds (ci_strategy input))) RewardHorizonOverflow;
  let scan := foldl (scan_position input reward_horizon)
    (mkPositionScan reasons true true false false) (btree_values (ci_positions input)) in
  let unresolved := existsb (adapter_unresolved input) (btree_entries (ci_adapters input)) in
  let hard_accounting_pause := ps_hard_accounting_pause scan || unresolved in
  let pending_relevant :=
    existsb (fun operation =>
      (pa_executable_at operation <=? ci_administrative_horizon_timestamp input)
      && planning_relevant (pa_effect operation)) (ci_pending_admin input) in
  let lock_ready := ci_lock_ledger_verified input
    && (negb (vv_unattributed_idle_fail_closed config) || (ci_unattributed_idle_assets input =? 0)) in
  let liquidity_adapter_supported := liquidity_supported input in
  let allocator_ready := bool_decide (vv_signer_address config ∈ pv_approved_allocators parent) in
  let reasons :=
    note (negb allocator_ready) CapabilityReason.AllocatorRoleMissing
      (note (negb liquidity_adapter_supported) CapabilityReason.LiquidityAdapterUnsupported
         (note (negb (ci_rate_episode_state_verified input)) CapabilityReason.RateEpisodeUnverified
            (note (negb lock_ready) CapabilityReason.IdleLockUnverified
               (note pending_relevant CapabilityReason.PendingAdministration
                  (note unresolved CapabilityReason.RemovedAdapterUnresolved (ps_reasons scan)))))) in
  let strict_execution_ready :=
    gates && parent_seed_ready && ps_market_seed_ready scan && ps_reward_ready scan
    && negb hard_accounting_pause && negb pending_relevant && lock_ready
    && ci_rate_episode_state_verified input && liquidity_adapter_supported && allocator_ready in
  let supported_deallocation := gates && negb hard_accounting_pause && negb pending_relevant in
  Ok (mkCapabilityReport
        (mkVaultCapabilities true (negb hard_accounting_pause)
           (strict_execution_ready && negb (ps_has_sync_required scan)) supported_deallocation
           (gates && parent_seed_ready) (gates && negb hard_accounting_pause) lock_ready
           (parent_seed_ready && ps_market_seed_ready scan) (ps_reward_ready scan)
           (ci_rate_episode_state_verified input))
        (if hard_accounting_pause then PausedUnsupportedConfiguration else AutomationReady)
        reasons).

End Classify.

(** ** What the capability flags mean

    Theorems about [Capability]: which reasons are recorded, and which flags
    they disable. *)

Lemma elem_of_note cond reason reasons r :
  r ∈ note cond reason reasons <-> (cond = true /\ r = reason) \/ r ∈ reasons.
Proof. unfold note. destruct cond; set_solver. Qed.

Lemma note_same cond r reasons : r ∈ note cond r reasons <-> cond = true \/ r ∈ reasons.
Proof. rewrite elem_of_note. naive_solver. Qed.

Lemma note_other cond reason reasons r : r <> reason -> r ∈ note cond reason reasons <-> r ∈ reasons.
Proof. rewrite elem_of_note. naive_solver. Qed.

(** Reduces the membership of a given reason to its own condition. *)
Ltac reason_step :=
  repeat first [rewrite note_same | rewrite note_other by discriminate].

Lemma all_reasons (P : CapabilityReason -> Prop) :
  (forall r, P r) <->
  (P CapabilityReason.UnsupportedGate /\ P CapabilityReason.ParentSeedInsufficient /\
   P CapabilityReason.MarketSeedInsufficient /\ P CapabilityReason.RewardPolicyNotReady /\
   P CapabilityReason.AccountingShareDeficit /\ P CapabilityReason.DonationClassificationMismatch /\
   P CapabilityReason.RemovedAdapterUnresolved) /\
  P CapabilityReason.UnlistedInternalValue /\ P CapabilityReason.PositionSyncRequired /\
  P CapabilityReason.PendingAdministration /\ P CapabilityReason.IdleLockUnverified /\
  P CapabilityReason.RateEpisodeUnverified /\ P CapabilityReason.LiquidityAdapterUnsupported /\
  P CapabilityReason.AllocatorRoleMissing.
Proof. split; [intros H; split_and!; apply H|]. intros H r. destruct_and!. by destruct r. Qed.

Section Exact.
Context `{HA : AbiParams} (input : CapabilityInputs).
Let config := ci_config input.
Let parent := ci_parent input.
Let positions := btree_values (ci_positions input).

(** The reason a position gives. *)
Definition position_reason (horizon : Z) (r : CapabilityReason) (p : DirectMarketPositionState) : bool :=
  match r with
  | CapabilityReason.AccountingShareDeficit => share_deficit p
  | CapabilityReason.DonationClassificationMismatch => donation_mismatch p
  | CapabilityReason.UnlistedInternalValue => unlisted_value input p
  | CapabilityReason.PositionSyncRequired => sync_required p
  | CapabilityReason.RewardPolicyNotReady => reward_missing horizon p
  | CapabilityReason.MarketSeedInsufficient => seed_missing input p
  | _ => false
  end.

Definition parent_seed_ready (required : Z) : bool :=
  (pv_required_dead_shares parent =? required)
  && (pv_dead_address parent =? vv_required_vault_dead_address config)
  && (required <=? pv_dead_share_balance parent).
Definition administration_pending : bool :=
  existsb (fun operation =>
    (pa_executable_at operation <=? ci_administrative_horizon_timestamp input)
    && planning_relevant (pa_effect operation)) (ci_pending_admin input).
Definition locks_ready : bool :=
  ci_lock_ledger_verified input
  && (negb (vv_unattributed_idle_fail_closed config) || (ci_unattributed_idle_assets input =? 0)).

(** Whether a reason holds of the inputs. *)
Definition reason_holds (required horizon : Z) (r : CapabilityReason) : bool :=
  match r with
  | CapabilityReason.UnsupportedGate => vv_require_zero_gates config && negb (gates_are_zero parent)
  | CapabilityReason.ParentSeedInsufficient => negb (parent_seed_ready required)
  | CapabilityReason.RemovedAdapterUnresolved =>
      existsb (adapter_unresolved input) (btree_entries (ci_adapters input))
  | CapabilityReason.PendingAdministration => administration_pending
  | CapabilityReason.IdleLockUnverified => negb locks_ready
  | CapabilityReason.RateEpisodeUnverified => negb (ci_rate_episode_state_verified input)
  | CapabilityReason.LiquidityAdapterUnsupported => negb (liquidity_supported input)
  | CapabilityReason.AllocatorRoleMissing =>
      negb (bool_decide (vv_signer_address config ∈ pv_approved_allocators parent))
  | _ => existsb (position_reason horizon r) positions
  end.

Lemma scan_spec horizon l scan :
  let scan' := foldl (scan_position input horizon) scan l in
  (forall r, r ∈ ps_reasons scan' <->
     r ∈ ps_reasons scan \/ existsb (position_reason horizon r) l = true) /\
  ps_reward_ready scan' = ps_reward_ready scan && negb (existsb (reward_missing horizon) l) /\
  ps_market_seed_ready scan' = ps_market_seed_ready scan && negb (existsb (seed_missing input) l) /\
  ps_hard_accounting_pause scan'
    = ps_hard_accounting_pause scan || existsb share_deficit l || existsb donation_mismatch l
      || existsb (unlisted_value input) l /\
  ps_has_sync_required scan' = ps_has_sync_required scan || existsb sync_required l.
Proof.
  revert scan. induction l as [|p l IH]; intros scan; cbn [foldl existsb].
  { cbv zeta. rewrite !andb_true_r, !orb_false_r. split; [|done]. intros r. naive_solver. }
  destruct (IH (scan_position input horizon scan p)) as (Hr & H1 & H2 & H3 & H4). cbv zeta.
  rewrite H1, H2, H3, H4. split.
  - intros r. rewrite Hr. unfold scan_position. cbv zeta. cbn [ps_reasons].
    rewrite orb_true_iff. destruct r; cbn [position_reason]; reason_step; intuition congruence.
  - unfold scan_position. cbn. rewrite !negb_orb, !andb_assoc. split_and!; [done|done| |by rewrite orb_assoc].
    destruct (ps_hard_accounting_pause scan), (share_deficit p), (donation_mismatch p),
      (unlisted_value input p), (existsb share_deficit l), (existsb donation_mismatch l); done.
Qed.

(** Whether some position gives a reason, by the reason. *)
Lemma position_reasons horizon l r :
  existsb (position_reason horizon r) l =
  match r with
  | CapabilityReason.AccountingShareDeficit => existsb share_deficit l
  | CapabilityReason.DonationClassificationMismatch => existsb donation_mismatch l
  | CapabilityReason.UnlistedInternalValue => existsb (unlisted_value input) l
  | CapabilityReason.PositionSyncRequired => existsb sync_required l
  | CapabilityReason.RewardPolicyNotReady => existsb (reward_missing horizon) l
  | CapabilityReason.MarketSeedInsufficient => existsb (seed_missing input) l
  | _ => false
  end.
Proof. induction l as [|p l IH]; [by destruct r|]. cbn [existsb]. rewrite IH. by destruct r. Qed.

Definition accounting_reasons : list CapabilityReason :=
  [CapabilityReason.AccountingShareDeficit; CapabilityReason.DonationClassificationMismatch;
   CapabilityReason.UnlistedInternalValue; CapabilityReason.RemovedAdapterUnresolved].

Lemma accounting_holds required horizon :
  (exists r, r ∈ accounting_reasons /\ reason_holds required horizon r = true) <->
  existsb share_deficit positions || existsb donation_mismatch positions
  || existsb (unlisted_value input) positions
  || existsb (adapter_unresolved input) (btree_entries (ci_adapters input)) = true.
Proof.
  unfold accounting_reasons. setoid_rewrite elem_of_cons. setoid_rewrite elem_of_cons.
  setoid_rewrite elem_of_cons. setoid_rewrite list_elem_of_singleton. rewrite !orb_true_iff.
  split.
  - intros (r & Hin & Hr). destruct Hin as [-> | [-> | [-> | ->]]]; cbn [reason_holds] in Hr;
      rewrite ?position_reasons in Hr; auto.
  - intros [[[H|H]|H]|H]; eexists; split;
      [by left| |by right; left| |by right; right; left| |by right; right; right|];
      cbn [reason_holds]; rewrite ?position_reasons; exact H.
Qed.

(** C28: The classification is exact: it fails only when the dead-share formula
    or the reward horizon overflows, it records a reason exactly when the
    condition of the reason holds of the vault, allocation is enabled exactly
    when no reason is recorded and every gate is zero, the vault is paused
    exactly when an accounting reason is recorded, and deallocation is enabled
    exactly when it is not paused, no gate is set and no relevant
    administration is pending. *)
Theorem capabilities_exact :
  match required_parent_dead_shares (pv_virtual_shares parent),
        checked_add U64_MAX (ci_expected_inclusion_timestamp input)
          (sg_benefit_horizon_seconds (ci_strategy input)) with
  | Ok required, Some horizon => exists report,
      classify_capabilities input = Ok report /\
      (forall r, r ∈ cy_reasons report <-> reason_holds required horizon r = true) /\
      (vc_can_allocate (cy_capabilities report) = true <->
         cy_reasons report = ∅ /\ gates_are_zero parent = true) /\
      (cy_state report = PausedUnsupportedConfiguration <->
         exists r, r ∈ accounting_reasons /\ r ∈ cy_reasons report) /\
      (vc_can_deallocate_supported_position (cy_capabilities report) = true <->
         cy_state report = AutomationReady /\ gates_are_zero parent = true /\
         CapabilityReason.PendingAdministration ∉ cy_reasons report)
  | _, _ => exists e, classify_capabilities input = Err e
  end.
Proof.
  unfold classify_capabilities. cbv zeta. fold config parent.
  destruct (required_parent_dead_shares _) as [required|e]; [|by exists e]. cbn [mbind result_bind].
  destruct (checked_add _ _ _) as [horizon|]; [|by exists RewardHorizonOverflow].
  cbn [ok_or mbind result_bind]. eexists. split; [reflexivity|].
  match goal with |- context [foldl _ ?s (btree_values (ci_positions input))] =>
    destruct (scan_spec horizon positions s) as (Hr & Hrew & Hseed & Hpause & Hsync) end.
  fold positions. cbn [ps_reasons ps_reward_ready ps_market_seed_ready ps_hard_accounting_pause
    ps_has_sync_required andb orb] in Hr, Hrew, Hseed, Hpause, Hsync.
  cbn [cy_reasons cy_capabilities cy_state vc_can_allocate vc_can_deallocate_supported_position].
  rewrite Hrew, Hseed, Hpause, Hsync. clear Hrew Hseed Hpause Hsync.
  fold (parent_seed_ready required) administration_pending locks_ready.
  match goal with |- (forall r, r ∈ ?rs <-> _) /\ _ =>
    assert (forall r, r ∈ rs <-> reason_holds required horizon r = true) as Hreasons;
    [|set (reasons := rs) in *] end.
  { intros r. destruct r; cbn [reason_holds]; reason_step; rewrite Hr, ?position_reasons;
      reason_step; rewrite ?elem_of_empty; intuition congruence. }
  split; [exact Hreasons|]. clearbody reasons. clear Hr.
  assert (reasons = ∅ <-> forall r, reason_holds required horizon r = false) as ->.
  { split.
    - intros -> r. apply not_true_iff_false. rewrite <- Hreasons. set_solver.
    - intros Hf. apply set_eq. intros r. rewrite Hreasons, Hf. set_solver. }
  assert (forall r, reason_holds required horizon r = false <-> r ∉ reasons) as Hnot.
  { intros r. by rewrite Hreasons, not_true_iff_false. }
  split; [|split].
  - rewrite all_reasons. cbn [reason_holds]. rewrite !andb_true_iff, !negb_true_iff, !negb_false_iff.
    rewrite !orb_false_iff, andb_false_iff, negb_false_iff. tauto.
  - setoid_rewrite Hreasons. rewrite accounting_holds. fold positions.
    by destruct (_ || existsb (adapter_unresolved input) _).
  - rewrite <- Hnot. cbn [reason_holds].
    rewrite !andb_true_iff, !negb_true_iff. destruct (_ || _); naive_solver.
Qed.

End Exact.
