(* ===== verification/Journal.v ===== *)
(** * The journaled store

    The files behind the storage actor ([storage/actor.rs], [JsonStore]): an
    append-only journal of checksummed patches in segments of 128 records, a
    checkpoint of the state, and a manifest; how a commit writes them and how
    a start reads them back, with the migrations of older formats.

    The file system is explicit.  A call that touches it takes the next entry
    of a schedule of faults: it works, it returns an error, or the process
    dies in it; in the last two cases a write has written any number of its
    bytes, and another call has taken effect or not.  The schedule of the calls
    that append to the journal is kept apart.  Written bytes are durable;
    [sync_all] is a call without an effect of its own.  JSON values, patches and
    their text are library code. *)
From Stdlib Require Import ZArith Lia List Bool String Ascii.
From stdpp Require Import base gmap sets sorting strings pretty list.
From S2P Require Import Prelude.
From S2P Require Import Domain.
From S2P Require Import Models.
From S2P Require Import Storage.
From S2P Require Import Actor.
Open Scope Z_scope.

Definition JOURNAL_SCHEMA_VERSION : Z := 1.
Definition MAX_CHECKPOINT_BYTES : Z := 64 * 1024 * 1024.
Definition MAX_MANIFEST_BYTES : Z := 1024 * 1024.
Definition MAX_JOURNAL_SEGMENT_BYTES : Z := 16 * 1024 * 1024.
Definition MAX_JOURNAL_SEGMENTS : nat := 16.

(** ** The file system *)

Inductive Fault : Type := Works | Fails (n : nat) | Crashes (n : nat).

Record Host : Type := mkHost {
  ho_files : gmap string Bytes;
  ho_journal : gmap string Bytes;
  ho_process_id : Z;
  ho_faults : list Fault;
  ho_append_faults : list Fault;
}.

Inductive Outcome (A : Type) : Type := Returned (r : result StorageError A) | Died.
Arguments Returned {A} r.
Arguments Died {A}.

Definition fs (A : Type) : Type := Host -> Outcome A * Host.
Definition fs_result {A} (r : result StorageError A) : fs A := fun h => (Returned r, h).
#[global] Instance fs_ret : MRet fs := fun A a => fs_result (Ok a).
#[global] Instance fs_bind : MBind fs := fun A B f c h =>
  match c h with
  | (Returned (Ok a), h') => f a h'
  | (Returned (Err e), h') => (Returned (Err e), h')
  | (Died, h') => (Died, h')
  end.
(** The host as a pure call sees it. *)
Definition observing {A} (f : Host -> fs A) : fs A := fun h => f h h.
Fixpoint fs_fold {A B} (f : A -> B -> fs A) (a : A) (l : list B) : fs A :=
  match l with
  | [] => mret a
  | x :: l => a ← f a x; fs_fold f a l
  end.

Definition with_files (h : Host) (files : gmap string Bytes) : Host :=
  mkHost files (ho_journal h) (ho_process_id h) (ho_faults h) (ho_append_faults h).
Definition with_journal (h : Host) (journal : gmap string Bytes) : Host :=
  mkHost (ho_files h) journal (ho_process_id h) (ho_faults h) (ho_append_faults h).

(** One call, under a fault. *)
Definition faulty {A} (fault : option Fault) (works : fs A) (partial : nat -> Host -> Host) : fs A :=
  fun h =>
  match fault with
  | None | Some Works => works h
  | Some (Fails n) => (Returned (Err Io), partial n h)
  | Some (Crashes n) => (Died, partial n h)
  end.
Definition call {A} (works : fs A) (partial : nat -> Host -> Host) : fs A := fun h =>
  faulty (head (ho_faults h)) works partial
    (mkHost (ho_files h) (ho_journal h) (ho_process_id h) (tail (ho_faults h)) (ho_append_faults h)).
Definition append_call {A} (works : fs A) (partial : nat -> Host -> Host) : fs A := fun h =>
  faulty (head (ho_append_faults h)) works partial
    (mkHost (ho_files h) (ho_journal h) (ho_process_id h) (ho_faults h) (tail (ho_append_faults h))).

Definition unchanged (_ : nat) (h : Host) : Host := h.
Definition either (change : Host -> Host) (n : nat) (h : Host) : Host :=
  match n with O => h | S _ => change h end.

(** [create_dir_all], the sync of a directory or file, the opening of a file
    that exists. *)
Definition touch : fs unit := call (mret tt) unchanged.

Definition file_exists (name : string) (h : Host) : bool := bool_decide (is_Some (ho_files h !! name)).
Definition read_file (name : string) : fs Bytes :=
  call (fun h => (Returned (ok_or (ho_files h !! name) Io), h)) unchanged.
Definition create_new (name : string) : fs unit :=
  let create h := with_files h (<[name := []]> (ho_files h)) in
  call (fun h => if file_exists name h then (Returned (Err Io), h) else (Returned (Ok tt), create h))
    (fun n h => if file_exists name h then h else either create n h).
Definition write_all (name : string) (bytes : Bytes) : fs unit :=
  let write bytes h := with_files h (alter (fun content => content ++ bytes) name (ho_files h)) in
  call (fun h => (Returned (Ok tt), write bytes h)) (fun n h => write (take n bytes) h).
Definition rename (from to : string) : fs unit :=
  let moved bytes h := with_files h (<[to := bytes]> (delete from (ho_files h))) in
  call (fun h => match ho_files h !! from with
                 | Some bytes => (Returned (Ok tt), moved bytes h)
                 | None => (Returned (Err Io), h)
                 end)
    (fun n h => match ho_files h !! from with Some bytes => either (moved bytes) n h | None => h end).

Definition segment_exists (name : string) (h : Host) : bool :=
  bool_decide (is_Some (ho_journal h !! name)).
Definition read_segment (name : string) : fs Bytes :=
  call (fun h => (Returned (ok_or (ho_journal h !! name) Io), h)) unchanged.
(** The entries of [read_dir], in the order of the map. *)
Definition read_dir : fs (list string) :=
  call (fun h => (Returned (Ok (fst <$> map_to_list (ho_journal h))), h)) unchanged.
Definition truncate (name : string) (len : Z) : fs unit :=
  let cut h := with_journal h (alter (take (Z.to_nat len)) name (ho_journal h)) in
  call (fun h => (Returned (Ok tt), cut h)) (either cut).
Definition remove_file (name : string) : fs unit :=
  let removed h := with_journal h (delete name (ho_journal h)) in
  call (fun h => if segment_exists name h then (Returned (Ok tt), removed h)
                 else (Returned (Err Io), h)) (either removed).
Definition open_append (name : string) : fs unit :=
  let opened h := if segment_exists name h then h
                  else with_journal h (<[name := []]> (ho_journal h)) in
  append_call (fun h => (Returned (Ok tt), opened h)) (either opened).
Definition append_all (name : string) (bytes : Bytes) : fs unit :=
  let write bytes h := with_journal h (alter (fun content => content ++ bytes) name (ho_journal h)) in
  append_call (fun h => (Returned (Ok tt), write bytes h)) (fun n h => write (take n bytes) h).
Definition append_sync : fs unit := append_call (mret tt) unchanged.

(** ** Names *)

(** The file name of a path, when it has one that is text. *)
Definition Path : Type := option string.

Definition digit_char (d : Z) : ascii := ascii_of_N (Z.to_N (48 + d)).
Definition char_digit (c : ascii) : option Z :=
  let n := Z.of_N (N_of_ascii c) in if (48 <=? n) && (n <=? 57) then Some (n - 48) else None.

(** The format [020] of a [u64], which has at most twenty digits. *)
Fixpoint padded (width : nat) (v : Z) : list ascii :=
  match width with
  | O => []
  | S width => padded width (v / 10) ++ [digit_char (v mod 10)]
  end.

(** [str::parse::<u64>] *)
Definition decimal_value (digits : list ascii) : option Z :=
  opt_fold (fun value c =>
    digit ← char_digit c;
    shifted ← checked_mul U64_MAX value 10;
    checked_add U64_MAX shifted digit) 0 digits.
Definition strip_plus (digits : list ascii) : list ascii :=
  match digits with "+"%char :: rest => rest | _ => digits end.
Definition u64_from_decimal (digits : list ascii) : option Z :=
  match strip_plus digits with [] => None | digits => decimal_value digits end.

Fixpoint strip_prefix (p l : list ascii) : option (list ascii) :=
  match p, l with
  | [], _ => Some l
  | x :: p, y :: l => if bool_decide (x = y) then strip_prefix p l else None
  | _, [] => None
  end.
Definition strip_suffix (p l : list ascii) : option (list ascii) :=
  reverse <$> strip_prefix (reverse p) (reverse l).

Definition segment_name (first : Z) : string :=
  string_of_list_ascii (list_ascii_of_string "segment-" ++ padded 20 first
                        ++ list_ascii_of_string ".jsonl").

Definition journal_segment_start (name : string) : option Z :=
  rest ← strip_prefix (list_ascii_of_string "segment-") (list_ascii_of_string name);
  number ← strip_suffix (list_ascii_of_string ".jsonl") rest;
  u64_from_decimal number.

(** The manifest beside a state file; the journal is a directory of its own. *)
Definition journal_paths (path : Path) : result StorageError Path :=
  filename ← ok_or path (Invariant "JSON state filename is invalid");
  Ok (Some (if bool_decide (filename = "state.json"%string) then "manifest.json"%string
            else (filename +:+ ".manifest.json")%string)).

Definition temporary_name (filename : string) (revision pid : Z) : string :=
  ("." +:+ filename +:+ "." +:+ pretty revision +:+ "." +:+ pretty pid +:+ ".tmp")%string.

Definition persist_atomic_json (path : Path) (encoded : option Bytes) (revision : Z) : fs unit :=
  _ ← touch;
  filename ← fs_result (ok_or path (Invariant "JSON filename is invalid"));
  pid ← observing (fun h => mret (ho_process_id h));
  let temporary := temporary_name filename revision pid in
  bytes ← fs_result (ok_or encoded Json);
  _ ← create_new temporary;
  _ ← write_all temporary bytes;
  _ ← touch;
  _ ← rename temporary filename;
  touch.

(** [declared] is the length the metadata has, read before the bytes. *)
Definition bounded (read : fs Bytes) (maximum : Z) (kind : string) : fs Bytes :=
  declared ← read;
  _ ← fs_result (require (Z.of_nat (length declared) <=? maximum)
                   (InputTooLarge kind (Z.of_nat (length declared)) maximum));
  bytes ← read;
  _ ← fs_result (require (Z.of_nat (length bytes) <=? maximum)
                   (InputTooLarge kind (Z.of_nat (length bytes)) maximum));
  mret bytes.

Definition journal_segment_paths : fs (list string) :=
  names ← read_dir;
  let paths := List.filter (fun name => bool_decide (is_Some (journal_segment_start name))) names in
  _ ← fs_result (require (length paths <=? MAX_JOURNAL_SEGMENTS)%nat
                   (InputTooLarge "journal segment count" (Z.of_nat (S MAX_JOURNAL_SEGMENTS))
                      (Z.of_nat MAX_JOURNAL_SEGMENTS)));
  mret (sort_by_key (fun name => [default U64_MAX (journal_segment_start name)]) paths).

(** ** Records and their text *)

(** [serde_json::Value] and [json_patch]. *)
Class JsonPatch : Type := {
  Value : Type;
  Patch : Type;
  json_diff : Value -> Value -> Patch;
  json_patch : Value -> Patch -> option Value;
}.

Record JournalManifest : Type := mkJournalManifest {
  jm_schema_version : Z;
  jm_checkpoint_revision : Z;
  jm_checkpoint_head_hash : B256;
  jm_journal_revision : Z;
  jm_journal_head_hash : B256;
}.

Record JournalRecord `{HP : JsonPatch} : Type := mkJournalRecord {
  jr_schema_version : Z;
  jr_sequence : Z;
  jr_previous_hash : B256;
  jr_patch : Patch;
  jr_checksum : B256;
}.

(** [serde_json] on the types of the store. *)
Class JournalCodec `{HP : JsonPatch} : Type := {
  state_to_value : JsonState -> option Value;
  state_from_value : Value -> option JsonState;
  state_to_vec : JsonState -> option Bytes;
  state_from_slice : Bytes -> option JsonState;
  manifest_to_vec : JournalManifest -> option Bytes;
  manifest_from_slice : Bytes -> option JournalManifest;
  record_to_vec : JournalRecord -> option Bytes;
  record_from_slice : Bytes -> option JournalRecord;
  checksum_to_vec : Z * Z * B256 * Patch -> option Bytes;
}.

(** Manifests and records can always be written, what is written is read back, a compact line holds no line feed, and a
    difference patches the old value into the new one. *)
Class JournalLaws `{HP : JsonPatch} `{!JournalCodec} : Prop := {
  diff_patches v w : json_patch v (json_diff v w) = Some w;
  value_round_trip s v : state_to_value s = Some v -> state_from_value v = Some s;
  state_round_trip s b : state_to_vec s = Some b -> state_from_slice b = Some s;
  manifest_serializes m : is_Some (manifest_to_vec m);
  manifest_round_trip m b : manifest_to_vec m = Some b -> manifest_from_slice b = Some m;
  record_serializes r : is_Some (record_to_vec r);
  record_round_trip r b :
    record_to_vec r = Some b -> record_from_slice b = Some r /\ 10 ∉ b /\ b <> [];
}.

(** ** Migrations *)

Definition with_format (s : JsonState) (version : Z) : JsonState :=
  mkJsonState version (js_revision s) (js_canonical_blocks s) (js_canonical_logs s)
    (js_canonical_receipts s) (js_chain_cursors s) (js_exact_snapshots s) (js_plans s)
    (js_final_preflights s) (js_transactions s) (js_rate_movement_reservations s)
    (js_transaction_attempts s) (js_conformance_records s) (js_reconciliation_records s)
    (js_topology_history s) (js_rate_episodes s) (js_top_k_apy_memory s).

Definition find_plan (s : JsonState) (id : PlanId) : option V2Plan :=
  tp_plan <$> find (fun entry => pl_plan_id (tp_plan entry) =? id) (js_plans s).

Definition with_created_block (r : NonceReservation) (block : Z) : NonceReservation :=
  mkNonceReservation (nr_transaction_id r) (nr_plan_id r) (nr_vault r) (nr_signer r) (nr_nonce r)
    (nr_calldata r) (nr_calldata_hash r) (nr_max_fee_per_gas r) (nr_max_priority_fee_per_gas r)
    (nr_gas_limit r) (nr_movement_assets r) block (nr_created_at r).
Definition with_movement_assets (r : NonceReservation) (movement : Z) : NonceReservation :=
  mkNonceReservation (nr_transaction_id r) (nr_plan_id r) (nr_vault r) (nr_signer r) (nr_nonce r)
    (nr_calldata r) (nr_calldata_hash r) (nr_max_fee_per_gas r) (nr_max_priority_fee_per_gas r)
    (nr_gas_limit r) movement (nr_created_block r) (nr_created_at r).
Definition with_reservation (row : TransactionRow) (r : NonceReservation) : TransactionRow :=
  mkTransactionRow r (tx_state row) (tx_transaction_hash row) (tx_raw_signed_transaction row)
    (tx_submitted_at row) (tx_included_block row) (tx_included_block_hash row) (tx_updated_at row).
Definition with_signed_block (a : SignedAttemptRecord) (block : Z) : SignedAttemptRecord :=
  mkSignedAttemptRecord (sa_transaction_id a) (sa_kind a) (sa_transaction_hash a)
    (sa_raw_signed_transaction a) (sa_max_fee_per_gas a) (sa_max_priority_fee_per_gas a)
    (sa_signed_at a) block (sa_broadcast_at a) (sa_last_broadcast_block a).

Definition migrate_v1_to_v2 (s : JsonState) : result StorageError JsonState :=
  _ ← require (negb (existsb (fun row => is_unresolved (tx_state row)) (js_transactions s)))
        (Invariant "format-1 state with an unresolved nonce cannot be migrated safely");
  let rows := (fun row =>
    let reservation := tx_reservation row in
    let created := plan_id ← nr_plan_id reservation; plan ← find_plan s plan_id;
                   Some (blk_number (ctx_block (pl_snapshot plan))) in
    with_reservation row (with_created_block reservation (default 0 created))) <$> js_transactions s in
  let attempts := (fun attempt =>
    let row := find (fun row => nr_transaction_id (tx_reservation row) =? sa_transaction_id attempt)
                 rows in
    with_signed_block attempt (from_option (fun row => nr_created_block (tx_reservation row)) 0 row))
    <$> js_transaction_attempts s in
  Ok (with_format (with_attempts (with_transactions s rows) attempts) 2).

(** The movement a transaction is known to have planned. *)
Definition movement_evidence (s : JsonState) (reservation : NonceReservation) : option Z :=
  let id := nr_transaction_id reservation in
  let planned := plan_id ← nr_plan_id reservation; plan ← find_plan s plan_id;
                 Some (pp_movement_assets (pl_projection plan)) in
  let reserved := rm_movement_assets <$>
    find (fun record => rm_transaction_id record =? id) (js_rate_movement_reservations s) in
  let conformed := cf_movement_assets <$>
    find (fun record => cf_transaction_id record =? id) (js_conformance_records s) in
  match planned with
  | Some movement => Some movement
  | None => match reserved with Some movement => Some movement | None => conformed end
  end.

Definition migrate_row (s : JsonState) (rolling_window_start : Z) (row : TransactionRow)
    : result StorageError TransactionRow :=
  let reservation := tx_reservation row in
  if negb (nr_movement_assets reservation =? 0) then Ok row
  else
    match movement_evidence s reservation with
    | Some movement => Ok (with_reservation row (with_movement_assets reservation movement))
    | None =>
        if consumes_rolling_budget (tx_state row) && (rolling_window_start <=? nr_created_at reservation)
        then Err (Invariant "recent transaction lacks movement evidence required for format migration")
        else Ok row
    end.

Fixpoint migrate_rows (s : JsonState) (rolling_window_start : Z) (rows : list TransactionRow)
    : result StorageError (list TransactionRow) :=
  match rows with
  | [] => Ok []
  | row :: rows =>
      row ← migrate_row s rolling_window_start row;
      rows ← migrate_rows s rolling_window_start rows;
      Ok (row :: rows)
  end.

Definition migrate_v2_to_v3 (s : JsonState) (initialization_timestamp : Z)
    : result StorageError JsonState :=
  rows ← migrate_rows s (saturating_sub initialization_timestamp 86400) (js_transactions s);
  Ok (with_format (with_transactions s rows) JSON_FORMAT_VERSION).

(** ** Reading *)

Section Store.
Context `{HK : Keccak} `{HP : JsonPatch} `{HC : !JournalCodec}.

Definition journal_checksum (schema_version sequence : Z) (previous_hash : B256) (patch : Patch)
    : result StorageError B256 :=
  encoded ← ok_or (checksum_to_vec (schema_version, sequence, previous_hash, patch)) Json;
  Ok (keccak256 encoded).

Fixpoint split_inclusive (bytes : Bytes) : list Bytes :=
  match bytes with
  | [] => []
  | x :: bytes =>
      if x =? 10 then [x] :: split_inclusive bytes
      else match split_inclusive bytes with
           | [] => [[x]]
           | chunk :: chunks => (x :: chunk) :: chunks
           end
  end.

(** A last line without a line feed is a write that was cut off: it is removed
    from the file. *)
Fixpoint read_chunks (name : string) (chunks : list Bytes) (offset : Z)
    (records : list JournalRecord) : fs (list JournalRecord) :=
  match chunks with
  | [] => mret records
  | chunk :: chunks =>
      if negb (bool_decide (last chunk = Some 10)) then
        _ ← touch;
        len ← fs_result (ok_or (try_from_u U64_MAX offset) (Invariant "journal offset exceeds u64"));
        _ ← truncate name len;
        _ ← touch;
        mret records
      else
        let payload := removelast chunk in
        records ← (if bool_decide (payload = []) then mret records
                   else record ← fs_result (ok_or (record_from_slice payload) Json);
                        mret (records ++ [record]));
        offset ← fs_result (ok_or (checked_add U64_MAX offset (Z.of_nat (length chunk)))
                              (Invariant "journal offset overflow"));
        read_chunks name chunks offset records
  end.

Definition read_journal_segment (name : string) : fs (list JournalRecord) :=
  bytes ← bounded (read_segment name) MAX_JOURNAL_SEGMENT_BYTES "journal segment";
  read_chunks name (split_inclusive bytes) 0 [].

Definition replay_record (checkpoint_revision : Z) (replayed : JsonState * B256)
    (record : JournalRecord) : result StorageError (JsonState * B256) :=
  let '(state, head_hash) := replayed in
  let sequence := jr_sequence record in
  _ ← require (jr_schema_version record =? JOURNAL_SCHEMA_VERSION)
        (Invariant "journal checksum is invalid");
  checksum ← journal_checksum (jr_schema_version record) sequence (jr_previous_hash record)
               (jr_patch record);
  _ ← require (checksum =? jr_checksum record) (Invariant "journal checksum is invalid");
  if sequence <? checkpoint_revision then Ok (state, head_hash)
  else if sequence =? checkpoint_revision then Ok (state, jr_checksum record)
  else if sequence <=? js_revision state then Ok (state, head_hash)
  else
    _ ← require ((sequence =? saturating_add U64_MAX (js_revision state) 1)
                 && (jr_previous_hash record =? head_hash))
          (Invariant "journal hash chain is discontinuous");
    value ← ok_or (state_to_value state) Json;
    patched ← ok_or (json_patch value (jr_patch record)) (Invariant "journal patch is invalid");
    state ← ok_or (state_from_value patched) Json;
    _ ← require (js_revision state =? sequence) (Invariant "journal revision is inconsistent");
    Ok (state, jr_checksum record).

Definition replay_journal (state : JsonState) (checkpoint_revision : Z) (checkpoint_head_hash : B256)
    : fs (JsonState * B256) :=
  paths ← journal_segment_paths;
  fs_fold (fun replayed path =>
    records ← read_journal_segment path;
    fs_fold (fun replayed record => fs_result (replay_record checkpoint_revision replayed record))
      replayed records) (state, checkpoint_head_hash) paths.

(** ** The store *)

Record JsonStore : Type := mkJsonStore {
  so_path : Path;
  so_manifest_path : Path;
  so_journal_head_hash : B256;
  so_checkpoint_revision : Z;
  so_checkpoint_head_hash : B256;
  so_state : JsonState;
}.

Definition persist (store : JsonStore) (state : JsonState) : fs unit :=
  persist_atomic_json (so_path store) (state_to_vec state) (js_revision state).

Definition persist_manifest (store : JsonStore) : fs unit :=
  let revision := js_revision (so_state store) in
  persist_atomic_json (so_manifest_path store)
    (manifest_to_vec (mkJournalManifest JOURNAL_SCHEMA_VERSION (so_checkpoint_revision store)
                        (so_checkpoint_head_hash store) revision (so_journal_head_hash store)))
    revision.

(** The state of a checkpoint with its flags [migrated] and
    [movement_migration]. *)
Definition load_checkpoint (bytes : Bytes) : result StorageError (JsonState * bool * bool) :=
  state ← ok_or (state_from_slice bytes) Json;
  let version := js_format_version state in
  if version =? JSON_FORMAT_VERSION then Ok (state, false, false)
  else if version =? 1 then
    state ← migrate_v1_to_v2 state; Ok (state, true, true)
  else if version =? 2 then Ok (state, false, true)
  else if version =? 3 then Ok (with_format state JSON_FORMAT_VERSION, true, false)
  else Err (FormatVersion version JSON_FORMAT_VERSION).

Definition manifest_ahead (manifest : JournalManifest) (state : JsonState) (journal_head_hash : B256)
    : bool :=
  (js_revision state <? jm_journal_revision manifest)
  || (jm_journal_revision manifest =? js_revision state)
     && negb (jm_journal_head_hash manifest =? journal_head_hash).

Definition path_exists (path : Path) (h : Host) : bool :=
  match path with Some name => file_exists name h | None => false end.
Definition read_path (path : Path) : fs Bytes :=
  match path with Some name => read_file name | None => fs_result (Err Io) end.

Definition read_manifest (path : Path) : fs (option JournalManifest) :=
  exists_ ← observing (fun h => mret (path_exists path h));
  if exists_ : bool then
    bytes ← bounded (read_path path) MAX_MANIFEST_BYTES "manifest";
    manifest ← fs_result (ok_or (manifest_from_slice bytes) Json);
    mret (Some manifest)
  else mret None.

Definition store_open (path : Path) (initialization_timestamp : Z) : fs JsonStore :=
  checkpoint_exists ← observing (fun h => mret (path_exists path h));
  loaded ← (if checkpoint_exists : bool then
              bytes ← bounded (read_path path) MAX_CHECKPOINT_BYTES "checkpoint";
              fs_result (load_checkpoint bytes)
            else mret (JsonState_default, false, false));
  let '(state, migrated, movement_migration) := loaded in
  manifest_path ← fs_result (journal_paths path);
  _ ← touch;
  manifest ← read_manifest manifest_path;
  _ ← fs_result (require (from_option (fun m => jm_schema_version m =? JOURNAL_SCHEMA_VERSION) true
                            manifest) (Invariant "journal manifest version is unsupported"));
  let checkpoint_revision := js_revision state in
  let checkpoint_head_hash :=
    match manifest with
    | Some m => if jm_checkpoint_revision m =? checkpoint_revision then jm_checkpoint_head_hash m
                else 0
    | None => 0
    end in
  replayed ← replay_journal state checkpoint_revision checkpoint_head_hash;
  let '(state, journal_head_hash) := replayed in
  state ← (if movement_migration : bool then fs_result (migrate_v2_to_v3 state initialization_timestamp)
           else mret state);
  let migrated := migrated || movement_migration in
  _ ← fs_result (require (negb (from_option (fun m => manifest_ahead m state journal_head_hash) false
                                  manifest))
                   (Invariant "journal manifest is ahead of durable records"));
  let store := mkJsonStore path manifest_path journal_head_hash checkpoint_revision
                 checkpoint_head_hash state in
  store ← (if negb checkpoint_exists || migrated then
             _ ← persist store state;
             mret (mkJsonStore path manifest_path journal_head_hash (js_revision state)
                     journal_head_hash state)
           else mret store);
  _ ← persist_manifest store;
  mret store.

(** ** Writing *)

Definition append_journal (record : JournalRecord) : fs unit :=
  first ← fs_result (ok_or (segment ← checked_div (saturating_sub (jr_sequence record) 1)
                                        JOURNAL_SEGMENT_EVENTS;
                            start ← checked_mul U64_MAX segment JOURNAL_SEGMENT_EVENTS;
                            checked_add U64_MAX start 1)
                       (Invariant "journal segment number overflow"));
  let name := segment_name first in
  created ← observing (fun h => mret (negb (segment_exists name h)));
  _ ← open_append name;
  bytes ← fs_result (ok_or (record_to_vec record) Json);
  _ ← append_all name (bytes ++ [10]);
  _ ← append_sync;
  if created : bool then append_sync else mret tt.

Definition prune_checkpointed_segments (store : JsonStore) : fs unit :=
  let retain_from :=
    saturating_add U64_MAX (saturating_sub (so_checkpoint_revision store) JOURNAL_SEGMENT_EVENTS) 1 in
  paths ← journal_segment_paths;
  _ ← fs_fold (fun _ name =>
        match journal_segment_start name with
        | Some first => if first <? retain_from then remove_file name else mret tt
        | None => mret tt
        end) tt paths;
  touch.

(** The state and the record of a mutation. *)
Definition prepare (store : JsonStore) (mutation : JsonState -> result StorageError JsonState)
    : result StorageError (JsonState * JournalRecord) :=
  mutated ← mutation (so_state store);
  next ← commit_next mutated;
  previous ← ok_or (state_to_value (so_state store)) Json;
  current ← ok_or (state_to_value next) Json;
  let patch := json_diff previous current in
  let sequence := js_revision next in
  checksum ← journal_checksum JOURNAL_SCHEMA_VERSION sequence (so_journal_head_hash store) patch;
  Ok (next, mkJournalRecord _ JOURNAL_SCHEMA_VERSION sequence (so_journal_head_hash store) patch
              checksum).

(** The checkpoint, the manifest and the pruning after the append; the store
    is the one in memory, whatever fails. *)
Definition maintain (store : JsonStore) (h : Host) : Outcome unit * JsonStore * Host :=
  let periodic := js_revision (so_state store) mod JOURNAL_SEGMENT_EVENTS =? 0 in
  let finish store h :=
    match (_ ← persist_manifest store;
           if periodic then prune_checkpointed_segments store else mret tt) h with
    | (outcome, h) => (outcome, store, h)
    end in
  if periodic then
    match persist store (so_state store) h with
    | (Returned (Ok _), h) =>
        finish (mkJsonStore (so_path store) (so_manifest_path store) (so_journal_head_hash store)
                  (js_revision (so_state store)) (so_journal_head_hash store) (so_state store)) h
    | (Returned (Err e), h) => (Returned (Err e), store, h)
    | (Died, h) => (Died, store, h)
    end
  else finish store h.

Definition store_commit (store : JsonStore) (mutation : JsonState -> result StorageError JsonState)
    (h : Host) : Outcome unit * JsonStore * Host :=
  match prepare store mutation with
  | Err e => (Returned (Err e), store, h)
  | Ok (next, record) =>
      match append_journal record h with
      | (Returned (Ok _), h) =>
          maintain (mkJsonStore (so_path store) (so_manifest_path store) (jr_checksum record)
                      (so_checkpoint_revision store) (so_checkpoint_head_hash store) next) h
      | (Returned (Err e), h) => (Returned (Err e), store, h)
      | (Died, h) => (Died, store, h)
      end
  end.

(** The last checkpoint, at an orderly end. *)
Definition store_shutdown (store : JsonStore) : fs unit := persist store (so_state store).

Definition backup (store : JsonStore) (destination : Path) (unique_suffix : Z) : fs unit :=
  _ ← touch;
  filename ← fs_result (ok_or destination (Invariant "backup filename is invalid"));
  let temporary := ("." +:+ filename +:+ "." +:+ pretty unique_suffix +:+ ".tmp")%string in
  taken ← observing (fun h => mret (file_exists temporary h));
  _ ← fs_result (require (negb taken) (Invariant "backup temporary path already exists"));
  bytes ← fs_result (ok_or (state_to_vec (so_state store)) Json);
  _ ← create_new temporary;
  _ ← write_all temporary bytes;
  _ ← touch;
  _ ← rename temporary filename;
  touch.

End Store.
