(* ===== verification/JournalProofs.v ===== *)
(** * The journal is always readable

    The rules that run the file-system calls on a disk under every fault it may
    meet, and the invariant of the files: of one history of records the journal
    holds an end, the checkpoint is a state of it, and the manifest is not ahead
    of it.  Starts and commits keep it wherever they fail or die. *)
From Stdlib Require Import ZArith Lia List Bool String Ascii.
From stdpp Require Import base gmap sets sorting strings pretty list.
From S2P Require Import Prelude.
From S2P Require Import Domain.
From S2P Require Import Models.
From S2P Require Import Storage.
From S2P Require Import Actor.
From S2P Require Import StorageProofs.
From S2P Require Import Journal.
Open Scope Z_scope.

(** ** Running the file-system calls

    What the proofs about the journal rest on: mutations leave the revision and
    the format alone, file names parse back and stay apart, and the rules that
    run a computation on a disk under every fault it may meet. *)

(** ** Mutations leave the revision and the format alone *)

Definition same_version (s s' : JsonState) : Prop :=
  js_revision s' = js_revision s /\ js_format_version s' = js_format_version s.

Section Mutations.
Context `{HK : Keccak}.

#[local] Instance same_version_pre : PreOrder same_version.
Proof. split; [done|]. intros a b c [? ?] [? ?]. split; congruence. Qed.

(** Splits every guard and branch of an accepted operation; what is left is the
    state it returns, from the states its own operations returned. *)
Ltac branches H :=
  repeat first [progress guards H | progress (cbv zeta in H) | case_match; try discriminate H];
  try (injection H as <-).
Ltac versions H := branches H; try (split; reflexivity).

Lemma release_version s id s' : release_rate_movement s id = Ok s' -> same_version s s'.
Proof. unfold release_rate_movement. intros H. versions H. Qed.
Lemma mark_broadcast_version s t s' : mark_broadcast s t = Ok s' -> same_version s s'.
Proof. unfold mark_broadcast. intros H. versions H. Qed.
Lemma transition_version s t s' : transition_transaction s t = Ok s' -> same_version s s'.
Proof.
  unfold transition_transaction. intros H. guards H.
  match goal with S : mark_broadcast _ _ = Ok _ |- _ => apply mark_broadcast_version in S; rewrite S end.
  case_match; [by apply release_version in H|by injection H as <-].
Qed.
Lemma reserve_nonce_version s r s' : reserve_nonce s r = Ok s' -> same_version s s'.
Proof. unfold reserve_nonce. intros H. versions H. Qed.
Lemma persist_episode_version s e t s' : persist_episode s e t = Ok s' -> same_version s s'.
Proof. unfold persist_episode. intros H. versions H. Qed.
Lemma confirm_failed_version s id st plan c r s' :
  confirm_failed_movement s id st plan c r = Ok s' -> same_version s s'.
Proof. unfold confirm_failed_movement. intros H. versions H. Qed.
Lemma rewind_version s chain ancestor s' r : rewind s chain ancestor = Ok (s', r) -> same_version s s'.
Proof. unfold rewind. intros H. branches H. done. Qed.

Lemma reserve_rate_version s r e m s' rec :
  reserve_rate_movement_and_nonce s r e m = Ok (s', rec) -> same_version s s'.
Proof.
  unfold reserve_rate_movement_and_nonce. intros H. guards H. injection H as <- <-.
  match goal with S : reserve_nonce _ _ = Ok _ |- _ => by apply reserve_nonce_version in S end.
Qed.

Lemma persist_snapshot_version s snapshot t : same_version s (persist_snapshot s snapshot t).
Proof. unfold persist_snapshot. by case_match. Qed.

Lemma reconciliation_version s record snapshot episode s' :
  persist_reconciliation s record snapshot episode = Ok s' -> same_version s s'.
Proof.
  unfold persist_reconciliation. intros H. guards H. injection H as <-.
  match goal with S : match episode with _ => _ end = Ok ?x |- _ =>
    rename S into He, x into final end.
  trans final; [|clear; destruct (bool_decide _); split; reflexivity].
  destruct episode; [apply persist_episode_version in He; etrans; [|exact He]|injection He as <-];
    (etrans; [|apply persist_snapshot_version]; split; reflexivity).
Qed.

Lemma finalize_version s id st t s' :
  finalize_conformed_post_state_failure s id st t = Ok s' -> same_version s s'.
Proof.
  unfold finalize_conformed_post_state_failure. intros H. guards H. injection H as <-.
  match goal with S : match List.filter (owned_movement _) _ with _ => _ end = Ok _ |- _ =>
    destruct (List.filter (owned_movement _) _); [by injection S as <-|];
    by apply confirm_failed_version in S end.
Qed.

Lemma compact_version s : same_version s (compact_hot_state s).
Proof.
  unfold compact_hot_state. cbv zeta. unfold compact_replay. cbv zeta. split; cbn; by repeat case_match.
Qed.

Lemma mutate_version s command s' : mutate s command = Ok s' -> same_version s s'.
Proof.
  destruct command; cbn [mutate]; intros H.
  - unfold apply_block in H. versions H.
  - destruct (rewind _ _ _) as [[s1 r]|] eqn:E; [|done]. injection H as <-.
    by apply rewind_version in E.
  - injection H as <-. unfold persist_snapshot. by case_match.
  - unfold persist_canonical_receipt in H. versions H.
  - unfold persist_plan in H. versions H.
  - unfold persist_final_preflight in H. versions H.
  - by apply reserve_nonce_version in H.
  - destruct (reserve_rate_movement_and_nonce _ _ _ _) as [[s1 r]|] eqn:E; [|done]. injection H as <-.
    by apply reserve_rate_version in E.
  - unfold persist_signed in H. versions H.
  - unfold persist_signed_attempt in H. versions H.
  - unfold record_attempt_broadcast in H. versions H.
  - by apply transition_version in H.
  - unfold persist_conformance in H. versions H.
  - by apply reconciliation_version in H.
  - by apply finalize_version in H.
  - by injection H as <-.
  - by apply persist_episode_version in H.
  - unfold persist_top_k_apy_memory in H. versions H.
Qed.

End Mutations.

(** ** Names *)

Lemma string_list_app a b :
  list_ascii_of_string (a +:+ b) = list_ascii_of_string a ++ list_ascii_of_string b.
Proof. induction a as [|c a IH]; [done|]. cbn. by rewrite <- IH. Qed.

Lemma string_list_inj a b : list_ascii_of_string a = list_ascii_of_string b -> a = b.
Proof.
  intros E. rewrite <- (string_of_list_ascii_of_string a), <- (string_of_list_ascii_of_string b).
  by f_equal.
Qed.

Lemma char_digit_char d : 0 <= d < 10 -> char_digit (digit_char d) = Some d.
Proof.
  intros H.
  assert (d = 0 \/ d = 1 \/ d = 2 \/ d = 3 \/ d = 4 \/ d = 5 \/ d = 6 \/ d = 7 \/ d = 8 \/ d = 9)
    as E by lia.
  by repeat destruct E as [->|E]; [..|subst].
Qed.

Definition decimal_step (value : Z) (c : ascii) : option Z :=
  digit ← char_digit c;
  shifted ← checked_mul U64_MAX value 10;
  checked_add U64_MAX shifted digit.

Lemma decimal_padded width v acc :
  0 <= v < 10 ^ Z.of_nat width -> v <= U64_MAX ->
  opt_fold decimal_step 0 (padded width v ++ acc) = opt_fold decimal_step v acc.
Proof.
  revert v acc. induction width as [|width IH]; intros v acc Hv Hm; cbn [padded].
  - change (10 ^ Z.of_nat 0) with 1 in Hv. by replace v with 0 by lia.
  - pose proof (Z.div_mod v 10 ltac:(lia)) as Hdm. pose proof (Z.mod_pos_bound v 10 ltac:(lia)).
    rewrite Nat2Z.inj_succ, Z.pow_succ_r in Hv by lia.
    rewrite <- app_assoc, IH; cycle 1.
    { split; [apply Z.div_pos; lia|apply Z.div_lt_upper_bound; lia]. } { lia. }
    assert (decimal_step (v / 10) (digit_char (v mod 10)) = Some v) as Hs.
    { unfold decimal_step. rewrite char_digit_char by done. cbn. unfold checked_mul, checked_add.
      repeat (rewrite (proj2 (Z.leb_le _ _)) by lia; cbn). f_equal. lia. }
    cbn [app opt_fold]. by rewrite Hs.
Qed.

Lemma padded_no_plus width v :
  strip_plus (padded (S width) v) = padded (S width) v.
Proof.
  revert v. induction width as [|width IH]; intros v.
  - cbn. pose proof (Z.mod_pos_bound v 10 ltac:(lia)) as Hm.
    assert (digit_char (v mod 10) <> "+"%char) as Hp.
    { intros E. apply (f_equal char_digit) in E. by rewrite char_digit_char in E. }
    by destruct (digit_char (v mod 10)) as [[] [] [] [] [] [] [] []].
  - remember (S width) as w. cbn [padded]. specialize (IH (v / 10)). subst w.
    destruct (padded (S width) (v / 10)) as [|c l] eqn:E.
    { cbn [padded] in E. by apply app_eq_nil in E as [_ ?]. }
    destruct c as [[] [] [] [] [] [] [] []]; try done.
    apply (f_equal length) in IH. cbn in IH. lia.
Qed.

Lemma strip_prefix_app p l : strip_prefix p (p ++ l) = Some l.
Proof. induction p as [|x p IH]; [done|]. cbn. by rewrite bool_decide_eq_true_2. Qed.
Lemma strip_suffix_app p l : strip_suffix p (l ++ p) = Some l.
Proof. unfold strip_suffix. rewrite reverse_app, strip_prefix_app. cbn. by rewrite reverse_involutive. Qed.

(** A segment is found again under the number it was named by. *)
Lemma segment_start_name first : 0 <= first <= U64_MAX -> journal_segment_start (segment_name first) = Some first.
Proof.
  intros H. unfold journal_segment_start, segment_name. rewrite list_ascii_of_string_of_list_ascii.
  rewrite strip_prefix_app. cbn [mbind option_bind]. rewrite strip_suffix_app. cbn [mbind option_bind].
  unfold u64_from_decimal. rewrite (padded_no_plus 19).
  assert (padded 20 first <> []) as Hne by (by intros [_ ?]%(app_eq_nil (padded 19 (first / 10)))).
  destruct (padded 20 first) as [|c l] eqn:E; [done|]. rewrite <- E. unfold decimal_value.
  change (opt_fold decimal_step 0 (padded 20 first) = Some first).
  rewrite <- (app_nil_r (padded 20 first)), decimal_padded; [done| |lia].
  assert (U64_MAX < 10 ^ Z.of_nat 20) by done. lia.
Qed.

Lemma segment_name_inj a b :
  0 <= a <= U64_MAX -> 0 <= b <= U64_MAX -> segment_name a = segment_name b -> a = b.
Proof.
  intros Ha Hb E. apply (f_equal journal_segment_start) in E.
  rewrite !segment_start_name in E by done. by injection E.
Qed.

Definition manifest_name (name : string) : string :=
  if bool_decide (name = "state.json"%string) then "manifest.json"%string
  else (name +:+ ".manifest.json")%string.

Lemma temporary_last name revision pid :
  last (list_ascii_of_string (temporary_name name revision pid)) = Some "p"%char.
Proof.
  unfold temporary_name. rewrite !string_list_app, !app_assoc, last_app. done.
Qed.

Lemma temporary_length name revision pid :
  (length (list_ascii_of_string name) < length (list_ascii_of_string (temporary_name name revision pid)))%nat.
Proof. unfold temporary_name. rewrite !string_list_app, !length_app. cbn. lia. Qed.

Lemma temporary_not_manifest other name revision pid :
  temporary_name other revision pid <> manifest_name name.
Proof.
  intros E. pose proof (temporary_last other revision pid) as Hl. rewrite E in Hl.
  unfold manifest_name in Hl. case_bool_decide; [done|].
  by rewrite string_list_app, last_app in Hl.
Qed.

Lemma temporary_not_state name revision pid : temporary_name name revision pid <> name.
Proof. intros E. pose proof (temporary_length name revision pid). rewrite E in *. lia. Qed.

Lemma manifest_temporary_not_state name revision pid :
  temporary_name (manifest_name name) revision pid <> name.
Proof.
  intros E. pose proof (temporary_length (manifest_name name) revision pid) as Hl. rewrite E in Hl.
  unfold manifest_name in *. case_bool_decide; [by subst|].
  rewrite string_list_app, length_app in Hl. lia.
Qed.

Lemma manifest_not_state name : manifest_name name <> name.
Proof.
  unfold manifest_name. case_bool_decide as E; [by subst|]. intros E'.
  apply (f_equal (fun s => length (list_ascii_of_string s))) in E'.
  rewrite string_list_app, length_app in E'. cbn in E'. lia.
Qed.

(** ** Running file-system calls *)

Definition disk : Type := gmap string Bytes * gmap string Bytes.
Definition disk_of (h : Host) : disk := (ho_files h, ho_journal h).

(** An append either completes or ends the process. *)
Definition no_append_error (fault : Fault) : Prop := match fault with Fails _ => False | _ => True end.

Section Runs.
Context (calm : bool) (pid : Z).

Definition host_ok (h : Host) : Prop :=
  ho_process_id h = pid /\ Forall no_append_error (ho_append_faults h)
  /\ (calm = true -> ho_faults h = []).

Definition runs {A} (c : fs A) (d : disk) (Q : Outcome A -> disk -> Prop) : Prop :=
  forall h, disk_of h = d -> host_ok h -> host_ok (c h).2 /\ Q (c h).1 (disk_of (c h).2).

Lemma runs_mono {A} (c : fs A) d (P Q : Outcome A -> disk -> Prop) :
  runs c d P -> (forall o d', P o d' -> Q o d') -> runs c d Q.
Proof. intros Hc Hq h Hd Hh. destruct (Hc h Hd Hh) as [? ?]. auto. Qed.

Lemma runs_result {A} (r : result StorageError A) d Q : Q (Returned r) d -> runs (fs_result r) d Q.
Proof. intros Hq h <- Hh. by split. Qed.

Lemma runs_bind {A B} (c : fs A) (k : A -> fs B) d Q :
  runs c d (fun o d' => match o with
                        | Returned (Ok a) => runs (k a) d' Q
                        | Returned (Err e) => Q (Returned (Err e)) d'
                        | Died => Q Died d'
                        end) ->
  runs (x ← c; k x) d Q.
Proof.
  intros Hc h Hd Hh. destruct (Hc h Hd Hh) as [Hh' Hq]. unfold mbind, fs_bind.
  destruct (c h) as [[[a|e]|] h']; cbn in *; [by apply Hq|by split..].
Qed.

Lemma runs_observing {A} (f : Host -> fs A) d Q :
  (forall h, disk_of h = d -> host_ok h -> runs (f h) d Q) -> runs (observing f) d Q.
Proof. intros Hf h Hd Hh. by apply Hf. Qed.

Lemma runs_call {A} (works : fs A) partial d Q :
  runs works d Q ->
  (calm = false -> forall n h, disk_of h = d -> host_ok h -> host_ok (partial n h) /\
     Q (Returned (Err Io)) (disk_of (partial n h)) /\ Q Died (disk_of (partial n h))) ->
  runs (call works partial) d Q.
Proof.
  intros Hw Hp h Hd (Hpid & Ha & Hc). unfold call, faulty.
  set (h' := mkHost _ _ _ (tail _) _).
  assert (host_ok h') as Hh'.
  { split_and!; [done|done|]. intros Et. cbn. by rewrite (Hc Et). }
  destruct (head (ho_faults h)) as [[|n|n]|] eqn:E; try by apply Hw.
  - destruct calm; [by rewrite Hc in E|]. destruct (Hp eq_refl n h' Hd Hh') as (? & ? & ?). by split.
  - destruct calm; [by rewrite Hc in E|]. destruct (Hp eq_refl n h' Hd Hh') as (? & ? & ?). by split.
Qed.

Lemma runs_append_call {A} (works : fs A) partial d Q :
  runs works d Q ->
  (forall n h, disk_of h = d -> host_ok h -> host_ok (partial n h) /\ Q Died (disk_of (partial n h))) ->
  runs (append_call works partial) d Q.
Proof.
  intros Hw Hp h Hd (Hpid & Ha & Hc). unfold append_call, faulty.
  set (h' := mkHost _ _ _ _ (tail _)).
  assert (host_ok h') as Hh'.
  { split_and!; [done| |done]. cbn. destruct (ho_append_faults h); [done|]. by apply Forall_cons in Ha as [_ ?]. }
  destruct (head (ho_append_faults h)) as [[|n|n]|] eqn:E; try by apply Hw.
  - destruct (ho_append_faults h) as [|f l]; [done|]. injection E as ->. by apply Forall_cons in Ha as [[] _].
  - destruct (Hp n h' Hd Hh') as (? & ?). by split.
Qed.

(** What a call without effect leaves. *)
Lemma runs_touch d (Q : Outcome unit -> disk -> Prop) :
  Q (Returned (Ok tt)) d -> (calm = false -> Q (Returned (Err Io)) d /\ Q Died d) -> runs touch d Q.
Proof.
  intros H1 H2. apply runs_call; [by apply runs_result|]. intros Ec n h <- Hh. destruct (H2 Ec). by split_and!.
Qed.

Lemma runs_read_file name f j (Q : Outcome Bytes -> disk -> Prop) bytes :
  f !! name = Some bytes -> Q (Returned (Ok bytes)) (f, j) ->
  (calm = false -> Q (Returned (Err Io)) (f, j) /\ Q Died (f, j)) -> runs (read_file name) (f, j) Q.
Proof.
  intros Hf H1 H2. apply runs_call.
  - intros h Hd Hh. split; [done|]. injection Hd as Hdf Hdj. cbn. unfold disk_of. rewrite Hdf, Hdj, Hf. done.
  - intros Ec n h Hd Hh. destruct (H2 Ec). unfold unchanged. rewrite Hd. by split_and!.
Qed.

Lemma runs_read_segment name f j (Q : Outcome Bytes -> disk -> Prop) bytes :
  j !! name = Some bytes -> Q (Returned (Ok bytes)) (f, j) ->
  (calm = false -> Q (Returned (Err Io)) (f, j) /\ Q Died (f, j)) -> runs (read_segment name) (f, j) Q.
Proof.
  intros Hf H1 H2. apply runs_call.
  - intros h Hd Hh. split; [done|]. injection Hd as Hdf Hdj. cbn. unfold disk_of. rewrite Hdf, Hdj, Hf. done.
  - intros Ec n h Hd Hh. destruct (H2 Ec). unfold unchanged. rewrite Hd. by split_and!.
Qed.

Lemma runs_bounded read maximum kind d (Q : Outcome Bytes -> disk -> Prop) bytes :
  (forall P : Outcome Bytes -> disk -> Prop, P (Returned (Ok bytes)) d ->
     (calm = false -> P (Returned (Err Io)) d /\ P Died d) -> runs read d P) ->
  (Z.of_nat (length bytes) <= maximum -> Q (Returned (Ok bytes)) d) ->
  (maximum < Z.of_nat (length bytes) ->
     Q (Returned (Err (InputTooLarge kind (Z.of_nat (length bytes)) maximum))) d) ->
  (calm = false -> Q (Returned (Err Io)) d /\ Q Died d) -> runs (bounded read maximum kind) d Q.
Proof.
  intros Hr H1 H2 H3. unfold bounded. apply runs_bind, Hr; [|done].
  apply runs_bind, runs_result. destruct (Z.leb_spec (Z.of_nat (length bytes)) maximum) as [Hl|Hl]; cbn; [|by apply H2].
  apply runs_bind, Hr; [|done]. apply runs_bind, runs_result.
  rewrite (proj2 (Z.leb_le _ _) Hl). cbn. apply runs_result. auto.
Qed.

(** The files apart from a temporary one. *)
Definition agree_but (tmp : string) (f f' : gmap string Bytes) : Prop :=
  forall k, k <> tmp -> f' !! k = f !! k.

Lemma runs_persist name encoded bytes revision f j (Q : Outcome unit -> disk -> Prop) :
  let tmp := temporary_name name revision pid in
  encoded = Some bytes ->
  (f !! tmp = None -> Q (Returned (Ok tt)) (<[name := bytes]> f, j)) ->
  (is_Some (f !! tmp) -> Q (Returned (Err Io)) (f, j)) ->
  (calm = false -> forall f', agree_but tmp f f' \/ agree_but tmp (<[name := bytes]> f) f' ->
     Q (Returned (Err Io)) (f', j) /\ Q Died (f', j)) ->
  runs (persist_atomic_json (Some name) encoded revision) (f, j) Q.
Proof.
  intros tmp -> Hok Htaken Hfail. pose proof (temporary_not_state name revision pid) as Hne. fold tmp in Hne.
  assert (forall f', agree_but tmp f f' -> calm = false -> Q (Returned (Err Io)) (f', j) /\ Q Died (f', j))
    as Hold by eauto.
  unfold persist_atomic_json. apply runs_bind, runs_touch; [|by apply Hold].
  apply runs_bind, runs_result. apply runs_bind, runs_observing. intros h0 _ (Hpid & _ & _).
  apply runs_result. rewrite Hpid. fold tmp. apply runs_bind, runs_result.
  apply runs_bind. unfold create_new. apply runs_call; cycle 1.
  { intros Ec n h Hd Hh. injection Hd as Hf Hj.
    destruct (file_exists tmp h) eqn:E; [|destruct n]; (split; [done|]); unfold disk_of; cbn;
      rewrite ?Hf, ?Hj; apply Hold; try done. intros k Hk. by rewrite lookup_insert_ne. }
  intros h Hd Hh. injection Hd as Hf Hj. unfold file_exists. rewrite Hf. case_bool_decide as Hb.
  { split; [done|]. unfold disk_of. cbn. rewrite Hf, Hj. by apply Htaken. }
  apply eq_None_not_Some in Hb. split; [done|]. cbn. unfold disk_of. cbn. rewrite ?Hf, ?Hj.
  apply runs_bind. unfold write_all. apply runs_call; cycle 1.
  { intros Ec n h1 Hd Hh1. injection Hd as Hf1 Hj1. split; [done|]. unfold disk_of. cbn. rewrite ?Hf1, ?Hj1.
    apply Hold; [|done]. intros k Hk. by rewrite lookup_alter_ne, lookup_insert_ne. }
  intros h1 Hd Hh1. injection Hd as Hf1 Hj1. split; [done|]. cbn. unfold disk_of. cbn. rewrite ?Hf1, ?Hj1.
  rewrite alter_insert_eq. cbn [app].
  assert (agree_but tmp f (<[tmp := bytes]> f)) as Hw by (intros k Hk; by rewrite lookup_insert_ne).
  apply runs_bind, runs_touch; [|by apply Hold].
  apply runs_bind. unfold rename. apply runs_call; cycle 1.
  { intros Ec n h2 Hd Hh2. injection Hd as Hf2 Hj2. rewrite Hf2, lookup_insert_eq. destruct n;
      (split; [done|]); unfold disk_of; cbn; rewrite ?Hf2, ?Hj2; [by apply Hold|]. apply Hfail; [done|right].
    intros k Hk. destruct (decide (k = name)) as [->|Hkn]; [by rewrite !lookup_insert_eq|].
    by rewrite !lookup_insert_ne, lookup_delete_ne, lookup_insert_ne by done. }
  intros h2 Hd Hh2. injection Hd as Hf2 Hj2. rewrite Hf2, lookup_insert_eq. split; [done|].
  unfold disk_of. cbn. rewrite ?Hf2, ?Hj2. rewrite delete_insert_id by done.
  apply runs_touch; [by apply Hok|]. intros Ec. apply Hfail; [done|right]. by intros k Hk.
Qed.

Lemma runs_persist_None name revision d (Q : Outcome unit -> disk -> Prop) :
  Q (Returned (Err Json)) d -> (calm = false -> Q (Returned (Err Io)) d) -> (calm = false -> Q Died d) ->
  runs (persist_atomic_json (Some name) None revision) d Q.
Proof.
  intros H1 H2 H3. unfold persist_atomic_json. apply runs_bind, runs_touch; [|auto].
  apply runs_bind, runs_result. apply runs_bind, runs_observing. intros h0 _ _.
  apply runs_result, runs_bind, runs_result. done.
Qed.

End Runs.

(** ** The journal is always readable

    The invariant of the files: of one history of records the journal holds an
    end, the checkpoint is a state of it, and the manifest is not ahead of it.
    Starts and commits keep it wherever they fail or die. *)

(** ** The journal and its records *)

Section Recovery.
Context `{HK : Keccak} `{HP : JsonPatch} `{HC : !JournalCodec} `{HL : !JournalLaws}.

(** A record whose line can be written and whose checksum is its own. *)
Definition sealed (r : JournalRecord) : Prop :=
  is_Some (record_to_vec r) /\ jr_schema_version r = JOURNAL_SCHEMA_VERSION /\
  journal_checksum (jr_schema_version r) (jr_sequence r) (jr_previous_hash r) (jr_patch r)
  = Ok (jr_checksum r).
Definition line (r : JournalRecord) : Bytes := default [] (record_to_vec r) ++ [10].

(** A segment file: complete lines and the rest of a write that was cut off. *)
Record Segment : Type := mkSegment {
  sg_first : Z;
  sg_records : list JournalRecord;
  sg_tail : Bytes;
}.
Definition lines (rs : list JournalRecord) : Bytes := concat (line <$> rs).
Definition segment_bytes (g : Segment) : Bytes := lines (sg_records g) ++ sg_tail g.
Definition repaired (g : Segment) : Segment := mkSegment (sg_first g) (sg_records g) [].

Record segment_wf (g : Segment) : Prop := {
  sw_first : 1 <= sg_first g <= U64_MAX;
  sw_aligned : (sg_first g - 1) mod JOURNAL_SEGMENT_EVENTS = 0;
  sw_records : Forall (fun r => sealed r /\ sg_first g <= jr_sequence r
                                 < sg_first g + JOURNAL_SEGMENT_EVENTS) (sg_records g);
  sw_tail : 10 ∉ sg_tail g;
}.

(** The line of a sealed record splits off. *)
Lemma split_inclusive_line b rest :
  10 ∉ b -> split_inclusive ((b ++ [10]) ++ rest) = (b ++ [10]) :: split_inclusive rest.
Proof.
  induction b as [|x b IH]; intros Hb; [done|]. cbn.
  apply not_elem_of_cons in Hb as [Hx Hb]. rewrite (proj2 (Z.eqb_neq x 10)) by done.
  by rewrite (IH Hb).
Qed.

Lemma split_inclusive_tail t : 10 ∉ t -> split_inclusive t = match t with [] => [] | _ => [t] end.
Proof.
  induction t as [|x t IH]; intros Ht; [done|]. cbn. apply not_elem_of_cons in Ht as [Hx Ht].
  rewrite (proj2 (Z.eqb_neq x 10)) by done. rewrite IH by done. by destruct t.
Qed.

Context (calm : bool) (pid : Z).
Notation runs := (runs calm pid).

(** The errors a start may return for, where [big] says that a bound of the
    reader is exceeded. *)
Definition blamed (big : Prop) (e : StorageError) : Prop :=
  match e with Io => calm = false | InputTooLarge _ _ _ => big | _ => False end.

Lemma blamed_mono (big big' : Prop) e : (big -> big') -> blamed big e -> blamed big' e.
Proof. destruct e; cbn; auto. Qed.

Definition named (g : Segment) : string := segment_name (sg_first g).

#[local] Arguments named : simpl never.
#[local] Arguments journal_segment_start : simpl never.
#[local] Arguments segment_name : simpl never.
#[local] Arguments segment_bytes : simpl never.
#[local] Arguments lines : simpl never.
#[local] Arguments temporary_name : simpl never.

(** What reading a segment leaves: its records, and a file without the tail. *)
Definition segment_read (g : Segment) (f j : gmap string Bytes) (rs : list JournalRecord)
    (o : Outcome (list JournalRecord)) (d : disk) : Prop :=
  let cut := (f, <[named g := segment_bytes (repaired g)]> j) in
  match o with
  | Returned (Ok l) => l = rs /\ d = cut
  | Returned (Err e) => calm = false /\ e = Io /\ (d = (f, j) \/ d = cut)
  | Died => calm = false /\ (d = (f, j) \/ d = cut)
  end.

Lemma read_tail_runs g acc f j :
  j !! named g = Some (segment_bytes g) -> segment_wf g ->
  Z.of_nat (length (segment_bytes g)) <= MAX_JOURNAL_SEGMENT_BYTES ->
  runs (read_chunks (named g) (split_inclusive (sg_tail g)) (Z.of_nat (length (lines (sg_records g)))) acc)
    (f, j) (segment_read g f j acc).
Proof.
  intros Hj Hw Hlen. rewrite split_inclusive_tail by apply (sw_tail _ Hw).
  destruct (sg_tail g) as [|x t] eqn:Et.
  { cbn [read_chunks]. apply runs_result. split; [done|].
    rewrite insert_id; [done|]. rewrite Hj. unfold segment_bytes, repaired. cbn. by rewrite Et. }
  cbn [read_chunks].
  assert (last (x :: t) <> Some 10) as Hlast.
  { intros E. apply (sw_tail _ Hw). rewrite Et. by apply last_Some_elem_of. }
  rewrite bool_decide_eq_false_2 by done. cbn [negb].
  apply runs_bind, runs_touch; [|by cbn; auto]. apply runs_bind, runs_result. unfold try_from_u.
  rewrite (proj2 (Z.leb_le _ _)); cycle 1.
  { unfold segment_bytes in Hlen. rewrite length_app in Hlen. assert (MAX_JOURNAL_SEGMENT_BYTES <= U64_MAX) by done. lia. }
  cbn [ok_or].
  assert (alter (take (Z.to_nat (Z.of_nat (length (lines (sg_records g)))))) (named g) j
          = <[named g := segment_bytes (repaired g)]> j) as Hcut.
  { apply map_eq. intros k. destruct (decide (k = named g)) as [->|Hk].
    - rewrite lookup_alter_eq, lookup_insert_eq, Hj. cbn. f_equal. unfold segment_bytes, repaired.
      cbn [sg_records sg_tail]. rewrite app_nil_r. apply take_app_length'. by rewrite Nat2Z.id.
    - by rewrite lookup_alter_ne, lookup_insert_ne. }
  apply runs_bind. unfold truncate. apply runs_call; cycle 1.
  { intros Ec n h Hd Hh. injection Hd as Hf Hjj. destruct n; (split; [done|]); unfold disk_of;
      cbn [either with_journal ho_files ho_journal]; rewrite ?Hf, ?Hjj, ?Hcut; cbn; auto 10. }
  intros h Hd Hh. injection Hd as Hf Hjj. split; [done|]. unfold disk_of.
  cbn [fst snd with_journal ho_files ho_journal]. rewrite Hf, Hjj, Hcut.
  apply runs_bind, runs_touch; [|by cbn; auto 10]. by apply runs_result.
Qed.

Lemma lines_app l k : lines (l ++ k) = lines l ++ lines k.
Proof. unfold lines. by rewrite fmap_app, concat_app. Qed.

Lemma read_chunks_runs g done todo acc f j :
  j !! named g = Some (segment_bytes g) -> segment_wf g -> sg_records g = done ++ todo ->
  Z.of_nat (length (segment_bytes g)) <= MAX_JOURNAL_SEGMENT_BYTES ->
  runs (read_chunks (named g) (split_inclusive (lines todo ++ sg_tail g)) (Z.of_nat (length (lines done))) acc)
    (f, j) (segment_read g f j (acc ++ todo)).
Proof.
  intros Hj Hw. revert done acc. induction todo as [|r todo IH]; intros done acc Hr Hlen.
  { change (lines [] ++ sg_tail g) with (sg_tail g). rewrite app_nil_r in Hr |- *. subst done.
    by apply read_tail_runs. }
  assert (sealed r) as [[b Hb] _].
  { pose proof (sw_records _ Hw) as Hf. rewrite Hr, Forall_app, Forall_cons in Hf. apply Hf. }
  destruct (record_round_trip r b Hb) as (Hfrom & Hno & Hne).
  assert (lines [r] = b ++ [10]) as El by (unfold lines, line; cbn; by rewrite Hb, app_nil_r).
  change (r :: todo) with ([r] ++ todo) in Hr |- *.
  rewrite (lines_app [r] todo), El, <- (app_assoc (b ++ [10])), split_inclusive_line by done. cbn [read_chunks].
  rewrite last_snoc, bool_decide_eq_true_2 by done. cbn [negb]. rewrite removelast_last.
  rewrite bool_decide_eq_false_2 by done.
  apply runs_bind, runs_bind, runs_result. rewrite Hfrom. cbn [ok_or]. apply runs_result.
  apply runs_bind, runs_result. unfold checked_add. rewrite <- Nat2Z.inj_add, <- length_app, <- El, <- lines_app.
  rewrite (proj2 (Z.leb_le _ _)); cycle 1.
  { unfold segment_bytes in Hlen. rewrite Hr, app_assoc, lines_app, !length_app in Hlen.
    assert (MAX_JOURNAL_SEGMENT_BYTES <= U64_MAX) by done. lia. }
  cbn [ok_or]. rewrite app_assoc. apply IH; [by rewrite <- app_assoc|done].
Qed.

Definition journal_map (gs : list Segment) : gmap string Bytes :=
  list_to_map ((fun g => (named g, segment_bytes g)) <$> gs).

Record journal_wf (gs : list Segment) : Prop := {
  jw_sorted : StronglySorted Z.lt (sg_first <$> gs);
  jw_segments : Forall segment_wf gs;
}.

(** A segment left alone or repaired. *)
Definition repairs (gs gs' : list Segment) : Prop :=
  Forall2 (fun g g' => g' = g \/ g' = repaired g) gs gs'.

Lemma segment_first_inj gs : Forall segment_wf gs -> StronglySorted Z.lt (sg_first <$> gs) -> NoDup (named <$> gs).
Proof.
  intros Hw. induction gs as [|g gs IH]; cbn; [constructor|]. intros [Hs Hlt]%StronglySorted_inv.
  apply Forall_cons in Hw as [Hg Hw]. constructor; [|auto].
  intros (g' & E & Hin)%list_elem_of_fmap.
  rewrite Forall_forall in Hw. rewrite Forall_forall in Hlt. specialize (Hw g' Hin).
  assert (sg_first g < sg_first g') by (apply Hlt; by apply list_elem_of_fmap_2).
  apply segment_name_inj in E; [lia| |]; pose proof (sw_first _ Hg); pose proof (sw_first _ Hw); lia.
Qed.

Lemma journal_wf_NoDup gs : journal_wf gs -> NoDup (named <$> gs).
Proof. intros [Hs Hw]. by apply segment_first_inj. Qed.

Lemma journal_map_keys gs : ((fun g => (named g, segment_bytes g)) <$> gs).*1 = named <$> gs.
Proof. by rewrite <- list_fmap_compose. Qed.

Lemma journal_map_lookup gs g : journal_wf gs -> g ∈ gs -> journal_map gs !! named g = Some (segment_bytes g).
Proof.
  intros Hw Hin. apply elem_of_list_to_map_1.
  - rewrite journal_map_keys. by apply journal_wf_NoDup.
  - apply list_elem_of_fmap. by exists g.
Qed.

Lemma journal_map_replace pre g g' post :
  sg_first g' = sg_first g -> named g ∉ named <$> pre ->
  <[named g := segment_bytes g']> (journal_map (pre ++ g :: post)) = journal_map (pre ++ g' :: post).
Proof.
  intros E. assert (named g' = named g) as En by (unfold named; by rewrite E).
  induction pre as [|p pre IH]; unfold journal_map in *; cbn; intros Hn.
  - by rewrite En, insert_insert_eq.
  - apply not_elem_of_cons in Hn as [Hp Hn]. rewrite insert_insert_ne by done. by rewrite IH.
Qed.

Lemma journal_map_snoc gs g :
  named g ∉ named <$> gs ->
  <[named g := segment_bytes g]> (journal_map gs) = journal_map (gs ++ [g]).
Proof.
  induction gs as [|p gs IH]; unfold journal_map in *; cbn; intros Hn; [done|].
  apply not_elem_of_cons in Hn as [Hp Hn]. rewrite insert_insert_ne by done. by rewrite IH.
Qed.

Lemma journal_map_tail g gs :
  named g ∉ named <$> gs -> delete (named g) (journal_map (g :: gs)) = journal_map gs.
Proof.
  intros Hn. unfold journal_map. cbn. rewrite delete_insert_id; [done|].
  apply not_elem_of_list_to_map_1. by rewrite journal_map_keys.
Qed.

(** Two segments of one number have one name, and keep their order. *)
Lemma repairs_firsts gs gs' : repairs gs gs' -> sg_first <$> gs' = sg_first <$> gs.
Proof. induction 1 as [|g g' gs gs' [-> | ->] _ IH]; cbn; [done|by rewrite IH..]. Qed.
Lemma repairs_records gs gs' : repairs gs gs' -> sg_records <$> gs' = sg_records <$> gs.
Proof. induction 1 as [|g g' gs gs' [-> | ->] _ IH]; cbn; [done|by rewrite IH..]. Qed.
Lemma repaired_wf g : segment_wf g -> segment_wf (repaired g).
Proof. intros []. split; try done. apply not_elem_of_nil. Qed.
Lemma repairs_wf gs gs' : repairs gs gs' -> journal_wf gs -> journal_wf gs'.
Proof.
  intros Hr [Hs Hw]. split; [by rewrite (repairs_firsts _ _ Hr)|].
  clear Hs. induction Hr as [|g g' gs gs' [-> | ->] _ IH]; [done|..]; apply Forall_cons in Hw as [? ?];
    constructor; auto using repaired_wf.
Qed.
Lemma repairs_refl gs : repairs gs gs.
Proof. induction gs; constructor; auto. Qed.
Lemma repairs_all gs : repairs gs (repaired <$> gs).
Proof. induction gs; constructor; auto. Qed.

#[local] Instance segment_key_total :
  Total (fun x y => Is_true (lex_le [default U64_MAX (journal_segment_start x)]
                                    [default U64_MAX (journal_segment_start y)])).
Proof.
  intros x y. cbn. rewrite !Is_true_true, !orb_true_iff, !andb_true_iff, !Z.ltb_lt, !Z.eqb_eq. lia.
Qed.
#[local] Instance segment_key_trans :
  Transitive (fun x y => Is_true (lex_le [default U64_MAX (journal_segment_start x)]
                                         [default U64_MAX (journal_segment_start y)])).
Proof.
  intros x y z. cbn. rewrite !Is_true_true, !orb_true_iff, !andb_true_iff, !Z.ltb_lt, !Z.eqb_eq. lia.
Qed.

Lemma named_start gs g : Forall segment_wf gs -> g ∈ gs -> journal_segment_start (named g) = Some (sg_first g).
Proof.
  intros Hw Hg. rewrite Forall_forall in Hw. pose proof (sw_first _ (Hw g Hg)).
  apply segment_start_name. lia.
Qed.

Lemma segment_names_sorted gs :
  journal_wf gs -> StronglySorted (fun x y => Is_true (lex_le [default U64_MAX (journal_segment_start x)]
                                                              [default U64_MAX (journal_segment_start y)]))
                     (named <$> gs).
Proof.
  intros [Hs Hw]. induction gs as [|g gs IH]; cbn; [constructor|].
  cbn in Hs. apply StronglySorted_inv in Hs as [Hs Hlt]. pose proof Hw as Hall. apply Forall_cons in Hw as [Hg Hw].
  constructor; [by apply IH|]. apply Forall_fmap, Forall_forall. intros g' Hg'. cbn.
  rewrite (named_start _ _ Hall) by by left. rewrite (named_start _ _ Hw) by done. cbn.
  rewrite Forall_forall in Hlt. specialize (Hlt (sg_first g') ltac:(by apply list_elem_of_fmap_2)).
  rewrite Is_true_true, orb_true_iff, Z.ltb_lt. auto.
Qed.

Lemma segment_paths_runs gs f (Q : Outcome (list string) -> disk -> Prop) :
  journal_wf gs ->
  Q (Returned (Ok (named <$> gs))) (f, journal_map gs) ->
  ((MAX_JOURNAL_SEGMENTS < length gs)%nat ->
     forall k a m, Q (Returned (Err (InputTooLarge k a m))) (f, journal_map gs)) ->
  (calm = false -> Q (Returned (Err Io)) (f, journal_map gs) /\ Q Died (f, journal_map gs)) ->
  runs journal_segment_paths (f, journal_map gs) Q.
Proof.
  intros Hw Hok Hbig Hfail. unfold journal_segment_paths. apply runs_bind. unfold read_dir.
  apply runs_call.
  2:{ intros Ec n h Hd Hh. destruct (Hfail Ec). unfold unchanged. rewrite Hd. by split_and!. }
  intros h Hd Hh. injection Hd as Hf Hj. split; [done|]. unfold disk_of. cbn [fst snd]. rewrite Hf, Hj.
  set (names := fst <$> map_to_list (journal_map gs)).
  assert (names ≡ₚ named <$> gs) as Hp.
  { unfold names, journal_map. rewrite map_to_list_to_map, journal_map_keys; [done|].
    rewrite journal_map_keys. by apply journal_wf_NoDup. }
  assert (List.filter (fun name => bool_decide (is_Some (journal_segment_start name))) names = names) as ->.
  { assert (Forall (fun name => is_Some (journal_segment_start name)) names) as Hall.
    { rewrite Hp. apply Forall_fmap, Forall_forall. intros g Hg. cbn.
      rewrite (named_start gs) by (try apply Hw; done). done. }
    clear Hp. induction Hall as [|x l Hx _ IH]; [done|]. cbn. rewrite bool_decide_eq_true_2 by done.
    by rewrite IH. }
  apply runs_bind, runs_result. unfold require. destruct (Nat.leb_spec (length names) MAX_JOURNAL_SEGMENTS) as [_|Hmany].
  2:{ apply Hbig. by rewrite Hp, length_fmap in Hmany. }
  apply runs_result. replace (sort_by_key _ names) with (named <$> gs); [done|].
  symmetry. apply (StronglySorted_unique_strong
    (fun x y => Is_true (lex_le [default U64_MAX (journal_segment_start x)]
                                [default U64_MAX (journal_segment_start y)]))).
  - intros x y Hx Hy Hxy Hyx. unfold sort_by_key in Hx. rewrite merge_sort_Permutation, Hp in Hx.
    apply list_elem_of_fmap in Hx as (gx & -> & Hgx). apply list_elem_of_fmap in Hy as (gy & -> & Hgy).
    rewrite !(named_start gs) in Hxy, Hyx by (try apply Hw; done). cbn in Hxy, Hyx.
    rewrite Is_true_true, orb_true_iff, andb_true_iff, Z.ltb_lt, Z.eqb_eq in Hxy, Hyx.
    unfold named. f_equal. lia.
  - apply (StronglySorted_merge_sort _).
  - by apply segment_names_sorted.
  - unfold sort_by_key. by rewrite merge_sort_Permutation.
Qed.

Lemma fs_fold_result {A B} (g : A -> B -> result StorageError A) a l h :
  fs_fold (fun a x => fs_result (g a x)) a l h = fs_result (try_fold g a l) h.
Proof.
  revert a h. induction l as [|x l IH]; intros a h; [done|].
  cbn [fs_fold try_fold]. unfold mbind, fs_bind, result_bind, fs_result in *.
  destruct (g a x); [apply IH|done].
Qed.

Lemma try_fold_app {E A B} (g : A -> B -> result E A) a l k :
  try_fold g a (l ++ k) = (a ← try_fold g a l; try_fold g a k).
Proof. revert a. induction l as [|x l IH]; intros a; [done|]. cbn. destruct (g a x); [apply IH|done]. Qed.

(** A segment the reader refuses. *)
Definition oversized_segment (g : Segment) : Prop :=
  MAX_JOURNAL_SEGMENT_BYTES < Z.of_nat (length (segment_bytes g)).

Lemma read_segment_runs pre g post f :
  journal_wf (pre ++ g :: post) ->
  runs (read_journal_segment (named g)) (f, journal_map (pre ++ g :: post))
    (fun o d' => match o with
                 | Returned (Ok rs) => rs = sg_records g /\ d' = (f, journal_map (pre ++ repaired g :: post))
                 | Returned (Err e) => blamed (oversized_segment g) e /\
                     (d' = (f, journal_map (pre ++ g :: post)) \/ d' = (f, journal_map (pre ++ repaired g :: post)))
                 | Died => calm = false /\
                     (d' = (f, journal_map (pre ++ g :: post)) \/ d' = (f, journal_map (pre ++ repaired g :: post)))
                 end).
Proof.
  intros Hw. assert (g ∈ pre ++ g :: post) as Hin by set_solver.
  pose proof (journal_map_lookup _ _ Hw Hin) as Hl.
  assert (segment_wf g) as Hg by (by eapply Forall_forall; [apply (jw_segments _ Hw)|]).
  assert (named g ∉ named <$> pre) as Hn.
  { pose proof (journal_wf_NoDup _ Hw) as Hd. rewrite fmap_app in Hd. cbn in Hd.
    apply NoDup_app in Hd as (_ & Hd & _). intros Hp. apply (Hd _ Hp). by left. }
  unfold read_journal_segment. apply runs_bind. eapply (runs_bounded _ _ _ _ _ _ _ (segment_bytes g)).
  - intros P HP1 HP2. by eapply runs_read_segment.
  - intros Hlen. eapply runs_mono;
      [by apply (read_chunks_runs g [] (sg_records g))|].
    intros o d'. unfold segment_read. cbv zeta. rewrite journal_map_replace by done.
    destruct o as [[rs|e]|]; [done| |done]. intros (Ec & -> & Hd). by split.
  - by split; [|left].
  - intros Ec. split; (split; [done|by left]).
Qed.

Lemma replay_segments_runs c pre gs st final f :
  journal_wf (pre ++ gs) ->
  try_fold (replay_record c) st (concat (sg_records <$> gs)) = Ok final ->
  runs (fs_fold (fun replayed path =>
          records ← read_journal_segment path;
          fs_fold (fun replayed record => fs_result (replay_record c replayed record)) replayed records)
          st (named <$> gs)) (f, journal_map (pre ++ gs))
    (fun o d' => match o with
                 | Returned (Ok r) => r = final /\ d' = (f, journal_map (pre ++ (repaired <$> gs)))
                 | Returned (Err e) => blamed (Exists oversized_segment gs) e /\
                     exists gs', d' = (f, journal_map (pre ++ gs')) /\ repairs gs gs'
                 | Died => calm = false /\ exists gs', d' = (f, journal_map (pre ++ gs')) /\ repairs gs gs'
                 end).
Proof.
  revert pre st. induction gs as [|g gs IH]; intros pre st Hw Hr.
  { cbn in Hr |- *. apply runs_result. injection Hr as <-. done. }
  cbn [fmap list_fmap concat] in Hr. rewrite try_fold_app in Hr.
  destruct (try_fold (replay_record c) st (sg_records g)) as [st'|e] eqn:E; [cbn in Hr|done].
  cbn [fmap list_fmap fs_fold]. apply runs_bind, runs_bind.
  eapply runs_mono; [by apply read_segment_runs|].
  assert (repairs (g :: gs) (g :: gs)) as Hr1 by apply repairs_refl.
  assert (repairs (g :: gs) (repaired g :: gs)) as Hr2.
  { constructor; [by right|apply repairs_refl]. }
  intros o d'. destruct o as [[rs|e]|].
  - intros [-> ->]. intros h Hd Hh. rewrite fs_fold_result, E. cbn. split; [done|]. rewrite Hd.
    replace (pre ++ repaired g :: gs) with ((pre ++ [repaired g]) ++ gs) by (by rewrite <- app_assoc).
    eapply runs_mono; [apply IH; [|done]|].
    { rewrite <- app_assoc. cbn. eapply repairs_wf; [|exact Hw].
      apply Forall2_app; [apply repairs_refl|done]. }
    intros o d'. rewrite <- !app_assoc. cbn.
    destruct o as [[r|e]|]; [done|..]; intros [Hb (gs' & -> & Hg)];
      (split; [first [done|eapply blamed_mono, Hb; by right]|]);
      exists (repaired g :: gs'); rewrite <- app_assoc; (split; [done|]); constructor; auto.
  - intros [Hb [->| ->]]; (split; [eapply blamed_mono, Hb; by left|eauto]).
  - intros [Hb [->| ->]]; split; eauto.
Qed.

Lemma replay_journal_runs c st h0 gs final f :
  journal_wf gs ->
  try_fold (replay_record c) (st, h0) (concat (sg_records <$> gs)) = Ok final ->
  runs (replay_journal st c h0) (f, journal_map gs)
    (fun o d' => match o with
                 | Returned (Ok r) => r = final /\ d' = (f, journal_map (repaired <$> gs))
                 | Returned (Err e) =>
                     blamed ((MAX_JOURNAL_SEGMENTS < length gs)%nat \/ Exists oversized_segment gs) e /\
                     exists gs', d' = (f, journal_map gs') /\ repairs gs gs'
                 | Died => calm = false /\ exists gs', d' = (f, journal_map gs') /\ repairs gs gs'
                 end).
Proof.
  intros Hw Hr. unfold replay_journal. apply runs_bind, segment_paths_runs; [done|..].
  - eapply runs_mono; [by apply (replay_segments_runs c [])|]. intros [[[]|e]|] d; [done| |done].
    intros [Hb H]. split; [eapply blamed_mono, Hb; auto|done].
  - intros Hm k a m. split; [by left|]. eauto using repairs_refl.
  - intros Ec. split; (split; [done|]); eauto using repairs_refl.
Qed.

(** ** The chain of states *)

(** A record takes a state with its head hash to the next one. *)
Record links (s : JsonState) (h : B256) (r : JournalRecord) (s' : JsonState) : Prop := {
  lk_sealed : sealed r;
  lk_sequence : jr_sequence r = js_revision s + 1;
  lk_range : jr_sequence r <= U64_MAX;
  lk_previous : jr_previous_hash r = h;
  lk_patch : exists v w, state_to_value s = Some v /\ json_patch v (jr_patch r) = Some w /\
                         state_from_value w = Some s';
  lk_revision : js_revision s' = jr_sequence r;
  lk_format : js_format_version s' = JSON_FORMAT_VERSION;
}.

Fixpoint chain (s : JsonState) (h : B256) (rs : list JournalRecord) (s' : JsonState) (h' : B256) : Prop :=
  match rs with
  | [] => s' = s /\ h' = h
  | r :: rs => exists s1, links s h r s1 /\ chain s1 (jr_checksum r) rs s' h'
  end.

Lemma chain_app s h rs rs' s' h' :
  chain s h (rs ++ rs') s' h' <-> exists s1 h1, chain s h rs s1 h1 /\ chain s1 h1 rs' s' h'.
Proof.
  revert s h. induction rs as [|r rs IH]; intros s h; cbn.
  - split; [by eauto|]. by intros (? & ? & [-> ->] & ?).
  - setoid_rewrite IH. naive_solver.
Qed.

Lemma chain_det s h rs a ha b hb : chain s h rs a ha -> chain s h rs b hb -> a = b /\ ha = hb.
Proof.
  revert s h. induction rs as [|r rs IH]; intros s h; cbn.
  - by intros [-> ->] [-> ->].
  - intros (x & Hx & Ha) (y & Hy & Hb).
    destruct (lk_patch _ _ _ _ Hx) as (v & w & Hv & Hw & Es), (lk_patch _ _ _ _ Hy) as (v' & w' & Hv' & Hw' & Es').
    simplify_eq. eauto.
Qed.

Lemma chain_revision s h rs s' h' :
  chain s h rs s' h' -> js_revision s' = js_revision s + Z.of_nat (length rs).
Proof.
  revert s h. induction rs as [|r rs IH]; intros s h; cbn [chain length].
  - intros [-> _]. lia.
  - intros (x & Hx & Hc). rewrite (IH _ _ Hc), (lk_revision _ _ _ _ Hx), (lk_sequence _ _ _ _ Hx). lia.
Qed.

Lemma chain_format s h rs s' h' :
  js_format_version s = JSON_FORMAT_VERSION -> chain s h rs s' h' -> js_format_version s' = JSON_FORMAT_VERSION.
Proof.
  revert s h. induction rs as [|r rs IH]; intros s h Hs; cbn.
  - by intros [-> _].
  - intros (x & Hx & Hc). eapply IH; [|exact Hc]. apply (lk_format _ _ _ _ Hx).
Qed.

Lemma chain_lookup s h rs s' h' i r :
  chain s h rs s' h' -> rs !! i = Some r ->
  sealed r /\ jr_sequence r = js_revision s + Z.of_nat i + 1 /\ jr_sequence r <= U64_MAX.
Proof.
  revert s h i. induction rs as [|x rs IH]; intros s h i; [done|].
  intros (s1 & Hx & Hc). destruct i as [|i]; cbn.
  - intros [= <-]. split; [apply (lk_sealed _ _ _ _ Hx)|]. rewrite (lk_sequence _ _ _ _ Hx).
    split; [lia|]. rewrite <- (lk_sequence _ _ _ _ Hx). apply (lk_range _ _ _ _ Hx).
  - intros Hi. destruct (IH _ _ _ Hc Hi) as (? & E & ?). split; [done|]. split; [|done].
    rewrite E, (lk_revision _ _ _ _ Hx), (lk_sequence _ _ _ _ Hx). lia.
Qed.

Definition start_state : JsonState := JsonState_default.
Definition history (hist : list JournalRecord) (s : JsonState) (h : B256) : Prop :=
  chain start_state 0 hist s h.

(** Replay follows the chain after the checkpoint. *)
Lemma replay_chain c s h rs s' h' :
  c <= js_revision s -> 0 <= js_revision s -> chain s h rs s' h' ->
  try_fold (replay_record c) (s, h) rs = Ok (s', h').
Proof.
  revert s h. induction rs as [|r rs IH]; intros s h Hc H0; cbn.
  - by intros [-> ->].
  - intros (x & Hx & Hch). pose proof (lk_sequence _ _ _ _ Hx) as Es. pose proof (lk_range _ _ _ _ Hx).
    destruct (lk_sealed _ _ _ _ Hx) as (_ & Ev & Ek). destruct (lk_patch _ _ _ _ Hx) as (v & w & Hv & Hw & Hs).
    rewrite Ev, Z.eqb_refl in *. cbn. rewrite Ek. cbn. rewrite Z.eqb_refl. cbn.
    rewrite (proj2 (Z.ltb_ge _ _)), (proj2 (Z.eqb_neq _ _)), (proj2 (Z.leb_gt _ _)) by lia.
    unfold saturating_add. rewrite (proj2 (Z.leb_le (js_revision s + 1) U64_MAX)) by lia.
    rewrite Es, Z.eqb_refl, (lk_previous _ _ _ _ Hx), Z.eqb_refl. cbn.
    rewrite Hv. cbn. rewrite Hw. cbn. rewrite Hs. cbn.
    pose proof (lk_revision _ _ _ _ Hx) as Er. rewrite Er, Es, Z.eqb_refl. cbn.
    apply IH; [lia|lia|done].
Qed.

(** Records of the checkpoint only find its head hash. *)
Lemma replay_skips c s h rs :
  Forall (fun r => sealed r /\ jr_sequence r < c) rs ->
  try_fold (replay_record c) (s, h) rs = Ok (s, h).
Proof.
  induction 1 as [|r rs [(_ & Ev & Ek) Hlt] _ IH]; [done|]. cbn. rewrite Ev, Z.eqb_refl in *. cbn.
  rewrite Ek. cbn. rewrite Z.eqb_refl. cbn. by rewrite (proj2 (Z.ltb_lt _ _)) by lia.
Qed.

Lemma replay_finds_head c s h r :
  sealed r -> jr_sequence r = c -> replay_record c (s, h) r = Ok (s, jr_checksum r).
Proof.
  intros (_ & Ev & Ek) E. cbn. rewrite Ev, Z.eqb_refl in *. cbn. rewrite Ek. cbn. rewrite Z.eqb_refl. cbn.
  rewrite (proj2 (Z.ltb_ge _ _)) by lia. by rewrite E, Z.eqb_refl.
Qed.

(** From a checkpoint in the middle of a history, with the records from some
    point before it, replay reaches its end. *)
Lemma replay_from_checkpoint hist s h k c sc hc hm :
  history hist s h -> (c <= length hist)%nat -> history (take c hist) sc hc ->
  (k < c \/ c = 0 /\ k = 0)%nat -> (c = 0%nat -> hm = 0) ->
  try_fold (replay_record (js_revision sc)) (sc, hm) (drop k hist) = Ok (s, h).
Proof.
  intros Hh Hle Hc Hk Hm. pose proof (chain_revision _ _ _ _ _ Hc) as Er.
  rewrite length_take_le in Er by done. cbn in Er.
  pose proof Hh as Hall. rewrite <- (take_drop c hist) in Hh. apply chain_app in Hh as (s1 & h1 & H1 & H2).
  destruct (chain_det _ _ _ _ _ _ _ Hc H1) as [<- <-].
  destruct Hk as [Hk|[-> ->]].
  - rewrite <- (take_drop c hist), drop_app_le by (rewrite length_take_le; lia).
    rewrite try_fold_app.
    assert (exists r, hist !! (c - 1)%nat = Some r) as [r Hr] by (apply lookup_lt_is_Some; lia).
    assert (take c hist = take (c - 1) hist ++ [r]) as Et.
    { rewrite <- (take_S_r _ _ _ Hr). f_equal. lia. }
    destruct (chain_lookup _ _ _ _ _ _ _ Hall Hr) as (Hs & Eq & _). cbn in Eq.
    assert (hc = jr_checksum r) as ->.
    { rewrite Et in Hc. apply chain_app in Hc as (? & ? & _ & (? & _ & [_ ->])). done. }
    rewrite Et, drop_app_le by (rewrite length_take; lia). rewrite try_fold_app, replay_skips.
    + cbn [mbind result_bind try_fold]. rewrite replay_finds_head by (done || lia). cbn [mbind result_bind].
      apply replay_chain; [lia|lia|done].
    + apply Forall_drop, Forall_forall. intros x (i & Hi)%list_elem_of_lookup.
      apply lookup_take_Some in Hi as [Hi Hlt].
      destruct (chain_lookup _ _ _ _ _ _ _ Hall Hi) as (? & E & _). split; [done|]. cbn in E. lia.
  - rewrite take_0 in Hc. destruct Hc as [-> ->]. rewrite (Hm eq_refl), drop_0. apply replay_chain; [cbn; lia|cbn; lia|done].
Qed.

(** ** What the disk holds *)

Context (name : string).
Notation mname := (manifest_name name).

Record manifest_wf (hist : list JournalRecord) (c : nat) (m : JournalManifest) : Prop := {
  mw_schema : jm_schema_version m = JOURNAL_SCHEMA_VERSION;
  mw_journal : exists i s, (i <= length hist)%nat /\ jm_journal_revision m = Z.of_nat i /\
                 history (take i hist) s (jm_journal_head_hash m);
  mw_checkpoint : c = 0%nat -> jm_checkpoint_revision m = 0 -> jm_checkpoint_head_hash m = 0;
}.

Record files_wf (f : gmap string Bytes) (hist : list JournalRecord) (c : nat) (sc : JsonState) : Prop := {
  fw_checkpoint : match f !! name with Some b => state_from_slice b = Some sc | None => c = 0%nat end;
  fw_manifest : forall b, f !! mname = Some b ->
                  exists m, manifest_from_slice b = Some m /\ manifest_wf hist c m;
}.

(** Of the whole history the journal holds the records from [k] on, and the
    checkpoint is the state after [c] of them. *)
Record layout (hist : list JournalRecord) (gs : list Segment) (k c : nat) : Prop := {
  ly_segments : journal_wf gs;
  ly_records : concat (sg_records <$> gs) = drop k hist;
  ly_bound : Forall (fun g => sg_first g <= Z.of_nat (length hist) + 1) gs;
  ly_start : (k < c \/ c = 0 /\ k = 0)%nat;
  ly_checkpoint : (c <= length hist)%nat;
}.

Record holds (f : gmap string Bytes) (gs : list Segment) (hist : list JournalRecord) (k c : nat)
    (s : JsonState) (h : B256) : Prop := {
  hd_history : history hist s h;
  hd_checkpoint : exists sc hc, history (take c hist) sc hc /\ files_wf f hist c sc;
  hd_layout : layout hist gs k c;
}.

Definition durable (d : disk) (s : JsonState) (h : B256) : Prop :=
  exists gs hist k c, d.2 = journal_map gs /\ holds d.1 gs hist k c s h.

Lemma files_wf_ext f f' hist c sc :
  f' !! name = f !! name -> f' !! mname = f !! mname -> files_wf f hist c sc -> files_wf f' hist c sc.
Proof. intros E1 E2 [H1 H2]. split; [by rewrite E1|by rewrite E2]. Qed.

Lemma holds_ext f f' gs hist k c s h :
  f' !! name = f !! name -> f' !! mname = f !! mname -> holds f gs hist k c s h -> holds f' gs hist k c s h.
Proof.
  intros E1 E2 [Hh (sc & hc & Hc & Hf) Hl]. split; [done| |done]. exists sc, hc. split; [done|].
  by eapply files_wf_ext.
Qed.

Lemma holds_agree other revision f f' gs hist k c s h :
  other = name \/ other = mname ->
  agree_but (temporary_name other revision pid) f f' -> holds f gs hist k c s h -> holds f' gs hist k c s h.
Proof.
  intros Ho Ha. apply holds_ext; apply Ha.
  - destruct Ho as [->| ->]; [apply not_eq_sym, temporary_not_state|].
    apply not_eq_sym, manifest_temporary_not_state.
  - apply not_eq_sym, temporary_not_manifest.
Qed.

Lemma holds_repairs f gs gs' hist k c s h :
  repairs gs gs' -> holds f gs hist k c s h -> holds f gs' hist k c s h.
Proof.
  intros Hr [Hh Hc [Hw Hrec Hb Hs Hk]]. split; [done|done|]. split; try done.
  - by eapply repairs_wf.
  - by rewrite (repairs_records _ _ Hr).
  - clear -Hr Hb. induction Hr as [|g g' gs gs' [->| ->] _ IH]; [done|..];
      apply Forall_cons in Hb as [? ?]; constructor; auto.
Qed.

Lemma history_revision hist s h : history hist s h -> js_revision s = Z.of_nat (length hist).
Proof. intros H. apply chain_revision in H. rewrite H. done. Qed.

(** A checkpoint of the whole history. *)
Lemma holds_checkpoint f gs hist k c s h bytes :
  state_to_vec s = Some bytes -> holds f gs hist k c s h ->
  holds (<[name := bytes]> f) gs hist k (length hist) s h.
Proof.
  intros Hb [Hh (sc & hc & Hc & [Hf Hm]) [Hw Hr Hbd Hs Hk]].
  split; [done| |split; try done; lia]. exists s, h. rewrite firstn_all. split; [done|]. split.
  - rewrite lookup_insert_eq. by apply state_round_trip.
  - intros b. rewrite lookup_insert_ne by (apply not_eq_sym, manifest_not_state).
    intros Hmb. destruct (Hm b Hmb) as (m & Hmf & [H1 H2 H3]). exists m. split; [done|]. split; [done|done|].
    intros E. apply H3. lia.
Qed.

Lemma holds_manifest f gs hist k c s h m bytes :
  manifest_to_vec m = Some bytes -> manifest_wf hist c m -> holds f gs hist k c s h ->
  holds (<[mname := bytes]> f) gs hist k c s h.
Proof.
  intros Hb Hmw [Hh (sc & hc & Hc & [Hf Hm]) Hl]. split; [done| |done]. exists sc, hc. split; [done|].
  split; [by rewrite lookup_insert_ne by apply manifest_not_state|].
  intros b. rewrite lookup_insert_eq. intros [= <-]. exists m. split; [by apply manifest_round_trip|done].
Qed.

(** The store in memory agrees with the disk. *)
Record store_wf (store : JsonStore) (c : nat) : Prop := {
  st_path : so_path store = Some name;
  st_manifest : so_manifest_path store = Some mname;
  st_revision : 0 <= so_checkpoint_revision store <= Z.of_nat c;
  st_head : so_checkpoint_revision store = 0 -> so_checkpoint_head_hash store = 0;
}.

Definition tended (store : JsonStore) (d : disk) : Prop :=
  exists gs hist k c, d.2 = journal_map gs /\ Forall (fun g => sg_tail g = []) gs /\
    holds d.1 gs hist k c (so_state store) (so_journal_head_hash store) /\ store_wf store c.

Lemma tended_durable store d : tended store d -> durable d (so_state store) (so_journal_head_hash store).
Proof. intros (gs & hist & k & c & Hd & _ & Hh & _). by exists gs, hist, k, c. Qed.

Lemma persist_manifest_runs store f gs hist k c (Q : Outcome unit -> disk -> Prop) :
  holds f gs hist k c (so_state store) (so_journal_head_hash store) -> store_wf store c ->
  (forall f', holds f' gs hist k c (so_state store) (so_journal_head_hash store) ->
     Q (Returned (Ok tt)) (f', journal_map gs)) ->
  (forall f', holds f' gs hist k c (so_state store) (so_journal_head_hash store) ->
     calm = false \/ is_Some (f !! temporary_name mname (js_revision (so_state store)) pid) ->
     Q (Returned (Err Io)) (f', journal_map gs)) ->
  (forall f', holds f' gs hist k c (so_state store) (so_journal_head_hash store) -> calm = false ->
     Q Died (f', journal_map gs)) ->
  runs (persist_manifest store) (f, journal_map gs) Q.
Proof.
  intros Hh Hst Hok Herr Hdied. unfold persist_manifest. rewrite (st_manifest _ _ Hst).
  set (m := mkJournalManifest _ _ _ _ _). destruct (manifest_serializes m) as [bytes Hb].
  assert (manifest_wf hist c m) as Hm.
  { split; [done| |].
    - exists (length hist), (so_state store). rewrite firstn_all. split; [lia|].
      split; [by apply (history_revision _ _ _ (hd_history _ _ _ _ _ _ _ Hh))|].
      apply (hd_history _ _ _ _ _ _ _ Hh).
    - intros _. apply (st_head _ _ Hst). }
  assert (holds (<[mname := bytes]> f) gs hist k c (so_state store) (so_journal_head_hash store)) as Hnew
    by by eapply holds_manifest.
  eapply (runs_persist _ _ _ _ bytes); [done|..].
  - intros _. by apply Hok.
  - intros Ht. apply Herr; [done|by right].
  - intros Ec f' Ha.
    assert (holds f' gs hist k c (so_state store) (so_journal_head_hash store)) as Hf'.
    { destruct Ha as [Ha|Ha]; eapply holds_agree; [by right|exact Ha|done|by right|exact Ha|done]. }
    split; [apply Herr; [done|by left]|by apply Hdied].
Qed.

(** ** A start *)

(** A disk the reader refuses: the checkpoint, the manifest or a segment is
    larger than it reads, or there are too many segments. *)
Definition oversized (d : disk) : Prop :=
  (exists b, d.1 !! name = Some b /\ MAX_CHECKPOINT_BYTES < Z.of_nat (length b)) \/
  (exists b, d.1 !! mname = Some b /\ MAX_MANIFEST_BYTES < Z.of_nat (length b)) \/
  (exists segment b, d.2 !! segment = Some b /\ MAX_JOURNAL_SEGMENT_BYTES < Z.of_nat (length b)) \/
  (MAX_JOURNAL_SEGMENTS < size d.2)%nat.

Lemma oversized_journal f gs :
  journal_wf gs ->
  (MAX_JOURNAL_SEGMENTS < length gs)%nat \/ Exists oversized_segment gs ->
  oversized (f, journal_map gs).
Proof.
  intros Hw [Hm|(g & Hg & Hb)%Exists_exists]; right; right; cbn.
  - right. unfold journal_map. rewrite map_size_list_to_map, length_fmap; [done|].
    rewrite journal_map_keys. by apply journal_wf_NoDup.
  - left. exists (named g), (segment_bytes g). by rewrite journal_map_lookup.
Qed.

(** What a start may fail for: faults, files that are too large, a temporary
    file left behind, or a first state that cannot be written. *)
Definition open_blamed (d : disk) (s : JsonState) (e : StorageError) : Prop :=
  match e with
  | Io => calm = false \/ is_Some (d.1 !! temporary_name name (js_revision s) pid)
          \/ is_Some (d.1 !! temporary_name mname (js_revision s) pid)
  | InputTooLarge _ _ _ => oversized d
  | Json => d.1 !! name = None /\ state_to_vec s = None
  | _ => False
  end.

Definition opened (d0 : disk) (s : JsonState) (h : B256) (o : Outcome JsonStore) (d : disk) : Prop :=
  match o with
  | Returned (Ok store) => so_state store = s /\ so_journal_head_hash store = h /\ tended store d
  | Returned (Err e) => durable d s h /\ open_blamed d0 s e
  | Died => durable d s h /\ calm = false
  end.

Lemma blamed_open d s e : blamed (oversized d) e -> open_blamed d s e.
Proof. destruct e; cbn; naive_solver. Qed.

Lemma read_manifest_runs f gs hist c sc (Q : Outcome (option JournalManifest) -> disk -> Prop) :
  files_wf f hist c sc ->
  (forall om, (forall m, om = Some m -> manifest_wf hist c m) -> Q (Returned (Ok om)) (f, journal_map gs)) ->
  (forall e, blamed (oversized (f, journal_map gs)) e -> Q (Returned (Err e)) (f, journal_map gs)) ->
  (calm = false -> Q Died (f, journal_map gs)) ->
  runs (read_manifest (Some mname)) (f, journal_map gs) Q.
Proof.
  intros Hf Hok Herr Hdied. unfold read_manifest. apply runs_bind, runs_observing. intros h Hd Hh.
  injection Hd as Hdf _. apply runs_result. unfold path_exists, file_exists. rewrite Hdf.
  case_bool_decide as Hb; [|by apply runs_result, Hok].
  destruct Hb as [b Hb]. apply runs_bind. eapply (runs_bounded _ _ _ _ _ _ _ b).
  - intros P HP1 HP2. by eapply runs_read_file.
  - intros _. destruct (fw_manifest _ _ _ _ Hf b Hb) as (m & Em & Hm).
    apply runs_bind, runs_result. rewrite Em. cbn. apply runs_result, Hok. by intros ? [= <-].
  - intros Hm. apply Herr. right. left. by exists b.
  - intros Ec. split; [by apply Herr|by apply Hdied].
Qed.

Lemma load_checkpoint_runs f gs hist c sc hc (Q : Outcome (JsonState * bool * bool) -> disk -> Prop) :
  history (take c hist) sc hc -> files_wf f hist c sc ->
  Q (Returned (Ok (sc, false, false))) (f, journal_map gs) ->
  (forall e, blamed (oversized (f, journal_map gs)) e -> Q (Returned (Err e)) (f, journal_map gs)) ->
  (calm = false -> Q Died (f, journal_map gs)) ->
  runs (if bool_decide (is_Some (f !! name)) then
          bytes ← bounded (read_path (Some name)) MAX_CHECKPOINT_BYTES "checkpoint";
          fs_result (load_checkpoint bytes)
        else mret (JsonState_default, false, false)) (f, journal_map gs) Q.
Proof.
  intros Hc Hf Hok Herr Hdied. pose proof (fw_checkpoint _ _ _ _ Hf) as Hck. case_bool_decide as Hb.
  - destruct Hb as [b Hb]. rewrite Hb in Hck. apply runs_bind. eapply (runs_bounded _ _ _ _ _ _ _ b).
    + intros P HP1 HP2. by eapply runs_read_file.
    + intros _. apply runs_result. unfold load_checkpoint. rewrite Hck. cbn.
      by rewrite (chain_format start_state _ _ _ _ eq_refl Hc).
    + intros Hm. apply Herr. left. by exists b.
    + intros Ec. split; [by apply Herr|by apply Hdied].
  - apply eq_None_not_Some in Hb. rewrite Hb in Hck. subst c. rewrite take_0 in Hc. destruct Hc as [-> ->].
    by apply runs_result.
Qed.

Lemma manifest_not_ahead hist c m s h :
  history hist s h -> manifest_wf hist c m -> manifest_ahead m s h = false.
Proof.
  intros Hh [_ (i & si & Hi & Er & Hp) _]. unfold manifest_ahead. rewrite Er, (history_revision _ _ _ Hh).
  rewrite (proj2 (Z.ltb_ge _ _)) by lia. cbn. destruct (Z.eqb_spec (Z.of_nat i) (Z.of_nat (length hist))) as [E|E]; [|done].
  assert (i = length hist) as -> by lia. rewrite firstn_all in Hp.
  destruct (chain_det _ _ _ _ _ _ _ Hh Hp) as [_ <-]. by rewrite Z.eqb_refl.
Qed.

(** The manifest of a store that was just read. *)
Lemma opened_manifest f0 j0 f gs hist k c s h store :
  holds f gs hist k c s h -> Forall (fun g => sg_tail g = []) gs -> store_wf store c ->
  so_state store = s -> so_journal_head_hash store = h ->
  f !! temporary_name mname (js_revision s) pid = f0 !! temporary_name mname (js_revision s) pid ->
  runs (_ ← persist_manifest store; mret store) (f, journal_map gs) (opened (f0, j0) s h).
Proof.
  intros Hh Hclean Hst <- <- Ht. apply runs_bind.
  eapply persist_manifest_runs; [exact Hh|exact Hst|..].
  - intros f' Hf'. apply runs_result. split_and!; [done|done|]. by exists gs, hist, k, c.
  - intros f' Hf' Hb. split; [by exists gs, hist, k, c|]. rewrite Ht in Hb. cbn. tauto.
  - intros f' Hf' Ec. split; [by exists gs, hist, k, c|done].
Qed.

(** The first checkpoint. *)
Lemma opened_first f j0 gs hist k c s h store :
  holds f gs hist k c s h -> Forall (fun g => sg_tail g = []) gs -> f !! name = None ->
  so_path store = Some name ->
  runs (store ← (_ ← persist store s;
                 mret (mkJsonStore (Some name) (Some mname) h (js_revision s) h s));
        _ ← persist_manifest store; mret store) (f, journal_map gs) (opened (f, j0) s h).
Proof.
  intros Hh Hclean Hex Hp. apply runs_bind, runs_bind. unfold persist. rewrite Hp.
  destruct (state_to_vec s) as [bytes|] eqn:Eb; cycle 1.
  { apply runs_persist_None; intros; (split; [by exists gs, hist, k, c|]); cbn; auto. }
  pose proof (holds_checkpoint _ _ _ _ _ _ _ _ Eb Hh) as Hck. pose proof (hd_history _ _ _ _ _ _ _ Hh) as Hhist.
  eapply (runs_persist _ _ _ _ bytes); [done|..].
  - intros Ht. apply runs_result. eapply opened_manifest; [exact Hck|done| |done|done|].
    + split; cbn; try done; rewrite (history_revision _ _ _ Hhist); [lia|].
      intros E. destruct hist; [|done]. apply Hhist.
    + rewrite lookup_insert_ne; [done|]. apply not_eq_sym, manifest_temporary_not_state.
  - intros Ht. split; [by exists gs, hist, k, c|]. cbn. auto.
  - intros Ec f' Ha. assert (durable (f', journal_map gs) s h) as Hdur.
    { destruct Ha as [Ha|Ha].
      - exists gs, hist, k, c. split; [done|]. eapply holds_agree; [by left|exact Ha|done].
      - exists gs, hist, k, (length hist). split; [done|]. eapply holds_agree; [by left|exact Ha|done]. }
    split; (split; [done|]); [by left|done].
Qed.

Lemma open_runs f gs hist k c s h timestamp :
  holds f gs hist k c s h ->
  runs (store_open (Some name) timestamp) (f, journal_map gs) (opened (f, journal_map gs) s h).
Proof.
  intros Hholds. pose proof Hholds as [Hh (sc & hc & Hc & Hf) Hl].
  assert (durable (f, journal_map gs) s h) as Hd0 by (by exists gs, hist, k, c).
  unfold store_open. apply runs_bind, runs_observing. intros h0 Hd _. injection Hd as Hdf _.
  apply runs_result. unfold path_exists, file_exists. rewrite Hdf.
  apply runs_bind. eapply load_checkpoint_runs; [done|done| |..].
  2:{ intros e He. split; [done|by apply blamed_open]. }
  2:{ by intros. }
  apply runs_bind, runs_result. change (journal_paths (Some name)) with (@Ok StorageError Path (Some mname)).
  cbv iota beta. apply runs_bind, runs_touch; [|intros Ec; split; (split; [done|]); [by left|done]].
  apply runs_bind. eapply read_manifest_runs; [done| |..].
  2:{ intros e He. split; [done|by apply blamed_open]. }
  2:{ by intros. }
  intros om Hom. apply runs_bind, runs_result.
  assert (from_option (fun m => jm_schema_version m =? JOURNAL_SCHEMA_VERSION) true om = true) as ->.
  { destruct om as [m|]; [|done]. cbn. by rewrite (mw_schema _ _ _ (Hom m eq_refl)). }
  cbv iota beta delta [require]. set (hm := match om with Some m => _ | None => 0 end).
  assert (c = 0%nat -> hm = 0) as Hm0.
  { intros ->. unfold hm. destruct om as [m|]; [|done]. rewrite take_0 in Hc. destruct Hc as [-> _].
    destruct (Z.eqb_spec (jm_checkpoint_revision m) (js_revision start_state)) as [E|E]; [|done].
    by apply (mw_checkpoint _ _ _ (Hom m eq_refl)). }
  apply runs_bind. eapply runs_mono.
  { apply (replay_journal_runs _ _ _ gs (s, h)); [apply (ly_segments _ _ _ _ Hl)|].
    rewrite (ly_records _ _ _ _ Hl). by apply (replay_from_checkpoint hist s h k c sc hc); [|apply Hl| |apply Hl|]. }
  intros o d'. destruct o as [[[s1 h1]|e]|].
  2:{ intros [He (gs' & -> & Hr)]. split; [|apply blamed_open; eapply blamed_mono, He;
        by apply oversized_journal, Hl].
      exists gs', hist, k, c. split; [done|]. by eapply holds_repairs. }
  2:{ intros [Ec (gs' & -> & Hr)]. split; [|done]. exists gs', hist, k, c. split; [done|]. by eapply holds_repairs. }
  intros [[= -> ->] ->]. cbv iota beta.
  assert (holds f (repaired <$> gs) hist k c s h) as Hrep by (eapply holds_repairs; [apply repairs_all|done]).
  apply runs_bind, runs_result. apply runs_bind, runs_result.
  assert (from_option (fun m => manifest_ahead m s h) false om = false) as ->.
  { destruct om as [m|]; [|done]. cbn. by eapply manifest_not_ahead; [|apply Hom]. }
  cbn [negb require orb andb]. rewrite orb_false_r.
  assert (Forall (fun g => sg_tail g = []) (repaired <$> gs)) as Hclean by (by apply Forall_fmap, Forall_true).
  pose proof (history_revision _ _ _ Hc) as Erc. rewrite length_take_le in Erc by apply Hl.
  case_bool_decide as Hex; cbn [negb].
  { apply runs_bind, runs_result. eapply opened_manifest; try done. split; cbn; try done; [lia|].
    intros E. apply Hm0. lia. }
  apply eq_None_not_Some in Hex. by eapply opened_first.
Qed.

(** ** An append *)

Definition segment_of (n : nat) : Z :=
  Z.of_nat n / JOURNAL_SEGMENT_EVENTS * JOURNAL_SEGMENT_EVENTS + 1.

Lemma segment_of_range n : segment_of n <= Z.of_nat n + 1 < segment_of n + JOURNAL_SEGMENT_EVENTS.
Proof.
  unfold segment_of. pose proof (Z.div_mod (Z.of_nat n) JOURNAL_SEGMENT_EVENTS ltac:(done)).
  pose proof (Z.mod_pos_bound (Z.of_nat n) JOURNAL_SEGMENT_EVENTS ltac:(done)). lia.
Qed.

Lemma segment_number n sequence :
  sequence = Z.of_nat n + 1 -> sequence <= U64_MAX ->
  (segment ← checked_div (saturating_sub sequence 1) JOURNAL_SEGMENT_EVENTS;
   start ← checked_mul U64_MAX segment JOURNAL_SEGMENT_EVENTS;
   checked_add U64_MAX start 1) = Some (segment_of n).
Proof.
  intros -> Hm. pose proof (segment_of_range n) as Hr. unfold segment_of in *.
  unfold saturating_sub, checked_div. rewrite (proj2 (Z.leb_le 1 (Z.of_nat n + 1))) by lia.
  replace (Z.of_nat n + 1 - 1) with (Z.of_nat n) by lia. cbn [Z.eqb JOURNAL_SEGMENT_EVENTS mbind option_bind].
  unfold checked_mul, checked_add.
  rewrite (proj2 (Z.leb_le (Z.of_nat n / JOURNAL_SEGMENT_EVENTS * JOURNAL_SEGMENT_EVENTS) U64_MAX)) by lia.
  cbn [mbind option_bind]. by rewrite (proj2 (Z.leb_le _ _)) by lia.
Qed.

(** The segment an append goes to is the last one, or a new one after it. *)
Lemma append_target hist gs k c :
  layout hist gs k c -> Forall (fun g => sg_tail g = []) gs -> Z.of_nat (length hist) + 1 <= U64_MAX ->
  exists pre g, sg_first g = segment_of (length hist) /\ sg_tail g = [] /\
    (gs = pre ++ [g] \/ gs = pre /\ g = mkSegment (segment_of (length hist)) [] [] /\ named g ∉ named <$> gs) /\
    journal_wf (pre ++ [g]) /\ concat (sg_records <$> pre ++ [g]) = drop k hist /\
    Forall (fun g => sg_first g <= Z.of_nat (length hist) + 1) (pre ++ [g]).
Proof.
  intros [[Hs Hw] Hr Hb _ _] Ht Hmax. set (n := length hist) in *.
  pose proof (segment_of_range n) as Hn.
  assert (Forall (fun g => sg_first g <= segment_of n) gs) as Hle.
  { apply Forall_forall. intros g Hg. rewrite Forall_forall in Hb, Hw.
    specialize (Hb g Hg). pose proof (sw_aligned _ (Hw g Hg)) as Ha. pose proof (sw_first _ (Hw g Hg)).
    apply Z.mod_divide in Ha as [q Hq]; [|done]. unfold segment_of.
    assert (q <= Z.of_nat n / JOURNAL_SEGMENT_EVENTS); [|unfold JOURNAL_SEGMENT_EVENTS in *; lia].
    apply Z.div_le_lower_bound; [done|]. lia. }
  assert (0 <= Z.of_nat n / JOURNAL_SEGMENT_EVENTS) as Hq by (apply Z.div_pos; done || lia).
  set (new := mkSegment (segment_of n) [] []).
  assert (segment_wf new) as Hnew.
  { split; cbn; [| |constructor|apply not_elem_of_nil].
    - unfold segment_of, JOURNAL_SEGMENT_EVENTS in *. lia.
    - unfold segment_of. rewrite Z.add_simpl_r. apply Z_mod_mult. }
  assert (Forall (fun g => sg_first g < segment_of n) gs ->
    named new ∉ named <$> gs /\ journal_wf (gs ++ [new]) /\ concat (sg_records <$> gs ++ [new]) = drop k hist) as Hfresh.
  { intros Hlt. assert (journal_wf (gs ++ [new])) as Hwf.
    { split; [|apply Forall_app; by split; [|constructor]]. rewrite fmap_app. cbn.
      apply StronglySorted_app_2; [|done|by repeat constructor].
      intros x1 x2 (g & -> & Hg)%list_elem_of_fmap ->%list_elem_of_singleton. rewrite Forall_forall in Hlt. auto. }
    split_and!; [|done|].
    - pose proof (journal_wf_NoDup _ Hwf) as Hd. rewrite fmap_app in Hd.
      apply NoDup_app in Hd as (_ & Hd & _). intros Hin. apply (Hd _ Hin). by left.
    - rewrite fmap_app, concat_app. cbn. by rewrite !app_nil_r. }
  assert (Forall (fun g => sg_first g <= Z.of_nat n + 1) (gs ++ [new])) as Hbn.
  { apply Forall_app. split; [done|]. constructor; [cbn; lia|done]. }
  destruct gs as [|g pre _] using rev_ind.
  { exists [], new. destruct (Hfresh ltac:(constructor)) as (? & ? & ?). split_and!; try done. by right. }
  destruct (decide (sg_first g = segment_of n)) as [E|E].
  { exists pre, g. split_and!; [done| |by left|done|done|done]. apply Forall_app in Ht as [_ Ht].
    by apply Forall_cons in Ht as [? _]. }
  exists (pre ++ [g]), new. destruct Hfresh as (? & ? & ?); [|split_and!; try done; by right].
  apply Forall_app in Hle as [Hlp Hlg]. apply Forall_cons in Hlg as [Hlg _].
  apply Forall_app. split; [|constructor; [lia|done]].
  rewrite fmap_app in Hs. apply StronglySorted_app in Hs as (Hs & _ & _).
  apply Forall_forall. intros p Hp. assert (sg_first p < sg_first g); [|lia].
  apply Hs; [by apply list_elem_of_fmap_2|cbn; by left].
Qed.

Lemma segment_extend pre g x g' :
  journal_wf (pre ++ [g]) -> sg_first g' = sg_first g -> segment_bytes g' = segment_bytes g ++ x ->
  alter (fun content => content ++ x) (named g) (journal_map (pre ++ [g])) = journal_map (pre ++ [g']).
Proof.
  intros Hw Hf Hb. assert (g ∈ pre ++ [g]) as Hin by set_solver.
  pose proof (journal_map_lookup _ _ Hw Hin) as Hl.
  rewrite <- (journal_map_replace pre g g' []); [|done|].
  - apply map_eq. intros k. destruct (decide (k = named g)) as [->|Hk].
    + rewrite lookup_alter_eq, lookup_insert_eq, Hl. cbn. by rewrite Hb.
    + by rewrite lookup_alter_ne, lookup_insert_ne.
  - pose proof (journal_wf_NoDup _ Hw) as Hd. rewrite fmap_app in Hd.
    apply NoDup_app in Hd as (_ & Hd & _). intros Hp. apply (Hd _ Hp). by left.
Qed.

Lemma journal_wf_last pre g g' :
  sg_first g' = sg_first g -> segment_wf g' -> journal_wf (pre ++ [g]) -> journal_wf (pre ++ [g']).
Proof.
  intros E Hg [Hs Hw]. split.
  - rewrite fmap_app in *. cbn in *. by rewrite E.
  - apply Forall_app in Hw as [? _]. apply Forall_app. split; [done|by constructor].
Qed.

Lemma segment_wf_in gs g : journal_wf gs -> g ∈ gs -> segment_wf g.
Proof. intros [_ Hw] Hg. by eapply Forall_forall in Hw. Qed.

(** The last segment with the rest of a write behind it. *)
Lemma holds_torn f pre g x hist k c s h :
  10 ∉ x -> sg_tail g = [] ->
  holds f (pre ++ [g]) hist k c s h -> holds f (pre ++ [mkSegment (sg_first g) (sg_records g) x]) hist k c s h.
Proof.
  intros Hx Ht [Hh Hc [Hw Hr Hb Hs Hk]]. split; [done|done|]. split; try done.
  - eapply journal_wf_last; [| |exact Hw]; [done|].
    destruct (segment_wf_in _ g Hw) as [? ? ? ?]; [set_solver|]. by split.
  - rewrite fmap_app, concat_app in *. done.
  - apply Forall_app in Hb as [? Hg]. apply Forall_app. split; [done|].
    apply Forall_cons in Hg as [? _]. by constructor.
Qed.

Lemma holds_appended f pre g r hist k c s h s' :
  sg_first g = segment_of (length hist) -> sg_tail g = [] -> links s h r s' ->
  holds f (pre ++ [g]) hist k c s h ->
  holds f (pre ++ [mkSegment (sg_first g) (sg_records g ++ [r]) []]) (hist ++ [r]) k c s' (jr_checksum r).
Proof.
  intros Hf Ht Hk [Hh (sc & hc & Hc & [Hck Hm]) [Hw Hr Hb Hs Hle]].
  assert (jr_sequence r = Z.of_nat (length hist) + 1) as Eseq.
  { rewrite (lk_sequence _ _ _ _ Hk), (history_revision _ _ _ Hh). done. }
  split.
  - apply chain_app. exists s, h. split; [done|]. exists s'. by split.
  - exists sc, hc. rewrite take_app_le by done. split; [done|]. split; [done|]. intros b Hmb.
    destruct (Hm b Hmb) as (m & Em & [H1 (i & si & Hi & Er & Hp) H3]). exists m. split; [done|].
    split; [done| |done]. exists i, si. rewrite length_app, take_app_le by done. split_and!; [lia|done|done].
  - split.
    + eapply journal_wf_last; [| |exact Hw]; [done|].
      destruct (segment_wf_in _ g Hw) as [? ? Hrec _]; [set_solver|]. split; cbn; [done|done| |apply not_elem_of_nil].
      apply Forall_app. split; [done|]. constructor; [|done]. split; [apply (lk_sealed _ _ _ _ Hk)|].
      rewrite Hf, Eseq. apply segment_of_range.
    + rewrite fmap_app, concat_app in *. cbn in *. rewrite !app_nil_r in *.
      rewrite app_assoc, Hr, drop_app_le; [done|lia].
    + rewrite length_app. apply Forall_app in Hb as [Hb1 Hb2]. apply Forall_cons in Hb2 as [Hb2 _].
      apply Forall_app. split; [|constructor; [cbn; lia|done]].
      eapply Forall_impl; [exact Hb1|]. cbn. lia.
    + done.
    + rewrite length_app. lia.
Qed.

Lemma open_append_runs pre g gs f (Q : Outcome unit -> disk -> Prop) :
  journal_wf (pre ++ [g]) ->
  gs = pre ++ [g] \/ gs = pre /\ segment_bytes g = [] /\ named g ∉ named <$> gs ->
  Q Died (f, journal_map gs) -> Q Died (f, journal_map (pre ++ [g])) ->
  Q (Returned (Ok tt)) (f, journal_map (pre ++ [g])) ->
  runs (open_append (named g)) (f, journal_map gs) Q.
Proof.
  intros Hwf Hgs Hdied Hdied' Hok.
  assert (forall hh, ho_journal hh = journal_map gs -> ho_files hh = f ->
    disk_of (if segment_exists (named g) hh then hh else with_journal hh (<[named g := []]> (ho_journal hh)))
    = (f, journal_map (pre ++ [g]))) as Hopened.
  { intros hh Ej Ef. unfold segment_exists, disk_of. rewrite Ej. destruct Hgs as [->|(-> & Eg & Hn)].
    - rewrite bool_decide_eq_true_2; [by rewrite Ej, Ef|]. eexists. apply journal_map_lookup; [done|set_solver].
    - rewrite bool_decide_eq_false_2.
      + cbn. rewrite Ef. f_equal. rewrite <- journal_map_snoc by done. by rewrite Eg.
      + intros [x Hx]. unfold journal_map in Hx. apply elem_of_list_to_map_2 in Hx.
        apply Hn. rewrite <- journal_map_keys. by apply (list_elem_of_fmap_2 fst) in Hx. }
  unfold open_append. apply runs_append_call.
  - intros hh Hdd Hhh. injection Hdd as Ef Ej. cbn [fst snd]. rewrite (Hopened hh Ej Ef). by split; [case_match|].
  - intros n hh Hdd Hhh. injection Hdd as Ef Ej. destruct n; cbn [either].
    + split; [done|]. unfold disk_of. by rewrite Ef, Ej.
    + rewrite (Hopened hh Ej Ef). by split; [case_match|].
Qed.

(** The write of a line: any part of it without its end, or all of it. *)
Lemma append_all_runs pre g r b f (Q : Outcome unit -> disk -> Prop) :
  let g' := mkSegment (sg_first g) (sg_records g ++ [r]) [] in
  journal_wf (pre ++ [g]) -> sg_tail g = [] -> record_to_vec r = Some b ->
  (forall x, (10 ∈ x -> 10 ∈ b) ->
     Q Died (f, journal_map (pre ++ [mkSegment (sg_first g) (sg_records g) x]))) ->
  Q Died (f, journal_map (pre ++ [g'])) -> Q (Returned (Ok tt)) (f, journal_map (pre ++ [g'])) ->
  runs (append_all (named g) (b ++ [10])) (f, journal_map (pre ++ [g])) Q.
Proof.
  intros g' Hwf Hgt Hb Htorn Hdied Hok.
  assert (segment_bytes g' = segment_bytes g ++ b ++ [10]) as Eg'.
  { unfold segment_bytes, g'. cbn [sg_records sg_tail]. rewrite lines_app, Hgt, !app_nil_r.
    unfold lines at 2. cbn. unfold line. by rewrite Hb, app_nil_r. }
  unfold append_all. apply runs_append_call.
  - intros h1 Hd1 Hh1. injection Hd1 as Ef1 Ej1. split; [done|]. unfold disk_of.
    cbn [fst snd with_journal ho_files ho_journal]. by rewrite Ef1, Ej1, (segment_extend pre g (b ++ [10]) g').
  - intros n h1 Hd1 Hh1. injection Hd1 as Ef1 Ej1. split; [done|]. unfold disk_of.
    cbn [with_journal ho_files ho_journal]. rewrite Ef1, Ej1.
    destruct (decide (n <= length b)%nat) as [Hn|Hn].
    + rewrite take_app_le by done.
      rewrite (segment_extend pre g (take n b) (mkSegment (sg_first g) (sg_records g) (take n b))); [|done|done|].
      * apply Htorn. intros (i & Hi & _)%elem_of_take. by apply list_elem_of_lookup_2 in Hi.
      * unfold segment_bytes. cbn. by rewrite Hgt, app_nil_r.
    + rewrite take_ge by (rewrite length_app; cbn; lia). by rewrite (segment_extend pre g (b ++ [10]) g').
Qed.

Lemma append_runs f gs hist k c s h r s' :
  holds f gs hist k c s h -> Forall (fun g => sg_tail g = []) gs -> links s h r s' ->
  runs (append_journal r) (f, journal_map gs)
    (fun o d' => match o with
                 | Returned (Ok _) => exists gs', d' = (f, journal_map gs') /\
                     Forall (fun g => sg_tail g = []) gs' /\
                     holds f gs' (hist ++ [r]) k c s' (jr_checksum r)
                 | Returned (Err _) => False
                 | Died => durable d' s h \/ durable d' s' (jr_checksum r)
                 end).
Proof.
  intros Hh Ht Hk.
  assert (jr_sequence r = Z.of_nat (length hist) + 1) as Eseq.
  { rewrite (lk_sequence _ _ _ _ Hk), (history_revision _ _ _ (hd_history _ _ _ _ _ _ _ Hh)). done. }
  pose proof (lk_range _ _ _ _ Hk) as Hmax.
  destruct (append_target _ _ _ _ (hd_layout _ _ _ _ _ _ _ Hh) Ht ltac:(lia))
    as (pre & g & Hfirst & Hgt & Hgs & Hwf & Hrec & Hbd).
  destruct (lk_sealed _ _ _ _ Hk) as [[b Hb] _]. destruct (record_round_trip r b Hb) as (_ & Hno & _).
  assert (holds f (pre ++ [g]) hist k c s h) as Hopen.
  { destruct Hh as [? ? [? ? ? ? ?]]. by split; [| |split]. }
  unfold append_journal. rewrite (segment_number (length hist)) by lia.
  apply runs_bind, runs_result. cbn [ok_or]. rewrite <- Hfirst. fold (named g).
  apply runs_bind, runs_observing. intros h0 Hd0 _. injection Hd0 as _ Hj0. apply runs_result.
  assert (durable (f, journal_map gs) s h) as Hd by by exists gs, hist, k, c.
  assert (durable (f, journal_map (pre ++ [g])) s h) as Hd' by by exists (pre ++ [g]), hist, k, c.
  apply runs_bind, (open_append_runs pre g gs); [done| |by left|by left|].
  { destruct Hgs as [->|(-> & -> & ?)]; [by left|by right]. }
  apply runs_bind, runs_result. rewrite Hb. cbn [ok_or].
  set (g' := mkSegment (sg_first g) (sg_records g ++ [r]) []).
  pose proof (holds_appended f pre g r hist k c s h s' Hfirst Hgt Hk Hopen) as Hnew. fold g' in Hnew.
  assert (durable (f, journal_map (pre ++ [g'])) s' (jr_checksum r)) as Hdnew
    by by exists (pre ++ [g']), (hist ++ [r]), k, c.
  apply runs_bind, (append_all_runs pre g r b); [done|done|done|..].
  { intros x Hx. left. eexists _, hist, k, c. split; [done|]. apply holds_torn; [|done|done].
    intros Hin. by apply Hno, Hx. }
  { by right. }
  assert (forall Q : Outcome unit -> disk -> Prop, Q (Returned (Ok tt)) (f, journal_map (pre ++ [g'])) ->
    Q Died (f, journal_map (pre ++ [g'])) -> runs append_sync (f, journal_map (pre ++ [g'])) Q) as Hsync.
  { intros Q HQ1 HQ2. unfold append_sync. apply runs_append_call; [by apply runs_result|].
    intros n h2 Hd2 Hh2. unfold unchanged. rewrite Hd2. by split. }
  assert (exists gs', (f, journal_map (pre ++ [g'])) = (f, journal_map gs') /\
    Forall (fun g => sg_tail g = []) gs' /\ holds f gs' (hist ++ [r]) k c s' (jr_checksum r)) as Hdone.
  { exists (pre ++ [g']). split_and!; [done| |done]. apply Forall_app. split; [|by constructor].
    destruct Hgs as [->|(-> & _)]; [by apply Forall_app in Ht as [? _]|done]. }
  apply runs_bind, Hsync; [|by right]. destruct (negb _); [apply Hsync; [done|by right]|by apply runs_result].
Qed.

(** ** Maintenance *)

(** A segment that ends before the checkpoint can go. *)
Lemma holds_pruned f g gs hist k c s h :
  sg_first g + JOURNAL_SEGMENT_EVENTS <= Z.of_nat c ->
  holds f (g :: gs) hist k c s h -> holds f gs hist (k + length (sg_records g)) c s h.
Proof.
  intros Hlt [Hh Hc [[Hs Hw] Hr Hb Hst Hle]]. split; [done|done|].
  cbn in Hs, Hr. apply StronglySorted_inv in Hs as [Hs _]. apply Forall_cons in Hw as [Hg Hw].
  apply Forall_cons in Hb as [_ Hb]. pose proof (sw_first _ Hg). assert (0 < c)%nat as Hc0.
  { unfold JOURNAL_SEGMENT_EVENTS in Hlt. lia. }
  split; [by split| |done| |done].
  - rewrite <- drop_drop, <- Hr. by rewrite drop_app_length.
  - left. destruct (sg_records g) as [|r rs _] eqn:E using rev_ind; [cbn; lia|].
    rewrite length_app. cbn.
    assert (hist !! (k + length rs)%nat = Some r) as Hl.
    { rewrite <- lookup_drop, <- Hr, <- app_assoc. by apply list_lookup_middle. }
    destruct (chain_lookup _ _ _ _ _ _ _ Hh Hl) as (_ & Eq & _). cbn in Eq.
    pose proof (sw_records _ Hg) as Hrec. rewrite E in Hrec. apply Forall_app in Hrec as [_ Hrec].
    apply Forall_cons in Hrec as [[_ Hrec] _]. lia.
Qed.

Definition pruned (f : gmap string Bytes) (hist : list JournalRecord) (c : nat) (s : JsonState) (h : B256)
    (d : disk) : Prop :=
  exists gs k, d = (f, journal_map gs) /\ Forall (fun g => sg_tail g = []) gs /\ holds f gs hist k c s h.

Definition prune_step (retain_from : Z) (_ : unit) (segment : string) : fs unit :=
  match journal_segment_start segment with
  | Some first => if first <? retain_from then remove_file segment else mret tt
  | None => mret tt
  end.

Lemma prune_retained retain gs d (Q : Outcome unit -> disk -> Prop) :
  Forall segment_wf gs -> Forall (fun g => retain <= sg_first g) gs -> Q (Returned (Ok tt)) d ->
  runs (fs_fold (prune_step retain) tt (named <$> gs)) d Q.
Proof.
  intros Hw Hr HQ. induction gs as [|g gs IH]; cbn [fmap list_fmap fs_fold]; [by apply runs_result|].
  apply runs_bind. unfold prune_step. rewrite (named_start (g :: gs)) by (done || by left).
  apply Forall_cons in Hw as [_ Hw]. apply Forall_cons in Hr as [Hg Hr].
  rewrite (proj2 (Z.ltb_ge _ _)) by done. apply runs_result. by apply IH.
Qed.

Lemma prune_fold_runs retain f gs hist k c s h (Q : Outcome unit -> disk -> Prop) :
  retain + JOURNAL_SEGMENT_EVENTS <= Z.of_nat c + 1 \/ retain <= 1 ->
  Forall (fun g => sg_tail g = []) gs -> holds f gs hist k c s h ->
  (forall o d, pruned f hist c s h d -> Q o d) ->
  runs (fs_fold (prune_step retain) tt (named <$> gs)) (f, journal_map gs) Q.
Proof.
  intros Hret. revert k. induction gs as [|g gs IH]; intros k Ht Hh HQ.
  { cbn. apply runs_result, HQ. by exists [], k. }
  pose proof (ly_segments _ _ _ _ (hd_layout _ _ _ _ _ _ _ Hh)) as [Hs Hw].
  pose proof (journal_wf_NoDup _ (ly_segments _ _ _ _ (hd_layout _ _ _ _ _ _ _ Hh))) as Hd.
  assert (pruned f hist c s h (f, journal_map (g :: gs))) as Hp0 by by exists (g :: gs), k.
  destruct (Z.lt_ge_cases (sg_first g) retain) as [Hlt|Hge]; cycle 1.
  { apply prune_retained; [done| |by apply HQ]. constructor; [done|].
    cbn in Hs. apply StronglySorted_inv in Hs as [_ Hs]. rewrite Forall_fmap in Hs.
    eapply Forall_impl; [exact Hs|]. cbn. lia. }
  assert (sg_first g + JOURNAL_SEGMENT_EVENTS <= Z.of_nat c) as Hgone.
  { pose proof (sw_first _ (Forall_inv Hw)). lia. }
  pose proof (holds_pruned _ _ _ _ _ _ _ _ Hgone Hh) as Hh'. apply Forall_cons in Ht as [Hg Ht].
  assert (pruned f hist c s h (f, journal_map gs)) as Hp1 by by exists gs, (k + length (sg_records g))%nat.
  cbn in Hd. apply NoDup_cons in Hd as [Hn _]. pose proof (journal_map_tail g gs Hn) as Edel.
  cbn [fmap list_fmap fs_fold]. apply runs_bind. unfold prune_step at 1.
  rewrite (named_start (g :: gs)) by (done || by left). rewrite (proj2 (Z.ltb_lt _ _)) by done.
  unfold remove_file. apply runs_call; cycle 1.
  { intros Ec n hh Hdd Hhh. injection Hdd as Ef Ej. destruct n; (split; [done|]); unfold disk_of;
      cbn [either with_journal ho_files ho_journal]; rewrite ?Ef, ?Ej, ?Edel; split; by apply HQ. }
  intros hh Hdd Hhh. injection Hdd as Ef Ej.
  assert (segment_exists (named g) hh = true) as ->.
  { unfold segment_exists. rewrite Ej. apply bool_decide_eq_true_2. eexists.
    apply journal_map_lookup; [apply (hd_layout _ _ _ _ _ _ _ Hh)|by left]. }
  split; [done|]. unfold disk_of. cbn [fst snd with_journal ho_files ho_journal]. rewrite Ef, Ej, Edel.
  by eapply IH.
Qed.

Lemma prune_runs store f gs hist k c s h (Q : Outcome unit -> disk -> Prop) :
  so_checkpoint_revision store = Z.of_nat c -> Z.of_nat c <= U64_MAX ->
  Forall (fun g => sg_tail g = []) gs -> holds f gs hist k c s h ->
  (forall o d, pruned f hist c s h d -> Q o d) ->
  runs (prune_checkpointed_segments store) (f, journal_map gs) Q.
Proof.
  intros Hc Hmax Ht Hh HQ. unfold prune_checkpointed_segments.
  assert (pruned f hist c s h (f, journal_map gs)) as Hp0 by by exists gs, k.
  apply runs_bind, segment_paths_runs; [apply (hd_layout _ _ _ _ _ _ _ Hh)| |by intros; apply HQ|by split; apply HQ].
  set (retain := saturating_add _ _ _). apply runs_bind.
  change (runs (fs_fold (prune_step retain) tt (named <$> gs)) (f, journal_map gs)
    (fun o d' => match o with
                 | Returned (Ok _) => runs touch d' Q
                 | Returned (Err e) => Q (Returned (Err e)) d'
                 | Died => Q Died d'
                 end)).
  eapply prune_fold_runs; [|done|exact Hh|].
  - unfold retain, saturating_add, saturating_sub. rewrite Hc. unfold JOURNAL_SEGMENT_EVENTS in *.
    repeat case_match; lia || (bool_hyps; lia).
  - intros [[[]|e]|] d Hp; [|by apply HQ..]. apply runs_touch; [by apply HQ|]. intros _. split; by apply HQ.
Qed.

(** ** A commit *)

(** An operation on the store in memory and the host. *)
Definition serves (c : Host -> Outcome unit * JsonStore * Host) (d : disk)
    (Q : Outcome unit -> JsonStore -> disk -> Prop) : Prop :=
  forall h, disk_of h = d -> host_ok calm pid h ->
    host_ok calm pid (c h).2 /\ Q (c h).1.1 (c h).1.2 (disk_of (c h).2).

Definition kept (store : JsonStore) (o : Outcome unit) (store' : JsonStore) (d : disk) : Prop :=
  match o with
  | Returned _ => so_state store' = so_state store /\ tended store' d
  | Died => durable d (so_state store) (so_journal_head_hash store)
  end.

Lemma finish_runs store f gs hist k c (periodic : bool) :
  holds f gs hist k c (so_state store) (so_journal_head_hash store) ->
  Forall (fun g => sg_tail g = []) gs -> store_wf store c ->
  (periodic = true -> so_checkpoint_revision store = Z.of_nat c) -> Z.of_nat c <= U64_MAX ->
  runs (_ ← persist_manifest store; if periodic then prune_checkpointed_segments store else mret tt)
    (f, journal_map gs) (fun o d => tended store d).
Proof.
  intros Hh Ht Hst Hper Hmax. apply runs_bind.
  eapply persist_manifest_runs; [exact Hh|exact Hst|..].
  - intros f' Hf'. destruct periodic; [|apply runs_result; by exists gs, hist, k, c].
    eapply prune_runs; [by apply Hper|done|done|exact Hf'|].
    intros o d (gs' & k' & -> & Ht' & Hh'). by exists gs', hist, k', c.
  - intros f' Hf' _. by exists gs, hist, k, c.
  - intros f' Hf' _. by exists gs, hist, k, c.
Qed.

(** The checkpoint of a store. *)
Lemma checkpoint_runs store f gs hist k c :
  holds f gs hist k c (so_state store) (so_journal_head_hash store) ->
  Forall (fun g => sg_tail g = []) gs -> store_wf store c ->
  runs (persist store (so_state store)) (f, journal_map gs) (fun o d => match o with
    | Returned (Ok _) => exists f', d = (f', journal_map gs) /\
        holds f' gs hist k (length hist) (so_state store) (so_journal_head_hash store)
    | Returned (Err _) => tended store d
    | Died => durable d (so_state store) (so_journal_head_hash store)
    end).
Proof.
  intros Hh Ht Hst. assert (tended store (f, journal_map gs)) as Htend by by exists gs, hist, k, c.
  assert (c <= length hist)%nat as Hle by apply (hd_layout _ _ _ _ _ _ _ Hh).
  unfold persist. rewrite (st_path _ _ Hst). destruct (state_to_vec (so_state store)) as [bytes|] eqn:Eb; cycle 1.
  { apply runs_persist_None; intros; try done. by apply tended_durable. }
  pose proof (holds_checkpoint _ _ _ _ _ _ _ _ Eb Hh) as Hck.
  eapply (runs_persist _ _ _ _ bytes); [done|..].
  - intros _. by exists (<[name := bytes]> f).
  - done.
  - intros Ec f' Ha. assert (tended store (f', journal_map gs)) as Hf'.
    { destruct Ha as [Ha|Ha].
      - exists gs, hist, k, c. split_and!; [done|done| |done]. eapply holds_agree; [by left|exact Ha|done].
      - exists gs, hist, k, (length hist). split_and!; [done|done| |].
        + eapply holds_agree; [by left|exact Ha|done].
        + destruct Hst. split; try done. lia. }
    split; [done|by apply tended_durable].
Qed.

Lemma finish_serves store f gs hist k c (periodic : bool) hh :
  holds f gs hist k c (so_state store) (so_journal_head_hash store) ->
  Forall (fun g => sg_tail g = []) gs -> store_wf store c ->
  (periodic = true -> so_checkpoint_revision store = Z.of_nat c) -> Z.of_nat c <= U64_MAX ->
  disk_of hh = (f, journal_map gs) -> host_ok calm pid hh ->
  let '(o, h') := (_ ← persist_manifest store;
                   if periodic then prune_checkpointed_segments store else mret tt) hh in
  host_ok calm pid h' /\ kept store o store (disk_of h').
Proof.
  intros Hh Ht Hst Hper Hmax Hdd Hhh.
  destruct (finish_runs store f gs hist k c periodic Hh Ht Hst Hper Hmax hh Hdd Hhh) as [H1 H2].
  destruct ((_ ← persist_manifest store; if periodic then _ else _) hh) as [o h'].
  split; [done|]. destruct o as [r|]; cbn; [by split|]. by apply tended_durable.
Qed.

Lemma maintain_serves store f gs hist k c :
  holds f gs hist k c (so_state store) (so_journal_head_hash store) ->
  Forall (fun g => sg_tail g = []) gs -> store_wf store c -> (0 < length hist)%nat ->
  Z.of_nat (length hist) <= U64_MAX ->
  serves (maintain store) (f, journal_map gs) (kept store).
Proof.
  intros Hh Ht Hst Hpos Hmax h0 Hd0 Hh0. unfold maintain.
  assert (c <= length hist)%nat as Hle by apply (hd_layout _ _ _ _ _ _ _ Hh).
  pose proof (history_revision _ _ _ (hd_history _ _ _ _ _ _ _ Hh)) as Erev.
  destruct (_ =? 0); cycle 1.
  { pose proof (finish_serves store f gs hist k c false h0 Hh Ht Hst ltac:(done) ltac:(lia) Hd0 Hh0) as Hf.
    cbv iota in Hf. by destruct ((_ ← persist_manifest store; mret tt) h0) as [o h']. }
  destruct (checkpoint_runs store f gs hist k c Hh Ht Hst h0 Hd0 Hh0) as [H1 H2].
  destruct (persist store (so_state store) h0) as [[[[]|e]|] h1]; cbn [fst snd] in H1, H2 |- *; [|by split..].
  destruct H2 as (f' & Hd1 & Hh'). set (st := mkJsonStore _ _ _ _ _ _).
  assert (store_wf st (length hist)) as Hst' by (destruct Hst; split; cbn; try done; lia).
  pose proof (finish_serves st f' gs hist k (length hist) true h1 Hh' Ht Hst' ltac:(done) Hmax Hd1 H1) as Hf.
  cbv iota in Hf. by destruct ((_ ← persist_manifest st; prune_checkpointed_segments st) h1) as [o h'].
Qed.

Lemma commit_next_version s next :
  commit_next s = Ok next ->
  js_revision next = js_revision s + 1 /\ js_revision next <= U64_MAX /\
  js_format_version next = js_format_version s.
Proof.
  unfold commit_next. intros H. step_ok H as revision Hr. apply ok_or_Ok in Hr.
  unfold checked_add in Hr. destruct (Z.leb_spec (js_revision s + 1) U64_MAX); [|done].
  injection Hr as <-. injection H as <-. destruct (_ =? 0); [|done]. destruct (compact_version (with_revision s (js_revision s + 1))) as [-> ->]. done.
Qed.

Lemma prepare_links store command next r :
  js_format_version (so_state store) = JSON_FORMAT_VERSION ->
  prepare store (fun s => mutate s command) = Ok (next, r) ->
  links (so_state store) (so_journal_head_hash store) r next /\ process (so_state store) command = next.
Proof.
  intros Hf H. unfold prepare in H.
  step_ok H as mutated Hm. step_ok H as n Hn. step_ok H as previous Hp. step_ok H as current Hc.
  step_ok H as checksum Hk. injection H as -> <-. apply ok_or_Ok in Hp, Hc.
  destruct (mutate_version _ _ _ Hm) as [Er Ef]. destruct (commit_next_version _ _ Hn) as (Er' & Hmax & Ef').
  split.
  - split; cbn; [|lia|done|done| |done|congruence].
    + split_and!; [apply record_serializes|done|done].
    + exists previous, current. split_and!; [done|apply diff_patches|by apply value_round_trip].
  - unfold process, commit. rewrite Hm. cbn. by rewrite Hn.
Qed.

Definition committed (store : JsonStore) (command : StorageCommand) (o : Outcome unit) (store' : JsonStore)
    (d : disk) : Prop :=
  match o with
  | Returned r => tended store' d /\
      (so_state store' = process (so_state store) command \/ is_ok r = false /\ so_state store' = so_state store)
  | Died => exists s h, durable d s h /\ (s = process (so_state store) command \/ s = so_state store)
  end.

Lemma tended_format store d : tended store d -> js_format_version (so_state store) = JSON_FORMAT_VERSION.
Proof.
  intros (gs & hist & k & c & _ & _ & Hh & _).
  by apply (chain_format start_state _ _ _ _ eq_refl (hd_history _ _ _ _ _ _ _ Hh)).
Qed.

Lemma commit_serves store d command :
  tended store d -> serves (store_commit store (fun s => mutate s command)) d (committed store command).
Proof.
  intros Htend h0 Hd0 Hh0. unfold store_commit.
  destruct (prepare store _) as [[next r]|e] eqn:Ep; cycle 1.
  { cbn. rewrite Hd0. split; [done|]. split; [done|by right]. }
  destruct (prepare_links _ _ _ _ (tended_format _ _ Htend) Ep) as [Hk <-].
  destruct Htend as (gs & hist & k & c & Hd & Ht & Hh & Hst).
  destruct d as [f j]. cbn in Hd. subst j.
  destruct (append_runs f gs hist k c _ _ r _ Hh Ht Hk h0 Hd0 Hh0) as [H1 H2].
  destruct (append_journal r h0) as [[[[]|e]|] h1]; cbn [fst snd] in H1, H2 |- *; [|done|].
  2:{ split; [done|]. destruct H2 as [H2|H2]; eexists _, _; (split; [exact H2|]); [by right|by left]. }
  destruct H2 as (gs' & Hd1 & Ht' & Hh'). set (st := mkJsonStore _ _ _ _ _ _).
  assert (Z.of_nat (length (hist ++ [r])) <= U64_MAX) as Hmax.
  { rewrite length_app. cbn. pose proof (lk_range _ _ _ _ Hk). pose proof (lk_sequence _ _ _ _ Hk) as Es.
    rewrite (history_revision _ _ _ (hd_history _ _ _ _ _ _ _ Hh)) in Es. lia. }
  destruct (maintain_serves st f gs' (hist ++ [r]) k c Hh' Ht') with (h := h1) as [H3 H4]; [|rewrite length_app; cbn; lia|done|done|done|].
  { destruct Hst. by split. }
  split; [done|]. destruct (maintain st h1) as [[o st'] h']. cbn [fst snd] in *.
  destruct o as [rr|]; cbn in H4 |- *; [|by eauto]. destruct H4 as [-> ?]. by split; [|left].
Qed.

End Recovery.
