(* ===== verification/Recovery.v ===== *)
(** * Recovery after crashes

    Processes that start the store, serve commands and die, and the theorem
    that acknowledged commits survive them; a run with a torn write, and two
    runs after which the store does not start again. *)
From Stdlib Require Import ZArith Lia List Bool String Ascii.
From stdpp Require Import base gmap sets sorting strings pretty list.
From S2P Require Import Prelude.
From S2P Require Import Domain.
From S2P Require Import Models.
From S2P Require Import Storage.
From S2P Require Import Actor.
From S2P Require Import StorageProofs.
From S2P Require Import Journal.
From S2P Require Import JournalProofs.
Open Scope Z_scope.

Section Sessions.
Context `{HK : Keccak} `{HP : JsonPatch} `{HC : !JournalCodec} `{HL : !JournalLaws}.
Context (name : string).

(** A process: it starts the store and serves commands until it is shut down,
    which writes a last checkpoint, is stopped without, or dies. *)
Record Session : Type := mkSession {
  ss_process_id : Z;
  ss_timestamp : Z;
  ss_commands : list StorageCommand;
  ss_faults : list Fault;
  ss_append_faults : list Fault;
  ss_shutdown : bool;
}.

Definition boot (d : disk) (x : Session) : Host :=
  mkHost d.1 d.2 (ss_process_id x) (ss_faults x) (ss_append_faults x).

(** The commands in the order they were served, with whether they were
    acknowledged, and the store of a process that still lives. *)
Fixpoint serve (store : JsonStore) (commands : list StorageCommand) (h : Host)
    : list (StorageCommand * bool) * option JsonStore * Host :=
  match commands with
  | [] => ([], Some store, h)
  | command :: commands =>
      match store_commit store (fun s => mutate s command) h with
      | (Returned r, store, h) =>
          let '(log, store, h) := serve store commands h in ((command, is_ok r) :: log, store, h)
      | (Died, _, h) => ([(command, false)], None, h)
      end
  end.

Definition run_session (d : disk) (x : Session) : list (StorageCommand * bool) * disk :=
  match store_open (Some name) (ss_timestamp x) (boot d x) with
  | (Returned (Ok store), h) =>
      match serve store (ss_commands x) h with
      | (log, Some store, h) =>
          (log, disk_of (if ss_shutdown x then (store_shutdown store h).2 else h))
      | (log, None, h) => (log, disk_of h)
      end
  | (_, h) => ([], disk_of h)
  end.

Fixpoint run_sessions (d : disk) (xs : list Session) : list (StorageCommand * bool) * disk :=
  match xs with
  | [] => ([], d)
  | x :: xs =>
      let '(log, d) := run_session d x in
      let '(log', d) := run_sessions d xs in (log ++ log', d)
  end.

(** Every acknowledged command was applied, in order; of the others some. *)
Inductive explains : list (StorageCommand * bool) -> list StorageCommand -> Prop :=
  | explains_nil : explains [] []
  | explains_applied command acknowledged log applied :
      explains log applied -> explains ((command, acknowledged) :: log) (command :: applied)
  | explains_lost command log applied :
      explains log applied -> explains ((command, false) :: log) applied.

Lemma explains_app log log' applied applied' :
  explains log applied -> explains log' applied' -> explains (log ++ log') (applied ++ applied').
Proof. intros H H'. induction H; cbn; [done|by constructor..]. Qed.

Lemma process_all_app s l k : process_all s (l ++ k) = process_all (process_all s l) k.
Proof. apply fold_left_app. Qed.


Lemma serve_durable pid commands store h :
  tended name store (disk_of h) -> host_ok false pid h ->
  let '(log, alive, h') := serve store commands h in
  exists applied hash, explains log applied /\
    durable name (disk_of h') (process_all (so_state store) applied) hash /\
    forall store', alive = Some store' -> host_ok false pid h' /\ tended name store' (disk_of h') /\
      so_state store' = process_all (so_state store) applied.
Proof.
  revert store h. induction commands as [|command commands IH]; intros store h Ht Hh; cbn [serve].
  { exists [], (so_journal_head_hash store). split; [constructor|]. split; [by apply tended_durable|].
    by intros store' [= <-]. }
  destruct (commit_serves false pid name store _ command Ht h eq_refl Hh) as [H1 H2].
  destruct (store_commit store _ h) as [[[r|] st] h1]; cbn [fst snd] in H1, H2.
  - destruct H2 as [Ht' Hs]. specialize (IH st h1 Ht' H1).
    destruct (serve st commands h1) as [[log alive] h'].
    destruct IH as (applied & hash & He & Hd). destruct Hs as [Es|[Er Es]]; rewrite Es in Hd.
    + exists (command :: applied), hash. split; [by constructor|done].
    + exists applied, hash. rewrite Er. split; [by constructor|done].
  - destruct H2 as (s & hash & Hd & [->| ->]).
    + exists [command], hash. split; [repeat constructor|done].
    + exists [], hash. split; [repeat constructor|done].
Qed.

Lemma shutdown_durable pid store h :
  tended name store (disk_of h) -> host_ok false pid h ->
  exists hash, durable name (disk_of (store_shutdown store h).2) (so_state store) hash.
Proof.
  intros Ht Hh. pose proof Ht as (gs & hist & k & c & Hd & Hclean & Hholds & Hst).
  destruct (disk_of h) as [f j] eqn:Ed. cbn in Hd. subst j.
  destruct (checkpoint_runs false pid name store f gs hist k c Hholds Hclean Hst h Ed Hh) as [_ H].
  unfold store_shutdown. destruct (persist store (so_state store) h) as [[[[]|e]|] h1]; cbn in H |- *.
  - destruct H as (f' & -> & H). by exists (so_journal_head_hash store), gs, hist, k, (length hist).
  - exists (so_journal_head_hash store). by apply tended_durable.
  - by exists (so_journal_head_hash store).
Qed.

Lemma session_durable d x s h :
  Forall no_append_error (ss_append_faults x) -> durable name d s h ->
  let '(log, d') := run_session d x in
  exists applied hash, explains log applied /\ durable name d' (process_all s applied) hash.
Proof.
  intros Hf (gs & hist & k & c & Hd & Hh). unfold run_session.
  assert (host_ok false (ss_process_id x) (boot d x)) as Hboot by done.
  assert (disk_of (boot d x) = (d.1, journal_map gs)) as Hdd by (unfold disk_of, boot; cbn; by rewrite Hd).
  destruct (open_runs false (ss_process_id x) name d.1 gs hist k c s h (ss_timestamp x) Hh (boot d x) Hdd Hboot) as [H1 H2].
  destruct (store_open (Some name) _ _) as [[[store|e]|] h1]; cbn [fst snd] in H1, H2.
  - destruct H2 as (<- & <- & Ht). pose proof (serve_durable _ (ss_commands x) store h1 Ht H1) as Hserve.
    destruct (serve store (ss_commands x) h1) as [[log [store'|]] h'];
      destruct Hserve as (applied & hash & He & Hdur & Hlive); [|by exists applied, hash].
    destruct (ss_shutdown x); [|by exists applied, hash].
    destruct (Hlive store' eq_refl) as (Hok & Htend & Hs).
    destruct (shutdown_durable _ store' h' Htend Hok) as [hash' Hd']. rewrite Hs in Hd'.
    by exists applied, hash'.
  - exists [], h. split; [constructor|apply H2].
  - exists [], h. split; [constructor|apply H2].
Qed.

Lemma sessions_durable xs d s h :
  Forall (fun x => Forall no_append_error (ss_append_faults x)) xs -> durable name d s h ->
  let '(log, d') := run_sessions d xs in
  exists applied hash, explains log applied /\ durable name d' (process_all s applied) hash.
Proof.
  intros Hxs. revert d s h. induction Hxs as [|x xs Hx _ IH]; intros d s h Hd; cbn [run_sessions].
  { exists [], h. by split; [constructor|]. }
  pose proof (session_durable d x s h Hx Hd) as Hses. destruct (run_session d x) as [log d1].
  destruct Hses as (applied & hash & He & Hd1). specialize (IH d1 _ _ Hd1).
  destruct (run_sessions d1 xs) as [log' d2]. destruct IH as (applied' & hash' & He' & Hd2).
  exists (applied ++ applied'), hash'. rewrite process_all_app. by split; [apply explains_app|].
Qed.

Lemma empty_durable : durable name (∅, ∅) JsonState_default 0.
Proof.
  exists [], [], 0%nat, 0%nat. split; [done|]. split; [done| |].
  - exists JsonState_default, 0. split; [done|]. split; [done|]. by intros b.
  - split; [split; [apply SSorted_nil|constructor]|done|constructor|by right|done].
Qed.

(** The reasons a start of the store has for failing. *)
Definition start_failure (d : disk) (x : Session) (s : JsonState) (e : StorageError) : Prop :=
  match e with
  | Io => ss_faults x <> [] \/
          is_Some (d.1 !! temporary_name name (js_revision s) (ss_process_id x)) \/
          is_Some (d.1 !! temporary_name (manifest_name name) (js_revision s) (ss_process_id x))
  | InputTooLarge _ _ _ => oversized name d
  | Json => d.1 !! name = None /\ state_to_vec s = None
  | _ => False
  end.

(** C6: Acknowledged commits survive crashes.  Starting from nothing, let
    processes start the store, serve commands and perhaps shut it down, and let
    any file-system call fail or kill the process half way, only that an append
    to the journal does not return an error.  Then the disk holds one state: the
    one that all acknowledged commands, and perhaps some of the others, lead to
    in their order.  The next start finds exactly this state, whatever was cut
    off, or fails for one of four reasons and no other: a call of the start
    fails; the checkpoint, the manifest, a segment or the number of segments on
    the disk exceeds the bound the reader enforces; a temporary file of its
    revision and process id was left behind; or there is no checkpoint yet and
    the first state cannot be written.  In particular the records of the
    journal always parse, chain and replay. *)
Theorem acknowledged_commits_survive xs x :
  Forall (fun y => Forall no_append_error (ss_append_faults y)) xs ->
  Forall no_append_error (ss_append_faults x) ->
  let '(log, d) := run_sessions (∅, ∅) xs in
  exists applied, explains log applied /\
    let s := process_all JsonState_default applied in
    match (store_open (Some name) (ss_timestamp x) (boot d x)).1 with
    | Returned (Ok store) => so_state store = s
    | Returned (Err e) => start_failure d x s e
    | Died => ss_faults x <> []
    end.
Proof.
  intros Hxs Hx. pose proof (sessions_durable xs _ _ _ Hxs empty_durable) as Hd.
  destruct (run_sessions _ xs) as [log d]. destruct Hd as (applied & hash & He & Hd).
  exists applied. split; [done|]. cbv zeta. set (s := process_all _ _) in *.
  destruct Hd as (gs & hist & k & c & Ej & Hh).
  set (calm := bool_decide (ss_faults x = [])).
  assert (host_ok calm (ss_process_id x) (boot d x)) as Hboot.
  { split_and!; [done|done|]. unfold calm. by rewrite bool_decide_eq_true. }
  assert (disk_of (boot d x) = (d.1, journal_map gs)) as Hdd by (unfold disk_of, boot; cbn; by rewrite Ej).
  assert (calm = false -> ss_faults x <> []) as Hc by (unfold calm; by rewrite bool_decide_eq_false).
  destruct (open_runs calm _ name d.1 gs hist k c s hash (ss_timestamp x) Hh _ Hdd Hboot) as [_ H].
  destruct (store_open (Some name) _ _) as [[[store|e]|] h1]; cbn [fst snd] in H |- *.
  - by destruct H as (<- & _).
  - destruct H as [_ H]. destruct e; cbn in H |- *; try done; [naive_solver|].
    destruct d. cbn in *. by subst.
  - destruct H. auto.
Qed.

End Sessions.

(** ** Example runs *)

Module RecoveryExample.

#[local] Existing Instance sum_keccak.

(** A state that only has cursors, as numbers. *)
Definition cursor_numbers (entry : Z * BlockRef) : list Z :=
  let '(chain, b) := entry in
  [chain; blk_number b; blk_hash b; blk_parent_hash b; blk_timestamp b; blk_gas_limit b].
Fixpoint cursors_of (l : list Z) : option (list (Z * BlockRef)) :=
  match l with
  | [] => Some []
  | chain :: number :: hash :: parent :: timestamp :: gas :: l =>
      entries ← cursors_of l; Some ((chain, mkBlockRef number hash parent timestamp gas) :: entries)
  | _ => None
  end.

Definition is_nil {A} (l : list A) : bool := match l with [] => true | _ => false end.
Definition only_cursors (s : JsonState) : bool :=
  (js_format_version s =? 4) && is_nil (js_canonical_blocks s) && is_nil (js_canonical_logs s)
  && is_nil (js_canonical_receipts s) && is_nil (js_exact_snapshots s) && is_nil (js_plans s)
  && is_nil (js_final_preflights s) && is_nil (js_transactions s)
  && is_nil (js_rate_movement_reservations s) && is_nil (js_transaction_attempts s)
  && is_nil (js_conformance_records s) && is_nil (js_reconciliation_records s)
  && is_nil (js_topology_history s) && is_nil (js_rate_episodes s) && is_nil (js_top_k_apy_memory s).
Definition state_numbers (s : JsonState) : option (list Z) :=
  if only_cursors s
  then Some (js_revision s :: concat (cursor_numbers <$> map_to_list (js_chain_cursors s)))
  else None.
Definition state_of_numbers (l : list Z) : option JsonState :=
  match l with
  | [] => None
  | revision :: l =>
      entries ← cursors_of l;
      Some (mkJsonState 4 revision [] [] [] (list_to_map entries) [] [] [] [] [] [] [] [] [] [] [])
  end.

(** Numbers without the line feed. *)
Definition escape (x : Z) : Z := if x <? 10 then x else x + 1.
Definition unescape (x : Z) : Z := if x <? 10 then x else x - 1.

#[local] Instance number_patch : JsonPatch := {|
  Value := list Z; Patch := list Z;
  json_diff _ w := w;
  json_patch _ p := Some p;
|}.
#[local] Instance number_codec : JournalCodec := {|
  state_to_value := state_numbers;
  state_from_value := state_of_numbers;
  state_to_vec := state_numbers;
  state_from_slice := state_of_numbers;
  manifest_to_vec m := Some [jm_schema_version m; jm_checkpoint_revision m; jm_checkpoint_head_hash m;
                             jm_journal_revision m; jm_journal_head_hash m];
  manifest_from_slice b :=
    match b with
    | [schema; revision; head; journal; journal_head] =>
        Some (mkJournalManifest schema revision head journal journal_head)
    | _ => None
    end;
  record_to_vec r := Some (escape <$> [jr_schema_version r; jr_sequence r; jr_previous_hash r; jr_checksum r]
                                       ++ jr_patch r);
  record_from_slice b :=
    match unescape <$> b with
    | schema :: sequence :: previous :: checksum :: patch =>
        Some (mkJournalRecord _ schema sequence previous patch checksum)
    | _ => None
    end;
  checksum_to_vec '(schema, sequence, previous, patch) := Some (schema :: sequence :: previous :: patch);
|}.

Lemma cursors_round_trip l : cursors_of (concat (cursor_numbers <$> l)) = Some l.
Proof. induction l as [|[chain []] l IH]; [done|]. cbn. by rewrite IH. Qed.

Lemma is_nil_true {A} (l : list A) : is_nil l = true -> l = [].
Proof. by destruct l. Qed.

Lemma state_numbers_round_trip s l : state_numbers s = Some l -> state_of_numbers l = Some s.
Proof.
  unfold state_numbers. destruct (only_cursors s) eqn:E; [|done]. intros [= <-]. cbn.
  rewrite cursors_round_trip. cbn. rewrite list_to_map_to_list. unfold only_cursors in E.
  rewrite !andb_true_iff in E. destruct E as [[[[[[[[[[[[[[E H1] H2] H3] H4] H5] H6] H7] H8] H9] H10] H11] H12] H13] H14].
  apply Z.eqb_eq in E. repeat match goal with H : is_nil _ = true |- _ => apply is_nil_true in H end.
  destruct s; cbn in *. by subst.
Qed.

Lemma escape_round_trip (l : list Z) : unescape <$> (escape <$> l) = l.
Proof.
  induction l as [|x l IH]; [done|]. cbn. rewrite IH. f_equal. unfold escape, unescape.
  destruct (Z.ltb_spec x 10) as [H|H]; [by rewrite (proj2 (Z.ltb_lt _ _))|].
  rewrite (proj2 (Z.ltb_ge _ _)) by lia. lia.
Qed.

Lemma escape_no_line_feed (l : list Z) : 10 ∉ escape <$> l.
Proof.
  intros (x & E & _)%list_elem_of_fmap. unfold escape in E. destruct (Z.ltb_spec x 10); lia.
Qed.

#[local] Instance number_laws : JournalLaws.
Proof.
  split.
  - done.
  - apply state_numbers_round_trip.
  - apply state_numbers_round_trip.
  - intros m. by eexists.
  - intros [] b [= <-]. done.
  - intros r. by eexists.
  - intros [schema sequence previous patch checksum] b [= <-]. split_and!;
      [|apply (escape_no_line_feed ([schema; sequence; previous; checksum] ++ patch))|done].
    pose proof (escape_round_trip ([schema; sequence; previous; checksum] ++ patch)) as E.
    cbn in E |- *. injection E as E1 E2 E3 E4 E5. rewrite E1, E2, E3, E4. by f_equal; f_equal.
Qed.

Definition move (n : Z) : StorageCommand := RewindToAncestor 1 (mkBlockRef n (100 + n) (99 + n) n 0).
Definition session (pid : Z) (commands : list StorageCommand) (faults append_faults : list Fault) : Session :=
  mkSession pid 0 commands faults append_faults false.

(** The second write is cut off after three numbers, the next process dies
    while it writes its manifest, the third one serves again and is shut down. *)
Definition stormy : list Session :=
  [session 7 [move 1; move 2; move 3] [] [Works; Works; Works; Works; Works; Crashes 3];
   session 8 [move 4] (replicate 13 Works ++ [Crashes 0]) [];
   mkSession 9 0 [move 5; move 6] [] [] true].

Example stormy_log :
  (run_sessions "state.json" (∅, ∅) stormy).1
  = [(move 1, true); (move 2, false); (move 5, true); (move 6, true)].
Proof. by vm_compute. Qed.

(** The state a session finds. *)
Definition found (d : disk) (x : Session) : Outcome JsonState :=
  match (store_open (Some "state.json"%string) (ss_timestamp x) (boot d x)).1 with
  | Returned (Ok store) => Returned (Ok (so_state store))
  | Returned (Err e) => Returned (Err e)
  | Died => Died
  end.
Definition served (commands : list StorageCommand) : JsonState := process_all JsonState_default commands.

Lemma acknowledged_commits_survive_witness :
  (let '(log, d) := run_sessions "state.json" (∅, ∅) stormy in
   exists applied, explains log applied /\
     let s := process_all JsonState_default applied in
     match (store_open (Some "state.json"%string) 0 (boot d (session 9 [] [] []))).1 with
     | Returned (Ok store) => so_state store = s
     | Returned (Err e) => start_failure "state.json" d (session 9 [] [] []) s e
     | Died => [] <> [] :> list Fault
     end) /\
  match found (run_sessions "state.json" (∅, ∅) stormy).2 (session 9 [] [] []) with
  | Returned (Ok s) => js_revision s = 3 /\ js_chain_cursors s = js_chain_cursors (served [move 1; move 5; move 6])
  | _ => False
  end.
Proof.
  split.
  - apply (acknowledged_commits_survive "state.json" stormy (session 9 [] [] []));
      repeat constructor.
  - by vm_compute.
Defined.

(** A sync of the journal that returns an error leaves its record behind.  The
    store goes on from the state before it, and the next acknowledged command
    is written under the same sequence number: the store never starts again. *)
Definition failed_sync : list Session :=
  [session 7 [move 1; move 2; move 3] [] [Works; Works; Works; Works; Works; Works; Fails 0]].
Example failed_append_blocks_start :
  (run_sessions "state.json" (∅, ∅) failed_sync).1 = [(move 1, true); (move 2, false); (move 3, true)] /\
  found (run_sessions "state.json" (∅, ∅) failed_sync).2 (session 8 [] [] [])
  = Returned (Err (Invariant "journal manifest is ahead of durable records")).
Proof. by vm_compute. Qed.

(** A process that dies while it writes a manifest leaves the temporary file,
    whose name only has the revision and the process id: a restart under the
    same process id fails, and would forever, while another one starts. *)
Definition killed : list Session := [session 1 [move 1] (replicate 16 Works ++ [Crashes 0]) []].
Example temporary_blocks_restart :
  (run_sessions "state.json" (∅, ∅) killed).1 = [(move 1, false)] /\
  found (run_sessions "state.json" (∅, ∅) killed).2 (session 1 [] [] []) = Returned (Err Io) /\
  match found (run_sessions "state.json" (∅, ∅) killed).2 (session 2 [] [] []) with
  | Returned (Ok s) => js_revision s = 1
  | _ => False
  end.
Proof. by vm_compute. Qed.

End RecoveryExample.
