(* ===== verification/Controller.v ===== *)
(** * Runtime control of a vault

    Models [src/src/runtime/controller.rs]: the states a managed vault is in,
    the graph of their transitions, the status record and the registry that
    holds one per vault; and [src/src/runtime/readiness.rs]: what the process
    may do, given which of its parts are ready.  An update works on the status
    in place: what it wrote before it failed stays written. *)
From Stdlib Require Import ZArith Lia Bool String.
From stdpp Require Import base gmap sets strings list.
From S2P Require Import Prelude.
From S2P Require Import Domain.
From S2P Require Import Config.
Open Scope Z_scope.

Inductive RuntimeVaultState : Type :=
| RvStarting
| RvCatchingUp
| RvObserve
| RvShadow
| RvAutomatic
| RvPendingTransaction
| RvPendingDeployment
| RvIdleLocksActive
| RvLockAccountingUncertain
| RvPausedByOperator
| RvPausedUnsupportedConfiguration
| RvPausedSignerFailure
| RvPausedTransactionFailure
| RvPausedReconciliationFailure
| RvRecovery.
#[global] Instance RuntimeVaultState_eq_dec : EqDecision RuntimeVaultState.
Proof. solve_decision. Defined.

Definition can_start_transaction (s : RuntimeVaultState) : bool :=
  match s with RvAutomatic => true | _ => false end.

Definition is_paused (s : RuntimeVaultState) : bool :=
  match s with
  | RvLockAccountingUncertain | RvPausedByOperator | RvPausedUnsupportedConfiguration
  | RvPausedSignerFailure | RvPausedTransactionFailure | RvPausedReconciliationFailure => true
  | _ => false
  end.

Definition is_persistent_quarantine (s : RuntimeVaultState) : bool :=
  match s with
  | RvPausedByOperator | RvPausedSignerFailure | RvPausedTransactionFailure
  | RvPausedReconciliationFailure => true
  | _ => false
  end.

Definition execution_scope_ready (s : RuntimeVaultState) : bool :=
  match s with RvAutomatic | RvPendingTransaction => true | _ => false end.

(** The states that may follow another one. *)
Definition permitted_next (s next : RuntimeVaultState) : bool :=
  match s with
  | RvStarting =>
      match next with
      | RvCatchingUp | RvRecovery | RvPausedUnsupportedConfiguration => true
      | _ => false
      end
  | RvCatchingUp | RvRecovery =>
      match next with
      | RvObserve | RvShadow | RvAutomatic | RvPendingTransaction | RvPendingDeployment
      | RvIdleLocksActive | RvLockAccountingUncertain | RvPausedUnsupportedConfiguration
      | RvPausedSignerFailure | RvPausedTransactionFailure | RvPausedReconciliationFailure => true
      | _ => false
      end
  | RvObserve | RvShadow =>
      match next with
      | RvObserve | RvShadow | RvAutomatic | RvCatchingUp | RvPendingDeployment
      | RvIdleLocksActive | RvLockAccountingUncertain | RvPausedByOperator
      | RvPausedUnsupportedConfiguration => true
      | _ => false
      end
  | RvAutomatic =>
      match next with
      | RvPendingTransaction | RvPendingDeployment | RvIdleLocksActive | RvCatchingUp
      | RvPausedByOperator | RvPausedUnsupportedConfiguration | RvPausedSignerFailure
      | RvLockAccountingUncertain => true
      | _ => false
      end
  | RvPendingTransaction =>
      match next with
      | RvAutomatic | RvCatchingUp | RvPendingDeployment | RvIdleLocksActive
      | RvLockAccountingUncertain | RvPausedTransactionFailure | RvPausedReconciliationFailure
      | RvPausedUnsupportedConfiguration | RvPausedSignerFailure | RvRecovery => true
      | _ => false
      end
  | RvPendingDeployment | RvIdleLocksActive =>
      match next with
      | RvObserve | RvShadow | RvAutomatic | RvCatchingUp | RvPendingTransaction
      | RvPendingDeployment | RvIdleLocksActive | RvLockAccountingUncertain | RvPausedByOperator
      | RvPausedUnsupportedConfiguration | RvPausedSignerFailure => true
      | _ => false
      end
  | RvLockAccountingUncertain | RvPausedUnsupportedConfiguration =>
      match next with
      | RvRecovery | RvCatchingUp | RvObserve | RvShadow | RvAutomatic | RvPendingTransaction
      | RvPendingDeployment | RvIdleLocksActive | RvLockAccountingUncertain
      | RvPausedUnsupportedConfiguration | RvPausedSignerFailure => true
      | _ => false
      end
  | RvPausedByOperator | RvPausedSignerFailure | RvPausedTransactionFailure
  | RvPausedReconciliationFailure =>
      match next with
      | RvRecovery | RvCatchingUp | RvObserve | RvShadow | RvPendingTransaction
      | RvIdleLocksActive | RvLockAccountingUncertain | RvPausedUnsupportedConfiguration
      | RvPausedSignerFailure => true
      | _ => false
      end
  end.

Definition vault_permits (s next : RuntimeVaultState) : bool :=
  bool_decide (s = next) || permitted_next s next.

Record VaultRuntimeStatus : Type := mkVaultRuntimeStatus {
  vs_vault : VaultAddress;
  vs_state : RuntimeVaultState;
  vs_canonical_head : option BlockRef;
  vs_snapshot_hash : option B256;
  vs_plan_id : option PlanId;
  vs_episode_id : option EpisodeId;
  vs_transaction_id : option TransactionId;
  vs_current_rate_spread : option Z;
  vs_reason : option string;
  vs_revision : Z;
}.

Inductive ControllerError : Type := CeInvalidTransition | CeRevisionOverflow.
#[global] Instance ControllerError_eq_dec : EqDecision ControllerError.
Proof. solve_decision. Defined.

Definition starting (vault : VaultAddress) : VaultRuntimeStatus :=
  mkVaultRuntimeStatus vault RvStarting None None None None None None None 0.

(** ** Updates of a status *)

Definition vs_set_state (v : VaultRuntimeStatus) (state : RuntimeVaultState)
    (reason : option string) : VaultRuntimeStatus :=
  mkVaultRuntimeStatus (vs_vault v) state (vs_canonical_head v) (vs_snapshot_hash v)
    (vs_plan_id v) (vs_episode_id v) (vs_transaction_id v) (vs_current_rate_spread v) reason
    (vs_revision v).
Definition vs_set_planning (v : VaultRuntimeStatus) (plan_id : option PlanId)
    (episode_id : option EpisodeId) : VaultRuntimeStatus :=
  mkVaultRuntimeStatus (vs_vault v) (vs_state v) (vs_canonical_head v) (vs_snapshot_hash v)
    plan_id episode_id (vs_transaction_id v) (vs_current_rate_spread v) (vs_reason v)
    (vs_revision v).
Definition vs_set_revision (v : VaultRuntimeStatus) (revision : Z) : VaultRuntimeStatus :=
  mkVaultRuntimeStatus (vs_vault v) (vs_state v) (vs_canonical_head v) (vs_snapshot_hash v)
    (vs_plan_id v) (vs_episode_id v) (vs_transaction_id v) (vs_current_rate_spread v)
    (vs_reason v) revision.
Definition vs_set_head (v : VaultRuntimeStatus) (head : BlockRef) : VaultRuntimeStatus :=
  mkVaultRuntimeStatus (vs_vault v) (vs_state v) (Some head) (vs_snapshot_hash v)
    (vs_plan_id v) (vs_episode_id v) (vs_transaction_id v) (vs_current_rate_spread v)
    (vs_reason v) (vs_revision v).
Definition vs_set_exact (v : VaultRuntimeStatus) (head : BlockRef) (snapshot_hash : B256)
    (spread : Z) (transaction_id : option TransactionId) : VaultRuntimeStatus :=
  mkVaultRuntimeStatus (vs_vault v) (vs_state v) (Some head) (Some snapshot_hash)
    (vs_plan_id v) (vs_episode_id v) transaction_id (Some spread) (vs_reason v) (vs_revision v).

(** A closure on [&mut VaultRuntimeStatus]. *)
Definition Update : Type :=
  VaultRuntimeStatus -> VaultRuntimeStatus * result ControllerError unit.

(** The closures that write fields first and go on with [f]. *)
Definition writing (write : VaultRuntimeStatus -> VaultRuntimeStatus) (f : Update) : Update :=
  fun v => f (write v).
(** [f?; g] *)
Definition and_then (f g : Update) : Update := fun v =>
  match f v with
  | (v, Ok _) => g v
  | (v, Err e) => (v, Err e)
  end.
Definition done_update : Update := fun v => (v, Ok tt).

(** Counts the update, at the end of both writers. *)
Definition bump_revision : Update := fun v =>
  match checked_add U64_MAX (vs_revision v) 1 with
  | Some revision => (vs_set_revision v revision, Ok tt)
  | None => (v, Err CeRevisionOverflow)
  end.

Definition transition (next : RuntimeVaultState) (reason : option string) : Update := fun v =>
  if negb (vault_permits (vs_state v) next) then (v, Err CeInvalidTransition)
  else bump_revision (vs_set_state v next reason).

Definition record_planning (plan_id : option PlanId) (episode_id : option EpisodeId) : Update :=
  fun v => bump_revision (vs_set_planning v plan_id episode_id).

(** ** The registry *)

Notation RuntimeRegistry := (gmap VaultAddress VaultRuntimeStatus).

Definition initialize (r : RuntimeRegistry) (vaults : list VaultAddress) : RuntimeRegistry :=
  fold_left (fun r vault =>
    match r !! vault with
    | Some _ => r
    | None => <[vault := starting vault]> r
    end) vaults r.

Definition runtime_get (r : RuntimeRegistry) (vault : VaultAddress) : option VaultRuntimeStatus :=
  r !! vault.

Definition runtime_all (r : RuntimeRegistry) : list VaultRuntimeStatus :=
  (btree_entries r).*2.

Definition runtime_update (r : RuntimeRegistry) (vault : VaultAddress) (f : Update)
    : RuntimeRegistry * result ControllerError unit :=
  match r !! vault with
  | None => (r, Err CeInvalidTransition)
  | Some status => let '(status, answer) := f status in (<[vault := status]> r, answer)
  end.

(** ** Readiness *)

Inductive ReadinessReason : Type :=
| RrConfiguration
| RrProtocolIdentity
| RrProvider
| RrChainLag
| RrStorage
| RrExactState
| RrSigner
| RrRuntimeState
| RrPendingTransaction
| RrOperatorPause
| RrNonExecuteMode.
#[global] Instance ReadinessReason_eq_dec : EqDecision ReadinessReason.
Proof. solve_decision. Defined.
#[global] Instance ReadinessReason_countable : Countable ReadinessReason.
Proof.
  refine (inj_countable
    (fun r => match r with RrConfiguration => 0 | RrProtocolIdentity => 1 | RrProvider => 2
              | RrChainLag => 3 | RrStorage => 4 | RrExactState => 5 | RrSigner => 6
              | RrRuntimeState => 7 | RrPendingTransaction => 8 | RrOperatorPause => 9
              | RrNonExecuteMode => 10 end)
    (fun n => match n with 0 => Some RrConfiguration | 1 => Some RrProtocolIdentity
              | 2 => Some RrProvider | 3 => Some RrChainLag | 4 => Some RrStorage
              | 5 => Some RrExactState | 6 => Some RrSigner | 7 => Some RrRuntimeState
              | 8 => Some RrPendingTransaction | 9 => Some RrOperatorPause
              | 10 => Some RrNonExecuteMode | _ => None end) _).
  by intros [].
Defined.

Record ReadinessInputs : Type := mkReadinessInputs {
  ri_mode : RuntimeMode;
  ri_configuration_valid : bool;
  ri_protocol_identity_valid : bool;
  ri_providers_ready : bool;
  ri_chain_caught_up : bool;
  ri_storage_ready : bool;
  ri_exact_state_ready : bool;
  ri_signer_ready : bool;
  ri_execution_scopes_ready : bool;
  ri_pending_transaction : bool;
  ri_operator_paused : bool;
}.

Record ReadinessReport : Type := mkReadinessReport {
  rp_ready : bool;
  rp_ready_for_observation : bool;
  rp_ready_for_shadow : bool;
  rp_ready_for_execute : bool;
  rp_reasons : gset ReadinessReason;
}.

(** [if condition { reasons.insert(reason) }] *)
Definition reason_if (condition : bool) (reason : ReadinessReason) (reasons : gset ReadinessReason)
    : gset ReadinessReason :=
  if condition then {[reason]} ∪ reasons else reasons.

Definition evaluate_readiness (input : ReadinessInputs) : ReadinessReport :=
  let reasons := fold_left (fun reasons (gate : bool * ReadinessReason) =>
      reason_if (negb gate.1) gate.2 reasons)
    [(ri_configuration_valid input, RrConfiguration);
     (ri_protocol_identity_valid input, RrProtocolIdentity);
     (ri_providers_ready input, RrProvider);
     (ri_chain_caught_up input, RrChainLag);
     (ri_storage_ready input, RrStorage);
     (ri_exact_state_ready input, RrExactState)] ∅ in
  let reasons := reason_if (ri_operator_paused input) RrOperatorPause reasons in
  let observation := ri_configuration_valid input && ri_protocol_identity_valid input
    && ri_providers_ready input && ri_chain_caught_up input && ri_storage_ready input
    && negb (ri_operator_paused input) in
  let shadow := observation && ri_exact_state_ready input in
  let execute := shadow && bool_decide (ri_mode input = ModeExecute) && ri_signer_ready input
    && ri_execution_scopes_ready input && negb (ri_pending_transaction input) in
  let reasons :=
    if bool_decide (ri_mode input <> ModeExecute) then {[RrNonExecuteMode]} ∪ reasons
    else
      reason_if (ri_pending_transaction input) RrPendingTransaction
        (reason_if (negb (ri_execution_scopes_ready input)) RrRuntimeState
          (reason_if (negb (ri_signer_ready input)) RrSigner reasons)) in
  mkReadinessReport
    match ri_mode input with
    | ModeObserve => observation
    | ModeShadow => shadow
    | ModeExecute => execute
    end
    observation shadow execute reasons.

(** ** Lemmas on updates *)

Lemma permits_cases s next :
  vault_permits s next = true -> s = next \/ permitted_next s next = true.
Proof. unfold vault_permits. rewrite orb_true_iff, bool_decide_eq_true. done. Qed.

Lemma permits_next s next : permitted_next s next = true -> vault_permits s next = true.
Proof. unfold vault_permits. intros ->. apply orb_true_r. Qed.

Lemma permits_refl s : vault_permits s s = true.
Proof. unfold vault_permits. by rewrite bool_decide_eq_true_2. Qed.

(** The successful writers, one count each. *)
Inductive written (v v' : VaultRuntimeStatus) : Prop :=
| written_transition next reason :
    vault_permits (vs_state v) next = true ->
    v' = vs_set_revision (vs_set_state v next reason) (vs_revision v + 1) -> written v v'
| written_planning plan_id episode_id :
    v' = vs_set_revision (vs_set_planning v plan_id episode_id) (vs_revision v + 1) ->
    written v v'.

Lemma transition_ok next reason v v' :
  transition next reason v = (v', Ok tt) ->
  vault_permits (vs_state v) next = true /\ vs_revision v + 1 <= U64_MAX /\
  v' = vs_set_revision (vs_set_state v next reason) (vs_revision v + 1).
Proof.
  unfold transition, bump_revision, checked_add. cbn.
  destruct (vault_permits _ _) eqn:E; cbn; [|done].
  case_match eqn:Ec; [|done]. revert Ec. case_match eqn:El; [|done]. intros [= <-] [= <-].
  apply Z.leb_le in El. by rewrite Z.add_comm in *.
Qed.
