(* ===== verification/ApiStore.v ===== *)
(** * The operator API's artifact cache

    Models the [ApiDataStore] of [src/src/api/routes.rs] with the records of
    [src/src/api/dto.rs]: the snapshots, rate views, plans and episodes the
    runtime publishes per vault, guarded against producers of an orphaned
    branch and against stale plans, and the view of the transactions.  The
    planning coordinator and the executor read their inputs from it. *)
From Stdlib Require Import ZArith Lia Bool.
From stdpp Require Import base gmap sets strings list.
From S2P Require Import Prelude.
From S2P Require Import Domain.
From S2P Require Import Config.
From S2P Require Import Episodes.
From S2P Require Import Models.
From S2P Require Import Storage.
From S2P Require Import Actor.
From S2P Require Import Controller.
Open Scope Z_scope.

Record TransactionView : Type := mkTransactionView {
  tv_transaction_hash : B256;
  tv_state : TransactionState;
  tv_included_block : option Z;
  tv_revision : Z;
}.

Record MarketRateView : Type := mkMarketRateView {
  mv_market_id : MarketId;
  mv_spot_borrow_rate_per_second_wad : Z;
  mv_spot_supply_rate_per_second_wad : Z;
  mv_utilization_wad : Z;
}.

Record RateSnapshotView : Type := mkRateSnapshotView {
  rv_vault : VaultAddress;
  rv_snapshot_hash : B256;
  rv_block : BlockRef;
  rv_spread_rate_per_second_wad : Z;
  rv_spread_apr_bps : Z;
  rv_utilization_spread_wad : Z;
  rv_utilization_spread_bps : Z;
  rv_selected_objective : StrategyObjective;
  rv_vault_strategy : VaultStrategy;
  rv_selected_objective_spread_wad : Z;
  rv_markets : list MarketRateView;
}.

Record VaultArtifacts : Type := mkVaultArtifacts {
  va_chain_id : option Z;
  va_canonical_state_epoch : Z;
  va_snapshot : option ExactVaultSnapshot;
  va_rates : option RateSnapshotView;
  va_plan : option V2Plan;
  va_episode : option RateSignalEpisode;
}.
Definition VaultArtifacts_default : VaultArtifacts := mkVaultArtifacts None 0 None None None None.

Record ApiStateEpoch : Type := mkApiStateEpoch {
  ae_chain_id : Z;
  ae_vault : VaultAddress;
  ae_generation : Z;
}.

Record ApiStatePublication : Type := mkApiStatePublication {
  ap_snapshot : ExactVaultSnapshot;
  ap_rates : RateSnapshotView;
  ap_projection_block : BlockRef;
}.

(** The only way to make a publication. *)
Definition from_validated_projection (snapshot : ExactVaultSnapshot) (rates : RateSnapshotView)
    (projection_block : BlockRef) : option ApiStatePublication :=
  let snapshot_block := ctx_block (ev_context snapshot) in
  let projection_follows :=
    (blk_number snapshot_block <? blk_number projection_block)
    || bool_decide (projection_block = snapshot_block) in
  if negb projection_follows
     || (blk_timestamp projection_block <? blk_timestamp snapshot_block)
     || negb (bool_decide (rv_block rates = projection_block))
  then None
  else Some (mkApiStatePublication snapshot rates projection_block).

Record ApiDataStore : Type := mkApiDataStore {
  ad_vaults : gmap VaultAddress VaultArtifacts;
  ad_transactions : gmap B256 TransactionView;
}.
Definition ApiDataStore_default : ApiDataStore := mkApiDataStore ∅ ∅.

(** [entry(vault).or_default()] *)
Definition artifacts (s : ApiDataStore) (vault : VaultAddress) : VaultArtifacts :=
  default VaultArtifacts_default (ad_vaults s !! vault).
Definition put (s : ApiDataStore) (vault : VaultAddress) (a : VaultArtifacts) : ApiDataStore :=
  mkApiDataStore (<[vault := a]> (ad_vaults s)) (ad_transactions s).

Definition va_set_chain (a : VaultArtifacts) (chain_id : Z) : VaultArtifacts :=
  mkVaultArtifacts (Some chain_id) (va_canonical_state_epoch a) (va_snapshot a) (va_rates a)
    (va_plan a) (va_episode a).
Definition va_set_plan (a : VaultArtifacts) (plan : option V2Plan) : VaultArtifacts :=
  mkVaultArtifacts (va_chain_id a) (va_canonical_state_epoch a) (va_snapshot a) (va_rates a)
    plan (va_episode a).
Definition va_set_state (a : VaultArtifacts) (snapshot : ExactVaultSnapshot)
    (rates : RateSnapshotView) : VaultArtifacts :=
  mkVaultArtifacts (va_chain_id a) (va_canonical_state_epoch a) (Some snapshot) (Some rates)
    (va_plan a) (va_episode a).
Definition va_set_episode (a : VaultArtifacts) (episode : RateSignalEpisode) : VaultArtifacts :=
  mkVaultArtifacts (va_chain_id a) (va_canonical_state_epoch a) (va_snapshot a) (va_rates a)
    (va_plan a) (Some episode).

(** Another chain already owns the entry. *)
Definition other_chain (a : VaultArtifacts) (chain_id : Z) : bool :=
  match va_chain_id a with Some existing => negb (existing =? chain_id) | None => false end.

Definition state_epoch (s : ApiDataStore) (chain_id : Z) (vault : VaultAddress)
    : ApiDataStore * option ApiStateEpoch :=
  let a := artifacts s vault in
  if other_chain a chain_id then (put s vault a, None)
  else (put s vault (va_set_chain a chain_id),
        Some (mkApiStateEpoch chain_id vault (va_canonical_state_epoch a))).

Definition rewind_vault (s : ApiDataStore) (chain_id : Z) (vault : VaultAddress)
    : ApiDataStore * option ApiStateEpoch :=
  let a := artifacts s vault in
  if other_chain a chain_id then (put s vault a, None)
  else
    match checked_add U64_MAX (va_canonical_state_epoch a) 1 with
    | None => (put s vault a, None)
    | Some next_epoch =>
        (put s vault (mkVaultArtifacts (Some chain_id) next_epoch None None None None),
         Some (mkApiStateEpoch chain_id vault next_epoch))
    end.

(** A cached block is newer than, or conflicts with, the offered one. *)
Definition supersedes (current offered : BlockRef) : bool :=
  (blk_number offered <? blk_number current)
  || ((blk_number current =? blk_number offered) && negb (blk_hash current =? blk_hash offered)).

Definition plan_bound (plan : V2Plan) (snapshot : ExactVaultSnapshot) : bool :=
  bool_decide (pl_snapshot plan = ev_context snapshot)
  && (pl_config_revision plan =? ctx_static_config_revision (ev_context snapshot))
  && (pl_topology_revision plan =? ctx_dynamic_topology_revision (ev_context snapshot)).

Definition record_state (s : ApiDataStore) (epoch : ApiStateEpoch)
    (publication : ApiStatePublication) : ApiDataStore * bool :=
  let snapshot := ap_snapshot publication in
  let rates := ap_rates publication in
  let projection_block := ap_projection_block publication in
  let vault := pv_vault (ev_parent snapshot) in
  if negb (ctx_chain_id (ev_context snapshot) =? ae_chain_id epoch)
     || negb (vault =? ae_vault epoch)
     || negb (rv_vault rates =? vault)
     || negb (rv_snapshot_hash rates =? ev_snapshot_hash snapshot)
     || negb (bool_decide (rv_block rates = projection_block))
  then (s, false)
  else
    let a := artifacts s vault in
    if negb (bool_decide (va_chain_id a = Some (ae_chain_id epoch)))
       || negb (va_canonical_state_epoch a =? ae_generation epoch)
       || match va_snapshot a with
          | Some current => supersedes (ctx_block (ev_context current))
                              (ctx_block (ev_context snapshot))
          | None => false
          end
       || match va_rates a with
          | Some current => supersedes (rv_block current) projection_block
          | None => false
          end
    then (put s vault a, false)
    else
      let a := match va_plan a with
               | Some plan => if plan_bound plan snapshot then a else va_set_plan a None
               | None => a
               end in
      (put s vault (va_set_state a snapshot rates), true).

Definition validated_state (s : ApiDataStore) (vault : VaultAddress) : option ApiStatePublication :=
  a ← ad_vaults s !! vault;
  chain_id ← va_chain_id a;
  snapshot ← va_snapshot a;
  rates ← va_rates a;
  if negb (ctx_chain_id (ev_context snapshot) =? chain_id)
     || negb (pv_vault (ev_parent snapshot) =? vault)
     || negb (rv_vault rates =? vault)
     || negb (rv_snapshot_hash rates =? ev_snapshot_hash snapshot)
  then None
  else from_validated_projection snapshot rates (rv_block rates).

Definition api_snapshot (s : ApiDataStore) (vault : VaultAddress) : option ExactVaultSnapshot :=
  a ← ad_vaults s !! vault; va_snapshot a.
Definition api_rates (s : ApiDataStore) (vault : VaultAddress) : option RateSnapshotView :=
  a ← ad_vaults s !! vault; va_rates a.
Definition api_plan (s : ApiDataStore) (vault : VaultAddress) : option V2Plan :=
  a ← ad_vaults s !! vault; va_plan a.
Definition api_episode (s : ApiDataStore) (vault : VaultAddress) : option RateSignalEpisode :=
  a ← ad_vaults s !! vault; va_episode a.

(** The snapshot block and planner generation, compared in this order. *)
Definition plan_generation (plan : V2Plan) : list Z :=
  [blk_number (ctx_block (pl_snapshot plan)); pl_planner_generation plan].

Definition record_plan (s : ApiDataStore) (plan : V2Plan) : ApiDataStore * bool :=
  let a := artifacts s (pl_vault plan) in
  let snapshot_matches :=
    match va_snapshot a with
    | Some snapshot => plan_bound plan snapshot
    | None => false
    end in
  let plan_is_current :=
    match va_plan a with
    | Some current =>
        lex_lt (plan_generation current) (plan_generation plan)
        || (bool_decide (plan_generation current = plan_generation plan)
            && (pl_plan_id current =? pl_plan_id plan))
    | None => true
    end in
  if negb snapshot_matches || negb plan_is_current then (put s (pl_vault plan) a, false)
  else (put s (pl_vault plan) (va_set_plan a (Some plan)), true).

(** Removes the plan of a known vault when it satisfies a condition. *)
Definition clear_plan_when (s : ApiDataStore) (vault : VaultAddress) (p : V2Plan -> bool)
    : ApiDataStore * bool :=
  match ad_vaults s !! vault with
  | None => (s, false)
  | Some a =>
      match va_plan a with
      | Some plan => if p plan then (put s vault (va_set_plan a None), true) else (s, false)
      | None => (s, false)
      end
  end.

Definition clear_plan_if (s : ApiDataStore) (vault : VaultAddress) (plan_id : PlanId)
    : ApiDataStore * bool :=
  clear_plan_when s vault (fun plan => pl_plan_id plan =? plan_id).

Definition clear_plan_through (s : ApiDataStore) (vault : VaultAddress)
    (block_number planner_generation : Z) : ApiDataStore * bool :=
  clear_plan_when s vault (fun plan =>
    (blk_number (ctx_block (pl_snapshot plan)) <=? block_number)
    && (pl_planner_generation plan <=? planner_generation)).

Definition record_api_episode (s : ApiDataStore) (episode : RateSignalEpisode) : ApiDataStore :=
  put s (re_vault episode) (va_set_episode (artifacts s (re_vault episode)) episode).

Definition record_transaction (s : ApiDataStore) (transaction : TransactionView) : ApiDataStore :=
  mkApiDataStore (ad_vaults s)
    (<[tv_transaction_hash transaction := transaction]> (ad_transactions s)).

(** The views of the durable summaries, the last of a hash. *)
Definition refresh_transactions (s : ApiDataStore) (stored : JsonState) (runtime : RuntimeRegistry)
    : ApiDataStore :=
  let revision vault :=
    from_option vs_revision 0
      (last (List.filter (fun status => vs_vault status =? vault) (runtime_all runtime))) in
  mkApiDataStore (ad_vaults s)
    (fold_left (fun views summary =>
       <[sm_transaction_hash summary :=
           mkTransactionView (sm_transaction_hash summary) (sm_state summary)
             (sm_included_block summary) (revision (sm_vault summary))]> views)
       (load_transaction_summaries stored) ∅).

Definition api_transactions (s : ApiDataStore) : list TransactionView :=
  (btree_entries (ad_transactions s)).*2.

(** ** The calls, as one type *)

Inductive ApiCall : Type :=
| AcStateEpoch (chain_id : Z) (vault : VaultAddress)
| AcRewind (chain_id : Z) (vault : VaultAddress)
| AcRecordState (epoch : ApiStateEpoch) (snapshot : ExactVaultSnapshot) (rates : RateSnapshotView)
    (projection_block : BlockRef)
| AcRecordPlan (plan : V2Plan)
| AcClearPlanIf (vault : VaultAddress) (plan_id : PlanId)
| AcClearPlanThrough (vault : VaultAddress) (block_number planner_generation : Z)
| AcRecordEpisode (episode : RateSignalEpisode)
| AcRecordTransaction (transaction : TransactionView)
| AcRefreshTransactions (stored : JsonState) (runtime : RuntimeRegistry).

Definition api_call (s : ApiDataStore) (c : ApiCall) : ApiDataStore :=
  match c with
  | AcStateEpoch chain_id vault => (state_epoch s chain_id vault).1
  | AcRewind chain_id vault => (rewind_vault s chain_id vault).1
  | AcRecordState epoch snapshot rates block =>
      match from_validated_projection snapshot rates block with
      | Some publication => (record_state s epoch publication).1
      | None => s
      end
  | AcRecordPlan plan => (record_plan s plan).1
  | AcClearPlanIf vault plan_id => (clear_plan_if s vault plan_id).1
  | AcClearPlanThrough vault block generation => (clear_plan_through s vault block generation).1
  | AcRecordEpisode episode => record_api_episode s episode
  | AcRecordTransaction transaction => record_transaction s transaction
  | AcRefreshTransactions stored runtime => refresh_transactions s stored runtime
  end.

Definition api_run (s : ApiDataStore) (calls : list ApiCall) : ApiDataStore :=
  fold_left api_call calls s.

(** ** What the cache promises *)

(** The artifacts of a vault belong together. *)
Definition state_wf (vault : VaultAddress) (a : VaultArtifacts) : Prop :=
  match va_snapshot a, va_rates a with
  | None, None => True
  | Some snapshot, Some rates =>
      va_chain_id a = Some (ctx_chain_id (ev_context snapshot)) /\
      pv_vault (ev_parent snapshot) = vault /\ rv_vault rates = vault /\
      rv_snapshot_hash rates = ev_snapshot_hash snapshot /\
      is_Some (from_validated_projection snapshot rates (rv_block rates))
  | _, _ => False
  end.

Definition plan_wf (vault : VaultAddress) (a : VaultArtifacts) : Prop :=
  forall plan, va_plan a = Some plan ->
    pl_vault plan = vault /\ exists snapshot, va_snapshot a = Some snapshot /\
      plan_bound plan snapshot = true.

Definition artifacts_wf (vault : VaultAddress) (a : VaultArtifacts) : Prop :=
  state_wf vault a /\ plan_wf vault a.

Definition api_wf (s : ApiDataStore) : Prop :=
  forall vault, artifacts_wf vault (artifacts s vault).

Lemma artifacts_put s vault a v :
  artifacts (put s vault a) v = if bool_decide (v = vault) then a else artifacts s v.
Proof.
  unfold artifacts, put. cbn. case_bool_decide as E.
  - subst. by rewrite lookup_insert_eq.
  - by rewrite lookup_insert_ne by congruence.
Qed.

Lemma artifacts_put_same s vault v : artifacts (put s vault (artifacts s vault)) v = artifacts s v.
Proof. rewrite artifacts_put. by case_bool_decide; subst. Qed.

Lemma default_wf vault : artifacts_wf vault VaultArtifacts_default.
Proof. by split. Qed.

Lemma put_wf s vault a : api_wf s -> artifacts_wf vault a -> api_wf (put s vault a).
Proof. intros Hs Ha v. rewrite artifacts_put. by case_bool_decide; subst. Qed.

Lemma without_plan_wf vault a : artifacts_wf vault a -> artifacts_wf vault (va_set_plan a None).
Proof. intros [Hs _]. by split. Qed.

Lemma clear_when_artifacts s vault p v :
  artifacts (clear_plan_when s vault p).1 v =
  if bool_decide (v = vault) && from_option p false (va_plan (artifacts s v))
  then va_set_plan (artifacts s v) None else artifacts s v.
Proof.
  unfold clear_plan_when. destruct (ad_vaults s !! vault) as [a|] eqn:E; cbn.
  - assert (artifacts s vault = a) as Ha by (unfold artifacts; by rewrite E).
    destruct (va_plan a) as [plan|] eqn:Ep; [destruct (p plan) eqn:Eq|];
      cbn; rewrite ?artifacts_put; case_bool_decide as Ev; subst; cbn; try done;
      rewrite Ep; cbn; try done; by rewrite Eq.
  - case_bool_decide as Ev; [|done]. subst. unfold artifacts. by rewrite E.
Qed.

Lemma clear_when_wf s vault p : api_wf s -> api_wf (clear_plan_when s vault p).1.
Proof.
  intros Hs v. rewrite clear_when_artifacts. case_match; [|done]. by apply without_plan_wf.
Qed.

Lemma api_rewind_wf s chain_id vault : api_wf s -> api_wf (rewind_vault s chain_id vault).1.
Proof.
  intros Hs. unfold rewind_vault. repeat case_match; cbn; by apply put_wf.
Qed.

Lemma epoch_wf s chain_id vault : api_wf s -> api_wf (state_epoch s chain_id vault).1.
Proof.
  intros Hs. unfold state_epoch, other_chain. destruct (Hs vault) as [H1 H2].
  destruct (va_chain_id _) as [c|] eqn:Ec; cbn.
  - destruct (Z.eqb_spec c chain_id) as [->|]; cbn; apply put_wf; try done.
    split; [|done]. revert H1. unfold state_wf. cbn. by rewrite Ec.
  - apply put_wf; [done|]. split; [|done]. revert H1. unfold state_wf. cbn. rewrite Ec.
    repeat case_match; naive_solver.
Qed.

Lemma record_plan_wf s plan : api_wf s -> api_wf (record_plan s plan).1.
Proof.
  intros Hs. unfold record_plan. destruct (Hs (pl_vault plan)) as [H1 H2].
  set (a := artifacts s (pl_vault plan)) in *.
  destruct (va_snapshot a) as [snapshot|] eqn:Ea; cbn; [|by apply put_wf].
  destruct (plan_bound plan snapshot) eqn:Eb; cbn; [|by apply put_wf].
  destruct (negb _); cbn; apply put_wf; try done. split; [done|].
  intros p [= <-]. split; [done|]. by exists snapshot.
Qed.

Lemma projection_block_is snapshot rates block publication :
  from_validated_projection snapshot rates block = Some publication ->
  publication = mkApiStatePublication snapshot rates block /\ rv_block rates = block.
Proof.
  unfold from_validated_projection. case_match eqn:E; [done|]. intros [= <-].
  rewrite !orb_false_iff in E. destruct E as [_ E]. apply negb_false_iff in E.
  by bool_spec E.
Qed.

Lemma record_state_wf s epoch snapshot rates block publication :
  from_validated_projection snapshot rates block = Some publication -> api_wf s ->
  api_wf (record_state s epoch publication).1.
Proof.
  intros Hp Hs. pose proof (projection_block_is _ _ _ _ Hp) as [-> Hb]. unfold record_state. cbn.
  set (vault := pv_vault (ev_parent snapshot)).
  case_match eqn:E1; [done|]. rewrite !orb_false_iff, !negb_false_iff, !Z.eqb_eq in E1.
  destruct E1 as ((((Ec & Ev) & Er) & Eh) & _).
  case_match eqn:E2; cbn; [by apply put_wf|].
  rewrite !orb_false_iff, !negb_false_iff, bool_decide_eq_true in E2.
  destruct E2 as (((Eg & _) & _) & _). apply put_wf; [done|].
  destruct (Hs vault) as [_ H2]. split.
  - unfold state_wf. cbn. rewrite Hb, Hp. rewrite Ec. split_and!; try done.
    destruct (va_plan (artifacts s vault)) as [p|]; [case_match|]; done.
  - intros plan. cbn. destruct (va_plan (artifacts s vault)) as [p|] eqn:Ea; [|by rewrite Ea].
    destruct (plan_bound p snapshot) eqn:Eb; cbn; [|done]. rewrite Ea. intros [= <-].
    split; [by apply H2|]. by exists snapshot.
Qed.

Lemma api_call_wf s c : api_wf s -> api_wf (api_call s c).
Proof.
  intros Hs. destruct c; cbn.
  - by apply epoch_wf.
  - by apply api_rewind_wf.
  - case_match eqn:E; [|done]. by eapply record_state_wf.
  - by apply record_plan_wf.
  - by apply clear_when_wf.
  - by apply clear_when_wf.
  - apply put_wf; [done|]. destruct (Hs (re_vault episode)) as [H1 H2]. by split.
  - done.
  - done.
Qed.

Lemma api_run_wf s calls : api_wf s -> api_wf (api_run s calls).
Proof.
  revert s. induction calls as [|c calls IH]; intros s Hs; [done|]. by apply IH, api_call_wf.
Qed.

Lemma api_default_wf : api_wf ApiDataStore_default.
Proof. intros v. apply default_wf. Qed.

Lemma api_plan_artifacts s vault : api_plan s vault = va_plan (artifacts s vault).
Proof. unfold api_plan, artifacts. by destruct (ad_vaults s !! vault). Qed.
Lemma api_snapshot_artifacts s vault : api_snapshot s vault = va_snapshot (artifacts s vault).
Proof. unfold api_snapshot, artifacts. by destruct (ad_vaults s !! vault). Qed.
Lemma api_rates_artifacts s vault : api_rates s vault = va_rates (artifacts s vault).
Proof. unfold api_rates, artifacts. by destruct (ad_vaults s !! vault). Qed.

Lemma validated_state_wf s vault :
  api_wf s -> validated_state s vault =
    (snapshot ← api_snapshot s vault; rates ← api_rates s vault;
     from_validated_projection snapshot rates (rv_block rates)).
Proof.
  intros Hs. destruct (Hs vault) as [Hw _]. unfold validated_state, api_snapshot, api_rates.
  revert Hw. unfold artifacts, state_wf. destruct (ad_vaults s !! vault) as [a|]; cbn; [|done].
  destruct (va_snapshot a) as [snapshot|], (va_rates a) as [rates|]; cbn; try done.
  - intros (-> & -> & -> & -> & _). cbn. by rewrite !Z.eqb_refl.
  - by destruct (va_chain_id a).
Qed.

(** ** Branch epochs *)

Lemma supersedes_false current offered :
  supersedes current offered = false <->
  blk_number current < blk_number offered \/
  blk_number current = blk_number offered /\ blk_hash current = blk_hash offered.
Proof. unfold supersedes. destruct (Z.ltb_spec (blk_number offered) (blk_number current)),
  (Z.eqb_spec (blk_number current) (blk_number offered)),
  (Z.eqb_spec (blk_hash current) (blk_hash offered)); cbn; split; try done; intros; try lia;
  naive_solver lia. Qed.

Definition epoch_of (s : ApiDataStore) (vault : VaultAddress) : Z :=
  va_canonical_state_epoch (artifacts s vault).

Lemma epoch_put s vault a v :
  epoch_of (put s vault a) v = if bool_decide (v = vault) then va_canonical_state_epoch a
                               else epoch_of s v.
Proof. unfold epoch_of. rewrite artifacts_put. by case_bool_decide. Qed.

Lemma record_state_epoch s epoch publication v :
  epoch_of (record_state s epoch publication).1 v = epoch_of s v.
Proof.
  unfold record_state. destruct (_ || negb (bool_decide (rv_block _ = _))); [done|].
  destruct (_ || match va_rates _ with _ => _ end); cbn; rewrite epoch_put;
    case_bool_decide; subst; try done.
  unfold epoch_of. cbn. destruct (va_plan _); [|done]. by case_match.
Qed.

Lemma rewind_epoch s chain_id vault v :
  epoch_of (rewind_vault s chain_id vault).1 v =
  epoch_of s v + if bool_decide (v = vault /\ is_Some (rewind_vault s chain_id vault).2)
                 then 1 else 0.
Proof.
  unfold rewind_vault. case_match; cbn;
    [|case_match eqn:E; cbn]; rewrite epoch_put; repeat case_bool_decide; subst;
    unfold epoch_of; cbn; try lia; try (destruct_and?; try done; lia).
  - apply checked_add_Some in E as [-> _]. lia.
  - exfalso. naive_solver.
Qed.

Lemma call_epoch s c v : epoch_of s v <= epoch_of (api_call s c) v.
Proof.
  destruct c; cbn.
  - unfold state_epoch. case_match; cbn; rewrite epoch_put; case_bool_decide; subst; done.
  - rewrite rewind_epoch. case_bool_decide; lia.
  - case_match; [|done]. by rewrite record_state_epoch.
  - unfold record_plan. case_match; cbn; rewrite epoch_put; case_bool_decide; subst; done.
  - unfold epoch_of, clear_plan_if. rewrite clear_when_artifacts. by case_match.
  - unfold epoch_of, clear_plan_through. rewrite clear_when_artifacts. by case_match.
  - unfold record_api_episode. rewrite epoch_put. case_bool_decide; subst; done.
  - done.
  - done.
Qed.

Lemma run_epoch s calls v : epoch_of s v <= epoch_of (api_run s calls) v.
Proof.
  revert s. induction calls as [|c calls IH]; intros s; [done|].
  etransitivity; [apply (call_epoch s c)|apply IH].
Qed.

Lemma stale_epoch_refused s epoch publication :
  ae_generation epoch < epoch_of s (ae_vault epoch) ->
  (record_state s epoch publication).2 = false /\
  forall v, artifacts (record_state s epoch publication).1 v = artifacts s v.
Proof.
  intros Hg. unfold record_state.
  destruct (_ || negb (bool_decide (rv_block _ = _))) eqn:E; [done|].
  rewrite !orb_false_iff, !negb_false_iff, !Z.eqb_eq in E.
  destruct E as ((((_ & Ev) & _) & _) & _). rewrite Ev in *.
  change (va_canonical_state_epoch (artifacts s (ae_vault epoch))) with (epoch_of s (ae_vault epoch)).
  destruct (Z.eqb_spec (epoch_of s (ae_vault epoch)) (ae_generation epoch)); [lia|].
  cbn. rewrite orb_true_r. cbn. split; [done|]. intros v. apply artifacts_put_same.
Qed.

(** The artifacts of a vault are those of the current branch only: an epoch
    captured before a rewind of its vault publishes nothing after it, whatever
    was called before, in between and after. *)
Theorem orphaned_branch_never_published before between after chain_id vault epoch rewound
    snapshot rates block :
  let s0 := api_run ApiDataStore_default before in
  (state_epoch s0 chain_id vault).2 = Some epoch ->
  let s1 := api_run (state_epoch s0 chain_id vault).1 between in
  (rewind_vault s1 chain_id vault).2 = Some rewound ->
  let s2 := api_run (rewind_vault s1 chain_id vault).1 after in
  forall v, artifacts (api_call s2 (AcRecordState epoch snapshot rates block)) v = artifacts s2 v.
Proof.
  intros s0 He s1 Hr s2 v. cbn. case_match eqn:E; [|done].
  apply stale_epoch_refused. revert He. unfold state_epoch at 1. case_match; [done|].
  intros [= <-]. cbn.
  pose proof (run_epoch (rewind_vault s1 chain_id vault).1 after vault) as H2.
  pose proof (run_epoch (state_epoch s0 chain_id vault).1 between vault) as H1.
  pose proof (call_epoch s0 (AcStateEpoch chain_id vault) vault) as H0. cbn in H0.
  rewrite rewind_epoch in H2. rewrite Hr, bool_decide_eq_true_2 in H2 by (split; eauto).
  unfold s2, s1, epoch_of in *. lia.
Qed.

(** C33: The cache is coherent after any sequence of calls. The published rates
    of a vault are those of its published snapshot, at the same or a later
    block, so the validated read never fails on a published vault; and a
    published plan was made for exactly the published snapshot and its
    configuration and topology revisions. *)
Theorem api_cache_coherent (calls : list ApiCall) (vault : VaultAddress) :
  let s := api_run ApiDataStore_default calls in
  (is_Some (validated_state s vault) <-> is_Some (api_snapshot s vault)) /\
  (is_Some (api_snapshot s vault) <-> is_Some (api_rates s vault)) /\
  (forall publication, validated_state s vault = Some publication ->
     api_snapshot s vault = Some (ap_snapshot publication) /\
     api_rates s vault = Some (ap_rates publication) /\
     pv_vault (ev_parent (ap_snapshot publication)) = vault /\
     rv_snapshot_hash (ap_rates publication) = ev_snapshot_hash (ap_snapshot publication) /\
     rv_block (ap_rates publication) = ap_projection_block publication /\
     blk_number (ctx_block (ev_context (ap_snapshot publication)))
       <= blk_number (ap_projection_block publication)) /\
  (forall plan, api_plan s vault = Some plan ->
     pl_vault plan = vault /\ exists snapshot, api_snapshot s vault = Some snapshot /\
       pl_snapshot plan = ev_context snapshot /\
       pl_config_revision plan = ctx_static_config_revision (ev_context snapshot) /\
       pl_topology_revision plan = ctx_dynamic_topology_revision (ev_context snapshot)).
Proof.
  intros s. assert (api_wf s) as Hw by (apply api_run_wf, api_default_wf).
  rewrite (validated_state_wf s vault Hw), api_snapshot_artifacts, api_rates_artifacts,
    api_plan_artifacts.
  destruct (Hw vault) as [Hs Hp]. set (a := artifacts s vault) in *. clearbody a.
  split_and!.
  - revert Hs. unfold state_wf.
    destruct (va_snapshot a) as [sn|], (va_rates a) as [r|]; cbn; try done.
    intros (_ & _ & _ & _ & H). split; [eauto|done].
  - revert Hs. unfold state_wf.
    destruct (va_snapshot a) as [sn|], (va_rates a) as [r|]; by cbn.
  - revert Hs. unfold state_wf.
    destruct (va_snapshot a) as [sn|], (va_rates a) as [r|]; cbn; try done.
    intros (_ & Hv & _ & Hh & _) publication Hf. pose proof Hf as Hf'.
    apply projection_block_is in Hf' as [-> _]. cbn. split_and!; try done.
    revert Hf. unfold from_validated_projection. case_match eqn:E; [done|]. intros _.
    rewrite !orb_false_iff, negb_false_iff, orb_true_iff, Z.ltb_lt, bool_decide_eq_true in E.
    destruct E as ((E & _) & _). destruct E as [E|E]; [lia|]. by rewrite E.
  - intros plan Hpl. destruct (Hp _ Hpl) as (Hv & sn & Hsn & Hb). split; [done|].
    exists sn. split; [done|]. revert Hb. unfold plan_bound.
    rewrite !andb_true_iff, bool_decide_eq_true, !Z.eqb_eq. tauto.
Qed.
