(* ===== verification/Identity.v ===== *)
(** * Deployed identities

    Models [src/src/runtime/identity.rs]: the locked identity every configured
    dependency must have, and the verification of the deployed code and proxy
    links of the dependencies one vault has.  Reading code and storage is an RPC
    call, the class [CodeReads]. *)
From Stdlib Require Import ZArith Lia Bool String.
From stdpp Require Import base gmap sets strings list.
From S2P Require Import Prelude.
From S2P Require Import Domain.
From S2P Require Import Config.
From S2P Require Import ProtocolLock.
From S2P Require Import Provider.
Open Scope Z_scope.

Inductive RuntimeIdentityError : Type :=
| IdentityChainMismatch
| IdentityConfiguration (label : string)
| IdentityRuntime (error : CodeIdentityError)
| IdentityProvider (category : RpcErrorCategory).

Record RuntimeIdentities : Type := mkRuntimeIdentities {
  id_contracts : gmap Address ValidatedContractIdentity;
  id_code_hashes : gmap Address B256;
}.

(** The answers of [code_at] and [storage_at] on the latest state. *)
Class CodeReads : Type := {
  code_at : Address -> result ProviderError Bytes;
  storage_at : Address -> B256 -> result ProviderError B256;
}.

(** [for x in l { f(x)?; }] *)
Definition try_each {E A} (f : A -> result E unit) (l : list A) : result E unit :=
  try_fold (fun _ x => f x) tt l.

Lemma try_each_Ok {E A} (f : A -> result E unit) l :
  try_each f l = Ok tt <-> forall x, x ∈ l -> f x = Ok tt.
Proof.
  unfold try_each. induction l as [|x l IH]; cbn; [split; [intros _ x; by rewrite elem_of_nil|done]|].
  destruct (f x) as [[]|e] eqn:Ex; cbn.
  - rewrite IH. split; [|by intros H y Hy; apply H; right].
    intros H y [->|Hy]%elem_of_cons; [done|by apply H].
  - split; [done|]. intros H. specialize (H x). rewrite Ex in H. apply H. by left.
Qed.

Lemma elem_of_btree_values {A} (m : gmap Z A) a :
  a ∈ btree_values m <-> exists k, m !! k = Some a.
Proof.
  unfold btree_values. rewrite list_elem_of_fmap. split.
  - intros ([k b] & -> & H%elem_of_btree_entries). by exists k.
  - intros [k H]. exists (k, a). by rewrite elem_of_btree_entries.
Qed.

(** ** The locked roles *)

Definition require_identity (contracts : gmap Address ValidatedContractIdentity)
    (address : Address) (kind : IdentityKind) (expected_hash : option B256) (label : string)
    : result RuntimeIdentityError unit :=
  identity ← ok_or (contracts !! address) (IdentityConfiguration label);
  if negb (bool_decide (vi_kind identity = kind))
     || match expected_hash with
        | Some expected => negb (expected =? vi_runtime_code_hash identity)
        | None => false
        end
  then Err (IdentityConfiguration label)
  else Ok tt.

Definition validate_vault_identities (contracts : gmap Address ValidatedContractIdentity)
    (vault : ValidatedVaultConfig) : result RuntimeIdentityError unit :=
  _ ← require_identity contracts (vv_address vault) IkVaultV2
        (Some (vv_expected_vault_code_hash vault)) "vault";
  _ ← require_identity contracts (vv_asset vault) IkAssetToken None "vault asset";
  _ ← try_each (fun adapter =>
        require_identity contracts (vad_address adapter) IkDirectAdapter
          (Some (vad_expected_code_hash adapter)) "direct adapter") (vv_adapters vault);
  _ ← match vv_liquidity_adapter vault with
      | None => Ok tt
      | Some adapter =>
          _ ← require_identity contracts (lac_address adapter) IkMorphoVaultV1Adapter
                (Some (lac_expected_code_hash adapter)) "Morpho Vault V1 liquidity adapter";
          require_identity contracts (lac_morpho_vault_v1 adapter) IkMorphoVaultV1
            (Some (lac_expected_morpho_vault_v1_code_hash adapter)) "wrapped Morpho Vault V1"
      end;
  try_each (fun position =>
    require_identity contracts (mp_irm (pc_market_params position)) IkAdaptiveCurveIrm None
      "adaptive curve IRM") (vv_positions vault).

Definition identities_from_config (config : ValidatedConfig) (lock : ValidatedProtocolLock)
    : result RuntimeIdentityError RuntimeIdentities :=
  let chain := ac_chain (vg_app config) in
  if negb (vc_chain_id chain =? vl_chain_id lock) then Err IdentityChainMismatch
  else
    let contracts := fold_left (fun m identity => <[vi_address identity := identity]> m)
                       (vl_contracts lock) ∅ in
    _ ← require_identity contracts (vc_morpho_blue chain) IkMorphoSingleton None "morpho singleton";
    _ ← require_identity contracts (vc_multicall3 chain) IkMulticall3
          (Some (vc_expected_multicall3_code_hash chain)) "multicall3";
    _ ← try_each (validate_vault_identities contracts) (ac_vaults (vg_app config));
    Ok (mkRuntimeIdentities contracts (vi_runtime_code_hash <$> contracts)).

(** The parts every vault depends on. *)
Definition is_core (identity : ValidatedContractIdentity) : bool :=
  match vi_kind identity with IkMorphoSingleton | IkMulticall3 => true | _ => false end.

(** The addresses a vault and its snapshot name. *)
Definition scope_addresses (vault : ValidatedVaultConfig) (snapshot : option ExactVaultSnapshot)
    : list Address :=
  vv_address vault :: vv_asset vault :: (vad_address <$> vv_adapters vault)
  ++ match vv_liquidity_adapter vault with
     | Some adapter => [lac_address adapter; lac_morpho_vault_v1 adapter]
     | None => []
     end
  ++ ((fun position => mp_irm (pc_market_params position)) <$> vv_positions vault)
  ++ match snapshot with
     | Some snapshot =>
         let parent := ev_parent snapshot in
         [pv_adapter_registry parent; pv_receive_shares_gate parent; pv_send_shares_gate parent;
          pv_receive_assets_gate parent; pv_send_assets_gate parent]
     | None => []
     end.

Definition vault_identity_scope (ids : RuntimeIdentities) (vault : ValidatedVaultConfig)
    (snapshot : option ExactVaultSnapshot) : gset Address :=
  (list_to_set (vi_address <$> List.filter is_core (btree_values (id_contracts ids)))
   ∪ list_to_set (scope_addresses vault snapshot)) ∖ {[0]}.

Definition validate_snapshot_identities (ids : RuntimeIdentities) (snapshot : ExactVaultSnapshot)
    : result RuntimeIdentityError unit :=
  let parent := ev_parent snapshot in
  _ ← if pv_adapter_registry parent =? 0 then Ok tt
      else require_identity (id_contracts ids) (pv_adapter_registry parent) IkAdapterRegistry None
             "adapter registry";
  try_each (fun gate =>
    if gate =? 0 then Ok tt
    else require_identity (id_contracts ids) gate IkGate None "vault gate")
    [pv_receive_shares_gate parent; pv_send_shares_gate parent; pv_receive_assets_gate parent;
     pv_send_assets_gate parent].

(** ** The deployed code *)

Section Deployed.
Context `{HK : Keccak} `{HC : CodeReads}.

Definition read {A} (answer : result ProviderError A) : result RuntimeIdentityError A :=
  map_err (fun error => IdentityProvider (rpc_category error)) answer.

(** The slot holds twelve zero bytes and the address. *)
Definition verify_proxy_identity (identity : ValidatedContractIdentity)
    : result RuntimeIdentityError unit :=
  match vi_proxy_implementation identity with
  | None => Ok tt
  | Some proxy =>
      stored ← read (storage_at (vi_address identity) (vx_storage_slot proxy));
      if negb (Z.shiftr stored 160 =? 0)
         || negb (Z.land stored (Z.ones 160) =? vx_address proxy)
      then Err (IdentityConfiguration "proxy implementation slot")
      else
        implementation_code ← read (code_at (vx_address proxy));
        if negb (keccak256 implementation_code =? vx_runtime_code_hash proxy)
        then Err (IdentityConfiguration "proxy implementation runtime")
        else Ok tt
  end.

Definition verify_deployed_identity (identity : ValidatedContractIdentity)
    : result RuntimeIdentityError unit :=
  code ← read (code_at (vi_address identity));
  _ ← map_err IdentityRuntime (verify_runtime_code identity code);
  verify_proxy_identity identity.

Definition verify_deployed (ids : RuntimeIdentities) : result RuntimeIdentityError unit :=
  try_each verify_deployed_identity (btree_values (id_contracts ids)).

Definition verify_core_deployed (ids : RuntimeIdentities) : result RuntimeIdentityError unit :=
  try_each verify_deployed_identity (List.filter is_core (btree_values (id_contracts ids))).

Definition verify_proxy_links (ids : RuntimeIdentities) : result RuntimeIdentityError unit :=
  try_each verify_proxy_identity
    (List.filter (fun identity => bool_decide (is_Some (vi_proxy_implementation identity)))
       (btree_values (id_contracts ids))).

(** The locked identities in the scope of a vault. *)
Definition scoped (ids : RuntimeIdentities) (vault : ValidatedVaultConfig)
    (snapshot : option ExactVaultSnapshot) : list ValidatedContractIdentity :=
  List.filter (fun identity =>
    bool_decide (vi_address identity ∈ vault_identity_scope ids vault snapshot))
    (btree_values (id_contracts ids)).

Definition verify_proxy_links_for_vault (ids : RuntimeIdentities) (vault : ValidatedVaultConfig)
    (snapshot : option ExactVaultSnapshot) : result RuntimeIdentityError unit :=
  try_each verify_proxy_identity
    (List.filter (fun identity => bool_decide (is_Some (vi_proxy_implementation identity)))
       (scoped ids vault snapshot)).

Definition verify_vault_deployed (ids : RuntimeIdentities) (vault : ValidatedVaultConfig)
    (snapshot : option ExactVaultSnapshot) : result RuntimeIdentityError unit :=
  try_each verify_deployed_identity (scoped ids vault snapshot).
End Deployed.

(** ** What a verified vault runs on *)

(** The contracts a vault depends on, with their role and configured hash. *)
Definition dependencies (config : ValidatedConfig) (vault : ValidatedVaultConfig)
    (snapshot : ExactVaultSnapshot) : list (Address * IdentityKind * option B256) :=
  let chain := ac_chain (vg_app config) in
  let parent := ev_parent snapshot in
  [(vc_morpho_blue chain, IkMorphoSingleton, None);
   (vc_multicall3 chain, IkMulticall3, Some (vc_expected_multicall3_code_hash chain));
   (vv_address vault, IkVaultV2, Some (vv_expected_vault_code_hash vault));
   (vv_asset vault, IkAssetToken, None)]
  ++ ((fun adapter => (vad_address adapter, IkDirectAdapter, Some (vad_expected_code_hash adapter)))
      <$> vv_adapters vault)
  ++ match vv_liquidity_adapter vault with
     | Some adapter =>
         [(lac_address adapter, IkMorphoVaultV1Adapter, Some (lac_expected_code_hash adapter));
          (lac_morpho_vault_v1 adapter, IkMorphoVaultV1,
           Some (lac_expected_morpho_vault_v1_code_hash adapter))]
     | None => []
     end
  ++ ((fun position => (mp_irm (pc_market_params position), IkAdaptiveCurveIrm, None))
      <$> vv_positions vault)
  ++ (pv_adapter_registry parent, IkAdapterRegistry, None)
  :: ((fun gate => (gate, IkGate, None))
      <$> [pv_receive_shares_gate parent; pv_send_shares_gate parent;
           pv_receive_assets_gate parent; pv_send_assets_gate parent]).

Lemma dependency_addresses config vault snapshot :
  (fun d : Address * IdentityKind * option B256 => d.1.1)
    <$> drop 2 (dependencies config vault snapshot) = scope_addresses vault (Some snapshot).
Proof.
  unfold dependencies, scope_addresses. cbn -[fmap]. rewrite !fmap_cons, !fmap_app. cbn.
  rewrite <-!list_fmap_compose. by destruct (vv_liquidity_adapter vault).
Qed.

(** The lock has the contract in its role. *)
Definition locked_as (contracts : gmap Address ValidatedContractIdentity)
    (d : Address * IdentityKind * option B256) (identity : ValidatedContractIdentity) : Prop :=
  contracts !! d.1.1 = Some identity /\ vi_kind identity = d.1.2 /\
  forall expected, d.2 = Some expected -> vi_runtime_code_hash identity = expected.

Lemma require_identity_Ok contracts address kind hash label :
  require_identity contracts address kind hash label = Ok tt <->
  exists identity, locked_as contracts (address, kind, hash) identity.
Proof.
  unfold require_identity, locked_as. cbn.
  destruct (contracts !! address) as [identity|]; cbn; [|by split; [|intros (? & ? & _)]].
  case_bool_decide as Ek; cbn; [|split; [done|]; intros (i & [= <-] & ? & _); done].
  destruct hash as [expected|]; cbn.
  - destruct (Z.eqb_spec expected (vi_runtime_code_hash identity)) as [->|Hn]; cbn.
    + split; [|done]. intros _. exists identity. naive_solver.
    + split; [done|]. intros (i & [= <-] & _ & H). by destruct Hn; rewrite (H expected).
  - split; [|done]. intros _. exists identity. naive_solver.
Qed.

Section Verified.
Context `{HK : Keccak} `{HC : CodeReads}.

(** The deployed code is the locked one, and a proxy points to its pinned
    implementation, whose code is the locked one too. *)
Definition deployed_as (identity : ValidatedContractIdentity) : Prop :=
  (exists code, code_at (vi_address identity) = Ok code /\ code <> [] /\
     keccak256 code = vi_runtime_code_hash identity) /\
  forall proxy, vi_proxy_implementation identity = Some proxy ->
    exists stored code, storage_at (vi_address identity) (vx_storage_slot proxy) = Ok stored /\
      stored = vx_address proxy /\ code_at (vx_address proxy) = Ok code /\
      keccak256 code = vx_runtime_code_hash proxy.

Lemma slot_address stored address :
  Z.shiftr stored 160 = 0 -> Z.land stored (Z.ones 160) = address -> stored = address.
Proof.
  rewrite Z.shiftr_div_pow2, Z.land_ones by lia. intros Hq Hr.
  pose proof (Z.div_mod stored (2 ^ 160)). lia.
Qed.

Lemma verify_deployed_identity_Ok identity :
  verify_deployed_identity identity = Ok tt -> deployed_as identity.
Proof.
  unfold verify_deployed_identity, read. intros H. step_ok H as code Hc. step_ok H as u Hv.
  destruct (code_at (vi_address identity)) as [code'|] eqn:Ec; [|done]. cbn in Hc.
  injection Hc as ->. split.
  - exists code. split; [done|]. revert Hv. unfold verify_runtime_code. destruct code as [|byte code]; [done|].
    destruct (Z.eqb_spec (keccak256 (byte :: code)) (vi_runtime_code_hash identity)); done.
  - intros proxy Hp. revert H. unfold verify_proxy_identity, read. rewrite Hp. intros H.
    step_ok H as stored Hs. destruct (storage_at _ _) as [stored'|] eqn:Es; [|done].
    cbn in Hs. injection Hs as ->.
    destruct (_ || _) eqn:E; [done|]. rewrite orb_false_iff, !negb_false_iff, !Z.eqb_eq in E.
    destruct E as [Eq Er]. step_ok H as implementation Hi. destruct (code_at (vx_address proxy)) as [i|] eqn:Ei; [|done].
    cbn in Hi. injection Hi as ->.
    destruct (Z.eqb_spec (keccak256 implementation) (vx_runtime_code_hash proxy)); [|done].
    exists stored, implementation. split_and!; try done. by eapply slot_address.
Qed.

Lemma contracts_keyed l (m : gmap Address ValidatedContractIdentity) address identity :
  (forall a i, m !! a = Some i -> vi_address i = a) ->
  fold_left (fun m identity => <[vi_address identity := identity]> m) l m !! address
    = Some identity -> vi_address identity = address.
Proof.
  revert m. induction l as [|i l IH]; cbn; intros m Hm; [by apply Hm|].
  apply IH. intros a j. destruct (decide (vi_address i = a)) as [<-|Hn].
  - by rewrite lookup_insert_eq; intros [= <-].
  - rewrite lookup_insert_ne by done. apply Hm.
Qed.

Lemma scoped_verified ids vault snapshot address identity :
  verify_vault_deployed ids vault snapshot = Ok tt ->
  id_contracts ids !! address = Some identity -> vi_address identity = address ->
  address ∈ vault_identity_scope ids vault snapshot -> deployed_as identity.
Proof.
  intros Hv Hi Ha Hs. apply verify_deployed_identity_Ok. unfold verify_vault_deployed in Hv.
  rewrite try_each_Ok in Hv. apply Hv. apply list_elem_of_In, List.filter_In.
  rewrite Ha, bool_decide_eq_true. split; [|done]. apply list_elem_of_In.
  by apply elem_of_btree_values; exists address.
Qed.

Lemma vault_locked contracts vault d :
  validate_vault_identities contracts vault = Ok tt ->
  d ∈ [(vv_address vault, IkVaultV2, Some (vv_expected_vault_code_hash vault));
       (vv_asset vault, IkAssetToken, None)]
      ++ ((fun adapter => (vad_address adapter, IkDirectAdapter,
                           Some (vad_expected_code_hash adapter))) <$> vv_adapters vault)
      ++ match vv_liquidity_adapter vault with
         | Some adapter =>
             [(lac_address adapter, IkMorphoVaultV1Adapter, Some (lac_expected_code_hash adapter));
              (lac_morpho_vault_v1 adapter, IkMorphoVaultV1,
               Some (lac_expected_morpho_vault_v1_code_hash adapter))]
         | None => []
         end
      ++ ((fun position => (mp_irm (pc_market_params position), IkAdaptiveCurveIrm, None))
          <$> vv_positions vault) ->
  exists identity, locked_as contracts d identity.
Proof.
  unfold validate_vault_identities. intros H.
  step_ok H as u1 H1. step_ok H as u2 H2. step_ok H as u3 H3. step_ok H as u4 H4.
  destruct u1, u2, u3, u4. rewrite require_identity_Ok in H1, H2.
  rewrite try_each_Ok in H3. rewrite try_each_Ok in H.
  rewrite !elem_of_app, !elem_of_cons, !list_elem_of_fmap, elem_of_nil.
  intros [[->|[->|[]]]|[(a & -> & Ha)|[Hl|(x & -> & Hx)]]]; try done.
  - by apply H3, require_identity_Ok in Ha.
  - destruct (vv_liquidity_adapter vault) as [adapter|]; [|by apply elem_of_nil in Hl].
    step_ok H4 as u5 H5. destruct u5. rewrite require_identity_Ok in H5, H4.
    rewrite !elem_of_cons, elem_of_nil in Hl. by destruct Hl as [->|[->|[]]].
  - by apply H, require_identity_Ok in Hx.
Qed.

Lemma snapshot_locked ids snapshot d :
  validate_snapshot_identities ids snapshot = Ok tt -> d.1.1 <> 0 ->
  d ∈ (pv_adapter_registry (ev_parent snapshot), IkAdapterRegistry, None)
      :: ((fun gate => (gate, IkGate, None))
          <$> [pv_receive_shares_gate (ev_parent snapshot); pv_send_shares_gate (ev_parent snapshot);
               pv_receive_assets_gate (ev_parent snapshot);
               pv_send_assets_gate (ev_parent snapshot)]) ->
  exists identity, locked_as (id_contracts ids) d identity.
Proof.
  unfold validate_snapshot_identities. intros H. step_ok H as u Hr. rewrite try_each_Ok in H.
  intros Hz. rewrite elem_of_cons, list_elem_of_fmap. intros [->|(gate & -> & Hg)]; cbn in Hz.
  - destruct (Z.eqb_spec (pv_adapter_registry (ev_parent snapshot)) 0); [done|].
    destruct u. by rewrite require_identity_Ok in Hr.
  - apply H in Hg. destruct (Z.eqb_spec gate 0); [done|]. by rewrite require_identity_Ok in Hg.
Qed.

(** C32: A vault whose identities were verified runs only on reviewed code.
    Under the identities of a configuration, once the snapshot's discovered
    dependencies are checked and the deployed code of the vault's scope is
    verified, every contract the vault depends on - Morpho, the multicall, the
    vault, its asset, its adapters, the wrapped vault, its interest models,
    registry and gates - is in the lock under its role with the configured
    hash, is deployed with the locked code, and a proxy among them points to
    its pinned implementation with the pinned code. *)
Theorem verified_vault_runs_locked_code config lock ids vault snapshot d :
  identities_from_config config lock = Ok ids -> vault ∈ ac_vaults (vg_app config) ->
  validate_snapshot_identities ids snapshot = Ok tt ->
  verify_vault_deployed ids vault (Some snapshot) = Ok tt ->
  d ∈ dependencies config vault snapshot -> d.1.1 <> 0 ->
  exists identity, locked_as (id_contracts ids) d identity /\ vi_address identity = d.1.1 /\
    deployed_as identity.
Proof.
  intros Hc Hin Hs Hv Hd Hz. revert Hc. unfold identities_from_config.
  destruct (_ =? _); [|done]. cbn [negb]. intros H.
  set (contracts := fold_left _ _ _) in *.
  step_ok H as u1 H1. step_ok H as u2 H2. step_ok H as u3 H3. destruct u1, u2, u3.
  injection H as <-. rewrite require_identity_Ok in H1, H2. rewrite try_each_Ok in H3.
  assert (exists identity, locked_as contracts d identity) as (identity & Hl).
  { revert Hd. unfold dependencies. cbn [app]. rewrite !elem_of_cons.
    intros [->|[->|Hd]]; [done|done|]. rewrite <-!elem_of_cons in Hd.
    rewrite app_comm_cons, !app_assoc, app_comm_cons in Hd.
    rewrite elem_of_app in Hd. destruct Hd as [Hd|Hd].
    - apply (vault_locked contracts vault); [by apply H3|]. by rewrite !app_assoc.
    - by apply (snapshot_locked (mkRuntimeIdentities contracts (vi_runtime_code_hash <$> contracts))
        snapshot). }
  exists identity. split; [done|]. destruct Hl as (Hl & Hk & _).
  assert (vi_address identity = d.1.1) as Ha.
  { eapply (contracts_keyed _ ∅); [|exact Hl]. intros a i. by rewrite lookup_empty. }
  split; [done|]. eapply scoped_verified; [exact Hv|exact Hl|done|].
  unfold vault_identity_scope. apply elem_of_difference. split; [|by rewrite elem_of_singleton].
  apply elem_of_union. cbn [id_contracts].
  destruct (is_core identity) eqn:Ec.
  - left. apply elem_of_list_to_set, list_elem_of_fmap. exists identity. split; [done|].
    apply list_elem_of_In, List.filter_In. split; [|done]. apply list_elem_of_In.
    apply elem_of_btree_values. by exists d.1.1.
  - right. apply elem_of_list_to_set. rewrite <-(dependency_addresses config).
    apply list_elem_of_fmap. exists d. split; [done|]. revert Hd. cbn [dependencies app drop].
    unfold is_core in Ec. rewrite Hk in Ec.
    rewrite (elem_of_cons _ d (_, IkMorphoSingleton, _)), (elem_of_cons _ d (_, IkMulticall3, _)).
    by intros [->|[->|Hd]].
Qed.
End Verified.
