(* ===== verification/Snapshot.v ===== *)
(** * Exact snapshots and what is bound to them

    Models the parts of [src/src/state/snapshot.rs] that work on a snapshot
    already read: binding the idle ledger to it with the capabilities and hash
    that follow, and reconciling a topology with it; and the errors of reading
    one, with their types in [src/src/chain/multicall.rs]. *)
From Stdlib Require Import ZArith Lia Bool String.
From stdpp Require Import base gmap sets strings list.
From S2P Require Import Prelude.
From S2P Require Import Domain.
From S2P Require Import Config.
From S2P Require Import Models.
From S2P Require Import Topology.
From S2P Require Import Capability.
From S2P Require Import Provider.
From S2P Require Import Reconciliation.
Open Scope Z_scope.

Inductive MulticallError : Type :=
| McProvider (error : ProviderError)
| InvalidRetryBound
| CursorNotAtHead
| ContextChanged
| MalformedAggregate
| AuthoritativeCallFailed (index : nat)
| ContextMismatch.

Inductive SnapshotError : Type :=
| SnMulticall (error : MulticallError)
| SnTopology (error : TopologyError)
| SnCapability (error : CapabilityError)
| MissingCodeIdentity
| CodeIdentityMismatch
| InvalidManifest
| DuplicateKey
| ReturnSchemaMismatch
| MissingResult (key : string)
| SnIdentityMismatch
| SnSerialization
| NumericRange.

(** The inputs of one read. *)
Record SnapshotBlueprint : Type := mkSnapshotBlueprint {
  bp_chain : ValidatedChainConfig;
  bp_snapshot_policy : ValidatedSnapshotConfig;
  bp_strategy : ValidatedStrategyConfig;
  bp_vault : ValidatedVaultConfig;
  bp_topology : TopologyIndex;
  bp_code_hashes : gmap Address B256;
  bp_static_config_revision : B256;
  bp_event_cursor : BlockRef;
  bp_idle_locks : IdleLockLedgerSnapshot;
  bp_administrative_horizon_timestamp : Z;
  bp_expected_inclusion_timestamp : Z;
  bp_rate_episode_state_verified : bool;
}.

Definition with_binding (s : ExactVaultSnapshot) (capabilities : VaultCapabilities)
    (idle_locks : IdleLockLedgerSnapshot) (hash : B256) : ExactVaultSnapshot :=
  mkExactVaultSnapshot (ev_context s) (ev_parent s) (ev_adapters s) (ev_enabled_adapters s)
    (ev_liquidity_adapter s) (ev_positions s) (ev_markets s) (ev_caps s) (ev_pending_admin s)
    capabilities idle_locks hash.

Section Binding.
Context `{HK : Keccak} `{HA : AbiParams} `{HS : SnapshotJson}.

(** The snapshot with the ledger, its capabilities and its hash.  On an error
    the caller drops the snapshot. *)
Definition bind_idle_lock_ledger (snapshot : ExactVaultSnapshot) (blueprint : SnapshotBlueprint)
    (idle_locks : IdleLockLedgerSnapshot) : result SnapshotError ExactVaultSnapshot :=
  let parent := ev_parent snapshot in
  locked ← try_fold (fun total lock =>
    ok_or (checked_add U256_MAX total (il_remaining_assets lock)) NumericRange)
    0 (ils_locks idle_locks);
  if (pv_idle_assets parent <? locked)
     || (pv_idle_assets parent <? ils_unattributed_idle_assets idle_locks)
  then Err SnIdentityMismatch
  else
    let idle_locks :=
      if (pv_idle_assets parent =? 0) && match ils_locks idle_locks with [] => true | _ => false end
         && (ils_unattributed_idle_assets idle_locks =? 0)
      then mkIdleLockLedgerSnapshot (ils_locks idle_locks)
             (ils_unattributed_idle_assets idle_locks) true
      else idle_locks in
    let timestamp := ctx_evm_timestamp (ev_context snapshot) in
    report ← map_err SnCapability (classify_capabilities (mkCapabilityInputs
      (bp_vault blueprint) (bp_strategy blueprint) parent (ev_adapters snapshot)
      (ev_liquidity_adapter snapshot) (ev_positions snapshot) (ev_markets snapshot)
      (ev_caps snapshot) (ev_enabled_adapters snapshot) (ev_pending_admin snapshot) timestamp
      timestamp (ils_verified idle_locks) (ils_unattributed_idle_assets idle_locks)
      (bp_rate_episode_state_verified blueprint)));
    let bound hash := with_binding snapshot (cy_capabilities report) idle_locks hash in
    hash ← ok_or (hash_exact_snapshot (bound (ev_snapshot_hash snapshot))) SnSerialization;
    Ok (bound hash).
End Binding.

(** The topology afterwards, with the error if there is one. *)
Definition reconcile_topology_exact (current_adapters : list AdapterAddress)
    (adapters : gmap AdapterAddress DirectAdapterState) (block_number : Z) : topo := fun t =>
  let current_markets :=
    (da_current_market_ids <$> adapters) ∪ (at_current_market_ids <$> ti_adapters t) in
  reconcile_exact current_adapters current_markets block_number t.

Definition reconcile_topology_from_snapshot (t : TopologyIndex) (snapshot : ExactVaultSnapshot)
    : result SnapshotError TopologyIndex :=
  match reconcile_topology_exact (set_elements (ev_enabled_adapters snapshot))
          (ev_adapters snapshot) (blk_number (ctx_block (ev_context snapshot))) t with
  | (Ok _, t) => Ok t
  | (Err e, _) => Err (SnTopology e)
  end.

(** ** The canonical form

    What is serialized of a snapshot; the JSON writer is library code. *)

Record CanonicalExactSnapshot : Type := mkCanonicalExactSnapshot {
  cx_context : StateContext;
  cx_parent : ParentVaultState;
  cx_adapters : list DirectAdapterState;
  cx_enabled_adapters : gset AdapterAddress;
  cx_positions : list DirectMarketPositionState;
  cx_markets : list StoredMarketState;
  cx_caps : gmap CapRef CapState;
  cx_pending_admin : list PendingAdminOperation;
  cx_capabilities : VaultCapabilities;
  cx_idle_locks : IdleLockLedgerSnapshot;
  cx_snapshot_hash : B256;
}.
Class CanonicalJson : Type := canonical_json : CanonicalExactSnapshot -> option Bytes.

(** The operations sorted by the listed components; the caps in the order of
    their map. *)
Definition canonical_snapshot (s : ExactVaultSnapshot) (hash : B256) : CanonicalExactSnapshot :=
  mkCanonicalExactSnapshot (ev_context s) (ev_parent s) (btree_values (ev_adapters s))
    (ev_enabled_adapters s) (btree_values (ev_positions s)) (btree_values (ev_markets s))
    (ev_caps s)
    (sort_by_key (fun operation => [pa_target operation; pa_selector operation;
       pa_calldata_hash operation; pa_submitted_block operation;
       pa_submitted_transaction operation]) (ev_pending_admin s))
    (ev_capabilities s) (ev_idle_locks s) hash.

(** The bytes that are hashed have no hash in them. *)
#[export] Instance canonical_snapshot_bytes `{HJ : CanonicalJson} : SnapshotJson :=
  fun s => canonical_json (canonical_snapshot s 0).

Definition with_liquidity (s : ExactVaultSnapshot) (l : option VaultV1LiquidityAdapterState)
    : ExactVaultSnapshot :=
  mkExactVaultSnapshot (ev_context s) (ev_parent s) (ev_adapters s) (ev_enabled_adapters s) l
    (ev_positions s) (ev_markets s) (ev_caps s) (ev_pending_admin s) (ev_capabilities s)
    (ev_idle_locks s) (ev_snapshot_hash s).

Section Hash.
Context `{HK : Keccak} `{HA : AbiParams} `{HJ : CanonicalJson}.

(** The hash covers no part of the liquidity adapter's state: snapshots that
    differ in nothing else have the same hash. *)
Lemma hash_ignores_liquidity_adapter s liquidity :
  hash_exact_snapshot (with_liquidity s liquidity) = hash_exact_snapshot s.
Proof. done. Qed.

(** Binding an idle ledger keeps what was read. The snapshot that results
    is the one read, with the ledger's locks and the capabilities they leave,
    under its own hash; the locks and the unattributed assets are within the
    exact balance, and a snapshot without idle assets and locks is verified. *)
Theorem bound_snapshot_exact snapshot blueprint idle_locks bound :
  bind_idle_lock_ledger snapshot blueprint idle_locks = Ok bound ->
  let locks := ev_idle_locks bound in
  bound = with_binding snapshot (ev_capabilities bound) locks (ev_snapshot_hash bound) /\
  hash_exact_snapshot bound = Some (ev_snapshot_hash bound) /\
  ils_locks locks = ils_locks idle_locks /\
  ils_unattributed_idle_assets locks = ils_unattributed_idle_assets idle_locks /\
  list_sum (il_remaining_assets <$> ils_locks locks) <= pv_idle_assets (ev_parent snapshot) /\
  ils_unattributed_idle_assets locks <= pv_idle_assets (ev_parent snapshot) /\
  (ils_verified locks = true <->
   ils_verified idle_locks = true \/
   pv_idle_assets (ev_parent snapshot) = 0 /\ ils_locks idle_locks = [] /\
   ils_unattributed_idle_assets idle_locks = 0) /\
  exists report, ev_capabilities bound = cy_capabilities report /\
    classify_capabilities (mkCapabilityInputs
      (bp_vault blueprint) (bp_strategy blueprint) (ev_parent snapshot) (ev_adapters snapshot)
      (ev_liquidity_adapter snapshot) (ev_positions snapshot) (ev_markets snapshot)
      (ev_caps snapshot) (ev_enabled_adapters snapshot) (ev_pending_admin snapshot)
      (ctx_evm_timestamp (ev_context snapshot)) (ctx_evm_timestamp (ev_context snapshot))
      (ils_verified locks) (ils_unattributed_idle_assets locks)
      (bp_rate_episode_state_verified blueprint)) = Ok report.
Proof.
  intros H. unfold bind_idle_lock_ledger in H. step_ok H as locked Hl.
  apply checked_sum_by_Ok in Hl.
  destruct (_ || _) eqn:E; [done|]. rewrite orb_false_iff, !Z.ltb_ge in E. destruct E as [E1 E2].
  step_ok H as report Hr. step_ok H as hash Hh. injection H as <-. cbn [with_binding ev_idle_locks].
  set (empty := (_ =? 0) && _ && _) in *.
  assert (empty = true <-> pv_idle_assets (ev_parent snapshot) = 0 /\ ils_locks idle_locks = [] /\
            ils_unattributed_idle_assets idle_locks = 0) as He.
  { unfold empty. rewrite !andb_true_iff, !Z.eqb_eq. destruct (ils_locks idle_locks); naive_solver. }
  destruct (classify_capabilities _) as [report'|] eqn:Ec; [|done]. cbn in Hr. injection Hr as ->.
  split_and!.
  - done.
  - by apply ok_or_Ok in Hh.
  - by destruct empty.
  - by destruct empty.
  - destruct empty; cbn [ils_locks ils_unattributed_idle_assets]; lia.
  - destruct empty; cbn [ils_locks ils_unattributed_idle_assets]; lia.
  - rewrite <-He. destruct empty; cbn; naive_solver.
  - exists report. split; [done|]. by destruct empty.
Qed.
End Hash.
