(* ===== verification/EventSources.v ===== *)
(** * Watched logs of the canonical state

    Models the log side of [src/src/runtime/state_service.rs]: the registry of
    watched addresses with the filter it puts on ingestion, which logs change
    what a snapshot was read from, how logs mark vaults dirty and replay a
    topology, and the sole borrower-side event of an interval. *)
From Stdlib Require Import ZArith Lia Bool String.
From stdpp Require Import base gmap sets strings list.
From S2P Require Import Prelude.
From S2P Require Import BlueMath.
From S2P Require Import Domain.
From S2P Require Import Config.
From S2P Require Import Caps.
From S2P Require Import Episodes.
From S2P Require Import Objective.
From S2P Require Import Revision.
From S2P Require Import Models.
From S2P Require Import Storage.
From S2P Require Import Actor.
From S2P Require Import Logs.
From S2P Require Import Topology.
From S2P Require Import Heads.
From S2P Require Import Identity.
From S2P Require Import Snapshot.
Open Scope Z_scope.

Inductive StateServiceError : Type :=
| SsStorage
| SsEvent (error : EventDecodeError)
| SsTopology (error : TopologyError)
| SsSnapshot (error : SnapshotError)
| SsProjection
| SsEpisode (error : EpisodeError)
| SsController
| SsIdentity (error : RuntimeIdentityError)
| EventSourceCollision
| NonCanonicalUpdate
| ApiStateEpochUnavailable
| SnapshotAwaitingCanonicalReplay
| SsPlanning.

(** ** The registry *)

Record EventSourceRegistry : Type := mkEventSourceRegistry {
  es_sources : gmap Address EventSource;
  es_market_ids : gset MarketId;
  es_adapter_accounts : gset Address;
  es_token_accounts : gset Address;
}.

(** The entry is replaced before the collision is reported. *)
Definition insert_source (sources : gmap Address EventSource) (entry : Address * EventSource)
    : result StateServiceError (gmap Address EventSource) :=
  match sources !! entry.1 with
  | Some existing =>
      if bool_decide (existing = entry.2) then Ok (<[entry.1 := entry.2]> sources)
      else Err EventSourceCollision
  | None => Ok (<[entry.1 := entry.2]> sources)
  end.

(** The entries of a vault, in the order they are inserted. *)
Definition vault_entries (vault : ValidatedVaultConfig) : list (Address * EventSource) :=
  (vv_address vault, SourceVault (vv_address vault))
  :: (vv_asset vault, SourceToken (vv_asset vault))
  :: ((fun adapter => (vad_address adapter, SourceAdapter (vad_address adapter)))
      <$> vv_adapters vault)
  ++ ((fun position => let irm := mp_irm (pc_market_params position) in
                       (irm, SourceAdaptiveCurveIrm irm)) <$> vv_positions vault).

Definition vault_token_accounts (vault : ValidatedVaultConfig) : list Address :=
  vv_address vault :: (vad_address <$> vv_adapters vault)
  ++ option_list (lac_address <$> vv_liquidity_adapter vault).

Definition from_config (config : ValidatedConfig) : result StateServiceError EventSourceRegistry :=
  let morpho := vc_morpho_blue (ac_chain (vg_app config)) in
  let vaults := ac_vaults (vg_app config) in
  sources ← try_fold insert_source ∅
              ((morpho, SourceMorpho morpho) :: (vaults ≫= vault_entries));
  Ok (mkEventSourceRegistry sources
    (list_to_set (vaults ≫= fun vault => pc_market_id <$> vv_positions vault))
    (list_to_set (vaults ≫= fun vault => vad_address <$> vv_adapters vault))
    (list_to_set (vaults ≫= vault_token_accounts))).

Definition watched_addresses (r : EventSourceRegistry) : gset Address := dom (es_sources r).

Definition indexed_token_accounts (r : EventSourceRegistry) : gmap Address (gset Address) :=
  omap (fun source => match source with
                      | SourceToken _ => Some (es_token_accounts r)
                      | _ => None
                      end) (es_sources r).

Definition source_of (r : EventSourceRegistry) (address : Address) : option EventSource :=
  es_sources r !! address.

(** The stored topics without the absent ones. *)
Definition canonical_raw_log (log : CanonicalLogRecord) : RawEventLog :=
  let '(a, b, c, d) := cl_topics log in
  mkRawEventLog (cl_address log) (omap id [a; b; c; d]) (cl_data log).

Section Watched.
Context `{HE : EventAbi}.

(** A log of a watched address, decoded under its role; [None] when the
    address or the signature is not watched. *)
Definition decode_log (r : EventSourceRegistry) (log : CanonicalLogRecord)
    : result EventDecodeError (option DecodedEvent) :=
  match source_of r (cl_address log) with
  | None => Ok None
  | Some source => decode_watched_event source (canonical_raw_log log)
  end.

Definition names_market (p : MarketId -> bool) (invalidation : StateInvalidation) : bool :=
  match invalidation with MarketState market => p market | _ => false end.

Definition retained_event (r : EventSourceRegistry) (decoded : DecodedEvent) : bool :=
  match de_source decoded, de_event decoded with
  | SourceVault _, EventVault _ | SourceAdapter _, EventAdapter _ => true
  | SourceToken _, EventToken (Erc20Transfer from to _) =>
      bool_decide (from ∈ es_token_accounts r) || bool_decide (to ∈ es_token_accounts r)
  | SourceMorpho _, EventMorpho event =>
      match event with
      | MorphoEvent.Supply _ _ on_behalf _ _ => bool_decide (on_behalf ∈ es_adapter_accounts r)
      | MorphoEvent.Withdraw _ _ on_behalf _ _ _ => bool_decide (on_behalf ∈ es_adapter_accounts r)
      | _ => false
      end
      || existsb (names_market (fun market => bool_decide (market ∈ es_market_ids r)))
           (de_invalidations decoded)
  | SourceAdaptiveCurveIrm _, EventAdaptiveCurveIrm _ =>
      existsb (names_market (fun market => bool_decide (market ∈ es_market_ids r)))
        (de_invalidations decoded)
  | _, _ => false
  end.

Definition retain (r : EventSourceRegistry) (log : CanonicalLogRecord) : result ChainError bool :=
  match decode_log r log with
  | Err _ => Err (InvalidBundle "malformed watched event")
  | Ok None => Ok false
  | Ok (Some decoded) => Ok (retained_event r decoded)
  end.

Definition merge_canonical_invalidations (config : ValidatedConfig) (r : EventSourceRegistry)
    (dirty : DirtyAccumulator) (logs : list CanonicalLogRecord)
    : result StateServiceError DirtyAccumulator :=
  try_fold (fun dirty log =>
    decoded ← map_err SsEvent (decode_log r log);
    Ok match decoded with
       | Some event =>
           merge_invalidations dirty config (cl_block_number log) (de_invalidations event)
       | None => dirty
       end) dirty logs.

(** ** What a candidate snapshot was read from *)

Definition liquidity_reads (candidate : ExactVaultSnapshot)
    (p : VaultV1LiquidityAdapterState -> bool) : bool :=
  from_option p false (ev_liquidity_adapter candidate).

Definition candidate_reads_adapter (candidate : ExactVaultSnapshot) (topology : TopologyIndex)
    (adapter : AdapterAddress) : bool :=
  bool_decide (is_Some (ti_adapters topology !! adapter))
  || bool_decide (is_Some (ev_adapters candidate !! adapter))
  || liquidity_reads candidate (fun liquidity => la_adapter liquidity =? adapter).

Definition candidate_reads_market (candidate : ExactVaultSnapshot) (topology : TopologyIndex)
    (market : MarketId) : bool :=
  bool_decide (is_Some (ev_markets candidate !! market))
  || existsb (fun position => dp_market_id position =? market)
       (btree_values (ev_positions candidate))
  || liquidity_reads candidate (fun liquidity => la_idle_market_id liquidity =? market)
  || existsb (fun position => cp_market_id position =? market)
       (btree_values (ti_configured_positions topology))
  || existsb (fun adapter =>
       bool_decide (market ∈ at_historical_market_ids adapter)
       || bool_decide (market ∈ at_current_market_ids adapter)
       || bool_decide (market ∈ at_sync_required_market_ids adapter))
       (btree_values (ti_adapters topology)).

Definition candidate_reads_token_account (candidate : ExactVaultSnapshot)
    (topology : TopologyIndex) (account : Address) : bool :=
  (account =? pv_vault (ev_parent candidate))
  || bool_decide (is_Some (ti_adapters topology !! account))
  || existsb (fun adapter => (da_adapter adapter =? account) || (da_morpho adapter =? account))
       (btree_values (ev_adapters candidate))
  || liquidity_reads candidate (fun liquidity =>
       (la_adapter liquidity =? account) || (la_morpho_vault_v1 liquidity =? account)).

Definition event_affects_candidate (candidate : ExactVaultSnapshot) (topology : TopologyIndex)
    (decoded : DecodedEvent) : bool :=
  match de_source decoded, de_event decoded with
  | SourceVault vault, EventVault _ => vault =? pv_vault (ev_parent candidate)
  | SourceAdapter adapter, EventAdapter _ => candidate_reads_adapter candidate topology adapter
  | SourceMorpho _, EventMorpho _ | SourceAdaptiveCurveIrm _, EventAdaptiveCurveIrm _ =>
      existsb (names_market (candidate_reads_market candidate topology)) (de_invalidations decoded)
  | SourceToken token, EventToken (Erc20Transfer from to _) =>
      (token =? pv_asset (ev_parent candidate))
      && (candidate_reads_token_account candidate topology from
          || candidate_reads_token_account candidate topology to)
  | _, _ => false
  end.

Definition canonical_log_affects_candidate (r : EventSourceRegistry)
    (candidate : ExactVaultSnapshot) (topology : TopologyIndex) (log : CanonicalLogRecord)
    : result StateServiceError bool :=
  decoded ← map_err SsEvent (decode_log r log);
  Ok (from_option (event_affects_candidate candidate topology) false decoded).

Fixpoint canonical_logs_affect_candidate (r : EventSourceRegistry)
    (candidate : ExactVaultSnapshot) (topology : TopologyIndex) (logs : list CanonicalLogRecord)
    : result StateServiceError bool :=
  match logs with
  | [] => Ok false
  | log :: logs =>
      affects ← canonical_log_affects_candidate r candidate topology log;
      if (affects : bool) then Ok true else canonical_logs_affect_candidate r candidate topology logs
  end.

(** ** The sole borrower-side event of an interval *)

Inductive IndependentEventDirection : Type := BorrowDestination | RepaySource.

Record IndependentEventCandidate : Type := mkIndependentEventCandidate {
  ic_transaction_hash : B256;
  ic_block_number : Z;
  ic_block_hash : B256;
  ic_market : MarketId;
  ic_direction : IndependentEventDirection;
}.

(** What one event means for an episode: nothing, an event the rates cannot be
    explained with, or a movement of a borrower. *)
Inductive EventRelevance : Type :=
| Irrelevant
| Ambiguous
| Borrower (market : MarketId) (assets : Z) (direction : option IndependentEventDirection).

Definition event_relevance (episode : RateSignalEpisode) (event : ProtocolEvent) : EventRelevance :=
  let evaluated market := bool_decide (market ∈ re_evaluation_markets episode) in
  let ambiguous market := if evaluated market then Ambiguous else Irrelevant in
  match event with
  | EventMorpho (MorphoEvent.Borrow market _ _ _ assets _) =>
      if negb (evaluated market) then Irrelevant
      else Borrower market assets
             (if bool_decide (market ∈ re_destination_markets episode)
              then Some BorrowDestination else None)
  | EventMorpho (MorphoEvent.Repay market _ _ assets _) =>
      if negb (evaluated market) then Irrelevant
      else Borrower market assets
             (if bool_decide (market ∈ re_source_markets episode) then Some RepaySource else None)
  | EventMorpho (MorphoEvent.Supply market _ _ _ _) => ambiguous market
  | EventMorpho (MorphoEvent.Withdraw market _ _ _ _ _) => ambiguous market
  | EventMorpho (MorphoEvent.Liquidate market _ _ _ _ _ _ _) => ambiguous market
  | EventMorpho (MorphoEvent.SetFee market _) => ambiguous market
  | _ => Irrelevant
  end.

(** The Morpho event of a log. *)
Definition morpho_log (r : EventSourceRegistry) (log : CanonicalLogRecord)
    : result EventDecodeError (option DecodedEvent) :=
  match source_of r (cl_address log) with
  | Some (SourceMorpho morpho) =>
      decode_watched_event (SourceMorpho morpho) (canonical_raw_log log)
  | _ => Ok None
  end.

Fixpoint unique_event_loop (r : EventSourceRegistry) (episode : RateSignalEpisode)
    (minimum_assets : Z) (candidate : option IndependentEventCandidate)
    (logs : list CanonicalLogRecord)
    : result StateServiceError (option IndependentEventCandidate) :=
  match logs with
  | [] => Ok candidate
  | log :: logs =>
      decoded ← map_err SsEvent (morpho_log r log);
      match from_option (fun d => event_relevance episode (de_event d)) Irrelevant decoded with
      | Irrelevant => unique_event_loop r episode minimum_assets candidate logs
      | Ambiguous => Ok None
      | Borrower market assets None => Ok None
      | Borrower market assets (Some direction) =>
          if assets <? minimum_assets then Ok None
          else
            match candidate with
            | Some _ => Ok None
            | None =>
                unique_event_loop r episode minimum_assets
                  (Some (mkIndependentEventCandidate (cl_transaction_hash log) (cl_block_number log)
                           (cl_block_hash log) market direction)) logs
            end
      end
  end.

Definition unique_independent_rate_event (r : EventSourceRegistry) (episode : RateSignalEpisode)
    (logs : list CanonicalLogRecord) (minimum_assets : Z)
    : result StateServiceError (option IndependentEventCandidate) :=
  unique_event_loop r episode minimum_assets None logs.

(** ** Replaying a topology *)

(** The storage answers in this section; its failures are those of the caller. *)
Definition topology_checkpoint_is_usable (revision : BlockRef) (canonical : option BlockRef)
    : bool :=
  match canonical with
  | Some canonical => blk_hash canonical =? blk_hash revision
  | None => true
  end.

Definition configured_adapters (vault : ValidatedVaultConfig) : list AdapterAddress :=
  (vad_address <$> vv_adapters vault) ++ option_list (lac_address <$> vv_liquidity_adapter vault).
Definition configured_positions (vault : ValidatedVaultConfig)
    : list (AdapterAddress * MarketId * PositionKey) :=
  (fun position => (pc_adapter position, pc_market_id position, pc_position_key position))
  <$> vv_positions vault.

Section Replayed.
Context `{HK : Keccak} `{HB : AdminAbi} `{HC : AbiCaps}.

(** Catalogues a cap unless it is known with the same data. *)
Definition catalog_configured_cap (block_number : Z) (cap : CapId * Bytes) : topo := fun t =>
  match ti_cap_id_data t !! cap.1 with
  | Some existing =>
      if negb (bool_decide (ce_id_data existing = cap.2)) then (Err CapDataCollision, t)
      else topo_ok t
  | None => catalog_cap_data cap.1 cap.2 block_number t
  end.

Definition position_caps (position : ValidatedPositionConfig) : list (CapId * Bytes) :=
  let cap_data := direct_position_cap_data (pc_adapter position) (pc_market_params position) in
  let '(adapter, collateral, market) := cap_data_ids cap_data in
  [(adapter, cd_adapter cap_data); (collateral, cd_collateral cap_data);
   (market, cd_market cap_data)].

Definition catalog_configured_caps (vault : ValidatedVaultConfig) (block_number : Z) : topo :=
  topo_then
    (topo_each (fun position => topo_each (catalog_configured_cap block_number)
                                  (position_caps position)) (vv_positions vault))
    (match vv_liquidity_adapter vault with
     | Some adapter => catalog_configured_cap block_number
                         (adapter_cap_id (lac_address adapter), adapter_cap_data (lac_address adapter))
     | None => topo_ok
     end).

(** [result?] after an operation on a topology of one's own. *)
Definition topology_of (answer : result TopologyError unit * TopologyIndex)
    : result StateServiceError TopologyIndex :=
  match answer with
  | (Ok _, t) => Ok t
  | (Err e, _) => Err (SsTopology e)
  end.

Definition new_topology (vault : ValidatedVaultConfig) : result StateServiceError TopologyIndex :=
  topology_of (catalog_configured_caps vault (vv_deployment_block vault)
    (new_index (vv_address vault) (vv_deployment_block vault) (configured_adapters vault)
       (configured_positions vault))).

(** The topology afterwards, with the error if there is one. *)
Definition apply_log_to_topology (r : EventSourceRegistry) (log : CanonicalLogRecord)
    (t : TopologyIndex) : result StateServiceError unit * TopologyIndex :=
  match source_of r (cl_address log) with
  | None => (Ok tt, t)
  | Some source =>
      let applies :=
        match source with
        | SourceVault vault => vault =? ti_vault t
        | SourceAdapter adapter => bool_decide (is_Some (ti_adapters t !! adapter))
        | SourceMorpho _ | SourceAdaptiveCurveIrm _ | SourceToken _ => true
        end in
      if negb applies then (Ok tt, t)
      else
        match decode_watched_event source (canonical_raw_log log) with
        | Err e => (Err (SsEvent e), t)
        | Ok None => (Ok tt, t)
        | Ok (Some decoded) =>
            match apply_event (de_source decoded) (de_event decoded)
                    (mkEventLocation (cl_block_number log) (cl_transaction_hash log)) t with
            | (Ok _, t) => (Ok tt, t)
            | (Err e, t) => (Err (SsTopology e), t)
            end
        end
  end.

Definition apply_log (r : EventSourceRegistry) (t : TopologyIndex) (log : CanonicalLogRecord)
    : result StateServiceError TopologyIndex :=
  match apply_log_to_topology r log t with
  | (Ok _, t) => Ok t
  | (Err e, _) => Err e
  end.

Definition replay_topology_through (config : ValidatedConfig) (r : EventSourceRegistry)
    (stored : JsonState) (vault : ValidatedVaultConfig) (head : BlockRef)
    : result StateServiceError TopologyIndex :=
  let chain_id := vc_chain_id (ac_chain (vg_app config)) in
  start ← match load_topology_revision stored (vv_address vault) (blk_number head) with
          | Some revision =>
              if topology_checkpoint_is_usable (tr_block revision)
                   (load_canonical_block stored chain_id (blk_number (tr_block revision)))
              then Ok (tr_topology revision,
                       saturating_add U64_MAX (blk_number (tr_block revision)) 1)
              else t ← new_topology vault; Ok (t, vv_deployment_block vault)
          | None => t ← new_topology vault; Ok (t, vv_deployment_block vault)
          end;
  let '(t, replay_from) := start in
  t ← topology_of (merge_configured_read_set (vv_deployment_block vault)
        (configured_adapters vault) (configured_positions vault) t);
  t ← topology_of (catalog_configured_caps vault (blk_number head) t);
  if replay_from <=? blk_number head
  then try_fold (apply_log r) t
         (load_canonical_logs stored chain_id replay_from (blk_number head))
  else Ok t.
End Replayed.

(** ** The filter and the read set *)

Lemma insert_source_Ok m e m' :
  insert_source m e = Ok m' ->
  m' = <[e.1 := e.2]> m /\ (m !! e.1 = None \/ m !! e.1 = Some e.2).
Proof.
  unfold insert_source. destruct (m !! e.1) as [x|] eqn:E; [|intros [= <-]; by split; [|left]].
  case_bool_decide; [|done]. intros [= <-]. subst. split; [done|]. by right.
Qed.

Lemma insert_sources_Ok l m m' :
  try_fold insert_source m l = Ok m' ->
  (forall e, e ∈ l -> m' !! e.1 = Some e.2) /\ (forall a s, m !! a = Some s -> m' !! a = Some s) /\
  (forall a s, m' !! a = Some s -> m !! a = Some s \/ (a, s) ∈ l).
Proof.
  revert m. induction l as [|e l IH]; intros m H; cbn in H.
  - injection H as <-. split_and!; [intros e; by rewrite elem_of_nil|done|by left].
  - step_ok H as m1 H1. apply insert_source_Ok in H1 as [-> Hm].
    destruct (IH _ H) as (I1 & I2 & I3). split_and!.
    + intros x [->|Hx]%elem_of_cons; [|by apply I1]. apply I2. apply lookup_insert_eq.
    + intros a s Ha. apply I2. destruct (decide (a = e.1)) as [->|Hn].
      * rewrite lookup_insert_eq. naive_solver congruence.
      * by rewrite lookup_insert_ne.
    + intros a s Ha. apply I3 in Ha as [Ha|Ha]; [|right; by right].
      destruct (decide (a = e.1)) as [->|Hn].
      * rewrite lookup_insert_eq in Ha. injection Ha as <-. right. destruct e; by left.
      * rewrite lookup_insert_ne in Ha by done. by left.
Qed.

(** The registry maps each configured address to its one role. *)
Lemma from_config_sources config r :
  from_config config = Ok r ->
  (forall vault e, vault ∈ ac_vaults (vg_app config) -> e ∈ vault_entries vault ->
     source_of r e.1 = Some e.2) /\
  (forall a s, source_of r a = Some s -> source_address s = a).
Proof.
  unfold from_config, source_of. intros H. step_ok H as sources Hs. injection H as <-. cbn.
  apply insert_sources_Ok in Hs as (H1 & _ & H3). split.
  - intros vault e Hv He. apply H1. right. apply list_elem_of_bind. by exists vault.
  - intros a s Ha. apply H3 in Ha as [Ha|Ha]; [by rewrite lookup_empty in Ha|].
    apply elem_of_cons in Ha as [[= -> ->]|Ha]; [done|].
    apply list_elem_of_bind in Ha as (vault & Ha & _). revert Ha. unfold vault_entries.
    rewrite !elem_of_cons, elem_of_app, !list_elem_of_fmap.
    by intros [[= -> ->]|[[= -> ->]|[(x & [= -> ->] & _)|(x & [= -> ->] & _)]]].
Qed.

(** The accounts a snapshot's balances are read of that no role is given to. *)
Definition unwatched_account (candidate : ExactVaultSnapshot) (account : Address) : bool :=
  existsb (fun adapter => da_morpho adapter =? account) (btree_values (ev_adapters candidate))
  || liquidity_reads candidate (fun liquidity => la_morpho_vault_v1 liquidity =? account).

(** The rest of what a candidate was read from is configured. *)
Record reads_configured (r : EventSourceRegistry) (candidate : ExactVaultSnapshot)
    (topology : TopologyIndex) : Prop := {
  rc_markets : forall market, candidate_reads_market candidate topology market = true ->
    market ∈ es_market_ids r;
  rc_accounts : forall account, candidate_reads_token_account candidate topology account = true ->
    account ∈ es_token_accounts r \/ unwatched_account candidate account = true;
}.

Lemma names_market_mono (p q : MarketId -> bool) l :
  (forall market, p market = true -> q market = true) ->
  existsb (names_market p) l = true -> existsb (names_market q) l = true.
Proof.
  intros Hpq. rewrite !existsb_exists. intros (i & Hi & Hp). exists i. split; [done|].
  destruct i; try done. by apply Hpq.
Qed.

(** Ingestion keeps what the state depends on. A watched log that changes
    what a snapshot was read from passes the filter of the canonical logs, so
    it is stored and the snapshot is recognised as stale; with one exception:
    a transfer of the vault's asset between accounts without a role, one of
    which is Morpho's or the wrapped vault's, whose balances the snapshot read. *)
Theorem affecting_logs_are_retained r candidate topology log :
  reads_configured r candidate topology ->
  canonical_log_affects_candidate r candidate topology log = Ok true ->
  retain r log = Ok true \/
  exists decoded token from to value, decode_log r log = Ok (Some decoded) /\
    de_source decoded = SourceToken token /\
    de_event decoded = EventToken (Erc20Transfer from to value) /\
    from ∉ es_token_accounts r /\ to ∉ es_token_accounts r /\
    (unwatched_account candidate from = true \/ unwatched_account candidate to = true).
Proof.
  intros [Hm Ha]. unfold canonical_log_affects_candidate, retain. intros H.
  step_ok H as decoded Hd. destruct (decode_log r log) as [[d|]|] eqn:El; cbn in Hd; try done.
  - injection Hd as <-. injection H as H. cbn in H. revert H.
    unfold event_affects_candidate, retained_event.
    assert (forall l, existsb (names_market (candidate_reads_market candidate topology)) l = true ->
              existsb (names_market (fun market => bool_decide (market ∈ es_market_ids r))) l
                = true) as Hmk.
    { intros l. apply names_market_mono. intros market Hr. apply bool_decide_eq_true. by apply Hm. }
    destruct (de_source d) eqn:Es, (de_event d) eqn:Ev; try done; intros H; try (by left).
    + left. apply Hmk in H. rewrite H. by rewrite orb_true_r.
    + left. by rewrite (Hmk _ H).
    + destruct event as [from to value]. apply andb_true_iff in H as [_ H].
      destruct (decide (from ∈ es_token_accounts r)) as [Hf|Hf];
        [left; by rewrite bool_decide_eq_true_2|].
      destruct (decide (to ∈ es_token_accounts r)) as [Ht|Ht];
        [left; rewrite (bool_decide_eq_true_2 _ Ht); by rewrite orb_true_r|].
      right. exists d, token, from, to, value. split_and!; try done.
      apply orb_true_iff in H as [H|H]; apply Ha in H as [H|H]; auto; done.
  - injection Hd as <-. done.
Qed.

(** ** The sole event *)

Definition irrelevant_log (r : EventSourceRegistry) (episode : RateSignalEpisode)
    (log : CanonicalLogRecord) : Prop :=
  exists decoded, morpho_log r log = Ok decoded /\
    from_option (fun d => event_relevance episode (de_event d)) Irrelevant decoded = Irrelevant.

(** The log is the borrower movement the candidate describes. *)
Definition borrower_log (r : EventSourceRegistry) (episode : RateSignalEpisode)
    (minimum_assets : Z) (log : CanonicalLogRecord) (c : IndependentEventCandidate) : Prop :=
  exists d assets, morpho_log r log = Ok (Some d) /\
    event_relevance episode (de_event d) = Borrower (ic_market c) assets (Some (ic_direction c)) /\
    minimum_assets <= assets /\
    c = mkIndependentEventCandidate (cl_transaction_hash log) (cl_block_number log)
          (cl_block_hash log) (ic_market c) (ic_direction c).

Lemma unique_loop_candidate r episode minimum_assets c logs c' :
  unique_event_loop r episode minimum_assets (Some c) logs = Ok (Some c') <->
  c' = c /\ Forall (irrelevant_log r episode) logs.
Proof.
  induction logs as [|log logs IH]; cbn; [split; [by intros [= ->]|by intros [-> _]]|].
  rewrite Forall_cons. unfold irrelevant_log at 1.
  destruct (morpho_log r log) as [decoded|e]; cbn; [|split; [done|by intros (_ & (? & ? & _) & _)]].
  destruct (from_option _ _ decoded) as [| |market assets [direction|]] eqn:E.
  - rewrite IH. naive_solver.
  - split; [done|]. intros (_ & (d & [= <-] & Hd) & _). congruence.
  - case_match; (split; [done|]); intros (_ & (d & [= <-] & Hd) & _); congruence.
  - split; [done|]. intros (_ & (d & [= <-] & Hd) & _). congruence.
Qed.

(** An interval has an independent event exactly when one of its logs is a
    borrower's movement of at least the minimum, in the direction that opened
    the episode, and every other log is irrelevant to the episode's markets. *)
Theorem unique_independent_event_iff r episode logs minimum_assets c :
  unique_independent_rate_event r episode logs minimum_assets = Ok (Some c) <->
  exists before log after, logs = before ++ log :: after /\
    Forall (irrelevant_log r episode) before /\ borrower_log r episode minimum_assets log c /\
    Forall (irrelevant_log r episode) after.
Proof.
  unfold unique_independent_rate_event. induction logs as [|log logs IH]; cbn.
  { split; [done|]. by intros ([] & ? & ? & ? & _). }
  assert ((exists before log' after, log :: logs = before ++ log' :: after /\
      Forall (irrelevant_log r episode) before /\ borrower_log r episode minimum_assets log' c /\
      Forall (irrelevant_log r episode) after) <->
    (borrower_log r episode minimum_assets log c /\ Forall (irrelevant_log r episode) logs) \/
    (irrelevant_log r episode log /\ exists before log' after, logs = before ++ log' :: after /\
      Forall (irrelevant_log r episode) before /\ borrower_log r episode minimum_assets log' c /\
      Forall (irrelevant_log r episode) after)) as ->.
  { split.
    - intros ([|x before] & log' & after & Heq & Hb & Hl & Ha); cbn in Heq; simplify_eq; [by left|].
      apply Forall_cons in Hb as [Hx Hb]. right. split; [done|]. naive_solver.
    - intros [[Hl Ha]|[Hx (before & log' & after & -> & Hb & Hl & Ha)]].
      + by exists [], log, logs.
      + exists (log :: before), log', after. split_and!; try done. by constructor. }
  rewrite <-IH. clear IH. unfold borrower_log at 1, irrelevant_log at 2.
  destruct (morpho_log r log) as [decoded|e] eqn:Em; cbn; [|split; [done|naive_solver]].
  destruct (from_option _ _ decoded) as [| |market assets [direction|]] eqn:E.
  - split; [intros H; right; eauto|]. intros [[(d & assets & [= ->] & Hd & _) _]|[_ H]]; [|done].
    cbn in E. congruence.
  - split; [done|]. intros [[(d & assets & [= ->] & Hd & _) _]|[(d & [= <-] & Hd) _]];
      cbn in *; congruence.
  - destruct decoded as [d|]; [|done]. cbn in E.
    destruct (Z.ltb_spec assets minimum_assets).
    + split; [done|]. intros [[(d' & assets' & [= <-] & Hd & Hle & _) _]|[(d' & [= <-] & Hd) _]];
        cbn in *; [|congruence]. rewrite E in Hd. injection Hd as _ <- _. lia.
    + rewrite unique_loop_candidate. split.
      * intros [-> Hf]. left. split; [|done]. exists d, assets. by split_and!.
      * intros [[(d' & assets' & [= <-] & Hd & Hle & ->) Hf]|[(d' & [= <-] & Hd) _]];
          cbn in *; [|congruence]. rewrite E in Hd. by injection Hd as -> _ ->.
  - split; [done|]. intros [[(d & assets' & [= ->] & Hd & _) _]|[(d & [= <-] & Hd) _]];
      cbn in *; congruence.
Qed.

End Watched.
