(* ===== verification/IdleReplay.v ===== *)
(** * Replaying the idle ledger

    Models [src/src/runtime/idle_ledger_service.rs]: the ledger of held-back
    idle assets of a vault is rebuilt from the durable canonical logs and the
    senders of their transactions, and checked against the exact balance.  Reading
    a transaction is an RPC call; what the storage and the provider answer is the
    class [LedgerReads]. *)
From Stdlib Require Import ZArith Lia Bool String.
From stdpp Require Import base gmap sets sorting strings list.
From S2P Require Import Prelude.
From S2P Require Import Domain.
From S2P Require Import Config.
From S2P Require Import IdleLocks.
From S2P Require Import Models.
From S2P Require Import Storage.
From S2P Require Import Actor.
From S2P Require Import Logs.
From S2P Require Import Provider.
From S2P Require Import EventSources.
Open Scope Z_scope.

Inductive IdleLedgerServiceError : Type :=
| IlStorage
| IlProvider (error : ProviderError)
| IlEvent (error : EventDecodeError)
| IlLedger (error : IdleLockError)
| TransactionIdentity
| IlArithmetic
| EndBalanceMismatch.

(** What the calls answer: the transaction of a hash, whether the canonical
    logs load, and whether the query of a known hash succeeds. *)
Class LedgerReads : Type := {
  transaction_by_hash : B256 -> result ProviderError (option RpcTransaction);
  canonical_logs_load : bool;
  hash_query_answers : B256 -> bool;
}.

Definition log_applies_to_vault (r : EventSourceRegistry) (vault : ValidatedVaultConfig)
    (log : CanonicalLogRecord) : bool :=
  match source_of r (cl_address log) with
  | Some (SourceVault address) => address =? vv_address vault
  | Some (SourceAdapter address) =>
      existsb (fun adapter => vad_address adapter =? address) (vv_adapters vault)
  | Some (SourceToken address) => address =? vv_asset vault
  | Some (SourceMorpho _) | Some (SourceAdaptiveCurveIrm _) | None => false
  end.

Definition checked_flow_sum (flows : list OrderedAssetFlow) : result IdleLedgerServiceError Z :=
  try_fold (fun total flow => ok_or (checked_add U256_MAX total (af_assets flow)) IlArithmetic)
    0 flows.

(** The key of a transaction: its block, index and hash. *)
Definition transaction_key (log : CanonicalLogRecord) : list Z :=
  [cl_block_number log; cl_transaction_index log; cl_transaction_hash log].

(** The transactions of the logs in key order, each with its logs in order. *)
Definition transaction_groups (logs : list CanonicalLogRecord) : list (list CanonicalLogRecord) :=
  (fun key => sort_by_key (fun log => [cl_log_index log])
                (List.filter (fun log => bool_decide (transaction_key log = key)) logs))
  <$> sort_by_key id (remove_dups (transaction_key <$> logs)).

Section Idle.
Context `{HE : EventAbi} `{HK : Keccak} `{HR : LedgerReads}.

(** What one transaction did: its watched events, and the vault's flows. *)
Record TransactionEvents : Type := mkTransactionEvents {
  te_events : list DecodedEvent;
  te_inflows : list OrderedAssetFlow;
  te_outflows : list OrderedAssetFlow;
}.

(** The flows of a transfer into and out of the vault. *)
Definition transfer_flows (vault : ValidatedVaultConfig) (log : CanonicalLogRecord)
    (event : ProtocolEvent) : list OrderedAssetFlow * list OrderedAssetFlow :=
  match event with
  | EventToken (Erc20Transfer from to value) =>
      if from =? to then ([], [])
      else (if to =? vv_address vault then [mkOrderedAssetFlow (cl_log_index log) value] else [],
            if from =? vv_address vault then [mkOrderedAssetFlow (cl_log_index log) value] else [])
  | _ => ([], [])
  end.

Definition collect_event (r : EventSourceRegistry) (vault : ValidatedVaultConfig)
    (acc : TransactionEvents) (log : CanonicalLogRecord)
    : result IdleLedgerServiceError TransactionEvents :=
  decoded ← map_err IlEvent (decode_log r log);
  Ok match decoded with
     | None => acc
     | Some decoded =>
         let '(inflows, outflows) := transfer_flows vault log (de_event decoded) in
         mkTransactionEvents (te_events acc ++ [decoded]) (te_inflows acc ++ inflows)
           (te_outflows acc ++ outflows)
     end.

(** An optional quantity that must be present. *)
Definition required_quantity (field : string) (value : option string)
    : result IdleLedgerServiceError Z :=
  match value with
  | None => Err TransactionIdentity
  | Some value => map_err IlProvider (parse_quantity field value)
  end.

Definition apply_idle_transaction (r : EventSourceRegistry) (vault : ValidatedVaultConfig)
    (stored : JsonState) (ledger : IdleLockLedger) (records : list CanonicalLogRecord)
    : result IdleLedgerServiceError IdleLockLedger :=
  collected ← try_fold (collect_event r vault) (mkTransactionEvents [] [] []) records;
  let inflows := te_inflows collected in
  let outflows := te_outflows collected in
  if bool_decide (inflows = []) && bool_decide (outflows = []) then Ok ledger
  else
    first ← ok_or (head records) TransactionIdentity;
    let hash := cl_transaction_hash first in
    found ← map_err IlProvider (transaction_by_hash hash);
    transaction ← ok_or found TransactionIdentity;
    rpc_block ← required_quantity "transaction.block_number" (rx_block_number transaction);
    rpc_index ← required_quantity "transaction.transaction_index" (rx_transaction_index transaction);
    if negb (rx_hash transaction =? hash)
       || negb (bool_decide (rx_block_hash transaction = Some (cl_block_hash first)))
       || negb (rpc_block =? cl_block_number first)
       || negb (rpc_index =? cl_transaction_index first)
    then Err TransactionIdentity
    else
      known ← if hash_query_answers hash then Ok (is_known_transaction_hash stored hash)
              else Err IlStorage;
      let origin := classify_transaction (rx_from transaction) known
        (list_to_set (vv_approved_allocators vault)) (list_to_set (vv_approved_sentinels vault))
        None None (te_events collected) in
      inflow ← checked_flow_sum inflows;
      outflow ← checked_flow_sum outflows;
      exact_post_idle ← ok_or
        (value ← checked_add U256_MAX (ll_exact_idle_assets ledger) inflow;
         checked_sub value outflow) IlArithmetic;
      match apply_transaction ledger
              (mkOrderedTransactionFlow (cl_block_number first) (cl_transaction_index first) hash
                 (rx_from transaction) origin inflows outflows false) exact_post_idle with
      | (ledger, Ok _) => Ok ledger
      | (_, Err e) => Err (IlLedger e)
      end.

Definition apply_idle_logs (r : EventSourceRegistry) (vault : ValidatedVaultConfig)
    (stored : JsonState) (ledger : IdleLockLedger) (logs : list CanonicalLogRecord)
    : result IdleLedgerServiceError IdleLockLedger :=
  try_fold (apply_idle_transaction r vault stored) ledger
    (transaction_groups (List.filter (log_applies_to_vault r vault) logs)).

Definition rebuild_idle_ledger (config : ValidatedConfig) (r : EventSourceRegistry)
    (vault : ValidatedVaultConfig) (stored : JsonState) (head : BlockRef) (exact_head_idle : Z)
    : result IdleLedgerServiceError IdleLockLedger :=
  logs ← if canonical_logs_load
         then Ok (load_canonical_logs stored (vc_chain_id (ac_chain (vg_app config)))
                    (vv_deployment_block vault) (blk_number head))
         else Err IlStorage;
  ledger ← apply_idle_logs r vault stored (IdleLockLedger_new (vv_address vault) 0) logs;
  if negb (ll_exact_idle_assets ledger =? exact_head_idle) then Err EndBalanceMismatch
  else Ok ledger.

(** ** The replay is exact *)

Definition flow_sum (flows : list OrderedAssetFlow) : Z := list_sum (af_assets <$> flows).

(** What a stored log adds to the vault's balance. *)
Definition log_flow (r : EventSourceRegistry) (vault : ValidatedVaultConfig)
    (log : CanonicalLogRecord) : Z :=
  match decode_log r log with
  | Ok (Some decoded) =>
      let '(inflows, outflows) := transfer_flows vault log (de_event decoded) in
      flow_sum inflows - flow_sum outflows
  | _ => 0
  end.

(** The balance the logs of a vault leave. *)
Definition net_flow (r : EventSourceRegistry) (vault : ValidatedVaultConfig)
    (logs : list CanonicalLogRecord) : Z :=
  list_sum (log_flow r vault <$> List.filter (log_applies_to_vault r vault) logs).

Lemma flow_sum_app k l : flow_sum (k ++ l) = flow_sum k + flow_sum l.
Proof. unfold flow_sum. by rewrite fmap_app, list_sum_app. Qed.

Lemma checked_flow_sum_Ok flows total :
  checked_flow_sum flows = Ok total -> total = flow_sum flows.
Proof. intros H. apply checked_sum_by_Ok in H. unfold flow_sum. lia. Qed.

Lemma list_sum_add {A} (f g : A -> Z) l :
  list_sum ((fun x => f x + g x) <$> l) = list_sum (f <$> l) + list_sum (g <$> l).
Proof. induction l as [|x l IH]; [done|]. rewrite !fmap_cons, !list_sum_cons. lia. Qed.

Lemma list_sum_one {A} `{EqDecision A} (k : A) n keys :
  NoDup keys -> k ∈ keys ->
  list_sum ((fun k' => if bool_decide (k = k') then n else 0) <$> keys) = n.
Proof.
  intros Hn. induction Hn as [|k' keys Hk Hn IH]; [by intros ?%elem_of_nil|].
  rewrite elem_of_cons, fmap_cons, list_sum_cons. intros [->|Hin].
  - rewrite bool_decide_eq_true_2 by done.
    assert (forall l, k' ∉ l ->
      list_sum ((fun k => if bool_decide (k' = k) then n else 0) <$> l) = 0) as Hz.
    { clear. induction l as [|y l IH]; [done|]. rewrite not_elem_of_cons. intros [Hy Hl].
      rewrite fmap_cons, list_sum_cons, bool_decide_eq_false_2, IH by done. lia. }
    rewrite Hz by done. lia.
  - rewrite bool_decide_eq_false_2 by (by intros ->). rewrite IH by done. lia.
Qed.

(** Every key has its group, and the groups hold all the logs. *)
Lemma sum_split {A} (f : A -> Z) (key : A -> list Z) (keys : list (list Z)) (l : list A) :
  NoDup keys -> (forall x, x ∈ l -> key x ∈ keys) ->
  list_sum ((fun k => list_sum (f <$> List.filter (fun x => bool_decide (key x = k)) l)) <$> keys)
  = list_sum (f <$> l).
Proof.
  intros Hn. induction l as [|x l IH]; intros Hk.
  - cbn. clear. induction keys; [done|]. by rewrite fmap_cons, list_sum_cons.
  - rewrite fmap_cons, list_sum_cons, <-IH by (intros; apply Hk; by right).
    rewrite <-(list_sum_one (key x) (f x) keys) at 1 by (try done; apply Hk; by left).
    rewrite <-list_sum_add. f_equal. apply list_fmap_ext. intros _ k _. cbn [List.filter].
    by case_bool_decide.
Qed.

Lemma groups_sum (f : CanonicalLogRecord -> Z) logs :
  list_sum ((fun records => list_sum (f <$> records)) <$> transaction_groups logs)
  = list_sum (f <$> logs).
Proof.
  unfold transaction_groups. rewrite <-list_fmap_compose.
  rewrite <-(sum_split f transaction_key (sort_by_key id (remove_dups (transaction_key <$> logs)))).
  - apply list_sum_perm. apply Permutation_refl'. apply list_fmap_ext. intros _ key _. cbn.
    apply list_sum_perm. by rewrite sort_by_key_perm.
  - rewrite sort_by_key_perm. apply NoDup_remove_dups.
  - intros x Hx. rewrite sort_by_key_perm. apply elem_of_remove_dups.
    by apply list_elem_of_fmap_2.
Qed.

(** The generated decoder returns unsigned 256-bit values. *)
Definition transfer_values : Prop := forall topics data from to value,
  decode_token_raw_log topics data = Some (Erc20Transfer from to value) -> 0 <= value.

Lemma decoded_value r log decoded from to value :
  transfer_values -> decode_log r log = Ok (Some decoded) ->
  de_event decoded = EventToken (Erc20Transfer from to value) -> 0 <= value.
Proof.
  intros Hv. unfold decode_log. destruct (source_of r _) as [source|]; [|done].
  unfold decode_watched_event. destruct (negb _); [done|]. destruct (head _) as [signature|]; [|done].
  destruct (negb _); [done|]. intros H. step_ok H as d Hd. injection H as ->. revert Hd.
  unfold decode_event. destruct (negb _); [done|]. intros H. step_ok H as sg Hs.
  step_ok H as [kind event] Hp. destruct (negb _); [done|]. injection H as <-. cbn. intros ->.
  revert Hp. unfold decode_payload. destruct source; intros H;
    [step_ok H as k Hk; by step_ok H as e He..| |].
  { destruct (negb _); [done|]. by step_ok H as e He. }
  destruct (negb _); [done|]. step_ok H as event He. injection H as _ ->.
  destruct (decode_token_raw_log _ _) eqn:Ed; [|done]. cbn in He. injection He as ->.
  by eapply Hv.
Qed.

Definition flows_nonneg (flows : list OrderedAssetFlow) : Prop :=
  Forall (fun flow => 0 <= af_assets flow) flows.

Lemma transfer_flows_nonneg r vault log decoded :
  transfer_values -> decode_log r log = Ok (Some decoded) ->
  flows_nonneg (transfer_flows vault log (de_event decoded)).1 /\
  flows_nonneg (transfer_flows vault log (de_event decoded)).2.
Proof.
  intros Hv Hd. unfold transfer_flows, flows_nonneg.
  destruct (de_event decoded) as [| | | |[from to value]] eqn:Ee; [done..|].
  pose proof (decoded_value _ _ _ _ _ _ Hv Hd Ee).
  repeat case_match; cbn; split; repeat constructor; done.
Qed.

Lemma collect_Ok r vault records acc acc' :
  transfer_values -> try_fold (collect_event r vault) acc records = Ok acc' ->
  flows_nonneg (te_inflows acc) -> flows_nonneg (te_outflows acc) ->
  flow_sum (te_inflows acc') - flow_sum (te_outflows acc') =
    flow_sum (te_inflows acc) - flow_sum (te_outflows acc)
    + list_sum (log_flow r vault <$> records) /\
  flows_nonneg (te_inflows acc') /\ flows_nonneg (te_outflows acc').
Proof.
  intros Hv. revert acc. induction records as [|log records IH]; intros acc H Hi Ho; cbn in H.
  { injection H as <-. cbn. split; [lia|done]. }
  step_ok H as acc1 H1. rewrite fmap_cons, list_sum_cons. unfold log_flow at 1.
  revert H1. unfold collect_event. intros H1. step_ok H1 as decoded Hd.
  destruct (decode_log r log) as [decoded'|] eqn:El; [|done]. cbn in Hd. injection Hd as ->.
  destruct decoded as [decoded|]; injection H1 as <-.
  - pose proof (transfer_flows_nonneg _ vault _ _ Hv El) as [Hn1 Hn2].
    destruct (transfer_flows vault log (de_event decoded)) as [ins outs]. cbn in Hn1, Hn2.
    apply IH in H as (H & H2 & H3); cbn; [|by apply Forall_app..].
    cbn [te_inflows te_outflows] in H. rewrite !flow_sum_app in H. split; [lia|done].
  - apply IH in H; [|done..]. destruct H as (H & ?). split; [lia|done].
Qed.

Lemma idle_transaction_Ok r vault stored ledger records ledger' :
  transfer_values -> ledger_wf ledger ->
  apply_idle_transaction r vault stored ledger records = Ok ledger' ->
  ledger_wf ledger' /\ ll_verified ledger' = ll_verified ledger /\
  ll_exact_idle_assets ledger' =
    ll_exact_idle_assets ledger + list_sum (log_flow r vault <$> records).
Proof.
  intros Hv Hw H. unfold apply_idle_transaction in H. step_ok H as collected Hc.
  apply collect_Ok in Hc as (Hs & Hin & Hout); [|done|constructor..].
  unfold flow_sum in Hs at 3 4. cbn in Hs.
  destruct (bool_decide _ && bool_decide _) eqn:Ee.
  { rewrite andb_true_iff, !bool_decide_eq_true in Ee. destruct Ee as [Ei Eo].
    rewrite Ei, Eo in Hs. unfold flow_sum in Hs. cbn in Hs. injection H as <-. split_and!; [done..|lia]. }
  step_ok H as first Hf. step_ok H as found Hfo. step_ok H as transaction Ht.
  step_ok H as rpc_block Hb. step_ok H as rpc_index Hx. destruct (_ || _); [done|].
  step_ok H as known Hk. step_ok H as inflow Hi. step_ok H as outflow Ho. step_ok H as post Hp.
  apply checked_flow_sum_Ok in Hi as ->, Ho as ->.
  apply ok_or_Ok in Hp. destruct (checked_add _ _ _) as [value|] eqn:Ea; [|done]. cbn in Hp.
  apply checked_add_Some in Ea as [-> Ha]. apply checked_sub_Some in Hp as [-> Hp].
  destruct (apply_transaction _ _ _) as [l [[]|e]] eqn:Eat; [|done]. injection H as <-.
  apply apply_transaction_sound in Eat; [|done|].
  - destruct Eat as [Hw1 Hi1 Hv1 _ _ _ _]. split_and!; [done..|]. rewrite Hi1. lia.
  - pose proof (list_sum_nonneg (af_assets <$> te_outflows collected)) as H0.
    unfold in_u, flow_sum in *. split; [lia|]. enough (0 <= list_sum (af_assets <$> te_outflows collected)) by lia.
    apply H0. by apply Forall_fmap.
Qed.

Lemma idle_logs_Ok r vault stored ledger logs ledger' :
  transfer_values -> ledger_wf ledger ->
  apply_idle_logs r vault stored ledger logs = Ok ledger' ->
  ledger_wf ledger' /\ ll_verified ledger' = ll_verified ledger /\
  ll_exact_idle_assets ledger' = ll_exact_idle_assets ledger + net_flow r vault logs.
Proof.
  intros Hv. unfold apply_idle_logs, net_flow. rewrite <-groups_sum.
  set (groups := transaction_groups _). clearbody groups. revert ledger.
  induction groups as [|records groups IH]; intros ledger Hw H; cbn in H.
  { injection H as <-. cbn. split_and!; [done..|lia]. }
  step_ok H as l1 H1. apply idle_transaction_Ok in H1 as (Hw1 & Hv1 & H1); [|done..].
  apply IH in H as (Hw' & Hv' & H'); [|done]. rewrite fmap_cons, list_sum_cons.
  split_and!; [done|congruence|lia].
Qed.

(** C34: The rebuilt idle ledger is exact. When the replay of the durable logs
    of a vault succeeds, the ledger is verified and well formed, its locks hold
    no more than its balance, and the balance is both the exact one of the
    head and the sum of every asset transfer into the vault less those out of
    it; applying further blocks keeps this. *)
Theorem rebuilt_ledger_exact config r vault stored head idle ledger logs ledger' :
  transfer_values -> rebuild_idle_ledger config r vault stored head idle = Ok ledger ->
  apply_idle_logs r vault stored ledger logs = Ok ledger' ->
  let replayed := load_canonical_logs stored (vc_chain_id (ac_chain (vg_app config)))
                    (vv_deployment_block vault) (blk_number head) in
  ledger_wf ledger /\ ll_verified ledger = true /\ ll_exact_idle_assets ledger = idle /\
  idle = net_flow r vault replayed /\
  ledger_wf ledger' /\ ll_verified ledger' = true /\
  ll_exact_idle_assets ledger' = net_flow r vault (replayed ++ logs).
Proof.
  intros Hv H H' replayed. unfold rebuild_idle_ledger in H. step_ok H as loaded Hl.
  destruct canonical_logs_load; [|done]. injection Hl as <-. step_ok H as l1 H1.
  apply idle_logs_Ok in H1 as (Hw & Hve & He); [|done|].
  - destruct (Z.eqb_spec (ll_exact_idle_assets l1) idle) as [Heq|]; [|done]. injection H as <-.
    apply idle_logs_Ok in H' as (Hw' & Hve' & He'); [|done..]. cbn in He, Hve.
    assert (net_flow r vault (replayed ++ logs) = net_flow r vault replayed + net_flow r vault logs)
      as Happ.
    { unfold net_flow. by rewrite List.filter_app, fmap_app, list_sum_app. }
    fold replayed in He. split_and!; [done..|lia|done|congruence|lia].
  - split; [constructor|]. split; [|done]. cbn. by split.
Qed.
End Idle.
