(* ===== verification/StateService.v ===== *)
(** * The canonical state service

    Models [CanonicalStateService] of [src/src/runtime/state_service.rs]: the
    single owner of the replayed topology, the idle ledgers and the exact state
    of every vault.  It applies the storage-acknowledged updates of the chain,
    refreshes what became dirty, publishes snapshots, runtime states, planning
    work and readiness.  A call works on a world: the durable state, the runtime
    registry, the API cache, the published work and readiness, and the service's
    own fields.  Reading an exact snapshot, deployed code or a transaction is an
    RPC exchange, the class [StateEnvironment].  Metrics, alerts and heartbeats
    are left out. *)
From Stdlib Require Import ZArith Lia Bool String.
From stdpp Require Import base gmap sets strings list.
From S2P Require Import Prelude.
From S2P Require Import BlueMath.
From S2P Require Import Domain.
From S2P Require Import Config.
From S2P Require Import Caps.
From S2P Require Import IdleLocks.
From S2P Require Import Projection.
From S2P Require Import Episodes.
From S2P Require Import Objective.
From S2P Require Import Revision.
From S2P Require Import Planning.
From S2P Require Import Models.
From S2P Require Import Storage.
From S2P Require Import Actor.
From S2P Require Import PlanService.
From S2P Require Import Logs.
From S2P Require Import Topology.
From S2P Require Import Provider.
From S2P Require Import Heads.
From S2P Require Import Reconciliation.
From S2P Require Import Identity.
From S2P Require Import Snapshot.
From S2P Require Import Controller.
From S2P Require Import ApiStore.
From S2P Require Import EventSources.
From S2P Require Import IdleReplay.
Open Scope Z_scope.

(** ** Pure decisions *)

Definition desired_runtime_state (mode : RuntimeMode) (snapshot : ExactVaultSnapshot)
    (signer_ready : bool) (pending : option UnresolvedTransaction) : RuntimeVaultState :=
  let capabilities := ev_capabilities snapshot in
  match mode with
  | ModeObserve => RvObserve
  | ModeShadow => if vc_can_project capabilities then RvShadow else RvPausedUnsupportedConfiguration
  | ModeExecute =>
      match pending with
      | Some pending =>
          if bool_decide (un_state pending = ForeignNonceConsumed) then RvPausedSignerFailure
          else RvPendingTransaction
      | None =>
          if negb (ils_verified (ev_idle_locks snapshot)) then RvLockAccountingUncertain
          else match ils_locks (ev_idle_locks snapshot) with
               | _ :: _ => RvIdleLocksActive
               | [] =>
                   if vc_can_allocate capabilities then
                     if signer_ready then RvAutomatic else RvPausedSignerFailure
                   else RvPausedUnsupportedConfiguration
               end
      end
  end.

Definition preserve_incident_quarantine (current calculated : RuntimeVaultState)
    (has_unresolved_transaction : bool) : RuntimeVaultState :=
  if is_persistent_quarantine current && negb has_unresolved_transaction then current
  else calculated.

Definition runtime_reason (mode : RuntimeMode) (snapshot : ExactVaultSnapshot)
    (signer_ready : bool) (pending : option UnresolvedTransaction) : option string :=
  let capabilities := ev_capabilities snapshot in
  let disabled := Some "exact snapshot disables configured planning capability"%string in
  match mode with
  | ModeObserve => None
  | ModeShadow => if vc_can_project capabilities then None else disabled
  | ModeExecute =>
      match pending with
      | Some pending =>
          Some (if bool_decide (un_state pending = ForeignNonceConsumed)
                then "configured signer nonce was consumed outside the durable lane"
                else "durable transaction lifecycle is unresolved")%string
      | None =>
          if negb (ils_verified (ev_idle_locks snapshot))
          then Some "idle-lock accounting is not verified through the canonical head"%string
          else match ils_locks (ev_idle_locks snapshot) with
               | _ :: _ =>
                   Some "canonical idle locks prevent routine deployment of held assets"%string
               | [] =>
                   if vc_can_allocate capabilities then
                     if signer_ready then None
                     else Some "restricted signer service is not composed"%string
                   else disabled
               end
      end
  end.

Definition exact_ready_for_mode (mode : RuntimeMode) (snapshot : ExactVaultSnapshot) : bool :=
  match mode with
  | ModeObserve => vc_can_observe (ev_capabilities snapshot)
  | ModeShadow => vc_can_project (ev_capabilities snapshot)
  | ModeExecute => vc_can_allocate (ev_capabilities snapshot)
  end.

Definition strategy_tick_due (last_tick : option Z) (canonical_timestamp interval : Z) : bool :=
  if interval =? 0 then false
  else match last_tick with
       | None => true
       | Some last =>
           match checked_sub canonical_timestamp last with
           | Some elapsed => interval <=? elapsed
           | None => false
           end
       end.

Definition plan_refresh_allowed (mode : RuntimeMode)
    (can_project can_allocate has_pending_transaction : bool) : bool :=
  match mode with
  | ModeObserve => false
  | ModeShadow => can_project
  | ModeExecute => can_allocate && negb has_pending_transaction
  end.

Definition transient_snapshot_context (error : StateServiceError) : bool :=
  match error with
  | SnapshotAwaitingCanonicalReplay => true
  | SsSnapshot (SnMulticall (CursorNotAtHead | ContextChanged | ContextMismatch
                            | AuthoritativeCallFailed _)) => true
  | SsSnapshot (SnMulticall (McProvider error)) => is_transient_outage error
  | _ => false
  end.

Definition snapshot_provider_outage (error : StateServiceError) : bool :=
  match error with
  | SsSnapshot (SnMulticall (McProvider error)) => is_transient_outage error
  | _ => false
  end.

Definition independent_event_failure_is_vault_scoped (error : StateServiceError) : bool :=
  match error with SsEpisode _ => true | _ => false end.
Definition topology_replay_failure_is_vault_scoped (error : StateServiceError) : bool :=
  match error with SsTopology _ => true | _ => false end.

Inductive SnapshotFailureScope : Type := VaultRetry | VaultQuarantine | GlobalFailure.

Definition snapshot_failure_scope (error : SnapshotError) : SnapshotFailureScope :=
  match error with
  | SnMulticall (AuthoritativeCallFailed _) => VaultRetry
  | SnTopology _ | SnCapability _ | MissingCodeIdentity | CodeIdentityMismatch
  | ReturnSchemaMismatch | MissingResult _ | NumericRange => VaultQuarantine
  | _ => GlobalFailure
  end.

Definition unverified_idle_ledger_snapshot (exact_idle_assets : Z) : IdleLockLedgerSnapshot :=
  mkIdleLockLedgerSnapshot [] exact_idle_assets false.

Definition rate_per_second_to_apr_bps_down (rate : Z) : Z :=
  default U64_MAX (annual ← checked_mul U256_MAX rate SECONDS_PER_YEAR;
                   scaled ← checked_mul U256_MAX annual 10000;
                   value ← checked_div scaled WAD;
                   try_from_u U64_MAX value).

Definition utilization_wad_to_bps_down (utilization : Z) : Z :=
  default U64_MAX (scaled ← checked_mul U256_MAX utilization 10000;
                   value ← checked_div scaled WAD;
                   try_from_u U64_MAX value).

(** The values of the listed markets, or [None] when one is missing. *)
Definition market_values (markets : gset MarketId) (projection : ProjectedVaultView)
    (objective : StrategyObjective) : option (list Z) :=
  opt_map (fun market => (fun state => strategy_value state objective)
                         <$> pw_markets projection !! market) (set_elements markets).

Definition episode_partition_preserved (episode : RateSignalEpisode)
    (projection : ProjectedVaultView) (objective : StrategyObjective) : bool :=
  match (rates ← market_values (re_source_markets episode) projection objective; list_max rates),
        (rates ← market_values (re_destination_markets episode) projection objective;
         list_min rates) with
  | Some source, Some destination => source <? destination
  | _, _ => false
  end.

(** ** The world *)

Record VaultReplayState : Type := mkVaultReplayState {
  rs_topology : TopologyIndex;
  rs_idle_ledger : option IdleLockLedger;
  rs_through : BlockRef;
}.

Notation PlanningWorkSet := (gmap VaultAddress PlanningRevision).

(** The fields the service owns. *)
Record ServiceFields : Type := mkServiceFields {
  sf_vaults : gmap VaultAddress VaultReplayState;
  sf_providers_ready : bool;
  sf_last_exact_head : option BlockRef;
  sf_last_strategy_tick_timestamp : option Z;
  sf_pending_latest_snapshots : gmap VaultAddress ExactVaultSnapshot;
  sf_api_state_epochs : gmap VaultAddress ApiStateEpoch;
  sf_consecutive_snapshot_provider_failures : Z;
  sf_dirty : DirtyAccumulator;
  sf_planning_work : PlanningWorkSet;
}.

Definition sf_set_vaults (f : ServiceFields) vaults : ServiceFields :=
  mkServiceFields vaults (sf_providers_ready f) (sf_last_exact_head f)
    (sf_last_strategy_tick_timestamp f) (sf_pending_latest_snapshots f) (sf_api_state_epochs f)
    (sf_consecutive_snapshot_provider_failures f) (sf_dirty f) (sf_planning_work f).
Definition sf_set_providers (f : ServiceFields) ready : ServiceFields :=
  mkServiceFields (sf_vaults f) ready (sf_last_exact_head f)
    (sf_last_strategy_tick_timestamp f) (sf_pending_latest_snapshots f) (sf_api_state_epochs f)
    (sf_consecutive_snapshot_provider_failures f) (sf_dirty f) (sf_planning_work f).
Definition sf_set_exact_head (f : ServiceFields) head : ServiceFields :=
  mkServiceFields (sf_vaults f) (sf_providers_ready f) head
    (sf_last_strategy_tick_timestamp f) (sf_pending_latest_snapshots f) (sf_api_state_epochs f)
    (sf_consecutive_snapshot_provider_failures f) (sf_dirty f) (sf_planning_work f).
Definition sf_set_tick (f : ServiceFields) tick : ServiceFields :=
  mkServiceFields (sf_vaults f) (sf_providers_ready f) (sf_last_exact_head f) tick
    (sf_pending_latest_snapshots f) (sf_api_state_epochs f)
    (sf_consecutive_snapshot_provider_failures f) (sf_dirty f) (sf_planning_work f).
Definition sf_set_pending (f : ServiceFields) pending : ServiceFields :=
  mkServiceFields (sf_vaults f) (sf_providers_ready f) (sf_last_exact_head f)
    (sf_last_strategy_tick_timestamp f) pending (sf_api_state_epochs f)
    (sf_consecutive_snapshot_provider_failures f) (sf_dirty f) (sf_planning_work f).
Definition sf_set_epochs (f : ServiceFields) epochs : ServiceFields :=
  mkServiceFields (sf_vaults f) (sf_providers_ready f) (sf_last_exact_head f)
    (sf_last_strategy_tick_timestamp f) (sf_pending_latest_snapshots f) epochs
    (sf_consecutive_snapshot_provider_failures f) (sf_dirty f) (sf_planning_work f).
Definition sf_set_failures (f : ServiceFields) failures : ServiceFields :=
  mkServiceFields (sf_vaults f) (sf_providers_ready f) (sf_last_exact_head f)
    (sf_last_strategy_tick_timestamp f) (sf_pending_latest_snapshots f) (sf_api_state_epochs f)
    failures (sf_dirty f) (sf_planning_work f).
Definition sf_set_dirty (f : ServiceFields) dirty : ServiceFields :=
  mkServiceFields (sf_vaults f) (sf_providers_ready f) (sf_last_exact_head f)
    (sf_last_strategy_tick_timestamp f) (sf_pending_latest_snapshots f) (sf_api_state_epochs f)
    (sf_consecutive_snapshot_provider_failures f) dirty (sf_planning_work f).
Definition sf_set_work (f : ServiceFields) work : ServiceFields :=
  mkServiceFields (sf_vaults f) (sf_providers_ready f) (sf_last_exact_head f)
    (sf_last_strategy_tick_timestamp f) (sf_pending_latest_snapshots f) (sf_api_state_epochs f)
    (sf_consecutive_snapshot_provider_failures f) (sf_dirty f) work.

(** The outside: what a read answers at a moment, and the next moment. *)
Class StateEnvironment : Type := {
  moment : Type;
  next_moment : moment -> moment;
  reported_latest_snapshot : moment -> SnapshotBlueprint -> result SnapshotError ExactVaultSnapshot;
  deployed_code : moment -> CodeReads;
  transaction_lookup : moment -> B256 -> result ProviderError (option RpcTransaction);
}.

Record StateWorld `{StateEnvironment} : Type := mkStateWorld {
  ww_moment : moment;
  ww_storage : JsonState;
  ww_runtime : RuntimeRegistry;
  ww_api : ApiDataStore;
  ww_fields : ServiceFields;
  (** The latest value of the planning channel, when one is attached. *)
  ww_triggers : option PlanningWorkSet;
  ww_readiness : option ReadinessReport;
  ww_last_processed_block : Z;
}.

Section Service.
Context `{HV : StateEnvironment} `{HE : EventAbi} `{HK : Keccak} `{HB : AdminAbi}.
Context `{HC : AbiCaps} `{HA : AbiParams} `{HJ : SnapshotJson}.
Context (config : ValidatedConfig) (identities : RuntimeIdentities).
Context (sources : EventSourceRegistry) (signer_ready : bool).

Let mode := vn_mode (ac_node (vg_app config)).
Let chain_id := vc_chain_id (ac_chain (vg_app config)).
Let vaults := ac_vaults (vg_app config).

Definition sio (A : Type) : Type := StateWorld -> result StateServiceError A * StateWorld.
#[export] Instance sio_ret : MRet sio := fun A a w => (Ok a, w).
#[export] Instance sio_bind : MBind sio := fun A B f c w =>
  match c w with
  | (Ok a, w) => f a w
  | (Err e, w) => (Err e, w)
  end.
Definition sio_err {A} (e : StateServiceError) : sio A := fun w => (Err e, w).
Definition sio_lift {A} (c : result StateServiceError A) : sio A := fun w => (c, w).
(** The answer as a value. *)
Definition sio_try {A} (c : sio A) : sio (result StateServiceError A) := fun w =>
  let '(r, w) := c w in (Ok r, w).
Fixpoint sio_each {A} (f : A -> sio unit) (l : list A) : sio unit :=
  match l with
  | [] => mret tt
  | x :: l => _ ← f x; sio_each f l
  end.
Fixpoint sio_fold {A B} (f : A -> B -> sio A) (a : A) (l : list B) : sio A :=
  match l with
  | [] => mret a
  | x :: l => a ← f a x; sio_fold f a l
  end.

Definition get_fields {A} (f : ServiceFields -> A) : sio A := fun w => (Ok (f (ww_fields w)), w).
Definition set_fields (f : ServiceFields -> ServiceFields) : sio unit := fun w =>
  (Ok tt, mkStateWorld _ (ww_moment w) (ww_storage w) (ww_runtime w) (ww_api w)
            (f (ww_fields w)) (ww_triggers w) (ww_readiness w) (ww_last_processed_block w)).
(** A read of the outside takes a moment. *)
Definition outside {A} (f : moment -> A) : sio A := fun w =>
  (Ok (f (ww_moment w)),
   mkStateWorld _ (next_moment (ww_moment w)) (ww_storage w) (ww_runtime w) (ww_api w)
     (ww_fields w) (ww_triggers w) (ww_readiness w) (ww_last_processed_block w)).
Definition query {A} (f : JsonState -> result StorageError A) : sio A := fun w =>
  (map_err (fun _ => SsStorage) (f (ww_storage w)), w).
Definition on_storage {A} (f : JsonState -> A) : sio A := fun w => (Ok (f (ww_storage w)), w).
Definition store (command : StorageCommand) : sio unit := fun w =>
  match commit (ww_storage w) command with
  | Ok s => (Ok tt, mkStateWorld _ (ww_moment w) s (ww_runtime w) (ww_api w) (ww_fields w)
                      (ww_triggers w) (ww_readiness w) (ww_last_processed_block w))
  | Err _ => (Err SsStorage, w)
  end.
Definition api {A} (f : ApiDataStore -> ApiDataStore * A) : sio A := fun w =>
  let '(s, a) := f (ww_api w) in
  (Ok a, mkStateWorld _ (ww_moment w) (ww_storage w) (ww_runtime w) s (ww_fields w)
           (ww_triggers w) (ww_readiness w) (ww_last_processed_block w)).
Definition api_read {A} (f : ApiDataStore -> A) : sio A := fun w => (Ok (f (ww_api w)), w).
Definition registry_read {A} (f : RuntimeRegistry -> A) : sio A := fun w =>
  (Ok (f (ww_runtime w)), w).
Definition update (vault : VaultAddress) (f : Update) : sio unit := fun w =>
  let '(r, answer) := runtime_update (ww_runtime w) vault f in
  (map_err (fun _ => SsController) answer,
   mkStateWorld _ (ww_moment w) (ww_storage w) r (ww_api w) (ww_fields w)
     (ww_triggers w) (ww_readiness w) (ww_last_processed_block w)).
(** [if let Some(sender) = &self.planning_triggers { sender.send_replace(..) }] *)
Definition publish_work : sio unit := fun w =>
  (Ok tt, mkStateWorld _ (ww_moment w) (ww_storage w) (ww_runtime w) (ww_api w) (ww_fields w)
            ((fun _ => sf_planning_work (ww_fields w)) <$> ww_triggers w) (ww_readiness w)
            (ww_last_processed_block w)).

Definition set_readiness (report : ReadinessReport) : sio unit := fun w =>
  (Ok tt, mkStateWorld _ (ww_moment w) (ww_storage w) (ww_runtime w) (ww_api w) (ww_fields w)
            (ww_triggers w) (Some report) (ww_last_processed_block w)).
(** [record_processed_block]: monotone. *)
Definition record_processed_block (block : Z) : sio unit := fun w =>
  (Ok tt, mkStateWorld _ (ww_moment w) (ww_storage w) (ww_runtime w) (ww_api w) (ww_fields w)
            (ww_triggers w) (ww_readiness w) (Z.max (ww_last_processed_block w) block)).

(** [CanonicalStateService::new]. *)
Definition initial_fields : ServiceFields :=
  mkServiceFields ∅ true None None ∅ ∅ 0 (mark_startup dirty_default config) ∅.

(** ** Readiness and runtime states *)

Definition mark_catching_up : sio unit :=
  sio_each (fun vault => update (vv_address vault) (fun status =>
    if is_persistent_quarantine (vs_state status) then done_update status
    else transition RvCatchingUp None status)) vaults.

Definition publish_readiness (caught_up exact_state_ready : bool) : sio unit :=
  unresolved ← query load_all_unresolved;
  let pending := match unresolved with [] => false | _ => true end in
  statuses ← registry_read runtime_all;
  let operator_paused :=
    existsb (fun status => bool_decide (vs_state status = RvPausedByOperator)) statuses in
  let runtime_signer_ready := signer_ready
    && negb (existsb (fun status => bool_decide (vs_state status = RvPausedSignerFailure))
               statuses) in
  let execution_scopes_ready :=
    forallb (fun status => execution_scope_ready (vs_state status)) statuses in
  providers_ready ← get_fields sf_providers_ready;
  let report := evaluate_readiness (mkReadinessInputs mode true true providers_ready caught_up
    true exact_state_ready runtime_signer_ready execution_scopes_ready pending operator_paused) in
  set_readiness report.

Definition mark_worker_unavailable : sio unit :=
  _ ← set_fields (fun f => sf_set_pending (sf_set_exact_head f None) ∅);
  _ ← mark_catching_up;
  publish_readiness false false.

(** The states a failed refresh leaves alone. *)
Definition keeps_state (state : RuntimeVaultState) : bool :=
  is_persistent_quarantine state
  || match state with RvPendingTransaction | RvRecovery => true | _ => false end.

Definition record_vault_refresh_failure (vault : VaultAddress) (head : BlockRef)
    (state : RuntimeVaultState) (reason : string) : sio unit :=
  _ ← set_fields (fun f =>
        sf_set_work (sf_set_pending f (delete vault (sf_pending_latest_snapshots f)))
          (delete vault (sf_planning_work f)));
  _ ← api (fun s => clear_plan_through s vault (blk_number head) U64_MAX);
  _ ← update vault (writing (fun status => vs_set_head status head)
        (and_then (record_planning None None) (fun status =>
           if keeps_state (vs_state status) then done_update status
           else transition state (Some reason) status)));
  publish_work.

(** The states in which a transaction may start, or is about to. *)
Definition leaves_for_refresh (state : RuntimeVaultState) : bool :=
  can_start_transaction state
  || match state with RvPendingDeployment | RvIdleLocksActive => true | _ => false end.

Definition supersede_plan (reason : string) (vault : VaultAddress) : sio unit :=
  _ ← set_fields (fun f => sf_set_work f (delete vault (sf_planning_work f)));
  plan ← api_read (fun s => api_plan s vault);
  _ ← match plan with
      | Some plan => api (fun s => clear_plan_if s vault (pl_plan_id plan))
      | None => mret false
      end;
  update vault (fun status =>
    and_then (record_planning None (vs_episode_id status)) (fun status =>
      if leaves_for_refresh (vs_state status)
      then transition RvCatchingUp (Some reason) status else done_update status) status).

Definition supersede_dirty_plans (reason : string) : sio unit :=
  dirty ← get_fields (fun f => dirty_vaults (sf_dirty f));
  _ ← sio_each (supersede_plan reason) dirty;
  publish_work.

Definition api_state_epoch (vault : VaultAddress) : sio ApiStateEpoch :=
  known ← get_fields (fun f => sf_api_state_epochs f !! vault);
  match known with
  | Some epoch => mret epoch
  | None =>
      captured ← api (fun s => state_epoch s chain_id vault);
      epoch ← sio_lift (ok_or captured ApiStateEpochUnavailable);
      _ ← set_fields (fun f => sf_set_epochs f (<[vault := epoch]> (sf_api_state_epochs f)));
      mret epoch
  end.

Definition rewind_api_state : sio unit :=
  sio_each (fun vault =>
    captured ← api (fun s => rewind_vault s chain_id (vv_address vault));
    epoch ← sio_lift (ok_or captured ApiStateEpochUnavailable);
    set_fields (fun f => sf_set_epochs f (<[vv_address vault := epoch]> (sf_api_state_epochs f))))
    vaults.

(** ** Replaying blocks *)

Definition rebuild_vault (head : BlockRef) (rebuilt : gmap VaultAddress VaultReplayState)
    (vault : ValidatedVaultConfig) : sio (gmap VaultAddress VaultReplayState) :=
  if blk_number head <? vv_deployment_block vault then mret rebuilt
  else
    let keep topology :=
      <[vv_address vault := mkVaultReplayState topology None head]> rebuilt in
    replayed ← on_storage (fun s => replay_topology_through config sources s vault head);
    match replayed with
    | Ok topology =>
        _ ← store (PersistTopology topology head);
        mret (keep topology)
    | Err error =>
        if topology_replay_failure_is_vault_scoped error then
          known ← get_fields (fun f => rs_topology <$> sf_vaults f !! vv_address vault);
          fallback ← match known with
                     | Some topology => mret topology
                     | None => sio_lift (new_topology vault)
                     end;
          _ ← record_vault_refresh_failure (vv_address vault) head
                RvPausedUnsupportedConfiguration
                "one vault canonical topology cannot be reconstructed exactly";
          mret (keep fallback)
        else sio_err error
    end.

Definition rebuild_through (head : BlockRef) : sio unit :=
  rebuilt ← sio_fold (rebuild_vault head) ∅ vaults;
  set_fields (fun f => sf_set_vaults f rebuilt).

(** The topologies in key order; those before an error stay changed. *)
Fixpoint apply_log_to_vaults (log : CanonicalLogRecord) (keys : list VaultAddress)
    (m : gmap VaultAddress VaultReplayState)
    : result StateServiceError unit * gmap VaultAddress VaultReplayState :=
  match keys with
  | [] => (Ok tt, m)
  | key :: keys =>
      match m !! key with
      | None => apply_log_to_vaults log keys m
      | Some state =>
          let '(answer, topology) := apply_log_to_topology sources log (rs_topology state) in
          let m := <[key := mkVaultReplayState topology (rs_idle_ledger state)
                              (rs_through state)]> m in
          match answer with
          | Ok _ => apply_log_to_vaults log keys m
          | Err e => (Err e, m)
          end
      end
  end.

Definition apply_log_to_all (log : CanonicalLogRecord) : sio unit := fun w =>
  let m := sf_vaults (ww_fields w) in
  let '(answer, m) := apply_log_to_vaults log (btree_keys m) m in
  let '(_, w) := set_fields (fun f => sf_set_vaults f m) w in
  (answer, w).

(** [merge_canonical_invalidations] on the accumulator of the service: the
    marks of the logs before a malformed one stay. *)
Definition merge_log (log : CanonicalLogRecord) : sio unit :=
  dirty ← get_fields sf_dirty;
  dirty ← sio_lift (merge_canonical_invalidations config sources dirty [log]);
  set_fields (fun f => sf_set_dirty f dirty).
Definition merge_logs (logs : list CanonicalLogRecord) : sio unit := sio_each merge_log logs.

(** The receipts' own vaults, marked dirty; whether there are any. *)
Definition mark_known_transactions (block : BlockRef) (receipts : list ReceiptRecord) : sio bool :=
  known ← query (fun s => known_transaction_vaults s (rt_transaction_hash <$> receipts));
  _ ← set_fields (fun f => sf_set_dirty f
        (fold_left (fun d vault => mark_post_transaction d vault (blk_number block)) known
           (sf_dirty f)));
  mret (match known with [] => false | _ => true end).

Definition set_ledger (vault : VaultAddress) (ledger : option IdleLockLedger) (f : ServiceFields)
    : ServiceFields :=
  sf_set_vaults f (alter (fun state => mkVaultReplayState (rs_topology state) ledger
                                         (rs_through state)) vault (sf_vaults f)).

Definition advance_ledger (logs : list CanonicalLogRecord) (vault : ValidatedVaultConfig)
    : sio unit :=
  taken ← get_fields (fun f => state ← sf_vaults f !! vv_address vault; rs_idle_ledger state);
  _ ← set_fields (set_ledger (vv_address vault) None);
  match taken with
  | None => mret tt
  | Some ledger =>
      lookup ← outside transaction_lookup;
      applied ← on_storage (fun s =>
        apply_idle_logs (HR := Build_LedgerReads lookup true (fun _ => true))
          sources vault s ledger logs);
      match applied with
      | Ok ledger => set_fields (set_ledger (vv_address vault) (Some ledger))
      | Err _ => mret tt
      end
  end.

Definition not_next (block : BlockRef) (state : VaultReplayState) : bool :=
  negb (blk_number block =? saturating_add U64_MAX (blk_number (rs_through state)) 1)
  || negb (blk_parent_hash block =? blk_hash (rs_through state)).

Definition apply_chain_block (block : BlockRef) (receipts : list ReceiptRecord)
    (logs : list CanonicalLogRecord) : sio unit :=
  let deployed := List.filter (fun vault => vv_deployment_block vault <=? blk_number block) vaults in
  replayed ← get_fields sf_vaults;
  if negb (bool_decide (size replayed = length deployed)) then
    _ ← rebuild_through block;
    _ ← merge_logs logs;
    known ← mark_known_transactions block receipts;
    if negb (match logs with [] => true | _ => false end) || known
    then supersede_dirty_plans
           "a canonical change at a vault deployment boundary requires exact refresh"
    else mret tt
  else if existsb (not_next block) (btree_values replayed) then sio_err NonCanonicalUpdate
  else
    _ ← merge_logs logs;
    _ ← sio_each apply_log_to_all logs;
    known ← mark_known_transactions block receipts;
    _ ← if negb (match logs with [] => true | _ => false end) || known
        then supersede_dirty_plans "a relevant canonical change requires exact refresh"
        else mret tt;
    _ ← sio_each (advance_ledger logs) vaults;
    set_fields (fun f => sf_set_vaults f
      ((fun state => mkVaultReplayState (rs_topology state) (rs_idle_ledger state) block)
       <$> sf_vaults f)).

Definition ensure_replayed_through (head : BlockRef) : sio unit :=
  replayed ← get_fields sf_vaults;
  let states := btree_values replayed in
  let complete := negb (match states with [] => true | _ => false end)
    && forallb (fun state => (blk_number (rs_through state) =? blk_number head)
                             && (blk_hash (rs_through state) =? blk_hash head)) states in
  if complete then mret tt
  else
    let replay_from :=
      number ← list_min ((fun state => blk_number (rs_through state)) <$> states);
      checked_add U64_MAX number 1 in
    _ ← rebuild_through head;
    match replay_from with
    | Some from =>
        if from <=? blk_number head then
          logs ← query (fun s => Ok (load_canonical_logs s chain_id from (blk_number head)));
          _ ← merge_logs logs;
          match logs with
          | [] => mret tt
          | _ => supersede_dirty_plans "coalesced canonical events require one exact refresh"
          end
        else mret tt
    | None => mret tt
    end.

(** ** Candidates *)

Definition reported_candidate_is_current (candidate : ExactVaultSnapshot)
    (topology : TopologyIndex) (replay_head : BlockRef) : sio bool :=
  let context := ev_context candidate in
  let snapshot_block := ctx_block context in
  let candidate_vault := pv_vault (ev_parent candidate) in
  if blk_number replay_head <? blk_number snapshot_block then mret false
  else
    match find (fun vault => vv_address vault =? candidate_vault) vaults with
    | None => mret false
    | Some configured =>
        if negb (ti_vault topology =? candidate_vault)
           || negb (ctx_chain_id context =? chain_id)
           || negb (ctx_static_config_revision context =? vg_revision config)
           || negb (pv_asset (ev_parent candidate) =? vv_asset configured)
        then mret false
        else
          match reconcile_topology_from_snapshot topology candidate with
          | Err _ => mret false
          | Ok exact_topology =>
              match revision exact_topology with
              | Err _ => mret false
              | Ok replayed_revision =>
                  if negb (replayed_revision =? ctx_dynamic_topology_revision context)
                  then mret false
                  else
                    canonical ← query (fun s =>
                      Ok (load_canonical_block s chain_id (blk_number snapshot_block)));
                    if negb (bool_decide (canonical = Some snapshot_block)) then mret false
                    else if blk_number snapshot_block =? blk_number replay_head
                    then mret (bool_decide (snapshot_block = replay_head))
                    else
                      logs ← query (fun s => Ok (load_canonical_logs s chain_id
                               (saturating_add U64_MAX (blk_number snapshot_block) 1)
                               (blk_number replay_head)));
                      affects ← sio_lift
                        (canonical_logs_affect_candidate sources candidate topology logs);
                      mret (negb affects)
              end
          end
    end.

(** ** Independent rate events *)

(** Whether the previous snapshot and the current one bound an interval. *)
Definition same_lineage (previous current : StateContext) : bool :=
  (ctx_chain_id previous =? ctx_chain_id current)
  && (blk_number (ctx_block previous) <? blk_number (ctx_block current))
  && (ctx_static_config_revision previous =? ctx_static_config_revision current)
  && (ctx_dynamic_topology_revision previous =? ctx_dynamic_topology_revision current).

(** How much the event moved the rate, against the projection without it. *)
Definition event_impact (direction : IndependentEventDirection) (observed without_event : Z)
    : option Z :=
  match direction with
  | BorrowDestination => checked_sub observed without_event
  | RepaySource => checked_sub without_event observed
  end.

Definition record_independent_rate_event (vault : ValidatedVaultConfig)
    (previous : option ExactVaultSnapshot) (current : ExactVaultSnapshot)
    (projection : ProjectedVaultView) : sio bool :=
  let strategy := ac_strategy (vg_app config) in
  let here := ctx_block (ev_context current) in
  let here_chain := ctx_chain_id (ev_context current) in
  active ← query (fun s => load_active_rate_episode s (vv_address vault)
                             (rg_id (vv_rate_group vault)));
  match active with
  | None => mret false
  | Some episode =>
      if negb (bool_decide (re_state episode = Immediate)) then mret true
      else
        match previous with
        | None => mret true
        | Some previous =>
            let there := ctx_block (ev_context previous) in
            if negb (same_lineage (ev_context previous) (ev_context current)) then mret true
            else
              canonical_previous ← query (fun s => Ok (load_canonical_block s
                (ctx_chain_id (ev_context previous)) (blk_number there)));
              if negb (bool_decide (canonical_previous = Some there)) then mret true
              else
                count ← query (fun s => count_execution_opportunities s here_chain
                  (blk_number there) (blk_number here) None);
                if negb (count =? saturating_sub (blk_number here) (blk_number there))
                then mret true
                else
                  logs ← query (fun s => Ok (load_canonical_logs s here_chain
                    (saturating_add U64_MAX (blk_number there) 1) (blk_number here)));
                  candidate ← sio_lift (unique_independent_rate_event sources episode logs
                    (vv_minimum_independent_event_assets vault));
                  match candidate with
                  | None => mret true
                  | Some candidate =>
                      known ← query (fun s => Ok (is_known_transaction_hash s
                                                    (ic_transaction_hash candidate)));
                      if (known : bool) then mret true
                      else
                        event_block ← query (fun s => Ok (load_canonical_block s here_chain
                                                            (ic_block_number candidate)));
                        match event_block with
                        | None => mret true
                        | Some event_block =>
                            if negb (blk_hash event_block =? ic_block_hash candidate)
                               || negb (episode_partition_preserved episode projection
                                          (sg_objective strategy))
                            then mret true
                            else
                              match project_snapshot_to_head previous here vault with
                              | Err _ => mret true
                              | Ok counterfactual =>
                                  match pw_markets projection !! ic_market candidate,
                                        pw_markets counterfactual !! ic_market candidate with
                                  | Some observed, Some without_event =>
                                      let value state := strategy_value state
                                                           (sg_objective strategy) in
                                      match event_impact (ic_direction candidate)
                                              (value observed) (value without_event) with
                                      | Some impact =>
                                          if impact <? minimum_independent_event_impact strategy
                                          then mret true
                                          else
                                            let '(episode, recorded) :=
                                              record_independent_event episode
                                                (mkIndependentRateEvent
                                                   (ic_transaction_hash candidate) event_block) in
                                            recorded ← sio_lift (map_err SsEpisode recorded);
                                            _ ← if (recorded : bool)
                                                then store (Actor.PersistRateEpisode episode
                                                              (blk_timestamp here))
                                                else mret tt;
                                            mret true
                                      | None => mret true
                                      end
                                  | _, _ => mret true
                                  end
                              end
                        end
                  end
        end
  end.

(** ** The exact refresh of a vault *)

Definition blueprint_of (vault : ValidatedVaultConfig) (topology : TopologyIndex)
    (head : BlockRef) : SnapshotBlueprint :=
  mkSnapshotBlueprint (ac_chain (vg_app config)) (ac_snapshot (vg_app config))
    (ac_strategy (vg_app config)) vault topology (id_code_hashes identities) (vg_revision config)
    head (mkIdleLockLedgerSnapshot [] 0 false) (blk_timestamp head) (blk_timestamp head) true.

(** What ends the refresh of one vault without failing the others. *)
Inductive Refreshed : Type :=
| VaultDeferred
| VaultCandidate (candidate : ExactVaultSnapshot).

(** A new reading; a candidate ahead of the replay is kept for later. *)
Definition read_candidate (vault : ValidatedVaultConfig) (topology : TopologyIndex)
    (head : BlockRef) : sio Refreshed :=
  answer ← outside (fun m => reported_latest_snapshot m (blueprint_of vault topology head));
  match answer with
  | Ok candidate =>
      if blk_number head <? blk_number (ctx_block (ev_context candidate)) then
        _ ← set_fields (fun f => sf_set_pending f
              (<[vv_address vault := candidate]> (sf_pending_latest_snapshots f)));
        sio_err SnapshotAwaitingCanonicalReplay
      else
        current ← reported_candidate_is_current candidate topology head;
        if (current : bool) then mret (VaultCandidate candidate)
        else sio_err SnapshotAwaitingCanonicalReplay
  | Err SnIdentityMismatch => sio_err SnapshotAwaitingCanonicalReplay
  | Err error =>
      match snapshot_failure_scope error with
      | VaultRetry =>
          _ ← record_vault_refresh_failure (vv_address vault) head RvCatchingUp
                "one authoritative vault or adapter read temporarily reverted";
          mret VaultDeferred
      | VaultQuarantine =>
          _ ← record_vault_refresh_failure (vv_address vault) head
                RvPausedUnsupportedConfiguration
                "one vault runtime, ABI, topology, or numeric identity is outside the reviewed profile";
          mret VaultDeferred
      | GlobalFailure => sio_err (SsSnapshot error)
      end
  end.

(** The pending candidate when it is current, else a new reading. *)
Definition obtain_candidate (vault : ValidatedVaultConfig) (topology : TopologyIndex)
    (head : BlockRef) : sio Refreshed :=
  pending ← get_fields (fun f => sf_pending_latest_snapshots f !! vv_address vault);
  _ ← set_fields (fun f => sf_set_pending f
        (delete (vv_address vault) (sf_pending_latest_snapshots f)));
  match pending with
  | None => read_candidate vault topology head
  | Some candidate =>
      if blk_number (ctx_block (ev_context candidate)) <=? blk_number head then
        current ← reported_candidate_is_current candidate topology head;
        if (current : bool) then mret (VaultCandidate candidate)
        else read_candidate vault topology head
      else
        _ ← set_fields (fun f => sf_set_pending f
              (<[vv_address vault := candidate]> (sf_pending_latest_snapshots f)));
        sio_err SnapshotAwaitingCanonicalReplay
  end.

Definition rebuilt_ledger (vault : ValidatedVaultConfig) (snapshot_block : BlockRef)
    (exact_idle_assets : Z) : sio (option IdleLockLedger) :=
  lookup ← outside transaction_lookup;
  on_storage (fun s =>
    match rebuild_idle_ledger (HR := Build_LedgerReads lookup true (fun _ => true))
            config sources vault s snapshot_block exact_idle_assets with
    | Ok ledger => Some ledger
    | Err _ => None
    end).

(** The ledger to retain and the locks to bind: fresh for an empty vault, the
    cached one when its balance is the exact one, else rebuilt. *)
Definition exact_ledger (vault : ValidatedVaultConfig) (cached : option IdleLockLedger)
    (snapshot_block : BlockRef) (exact_idle_assets : Z)
    : sio (option IdleLockLedger * IdleLockLedgerSnapshot) :=
  ledger ← (if exact_idle_assets =? 0 then mret (Some (IdleLockLedger_new (vv_address vault) 0))
            else
              match cached with
              | Some ledger =>
                  if ll_exact_idle_assets ledger =? exact_idle_assets then mret (Some ledger)
                  else rebuilt_ledger vault snapshot_block exact_idle_assets
              | None => rebuilt_ledger vault snapshot_block exact_idle_assets
              end);
  mret (match ledger with
        | Some ledger =>
            match IdleLocks.snapshot ledger with
            | Ok locks => (Some ledger, locks)
            | Err _ => (None, unverified_idle_ledger_snapshot exact_idle_assets)
            end
        | None => (None, unverified_idle_ledger_snapshot exact_idle_assets)
        end).

(** The rates of a projection, as they are published. *)
Definition rate_snapshot (vault : ValidatedVaultConfig) (snapshot : ExactVaultSnapshot)
    (projection : ProjectedVaultView) : RateSnapshotView :=
  let objective := sg_objective (ac_strategy (vg_app config)) in
  let policy_states := omap (fun market => pw_markets projection !! market)
                         (set_elements (strategy_market_ids vault)) in
  let spread := rate_spread (pm_spot_borrow_rate <$> policy_states) in
  let utilization_spread := rate_spread (pm_utilization <$> policy_states) in
  mkRateSnapshotView (vv_address vault) (ev_snapshot_hash snapshot) (pw_head projection) spread
    (rate_per_second_to_apr_bps_down spread) utilization_spread
    (utilization_wad_to_bps_down utilization_spread) objective (vv_strategy vault)
    (rate_spread ((fun market => strategy_value market objective) <$> policy_states))
    ((fun market => mkMarketRateView (pm_market_id market) (pm_spot_borrow_rate market)
                      (pm_spot_supply_rate market) (pm_utilization market))
     <$> btree_values (pw_markets projection)).

(** The runtime state after an accepted publication. *)
Definition publish_runtime_state (vault : ValidatedVaultConfig) (head : BlockRef)
    (snapshot : ExactVaultSnapshot) (spread : Z) (pending : option UnresolvedTransaction)
    : sio unit :=
  let calculated_state := desired_runtime_state mode snapshot signer_ready pending in
  let calculated_reason := runtime_reason mode snapshot signer_ready pending in
  found ← registry_read (fun r => runtime_get r (vv_address vault));
  current ← sio_lift (ok_or found NonCanonicalUpdate);
  let desired := preserve_incident_quarantine (vs_state current) calculated_state
                   (bool_decide (is_Some pending)) in
  let reason :=
    if bool_decide (desired = vs_state current) && negb (bool_decide (desired = calculated_state))
    then vs_reason current else calculated_reason in
  update (vv_address vault)
    (writing (fun status => vs_set_exact status head (ev_snapshot_hash snapshot) spread
                              (un_transaction_id <$> pending))
       (transition desired reason)).

(** The planning work of an exact state, or none of it. *)
Definition publish_planning (vault : ValidatedVaultConfig) (head : BlockRef)
    (snapshot : ExactVaultSnapshot) (projection : ProjectedVaultView)
    (pending : option UnresolvedTransaction) : sio unit :=
  let context := ev_context snapshot in
  if plan_refresh_allowed mode (vc_can_project (ev_capabilities snapshot))
       (vc_can_allocate (ev_capabilities snapshot)) (bool_decide (is_Some pending)) then
    dirty ← get_fields sf_dirty;
    let '(dirty, bound) := bind_snapshot dirty (vv_address vault)
      (mkCoveredState (ctx_block context) (ev_snapshot_hash snapshot) (pw_head projection)
         (ctx_dynamic_topology_revision context) (vg_revision config)) in
    _ ← set_fields (fun f => sf_set_dirty f dirty);
    match bound with
    | Some revision =>
        _ ← set_fields (fun f => sf_set_work f
              (<[vv_address vault := revision]> (sf_planning_work f)));
        publish_work
    | None => mret tt
    end
  else
    _ ← api (fun s => clear_plan_through s (vv_address vault) (blk_number head) U64_MAX);
    update (vv_address vault) (record_planning None None).

(** From a bound snapshot on; the answer is whether it is ready. *)
Definition publish_exact (vault : ValidatedVaultConfig) (head : BlockRef) (epoch : ApiStateEpoch)
    (previous : option ExactVaultSnapshot) (snapshot : ExactVaultSnapshot) : sio bool :=
  let failed reason :=
    _ ← record_vault_refresh_failure (vv_address vault) head RvPausedUnsupportedConfiguration
          reason;
    mret false in
  match project_snapshot_to_head snapshot head vault with
  | Err _ =>
      failed "one vault exact state cannot be projected with checked protocol arithmetic"%string
  | Ok projection =>
      recorded ← sio_try (record_independent_rate_event vault previous snapshot projection);
      match recorded with
      | Err error =>
          if independent_event_failure_is_vault_scoped error then
            failed "one vault rate-episode state is inconsistent with its exact canonical state"%string
          else sio_err error
      | Ok active =>
          _ ← if active && bool_decide (vv_strategy vault = SpreadEqualization) then
                set_fields (fun f => sf_set_work
                  (sf_set_dirty f (mark_strategy_continuation (sf_dirty f) (vv_address vault)
                                     (blk_number head)))
                  (delete (vv_address vault) (sf_planning_work f)))
              else mret tt;
          let rates := rate_snapshot vault snapshot projection in
          publication ← sio_lift (ok_or
            (from_validated_projection snapshot rates (pw_head projection)) NonCanonicalUpdate);
          accepted ← api (fun s => record_state s epoch publication);
          if negb accepted then mret false
          else
            pending ← query (fun s => load_unresolved s (vv_signer_address vault));
            _ ← publish_runtime_state vault head snapshot
                  (rv_selected_objective_spread_wad rates) pending;
            _ ← publish_planning vault head snapshot projection pending;
            mret (exact_ready_for_mode mode snapshot)
      end
  end.

(** Binds and checks a candidate, and publishes it. *)
Definition accept_candidate (vault : ValidatedVaultConfig) (head : BlockRef)
    (topology : TopologyIndex) (cached : option IdleLockLedger) (epoch : ApiStateEpoch)
    (previous : option ExactVaultSnapshot) (candidate : ExactVaultSnapshot) : sio bool :=
  let failed reason :=
    _ ← record_vault_refresh_failure (vv_address vault) head RvPausedUnsupportedConfiguration
          reason;
    mret false in
  let snapshot_block := ctx_block (ev_context candidate) in
  ledger ← exact_ledger vault cached snapshot_block (pv_idle_assets (ev_parent candidate));
  let '(retained, idle_locks) := ledger in
  match bind_idle_lock_ledger candidate (blueprint_of vault topology head) idle_locks with
  | Err _ => failed "one vault exact idle-accounting result is internally inconsistent"%string
  | Ok snapshot =>
      match reconcile_topology_from_snapshot topology snapshot with
      | Err _ => failed "one vault exact topology is outside the configured all-ever read set"%string
      | Ok exact_topology =>
          _ ← store (PersistTopology exact_topology head);
          _ ← set_fields (fun f => sf_set_vaults f
                (alter (fun state => mkVaultReplayState exact_topology retained (rs_through state))
                   (vv_address vault) (sf_vaults f)));
          code ← outside deployed_code;
          match verify_vault_deployed (HC := code) identities vault (Some snapshot) with
          | Err (IdentityProvider category) => sio_err (SsIdentity (IdentityProvider category))
          | Err _ =>
              failed "a vault-specific runtime or proxy implementation differs from the pinned identity"%string
          | Ok _ =>
              match validate_snapshot_identities identities snapshot with
              | Err _ =>
                  failed "a vault-discovered dependency is outside the pinned protocol identity"%string
              | Ok _ =>
                  _ ← store (PersistSnapshot snapshot (blk_timestamp snapshot_block));
                  publish_exact vault head epoch previous snapshot
              end
          end
      end
  end.

(** Whether the vault is exact and ready at the head. *)
Definition refresh_vault (head : BlockRef) (vault : ValidatedVaultConfig) : sio bool :=
  if blk_number head <? vv_deployment_block vault then mret false
  else
    known ← get_fields (fun f => sf_vaults f !! vv_address vault);
    state ← sio_lift (ok_or known NonCanonicalUpdate);
    epoch ← api_state_epoch (vv_address vault);
    previous ← api_read (fun s => api_snapshot s (vv_address vault));
    dirty ← get_fields (fun f => is_vault_dirty (sf_dirty f) (vv_address vault));
    match (if (dirty : bool) then None else previous) with
    | Some snapshot =>
        _ ← update (vv_address vault) (fun status => done_update (vs_set_head status head));
        mret (exact_ready_for_mode mode snapshot)
    | None =>
        refreshed ← obtain_candidate vault (rs_topology state) head;
        match refreshed with
        | VaultDeferred => mret false
        | VaultCandidate candidate =>
            accept_candidate vault head (rs_topology state) (rs_idle_ledger state) epoch previous
              candidate
        end
    end.

Definition refresh_exact_at_head (head : BlockRef) : sio unit :=
  all_exact_ready ← sio_fold (fun all vault => ready ← refresh_vault head vault;
                                               mret (all && ready)) true vaults;
  _ ← record_processed_block (blk_number head);
  publish_readiness true all_exact_ready.

(** ** Updates *)

Definition retain_unresolved_exact_refresh (block_number : Z) (vault : VaultAddress)
    (f : ServiceFields) : ServiceFields :=
  sf_set_work (sf_set_dirty f (mark_post_transaction (sf_dirty f) vault block_number))
    (delete vault (sf_planning_work f)).

Definition apply_head (head : BlockRef) : sio unit :=
  _ ← set_fields (fun f => sf_set_providers f true);
  _ ← ensure_replayed_through head;
  unresolved ← query load_all_unresolved;
  _ ← sio_each (fun pending =>
        if existsb (fun vault => vv_address vault =? un_vault pending) vaults
        then set_fields (retain_unresolved_exact_refresh (blk_number head) (un_vault pending))
        else mret tt) unresolved;
  last_tick ← get_fields sf_last_strategy_tick_timestamp;
  _ ← if strategy_tick_due last_tick (blk_timestamp head)
           (vt_tick_interval_seconds (sg_top_k_apy (ac_strategy (vg_app config)))) then
        _ ← set_fields (fun f => sf_set_dirty f (mark_strategy_tick (sf_dirty f) config
                                                   (blk_number head)));
        _ ← supersede_dirty_plans "a canonical strategy evaluation requires exact refresh";
        set_fields (fun f => sf_set_tick f (Some (blk_timestamp head)))
      else mret tt;
  last_exact ← get_fields sf_last_exact_head;
  if bool_decide (last_exact = Some head) then mret tt
  else
    answer ← sio_try (refresh_exact_at_head head);
    match answer with
    | Ok _ => set_fields (fun f => sf_set_exact_head (sf_set_failures f 0) (Some head))
    | Err error =>
        if transient_snapshot_context error then
          _ ← set_fields (fun f => sf_set_failures f
                (if snapshot_provider_outage error
                 then saturating_add U32_MAX (sf_consecutive_snapshot_provider_failures f) 1
                 else 0));
          _ ← mark_catching_up;
          publish_readiness false false
        else sio_err error
    end.

Definition apply_update (change : ChainUpdate) : sio unit :=
  match change with
  | CanonicalBlock block receipts logs =>
      _ ← apply_chain_block block receipts logs;
      publish_readiness false false
  | CanonicalHead head => apply_head head
  | ReorgDetected _ _ common_ancestor =>
      _ ← mark_catching_up;
      _ ← rewind_api_state;
      _ ← set_fields (fun f => sf_set_dirty
            (sf_set_pending (sf_set_tick (sf_set_exact_head (sf_set_vaults f ∅) None) None) ∅)
            (mark_reorg (sf_dirty f) config (blk_number common_ancestor)));
      rebuild_through common_ancestor
  | ProviderDegraded _ =>
      _ ← set_fields (fun f => sf_set_providers f false);
      _ ← mark_catching_up;
      publish_readiness false false
  | TransactionSeen _ => mret tt
  end.
End Service.
