(* ===== verification/StateServiceProofs.v ===== *)
(** * What the state service promises

    Execution is only enabled on a published exact state that allows it, and a
    canonical change that concerns a vault disables it before anything else is
    read.  The proofs are about the service's calls on any world, whatever the
    outside answers. *)
From Stdlib Require Import ZArith Lia Bool String.
From stdpp Require Import base gmap sets strings list.
From S2P Require Import Prelude.
From S2P Require Import Domain.
From S2P Require Import Config.
From S2P Require Import Caps.
From S2P Require Import Projection.
From S2P Require Import Revision.
From S2P Require Import Models.
From S2P Require Import Storage.
From S2P Require Import Actor.
From S2P Require Import Logs.
From S2P Require Import Topology.
From S2P Require Import Heads.
From S2P Require Import Reconciliation.
From S2P Require Import Identity.
From S2P Require Import Snapshot.
From S2P Require Import Controller.
From S2P Require Import ApiStore.
From S2P Require Import EventSources.
From S2P Require Import IdleReplay.
From S2P Require Import StateService.
Open Scope Z_scope.

(** ** Reasoning about calls *)

Section Calls.
Context `{HV : StateEnvironment}.

(** A call keeps a predicate, however it ends. *)
Definition keeps {A} (P : StateWorld -> Prop) (c : sio A) : Prop := forall w, P w -> P (c w).2.

(** A call that ends without an error establishes one. *)
Definition ends {A} (P : StateWorld -> Prop) (c : sio A) (Q : A -> StateWorld -> Prop) : Prop :=
  forall w a w', P w -> c w = (Ok a, w') -> Q a w'.

Lemma sio_keeps_bind {A B} P (c : sio A) (f : A -> sio B) :
  keeps P c -> (forall a, keeps P (f a)) -> keeps P (a ← c; f a).
Proof.
  intros Hc Hf w Hw. unfold mbind, sio_bind. specialize (Hc w Hw).
  destruct (c w) as [[a|e] w']; cbn in *; [|done]. by apply Hf.
Qed.
Lemma keeps_ret {A} P (a : A) : keeps P (mret a).
Proof. intros w Hw. exact Hw. Qed.
Lemma keeps_lift {A} P (r : result StateServiceError A) : keeps P (sio_lift r).
Proof. intros w Hw. exact Hw. Qed.
Lemma keeps_err {A} P e : keeps P (@sio_err _ A e).
Proof. intros w Hw. exact Hw. Qed.
Lemma keeps_try {A} P (c : sio A) : keeps P c -> keeps P (sio_try c).
Proof. intros Hc w Hw. unfold sio_try. specialize (Hc w Hw). by destruct (c w). Qed.
Lemma sio_keeps_each {A} P (f : A -> sio unit) l :
  (forall x, x ∈ l -> keeps P (f x)) -> keeps P (sio_each f l).
Proof.
  induction l as [|x l IH]; intros Hf; cbn [sio_each]; [apply keeps_ret|].
  apply sio_keeps_bind; [apply Hf; by left|]. intros _. apply IH. intros y Hy. apply Hf. by right.
Qed.
Lemma keeps_fold {A B} P (f : A -> B -> sio A) a l :
  (forall a x, keeps P (f a x)) -> keeps P (sio_fold f a l).
Proof.
  intros Hf. revert a. induction l as [|x l IH]; intros a; cbn [sio_fold]; [apply keeps_ret|].
  apply sio_keeps_bind; [apply Hf|apply IH].
Qed.

Lemma ends_bind {A B} P Q R (c : sio A) (f : A -> sio B) :
  ends P c Q -> (forall a, ends (Q a) (f a) R) -> ends P (a ← c; f a) R.
Proof.
  intros Hc Hf w b w' Hw. unfold mbind, sio_bind.
  destruct (c w) as [[a|e] w1] eqn:E; [|done]. intros H. eapply Hf; [|exact H]. by eapply Hc.
Qed.
Lemma ends_ret {A} (P : StateWorld -> Prop) (a : A) Q :
  (forall w, P w -> Q a w) -> ends P (mret a) Q.
Proof. intros H w b w' Hw [= <- <-]. by apply H. Qed.
Lemma ends_err {A} P e (Q : A -> StateWorld -> Prop) : ends P (sio_err e) Q.
Proof. done. Qed.
Lemma ends_keeps {A} P (c : sio A) : keeps P c -> ends P c (fun _ => P).
Proof. intros Hc w a w' Hw He. specialize (Hc w Hw). by rewrite He in Hc. Qed.
Lemma ends_weaken {A} P P' (c : sio A) (Q Q' : A -> StateWorld -> Prop) :
  ends P' c Q' -> (forall w, P w -> P' w) -> (forall a w, Q' a w -> Q a w) -> ends P c Q.
Proof. intros Hc HP HQ w a w' Hw He. by eapply HQ, Hc, He; apply HP. Qed.
Lemma ends_fold {A B} P (f : A -> B -> sio A) a l :
  (forall a x, ends P (f a x) (fun _ => P)) -> ends P (sio_fold f a l) (fun _ => P).
Proof.
  intros Hf. revert a. induction l as [|x l IH]; intros a; cbn [sio_fold].
  - by apply ends_ret.
  - eapply ends_bind; [apply Hf|]. intros b. apply IH.
Qed.
(** The predicate grows with the elements done. *)
Lemma ends_each {A} (P : list A -> StateWorld -> Prop) (f : A -> sio unit) before l :
  (forall before x, ends (P before) (f x) (fun _ => P (before ++ [x]))) ->
  ends (P before) (sio_each f l) (fun _ => P (before ++ l)).
Proof.
  intros Hf. revert before. induction l as [|x l IH]; intros d; cbn [sio_each].
  - rewrite app_nil_r. by apply ends_ret.
  - eapply ends_bind; [apply Hf|]. intros []. eapply ends_weaken; [apply IH|done|].
    intros [] w. by rewrite <-app_assoc.
Qed.

(** Predicates on the registry and the cache only. *)
Definition shared (w : StateWorld) : RuntimeRegistry * ApiDataStore := (ww_runtime w, ww_api w).
Definition on_shared (P : RuntimeRegistry -> ApiDataStore -> Prop) (w : StateWorld) : Prop :=
  P (ww_runtime w) (ww_api w).

(** A call that touches neither. *)
Definition quiet {A} (c : sio A) : Prop := forall w, shared (c w).2 = shared w.
Lemma quiet_keeps {A} P (c : sio A) : quiet c -> keeps (on_shared P) c.
Proof.
  intros Hq w Hw. specialize (Hq w). unfold shared in Hq. injection Hq as H1 H2.
  unfold on_shared. by rewrite H1, H2.
Qed.
Lemma sio_quiet_bind {A B} (c : sio A) (f : A -> sio B) :
  quiet c -> (forall a, quiet (f a)) -> quiet (a ← c; f a).
Proof.
  intros Hc Hf w. unfold mbind, sio_bind. specialize (Hc w).
  destruct (c w) as [[a|e] w']; cbn in *; [|done]. by rewrite Hf.
Qed.
Lemma sio_quiet_ret {A} (a : A) : quiet (mret a).
Proof. intros w. reflexivity. Qed.
Lemma sio_quiet_lift {A} (r : result StateServiceError A) : quiet (sio_lift r).
Proof. intros w. reflexivity. Qed.
Lemma sio_quiet_err {A} e : quiet (@sio_err _ A e).
Proof. intros w. reflexivity. Qed.
Lemma quiet_each {A} (f : A -> sio unit) l : (forall x, quiet (f x)) -> quiet (sio_each f l).
Proof.
  intros Hf. induction l; cbn [sio_each]; [apply sio_quiet_ret|]. apply sio_quiet_bind; [done|by intros].
Qed.
Lemma quiet_get {A} (f : ServiceFields -> A) : quiet (get_fields f).
Proof. intros w. reflexivity. Qed.
Lemma quiet_set f : quiet (set_fields f).
Proof. intros w. reflexivity. Qed.
Lemma quiet_outside {A} (f : moment -> A) : quiet (outside f).
Proof. intros w. reflexivity. Qed.
Lemma sio_quiet_query {A} (f : JsonState -> result StorageError A) : quiet (query f).
Proof. intros w. reflexivity. Qed.
Lemma quiet_on_storage {A} (f : JsonState -> A) : quiet (on_storage f).
Proof. intros w. reflexivity. Qed.
Lemma quiet_store `{HK : Keccak} command : quiet (store command).
Proof. intros w. unfold store. by destruct (commit _ _). Qed.
Lemma quiet_api_read {A} (f : ApiDataStore -> A) : quiet (api_read f).
Proof. intros w. reflexivity. Qed.
Lemma quiet_registry {A} (f : RuntimeRegistry -> A) : quiet (registry_read f).
Proof. intros w. reflexivity. Qed.
Lemma quiet_work : quiet publish_work.
Proof. intros w. reflexivity. Qed.
Lemma quiet_readiness report : quiet (set_readiness report).
Proof. intros w. reflexivity. Qed.
Lemma quiet_processed n : quiet (record_processed_block n).
Proof. intros w. reflexivity. Qed.
End Calls.

Create HintDb calls.
#[export] Hint Resolve sio_quiet_ret sio_quiet_lift sio_quiet_err quiet_get quiet_set quiet_outside sio_quiet_query
  quiet_on_storage quiet_store quiet_api_read quiet_registry quiet_work quiet_readiness
  quiet_processed quiet_each keeps_ret keeps_lift keeps_err keeps_try : calls.

(** Walks through a call: binds, conditions and matches, down to the hints. *)
Ltac quiet_walk :=
  repeat first
    [ solve [eauto with calls]
    | apply sio_quiet_bind; [|intros ?]
    | progress cbv zeta beta
    | match goal with |- quiet (match ?x with _ => _ end) => destruct x end
    | match goal with |- quiet (let '(_, _) := ?x in _) => destruct x end ].

Ltac keeps_walk :=
  repeat first
    [ solve [eauto with calls]
    | solve [apply quiet_keeps; eauto with calls]
    | apply sio_keeps_bind; [|intros ?]
    | apply keeps_try
    | apply sio_keeps_each; intros ? ?
    | apply keeps_fold; intros ? ?
    | progress cbv zeta beta
    | match goal with |- keeps _ (match ?x with _ => _ end) => destruct x end
    | match goal with |- keeps _ (let '(_, _) := ?x in _) => destruct x end ].

(** ** Updates that enable nothing *)

Definition calm (f : Update) : Prop := forall v,
  vs_state (f v).1 = RvAutomatic -> vs_state v = RvAutomatic.

Lemma calm_bump : calm bump_revision.
Proof. intros v. unfold bump_revision. by destruct (checked_add _ _ _). Qed.
Lemma calm_planning plan_id episode_id : calm (record_planning plan_id episode_id).
Proof. intros v H. by apply calm_bump in H. Qed.
Lemma calm_transition next reason : next <> RvAutomatic -> calm (transition next reason).
Proof.
  intros Hn v. unfold transition. destruct (negb _); [done|]. intros H. by apply calm_bump in H.
Qed.
Lemma calm_then f g : calm f -> calm g -> calm (and_then f g).
Proof.
  intros Hf Hg v. unfold and_then. specialize (Hf v). destruct (f v) as [v' [[]|e]]; cbn in *; [|done].
  intros H. by apply Hf, Hg.
Qed.
Lemma calm_done : calm done_update.
Proof. by intros v. Qed.
Lemma calm_writing write f : (forall v, vs_state (write v) = vs_state v) -> calm f ->
  calm (writing write f).
Proof. intros Hw Hf v H. apply Hf in H. by rewrite Hw in H. Qed.
Lemma calm_if (p : VaultRuntimeStatus -> bool) f g :
  calm f -> calm g -> calm (fun v => if p v then f v else g v).
Proof. intros Hf Hg v. destruct (p v); auto. Qed.
#[export] Hint Resolve calm_planning calm_then calm_done calm_if : calls.
#[export] Hint Extern 2 (calm (transition _ _)) => apply calm_transition; done : calls.
#[export] Hint Extern 2 (calm (writing _ _)) => apply calm_writing; [done|] : calls.

Lemma supersede_calm reason : calm (fun status =>
  and_then (record_planning None (vs_episode_id status)) (fun status =>
    if leaves_for_refresh (vs_state status)
    then transition RvCatchingUp (Some reason) status else done_update status) status).
Proof.
  intros v. eapply calm_then; [auto with calls|].
  apply (calm_if (fun v => leaves_for_refresh (vs_state v))); auto with calls.
Qed.

(** ** Execution is earned *)

Section Earned.
Context `{HV : StateEnvironment} `{HE : EventAbi} `{HK : Keccak} `{HB : AdminAbi}.
Context `{HC : AbiCaps} `{HA : AbiParams} `{HJ : SnapshotJson}.
Context (config : ValidatedConfig) (identities : RuntimeIdentities).
Context (sources : EventSourceRegistry) (signer_ready : bool).

Let mode := vn_mode (ac_node (vg_app config)).
Let addresses := vv_address <$> ac_vaults (vg_app config).

(** The published snapshot of a vault allows execution. *)
Definition earned (s : ApiDataStore) (vault : VaultAddress) : Prop :=
  mode = ModeExecute /\ signer_ready = true /\
  exists snapshot, api_snapshot s vault = Some snapshot /\
    vc_can_allocate (ev_capabilities snapshot) = true /\
    ils_verified (ev_idle_locks snapshot) = true /\ ils_locks (ev_idle_locks snapshot) = [].

Definition automatic_earned (r : RuntimeRegistry) (s : ApiDataStore) : Prop :=
  forall vault status, r !! vault = Some status -> vs_state status = RvAutomatic -> earned s vault.
Definition none_automatic (r : RuntimeRegistry) (s : ApiDataStore) : Prop :=
  forall vault status, r !! vault = Some status -> vs_state status <> RvAutomatic.
Definition registered (r : RuntimeRegistry) (s : ApiDataStore) : Prop :=
  forall vault, is_Some (r !! vault) -> vault ∈ addresses.

Lemma runtime_update_lookup r vault f v status' :
  (runtime_update r vault f).1 !! v = Some status' ->
  exists status, r !! v = Some status /\
    status' = if bool_decide (v = vault) then (f status).1 else status.
Proof.
  unfold runtime_update. destruct (r !! vault) as [status|] eqn:E.
  - destruct (f status) as [new answer] eqn:Ef. cbn [fst].
    destruct (decide (v = vault)) as [->|Hn].
    + rewrite lookup_insert_eq. intros [= <-]. exists status. rewrite bool_decide_eq_true_2 by done.
      by rewrite Ef.
    + rewrite lookup_insert_ne by done. intros H. exists status'.
      by rewrite bool_decide_eq_false_2 by done.
  - cbn. intros H. exists status'. split; [done|]. case_bool_decide; [|done]. congruence.
Qed.

Lemma update_shared vault f w :
  shared (update vault f w).2 = ((runtime_update (ww_runtime w) vault f).1, ww_api w).
Proof. unfold update. by destruct (runtime_update _ _ _). Qed.

Lemma update_keeps_earned vault f : calm f -> keeps (on_shared automatic_earned) (update vault f).
Proof.
  intros Hf w Hw. unfold on_shared. pose proof (update_shared vault f w) as Hs.
  unfold shared in Hs. injection Hs as -> ->. intros v status Hv Ha.
  apply runtime_update_lookup in Hv as (old & Hold & ->). apply (Hw v old Hold).
  destruct (bool_decide (v = vault)); [by apply Hf|done].
Qed.
Lemma update_keeps_none vault f : calm f -> keeps (on_shared none_automatic) (update vault f).
Proof.
  intros Hf w Hw. unfold on_shared. pose proof (update_shared vault f w) as Hs.
  unfold shared in Hs. injection Hs as -> ->. intros v status Hv Ha.
  apply runtime_update_lookup in Hv as (old & Hold & ->). apply (Hw v old Hold).
  destruct (bool_decide (v = vault)); [by apply Hf|done].
Qed.
Lemma update_keeps_registered vault f : keeps (on_shared registered) (update vault f).
Proof.
  intros w Hw. unfold on_shared. pose proof (update_shared vault f w) as Hs.
  unfold shared in Hs. injection Hs as -> ->. intros v [status Hv].
  apply runtime_update_lookup in Hv as (old & Hold & _). apply Hw. by exists old.
Qed.

Lemma api_shared {A} (g : ApiDataStore -> ApiDataStore * A) w :
  shared (api g w).2 = (ww_runtime w, (g (ww_api w)).1).
Proof. unfold api. by destruct (g (ww_api w)). Qed.
Lemma api_keeps_earned {A} (g : ApiDataStore -> ApiDataStore * A) :
  (forall s v, api_snapshot (g s).1 v = api_snapshot s v) ->
  keeps (on_shared automatic_earned) (api g).
Proof.
  intros Hg w Hw. unfold on_shared. pose proof (api_shared g w) as Hs. unfold shared in Hs.
  injection Hs as -> ->. intros v status Hv Ha. destruct (Hw v status Hv Ha) as (Hm & Hr & H).
  split; [done|]. split; [done|]. by rewrite Hg.
Qed.
Lemma api_keeps_none {A} (g : ApiDataStore -> ApiDataStore * A) :
  keeps (on_shared none_automatic) (api g).
Proof.
  intros w Hw. unfold on_shared. pose proof (api_shared g w) as Hs. unfold shared in Hs.
  by injection Hs as -> ->.
Qed.
Lemma api_keeps_registered {A} (g : ApiDataStore -> ApiDataStore * A) :
  keeps (on_shared registered) (api g).
Proof.
  intros w Hw. unfold on_shared. pose proof (api_shared g w) as Hs. unfold shared in Hs.
  by injection Hs as -> ->.
Qed.

Lemma clear_snapshot s vault p v :
  api_snapshot (clear_plan_when s vault p).1 v = api_snapshot s v.
Proof. rewrite !api_snapshot_artifacts, clear_when_artifacts. by case_match. Qed.
Lemma epoch_snapshot s chain_id vault v :
  api_snapshot (state_epoch s chain_id vault).1 v = api_snapshot s v.
Proof.
  rewrite !api_snapshot_artifacts. unfold state_epoch.
  case_match; cbn; rewrite artifacts_put; case_bool_decide; by subst.
Qed.

End Earned.
#[export] Hint Resolve update_keeps_earned update_keeps_none update_keeps_registered
  api_keeps_none api_keeps_registered supersede_calm : calls.
#[export] Hint Extern 2 (keeps (on_shared (automatic_earned _ _)) (api _)) =>
  apply api_keeps_earned; intros; first [apply clear_snapshot | apply epoch_snapshot] : calls.

(** ** The calls of the service *)

Section Execution.
Context `{HV : StateEnvironment} `{HE : EventAbi} `{HK : Keccak} `{HB : AdminAbi}.
Context `{HC : AbiCaps} `{HA : AbiParams} `{HJ : SnapshotJson}.
Context (config : ValidatedConfig) (identities : RuntimeIdentities).
Context (sources : EventSourceRegistry) (signer_ready : bool).

Let mode := vn_mode (ac_node (vg_app config)).
#[local] Notation kept := (on_shared (automatic_earned config signer_ready)).
#[local] Notation known := (on_shared (registered config)).
#[local] Notation none := (on_shared none_automatic).

Lemma readiness_quiet caught exact : quiet (publish_readiness config signer_ready caught exact).
Proof. unfold publish_readiness. quiet_walk. Qed.
Lemma merge_quiet logs : quiet (merge_logs config sources logs).
Proof. apply quiet_each. intros log. unfold merge_log. quiet_walk. Qed.
Lemma known_quiet block receipts : quiet (mark_known_transactions block receipts).
Proof. unfold mark_known_transactions. quiet_walk. Qed.
Lemma ledger_quiet logs vault : quiet (advance_ledger sources logs vault).
Proof. unfold advance_ledger. quiet_walk. Qed.
Lemma log_quiet log : quiet (apply_log_to_all sources log).
Proof.
  intros w. unfold apply_log_to_all. by destruct (apply_log_to_vaults _ _ _ _).
Qed.
Lemma candidate_quiet candidate topology head :
  quiet (reported_candidate_is_current config sources candidate topology head).
Proof. unfold reported_candidate_is_current. quiet_walk. Qed.
Lemma rebuilt_quiet vault block idle : quiet (rebuilt_ledger config sources vault block idle).
Proof. unfold rebuilt_ledger. quiet_walk. Qed.
Lemma exact_ledger_quiet vault cached block idle :
  quiet (exact_ledger config sources vault cached block idle).
Proof. unfold exact_ledger. pose proof rebuilt_quiet. quiet_walk. Qed.
Lemma event_quiet vault previous current projection :
  quiet (record_independent_rate_event config sources vault previous current projection).
Proof. unfold record_independent_rate_event. quiet_walk. Qed.
Hint Resolve readiness_quiet merge_quiet known_quiet ledger_quiet log_quiet candidate_quiet
  rebuilt_quiet exact_ledger_quiet event_quiet : calls.

(** A failed refresh enables nothing. *)
Definition degraded (state : RuntimeVaultState) : Prop := state <> RvAutomatic.

Lemma failure_calm head state reason : degraded state ->
  calm (writing (fun status => vs_set_head status head)
    (and_then (record_planning None None) (fun status =>
       if keeps_state (vs_state status) then done_update status
       else transition state (Some reason) status))).
Proof.
  intros Hs. apply calm_writing; [done|]. apply calm_then; [auto with calls|].
  apply (calm_if (fun v => keeps_state (vs_state v))); [auto with calls|].
  by apply calm_transition.
Qed.

Lemma failure_kept vault head state reason : degraded state ->
  keeps kept (record_vault_refresh_failure vault head state reason).
Proof.
  intros Hs. pose proof (failure_calm head state reason Hs).
  unfold record_vault_refresh_failure. keeps_walk.
Qed.
Lemma failure_known vault head state reason :
  keeps known (record_vault_refresh_failure vault head state reason).
Proof. unfold record_vault_refresh_failure. keeps_walk. Qed.
Lemma failure_none vault head state reason : degraded state ->
  keeps none (record_vault_refresh_failure vault head state reason).
Proof.
  intros Hs. pose proof (failure_calm head state reason Hs).
  unfold record_vault_refresh_failure. keeps_walk.
Qed.
Hint Resolve failure_known : calls.
Hint Extern 2 (keeps _ (record_vault_refresh_failure _ _ _ _)) =>
  first [apply failure_kept | apply failure_none]; done : calls.

Lemma supersede_kept reason : keeps kept (supersede_dirty_plans reason).
Proof. unfold supersede_dirty_plans, supersede_plan. keeps_walk. Qed.
Lemma supersede_known reason : keeps known (supersede_dirty_plans reason).
Proof. unfold supersede_dirty_plans, supersede_plan. keeps_walk. Qed.
Lemma epoch_kept vault : keeps kept (api_state_epoch config vault).
Proof. unfold api_state_epoch. keeps_walk. Qed.
Lemma epoch_known vault : keeps known (api_state_epoch config vault).
Proof. unfold api_state_epoch. keeps_walk. Qed.
Lemma rebuild_kept head : keeps kept (rebuild_through config sources head).
Proof. unfold rebuild_through, rebuild_vault. keeps_walk. Qed.
Lemma rebuild_known head : keeps known (rebuild_through config sources head).
Proof. unfold rebuild_through, rebuild_vault. keeps_walk. Qed.
Lemma rebuild_none head : keeps none (rebuild_through config sources head).
Proof. unfold rebuild_through, rebuild_vault. keeps_walk. Qed.
Hint Resolve supersede_kept supersede_known epoch_kept epoch_known rebuild_kept rebuild_known
  rebuild_none : calls.

Lemma block_kept block receipts logs :
  keeps kept (apply_chain_block config sources block receipts logs).
Proof. unfold apply_chain_block. keeps_walk. Qed.
Lemma block_known block receipts logs :
  keeps known (apply_chain_block config sources block receipts logs).
Proof. unfold apply_chain_block. keeps_walk. Qed.
Lemma ensure_kept head : keeps kept (ensure_replayed_through config sources head).
Proof. unfold ensure_replayed_through. keeps_walk. Qed.
Lemma ensure_known head : keeps known (ensure_replayed_through config sources head).
Proof. unfold ensure_replayed_through. keeps_walk. Qed.
Lemma obtain_kept vault topology head :
  keeps kept (obtain_candidate config identities sources vault topology head).
Proof. unfold obtain_candidate, read_candidate. keeps_walk. Qed.
Lemma obtain_known vault topology head :
  keeps known (obtain_candidate config identities sources vault topology head).
Proof. unfold obtain_candidate, read_candidate. keeps_walk. Qed.
Hint Resolve block_kept block_known ensure_kept ensure_known obtain_kept obtain_known : calls.

(** ** The exact refresh *)

Lemma desired_automatic m snapshot ready pending :
  desired_runtime_state m snapshot ready pending = RvAutomatic ->
  m = ModeExecute /\ ready = true /\ pending = None /\
  vc_can_allocate (ev_capabilities snapshot) = true /\
  ils_verified (ev_idle_locks snapshot) = true /\ ils_locks (ev_idle_locks snapshot) = [].
Proof.
  unfold desired_runtime_state. destruct m; [done|by case_match|].
  destruct pending; [by case_match|]. destruct (ils_verified _); [|done]. cbn.
  destruct (ils_locks _); [|done]. destruct (vc_can_allocate _); [|done]. by destruct ready.
Qed.

(** The new snapshot of a vault is shown, its runtime state is not yet set. *)
Definition shown (vault : VaultAddress) (snapshot : ExactVaultSnapshot) (r : RuntimeRegistry)
    (s : ApiDataStore) : Prop :=
  api_snapshot s vault = Some snapshot /\
  forall v status, v <> vault -> r !! v = Some status -> vs_state status = RvAutomatic ->
    earned config signer_ready s v.

Lemma record_state_accepted s epoch snapshot rates block publication :
  from_validated_projection snapshot rates block = Some publication ->
  (record_state s epoch publication).2 = true ->
  pv_vault (ev_parent snapshot) = rv_vault rates /\
  api_snapshot (record_state s epoch publication).1 (rv_vault rates) = Some snapshot /\
  forall v, v <> rv_vault rates ->
    api_snapshot (record_state s epoch publication).1 v = api_snapshot s v.
Proof.
  intros Hp. pose proof (projection_block_is _ _ _ _ Hp) as [-> Hb]. unfold record_state.
  cbn [ap_snapshot ap_rates ap_projection_block].
  case_match eqn:E1; [done|]. rewrite !orb_false_iff, !negb_false_iff, !Z.eqb_eq in E1.
  destruct E1 as ((((_ & _) & Er) & _) & _). case_match; [done|]. intros _. cbn [fst]. rewrite Er.
  split; [done|]. split.
  - rewrite api_snapshot_artifacts, artifacts_put, bool_decide_eq_true_2 by done. done.
  - intros v Hv. by rewrite !api_snapshot_artifacts, artifacts_put, bool_decide_eq_false_2.
Qed.

Lemma state_published vault head snapshot spread pending :
  ends (on_shared (shown (vv_address vault) snapshot))
    (publish_runtime_state config signer_ready vault head snapshot spread pending)
    (fun _ => kept).
Proof.
  intros w [] w' [Hs Ho] H. unfold publish_runtime_state, registry_read, runtime_get, sio_lift in H.
  unfold mbind, sio_bind in H. cbv beta iota in H.
  destruct (ww_runtime w !! vv_address vault) as [current|] eqn:Ec; [|done]. cbn [ok_or] in H.
  set (desired := preserve_incident_quarantine _ _ _) in H.
  unfold update, runtime_update in H. rewrite Ec in H.
  destruct (writing _ _ current) as [status' answer] eqn:Et. unfold writing in Et.
  destruct answer as [[]|e]; [|done]. injection H as <-.
  apply transition_ok in Et as (_ & _ & ->).
  intros v status. cbn [ww_runtime ww_api]. destruct (decide (v = vv_address vault)) as [->|Hn].
  - rewrite lookup_insert_eq. intros [= <-]. cbn. unfold desired, preserve_incident_quarantine.
    destruct (is_persistent_quarantine (vs_state current) && _) eqn:Eq.
    + intros Ha. rewrite Ha in Eq. done.
    + intros Ha. apply desired_automatic in Ha as (Hm & Hr & _ & Hca & Hv & Hl).
      split; [done|]. split; [done|]. exists snapshot. done.
  - rewrite lookup_insert_ne by done. apply (Ho v status Hn).
Qed.

Lemma planning_kept vault head snapshot projection pending :
  keeps kept (publish_planning config vault head snapshot projection pending).
Proof. unfold publish_planning. keeps_walk. Qed.
Lemma planning_known vault head snapshot projection pending :
  keeps known (publish_planning config vault head snapshot projection pending).
Proof. unfold publish_planning. keeps_walk. Qed.
Lemma state_known vault head snapshot spread pending :
  keeps known (publish_runtime_state config signer_ready vault head snapshot spread pending).
Proof. unfold publish_runtime_state. keeps_walk. Qed.
Hint Resolve planning_kept planning_known state_known : calls.

Lemma ends_quiet {A} P (c : sio A) : quiet c -> ends (on_shared P) c (fun _ => on_shared P).
Proof. intros Hq. by apply ends_keeps, quiet_keeps. Qed.

Lemma exact_published vault head epoch previous snapshot :
  ends kept (publish_exact config sources signer_ready vault head epoch previous snapshot)
    (fun _ => kept).
Proof.
  unfold publish_exact. cbv zeta.
  destruct (project_snapshot_to_head _ _ _) as [projection|]; [|apply ends_keeps; keeps_walk].
  eapply ends_bind; [apply ends_keeps; keeps_walk|]. intros [active|error]; [|apply ends_keeps; keeps_walk].
  eapply ends_bind; [apply ends_keeps; keeps_walk|]. intros u. cbv beta. clear u.
  set (rates := rate_snapshot config vault snapshot projection).
  destruct (from_validated_projection snapshot rates (pw_head projection)) as [publication|] eqn:Ep;
    [|by intros w a w' _ H].
  cbn [ok_or]. intros w a w' Hw H. unfold mbind at 1, sio_bind at 1, sio_lift in H.
  unfold mbind at 1, sio_bind at 1, api in H.
  destruct (record_state (ww_api w) epoch publication) as [s accepted] eqn:Er.
  destruct accepted; cbn [negb] in H.
  - assert (on_shared (shown (vv_address vault) snapshot)
      (mkStateWorld _ (ww_moment w) (ww_storage w) (ww_runtime w) s (ww_fields w)
         (ww_triggers w) (ww_readiness w) (ww_last_processed_block w))) as Hs.
    { pose proof (record_state_accepted (ww_api w) epoch _ _ _ _ Ep) as Hacc. rewrite Er in Hacc.
      destruct (Hacc eq_refl) as (_ & H1 & H2). split; [exact H1|]. cbn.
      intros v status Hn Hv Ha. destruct (Hw v status Hv Ha) as (Hm & Hr & x & Hx & Hrest).
      split; [done|]. split; [done|]. exists x. by rewrite H2. }
    revert H. set (w1 := mkStateWorld _ _ _ _ _ _ _ _ _) in *. revert Hs. clearbody w1.
    revert w1 a w'.
    match goal with |- forall w1 a w', ?P w1 -> ?c w1 = _ -> _ =>
      enough (ends P c (fun _ => kept)) as He by (intros; by eapply He) end.
    eapply ends_bind; [apply ends_quiet; eauto with calls|]. intros pending.
    eapply ends_bind; [apply state_published|]. intros ?.
    eapply ends_bind; [apply ends_keeps; eauto with calls|]. intros ?. by apply ends_ret.
  - injection H as _ <-. intros v status Hv Ha.
    assert (forall u, artifacts s u = artifacts (ww_api w) u) as Hsame.
    { revert Er. unfold record_state. case_match; [by intros [= <-]|].
      case_match; [|by intros [= <-]]. intros [= <-]. intros u. apply artifacts_put_same. }
    destruct (Hw v status Hv Ha) as (Hm & Hr & x & Hx & Hrest). split; [done|]. split; [done|].
    exists x. rewrite api_snapshot_artifacts in *. cbn. by rewrite Hsame.
Qed.

Lemma candidate_accepted vault head topology cached epoch previous candidate :
  ends kept (accept_candidate config identities sources signer_ready vault head topology cached
               epoch previous candidate) (fun _ => kept).
Proof.
  unfold accept_candidate. cbv zeta.
  eapply ends_bind; [apply ends_quiet; eauto with calls|]. intros [retained idle_locks].
  destruct (bind_idle_lock_ledger _ _ _) as [snapshot|]; [|apply ends_keeps; keeps_walk].
  destruct (reconcile_topology_from_snapshot _ _) as [exact|]; [|apply ends_keeps; keeps_walk].
  do 3 (eapply ends_bind; [apply ends_quiet; eauto with calls|]; intros ?).
  destruct (verify_vault_deployed _ _ _) as [?|error];
    [|destruct error; apply ends_keeps; keeps_walk].
  destruct (validate_snapshot_identities _ _); [|apply ends_keeps; keeps_walk].
  eapply ends_bind; [apply ends_quiet; eauto with calls|]. intros ?. apply exact_published.
Qed.

Lemma vault_refreshed head vault :
  ends kept (refresh_vault config identities sources signer_ready head vault) (fun _ => kept).
Proof.
  unfold refresh_vault. destruct (_ <? _); [by apply ends_ret|].
  do 2 (eapply ends_bind; [apply ends_quiet; eauto with calls|]; intros ?).
  eapply ends_bind; [apply ends_keeps; eauto with calls|]. intros epoch.
  do 2 (eapply ends_bind; [apply ends_quiet; eauto with calls|]; intros ?).
  match goal with |- ends _ (match ?x with _ => _ end) _ => destruct x as [snapshot|] end.
  - apply ends_keeps. apply sio_keeps_bind; [|intros; apply keeps_ret].
    apply update_keeps_earned. by intros v.
  - eapply ends_bind; [apply ends_keeps; eauto with calls|]. intros [|candidate].
    + by apply ends_ret.
    + apply candidate_accepted.
Qed.

Lemma head_refreshed head :
  ends kept (refresh_exact_at_head config identities sources signer_ready head) (fun _ => kept).
Proof.
  unfold refresh_exact_at_head. eapply ends_bind.
  - apply ends_fold. intros all vault. eapply ends_bind; [apply vault_refreshed|].
    intros ready. by apply ends_ret.
  - intros all. eapply ends_bind; [apply ends_quiet; eauto with calls|]. intros ?.
    apply ends_quiet. eauto with calls.
Qed.

Lemma exact_known vault head epoch previous snapshot :
  keeps known (publish_exact config sources signer_ready vault head epoch previous snapshot).
Proof. unfold publish_exact. keeps_walk. Qed.
Hint Resolve exact_known : calls.
Lemma refresh_known head :
  keeps known (refresh_exact_at_head config identities sources signer_ready head).
Proof. unfold refresh_exact_at_head, refresh_vault, accept_candidate. keeps_walk. Qed.
Hint Resolve refresh_known : calls.

(** ** Catching up *)

Definition catching_up_update : Update := fun status =>
  if is_persistent_quarantine (vs_state status) then done_update status
  else transition RvCatchingUp None status.

Lemma catching_up_calm : calm catching_up_update.
Proof. apply (calm_if (fun v => is_persistent_quarantine (vs_state v))); auto with calls. Qed.

(** Marking stops every vault it has passed. *)
Lemma catching_up_stops :
  ends known (mark_catching_up config) (fun _ => on_shared (fun r s =>
    registered config r s /\ none_automatic r s)).
Proof.
  unfold mark_catching_up. change (sio_each _ _) with
    (sio_each (fun vault => update (vv_address vault) catching_up_update) (ac_vaults (vg_app config))).
  eapply (ends_weaken _ _ _ _ _ (ends_each (fun before => on_shared (fun r s =>
    registered config r s /\ forall vault status, vault ∈ vv_address <$> before ->
      r !! vault = Some status -> vs_state status <> RvAutomatic)) _ [] (ac_vaults (vg_app config)) _)).
  Unshelve.
  - intros w Hw. split; [exact Hw|]. intros v status Hv. by apply elem_of_nil in Hv.
  - intros ? w [Hr Hn]. split; [done|]. intros v status Hv. apply (Hn v status); [|done].
    apply Hr. by exists status.
  - intros before vault w [] w' [Hr Hn] H.
    assert (w' = (update (vv_address vault) catching_up_update w).2) as -> by (by rewrite H).
    pose proof (update_shared (vv_address vault) catching_up_update w) as Hs. unfold on_shared.
    unfold shared in Hs. injection Hs as -> ->. split.
    + intros v [status Hv]. apply runtime_update_lookup in Hv as (old & Hold & _).
      apply Hr. by exists old.
    + intros v status. rewrite fmap_app, elem_of_app. intros Hin Hv.
      apply runtime_update_lookup in Hv as (old & Hold & ->).
      destruct (bool_decide (v = vv_address vault)) eqn:Ev; bool_spec Ev.
      * subst v. revert H. unfold update, runtime_update. rewrite Hold.
        destruct (catching_up_update old) as [new answer] eqn:Ec. destruct answer as [[]|]; [|done].
        intros _. revert Ec. unfold catching_up_update.
        destruct (is_persistent_quarantine (vs_state old)) eqn:Eq.
        -- intros [= <-]. cbn. intros Ha. by rewrite Ha in Eq.
        -- intros Ec. by apply transition_ok in Ec as (_ & _ & ->).
      * destruct Hin as [Hin|Hin]; [by apply (Hn v old)|]. cbn in Hin.
        by apply list_elem_of_singleton in Hin.
Qed.

(** ** Updates *)

#[local] Notation sound := (on_shared (fun r s =>
  registered config r s /\ automatic_earned config signer_ready r s)).

Lemma sound_of {A} (c : sio A) :
  keeps known c -> ends kept c (fun _ => kept) -> ends sound c (fun _ => sound).
Proof.
  intros Hk He w a w' [Hr Ha] H. split.
  - specialize (Hk w Hr). by rewrite H in Hk.
  - by eapply He.
Qed.

Lemma none_earned r s : none_automatic r s -> automatic_earned config signer_ready r s.
Proof. intros Hn v status Hv Ha. by destruct (Hn v status). Qed.

Lemma catching_up_sound : ends known (mark_catching_up config) (fun _ => sound).
Proof.
  eapply ends_weaken; [apply catching_up_stops|done|]. intros ? w [Hr Hn]. split; [done|].
  by apply none_earned.
Qed.

Lemma rewind_none : keeps (on_shared (fun r s => registered config r s /\ none_automatic r s))
  (rewind_api_state config).
Proof.
  intros w Hw. pose proof (fun H => sio_keeps_each (on_shared (fun r s =>
    registered config r s /\ none_automatic r s)) (fun vault =>
    captured ← api (fun s => rewind_vault s (vc_chain_id (ac_chain (vg_app config)))
                               (vv_address vault));
    epoch ← sio_lift (ok_or captured ApiStateEpochUnavailable);
    set_fields (fun f => sf_set_epochs f (<[vv_address vault := epoch]> (sf_api_state_epochs f))))
    (ac_vaults (vg_app config)) H w Hw) as Hk. apply Hk.
  intros vault _. apply sio_keeps_bind; [|intros; keeps_walk].
  intros w1 [H1 H2]. by split; [apply api_keeps_registered|apply api_keeps_none].
Qed.

Lemma head_applied head :
  ends sound (apply_head config identities sources signer_ready head) (fun _ => sound).
Proof.
  unfold apply_head.
  assert (forall A (c : sio A), quiet c -> ends sound c (fun _ => sound)) as Hq
    by (intros; by apply ends_quiet).
  assert (forall A (c : sio A), keeps known c -> keeps kept c -> ends sound c (fun _ => sound)) as Hb
    by (intros; apply sound_of; [done|by apply ends_keeps]).
  eapply ends_bind; [apply Hq; eauto with calls|]. intros ?.
  eapply ends_bind; [apply Hb; eauto with calls|]. intros ?.
  eapply ends_bind; [apply Hq; eauto with calls|]. intros unresolved.
  eapply ends_bind; [apply Hq; apply quiet_each; intros; quiet_walk|]. intros ?.
  eapply ends_bind; [apply Hq; eauto with calls|]. intros last_tick.
  eapply ends_bind; [apply Hb; keeps_walk|]. intros ?.
  eapply ends_bind; [apply Hq; eauto with calls|]. intros last_exact.
  destruct (bool_decide _); [by apply ends_ret|].
  eapply (ends_bind _ (fun answer => match answer with Ok _ => sound | Err _ => known end)).
  { intros w answer w' [Hr Ha] H. unfold sio_try in H.
    pose proof (refresh_known head w Hr) as Hk.
    pose proof (sound_of _ (refresh_known head) (head_refreshed head) w) as Hs.
    destruct (refresh_exact_at_head _ _ _ _ head w) as [r w1] eqn:Er. injection H as <- <-.
    destruct r as [[]|e]; [by apply (Hs tt)|exact Hk]. }
  intros [[]|error]; [apply Hq; eauto with calls|].
  destruct (transient_snapshot_context error); [|apply ends_err].
  eapply ends_bind; [apply ends_quiet; eauto with calls|]. intros ?.
  eapply ends_bind; [apply catching_up_sound|]. intros ?. apply Hq. eauto with calls.
Qed.

Lemma update_applied change :
  ends sound (apply_update config identities sources signer_ready change) (fun _ => sound).
Proof.
  assert (forall A (c : sio A), quiet c -> ends sound c (fun _ => sound)) as Hq
    by (intros; by apply ends_quiet).
  assert (forall w, sound w -> known w) as Hsk by (by intros w []).
  destruct change as [head|block receipts logs|old new ancestor|observation|status]; cbn [apply_update].
  - apply head_applied.
  - eapply ends_bind; [|intros ?; apply Hq; eauto with calls].
    apply sound_of; [eauto with calls|]. apply ends_keeps; eauto with calls.
  - eapply ends_bind; [eapply ends_weaken; [apply catching_up_stops|done|done]|]. intros ?. cbv beta.
    eapply ends_bind; [apply ends_keeps, rewind_none|]. intros ?. cbv beta.
    eapply ends_bind; [apply ends_quiet; eauto with calls|]. intros ?. cbv beta.
    intros w [] w' [Hr Hn] H. split.
    + pose proof (rebuild_known ancestor w Hr) as Hk. by rewrite H in Hk.
    + pose proof (rebuild_none ancestor w Hn) as Hk. rewrite H in Hk. by apply none_earned.
  - by apply ends_ret.
  - eapply ends_bind; [apply Hq; eauto with calls|]. intros ?.
    eapply ends_bind; [eapply ends_weaken; [apply catching_up_sound|done|done]|]. intros ?.
    apply Hq. eauto with calls.
Qed.

(** C30: Execution is only enabled on an exact state that allows it. Let the
    service apply any sequence of chain updates from a registry of the
    configured vaults in which none is enabled, whatever the snapshot reads,
    code reads and transaction lookups answer. A vault from which a transaction
    may start then has a published exact snapshot whose capabilities allow
    allocation and whose idle ledger is verified without active locks, the
    process executes, and its signer was ready. *)
Theorem automatic_only_on_exact_state changes w w' vault status :
  on_shared (registered config) w -> on_shared none_automatic w ->
  sio_each (apply_update config identities sources signer_ready) changes w = (Ok tt, w') ->
  ww_runtime w' !! vault = Some status -> can_start_transaction (vs_state status) = true ->
  vn_mode (ac_node (vg_app config)) = ModeExecute /\ signer_ready = true /\
  exists snapshot, api_snapshot (ww_api w') vault = Some snapshot /\
    vc_can_allocate (ev_capabilities snapshot) = true /\
    ils_verified (ev_idle_locks snapshot) = true /\ ils_locks (ev_idle_locks snapshot) = [].
Proof.
  intros Hr Hn H Hs Hc.
  assert (sound w') as [_ Ha].
  { eapply (ends_each (fun _ => sound) _ [] changes); [|split; [exact Hr|by apply none_earned]|exact H].
    intros _ change. apply update_applied. }
  apply (Ha vault status Hs). by destruct (vs_state status).
Qed.

(** ** Relevant changes stop execution *)

(** Nothing of the vault can be executed: no plan is shown or in work, and its
    state is none a transaction starts from. *)
Definition stopped (w : StateWorld) (vault : VaultAddress) : Prop :=
  api_plan (ww_api w) vault = None /\ sf_planning_work (ww_fields w) !! vault = None /\
  forall status, ww_runtime w !! vault = Some status -> leaves_for_refresh (vs_state status) = false.

(** The parts this is about. *)
Definition visible (w : StateWorld) := (ww_api w, sf_planning_work (ww_fields w), ww_runtime w).
Lemma stopped_visible w w' vault : visible w' = visible w -> stopped w vault -> stopped w' vault.
Proof. unfold visible, stopped. by intros [= -> -> ->]. Qed.

Lemma clear_plan_none s vault v :
  api_plan (match api_plan s vault with
            | Some plan => (clear_plan_if s vault (pl_plan_id plan)).1
            | None => s
            end) v = if bool_decide (v = vault) then None else api_plan s v.
Proof.
  rewrite (api_plan_artifacts s v). destruct (api_plan s vault) as [plan|] eqn:E.
  - rewrite api_plan_artifacts. unfold clear_plan_if. rewrite clear_when_artifacts.
    case_bool_decide as Ev; cbn; [subst v|done]. rewrite api_plan_artifacts in E. rewrite E. cbn.
    by rewrite Z.eqb_refl.
  - rewrite api_plan_artifacts. case_bool_decide; [|done]. subst. by rewrite <-api_plan_artifacts.
Qed.

Definition supersede_update (reason : string) : Update := fun status =>
  and_then (record_planning None (vs_episode_id status)) (fun status =>
    if leaves_for_refresh (vs_state status)
    then transition RvCatchingUp (Some reason) status else done_update status) status.

Lemma supersede_update_ok reason status status' :
  supersede_update reason status = (status', Ok tt) ->
  leaves_for_refresh (vs_state status') = false.
Proof.
  unfold supersede_update, and_then, record_planning.
  destruct (bump_revision _) as [s1 [[]|]] eqn:Eb; [|done].
  destruct (leaves_for_refresh (vs_state s1)) eqn:El; [|intros [= <-]; done].
  intros Ht. by apply transition_ok in Ht as (_ & _ & ->).
Qed.

Lemma supersede_plan_stops reason vault w w' :
  supersede_plan reason vault w = (Ok tt, w') ->
  stopped w' vault /\ forall v, stopped w v -> stopped w' v.
Proof.
  unfold supersede_plan, set_fields, api_read, mbind, sio_bind. cbn.
  set (cleared := match api_plan (ww_api w) vault with
                  | Some plan => (clear_plan_if (ww_api w) vault (pl_plan_id plan)).1
                  | None => ww_api w
                  end).
  intros H.
  assert (exists r, runtime_update (ww_runtime w) vault (supersede_update reason) = (r, Ok tt) /\
    visible w' = (cleared, delete vault (sf_planning_work (ww_fields w)), r)) as (r & Hu & Hvis).
  { unfold cleared. change (fun status => and_then _ _ status) with (supersede_update reason) in H.
    revert H. destruct (api_plan (ww_api w) vault) as [plan|]; cbn; unfold api, update; cbn.
    - destruct (clear_plan_if _ _ _) as [s ok]. cbn.
      destruct (runtime_update _ _ _) as [r [[]|e]]; [|done]. intros [= <-]. by exists r.
    - destruct (runtime_update _ _ _) as [r [[]|e]]; [|done]. intros [= <-]. by exists r. }
  unfold visible in Hvis. injection Hvis as Ha Hw Hr.
  assert (forall v status', r !! v = Some status' -> exists status, ww_runtime w !! v = Some status /\
    (leaves_for_refresh (vs_state status) = false \/ v = vault ->
     leaves_for_refresh (vs_state status') = false)) as Hst.
  { intros v status' Hv. pose proof (runtime_update_lookup (ww_runtime w) vault
      (supersede_update reason) v status') as Hl. rewrite Hu in Hl.
    destruct (Hl Hv) as (status & Hs & ->). exists status. split; [done|].
    case_bool_decide as Ev; [|by intros [?|?]]. subst v. intros _.
    revert Hu. unfold runtime_update. rewrite Hs.
    destruct (supersede_update reason status) as [new answer] eqn:Es. intros [= _ ->].
    by apply (supersede_update_ok reason status). }
  split.
  - split; [|split].
    + rewrite Ha. unfold cleared. by rewrite clear_plan_none, bool_decide_eq_true_2.
    + rewrite Hw. apply lookup_delete_eq.
    + rewrite Hr. intros status' Hv. destruct (Hst _ _ Hv) as (status & _ & Hl). apply Hl. by right.
  - intros v (Hp & Hk & Hv). split; [|split].
    + rewrite Ha. unfold cleared. rewrite clear_plan_none, Hp. by case_bool_decide.
    + rewrite Hw. apply lookup_delete_None. by right.
    + rewrite Hr. intros status' Hv'. destruct (Hst _ _ Hv') as (status & Hs & Hl). apply Hl.
      left. by apply Hv.
Qed.

Lemma supersede_stops reason w w' vault :
  supersede_dirty_plans reason w = (Ok tt, w') ->
  is_vault_dirty (sf_dirty (ww_fields w)) vault = true -> stopped w' vault.
Proof.
  unfold supersede_dirty_plans, get_fields. unfold mbind, sio_bind. cbv beta iota. intros H Hd.
  destruct (sio_each (supersede_plan reason) _ w) as [[[]|e] w1] eqn:E; [|done].
  assert (stopped w1 vault) as Hs.
  { eapply (ends_each (fun before w => forall v, v ∈ before -> stopped w v) (supersede_plan reason)
      [] (dirty_vaults (sf_dirty (ww_fields w)))); [| |exact E|].
    - intros before x w2 [] w3 Hb H2 v. apply supersede_plan_stops in H2 as [Hx Hk].
      rewrite elem_of_app, list_elem_of_singleton. intros [Hv| ->]; [by apply Hk, Hb|done].
    - intros v Hv. by apply elem_of_nil in Hv.
    - unfold dirty_vaults. apply elem_of_btree_keys.
      by apply bool_decide_eq_true in Hd. }
  injection H as <-. by apply (stopped_visible w1).
Qed.

Lemma canonical_merge_keeps d logs d' v n :
  merge_canonical_invalidations config sources d logs = Ok d' -> dirty_since d v n ->
  dirty_since d' v n.
Proof.
  unfold merge_canonical_invalidations. intros H Hd.
  refine (try_fold_inv (fun d => dirty_since d v n) _ _ _ _ _ Hd H).
  intros d1 log d2 _ Hs H1. step_ok H1 as decoded He. injection H1 as <-.
  destruct decoded; [|done]. by apply merge_keeps_dirty.
Qed.

Lemma canonical_merge_dirties `{HL : !EventAbiLaws} d logs d' log decoded vault :
  merge_canonical_invalidations config sources d logs = Ok d' -> log ∈ logs ->
  decode_log sources log = Ok (Some decoded) -> vault ∈ ac_vaults (vg_app config) ->
  concerns (de_source decoded) (de_event decoded) vault ->
  dirty_since d' (vv_address vault) (cl_block_number log).
Proof.
  intros H Hin Hd Hv Hc. revert d H. induction logs as [|x logs IH]; intros d H.
  { by apply elem_of_nil in Hin. }
  cbn in H. step_ok H as d1 H1. step_ok H1 as decoded' He. injection H1 as <-.
  apply elem_of_cons in Hin as [->|Hin]; [|by eapply IH].
  rewrite Hd in He. cbn in He. injection He as <-.
  eapply canonical_merge_keeps; [exact H|].
  assert (exists source, decode_event source (canonical_raw_log x) = Ok decoded /\
    de_source decoded = source) as (source & Hde & Hs).
  { revert Hd. unfold decode_log. destruct (source_of _ _) as [source|]; [|done]. intros Hw.
    apply decode_watched_event_Ok in Hw. exists source. split; [done|].
    apply decode_event_Ok in Hw as (_ & _ & _ & ->). done. }
  apply decode_event_Ok in Hde as (_ & _ & Hr & Heq).
  destruct (concerned_vault_called config source (de_event decoded) vault Hv Hr) as (i & reason & rs & Hi & Hcall).
  { by rewrite <-Hs. }
  eapply merge_dirties; [|exact Hcall]. by rewrite Heq.
Qed.

Lemma mark_each_keeps known d v n k :
  dirty_since d v n ->
  dirty_since (fold_left (fun d vault => mark_post_transaction d vault k) known d) v n.
Proof.
  revert d. induction known as [|x known IH]; intros d Hd; cbn; [done|]. apply IH.
  by apply mark_keeps_dirty.
Qed.

Lemma marked_dirty block receipts w b w' v n :
  mark_known_transactions block receipts w = (Ok b, w') ->
  dirty_since (sf_dirty (ww_fields w)) v n -> dirty_since (sf_dirty (ww_fields w')) v n.
Proof.
  unfold mark_known_transactions, query, set_fields, mbind, sio_bind.
  destruct (known_transaction_vaults _ _) as [known|]; cbn; [|done]. intros [= _ <-].
  cbn. apply mark_each_keeps.
Qed.

Lemma merge_cons d log logs :
  merge_canonical_invalidations config sources d (log :: logs) =
    (d' ← merge_canonical_invalidations config sources d [log];
     merge_canonical_invalidations config sources d' logs).
Proof. unfold merge_canonical_invalidations. cbn. by destruct (map_err _ _). Qed.

Lemma merged_dirty logs w w' d :
  merge_logs config sources logs w = (Ok tt, w') -> d = sf_dirty (ww_fields w') ->
  merge_canonical_invalidations config sources (sf_dirty (ww_fields w)) logs = Ok d.
Proof.
  unfold merge_logs. revert w. induction logs as [|log logs IH]; intros w; [by intros [= <-] ->|].
  rewrite merge_cons. cbn [sio_each]. unfold mbind at 1, sio_bind at 1.
  destruct (merge_log config sources log w) as [[[]|e] w1] eqn:E; [|done]. intros H Hd.
  specialize (IH _ H Hd). unfold merge_log, get_fields, sio_lift, set_fields, mbind, sio_bind in E.
  destruct (merge_canonical_invalidations config sources (sf_dirty (ww_fields w)) [log]) as [d'|e];
    [|done].
  by injection E as <-.
Qed.

(** Calls that leave dirty marks alone. *)
Definition dirty_same {A} (c : sio A) : Prop := forall w,
  sf_dirty (ww_fields (c w).2) = sf_dirty (ww_fields w).
Lemma log_dirty_same log : dirty_same (apply_log_to_all sources log).
Proof. intros w. unfold apply_log_to_all. by destruct (apply_log_to_vaults _ _ _ _). Qed.
Lemma logs_dirty_same logs : dirty_same (sio_each (apply_log_to_all sources) logs).
Proof.
  intros w. pose proof (sio_keeps_each (fun w' => sf_dirty (ww_fields w') = sf_dirty (ww_fields w))
    (apply_log_to_all sources) logs) as Hk. apply Hk; [|done].
  intros log _ w1 H1. by rewrite log_dirty_same.
Qed.

(** Calls that leave what is visible alone. *)
Definition unseen {A} (c : sio A) : Prop := forall w, visible (c w).2 = visible w.
Lemma unseen_bind {A B} (c : sio A) (f : A -> sio B) :
  unseen c -> (forall a, unseen (f a)) -> unseen (a ← c; f a).
Proof.
  intros Hc Hf w. unfold mbind, sio_bind. specialize (Hc w).
  destruct (c w) as [[a|e] w']; cbn in *; [|done]. by rewrite Hf.
Qed.
Lemma ledger_unseen logs vault : unseen (advance_ledger sources logs vault).
Proof.
  unfold advance_ledger. apply unseen_bind; [by intros w|]. intros taken.
  apply unseen_bind; [by intros w|]. intros ?. destruct taken; [|by intros w].
  apply unseen_bind; [by intros w|]. intros lookup. apply unseen_bind; [by intros w|].
  intros [ledger|]; by intros w.
Qed.
Lemma ledgers_unseen logs l : unseen (sio_each (advance_ledger sources logs) l).
Proof.
  induction l as [|vault l IH]; [by intros w|]. cbn [sio_each].
  apply unseen_bind; [apply ledger_unseen|by intros].
Qed.

Lemma dirty_since_dirty d v n : dirty_since d v n -> is_vault_dirty d v = true.
Proof. intros (dirty & Hv & _). apply bool_decide_eq_true. by exists dirty. Qed.

(** What follows a merged, relevant log. *)
Lemma tail_stops block receipts (logs : list CanonicalLogRecord) log reason vault w w' n :
  log ∈ logs -> dirty_since (sf_dirty (ww_fields w)) vault n ->
  (known ← mark_known_transactions block receipts;
   if negb (match logs with [] => true | _ => false end) || known
   then supersede_dirty_plans reason else mret tt) w = (Ok tt, w') -> stopped w' vault.
Proof.
  intros Hin Hd H. unfold mbind, sio_bind in H.
  destruct (mark_known_transactions block receipts w) as [[b|e] w1] eqn:E; [|done].
  destruct logs; [by apply elem_of_nil in Hin|]. cbn in H.
  eapply supersede_stops; [exact H|]. eapply dirty_since_dirty, marked_dirty; [exact E|exact Hd].
Qed.

Lemma bind_ok {A B} (c : sio A) (f : A -> sio B) w b w' :
  (a ← c; f a) w = (Ok b, w') -> exists a w1, c w = (Ok a, w1) /\ f a w1 = (Ok b, w').
Proof. unfold mbind, sio_bind. destruct (c w) as [[a|e] w1]; [|done]. intros H. by exists a, w1. Qed.

Lemma block_stops `{HL : !EventAbiLaws} block receipts logs log decoded vault w w' :
  apply_chain_block config sources block receipts logs w = (Ok tt, w') -> log ∈ logs ->
  decode_log sources log = Ok (Some decoded) -> vault ∈ ac_vaults (vg_app config) ->
  concerns (de_source decoded) (de_event decoded) vault -> stopped w' (vv_address vault).
Proof.
  intros H Hin Hd Hv Hc. unfold apply_chain_block in H.
  apply bind_ok in H as (replayed & w0 & H0 & H).
  destruct (negb _).
  - apply bind_ok in H as ([] & w1 & H1 & H). apply bind_ok in H as ([] & w2 & H2 & H).
    eapply tail_stops; [exact Hin| |exact H].
    eapply canonical_merge_dirties; [|exact Hin|exact Hd|exact Hv|exact Hc].
    by eapply merged_dirty; [exact H2|].
  - destruct (existsb _ _); [done|].
    apply bind_ok in H as ([] & w1 & H1 & H). apply bind_ok in H as ([] & w2 & H2 & H).
    apply bind_ok in H as (b & w3 & H3 & H). apply bind_ok in H as ([] & w4 & H4 & H).
    apply bind_ok in H as ([] & w5 & H5 & H).
    assert (stopped w4 (vv_address vault)) as Hs.
    { apply (tail_stops block receipts logs log "a relevant canonical change requires exact refresh"
        (vv_address vault) w2 w4 (cl_block_number log)); [done| |].
      - pose proof (logs_dirty_same logs w1) as Hsame. rewrite H2 in Hsame. cbn in Hsame.
        rewrite Hsame. eapply canonical_merge_dirties; [|exact Hin|exact Hd|exact Hv|exact Hc].
        by eapply merged_dirty; [exact H1|].
      - unfold mbind, sio_bind. by rewrite H3. }
    injection H as <-. apply (stopped_visible w5); [done|]. apply (stopped_visible w4); [|done].
    pose proof (ledgers_unseen logs (ac_vaults (vg_app config)) w4) as Hu. by rewrite H5 in Hu.
Qed.

Lemma not_caught_up_not_ready input :
  ri_chain_caught_up input = false -> rp_ready_for_execute (evaluate_readiness input) = false.
Proof. intros H. unfold evaluate_readiness. cbn. rewrite H. by rewrite !andb_false_r. Qed.

Lemma readiness_published caught exact w w' :
  publish_readiness config signer_ready caught exact w = (Ok tt, w') ->
  visible w' = visible w /\ (caught = false -> exists report, ww_readiness w' = Some report /\
    rp_ready_for_execute report = false).
Proof.
  intros H. unfold publish_readiness in H. apply bind_ok in H as (unresolved & w1 & H1 & H).
  assert (w1 = w) as ->. { revert H1. unfold query. by intros [= _ <-]. }
  injection H as <-. split; [done|]. intros ->. eexists. split; [done|].
  by apply not_caught_up_not_ready.
Qed.

(** C31: A relevant canonical change stops execution first. Once the service has
    applied a block with a log that concerns a vault, whatever it was before,
    no plan of the vault is shown or in work, no transaction may start from the
    vault's state, and the process is not ready to execute, until an exact
    refresh at a later head. *)
Theorem relevant_change_stops_execution `{HL : !EventAbiLaws}
    block receipts logs log decoded vault w w' :
  apply_update config identities sources signer_ready (CanonicalBlock block receipts logs) w
    = (Ok tt, w') -> log ∈ logs ->
  decode_log sources log = Ok (Some decoded) -> vault ∈ ac_vaults (vg_app config) ->
  concerns (de_source decoded) (de_event decoded) vault ->
  api_plan (ww_api w') (vv_address vault) = None /\
  sf_planning_work (ww_fields w') !! vv_address vault = None /\
  (forall status, ww_runtime w' !! vv_address vault = Some status ->
     can_start_transaction (vs_state status) = false) /\
  exists report, ww_readiness w' = Some report /\ rp_ready_for_execute report = false.
Proof.
  intros H Hin Hd Hv Hc. cbn [apply_update] in H. apply bind_ok in H as ([] & w1 & H1 & H).
  pose proof (block_stops _ _ _ _ _ _ _ _ H1 Hin Hd Hv Hc) as Hs.
  apply readiness_published in H as [Hvis Hr].
  apply (stopped_visible w1 w' _ Hvis) in Hs as (Hp & Hw & Hst).
  split_and!; [done|done| |by apply Hr].
  intros status Hstatus. specialize (Hst status Hstatus). by destruct (vs_state status).
Qed.

End Execution.

(** ** The state graph and the service *)

(** The states a vault can be in under a mode, once it left [RvStarting]. *)
Definition state_of_mode (mode : RuntimeMode) (s : RuntimeVaultState) : bool :=
  match mode, s with
  | _, RvStarting => false
  | ModeExecute, (RvObserve | RvShadow) => false
  | ModeObserve, (RvShadow | RvAutomatic | RvPendingTransaction) => false
  | ModeShadow, (RvObserve | RvAutomatic | RvPendingTransaction) => false
  | _, _ => true
  end.

(** The graph of runtime states never stops a refresh. From every state a
    vault can be in under the configured mode, the state an exact refresh
    calculates, with an incident quarantine kept while nothing is unresolved,
    is a permitted transition and again a state of the mode; a quarantine is
    only left under an unresolved transaction, and never for the state from
    which transactions start. *)
Theorem refresh_transition_permitted mode snapshot signer_ready pending current :
  state_of_mode mode current = true ->
  let desired := preserve_incident_quarantine current
    (desired_runtime_state mode snapshot signer_ready pending)
    (bool_decide (is_Some pending)) in
  vault_permits current desired = true /\ state_of_mode mode desired = true /\
  (is_persistent_quarantine current = true -> desired <> current ->
   is_Some pending /\ desired <> RvAutomatic).
Proof.
  intros Hs. cbv zeta. unfold preserve_incident_quarantine.
  destruct pending as [p|]; cbn [is_Some].
  - rewrite bool_decide_eq_true_2 by eauto. rewrite andb_false_r.
    unfold desired_runtime_state. destruct mode; [|destruct (vc_can_project _)|case_bool_decide];
      destruct current; try done; (split; [done|]; split; [done|]; intros; split; [eauto|done]).
  - rewrite bool_decide_eq_false_2 by (by intros []). rewrite andb_true_r.
    destruct (is_persistent_quarantine current) eqn:Eq.
    { rewrite permits_refl. done. }
    assert (forall d, d = desired_runtime_state mode snapshot signer_ready None ->
      vault_permits current d = true /\ state_of_mode mode d = true) as Hd.
    { intros d ->. unfold desired_runtime_state.
      destruct mode; [|destruct (vc_can_project _)|destruct (ils_verified _); cbn [negb];
        [destruct (ils_locks _); [destruct (vc_can_allocate _); [destruct signer_ready|]|]|]];
        by destruct current. }
    destruct (Hd _ eq_refl). done.
Qed.

(** A vault whose terminal outcome is being recovered cannot be marked as
    catching up: the graph has no such transition, the marking fails there and
    the vaults after it keep their states. *)
Lemma recovery_is_not_marked status :
  vs_state status = RvRecovery ->
  catching_up_update status = (status, Err CeInvalidTransition).
Proof. intros H. unfold catching_up_update, transition. by rewrite H. Qed.
