(* ===== verification/Coordinator.v ===== *)
(** * The planning coordinator

    Models [PlanningCoordinator] of [src/src/runtime/planning_coordinator.rs]:
    the worker that plans the latest published revision of every vault.  It
    composes the projection, the planning service of [PlanPriority], the API
    cache, the runtime registry and the durable state; another task may publish
    newer work between its steps.  The retry timer and the shutdown are left to
    the caller of one pass. *)
From Stdlib Require Import ZArith Lia Bool String.
From stdpp Require Import base gmap sets strings list.
From S2P Require Import Prelude.
From S2P Require Import BlueMath.
From S2P Require Import Domain.
From S2P Require Import Config.
From S2P Require Import Projection.
From S2P Require Import Episodes.
From S2P Require Import Calldata.
From S2P Require Import Firewall.
From S2P Require Import Revision.
From S2P Require Import Planning.
From S2P Require Import Models.
From S2P Require Import Storage.
From S2P Require Import Actor.
From S2P Require Import PlanService.
From S2P Require Import PlanPriority.
From S2P Require Import Controller.
From S2P Require Import Identity.
From S2P Require Import ApiStore.
From S2P Require Import StateService.
Open Scope Z_scope.

Inductive PlanningCoordinatorError : Type :=
| PcStorage
| PcProjection
| PcPlanning (error : PlanningServiceError).

Definition is_vault_scoped (error : PlanningCoordinatorError) : bool :=
  match error with
  | PcProjection => true
  | PcPlanning (PsEpisode _ | PsFirewall _ | PsSerialization | PsTimestampRange
               | PsPlanConstruction | PsTopKApy) => true
  | PcStorage | PcPlanning (PsStorage | PsController) => false
  end.

(** The work another task has published, when it is looked at. *)
Class WorkChannel : Type := {
  instant : Type;
  next_instant : instant -> instant;
  latest_work : instant -> PlanningWorkSet;
}.

Record CoordinatorWorld `{WorkChannel} : Type := mkCoordinatorWorld {
  co_instant : instant;
  co_storage : JsonState;
  co_runtime : RuntimeRegistry;
  co_api : ApiDataStore;
  co_processed : PlanningWorkSet;
}.

Section Coordinator.
Context `{HW : WorkChannel} `{HK : Keccak} `{HA : AbiParams} `{HV : VaultAbi} `{HJ : PlanJson}.
Context (config : ValidatedConfig).

Definition cdo (A : Type) : Type :=
  CoordinatorWorld -> result PlanningCoordinatorError A * CoordinatorWorld.
#[export] Instance cdo_ret : MRet cdo := fun A a w => (Ok a, w).
#[export] Instance cdo_bind : MBind cdo := fun A B f c w =>
  match c w with
  | (Ok a, w) => f a w
  | (Err e, w) => (Err e, w)
  end.
Definition cdo_lift {A} (r : result PlanningCoordinatorError A) : cdo A := fun w => (r, w).
Definition cdo_read {A} (f : CoordinatorWorld -> A) : cdo A := fun w => (Ok (f w), w).
Definition borrow_work : cdo PlanningWorkSet := fun w =>
  (Ok (latest_work (co_instant w)),
   mkCoordinatorWorld _ (next_instant (co_instant w)) (co_storage w) (co_runtime w) (co_api w)
     (co_processed w)).
Definition cdo_api (f : ApiDataStore -> ApiDataStore) : cdo unit := fun w =>
  (Ok tt, mkCoordinatorWorld _ (co_instant w) (co_storage w) (co_runtime w) (f (co_api w))
            (co_processed w)).
Definition cdo_update (vault : VaultAddress) (f : Update) : cdo unit := fun w =>
  let '(r, answer) := runtime_update (co_runtime w) vault f in
  (map_err (fun _ => PcPlanning PsController) answer,
   mkCoordinatorWorld _ (co_instant w) (co_storage w) r (co_api w) (co_processed w)).
Definition set_processed (revision : PlanningRevision) : cdo unit := fun w =>
  (Ok tt, mkCoordinatorWorld _ (co_instant w) (co_storage w) (co_runtime w) (co_api w)
            (<[Revision.pr_vault revision := revision]> (co_processed w))).

(** ** The planning service on this world *)

(** The effect of a call the service made, and whether it succeeded. *)
Definition service_effect (vault : VaultAddress) (w : CoordinatorWorld) (c : ServiceCall)
    : CoordinatorWorld * bool :=
  let stored command :=
    match commit (co_storage w) command with
    | Ok s => (mkCoordinatorWorld _ (co_instant w) s (co_runtime w) (co_api w) (co_processed w), true)
    | Err _ => (w, false)
    end in
  let cached (answer : ApiDataStore * bool) :=
    (mkCoordinatorWorld _ (co_instant w) (co_storage w) (co_runtime w) answer.1 (co_processed w),
     answer.2) in
  match c with
  | PlanService.PersistRateEpisode episode timestamp =>
      stored (Actor.PersistRateEpisode episode timestamp)
  | PlanService.PersistPlan plan timestamp => stored (Actor.PersistPlan plan timestamp)
  | PersistTopKMemory memory timestamp => stored (PersistTopKApyMemory vault memory timestamp)
  | RecordEpisode episode => cached (record_api_episode (co_api w) episode, true)
  | RecordPlan plan => cached (record_plan (co_api w) plan)
  | ClearPlanThrough block generation => cached (clear_plan_through (co_api w) vault block generation)
  | RecordPlanning plan_id episode_id =>
      let '(r, answer) := runtime_update (co_runtime w) vault (record_planning plan_id episode_id) in
      (mkCoordinatorWorld _ (co_instant w) (co_storage w) r (co_api w) (co_processed w),
       match answer with Ok _ => true | Err _ => false end)
  end.

Definition service_effects (vault : VaultAddress) (w : CoordinatorWorld) (calls : list ServiceCall)
    : CoordinatorWorld :=
  fold_left (fun w c => (service_effect vault w c).1) calls w.

(** What the services answer after the calls made so far. *)
Definition world_services (vault : VaultAddress) (w : CoordinatorWorld) : PlanServices := {|
  stored := co_storage w;
  storage_loads := true;
  storage_persists := fun calls c => (service_effect vault (service_effects vault w calls) c).2;
  api_accepts := fun calls plan =>
    (service_effect vault (service_effects vault w calls) (RecordPlan plan)).2;
  runtime_updates := fun calls c => (service_effect vault (service_effects vault w calls) c).2;
|}.

Definition run_refresh (vault : ValidatedVaultConfig) (snapshot : ExactVaultSnapshot)
    (projection : ProjectedVaultView) (revision : option PlanningRevision)
    : cdo (option V2Plan) := fun w =>
  let '(calls, answer) :=
    refresh_priority_plan (HS := world_services (vv_address vault) w)
      (HT := Build_TopKServices true) config vault snapshot projection revision [] in
  (map_err PcPlanning answer, service_effects (vv_address vault) w calls).

(** ** One revision *)

Definition is_current (revision : PlanningRevision) : cdo bool :=
  work ← borrow_work;
  mret (bool_decide (work !! Revision.pr_vault revision = Some revision)).

Definition clear_through (revision : PlanningRevision) : cdo unit :=
  cdo_api (fun s => (clear_plan_through s (Revision.pr_vault revision)
                       (blk_number (Revision.pr_snapshot_block revision))
                       (Revision.pr_planner_generation revision)).1).

Definition record_superseded (revision : PlanningRevision) : cdo unit :=
  _ ← clear_through revision;
  cdo_update (Revision.pr_vault revision) (fun status =>
    record_planning None (vs_episode_id status) status).

Definition quarantine_planning_scope (revision : PlanningRevision) : cdo unit :=
  _ ← clear_through revision;
  found ← cdo_read (fun w => runtime_get (co_runtime w) (Revision.pr_vault revision));
  current ← cdo_lift (ok_or found (PcPlanning PsController));
  if is_persistent_quarantine (vs_state current) then mret tt
  else cdo_update (Revision.pr_vault revision) (transition RvPausedUnsupportedConfiguration
         (Some "latest exact state could not produce a safe plan"%string)).

(** Whether the revision must be tried again later. *)
Definition process_revision (revision : PlanningRevision) : cdo bool :=
  current ← is_current revision;
  if negb current then mret false
  else
    match find (fun vault => vv_address vault =? Revision.pr_vault revision) (ac_vaults (vg_app config)) with
    | None => mret false
    | Some vault =>
        unresolved ← (fun w => (map_err (fun _ => PcStorage)
                                  (load_unresolved (co_storage w) (vv_signer_address vault)), w));
        match unresolved with
        | Some _ => mret true
        | None =>
            state ← cdo_read (fun w => (api_snapshot (co_api w) (vv_address vault),
                                        api_rates (co_api w) (vv_address vault)));
            match state with
            | (Some snapshot, Some rates) =>
                let context := ev_context snapshot in
                if negb (rv_vault rates =? vv_address vault)
                   || negb (rv_snapshot_hash rates =? ev_snapshot_hash snapshot)
                then mret true
                else
                  match rebind_to_covered_state revision
                          (mkCoveredState (ctx_block context) (ev_snapshot_hash snapshot)
                             (rv_block rates) (ctx_dynamic_topology_revision context)
                             (ctx_static_config_revision context)) with
                  | None => mret true
                  | Some effective =>
                      if bool_decide (vn_mode (ac_node (vg_app config)) = ModeObserve)
                         || negb (vc_can_project (ev_capabilities snapshot))
                         || negb (vc_can_allocate (ev_capabilities snapshot))
                      then
                        _ ← clear_through effective;
                        mret false
                      else
                        projection ← cdo_lift (map_err (fun _ => PcProjection)
                          (project_snapshot_to_head snapshot (Revision.pr_projection_block effective) vault));
                        current ← is_current revision;
                        if negb current then
                          _ ← record_superseded effective;
                          mret false
                        else
                          _ ← run_refresh vault snapshot projection (Some effective);
                          current ← is_current revision;
                          _ ← if negb current then record_superseded effective else mret tt;
                          mret false
                  end
            | _ => mret true
            end
        end
    end.

(** ** One pass *)

Fixpoint pass (revisions : list PlanningRevision) (retry : bool) : cdo bool :=
  match revisions with
  | [] => mret retry
  | revision :: revisions =>
      processed ← cdo_read (fun w => co_processed w !! Revision.pr_vault revision);
      if bool_decide (processed = Some revision) then pass revisions retry
      else fun w =>
        match process_revision revision w with
        | (Ok needs_retry, w) =>
            (_ ← if negb needs_retry then set_processed revision else mret tt;
             pass revisions (retry || needs_retry)) w
        | (Err error, w) =>
            if is_vault_scoped error then
              (_ ← quarantine_planning_scope revision;
               _ ← set_processed revision;
               pass revisions retry) w
            else (Err error, w)
        end
  end.

Definition process_latest : cdo bool :=
  work ← borrow_work;
  pass (btree_values work) false.

(** ** The record of processed work *)

(** A step that leaves the record of processed revisions alone. *)
Definition records_nothing {A} (c : cdo A) : Prop :=
  forall w, co_processed (c w).2 = co_processed w.

Lemma rn_bind {A B} (c : cdo A) (f : A -> cdo B) :
  records_nothing c -> (forall a, records_nothing (f a)) -> records_nothing (mbind f c).
Proof.
  intros Hc Hf w. unfold mbind, cdo_bind. specialize (Hc w).
  destruct (c w) as [[a|e] w']; cbn in *; [by rewrite Hf|done].
Qed.
Lemma rn_ret {A} (a : A) : records_nothing (mret a).
Proof. done. Qed.
Lemma rn_lift {A} (r : result PlanningCoordinatorError A) : records_nothing (cdo_lift r).
Proof. done. Qed.
Lemma rn_read {A} (f : CoordinatorWorld -> A) : records_nothing (cdo_read f).
Proof. done. Qed.
Lemma rn_borrow : records_nothing borrow_work.
Proof. done. Qed.
Lemma rn_api f : records_nothing (cdo_api f).
Proof. done. Qed.
Lemma rn_update vault f : records_nothing (cdo_update vault f).
Proof. intros w. unfold cdo_update. by destruct (runtime_update _ _ _). Qed.

Lemma service_effects_processed vault w calls :
  co_processed (service_effects vault w calls) = co_processed w.
Proof.
  revert w. induction calls as [|c calls IH]; intros w; [done|].
  change (service_effects vault w (c :: calls))
    with (service_effects vault (service_effect vault w c).1 calls).
  rewrite IH. unfold service_effect. destruct c; cbn; repeat case_match; done.
Qed.
Lemma rn_refresh vault snapshot projection revision :
  records_nothing (run_refresh vault snapshot projection revision).
Proof.
  intros w. unfold run_refresh. destruct (refresh_priority_plan _ _ _ _ _ _) as [calls answer].
  apply service_effects_processed.
Qed.
#[local] Hint Resolve rn_ret rn_lift rn_read rn_borrow rn_api rn_update rn_refresh : core.

Ltac rn_walk :=
  repeat first
    [ solve [eauto] | solve [by intros ?]
    | apply rn_bind; [|intros ?]
    | progress cbv zeta beta
    | match goal with |- records_nothing (match ?x with _ => _ end) => destruct x end ].

Lemma rn_superseded revision : records_nothing (record_superseded revision).
Proof. unfold record_superseded, clear_through. rn_walk. Qed.
Lemma rn_quarantine revision : records_nothing (quarantine_planning_scope revision).
Proof. unfold quarantine_planning_scope, clear_through. rn_walk. Qed.
#[local] Hint Resolve rn_superseded rn_quarantine : core.
Lemma rn_revision revision : records_nothing (process_revision revision).
Proof. unfold process_revision, is_current, clear_through. rn_walk. Qed.

(** ** What becomes of one revision *)

(** One look at the channel. *)
Definition looked (w : CoordinatorWorld) : CoordinatorWorld :=
  mkCoordinatorWorld _ (next_instant (co_instant w)) (co_storage w) (co_runtime w) (co_api w)
    (co_processed w).

Definition vault_of (revision : PlanningRevision) : option ValidatedVaultConfig :=
  find (fun vault => vv_address vault =? Revision.pr_vault revision) (ac_vaults (vg_app config)).
Definition published_now (revision : PlanningRevision) (w : CoordinatorWorld) : Prop :=
  latest_work (co_instant w) !! Revision.pr_vault revision = Some revision.
Definition lane_of (vault : ValidatedVaultConfig) (w : CoordinatorWorld)
    : result StorageError (option UnresolvedTransaction) :=
  load_unresolved (co_storage w) (vv_signer_address vault).

(** The cached snapshot and rates are of one state, which covers the revision. *)
Definition covered (revision : PlanningRevision) (vault : ValidatedVaultConfig) (w : CoordinatorWorld)
    (snapshot : ExactVaultSnapshot) (effective : PlanningRevision) : Prop :=
  exists rates, api_snapshot (co_api w) (vv_address vault) = Some snapshot /\
    api_rates (co_api w) (vv_address vault) = Some rates /\
    rv_vault rates = vv_address vault /\ rv_snapshot_hash rates = ev_snapshot_hash snapshot /\
    rebind_to_covered_state revision
      (mkCoveredState (ctx_block (ev_context snapshot)) (ev_snapshot_hash snapshot) (rv_block rates)
         (ctx_dynamic_topology_revision (ev_context snapshot))
         (ctx_static_config_revision (ev_context snapshot))) = Some effective.

(** The revision must wait: its vault has an unresolved transaction, or there is
    no exact state yet that covers it. *)
Inductive blocked (revision : PlanningRevision) (w : CoordinatorWorld) : Prop :=
| blocked_transaction vault row :
    published_now revision w -> vault_of revision = Some vault -> lane_of vault w = Ok (Some row) ->
    blocked revision w
| blocked_state vault :
    published_now revision w -> vault_of revision = Some vault -> lane_of vault w = Ok None ->
    (forall snapshot effective, ~ covered revision vault w snapshot effective) ->
    blocked revision w.

Definition plannable (snapshot : ExactVaultSnapshot) : Prop :=
  vn_mode (ac_node (vg_app config)) <> ModeObserve /\
  vc_can_project (ev_capabilities snapshot) = true /\
  vc_can_allocate (ev_capabilities snapshot) = true.

(** Nothing is left to do for the revision: newer work has replaced it, no vault
    is configured for it, its state is not to be planned, or it was planned. *)
Inductive settled (revision : PlanningRevision) (w : CoordinatorWorld) : Prop :=
| settled_replaced : ~ published_now revision w -> settled revision w
| settled_unconfigured : vault_of revision = None -> settled revision w
| settled_idle vault snapshot effective :
    vault_of revision = Some vault -> lane_of vault w = Ok None ->
    covered revision vault w snapshot effective -> ~ plannable snapshot -> settled revision w
| settled_planned vault snapshot effective projection :
    vault_of revision = Some vault -> lane_of vault w = Ok None ->
    covered revision vault w snapshot effective -> plannable snapshot ->
    project_snapshot_to_head snapshot (Revision.pr_projection_block effective) vault = Ok projection ->
    ~ published_now revision (looked w) \/
      is_ok (run_refresh vault snapshot projection (Some effective) (looked (looked w))).1 = true ->
    settled revision w.

(** The failures of one vault, and the ones that stop the pass. *)
Inductive alone : PlanningCoordinatorError -> Prop :=
| alone_projection : alone PcProjection
| alone_episode e : alone (PcPlanning (PsEpisode e))
| alone_firewall e : alone (PcPlanning (PsFirewall e))
| alone_serialization : alone (PcPlanning PsSerialization)
| alone_timestamp : alone (PcPlanning PsTimestampRange)
| alone_construction : alone (PcPlanning PsPlanConstruction)
| alone_top_k : alone (PcPlanning PsTopKApy).
Inductive halts : PlanningCoordinatorError -> Prop :=
| halts_load : halts PcStorage
| halts_persist : halts (PcPlanning PsStorage)
| halts_registry : halts (PcPlanning PsController).

Lemma scope_of e : if is_vault_scoped e then alone e else halts e.
Proof. destruct e as [| |[]]; constructor. Qed.

Lemma is_current_spec revision w :
  exists current, is_current revision w = (Ok current, looked w) /\
    (current = true <-> published_now revision w).
Proof. eexists. split; [reflexivity|]. apply bool_decide_eq_true. Qed.

(** The state a revision is planned on, read as the coordinator reads it. *)
Lemma covered_unique revision vault w snapshot effective snapshot' effective' :
  covered revision vault w snapshot effective -> covered revision vault w snapshot' effective' ->
  snapshot = snapshot' /\ effective = effective'.
Proof. intros (r & H1 & H2 & _ & _ & H3) (r' & H1' & H2' & _ & _ & H3'). naive_solver. Qed.

(** A revision that must wait is left for the retry timer, untouched. *)
Lemma blocked_waits revision w :
  blocked revision w -> process_revision revision w = (Ok true, looked w).
Proof.
  unfold process_revision, mbind, cdo_bind, mret, cdo_ret. fold (vault_of revision).
  destruct (is_current_spec revision w) as (current & -> & Hcur).
  intros [vault row Hp Hv Hl|vault Hp Hv Hl Hn]; rewrite (proj2 Hcur Hp), Hv; cbn [negb];
    unfold lane_of in Hl; cbn; rewrite Hl; [done|]. cbn.
  destruct (api_snapshot _ _) as [snapshot|] eqn:Hs; [|done].
  destruct (api_rates _ _) as [rates|] eqn:Hr; [|done].
  destruct (_ || _) eqn:E; [done|]. bool_spec E.
  destruct (rebind_to_covered_state _ _) as [effective|] eqn:Hb; [|done].
  destruct (Hn snapshot effective). exists rates. naive_solver.
Qed.

Lemma revision_outcome revision w :
  match (process_revision revision w).1 with
  | Ok true => blocked revision w
  | Ok false => settled revision w
  | Err _ => True
  end.
Proof.
  unfold process_revision, mbind, cdo_bind, mret, cdo_ret. fold (vault_of revision).
  destruct (is_current_spec revision w) as (current & -> & Hcur).
  destruct current; cbn [negb]; [|apply settled_replaced; naive_solver].
  destruct (vault_of revision) as [vault|] eqn:Hv; [|by apply settled_unconfigured].
  cbn. fold (lane_of vault w). change (load_unresolved (co_storage w) (vv_signer_address vault))
    with (lane_of vault w).
  destruct (lane_of vault w) as [[row|]|] eqn:Hl; cbn; [by eapply blocked_transaction; [apply Hcur|..]| |done].
  assert ((forall snapshot effective, ~ covered revision vault w snapshot effective) ->
          blocked revision w) as Hwait by (intros Hn; by eapply blocked_state; [apply Hcur|..]).
  destruct (api_snapshot _ _) as [snapshot|] eqn:Hs; [|apply Hwait; intros ? ? (r & H & _); congruence].
  destruct (api_rates _ _) as [rates|] eqn:Hr; [|apply Hwait; intros ? ? (r & _ & H & _); congruence].
  destruct (negb _ || negb _) eqn:E; bool_spec E.
  { apply Hwait. intros ? ? (r & ? & ? & ? & ? & _). destruct E as [E|E]; apply E; congruence. }
  destruct (rebind_to_covered_state _ _) as [effective|] eqn:Hb.
  2:{ apply Hwait. intros ? ? (r & ? & ? & _ & _ & ?). congruence. }
  assert (covered revision vault w snapshot effective) as Hcov
    by (exists rates; split; [exact Hs|]; split; [exact Hr|]; split; [apply E|]; split; [apply E|done]).
  destruct (_ || _) eqn:Ep; bool_spec Ep.
  { cbn. eapply settled_idle; [done..|]. unfold plannable. intros (H1 & H2 & H3).
    destruct Ep as [[?|?]|?]; congruence. }
  destruct (project_snapshot_to_head _ _ _) as [projection|] eqn:Hproj; cbn; [|done].
  destruct (is_current_spec revision (looked w)) as (current & -> & Hcur').
  assert (plannable snapshot) as Hplan by (unfold plannable; destruct Ep as [[? ?] ?]; done).
  destruct current; cbn [negb].
  - destruct (run_refresh _ _ _ _ _) as [[plan|e] w2] eqn:Hrun; [|done].
    assert (settled revision w) as Hset.
    { eapply settled_planned; [done..|]. right. by rewrite Hrun. }
    repeat case_match; try done; congruence.
  - assert (settled revision w) as Hset.
    { eapply settled_planned; [done..|]. left. naive_solver. }
    repeat case_match; try done; congruence.
Qed.

(** A cleared vault keeps only a plan newer than the revision. *)
Definition only_newer (revision : PlanningRevision) (w : CoordinatorWorld) : Prop :=
  forall plan, api_plan (co_api w) (Revision.pr_vault revision) = Some plan ->
    blk_number (Revision.pr_snapshot_block revision) < blk_number (ctx_block (pl_snapshot plan)) \/
    Revision.pr_planner_generation revision < pl_planner_generation plan.

Lemma clear_through_newer revision w : only_newer revision (clear_through revision w).2.
Proof.
  intros plan. cbn. unfold clear_plan_through.
  rewrite api_plan_artifacts, clear_when_artifacts, bool_decide_eq_true_2 by done.
  cbn. destruct (va_plan (artifacts _ _)) as [p|] eqn:Ep; cbn; [|by rewrite Ep].
  destruct (_ && _) eqn:Eb; cbn; [done|]. rewrite Ep. intros [= ->].
  apply andb_false_iff in Eb as [?%Z.leb_gt|?%Z.leb_gt]; [by left|by right].
Qed.

(** The vault is taken out of service, and its plan is withdrawn. *)
Definition quarantined (revision : PlanningRevision) (w : CoordinatorWorld) : Prop :=
  only_newer revision w /\
  exists status, runtime_get (co_runtime w) (Revision.pr_vault revision) = Some status /\
    (is_persistent_quarantine (vs_state status) = true \/
     vs_state status = RvPausedUnsupportedConfiguration).

Lemma quarantine_spec revision w :
  match quarantine_planning_scope revision w with
  | (Ok _, w') => quarantined revision w'
  | (Err e, _) => e = PcPlanning PsController
  end.
Proof.
  unfold quarantine_planning_scope, mbind, cdo_bind, mret, cdo_ret.
  pose proof (clear_through_newer revision w) as Hn.
  destruct (clear_through revision w) as [[[]|e] w1] eqn:Hc; [|by discriminate Hc]. cbn in Hn |- *.
  destruct (runtime_get _ _) as [status|] eqn:Hg; cbn; [|done].
  destruct (is_persistent_quarantine _) eqn:Hp; [by split; [|exists status; split; [|left]]|].
  unfold cdo_update, runtime_update. unfold runtime_get in Hg. rewrite Hg. unfold transition.
  destruct (negb _); [done|]. unfold bump_revision. destruct (checked_add _ _ _); cbn; [|done].
  split; [done|]. eexists. split; [apply lookup_insert_eq|]. by right.
Qed.

(** ** What becomes of a pass *)

Definition recorded (w : CoordinatorWorld) (revision : PlanningRevision) : Prop :=
  co_processed w !! Revision.pr_vault revision = Some revision.

(** The turn of a revision, from [w1] to [w2], in the pass from [w] to [w']: it
    waits and is not recorded, or it is recorded after it was settled or after
    a failure of its own, which takes its vault out of service. *)
Definition tended (revision : PlanningRevision) (w1 w2 w w' : CoordinatorWorld) : Prop :=
  (blocked revision w1 ->
     co_processed w' !! Revision.pr_vault revision = co_processed w !! Revision.pr_vault revision) /\
  (~ blocked revision w1 -> recorded w' revision /\
     match (process_revision revision w1).1 with
     | Ok _ => settled revision w1
     | Err e => alone e /\ quarantined revision w2
     end).

(** The revision stops the pass. *)
Definition stopped (revision : PlanningRevision) (w1 : CoordinatorWorld) (e : PlanningCoordinatorError)
    : Prop :=
  halts e /\
  ((process_revision revision w1).1 = Err e \/
   e = PcPlanning PsController /\ exists e', (process_revision revision w1).1 = Err e' /\ alone e').

Lemma outcome_blocked revision w :
  blocked revision w <-> (process_revision revision w).1 = Ok true.
Proof.
  split; [by intros ->%blocked_waits|]. pose proof (revision_outcome revision w) as H. by intros E;
    rewrite E in H.
Qed.

Lemma pass_one revision retry w :
  match pass [revision] retry w with
  | (Ok retry1, w1) =>
      (recorded w revision -> retry1 = retry /\ w1 = w) /\
      (~ recorded w revision ->
         (retry1 = true <-> retry = true \/ blocked revision w) /\ tended revision w w1 w w1 /\
         forall v, v <> Revision.pr_vault revision -> co_processed w1 !! v = co_processed w !! v)
  | (Err e, w1) =>
      ~ recorded w revision /\ stopped revision w e /\ co_processed w1 = co_processed w
  end.
Proof.
  cbn [pass]. unfold mbind at 1, cdo_bind at 1, cdo_read at 1. cbn beta iota. unfold recorded, stopped.
  case_bool_decide as Eq; [by split|].
  pose proof (rn_revision revision w) as Hk. pose proof (outcome_blocked revision w) as Hb.
  pose proof (revision_outcome revision w) as Ho.
  unfold tended, recorded, mbind, cdo_bind, mret, cdo_ret.
  destruct (process_revision revision w) as [[[|]|e] w1]; cbn [fst snd] in *.
  - cbn. rewrite Hk, orb_true_r. split; [done|]. intros _. naive_solver.
  - assert (~ blocked revision w) as Hnb by naive_solver.
    cbn. rewrite orb_false_r, Hk. split; [done|]. intros _. split; [naive_solver|]. split.
    + split; [done|]. intros _. split; [apply lookup_insert_eq|done].
    + intros v Hv. by apply lookup_insert_ne.
  - assert (~ blocked revision w) as Hnb by naive_solver.
    pose proof (scope_of e) as Hs. destruct (is_vault_scoped e); [|naive_solver].
    pose proof (quarantine_spec revision w1) as Hq.
    pose proof (rn_quarantine revision w1) as Hk'.
    destruct (quarantine_planning_scope revision w1) as [[[]|e'] w2]; cbn [fst snd] in *.
    + cbn. split; [done|]. intros _. split; [naive_solver|]. rewrite Hk', Hk. split.
      * split; [done|]. intros _. split; [apply lookup_insert_eq|done].
      * intros v Hv. by apply lookup_insert_ne.
    + rewrite Hq. split; [done|]. split; [|by rewrite Hk', Hk]. split; [constructor|].
      right. split; [done|]. by exists e.
Qed.

Lemma pass_cons revision revisions retry w :
  pass (revision :: revisions) retry w =
    match pass [revision] retry w with
    | (Ok retry1, w1) => pass revisions retry1 w1
    | (Err e, w1) => (Err e, w1)
    end.
Proof.
  cbn [pass]. unfold mbind, cdo_bind, cdo_read, mret, cdo_ret. cbn beta iota.
  case_bool_decide; [done|]. destruct (process_revision revision w) as [[[|]|e] w1]; [done..|].
  destruct (is_vault_scoped e); [|done].
  by destruct (quarantine_planning_scope revision w1) as [[[]|e'] w2].
Qed.

(** The world in which the pass comes to the revision of an index. *)
Definition turn (revisions : list PlanningRevision) (retry : bool) (w : CoordinatorWorld) (i : nat)
    : CoordinatorWorld := (pass (take i revisions) retry w).2.

(** The revision of an index that the pass has to work on. *)
Definition due (revisions : list PlanningRevision) (w : CoordinatorWorld) (i : nat)
    (revision : PlanningRevision) : Prop :=
  revisions !! i = Some revision /\ ~ recorded w revision.

(** The first [n] revisions were tended, and nothing else was recorded. *)
Definition accounted (revisions : list PlanningRevision) (retry : bool) (w : CoordinatorWorld) (n : nat)
    (w' : CoordinatorWorld) : Prop :=
  (forall i revision, (i < n)%nat -> due revisions w i revision ->
     tended revision (turn revisions retry w i) (turn revisions retry w (S i)) w w') /\
  (forall v, (forall i revision, (i < n)%nat -> due revisions w i revision ->
                Revision.pr_vault revision <> v) ->
     co_processed w' !! v = co_processed w !! v).

Section Step.
Context (revision : PlanningRevision) (revisions : list PlanningRevision) (retry retry1 : bool).
Context (w w1 : CoordinatorWorld).
Context (Hone : pass [revision] retry w = (Ok retry1, w1)).
Context (Hnew : Revision.pr_vault revision ∉ Revision.pr_vault <$> revisions).

Lemma turn_S i : turn (revision :: revisions) retry w (S i) = turn revisions retry1 w1 i.
Proof using Hone. unfold turn. cbn [take]. by rewrite pass_cons, Hone. Qed.

Lemma others_kept v :
  v <> Revision.pr_vault revision -> co_processed w1 !! v = co_processed w !! v.
Proof using Hone.
  intros Hv. pose proof (pass_one revision retry w) as Ho. rewrite Hone in Ho.
  destruct Ho as [H1 H2]. destruct (decide (co_processed w !! Revision.pr_vault revision = Some revision)).
  - by destruct (H1 ltac:(done)) as [_ ->].
  - by apply (H2 ltac:(done)).
Qed.

Lemma due_other i r : revisions !! i = Some r -> Revision.pr_vault r <> Revision.pr_vault revision.
Proof using Hnew.
  intros Hi E. apply Hnew. rewrite <- E. apply list_elem_of_fmap. exists r.
  split; [done|]. by eapply list_elem_of_lookup_2.
Qed.

Lemma due_S i r : due (revision :: revisions) w (S i) r <-> due revisions w1 i r.
Proof using Hone Hnew.
  unfold due, recorded. cbn. split; intros [Hi Hr]; (split; [done|]); pose proof (due_other i r Hi) as Hv;
    rewrite others_kept in * by done; done.
Qed.

(** A pass goes on after its first revision. *)
Lemma accounted_S n w' :
  accounted revisions retry1 w1 n w' -> accounted (revision :: revisions) retry w (S n) w'.
Proof using Hone Hnew.
  intros [Ht Hk]. pose proof (pass_one revision retry w) as Ho. rewrite Hone in Ho.
  assert (co_processed w' !! Revision.pr_vault revision = co_processed w1 !! Revision.pr_vault revision)
    as Hkeep by (apply Hk; intros i r _ [Hi _]; by eapply due_other).
  split.
  - intros [|i] r Hi Hd.
    + destruct Hd as [[= <-] Hd]. rewrite turn_S. unfold turn. cbn.
      destruct Ho as [_ (_ & Hone' & _)]; [done|]. unfold tended, recorded in *. by rewrite Hkeep.
    + apply due_S in Hd as Hd'. rewrite !turn_S.
      specialize (Ht i r ltac:(lia) Hd'). unfold tended in *.
      rewrite others_kept in Ht; [done|]. by eapply due_other, Hd'.
  - intros v Hv. destruct (decide (v = Revision.pr_vault revision)) as [->|Hne].
    + rewrite Hkeep. destruct (decide (co_processed w !! Revision.pr_vault revision = Some revision))
        as [Hr|Hr]; [by destruct Ho as [[_ ->] _]|].
      exfalso. apply (Hv 0%nat revision); [lia|by split|done].
    + rewrite Hk; [by apply others_kept|]. intros i r Hi Hd. apply (Hv (S i)); [lia|by apply due_S].
Qed.

End Step.

Lemma pass_spec revisions : NoDup (Revision.pr_vault <$> revisions) -> forall retry w,
  match pass revisions retry w with
  | (Ok retry', w') =>
      (retry' = true <-> retry = true \/ exists i revision, due revisions w i revision /\
                                      blocked revision (turn revisions retry w i)) /\
      accounted revisions retry w (length revisions) w'
  | (Err e, w') =>
      exists n revision, due revisions w n revision /\ stopped revision (turn revisions retry w n) e /\
        accounted revisions retry w n w'
  end.
Proof.
  induction revisions as [|r revisions IH]; intros Hd retry w.
  { cbn. split; [split; [by left|intros [?|(i & r & [Hi _] & _)]; [done|by rewrite lookup_nil in Hi]]|].
    split; [intros i r Hi; lia|done]. }
  cbn in Hd. apply NoDup_cons in Hd as [Hr Hd]. rewrite pass_cons.
  pose proof (pass_one r retry w) as Ho. destruct (pass [r] retry w) as [[retry1|e] w1] eqn:Hone.
  2:{ destruct Ho as (Hn & Hs & Hk). exists 0%nat, r. split; [by split|]. split; [done|].
      split; [intros i ? Hi; lia|by rewrite Hk]. }
  specialize (IH Hd retry1 w1). destruct (pass revisions retry1 w1) as [[retry'|e] w'] eqn:Hp.
  - destruct IH as [Hretry Hacc]. split; [|by eapply accounted_S].
    rewrite Hretry. destruct Ho as [H1 H2].
    assert (retry1 = true <-> retry = true \/ (~ recorded w r /\ blocked r w)) as ->.
    { destruct (decide (co_processed w !! Revision.pr_vault r = Some r)) as [Hrec|Hrec].
      - destruct (H1 Hrec) as [-> _]. unfold recorded. naive_solver.
      - destruct (H2 Hrec) as [-> _]. unfold recorded. naive_solver. }
    split.
    + intros [[?|[Hn Hb]]|(i & r' & Hdue & Hb)]; [by left|right..].
      * exists 0%nat, r. by split; [split|].
      * exists (S i), r'. rewrite (turn_S _ _ _ _ _ _ Hone). split; [by eapply due_S|done].
    + intros [?|([|i] & r' & Hdue & Hb)]; [by left; left| |].
      * destruct Hdue as [[= <-] Hn]. left. by right.
      * rewrite (turn_S _ _ _ _ _ _ Hone) in Hb. right. exists i, r'.
        split; [|done]. by apply (due_S _ _ _ _ _ _ Hone Hr).
  - destruct IH as (n & r' & Hdue & Hs & Hacc). exists (S n), r'. rewrite (turn_S _ _ _ _ _ _ Hone).
    split; [by eapply due_S|]. split; [done|by eapply accounted_S].
Qed.

(** The channel is keyed by the vault of each revision. *)
Definition work_keyed (work : PlanningWorkSet) : Prop :=
  forall v r, work !! v = Some r -> Revision.pr_vault r = v.

Lemma keyed_vaults work : work_keyed work -> NoDup (Revision.pr_vault <$> btree_values work).
Proof.
  intros Hk. unfold btree_values.
  replace (Revision.pr_vault <$> _) with (btree_keys work); [apply NoDup_btree_keys|].
  unfold btree_keys. rewrite <- list_fmap_compose. apply list_fmap_ext.
  intros i [v r] Hi%list_elem_of_lookup_2%elem_of_btree_entries. cbn. by rewrite (Hk v r).
Qed.


(** ** A revision that is blocked or replaced *)

(** While the signer of a vault owns an unresolved transaction, the vault is
    not planned: the current revision is kept for the retry timer, and neither
    the durable state, nor the registry, nor the published plan changes. *)
Theorem unresolved_transaction_defers_planning (w : CoordinatorWorld) revision vault row :
  latest_work (co_instant w) !! Revision.pr_vault revision = Some revision ->
  find (fun vault => vv_address vault =? Revision.pr_vault revision) (ac_vaults (vg_app config))
    = Some vault ->
  load_unresolved (co_storage w) (vv_signer_address vault) = Ok (Some row) ->
  process_revision revision w = (Ok true, looked w).
Proof.
  intros Hc Hv Hu. unfold process_revision, is_current, mbind, cdo_bind, mret, cdo_ret. cbn.
  rewrite bool_decide_eq_true_2 by done. cbn. rewrite Hv. cbn. by rewrite Hu.
Qed.

(** A replaced revision leaves no plan of its block and generation, or older. *)
Lemma superseded_leaves_newer revision w : only_newer revision (record_superseded revision w).2.
Proof.
  intros plan. pose proof (clear_through_newer revision w plan) as Hn.
  unfold record_superseded, mbind, cdo_bind, cdo_update.
  destruct (clear_through revision w) as [[[]|e] w1]; [|done]. cbn in Hn |- *.
  by destruct (runtime_update _ _ _).
Qed.

End Coordinator.
