(* ===== verification/LiveSources.v ===== *)
(** * The live exact sources

    Models [src/src/runtime/current_state_source.rs] and
    [src/src/runtime/preflight_source.rs]: the exact state of one vault that
    reconciliation closes a transaction with, that recovery plans from, and
    that the final preflight signs from.  A source reads the durable state, the
    published state of the API cache and, in the pinned mode, the chain; what
    other tasks commit while a call is awaited and what the calls answer is the
    class [SourceReads]. *)
From Stdlib Require Import ZArith Lia Bool String.
From stdpp Require Import base gmap sets strings list.
From S2P Require Import Prelude.
From S2P Require Import Domain.
From S2P Require Import Config.
From S2P Require Import Caps.
From S2P Require Import IdleLocks.
From S2P Require Import Projection.
From S2P Require Import Episodes.
From S2P Require Import Objective.
From S2P Require Import Simulator.
From S2P Require Import TopK.
From S2P Require Import TopKSolve.
From S2P Require Import Models.
From S2P Require Import Storage.
From S2P Require Import Actor.
From S2P Require Import Calldata.
From S2P Require Import Firewall.
From S2P Require Import Signer.
From S2P Require Import Planning.
From S2P Require Import PlanTopK.
From S2P Require Import PlanService.
From S2P Require Import PlanPriority.
From S2P Require Import Provider.
From S2P Require Import Logs.
From S2P Require Import Topology.
From S2P Require Import Conformance.
From S2P Require Import Reconciliation.
From S2P Require Import FinalPreflight.
From S2P Require Import Identity.
From S2P Require Import Snapshot.
From S2P Require Import Controller.
From S2P Require Import ApiStore.
From S2P Require Import EventSources.
From S2P Require Import IdleReplay.
From S2P Require Import StateService.
Open Scope Z_scope.

(** ** Surroundings *)

(** The calls of one rebuild, in order. *)
Inductive SourceCall : Type := LinksBefore | ExactRead | LedgerLookup | LinksAfter.

Class SourceReads : Type := {
  source_code : SourceCall -> CodeReads;
  read_exact_snapshot : SnapshotBlueprint -> result SnapshotError ExactVaultSnapshot;
  source_lookup : B256 -> result ProviderError (option RpcTransaction);
  committed_meanwhile : SourceCall -> JsonState -> JsonState;
}.

(** An answer of the outside, awaited. *)
Definition awaited `{SourceReads} {E A} (call : SourceCall) (answer : A) : io E A := fun w =>
  (Ok answer, mkWorld (committed_meanwhile call (w_storage w)) (w_submissions w)).

(** An answer computed from the durable state. *)
Definition on_stored {E A} (f : JsonState -> result E A) : io E A := fun w =>
  (f (w_storage w), w).

(** ** Current state *)

Record RecoveryStateAssessment : Type := mkRecoveryStateAssessment {
  ra_snapshot : ExactVaultSnapshot;
  ra_projection : ProjectedVaultView;
  ra_current_rate_spread : Z;
  ra_service_constraints_met : bool;
}.

Definition atomic_reconciliation_snapshot_is_covered (snapshot cursor : BlockRef)
    (minimum_block : Z) : bool :=
  (minimum_block <=? blk_number snapshot) && (blk_number snapshot <=? blk_number cursor).

Definition atomic_recovery_projection_is_covered (snapshot projection cursor : BlockRef) : bool :=
  ((blk_number projection <? blk_number cursor) || bool_decide (projection = cursor))
  && (blk_timestamp projection <=? blk_timestamp cursor)
  && (blk_timestamp snapshot <=? blk_timestamp projection)
  && ((blk_number snapshot <? blk_number projection) || bool_decide (snapshot = projection)).

Definition atomic_snapshot_metadata_matches (observed_chain_id : Z)
    (observed_config_revision : B256) (observed_vault observed_asset : Address)
    (configured_chain_id : Z) (configured_config_revision : B256)
    (configured_vault configured_asset : Address) : bool :=
  (observed_chain_id =? configured_chain_id)
  && (observed_config_revision =? configured_config_revision)
  && (observed_vault =? configured_vault) && (observed_asset =? configured_asset).

Inductive AtomicSnapshotSource : Type := FromApi | FromDurable.

Definition newest_atomic_snapshot_source (api durable : option BlockRef)
    : option AtomicSnapshotSource :=
  match api, durable with
  | Some api, Some durable =>
      if blk_number api <? blk_number durable then Some FromDurable else Some FromApi
  | Some _, None => Some FromApi
  | None, Some _ => Some FromDurable
  | None, None => None
  end.

Definition snapshot_block (snapshot : ExactVaultSnapshot) : BlockRef :=
  ctx_block (ev_context snapshot).

Definition select_newest_atomic_snapshot (api durable : option ExactVaultSnapshot)
    : option ExactVaultSnapshot :=
  source ← newest_atomic_snapshot_source (snapshot_block <$> api) (snapshot_block <$> durable);
  match source with FromApi => api | FromDurable => durable end.

Definition current_rate_spread (active_episode : option RateSignalEpisode)
    (projection : ProjectedVaultView) (strategy : ValidatedStrategyConfig)
    (vault : ValidatedVaultConfig) : result CurrentStateSourceError Z :=
  match active_episode with
  | None =>
      Ok (rate_spread ((fun market => strategy_value market (sg_objective strategy))
                       <$> omap (fun market => pw_markets projection !! market)
                             (set_elements (strategy_market_ids vault))))
  | Some episode =>
      let markets := match re_objective_branch episode with
                     | Portfolio => re_evaluation_markets episode
                     | Controllable => re_controllable_markets episode
                     end in
      ok_or (complete_strategy_spread markets (pw_markets projection) (sg_objective strategy))
        (Reconciliation.FailedAt "reconciliation_rate_market")
  end.

Definition classify_snapshot_error (error : SnapshotError) : CurrentStateSourceError :=
  match error with
  | SnMulticall (McProvider error) =>
      if is_transient_outage error
      then Reconciliation.ProviderOutageAt "exact_snapshot_provider"
      else Reconciliation.RetryableAt "exact_snapshot_provider"
  | SnMulticall (CursorNotAtHead | Snapshot.ContextChanged) => ContextNotReady
  | _ => Reconciliation.FailedAt "exact_snapshot"
  end.

Definition classify_idle_ledger_error (error : IdleLedgerServiceError) : CurrentStateSourceError :=
  match error with
  | IlProvider error =>
      if is_transient_outage error
      then Reconciliation.ProviderOutageAt "idle_ledger_provider"
      else Reconciliation.RetryableAt "idle_ledger_provider"
  | IlStorage => Reconciliation.FatalAt "idle_ledger_storage"
  | _ => Reconciliation.FailedAt "idle_ledger_replay"
  end.

(** The deposit, exit and source constraints of a projection. *)
Definition constraints_met (projection : ProjectedVaultView) : bool :=
  pw_deposit_headroom_satisfied projection && pw_atomic_exit_coverage_satisfied projection
  && pw_source_constraints_satisfied projection.

Section CurrentStateSource.
Context `{HR : SourceReads} `{HK : Keccak} `{HA : AbiParams} `{HC : AbiCaps} `{HS : SnapshotJson}.
Context `{HE : EventAbi} `{HB : AdminAbi}.
Context (config : ValidatedConfig) (identities : RuntimeIdentities).
Context (own_vault : VaultAddress) (api : ApiDataStore).

Let chain_id := vc_chain_id (ac_chain (vg_app config)).
Let mode := vs_mode (ac_snapshot (vg_app config)).

(** A storage call whose failure is fatal at the stage. *)
Definition cs_query {A} (stage : string) (f : JsonState -> result StorageError A)
    : io CurrentStateSourceError A :=
  from_storage (fun _ => Reconciliation.FatalAt stage) (Conformance.query f).
Definition cs_load {A} (stage : string) (f : JsonState -> A) : io CurrentStateSourceError A :=
  cs_query stage (fun s => Ok (f s)).
Definition cs_store (stage : string) (command : StorageCommand)
    : io CurrentStateSourceError unit :=
  from_storage (fun _ => Reconciliation.FatalAt stage) (call command).
Definition cs_lift {E A} (error : CurrentStateSourceError) (c : result E A)
    : io CurrentStateSourceError A :=
  io_lift (fun _ => error) c.
Definition cs_some {A} (o : option A) : io CurrentStateSourceError A :=
  io_lift id (ok_or o ContextNotReady).

Definition configured_vault : result CurrentStateSourceError ValidatedVaultConfig :=
  ok_or (find (fun vault => vv_address vault =? own_vault) (ac_vaults (vg_app config)))
    (Reconciliation.FailedAt "configured_vault").

Definition cs_event_sources (error : CurrentStateSourceError)
    : io CurrentStateSourceError EventSourceRegistry :=
  cs_lift error (from_config config).

(** The spread, or the score of the top-K strategy, and whether a plan is
    needed; the memory of the top-K strategy becomes durable. *)
Definition current_strategy_state (vault : ValidatedVaultConfig) (snapshot : ExactVaultSnapshot)
    (projection : ProjectedVaultView) (active_episode : option RateSignalEpisode)
    : io CurrentStateSourceError (Z * bool) :=
  let strategy := ac_strategy (vg_app config) in
  if negb (bool_decide (vv_strategy vault = TopKApyDiversified)) then
    spread ← io_lift id (current_rate_spread active_episode projection strategy vault);
    mret (spread, convergence_spread strategy <? spread)
  else
    memory ← cs_load "top_k_memory_load" (fun s => load_top_k_apy_memory s (vv_address vault));
    funding ← cs_lift (Reconciliation.FailedAt "top_k_funding")
                (verified_deployable_capital snapshot vault);
    observation ← cs_lift (Reconciliation.FailedAt "top_k_target")
      (observe_top_k_target snapshot projection vault (sg_top_k_apy strategy) memory
         (td_total_assets funding));
    let score := from_option tt_current_score_wad 0 (ob_target observation) in
    let needs_plan := (vv_minimum_action_assets vault <=? td_total_assets funding)
                      || (vt_target_score_wad (sg_top_k_apy strategy) <? score) in
    _ ← cs_store "top_k_memory_persist"
          (PersistTopKApyMemory (vv_address vault) (ob_next_memory observation)
             (blk_timestamp (pw_head projection)));
    mret (score, needs_plan).

(** A snapshot of this vault and configuration whose block is canonical. *)
Definition validate_atomic_snapshot_candidate (snapshot : option ExactVaultSnapshot)
    (vault : ValidatedVaultConfig) (minimum_block : Z) (cursor : BlockRef)
    : io CurrentStateSourceError (option ExactVaultSnapshot) :=
  match snapshot with
  | None => mret None
  | Some snapshot =>
      let context := ev_context snapshot in
      if negb (atomic_reconciliation_snapshot_is_covered (ctx_block context) cursor minimum_block)
         || negb (atomic_snapshot_metadata_matches (ctx_chain_id context)
                    (ctx_static_config_revision context) (pv_vault (ev_parent snapshot))
                    (pv_asset (ev_parent snapshot)) chain_id (vg_revision config)
                    (vv_address vault) (vv_asset vault))
      then mret None
      else
        canonical ← cs_load "snapshot_header_load" (fun s =>
          load_canonical_block s chain_id (blk_number (ctx_block context)));
        if negb (bool_decide (canonical = Some (ctx_block context)))
           || negb (bool_decide (hash_exact_snapshot snapshot = Some (ev_snapshot_hash snapshot)))
           || negb (is_ok (validate_snapshot_identities identities snapshot))
        then mret None
        else mret (Some snapshot)
  end.

Fixpoint any_log_affects (sources : EventSourceRegistry) (candidate : ExactVaultSnapshot)
    (topology : TopologyIndex) (logs : list CanonicalLogRecord)
    : io CurrentStateSourceError bool :=
  match logs with
  | [] => mret false
  | log :: logs =>
      affects ← cs_lift (Reconciliation.FatalAt "canonical_log_decode")
        (canonical_log_affects_candidate sources candidate topology log);
      if (affects : bool) then mret true else any_log_affects sources candidate topology logs
  end.

Definition relevant_event_between (sources : EventSourceRegistry) (candidate : ExactVaultSnapshot)
    (topology : TopologyIndex) (from_exclusive to_inclusive : Z)
    : io CurrentStateSourceError bool :=
  if to_inclusive <=? from_exclusive then mret false
  else
    logs ← cs_load "canonical_log_load" (fun s =>
      load_canonical_logs s chain_id (saturating_add U64_MAX from_exclusive 1) to_inclusive);
    any_log_affects sources candidate topology logs.

Definition publication_mismatch (vault : ValidatedVaultConfig) (publication : ApiStatePublication)
    (cursor : BlockRef) : bool :=
  let snapshot := ap_snapshot publication in
  let rates := ap_rates publication in
  negb (atomic_recovery_projection_is_covered (snapshot_block snapshot)
          (ap_projection_block publication) cursor)
  || negb (rv_vault rates =? vv_address vault)
  || negb (rv_snapshot_hash rates =? ev_snapshot_hash snapshot)
  || negb (bool_decide (rv_block rates = ap_projection_block publication)).

Definition topology_mismatch (vault : ValidatedVaultConfig) (snapshot : ExactVaultSnapshot)
    (projection_block : BlockRef) (persisted : TopologyRevision) (revision : B256)
    (canonical_topology_block : option BlockRef) : bool :=
  negb (ti_vault (tr_topology persisted) =? vv_address vault)
  || (blk_number projection_block <? blk_number (tr_block persisted))
  || negb (bool_decide (canonical_topology_block = Some (tr_block persisted)))
  || negb (revision =? ctx_dynamic_topology_revision (ev_context snapshot)).

(** The published pair, proved free of relevant events up to the cursor. *)
Definition recover_from_publication (vault : ValidatedVaultConfig) (cursor : BlockRef)
    (publication : ApiStatePublication)
    : io CurrentStateSourceError (ExactVaultSnapshot * ProjectedVaultView) :=
  let projection_block := ap_projection_block publication in
  if publication_mismatch vault publication cursor then io_err ContextNotReady
  else
    canonical_projection ← cs_load "projection_header_load" (fun s =>
      load_canonical_block s chain_id (blk_number projection_block));
    if negb (bool_decide (canonical_projection = Some projection_block))
    then io_err ContextNotReady
    else
      candidate ← validate_atomic_snapshot_candidate (Some (ap_snapshot publication)) vault 0
                    cursor;
      snapshot ← cs_some candidate;
      found ← cs_load "topology_load" (fun s =>
        load_topology_revision s (vv_address vault) (blk_number projection_block));
      persisted ← cs_some found;
      topology_revision ← cs_lift (Reconciliation.FailedAt "topology_revision")
                            (revision (tr_topology persisted));
      canonical_topology_block ← cs_load "topology_header_load" (fun s =>
        load_canonical_block s chain_id (blk_number (tr_block persisted)));
      if topology_mismatch vault snapshot projection_block persisted topology_revision
           canonical_topology_block
      then io_err ContextNotReady
      else
        sources ← cs_event_sources (Reconciliation.FatalAt "event_source_registry");
        affected ← relevant_event_between sources snapshot (tr_topology persisted)
                     (blk_number projection_block) (blk_number cursor);
        if (affected : bool) then io_err ContextNotReady
        else
          projection ← cs_lift (Reconciliation.FailedAt "projection")
                         (project_snapshot_to_head snapshot cursor vault);
          mret (snapshot, projection).

Definition rebuild_atomic_latest_for_replan (vault : ValidatedVaultConfig) (cursor : BlockRef)
    : io CurrentStateSourceError (ExactVaultSnapshot * ProjectedVaultView) :=
  match validated_state api (vv_address vault) with
  | Some publication => recover_from_publication vault cursor publication
  | None =>
      durable ← cs_load "latest_snapshot_load" (fun s =>
        load_exact_snapshot s (vv_address vault) cursor);
      candidate ← validate_atomic_snapshot_candidate durable vault (blk_number cursor) cursor;
      snapshot ← cs_some candidate;
      projection ← cs_lift (Reconciliation.FailedAt "projection")
                     (project_snapshot_to_head snapshot cursor vault);
      mret (snapshot, projection)
  end.

(** The newer of the published and the durable snapshot. *)
Definition newest_atomic (vault : ValidatedVaultConfig) (minimum : Z)
    : io CurrentStateSourceError (ExactVaultSnapshot * ProjectedVaultView) :=
  found ← cs_load "cursor_load" (fun s => load_cursor s chain_id);
  cursor ← cs_some (cursor ← found; if minimum <=? blk_number cursor then Some cursor else None);
  api_snapshot ← validate_atomic_snapshot_candidate (api_snapshot api (vv_address vault)) vault
                   minimum cursor;
  durable ← cs_load "latest_snapshot_load" (fun s =>
    load_latest_exact_snapshot_in_range s (vv_address vault) minimum (blk_number cursor));
  durable_snapshot ← validate_atomic_snapshot_candidate durable vault minimum cursor;
  snapshot ← cs_some (select_newest_atomic_snapshot api_snapshot durable_snapshot);
  projection ← cs_lift (Reconciliation.FailedAt "projection")
                 (project_snapshot_to_head snapshot (snapshot_block snapshot) vault);
  mret (snapshot, projection).

(** The durable verified locks of the same balance. *)
Definition durable_idle_locks (durable : option ExactVaultSnapshot) (idle_assets : Z)
    : option IdleLockLedgerSnapshot :=
  durable ← durable;
  if ils_verified (ev_idle_locks durable)
     && (pv_idle_assets (ev_parent durable) =? idle_assets)
  then Some (ev_idle_locks durable) else None.

(** The ledger of the balance at a head: fresh when it is empty, else replayed. *)
Definition replayed_ledger (sources : EventSourceRegistry) (vault : ValidatedVaultConfig)
    (head : BlockRef) (idle_assets : Z) : io IdleLedgerServiceError IdleLockLedger :=
  if idle_assets =? 0 then mret (IdleLockLedger_new (vv_address vault) 0)
  else
    lookup ← awaited LedgerLookup source_lookup;
    on_stored (fun s => rebuild_idle_ledger (HR := Build_LedgerReads lookup true (fun _ => true))
                          config sources vault s head idle_assets).

Definition cs_idle_locks (vault : ValidatedVaultConfig) (head : BlockRef)
    (snapshot : ExactVaultSnapshot) : io CurrentStateSourceError IdleLockLedgerSnapshot :=
  let idle_assets := pv_idle_assets (ev_parent snapshot) in
  durable ← cs_load "idle_ledger_checkpoint_load" (fun s =>
    load_exact_snapshot s (vv_address vault) head);
  match durable_idle_locks durable idle_assets with
  | Some locks => mret locks
  | None =>
      ledger ← (if idle_assets =? 0 then mret (IdleLockLedger_new (vv_address vault) 0)
                else
                  sources ← cs_event_sources (Reconciliation.FailedAt "event_source_registry");
                  io_map_err classify_idle_ledger_error
                    (replayed_ledger sources vault head idle_assets));
      cs_lift (Reconciliation.FailedAt "idle_ledger_snapshot") (IdleLocks.snapshot ledger)
  end.

(** The exact read at the cursor. *)
Definition rebuild_pinned (vault : ValidatedVaultConfig) (minimum_block : option Z)
    : io CurrentStateSourceError (ExactVaultSnapshot * ProjectedVaultView) :=
  found ← cs_load "cursor_load" (fun s => load_cursor s chain_id);
  head ← cs_some (head ← found;
                  if from_option (fun minimum => minimum <=? blk_number head) true minimum_block
                  then Some head else None);
  found ← cs_load "topology_load" (fun s =>
    load_topology_revision s (vv_address vault) (blk_number head));
  topology ← cs_some (entry ← found;
                      if bool_decide (tr_block entry = head) then Some entry else None);
  let blueprint := blueprint_of config identities vault (tr_topology topology) head in
  answer ← awaited ExactRead (read_exact_snapshot blueprint);
  snapshot ← io_lift classify_snapshot_error answer;
  idle_locks ← cs_idle_locks vault head snapshot;
  snapshot ← cs_lift (Reconciliation.FailedAt "idle_ledger_bind")
               (bind_idle_lock_ledger snapshot blueprint idle_locks);
  _ ← cs_lift (Reconciliation.FatalAt "snapshot_identity")
        (validate_snapshot_identities identities snapshot);
  projection ← cs_lift (Reconciliation.FailedAt "projection")
                 (project_snapshot_to_head snapshot head vault);
  mret (snapshot, projection).

Definition rebuild_exact_snapshot (minimum_block : option Z)
    : io CurrentStateSourceError (ExactVaultSnapshot * ProjectedVaultView) :=
  vault ← io_lift id configured_vault;
  match mode with
  | AtomicLatest => newest_atomic vault (default 0 minimum_block)
  | PinnedBlock => rebuild_pinned vault minimum_block
  end.

Definition rebuild_latest_for_replan : io CurrentStateSourceError RecoveryStateAssessment :=
  vault ← io_lift id configured_vault;
  found ← cs_load "cursor_load" (fun s => load_cursor s chain_id);
  current ← cs_some found;
  rebuilt ← match mode with
            | AtomicLatest => rebuild_atomic_latest_for_replan vault current
            | PinnedBlock => rebuild_exact_snapshot (Some (blk_number current))
            end;
  let '(snapshot, projection) := rebuilt in
  active_episode ← cs_query "active_episode_load" (fun s =>
    load_active_rate_episode s (vv_address vault) (rg_id (vv_rate_group vault)));
  state ← current_strategy_state vault snapshot projection active_episode;
  _ ← cs_store "recovery_snapshot_persist"
        (PersistSnapshot snapshot (blk_timestamp (snapshot_block snapshot)));
  mret (mkRecoveryStateAssessment snapshot projection state.1 (constraints_met projection)).

(** The episode after the movement of the transaction is confirmed. *)
Definition confirm_movement (conformance : ConformanceReport)
    (context : PendingReconciliationContext)
    : result CurrentStateSourceError (option RateSignalEpisode) :=
  match px_rate_movement context, px_rate_episode context with
  | Some movement, Some episode =>
      if negb (rm_movement_assets movement =? cp_movement_assets conformance)
      then Err (Reconciliation.FailedAt "rate_movement_conformance")
      else
        match rm_state movement with
        | MovementPending =>
            match confirm_pending episode (rm_movement_assets movement) with
            | (episode, Ok _) => Ok (Some episode)
            | (_, Err _) => Err (Reconciliation.FailedAt "rate_episode_confirmation")
            end
        | MovementConfirmed => Ok (Some episode)
        | MovementReleased => Err (Reconciliation.FailedAt "rate_episode_reservation_released")
        end
  | None, None => Ok None
  | _, _ => Err (Reconciliation.FailedAt "rate_reconciliation_pair")
  end.

Definition live_rebuild_current_state (conformance : ConformanceReport)
    : io CurrentStateSourceError CurrentStateAssessment :=
  vault ← io_lift id configured_vault;
  rebuilt ← rebuild_exact_snapshot (Some (cp_block_number conformance));
  let '(snapshot, projection) := rebuilt in
  active_episode ← cs_query "active_episode_load" (fun s =>
    load_active_rate_episode s (vv_address vault) (rg_id (vv_rate_group vault)));
  found ← cs_query "reconciliation_context_load" (fun s =>
    load_pending_reconciliation_context s (cp_transaction_id conformance));
  context ← io_lift id (ok_or found (Reconciliation.FailedAt "reconciliation_context_absent"));
  state ← current_strategy_state vault snapshot projection active_episode;
  confirmed_episode ← io_lift id (confirm_movement conformance context);
  mret (mkCurrentStateAssessment snapshot state.1 (constraints_met projection) state.2
          (bool_decide (px_plan_reason context = CapitalDeployment)) confirmed_episode).

(** [LiveCurrentStateSource] *)
Definition LiveCurrentStateSource : ExactCurrentStateSource := live_rebuild_current_state.
End CurrentStateSource.

(** ** The preflight source *)

Definition top_k_preflight_required (strategy : VaultStrategy) (reason : PlanReason) : bool :=
  bool_decide (strategy = TopKApyDiversified)
  && match reason with CapitalDeployment | TopKApyRebalance => true | _ => false end.

Definition require_unchanged_top_k_priority (published_reason rebuilt_reason : PlanReason)
    : result PreflightSourceError unit :=
  if bool_decide (rebuilt_reason = published_reason) then Ok tt
  else Err FinalPreflight.ContextChanged.

Definition classify_identity_error (error : RuntimeIdentityError) : PreflightSourceError :=
  match error with
  | IdentityProvider category =>
      if category_is_transient_outage category
      then FinalPreflight.ProviderOutageAt "runtime_identity"
      else FinalPreflight.RetryableAt "runtime_identity"
  | IdentityChainMismatch => FinalPreflight.FatalAt "runtime_identity"
  | IdentityConfiguration _ | IdentityRuntime _ => VaultFatalAt "runtime_identity"
  end.

Definition classify_topology_error (error : StateServiceError) : PreflightSourceError :=
  match error with
  | SsStorage => FinalPreflight.FatalAt "topology_replay_storage"
  | _ => VaultFatalAt "topology_replay"
  end.

Definition classify_preflight_snapshot_error (error : SnapshotError) : PreflightSourceError :=
  match error with
  | SnMulticall (McProvider error) =>
      if is_transient_outage error
      then FinalPreflight.ProviderOutageAt "exact_snapshot_provider"
      else FinalPreflight.RetryableAt "exact_snapshot_provider"
  | SnMulticall (Snapshot.ContextChanged | ContextMismatch | CursorNotAtHead) =>
      FinalPreflight.ContextChanged
  | SnMulticall (AuthoritativeCallFailed _) =>
      FinalPreflight.RetryableAt "exact_snapshot_authoritative_call"
  | _ => VaultFatalAt "exact_snapshot"
  end.

Definition classify_preflight_ledger_error (error : IdleLedgerServiceError)
    : PreflightSourceError :=
  match error with
  | IlStorage => FinalPreflight.FatalAt "idle_ledger_replay_storage"
  | IlProvider error =>
      if is_transient_outage error
      then FinalPreflight.ProviderOutageAt "idle_ledger_replay_provider"
      else FinalPreflight.RetryableAt "idle_ledger_replay_provider"
  | TransactionIdentity => FinalPreflight.RetryableAt "idle_ledger_replay_provider"
  | IlEvent _ | IlLedger _ | IlArithmetic | EndBalanceMismatch =>
      VaultFatalAt "idle_ledger_replay"
  end.

(** What the plan was built on. *)
Record PreflightReadSet : Type := mkPreflightReadSet {
  rd_head : BlockRef;
  rd_snapshot : ExactVaultSnapshot;
  rd_topology : TopologyIndex;
}.

Section Scenario.
Context `{HK : Keccak} `{HA : AbiParams}.

(** The spread of the episode's branch does not worsen and improves enough. *)
Definition validate_rate_scenario (projection : ProjectedVaultView) (config : ValidatedConfig)
    (episode : RateSignalEpisode) (state : SimulationState) : result PreflightSourceError unit :=
  let strategy := ac_strategy (vg_app config) in
  let spread stage markets states :=
    ok_or (complete_strategy_spread markets states (sg_objective strategy))
      (FinalPreflight.FatalAt stage) in
  before_portfolio ← spread "scenario_portfolio_market"%string (re_evaluation_markets episode)
                       (pw_markets projection);
  before_controllable ← spread "scenario_controllable_market"%string
                          (re_controllable_markets episode) (pw_markets projection);
  after_portfolio ← spread "scenario_post_portfolio_market"%string (re_evaluation_markets episode)
                      (ss_markets state);
  after_controllable ← spread "scenario_post_controllable_market"%string
                         (re_controllable_markets episode) (ss_markets state);
  let '(before, after, improvement) :=
    match re_objective_branch episode with
    | Portfolio => (before_portfolio, after_portfolio, minimum_improvement strategy true)
    | Controllable => (before_controllable, after_controllable, minimum_improvement strategy false)
    end in
  let maximum_allowed :=
    default U256_MAX (checked_add U256_MAX before (portfolio_spread_tolerance strategy)) in
  if (maximum_allowed <? after) || (saturating_sub before after <? improvement)
  then Err SourceFailed else Ok tt.

Definition validate_scenario (snapshot : ExactVaultSnapshot) (projection : ProjectedVaultView)
    (vault : ValidatedVaultConfig) (config : ValidatedConfig) (reason : PlanReason)
    (episode : option RateSignalEpisode) (actions : list V2Action)
    : result PreflightSourceError unit :=
  let failed {A} stage (c : result SimulationError A) :=
    map_err (fun _ => FinalPreflight.FailedAt stage) c in
  state ← failed "scenario_simulation"%string (simulate_actions snapshot projection vault actions);
  _ ← failed "scenario_service_constraints"%string
        (validate_service_constraints state snapshot vault);
  if vv_maximum_immediate_rebalance_loss_assets vault <? ss_immediate_loss_assets state
  then Err (FinalPreflight.FailedAt "scenario_immediate_loss")
  else
    _ ← (if bool_decide (reason = RateRebalance) then
           episode ← ok_or episode SourceFailed;
           validate_rate_scenario projection config episode state
         else Ok tt);
    horizon ← ok_or (checked_add U64_MAX (blk_timestamp (pw_head projection))
                       (sg_benefit_horizon_seconds (ac_strategy (vg_app config)))) SourceFailed;
    baseline ← failed "scenario_terminal_baseline"%string
      (no_plan_terminal_existing_shareholder_assets snapshot vault projection horizon);
    planned ← failed "scenario_terminal_planned"%string
      (terminal_existing_shareholder_assets state snapshot projection horizon);
    match checked_add U256_MAX planned (vv_maximum_terminal_value_sacrifice_assets vault) with
    | Some allowed =>
        if allowed <? baseline then Err (FinalPreflight.FailedAt "scenario_terminal_guard")
        else Ok tt
    | None => Err (FinalPreflight.FailedAt "scenario_terminal_guard")
    end.
End Scenario.

Section PreflightSource.
Context `{HR : SourceReads} `{HK : Keccak} `{HA : AbiParams} `{HC : AbiCaps} `{HS : SnapshotJson}.
Context `{HE : EventAbi} `{HB : AdminAbi} `{HV : VaultAbi} `{HJ : PlanJson}.
Context (config : ValidatedConfig) (identities : RuntimeIdentities).
Context (own_vault : VaultAddress) (published_reason : PlanReason) (api : ApiDataStore).
(** The provider's readiness when the gate asks for it. *)
Context (provider_ready : bool).

Let chain_id := vc_chain_id (ac_chain (vg_app config)).
Let is_pinned := FinalPreflight.pinned config.

Definition ps_query {A} (stage : string) (f : JsonState -> result StorageError A)
    : io PreflightSourceError A :=
  from_storage (fun _ => FinalPreflight.FatalAt stage) (Conformance.query f).
Definition ps_load {A} (stage : string) (f : JsonState -> A) : io PreflightSourceError A :=
  ps_query stage (fun s => Ok (f s)).
Definition ps_store (stage : string) (command : StorageCommand) : io PreflightSourceError unit :=
  from_storage (fun _ => FinalPreflight.FatalAt stage) (call command).
Definition ps_lift {E A} (error : PreflightSourceError) (c : result E A)
    : io PreflightSourceError A :=
  io_lift (fun _ => error) c.

Definition live_event_cursor : io PreflightSourceError BlockRef :=
  found ← ps_load "event_cursor_load" (fun s => load_cursor s chain_id);
  io_lift id (ok_or found SourceFailed).

Definition ps_relevant_event_between (sources : EventSourceRegistry)
    (candidate : ExactVaultSnapshot) (topology : TopologyIndex) (from_exclusive to_inclusive : Z)
    : io PreflightSourceError bool :=
  if to_inclusive <=? from_exclusive then mret false
  else
    logs ← ps_load "canonical_log_load" (fun s =>
      load_canonical_logs s chain_id (saturating_add U64_MAX from_exclusive 1) to_inclusive);
    ps_lift (FinalPreflight.FatalAt "canonical_log_decode")
      (canonical_logs_affect_candidate sources candidate topology logs).

(** The proxies in the vault's scope still point to the pinned code. *)
Definition verify_links (source_call : SourceCall) (vault : ValidatedVaultConfig)
    (snapshot : option ExactVaultSnapshot) : io PreflightSourceError unit :=
  code ← awaited source_call (source_code source_call);
  io_lift classify_identity_error
    (verify_proxy_links_for_vault (HC := code) identities vault snapshot).

(** The published snapshot, or an exact read. *)
Definition read_base (vault : ValidatedVaultConfig) (topology : TopologyIndex)
    (replay_head : BlockRef) : io PreflightSourceError ExactVaultSnapshot :=
  if is_pinned then
    answer ← awaited ExactRead
      (read_exact_snapshot (blueprint_of config identities vault topology replay_head));
    io_lift classify_preflight_snapshot_error answer
  else
    io_lift id (ok_or (api_snapshot api (vv_address vault))
      (FinalPreflight.RetryableAt "latest_snapshot_unavailable")).

(** A published snapshot is canonical and current up to the replay head. *)
Definition require_current_base (sources : EventSourceRegistry) (topology : TopologyIndex)
    (replay_head : BlockRef) (topology_revision : B256) (snapshot : ExactVaultSnapshot)
    : io PreflightSourceError unit :=
  if is_pinned then mret tt
  else
    canonical_snapshot ← ps_load "snapshot_header_load" (fun s =>
      load_canonical_block s chain_id (blk_number (snapshot_block snapshot)));
    if (blk_number replay_head <? blk_number (snapshot_block snapshot))
       || negb (bool_decide (canonical_snapshot = Some (snapshot_block snapshot)))
       || negb (ctx_static_config_revision (ev_context snapshot) =? vg_revision config)
       || negb (ctx_dynamic_topology_revision (ev_context snapshot) =? topology_revision)
    then io_err FinalPreflight.ContextChanged
    else
      affected ← ps_relevant_event_between sources snapshot topology
                   (blk_number (snapshot_block snapshot)) (blk_number replay_head);
      if (affected : bool) then io_err FinalPreflight.ContextChanged else mret tt.

Definition ps_idle_locks (vault : ValidatedVaultConfig) (sources : EventSourceRegistry)
    (snapshot : ExactVaultSnapshot) : io PreflightSourceError IdleLockLedgerSnapshot :=
  let idle_assets := pv_idle_assets (ev_parent snapshot) in
  durable ← ps_load "idle_ledger_checkpoint_load" (fun s =>
    load_exact_snapshot s (vv_address vault) (snapshot_block snapshot));
  match durable_idle_locks durable idle_assets with
  | Some locks => mret locks
  | None =>
      ledger ← io_map_err classify_preflight_ledger_error
        (replayed_ledger config sources vault (snapshot_block snapshot) idle_assets);
      ps_lift (FinalPreflight.FailedAt "idle_ledger_snapshot") (IdleLocks.snapshot ledger)
  end.

(** The episode a rate plan needs is still the current one. *)
Definition episode_stale (episode : option RateSignalEpisode) (topology_revision : B256)
    (replay_head : BlockRef) : bool :=
  match episode with
  | Some episode =>
      negb (re_config_revision episode =? vg_revision config)
      || negb (re_topology_revision episode =? topology_revision)
      || (re_expires_at episode <=? blk_timestamp replay_head)
  | None => false
  end.

(** What a preflight stands on before it plans. *)
Record PreflightBase : Type := mkPreflightBase {
  bs_vault : ValidatedVaultConfig;
  bs_topology : TopologyIndex;
  bs_snapshot : ExactVaultSnapshot;
  bs_scenarios : Scenarios;
  bs_episode : option RateSignalEpisode;
}.

Definition establish_base (head : BlockRef) (scenarios : Scenarios)
    : io PreflightSourceError PreflightBase :=
  vault ← io_lift id (ok_or (find (fun vault => vv_address vault =? own_vault)
    (ac_vaults (vg_app config))) (FinalPreflight.FailedAt "configured_vault"));
  _ ← verify_links LinksBefore vault None;
  sources ← ps_lift (FinalPreflight.FatalAt "event_source_registry") (from_config config);
  replay_head ← (if is_pinned then mret head else live_event_cursor);
  replayed ← ps_load "topology_replay_storage" (fun s =>
    replay_topology_through config sources s vault replay_head);
  topology ← io_lift classify_topology_error replayed;
  active_episode ← ps_query "active_episode_load" (fun s =>
    load_active_rate_episode s (vv_address vault) (rg_id (vv_rate_group vault)));
  episode ← io_lift id (if bool_decide (published_reason = RateRebalance)
                        then episode ← ok_or active_episode SourceFailed; Ok (Some episode)
                        else Ok None);
  if is_pinned
     && existsb (fun block => negb (bool_decide (block = head))) (scenario_heads scenarios)
  then io_err FinalPreflight.ContextChanged
  else
    base ← read_base vault topology replay_head;
    topology_revision ← ps_lift (FinalPreflight.FailedAt "topology_revision") (revision topology);
    _ ← require_current_base sources topology replay_head topology_revision base;
    scenarios ← (if is_pinned then mret scenarios
                 else
                   let '(earliest, _, _) := scenarios in
                   ps_lift (FinalPreflight.FatalAt "inclusion_assumptions")
                     (inclusion_assumptions replay_head
                        (ex_expected_inclusion_opportunities (ac_execution (vg_app config)))
                        (ex_maximum_inclusion_opportunities (ac_execution (vg_app config)))
                        (ia_max_fee_per_gas earliest)));
    if episode_stale episode topology_revision replay_head then io_err SourceFailed
    else
      idle_locks ← ps_idle_locks vault sources base;
      snapshot ← ps_lift (FinalPreflight.FailedAt "idle_ledger_bind")
        (bind_idle_lock_ledger base (blueprint_of config identities vault topology replay_head)
           idle_locks);
      _ ← verify_links LinksAfter vault (Some snapshot);
      _ ← ps_lift (FinalPreflight.FatalAt "snapshot_identity")
            (validate_snapshot_identities identities snapshot);
      if negb (vc_can_allocate (ev_capabilities snapshot))
      then io_err (FinalPreflight.FailedAt "allocation_capability")
      else
        _ ← ps_store "snapshot_persist"
              (PersistSnapshot snapshot (blk_timestamp (snapshot_block base)));
        mret (mkPreflightBase vault topology snapshot scenarios episode).

Definition scenario_projection (vault : ValidatedVaultConfig) (snapshot : ExactVaultSnapshot)
    (scenario : InclusionAssumption) : result PreflightSourceError ProjectedVaultView :=
  map_err (fun _ => FinalPreflight.FailedAt "scenario_projection")
    (project_snapshot_to_head snapshot (ia_canonical_block scenario) vault).

Definition scenario_list (scenarios : Scenarios) : list InclusionAssumption :=
  let '(a, b, c) := scenarios in [a; b; c].

(** The target of the top-K strategy, with what it may deploy. *)
Definition top_k_preflight (head : BlockRef) (base : PreflightBase)
    (expected : ProjectedVaultView)
    : io PreflightSourceError (option (TopKApyTarget * TopKDeployableCapital)) :=
  let vault := bs_vault base in
  if top_k_preflight_required (vv_strategy vault) published_reason then
    memory ← ps_load "top_k_memory_load" (fun s => load_top_k_apy_memory s (vv_address vault));
    funding ← ps_lift (FinalPreflight.FailedAt "top_k_funding")
                (verified_deployable_capital (bs_snapshot base) vault);
    observation ← ps_lift (FinalPreflight.FailedAt "top_k_target")
      (observe_top_k_target (bs_snapshot base) expected vault
         (sg_top_k_apy (ac_strategy (vg_app config))) memory (td_total_assets funding));
    _ ← ps_store "top_k_memory_persist"
          (PersistTopKApyMemory (vv_address vault) (ob_next_memory observation)
             (blk_timestamp head));
    target ← io_lift id (ok_or (ob_target observation) FinalPreflight.ContextChanged);
    mret (Some (target, funding))
  else mret None.

(** The plan of the published reason, rebuilt on the expected projection. *)
Definition semantic_plan (base : PreflightBase) (expected : ProjectedVaultView)
    (top_k : option (TopKApyTarget * TopKDeployableCapital))
    : result PreflightSourceError PreparedRatePlan :=
  let vault := bs_vault base in
  let snapshot := bs_snapshot base in
  let built (c : result PlanningServiceError (option PreparedRatePlan)) :=
    prepared ← map_err (fun _ => FinalPreflight.FailedAt "semantic_plan_build") c;
    ok_or prepared (FinalPreflight.FailedAt "semantic_plan_absent") in
  let top_k_plan :=
    found ← ok_or top_k (FinalPreflight.FailedAt "top_k_target");
    let rebuilt := build_validated_top_k_plan config vault snapshot expected None found.1 found.2 in
    _ ← match rebuilt with
        | Ok (Some prepared) =>
            require_unchanged_top_k_priority published_reason
              (pl_reason (vp_plan (prp_plan prepared)))
        | _ => Ok tt
        end;
    built rebuilt in
  let diversified := bool_decide (vv_strategy vault = TopKApyDiversified) in
  match published_reason with
  | LiquidityMaintenance =>
      built (build_validated_liquidity_plan config vault snapshot expected None)
  | CapitalDeployment =>
      if diversified then top_k_plan
      else built (build_validated_capital_plan config vault snapshot expected None)
  | TopKApyRebalance =>
      if diversified then top_k_plan else Err (FinalPreflight.FailedAt "top_k_strategy")
  | RateRebalance =>
      episode ← ok_or (bs_episode base) SourceFailed;
      built (build_validated_rate_plan config vault snapshot expected None episode)
  | PositionSyncRequired => Err SourceFailed
  end.

Definition rebuild_at_head (head : BlockRef) (scenarios : Scenarios)
    : io PreflightSourceError (PreparedPreflightPlan * PreflightReadSet) :=
  base ← establish_base head scenarios;
  let vault := bs_vault base in
  let snapshot := bs_snapshot base in
  projections ← io_lift id (try_map (scenario_projection vault snapshot)
                              (scenario_list (bs_scenarios base)));
  expected ← io_lift id (ok_or (snd <$> find (fun entry => match ia_kind (fst entry) with
                                                            | ExpectedInclusion => true
                                                            | _ => false
                                                            end)
                                  (zip (scenario_list (bs_scenarios base)) projections))
                           SourceFailed);
  top_k ← top_k_preflight head base expected;
  prepared ← io_lift id (semantic_plan base expected top_k);
  _ ← io_lift id (try_map (fun projection =>
        validate_scenario snapshot projection vault config published_reason (bs_episode base)
          (actions (prp_plan prepared))) projections);
  let '(earliest, _, _) := bs_scenarios base in
  mret (mkPreparedPreflightPlan (prp_plan prepared) (prp_action_projections prepared)
          (bs_scenarios base),
        mkPreflightReadSet (ia_canonical_block earliest) snapshot (bs_topology base)).

Definition live_rebuild_plan (head : BlockRef) (scenarios : Scenarios)
    : io PreflightSourceError (PreparedPreflightPlan * PreflightReadSet) :=
  _ ← (if is_pinned then
         cursor ← live_event_cursor;
         if bool_decide (cursor = head) then mret tt else io_err FinalPreflight.ContextChanged
       else mret tt);
  rebuild_at_head head scenarios.

Definition live_invalidation_queued (context : PreflightReadSet) : io PreflightSourceError bool :=
  if negb provider_ready then mret true
  else
    let expected := rd_head context in
    current ← live_event_cursor;
    if bool_decide (current = expected) then mret false
    else if blk_number current <=? blk_number expected then mret true
    else
      sources ← ps_lift (FinalPreflight.FatalAt "event_source_registry") (from_config config);
      ps_relevant_event_between sources (rd_snapshot context) (rd_topology context)
        (blk_number expected) (blk_number current).

Definition LiveRatePreflightSource : ExactPreflightSource := {|
  event_cursor _ := live_event_cursor;
  rebuild_plan := live_rebuild_plan;
  invalidation_queued := live_invalidation_queued;
|}.
End PreflightSource.
