(* ===== verification/Execution.v ===== *)
(** * The execution service

    Models [LiveExecutionService] of [src/src/runtime/execution_service.rs] with
    the dispositions of [src/src/runtime/failure.rs]: the one worker that signs.
    A tick recovers every durable nonce lane, revalidates the reconciliations
    that are still open, and only then starts at most one fresh transaction per
    signer.  Other tasks act on the durable state, the registry and the API
    cache whenever a storage or provider call is awaited; what the outside
    answers at an occasion is the class [ExecutionEnvironment].  Every fresh
    execution is recorded with what its worker saw, every alert with its
    severity, kind and vault. *)
From Stdlib Require Import ZArith Lia Bool String.
From stdpp Require Import base gmap sets strings list.
From S2P Require Import Prelude.
From S2P Require Import Text.
From S2P Require Import Domain.
From S2P Require Import Config.
From S2P Require Import ConfigValidation.
From S2P Require Import Caps.
From S2P Require Import Projection.
From S2P Require Import Episodes.
From S2P Require Import Simulator.
From S2P Require Import Models.
From S2P Require Import Storage.
From S2P Require Import Actor.
From S2P Require Import Calldata.
From S2P Require Import Firewall.
From S2P Require Import Signer.
From S2P Require Import Planning.
From S2P Require Import PlanService.
From S2P Require Import PlanPriority.
From S2P Require Import Provider.
From S2P Require Import Pending.
From S2P Require Import Logs.
From S2P Require Import Heads.
From S2P Require Import Topology.
From S2P Require Import Conformance.
From S2P Require Import Reconciliation.
From S2P Require Import FinalPreflight.
From S2P Require Import Identity.
From S2P Require Import Snapshot.
From S2P Require Import Controller.
From S2P Require Import ApiStore.
From S2P Require Import EventSources.
From S2P Require Import StateService.
From S2P Require Import Coordinator.
From S2P Require Import LiveSources.
Open Scope Z_scope.

Definition PERSISTENT_PROVIDER_FAILURE_THRESHOLD : Z := 3.

(** ** Failures and what is done about them *)

Inductive VaultQuarantineReason : Type :=
| AdapterUnavailable | IdentityMismatch | AccountingUnavailable.

Inductive SignerQuarantineReason : Type :=
| UnknownNonceConsumption | InvalidReservation | QrProviderDisagreement | DurabilityOrIdentity.

Inductive FailureDisposition : Type :=
| Retry (backoff_seconds : Z)
| RefreshAndReplan
| QuarantineVault (reason : VaultQuarantineReason)
| QuarantineSigner (reason : SignerQuarantineReason)
| RestartWorker
| FatalProcessIntegrity.

Inductive ExecutionServiceError : Type :=
| XsStorage (error : StorageError)
| XsProvider (error : ProviderError)
| XsChain (error : ChainError)
| XsPreflight (error : PreflightError)
| XsReceipt (error : ReceiptTrackingError)
| XsConformance (error : ReceiptReconciliationError)
| XsCurrentState (error : CurrentStateError)
| XsPending (error : PendingPolicyError)
| XsController (error : ControllerError)
| XsPlanning (error : PlanningServiceError)
| XsFeeRange
| DailyGasBudget
| DailyTransactionBudget
| XsRecovery
| PersistentProviderFailure
| WalletFunding
| SignerInfrastructure
| UnknownNonce
| ProviderDisagreement.

Definition disposition (error : ExecutionServiceError) : FailureDisposition :=
  match error with
  | UnknownNonce => QuarantineSigner UnknownNonceConsumption
  | ProviderDisagreement => QuarantineSigner QrProviderDisagreement
  | XsRecovery | XsFeeRange => QuarantineSigner InvalidReservation
  | XsStorage _ | WalletFunding | SignerInfrastructure => QuarantineSigner DurabilityOrIdentity
  | XsPreflight (PfStorage _) | XsPreflight (PfSource (FinalPreflight.FatalAt _))
  | XsPending (PendStorage _) | XsReceipt (TrackStorage _) =>
      QuarantineSigner DurabilityOrIdentity
  | XsPreflight (PfSource (VaultFatalAt _)) => QuarantineVault AccountingUnavailable
  | XsPreflight (PfReservation Poisoned) => FatalProcessIntegrity
  | XsConformance (Conformance.RrProvider _ | RrTransactionUnavailable) => Retry 2
  | XsConformance _ => QuarantineVault AccountingUnavailable
  | XsCurrentState (CsSource (ContextNotReady | Reconciliation.RetryableAt _
                              | Reconciliation.ProviderOutageAt _))
  | XsPreflight (PfSource (FinalPreflight.RetryableAt _ | FinalPreflight.ProviderOutageAt _)) =>
      Retry 2
  | XsPreflight (PfSigning _) | XsPending (PendSigner _) => QuarantineSigner DurabilityOrIdentity
  | XsCurrentState _ | XsPlanning _ => RefreshAndReplan
  | PersistentProviderFailure => Retry 5
  | XsProvider _ | XsChain _ | XsReceipt _ | XsPending _ | DailyGasBudget
  | DailyTransactionBudget => Retry 5
  | XsPreflight _ => RefreshAndReplan
  | XsController _ => RestartWorker
  end.

Definition provider_dependency_failed (error : ExecutionServiceError) : bool :=
  match error with
  | XsProvider error | XsPreflight (PfProvider error) | XsConformance (Conformance.RrProvider error) =>
      is_transient_outage error
  | XsConformance RrTransactionUnavailable => true
  | XsPreflight (PfSource (FinalPreflight.ProviderOutageAt _))
  | XsCurrentState (CsSource (Reconciliation.ProviderOutageAt _)) => true
  | _ => false
  end.

Definition signer_dependency_failed (error : ExecutionServiceError) : bool :=
  match error with
  | SignerInfrastructure | XsPreflight (PfSigning _) | XsPending (PendSigner _) => true
  | _ => false
  end.

Definition contract_identity_failed (error : ExecutionServiceError) : bool :=
  match error with
  | XsPreflight (PfSource (FinalPreflight.FatalAt stage)) =>
      String.eqb stage "runtime_identity" || String.eqb stage "snapshot_identity"
  | XsCurrentState (CsSource (Reconciliation.FatalAt stage)) =>
      String.eqb stage "snapshot_identity"
  | _ => false
  end.

Inductive ReconciliationFailureScope : Type := VaultLocal | ProviderRetry | GlobalScope.

Definition reconciliation_failure_scope (error : ExecutionServiceError)
    : ReconciliationFailureScope :=
  match error with
  | XsStorage _ | XsCurrentState (CsStorage _) | XsPlanning (PsStorage | PsController) =>
      GlobalScope
  | _ =>
      if provider_dependency_failed error then ProviderRetry
      else match disposition error with
           | Retry _ | RefreshAndReplan | QuarantineVault _ => VaultLocal
           | QuarantineSigner _ | RestartWorker | FatalProcessIntegrity => GlobalScope
           end
  end.

Definition reconciliation_attempt_allowed (status : option VaultRuntimeStatus) : bool :=
  negb (from_option (fun status => is_persistent_quarantine (vs_state status)) false status).

Definition reconciliation_may_publish_runtime_state (current_head : option BlockRef)
    (reconciled_head : BlockRef) : bool :=
  match current_head with
  | None => true
  | Some current =>
      (blk_number current <? blk_number reconciled_head) || bool_decide (current = reconciled_head)
  end.

(** Writes of the transaction and of the snapshot hash. *)
Definition vs_set_transaction (v : VaultRuntimeStatus) (id : option TransactionId)
    : VaultRuntimeStatus :=
  mkVaultRuntimeStatus (vs_vault v) (vs_state v) (vs_canonical_head v) (vs_snapshot_hash v)
    (vs_plan_id v) (vs_episode_id v) id (vs_current_rate_spread v) (vs_reason v) (vs_revision v).
Definition vs_set_snapshot_hash (v : VaultRuntimeStatus) (hash : B256) : VaultRuntimeStatus :=
  mkVaultRuntimeStatus (vs_vault v) (vs_state v) (vs_canonical_head v) (Some hash)
    (vs_plan_id v) (vs_episode_id v) (vs_transaction_id v) (vs_current_rate_spread v)
    (vs_reason v) (vs_revision v).

Definition apply_reconciliation_to_runtime_status (reconciled_head : BlockRef)
    (reconciled_snapshot_hash : B256) (desired : RuntimeVaultState) (reason : option string)
    : Update :=
  writing (fun status => vs_set_transaction status None) (fun status =>
    if reconciliation_may_publish_runtime_state (vs_canonical_head status) reconciled_head
    then writing (fun status => vs_set_snapshot_hash status reconciled_snapshot_hash)
           (transition desired reason) status
    else done_update status).

Inductive RecoveryTrigger : Type := TriggerRevert | PostStateMismatch | TriggerCancellation.

Definition current_state_failure_is_recoverable (error : CurrentStateError) : bool :=
  match error with
  | CsAccounting | CsServiceConstraint | CsEpisodeMovement => true
  | CsSource (Reconciliation.FailedAt stage) =>
      negb (String.eqb stage "configured_vault" || String.eqb stage "event_source_registry"
            || String.eqb stage "snapshot_identity")
  | _ => false
  end.

Definition receipt_reconciliation_is_retryable (error : ReceiptReconciliationError) : bool :=
  match error with Conformance.RrProvider _ | RrTransactionUnavailable => true | _ => false end.

Definition confirmed_attempt_was_superseded (current : option (TransactionId * TransactionState))
    (expected : TransactionId) : bool :=
  match current with
  | None => true
  | Some (transaction_id, state) =>
      negb (transaction_id =? expected) || negb (bool_decide (state = Confirmed))
  end.

Definition receipt_reconciliation_is_state_drift (error : ReceiptReconciliationError) : bool :=
  match error with
  | RrConformance (CfStatus | CfVaultEvent | CfAdapterEvent | CfMorphoEvent | CfTransfer) => true
  | _ => false
  end.

(** ** Pure helpers *)

#[global] Instance RpcLog_eq_dec : EqDecision RpcLog.
Proof. solve_decision. Defined.
#[global] Instance RpcReceipt_eq_dec : EqDecision RpcReceipt.
Proof. solve_decision. Defined.
#[global] Instance RpcTransaction_eq_dec : EqDecision RpcTransaction.
Proof. solve_decision. Defined.

Definition map_recovery_provider_view {T}
    (selection : result (OptionalViewSelectionError ProviderError) (option T))
    : result ExecutionServiceError (option T) :=
  map_err (fun error => match error with
                        | Disagreement => ProviderDisagreement
                        | Unavailable error => XsProvider error
                        end) selection.

Definition round_robin_index (start offset length : Z) : option Z :=
  if (length =? 0) || (length <=? offset) then None
  else index ← checked_add U64_MAX start offset; Some (index mod length).

Definition identical_rebroadcast_due (elapsed_opportunities configured_delay : Z) : bool :=
  configured_delay <=? elapsed_opportunities.

Definition required_gas_limit (policy : BlockOpportunityPolicy) : option Z :=
  match policy with EveryCanonicalBlock => None | HyperEvmFastBlocks limit => Some limit end.

Definition x_quantity (field value : string) : result ExecutionServiceError Z :=
  map_err XsProvider (parse_quantity field value).

(** The fields every recovered transaction shares with its row. *)
Definition recovered_fields (pending : UnresolvedTransaction) (expected_hash : B256)
    (expected_to : Address) (transaction : RpcTransaction) (input_matches : bool)
    : result ExecutionServiceError unit :=
  if negb (rx_hash transaction =? expected_hash)
     || negb (rx_from transaction =? un_signer pending)
  then Err XsRecovery
  else
    nonce ← x_quantity "transaction.nonce" (rx_nonce transaction);
    if negb (nonce =? un_nonce pending)
       || negb (bool_decide (rx_to transaction = Some expected_to))
       || negb (rx_value transaction =? 0) || negb input_matches
    then Err XsRecovery
    else Ok tt.

Definition validate_recovered_routine_transaction (vault : ValidatedVaultConfig)
    (pending : UnresolvedTransaction) (transaction : RpcTransaction)
    : result ExecutionServiceError unit :=
  hash ← ok_or (un_transaction_hash pending) XsRecovery;
  recovered_fields pending hash (vv_address vault) transaction
    (bool_decide (rx_input transaction = un_calldata pending)).

Definition validate_recovered_attempt (vault : ValidatedVaultConfig)
    (pending : UnresolvedTransaction) (kind : TransactionAttemptKind)
    (transaction : RpcTransaction) : result ExecutionServiceError unit :=
  match kind with
  | Initial | Replacement => validate_recovered_routine_transaction vault pending transaction
  | Cancellation =>
      hash ← ok_or (un_transaction_hash pending) XsRecovery;
      recovered_fields pending hash (un_signer pending) transaction
        (bool_decide (rx_input transaction = []))
  end.

Definition recovered_transaction_is_included (transaction : RpcTransaction)
    : result ExecutionServiceError bool :=
  match rx_block_hash transaction, rx_block_number transaction, rx_transaction_index transaction
  with
  | Some _, Some _, Some _ => Ok true
  | None, None, None => Ok false
  | _, _, _ => Err XsRecovery
  end.

Definition receipt_matches_canonical_header (receipt : RpcReceipt) (expected_hash : B256)
    (canonical_header : BlockRef) : result ExecutionServiceError bool :=
  if negb (rr_transaction_hash receipt =? expected_hash) then Err XsRecovery
  else
    number ← x_quantity "receipt.block_number" (rr_block_number receipt);
    Ok ((number =? blk_number canonical_header)
        && (rr_block_hash receipt =? blk_hash canonical_header)).

Definition bump_fee (value : Z) : option Z :=
  raised ← checked_add U128_MAX value 7;
  checked_add U128_MAX value (Z.max (raised / 8) 1).

Definition cancellation_fees (current_maximum current_priority configured_maximum : Z)
    : result ExecutionServiceError (Z * Z) :=
  if (configured_maximum <=? current_maximum) || (configured_maximum <=? current_priority)
  then Err XsFeeRange
  else Ok (configured_maximum, configured_maximum).

Definition conformance_report (record : ConformanceRecord) : ConformanceReport :=
  mkConformanceReport (cf_transaction_id record) (cf_transaction_hash record)
    (cf_block_number record) (cf_block_hash record) (cf_action_count record)
    (cf_movement_assets record) (cf_positive_loss_assets record) (cf_report_hash record).

Section Identities.
Context `{HK : Keccak}.

Definition derive_transaction_id (vault : VaultAddress) (head : BlockRef) (nonce : Z)
    : TransactionId :=
  keccak256 (be_bytes 20 vault ++ be_bytes 32 (blk_hash head) ++ be_bytes 8 nonce).

Definition derive_signer_request_id (transaction_id : TransactionId) : B256 :=
  keccak256 (string_bytes "routine-rebalance" ++ be_bytes 32 transaction_id).

Definition decision_purpose (decision : PendingDecision) : string :=
  match decision with
  | Wait => "wait"
  | Replace => "replacement"
  | Cancel MaterialInvalidation => "cancel-material-invalidation"
  | Cancel PendingHorizon => "cancel-pending-horizon"
  | Cancel DirectionReversed => "cancel-direction-reversed"
  | Cancel ServiceConstraint => "cancel-service-constraint"
  | Cancel RewardPolicyExpired => "cancel-reward-expired"
  | Cancel SignerRoleLost => "cancel-role-lost"
  | Cancel ProviderAmbiguity => "cancel-provider-ambiguity"
  | Cancel ExternalIdleLock => "cancel-idle-lock"
  end.

Definition derive_pending_request_id (transaction_id : TransactionId) (decision : PendingDecision)
    (head : BlockRef) : B256 :=
  keccak256 (string_bytes (decision_purpose decision) ++ be_bytes 32 transaction_id
             ++ be_bytes 32 (blk_hash head)).
End Identities.

(** ** The world *)

(** What the worker shares with the other tasks. *)
Record Shared : Type := mkShared {
  sh_storage : JsonState;
  sh_runtime : RuntimeRegistry;
  sh_api : ApiDataStore;
  sh_provider_ready : bool;
}.

(** What the outside answers at an occasion, and what the other tasks do while
    it is awaited. *)
Class ExecutionEnvironment : Type := {
  occasion : Type;
  next_occasion : occasion -> occasion;
  meanwhile : occasion -> Shared -> Shared;
  header_at : occasion -> result ProviderError BlockRef;
  fees_at : occasion -> result ProviderError RpcFeeQuote;
  balance_at : occasion -> Address -> BlockRef -> result ProviderError Z;
  (** The views of the recovery providers, in their order. *)
  nonce_views : occasion -> Address -> list (result ProviderError (option Z));
  transaction_views : occasion -> B256 -> list (result ProviderError (option RpcTransaction));
  receipt_views : occasion -> B256 -> list (result ProviderError (option RpcReceipt));
  header_views : occasion -> Z -> list (result ProviderError (option BlockRef));
  scan_views : occasion -> Address -> Z -> BlockRef
    -> list (result ProviderError (option RpcTransaction));
  signer_at : occasion -> RoutineSigner;
  submitter_at : occasion -> SignedTransactionSubmitter;
  lookup_at : occasion -> TransactionLookupProvider;
  providers_at : occasion -> PreflightProviders;
  clock_at : occasion -> PreflightClock;
  reads_at : occasion -> SourceReads;
  ready_at_gate : occasion -> bool;
  reservations_at : occasion -> ExecutionReservationManager;
}.

Inductive AlertSeverity : Type := P0 | P1 | P2.

Inductive AlertKind : Type :=
| ServiceFailure | CanonicalChainStopped | AlSignerFailure | AllocatorRoleLost
| SignedTransactionAmbiguity | UnexpectedRevert | ReconciliationMismatch
| AlLockAccountingUncertain | RemovedAdapterAssets | AlInternalShareDeficit
| UnsupportedDependency | NoFeasiblePlan | PendingTransactionHorizon | AlPendingDeployment
| RoutineTransaction | RateTargetRestored | ShadowPlan | AlertDeliveryFailure.

(** The start of a fresh execution, and what was shared at that time. *)
Record Started : Type := mkStarted {
  st_vault : VaultAddress;
  st_reason : PlanReason;
  st_plan : PlanId;
  st_seen : Shared;
}.

Record ExecutionWorld `{ExecutionEnvironment} : Type := mkExecutionWorld {
  xw_occasion : occasion;
  xw_shared : Shared;
  xw_submissions : list (Bytes * JsonState);
  xw_consecutive_provider_failures : Z;
  xw_next_vault_index : Z;
  xw_started : list Started;
  xw_alerts : list (AlertSeverity * AlertKind * option VaultAddress);
}.

Section Service.
Context `{HX : ExecutionEnvironment} `{HK : Keccak} `{HA : AbiParams} `{HC : AbiCaps}.
Context `{HJ : PlanJson} `{HV : VaultAbi} `{HE : EventAbi} `{HB : AdminAbi}.
Context `{HS : SnapshotJson} `{HR : ReportJson} `{HT : StateReportJson}.
Context (config : ValidatedConfig) (identities : RuntimeIdentities).

Let chain := ac_chain (vg_app config).
Let chain_id := vc_chain_id chain.
Let execution := ac_execution (vg_app config).
Let vaults := ac_vaults (vg_app config).
Let mode := vn_mode (ac_node (vg_app config)).

Definition xio (A : Type) : Type :=
  ExecutionWorld -> result ExecutionServiceError A * ExecutionWorld.
#[export] Instance xio_ret : MRet xio := fun A a w => (Ok a, w).
#[export] Instance xio_bind : MBind xio := fun A B f c w =>
  match c w with
  | (Ok a, w) => f a w
  | (Err e, w) => (Err e, w)
  end.
Definition xio_err {A} (e : ExecutionServiceError) : xio A := fun w => (Err e, w).
Definition xio_lift {A} (c : result ExecutionServiceError A) : xio A := fun w => (c, w).
(** The answer as a value. *)
Definition xio_try {A} (c : xio A) : xio (result ExecutionServiceError A) := fun w =>
  let '(r, w) := c w in (Ok r, w).
Fixpoint xio_each {A} (f : A -> xio unit) (l : list A) : xio unit :=
  match l with
  | [] => mret tt
  | x :: l => _ ← f x; xio_each f l
  end.
Fixpoint xio_fold {A B} (f : A -> B -> xio A) (a : A) (l : list B) : xio A :=
  match l with
  | [] => mret a
  | x :: l => a ← f a x; xio_fold f a l
  end.

(** A write of the shared state that is not awaited. *)
Definition with_shared (w : ExecutionWorld) (shared : Shared) : ExecutionWorld :=
  mkExecutionWorld _ (xw_occasion w) shared (xw_submissions w)
    (xw_consecutive_provider_failures w) (xw_next_vault_index w) (xw_started w) (xw_alerts w).
Definition with_runtime (w : ExecutionWorld) (runtime : RuntimeRegistry) : ExecutionWorld :=
  with_shared w (mkShared (sh_storage (xw_shared w)) runtime (sh_api (xw_shared w))
                   (sh_provider_ready (xw_shared w))).
Definition with_api (w : ExecutionWorld) (api : ApiDataStore) : ExecutionWorld :=
  with_shared w (mkShared (sh_storage (xw_shared w)) (sh_runtime (xw_shared w)) api
                   (sh_provider_ready (xw_shared w))).

(** An awaited call on the durable state: the computation at this occasion,
    then what the other tasks did. *)
Definition run_io {E A} (convert : E -> ExecutionServiceError) (c : occasion -> io E A) : xio A :=
  fun w =>
    let shared := xw_shared w in
    let '(r, inner) := c (xw_occasion w) (mkWorld (sh_storage shared) (xw_submissions w)) in
    (map_err convert r,
     mkExecutionWorld _ (next_occasion (xw_occasion w))
       (meanwhile (xw_occasion w)
          (mkShared (w_storage inner) (sh_runtime shared) (sh_api shared)
             (sh_provider_ready shared)))
       (w_submissions inner) (xw_consecutive_provider_failures w) (xw_next_vault_index w)
       (xw_started w) (xw_alerts w)).

Definition stored {A} (f : JsonState -> result StorageError A) : xio A :=
  run_io XsStorage (fun _ => Conformance.query f).
Definition loaded {A} (f : JsonState -> A) : xio A := stored (fun s => Ok (f s)).
Definition store (command : StorageCommand) : xio unit :=
  run_io XsStorage (fun _ => call command).
(** A read of the outside. *)
Definition outside {A} (f : occasion -> result ExecutionServiceError A) : xio A :=
  run_io id (fun o => io_lift id (f o)).

Definition shared_read {A} (f : Shared -> A) : xio A := fun w => (Ok (f (xw_shared w)), w).
Definition registry_get (vault : VaultAddress) : xio (option VaultRuntimeStatus) :=
  shared_read (fun s => runtime_get (sh_runtime s) vault).
Definition update (vault : VaultAddress) (f : Update) : xio unit := fun w =>
  let '(r, answer) := runtime_update (sh_runtime (xw_shared w)) vault f in
  (map_err XsController answer, with_runtime w r).
Definition api_write (f : ApiDataStore -> ApiDataStore) : xio unit := fun w =>
  (Ok tt, with_api w (f (sh_api (xw_shared w)))).
Definition emit_alert (severity : AlertSeverity) (kind : AlertKind)
    (vault : option VaultAddress) : xio unit := fun w =>
  (Ok tt, mkExecutionWorld _ (xw_occasion w) (xw_shared w) (xw_submissions w)
            (xw_consecutive_provider_failures w) (xw_next_vault_index w) (xw_started w)
            (xw_alerts w ++ [(severity, kind, vault)])).
Definition set_next_vault_index (index : Z) : xio unit := fun w =>
  (Ok tt, mkExecutionWorld _ (xw_occasion w) (xw_shared w) (xw_submissions w)
            (xw_consecutive_provider_failures w) index (xw_started w) (xw_alerts w)).
Definition set_failures (failures : Z) : xio unit := fun w =>
  (Ok tt, mkExecutionWorld _ (xw_occasion w) (xw_shared w) (xw_submissions w) failures
            (xw_next_vault_index w) (xw_started w) (xw_alerts w)).
Definition record_started (vault : VaultAddress) (reason : PlanReason) (plan : PlanId)
    : xio unit := fun w =>
  (Ok tt, mkExecutionWorld _ (xw_occasion w) (xw_shared w) (xw_submissions w)
            (xw_consecutive_provider_failures w) (xw_next_vault_index w)
            (xw_started w ++ [mkStarted vault reason plan (xw_shared w)]) (xw_alerts w)).

(** The bytes leave the process whatever the provider answers. *)
Definition submit_signed (raw : Bytes) : xio (result ProviderError B256) :=
  run_io id (fun o w =>
    (Ok (submit_signed_bytes (SignedTransactionSubmitter := submitter_at o) raw),
     mkWorld (w_storage w) (w_submissions w ++ [(raw, w_storage w)]))).

Definition configured (vault : VaultAddress) : option ValidatedVaultConfig :=
  find (fun known => vv_address known =? vault) vaults.

(** ** Pauses *)

Definition pause_signer_account (signer : Address) (reason : string) : xio unit :=
  xio_each (fun vault => update (vv_address vault) (transition RvPausedSignerFailure (Some reason)))
    (List.filter (fun vault => vv_signer_address vault =? signer) vaults).

Definition pause_signer (vault : VaultAddress) (reason : string) : xio unit :=
  match configured vault with
  | Some known => pause_signer_account (vv_signer_address known) reason
  | None => update vault (transition RvPausedSignerFailure (Some reason))
  end.

Definition quarantine_detail (reason : SignerQuarantineReason) : string :=
  match reason with
  | UnknownNonceConsumption => "exclusive allocator nonce ownership is ambiguous"
  | InvalidReservation => "durable allocator nonce reservation is internally inconsistent"
  | QrProviderDisagreement => "independent nonce recovery providers disagree"
  | DurabilityOrIdentity => "allocator signing durability or signer identity is unavailable"
  end.

Definition enforce_signer_quarantine (reason : SignerQuarantineReason) : xio unit :=
  xio_each (fun signer => pause_signer_account signer (quarantine_detail reason))
    (set_elements (list_to_set (vv_signer_address <$> vaults))).

(** The states from which a reconciliation failure pauses directly. *)
Definition pauses_directly (state : RuntimeVaultState) : bool :=
  match state with
  | RvCatchingUp | RvRecovery | RvPendingTransaction | RvPausedReconciliationFailure => true
  | _ => false
  end.

Definition pause_reconciliation_failure (vault : VaultAddress) : xio unit :=
  update vault (and_then
    (fun status =>
       if pauses_directly (vs_state status) then done_update status
       else transition RvCatchingUp
              (Some "isolating one vault after reconciliation failure"%string) status)
    (transition RvPausedReconciliationFailure
       (Some "canonical transaction reconciliation failed"%string))).

(** ** Views of the recovery providers *)

Definition consistent_recovery_view {T} `{EqDecision T}
    (views : occasion -> list (result ProviderError (option T))) : xio (option T) :=
  outside (fun o => map_recovery_provider_view (select_consistent_optional_view (views o))).

Definition confirmed_nonce (signer : Address) : xio Z :=
  answer ← xio_try (consistent_recovery_view (fun o => nonce_views o signer));
  _ ← match answer with
      | Err ProviderDisagreement =>
          pause_signer_account signer "confirmed nonce recovery providers disagree"
      | _ => mret tt
      end;
  found ← xio_lift answer;
  xio_lift (ok_or found XsRecovery).

Definition recovery_transaction_by_hash (hash : B256) : xio (option RpcTransaction) :=
  consistent_recovery_view (fun o => transaction_views o hash).
Definition recovery_receipt_by_hash (hash : B256) : xio (option RpcReceipt) :=
  consistent_recovery_view (fun o => receipt_views o hash).
Definition recovery_header_by_number (number : Z) : xio BlockRef :=
  found ← consistent_recovery_view (fun o => header_views o number);
  xio_lift (ok_or found XsRecovery).
Definition recovery_transaction_by_sender_nonce_in_block (signer : Address) (nonce : Z)
    (block : BlockRef) : xio (option RpcTransaction) :=
  consistent_recovery_view (fun o => scan_views o signer nonce block).

(** ** Budgets *)

Definition ensure_daily_gas_budget (now proposed_nonce_lane_cost : Z) : xio unit :=
  confirmed ← stored (fun s => confirmed_gas_spend_since s chain_id (saturating_sub now 86400));
  projected ← xio_lift (ok_or (checked_add U256_MAX confirmed proposed_nonce_lane_cost)
                          DailyGasBudget);
  if ex_maximum_daily_gas_spend_wei execution <? projected then xio_err DailyGasBudget
  else mret tt.

Definition ensure_daily_transaction_budget (signer : Address) (now : Z) : xio unit :=
  count ← loaded (fun s => count_transactions_since s signer (saturating_sub now 86400));
  if sg_maximum_daily_transactions (ac_strategy (vg_app config)) <=? count
  then xio_err DailyTransactionBudget else mret tt.

(** ** Canonical receipts *)

(** One known hash: its receipt, when it is in a canonical block. *)
Definition fetch_receipt (found : option CanonicalReceiptRecord) (hash : B256)
    : xio (option CanonicalReceiptRecord) :=
  answer ← recovery_receipt_by_hash hash;
  match answer with
  | None => mret found
  | Some receipt =>
      match found with
      | Some _ => xio_err XsRecovery
      | None =>
          number ← xio_lift (x_quantity "receipt.block_number" (rr_block_number receipt));
          block ← loaded (fun s => load_canonical_block s chain_id number);
          match block with
          | None => mret found
          | Some block =>
              validated ← xio_lift (map_err XsChain (validate_receipt chain_id block receipt));
              mret (Some (Heads.canonical_receipt chain_id validated))
          end
      end
  end.

Definition canonical_receipt (pending : UnresolvedTransaction)
    : xio (option CanonicalReceiptRecord) :=
  known ← stored (fun s => load_canonical_receipt s chain_id (un_known_transaction_hashes pending));
  match known with
  | Some receipt => mret (Some receipt)
  | None =>
      found ← xio_fold fetch_receipt None (un_known_transaction_hashes pending);
      match found with
      | Some receipt => _ ← store (PersistCanonicalReceipt receipt); mret (Some receipt)
      | None => mret None
      end
  end.

(** ** Recovery from a terminal outcome *)

(** The answer of an awaited call as a value. *)
Definition attempt_io {E A} (c : occasion -> io E A) : xio (result E A) :=
  run_io id (fun o w => let '(r, w) := c o w in (Ok r, w)).

#[local] Instance no_channel : WorkChannel :=
  {| instant := unit; next_instant := id; latest_work _ := ∅ |}.

(** The planning service on what is shared. *)
Definition refresh_plan (vault : ValidatedVaultConfig) (snapshot : ExactVaultSnapshot)
    (projection : ProjectedVaultView) : xio unit := fun w =>
  let shared := xw_shared w in
  let world := mkCoordinatorWorld _ tt (sh_storage shared) (sh_runtime shared) (sh_api shared) ∅ in
  let '(calls, answer) :=
    refresh_priority_plan (HS := world_services (vv_address vault) world)
      (HT := PlanPriority.Build_TopKServices true) config vault snapshot projection None [] in
  let world := service_effects (vv_address vault) world calls in
  (map_err XsPlanning (_ ← answer; Ok tt),
   with_shared w (mkShared (co_storage world) (co_runtime world) (co_api world)
                    (sh_provider_ready shared))).

Definition recovery_alert (trigger : RecoveryTrigger) : AlertKind :=
  match trigger with
  | TriggerRevert | TriggerCancellation => UnexpectedRevert
  | PostStateMismatch => ReconciliationMismatch
  end.

Definition enter_recovery : Update :=
  writing (fun status => vs_set_transaction status None) (fun status =>
    and_then (record_planning None (vs_episode_id status))
      (transition RvRecovery
         (Some "rebuilding exact canonical state after transaction outcome"%string)) status).

Definition recover_terminal_outcome (vault : ValidatedVaultConfig)
    (transaction_id : TransactionId) (head : BlockRef) (trigger : RecoveryTrigger) : xio unit :=
  _ ← api_write (fun s => (clear_plan_through s (vv_address vault) (blk_number head) U64_MAX).1);
  _ ← update (vv_address vault) enter_recovery;
  api ← shared_read sh_api;
  recovered ← run_io (fun e => XsCurrentState (CsSource e)) (fun o =>
    rebuild_latest_for_replan (HR := reads_at o) config identities (vv_address vault) api);
  let snapshot := ra_snapshot recovered in
  _ ← update (vv_address vault)
        (writing (fun status => vs_set_exact status (ctx_block (ev_context snapshot))
                                  (ev_snapshot_hash snapshot) (ra_current_rate_spread recovered)
                                  None)
           (transition (desired_runtime_state mode snapshot true None)
              (runtime_reason mode snapshot true None)));
  _ ← (if vc_can_project (ev_capabilities snapshot) && vc_can_allocate (ev_capabilities snapshot)
       then refresh_plan vault snapshot (ra_projection recovered) else mret tt);
  emit_alert P1 (recovery_alert trigger) (Some (vv_address vault)).

(** ** Reconciliation *)

Definition finish_reconciliation (vault : ValidatedVaultConfig) (report : CurrentStateReport)
    : xio unit :=
  found ← loaded (fun s => load_exact_snapshot s (vv_address vault) (sr_block report));
  snapshot ← xio_lift (ok_or found XsRecovery);
  update (vv_address vault)
    (apply_reconciliation_to_runtime_status (ctx_block (ev_context snapshot))
       (ev_snapshot_hash snapshot) (desired_runtime_state mode snapshot true None)
       (runtime_reason mode snapshot true None)).

Definition reconcile_validated_post_state (vault : ValidatedVaultConfig)
    (transaction_id : TransactionId) (expected_state : TransactionState) (head : BlockRef)
    : xio unit :=
  if negb (requires_reconciliation expected_state) then xio_err XsRecovery
  else
    record ← stored (fun s => load_conformance s transaction_id);
    conformance ← xio_lift (ok_or (conformance_report <$> record) XsRecovery);
    api ← shared_read sh_api;
    answer ← attempt_io (fun o =>
      reconcile_current_state
        (HX := LiveCurrentStateSource (HR := reads_at o) config identities (vv_address vault) api)
        vault conformance (blk_timestamp head));
    match answer with
    | Ok report => finish_reconciliation vault report
    | Err (CsSource ContextNotReady) => mret tt
    | Err ((CsSource (Reconciliation.RetryableAt _ | Reconciliation.ProviderOutageAt _)) as error)
      => xio_err (XsCurrentState error)
    | Err error =>
        if current_state_failure_is_recoverable error then
          _ ← store (FinalizeConformedPostStateFailure transaction_id expected_state
                       (blk_timestamp head));
          recover_terminal_outcome vault transaction_id head PostStateMismatch
        else
          _ ← pause_reconciliation_failure (vv_address vault);
          _ ← emit_alert P0 ReconciliationMismatch (Some (vv_address vault));
          xio_err (XsCurrentState error)
    end.

Definition advance_reconciliation_pending (vault : ValidatedVaultConfig)
    (pending : PendingReconciliationTransaction) : xio unit :=
  if negb (bool_decide (Models.pr_state pending = ReconciliationPending)) then xio_err XsRecovery
  else
    unresolved ← stored (fun s => load_unresolved s (Models.pr_signer pending));
    match unresolved with
    | Some _ => mret tt
    | None =>
        cursor ← loaded (fun s => load_cursor s chain_id);
        head ← xio_lift (ok_or cursor XsRecovery);
        reconcile_validated_post_state vault (Models.pr_transaction_id pending)
          (Models.pr_state pending) head
    end.

(** ** A consumed nonce *)

(** A known hash has a receipt in a canonical block that is not ingested yet. *)
Fixpoint awaits_ingestion (hashes : list B256) : xio bool :=
  match hashes with
  | [] => mret false
  | hash :: hashes =>
      answer ← recovery_receipt_by_hash hash;
      match answer with
      | None => awaits_ingestion hashes
      | Some receipt =>
          number ← xio_lift (x_quantity "receipt.block_number" (rr_block_number receipt));
          header ← recovery_header_by_number number;
          ingesting ← xio_lift (receipt_matches_canonical_header receipt hash header);
          if (ingesting : bool) then mret true else awaits_ingestion hashes
      end
  end.

(** The first block with a transaction of the nonce. *)
Fixpoint scan_blocks (signer : Address) (nonce : Z) (blocks : list BlockRef)
    : xio (option (BlockRef * RpcTransaction)) :=
  match blocks with
  | [] => mret None
  | block :: blocks =>
      found ← recovery_transaction_by_sender_nonce_in_block signer nonce block;
      match found with
      | Some transaction => mret (Some (block, transaction))
      | None => scan_blocks signer nonce blocks
      end
  end.

Definition foreign_transition (pending : UnresolvedTransaction) (block : BlockRef) (hash : B256)
    (updated_at : Z) : TransactionTransition :=
  mkTransactionTransition (un_transaction_id pending) (un_state pending) ForeignNonceConsumed
    (Some hash) None (Some (blk_number block)) (Some (blk_hash block)) updated_at.

Definition classify_consumed_nonce (vault : ValidatedVaultConfig)
    (pending : UnresolvedTransaction) (head : BlockRef) : xio unit :=
  ingesting ← awaits_ingestion (un_known_transaction_hashes pending);
  if (ingesting : bool) then mret tt
  else
    blocks ← stored (fun s =>
      load_canonical_blocks s chain_id (un_created_block pending) (blk_number head));
    scanned ← scan_blocks (un_signer pending) (un_nonce pending) blocks;
    match scanned with
    | Some (block, transaction) =>
        if bool_decide (rx_hash transaction ∈ un_known_transaction_hashes pending) then mret tt
        else
          _ ← store (TransitionTransaction
                (foreign_transition pending block (rx_hash transaction) (blk_timestamp head)));
          _ ← pause_signer (vv_address vault)
                "configured signer nonce was consumed by an unknown transaction";
          _ ← emit_alert P0 SignedTransactionAmbiguity (Some (vv_address vault));
          xio_err UnknownNonce
    | None =>
        _ ← pause_signer (vv_address vault)
              "canonical nonce advanced without an attributable receipt";
        _ ← emit_alert P0 SignedTransactionAmbiguity (Some (vv_address vault));
        xio_err UnknownNonce
    end.

(** ** Signed bytes that own a nonce *)

Definition handle_submission_error (vault : VaultAddress) (error : ProviderError) : xio unit :=
  let stop failure :=
    _ ← pause_signer vault "signer submission requires operator intervention";
    _ ← emit_alert P0 AlSignerFailure (Some vault);
    xio_err failure in
  match rpc_category error with
  | InsufficientFunds => stop WalletFunding
  | InvalidSenderOrEncoding => stop SignerInfrastructure
  | _ => mret tt
  end.

Definition is_already_known (error : ProviderError) : bool :=
  bool_decide (rpc_category error = AlreadyKnown).

Definition mismatched_hash (vault : VaultAddress) : xio unit :=
  _ ← pause_signer vault "provider returned a mismatched signed transaction hash";
  xio_err SignerInfrastructure.

Definition record_broadcast (pending : UnresolvedTransaction) (hash : B256) (head : BlockRef)
    : xio unit :=
  store (RecordAttemptBroadcast (un_transaction_id pending) hash (blk_timestamp head)
           (blk_number head)).

Definition rebroadcast_due (pending : UnresolvedTransaction) (head : BlockRef) : xio bool :=
  elapsed ← stored (fun s => count_execution_opportunities s chain_id
    (default (un_last_attempt_block pending) (un_last_broadcast_block pending))
    (blk_number head) (required_gas_limit (vc_block_opportunity_policy chain)));
  mret (identical_rebroadcast_due elapsed
          (ex_identical_rebroadcast_after_opportunities execution)).

Definition sent_transition (pending : UnresolvedTransaction) (next : TransactionState)
    (hash : B256) (head : BlockRef) : TransactionTransition :=
  mkTransactionTransition (un_transaction_id pending) (un_state pending) next (Some hash)
    (Some (blk_timestamp head)) None None (blk_timestamp head).

(** The signed bytes no provider has; whether the row goes on. *)
Definition resend_signed (vault : ValidatedVaultConfig) (pending : UnresolvedTransaction)
    (head : BlockRef) (expected_hash : B256) : xio bool :=
  account_nonce ← confirmed_nonce (un_signer pending);
  if un_nonce pending <? account_nonce then
    _ ← classify_consumed_nonce vault pending head; mret false
  else if account_nonce <? un_nonce pending then
    _ ← pause_signer (vv_address vault) "canonical signer nonce moved backwards"; mret false
  else
    due ← match un_last_broadcast_block pending with
          | Some _ => rebroadcast_due pending head
          | None => mret true
          end;
    if negb due then mret false
    else
      raw ← xio_lift (ok_or (un_raw_signed_transaction pending) XsRecovery);
      submission ← submit_signed raw;
      _ ← record_broadcast pending expected_hash head;
      match submission with
      | Ok submitted =>
          if submitted =? expected_hash then mret true
          else _ ← mismatched_hash (vv_address vault); mret false
      | Err error =>
          if is_already_known error then mret true
          else _ ← handle_submission_error (vv_address vault) error; mret false
      end.

Definition recover_signed (vault : ValidatedVaultConfig) (pending : UnresolvedTransaction)
    (head : BlockRef) : xio unit :=
  expected_hash ← xio_lift (ok_or (un_transaction_hash pending) XsRecovery);
  receipt ← canonical_receipt pending;
  proceed ← match receipt with
            | Some _ => mret true
            | None =>
                seen ← recovery_transaction_by_hash expected_hash;
                match seen with
                | Some transaction =>
                    _ ← xio_lift (recovered_fields pending expected_hash (vv_address vault)
                          transaction (bool_decide (rx_input transaction = un_calldata pending)));
                    mret true
                | None => resend_signed vault pending head expected_hash
                end
            end;
  if (proceed : bool)
  then store (TransitionTransaction
         (mkTransactionTransition (un_transaction_id pending) Signed Submitted
            (Some expected_hash) (Some (blk_timestamp head)) None None (blk_timestamp head)))
  else mret tt.

(** The kind of a signed attempt, and the state after its submission. *)
Definition signed_attempt_of (pending : UnresolvedTransaction)
    : result ExecutionServiceError (TransactionAttemptKind * TransactionState) :=
  match un_state pending, un_last_attempt_kind pending with
  | ReplacementSigned, Replacement => Ok (Replacement, Replaced)
  | CancellationSigned, Cancellation => Ok (Cancellation, CancellationSubmitted)
  | _, _ => Err XsRecovery
  end.

Definition recover_signed_pending_attempt (vault : ValidatedVaultConfig)
    (pending : UnresolvedTransaction) (head : BlockRef) : xio unit :=
  transaction_hash ← xio_lift (ok_or (un_transaction_hash pending) XsRecovery);
  attempt ← xio_lift (signed_attempt_of pending);
  let '(kind, next_state) := attempt in
  receipt ← canonical_receipt pending;
  transaction_visible ←
    match receipt with
    | Some _ => mret true
    | None =>
        seen ← recovery_transaction_by_hash transaction_hash;
        match seen with
        | Some transaction =>
            _ ← xio_lift (validate_recovered_attempt vault pending kind transaction); mret true
        | None => mret false
        end
    end;
  submission ← (if (transaction_visible : bool) then mret None
                else
                  raw ← xio_lift (ok_or (un_raw_signed_transaction pending) XsRecovery);
                  answer ← submit_signed raw;
                  mret (Some answer));
  _ ← record_broadcast pending transaction_hash head;
  _ ← store (TransitionTransaction (sent_transition pending next_state transaction_hash head));
  match submission with
  | Some (Ok hash) =>
      if hash =? transaction_hash then mret tt else mismatched_hash (vv_address vault)
  | Some (Err error) =>
      if is_already_known error then mret tt
      else handle_submission_error (vv_address vault) error
  | None => mret tt
  end.

Definition reconcile_nonce_or_rebroadcast (vault : ValidatedVaultConfig)
    (pending : UnresolvedTransaction) (head : BlockRef) : xio bool :=
  account_nonce ← confirmed_nonce (un_signer pending);
  if un_nonce pending <? account_nonce then
    _ ← classify_consumed_nonce vault pending head; mret true
  else if account_nonce <? un_nonce pending then
    _ ← pause_signer (vv_address vault) "canonical signer nonce moved backwards"; mret true
  else
    latest_hash ← xio_lift (ok_or (un_transaction_hash pending) XsRecovery);
    seen ← recovery_transaction_by_hash latest_hash;
    match seen with
    | Some transaction =>
        _ ← xio_lift (validate_recovered_routine_transaction vault pending transaction);
        xio_lift (recovered_transaction_is_included transaction)
    | None =>
        due ← rebroadcast_due pending head;
        if negb due then mret false
        else
          raw ← xio_lift (ok_or (un_raw_signed_transaction pending) XsRecovery);
          submission ← submit_signed raw;
          _ ← record_broadcast pending latest_hash head;
          _ ← match submission with
              | Ok hash => if hash =? latest_hash then mret tt
                           else mismatched_hash (vv_address vault)
              | Err error => if is_already_known error then mret tt
                             else handle_submission_error (vv_address vault) error
              end;
          mret true
    end.

(** ** Pending attempts *)

Definition u128 (value : Z) : result ExecutionServiceError Z :=
  ok_or (try_from_u U128_MAX value) XsFeeRange.

Definition validated_pending (vault : ValidatedVaultConfig) (pending : UnresolvedTransaction)
    : result ExecutionServiceError ValidatedPendingTransaction :=
  plan ← ok_or (un_plan pending) XsRecovery;
  original_maximum ← u128 (un_original_max_fee_per_gas pending);
  original_priority ← u128 (un_original_max_priority_fee_per_gas pending);
  original ← map_err (fun _ => XsRecovery)
    (validate_historical_routine_transaction plan
       (mkRoutineTransactionFields chain_id (un_signer pending) (vv_address vault)
          (un_nonce pending) (un_gas_limit pending) original_maximum original_priority 0
          (un_calldata pending)) config vault);
  current_maximum ← u128 (un_current_max_fee_per_gas pending);
  current_priority ← u128 (un_current_max_priority_fee_per_gas pending);
  map_err (fun _ => XsRecovery)
    (from_recovered_attempt (un_transaction_id pending) original current_maximum
       current_priority).

Definition configured_maximum : result ExecutionServiceError Z :=
  u128 (ex_maximum_fee_per_gas_wei execution).

Definition CANCELLATION_GAS_LIMIT : Z := 21000.

Definition attempt_cost (gas_limit max_fee_per_gas : Z) : result ExecutionServiceError Z :=
  ok_or (checked_mul U256_MAX gas_limit max_fee_per_gas) XsFeeRange.

(** One attempt, signed and sent. *)
Definition perform_attempt (pending : UnresolvedTransaction)
    (validated : ValidatedPendingTransaction) (expected_state : TransactionState)
    (decision : PendingDecision) (head : BlockRef) (max_fee_per_gas max_priority_fee_per_gas : Z)
    : xio unit :=
  _ ← run_io XsPending (fun o =>
    execute_pending_attempt (HS := signer_at o) (HB := submitter_at o) execution
      (mkPendingAttemptRequest validated expected_state decision
         (derive_pending_request_id (un_transaction_id pending) decision head) max_fee_per_gas
         max_priority_fee_per_gas CANCELLATION_GAS_LIMIT (blk_timestamp head)
         (blk_number head)));
  mret tt.

Definition cancel_pending_attempt (vault : ValidatedVaultConfig) (pending : UnresolvedTransaction)
    (head : BlockRef) (expected_state : TransactionState) (reason : CancellationReason)
    : xio unit :=
  validated ← xio_lift (validated_pending vault pending);
  maximum ← xio_lift configured_maximum;
  fees ← xio_lift (cancellation_fees (vp_current_max_fee_per_gas validated)
                     (vp_current_max_priority_fee_per_gas validated) maximum);
  cost ← xio_lift (attempt_cost CANCELLATION_GAS_LIMIT fees.1);
  _ ← ensure_daily_gas_budget (blk_timestamp head) cost;
  perform_attempt pending validated expected_state (Cancel reason) head fees.1 fees.2.

Definition recover_orphaned (vault : ValidatedVaultConfig) (pending : UnresolvedTransaction)
    (head : BlockRef) : xio unit :=
  account_nonce ← confirmed_nonce (un_signer pending);
  if un_nonce pending <? account_nonce then
    _ ← classify_consumed_nonce vault pending head; mret tt
  else if account_nonce <? un_nonce pending then
    pause_signer (vv_address vault) "canonical signer nonce moved backwards"
  else cancel_pending_attempt vault pending head Orphaned MaterialInvalidation.

Definition ambiguous_signals : PendingSafetySignals :=
  mkPendingSafetySignals false false false false false true false.

(** The signals an exact snapshot gives about a pending plan. *)
Definition snapshot_signals (vault : ValidatedVaultConfig) (plan : V2Plan)
    (snapshot : ExactVaultSnapshot) : PendingSafetySignals :=
  let context := ev_context snapshot in
  let locks := ev_idle_locks snapshot in
  let plan_block := blk_number (ctx_block (pl_snapshot plan)) in
  mkPendingSafetySignals
    (negb (ctx_static_config_revision context =? pl_config_revision plan)
     || negb (ctx_dynamic_topology_revision context =? pl_topology_revision plan))
    false
    (match project_snapshot_to_head snapshot (ctx_block context) vault with
     | Ok projection => negb (constraints_met projection)
     | Err _ => true
     end)
    (negb (vc_reward_policy_ready (ev_capabilities snapshot)))
    (negb (vc_can_allocate (ev_capabilities snapshot)))
    false
    (negb (ils_unattributed_idle_assets locks =? 0)
     || existsb (fun lock => (plan_block <? il_created_block lock)
                             && negb (il_remaining_assets lock =? 0)) (ils_locks locks)).

Definition with_episode (signals : PendingSafetySignals) (episode : option RateSignalEpisode)
    (episode_id : EpisodeId) (timestamp : Z) : PendingSafetySignals :=
  let set invalidated expired :=
    mkPendingSafetySignals (ps_material_invalidation signals || invalidated)
      (ps_direction_reversed signals) (ps_service_constraint_failed signals)
      (ps_reward_policy_expired signals || expired) (ps_signer_role_lost signals)
      (ps_provider_ambiguous signals) (ps_external_idle_lock_created signals) in
  match episode with
  | Some episode =>
      if re_episode_id episode =? episode_id
      then set false (re_expires_at episode <=? timestamp) else set true false
  | None => set true false
  end.

Definition pending_safety_signals (vault : ValidatedVaultConfig) (plan : V2Plan)
    : xio PendingSafetySignals :=
  found ← shared_read (fun s => api_snapshot (sh_api s) (vv_address vault));
  match found with
  | None => mret ambiguous_signals
  | Some snapshot =>
      if blk_number (ctx_block (ev_context snapshot)) <? blk_number (ctx_block (pl_snapshot plan))
      then mret ambiguous_signals
      else
        let signals := snapshot_signals vault plan snapshot in
        match pl_episode_id plan with
        | None => mret signals
        | Some episode_id =>
            episode ← stored (fun s => load_active_rate_episode s (vv_address vault)
                                         (rg_id (vv_rate_group vault)));
            mret (with_episode signals episode episode_id
                    (ctx_evm_timestamp (ev_context snapshot)))
        end
  end.

(** The decision that is carried out, with its fees: a replacement whose fees
    would reach the ceiling becomes a cancellation. *)
Definition attempt_fees (decision : PendingDecision) (current_maximum current_priority maximum : Z)
    : result ExecutionServiceError (PendingDecision * (Z * Z)) :=
  let cancelled reason :=
    fees ← cancellation_fees current_maximum current_priority maximum;
    Ok (Cancel reason, fees) in
  match decision with
  | Replace =>
      match bump_fee current_maximum, bump_fee current_priority with
      | Some maximum_fee, Some priority_fee =>
          if (maximum_fee <? maximum) && (priority_fee <=? maximum_fee)
          then Ok (Replace, (maximum_fee, priority_fee)) else cancelled PendingHorizon
      | _, _ => cancelled PendingHorizon
      end
  | Cancel reason => cancelled reason
  | Wait => Ok (Wait, (0, 0))
  end.

Definition proposed_cost (decision : PendingDecision) (gas_limit current_maximum maximum_fee : Z)
    : result ExecutionServiceError Z :=
  match decision with
  | Cancel _ =>
      original_cost ← attempt_cost gas_limit current_maximum;
      cancellation_cost ← attempt_cost CANCELLATION_GAS_LIMIT maximum_fee;
      Ok (Z.max original_cost cancellation_cost)
  | Replace | Wait => attempt_cost gas_limit maximum_fee
  end.

Definition manage_pending (vault : ValidatedVaultConfig) (pending : UnresolvedTransaction)
    (head : BlockRef) : xio unit :=
  plan ← xio_lift (ok_or (un_plan pending) XsRecovery);
  validated ← xio_lift (validated_pending vault pending);
  let opportunities to :=
    stored (fun s => count_execution_opportunities s chain_id (un_created_block pending) to
                       (required_gas_limit (vc_block_opportunity_policy chain))) in
  current ← opportunities (blk_number head);
  last_attempt ← opportunities (un_last_attempt_block pending);
  touched ← xio_lift (map_err XsPending (from_plan plan vault));
  signals ← pending_safety_signals vault plan;
  decision ← xio_lift (map_err XsPending
    (assess_pending (mkPendingClock (pl_reason plan) 0 last_attempt touched) current signals
       execution));
  if bool_decide (decision = Wait) then mret tt
  else
    maximum ← xio_lift configured_maximum;
    let current_maximum := vp_current_max_fee_per_gas validated in
    attempt ← xio_lift (attempt_fees decision current_maximum
                          (vp_current_max_priority_fee_per_gas validated) maximum);
    let '(decision, fees) := attempt in
    cost ← xio_lift (proposed_cost decision (un_gas_limit pending) current_maximum fees.1);
    _ ← ensure_daily_gas_budget (blk_timestamp head) cost;
    perform_attempt pending validated (un_state pending) decision head fees.1 fees.2.

(** ** One durable lane *)

(** A row with a receipt in a canonical block. *)
Definition settle_receipt (vault : ValidatedVaultConfig) (pending : UnresolvedTransaction)
    (receipt : CanonicalReceiptRecord) (head : BlockRef) : xio unit :=
  next ← xio_lift (map_err XsReceipt (canonical_receipt_outcome pending receipt));
  _ ← match next with
      | Reverted => recover_terminal_outcome vault (un_transaction_id pending) head TriggerRevert
      | Cancelled =>
          recover_terminal_outcome vault (un_transaction_id pending) head TriggerCancellation
      | _ => mret tt
      end;
  run_io XsReceipt (fun _ =>
    persist_canonical_receipt_outcome pending receipt next (blk_timestamp head)).

Definition advance_sent (vault : ValidatedVaultConfig) (pending : UnresolvedTransaction)
    (head : BlockRef) : xio unit :=
  receipt ← canonical_receipt pending;
  match receipt with
  | Some receipt => settle_receipt vault pending receipt head
  | None =>
      if bool_decide (un_state pending = Orphaned) then recover_orphaned vault pending head
      else
        handled ← reconcile_nonce_or_rebroadcast vault pending head;
        if (handled : bool) then mret tt
        else match un_state pending with
             | Submitted | Replaced => manage_pending vault pending head
             | _ => mret tt
             end
  end.

Definition advance_included (pending : UnresolvedTransaction) (head : BlockRef) : xio unit :=
  number ← xio_lift (ok_or (un_included_block pending) XsRecovery);
  block ← loaded (fun s => load_canonical_block s chain_id number);
  included ← xio_lift (ok_or
    (block ← block;
     if bool_decide (Some (blk_hash block) = un_included_block_hash pending) then Some block
     else None) XsRecovery);
  _ ← run_io XsReceipt (fun _ =>
        confirm_canonical_inclusion (un_transaction_id pending) chain_id included head
          (ex_receipt_confirmation_evm_blocks execution) (blk_timestamp head));
  mret tt.

(** A receipt that contradicts the plan is planned over; any other
    inconsistency stops the vault. *)
Definition conformance_failed (vault : ValidatedVaultConfig) (pending : UnresolvedTransaction)
    (head : BlockRef) (error : ReceiptReconciliationError) : xio unit :=
  if receipt_reconciliation_is_retryable error then xio_err (XsConformance error)
  else if receipt_reconciliation_is_state_drift error then
    _ ← recover_terminal_outcome vault (un_transaction_id pending) head PostStateMismatch;
    store (TransitionTransaction
      (mkTransactionTransition (un_transaction_id pending) Confirmed Failed
         (un_transaction_hash pending) None (un_included_block pending)
         (un_included_block_hash pending) (blk_timestamp head)))
  else
    _ ← pause_reconciliation_failure (vv_address vault);
    _ ← emit_alert P0 ReconciliationMismatch (Some (vv_address vault));
    xio_err (XsConformance error).

Definition advance_confirmed (vault : ValidatedVaultConfig) (pending : UnresolvedTransaction)
    (head : BlockRef) : xio unit :=
  answer ← attempt_io (fun o =>
    reconcile_confirmed_transaction (HP := lookup_at o) (un_transaction_id pending) config vault
      (blk_timestamp head));
  match answer with
  | Ok _ => mret tt
  | Err error =>
      superseded ← match error with
                   | RrMissingCanonicalAttempt =>
                       current ← stored (fun s => load_unresolved s (un_signer pending));
                       mret (confirmed_attempt_was_superseded
                               ((fun row => (un_transaction_id row, un_state row)) <$> current)
                               (un_transaction_id pending))
                   | _ => mret false
                   end;
      if (superseded : bool) then mret tt else conformance_failed vault pending head error
  end.

Definition abort_reserved (pending : UnresolvedTransaction) (head : BlockRef) : xio unit :=
  store (TransitionTransaction
    (mkTransactionTransition (un_transaction_id pending) (un_state pending) AbortedBeforeSigning
       None None None None (blk_timestamp head))).

(** The row by its state, when its nonce is not consumed by another one. *)
Definition advance_state (vault : ValidatedVaultConfig) (pending : UnresolvedTransaction)
    (head : BlockRef) : xio unit :=
  match un_state pending with
  | NonceReserved => abort_reserved pending head
  | Signed => recover_signed vault pending head
  | ReplacementSigned | CancellationSigned => recover_signed_pending_attempt vault pending head
  | Submitted | Replaced | CancellationSubmitted | Orphaned => advance_sent vault pending head
  | Included => advance_included pending head
  | Confirmed => advance_confirmed vault pending head
  | ConformanceValidated =>
      reconcile_validated_post_state vault (un_transaction_id pending) (un_state pending) head
  | AbortedBeforeSigning | Reverted | ReconciliationPending | Reconciled | Failed =>
      xio_err XsRecovery
  | Cancelled => mret tt
  | ForeignNonceConsumed =>
      pause_signer (vv_address vault)
        "configured signer nonce was consumed by an unknown transaction"
  end.

Definition advance_pending (vault_address : VaultAddress) (pending : UnresolvedTransaction)
    : xio unit :=
  vault ← xio_lift (ok_or (configured vault_address) XsRecovery);
  cursor ← loaded (fun s => load_cursor s chain_id);
  head ← xio_lift (ok_or cursor XsRecovery);
  confirmed ← confirmed_nonce (un_signer pending);
  if confirmed <? un_nonce pending then
    _ ← pause_signer (vv_address vault)
          "durable unresolved nonce is ahead of the confirmed account nonce";
    xio_err XsRecovery
  else
    consumed ← (if un_nonce pending <? confirmed then
                  receipt ← canonical_receipt pending;
                  mret (negb (bool_decide (is_Some receipt)))
                else mret false);
    if (consumed : bool) then classify_consumed_nonce vault pending head
    else advance_state vault pending head.

(** ** A fresh transaction *)

(** A preflight that failed: the durable row decides who owns the lane. *)
Definition preflight_failed (vault : ValidatedVaultConfig) (error : PreflightError) : xio unit :=
  _ ← match error with
      | PfSource (VaultFatalAt _) =>
          update (vv_address vault) (transition RvPausedUnsupportedConfiguration
            (Some "this vault's exact accounting source is unavailable"%string))
      | _ => mret tt
      end;
  unresolved ← stored (fun s => load_unresolved s (vv_signer_address vault));
  match unresolved with
  | Some pending =>
      update (vv_address vault)
        (writing (fun status => vs_set_transaction status (Some (un_transaction_id pending)))
           (transition RvPendingTransaction
              (Some "signed nonce requires canonical recovery"%string)))
  | None => xio_err (XsPreflight error)
  end.

(** The fees of a fresh transaction and the most it can cost. *)
Definition initial_fees (quote : RpcFeeQuote) : result ExecutionServiceError (Z * Z * Z) :=
  fees ← map_err (fun _ => XsFeeRange)
    (initial_fee_quote (fq_gas_price quote) (fq_max_priority_fee_per_gas quote)
       (ex_maximum_fee_per_gas_wei execution));
  cost ← attempt_cost (ex_maximum_signed_transaction_gas execution) fees.1;
  Ok (fees.1, fees.2, cost).

Definition execute (vault_address : VaultAddress) (reason : PlanReason)
    (published_plan_id : PlanId) : xio unit :=
  _ ← record_started vault_address reason published_plan_id;
  vault ← xio_lift (ok_or (configured vault_address) XsRecovery);
  head ← outside (fun o => map_err XsProvider (header_at o));
  _ ← ensure_daily_transaction_budget (vv_signer_address vault) (blk_timestamp head);
  nonce ← confirmed_nonce (vv_signer_address vault);
  quote ← outside (fun o => map_err XsProvider (fees_at o));
  fees ← xio_lift (initial_fees quote);
  let '(initial_fee, priority_fee, initial_cost) := fees in
  native_balance ← outside (fun o =>
    map_err XsProvider (balance_at o (vv_signer_address vault) head));
  if native_balance <? initial_cost then
    _ ← pause_signer (vv_address vault)
          "allocator wallet cannot fund the bounded rebalance gas cost";
    _ ← emit_alert P0 AlSignerFailure (Some (vv_address vault));
    xio_err WalletFunding
  else
    _ ← ensure_daily_gas_budget (blk_timestamp head) initial_cost;
    let transaction_id := derive_transaction_id (vv_address vault) head nonce in
    api ← shared_read sh_api;
    answer ← attempt_io (fun o =>
      execute_one_head_preflight (HS := signer_at o) (HU := submitter_at o) (HP := providers_at o)
        (HX := LiveRatePreflightSource (HR := reads_at o) config identities (vv_address vault)
                 reason api (ready_at_gate o))
        (reservations_at o) config vault (clock_at o)
        (mkExecutePreflightRequest transaction_id (derive_signer_request_id transaction_id) nonce
           initial_fee priority_fee));
    match answer with
    | Err error => preflight_failed vault error
    | Ok _ =>
        _ ← update (vv_address vault)
              (writing (fun status => vs_set_transaction status (Some transaction_id))
                 (transition RvPendingTransaction None));
        api_write (fun s => (clear_plan_if s (vv_address vault) published_plan_id).1)
    end.

(** ** One tick *)

Definition recover_lane (pending : UnresolvedTransaction) : xio unit :=
  match configured (un_vault pending) with
  | None =>
      _ ← pause_signer_account (un_signer pending)
            "durable unresolved transaction references an unconfigured vault";
      emit_alert P0 SignedTransactionAmbiguity (Some (un_vault pending))
  | Some vault =>
      if negb (vv_signer_address vault =? un_signer pending) then
        _ ← pause_signer_account (un_signer pending)
              "durable unresolved transaction signer differs from current vault config";
        _ ← pause_signer_account (vv_signer_address vault)
              "configured signer differs from the durable unresolved signer";
        emit_alert P0 SignedTransactionAmbiguity (Some (un_vault pending))
      else advance_pending (un_vault pending) pending
  end.

(** One open reconciliation; the first retryable error is kept for the end. *)
Definition reconcile_lane (processed : gset Address) (deferred : option ExecutionServiceError)
    (pending : PendingReconciliationTransaction) : xio (option ExecutionServiceError) :=
  if bool_decide (Models.pr_signer pending ∈ processed) then mret deferred
  else
    match configured (Models.pr_vault pending) with
    | None =>
        _ ← emit_alert P0 ReconciliationMismatch (Some (Models.pr_vault pending));
        mret deferred
    | Some vault =>
        status ← registry_get (vv_address vault);
        if negb (reconciliation_attempt_allowed status) then mret deferred
        else if negb (vv_signer_address vault =? Models.pr_signer pending) then
          _ ← pause_reconciliation_failure (vv_address vault);
          _ ← emit_alert P0 ReconciliationMismatch (Some (Models.pr_vault pending));
          mret deferred
        else
          answer ← xio_try (advance_reconciliation_pending vault pending);
          match answer with
          | Ok _ => mret deferred
          | Err error =>
              match reconciliation_failure_scope error with
              | VaultLocal => mret deferred
              | ProviderRetry => mret (match deferred with
                                       | Some first => Some first
                                       | None => Some error
                                       end)
              | GlobalScope => xio_err error
              end
          end
    end.

(** The vaults of a signer from the rotating start on, until one starts. *)
Fixpoint start_lane (excluded : gset VaultAddress) (signer_vaults : list ValidatedVaultConfig)
    (start : Z) (offsets : list Z) : xio unit :=
  match offsets with
  | [] => mret tt
  | offset :: offsets =>
      match round_robin_index start offset (Z.of_nat (length signer_vaults)) with
      | None => mret tt
      | Some index =>
          match signer_vaults !! Z.to_nat index with
          | None => xio_err XsRecovery
          | Some vault =>
              if bool_decide (vv_address vault ∈ excluded)
              then start_lane excluded signer_vaults start offsets
              else
                status ← registry_get (vv_address vault);
                plan ← shared_read (fun s => api_plan (sh_api s) (vv_address vault));
                match plan with
                | Some plan =>
                    if from_option (fun status => can_start_transaction (vs_state status)) false
                         status
                    then
                      next ← xio_lift (ok_or (checked_add U64_MAX index 1) XsRecovery);
                      _ ← set_next_vault_index (next mod Z.of_nat (length signer_vaults));
                      execute (vv_address vault) (pl_reason plan) (pl_plan_id plan)
                    else start_lane excluded signer_vaults start offsets
                | None => start_lane excluded signer_vaults start offsets
                end
          end
      end
  end.

Fixpoint start_lanes (processed : gset Address) (excluded : gset VaultAddress)
    (signers : list Address) : xio unit :=
  match signers with
  | [] => mret tt
  | signer :: signers =>
      if bool_decide (signer ∈ processed) then start_lanes processed excluded signers
      else
        let signer_vaults := List.filter (fun vault => vv_signer_address vault =? signer) vaults in
        start ← (fun w => (Ok (xw_next_vault_index w), w));
        _ ← start_lane excluded signer_vaults start (seqZ 0 (Z.of_nat (length signer_vaults)));
        start_lanes ({[signer]} ∪ processed) excluded signers
  end.

Definition tick_once : xio unit :=
  ready ← shared_read sh_provider_ready;
  if negb ready then mret tt
  else
    unresolved ← stored load_all_unresolved;
    _ ← xio_each recover_lane unresolved;
    let processed : gset Address := list_to_set (un_signer <$> unresolved) in
    pending ← stored load_pending_reconciliations;
    let reconciling : gset VaultAddress := list_to_set (Models.pr_vault <$> pending) in
    deferred ← xio_fold (reconcile_lane processed) None pending;
    _ ← start_lanes processed reconciling (vv_signer_address <$> vaults);
    match deferred with
    | None => mret tt
    | Some error => xio_err error
    end.

(** [fetch_add], whose counter wraps. *)
Definition count_provider_failure : xio Z := fun w =>
  let previous := xw_consecutive_provider_failures w in
  let '(_, w) := set_failures ((previous + 1) mod 2 ^ 32) w in
  (Ok (saturating_add U32_MAX previous 1), w).

Definition stop_provider : xio unit := fun w =>
  let shared := xw_shared w in
  (Ok tt, with_shared w (mkShared (sh_storage shared) (sh_runtime shared) (sh_api shared) false)).

Definition report_failure (error : ExecutionServiceError) : xio unit :=
  if provider_dependency_failed error then
    failures ← count_provider_failure;
    if PERSISTENT_PROVIDER_FAILURE_THRESHOLD <=? failures then
      _ ← stop_provider;
      _ ← emit_alert P0 CanonicalChainStopped None;
      xio_err PersistentProviderFailure
    else mret tt
  else if signer_dependency_failed error then emit_alert P0 AlSignerFailure None
  else if contract_identity_failed error then emit_alert P0 UnsupportedDependency None
  else mret tt.

Definition refresh_transactions : xio unit :=
  summarized ← loaded (fun s => s);
  runtime ← shared_read sh_runtime;
  api_write (fun s => ApiStore.refresh_transactions s summarized runtime).

Definition tick : xio unit :=
  answer ← xio_try tick_once;
  match answer with
  | Ok _ => _ ← set_failures 0; refresh_transactions
  | Err error =>
      _ ← match disposition error with
          | QuarantineSigner reason => enforce_signer_quarantine reason
          | _ => mret tt
          end;
      _ ← report_failure error;
      xio_err error
  end.
End Service.
