(* ===== verification/ExecutionProofs.v ===== *)
(** * What the execution service keeps

    The theorems about [LiveSources] and [Execution]: the live source meets the
    interface the final preflight is proved against, what a live preflight
    stands on, which fresh transactions a tick starts, what recovery may send,
    what a signer quarantine leaves and how far the fees of a lane can rise. *)
From Stdlib Require Import ZArith Lia Bool String.
From stdpp Require Import base gmap sets strings list.
From S2P Require Import Prelude.
From S2P Require Import Domain.
From S2P Require Import Config.
From S2P Require Import Caps.
From S2P Require Import Projection.
From S2P Require Import Simulator.
From S2P Require Import Models.
From S2P Require Import Storage.
From S2P Require Import Actor.
From S2P Require Import StorageProofs.
From S2P Require Import Calldata.
From S2P Require Import Firewall.
From S2P Require Import Signer.
From S2P Require Import SigningProofs.
From S2P Require Import Planning.
From S2P Require Import PlanService.
From S2P Require Import PlanPriority.
From S2P Require Import Provider.
From S2P Require Import Pending.
From S2P Require Import Logs.
From S2P Require Import Heads.
From S2P Require Import Topology.
From S2P Require Import Conformance.
From S2P Require Import ConformanceProofs.
From S2P Require Import Reconciliation.
From S2P Require Import FinalPreflight.
From S2P Require Import FinalPreflightProofs.
From S2P Require Import Identity.
From S2P Require Import Snapshot.
From S2P Require Import Controller.
From S2P Require Import ApiStore.
From S2P Require Import EventSources.
From S2P Require Import StateService.
From S2P Require Import Coordinator.
From S2P Require Import LiveSources.
From S2P Require Import Execution.
Open Scope Z_scope.

(** ** The live sources submit nothing *)

Section LiveQuiet.
Context `{HR : SourceReads} `{HK : Keccak} `{HA : AbiParams} `{HC : AbiCaps} `{HS : SnapshotJson}.
Context `{HE : EventAbi} `{HB : AdminAbi} `{HV : VaultAbi} `{HJ : PlanJson}.
Context (config : ValidatedConfig) (identities : RuntimeIdentities).
Context (own_vault : VaultAddress) (reason : PlanReason) (api : ApiDataStore) (ready : bool).

Lemma quiet_awaited {E A} call (answer : A) : quiet (awaited (E := E) call answer).
Proof. done. Qed.
Lemma quiet_on_stored {E A} (f : JsonState -> result E A) : quiet (on_stored f).
Proof. done. Qed.
Lemma quiet_call {E} (f : StorageError -> E) command : quiet (from_storage f (call command)).
Proof. unfold call. apply quiet_call_with. Qed.
#[local] Hint Resolve quiet_awaited quiet_on_stored quiet_call : quiet.

(** The sources' own names for storage calls and lifted results. *)
Ltac source_quiet :=
  repeat first
    [ quiet_step
    | progress unfold cs_query, cs_load, cs_store, cs_lift, cs_some, cs_event_sources,
        ps_query, ps_load, ps_store, ps_lift
    | progress cbv beta zeta
    | match goal with |- quiet (let '(_, _) := ?x in _) => destruct x end ].

Lemma replayed_ledger_quiet sources vault head idle :
  quiet (replayed_ledger config sources vault head idle).
Proof. unfold replayed_ledger. source_quiet. Qed.
#[local] Hint Resolve replayed_ledger_quiet : quiet.

Lemma any_log_quiet sources candidate topology logs :
  quiet (any_log_affects sources candidate topology logs).
Proof. induction logs as [|log logs IH]; cbn [any_log_affects]; source_quiet. Qed.
#[local] Hint Resolve any_log_quiet : quiet.

Lemma atomic_candidate_quiet snapshot vault minimum cursor :
  quiet (validate_atomic_snapshot_candidate config identities snapshot vault minimum cursor).
Proof. unfold validate_atomic_snapshot_candidate. source_quiet. Qed.
#[local] Hint Resolve atomic_candidate_quiet : quiet.

Lemma strategy_state_quiet vault snapshot projection episode :
  quiet (current_strategy_state config vault snapshot projection episode).
Proof. unfold current_strategy_state. source_quiet. Qed.
#[local] Hint Resolve strategy_state_quiet : quiet.

Lemma exact_snapshot_quiet minimum :
  quiet (rebuild_exact_snapshot config identities own_vault api minimum).
Proof.
  unfold rebuild_exact_snapshot, newest_atomic, rebuild_pinned, cs_idle_locks. source_quiet.
Qed.
#[local] Hint Resolve exact_snapshot_quiet : quiet.

Lemma replan_quiet : quiet (rebuild_latest_for_replan config identities own_vault api).
Proof.
  unfold rebuild_latest_for_replan, rebuild_atomic_latest_for_replan, recover_from_publication,
    relevant_event_between. source_quiet.
Qed.

Lemma current_state_quiet conformance :
  quiet (live_rebuild_current_state config identities own_vault api conformance).
Proof. unfold live_rebuild_current_state. source_quiet. Qed.

Lemma ps_event_quiet sources candidate topology from to :
  quiet (ps_relevant_event_between config sources candidate topology from to).
Proof. unfold ps_relevant_event_between. source_quiet. Qed.
#[local] Hint Resolve ps_event_quiet : quiet.

Lemma base_quiet head scenarios :
  quiet (establish_base config identities own_vault reason api head scenarios).
Proof.
  unfold establish_base, verify_links, live_event_cursor, read_base, require_current_base,
    ps_idle_locks. source_quiet.
Qed.
#[local] Hint Resolve base_quiet : quiet.

Lemma live_plan_quiet head scenarios :
  quiet (live_rebuild_plan config identities own_vault reason api head scenarios).
Proof.
  unfold live_rebuild_plan, rebuild_at_head, live_event_cursor, top_k_preflight. source_quiet.
Qed.

(** The gate's questions only read. *)
Lemma live_cursor_reads w : (live_event_cursor config w).2 = w.
Proof. done. Qed.

Lemma live_invalidation_reads context w :
  (live_invalidation_queued config ready context w).2 = w.
Proof.
  unfold live_invalidation_queued. destruct (negb ready); [done|].
  unfold mbind, io_bind. pose proof (live_cursor_reads w) as Hc.
  destruct (live_event_cursor config w) as [[cursor|e] w1]; cbn in Hc; subst; [|done].
  do 2 (case_match; [done|]). unfold ps_lift, io_lift.
  destruct (from_config config) as [sources|e]; cbn; [|done].
  unfold ps_relevant_event_between, ps_lift, io_lift. by case_match.
Qed.
End LiveQuiet.

(** ** What a live preflight stands on *)

Section LiveExact.
Context `{HR : SourceReads} `{HK : Keccak} `{HA : AbiParams} `{HC : AbiCaps} `{HS : CanonicalJson}.
Context `{HE : EventAbi} `{HB : AdminAbi} `{HV : VaultAbi} `{HJ : PlanJson}.
Context (config : ValidatedConfig) (identities : RuntimeIdentities).
Context (own_vault : VaultAddress) (reason : PlanReason) (api : ApiDataStore) (ready : bool).

Let chain_id := vc_chain_id (ac_chain (vg_app config)).

(** The live preflight source is a source the final preflight is proved
    against: none of its calls submits anything, and the questions of the
    signing gate leave the durable state as it is. *)
Lemma live_source_meets_interface id :
  PreflightSourceLaws
    (LiveRatePreflightSource config identities own_vault reason api ready) id.
Proof.
  split.
  - intros stage w. exact (f_equal w_submissions (live_cursor_reads config w)).
  - intros head scenarios. apply live_plan_quiet.
  - intros context w. exact (f_equal w_submissions (live_invalidation_reads config ready context w)).
  - intros w row Hf _. exact Hf.
  - intros context w row Hf _.
    change (find (has_id id) (js_transactions (w_storage
      (live_invalidation_queued config ready context w).2)) = Some row).
    by rewrite live_invalidation_reads.
Qed.

(** In the durable state [s], the published snapshot is canonical and no
    stored log up to the replay head concerns it. *)
Definition published_current (s : JsonState) (vault : ValidatedVaultConfig)
    (topology : TopologyIndex) (replay_head : BlockRef) (snapshot : ExactVaultSnapshot) : Prop :=
  load_cursor s chain_id = Some replay_head /\
  exists published sources,
    api_snapshot api (vv_address vault) = Some published /\
    from_config config = Ok sources /\
    ev_context snapshot = ev_context published /\
    load_canonical_block s chain_id (blk_number (snapshot_block published))
      = Some (snapshot_block published) /\
    ctx_static_config_revision (ev_context published) = vg_revision config /\
    blk_number (snapshot_block published) <= blk_number replay_head /\
    (blk_number (snapshot_block published) < blk_number replay_head ->
     canonical_logs_affect_candidate sources published topology
       (load_canonical_logs s chain_id
          (saturating_add U64_MAX (blk_number (snapshot_block published)) 1)
          (blk_number replay_head)) = Ok false).

Record base_exact (head replay_head : BlockRef) (base : PreflightBase) : Prop := {
  be_vault : bs_vault base ∈ ac_vaults (vg_app config);
  be_own : vv_address (bs_vault base) = own_vault;
  be_heads : Forall (fun scenario => ia_canonical_block scenario = replay_head)
               (scenario_list (bs_scenarios base));
  be_usable : vc_can_allocate (ev_capabilities (bs_snapshot base)) = true;
  be_identity : validate_snapshot_identities identities (bs_snapshot base) = Ok tt;
  be_hash : hash_exact_snapshot (bs_snapshot base) = Some (ev_snapshot_hash (bs_snapshot base));
  be_current :
    if FinalPreflight.pinned config then replay_head = head
    else exists s, published_current s (bs_vault base) (bs_topology base) replay_head
                     (bs_snapshot base);
}.

Lemma bind_keeps_context snapshot blueprint locks bound :
  bind_idle_lock_ledger snapshot blueprint locks = Ok bound ->
  ev_context bound = ev_context snapshot /\
  hash_exact_snapshot bound = Some (ev_snapshot_hash bound).
Proof. intros (Hb & Hh & _)%bound_snapshot_exact. split; [by rewrite Hb|done]. Qed.

Lemma ps_load_Ok {A} stage (f : JsonState -> A) w a w' :
  ps_load stage f w = (Ok a, w') -> a = f (w_storage w) /\ w' = w.
Proof. unfold ps_load, ps_query. by intros [[= <-] ->]%query_Ok. Qed.

Lemma ps_lift_Ok {E A} error (c : result E A) w a w' :
  ps_lift error c w = (Ok a, w') -> c = Ok a /\ w' = w.
Proof. apply io_lift_Ok. Qed.

Lemma live_cursor_Ok w cursor w' :
  live_event_cursor config w = (Ok cursor, w') ->
  load_cursor (w_storage w) chain_id = Some cursor /\ w' = w.
Proof.
  unfold live_event_cursor. intros H. io_step H as found w1 H1.
  apply ps_load_Ok in H1 as [-> ->]. by apply io_lift_Ok in H as [?%ok_or_Ok ->].
Qed.

Lemma event_between_Ok sources candidate topology from to w affected w' :
  ps_relevant_event_between config sources candidate topology from to w = (Ok affected, w') ->
  w' = w /\
  if to <=? from then affected = false
  else canonical_logs_affect_candidate sources candidate topology
         (load_canonical_logs (w_storage w) chain_id (saturating_add U64_MAX from 1) to)
       = Ok affected.
Proof.
  unfold ps_relevant_event_between. destruct (to <=? from); [by intros [= <- <-]|].
  intros H. io_step H as logs w1 H1. apply ps_load_Ok in H1 as [-> ->].
  by apply ps_lift_Ok in H as [? ->].
Qed.

(** Every scenario of a valid set of assumptions is at its head. *)
Lemma inclusion_heads head expected latest fee scenarios :
  inclusion_assumptions head expected latest fee = Ok scenarios ->
  Forall (fun scenario => ia_canonical_block scenario = head) (scenario_list scenarios).
Proof.
  unfold inclusion_assumptions. destruct (_ || _); [done|]. intros [= <-]. by repeat constructor.
Qed.

Lemma require_current_Ok sources topology replay_head revision published w u w' vault :
  FinalPreflight.pinned config = false ->
  from_config config = Ok sources ->
  api_snapshot api (vv_address vault) = Some published ->
  load_cursor (w_storage w) chain_id = Some replay_head ->
  require_current_base config sources topology replay_head revision published w = (Ok u, w') ->
  w' = w /\
  forall snapshot, ev_context snapshot = ev_context published ->
    published_current (w_storage w) vault topology replay_head snapshot.
Proof.
  intros Hp Hs Ha Hc. unfold require_current_base. rewrite Hp. intros H.
  io_step H as canonical w1 H1. apply ps_load_Ok in H1 as [-> ->].
  destruct (_ || _) eqn:E; [done|]. bool_spec E. destruct E as [[[Hn Hcan] Hr] _].
  io_step H as affected w1 H1. apply event_between_Ok in H1 as [-> Hl].
  destruct affected; [done|]. injection H as _ <-. split; [done|]. intros snapshot Hctx.
  split; [done|]. exists published, sources. split_and!; try done. intros Hlt.
  destruct (_ <=? _) eqn:El; [bool_spec El; lia|done].
Qed.

(** What a preflight stands on, whichever way the base was read. *)
Lemma establish_base_Ok head scenarios w base w' :
  establish_base config identities own_vault reason api head scenarios w = (Ok base, w') ->
  exists replay_head, base_exact head replay_head base.
Proof.
  unfold establish_base. intros H. io_step H as vault w1 H1.
  apply io_lift_Ok in H1 as [Hv ->]. apply ok_or_Ok, find_some in Hv as [Hv Ha]. bool_spec Ha.
  io_step H as u1 w1 H1. io_step H as sources w2 H2. apply ps_lift_Ok in H2 as [Hs ->].
  io_step H as replay_head w2 H2. io_step H as replayed w3 H3. apply ps_load_Ok in H3 as [-> ->].
  io_step H as topology w3 H3. apply io_lift_Ok in H3 as [_ ->].
  io_step H as active w3 H3. apply query_Ok in H3 as [_ ->].
  io_step H as episode w3 H3. apply io_lift_Ok in H3 as [_ ->].
  destruct (FinalPreflight.pinned config && _) eqn:Eh; [done|].
  io_step H as read w3 H3. io_step H as rev w4 H4. apply ps_lift_Ok in H4 as [_ ->].
  io_step H as u2 w4 H4. io_step H as scenarios' w5 H5.
  destruct (episode_stale _ _ _ _); [done|]. io_step H as locks w6 H6.
  io_step H as snapshot w7 H7. apply ps_lift_Ok in H7 as [Hb ->].
  apply bind_keeps_context in Hb as [Hctx Hhash].
  io_step H as u3 w7 H7. io_step H as u4 w8 H8. apply ps_lift_Ok in H8 as [Hid ->].
  destruct u4. destruct (negb _) eqn:Hal; bool_spec Hal; [done|].
  io_step H as u5 w8 H8. injection H as <- _. exists replay_head.
  split; cbn [bs_vault bs_snapshot bs_scenarios bs_topology];
    [by apply list_elem_of_In|done| |done|done|done|].
  - destruct (FinalPreflight.pinned config) eqn:Hp.
    + injection H2 as <- <-. injection H5 as <- <-. cbn [andb] in Eh.
      destruct scenarios as [[a b] c]. cbn in Eh. repeat case_bool_decide; [|done..].
      by repeat constructor.
    + destruct scenarios as [[earliest ?] ?]. apply ps_lift_Ok in H5 as [H5 _].
      by apply inclusion_heads in H5.
  - destruct (FinalPreflight.pinned config) eqn:Hp; [by injection H2 as <- _|].
    apply live_cursor_Ok in H2 as [Hcur ->]. unfold read_base in H3. rewrite Hp in H3.
    apply io_lift_Ok in H3 as [Hpub ->]. apply ok_or_Ok in Hpub.
    eapply require_current_Ok in H4 as [-> Hcurrent]; [|done..]. eauto.
Qed.

Lemma try_map_in {E A B} (f : A -> result E B) l k x :
  try_map f l = Ok k -> x ∈ l -> exists y, f x = Ok y /\ y ∈ k.
Proof.
  intros H Hx. apply try_map_Forall2 in H. apply list_elem_of_lookup in Hx as [i Hi].
  destruct (Forall2_lookup_l _ _ _ _ _ H Hi) as (y & Hy & Hf).
  exists y. split; [done|by eapply list_elem_of_lookup_2].
Qed.

(** What a rebuilt plan stands on: an exact base, on which the plan passes
    every guard of its reason in each inclusion scenario. *)
Definition plan_exact (head : BlockRef) (prepared : PreparedPreflightPlan)
    (context : PreflightReadSet) : Prop :=
  exists base, base_exact head (rd_head context) base /\
    rd_snapshot context = bs_snapshot base /\ rd_topology context = bs_topology base /\
    pf_scenarios prepared = bs_scenarios base /\
    forall scenario, scenario ∈ scenario_list (pf_scenarios prepared) ->
      exists projection,
        project_snapshot_to_head (rd_snapshot context) (ia_canonical_block scenario)
          (bs_vault base) = Ok projection /\
        validate_scenario (rd_snapshot context) projection (bs_vault base) config reason
          (bs_episode base) (actions (pf_plan prepared)) = Ok tt.

Lemma live_plan_exact head scenarios w prepared context w' :
  live_rebuild_plan config identities own_vault reason api head scenarios w
    = (Ok (prepared, context), w') ->
  plan_exact head prepared context.
Proof.
  unfold live_rebuild_plan. intros H. io_step H as u w1 H1. unfold rebuild_at_head in H.
  io_step H as base w2 H2. apply establish_base_Ok in H2 as [replay_head Hbase].
  io_step H as projections w3 H3. apply io_lift_Ok in H3 as [Hp ->].
  io_step H as expected w3 H3. io_step H as top w4 H4. io_step H as built w5 H5.
  io_step H as checked w6 H6. apply io_lift_Ok in H6 as [Hc ->].
  destruct (bs_scenarios base) as [[earliest expected'] latest] eqn:Hsc.
  injection H as <- <- <-. exists base. cbn [rd_head rd_snapshot rd_topology pf_scenarios pf_plan].
  assert (ia_canonical_block earliest = replay_head) as ->.
  { pose proof (be_heads _ _ _ Hbase) as Hf. rewrite Hsc in Hf. by inversion Hf. }
  split; [done|]. split_and!; try done.
  - intros scenario Hin. destruct (try_map_in _ _ _ _ Hp Hin) as (projection & Hpr & Hip).
    exists projection. split; [by apply map_err_Ok in Hpr|].
    by destruct (try_map_in _ _ _ _ Hc Hip) as ([] & Hv & _).
Qed.
End LiveExact.

(** ** What a computation of the service sends *)

Section Sends.
Context `{HX : ExecutionEnvironment} `{HK : Keccak} `{HA : AbiParams} `{HC : AbiCaps}.
Context `{HJ : PlanJson} `{HV : VaultAbi} `{HE : EventAbi} `{HB : AdminAbi}.
Context `{HS : SnapshotJson} `{HR : ReportJson} `{HT : StateReportJson}.

(** [c] starts no fresh execution and lets nothing leave the process. *)
Definition silent {A} (c : xio A) : Prop :=
  forall w, xw_started (c w).2 = xw_started w /\ xw_submissions (c w).2 = xw_submissions w.

(** [c] starts no fresh execution and lets at most one submission leave, of
    bytes in [P]. *)
Definition sends (P : Bytes -> Prop) {A} (c : xio A) : Prop :=
  forall w, xw_started (c w).2 = xw_started w /\
    (xw_submissions (c w).2 = xw_submissions w \/
     exists raw s, xw_submissions (c w).2 = xw_submissions w ++ [(raw, s)] /\ P raw).

Lemma xio_bind_cases {A B} (c : xio A) (f : A -> xio B) w r w' :
  (c ≫= f) w = (r, w') ->
  (exists e, c w = (Err e, w') /\ r = Err e) \/
  exists a w1, c w = (Ok a, w1) /\ f a w1 = (r, w').
Proof.
  unfold mbind, xio_bind. destruct (c w) as [[a|e] w1]; intros H; [right; by exists a, w1|].
  left. exists e. by injection H as <- <-.
Qed.

Lemma xio_bind_Ok {A B} (c : xio A) (f : A -> xio B) w b w' :
  (c ≫= f) w = (Ok b, w') -> exists a w1, c w = (Ok a, w1) /\ f a w1 = (Ok b, w').
Proof. intros [(e & _ & [=])|?]%xio_bind_cases; done. Qed.

Lemma worker_silent_bind {A B} (c : xio A) (f : A -> xio B) :
  silent c -> (forall a, silent (f a)) -> silent (c ≫= f).
Proof.
  intros Hc Hf w. unfold mbind, xio_bind. specialize (Hc w).
  destruct (c w) as [[a|e] w1]; cbn in *; [|done]. destruct (Hf a w1) as [-> ->]. done.
Qed.

Lemma sends_weaken {P} (Q : Bytes -> Prop) {A} (c : xio A) :
  (forall raw, P raw -> Q raw) -> sends P c -> sends Q c.
Proof. intros HPQ Hc w. destruct (Hc w) as [? [?|(raw & s & ? & ?)]]; naive_solver. Qed.

Lemma sends_silent P {A} (c : xio A) : silent c -> sends P c.
Proof. intros Hc w. destruct (Hc w). auto. Qed.

Lemma sends_bind P {A B} (c : xio A) (f : A -> xio B) :
  silent c -> (forall a, sends P (f a)) -> sends P (c ≫= f).
Proof.
  intros Hc Hf w. unfold mbind, xio_bind. specialize (Hc w).
  destruct (c w) as [[a|e] w1]; cbn in *; [|tauto]. destruct Hc as [<- <-]. apply Hf.
Qed.

Lemma sends_then P {A B} (c : xio A) (f : A -> xio B) :
  sends P c -> (forall a, silent (f a)) -> sends P (c ≫= f).
Proof.
  intros Hc Hf w. unfold mbind, xio_bind. specialize (Hc w).
  destruct (c w) as [[a|e] w1]; cbn in *; [|tauto]. destruct (Hf a w1) as [-> ->]. tauto.
Qed.

Lemma sends_lift P {A B} (r : result ExecutionServiceError A) (f : A -> xio B) :
  (forall a, r = Ok a -> sends P (f a)) -> sends P (xio_lift r ≫= f).
Proof. intros Hf w. destruct r as [a|e]; [exact (Hf a eq_refl w)|]. cbn. auto. Qed.

Lemma silent_run {E A} convert (c : occasion -> io E A) :
  (forall o, quiet (c o)) -> silent (run_io convert c).
Proof.
  intros Hc w. unfold run_io. pose proof (Hc (xw_occasion w)
    (mkWorld (sh_storage (xw_shared w)) (xw_submissions w))) as H.
  by destruct (c _ _) as [r inner].
Qed.

Lemma worker_silent_ret {A} (a : A) : silent (mret (M := xio) a).
Proof. done. Qed.
Lemma worker_silent_err {A} e : silent (xio_err (A := A) e).
Proof. done. Qed.
Lemma worker_silent_lift {A} (c : result ExecutionServiceError A) : silent (xio_lift c).
Proof. done. Qed.
Lemma worker_silent_try {A} (c : xio A) : silent c -> silent (xio_try c).
Proof. intros Hc w. specialize (Hc w). unfold xio_try. by destruct (c w). Qed.
Lemma silent_stored {A} (f : JsonState -> result StorageError A) : silent (stored f).
Proof. by apply silent_run. Qed.
Lemma silent_loaded {A} (f : JsonState -> A) : silent (loaded f).
Proof. apply silent_stored. Qed.
Lemma silent_store command : silent (store command).
Proof.
  apply silent_run. intros o w. unfold call. destruct (call_with _ w) as [[a|e] w'] eqn:E.
  - by apply call_with_Ok in E as (_ & _ & _ & ?).
  - by apply call_with_Err in E as ->.
Qed.
Lemma silent_outside {A} (f : occasion -> result ExecutionServiceError A) : silent (outside f).
Proof. by apply silent_run. Qed.
Lemma silent_attempt {E A} (c : occasion -> io E A) :
  (forall o, quiet (c o)) -> silent (attempt_io c).
Proof.
  intros Hc. apply silent_run. intros o w. specialize (Hc o w). by destruct (c o w).
Qed.
Lemma silent_read {A} (f : Shared -> A) : silent (shared_read f).
Proof. done. Qed.
Lemma silent_update vault f : silent (update vault f).
Proof. intros w. unfold update. by destruct (runtime_update _ _ _). Qed.
Lemma silent_api f : silent (api_write f).
Proof. done. Qed.
Lemma silent_alert severity kind vault : silent (emit_alert severity kind vault).
Proof. done. Qed.
Lemma silent_failures failures : silent (set_failures failures).
Proof. done. Qed.
Lemma silent_index index : silent (set_next_vault_index index).
Proof. done. Qed.

Lemma silent_each {A} (f : A -> xio unit) l : (forall x, silent (f x)) -> silent (xio_each f l).
Proof. intros Hf. induction l as [|x l IH]; [done|]. by apply worker_silent_bind. Qed.
Lemma worker_silent_fold {A B} (f : A -> B -> xio A) a l :
  (forall a x, silent (f a x)) -> silent (xio_fold f a l).
Proof. intros Hf. revert a. induction l as [|x l IH]; intros a; [done|]. by apply worker_silent_bind. Qed.

(** Recovered bytes are the only ones, or one submission is. *)
Lemma sends_submit (P : Bytes -> Prop) raw : P raw -> sends P (submit_signed raw).
Proof. intros HP w. cbn. eauto 6. Qed.
End Sends.

Create HintDb silent.
#[export] Hint Resolve worker_silent_ret worker_silent_err worker_silent_lift silent_stored silent_loaded silent_store
  silent_outside silent_read silent_update silent_api silent_alert silent_failures
  silent_index : silent.

Ltac silent_step :=
  lazymatch goal with
  | |- silent (_ ≫= _) => apply worker_silent_bind; [|intros ?]
  | |- silent (xio_try _) => apply worker_silent_try
  | |- silent (xio_each _ _) => apply silent_each; intros ?
  | |- silent (xio_fold _ _ _) => apply worker_silent_fold; intros ? ?
  | |- silent (let '(_, _) := ?x in _) => destruct x
  | |- silent (match ?x with _ => _ end) => destruct x
  | |- silent _ => solve [eauto 3 with silent]
  end.
Ltac silent_walk := repeat first [silent_step | progress cbv beta zeta].

Section Silence.
Context `{HX : ExecutionEnvironment} `{HK : Keccak} `{HA : AbiParams} `{HC : AbiCaps}.
Context `{HJ : PlanJson} `{HV : VaultAbi} `{HE : EventAbi} `{HB : AdminAbi}.
Context `{HS : SnapshotJson} `{HR : ReportJson} `{HT : StateReportJson}.
Context (config : ValidatedConfig) (identities : RuntimeIdentities).

Lemma pause_account_silent signer reason : silent (pause_signer_account config signer reason).
Proof. unfold pause_signer_account. silent_walk. Qed.
#[local] Hint Resolve pause_account_silent : silent.
Lemma pause_signer_silent vault reason : silent (pause_signer config vault reason).
Proof. unfold pause_signer. silent_walk. Qed.
#[local] Hint Resolve pause_signer_silent : silent.
Lemma quarantine_silent reason : silent (enforce_signer_quarantine config reason).
Proof. unfold enforce_signer_quarantine. silent_walk. Qed.
Lemma pause_reconciliation_silent vault : silent (pause_reconciliation_failure vault).
Proof. unfold pause_reconciliation_failure. silent_walk. Qed.
#[local] Hint Resolve pause_reconciliation_silent : silent.

Lemma view_silent {T} `{EqDecision T} (views : occasion -> list (result ProviderError (option T))) :
  silent (consistent_recovery_view views).
Proof. apply silent_outside. Qed.
Lemma confirmed_nonce_silent signer : silent (confirmed_nonce config signer).
Proof.
  unfold confirmed_nonce. silent_walk; apply view_silent.
Qed.
Lemma by_hash_silent hash : silent (recovery_transaction_by_hash hash).
Proof. apply view_silent. Qed.
Lemma receipt_by_hash_silent hash : silent (recovery_receipt_by_hash hash).
Proof. apply view_silent. Qed.
Lemma header_silent number : silent (recovery_header_by_number number).
Proof. apply worker_silent_bind; [apply view_silent|done]. Qed.
Lemma scan_silent signer nonce block :
  silent (recovery_transaction_by_sender_nonce_in_block signer nonce block).
Proof. apply view_silent. Qed.
#[local] Hint Resolve confirmed_nonce_silent by_hash_silent receipt_by_hash_silent header_silent
  scan_silent : silent.

Lemma gas_budget_silent now cost : silent (ensure_daily_gas_budget config now cost).
Proof. unfold ensure_daily_gas_budget. silent_walk. Qed.
Lemma transaction_budget_silent signer now : silent (ensure_daily_transaction_budget config signer now).
Proof. unfold ensure_daily_transaction_budget. silent_walk. Qed.
Lemma fetch_receipt_silent found hash : silent (fetch_receipt config found hash).
Proof. unfold fetch_receipt. silent_walk. Qed.
#[local] Hint Resolve gas_budget_silent transaction_budget_silent fetch_receipt_silent : silent.
Lemma canonical_receipt_silent pending : silent (canonical_receipt config pending).
Proof. unfold canonical_receipt. silent_walk. Qed.
#[local] Hint Resolve canonical_receipt_silent : silent.

Lemma refresh_plan_silent vault snapshot projection :
  silent (refresh_plan config vault snapshot projection).
Proof.
  intros w. unfold refresh_plan. cbv zeta. by destruct (refresh_priority_plan _ _ _ _ _ _).
Qed.
#[local] Hint Resolve refresh_plan_silent : silent.

Lemma recover_outcome_silent vault id head trigger :
  silent (recover_terminal_outcome config identities vault id head trigger).
Proof.
  unfold recover_terminal_outcome. silent_walk. apply silent_run. intros o. apply replan_quiet.
Qed.
#[local] Hint Resolve recover_outcome_silent : silent.

Lemma finish_reconciliation_silent vault report :
  silent (finish_reconciliation config vault report).
Proof. unfold finish_reconciliation. silent_walk. Qed.
#[local] Hint Resolve finish_reconciliation_silent : silent.

Lemma reconcile_state_quiet (X : ExactCurrentStateSource) vault conformance at_ :
  (forall report, quiet (rebuild_current_state report)) ->
  quiet (reconcile_current_state vault conformance at_).
Proof.
  intros Hq. unfold reconcile_current_state, call. repeat quiet_step.
Qed.

Lemma post_state_silent vault id expected head :
  silent (reconcile_validated_post_state config identities vault id expected head).
Proof.
  unfold reconcile_validated_post_state. silent_walk.
  apply silent_attempt. intros o. apply reconcile_state_quiet. intros report.
  apply current_state_quiet.
Qed.
#[local] Hint Resolve post_state_silent : silent.

Lemma reconciliation_pending_silent vault pending :
  silent (advance_reconciliation_pending config identities vault pending).
Proof. unfold advance_reconciliation_pending. silent_walk. Qed.

Lemma awaits_silent hashes : silent (awaits_ingestion hashes).
Proof. induction hashes; cbn [awaits_ingestion]; silent_walk. Qed.
Lemma scan_blocks_silent signer nonce blocks : silent (scan_blocks signer nonce blocks).
Proof. induction blocks; cbn [scan_blocks]; silent_walk. Qed.
#[local] Hint Resolve awaits_silent scan_blocks_silent : silent.
Lemma classify_silent vault pending head : silent (classify_consumed_nonce config vault pending head).
Proof. unfold classify_consumed_nonce. silent_walk. Qed.
Lemma submission_error_silent vault error : silent (handle_submission_error config vault error).
Proof. unfold handle_submission_error. silent_walk. Qed.
Lemma mismatched_silent vault : silent (mismatched_hash config vault).
Proof. unfold mismatched_hash. silent_walk. Qed.
Lemma record_broadcast_silent pending hash head : silent (record_broadcast pending hash head).
Proof. apply silent_store. Qed.
Lemma rebroadcast_due_silent pending head : silent (rebroadcast_due config pending head).
Proof. unfold rebroadcast_due. silent_walk. Qed.
#[local] Hint Resolve classify_silent submission_error_silent mismatched_silent
  record_broadcast_silent rebroadcast_due_silent : silent.
End Silence.

(** ** Recovery stays in its lane *)

Section Lanes.
Context `{HX : ExecutionEnvironment} `{HK : Keccak} `{HA : AbiParams} `{HC : AbiCaps}.
Context `{HJ : PlanJson} `{HV : VaultAbi} `{HE : EventAbi} `{HB : AdminAbi}.
Context `{HS : SnapshotJson} `{HR : ReportJson} `{HT : StateReportJson} `{HN : Envelope2718}.
Context (config : ValidatedConfig) (identities : RuntimeIdentities).
Context `{HL : !forall o, RoutineSignerLaws (signer_at o)}.

Let chain_id := vc_chain_id (ac_chain (vg_app config)).
Let execution := ac_execution (vg_app config).

#[local] Hint Resolve pause_account_silent pause_signer_silent pause_reconciliation_silent
  confirmed_nonce_silent by_hash_silent gas_budget_silent canonical_receipt_silent
  recover_outcome_silent post_state_silent classify_silent submission_error_silent
  mismatched_silent record_broadcast_silent rebroadcast_due_silent : silent.

(** The transactions recovery may sign for a row: its calldata to its vault, or
    an empty transfer to its own signer, with the nonce of the row and a raised
    fee under the ceiling. *)
Definition lane_transaction (pending : UnresolvedTransaction) (tx : TxEip1559) : Prop :=
  tx_chain_id tx = chain_id /\ tx_nonce tx = un_nonce pending /\ tx_value tx = 0 /\
  un_current_max_fee_per_gas pending < tx_max_fee_per_gas tx
    <= ex_maximum_fee_per_gas_wei execution /\
  ((tx_to tx = un_vault pending /\ tx_input tx = un_calldata pending /\
    tx_gas_limit tx = un_gas_limit pending) \/
   (tx_to tx = un_signer pending /\ tx_input tx = [] /\
    tx_gas_limit tx = CANCELLATION_GAS_LIMIT)).

Definition lane_bytes (pending : UnresolvedTransaction) (raw : Bytes) : Prop :=
  un_raw_signed_transaction pending = Some raw \/
  exists env tx, se_raw_transaction env = raw /\ carries env (un_signer pending) tx /\
    lane_transaction pending tx.

Lemma sends_stored pending raw :
  ok_or (un_raw_signed_transaction pending) XsRecovery = Ok raw ->
  sends (lane_bytes pending) (submit_signed raw).
Proof. intros H%ok_or_Ok. apply sends_submit. by left. Qed.
#[local] Hint Resolve sends_stored : silent.

Ltac sends_step :=
  lazymatch goal with
  | |- sends _ (xio_lift _ ≫= _) => apply sends_lift; intros ? ?
  | |- sends _ (_ ≫= _) =>
      first [apply sends_bind; [solve [silent_walk]|intros ?]
            |apply sends_then; [|intros ?; solve [silent_walk]]]
  | |- sends _ (let '(_, _) := ?x in _) => destruct x
  | |- sends _ (match ?x with _ => _ end) => destruct x eqn:?
  | |- sends _ _ => first [solve [apply sends_silent; silent_walk]|solve [eauto 3 with silent]]
  end.
Ltac sends_walk := repeat first [sends_step|progress cbv beta zeta].

Lemma resend_sends vault pending head hash :
  sends (lane_bytes pending) (resend_signed config vault pending head hash).
Proof. unfold resend_signed. sends_walk. Qed.
#[local] Hint Resolve resend_sends : silent.

Lemma recover_signed_sends vault pending head :
  sends (lane_bytes pending) (recover_signed config vault pending head).
Proof. unfold recover_signed. sends_walk. Qed.

Lemma recover_attempt_sends vault pending head :
  sends (lane_bytes pending) (recover_signed_pending_attempt config vault pending head).
Proof. unfold recover_signed_pending_attempt. sends_walk. Qed.

(** A step that answers [false] has sent nothing. *)
Definition sends_handled (P : Bytes -> Prop) (c : xio bool) : Prop :=
  forall w, xw_started (c w).2 = xw_started w /\
    (xw_submissions (c w).2 = xw_submissions w \/
     (c w).1 <> Ok false /\
     exists raw s, xw_submissions (c w).2 = xw_submissions w ++ [(raw, s)] /\ P raw).

Definition never_false (c : xio bool) : Prop := forall w, (c w).1 <> Ok false.

Lemma never_false_bind {A} (c : xio A) (f : A -> xio bool) :
  (forall a, never_false (f a)) -> never_false (c ≫= f).
Proof. intros Hf w. unfold mbind, xio_bind. destruct (c w) as [[a|e] w1]; [apply Hf|done]. Qed.

Lemma handled_silent P c : silent c -> sends_handled P c.
Proof. intros Hc w. destruct (Hc w). auto. Qed.

Lemma handled_true P c : sends P c -> never_false c -> sends_handled P c.
Proof. intros Hc Hn w. destruct (Hc w) as [? [?|?]]; auto. Qed.

Lemma handled_bind P {A} (c : xio A) (f : A -> xio bool) :
  silent c -> (forall a, sends_handled P (f a)) -> sends_handled P (c ≫= f).
Proof.
  intros Hc Hf w. unfold mbind, xio_bind. specialize (Hc w).
  destruct (c w) as [[a|e] w1]; cbn in *; [|tauto]. destruct Hc as [<- <-]. apply Hf.
Qed.

Lemma handled_lift P {A} (r : result ExecutionServiceError A) (f : A -> xio bool) :
  (forall a, r = Ok a -> sends_handled P (f a)) -> sends_handled P (xio_lift r ≫= f).
Proof. intros Hf w. destruct r as [a|e]; [exact (Hf a eq_refl w)|]. cbn. auto. Qed.

Lemma sends_handled_bind P {B} c (f : bool -> xio B) :
  sends_handled P c -> sends P (f false) -> silent (f true) -> sends P (c ≫= f).
Proof.
  intros Hc Hf Ht w. unfold mbind, xio_bind. specialize (Hc w).
  destruct (c w) as [[[]|e] w1]; cbn in *; [|destruct Hc as [<- [<-|[? _]]]|tauto].
  - destruct (Ht w1) as [-> ->]. tauto.
  - apply Hf.
  - done.
Qed.

Lemma rebroadcast_handled vault pending head :
  sends_handled (lane_bytes pending) (reconcile_nonce_or_rebroadcast config vault pending head).
Proof.
  unfold reconcile_nonce_or_rebroadcast.
  repeat first
    [ apply handled_silent; solve [silent_walk]
    | apply handled_lift; intros ? ?
    | apply handled_bind; [solve [silent_walk]|intros ?]
    | match goal with |- sends_handled _ (match ?x with _ => _ end) => destruct x end ].
  apply handled_true; [sends_walk|]. by repeat (apply never_false_bind; intros ?).
Qed.
#[local] Hint Resolve recover_signed_sends recover_attempt_sends : silent.

Lemma u128_Ok value v : u128 value = Ok v -> v = value.
Proof. by intros [-> _]%ok_or_Ok%try_from_u_Some. Qed.

(** The recovered transaction is the row's own. *)
Lemma validated_pending_Ok vault pending validated :
  validated_pending config vault pending = Ok validated ->
  let fields := vt_fields (vp_original validated) in
  rt_chain_id fields = chain_id /\ rt_from fields = un_signer pending /\
  rt_to fields = vv_address vault /\ rt_nonce fields = un_nonce pending /\
  rt_value fields = 0 /\ rt_calldata fields = un_calldata pending /\
  rt_gas_limit fields = un_gas_limit pending /\
  vp_current_max_fee_per_gas validated = un_current_max_fee_per_gas pending.
Proof.
  unfold validated_pending. intros H. step_ok H as plan Hp. step_ok H as om Hom.
  step_ok H as op Hop. step_ok H as original Ho. step_ok H as cm Hcm. step_ok H as cp Hcp.
  apply u128_Ok in Hcm as ->. apply map_err_Ok in H, Ho.
  unfold from_recovered_attempt in H. destruct (_ || _); [done|]. injection H as <-.
  unfold validate_historical_routine_transaction in Ho. step_ok Ho as v Hv.
  unfold validate_routine_transaction in Ho. destruct (_ || _); [done|].
  destruct (_ || _); [done|]. step_ok Ho as d Hd. destruct (_ || _); [done|]. by injection Ho as <-.
Qed.

Lemma perform_sends vault pending validated expected decision head maximum priority :
  validated_pending config vault pending = Ok validated ->
  vv_address vault = un_vault pending ->
  sends (lane_bytes pending)
    (perform_attempt config pending validated expected decision head maximum priority).
Proof.
  intros (Hch & Hfrom & Hto & Hn & Hv & Hc & Hg & Hm)%validated_pending_Ok Hva.
  apply sends_then; [|intros; apply worker_silent_ret].
  intros w. unfold run_io.
  set (request := mkPendingAttemptRequest _ _ _ _ _ _ _ _ _).
  destruct (execute_pending_attempt _ _ _) as [r w'] eqn:E.
  split; [done|]. cbn [snd xw_submissions].
  apply pending_attempt_cases in E
    as [[-> _]|(kind & st & next & signed & s1 & Hst & Hcar & Hf & _ & -> & _)];
    [by left|right|apply HL].
  cbn [w_submissions]. eexists _, _. split; [done|]. right. exists signed. eexists.
  split; [done|]. cbn [request pr_pending] in Hcar. rewrite Hfrom in Hcar. split; [exact Hcar|].
  cbn in Hf, Hm. fold execution in Hf. destruct Hf as [Hraised Hceiling].
  unfold attempt_transaction, lane_transaction.
  destruct decision as [| |reason]; [done| |]; cbn;
    rewrite ?Hch, ?Hn, ?Hv, ?Hto, ?Hc, ?Hg, ?Hfrom, <-Hm; split_and!; try done; auto.
Qed.
#[local] Hint Resolve perform_sends : silent.

Section Row.
Context (vault : ValidatedVaultConfig) (pending : UnresolvedTransaction).
Hypothesis Hvault : vv_address vault = un_vault pending.

Lemma cancel_sends head expected reason :
  sends (lane_bytes pending) (cancel_pending_attempt config vault pending head expected reason).
Proof. unfold cancel_pending_attempt. sends_walk. Qed.
#[local] Hint Resolve cancel_sends : silent.

Lemma orphaned_sends head : sends (lane_bytes pending) (recover_orphaned config vault pending head).
Proof. unfold recover_orphaned. sends_walk. Qed.

Lemma signals_silent plan : silent (pending_safety_signals vault plan).
Proof. unfold pending_safety_signals. silent_walk. Qed.
#[local] Hint Resolve signals_silent : silent.

Lemma manage_sends head : sends (lane_bytes pending) (manage_pending config vault pending head).
Proof. unfold manage_pending. sends_walk. Qed.
#[local] Hint Resolve orphaned_sends manage_sends : silent.

Lemma persist_outcome_quiet receipt next at_ :
  quiet (persist_canonical_receipt_outcome pending receipt next at_).
Proof. unfold persist_canonical_receipt_outcome, call. repeat quiet_step. Qed.

Lemma confirm_inclusion_quiet id included head depth at_ :
  quiet (confirm_canonical_inclusion id chain_id included head depth at_).
Proof. unfold confirm_canonical_inclusion, call. repeat quiet_step. Qed.

Lemma settle_silent receipt head :
  silent (settle_receipt config identities vault pending receipt head).
Proof.
  unfold settle_receipt. silent_walk; apply silent_run; intros; apply persist_outcome_quiet.
Qed.
#[local] Hint Resolve settle_silent : silent.

Lemma advance_sent_sends head :
  sends (lane_bytes pending) (advance_sent config identities vault pending head).
Proof.
  unfold advance_sent. sends_step. destruct a; [sends_walk|]. case_match; [sends_walk|].
  apply sends_handled_bind; [apply rebroadcast_handled|cbn; sends_walk|done].
Qed.

Lemma advance_included_silent head : silent (advance_included config pending head).
Proof.
  unfold advance_included. silent_walk. apply silent_run. intros. apply confirm_inclusion_quiet.
Qed.

Lemma conformance_quiet `{TransactionLookupProvider} at_ :
  quiet (reconcile_confirmed_transaction (un_transaction_id pending) config vault at_).
Proof. unfold reconcile_confirmed_transaction, call. repeat quiet_step. Qed.

Lemma conformance_failed_silent head error :
  silent (conformance_failed config identities vault pending head error).
Proof. unfold conformance_failed. silent_walk. Qed.
#[local] Hint Resolve conformance_failed_silent : silent.

Lemma advance_confirmed_silent head :
  silent (advance_confirmed config identities vault pending head).
Proof.
  unfold advance_confirmed. silent_walk. apply silent_attempt. intros. apply conformance_quiet.
Qed.

Lemma abort_silent head : silent (abort_reserved pending head).
Proof. apply silent_store. Qed.
#[local] Hint Resolve advance_sent_sends advance_included_silent advance_confirmed_silent
  abort_silent : silent.

Lemma advance_state_sends head :
  sends (lane_bytes pending) (advance_state config identities vault pending head).
Proof. unfold advance_state. sends_walk. Qed.
End Row.
#[local] Hint Resolve advance_state_sends : silent.

Lemma configured_address address vault :
  configured config address = Some vault -> vv_address vault = address.
Proof. intros [_ E]%find_some. by bool_spec E. Qed.

Lemma recover_lane_sends pending :
  sends (lane_bytes pending) (recover_lane config identities pending).
Proof.
  unfold recover_lane. destruct (configured config (un_vault pending)) as [vault|] eqn:Hv;
    [|sends_walk].
  destruct (negb _); [sends_walk|]. unfold advance_pending. rewrite Hv. cbn [ok_or].
  apply configured_address in Hv.
  sends_step; match goal with H : Ok _ = Ok _ |- _ => injection H as <- end. sends_walk.
Qed.

(** C3: Recovery never frees or reuses a nonce: whatever the providers, the
    signer and the other tasks do, recovering one durable row starts no fresh
    execution and lets at most one submission leave the process.  It carries
    either the signed bytes the row already holds, or a transaction of the same
    chain, signer and nonce, of no value and with a strictly raised fee under
    the ceiling, which is the row's own calldata to its vault or an empty
    transfer to its signer. *)
Theorem recovery_stays_in_lane pending w :
  let w' := (recover_lane config identities pending w).2 in
  xw_started w' = xw_started w /\
  (xw_submissions w' = xw_submissions w \/
   exists raw s, xw_submissions w' = xw_submissions w ++ [(raw, s)] /\
     (un_raw_signed_transaction pending = Some raw \/
      exists env tx, se_raw_transaction env = raw /\ carries env (un_signer pending) tx /\
        lane_transaction pending tx)).
Proof. apply recover_lane_sends. Qed.
End Lanes.

(** ** Which fresh executions a tick starts *)

Section Starts.
Context `{HX : ExecutionEnvironment} `{HK : Keccak} `{HA : AbiParams} `{HC : AbiCaps}.
Context `{HJ : PlanJson} `{HV : VaultAbi} `{HE : EventAbi} `{HB : AdminAbi}.
Context `{HS : SnapshotJson} `{HR : ReportJson} `{HT : StateReportJson}.
Context (config : ValidatedConfig) (identities : RuntimeIdentities).

Let vaults := ac_vaults (vg_app config).

(** [c] starts no fresh execution. *)
Definition rests {A} (c : xio A) : Prop := forall w, xw_started (c w).2 = xw_started w.

Lemma rests_silent {A} (c : xio A) : silent c -> rests c.
Proof. intros Hc w. by destruct (Hc w). Qed.
Lemma rests_run {E A} convert (c : occasion -> io E A) : rests (run_io convert c).
Proof. intros w. unfold run_io. by destruct (c _ _). Qed.
Lemma rests_bind {A B} (c : xio A) (f : A -> xio B) :
  rests c -> (forall a, rests (f a)) -> rests (c ≫= f).
Proof.
  intros Hc Hf w. unfold mbind, xio_bind. specialize (Hc w).
  destruct (c w) as [[a|e] w1]; cbn in *; [|done]. by rewrite Hf.
Qed.
Lemma rests_try {A} (c : xio A) : rests c -> rests (xio_try c).
Proof. intros Hc w. specialize (Hc w). unfold xio_try. by destruct (c w). Qed.
Lemma rests_each {A} (f : A -> xio unit) l : (forall x, rests (f x)) -> rests (xio_each f l).
Proof. intros Hf. induction l as [|x l IH]; [done|]. by apply rests_bind. Qed.
Lemma rests_fold {A B} (f : A -> B -> xio A) a l :
  (forall a x, rests (f a x)) -> rests (xio_fold f a l).
Proof. intros Hf. revert a. induction l as [|x l IH]; intros a; [done|]. by apply rests_bind. Qed.

#[local] Hint Resolve pause_account_silent pause_signer_silent pause_reconciliation_silent
  confirmed_nonce_silent by_hash_silent gas_budget_silent transaction_budget_silent
  canonical_receipt_silent recover_outcome_silent post_state_silent classify_silent
  submission_error_silent mismatched_silent record_broadcast_silent rebroadcast_due_silent
  settle_silent signals_silent advance_included_silent advance_confirmed_silent abort_silent
  reconciliation_pending_silent : silent.

Ltac rests_step :=
  lazymatch goal with
  | |- rests (_ ≫= _) => apply rests_bind; [|intros ?]
  | |- rests (xio_try _) => apply rests_try
  | |- rests (let '(_, _) := ?x in _) => destruct x
  | |- rests (match ?x with _ => _ end) => destruct x
  | |- rests _ => first [solve [apply rests_run] | solve [apply rests_silent; silent_walk]
                        | solve [eauto 3 with silent]]
  end.
Ltac rests_walk := repeat first [rests_step | progress cbv beta zeta].

Lemma cancel_rests vault pending head expected reason :
  rests (cancel_pending_attempt config vault pending head expected reason).
Proof. unfold cancel_pending_attempt, perform_attempt. rests_walk. Qed.
Lemma signed_rests vault pending head : rests (recover_signed config vault pending head).
Proof. unfold recover_signed, resend_signed. rests_walk. Qed.
Lemma signed_attempt_rests vault pending head :
  rests (recover_signed_pending_attempt config vault pending head).
Proof. unfold recover_signed_pending_attempt. rests_walk. Qed.
#[local] Hint Resolve cancel_rests signed_rests signed_attempt_rests : silent.

Lemma sent_rests vault pending head : rests (advance_sent config identities vault pending head).
Proof.
  unfold advance_sent, recover_orphaned, reconcile_nonce_or_rebroadcast, manage_pending,
    perform_attempt. rests_walk.
Qed.
#[local] Hint Resolve sent_rests : silent.

Lemma lane_rests pending : rests (recover_lane config identities pending).
Proof. unfold recover_lane, advance_pending, advance_state. rests_walk. Qed.

Lemma reconcile_rests processed deferred pending :
  rests (reconcile_lane config identities processed deferred pending).
Proof. unfold reconcile_lane. rests_walk. Qed.

Lemma preflight_failed_rests vault error : rests (preflight_failed vault error).
Proof. unfold preflight_failed. rests_walk. Qed.
#[local] Hint Resolve preflight_failed_rests : silent.

Lemma execute_started vault reason plan w :
  xw_started (execute config identities vault reason plan w).2
  = xw_started w ++ [mkStarted vault reason plan (xw_shared w)].
Proof.
  unfold execute.
  match goal with
  | |- xw_started ((_ ≫= ?f) w).2 = _ => enough (rests (f tt)) as H by apply H
  end.
  rests_walk.
Qed.

(** The start of [st] for [vault] at the state it has seen. *)
Definition ready_to_start (vault : ValidatedVaultConfig) (st : Started) : Prop :=
  vv_address vault = st_vault st /\
  (exists status, runtime_get (sh_runtime (st_seen st)) (st_vault st) = Some status /\
     can_start_transaction (vs_state status) = true) /\
  exists plan, api_plan (sh_api (st_seen st)) (st_vault st) = Some plan /\
    pl_reason plan = st_reason st /\ pl_plan_id plan = st_plan st.

Lemma start_lane_started excluded signer_vaults start offsets w :
  let w' := (start_lane config identities excluded signer_vaults start offsets w).2 in
  xw_started w' = xw_started w \/
  exists vault st, xw_started w' = xw_started w ++ [st] /\ vault ∈ signer_vaults /\
    vv_address vault ∉ excluded /\ ready_to_start vault st.
Proof.
  induction offsets as [|offset offsets IH]; cbn [start_lane]; [by left|].
  destruct (round_robin_index _ _ _) as [index|]; [|by left].
  destruct (signer_vaults !! _) as [vault|] eqn:Hv; [|by left].
  case_bool_decide as Hx; [exact IH|].
  unfold mbind, xio_bind, registry_get, shared_read. cbn.
  destruct (api_plan _ _) as [plan|] eqn:Hp; [|exact IH].
  destruct (from_option _ _ _) eqn:Hs; [|exact IH].
  destruct (checked_add _ _ _) as [next|]; [|by left]. cbn.
  right. exists vault. eexists. split; [etransitivity; [apply execute_started|reflexivity]|].
  split; [by eapply list_elem_of_lookup_2|]. split; [done|]. split; [done|]. cbn.
  split; [|by exists plan]. unfold runtime_get in *.
  destruct (_ !! vv_address vault) as [status|]; [by exists status|done].
Qed.

Lemma start_lanes_started processed excluded signers w :
  exists lanes : list (ValidatedVaultConfig * Started),
    xw_started (start_lanes config identities processed excluded signers w).2
      = xw_started w ++ lanes.*2 /\
    NoDup (vv_signer_address <$> lanes.*1) /\
    Forall (fun lane => lane.1 ∈ vaults /\ vv_signer_address lane.1 ∉ processed /\
                        vv_address lane.1 ∉ excluded /\ ready_to_start lane.1 lane.2) lanes.
Proof.
  revert processed w. induction signers as [|signer signers IH]; intros processed w.
  { exists []. cbn. rewrite app_nil_r. split; [done|]. split; constructor. }
  cbn [start_lanes]. case_bool_decide as Hp; [apply IH|].
  unfold mbind, xio_bind. cbv beta iota zeta.
  pose proof (start_lane_started excluded
    (List.filter (fun vault => vv_signer_address vault =? signer) vaults)
    (xw_next_vault_index w)
    (seqZ 0 (Z.of_nat (length (List.filter (fun vault => vv_signer_address vault =? signer) vaults))))
    w) as Hs.
  fold vaults. destruct (start_lane _ _ _ _ _ _ w) as [r w1]. cbn in Hs.
  assert (exists here : list (ValidatedVaultConfig * Started),
    xw_started w1 = xw_started w ++ here.*2 /\ (length here <= 1)%nat /\
    Forall (fun lane => lane.1 ∈ vaults /\ vv_signer_address lane.1 = signer /\
                        vv_address lane.1 ∉ excluded /\ ready_to_start lane.1 lane.2) here)
    as (here & Hw1 & Hlen & Hhere).
  { destruct Hs as [Hs|(vault & st & Hs & Hv & Hx & Hr)].
    - exists []. rewrite Hs, app_nil_r. split_and!; [done|cbn; lia|constructor].
    - exists [(vault, st)]. split; [done|]. split; [cbn; lia|]. constructor; [|constructor].
      apply list_elem_of_In, filter_In in Hv as [Hv E]. bool_spec E.
      cbn. split_and!; try done. by apply list_elem_of_In. }
  assert (NoDup (vv_signer_address <$> here.*1)) as Hnd.
  { destruct here as [|? [|??]]; cbn in *; [constructor|apply NoDup_singleton|lia]. }
  assert (forall lane, lane ∈ here -> vv_signer_address lane.1 ∉ processed) as Hnp.
  { intros lane Hl. rewrite Forall_forall in Hhere. by destruct (Hhere lane Hl) as (_ & -> & _). }
  destruct r as [[]|e].
  - destruct (IH ({[signer]} ∪ processed) w1) as (lanes & Hl & Hn & Hf).
    exists (here ++ lanes). rewrite Hl, Hw1, !fmap_app, app_assoc. split; [done|]. split.
    + apply NoDup_app. split; [done|]. split; [|done]. intros x Hx Hx'.
      rewrite !list_elem_of_fmap in *. destruct Hx as (? & -> & (lane & -> & Hlane)%list_elem_of_fmap).
      destruct Hx' as (? & Hsame & (lane' & -> & Hlane')%list_elem_of_fmap).
      rewrite Forall_forall in Hhere, Hf. destruct (Hhere _ Hlane) as (_ & Hsg & _).
      destruct (Hf _ Hlane') as (_ & Hno & _). rewrite <-Hsame, Hsg in Hno. set_solver.
    + rewrite Forall_forall in Hhere, Hf |- *. intros lane [Hin|Hin]%elem_of_app.
      * destruct (Hhere lane Hin) as (? & _ & ? & ?). auto.
      * destruct (Hf lane Hin) as (? & ? & ? & ?). set_solver.
  - exists here. split; [done|]. split; [done|]. rewrite Forall_forall in *. intros lane Hin.
    destruct (Hhere lane Hin) as (? & ? & ? & ?). auto.
Qed.

Lemma stored_Ok {A} (f : JsonState -> result StorageError A) w a w' :
  stored f w = (Ok a, w') -> f (sh_storage (xw_shared w)) = Ok a.
Proof.
  unfold stored, run_io, Conformance.query. destruct (f _) as [b|e]; cbn; [|done].
  by intros [= <- _].
Qed.

(** What a tick has done before it starts anything. *)
Record tick_recovered (w : ExecutionWorld) (unresolved : list UnresolvedTransaction)
    (pending : list PendingReconciliationTransaction) : Prop := {
  tr_ready : sh_provider_ready (xw_shared w) = true;
  tr_unresolved : load_all_unresolved (sh_storage (xw_shared w)) = Ok unresolved;
  tr_pending : exists w0 w1, stored load_all_unresolved w = (Ok unresolved, w0) /\
    xio_each (recover_lane config identities) unresolved w0 = (Ok tt, w1) /\
    load_pending_reconciliations (sh_storage (xw_shared w1)) = Ok pending;
}.

Lemma tick_once_started w :
  xw_started (tick_once config identities w).2 = xw_started w \/
  exists unresolved pending lanes,
    tick_recovered w unresolved pending /\
    xw_started (tick_once config identities w).2 = xw_started w ++ lanes.*2 /\
    NoDup (vv_signer_address <$> lanes.*1) /\
    Forall (fun lane : ValidatedVaultConfig * Started =>
      lane.1 ∈ vaults /\ vv_signer_address lane.1 ∉ un_signer <$> unresolved /\
      vv_address lane.1 ∉ Models.pr_vault <$> pending /\ ready_to_start lane.1 lane.2) lanes.
Proof.
  destruct (tick_once config identities w) as [r w'] eqn:E. cbn [snd]. unfold tick_once in E.
  unfold mbind at 1, xio_bind at 1, shared_read at 1 in E.
  destruct (sh_provider_ready (xw_shared w)) eqn:Hready; [|injection E as _ <-; by left].
  cbn [negb] in E.
  apply xio_bind_cases in E as [(e & H & _)|(unresolved & w0 & Hu & E)].
  { left. pose proof (rests_run XsStorage (fun _ => Conformance.query load_all_unresolved) w) as Hr.
    unfold stored in H. by rewrite H in Hr. }
  pose proof (rests_run XsStorage (fun _ => Conformance.query load_all_unresolved) w) as Hr0.
  unfold stored in Hu. rewrite Hu in Hr0. cbn in Hr0.
  pose proof (rests_each (recover_lane config identities) unresolved lane_rests w0) as Hr1.
  apply xio_bind_cases in E as [(e & H & _)|([] & w1 & Hl & E)].
  { left. rewrite H in Hr1. cbn in Hr1. congruence. }
  rewrite Hl in Hr1. cbn in Hr1. cbv zeta in E.
  pose proof (rests_run XsStorage (fun _ => Conformance.query load_pending_reconciliations) w1)
    as Hr2. unfold stored at 1 in E.
  apply xio_bind_cases in E as [(e & H & _)|(pending & w2 & Hp & E)].
  { left. rewrite H in Hr2. cbn in Hr2. congruence. }
  rewrite Hp in Hr2. cbn in Hr2.
  match type of E with
  | (xio_fold (reconcile_lane _ _ ?processed) _ _ ≫= _) _ = _ =>
      pose proof (rests_fold (reconcile_lane config identities processed) None pending
        (reconcile_rests processed) w2) as Hr3
  end.
  apply xio_bind_cases in E as [(e & H & _)|(deferred & w3 & Hd & E)].
  { left. rewrite H in Hr3. cbn in Hr3. congruence. }
  rewrite Hd in Hr3. cbn in Hr3.
  right. exists unresolved, pending.
  match type of E with
  | (start_lanes _ _ ?processed ?excluded ?signers ≫= _) _ = _ =>
      destruct (start_lanes_started processed excluded signers w3) as (lanes & Hs & Hn & Hf)
  end.
  exists lanes. assert (xw_started w' = xw_started w ++ lanes.*2) as ->.
  { apply xio_bind_cases in E as [(e & H & _)|([] & w4 & H & E)]; rewrite H in Hs; cbn in Hs;
      [|destruct deferred; injection E as _ <-]; congruence. }
  split; [split; [done|by eapply stored_Ok|exists w0, w1; split_and!; [done..|by eapply stored_Ok]]|].
  split; [done|]. split; [done|]. rewrite Forall_forall in *. intros lane Hin.
  destruct (Hf lane Hin) as (Hv & Hs' & Hx & Hr). split; [done|].
  split; [|split; [|done]]; [contradict Hs'|contradict Hx]; by apply elem_of_list_to_set.
Qed.

Lemma count_silent : silent count_provider_failure.
Proof. done. Qed.
Lemma stop_silent : silent stop_provider.
Proof. done. Qed.
#[local] Hint Resolve count_silent stop_silent : silent.

Lemma report_silent error : silent (report_failure error).
Proof. unfold report_failure. silent_walk. Qed.

(** C4: A tick never has two nonces of one signer in flight: it starts fresh
    executions only when the providers are ready and every unresolved row has
    been recovered without an error; at most one per signer; only for a
    configured vault whose signer owned no unresolved row at the start of the
    tick and that has no reconciliation open; and only when the vault was in
    the one state that may start transactions, with that plan published. *)
Theorem fresh_execution_admitted w :
  let w' := (tick config identities w).2 in
  xw_started w' = xw_started w \/
  exists unresolved pending lanes,
    tick_recovered w unresolved pending /\
    xw_started w' = xw_started w ++ lanes.*2 /\
    NoDup (vv_signer_address <$> lanes.*1) /\
    Forall (fun lane : ValidatedVaultConfig * Started =>
      lane.1 ∈ ac_vaults (vg_app config) /\ vv_signer_address lane.1 ∉ un_signer <$> unresolved /\
      vv_address lane.1 ∉ Models.pr_vault <$> pending /\ ready_to_start lane.1 lane.2) lanes.
Proof.
  cbv zeta. pose proof (tick_once_started w) as H.
  assert (xw_started (tick config identities w).2 = xw_started (tick_once config identities w).2)
    as ->; [|done].
  unfold tick. unfold mbind at 1, xio_bind at 1, xio_try. destruct (tick_once _ _ w) as [r w1].
  cbn [snd]. destruct r as [[]|e].
  - refine (rests_silent _ _ w1). unfold refresh_transactions. silent_walk.
  - refine (rests_silent _ _ w1). silent_walk; [apply quarantine_silent|apply report_silent].
Qed.
End Starts.

(** ** What the registry refuses to the worker *)

(** The entry into recovery needs a state that permits it. *)
Lemma entered_recovery status status' :
  enter_recovery status = (status', Ok tt) -> vault_permits (vs_state status) RvRecovery = true.
Proof.
  unfold enter_recovery, writing, and_then, record_planning, bump_revision.
  destruct (checked_add _ _ _); [|done]. intros [H _]%transition_ok. exact H.
Qed.

(** A vault whose transaction only awaits reconciliation is in one of these
    states, and its recovery is refused after the transaction was finalized. *)
Example recovery_refused :
  forallb (fun state => negb (vault_permits state RvRecovery))
    [RvAutomatic; RvCatchingUp; RvPendingDeployment; RvIdleLocksActive] = true.
Proof. reflexivity. Qed.

(** The states that refuse the pause of their signer. *)
Example pause_refused_states :
  forallb (fun state => negb (vault_permits state RvPausedSignerFailure))
    [RvStarting; RvObserve; RvShadow] = true.
Proof. reflexivity. Qed.

(** ** What a signer quarantine leaves *)

Definition signer_paused (r : RuntimeRegistry) (vault : VaultAddress) : Prop :=
  exists status, r !! vault = Some status /\ vs_state status = RvPausedSignerFailure.

(** Between [r] and [r'], statuses are only paused. *)
Definition pauses_only (r r' : RuntimeRegistry) : Prop :=
  forall a, match r !! a, r' !! a with
            | None, None => True
            | Some v, Some v' => v' = v \/ vs_state v' = RvPausedSignerFailure
            | _, _ => False
            end.

(** Why the registry refuses to pause a vault. *)
Definition pause_refused (r r' : RuntimeRegistry) (vault : VaultAddress) : Prop :=
  r !! vault = None \/
  (exists status, r !! vault = Some status /\
     vault_permits (vs_state status) RvPausedSignerFailure = false) \/
  exists status, r' !! vault = Some status /\ U64_MAX <= vs_revision status.

#[global] Instance pauses_only_preorder : PreOrder pauses_only.
Proof.
  split.
  - intros r a. destruct (r !! a); auto.
  - intros r1 r2 r3 H1 H2 a. specialize (H1 a). specialize (H2 a).
    destruct (r1 !! a), (r2 !! a), (r3 !! a); try done.
    destruct H2 as [->|?]; [done|by right].
Qed.

Lemma paused_stays r r' vault :
  pauses_only r r' -> signer_paused r vault -> signer_paused r' vault.
Proof.
  intros H (status & Hs & Hp). specialize (H vault). rewrite Hs in H.
  destruct (r' !! vault) as [v|] eqn:E; [|done]. exists v. destruct H as [->|]; done.
Qed.

Lemma refused_earlier r0 r r' vault :
  pauses_only r0 r -> pause_refused r r' vault -> pause_refused r0 r' vault.
Proof.
  intros H [Hn|[(status & Hs & Hp)|?]]; [|right; left|by right; right].
  - left. specialize (H vault). rewrite Hn in H. by destruct (r0 !! vault).
  - specialize (H vault). rewrite Hs in H. destruct (r0 !! vault) as [v|]; [|done].
    exists v. split; [done|]. destruct H as [->|Hst]; [done|]. rewrite Hst in Hp. done.
Qed.

Lemma pause_update r vault reason r' answer :
  runtime_update r vault (transition RvPausedSignerFailure reason) = (r', answer) ->
  pauses_only r r' /\
  match answer with
  | Ok _ => signer_paused r' vault
  | Err _ => pause_refused r r' vault
  end.
Proof.
  unfold runtime_update. destruct (r !! vault) as [v|] eqn:Hv; [|intros [= <- <-]].
  2: { split; [done|by left]. }
  destruct (transition RvPausedSignerFailure reason v) as [v' ans] eqn:Ht. intros [= <- <-].
  assert (v' = v \/ vs_state v' = RvPausedSignerFailure) as Hst.
  { unfold transition, bump_revision in Ht. destruct (negb _); [injection Ht as <- _; by left|].
    destruct (checked_add _ _ _); injection Ht as <- _; by right. }
  split.
  - intros a. destruct (decide (a = vault)) as [->|Ha].
    + by rewrite Hv, lookup_insert_eq.
    + rewrite lookup_insert_ne by done. destruct (r !! a); auto.
  - destruct ans as [[]|e].
    + apply transition_ok in Ht as (_ & _ & ->). eexists. by rewrite lookup_insert_eq.
    + unfold transition, bump_revision in Ht. destruct (negb _) eqn:Ep.
      { right. left. exists v. bool_spec Ep. done. }
      destruct (checked_add _ _ _) as [|] eqn:Ec; [done|]. injection Ht as <- _.
      right. right. eexists. rewrite lookup_insert_eq. split; [done|].
      unfold checked_add in Ec. destruct (_ <=? _) eqn:El in Ec; [done|]. bool_spec El.
      cbn in El |- *. lia.
Qed.

Section Quarantine.
Context `{HX : ExecutionEnvironment} `{HK : Keccak} `{HA : AbiParams} `{HC : AbiCaps}.
Context `{HJ : PlanJson} `{HV : VaultAbi} `{HE : EventAbi} `{HB : AdminAbi}.
Context `{HS : SnapshotJson} `{HR : ReportJson} `{HT : StateReportJson}.
Context (config : ValidatedConfig) (identities : RuntimeIdentities).

Let vaults := ac_vaults (vg_app config).
Let registry (w : ExecutionWorld) : RuntimeRegistry := sh_runtime (xw_shared w).

(** [c] pauses the vaults of [targets], or stops at one that refuses. *)
Definition quarantines (targets : list ValidatedVaultConfig) (c : xio unit) : Prop :=
  forall w r w', c w = (r, w') ->
    pauses_only (registry w) (registry w') /\
    match r with
    | Ok _ => forall vault, vault ∈ targets -> signer_paused (registry w') (vv_address vault)
    | Err e => exists error vault, e = XsController error /\ vault ∈ targets /\
                 pause_refused (registry w) (registry w') (vv_address vault)
    end.

Lemma quarantines_nil : quarantines [] (mret tt).
Proof. intros w r w' [= <- <-]. split; [done|]. set_solver. Qed.

Lemma quarantines_bind l1 l2 c1 c2 :
  quarantines l1 c1 -> quarantines l2 c2 -> quarantines (l1 ++ l2) (c1 ≫= fun _ => c2).
Proof.
  intros H1 H2 w r w' [(e & H & ->)|([] & w1 & H & Hf)]%xio_bind_cases; apply H1 in H as [Hp Hr].
  - split; [done|]. destruct Hr as (error & vault & -> & Hin & Href).
    exists error, vault. split_and!; [done| |done]. apply elem_of_app. by left.
  - apply H2 in Hf as [Hp' Hr']. split; [by transitivity (registry w1)|]. destruct r as [[]|e].
    + intros vault [Hin|Hin]%elem_of_app; [|by apply Hr']. eapply paused_stays; [done|by apply Hr].
    + destruct Hr' as (error & vault & -> & Hin & Href). exists error, vault.
      split_and!; [done| |by eapply refused_earlier]. apply elem_of_app. by right.
Qed.

Lemma quarantines_update vault reason :
  quarantines [vault] (update (vv_address vault) (transition RvPausedSignerFailure (Some reason))).
Proof.
  intros w r w' H. unfold update in H.
  destruct (runtime_update _ _ _) as [reg answer] eqn:E. injection H as <- <-.
  apply pause_update in E as [Hp Ha]. split; [done|]. destruct answer as [[]|e]; cbn.
  - intros v ->%list_elem_of_singleton. done.
  - exists e, vault. split_and!; [done|by apply list_elem_of_singleton|done].
Qed.

Lemma quarantines_account signer reason :
  quarantines (List.filter (fun vault => vv_signer_address vault =? signer) vaults)
    (pause_signer_account config signer reason).
Proof.
  unfold pause_signer_account. fold vaults.
  induction (List.filter _ vaults) as [|vault l IH]; cbn [xio_each]; [apply quarantines_nil|].
  apply (quarantines_bind [vault] l); [apply quarantines_update|exact IH].
Qed.

Lemma quarantines_each signers reason :
  quarantines (concat ((fun signer =>
      List.filter (fun vault => vv_signer_address vault =? signer) vaults) <$> signers))
    (xio_each (fun signer => pause_signer_account config signer reason) signers).
Proof.
  induction signers as [|signer signers IH]; cbn [xio_each fmap list_fmap concat];
    [apply quarantines_nil|].
  apply quarantines_bind; [apply quarantines_account|exact IH].
Qed.

Lemma enforce_quarantines reason w r w' :
  enforce_signer_quarantine config reason w = (r, w') ->
  match r with
  | Ok _ => forall vault, vault ∈ vaults -> signer_paused (registry w') (vv_address vault)
  | Err e => exists error vault, e = XsController error /\ vault ∈ vaults /\
               pause_refused (registry w) (registry w') (vv_address vault)
  end.
Proof.
  intros [_ H]%quarantines_each. destruct r as [[]|e].
  - intros vault Hv. apply H, elem_of_concat_map. exists (vv_signer_address vault). split.
    + apply elem_of_set_elements, elem_of_list_to_set, list_elem_of_fmap. by exists vault.
    + apply list_elem_of_In, filter_In. rewrite Z.eqb_refl. split; [by apply list_elem_of_In|done].
  - destruct H as (error & vault & -> & Hin & Href). exists error, vault. split_and!; try done.
    apply elem_of_concat_map in Hin as (signer & _ & Hin).
    apply list_elem_of_In, filter_In in Hin as [Hin _]. by apply list_elem_of_In.
Qed.

Lemma quarantine_not_provider error reason :
  disposition error = QuarantineSigner reason -> provider_dependency_failed error = false.
Proof.
  destruct error; cbn; try done; repeat (case_match; try done).
Qed.

(** C5: A failure that quarantines signers stops all signing: when a tick ends
    in such a failure, every configured vault is paused for its signer and the
    failure is reported as it is, unless the registry refused one of the
    pauses, which the worker reports instead: the vault is unknown, is in a
    state that does not permit the pause, or has used up its revisions. *)
Theorem signer_quarantine_enforced w failure w1 reason :
  tick_once config identities w = (Err failure, w1) ->
  disposition failure = QuarantineSigner reason ->
  exists error w', tick config identities w = (Err error, w') /\
    ((error = failure /\
      forall vault, vault ∈ ac_vaults (vg_app config) ->
        signer_paused (sh_runtime (xw_shared w')) (vv_address vault)) \/
     exists refusal vault, error = XsController refusal /\ vault ∈ ac_vaults (vg_app config) /\
       pause_refused (sh_runtime (xw_shared w1)) (sh_runtime (xw_shared w')) (vv_address vault)).
Proof.
  intros Ht Hd. unfold tick. unfold mbind at 1, xio_bind at 1, xio_try. rewrite Ht, Hd.
  pose proof (quarantine_not_provider _ _ Hd) as Hp.
  unfold mbind at 1, xio_bind at 1.
  destruct (enforce_signer_quarantine config reason w1) as [[[]|e] w2] eqn:E;
    apply enforce_quarantines in E; cbv beta iota in E.
  - unfold mbind, xio_bind, report_failure. rewrite Hp.
    assert (exists w3, (if signer_dependency_failed failure
                        then emit_alert P0 AlSignerFailure None
                        else if contract_identity_failed failure
                             then emit_alert P0 UnsupportedDependency None
                             else mret tt) w2 = (Ok tt, w3) /\ xw_shared w3 = xw_shared w2)
      as (w3 & -> & Hw).
    { repeat case_match; eexists; (split; [reflexivity|done]). }
    exists failure, w3. split; [done|]. left. split; [done|]. rewrite Hw. exact E.
  - exists e, w2. split; [done|]. right. exact E.
Qed.
End Quarantine.

(** ** The fees of a lane *)

Section Ladder.
Context (config : ValidatedConfig).

Let ceiling := ex_maximum_fee_per_gas_wei (ac_execution (vg_app config)).

Lemma bump_fee_raises value raised : 0 <= value -> bump_fee value = Some raised -> value < raised.
Proof.
  unfold bump_fee. intros Hv. destruct (checked_add _ value 7) as [a|] eqn:E; [|done].
  apply checked_add_Some in E as [-> _]. cbn. intros [-> _]%checked_add_Some. lia.
Qed.

(** The fees of the next attempt of a lane, from the fees it has: the configured
    ceiling is read as a fee first. *)
Definition next_fees (decision : PendingDecision) (fees : Z * Z)
    : result ExecutionServiceError (PendingDecision * (Z * Z)) :=
  maximum ← configured_maximum config;
  attempt_fees decision fees.1 fees.2 maximum.

Lemma configured_maximum_fee :
  configured_maximum config = if ceiling <=? U128_MAX then Ok ceiling else Err XsFeeRange.
Proof. unfold configured_maximum, u128, try_from_u, ceiling. by destruct (_ <=? _). Qed.

(** The fees a lane can have without a cancellation: an initial quote, raised
    by replacements. *)
Inductive fee_ladder : Z * Z -> Prop :=
  | ladder_initial quote maximum priority cost :
      0 <= fq_gas_price quote -> 0 <= fq_max_priority_fee_per_gas quote ->
      initial_fees config quote = Ok (maximum, priority, cost) ->
      fee_ladder (maximum, priority)
  | ladder_replaced fees fees' :
      fee_ladder fees -> next_fees Replace fees = Ok (Replace, fees') ->
      fee_ladder fees'.

Lemma initial_fees_Ok quote maximum priority cost :
  initial_fees config quote = Ok (maximum, priority, cost) ->
  maximum < ceiling /\ maximum = Z.min (2 * fq_gas_price quote) (ceiling - 1) /\
  priority = Z.min (fq_max_priority_fee_per_gas quote) maximum.
Proof.
  intros H. unfold initial_fees in H. step_ok H as fees Hf. step_ok H as c Hc.
  injection H as <- <- _. destruct fees as [m p]. apply map_err_Ok in Hf. cbn.
  unfold initial_fee_quote in Hf. destruct (_ || _) eqn:E; [done|].
  cbv zeta in Hf. step_ok Hf as m0 H0. step_ok Hf as d Hd. step_ok Hf as m1 Hm.
  step_ok Hf as p1 Hp'. injection Hf as -> ->.
  apply ok_or_Ok, checked_sub_Some in H0 as [-> _].
  apply ok_or_Ok, checked_mul_Some in Hd as [-> _].
  apply ok_or_Ok, try_from_u_Some in Hm as [-> _].
  apply ok_or_Ok, try_from_u_Some in Hp' as [-> _]. unfold ceiling. lia.
Qed.

Lemma initial_fees_ordered quote maximum priority cost :
  0 <= fq_gas_price quote -> 0 <= fq_max_priority_fee_per_gas quote ->
  initial_fees config quote = Ok (maximum, priority, cost) -> 0 <= priority <= maximum.
Proof.
  intros Hg Hp H. pose proof (initial_fees_Ok _ _ _ _ H) as (_ & Hm & ->).
  unfold initial_fees, initial_fee_quote in H. destruct (_ || _) eqn:E in H; [done|].
  bool_spec E. fold ceiling in E. lia.
Qed.

(** What [attempt_fees] gives below the ceiling. *)
Lemma attempt_fees_below maximum priority decision :
  0 <= priority <= maximum -> maximum < ceiling -> decision <> Wait ->
  exists decision' fees,
    attempt_fees decision maximum priority ceiling = Ok (decision', fees) /\
    validate_replacement_fees maximum priority fees.1 fees.2 ceiling = Ok tt /\
    ((decision = Replace /\ decision' = Replace /\ fees.2 <= fees.1 < ceiling) \/
     (exists reason, decision' = Cancel reason) /\ fees = (ceiling, ceiling)).
Proof.
  intros Hp Hm Hd.
  assert (cancellation_fees maximum priority ceiling = Ok (ceiling, ceiling)) as Hc.
  { unfold cancellation_fees. destruct (_ || _) eqn:E; bool_spec E; [lia|done]. }
  assert (validate_replacement_fees maximum priority ceiling ceiling ceiling = Ok tt) as Hv
    by (apply replacement_fees_spec; lia).
  destruct decision as [| |reason]; [done| |]; cbn [attempt_fees]; rewrite Hc.
  - destruct (bump_fee maximum) as [mf|] eqn:Em; [|eexists _, _; eauto 8].
    destruct (bump_fee priority) as [pf|] eqn:Ep; [|eexists _, _; eauto 8].
    apply bump_fee_raises in Em, Ep; [|lia..].
    destruct (_ && _) eqn:E; [|eexists _, _; eauto 8]. bool_spec E.
    eexists _, _. split; [done|]. split; [apply replacement_fees_spec; cbn; lia|].
    left. cbn. split_and!; done || lia.
  - eexists _, _. eauto 8.
Qed.

Lemma ladder_below fees : fee_ladder fees -> 0 <= fees.2 <= fees.1 /\ fees.1 < ceiling.
Proof.
  induction 1 as [quote m p c Hg Hp Hi|fees fees' _ [H1 H2] Ha]; cbn.
  - pose proof (initial_fees_ordered _ _ _ _ Hg Hp Hi). apply initial_fees_Ok in Hi. lia.
  - unfold next_fees in Ha. rewrite configured_maximum_fee in Ha.
    destruct (_ <=? U128_MAX); [|done].
    change (attempt_fees Replace fees.1 fees.2 ceiling = Ok (Replace, fees')) in Ha.
    destruct (attempt_fees_below fees.1 fees.2 Replace H1 H2)
      as (d & f & Hf & Hv & Hc); [done|]. rewrite Ha in Hf. injection Hf as <- <-.
    apply replacement_fees_spec in Hv. destruct Hc as [(_ & _ & ?)|[(? & [=]) _]]. lia.
Qed.

(** C36: The fee of a lane never blocks the next attempt, provided the
    configured ceiling is a 128-bit number: from an initial quote and any number
    of replacements on, every replacement or cancellation gets fees that the
    attempt accepts.  A replacement stays strictly below the ceiling, or becomes
    a cancellation; only a cancellation pays the ceiling.  Under a larger
    ceiling, which the configuration and the initial quote accept, no lane ever
    gets another attempt: reading the ceiling as a fee fails with [FeeRange]. *)
Theorem fee_ladder_leaves_room fees decision :
  fee_ladder fees -> decision <> Wait ->
  if ceiling <=? U128_MAX then
    exists decision' fees',
      next_fees decision fees = Ok (decision', fees') /\
      validate_replacement_fees fees.1 fees.2 fees'.1 fees'.2 ceiling = Ok tt /\
      ((decision = Replace /\ decision' = Replace /\ fees'.2 <= fees'.1 < ceiling) \/
       (exists reason, decision' = Cancel reason) /\ fees' = (ceiling, ceiling))
  else next_fees decision fees = Err XsFeeRange.
Proof.
  intros [H1 H2]%ladder_below Hd. unfold next_fees. rewrite configured_maximum_fee.
  destruct (ceiling <=? U128_MAX); [|done]. by apply attempt_fees_below.
Qed.

(** A lane whose cancellation has been signed cannot be cancelled again. *)
Lemma cancelled_lane_is_final priority : cancellation_fees ceiling priority ceiling = Err XsFeeRange.
Proof. unfold cancellation_fees. by rewrite Z.leb_refl. Qed.
End Ladder.

(** ** What a fresh execution signs *)

Section Fresh.
Context `{HX : ExecutionEnvironment} `{HK : Keccak} `{HA : AbiParams} `{HC : AbiCaps}.
Context `{HJ : PlanJson} `{HV : VaultAbi} `{HE : EventAbi} `{HB : AdminAbi}.
Context `{HS : CanonicalJson} `{HR : ReportJson} `{HT : StateReportJson} `{HN : Envelope2718}.
Context (config : ValidatedConfig) (identities : RuntimeIdentities).
Context `{HL : !forall o, RoutineSignerLaws (signer_at o)}.
Context `{HP : !forall o id, PreflightProviderLaws (providers_at o) id}.

Let chain_id := vc_chain_id (ac_chain (vg_app config)).
Let execution := ac_execution (vg_app config).

(** [c] lets at most one submission leave, which satisfies [P] at its durable
    state. *)
Definition submits (P : Bytes -> JsonState -> Prop) {A} (c : xio A) : Prop :=
  forall w, xw_submissions (c w).2 = xw_submissions w \/
    exists raw s, xw_submissions (c w).2 = xw_submissions w ++ [(raw, s)] /\ P raw s.

Lemma submits_silent P {A} (c : xio A) : silent c -> submits P c.
Proof. intros Hc w. left. apply Hc. Qed.

Lemma submits_bind P {A B} (c : xio A) (f : A -> xio B) :
  silent c -> (forall a, submits P (f a)) -> submits P (c ≫= f).
Proof.
  intros Hc Hf w. unfold mbind, xio_bind. destruct (Hc w) as [_ Hs].
  destruct (c w) as [[a|e] w1]; cbn in *; [|by left]. rewrite <-Hs. apply Hf.
Qed.

Lemma submits_then P {A B} (c : xio A) (f : A -> xio B) :
  submits P c -> (forall a, silent (f a)) -> submits P (c ≫= f).
Proof.
  intros Hc Hf w. unfold mbind, xio_bind. specialize (Hc w).
  destruct (c w) as [[a|e] w1]; cbn in *; [|done]. by destruct (Hf a w1) as [_ ->].
Qed.

Lemma submits_lift P {A B} (r : result ExecutionServiceError A) (f : A -> xio B) :
  (forall a, r = Ok a -> submits P (f a)) -> submits P (xio_lift r ≫= f).
Proof. intros Hf w. destruct r as [a|e]; [exact (Hf a eq_refl w)|]. by left. Qed.

(** The bytes [raw], durable in [s], are a transaction of the vault signed by
    its signer, with a plan that stands on an exact state and passed the
    firewall, and with a fee below the ceiling. *)
Definition fresh_bytes (vault_address : VaultAddress) (reason : PlanReason) (raw : Bytes)
    (s : JsonState) : Prop :=
  exists vault prepared context head api transaction signed row,
    configured config vault_address = Some vault /\
    plan_exact config identities vault_address reason api head prepared context /\
    validate_routine_transaction (pf_plan prepared) (vt_fields transaction) chain_id vault
      execution = Ok transaction /\
    rt_max_fee_per_gas (vt_fields transaction) < ex_maximum_fee_per_gas_wei execution /\
    se_raw_transaction signed = raw /\
    carries signed (vv_signer_address vault) (eip1559 transaction) /\
    row ∈ js_transactions s /\ tx_state row = Signed /\
    tx_raw_signed_transaction row = Some raw /\
    nr_vault (tx_reservation row) = vault_address /\
    nr_nonce (tx_reservation row) = rt_nonce (vt_fields transaction).

Lemma rebuild_plan_Ok (P : PreflightProviders) (X : ExactPreflightSource) vault request w a w' :
  rebuild config vault request w = (Ok a, w') ->
  exists head scenarios w0 w1, rebuild_plan head scenarios w0 = (Ok a, w1).
Proof.
  unfold rebuild. intros H. io_step H as head w1 H1. io_step H as u w2 H2.
  io_step H as sc w3 H3. io_step H as built w4 H4. io_step H as u' w5 H5.
  io_step H as u'' w6 H6. injection H as <- _. apply io_map_err_Ok in H4. eauto.
Qed.

Lemma preflight_submits vault_address vault reason api nonce maximum priority id :
  configured config vault_address = Some vault ->
  maximum < ex_maximum_fee_per_gas_wei execution ->
  submits (fresh_bytes vault_address reason) (attempt_io (fun o =>
    execute_one_head_preflight (HS := signer_at o) (HU := submitter_at o) (HP := providers_at o)
      (HX := LiveRatePreflightSource (HR := reads_at o) config identities (vv_address vault)
               reason api (ready_at_gate o))
      (reservations_at o) config vault (clock_at o)
      (mkExecutePreflightRequest id (derive_signer_request_id id) nonce maximum
         priority))).
Proof.
  intros Hv Hfee w. unfold attempt_io, run_io.
  pose proof (configured_address _ _ _ Hv) as Ha. rewrite Ha.
  set (request := mkExecutePreflightRequest _ _ _ _ _).
  set (X := LiveRatePreflightSource _ _ _ _ _ _).
  assert (PreflightLaws (providers_at (xw_occasion w)) X (er_transaction_id request)) as HW
    by (split; [apply HP|apply live_source_meets_interface]).
  destruct (execute_one_head_preflight _ _ _ _ _ _) as [r w'] eqn:E. cbn.
  eapply (preflight_cases _ _ X request (HL := HL (xw_occasion w)) (HW := HW)) in E
    as [[-> _]|(held & prepared & context & simulated & gate & signed & w0 & w1 & w2 & w3 & s & _ &
        _ & Hb & [_ [Hpv _]] & _ & _ & Hfw & _ & _ & Hcar & [(row & Hrow & Hst & Hres & Hraw & _) _] &
        -> & _)]; [by left|right].
  eexists _, _. split; [done|].
  apply rebuild_plan_Ok in Hb as (head & scenarios & w0' & w1' & Hb).
  apply (live_plan_exact (HR := reads_at (xw_occasion w))) in Hb.
  pose proof Hfw as (Ht & _)%validate_routine_transaction_Ok.
  exists vault, prepared, context, head, api, (sm_transaction simulated), signed, row.
  split; [done|]. split; [exact Hb|]. split; [by rewrite Ht in Hfw |- *|].
  split; [by rewrite Ht|]. split; [done|]. split; [exact Hcar|].
  split; [by apply find_has_id in Hrow as [? _]|]. split; [done|]. split; [done|].
  rewrite Hres. split; [|done]. cbn. by rewrite Hpv.
Qed.

#[local] Hint Resolve pause_signer_silent confirmed_nonce_silent gas_budget_silent
  transaction_budget_silent : silent.

Lemma after_start_submits (P : Bytes -> JsonState -> Prop) {A} vault reason plan (f : unit -> xio A) :
  submits P (f tt) -> submits P (record_started vault reason plan ≫= f).
Proof. intros Hf w. exact (Hf (record_started vault reason plan w).2). Qed.

Lemma preflight_failed_silent vault error : silent (preflight_failed vault error).
Proof. unfold preflight_failed. silent_walk. Qed.
#[local] Hint Resolve preflight_failed_silent : silent.

(** C2: A fresh execution sends only what is exact, checked and durable:
    whatever the providers, the signer and the other tasks do, it lets at most
    one submission leave.  Its bytes are a transaction of the configured vault,
    signed by its signer with a fee below the ceiling; the plan passed the
    firewall and stands on an exact state of that vault, usable and under the
    pinned identities, on which it passes every guard of its reason in each
    inclusion scenario; and when the bytes leave, the durable state holds them
    in the signed row that owns their nonce. *)
Theorem fresh_execution_exact vault_address reason plan_id w :
  let w' := (execute config identities vault_address reason plan_id w).2 in
  xw_submissions w' = xw_submissions w \/
  exists raw s, xw_submissions w' = xw_submissions w ++ [(raw, s)] /\
    fresh_bytes vault_address reason raw s.
Proof.
  cbv zeta. unfold execute. apply after_start_submits.
  apply submits_lift. intros vault Hv%ok_or_Ok.
  do 4 (apply submits_bind; [solve [silent_walk]|intros ?]).
  apply submits_lift. intros [[maximum priority] cost] Hf.
  apply submits_bind; [solve [silent_walk]|intros balance].
  destruct (_ <? cost); [apply submits_silent; silent_walk|].
  do 2 (apply submits_bind; [solve [silent_walk]|intros ?]). cbv zeta.
  apply submits_then.
  - apply preflight_submits; [done|]. by apply initial_fees_Ok in Hf as [? _].
  - intros [o|e]; silent_walk.
Qed.
End Fresh.
