(* ===== verification/RuntimeExample.v ===== *)
(** * The runtime services on concrete worlds

    One configured vault with an adapter, its locked code, its watched logs and
    the readings of its chain: the applications of the theorems of [Identity],
    [Snapshot], [EventSources], [IdleReplay], [StateServiceProofs],
    [Coordinator] and [ExecutionProofs]. *)
From Stdlib Require Import ZArith Lia Bool String.
From stdpp Require Import base gmap sets strings list.
From S2P Require Import Prelude.
From S2P Require Import BlueMath.
From S2P Require Import Domain.
From S2P Require Import Config.
From S2P Require Import Caps.
From S2P Require Import IdleLocks.
From S2P Require Import Projection.
From S2P Require Import Simulator.
From S2P Require Import SimulatorProofs.
From S2P Require Import Episodes.
From S2P Require Import Objective.
From S2P Require Import Calldata.
From S2P Require Import Firewall.
From S2P Require Import FirewallExample.
From S2P Require Import Capital.
From S2P Require Import Revision.
From S2P Require Import Planning.
From S2P Require Import Models.
From S2P Require Import Storage.
From S2P Require Import StorageExample.
From S2P Require Import Actor.
From S2P Require Import PlanService.
From S2P Require Import Logs.
From S2P Require Import Topology.
From S2P Require Import TopologyProofs.
From S2P Require Import ProtocolLock.
From S2P Require Import Provider.
From S2P Require Import Heads.
From S2P Require Import Conformance.
From S2P Require Import Reconciliation.
From S2P Require Import ConformanceExample.
From S2P Require Import Identity.
From S2P Require Import Snapshot.
From S2P Require Import Controller.
From S2P Require Import ApiStore.
From S2P Require Import EventSources.
From S2P Require Import IdleReplay.
From S2P Require Import StateService.
From S2P Require Import StateServiceProofs.
From S2P Require Import Coordinator.
From S2P Require Import Signer.
From S2P Require Import Pending.
From S2P Require Import SigningProofs.
From S2P Require Import SigningExample.
From S2P Require Import FinalPreflight.
From S2P Require Import FinalPreflightProofs.
From S2P Require Import LiveSources.
From S2P Require Import Execution.
From S2P Require Import ExecutionProofs.
Open Scope Z_scope.

Module RuntimeExample.

#[local] Existing Instance sum_keccak.
#[local] Existing Instance word_abi.
#[local] Existing Instance ConformanceExample.word_events.
#[local] Existing Instance ConformanceExample.word_events_laws.
#[local] Existing Instance TopologyExample.brief_admin.
#[local] Instance word_caps : AbiCaps := {|
  abi_encode_this a := [a];
  abi_encode_collateral a := [1; a];
  abi_encode_market a p := [2; a; mp_collateral_token p];
|}.
#[local] Instance brief_snapshot : CanonicalJson := fun s =>
  Some [pv_vault (cx_parent s); blk_number (ctx_block (cx_context s));
        pv_idle_assets (cx_parent s); ils_unattributed_idle_assets (cx_idle_locks s)].

(** ** The vault and its lock *)

Definition vault : ValidatedVaultConfig :=
  mkValidatedVaultConfig "example"%string 1 2 6 101 5 9 SpreadEqualization false 1 0 10 0 0
    5000 20000 0 0 0 0 1000 0 false true false true 7 0 [9] []
    (mkValidatedRateGroupConfig "group"%string 0 0 0 1000000000000 false)
    [mkValidatedAdapterConfig 31 MorphoMarketV1AdapterV2 131 4] None [].

Definition config : ValidatedConfig :=
  mkValidatedConfig
    (mkValidatedAppConfig 1
       (mkValidatedNodeConfig "node"%string ModeExecute "data"%string 1000 1000)
       (mkValidatedChainConfig "chain"%string 1 3 4 104 0 100 10 EveryCanonicalBlock [])
       (mkValidatedSnapshotConfig PinnedBlock true 2 2 3 10 1000 1000)
       execution (mkSolverConfigCanonical 100 4 4 4 false) strategy
       (RemoteSigner "signer"%string)
       (mkValidatedAlertConfig (mkTelegramConfig false ""%string ""%string None)
          (mkPagerDutyConfig false ""%string))
       [vault])
    0.

Definition locked (kind : IdentityKind) (address hash : Z)
    (proxy : option ValidatedProxyImplementationIdentity) : ValidatedContractIdentity :=
  mkValidatedContractIdentity "contract" kind address hash "repository" "commit" "source" "0.8"
    true 200 ∅ (match proxy with Some _ => PinnedProxy | None => RejectProxy end) proxy "profile".

Definition lock : ValidatedProtocolLock :=
  mkValidatedProtocolLock 1 1
    [locked IkMorphoSingleton 3 103 None; locked IkMulticall3 4 104 None;
     locked IkVaultV2 1 101 None;
     locked IkAssetToken 2 102 (Some (mkValidatedProxyImplementationIdentity 77 22 122));
     locked IkDirectAdapter 31 131 None; locked IkAdapterRegistry 8 108 None]
    (mkRemoteSignerIdentity "service" "client" "secret") 0.

Definition identities : RuntimeIdentities :=
  match identities_from_config config lock with
  | Ok ids => ids
  | Err _ => mkRuntimeIdentities ∅ ∅
  end.

(** The hash of one byte of code is [7 * 257 + byte]. *)
Definition code_of (hash : Z) : Bytes := [hash - 7 * 257].
#[local] Instance chain_code : CodeReads := {|
  code_at address := Ok (code_of (100 + address));
  storage_at address slot := Ok 22;
|}.

Definition sources : EventSourceRegistry :=
  match from_config config with
  | Ok r => r
  | Err _ => mkEventSourceRegistry ∅ ∅ ∅ ∅
  end.

(** ** Readings *)

Definition block_at (number : Z) : BlockRef :=
  mkBlockRef number (1000 + number) (999 + number) (10 * number) 0.

Definition topology : TopologyIndex :=
  match new_topology vault with Ok t => t | Err _ => TopologyExample.configured_index end.

Definition parent (idle : Z) : ParentVaultState :=
  mkParentVaultState 1 2 idle 200000500 100 1000000000 200000500 1 0 0 false 0 0 false
    0 0 0 0 8 0 [] ∅ {[9]} ∅ 7 1000000000 1000000000.

Definition reading (number idle revision : Z) : ExactVaultSnapshot :=
  mkExactVaultSnapshot (mkStateContext 1 (block_at number) (10 * number) Proven 0 revision)
    (parent idle)
    {[ 31 := mkDirectAdapterState 31 1 2 3 4 41 [] ∅ 131 200000500 0 [] ]} {[ 31 ]} None
    ∅ ∅ ∅ [] (mkVaultCapabilities true true false false false false false false false false)
    (mkIdleLockLedgerSnapshot [] 0 false) 99.

Definition exact_topology (number : Z) : TopologyIndex :=
  match reconcile_topology_from_snapshot topology (reading number 0 0) with
  | Ok t => t
  | Err _ => topology
  end.
Definition revision_at (number : Z) : Z :=
  match revision (exact_topology number) with Ok r => r | Err _ => 0 end.
Definition candidate (number idle : Z) : ExactVaultSnapshot := reading number idle (revision_at number).

(** The chain answers the reading of block ten and the locked code. *)
#[local] Instance outside_world : StateEnvironment := {|
  moment := nat;
  next_moment := S;
  reported_latest_snapshot _ _ := Ok (candidate 10 0);
  deployed_code _ := chain_code;
  transaction_lookup _ _ := Ok None;
|}.

Definition stored : JsonState :=
  mkJsonState 4 0 [mkCanonicalBlockRecord 1 (block_at 10)] [] [] ∅ [] [] [] [] [] [] [] [] [] [] [].

Definition before : StateWorld :=
  mkStateWorld _ 0%nat stored {[1 := vs_set_state (starting 1) RvCatchingUp None]} ApiDataStore_default
    (initial_fields config) (Some ∅) None 0.

Definition run (changes : list ChainUpdate) (w : StateWorld) : result StateServiceError unit * StateWorld :=
  sio_each (apply_update config identities sources true) changes w.
Definition refreshed := run [CanonicalHead (block_at 10)] before.


Lemma refreshed_runs : run [CanonicalHead (block_at 10)] before = (Ok tt, refreshed.2).
Proof. vm_compute. reflexivity. Qed.

(** The head of block ten enables the vault; the application of
    [automatic_only_on_exact_state]. *)
Lemma automatic_only_on_exact_state_witness :
  (vs_state <$> ww_runtime refreshed.2 !! 1) = Some RvAutomatic /\
  exists snapshot, api_snapshot (ww_api refreshed.2) 1 = Some snapshot /\
    vc_can_allocate (ev_capabilities snapshot) = true.
Proof.
  split; [by vm_compute|].
  destruct (ww_runtime refreshed.2 !! 1) as [status|] eqn:Es; [|by vm_compute in Es].
  destruct (automatic_only_on_exact_state config identities sources true
    [CanonicalHead (block_at 10)] before refreshed.2 1 status)
    as (_ & _ & snapshot & H1 & H2 & _).
  - intros v [status' H]. cbn in H. apply lookup_singleton_Some in H as [<- _]. by left.
  - intros v status' H. cbn in H. apply lookup_singleton_Some in H as [_ <-]. done.
  - exact refreshed_runs.
  - exact Es.
  - assert (can_start_transaction <$> (vs_state <$> Some status) = Some true) as H
      by (rewrite <- Es; by vm_compute).
    by injection H.
  - exists snapshot. exact (conj H1 H2).
Defined.

(** ** A change of the vault *)

Definition record (number index address : Z)
    (topics : option B256 * option B256 * option B256 * option B256) (data : Bytes)
    : CanonicalLogRecord :=
  mkCanonicalLogRecord 1 number (1000 + number) (500 + number) 0 index address topics data.
Definition allocation : CanonicalLogRecord :=
  record 11 0 1 (Some 3, Some 77, Some 31, None) [100; 100; 5].

Definition changed := apply_update config identities sources true
  (CanonicalBlock (block_at 11) [] [allocation]) refreshed.2.

Lemma changed_runs : changed = (Ok tt, changed.2).
Proof. vm_compute. reflexivity. Qed.

(** An allocation by another account suspends the enabled vault. *)
Lemma relevant_change_stops_execution_witness :
  (vs_state <$> ww_runtime changed.2 !! 1) = Some RvCatchingUp /\
  exists report, ww_readiness changed.2 = Some report /\ rp_ready_for_execute report = false.
Proof.
  split; [by vm_compute|].
  destruct (decode_log sources allocation) as [[decoded|]|] eqn:Ed; try (by vm_compute in Ed).
  destruct (relevant_change_stops_execution config identities sources true (block_at 11) []
    [allocation] allocation decoded vault refreshed.2 changed.2) as (_ & _ & _ & H).
  - exact changed_runs.
  - by left.
  - exact Ed.
  - by left.
  - vm_compute in Ed. injection Ed as <-. reflexivity.
  - exact H.
Defined.

(** A quarantined vault with a pending transaction of its signer. *)
Lemma refresh_transition_permitted_witness :
  vault_permits RvRecovery RvAutomatic = true /\
  preserve_incident_quarantine RvRecovery
    (desired_runtime_state ModeExecute (candidate 10 0) true None) false
    = RvLockAccountingUncertain /\
  vault_permits RvRecovery RvLockAccountingUncertain = true.
Proof.
  split; [done|]. split; [done|].
  destruct (refresh_transition_permitted ModeExecute (candidate 10 0) true None RvRecovery eq_refl)
    as (H & _).
  exact H.
Defined.

(** ** Identities *)

Lemma verified_vault_runs_locked_code_witness :
  exists identity, vi_kind identity = IkAssetToken /\ vi_address identity = 2 /\
    deployed_as identity.
Proof.
  destruct (verified_vault_runs_locked_code config lock identities vault (candidate 10 0)
    (2, IkAssetToken, None)) as (identity & (_ & Hk & _) & Ha & Hd).
  - vm_compute. reflexivity.
  - by left.
  - vm_compute. reflexivity.
  - vm_compute. reflexivity.
  - do 3 right. by left.
  - done.
  - by exists identity.
Defined.

(** ** Binding a ledger *)

Definition blueprint : SnapshotBlueprint := blueprint_of config identities vault topology (block_at 10).
Definition held : IdleLockLedgerSnapshot :=
  mkIdleLockLedgerSnapshot [mkIdleLockSnapshot 1 300 5 None] 0 true.
Definition bound : ExactVaultSnapshot :=
  match bind_idle_lock_ledger (candidate 10 500) blueprint held with
  | Ok s => s
  | Err _ => candidate 10 0
  end.

Lemma bound_snapshot_exact_witness :
  ils_locks (ev_idle_locks bound) = ils_locks held /\ vc_can_allocate (ev_capabilities bound) = true /\
  list_sum (il_remaining_assets <$> ils_locks (ev_idle_locks bound)) <= 500.
Proof.
  destruct (bound_snapshot_exact (candidate 10 500) blueprint held bound)
    as (_ & _ & H1 & _ & H2 & _); [vm_compute; reflexivity|].
  split; [exact H1|]. split; [by vm_compute|exact H2].
Defined.

(** ** Watched logs *)

Lemma reads_configured_example : reads_configured sources (candidate 10 0) (exact_topology 10).
Proof.
  split.
  - intros market H. exfalso. revert H. unfold candidate_reads_market.
    replace (ev_markets (candidate 10 0)) with (∅ : gmap MarketId StoredMarketState) by done.
    rewrite lookup_empty. vm_compute. done.
  - intros account. unfold candidate_reads_token_account.
    assert (btree_keys (ti_adapters (exact_topology 10)) = [31]) as Hk by (vm_compute; reflexivity).
    rewrite !orb_true_iff, bool_decide_eq_true, <- elem_of_btree_keys, Hk, list_elem_of_singleton.
    replace (btree_values (ev_adapters (candidate 10 0)))
      with [mkDirectAdapterState 31 1 2 3 4 41 [] ∅ 131 200000500 0 []] by (vm_compute; reflexivity).
    intros [[[Ha%Z.eqb_eq | Ha] | Ha] | Ha].
    + left. subst account. by vm_compute.
    + left. subst account. by vm_compute.
    + cbn [existsb da_adapter da_morpho] in Ha.
      rewrite orb_false_r, orb_true_iff, !Z.eqb_eq in Ha. destruct Ha as [<- | <-].
      * left. by vm_compute.
      * right. by vm_compute.
    + done.
Qed.

(** The allocation concerns the snapshot, and is retained. *)
Lemma affecting_logs_are_retained_witness : retain sources allocation = Ok true.
Proof.
  destruct (affecting_logs_are_retained sources (candidate 10 0) (exact_topology 10) allocation
    reads_configured_example) as [H | (decoded & token & from & to & value & Hd & Hs & _)].
  - vm_compute. reflexivity.
  - exact H.
  - vm_compute in Hd. injection Hd as <-. discriminate Hs.
Defined.

(** Market liquidity that moves between accounts without a role is read by the
    snapshot, but the log of it is not retained. *)
Example morpho_transfer_dropped :
  let transfer := record 11 0 2 (Some 1, Some 3, Some 77, None) [40] in
  canonical_log_affects_candidate sources (candidate 10 0) (exact_topology 10) transfer = Ok true /\
  retain sources transfer = Ok false.
Proof. by vm_compute. Qed.

(** ** The idle ledger *)

(** A decoder of transfers of an amount that is not negative. *)
Definition transfers : EventAbi := {|
  vault_signature := vault_signature;
  adapter_signature := adapter_signature;
  morpho_signature := morpho_signature;
  borrow_rate_update_signature := borrow_rate_update_signature;
  transfer_signature := transfer_signature;
  decode_vault_raw_log := decode_vault_raw_log;
  decode_adapter_raw_log := decode_adapter_raw_log;
  decode_morpho_raw_log := decode_morpho_raw_log;
  decode_irm_raw_log := decode_irm_raw_log;
  decode_token_raw_log topics data :=
    match decode_token_raw_log topics data with
    | Some (Erc20Transfer from to value) =>
        if 0 <=? value then Some (Erc20Transfer from to value) else None
    | None => None
    end;
  to_log_data := to_log_data;
|}.

Lemma transfers_values : @transfer_values transfers.
Proof.
  intros topics data from to value. cbn. destruct topics as [|t [|f [|r [|? ?]]]], data as [|v [|? ?]]; try done.
  destruct (0 <=? v) eqn:El; [|done]. intros [= <- <- <-]. by apply Z.leb_le.
Qed.

Definition transferred (number from to value : Z) : CanonicalLogRecord :=
  record number 0 2 (Some 1, Some from, Some to, None) [value].
Definition transaction_of (hash : B256) : option RpcTransaction :=
  if hash =? 507 then
    Some (mkRpcTransaction 507 77 (Some 2) 0 [] "0x0" (Some 1007) (Some "0x7") (Some "0x0"))
  else if hash =? 508 then
    Some (mkRpcTransaction 508 77 (Some 1) 0 [] "0x0" (Some 1008) (Some "0x8") (Some "0x0"))
  else None.
#[local] Instance read_transactions : LedgerReads := {|
  transaction_by_hash hash := Ok (transaction_of hash);
  canonical_logs_load := true;
  hash_query_answers _ := true;
|}.

(** A donation of 500 before the head, a withdrawal of 200 after it. *)
Definition donated : JsonState :=
  mkJsonState 4 0 [mkCanonicalBlockRecord 1 (block_at 7)] [transferred 7 77 1 500] [] ∅ [] [] [] []
    [] [] [] [] [] [] [].
Definition replayed := @rebuild_idle_ledger transfers sum_keccak read_transactions config sources
  vault donated (block_at 7) 500.

Definition ledger_of (answer : result IdleLedgerServiceError IdleLockLedger) : IdleLockLedger :=
  match answer with Ok ledger => ledger | Err _ => IdleLockLedger_new 1 0 end.
Definition advanced := @apply_idle_logs transfers sum_keccak read_transactions sources vault donated
  (ledger_of replayed) [transferred 8 1 77 200].

Lemma rebuilt_ledger_exact_witness :
  ll_exact_idle_assets (ledger_of advanced) = 300 /\ ledger_wf (ledger_of advanced) /\
  ll_exact_idle_assets (ledger_of advanced)
    = @net_flow transfers sources vault [transferred 7 77 1 500; transferred 8 1 77 200].
Proof.
  split; [by vm_compute|].
  destruct (@rebuilt_ledger_exact transfers sum_keccak read_transactions config sources vault
    donated (block_at 7) 500 (ledger_of replayed) [transferred 8 1 77 200] (ledger_of advanced))
    as (_ & _ & _ & _ & H1 & _ & H2).
  - exact transfers_values.
  - vm_compute. reflexivity.
  - vm_compute. reflexivity.
  - split; [exact H1|]. rewrite H2. vm_compute. reflexivity.
Defined.

(** ** The coordinator *)

#[local] Existing Instance example_json.

Definition revision_of (generation : Z) : PlanningRevision :=
  mkPlanningRevision 1 10 1 (revision_at 10) 0 (block_at 10) 99 (block_at 10) generation {[EconomicState]}.

(** The channel holds one revision of the vault until a newer one replaces it
    at the third look. *)
#[local] Instance replaced_work : WorkChannel := {|
  instant := nat;
  next_instant := S;
  latest_work i := {[1 := revision_of (if decide (i < 2)%nat then 1 else 2)]};
|}.

Definition waiting : CoordinatorWorld :=
  mkCoordinatorWorld _ 0%nat StorageExample.broadcast {[1 := vs_set_state (starting 1) RvAutomatic None]}
    ApiDataStore_default ∅.

(** The published state of the refreshed service. *)
Definition exact : CoordinatorWorld :=
  mkCoordinatorWorld _ 0%nat JsonState_default (ww_runtime refreshed.2) (ww_api refreshed.2) ∅.
Definition passed := process_latest config exact.
Definition deferred := process_latest config waiting.


Lemma unresolved_transaction_defers_planning_witness :
  process_revision config (revision_of 1) waiting = (Ok true, looked waiting).
Proof.
  destruct (load_unresolved StorageExample.broadcast 9) as [[row|]|] eqn:El;
    try (vm_compute in El; discriminate El).
  apply (unresolved_transaction_defers_planning config waiting (revision_of 1) vault row).
  - reflexivity.
  - reflexivity.
  - exact El.
Defined.
End RuntimeExample.

(** ** The execution worker

    The submitted transaction of [StorageExample], that no provider has seen,
    for the vault of [RuntimeExample]. *)

Module ExecutionExample.
Import RuntimeExample.

#[local] Existing Instance sum_keccak.
#[local] Existing Instance word_abi.
#[local] Existing Instance RuntimeExample.word_caps.
#[local] Existing Instance RuntimeExample.brief_snapshot.
#[local] Existing Instance ConformanceExample.word_events.
#[local] Existing Instance TopologyExample.brief_admin.
#[local] Existing Instance example_json.
#[local] Existing Instance word_envelope.
#[local] Instance no_report : ReportJson := fun _ => Some [].
#[local] Instance no_state_report : StateReportJson := fun _ => Some [].

Definition head : BlockRef := mkBlockRef 20 1020 1019 200 0.

#[local] Instance providers : PreflightProviders := {|
  head_latest _ := mret head;
  FinalPreflight.confirmed_nonce _ := mret 0;
  simulate_call _ _ _ _ := mret [];
  simulate_gas _ _ _ _ := mret 100000;
  signer_uses_big_blocks _ := mret false;
|}.

(** The chain answers one reading. *)
Definition answering (reading : ExactVaultSnapshot) : SourceReads := {|
  source_code _ := chain_code;
  read_exact_snapshot _ := Ok reading;
  source_lookup _ := Ok None;
  committed_meanwhile _ s := s;
|}.

(** The recovery providers report the nonces of [nonces] and the transaction
    [seen]; nobody else acts. *)
Definition world_seeing (nonces : list Z) (seen : option RpcTransaction)
    (reading : ExactVaultSnapshot) : ExecutionEnvironment := {|
  occasion := nat;
  next_occasion := S;
  meanwhile _ shared := shared;
  header_at _ := Ok head;
  fees_at _ := Ok (mkRpcFeeQuote 10 2);
  balance_at _ _ _ := Ok 1000000000;
  nonce_views _ _ := (fun nonce => Ok (Some nonce)) <$> nonces;
  transaction_views _ _ := [Ok seen];
  receipt_views _ _ := [Ok None];
  header_views _ _ := [Ok None];
  scan_views _ _ _ _ := [Ok None];
  signer_at _ := SigningExample.local;
  submitter_at _ := acknowledging;
  lookup_at _ := fun _ => Ok None;
  providers_at _ := providers;
  clock_at _ := mkPreflightClock 5000000 5 1 2;
  reads_at _ := answering reading;
  ready_at_gate _ := true;
  reservations_at _ := Some ∅;
|}.
Definition world_of (nonces : list Z) (reading : ExactVaultSnapshot) : ExecutionEnvironment :=
  world_seeing nonces None reading.
Definition environment (nonces : list Z) : ExecutionEnvironment :=
  world_of nonces (candidate 20 0).

Definition ingested : JsonState :=
  process_all JsonState_default (broadcast_commands ++
    [ApplyCanonicalBlock (mkCanonicalBlockRecord 1 head) [] []]).

Definition pending : option UnresolvedTransaction :=
  match load_unresolved ingested 9 with Ok found => found | Err _ => None end.

Definition world (nonces : list Z) (storage : JsonState) : @ExecutionWorld (environment nonces) :=
  @mkExecutionWorld (environment nonces) 0%nat
    (mkShared storage {[1 := vs_set_state (starting 1) RvAutomatic None]} ApiDataStore_default true)
    [] 0 0 [] [].

#[local] Instance local_laws nonces reading o :
  RoutineSignerLaws (@signer_at (world_of nonces reading) o).
Proof. exact (LocalDevelopmentRoutineSigner_laws _ _). Qed.

(** The durable bytes are sent again, and nothing else is. *)
Lemma recovery_stays_in_lane_witness : exists row,
  pending = Some row /\
  let w' := (recover_lane (HX := environment [0]) config identities row
               (world [0] ingested)).2 in
  fst <$> xw_submissions w' = [StorageExample.raw] /\
  exists sent s, xw_submissions w' = [(sent, s)] /\
    lane_bytes config row sent.
Proof.
  destruct pending as [row|] eqn:Hp; [|vm_compute in Hp; discriminate Hp].
  exists row. split; [reflexivity|].
  pose proof (recovery_stays_in_lane (HX := environment [0]) config identities row
    (world [0] ingested)) as [_ H].
  assert (fst <$> xw_submissions (recover_lane (HX := environment [0]) config identities row
    (world [0] ingested)).2 = [StorageExample.raw]) as Hs.
  { vm_compute in Hp. injection Hp as <-. vm_compute. reflexivity. }
  cbv zeta. split; [exact Hs|]. destruct H as [H|(sent & s & H & Hl)].
  - rewrite H in Hs. discriminate Hs.
  - exists sent, s. split; [exact H|exact Hl].
Defined.

(** ** A quarantine *)

Notation disputed :=
  (tick_once (HX := environment [0; 1]) config identities (world [0; 1] ingested)).

Lemma disputed_fails : disputed.1 = Err ProviderDisagreement.
Proof. vm_compute. reflexivity. Qed.

Notation disputed_tick :=
  (tick (HX := environment [0; 1]) config identities (world [0; 1] ingested)).

Lemma disputed_tick_fails : disputed_tick.1 = Err ProviderDisagreement.
Proof. vm_compute. reflexivity. Qed.

(** The recovery providers disagree on the nonce of the signer. *)
Lemma signer_quarantine_enforced_witness :
  disputed_tick.1 = Err ProviderDisagreement /\
  signer_paused (sh_runtime (xw_shared disputed_tick.2)) 1.
Proof.
  split; [exact disputed_tick_fails|].
  pose proof disputed_fails as Hf. destruct disputed as [r w1] eqn:E. cbn [fst] in Hf. subst r.
  destruct (signer_quarantine_enforced _ _ _ _ _ QrProviderDisagreement E eq_refl)
    as (error & w' & Ht & H).
  pose proof disputed_tick_fails as He. rewrite Ht in He |- *. cbn [fst snd] in He |- *.
  injection He as ->.
  destruct H as [[_ Hall]|(refusal & v & Hr & _)]; [|discriminate Hr].
  apply (Hall vault). by left.
Defined.

(** ** A visible cancellation *)

Definition cancellation_bytes : Bytes := [8; 8; 8].
Definition cancelled : JsonState :=
  process_all ingested
    [PersistSignedAttempt (mkSignedAttemptRecord 1 Cancellation (keccak256 cancellation_bytes)
       cancellation_bytes 100 100 200 20 None None);
     TransitionTransaction (mkTransactionTransition 1 CancellationSigned CancellationSubmitted
       (Some (keccak256 cancellation_bytes)) (Some 200) None None 200)].
Definition visible : RpcTransaction :=
  mkRpcTransaction (keccak256 cancellation_bytes) 9 (Some 9) 0 [] "0x0" None None None.
Definition observed := world_seeing [0] (Some visible) (candidate 20 0).

(** While a submitted cancellation is in the pool and not yet included, every
    tick compares it with the plan's own transaction, and quarantines the
    signers. *)
Example visible_cancellation_quarantines :
  tx_state <$> js_transactions cancelled = [CancellationSubmitted] /\
  (tick (HX := observed) config identities
    (@mkExecutionWorld observed 0%nat
       (mkShared cancelled {[1 := vs_set_state (starting 1) RvPendingTransaction None]}
          ApiDataStore_default true) [] 0 0 [] [])).1 = Err XsRecovery /\
  Execution.disposition XsRecovery = QuarantineSigner InvalidReservation.
Proof. vm_compute. auto. Qed.

(** ** Fees *)

Definition quote : RpcFeeQuote := mkRpcFeeQuote 20 2.

(** An initial quote of 40 and 2, replaced until the ceiling of 100 is near. *)
Lemma fee_ladder_leaves_room_witness :
  next_fees config Replace (40, 2) = Ok (Replace, (45, 3)) /\
  next_fees config (Cancel SignerRoleLost) (45, 3) = Ok (Cancel SignerRoleLost, (100, 100)) /\
  exists fees, next_fees config (Cancel SignerRoleLost) (45, 3) = Ok (Cancel SignerRoleLost, fees) /\
    validate_replacement_fees 45 3 fees.1 fees.2 100 = Ok tt.
Proof.
  split; [reflexivity|]. split; [reflexivity|].
  destruct (fee_ladder_leaves_room config (45, 3) (Cancel SignerRoleLost))
    as (d & fees & Ha & Hv & _); [|discriminate|].
  - apply (ladder_replaced config (40, 2)); [|reflexivity].
    apply (ladder_initial config quote 40 2 80000000); [done..|]. vm_compute. reflexivity.
  - exists fees. split; [|exact Hv]. cbn in Ha |- *. injection Ha as <- <-. reflexivity.
Defined.
End ExecutionExample.

(** ** A fresh execution

    An idle vault with two configured positions: the worker rebuilds the
    deployment of its unlocked assets on an exact reading, has it signed and
    sends it. *)

Module FreshExample.
Import RuntimeExample ExecutionExample.

#[local] Existing Instance sum_keccak.
#[local] Existing Instance word_abi.
#[local] Existing Instance RuntimeExample.word_caps.
#[local] Existing Instance RuntimeExample.brief_snapshot.
#[local] Existing Instance ConformanceExample.word_events.
#[local] Existing Instance TopologyExample.brief_admin.
#[local] Existing Instance example_json.
#[local] Existing Instance word_envelope.
#[local] Existing Instance ExecutionExample.no_report.
#[local] Existing Instance ExecutionExample.no_state_report.
#[local] Existing Instance ExecutionExample.local_laws.

Definition params (collateral : Z) : MarketParams := mkMarketParams 2 collateral 7 6 5.
Definition market (collateral : Z) : MarketId := derive_market_id (params collateral).
Definition configured (key collateral : Z) : ValidatedPositionConfig :=
  mkValidatedPositionConfig key 31 (params collateral) (market collateral) Active 0 0 1000000000000
    0 WAD 0 0 0 0 0 0 1000000000000 true 0 (IgnoreRewardsByCuratorMandate 1).
Definition vault : ValidatedVaultConfig :=
  mkValidatedVaultConfig "deployed"%string 1 2 6 101 5 9 SpreadEqualization false 1 0 10 0 0
    5000 20000 0 0 0 0 1000 0 false true false true 7 0 [9] []
    (mkValidatedRateGroupConfig "group"%string 0 0 0 1000000000000 false)
    [mkValidatedAdapterConfig 31 MorphoMarketV1AdapterV2 131 4] None
    [configured 21 12; configured 22 19].
Definition config : ValidatedConfig :=
  let app := vg_app RuntimeExample.config in
  mkValidatedConfig
    (mkValidatedAppConfig (ac_schema_version app) (ac_node app) (ac_chain app) (ac_snapshot app)
      (mkValidatedExecutionConfig 1 3 10 10 10 1 4 2 5 4 2000000 1000 100 100000000000)
      DeploymentExample.solver (ac_strategy app) (ac_signing app) (ac_alerts app) [vault]) 0.
Definition lock : ValidatedProtocolLock :=
  mkValidatedProtocolLock 1 1
    [locked IkMorphoSingleton 3 103 None; locked IkMulticall3 4 104 None;
     locked IkVaultV2 1 101 None; locked IkAdaptiveCurveIrm 6 106 None;
     locked IkAssetToken 2 102 (Some (mkValidatedProxyImplementationIdentity 77 22 122));
     locked IkDirectAdapter 31 131 None; locked IkAdapterRegistry 8 108 None]
    (mkRemoteSignerIdentity "service" "client" "secret") 0.
Definition identities : RuntimeIdentities :=
  match identities_from_config config lock with
  | Ok ids => ids
  | Err _ => mkRuntimeIdentities ∅ ∅
  end.
Definition position (key collateral : Z) : DirectMarketPositionState :=
  mkDirectMarketPositionState key 31 (params collateral) (market collateral) 100000000000000
    100000000000000 0 0 100000000 100000000
    (mkCapRef 1 41, mkCapRef 1 (50 + collateral), mkCapRef 1 (60 + key)) Active
    (IgnoreRewardsByCuratorMandate 1).
Definition stored_market (collateral : Z) : StoredMarketState :=
  mkStoredMarketState (market collateral) (params collateral) 1000000000 1000000000000000 800000000
    800000000000000 200 0 6 1268391679 1000000000.

(** 500 idle assets, of which 200 are locked, at the ingested head. *)
Definition parent : ParentVaultState :=
  mkParentVaultState 1 2 500 200000500 200 1000000000 200000500 1 0 0 false 0 0 false
    0 0 0 0 8 0 [] ∅ {[9]} ∅ 7 1000000000 1000000000.
Definition reading (revision : Z) : ExactVaultSnapshot :=
  mkExactVaultSnapshot (mkStateContext 1 head 200 Proven 0 revision) parent
    {[ 31 := mkDirectAdapterState 31 1 2 3 6 41 [market 12; market 19] ∅ 131 200000000 0 [] ]}
    {[ 31 ]} None
    (list_to_map [(21, position 21 12); (22, position 22 19)])
    (list_to_map [(market 12, stored_market 12); (market 19, stored_market 19)])
    (list_to_map (Example.cap <$> [41; 62; 69; 81; 82])) []
    (mkVaultCapabilities true true false false false false false false false false)
    (mkIdleLockLedgerSnapshot [mkIdleLockSnapshot 1 200 5 None] 0 true) 99.

(** The ledger of the idle assets is durable. *)
Definition ingested : JsonState :=
  with_snapshots (process_all JsonState_default
    [ApplyCanonicalBlock (mkCanonicalBlockRecord 1 head) [] []]) [mkTimedSnapshot (reading 0) 200].
Definition topology_revision : Z :=
  match replay_topology_through config sources ingested vault head with
  | Ok topology => match revision topology with Ok r => r | Err _ => 0 end
  | Err _ => 0
  end.
Definition outside_world : ExecutionEnvironment := world_of [0] (reading topology_revision).

#[local] Instance providers_laws o id :
  PreflightProviderLaws (@providers_at outside_world o) id.
Proof. split; intros; first [done | by intros w row Hf _]. Qed.

Definition world : @ExecutionWorld outside_world :=
  @mkExecutionWorld outside_world 0%nat
    (mkShared ingested {[1 := vs_set_state (starting 1) RvAutomatic None]} ApiDataStore_default true)
    [] 0 0 [] [].

Notation fresh :=
  (execute (HX := outside_world) config identities 1 CapitalDeployment 7 world).

Lemma fresh_sends :
  fresh.1 = Ok tt /\ length (xw_submissions fresh.2) = 1%nat /\
  (vs_state <$> (sh_runtime (xw_shared fresh.2) !! 1)) = Some RvPendingTransaction.
Proof. vm_compute. auto. Qed.

Lemma fresh_execution_exact_witness :
  fresh.1 = Ok tt /\
  exists sent s, xw_submissions fresh.2 = [(sent, s)] /\
    fresh_bytes config identities 1 CapitalDeployment sent s.
Proof.
  pose proof fresh_sends as (Hok & Hlen & _). split; [exact Hok|].
  destruct (fresh_execution_exact (HX := outside_world) config identities 1 CapitalDeployment 7
    world) as [H|(sent & s & H & Hf)].
  - rewrite H in Hlen. discriminate Hlen.
  - exists sent, s. split; [exact H|exact Hf].
Defined.
End FreshExample.
